(* ===== verification/_CoqProject ===== *)
-Q . S2P
Prelude.v
EventQ.v
EventQRep.v
EventQOps.v
EventSched.v
EventQProps.v
EventState.v
Drain.v
Packet.v
WorkQueue.v
WorkQueueProps.v
IntMath.v
Clocked.v
Strtol.v
Hoare.v
TRE.v
TREInv.v
TREPrims.v
TREMem.v
TREDecode.v
TREProps.v
TREDemo.v
Bitfield.v
AddrRange.v
AddrRangeMap.v
AddrRangeMapProps.v
SatCounter.v
ReplPolicy.v
ReplPolicyProps.v
TreePLRU.v
Emu.v
EmuProps.v
Request.v
ByteSwap.v
PacketData.v
PacketDataProps.v
PacketQueue.v
PacketQueueProps.v
AbstractMem.v
AbstractMemProps.v
SimpleMem.v
SimpleMemProps.v
Indexing.v
IndexingProps.v
CacheBlk.v
Tags.v
TagsProps.v
XBarLayer.v
XBarLayerProps.v
XBar.v
XBarProps.v
XBarRoute.v
SnoopFilter.v
SnoopFilterProps.v
Bridge.v
BridgeProps.v
CacheQueue.v
CacheQueueProps.v
WriteQueue.v
WriteQueueProps.v
MSHR.v
MSHRProps.v
MSHRQueueProps.v
MSHRPending.v
PendingProtocol.v
MissSystem.v
BaseCache.v
NoncoherentCache.v
FlatMemory.v
CacheLines.v
CacheOps.v
NoncoherentProps.v
CacheMemory.v
CacheSystem.v
CacheDemo.v
XBarSystem.v
FALRU.v
FALRUList.v
FALRUProps.v
FALRUStack.v
