(* ===== verification/Prelude.v ===== *)
(** * HetSim-gem5: a verification library

    HetSim is a trace-driven simulator built on gem5.  Trace replay engines
    (TREs) read a trace of memory accesses and synchronisation primitives per
    processing element, issue the accesses as memory packets and play the
    primitives against each other; gem5 supplies the discrete-event queue, the
    clocks, the packets, the address decoding, the caches and the memory-side
    work queue the packets may reach.  A separate emulation library runs the
    same applications natively, on threads.  Paths below are relative to the
    repository; "gem5/" stands for gem5/src/.

    ** How the parts interact

    An object of the simulator schedules its events on an event queue, which
    calls the handlers back in time order; the handlers compute ticks with the
    clock, exchange packets through ports and schedule further events.  The
    library follows this structure.  EventQ models the queue as the code has it,
    a heap of linked bins; EventSched states what a client may rely on, a finite
    map from events to ticks, and EventQProps proves that the heap implements it.
    Everything with events (the TREs, the work queue, memories, packet queues,
    crossbar layers) is modelled on top of the abstract scheduler, so that its
    theorems do not depend on the pointer structure.  Likewise tags are proved
    against the interfaces of the indexing and replacement policies, and crossbars
    use the theorems of their layers, packet queues and range maps, and caches are
    proved over any component that promises to be an array of bytes.

    ** The files

    - Prelude: machine-width integers, failures, the state-and-error monad with
      its inversion tactic [minv], shared lemmas, the hint database [hetsim].
    - EventQ (gem5/sim/eventq.{hh,cc}, eventq_impl.hh, base/flags.hh): events
      with flags, the two-dimensional linked list ([nextBin], [nextInBin]),
      insert, remove, schedule, deschedule, reschedule, serviceOne,
      serviceEvents, asynchronous insertion, debugVerify.  EventQRep and
      EventQOps: the bins a heap represents, and that the operations act on
      them.  EventSched: the abstract scheduler and the public invariant.
      EventQProps: refinement.  EventState: flag accessors, checkpoints,
      the destructor.
    - Packet (gem5/mem/packet.{hh,cc}): the memory commands, the attribute table,
      turning a request into a response.
    - Request (gem5/mem/request.hh), ByteSwap (sim/byteswap.hh), PacketData,
      PacketDataProps (mem/packet.{hh,cc}, packet_access.hh): requests and
      packets with flags, data, byte enables and functional satisfaction.
    - PacketQueue, PacketQueueProps (gem5/mem/packet_queue.{hh,cc}): the queue of
      packets behind a port.  The peer's answer, and what reaches the queue from
      inside the call, are arguments.
    - AbstractMem, AbstractMemProps (gem5/mem/abstract_mem.{hh,cc}): accesses to a
      backing store and load-locked reservations.  SimpleMem, SimpleMemProps
      (gem5/mem/simple_mem.{hh,cc}): the controller with its events and retries.
    - XBarLayer, XBarLayerProps (gem5/mem/xbar.{hh,cc}): the arbitration of one
      destination of a crossbar.  XBar (xbar.cc, noncoherent_xbar.cc): address
      decoding and the non-coherent crossbar.  XBarProps: decoding.  XBarRoute:
      responses.  SnoopFilter, SnoopFilterProps (gem5/mem/snoop_filter.{hh,cc}):
      which ports of a crossbar hold or have requested a line.  Bridge,
      BridgeProps (gem5/mem/bridge.{hh,cc}): two packet queues between buses.
    - Drain (gem5/sim/drain.{hh,cc}): the drain manager and its objects.
    - WorkQueue, WorkQueueProps (gem5/mem/work_queue.{hh,cc}): the bounded
      hardware queue with a push and a pop port, its release and dequeue events,
      retries and draining.  A state is a record of the object's members and of
      its scheduler; an input is a packet, a retry or a due event.
    - IntMath, Bitfield, Clocked, SatCounter (gem5/base/intmath.hh,
      base/bitfield.{hh,cc}, base/types.hh, sim/clocked_object.hh,
      base/sat_counter.hh): integer utilities at their machine width.
    - Strtol: std::stol and std::stoi as tre.cc uses them.
    - Hoare: weakest preconditions for the monad, with a stepping tactic.
    - TRE (gem5/cpu/tre/tre.{hh,cc}): the replay engines.  [World] holds the
      static maps of the class (mutexes, barriers, queues), the TRE objects and
      the scheduler; [tick] decodes one trace entry; the handlers are the
      primitives; [w_step] is one input: a due event, a response, a retry, or
      time passing.  TREInv: the invariant.  TREPrims, TREMem, TREDecode: that
      the primitives, the memory entries and the whole handlers keep it.
      TREProps: reachable worlds and the theorems.  TREDemo: an executable
      checker, concrete runs and deviations.
    - AddrRange (gem5/base/addr_range.hh): interleaved address ranges.
      AddrRangeMap, AddrRangeMapProps (gem5/base/addr_range_map.hh): decoding an
      address to the range that holds it, with the lookup cache.
    - ReplPolicy, ReplPolicyProps (gem5/mem/cache/replacement_policies): the
      interface [BaseReplacementPolicy] as a class, its contract
      [LawfulPolicy], and LRU, BIP, FIFO, LFU, MRU, weighted LRU, random, BRRIP
      and second chance as instances.  TreePLRU: tree pseudo-LRU, whose entries
      share the tree of their set.
    - Indexing, IndexingProps (gem5/mem/cache/tags/indexing_policies): the
      interface as a record of operations, its laws as the class
      [LawfulIndexing], set-associative and skewed instances.  CacheBlk
      (mem/cache/cache_blk.{hh,cc}): blocks and their locks.  Tags, TagsProps
      (mem/cache/tags/base.{hh,cc}, base_set_assoc.{hh,cc}): the tag store.
    - CacheQueue, CacheQueueProps (gem5/mem/cache/queue.hh, queue_entry.hh): the
      queue template over the class [QueueEntry] of its entries.  WriteQueue,
      WriteQueueProps (write_queue{,_entry}.{hh,cc}): the write buffer.  MSHR
      (mshr.{hh,cc}, mshr_queue.{hh,cc}, and what base.cc does with a register
      when a response arrives): miss status registers.  The registers of all
      caches live in one store, because a register reaches those above it through
      the sender states of its packets.  MSHRProps: what an operation does to the
      lists of a register.  MSHRQueueProps: the miss queue of one cache.
      MSHRPending, PendingProtocol: pending flags.  MissSystem: the miss queues of
      several caches together.
    - BaseCache (gem5/mem/cache/base.{hh,cc}): the cache controller in atomic and
      functional mode, over the class [MemorySide] of what is below it; what a
      derived class overrides is an argument.  NoncoherentCache
      (noncoherent_cache.cc): the overrides, and the cache as a [MemorySide].
      FlatMemory: the promise [LawfulMemory] of a memory side to behave like an
      array of bytes, kept by the simple memory.  CacheLines, CacheOps: a cache as
      a map from lines to bytes, and what each operation does to it.
      NoncoherentProps, CacheMemory: atomic and functional accesses; the cache
      keeps the promise if the component below does.  CacheSystem: runs of
      requests, and memWriteback and memInvalidate.  CacheDemo: two levels of
      cache over a memory, and what lies outside the promise.
    - XBarSystem: a non-coherent crossbar with the components behind it, as a
      [MemorySide] that keeps the promise if they do.
    - FALRU (gem5/mem/cache/tags/fa_lru.{hh,cc}): the fully associative tags with
      their linked list and the tracking of smaller caches.  FALRUList: links as
      functions along a list of blocks, masks and boundaries.  FALRUProps: the
      operations on a stack of keys, construction and the sanity check.
      FALRUStack: references, against separate LRU caches.
    - Emu, EmuProps (emu/src/util.cpp, emu/inc/util.h): the emulation library as
      interleaved threads with mutexes and condition variables; the barriers and
      mutexes of the application.

    ** What the theorems show

    - Event queue: schedule, deschedule and reschedule refine the abstract
      scheduler; serviceOne serves an event no other precedes and moves the
      clock to it; debugVerify accepts every consistent queue up to the case it
      gets wrong; destroying a queue ends with nothing scheduled.
    - Work queue: no input that respects the port protocol makes it panic, and
      the data leaving the pop port is the data pushed, in order.
    - Packets and requests: splitting a request partitions its bytes; a
      functional read of a queue sees the latest queued data.
    - Packet queue: nothing is lost or reordered against the documented order,
      and while packets are queued either the send event is scheduled or a retry
      is owed.
    - Memories: an access has the effect of its command on the bytes, and a
      store-conditional succeeds exactly when the history says so, for memory and
      for cache blocks; the controller answers every request once, in order, and
      not before its latency has passed.
    - Crossbars: a packet goes to the port that announced its address; refused
      ports are each retried once; in every state the port protocol allows, a response
      returns to the port of its request.
    - Snoop filter: it refines a directory of holders and requesters per line,
      undone requests included, and a snoop reaches every port that may hold the
      line.  Bridge: nothing is lost or reordered, reserved response slots cover
      the responses on their way, and every stalled sender gets its retry.
    - Tags: the store refines a directory from block addresses to blocks, from
      the constructor on; skewed indexing is invertible.
    - Fully associative tags: they are an LRU stack, and the mask of a lookup tells
      for every tracked size whether an LRU cache of that size would hit; the
      counters of the source do not.
    - Cache queues: the write buffer refines a list of pending writes; the lists
      and counters of a miss queue stay right and no assertion about them fails;
      requests leave a register in the order of their arrival, none lost or
      served twice, whatever is deferred, promoted or asked for again; over all
      caches, targets marked as pending and registers flagged as pending
      correspond one to one, and clearing the flags ends.
    - Caches: a mostly inclusive, writable non-coherent cache made by its
      constructor over an array of bytes is an array of bytes, for all sizes, lawful
      indexing and replacement policies, and plain reads and writes within a line
      of one secureness: no such request fails, reads return the bytes last written, and the
      cache cannot be told from the memory below it.  This composes to stacks of
      caches.  A crossbar over memories is one memory, which may be below a cache
      or another crossbar.  Flushing makes the memory below hold the contents.  An error
      response from below always ends in a failed assertion.
    - Draining: the manager's count is the number of objects still draining, and
      tryDrain answers whether there are none.
    - TRE: a step of the system fails, if it fails, in one of the ways listed by
      [benign], none of which is an assertion of the event queue; a TRE has at
      most one continuation at any time; mutexes have one owner, barriers and queues keep their counts; a TRE never has
      more accesses in flight than configured, a blocking access is the last one
      issued, and blocked accesses wait for addresses in flight.
    - Emulation library: under every interleaving the queues are bounded FIFOs
      with mutual exclusion, and no wake-up is lost.
    - Address ranges: membership in terms of the mask parities, stripes
      partition a range, offsets within a stripe are unique, interleaving bits
      can be taken out and put back, the legacy constructor, intersection; the
      map finds the one entry of an address and keeps its entries apart.
    - Replacement: each policy picks the candidate it promises; searches end.
    - Integers: the bit cascades compute logarithms, rounding and powers at
      64 bits, fields and sign extension, saturating arithmetic, clock edges,
      number parsing.

    Theorems named after a deviation ([..._misses_start], [..._throws] and so on)
    exhibit inputs on which the code does not do what it means to.

    ** Bounds and fuel

    Ticks, addresses and cycles are [Z] with the wrap-around of their C++ type
    written out ([u64], [u32], [u8], [sgn]); theorems about time carry a bound
    such as [2^62] so that sums do not wrap.  Caches have lines of 4 bytes to
    2^30 bytes and latencies below 2^20 cycles.  Loops that are not structural take
    fuel, and the theorems show that the fuel suffices: [loop_fuel] of a queue is
    the size of its heap plus one, which bounds every chain of bins; [power] runs
    32 rounds for a 32-bit exponent; the dependency list of a trace entry is
    read with the number of words left plus two; the second-chance search takes
    one round per candidate plus one; the tree policy climbs and descends at most
    64 levels; clearing pending flags takes one round per register, and every round
    clears a flag that was set.  The number printer of Strtol takes 64 digits for 64-bit numbers.

    ** What is assumed and what is left out

    The environment of a model is an argument of its steps: whether a port
    accepts a packet, which response arrives, what a random generator draws,
    which thread runs.  The theorems about reachable systems of TREs assume of
    the traces that every WAKE names another TRE which is about to tick or sleeps
    without waiting for anything ([wf_winput]; [wake] itself only refuses a target
    whose tick is scheduled) and that no word reads as -1, the address the code
    uses as a sentinel ([trace_ok]); TREDemo shows what the code does otherwise.
    Those about caches hold for the requests and configurations that
    [LawfulMemory] and CacheSystem name, those about crossbars and miss queues for
    the inputs that their [x_allowed] and [p_allowed] admit, and nothing is
    constructed while a system drains.  Not modelled: statistics registration,
    ports and parameter objects, DPRINTF output, the ISA models, CPU models, Ruby,
    SystemC, devices, Python configuration, and vendored code under gem5/ext.

    ** Plan

    Modelled first: the event queue, the work queue and the TREs with what they
    use.  Then the emulation library, address decoding and replacement; then
    packets, packet queues, memories, draining, tags, crossbars, the snoop filter
    and bridges; then write buffers and miss status registers; then the cache
    controller and the non-coherent cache in atomic and functional mode.  Next:
    the timing handlers of the cache controller, the coherent cache and crossbar,
    sector tags, clock and voltage domains, communication
    monitors, and refinement between the queues of the emulation library and of
    the TREs. *)

From stdpp Require Export base tactics list gmap strings option numbers.
From stdpp Require Export sorting.
From Stdlib Require Export ZArith Lia.

#[global] Open Scope Z_scope.

(** ** Machine-width integers

    Unsigned [w]-bit arithmetic of the source is arithmetic on [Z] followed by
    a wrap; signed values are recovered by [sgn]. *)

Definition wrap (w : Z) (x : Z) : Z := x mod 2 ^ w.
Definition u8 : Z -> Z := wrap 8.
Definition u16 : Z -> Z := wrap 16.
Definition u32 : Z -> Z := wrap 32.
Definition u64 : Z -> Z := wrap 64.

(** Two's complement reading of a [w]-bit pattern. *)
Definition sgn (w : Z) (x : Z) : Z :=
  let y := wrap w x in if 2 ^ (w - 1) <=? y then y - 2 ^ w else y.

(** ** Failures

    What stops the simulator or makes the C++ undefined: a failed [assert], the
    [fatal]/[panic] macros of base/logging.hh, a standard-library exception
    that nobody catches, [exit(1)], an invalid pointer or other undefined
    behaviour, and (for modelled loops only) exhausted fuel. *)

Inductive err :=
  | EAssert (what : string)
  | EFatal (msg : string)
  | EPanic (msg : string)
  | EInvalidArgument
  | EOutOfRange
  | EExit
  | EUndefined (what : string)
  | EFuel.

Inductive res (A : Type) :=
  | Ok (a : A)
  | Err (e : err).
Arguments Ok {A} _.
Arguments Err {A} _.

#[global] Instance res_ret : MRet res := @Ok.
#[global] Instance res_bind : MBind res :=
  fun A B f m => match m with Ok a => f a | Err e => Err e end.

(** The same guards in code without state of its own. *)
Definition assert_r (b : bool) (what : string) : res unit :=
  if b then Ok tt else Err (EAssert what).
Definition panic_r (b : bool) (msg : string) : res unit :=
  if b then Err (EPanic msg) else Ok tt.

Lemma assert_r_true {A} b what (k : res A) : b = true -> (assert_r b what ;; k) = k.
Proof. by intros ->. Qed.
Lemma panic_r_false {A} b msg (k : res A) : b = false -> (panic_r b msg ;; k) = k.
Proof. by intros ->. Qed.

(** ** The state-and-error monad of the modelled handlers *)

Definition M (S A : Type) : Type := S -> res (A * S).

#[global] Instance M_ret {S} : MRet (M S) := fun A a s => Ok (a, s).
#[global] Instance M_bind {S} : MBind (M S) :=
  fun A B f m s => match m s with Ok (a, s') => f a s' | Err e => Err e end.

Definition get {S} : M S S := fun s => Ok (s, s).
Definition gets {S A} (f : S -> A) : M S A := fun s => Ok (f s, s).
Definition modify {S} (f : S -> S) : M S unit := fun s => Ok (tt, f s).
Definition throw {S A} (e : err) : M S A := fun _ => Err e.
Definition lift {S A} (r : res A) : M S A :=
  fun s => match r with Ok a => Ok (a, s) | Err e => Err e end.

(** [assert(b)] and [fatal_if]/[panic_if] of the source. *)
Definition assert_ {S} (b : bool) (what : string) : M S unit :=
  if b then mret tt else throw (EAssert what).
Definition fatal_if {S} (b : bool) (msg : string) : M S unit :=
  if b then throw (EFatal msg) else mret tt.
Definition panic_if {S} (b : bool) (msg : string) : M S unit :=
  if b then throw (EPanic msg) else mret tt.

Definition when_ {S} (b : bool) (m : M S unit) : M S unit :=
  if b then m else mret tt.

(** Sequential iteration of an effect over a list ([for (auto t : l) f(t)]). *)
Fixpoint forM_ {S A} (l : list A) (f : A -> M S unit) : M S unit :=
  match l with
  | [] => mret tt
  | x :: l => f x ;; forM_ l f
  end.

(** Running a computation for its final state only. *)
Definition exec {S A} (m : M S A) (s : S) : res S :=
  match m s with Ok (_, s') => Ok s' | Err e => Err e end.

(** A computation on a part of the state. *)
Definition zoom {S T R : Type} (view : S -> T) (put : T -> S -> S) (m : M T R) : M S R := fun x =>
  match m (view x) with Ok (r, t) => Ok (r, put t x) | Err e => Err e end.

Definition is_ok {A} (r : res A) : bool :=
  match r with Ok _ => true | Err _ => false end.

(** *** Inversion lemmas *)

Lemma res_bind_ok {A B} (m : res A) (f : A -> res B) b : (m ≫= f) = Ok b <-> exists a, m = Ok a /\ f a = Ok b.
Proof. destruct m; simpl; naive_solver. Qed.

Section Inversion.
Context {S : Type}.
Implicit Types s : S.

Lemma bind_ok {A B} (m : M S A) (f : A -> M S B) s r :
  (m ≫= f) s = Ok r <-> exists a s1, m s = Ok (a, s1) /\ f a s1 = Ok r.
Proof.
  unfold mbind, M_bind. destruct (m s) as [[a s1]|e]; naive_solver.
Qed.

(** Running forwards. *)
Lemma bind_run {A B} (m : M S A) (f : A -> M S B) s a s1 :
  m s = Ok (a, s1) -> (m ≫= f) s = f a s1.
Proof. unfold mbind, M_bind. by intros ->. Qed.

Lemma bind_err {A B} (m : M S A) (f : A -> M S B) s e :
  m s = Err e -> (m ≫= f) s = Err e.
Proof. unfold mbind, M_bind. by intros ->. Qed.

Lemma bind_assoc {A B C} (m : M S A) (f : A -> M S B) (g : B -> M S C) s :
  ((m ≫= f) ≫= g) s = (m ≫= (fun a => f a ≫= g)) s.
Proof. unfold mbind, M_bind. by destruct (m s) as [[a s1]|e]. Qed.

Lemma bind_gets {A B} (f : S -> A) (k : A -> M S B) s :
  (gets f ≫= k) s = k (f s) s.
Proof. done. Qed.

Lemma bind_modify {B} (f : S -> S) (k : unit -> M S B) s :
  (modify f ≫= k) s = k tt (f s).
Proof. done. Qed.

Lemma bind_ret {A B} (a : A) (k : A -> M S B) s :
  ((mret a : M S A) ≫= k) s = k a s.
Proof. done. Qed.

Lemma bind_assert {B} b what (k : unit -> M S B) s :
  b = true -> (assert_ b what ≫= k) s = k tt s.
Proof. by intros ->. Qed.

Lemma bind_panic_if {B} b msg (k : unit -> M S B) s :
  b = false -> (panic_if b msg ≫= k) s = k tt s.
Proof. by intros ->. Qed.

Lemma bind_fatal_if {B} b msg (k : unit -> M S B) s :
  b = false -> (fatal_if b msg ≫= k) s = k tt s.
Proof. by intros ->. Qed.

Lemma ret_ok {A} (a : A) s r : (mret a : M S A) s = Ok r <-> r = (a, s).
Proof. unfold mret, M_ret. naive_solver. Qed.

Lemma gets_ok {A} (f : S -> A) s r : gets f s = Ok r <-> r = (f s, s).
Proof. unfold gets. naive_solver. Qed.

Lemma modify_ok (f : S -> S) s r : modify f s = Ok r <-> r = (tt, f s).
Proof. unfold modify. naive_solver. Qed.

Lemma throw_ok {A} e s (r : A * S) : throw e s = Ok r <-> False.
Proof. unfold throw. naive_solver. Qed.

Lemma lift_ok {A} (x : res A) s r :
  lift x s = Ok r <-> exists a, x = Ok a /\ r = (a, s).
Proof. unfold lift. destruct x; naive_solver. Qed.

Lemma assert_ok b what s r :
  assert_ b what s = Ok r <-> b = true /\ r = (tt, s).
Proof. destruct b; unfold assert_, throw, mret, M_ret; naive_solver. Qed.

Lemma fatal_if_ok b msg s r :
  fatal_if b msg s = Ok r <-> b = false /\ r = (tt, s).
Proof. destruct b; unfold fatal_if, throw, mret, M_ret; naive_solver. Qed.

Lemma panic_if_ok b msg s r :
  panic_if b msg s = Ok r <-> b = false /\ r = (tt, s).
Proof. destruct b; unfold panic_if, throw, mret, M_ret; naive_solver. Qed.
End Inversion.

(** [minv H] reads a successful run [H : (c1 ;; c2) s = Ok r] backwards into
    the intermediate states and the guards that must have held. *)
Ltac minv1 H :=
  lazymatch type of H with
  | (mbind _ _) _ = Ok _ =>
      let a := fresh "a" in let s := fresh "s" in
      let H1 := fresh "H" in let H2 := fresh "H" in
      apply bind_ok in H as (a & s & H1 & H2);
      try minv1 H1; try minv1 H2
  | (mret _) _ = Ok _ => apply ret_ok in H; simplify_eq/=
  | gets _ _ = Ok _ => apply gets_ok in H; simplify_eq/=
  | modify _ _ = Ok _ => apply modify_ok in H; simplify_eq/=
  | throw _ _ = Ok _ => apply throw_ok in H; contradiction
  | lift _ _ = Ok _ =>
      let a := fresh "a" in let Ha := fresh "H" in
      apply lift_ok in H as (a & Ha & H); simplify_eq/=
  | assert_ _ _ _ = Ok _ =>
      let Hb := fresh "Hg" in apply assert_ok in H as (Hb & H); simplify_eq/=
  | fatal_if _ _ _ = Ok _ =>
      let Hb := fresh "Hg" in apply fatal_if_ok in H as (Hb & H); simplify_eq/=
  | panic_if _ _ _ = Ok _ =>
      let Hb := fresh "Hg" in apply panic_if_ok in H as (Hb & H); simplify_eq/=
  end.
Ltac minv H := minv1 H.

(** ** Generic lemmas *)

Create HintDb hetsim.

Lemma wrap_small w x : 0 <= x < 2 ^ w -> wrap w x = x.
Proof. apply Z.mod_small. Qed.

Lemma wrap_bound w x : 0 <= w -> 0 <= wrap w x < 2 ^ w.
Proof. intros. apply Z.mod_pos_bound. lia. Qed.

Lemma u64_small x : 0 <= x < 2 ^ 64 -> u64 x = x.
Proof. apply wrap_small. Qed.

Lemma u64_bound x : 0 <= u64 x < 2 ^ 64.
Proof. apply wrap_bound. lia. Qed.

Lemma u8_bound x : 0 <= u8 x < 2 ^ 8.
Proof. apply wrap_bound. lia. Qed.

Lemma u8_small x : 0 <= x < 2 ^ 8 -> u8 x = x.
Proof. apply wrap_small. Qed.

#[export] Hint Resolve u64_bound u8_bound : hetsim.

(** A test of one bit. *)
Lemma land_bit x k : 0 <= k -> negb (Z.land x (2 ^ k) =? 0) = Z.testbit x k.
Proof.
  intros Hk. destruct (Z.testbit x k) eqn:E.
  - apply negb_true_iff, Z.eqb_neq. intros H. assert (Z.testbit (Z.land x (2 ^ k)) k = false) as H' by (by rewrite H, Z.bits_0).
    rewrite Z.land_spec, E, Z.pow2_bits_true in H' by done. done.
  - apply negb_false_iff, Z.eqb_eq. apply Z.bits_inj'. intros i Hi. rewrite Z.land_spec, Z.bits_0, Z.pow2_bits_eqb by done.
    destruct (Z.eqb_spec k i) as [<-|]; [by rewrite E|by rewrite andb_false_r].
Qed.

Lemma NoDup_app_cons_middle {A} (l1 l2 : list A) x :
  NoDup (l1 ++ x :: l2) <-> NoDup (x :: l1 ++ l2).
Proof. by rewrite <- Permutation_middle. Qed.

(** Replacing one entry of a map. *)
Lemma map_Forall_replace {K A} `{Countable K} (P : K -> A -> Prop) (m : gmap K A) k x :
  P k x -> (forall i y, i <> k -> m !! i = Some y -> P i y) -> map_Forall P (<[k := x]> m).
Proof.
  intros Hk Hm i y. destruct (decide (k = i)) as [<-|Hne].
  - rewrite lookup_insert_eq. by intros [= <-].
  - rewrite lookup_insert_ne by done. by apply Hm.
Qed.

Lemma Forall_filter_keep {A} (P Q : A -> Prop) `{!forall x, Decision (P x)} (l : list A) :
  Forall Q l -> Forall Q (filter P l).
Proof. rewrite !Forall_forall. intros Hl x [_ Hx]%list_elem_of_filter. by apply Hl. Qed.

Lemma list_filter_all {A} (P : A -> Prop) `{!forall x, Decision (P x)} (l : list A) :
  Forall P l -> filter P l = l.
Proof. induction 1 as [|x l Hx _ IH]; [done|]. rewrite filter_cons, decide_True by done. by rewrite IH. Qed.

(** Filters that agree on the elements of the list. *)
Lemma list_filter_iff' {A} (P Q : A -> Prop) `{!forall x, Decision (P x)} `{!forall x, Decision (Q x)} (l : list A) :
  (forall x, x ∈ l -> P x <-> Q x) -> filter P l = filter Q l.
Proof.
  induction l as [|x l IH]; intros Heq; [done|]. rewrite !filter_cons, IH by set_solver.
  assert (P x <-> Q x) by (apply Heq; set_solver). repeat case_decide; tauto.
Qed.
