(* ===== verification/EventQ.v ===== *)
(** * The event queue (sim/eventq.hh, sim/eventq.cc, sim/eventq_impl.hh)

    Events live in a heap indexed by their addresses; the queue is the linked
    list of linked lists of the source: [nextBin] leads from the top event of
    one bin (same tick and priority) to the top event of the next one,
    [nextInBin] through the events of a bin.  Every pointer write of [insert],
    [remove] and [serviceOne] is kept, the stale [nextBin] pointers included.

    The theorems relate the heap to the list of bins it represents, and the
    bins to one flat list ordered by (tick, priority) with the newest event
    first among equals. *)

From S2P Require Import Prelude.

Abbreviation ptr := nat.

(** ** Data *)

(** Flag constants of [EventBase]. *)
Definition PublicRead : Z := 0x003f.
Definition PublicWrite : Z := 0x001d.
Definition Squashed : Z := 0x0001.
Definition Scheduled : Z := 0x0002.
Definition Managed : Z := 0x0004.
Definition IsExitEvent : Z := 0x0010.
Definition IsMainQueue : Z := 0x0020.
Definition Initialized : Z := 0x7a40.
Definition InitMask : Z := 0xffc0.

(** [Flags<T>]: [isSet], [set], [clear] (base/flags.hh). *)
Definition fl_isSet (f m : Z) : bool := negb (Z.land f m =? 0).
Definition fl_set (f m : Z) : Z := Z.lor f m.
Definition fl_clear (f m : Z) : Z := Z.ldiff f m.

Record Event := mkEvent {
  nextBin : option ptr;
  nextInBin : option ptr;
  ev_when : Z;
  ev_priority : Z;
  ev_flags : Z;
  ev_queue : option nat
}.

Record EventQueue := mkQueue {
  q_name : nat;                 (* identity of this queue *)
  q_head : option ptr;
  q_curTick : Z;
  q_async : list ptr;
  q_heap : gmap ptr Event
}.

#[global] Instance Event_eq_dec : EqDecision Event.
Proof. solve_decision. Defined.

(** Field updates. *)
Definition set_nextBin (p : option ptr) (e : Event) : Event :=
  mkEvent p (nextInBin e) (ev_when e) (ev_priority e) (ev_flags e) (ev_queue e).
Definition set_nextInBin (p : option ptr) (e : Event) : Event :=
  mkEvent (nextBin e) p (ev_when e) (ev_priority e) (ev_flags e) (ev_queue e).
Definition set_flags (f : Z) (e : Event) : Event :=
  mkEvent (nextBin e) (nextInBin e) (ev_when e) (ev_priority e) f (ev_queue e).
Definition setWhen (when : Z) (q : nat) (e : Event) : Event :=
  mkEvent (nextBin e) (nextInBin e) when (ev_priority e) (ev_flags e) (Some q).

Definition set_head (p : option ptr) (q : EventQueue) : EventQueue :=
  mkQueue (q_name q) p (q_curTick q) (q_async q) (q_heap q).
Definition set_curTick (t : Z) (q : EventQueue) : EventQueue :=
  mkQueue (q_name q) (q_head q) t (q_async q) (q_heap q).
Definition set_async (l : list ptr) (q : EventQueue) : EventQueue :=
  mkQueue (q_name q) (q_head q) (q_curTick q) l (q_heap q).
Definition set_heap (h : gmap ptr Event) (q : EventQueue) : EventQueue :=
  mkQueue (q_name q) (q_head q) (q_curTick q) (q_async q) h.

(** The constructor [Event(Priority p, Flags f)]. *)
Definition new_Event (p f : Z) : res Event :=
  if Z.land f (Z.ldiff 0xffff PublicWrite) =? 0
  then Ok (mkEvent None None 0 p (Z.lor Initialized f) None)
  else Err (EAssert "f.noneSet(~PublicWrite)").

Definition new_EventQueue (name : nat) (h : gmap ptr Event) : EventQueue :=
  mkQueue name None 0 [] h.

Definition initialized (e : Event) : bool := Z.land (ev_flags e) InitMask =? Initialized.
Definition scheduled (e : Event) : bool := fl_isSet (ev_flags e) Scheduled.
Definition squashed (e : Event) : bool := fl_isSet (ev_flags e) Squashed.
Definition isExitEvent (e : Event) : bool := fl_isSet (ev_flags e) IsExitEvent.
Definition isManaged (e : Event) : bool := fl_isSet (ev_flags e) Managed.

(** The comparison operators on events: tick first, priority second. *)
Definition ev_lt (l r : Event) : bool :=
  (ev_when l <? ev_when r)
  || ((ev_when l =? ev_when r) && (ev_priority l <? ev_priority r)).
Definition ev_gt (l r : Event) : bool :=
  (ev_when l >? ev_when r)
  || ((ev_when l =? ev_when r) && (ev_priority l >? ev_priority r)).
Definition ev_le (l r : Event) : bool :=
  (ev_when l <? ev_when r)
  || ((ev_when l =? ev_when r) && (ev_priority l <=? ev_priority r)).
Definition ev_ge (l r : Event) : bool :=
  (ev_when l >? ev_when r)
  || ((ev_when l =? ev_when r) && (ev_priority l >=? ev_priority r)).
Definition ev_eq (l r : Event) : bool :=
  (ev_when l =? ev_when r) && (ev_priority l =? ev_priority r).
Definition ev_ne (l r : Event) : bool :=
  negb (ev_when l =? ev_when r) || negb (ev_priority l =? ev_priority r).

(** ** Operations *)

Abbreviation Q := (M EventQueue).

Definition load (p : ptr) : Q Event := fun q =>
  match q_heap q !! p with
  | Some e => Ok (e, q)
  | None => Err (EUndefined "dangling event pointer")
  end.
Definition store (p : ptr) (f : Event -> Event) : Q unit :=
  e ← load p; modify (fun q => set_heap (<[p := f e]> (q_heap q)) q).

(** [Event::insertBefore] *)
Definition insertBefore (event : ptr) (curr : option ptr) : Q (option ptr) :=
  match curr with
  | None =>
      store event (set_nextBin None);;
      store event (set_nextInBin None);;
      mret (Some event)
  | Some c =>
      ev ← load event; cv ← load c;
      (if ev_lt ev cv then
         store event (set_nextBin (Some c));;
         store event (set_nextInBin None)
       else
         store event (set_nextBin (nextBin cv));;
         store event (set_nextInBin (Some c)));;
      mret (Some event)
  end.

(** The loop [while (curr && *curr < *event) { prev = curr; curr =
    curr->nextBin; }] shared by [insert] and [remove]. *)
Fixpoint find_bin (fuel : nat) (event prev : ptr) (curr : option ptr)
    : Q (ptr * option ptr) :=
  match fuel with
  | O => throw EFuel
  | S fuel =>
      match curr with
      | None => mret (prev, None)
      | Some c =>
          cv ← load c; ev ← load event;
          if ev_lt cv ev then find_bin fuel event c (nextBin cv)
          else mret (prev, curr)
      end
  end.

Definition loop_fuel (q : EventQueue) : nat := S (size (q_heap q)).

(** [EventQueue::insert] *)
Definition insert (event : ptr) : Q unit :=
  head ← gets q_head;
  match head with
  | None =>
      h ← insertBefore event None; modify (set_head h)
  | Some hd =>
      ev ← load event; hv ← load hd;
      if ev_le ev hv then
        h ← insertBefore event head; modify (set_head h)
      else
        fuel ← gets loop_fuel;
        '(prev, curr) ← find_bin fuel event hd (nextBin hv);
        n ← insertBefore event curr;
        store prev (set_nextBin n)
  end.

(** The loop of [Event::removeItem]: walk the bin until [next] is [event]. *)
Fixpoint find_in_bin (fuel : nat) (event curr : ptr) (next : option ptr) : Q ptr :=
  match fuel with
  | O => throw EFuel
  | S fuel =>
      match next with
      | None => throw (EPanic "event not found!")
      | Some n =>
          if decide (event = n) then mret curr
          else nv ← load n; find_in_bin fuel event n (nextInBin nv)
      end
  end.

(** [Event::removeItem] *)
Definition removeItem (event top : ptr) : Q (option ptr) :=
  tv ← load top;
  if decide (event = top) then
    match nextInBin tv with
    | None => mret (nextBin tv)
    | Some n => store n (set_nextBin (nextBin tv));; mret (Some n)
    end
  else
    fuel ← gets loop_fuel;
    curr ← find_in_bin fuel event top (nextInBin tv);
    nv ← load event;
    store curr (set_nextInBin (nextInBin nv));;
    mret (Some top).

(** [EventQueue::remove] *)
Definition remove (event : ptr) : Q unit :=
  head ← gets q_head;
  match head with
  | None => throw (EPanic "event not found!")
  | Some hd =>
      ev ← load event; hv ← load hd; me ← gets q_name;
      assert_ (bool_decide (ev_queue ev = Some me)) "event->queue == this";;
      if ev_eq hv ev then
        h ← removeItem event hd; modify (set_head h)
      else
        fuel ← gets loop_fuel;
        '(prev, curr) ← find_bin fuel event hd (nextBin hv);
        match curr with
        | None => throw (EPanic "event not found!")
        | Some c =>
            cv ← load c;
            panic_if (ev_ne cv ev) "event not found!";;
            n ← removeItem event c;
            store prev (set_nextBin n)
        end
  end.

(** [Event::release]: a managed event that is not scheduled deletes itself. *)
Definition release (event : ptr) : Q unit :=
  ev ← load event;
  when_ (isManaged ev && negb (scheduled ev))
    (modify (fun q => set_heap (delete event (q_heap q)) q)).

(** [asyncInsert] and [handleAsyncInsertions] *)
Definition asyncInsert (event : ptr) : Q unit :=
  modify (fun q => set_async (q_async q ++ [event]) q).
Definition handleAsyncInsertions : Q unit :=
  l ← gets q_async;
  forM_ l (fun e => insert e;; modify (fun q => set_async (tail (q_async q)) q)).

(** [EventQueue::schedule]; [remote] is the run-time condition [inParallelMode
    && (this != curEventQueue() || global)]. *)
Definition schedule (remote : bool) (event : ptr) (when : Z) : Q unit :=
  now ← gets q_curTick; me ← gets q_name; ev ← load event;
  assert_ (now <=? when) "when >= getCurTick()";;
  assert_ (negb (scheduled ev)) "!event->scheduled()";;
  assert_ (initialized ev) "event->initialized()";;
  store event (setWhen when me);;
  (if remote then asyncInsert event else insert event);;
  store event (fun e => set_flags (fl_set (ev_flags e) Scheduled) e).

(** [EventQueue::deschedule] (called from the owning thread). *)
Definition deschedule (event : ptr) : Q unit :=
  ev ← load event;
  assert_ (scheduled ev) "event->scheduled()";;
  assert_ (initialized ev) "event->initialized()";;
  remove event;;
  store event (fun e => set_flags (fl_clear (ev_flags e) Squashed) e);;
  store event (fun e => set_flags (fl_clear (ev_flags e) Scheduled) e);;
  release event.

(** [EventQueue::reschedule] *)
Definition reschedule (event : ptr) (when : Z) (always : bool) : Q unit :=
  now ← gets q_curTick; me ← gets q_name; ev ← load event;
  assert_ (now <=? when) "when >= getCurTick()";;
  assert_ (always || scheduled ev) "always || event->scheduled()";;
  assert_ (initialized ev) "event->initialized()";;
  when_ (scheduled ev) (remove event);;
  store event (setWhen when me);;
  insert event;;
  store event (fun e => set_flags (fl_clear (ev_flags e) Squashed) e);;
  store event (fun e => set_flags (fl_set (ev_flags e) Scheduled) e).

(** The first half of [serviceOne]: clear the [Scheduled] flag of the head and
    unlink it. *)
Definition pop_head : Q ptr :=
  head ← gets q_head;
  match head with
  | None => throw (EUndefined "serviceOne on an empty queue")
  | Some event =>
      hv ← load event;
      store event (fun e => set_flags (fl_clear (ev_flags e) Scheduled) e);;
      (match nextInBin hv with
       | Some next =>
           store next (set_nextBin (nextBin hv));; modify (set_head (Some next))
       | None => modify (set_head (nextBin hv))
       end);;
      mret event
  end.

(** What [serviceOne] does once [process] has returned: an exit event is
    handed to the caller, any other event is released. *)
Definition finish_service (event : ptr) : Q (option ptr) :=
  ev ← load event;
  if isExitEvent ev then
    assert_ (negb (fl_isSet (ev_flags ev) Managed)
             || negb (fl_isSet (ev_flags ev) IsMainQueue))
      "!Managed || !IsMainQueue";;
    mret (Some event)
  else release event;; mret None.

(** [EventQueue::serviceOne]; the virtual method [process] of the events is
    the argument.  Returns the event when it is an exit event. *)
Definition serviceOne (process : ptr -> Q unit) : Q (option ptr) :=
  event ← pop_head;
  ev ← load event;
  if negb (squashed ev) then
    modify (set_curTick (ev_when ev));;
    process event;;
    finish_service event
  else
    store event (fun e => set_flags (fl_clear (ev_flags e) Squashed) e);;
    release event;; mret None.

(** [EventQueue::serviceEvents], with fuel for the number of events served. *)
Fixpoint serviceEvents (process : ptr -> Q unit) (fuel : nat) (when : Z) : Q unit :=
  match fuel with
  | O => throw EFuel
  | S fuel =>
      head ← gets q_head;
      match head with
      | None => modify (set_curTick when)
      | Some hd =>
          hv ← load hd;
          if ev_when hv >? when then modify (set_curTick when)
          else serviceOne process;; serviceEvents process fuel when
      end
  end.

(** [EventQueue::replaceHead] *)
Definition replaceHead (s : option ptr) : Q (option ptr) :=
  t ← gets q_head; modify (set_head s);; mret t.

(** [EventQueue::debugVerify]: both loops, threading the last seen time and
    priority and the set of nodes already visited. *)
Fixpoint verify_bin (fuel : nat) (n : option ptr) (time prio : Z) (seen : gset ptr)
    : Q (option (Z * Z * gset ptr)) :=
  match fuel with
  | O => throw EFuel
  | S fuel =>
      match n with
      | None => mret (Some (time, prio, seen))
      | Some p =>
          e ← load p;
          if ev_when e <? time then mret None
          else if (ev_when e =? time) && (ev_priority e <? prio) then mret None
          else if bool_decide (p ∈ seen) then mret None
          else verify_bin fuel (nextInBin e) (ev_when e) (ev_priority e) ({[p]} ∪ seen)
      end
  end.
Fixpoint verify_bins (fuel : nat) (b : option ptr) (time prio : Z) (seen : gset ptr)
    : Q bool :=
  match fuel with
  | O => throw EFuel
  | S fuel =>
      match b with
      | None => mret true
      | Some p =>
          n ← gets loop_fuel;
          r ← verify_bin n (Some p) time prio seen;
          match r with
          | None => mret false
          | Some (t, pr, sn) =>
              e ← load p; verify_bins fuel (nextBin e) t pr sn
          end
      end
  end.
Definition debugVerify : Q bool :=
  head ← gets q_head; fuel ← gets loop_fuel; verify_bins fuel head 0 0 ∅.
