(* ===== verification/EventQRep.v ===== *)
(** * What an event heap represents

    [bins_at h p bs]: following the pointers from [p] through the heap [h]
    visits exactly the bins [bs], each a key (tick, priority) with its events,
    newest first.  [Rep q bs] adds what keeps the queue consistent: strictly
    increasing keys and no event twice.  The abstract operations on bins
    ([binsert], [bremove], [bpop]) are the specification of the pointer code. *)

From S2P Require Import Prelude EventQ.

Definition key : Type := Z * Z.
Definition ev_key (e : Event) : key := (ev_when e, ev_priority e).
Definition kltb (a b : key) : bool :=
  (a.1 <? b.1) || ((a.1 =? b.1) && (a.2 <? b.2)).
Definition klt (a b : key) : Prop := kltb a b = true.
Abbreviation bins := (list (key * list ptr)).

Definition events_of (bs : bins) : list ptr := concat (map snd bs).

(** Abstract operations. *)
Fixpoint binsert (k : key) (e : ptr) (bs : bins) : bins :=
  match bs with
  | [] => [(k, [e])]
  | (k', es) :: bs' =>
      if kltb k k' then (k, [e]) :: bs
      else if kltb k' k then (k', es) :: binsert k e bs'
      else (k', e :: es) :: bs'
  end.

Definition del (e : ptr) (l : list ptr) : list ptr := filter (.≠ e) l.

Definition trim (k : key) (es : list ptr) (bs : bins) : bins :=
  match es with [] => bs | _ => (k, es) :: bs end.

Fixpoint bremove (k : key) (e : ptr) (bs : bins) : bins :=
  match bs with
  | [] => []
  | (k', es) :: bs' =>
      if kltb k' k then (k', es) :: bremove k e bs' else trim k' (del e es) bs'
  end.

Definition bpop (bs : bins) : option (key * ptr * bins) :=
  match bs with
  | (k, e :: es) :: bs' => Some (k, e, trim k es bs')
  | _ => None
  end.

(** ** Representation predicates *)

Fixpoint in_bin (h : gmap ptr Event) (k : key) (p : option ptr) (es : list ptr) : Prop :=
  match es with
  | [] => p = None
  | e :: es' => p = Some e /\ exists ev, h !! e = Some ev /\ ev_key ev = k
                 /\ in_bin h k (nextInBin ev) es'
  end.

Fixpoint bins_at (h : gmap ptr Event) (p : option ptr) (bs : bins) : Prop :=
  match bs with
  | [] => p = None
  | (k, es) :: bs' =>
      exists e es' ev, es = e :: es' /\ p = Some e /\ h !! e = Some ev
        /\ ev_key ev = k /\ in_bin h k (nextInBin ev) es'
        /\ bins_at h (nextBin ev) bs'
  end.

Definition keys_sorted (bs : bins) : Prop := StronglySorted klt (map fst bs).

Record Rep (q : EventQueue) (bs : bins) : Prop := {
  rep_at : bins_at (q_heap q) (q_head q) bs;
  rep_sorted : keys_sorted bs;
  rep_nodup : NoDup (events_of bs)
}.

(** ** The key order *)

Lemma klt_irrefl k : ~ klt k k.
Proof. unfold klt, kltb. destruct k; simpl. lia. Qed.

Lemma klt_trans a b c : klt a b -> klt b c -> klt a c.
Proof. unfold klt, kltb. destruct a, b, c; simpl. lia. Qed.

Lemma klt_total a b : kltb a b = false -> kltb b a = false -> a = b.
Proof.
  unfold kltb. destruct a as [a1 a2], b as [b1 b2]; simpl. intros.
  assert (a1 = b1 /\ a2 = b2) as [-> ->] by lia. done.
Qed.

Lemma klt_asym a b : kltb a b = true -> kltb b a = false.
Proof. unfold kltb. destruct a, b; simpl. lia. Qed.

#[export] Hint Resolve klt_irrefl klt_trans : hetsim.

(** The operators of the source compute the key order. *)
Lemma ev_lt_key l r : ev_lt l r = kltb (ev_key l) (ev_key r).
Proof. done. Qed.

Lemma ev_le_key l r : ev_le l r = negb (kltb (ev_key r) (ev_key l)).
Proof. unfold ev_le, kltb, ev_key; simpl. lia. Qed.

Lemma ev_eq_key l r : ev_eq l r = bool_decide (ev_key l = ev_key r).
Proof.
  unfold ev_eq, ev_key. case_bool_decide; simplify_eq.
  - destruct l, r; simpl in *; simplify_eq. lia.
  - destruct l, r; simpl in *. apply not_true_is_false. intros Heq.
    apply H. f_equal; lia.
Qed.

Lemma ev_ne_key l r : ev_ne l r = negb (bool_decide (ev_key l = ev_key r)).
Proof.
  rewrite <- ev_eq_key. unfold ev_ne, ev_eq. by destruct (_ =? _), (_ =? _).
Qed.

(** ** Frame lemmas: pointer updates that do not touch a segment *)

Lemma in_bin_frame h h' k p es :
  (forall e, e ∈ es -> h' !! e = h !! e) -> in_bin h k p es -> in_bin h' k p es.
Proof.
  revert p. induction es as [|e es IH]; simpl; [done|].
  intros p Hf (-> & ev & He & Hk & Hb). split; [done|]. exists ev.
  rewrite Hf by set_solver. split_and!; [done..|].
  apply IH; [|done]. intros; apply Hf. set_solver.
Qed.

Lemma bins_at_frame h h' p bs :
  (forall e, e ∈ events_of bs -> h' !! e = h !! e) ->
  bins_at h p bs -> bins_at h' p bs.
Proof.
  revert p. induction bs as [|[k es] bs IH]; simpl; [done|].
  intros p Hf (e & es' & ev & -> & -> & He & Hk & Hb & Ht).
  unfold events_of in Hf; simpl in Hf.
  exists e, es', ev. split_and!; [done|done| |done| |].
  - rewrite Hf; [done|]. set_solver.
  - eapply in_bin_frame; [|done]. intros. apply Hf. set_solver.
  - apply IH; [|done]. intros. apply Hf.
    rewrite elem_of_cons, elem_of_app. auto.
Qed.

Lemma in_bin_dom h k p es e : in_bin h k p es -> e ∈ es -> is_Some (h !! e).
Proof.
  revert p. induction es as [|x es IH]; simpl; [set_solver|].
  intros p (-> & ev & He & _ & Hb) [->|?]%elem_of_cons; eauto.
Qed.

Lemma bins_at_dom h p bs e : bins_at h p bs -> e ∈ events_of bs -> is_Some (h !! e).
Proof.
  revert p. induction bs as [|[k es] bs IH]; simpl; [set_solver|].
  intros p (x & es' & ev & -> & -> & He & Hk & Hb & Ht).
  unfold events_of; simpl.
  rewrite elem_of_cons, elem_of_app.
  intros [->|[?|?]]; eauto using in_bin_dom.
Qed.

(** Every bin has a top event whose key is the bin's. *)
Lemma bins_at_key h p bs k es e :
  bins_at h p bs -> (k, es) ∈ bs -> e ∈ es ->
  exists ev, h !! e = Some ev /\ ev_key ev = k.
Proof.
  revert p. induction bs as [|[k' es'] bs IH]; simpl; [set_solver|].
  intros p (x & l & ev & -> & -> & Hx & Hk & Hb & Ht).
  intros [[= -> ->]|Hin]%elem_of_cons He; [|eauto].
  apply elem_of_cons in He as [->|He]; [eauto|].
  clear -Hb He. revert Hb. generalize (nextInBin ev). induction l as [|y l IHl]; [set_solver|].
  simpl. intros p (-> & yv & Hy & Hk' & Hb).
  apply elem_of_cons in He as [->|He]; eauto.
Qed.

(** ** Fuel: the loops of the source visit each event at most once *)

Lemma nodup_heap_size (h : gmap ptr Event) (l : list ptr) :
  NoDup l -> (forall e, e ∈ l -> is_Some (h !! e)) -> (length l <= size h)%nat.
Proof.
  intros Hnd Hdom. rewrite <- (size_list_to_set (C := gset ptr) l) by done.
  rewrite <- size_dom. apply subseteq_size. intros e.
  rewrite elem_of_list_to_set, elem_of_dom. auto.
Qed.

Lemma bins_length h p bs : bins_at h p bs -> (length bs <= length (events_of bs))%nat.
Proof.
  revert p. induction bs as [|[k es] bs IH]; simpl; [lia|].
  intros p (x & l & ev & -> & -> & _ & _ & _ & Ht).
  unfold events_of; simpl. rewrite length_app. apply IH in Ht.
  unfold events_of in Ht. lia.
Qed.

Lemma rep_fuel q bs :
  Rep q bs -> (length bs < loop_fuel q)%nat /\ (length (events_of bs) < loop_fuel q)%nat.
Proof.
  intros [Hat _ Hnd]. unfold loop_fuel.
  assert (length (events_of bs) <= size (q_heap q))%nat.
  { apply nodup_heap_size; [done|]. eauto using bins_at_dom. }
  pose proof (bins_length _ _ _ Hat). lia.
Qed.

(** ** Splicing: replacing the list of bins behind a bin *)

Lemma events_of_app bs1 bs2 : events_of (bs1 ++ bs2) = events_of bs1 ++ events_of bs2.
Proof. unfold events_of. by rewrite map_app, concat_app. Qed.

Lemma events_of_cons k es bs : events_of ((k, es) :: bs) = es ++ events_of bs.
Proof. done. Qed.

(** [last_top bs p]: the top event of the last bin of [bs] is [p]. *)
Definition last_top (bs : bins) (p : ptr) : Prop :=
  exists pre k es, bs = pre ++ [(k, p :: es)].

Lemma splice h0 h p pre prev pv post post' n :
  NoDup (events_of pre) ->
  h !! prev = Some pv ->
  last_top pre prev ->
  bins_at h0 p (pre ++ post) ->
  (forall x, x ∈ events_of pre -> h !! x = h0 !! x) ->
  prev ∉ events_of post' ->
  bins_at h n post' ->
  bins_at (<[prev := set_nextBin n pv]> h) p (pre ++ post').
Proof.
  intros Hnd Hp (init & k & es & ->) Hat Hag Hout Hn.
  rewrite events_of_app, events_of_cons in Hnd.
  revert p Hat Hag. induction init as [|[k' es'] init IH]; simpl; intros p Hat Hag.
  - destruct Hat as (e & l & ev & [= <- <-] & -> & He & Hk & Hb & _).
    rewrite events_of_cons in Hag.
    assert (pv = ev) as <-.
    { rewrite <- Hag in He by set_solver. congruence. }
    exists prev, es, (set_nextBin n pv). rewrite lookup_insert_eq.
    split_and!; [done|done|done|done| |].
    + simpl. eapply in_bin_frame; [|done]. intros x Hx.
      rewrite lookup_insert_ne; [apply Hag; set_solver|]. intros <-.
      rewrite !app_nil_r in Hnd. simpl in Hnd. apply NoDup_cons in Hnd as [? _].
      set_solver.
    + simpl. eapply bins_at_frame; [|done]. intros x Hx.
      rewrite lookup_insert_ne; [done|]. by intros <-.
  - destruct Hat as (e & l & ev & -> & -> & He & Hk & Hb & Ht).
    rewrite events_of_cons in Hnd, Hag. rewrite <- app_assoc in Hnd.
    apply NoDup_app in Hnd as (Hnd1 & Hdisj & Hnd2).
    assert (prev ∉ e :: l) as Hnot.
    { intros Hin. apply (Hdisj _ Hin). rewrite !elem_of_app. right. left. left. }
    apply not_elem_of_cons in Hnot as [Hne Hnl].
    exists e, l, ev. rewrite lookup_insert_ne by done.
    split_and!; [done|done| |done| |].
    + rewrite Hag; [done|]. rewrite elem_of_app. left. left.
    + eapply in_bin_frame; [|done]. intros x Hx.
      rewrite lookup_insert_ne; [apply Hag; rewrite elem_of_app; left; by right|].
      by intros <-.
    + apply IH; [exact Hnd2|done|]. intros x Hx. apply Hag. rewrite elem_of_app. by right.
Qed.
