(* ===== verification/EventQOps.v ===== *)
(** * The pointer code of the event queue refines the abstract bins

    [insert], [remove] and [serviceOne] are run on a heap that represents a
    list of bins; the theorems give the list of bins the resulting heap
    represents, that no assertion, panic or dangling pointer is met on the way,
    and that nothing but the link fields is written. *)

From S2P Require Import Prelude EventQ EventQRep.

(** The fields that [insert] and [remove] never write. *)
Definition ev_data (e : Event) : Z * Z * Z * option nat :=
  (ev_when e, ev_priority e, ev_flags e, ev_queue e).

Record links_only (q q' : EventQueue) : Prop := {
  lo_name : q_name q' = q_name q;
  lo_tick : q_curTick q' = q_curTick q;
  lo_async : q_async q' = q_async q;
  lo_data : forall p, ev_data <$> (q_heap q' !! p) = ev_data <$> (q_heap q !! p)
}.

#[global] Instance links_only_preorder : PreOrder links_only.
Proof.
  split; [by intros q; split|].
  intros q1 q2 q3 [? ? ? H1] [? ? ? H2]. split; try congruence.
Qed.

Lemma links_only_insert q p e e' :
  q_heap q !! p = Some e -> ev_data e' = ev_data e ->
  links_only q (set_heap (<[p := e']> (q_heap q)) q).
Proof.
  intros Hp Hd. split; [done..|]. intros x; simpl.
  destruct (decide (p = x)) as [->|]; [|by rewrite lookup_insert_ne].
  rewrite lookup_insert_eq, Hp; simpl. by rewrite Hd.
Qed.

Lemma links_only_head q p : links_only q (set_head p q).
Proof. by split. Qed.

#[export] Hint Resolve links_only_insert links_only_head : hetsim.

(** A [store] at a valid address succeeds. *)
Lemma store_eq p f q e :
  q_heap q !! p = Some e ->
  store p f q = Ok (tt, set_heap (<[p := f e]> (q_heap q)) q).
Proof. intros H. unfold store, load, mbind, M_bind, modify. by rewrite H. Qed.

Lemma load_eq p q e : q_heap q !! p = Some e -> load p q = Ok (e, q).
Proof. unfold load. by intros ->. Qed.

Lemma set_heap_twice h h' q : set_heap h' (set_heap h q) = set_heap h' q.
Proof. done. Qed.

Lemma bind_load {B} p q e (k : Event -> Q B) :
  q_heap q !! p = Some e -> (load p ≫= k) q = k e q.
Proof. intros H. apply bind_run. by apply load_eq. Qed.

Lemma bind_store {B} p f q e (k : unit -> Q B) :
  q_heap q !! p = Some e ->
  (store p f ≫= k) q = k tt (set_heap (<[p := f e]> (q_heap q)) q).
Proof. intros H. apply bind_run. by apply store_eq. Qed.

Lemma insertBefore_spec q event ev curr post :
  q_heap q !! event = Some ev ->
  event ∉ events_of post ->
  bins_at (q_heap q) curr post ->
  match post with (k, _) :: _ => kltb k (ev_key ev) = false | [] => True end ->
  exists ev',
    insertBefore event curr q
      = Ok (Some event, set_heap (<[event := ev']> (q_heap q)) q)
    /\ ev_data ev' = ev_data ev
    /\ bins_at (<[event := ev']> (q_heap q)) (Some event)
         (binsert (ev_key ev) event post).
Proof.
  intros He Hnot Hat Hge. destruct post as [|[k es] post]; simpl in Hat.
  - subst curr. exists (set_nextInBin None (set_nextBin None ev)).
    unfold insertBefore. rewrite (bind_store _ _ q ev) by done.
    erewrite bind_store by apply lookup_insert_eq. simpl.
    rewrite insert_insert_eq. split_and!; [done..|].
    exists event, [], (set_nextInBin None (set_nextBin None ev)).
    by rewrite lookup_insert_eq.
  - destruct Hat as (c & l & cv & -> & -> & Hc & Hk & Hb & Ht).
    rewrite events_of_cons in Hnot. apply not_elem_of_app in Hnot as [Hn1 Hn2].
    apply not_elem_of_cons in Hn1 as [Hne Hnl].
    assert (forall e' n, in_bin (q_heap q) k n l -> in_bin (<[event := e']> (q_heap q)) k n l)
      as Hfl.
    { intros e' n. apply in_bin_frame. intros x Hx. rewrite lookup_insert_ne; [done|]. set_solver. }
    assert (forall e' n, bins_at (q_heap q) n post -> bins_at (<[event := e']> (q_heap q)) n post)
      as Hfp.
    { intros e' n. apply bins_at_frame. intros x Hx. rewrite lookup_insert_ne; [done|]. set_solver. }
    unfold insertBefore. rewrite (bind_load _ _ _ _ He), (bind_load _ _ _ _ Hc).
    rewrite ev_lt_key, Hk. cbn [binsert].
    destruct (kltb (ev_key ev) k) eqn:Hlt.
    + exists (set_nextInBin None (set_nextBin (Some c) ev)).
      unfold mbind, M_bind. rewrite (store_eq _ _ q ev) by done.
      erewrite store_eq by apply lookup_insert_eq. simpl. rewrite insert_insert_eq.
      split_and!; [done..|].
      eexists event, [], _. rewrite lookup_insert_eq. split_and!; [done..|].
      exists c, l, cv. simpl. rewrite lookup_insert_ne by done.
      split_and!; [done..|by apply Hfl|by apply Hfp].
    + rewrite Hge. assert (k = ev_key ev) as Hkk by auto using klt_total.
      exists (set_nextInBin (Some c) (set_nextBin (nextBin cv) ev)).
      unfold mbind, M_bind. rewrite (store_eq _ _ q ev) by done.
      erewrite store_eq by apply lookup_insert_eq. simpl. rewrite insert_insert_eq.
      split_and!; [done..|].
      eexists event, (c :: l), _. rewrite lookup_insert_eq.
      split_and!; [done|done|done|done| |by apply Hfp].
      simpl. split; [done|]. exists cv. rewrite lookup_insert_ne by done.
      split_and!; [done..|by apply Hfl].
Qed.

Lemma find_bin_spec q fuel event ev prev curr pre post :
  q_heap q !! event = Some ev ->
  bins_at (q_heap q) curr post ->
  (length post < fuel)%nat ->
  last_top pre prev ->
  exists prev' curr' mid post',
    find_bin fuel event prev curr q = Ok ((prev', curr'), q)
    /\ post = mid ++ post'
    /\ last_top (pre ++ mid) prev'
    /\ bins_at (q_heap q) curr' post'
    /\ Forall (fun b => kltb b.1 (ev_key ev) = true) mid
    /\ match post' with (k, _) :: _ => kltb k (ev_key ev) = false | [] => True end.
Proof.
  intros He. revert fuel prev curr pre.
  induction post as [|[k es] post IH]; intros [|fuel] prev curr pre Hat Hf Hl;
    simpl in *; try lia.
  - subst curr. exists prev, None, [], []. rewrite (app_nil_r pre).
    by split_and!.
  - destruct Hat as (c & l & cv & -> & -> & Hc & Hk & Hb & Ht).
    rewrite (bind_load _ _ _ _ Hc), (bind_load _ _ _ _ He).
    rewrite ev_lt_key, Hk. destruct (kltb k (ev_key ev)) eqn:Hlt.
    + destruct (IH fuel c (nextBin cv) (pre ++ [(k, c :: l)]))
        as (p' & c' & mid & post' & Hrun & -> & Hl' & Ha & Hm & Hp); [done|lia| |].
      { by exists pre, k, l. }
      exists p', c', ((k, c :: l) :: mid), post'. split_and!; [done|done| |done| |done].
      * by rewrite <- app_assoc in Hl'.
      * by constructor.
    + exists prev, (Some c), [], ((k, c :: l) :: post). rewrite (app_nil_r pre).
      split_and!; [done|done|done| |done|done]. by exists c, l, cv.
Qed.

Lemma binsert_app k e pre post :
  Forall (fun b => kltb b.1 k = true) pre ->
  binsert k e (pre ++ post) = pre ++ binsert k e post.
Proof.
  induction 1 as [|[k' es] pre Hk _ IH]; simpl; [done|]. simpl in Hk.
  by rewrite (klt_asym _ _ Hk), Hk, IH.
Qed.

Lemma binsert_events k e bs : events_of (binsert k e bs) ≡ₚ e :: events_of bs.
Proof.
  induction bs as [|[k' es] bs IH]; simpl; [done|].
  destruct (kltb k k'); [done|]. destruct (kltb k' k); [|done].
  rewrite !events_of_cons, IH. by rewrite Permutation_middle.
Qed.

Lemma binsert_keys k e bs x :
  x ∈ map fst (binsert k e bs) -> x = k \/ x ∈ map fst bs.
Proof.
  induction bs as [|[k' es] bs IH]; simpl; [set_solver|].
  destruct (kltb k k'); simpl; [set_solver|]. destruct (kltb k' k); simpl; set_solver.
Qed.

Lemma binsert_sorted k e bs : keys_sorted bs -> keys_sorted (binsert k e bs).
Proof.
  unfold keys_sorted. induction bs as [|[k' es] bs IH]; simpl; [by repeat constructor|].
  intros [Hs Hall]%StronglySorted_inv.
  destruct (kltb k k') eqn:H1; [|destruct (kltb k' k) eqn:H2].
  - constructor; [by constructor|]. constructor; [done|].
    eapply Forall_impl; [done|]. simpl. eauto using klt_trans.
  - simpl. constructor; [by apply IH|]. apply Forall_forall. intros x Hx.
    apply binsert_keys in Hx as [->|Hx]; [done|]. rewrite Forall_forall in Hall. auto.
  - by constructor.
Qed.

(** The last step of [insert] and [remove], [prev->nextBin = n]: it replaces
    what follows the bin of [prev]. *)
Lemma last_top_in pre prev : last_top pre prev -> prev ∈ events_of pre.
Proof.
  intros (ini & k & es & ->). rewrite events_of_app, events_of_cons. set_solver.
Qed.

Lemma bins_at_split h p pre post prev :
  bins_at h p (pre ++ post) -> last_top pre prev ->
  exists pv, h !! prev = Some pv.
Proof.
  intros Hat Hl. eapply bins_at_dom; [exact Hat|].
  rewrite events_of_app. apply last_top_in in Hl. set_solver.
Qed.

Lemma relink h0 q p pre post post' prev n :
  bins_at h0 p (pre ++ post) ->
  (forall x, x ∈ events_of pre -> q_heap q !! x = h0 !! x) ->
  last_top pre prev ->
  NoDup (events_of pre) ->
  prev ∉ events_of post' ->
  bins_at (q_heap q) n post' ->
  exists q', store prev (set_nextBin n) q = Ok (tt, q')
    /\ bins_at (q_heap q') p (pre ++ post')
    /\ q_head q' = q_head q /\ links_only q q'.
Proof.
  intros Hat Hag Hl Hnd Hout Hn. destruct (bins_at_split _ _ _ _ _ Hat Hl) as [pv Hpv].
  rewrite <- Hag in Hpv by (by apply last_top_in).
  erewrite store_eq by done. eexists. split; [done|]. simpl. split_and!; [|done|].
  - eapply splice; eauto.
  - by eapply links_only_insert.
Qed.

(** [insert] on a heap that represents [bs]. *)
Lemma insert_rep q bs event ev :
  Rep q bs -> q_heap q !! event = Some ev -> event ∉ events_of bs ->
  exists q', insert event q = Ok (tt, q')
    /\ Rep q' (binsert (ev_key ev) event bs) /\ links_only q q'.
Proof.
  intros HR He Hnot. pose proof (rep_fuel _ _ HR) as [Hfuel _].
  destruct HR as [Hat Hs Hnd].
  assert (NoDup (events_of (binsert (ev_key ev) event bs))) as Hnd'.
  { rewrite binsert_events. by constructor. }
  pose proof (binsert_sorted (ev_key ev) event bs Hs) as Hs'.
  unfold insert. rewrite bind_gets.
  destruct (q_head q) as [hd|] eqn:Hh; cycle 1.
  - destruct bs as [|[k es] bs]; [|destruct Hat as (? & ? & ? & _ & [=] & _)].
    destruct (insertBefore_spec q event ev None []) as (ev' & Hrun & Hd & Ha); [done..|].
    rewrite (bind_run _ _ _ _ _ Hrun). eexists; split; [done|]. split; [by split|].
    etrans; [|apply links_only_head]. by eapply links_only_insert.
  - destruct bs as [|[k es] bs]; [done|].
    pose proof Hat as (c & l & cv & -> & [= <-] & Hc & Hk & Hb & Ht).
    rewrite (bind_load _ _ _ _ He), (bind_load _ _ _ _ Hc).
    rewrite ev_le_key, Hk. destruct (kltb k (ev_key ev)) eqn:Hlt; cbn [negb].
    + destruct (find_bin_spec q (loop_fuel q) event ev hd (nextBin cv) [(k, hd :: l)] bs)
        as (p' & c' & mid & post' & Hrun & -> & Hl' & Ha & Hm & Hp); [done|done| | |].
      { simpl in Hfuel. lia. }
      { by exists [], k, l. }
      rewrite bind_gets, (bind_run _ _ _ _ _ Hrun).
      rewrite app_comm_cons in Hat, Hnd, Hnot, Hnd', Hs' |- *.
      change ((k, hd :: l) :: mid) with ([(k, hd :: l)] ++ mid) in Hat, Hnd, Hnot, Hnd', Hs' |- *.
      rewrite binsert_app in Hnd', Hs' |- * by (by constructor).
      set (pre := [(k, hd :: l)] ++ mid) in *.
      rewrite events_of_app in Hnd, Hnot. apply not_elem_of_app in Hnot as [Hn1 Hn2].
      apply NoDup_app in Hnd as (Hnd1 & Hdisj & Hnd2).
      destruct (insertBefore_spec q event ev c' post') as (ev' & Hrun' & Hd & Hnew); [done..|].
      rewrite (bind_run _ _ _ _ _ Hrun').
      destruct (relink (q_heap q) (set_heap (<[event := ev']> (q_heap q)) q) (Some hd) pre post'
        (binsert (ev_key ev) event post') p' (Some event)) as (q' & Hst & Hat' & Hh' & Hlo);
        cbn [q_heap set_heap]; [done| |done|done| |done|].
      { intros x Hx. apply lookup_insert_ne. by intros <-. }
      { rewrite binsert_events. apply last_top_in in Hl'.
        apply not_elem_of_cons. split; [by intros ->|by apply Hdisj]. }
      rewrite Hst. eexists; split; [done|]. split.
      * split; [|done|done]. rewrite Hh'. cbn [q_head set_heap]. by rewrite Hh.
      * etrans; [|exact Hlo]. by eapply links_only_insert.
    + destruct (insertBefore_spec q event ev (Some hd) ((k, hd :: l) :: bs))
        as (ev' & Hrun & Hd & Ha); [done..|].
      rewrite (bind_run _ _ _ _ _ Hrun). eexists; split; [done|]. split; [by split|].
      etrans; [|apply links_only_head]. by eapply links_only_insert.
Qed.

(** ** Removal *)

Lemma bins_at_cons h p k es bs :
  bins_at h p ((k, es) :: bs) <->
  exists e es' ev, es = e :: es' /\ h !! e = Some ev
    /\ in_bin h k p es /\ bins_at h (nextBin ev) bs.
Proof.
  simpl. split.
  - intros (e & es' & ev & -> & -> & He & Hk & Hb & Ht). exists e, es', ev.
    split_and!; [done..| |done]. simpl. eauto.
  - intros (e & es' & ev & -> & He & Hb & Ht). exists e, es', ev.
    destruct Hb as (-> & ev' & He' & Hk & Hb).
    assert (ev' = ev) as -> by congruence. by split_and!.
Qed.

Lemma del_notin e l : e ∉ l -> del e l = l.
Proof.
  induction l as [|x l IH]; [done|]. intros Hn. apply not_elem_of_cons in Hn as [? ?].
  unfold del. rewrite filter_cons_True by congruence. f_equal. by apply IH.
Qed.

Lemma del_app e l1 l2 : del e (l1 ++ l2) = del e l1 ++ del e l2.
Proof. apply filter_app. Qed.

Lemma del_split e l1 l2 : NoDup (l1 ++ e :: l2) -> del e (l1 ++ e :: l2) = l1 ++ l2.
Proof.
  intros Hnd. unfold del. rewrite filter_app, filter_cons_False by (intros H; by apply H).
  apply NoDup_app in Hnd as (_ & Hd & Hn%NoDup_cons). destruct Hn as [Hn _].
  f_equal; apply del_notin; [|done]. intros Hin. apply (Hd _ Hin). set_solver.
Qed.

Lemma find_in_bin_spec q k fuel event curr next l :
  in_bin (q_heap q) k next l -> event ∈ l -> (length l < fuel)%nat ->
  exists l1 x l2, find_in_bin fuel event curr next q = Ok (x, q)
    /\ curr :: l = l1 ++ x :: event :: l2.
Proof.
  revert curr next l. induction fuel as [|fuel IH]; intros curr next l Hb Hin Hf; [lia|].
  destruct l as [|y l]; [set_solver|]. destruct Hb as (-> & yv & Hy & Hk & Hb).
  simpl. case_decide as Heq.
  - subst y. by exists [], curr, l.
  - apply elem_of_cons in Hin as [?|Hin]; [done|]. rewrite (bind_load _ _ _ _ Hy).
    simpl in Hf. destruct (IH y (nextInBin yv) l) as (l1 & x & l2 & Hr & Hl); [done|done|lia|].
    exists (curr :: l1), x, l2. by rewrite Hl.
Qed.

Lemma in_bin_unlink h k p l1 x xv e ev l2 :
  NoDup (l1 ++ x :: e :: l2) ->
  in_bin h k p (l1 ++ x :: e :: l2) -> h !! x = Some xv -> h !! e = Some ev ->
  in_bin (<[x := set_nextInBin (nextInBin ev) xv]> h) k p (l1 ++ x :: l2).
Proof.
  intros Hnd Hb Hx He. revert p Hnd Hb. induction l1 as [|y l1 IH]; simpl; intros p Hnd Hb.
  - destruct Hb as (-> & xv' & Hx' & Hk & _ & ev' & He' & Hk' & Hb).
    assert (xv' = xv) as -> by congruence. assert (ev' = ev) as -> by congruence.
    split; [done|]. exists (set_nextInBin (nextInBin ev) xv).
    rewrite lookup_insert_eq. split_and!; [done..|]. simpl.
    eapply in_bin_frame; [|done]. intros z Hz. apply lookup_insert_ne.
    apply NoDup_cons in Hnd as [Hn _]. set_solver.
  - destruct Hb as (-> & yv & Hy & Hk & Hb). apply NoDup_cons in Hnd as [Hn Hnd].
    split; [done|]. exists yv. rewrite lookup_insert_ne by set_solver.
    split_and!; [done..|]. by apply IH.
Qed.

(** What a removal from one bin yields. *)
Lemma removeItem_spec q k event top l post :
  bins_at (q_heap q) (Some top) ((k, top :: l) :: post) ->
  NoDup ((top :: l) ++ events_of post) ->
  event ∈ top :: l ->
  exists p q', removeItem event top q = Ok (p, q')
    /\ bins_at (q_heap q') p (trim k (del event (top :: l)) post)
    /\ q_head q' = q_head q /\ links_only q q'
    /\ (forall x, x ∉ top :: l -> q_heap q' !! x = q_heap q !! x).
Proof.
  intros Hat Hnd Hin. pose proof Hat as (t & l' & tv & [= <- <-] & _ & Htop & Hk & Hb & Ht).
  assert (length l < loop_fuel q)%nat as Hfuel.
  { assert (length (top :: l) <= size (q_heap q))%nat; [|simpl in *; unfold loop_fuel; lia].
    apply NoDup_app in Hnd as [Hnd _]. apply nodup_heap_size; [done|].
    intros x Hx. eapply (bins_at_dom _ _ _ _ Hat). rewrite events_of_cons. set_solver. }
  apply NoDup_app in Hnd as (Hnd & Hdisj & _).
  unfold removeItem. rewrite (bind_load _ _ _ _ Htop). case_decide as Heq.
  - subst event. replace (del top (top :: l)) with l
      by (symmetry; by apply (del_split top [] l)).
    destruct l as [|n l].
    + simpl in Hb. rewrite Hb. eexists _, q. by split_and!.
    + destruct Hb as (-> & nv & Hn & Hkn & Hb). rewrite (bind_store _ _ _ nv) by done.
      eexists _, _. split; [done|]. simpl q_heap. split_and!; [|done|by eapply links_only_insert|].
      * exists n, l, (set_nextBin (nextBin tv) nv). rewrite lookup_insert_eq.
        apply NoDup_cons in Hnd as [Hn1 Hnd%NoDup_cons].
        split_and!; [done|done|done|done| |].
        -- simpl. eapply in_bin_frame; [|done]. intros z Hz. apply lookup_insert_ne. set_solver.
        -- simpl. eapply bins_at_frame; [|done]. intros z Hz. apply lookup_insert_ne.
           intros <-. apply (Hdisj n); set_solver.
      * intros x Hx. apply lookup_insert_ne. set_solver.
  - apply elem_of_cons in Hin as [?|Hin]; [done|]. rewrite bind_gets.
    destruct (find_in_bin_spec q k (loop_fuel q) event top (nextInBin tv) l)
      as (l1 & x & l2 & Hrun & Hl); [done..|].
    rewrite (bind_run _ _ _ _ _ Hrun).
    apply bins_at_cons in Hat as (? & ? & ? & [= <- <-] & ? & Hbin & _).
    assert (exists xv, q_heap q !! x = Some xv) as [xv Hx].
    { eapply in_bin_dom; [exact Hbin|]. rewrite Hl. set_solver. }
    assert (exists ev, q_heap q !! event = Some ev) as [ev He].
    { eapply in_bin_dom; [exact Hbin|]. set_solver. }
    rewrite (bind_load _ _ _ _ He), (bind_store _ _ _ xv) by done.
    eexists _, _. split; [done|]. cbn [q_heap q_head set_heap].
    pose proof Hnd as Hnd'. rewrite Hl in Hnd', Hbin |- *.
    change (l1 ++ x :: event :: l2) with (l1 ++ [x] ++ event :: l2).
    rewrite app_assoc, del_split by (by rewrite <- app_assoc).
    rewrite <- app_assoc. cbn [app].
    assert (exists l3, l1 ++ x :: l2 = top :: l3) as [l3 Hl3].
    { destruct l1; simpl in *; simplify_eq; eauto. }
    split_and!; [|done|by eapply links_only_insert|].
    + rewrite Hl3. cbn [trim]. apply bins_at_cons. rewrite <- Hl3.
      exists top, l3, (if decide (x = top) then set_nextInBin (nextInBin ev) xv else tv).
      split_and!; [done| |by eapply in_bin_unlink|].
      * case_decide as Hxt; [subst; by rewrite lookup_insert_eq|by rewrite lookup_insert_ne].
      * replace (nextBin (if decide (x = top) then _ else tv)) with (nextBin tv)
          by (case_decide; simplify_eq; done).
        eapply bins_at_frame; [|done]. intros z Hz. apply lookup_insert_ne.
        intros <-. apply (Hdisj x); [rewrite Hl|]; set_solver.
    + intros y Hy. apply lookup_insert_ne. set_solver.
Qed.

Lemma events_of_trim k es bs : events_of (trim k es bs) = es ++ events_of bs.
Proof. by destruct es. Qed.

Lemma trim_keys k es bs x : x ∈ map fst (trim k es bs) -> x = k \/ x ∈ map fst bs.
Proof. destruct es; simpl; set_solver. Qed.

Lemma bremove_app k e pre post :
  Forall (fun b => kltb b.1 k = true) pre ->
  bremove k e (pre ++ post) = pre ++ bremove k e post.
Proof.
  induction 1 as [|[k' es] pre Hk _ IH]; simpl; [done|]. simpl in Hk. by rewrite Hk, IH.
Qed.

Lemma bremove_keys k e bs x : x ∈ map fst (bremove k e bs) -> x ∈ map fst bs.
Proof.
  induction bs as [|[k' es] bs IH]; simpl; [done|]. destruct (kltb k' k); simpl; [set_solver|].
  intros [->|?]%trim_keys; set_solver.
Qed.

Lemma bremove_sorted k e bs : keys_sorted bs -> keys_sorted (bremove k e bs).
Proof.
  unfold keys_sorted. induction bs as [|[k' es] bs IH]; simpl; [done|].
  intros [Hs Hall]%StronglySorted_inv. destruct (kltb k' k); simpl.
  - constructor; [by apply IH|]. apply Forall_forall. intros x Hx%bremove_keys.
    rewrite Forall_forall in Hall. auto.
  - destruct (del e es); simpl; [done|by constructor].
Qed.

(** The bin of an event carries the event's key. *)
Lemma events_of_bin h p bs e ev :
  bins_at h p bs -> e ∈ events_of bs -> h !! e = Some ev ->
  exists es, (ev_key ev, es) ∈ bs /\ e ∈ es.
Proof.
  intros Hat Hin He. unfold events_of in Hin.
  apply list_elem_of_In, in_concat in Hin as (es & Hes & Hin).
  apply in_map_iff in Hes as ([k es'] & <- & Hb). simpl in *.
  apply list_elem_of_In in Hb, Hin.
  destruct (bins_at_key _ _ _ _ _ _ Hat Hb Hin) as (ev' & He' & <-).
  exists es'. split; [|done]. by replace ev with ev' by congruence.
Qed.

Lemma bremove_events k e bs :
  keys_sorted bs -> NoDup (events_of bs) ->
  (exists es, (k, es) ∈ bs /\ e ∈ es) ->
  events_of (bremove k e bs) = del e (events_of bs).
Proof.
  unfold keys_sorted. induction bs as [|[k' es'] bs IH]; simpl; intros Hs Hnd (es & Hin & He);
    [set_solver|].
  apply StronglySorted_inv in Hs as [Hs Hall]. rewrite events_of_cons in Hnd |- *.
  apply NoDup_app in Hnd as (Hn1 & Hdisj & Hn2). rewrite Forall_forall in Hall.
  rewrite del_app.
  apply elem_of_cons in Hin as [[= <- <-]|Hin].
  - destruct (kltb k k) eqn:Hirr; [by apply klt_irrefl in Hirr|].
    rewrite events_of_trim. f_equal. symmetry. apply del_notin. auto.
  - assert (kltb k' k = true) as ->.
    { apply Hall. apply list_elem_of_In, in_map_iff. exists (k, es).
      by rewrite <- list_elem_of_In. }
    rewrite events_of_cons, IH by eauto. f_equal. symmetry. apply del_notin. intros Hin'.
    apply (Hdisj _ Hin'). unfold events_of. apply list_elem_of_In, in_concat.
    exists es. rewrite <- !list_elem_of_In. split; [|done].
    apply list_elem_of_In, in_map_iff. exists (k, es). by rewrite <- list_elem_of_In.
Qed.

Lemma del_nodup e l : NoDup l -> NoDup (del e l).
Proof. apply NoDup_filter. Qed.

Lemma del_subset e l x : x ∈ del e l -> x ∈ l.
Proof. unfold del. rewrite list_elem_of_filter. tauto. Qed.

(** [remove] on a heap that represents [bs]. *)
Lemma remove_rep q bs event ev :
  Rep q bs -> q_heap q !! event = Some ev -> ev_queue ev = Some (q_name q) ->
  event ∈ events_of bs ->
  exists q', remove event q = Ok (tt, q')
    /\ Rep q' (bremove (ev_key ev) event bs) /\ links_only q q'.
Proof.
  intros HR He Hq Hin. pose proof (rep_fuel _ _ HR) as [Hfuel _].
  destruct HR as [Hat Hs Hnd].
  pose proof (events_of_bin _ _ _ _ _ Hat Hin He) as Hbin.
  assert (NoDup (events_of (bremove (ev_key ev) event bs))) as Hnd'.
  { rewrite bremove_events by done. by apply del_nodup. }
  pose proof (bremove_sorted (ev_key ev) event bs Hs) as Hs'.
  destruct bs as [|[k es] bs]; [set_solver|].
  pose proof Hat as (hd & l & cv & -> & Hh & Hc & Hk & Hb & Ht).
  unfold remove. rewrite bind_gets, Hh, (bind_load _ _ _ _ He), (bind_load _ _ _ _ Hc), bind_gets.
  rewrite bind_assert by (by apply bool_decide_eq_true). rewrite ev_eq_key, Hk.
  destruct Hbin as (es & Hes & Hev).
  unfold keys_sorted in Hs. simpl map in Hs. apply StronglySorted_inv in Hs as [Hs Hall].
  rewrite Forall_forall in Hall.
  assert (forall k' es', (k', es') ∈ bs -> klt k k') as Hlater.
  { intros k' es' Hin'. apply Hall, list_elem_of_In, in_map_iff. exists (k', es').
    by rewrite <- list_elem_of_In. }
  case_bool_decide as Hkk.
  - revert Hkk; intros ->.
    destruct (kltb (ev_key ev) (ev_key ev)) eqn:Hirr; [by apply klt_irrefl in Hirr|].
    apply elem_of_cons in Hes as [[= ->]|Hes]; [|by apply Hlater, klt_irrefl in Hes].
    rewrite events_of_cons in Hnd. rewrite Hh in Hat.
    destruct (removeItem_spec q (ev_key ev) event hd l bs) as (p & q1 & Hr & Ha & Hhd & Hlo & _);
      [done..|].
    rewrite (bind_run _ _ _ _ _ Hr). eexists. split; [done|].
    split; [|etrans; [exact Hlo|apply links_only_head]].
    split; [|done|done]. simpl. rewrite Hirr. exact Ha.
  - apply elem_of_cons in Hes as [Heq|Hes]; [congruence|].
    pose proof (Hlater _ _ Hes) as Hlt.
    destruct (find_bin_spec q (loop_fuel q) event ev hd (nextBin cv) [(k, hd :: l)] bs)
      as (p' & c' & mid & post' & Hrun & -> & Hl' & Ha & Hm & Hp); [done|done| | |].
    { simpl in Hfuel. lia. }
    { by exists [], k, l. }
    rewrite bind_gets, (bind_run _ _ _ _ _ Hrun).
    rewrite app_comm_cons in Hat, Hnd, Hnd', Hs' |- *.
    change ((k, hd :: l) :: mid) with ([(k, hd :: l)] ++ mid) in Hat, Hnd, Hnd', Hs' |- *.
    rewrite bremove_app in Hnd', Hs' |- * by (by constructor).
    set (pre := [(k, hd :: l)] ++ mid) in *. rewrite events_of_app in Hnd.
    apply NoDup_app in Hnd as (Hnd1 & Hdisj & Hnd2).
    (* the bin of [event] is the first of [post'] *)
    apply elem_of_app in Hes as [Hes|Hes].
    { rewrite Forall_forall in Hm. apply Hm in Hes. simpl in Hes. by apply klt_irrefl in Hes. }
    assert (exists post2, post' = (ev_key ev, es) :: post2) as [post2 ->].
    { destruct post' as [|[k2 es2] post2]; [set_solver|].
      apply elem_of_cons in Hes as [[= -> ->]|Hes]; [by eexists|]. exfalso.
      assert (keys_sorted ((k2, es2) :: post2)) as [_ Hall2]%StronglySorted_inv.
      { clear -Hs. rewrite map_app in Hs. by eapply StronglySorted_app_1_r in Hs. }
      rewrite Forall_forall in Hall2. assert (klt k2 (ev_key ev)) as Hk2; [|congruence].
      apply Hall2, list_elem_of_In, in_map_iff. exists (ev_key ev, es).
      by rewrite <- list_elem_of_In. }
    pose proof Ha as (c & l2 & cv2 & -> & -> & Hc2 & Hk2 & _).
    rewrite (bind_load _ _ _ _ Hc2), bind_panic_if
      by (rewrite ev_ne_key, Hk2; by rewrite bool_decide_eq_true_2).
    destruct (removeItem_spec q (ev_key ev) event c l2 post2)
      as (p & q1 & Hr & Ha1 & Hhd & Hlo & Hfr); [done..|].
    rewrite (bind_run _ _ _ _ _ Hr). simpl in Hp. cbn [bremove] in Hnd', Hs' |- *.
    rewrite Hp in Hnd', Hs' |- *.
    destruct (relink (q_heap q) q1 (Some hd) pre ((ev_key ev, c :: l2) :: post2)
      (trim (ev_key ev) (del event (c :: l2)) post2) p' p)
      as (q' & Hst & Hat' & Hh' & Hlo'); [by rewrite <- Hh| |done|done| |done|].
    { intros x Hx. apply Hfr. intros Hx'. apply (Hdisj _ Hx).
      rewrite events_of_cons, elem_of_app. by left. }
    { apply last_top_in in Hl'. intros Hx. apply (Hdisj _ Hl').
      rewrite events_of_trim, elem_of_app in Hx. rewrite events_of_cons, elem_of_app.
      destruct Hx as [?%del_subset|?]; auto. }
    rewrite Hst. eexists; split; [done|]. split; [|by etrans].
    split; [|done|done]. by rewrite Hh', Hhd, Hh.
Qed.
