(* ===== verification/EventSched.v ===== *)
(** * Scheduling and servicing events

    [QInv q bs]: the queue represents [bs], an event carries the [Scheduled]
    flag exactly when it is in the queue, and nothing is scheduled in the past.
    The public operations [schedule], [deschedule], [reschedule] and
    [serviceOne] keep it.  [Sched] is what the rest of the simulator relies on:
    a clock and a finite map from events to the tick they are due; the heap
    queue refines it. *)

From S2P Require Import Prelude EventQ EventQRep EventQOps.

(** ** The abstract scheduler *)

Section Abstract.
Context {K : Type} `{Countable K}.

Record Sched := mkSched { s_now : Z; s_pending : gmap K Z }.

Definition s_scheduled (k : K) (s : Sched) : bool :=
  bool_decide (is_Some (s_pending s !! k)).

Definition s_schedule (k : K) (when : Z) : M Sched unit := fun s =>
  if s_now s <=? when then
    if s_scheduled k s then Err (EAssert "!event->scheduled()")
    else Ok (tt, mkSched (s_now s) (<[k := when]> (s_pending s)))
  else Err (EAssert "when >= getCurTick()").

Definition s_deschedule (k : K) : M Sched unit := fun s =>
  if s_scheduled k s
  then Ok (tt, mkSched (s_now s) (delete k (s_pending s)))
  else Err (EAssert "event->scheduled()").

Definition s_reschedule (k : K) (when : Z) (always : bool) : M Sched unit := fun s =>
  if s_now s <=? when then
    if always || s_scheduled k s
    then Ok (tt, mkSched (s_now s) (<[k := when]> (s_pending s)))
    else Err (EAssert "always || event->scheduled()")
  else Err (EAssert "when >= getCurTick()").

(** An event may be serviced next when nothing is due earlier. *)
Definition s_due (k : K) (t : Z) (s : Sched) : Prop :=
  s_pending s !! k = Some t /\ map_Forall (fun _ t' => t <= t') (s_pending s).

(** Servicing moves the clock to the event's tick and unschedules it. *)
Definition s_service (k : K) (t : Z) (s : Sched) : Sched :=
  mkSched t (delete k (s_pending s)).

Definition s_wf (s : Sched) : Prop := map_Forall (fun _ t => s_now s <= t) (s_pending s).

Lemma s_schedule_wf k when s s' :
  s_wf s -> s_schedule k when s = Ok (tt, s') -> s_wf s'.
Proof.
  unfold s_schedule, s_wf. intros Hw Hs. destruct (_ <=? _) eqn:Hle; [|done].
  case_match; [done|]. simplify_eq/=. apply map_Forall_insert_2; [lia|done].
Qed.

Lemma s_service_wf k t s : s_due k t s -> s_wf (s_service k t s).
Proof. intros [_ Hd]. unfold s_wf; simpl. by apply map_Forall_delete. Qed.
End Abstract.
Arguments Sched K {_ _}.

(** Running the abstract operations. *)
Lemma s_schedule_fresh {K} `{Countable K} (k : K) t (s : Sched K) :
  s_now s <= t -> s_scheduled k s = false ->
  s_schedule k t s = Ok (tt, mkSched (s_now s) (<[k := t]> (s_pending s))).
Proof. intros Hle Hs. unfold s_schedule. rewrite Hs. by apply Z.leb_le in Hle as ->. Qed.

Lemma s_reschedule_always {K} `{Countable K} (k : K) t (s : Sched K) :
  s_now s <= t -> s_reschedule k t true s = Ok (tt, mkSched (s_now s) (<[k := t]> (s_pending s))).
Proof. intros Hle. unfold s_reschedule. by apply Z.leb_le in Hle as ->. Qed.

Lemma s_scheduled_insert {K} `{Countable K} (k k' : K) t n (p : gmap K Z) :
  s_scheduled k (mkSched n (<[k' := t]> p)) = bool_decide (k = k') || s_scheduled k (mkSched n p).
Proof.
  unfold s_scheduled; simpl. rewrite lookup_insert. case_decide; subst.
  - rewrite (bool_decide_eq_true_2 (k = k)), bool_decide_eq_true_2; eauto.
  - rewrite (bool_decide_eq_false_2 (k = k')); [done|congruence].
Qed.

Lemma s_service_scheduled {K} `{Countable K} (e e' : K) t (s : Sched K) :
  s_scheduled e' (s_service e t s) = negb (bool_decide (e = e')) && s_scheduled e' s.
Proof.
  unfold s_scheduled, s_service; simpl. rewrite lookup_delete. case_decide; subst.
  - rewrite (bool_decide_eq_true_2 (e' = e')) by done. by rewrite bool_decide_eq_false_2 by (intros [? ?]; done).
  - by rewrite (bool_decide_eq_false_2 (e = e')) by done.
Qed.

Lemma s_due_scheduled {K} `{Countable K} (e : K) t (s : Sched K) : s_due e t s -> s_scheduled e s = true.
Proof. intros [He _]. unfold s_scheduled. rewrite He. apply bool_decide_eq_true_2. eauto. Qed.

(** ** Flags *)

Lemma isSet_testbit f n : 0 <= n -> fl_isSet f (2 ^ n) = Z.testbit f n.
Proof.
  intros Hn. unfold fl_isSet. destruct (Z.testbit f n) eqn:Hb.
  - apply negb_true_iff, Z.eqb_neq. intros Hz.
    assert (Z.testbit (Z.land f (2 ^ n)) n = false) as Hf by (rewrite Hz; apply Z.bits_0).
    rewrite Z.land_spec, Hb, Z.pow2_bits_true in Hf by done. done.
  - apply negb_false_iff, Z.eqb_eq. apply Z.bits_inj'. intros m Hm.
    rewrite Z.bits_0, Z.land_spec. destruct (Z.eq_dec n m) as [<-|Hne].
    + by rewrite Hb.
    + rewrite Z.pow2_bits_false by done. apply andb_false_r.
Qed.

Lemma scheduled_bit e : scheduled e = Z.testbit (ev_flags e) 1.
Proof. apply (isSet_testbit _ 1). lia. Qed.
Lemma squashed_bit e : squashed e = Z.testbit (ev_flags e) 0.
Proof. apply (isSet_testbit _ 0). lia. Qed.

Lemma set_Scheduled_scheduled e :
  scheduled (set_flags (fl_set (ev_flags e) Scheduled) e) = true.
Proof. rewrite scheduled_bit; cbn [ev_flags set_flags]. unfold fl_set. rewrite Z.lor_spec. apply orb_true_r. Qed.

Lemma clear_Scheduled_scheduled e :
  scheduled (set_flags (fl_clear (ev_flags e) Scheduled) e) = false.
Proof. rewrite scheduled_bit; cbn [ev_flags set_flags]. unfold fl_clear. rewrite Z.ldiff_spec. apply andb_false_r. Qed.

Lemma clear_Squashed_scheduled e :
  scheduled (set_flags (fl_clear (ev_flags e) Squashed) e) = scheduled e.
Proof. rewrite !scheduled_bit; cbn [ev_flags set_flags]. unfold fl_clear. rewrite Z.ldiff_spec. apply andb_true_r. Qed.

#[export] Hint Rewrite set_Scheduled_scheduled clear_Scheduled_scheduled
  clear_Squashed_scheduled : hetsim.

(** ** The invariant of the public interface *)

Record QInv (q : EventQueue) (bs : bins) : Prop := {
  qi_rep : Rep q bs;
  qi_flag : forall p ev, q_heap q !! p = Some ev ->
    (scheduled ev = true <-> p ∈ events_of bs);
  qi_queue : forall p ev, p ∈ events_of bs -> q_heap q !! p = Some ev ->
    ev_queue ev = Some (q_name q);
  qi_future : forall p ev, p ∈ events_of bs -> q_heap q !! p = Some ev ->
    q_curTick q <= ev_when ev
}.

(** Writing fields other than the links (and the key of a queued event) keeps
    the representation. *)
Lemma in_bin_store h k p es x xv xv' :
  in_bin h k p es -> h !! x = Some xv ->
  nextInBin xv' = nextInBin xv -> (x ∈ es -> ev_key xv' = ev_key xv) ->
  in_bin (<[x := xv']> h) k p es.
Proof.
  intros Hb Hx Hn. revert p Hb. induction es as [|e es IH]; simpl; [done|].
  intros p (-> & ev & He & Hk & Hb) Hkey. split; [done|].
  destruct (decide (x = e)) as [->|Hne].
  - assert (ev = xv) as -> by congruence. exists xv'. rewrite lookup_insert_eq, Hn.
    split_and!; [done| |].
    + rewrite Hkey by set_solver. done.
    + apply IH; [done|]. intros; apply Hkey. set_solver.
  - exists ev. rewrite lookup_insert_ne by done. split_and!; [done..|].
    apply IH; [done|]. intros; apply Hkey. set_solver.
Qed.

Lemma bins_at_store h p bs x xv xv' :
  bins_at h p bs -> h !! x = Some xv ->
  nextBin xv' = nextBin xv -> nextInBin xv' = nextInBin xv ->
  (x ∈ events_of bs -> ev_key xv' = ev_key xv) ->
  bins_at (<[x := xv']> h) p bs.
Proof.
  intros Hat Hx Hn1 Hn2. revert p Hat. induction bs as [|[k es] bs IH]; [done|].
  intros p Hat Hkey. apply bins_at_cons in Hat as (e & es' & ev & -> & He & Hb & Ht).
  rewrite events_of_cons in Hkey. apply bins_at_cons.
  exists e, es', (if decide (x = e) then xv' else ev). split_and!; [done| | |].
  - case_decide; [subst; by rewrite lookup_insert_eq|by rewrite lookup_insert_ne].
  - eapply in_bin_store; [done|done|done|]. intros. apply Hkey. rewrite elem_of_app. by left.
  - replace (nextBin _) with (nextBin ev) by (case_decide; simplify_eq; done).
    apply IH; [done|]. intros. apply Hkey. rewrite elem_of_app. by right.
Qed.

Lemma rep_store q bs x xv xv' :
  Rep q bs -> q_heap q !! x = Some xv ->
  nextBin xv' = nextBin xv -> nextInBin xv' = nextInBin xv ->
  (x ∈ events_of bs -> ev_key xv' = ev_key xv) ->
  Rep (set_heap (<[x := xv']> (q_heap q)) q) bs.
Proof. intros [Hat Hs Hnd] ????. split; [|done|done]. by eapply bins_at_store. Qed.

Lemma links_lookup q q' p ev' :
  links_only q q' -> q_heap q' !! p = Some ev' ->
  exists ev, q_heap q !! p = Some ev /\ ev_data ev = ev_data ev'.
Proof.
  intros [_ _ _ Hd] Hp. specialize (Hd p). rewrite Hp in Hd; simpl in Hd.
  destruct (q_heap q !! p) as [ev|]; [|done]. exists ev. split; [done|].
  simpl in Hd. by apply (inj Some) in Hd.
Qed.

Lemma links_lookup_r q q' p ev :
  links_only q q' -> q_heap q !! p = Some ev ->
  exists ev', q_heap q' !! p = Some ev' /\ ev_data ev' = ev_data ev.
Proof.
  intros [_ _ _ Hd] Hp. specialize (Hd p). rewrite Hp in Hd; simpl in Hd.
  destruct (q_heap q' !! p) as [ev'|]; [|done]. exists ev'. split; [done|].
  simpl in Hd. by apply (inj Some) in Hd.
Qed.

Lemma data_eq e e' :
  ev_data e' = ev_data e ->
  ev_when e' = ev_when e /\ ev_priority e' = ev_priority e
  /\ ev_flags e' = ev_flags e /\ ev_queue e' = ev_queue e.
Proof. unfold ev_data. intros. by simplify_eq. Qed.

Lemma data_scheduled e e' : ev_data e' = ev_data e -> scheduled e' = scheduled e.
Proof. intros (_ & _ & Hf & _)%data_eq. unfold scheduled. by rewrite Hf. Qed.

(** ** The public operations keep the invariant

    One event changes, every other event keeps its data. *)
Lemma qinv_update q bs q' bs' e ev' :
  QInv q bs -> Rep q' bs' ->
  q_name q' = q_name q -> q_curTick q' = q_curTick q ->
  (forall p, p <> e -> p ∈ events_of bs' <-> p ∈ events_of bs) ->
  (forall p, p <> e -> ev_data <$> (q_heap q' !! p) = ev_data <$> (q_heap q !! p)) ->
  q_heap q' !! e = Some ev' ->
  (scheduled ev' = true <-> e ∈ events_of bs') ->
  (e ∈ events_of bs' -> ev_queue ev' = Some (q_name q) /\ q_curTick q <= ev_when ev') ->
  QInv q' bs'.
Proof.
  intros [HR Hfl Hq Hfut] HR' Hname Htick Hmem Hdata He Hsch Hev.
  assert (forall p pv, p <> e -> q_heap q' !! p = Some pv ->
    exists pv0, q_heap q !! p = Some pv0 /\ ev_data pv = ev_data pv0) as Hold.
  { intros p pv Hne Hp. specialize (Hdata p Hne). rewrite Hp in Hdata. simpl in Hdata.
    destruct (q_heap q !! p) as [pv0|]; [|done]. exists pv0. split; [done|].
    simpl in Hdata. by apply (inj Some) in Hdata. }
  split; [done|..]; intros p pv.
  - intros Hp. destruct (decide (p = e)) as [->|Hne]; [by simplify_eq|].
    destruct (Hold p pv Hne Hp) as (pv0 & Hp0 & Hd).
    rewrite (data_scheduled _ _ Hd), Hmem by done. by apply Hfl.
  - intros Hin Hp. destruct (decide (p = e)) as [->|Hne]; [simplify_eq; rewrite Hname; by apply Hev|].
    destruct (Hold p pv Hne Hp) as (pv0 & Hp0 & (_ & _ & _ & ->)%data_eq).
    rewrite Hname. eapply Hq; [|done]. by apply Hmem.
  - intros Hin Hp. destruct (decide (p = e)) as [->|Hne]; [simplify_eq; rewrite Htick; by apply Hev|].
    destruct (Hold p pv Hne Hp) as (pv0 & Hp0 & (-> & _)%data_eq).
    rewrite Htick. eapply Hfut; [|done]. by apply Hmem.
Qed.

Lemma binsert_elem k e bs p : p ∈ events_of (binsert k e bs) <-> p = e \/ p ∈ events_of bs.
Proof. rewrite binsert_events. apply elem_of_cons. Qed.

(** Everything but one event keeps its data, and the clock stands still. *)
Definition others_same (e : ptr) (q q' : EventQueue) : Prop :=
  q_curTick q' = q_curTick q /\ q_name q' = q_name q
  /\ forall p, p <> e -> ev_data <$> (q_heap q' !! p) = ev_data <$> (q_heap q !! p).

(** The tail shared by [schedule] and [reschedule]: time stamp, insert, flags. *)
Lemma enqueue_spec q bs e ev when q0 bs0 (fl : Event -> Event) (k : Q unit) :
  QInv q0 bs0 -> (forall p, p <> e -> p ∈ events_of bs <-> p ∈ events_of bs0) ->
  q_heap q !! e = Some ev -> e ∉ events_of bs -> Rep q bs -> q_name q = q_name q0 -> q_curTick q = q_curTick q0 -> q_curTick q0 <= when ->
  (forall p, p <> e -> ev_data <$> (q_heap q !! p) = ev_data <$> (q_heap q0 !! p)) ->
  (forall x, nextBin (fl x) = nextBin x /\ nextInBin (fl x) = nextInBin x
     /\ ev_when (fl x) = ev_when x /\ ev_priority (fl x) = ev_priority x
     /\ ev_queue (fl x) = ev_queue x /\ scheduled (fl x) = true) ->
  (forall q2 x, q_heap q2 !! e = Some x ->
     k q2 = Ok (tt, set_heap (<[e := fl x]> (q_heap q2)) q2)) ->
  exists q', (store e (setWhen when (q_name q0));; insert e;; k) q = Ok (tt, q')
    /\ QInv q' (binsert (when, ev_priority ev) e bs)
    /\ others_same e q0 q'
    /\ exists ev', q_heap q' !! e = Some ev' /\ ev_when ev' = when.
Proof.
  intros Hinv Hsame He Hnot HR Hname Htick Hle Hdata Hfl Hk.
  rewrite (bind_store _ _ _ _ _ He). set (ev1 := setWhen when (q_name q0) ev).
  set (q1 := set_heap (<[e := ev1]> (q_heap q)) q).
  assert (Rep q1 bs) as HR1 by (by eapply rep_store).
  assert (q_heap q1 !! e = Some ev1) as He1 by apply lookup_insert_eq.
  destruct (insert_rep q1 bs e ev1) as (q2 & Hrun & HR2 & Hlo); [done..|].
  rewrite (bind_run _ _ _ _ _ Hrun).
  destruct (links_lookup_r _ _ _ _ Hlo He1) as (ev2 & He2 & Hd2).
  apply data_eq in Hd2 as (Hw & Hp & Hf & Hqu).
  destruct (Hfl ev2) as (F1 & F2 & F3 & F4 & F5 & F6).
  rewrite (Hk _ _ He2). eexists. split; [done|].
  assert (others_same e q0 (set_heap (<[e := fl ev2]> (q_heap q2)) q2)) as Ho.
  { split_and!; simpl; [by rewrite (lo_tick _ _ Hlo)|by rewrite (lo_name _ _ Hlo)|].
    intros p Hne. rewrite lookup_insert_ne by done.
    rewrite (lo_data _ _ Hlo). simpl. rewrite lookup_insert_ne by done. by apply Hdata. }
  split_and!; [|done|exists (fl ev2); split; [apply lookup_insert_eq|by rewrite F3, Hw]].
  destruct Ho as (Ho1 & Ho2 & Ho3). apply (qinv_update q0 bs0 _ _ e (fl ev2)); simpl.
  - done.
  - eapply rep_store; [exact HR2|done..|]. intros _. unfold ev_key. congruence.
  - exact Ho2.
  - exact Ho1.
  - intros p Hne. rewrite binsert_elem, <- Hsame by done. naive_solver.
  - exact Ho3.
  - apply lookup_insert_eq.
  - rewrite F6, binsert_elem. naive_solver.
  - intros _. rewrite F5, F3, Hqu, Hw. done.
Qed.

(** [EventQueue::schedule] of an idle event at a tick that is not in the past
    succeeds and puts the event in the bin of its tick and priority. *)
Lemma schedule_spec q bs e ev when :
  QInv q bs -> q_heap q !! e = Some ev -> scheduled ev = false ->
  initialized ev = true -> q_curTick q <= when ->
  exists q', schedule false e when q = Ok (tt, q')
    /\ QInv q' (binsert (when, ev_priority ev) e bs)
    /\ others_same e q q'
    /\ exists ev', q_heap q' !! e = Some ev' /\ ev_when ev' = when.
Proof.
  intros Hinv He Hs Hi Hle. unfold schedule.
  rewrite !bind_gets, (bind_load _ _ _ _ He).
  rewrite bind_assert by (by apply Z.leb_le). rewrite bind_assert by (by rewrite Hs).
  rewrite bind_assert by done.
  apply (enqueue_spec _ _ _ _ _ q bs
    (fun x => set_flags (fl_set (ev_flags x) Scheduled) x)); try done.
  - intros Hin. by apply (qi_flag _ _ Hinv _ _ He) in Hin; rewrite Hs in Hin.
  - apply Hinv.
  - intros x. split_and!; try done. apply set_Scheduled_scheduled.
  - intros q2 x Hx. by rewrite (store_eq _ _ _ _ Hx).
Qed.

(** Deleting an event that is not queued ([release] of a managed event). *)
Lemma qinv_delete q bs e :
  QInv q bs -> e ∉ events_of bs -> QInv (set_heap (delete e (q_heap q)) q) bs.
Proof.
  intros [[Hat Hs Hnd] Hfl Hq Hfut] Hnot. split; [split; [|done|done]|..]; simpl.
  - eapply bins_at_frame; [|done]. intros x Hx. apply lookup_delete_ne. by intros ->.
  - intros p pv Hp. rewrite lookup_delete_Some in Hp. naive_solver.
  - intros p pv Hin Hp. rewrite lookup_delete_Some in Hp. naive_solver.
  - intros p pv Hin Hp. rewrite lookup_delete_Some in Hp. naive_solver.
Qed.

Lemma release_spec q bs e ev :
  QInv q bs -> q_heap q !! e = Some ev -> scheduled ev = false ->
  exists q', release e q = Ok (tt, q') /\ QInv q' bs
    /\ q_curTick q' = q_curTick q /\ q_name q' = q_name q
    /\ (forall p, p <> e -> q_heap q' !! p = q_heap q !! p).
Proof.
  intros Hinv He Hs. unfold release. rewrite (bind_load _ _ _ _ He), Hs.
  destruct (isManaged ev); simpl when_; [|by exists q].
  eexists. split; [done|]. split; [|split_and!; [done|done|]].
  - apply qinv_delete; [done|]. intros Hin.
    apply (qi_flag _ _ Hinv _ _ He) in Hin. by rewrite Hs in Hin.
  - intros p Hp. by apply lookup_delete_ne.
Qed.

Lemma bremove_elem q bs e ev p :
  QInv q bs -> q_heap q !! e = Some ev -> e ∈ events_of bs ->
  p ∈ events_of (bremove (ev_key ev) e bs) <-> p <> e /\ p ∈ events_of bs.
Proof.
  intros [[Hat Hs Hnd] _ _ _] He Hin. rewrite bremove_events; [|done|done|].
  - unfold del. by rewrite list_elem_of_filter.
  - by eapply events_of_bin.
Qed.

(** [remove] seen from the public invariant. *)
Lemma remove_spec q bs e ev :
  QInv q bs -> q_heap q !! e = Some ev -> scheduled ev = true ->
  exists q1 ev1, remove e q = Ok (tt, q1)
    /\ Rep q1 (bremove (ev_key ev) e bs) /\ links_only q q1
    /\ q_heap q1 !! e = Some ev1 /\ ev_data ev1 = ev_data ev
    /\ e ∈ events_of bs.
Proof.
  intros Hinv He Hs. assert (e ∈ events_of bs) as Hin by (by apply (qi_flag _ _ Hinv _ _ He)).
  destruct (remove_rep q bs e ev) as (q1 & Hrun & HR & Hlo); [apply Hinv|done| |done|].
  { by eapply qi_queue. }
  destruct (links_lookup_r _ _ _ _ Hlo He) as (ev1 & He1 & Hd). by exists q1, ev1.
Qed.

(** [EventQueue::deschedule] of a scheduled event takes exactly it out. *)
Lemma deschedule_spec q bs e ev :
  QInv q bs -> q_heap q !! e = Some ev -> scheduled ev = true -> initialized ev = true ->
  exists q', deschedule e q = Ok (tt, q') /\ QInv q' (bremove (ev_key ev) e bs)
    /\ others_same e q q'.
Proof.
  intros Hinv He Hs Hi. unfold deschedule. rewrite (bind_load _ _ _ _ He).
  rewrite !bind_assert by done.
  destruct (remove_spec q bs e ev) as (q1 & ev1 & Hrun & HR & Hlo & He1 & Hd & Hin); [done..|].
  rewrite (bind_run _ _ _ _ _ Hrun), (bind_store _ _ _ _ _ He1).
  erewrite bind_store by apply lookup_insert_eq. cbn [q_heap set_heap].
  rewrite insert_insert_eq, set_heap_twice.
  set (ev2 := set_flags _ _). set (q2 := set_heap _ q1).
  assert (scheduled ev2 = false) as Hs2 by apply clear_Scheduled_scheduled.
  assert (QInv q2 (bremove (ev_key ev) e bs)) as Hinv2.
  { apply (qinv_update q bs _ _ e ev2); simpl.
    - done.
    - eapply rep_store; [done..|]. intros (Hne & _)%(bremove_elem q); done.
    - apply Hlo.
    - apply Hlo.
    - intros p Hp. rewrite (bremove_elem q bs e ev) by done. naive_solver.
    - intros p Hp. rewrite lookup_insert_ne by done. apply Hlo.
    - apply lookup_insert_eq.
    - rewrite Hs2, (bremove_elem q bs e ev) by done. naive_solver.
    - intros (? & _)%(bremove_elem q); done. }
  destruct (release_spec q2 _ e ev2 Hinv2) as (q' & Hrel & Hinv' & Ht & Hn & Hoth);
    [apply lookup_insert_eq|done|].
  exists q'. split_and!; [done|done|].
  split_and!; [rewrite Ht; apply Hlo|rewrite Hn; apply Hlo|].
  intros p Hp. rewrite Hoth by done. simpl. rewrite lookup_insert_ne by done. apply Hlo.
Qed.

(** [EventQueue::reschedule] moves a scheduled event, or schedules an idle one
    when [always] is set. *)
Lemma reschedule_spec q bs e ev when always :
  QInv q bs -> q_heap q !! e = Some ev -> initialized ev = true ->
  always || scheduled ev = true -> q_curTick q <= when ->
  exists q', reschedule e when always q = Ok (tt, q')
    /\ QInv q' (binsert (when, ev_priority ev) e
         (if scheduled ev then bremove (ev_key ev) e bs else bs))
    /\ others_same e q q'
    /\ exists ev', q_heap q' !! e = Some ev' /\ ev_when ev' = when.
Proof.
  intros Hinv He Hi Ha Hle. unfold reschedule.
  rewrite !bind_gets, (bind_load _ _ _ _ He).
  rewrite bind_assert by (by apply Z.leb_le). rewrite !bind_assert by done.
  set (fl := fun x => set_flags (fl_set (fl_clear (ev_flags x) Squashed) Scheduled) x).
  assert (forall q2 x, q_heap q2 !! e = Some x ->
    (store e (fun e => set_flags (fl_clear (ev_flags e) Squashed) e);;
     store e (fun e => set_flags (fl_set (ev_flags e) Scheduled) e)) q2
    = Ok (tt, set_heap (<[e := fl x]> (q_heap q2)) q2)) as Hk.
  { intros q2 x Hx. rewrite (bind_store _ _ _ _ _ Hx).
    erewrite store_eq by apply lookup_insert_eq. cbn [q_heap set_heap].
    by rewrite insert_insert_eq, set_heap_twice. }
  assert (forall x, nextBin (fl x) = nextBin x /\ nextInBin (fl x) = nextInBin x
     /\ ev_when (fl x) = ev_when x /\ ev_priority (fl x) = ev_priority x
     /\ ev_queue (fl x) = ev_queue x /\ scheduled (fl x) = true) as Hfl.
  { intros x. split_and!; try done.
    apply (set_Scheduled_scheduled (set_flags (fl_clear (ev_flags x) Squashed) x)). }
  destruct (scheduled ev) eqn:Hs; simpl when_.
  - destruct (remove_spec q bs e ev) as (q1 & ev1 & Hrun & HR & Hlo & He1 & Hd & Hin); [done..|].
    rewrite (bind_run _ _ _ _ _ Hrun).
    replace (ev_priority ev) with (ev_priority ev1) by (by apply data_eq in Hd as (_ & ? & _)).
    eapply (enqueue_spec _ _ _ _ _ q bs fl); try done.
    + intros p Hp. rewrite (bremove_elem q bs e ev) by done. naive_solver.
    + intros (? & _)%(bremove_elem q); done.
    + apply Hlo.
    + apply Hlo.
    + intros p _. apply Hlo.
  - rewrite bind_ret. eapply (enqueue_spec _ _ _ _ _ q bs fl); try done.
    + intros Hin. by apply (qi_flag _ _ Hinv _ _ He) in Hin; rewrite Hs in Hin.
    + apply Hinv.
Qed.
