(* ===== verification/EventQProps.v ===== *)
(** * Properties of the event queue

    The linear reference queue ([flat_insert] on one sorted list), the
    refinement of the abstract scheduler, the order of service, and the
    self-check [debugVerify]. *)

From S2P Require Import Prelude EventQ EventQRep EventQOps EventSched.

(** ** The reference: one flat list ordered by key, newest first among equals *)

Definition flat (bs : bins) : list (key * ptr) :=
  concat (map (fun b : key * list ptr => map (fun e => (b.1, e)) b.2) bs).

Fixpoint flat_insert (k : key) (e : ptr) (l : list (key * ptr)) : list (key * ptr) :=
  match l with
  | [] => [(k, e)]
  | (k', e') :: l' =>
      if kltb k' k then (k', e') :: flat_insert k e l' else (k, e) :: l
  end.

Lemma flat_insert_lt k e l1 l2 :
  Forall (fun x => kltb x.1 k = true) l1 ->
  flat_insert k e (l1 ++ l2) = l1 ++ flat_insert k e l2.
Proof. induction 1 as [|[k' e'] l1 Hk _ IH]; simpl; [done|]. simpl in Hk. by rewrite Hk, IH. Qed.

Lemma flat_binsert h p k e bs :
  bins_at h p bs -> flat (binsert k e bs) = flat_insert k e (flat bs).
Proof.
  revert p. induction bs as [|[k' es] bs IH]; [done|]. intros p Hat.
  pose proof Hat as (x & l & xv & -> & _ & _ & _ & _ & Ht). cbn [binsert].
  destruct (kltb k k') eqn:H1; [|destruct (kltb k' k) eqn:H2].
  - unfold flat; simpl. by rewrite (klt_asym _ _ H1).
  - change (flat ((k', x :: l) :: bs)) with (map (pair k') (x :: l) ++ flat bs).
    rewrite flat_insert_lt, <- (IH _ Ht); [done|]. apply Forall_map, Forall_forall. done.
  - unfold flat; simpl. rewrite H2. assert (k = k') as -> by auto using klt_total. done.
Qed.

Lemma flat_snd bs : map snd (flat bs) = events_of bs.
Proof.
  unfold flat, events_of. induction bs as [|[k es] bs IH]; simpl; [done|].
  rewrite map_app, IH, map_map. f_equal. simpl. apply map_id.
Qed.

Lemma flat_sorted bs : keys_sorted bs -> StronglySorted (fun x y => kltb y.1 x.1 = false) (flat bs).
Proof.
  unfold keys_sorted. induction bs as [|[k es] bs IH]; simpl; [constructor|].
  intros [Hs Hall]%StronglySorted_inv.
  change (flat ((k, es) :: bs)) with (map (pair k) es ++ flat bs).
  assert (Forall (fun y : key * ptr => kltb y.1 k = false) (flat bs)) as Hf.
  { apply Forall_forall. intros [k' e'] Hin. simpl.
    apply list_elem_of_In, in_concat in Hin as (l & Hl & Hin).
    apply in_map_iff in Hl as ([k2 es2] & <- & Hb). apply in_map_iff in Hin as (? & [= -> ->] & _).
    apply klt_asym. rewrite Forall_forall in Hall. apply Hall.
    apply list_elem_of_In, in_map_iff. by exists (k', es2). }
  induction es as [|e es IHes]; simpl; [auto|]. constructor; [done|].
  apply Forall_app. split; [|done]. apply Forall_map, Forall_forall. intros ? _. simpl.
  apply not_true_is_false, klt_irrefl.
Qed.

(** Insertion into the linked list of linked lists, run on any heap that
    represents [bs], is insertion into the flat sorted list: before the first
    event whose (tick, priority) is not smaller, so that equal events are
    served last in, first out. *)
Theorem insert_flat q bs event ev :
  Rep q bs -> q_heap q !! event = Some ev -> event ∉ events_of bs ->
  exists q' bs', insert event q = Ok (tt, q') /\ Rep q' bs' /\ links_only q q'
    /\ flat bs' = flat_insert (ev_key ev) event (flat bs).
Proof.
  intros HR He Hnot. destruct (insert_rep q bs event ev) as (q' & Hrun & HR' & Hlo); [done..|].
  exists q', (binsert (ev_key ev) event bs). split_and!; [done..|].
  eapply flat_binsert. apply HR.
Qed.

(** Removal deletes exactly the event from the flat list. *)
Theorem remove_flat q bs event ev :
  Rep q bs -> q_heap q !! event = Some ev -> ev_queue ev = Some (q_name q) ->
  event ∈ events_of bs ->
  exists q' bs', remove event q = Ok (tt, q') /\ Rep q' bs' /\ links_only q q'
    /\ map snd (flat bs') = del event (map snd (flat bs)).
Proof.
  intros HR He Hq Hin. destruct (remove_rep q bs event ev) as (q' & Hrun & HR' & Hlo); [done..|].
  exists q', (bremove (ev_key ev) event bs). split_and!; [done..|].
  rewrite !flat_snd. destruct HR. apply bremove_events; [done..|]. by eapply events_of_bin.
Qed.

(** ** Refinement of the abstract scheduler *)

Definition due_at (q : EventQueue) (bs : bins) (p : ptr) (t : Z) : Prop :=
  p ∈ events_of bs /\ exists ev, q_heap q !! p = Some ev /\ ev_when ev = t.

Definition sim (q : EventQueue) (s : Sched ptr) : Prop :=
  exists bs, QInv q bs /\ q_curTick q = s_now s
    /\ forall p t, s_pending s !! p = Some t <-> due_at q bs p t.

Inductive sop :=
  | OSchedule (e : ptr) (when : Z)
  | ODeschedule (e : ptr)
  | OReschedule (e : ptr) (when : Z) (always : bool).

Definition sop_event (o : sop) : ptr :=
  match o with OSchedule e _ | ODeschedule e | OReschedule e _ _ => e end.
Definition run_heap (o : sop) : Q unit :=
  match o with
  | OSchedule e w => schedule false e w
  | ODeschedule e => deschedule e
  | OReschedule e w a => reschedule e w a
  end.
Definition run_sched (o : sop) : M (Sched ptr) unit :=
  match o with
  | OSchedule e w => s_schedule e w
  | ODeschedule e => s_deschedule e
  | OReschedule e w a => s_reschedule e w a
  end.

Lemma sim_scheduled q s e ev :
  sim q s -> q_heap q !! e = Some ev -> s_scheduled e s = scheduled ev.
Proof.
  intros (bs & Hinv & _ & Hp) He. unfold s_scheduled.
  pose proof (qi_flag _ _ Hinv _ _ He) as Hfl. case_bool_decide as Hs.
  - destruct Hs as [t Ht]. apply Hp in Ht as [Hin _]. symmetry. by apply Hfl.
  - symmetry. apply not_true_is_false. intros Hsch. apply Hs.
    exists (ev_when ev). apply Hp. split; [by apply Hfl|]. eauto.
Qed.

(** Every event other than the one operated on keeps its due time. *)
Lemma due_other q bs q' bs' e p t :
  p <> e -> (p ∈ events_of bs' <-> p ∈ events_of bs) ->
  ev_data <$> (q_heap q' !! p) = ev_data <$> (q_heap q !! p) ->
  due_at q' bs' p t <-> due_at q bs p t.
Proof.
  intros Hne Hmem Hd. unfold due_at. rewrite Hmem.
  destruct (q_heap q' !! p) as [x'|], (q_heap q !! p) as [x|]; simpl in Hd; try done.
  apply (inj Some) in Hd. apply data_eq in Hd as (Hw & _). naive_solver.
Qed.

(** After (re)scheduling [e] for [when]. *)
Lemma sim_enqueued q s q' bs bs' e ev' k when :
  QInv q bs -> q_curTick q = s_now s ->
  (forall p t, s_pending s !! p = Some t <-> due_at q bs p t) ->
  QInv q' (binsert k e bs') -> (forall p, p <> e -> p ∈ events_of bs' <-> p ∈ events_of bs) ->
  others_same e q q' -> q_heap q' !! e = Some ev' -> ev_when ev' = when ->
  sim q' (mkSched (s_now s) (<[e := when]> (s_pending s))).
Proof.
  intros Hinv Hnow Hp Hinv' Hmem (Ht & _ & Hoth) He Hw. exists (binsert k e bs').
  split; [done|]. split; [by rewrite Ht|]. intros p t. simpl.
  destruct (decide (p = e)) as [->|Hne].
  - rewrite lookup_insert_eq. unfold due_at. rewrite He, binsert_elem.
    split; [intros [= <-]; eauto|]. intros (_ & ? & [= <-] & <-). by rewrite Hw.
  - rewrite lookup_insert_ne, Hp by done. symmetry. apply (due_other _ _ _ _ e); [done| |auto].
    rewrite binsert_elem, <- Hmem by done. naive_solver.
Qed.

Lemma sim_dequeued q s q' bs bs' e :
  (forall p t, s_pending s !! p = Some t <-> due_at q bs p t) ->
  QInv q' bs' -> (forall p, p ∈ events_of bs' <-> p <> e /\ p ∈ events_of bs) ->
  (forall p, p <> e -> ev_data <$> (q_heap q' !! p) = ev_data <$> (q_heap q !! p)) ->
  sim q' (mkSched (q_curTick q') (delete e (s_pending s))).
Proof.
  intros Hp Hinv' Hmem Hoth. exists bs'. split; [done|]. split; [done|]. intros p t. simpl.
  destruct (decide (p = e)) as [->|Hne].
  - rewrite lookup_delete_eq. split; [done|]. intros [Hin _]. naive_solver.
  - rewrite lookup_delete_ne, Hp by done. symmetry. apply (due_other _ _ _ _ e); [done| |auto].
    rewrite Hmem. naive_solver.
Qed.

(** [refines m a q s]: run on related states, the heap operation [m] fails as the
    abstract operation [a] fails, and otherwise ends in a related state. *)
Definition refines (m : Q unit) (a : M (Sched ptr) unit) (q : EventQueue) (s : Sched ptr) : Prop :=
  match a s with
  | Ok (_, s') => exists q', m q = Ok (tt, q') /\ sim q' s'
  | Err er => m q = Err er
  end.

Section Refinement.
Context (q : EventQueue) (s : Sched ptr) (e : ptr) (ev : Event).
Hypothesis (Hsim : sim q s) (He : q_heap q !! e = Some ev) (Hi : initialized ev = true).

Lemma schedule_sim w : refines (schedule false e w) (s_schedule e w) q s.
Proof using Hsim He Hi.
  unfold refines, s_schedule. rewrite (sim_scheduled _ _ _ _ Hsim He).
  destruct Hsim as (bs & Hinv & Hnow & Hp). rewrite <- Hnow.
  destruct (q_curTick q <=? w) eqn:Hle; cycle 1.
  { unfold schedule. rewrite !bind_gets, (bind_load _ _ _ _ He). by rewrite Hle. }
  destruct (scheduled ev) eqn:Hs.
  - unfold schedule. rewrite !bind_gets, (bind_load _ _ _ _ He), bind_assert by done.
    by rewrite Hs.
  - destruct (schedule_spec q bs e ev w) as (q' & Hr & Hinv' & Ho & ev' & He' & Hw);
      [done..|by apply Z.leb_le|].
    exists q'. split; [done|]. rewrite Hnow.
    by apply (sim_enqueued q s q' bs bs e ev' (w, ev_priority ev)).
Qed.

Lemma deschedule_sim : refines (deschedule e) (s_deschedule e) q s.
Proof using Hsim He Hi.
  unfold refines, s_deschedule. rewrite (sim_scheduled _ _ _ _ Hsim He).
  destruct Hsim as (bs & Hinv & Hnow & Hp). rewrite <- Hnow.
  destruct (scheduled ev) eqn:Hs.
  - destruct (deschedule_spec q bs e ev) as (q' & Hr & Hinv' & Ht & Hn & Ho); [done..|].
    exists q'. split; [done|]. rewrite <- Ht. eapply sim_dequeued; [done..| |done].
    intros p. apply (bremove_elem q); [done..|]. by apply (qi_flag _ _ Hinv _ _ He).
  - unfold deschedule. rewrite (bind_load _ _ _ _ He). by rewrite Hs.
Qed.

Lemma reschedule_sim w a : refines (reschedule e w a) (s_reschedule e w a) q s.
Proof using Hsim He Hi.
  unfold refines, s_reschedule. rewrite (sim_scheduled _ _ _ _ Hsim He).
  destruct Hsim as (bs & Hinv & Hnow & Hp). rewrite <- Hnow.
  destruct (q_curTick q <=? w) eqn:Hle; cycle 1.
  { unfold reschedule. rewrite !bind_gets, (bind_load _ _ _ _ He). by rewrite Hle. }
  destruct (a || scheduled ev) eqn:Ha; cycle 1.
  { unfold reschedule. rewrite !bind_gets, (bind_load _ _ _ _ He), bind_assert by done.
    by rewrite Ha. }
  destruct (reschedule_spec q bs e ev w a) as (q' & Hr & Hinv' & Ho & ev' & He' & Hw);
    [done..|by apply Z.leb_le|].
  exists q'. split; [done|]. rewrite Hnow.
  eapply (sim_enqueued q s q' bs _ e ev'); [done|done|done|exact Hinv'| |done|done|done].
  intros p Hne. destruct (scheduled ev) eqn:Hs; [|done].
  rewrite (bremove_elem q bs e ev); [naive_solver|done..|].
  by apply (qi_flag _ _ Hinv _ _ He).
Qed.
End Refinement.

(** C5: the heap event queue refines the abstract scheduler: on related states
    each of [schedule], [deschedule] and [reschedule] of an initialised event
    fails with exactly the assertion the abstract operation fails with, and
    otherwise succeeds in a related state. *)
Theorem eventq_refines_sched q s o ev :
  sim q s -> q_heap q !! sop_event o = Some ev -> initialized ev = true ->
  match run_sched o s with
  | Ok (_, s') => exists q', run_heap o q = Ok (tt, q') /\ sim q' s'
  | Err er => run_heap o q = Err er
  end.
Proof.
  intros Hsim He Hi.
  destruct o; [eapply schedule_sim|eapply deschedule_sim|eapply reschedule_sim]; done.
Qed.

(** ** Service *)

Lemma bpop_some q bs e : Rep q bs -> q_head q = Some e ->
  exists k l bs', bs = (k, e :: l) :: bs' /\ bpop bs = Some (k, e, trim k l bs').
Proof.
  intros [Hat _ _] Hh. destruct bs as [|[k es] bs]; [by rewrite Hh in Hat|].
  destruct Hat as (x & l & xv & -> & Hx & _). assert (x = e) as -> by congruence. eauto.
Qed.

Lemma trim_rep_sorted k l bs : keys_sorted ((k, l) :: bs) -> keys_sorted (trim k l bs).
Proof. destruct l; simpl; [|done]. by intros [? _]%StronglySorted_inv. Qed.

Lemma pop_head_spec q bs e :
  QInv q bs -> q_head q = Some e ->
  exists q1 k l bs' ev, bs = (k, e :: l) :: bs' /\ q_heap q !! e = Some ev /\ ev_key ev = k
    /\ pop_head q = Ok (e, q1) /\ QInv q1 (trim k l bs') /\ others_same e q q1
    /\ exists ev1, q_heap q1 !! e = Some ev1 /\ scheduled ev1 = false
         /\ ev_when ev1 = ev_when ev /\ squashed ev1 = squashed ev
         /\ ev_flags ev1 = fl_clear (ev_flags ev) Scheduled.
Proof.
  intros Hinv Hh. destruct (bpop_some q bs e) as (k & l & bs' & -> & _); [apply Hinv|done|].
  pose proof (qi_rep _ _ Hinv) as [Hat Hs Hnd].
  pose proof Hat as (x & l' & ev & [= <- <-] & _ & He & Hk & Hb & Ht).
  rewrite events_of_cons in Hnd. simpl in Hnd. apply NoDup_cons in Hnd as [Hn1 Hnd].
  set (ev1 := set_flags (fl_clear (ev_flags ev) Scheduled) ev).
  assert (scheduled ev1 = false) as Hs1 by apply clear_Scheduled_scheduled.
  assert (squashed ev1 = squashed ev) as Hsq.
  { rewrite !squashed_bit. cbn [ev_flags set_flags ev1]. unfold fl_clear.
    rewrite Z.ldiff_spec. apply andb_true_r. }
  assert (exists q1, pop_head q = Ok (e, q1) /\ q_heap q1 !! e = Some ev1
    /\ bins_at (q_heap q1) (q_head q1) (trim k l bs') /\ others_same e q q1)
    as (q1 & Hrun & He1 & Hat1 & Ho).
  { unfold pop_head. rewrite bind_gets, Hh, (bind_load _ _ _ _ He), (bind_store _ _ _ _ _ He).
    fold ev1. destruct l as [|n l].
    - simpl in Hb. rewrite Hb. rewrite bind_modify. eexists. split; [done|]. simpl.
      split_and!; [apply lookup_insert_eq| |].
      + eapply bins_at_frame; [|done]. intros y Hy. apply lookup_insert_ne. by intros <-.
      + split_and!; [done|done|]. intros p Hp. simpl. by rewrite lookup_insert_ne.
    - destruct Hb as (-> & nv & Hn & Hkn & Hb).
      assert (e <> n) as Hne by (intros ->; apply Hn1; rewrite elem_of_app; left; left).
      unfold mbind, M_bind. erewrite store_eq by (simpl; by rewrite lookup_insert_ne).
      simpl. eexists. split; [done|]. simpl. split_and!.
      + rewrite lookup_insert_ne by done. apply lookup_insert_eq.
      + apply NoDup_app in Hnd as ([Hn2 Hnd]%NoDup_cons & Hdisj & _).
        exists n, l, (set_nextBin (nextBin ev) nv). rewrite lookup_insert_eq. simpl.
        split_and!; [done|done|done|done| |].
        * eapply in_bin_frame; [|done]. intros y Hy. rewrite !lookup_insert_ne; [done|..].
          -- intros <-. apply Hn1. rewrite elem_of_app. left. by right.
          -- by intros <-.
        * eapply bins_at_frame; [|done]. intros y Hy. rewrite !lookup_insert_ne; [done|..].
          -- intros <-. apply Hn1. rewrite elem_of_app. by right.
          -- intros <-. apply (Hdisj n); [left|done].
      + split_and!; [done|done|]. intros p Hp. simpl. destruct (decide (p = n)) as [->|].
        * rewrite lookup_insert_eq, Hn. done.
        * by rewrite !lookup_insert_ne. }
  exists q1, k, l, bs', ev. split_and!; [done..| |done|by exists ev1].
  destruct Ho as (Ho1 & Ho2 & Ho3). apply (qinv_update q ((k, e :: l) :: bs') _ _ e ev1); try done.
  - split; [done|by apply (trim_rep_sorted k l)|by rewrite events_of_trim].
  - intros p Hne. rewrite events_of_trim, events_of_cons. set_solver.
  - rewrite Hs1, events_of_trim. naive_solver.
  - rewrite events_of_trim. done.
Qed.

Lemma head_minimal h p k es bs e ev :
  bins_at h p ((k, es) :: bs) -> keys_sorted ((k, es) :: bs) ->
  e ∈ events_of ((k, es) :: bs) -> h !! e = Some ev -> k.1 <= ev_when ev.
Proof.
  intros Hat Hs Hin He. destruct (events_of_bin _ _ _ _ _ Hat Hin He) as (es' & Hb & _).
  apply elem_of_cons in Hb as [[= <- _]|Hb]; [done|].
  apply StronglySorted_inv in Hs as [_ Hall]. rewrite Forall_forall in Hall.
  assert (klt k (ev_key ev)) as Hlt.
  { apply Hall, list_elem_of_In, in_map_iff. exists (ev_key ev, es').
    by rewrite <- list_elem_of_In. }
  unfold klt, kltb, ev_key in Hlt; simpl in Hlt. lia.
Qed.

(** C6: [serviceOne] serves an event no other event precedes: it moves the
    clock to the event's tick, runs its [process] in the state in which the
    event, and only it, has left the queue, and then finishes.  A squashed
    event is dropped without running and without moving the clock. *)
Theorem serviceOne_refines process q s e ev :
  sim q s -> q_head q = Some e -> q_heap q !! e = Some ev ->
  s_due e (ev_when ev) s /\
  if squashed ev
  then exists q', serviceOne process q = Ok (None, q')
         /\ sim q' (mkSched (s_now s) (delete e (s_pending s)))
  else exists q1, serviceOne process q = (process e;; finish_service e) q1
         /\ sim q1 (s_service e (ev_when ev) s).
Proof.
  intros (bs & Hinv & Hnow & Hp) Hh He.
  destruct (pop_head_spec q bs e) as (q1 & k & l & bs' & ev' & -> & He' & Hk & Hrun & Hinv1 & Ho & ev1 & He1 & Hs1 & Hw1 & Hsq & Hf1);
    [done..|]. assert (ev' = ev) as -> by congruence.
  pose proof (qi_rep _ _ Hinv) as [Hat Hs Hnd].
  assert (forall p, p ∈ events_of (trim k l bs') <-> p <> e /\ p ∈ events_of ((k, e :: l) :: bs'))
    as Hmem.
  { intros p. rewrite events_of_trim, events_of_cons. rewrite events_of_cons in Hnd.
    simpl in Hnd. apply NoDup_cons in Hnd as [Hnot _]. set_solver. }
  destruct Ho as (Ht & Hn & Ho).
  assert (s_due e (ev_when ev) s) as Hdue.
  { split.
    - apply Hp. split; [|eauto]. rewrite events_of_cons. simpl. left.
    - intros p t (Hin & pv & Hpv & <-)%Hp. change (ev_when ev) with (ev_key ev).1. rewrite Hk.
      by eapply head_minimal. }
  split; [done|]. unfold serviceOne. rewrite (bind_run _ _ _ _ _ Hrun), (bind_load _ _ _ _ He1).
  rewrite Hsq. destruct (squashed ev); cbn [negb].
  - rewrite (bind_store _ _ _ _ _ He1). set (q2 := set_heap _ q1). set (ev2 := set_flags _ ev1) in *.
    assert (scheduled ev2 = false) as Hs2.
    { unfold ev2. by rewrite clear_Squashed_scheduled. }
    assert (QInv q2 (trim k l bs')) as Hinv2.
    { apply (qinv_update q1 (trim k l bs') q2 _ e ev2); try done.
      - eapply rep_store; try done; apply Hinv1.
      - intros p Hne. simpl. by rewrite lookup_insert_ne.
      - apply lookup_insert_eq.
      - rewrite Hs2, Hmem. naive_solver.
      - rewrite Hmem. naive_solver. }
    destruct (release_spec q2 _ e ev2 Hinv2) as (q' & Hrel & Hinv' & Ht' & _ & Hoth);
      [apply lookup_insert_eq|done|].
    rewrite (bind_run _ _ _ _ _ Hrel). exists q'. split; [done|].
    replace (s_now s) with (q_curTick q') by (rewrite Ht'; simpl; congruence).
    eapply sim_dequeued; [done..|]. intros p Hne. rewrite Hoth by done. simpl.
    rewrite lookup_insert_ne by done. by apply Ho.
  - rewrite bind_modify. exists (set_curTick (ev_when ev) q1). rewrite Hw1. split; [done|].
    eapply (sim_dequeued q s (set_curTick (ev_when ev) q1)); [done| |done|done].
    destruct Hinv1 as [[Hat1 Hs' Hnd'] Hfl Hq Hfut]. split; [by split|done|done|].
    simpl. intros p pv Hin Hpv. change (ev_when ev) with (ev_key ev).1. rewrite Hk.
    apply Hmem in Hin as [Hne Hin]. specialize (Ho p Hne). rewrite Hpv in Ho. simpl in Ho.
    destruct (q_heap q !! p) as [pv0|] eqn:Hp0; [|done]. apply (inj Some) in Ho.
    apply data_eq in Ho as (-> & _). by eapply head_minimal.
Qed.

(** ** The self-check [debugVerify] *)

Lemma verify_bin_spec q k fuel p es time prio (seen : gset ptr) :
  in_bin (q_heap q) k p es -> NoDup es -> (forall e, e ∈ es -> e ∉ seen) ->
  kltb k (time, prio) = false -> (length es < fuel)%nat ->
  exists r, verify_bin fuel p time prio seen q = Ok (Some r, q)
    /\ r.2 = list_to_set es ∪ seen /\ r.1 = (if decide (es = []) then (time, prio) else k).
Proof.
  revert p es time prio seen.
  induction fuel as [|fuel IH]; intros p es time prio seen Hb Hnd Hseen Hk Hf; [lia|].
  destruct es as [|e es]; simpl in Hb.
  - subst p. exists (time, prio, seen). split; [done|]. split; [set_solver|done].
  - destruct Hb as (-> & ev & He & Hek & Hb). cbn [verify_bin].
    rewrite (bind_load _ _ _ _ He). subst k. unfold kltb, ev_key in Hk; simpl in Hk.
    apply orb_false_iff in Hk as [Hk1 Hk2]. rewrite Hk1, Hk2.
    rewrite bool_decide_eq_false_2 by (apply Hseen; left).
    apply NoDup_cons in Hnd as [Hne Hnd].
    destruct (IH (nextInBin ev) es (ev_when ev) (ev_priority ev) ({[e]} ∪ seen))
      as (r & Hr & Hr2 & Hr1); [done|done| | |simpl in Hf; lia|].
    + intros x Hx. specialize (Hseen x). set_solver.
    + apply not_true_is_false, klt_irrefl.
    + exists r. split_and!; [done|rewrite Hr2; set_solver|].
      rewrite Hr1. case_decide; [subst; done|done].
Qed.

Lemma verify_bins_spec q bs fuel p time prio (seen : gset ptr) :
  bins_at (q_heap q) p bs -> keys_sorted bs -> NoDup (events_of bs) ->
  (forall e, e ∈ events_of bs -> e ∉ seen) ->
  (forall k es, head bs = Some (k, es) -> kltb k (time, prio) = false) ->
  (length bs < fuel)%nat ->
  verify_bins fuel p time prio seen q = Ok (true, q).
Proof.
  revert fuel p time prio seen.
  induction bs as [|[k es] bs IH]; intros [|fuel] p time prio seen Hat Hs Hnd Hseen Hk Hf;
    simpl in Hf; try lia; [by simpl in Hat; subst p|].
  pose proof Hat as (e & l & ev & -> & -> & He & _ & _ & Ht).
  rewrite events_of_cons in Hnd, Hseen. apply NoDup_app in Hnd as (Hnd1 & Hdisj & Hnd2).
  cbn [verify_bins]. rewrite bind_gets.
  assert (length (e :: l) < loop_fuel q)%nat as Hfuel.
  { assert (length (e :: l) <= size (q_heap q))%nat; [|unfold loop_fuel; lia].
    apply nodup_heap_size; [done|]. intros x Hx. eapply (bins_at_dom _ _ _ _ Hat).
    rewrite events_of_cons, elem_of_app. by left. }
  pose proof Hat as (? & ? & ? & [= <- <-] & ? & Hbin & _)%bins_at_cons.
  destruct (verify_bin_spec q k (loop_fuel q) (Some e) (e :: l) time prio seen)
    as ([[t pr] sn] & Hr & Hr2 & Hr1); [done|done| |by eapply Hk|done|].
  { intros x Hx. apply Hseen. rewrite elem_of_app. by left. }
  rewrite (bind_run _ _ _ _ _ Hr), (bind_load _ _ _ _ He). simpl in Hr1, Hr2. subst sn.
  apply StronglySorted_inv in Hs as [Hs Hall].
  apply IH; [done|done|done| | |lia].
  - intros x Hx. specialize (Hseen x). rewrite elem_of_app in Hseen. specialize (Hdisj x). set_solver.
  - intros k' es' Hh. rewrite Hr1. apply klt_asym. destruct bs as [|b bs]; [done|].
    simpl in Hh. simplify_eq. by apply Forall_cons in Hall as [? _].
Qed.

(** Where the verification starts: tick 0 and priority 0. *)
Definition after_origin (b : key * list ptr) : Prop := kltb b.1 (0, 0) = false.

(** [debugVerify] accepts every consistent queue, as long as no event at
    tick 0 has a negative priority. *)
Theorem debugVerify_sound q bs :
  Rep q bs -> Forall after_origin bs ->
  debugVerify q = Ok (true, q).
Proof.
  intros HR Hall. pose proof (rep_fuel _ _ HR) as [Hf _]. destruct HR as [Hat Hs Hnd].
  unfold debugVerify. rewrite !bind_gets. eapply verify_bins_spec; [done..| | |done].
  - intros e _. set_solver.
  - intros k es Hh. destruct bs as [|b bs]; [done|]. simpl in Hh. simplify_eq.
    by apply Forall_cons in Hall as [? _].
Qed.

(** ** Concrete queues *)

(** A fresh queue over idle events is related to the empty scheduler. *)
Lemma sim_init name (h : gmap ptr Event) :
  (forall p ev, h !! p = Some ev -> scheduled ev = false) ->
  sim (new_EventQueue name h) (mkSched 0 ∅).
Proof.
  intros Hidle. exists []. split; [|split; [done|]].
  - split; simpl.
    + split; [done|constructor|constructor].
    + intros p ev Hp. rewrite (Hidle _ _ Hp). split; [done|]. set_solver.
    + set_solver.
    + set_solver.
  - intros p t. simpl. rewrite lookup_empty. split; [done|]. intros [Hin _]. set_solver.
Qed.

Definition idle_event (prio : Z) : Event := mkEvent None None 0 prio Initialized None.
Definition demo_heap : gmap ptr Event :=
  {[ 1%nat := idle_event 0; 2%nat := idle_event 0; 3%nat := idle_event (-1) ]}.
Definition demo_queue : EventQueue := new_EventQueue 0 demo_heap.

Lemma demo_idle p ev : demo_heap !! p = Some ev -> scheduled ev = false.
Proof.
  unfold demo_heap. rewrite !lookup_insert_Some, lookup_singleton_Some.
  naive_solver.
Qed.

(** Events 1 and 2 scheduled for tick 5, then event 3 (priority -1) for the
    same tick: 3 is served first, then 2, then 1. *)
Definition demo_run : res (list (option ptr)) :=
  match (schedule false 1 5;; schedule false 2 5;; schedule false 3 5) demo_queue with
  | Ok (_, q) =>
      match (h1 ← gets q_head; serviceOne (fun _ => mret tt);;
             h2 ← gets q_head; serviceOne (fun _ => mret tt);;
             h3 ← gets q_head; mret [h1; h2; h3]) q with
      | Ok (l, _) => Ok l
      | Err e => Err e
      end
  | Err e => Err e
  end.
Example demo_lifo : demo_run = Ok [Some 3%nat; Some 2%nat; Some 1%nat].
Proof. vm_compute. reflexivity. Qed.

Lemma eventq_refines_sched_witness :
  sim demo_queue (mkSched 0 ∅) /\
  exists q', run_heap (OSchedule 1 5) demo_queue = Ok (tt, q')
    /\ sim q' (mkSched 0 (<[1%nat := 5]> ∅)).
Proof.
  split; [exact (sim_init 0 demo_heap demo_idle)|].
  exact (eventq_refines_sched demo_queue (mkSched 0 ∅) (OSchedule 1 5) (idle_event 0)
    (sim_init 0 demo_heap demo_idle) eq_refl eq_refl).
Defined.

(** The state after scheduling event 1 for tick 5. *)
Definition demo_queue1 : EventQueue :=
  mkQueue 0 (Some 1%nat) 0 []
    (<[1%nat := mkEvent None None 5 0 (Z.lor Initialized Scheduled) (Some 0%nat)]> demo_heap).

Lemma demo_sim1 : sim demo_queue1 (mkSched 0 (<[1%nat := 5]> ∅)).
Proof.
  destruct (schedule_sim demo_queue (mkSched 0 ∅) 1 (idle_event 0)
    (sim_init 0 demo_heap demo_idle) eq_refl eq_refl 5) as (q' & Hrun & Hsim).
  replace demo_queue1 with q'; [done|]. vm_compute in Hrun. injection Hrun as <-.
  vm_compute. reflexivity.
Qed.

Lemma serviceOne_refines_witness :
  s_due 1%nat 5 (mkSched 0 (<[1%nat := 5]> (∅ : gmap ptr Z))) /\
  exists q1, serviceOne (fun _ => mret tt) demo_queue1
      = ((fun _ => mret tt) 1%nat;; finish_service 1) q1
    /\ sim q1 (s_service 1%nat 5 (mkSched 0 (<[1%nat := 5]> ∅))).
Proof.
  exact (serviceOne_refines (fun _ => mret tt) demo_queue1 _ 1%nat _ demo_sim1 eq_refl eq_refl).
Defined.

Lemma debugVerify_sound_witness :
  debugVerify demo_queue1 = Ok (true, demo_queue1).
Proof.
  apply (debugVerify_sound demo_queue1 [((5, 0), [1%nat])]).
  - split.
    + exists 1%nat, [], (mkEvent None None 5 0 (Z.lor Initialized Scheduled) (Some 0%nat)).
      by vm_compute.
    + repeat constructor.
    + unfold events_of; simpl. apply NoDup_singleton.
  - by repeat constructor.
Defined.

(** The side condition is needed: [debugVerify] starts from time 0 and
    priority 0, so it reports "priority inverted!" for the well-formed queue
    whose only event has priority -1 at tick 0. *)
Theorem debugVerify_false_alarm :
  exists q', schedule false 3 0 demo_queue = Ok (tt, q')
    /\ sim q' (mkSched 0 (<[3%nat := 0]> ∅))
    /\ debugVerify q' = Ok (false, q').
Proof.
  destruct (schedule_sim demo_queue (mkSched 0 ∅) 3 (idle_event (-1))
    (sim_init 0 demo_heap demo_idle) eq_refl eq_refl 0) as (q' & Hrun & Hsim).
  exists q'. split_and!; [done|done|]. vm_compute in Hrun. injection Hrun as <-.
  vm_compute. reflexivity.
Qed.
