(* ===== verification/EventState.v ===== *)
(** * Event flags, checkpoints and the end of a queue (sim/eventq.{hh,cc})

    The accessors of an event's flags, what a checkpoint stores of an event and
    restores, and the destructor of the queue. *)

From S2P Require Import Prelude EventQ EventQRep EventQOps EventSched EventQProps.

(** ** Flags *)

Definition getFlags (e : Event) : Z := Z.land (ev_flags e) PublicRead.
Definition isFlagSet (f : Z) (e : Event) : res bool :=
  if Z.land f (Z.ldiff 0xffff PublicRead) =? 0 then Ok (fl_isSet (ev_flags e) f)
  else Err (EAssert "_flags.noneSet(~PublicRead)").
Definition setFlags (f : Z) (e : Event) : res Event :=
  if Z.land f (Z.ldiff 0xffff PublicWrite) =? 0 then Ok (set_flags (fl_set (ev_flags e) f) e)
  else Err (EAssert "_flags.noneSet(~PublicWrite)").
Definition clearFlags (f : Z) (e : Event) : res Event :=
  if Z.land f (Z.ldiff 0xffff PublicWrite) =? 0 then Ok (set_flags (fl_clear (ev_flags e) f) e)
  else Err (EAssert "_flags.noneSet(~PublicWrite)").
Definition clearAllFlags (e : Event) : Event := set_flags (fl_clear (ev_flags e) PublicWrite) e.
Definition squash (e : Event) : Event := set_flags (fl_set (ev_flags e) Squashed) e.

(** ** Checkpoints *)

(** [Event::serialize]: the flags are stored as a [short]. *)
Definition serialize (e : Event) : Z * Z * Z := (ev_when e, ev_priority e, sgn 16 (ev_flags e)).

(** [Event::unserialize] *)
Definition unserialize (cp : Z * Z * Z) (e : Event) : res Event :=
  let '(when, priority, cp_flags) := cp in
  if scheduled e then Err (EAssert "!scheduled()")
  else if negb (initialized e) then Err (EAssert "initialized()")
  else
    let flags := fl_set (u16 cp_flags) Initialized in
    let flags := if fl_isSet flags Scheduled && negb (fl_isSet flags Squashed)
                 then fl_clear flags (Z.lor Squashed Scheduled) else flags in
    Ok (mkEvent (nextBin e) (nextInBin e) when priority flags (ev_queue e)).

(** [EventQueue::checkpointReschedule] *)
Definition checkpointReschedule (event : ptr) : Q unit :=
  ev ← load event; when_ (scheduled ev) (insert event).

(** ** The destructor of the queue: [while (!empty()) deschedule(getHead())] *)

Fixpoint destroy_loop (fuel : nat) : Q unit :=
  h ← gets q_head;
  match h with
  | None => mret tt
  | Some e =>
      match fuel with
      | O => throw EFuel
      | S fuel' => deschedule e;; destroy_loop fuel'
      end
  end.
Definition destroy_EventQueue : Q unit := q ← get; destroy_loop (loop_fuel q).

Lemma same_initialized e q q' p ev ev' :
  others_same e q q' -> p <> e -> q_heap q !! p = Some ev -> q_heap q' !! p = Some ev' ->
  initialized ev' = initialized ev.
Proof.
  intros (_ & _ & Ho) Hp Hev Hev'. specialize (Ho p Hp). rewrite Hev, Hev' in Ho. simpl in Ho.
  injection Ho as _ _ Hf _. unfold initialized. by rewrite Hf.
Qed.

Lemma destroy_loop_spec n q bs :
  QInv q bs -> (forall p ev, p ∈ events_of bs -> q_heap q !! p = Some ev -> initialized ev = true) ->
  (length (events_of bs) <= n)%nat ->
  exists q', destroy_loop n q = Ok (tt, q') /\ QInv q' [].
Proof.
  revert q bs. induction n as [|n IH]; intros q bs Hinv Hini Hlen.
  all: pose proof (qi_rep _ _ Hinv) as HR; simpl; rewrite bind_gets; destruct (q_head q) as [e|] eqn:Hh.
  all: try (destruct bs as [|[k es] bs]; [by exists q|]; destruct (rep_at _ _ HR) as (x & l & xv & _ & ?); naive_solver).
  { destruct (bpop_some _ _ _ HR Hh) as (k & l & bs' & -> & _). rewrite events_of_cons in Hlen. simpl in Hlen. lia. }
  destruct (bpop_some _ _ _ HR Hh) as (k & l & bs' & Hbs & _).
  assert (e ∈ events_of bs) as Hin by (rewrite Hbs, events_of_cons; set_solver).
  destruct (bins_at_dom _ _ _ e (rep_at _ _ HR) Hin) as [ev Hev].
  destruct (deschedule_spec q bs e ev) as (q1 & Hrun & Hinv1 & Hsame); [done|done|by apply (qi_flag _ _ Hinv _ _ Hev)|eauto|].
  rewrite (bind_run _ _ _ _ _ Hrun). apply (IH q1 _ Hinv1).
  - intros p ev' [Hp Hpin]%(bremove_elem q bs e ev p) Hev'; [|done..].
    destruct (bins_at_dom _ _ _ p (rep_at _ _ HR) Hpin) as [pv Hpv].
    rewrite (same_initialized e q q1 p pv ev'); eauto.
  - assert (length (e :: events_of (bremove (ev_key ev) e bs)) <= length (events_of bs))%nat; [|simpl in *; lia].
    apply submseteq_length, NoDup_submseteq.
    + constructor; [|apply (rep_nodup _ _ (qi_rep _ _ Hinv1))]. by intros [? _]%(bremove_elem q bs e ev e).
    + intros p [->|[_ Hp]%(bremove_elem q bs e ev p)]%elem_of_cons; done.
Qed.

(** Destroying a queue terminates, whatever is still scheduled: every
    event is descheduled, and afterwards the queue is empty and no event of the
    heap believes it is scheduled. *)
Theorem eventq_destroy q bs :
  QInv q bs -> (forall p ev, p ∈ events_of bs -> q_heap q !! p = Some ev -> initialized ev = true) ->
  exists q', destroy_EventQueue q = Ok (tt, q') /\ q_head q' = None
    /\ forall p ev, q_heap q' !! p = Some ev -> scheduled ev = false.
Proof.
  intros Hinv Hini. destruct (destroy_loop_spec (loop_fuel q) q bs Hinv Hini) as (q' & Hrun & Hinv').
  { pose proof (rep_nodup _ _ (qi_rep _ _ Hinv)) as Hnd. unfold loop_fuel.
    pose proof (nodup_heap_size (q_heap q) (events_of bs)) as Hsz.
    enough (length (events_of bs) <= size (q_heap q))%nat by lia. apply Hsz; [done|].
    intros p Hp. by eapply bins_at_dom, Hp; apply (rep_at _ _ (qi_rep _ _ Hinv)). }
  exists q'. split_and!; [done|by destruct (rep_at _ _ (qi_rep _ _ Hinv'))|].
  intros p ev Hev. destruct (scheduled ev) eqn:E; [|done].
  apply (qi_flag _ _ Hinv' _ _ Hev) in E. set_solver.
Qed.

(** Restoring a checkpoint: an event that was scheduled and not squashed comes
    back unscheduled, so that [checkpointReschedule], which inserts events with
    the Scheduled flag, leaves it out of the queue. *)
Theorem checkpoint_drops_scheduled e fresh p q :
  scheduled e = true -> squashed e = false -> 0 <= ev_flags e < 2 ^ 15 ->
  scheduled fresh = false -> initialized fresh = true ->
  exists e', unserialize (serialize e) fresh = Ok e' /\ scheduled e' = false
    /\ (q_heap q !! p = Some e' -> checkpointReschedule p q = Ok (tt, q)).
Proof.
  intros Hs Hq Hf Hfs Hfi.
  assert (u16 (sgn 16 (ev_flags e)) = ev_flags e) as Hfl.
  { unfold sgn. cbv zeta. rewrite wrap_small by lia. rewrite (proj2 (Z.leb_gt _ _)) by lia.
    apply wrap_small. lia. }
  unfold unserialize, serialize. rewrite Hfs, Hfi, Hfl. cbv [negb].
  assert (forall m, fl_isSet (ev_flags e) m = true -> fl_isSet (fl_set (ev_flags e) Initialized) m = true) as Hset.
  { intros m. unfold fl_isSet, fl_set. rewrite !negb_true_iff, !Z.eqb_neq. intros Hm Hz. apply Hm.
    rewrite Z.land_lor_distr_l in Hz. by apply Z.lor_eq_0_iff in Hz as [? _]. }
  assert (fl_isSet (fl_set (ev_flags e) Initialized) Squashed = false) as Hsq.
  { change Squashed with (2 ^ 0). unfold squashed in Hq. change Squashed with (2 ^ 0) in Hq.
    rewrite isSet_testbit in Hq |- * by lia. unfold fl_set. by rewrite Z.lor_spec, Hq. }
  rewrite (Hset Scheduled Hs), Hsq. cbn [andb negb]. cbv iota. eexists. split; [done|].
  match goal with |- scheduled ?x = false /\ _ => assert (scheduled x = false) as Hr end.
  { rewrite scheduled_bit. cbn [ev_flags]. unfold fl_clear. rewrite Z.ldiff_spec. by rewrite andb_false_r. }
  split; [done|]. intros Hp. unfold checkpointReschedule, load, mbind, M_bind. by rewrite Hp, Hr.
Qed.

Lemma eventq_destroy_witness :
  exists q', destroy_EventQueue demo_queue1 = Ok (tt, q') /\ q_head q' = None
    /\ forall p ev, q_heap q' !! p = Some ev -> scheduled ev = false.
Proof.
  destruct demo_sim1 as (bs & Hinv & _). apply (eventq_destroy demo_queue1 bs Hinv).
  intros p ev _. revert p ev.
  change (map_Forall (fun _ ev => initialized ev = true) (q_heap demo_queue1)).
  apply (bool_decide_eq_true_1 _). vm_compute. reflexivity.
Defined.
