(* ===== verification/Drain.v ===== *)
(** * Draining (sim/drain.hh, sim/drain.cc)

    Before a checkpoint every object of the simulator is asked to drain; the
    manager counts the objects that are not done yet and each of them reports
    when it is.  Objects are named by numbers.  What an object answers to
    [drain()] and whether its [drainResume()] constructs a new object are
    arguments of the operations. *)

From S2P Require Import Prelude.

Inductive DrainState := Running | Draining | Drained | Resuming.

#[global] Instance DrainState_eq_dec : EqDecision DrainState.
Proof. solve_decision. Defined.

Record DrainManager := mkDM {
  dm_all : list nat;                 (* _allDrainable *)
  dm_states : gmap nat DrainState;   (* _drainState of every object *)
  dm_count : Z;                      (* atomic_uint _count *)
  dm_state : DrainState;
  dm_exits : nat                     (* calls of exitSimLoop("Finished drain") *)
}.
Abbreviation D := (M DrainManager).

Definition set_dm_all (l : list nat) (d : DrainManager) : DrainManager :=
  mkDM l (dm_states d) (dm_count d) (dm_state d) (dm_exits d).
Definition set_dm_states (m : gmap nat DrainState) (d : DrainManager) : DrainManager :=
  mkDM (dm_all d) m (dm_count d) (dm_state d) (dm_exits d).
Definition set_dm_count (n : Z) (d : DrainManager) : DrainManager :=
  mkDM (dm_all d) (dm_states d) n (dm_state d) (dm_exits d).
Definition set_dm_state (s : DrainState) (d : DrainManager) : DrainManager :=
  mkDM (dm_all d) (dm_states d) (dm_count d) s (dm_exits d).

Definition new_DrainManager : DrainManager := mkDM [] ∅ 0 Running 0.

Definition drainState (o : nat) : D DrainState := fun d =>
  match dm_states d !! o with
  | Some s => Ok (s, d)
  | None => Err (EUndefined "no such object")
  end.
Definition setDrainState (o : nat) (s : DrainState) : D unit :=
  modify (fun d => set_dm_states (<[o := s]> (dm_states d)) d).

(** ** Registration: the constructor and destructor of [Drainable] *)

Definition registerDrainable (o : nat) : D unit :=
  all ← gets dm_all;
  assert_ (negb (bool_decide (o ∈ all))) "find(obj) == _allDrainable.end()";;
  modify (set_dm_all (all ++ [o])).
Definition new_Drainable (o : nat) : D unit :=
  s ← gets dm_state; setDrainState o s;; registerDrainable o.
Definition unregisterDrainable (o : nat) : D unit :=
  all ← gets dm_all;
  assert_ (bool_decide (o ∈ all)) "o != _allDrainable.end()";;
  modify (set_dm_all (filter (fun o' => o' <> o) all)).
Definition delete_Drainable (o : nat) : D unit :=
  unregisterDrainable o;; modify (fun d => set_dm_states (delete o (dm_states d)) d).

(** ** Draining *)

(** [dmDrain]: [answer] is what the object's [drain()] returns. *)
Definition dmDrain (o : nat) (answer : DrainState) : D DrainState :=
  setDrainState o Draining;;
  setDrainState o answer;;
  assert_ (bool_decide (answer = Draining) || bool_decide (answer = Drained))
    "_drainState == Draining || _drainState == Drained";;
  mret answer.

Fixpoint drain_all (l : list nat) (answer : nat -> DrainState) : D unit :=
  match l with
  | [] => mret tt
  | o :: l' =>
      status ← dmDrain o (answer o);
      modify (fun d => set_dm_count (u32 (dm_count d + if decide (status = Drained) then 0 else 1)) d);;
      drain_all l' answer
  end.

Definition tryDrain (answer : nat -> DrainState) : D bool :=
  st ← gets dm_state;
  panic_if (bool_decide (st = Drained)) "Trying to drain a drained system";;
  n ← gets dm_count;
  panic_if (negb (n =? 0)) "Drain counter must be zero at the start of a drain cycle";;
  modify (set_dm_state Draining);;
  all ← gets dm_all;
  drain_all all answer;;
  n' ← gets dm_count;
  if n' =? 0 then modify (set_dm_state Drained);; mret true else mret false.

(** [DrainManager::signalDrainDone] *)
Definition dm_signalDrainDone : D unit :=
  n ← gets dm_count;
  assert_ (0 <? n) "_count > 0";;
  modify (fun d => mkDM (dm_all d) (dm_states d) (n - 1) (dm_state d)
    (if n - 1 =? 0 then S (dm_exits d) else dm_exits d)).

(** [Drainable::signalDrainDone] *)
Definition signalDrainDone (o : nat) : D unit :=
  s ← drainState o;
  match s with
  | Running | Drained | Resuming => mret tt
  | Draining => setDrainState o Drained;; dm_signalDrainDone
  end.

(** ** Resuming *)

(** [dmDrainResume]: a [drainResume()] that constructs an object appends to
    the vector its caller iterates over. *)
Definition dmDrainResume (o : nat) (creates : bool) : D unit :=
  s ← drainState o;
  panic_if (negb (bool_decide (s = Drained)) && negb (bool_decide (s = Resuming)))
    "Trying to resume an object that hasn't been drained";;
  setDrainState o Running;;
  if creates then throw (EUndefined "push_back into the vector under iteration") else mret tt.

Fixpoint resume_all (l : list nat) (creates : nat -> bool) : D unit :=
  match l with
  | [] => mret tt
  | o :: l' =>
      s ← drainState o;
      when_ (negb (bool_decide (s = Running)))
        (assert_ (bool_decide (s = Drained) || bool_decide (s = Resuming))
           "obj->drainState() == Drained || obj->drainState() == Resuming";;
         dmDrainResume o (creates o));;
      resume_all l' creates
  end.

Definition allInState (st : DrainState) (d : DrainManager) : bool :=
  forallb (fun o => bool_decide (dm_states d !! o = Some st)) (dm_all d).

(** The [do ... while (!allInState(Running))] loop. *)
Fixpoint resume_loop (fuel : nat) (creates : nat -> bool) : D unit :=
  match fuel with
  | O => throw EFuel
  | S f =>
      all ← gets dm_all;
      resume_all all creates;;
      fin ← gets (allInState Running);
      if fin : bool then mret tt else resume_loop f creates
  end.

Definition resume (fuel : nat) (creates : nat -> bool) : D unit :=
  st ← gets dm_state;
  panic_if (bool_decide (st = Running)) "Trying to resume a system that is already running";;
  panic_if (bool_decide (st = Resuming)) "Resuming a system that is already trying to resume";;
  n ← gets dm_count;
  panic_if (negb (n =? 0)) "Resume called in the middle of a drain cycle";;
  modify (set_dm_state Resuming);;
  resume_loop fuel creates;;
  modify (set_dm_state Running).

(** [preCheckpointRestore] *)
Definition preCheckpointRestore : D unit :=
  st ← gets dm_state;
  panic_if (negb (bool_decide (st = Running)))
    "preCheckpointRestore() called on a system that isn't in the Running state";;
  modify (set_dm_state Drained);;
  modify (fun d => set_dm_states (foldr (fun o m => <[o := Drained]> m) (dm_states d) (dm_all d)) d).

(** ** Invariant *)

(** The objects still draining. *)
Definition pending (d : DrainManager) : list nat :=
  filter (fun o => dm_states d !! o = Some Draining) (dm_all d).

(** While the system runs or is drained every object is in that state; while it
    drains the counter is the number of objects that have not reported. *)
Record dm_inv (d : DrainManager) : Prop := {
  di_nodup : NoDup (dm_all d);
  di_known : forall o, o ∈ dm_all d <-> is_Some (dm_states d !! o);
  di_count : dm_count d = Z.of_nat (length (pending d));
  di_small : Z.of_nat (length (dm_all d)) < 2 ^ 32;
  di_state : match dm_state d with
             | Draining => forall o, o ∈ dm_all d ->
                 dm_states d !! o = Some Draining \/ dm_states d !! o = Some Drained
             | Resuming => False
             | s => forall o, o ∈ dm_all d -> dm_states d !! o = Some s
             end
}.

Inductive dm_op :=
  | OCreate (o : nat) | ODelete (o : nat) | OTryDrain (answer : nat -> DrainState)
  | OSignal (o : nat) | OResume (creates : nat -> bool) | OPreRestore.

(** One operation; the result is the answer of [tryDrain]. *)
Definition dm_run (op : dm_op) : D (option bool) :=
  match op with
  | OCreate o => new_Drainable o;; mret None
  | ODelete o => delete_Drainable o;; mret None
  | OTryDrain answer => b ← tryDrain answer; mret (Some b)
  | OSignal o => signalDrainDone o;; mret None
  | OResume creates => resume 1 creates;; mret None
  | OPreRestore => preCheckpointRestore;; mret None
  end.

(** When the operation is used as documented, except that nothing is
    constructed or destroyed while the system drains (see
    [created_while_draining_miscounts]). *)
Definition dm_allowed (op : dm_op) (d : DrainManager) : Prop :=
  match op with
  | OCreate o => o ∉ dm_all d /\ dm_state d <> Draining /\ Z.of_nat (length (dm_all d)) < 2 ^ 32 - 1
  | ODelete o => o ∈ dm_all d /\ dm_state d <> Draining
  | OTryDrain answer => dm_state d <> Drained /\ dm_count d = 0
      /\ forall o, answer o = Draining \/ answer o = Drained
  | OSignal o => o ∈ dm_all d
  | OResume _ => dm_state d <> Running /\ dm_count d = 0
  | OPreRestore => dm_state d = Running
  end.

Lemma drainState_run o s d : dm_states d !! o = Some s -> drainState o d = Ok (s, d).
Proof. intros H. unfold drainState. by rewrite H. Qed.

Lemma dmDrain_run o a d :
  a = Draining \/ a = Drained ->
  dmDrain o a d = Ok (a, set_dm_states (<[o := a]> (dm_states d)) d).
Proof.
  intros Ha. unfold dmDrain, setDrainState. rewrite !bind_modify.
  rewrite bind_assert by (destruct Ha as [-> | ->]; done). unfold mret, M_ret. do 2 f_equal.
  unfold set_dm_states; simpl. by rewrite insert_insert_eq.
Qed.

(** One pass of [tryDrain] over the objects. *)
Lemma drain_all_run answer l d :
  (forall o, answer o = Draining \/ answer o = Drained) ->
  0 <= dm_count d -> dm_count d + Z.of_nat (length l) < 2 ^ 32 ->
  exists m, drain_all l answer d
      = Ok (tt, set_dm_states m (set_dm_count
          (dm_count d + Z.of_nat (length (filter (fun o => answer o = Draining) l))) d))
    /\ forall o, m !! o = if decide (o ∈ l) then Some (answer o) else dm_states d !! o.
Proof.
  intros Ha. revert d. induction l as [|o l IH]; intros d H0 Hb; simpl in *.
  { exists (dm_states d). split; [|done]. rewrite Z.add_0_r. by destruct d. }
  erewrite bind_run by (apply dmDrain_run, Ha). rewrite bind_modify.
  set (d1 := set_dm_count _ _).
  assert (dm_count d1 = dm_count d + if decide (answer o = Draining) then 1 else 0) as Hc.
  { subst d1. simpl. unfold u32. destruct (Ha o) as [-> | ->]; simpl; apply wrap_small; lia. }
  destruct (IH d1) as (m & Hm & Hlk); [rewrite Hc; case_decide; lia|rewrite Hc; case_decide; lia|].
  exists m. rewrite Hm. split.
  - do 2 f_equal. rewrite Hc. unfold set_dm_states, set_dm_count; simpl. f_equal.
    rewrite filter_cons. case_decide; simpl; lia.
  - intros o'. rewrite Hlk. subst d1; simpl.
    destruct (decide (o' ∈ l)), (decide (o' ∈ o :: l)) as [Hin|Hin]; try done.
    + by rewrite elem_of_cons in Hin; tauto.
    + rewrite elem_of_cons in Hin. destruct Hin as [-> |]; [by rewrite lookup_insert_eq|done].
    + rewrite elem_of_cons in Hin. rewrite lookup_insert_ne by (intros ->; tauto). done.
Qed.

(** What [tryDrain] answers and leaves. *)
Lemma tryDrain_run answer d :
  dm_inv d -> dm_allowed (OTryDrain answer) d ->
  exists d', tryDrain answer d = Ok (forallb (fun o => bool_decide (answer o = Drained)) (dm_all d), d')
    /\ dm_inv d' /\ dm_all d' = dm_all d
    /\ dm_state d' = (if forallb (fun o => bool_decide (answer o = Drained)) (dm_all d) then Drained else Draining)
    /\ forall o, o ∈ dm_all d -> dm_states d' !! o = Some (answer o).
Proof.
  intros [Hnd Hkn Hc Hsm Hst] (Hs & H0 & Ha). unfold tryDrain. rewrite bind_gets.
  rewrite bind_panic_if by (by apply bool_decide_eq_false_2). rewrite bind_gets.
  rewrite bind_panic_if by (rewrite H0; done). rewrite bind_modify, bind_gets.
  destruct (drain_all_run answer (dm_all d) (set_dm_state Draining d)) as (m & Hm & Hlk);
    [done|simpl; lia|simpl; lia|].
  erewrite bind_run by exact Hm. rewrite bind_gets.
  set (n := length (filter (fun o => answer o = Draining) (dm_all d))) in *. simpl. rewrite H0, Z.add_0_l.
  assert (forall o, o ∈ dm_all d <-> is_Some (m !! o)) as Hkn'.
  { intros o. rewrite Hlk. simpl. case_decide; [by split; eauto|]. rewrite <- Hkn. done. }
  assert (forall o, o ∈ dm_all d -> m !! o = Some (answer o)) as Hin by (intros o Ho; rewrite Hlk; by case_decide).
  assert (filter (fun o => m !! o = Some Draining) (dm_all d) = filter (fun o => answer o = Draining) (dm_all d)) as Hp.
  { clear -Hin. induction (dm_all d) as [|o l IH]; [done|]. rewrite !filter_cons, (Hin o) by set_solver.
    rewrite IH by set_solver. destruct (decide (answer o = Draining)) as [E|E].
    - by rewrite E, decide_True.
    - rewrite decide_False; [done|congruence]. }
  assert ((Z.of_nat n =? 0) = forallb (fun o => bool_decide (answer o = Drained)) (dm_all d)) as Hn.
  { subst n. clear -Ha. induction (dm_all d) as [|o l IH]; [done|]. rewrite filter_cons. simpl.
    destruct (Ha o) as [E|E]; rewrite E.
    - rewrite decide_True by done. simpl. done.
    - rewrite decide_False by done. by rewrite IH. }
  rewrite Hn. destruct (forallb _ (dm_all d)) eqn:Hall; eexists; (split; [reflexivity|]); simpl.
  - apply Z.eqb_eq in Hn. rewrite Hn. split; [|auto]. split; simpl; try done.
    + unfold pending; simpl. rewrite Hp. lia.
    + intros o Ho. rewrite Hin by done. rewrite <- Is_true_true, forallb_True, Forall_forall in Hall.
      specialize (Hall o Ho). by apply bool_decide_unpack in Hall as ->.
  - split; [|auto]. split; simpl; try done.
    + unfold pending; simpl. by rewrite Hp.
    + intros o Ho. rewrite Hin by done. destruct (Ha o) as [-> | ->]; auto.
Qed.

Lemma dmDrainResume_run o b d :
  dm_states d !! o = Some Drained -> b = false ->
  dmDrainResume o b d = Ok (tt, set_dm_states (<[o := Running]> (dm_states d)) d).
Proof. intros Ho ->. unfold dmDrainResume. by erewrite bind_run by (by apply drainState_run). Qed.

(** One pass of [resume] over drained objects. *)
Lemma resume_all_run creates l d :
  NoDup l -> (forall o, o ∈ l -> dm_states d !! o = Some Drained) ->
  existsb creates l = false ->
  exists m, resume_all l creates d = Ok (tt, set_dm_states m d)
    /\ forall o, m !! o = if decide (o ∈ l) then Some Running else dm_states d !! o.
Proof.
  revert d. induction l as [|o l IH]; intros d Hnd Hd Hcr; simpl.
  { exists (dm_states d). split; [by destruct d|done]. }
  apply NoDup_cons in Hnd as [Hno Hnd]. simpl in Hcr. apply orb_false_iff in Hcr as [Hco Hcr].
  pose proof (Hd o ltac:(set_solver)) as Ho. erewrite bind_run by (by apply drainState_run). simpl.
  erewrite bind_run by (erewrite bind_run by reflexivity; by apply dmDrainResume_run).
  set (d1 := set_dm_states (<[o := Running]> (dm_states d)) d).
  destruct (IH d1) as (m & Hm & Hlk); [done| |done|].
  { intros o' Ho'. subst d1; simpl. rewrite lookup_insert_ne by (intros ->; done). apply Hd. set_solver. }
  exists m. split; [exact Hm|]. intros o'. rewrite Hlk. subst d1; simpl.
  destruct (decide (o' ∈ l)), (decide (o' ∈ o :: l)) as [Hin|Hin]; rewrite ?elem_of_cons in *; try tauto.
  - destruct Hin as [-> |]; [by rewrite lookup_insert_eq|done].
  - rewrite lookup_insert_ne; [done|]. intros ->. tauto.
Qed.

(** A pass in which some object constructs another pushes into the vector the
    loop iterates over. *)
Lemma resume_all_creates creates l d :
  NoDup l -> (forall o, o ∈ l -> dm_states d !! o = Some Drained) ->
  existsb creates l = true ->
  resume_all l creates d = Err (EUndefined "push_back into the vector under iteration").
Proof.
  revert d. induction l as [|o l IH]; intros d Hnd Hd Hcr; [done|].
  apply NoDup_cons in Hnd as [Hno Hnd]. pose proof (Hd o ltac:(set_solver)) as Ho. simpl.
  erewrite bind_run by (by apply drainState_run). simpl in *. destruct (creates o) eqn:Hco; simpl in Hcr.
  - apply bind_err. erewrite bind_run by reflexivity. unfold dmDrainResume.
    by erewrite bind_run by (by apply drainState_run).
  - erewrite bind_run by (erewrite bind_run by reflexivity; by apply dmDrainResume_run).
    apply IH; [done| |done]. intros o' Ho'. simpl. rewrite lookup_insert_ne by (intros ->; done).
    apply Hd. set_solver.
Qed.

Lemma pending_nil d :
  (forall o, o ∈ dm_all d -> dm_states d !! o <> Some Draining) -> pending d = [].
Proof.
  intros H. unfold pending. induction (dm_all d) as [|o l IH]; [done|].
  rewrite filter_cons, decide_False by (apply H; set_solver). apply IH. set_solver.
Qed.

(** Every object is drained once the counter is zero. *)
Lemma drained_when_zero d o :
  dm_inv d -> dm_state d <> Running -> dm_count d = 0 -> o ∈ dm_all d -> dm_states d !! o = Some Drained.
Proof.
  intros [_ _ Hc _ Hst] Hr H0 Ho. destruct (dm_state d) eqn:E; try done; [|by apply Hst].
  destruct (Hst o Ho) as [Hd|]; [|done].
  assert (o ∈ pending d) as Hp by (apply list_elem_of_filter; done).
  destruct (pending d); [by apply elem_of_nil in Hp|simpl in Hc; lia].
Qed.

Lemma resume_run creates d :
  dm_inv d -> dm_allowed (OResume creates) d -> existsb creates (dm_all d) = false ->
  exists d', resume 1 creates d = Ok (tt, d') /\ dm_inv d'
    /\ dm_state d' = Running /\ dm_all d' = dm_all d.
Proof.
  intros Hi [Hr H0] Hcr. pose proof (fun o => drained_when_zero d o Hi Hr H0) as Hd.
  destruct Hi as [Hnd Hkn Hc Hsm Hst]. unfold resume. rewrite bind_gets.
  rewrite bind_panic_if by (by apply bool_decide_eq_false_2). rewrite bind_panic_if.
  2:{ apply bool_decide_eq_false_2. intros E. by rewrite E in Hst. }
  rewrite bind_gets, bind_panic_if by (rewrite H0; done). rewrite bind_modify.
  destruct (resume_all_run creates (dm_all d) (set_dm_state Resuming d)) as (m & Hm & Hlk); [done|done|done|].
  assert (forall o, o ∈ dm_all d -> m !! o = Some Running) as Hrun by (intros o Ho; rewrite Hlk; by case_decide).
  set (d1 := set_dm_states m (set_dm_state Resuming d)).
  assert (allInState Running d1 = true) as Hall.
  { unfold allInState. apply forallb_forall. intros o Ho%list_elem_of_In. apply bool_decide_eq_true_2, Hrun, Ho. }
  erewrite bind_run; cycle 1.
  { simpl. rewrite bind_gets. erewrite bind_run by exact Hm. rewrite bind_gets. fold d1. rewrite Hall. reflexivity. }
  eexists. split; [reflexivity|]. split; [|done]. split; simpl; try done.
  - intros o. rewrite Hlk. case_decide; [by split; eauto|]. by rewrite <- Hkn.
  - rewrite H0, pending_nil; [done|]. simpl. intros o Ho. by rewrite (Hrun o Ho).
Qed.

Lemma pending_length_remove d o :
  NoDup (dm_all d) -> o ∈ dm_all d -> dm_states d !! o = Some Draining ->
  length (pending d) = S (length (pending (set_dm_states (<[o := Drained]> (dm_states d)) d))).
Proof.
  unfold pending; simpl. generalize (dm_states d) as m. induction (dm_all d) as [|o' l IH]; intros m Hnd Ho Hm.
  { by apply elem_of_nil in Ho. }
  apply NoDup_cons in Hnd as [Hno Hnd]. rewrite !filter_cons. destruct (decide (o' = o)) as [-> |Hne].
  - rewrite (decide_True _ _ Hm), lookup_insert_eq, decide_False by done. simpl. do 2 f_equal.
    clear -Hno. induction l as [|x l IH]; [done|]. rewrite !filter_cons.
    rewrite lookup_insert_ne by set_solver. rewrite IH by set_solver. done.
  - rewrite lookup_insert_ne by done. rewrite elem_of_cons in Ho. destruct Ho as [-> |Ho]; [done|].
    destruct (decide (m !! o' = Some Draining)); simpl; [f_equal|]; by apply IH.
Qed.

Lemma signal_run d o :
  dm_inv d -> o ∈ dm_all d ->
  exists d', signalDrainDone o d = Ok (tt, d') /\ dm_inv d' /\ dm_all d' = dm_all d /\ dm_state d' = dm_state d
    /\ (dm_states d !! o = Some Draining -> dm_count d' = dm_count d - 1
        /\ dm_exits d' = (if dm_count d' =? 0 then S (dm_exits d) else dm_exits d)).
Proof.
  intros Hi Ho. pose proof Hi as [Hnd Hkn Hc Hsm Hst]. apply Hkn in Ho as Hs. destruct Hs as [s Hs].
  unfold signalDrainDone. erewrite bind_run by (by apply drainState_run).
  destruct s; try (eexists; split; [reflexivity|]; rewrite Hs; done).
  unfold setDrainState, dm_signalDrainDone. rewrite bind_modify, bind_gets.
  pose proof (pending_length_remove d o Hnd Ho Hs) as Hlen. rewrite bind_assert by (simpl; lia).
  eexists. split; [reflexivity|]. split; [|done]. simpl. split; simpl; try done.
  - intros o'. rewrite Hkn. destruct (decide (o = o')) as [<-|]; [rewrite lookup_insert_eq; split; eauto|].
    by rewrite lookup_insert_ne.
  - rewrite Hc, Hlen. unfold pending; simpl. lia.
  - destruct (dm_state d) eqn:E; try (by apply Hst in Ho; congruence); try done.
    intros o' Ho'. destruct (decide (o = o')) as [<-|]; [rewrite lookup_insert_eq; auto|].
    rewrite lookup_insert_ne by done. by apply Hst.
Qed.

Lemma create_run d o :
  dm_inv d -> dm_allowed (OCreate o) d -> exists d', new_Drainable o d = Ok (tt, d') /\ dm_inv d'
    /\ dm_all d' = dm_all d ++ [o] /\ dm_state d' = dm_state d.
Proof.
  intros [Hnd Hkn Hc Hsm Hst] (Ho & Hs & Hb). unfold new_Drainable, setDrainState, registerDrainable.
  rewrite bind_gets, bind_modify, bind_gets. rewrite bind_assert by (by rewrite (bool_decide_eq_false_2 (o ∈ dm_all d))).
  eexists. split; [reflexivity|]. assert (forall o', o' ∈ dm_all d -> o' <> o) as Hne by (intros ? ? ->; done).
  split; [|done]. split; simpl.
  - apply NoDup_app. split; [done|]. split; [set_solver|apply NoDup_singleton].
  - intros o'. rewrite elem_of_app, list_elem_of_singleton. destruct (decide (o = o')) as [<-|Hn].
    + rewrite lookup_insert_eq. split; [eauto|by right].
    + rewrite lookup_insert_ne by done. rewrite <- Hkn. naive_solver.
  - rewrite Hc. unfold pending; simpl. rewrite filter_app, filter_cons, lookup_insert_eq, filter_nil.
    rewrite decide_False by (intros [= E]; done). rewrite app_nil_r. do 2 f_equal.
    clear -Hne. induction (dm_all d) as [|x l IH]; [done|]. rewrite !filter_cons.
    rewrite lookup_insert_ne by (apply not_eq_sym, Hne; set_solver). by rewrite IH by set_solver.
  - rewrite length_app. simpl. lia.
  - destruct (dm_state d) eqn:E; try done; intros o'; rewrite elem_of_app, list_elem_of_singleton; intros [Hin| ->];
      rewrite ?lookup_insert_eq; try done; rewrite lookup_insert_ne by (apply not_eq_sym, Hne; done); by apply Hst.
Qed.

Lemma delete_run d o :
  dm_inv d -> dm_allowed (ODelete o) d -> exists d', delete_Drainable o d = Ok (tt, d') /\ dm_inv d'
    /\ dm_all d' = filter (fun o' => o' <> o) (dm_all d) /\ dm_state d' = dm_state d.
Proof.
  intros [Hnd Hkn Hc Hsm Hst] (Ho & Hs). unfold delete_Drainable, unregisterDrainable.
  rewrite bind_assoc, bind_gets, bind_assoc, bind_assert by (by apply bool_decide_eq_true_2).
  rewrite bind_modify. eexists. split; [reflexivity|].
  assert (forall o' s, o' ∈ filter (fun o' => o' <> o) (dm_all d) ->
    (forall x, x ∈ dm_all d -> dm_states d !! x = Some s) -> delete o (dm_states d) !! o' = Some s) as Hdel.
  { intros o' s [Hn Hin]%list_elem_of_filter Hall. rewrite lookup_delete_ne by done. by apply Hall. }
  split; [|done]. split; simpl.
  - by apply NoDup_filter.
  - intros o'. rewrite list_elem_of_filter. destruct (decide (o = o')) as [<-|Hn].
    + rewrite lookup_delete_eq. split; [naive_solver|]. by intros [? ?].
    + rewrite lookup_delete_ne by done. rewrite <- Hkn. naive_solver.
  - assert (pending d = []) as Hp.
    { apply pending_nil. intros x Hx. destruct (dm_state d) eqn:E; try done; by rewrite (Hst x Hx). }
    rewrite Hc, Hp, pending_nil; [done|]. simpl. intros x Hx.
    destruct (dm_state d) eqn:E; try done; by rewrite (Hdel x _ Hx Hst).
  - assert (length (filter (fun o' => o' <> o) (dm_all d)) <= length (dm_all d))%nat by apply length_filter. lia.
  - destruct (dm_state d) eqn:E; try done; intros x Hx; by rewrite (Hdel x _ Hx Hst).
Qed.

Lemma lookup_foldr_drained (m : gmap nat DrainState) l o :
  foldr (fun o m => <[o := Drained]> m) m l !! o = if decide (o ∈ l) then Some Drained else m !! o.
Proof.
  induction l as [|x l IH]; simpl; [done|]. rewrite lookup_insert, IH.
  repeat case_decide; subst; set_solver.
Qed.

Lemma preRestore_run d :
  dm_inv d -> dm_allowed OPreRestore d -> exists d', preCheckpointRestore d = Ok (tt, d') /\ dm_inv d' /\ dm_state d' = Drained.
Proof.
  intros [Hnd Hkn Hc Hsm Hst] Hs. simpl in Hs. unfold preCheckpointRestore.
  rewrite bind_gets, bind_panic_if by (by rewrite Hs). rewrite bind_modify. eexists. split; [reflexivity|].
  assert (pending d = []) as Hp.
  { apply pending_nil. rewrite Hs in Hst. intros x Hx. by rewrite (Hst x Hx). }
  split; [|done]. split; simpl; try done.
  - intros o. rewrite lookup_foldr_drained. case_decide; [by split; eauto|by rewrite <- Hkn].
  - rewrite Hc, Hp, pending_nil; [done|]. simpl. intros x Hx. rewrite lookup_foldr_drained. by case_decide.
  - intros o Ho. rewrite lookup_foldr_drained. by case_decide.
Qed.

Lemma resume_creates creates d :
  dm_inv d -> dm_allowed (OResume creates) d -> existsb creates (dm_all d) = true ->
  resume 1 creates d = Err (EUndefined "push_back into the vector under iteration").
Proof.
  intros Hi [Hr H0] Hcr. pose proof (fun o => drained_when_zero d o Hi Hr H0) as Hd.
  destruct Hi as [Hnd Hkn Hc Hsm Hst]. unfold resume. rewrite bind_gets.
  rewrite bind_panic_if by (by apply bool_decide_eq_false_2). rewrite bind_panic_if.
  2:{ apply bool_decide_eq_false_2. intros E. by rewrite E in Hst. }
  rewrite bind_gets, bind_panic_if by (rewrite H0; done). rewrite bind_modify.
  apply bind_err. simpl. rewrite bind_gets. by apply bind_err, resume_all_creates.
Qed.

(** What an operation answers and leaves. *)
Definition dm_effect (op : dm_op) (d : DrainManager) (r : option bool) (d' : DrainManager) : Prop :=
  match op with
  | OCreate o => r = None /\ dm_all d' = dm_all d ++ [o] /\ dm_state d' = dm_state d
  | ODelete o => r = None /\ dm_all d' = filter (fun o' => o' <> o) (dm_all d) /\ dm_state d' = dm_state d
  | OTryDrain answer =>
      let b := forallb (fun o => bool_decide (answer o = Drained)) (dm_all d) in
      r = Some b /\ dm_state d' = (if b then Drained else Draining)
      /\ forall o, o ∈ dm_all d -> dm_states d' !! o = Some (answer o)
  | OSignal o => r = None /\
      (dm_states d !! o = Some Draining ->
         dm_count d' = dm_count d - 1
         /\ dm_exits d' = if dm_count d' =? 0 then S (dm_exits d) else dm_exits d)
  | OResume _ => r = None /\ dm_state d' = Running /\ dm_all d' = dm_all d
  | OPreRestore => r = None /\ dm_state d' = Drained
  end.

(** C34: draining keeps its books.  An operation used as documented, with nothing
    constructed or destroyed while the system drains, keeps the invariant that
    the counter is the number of objects which have been asked to drain and
    have not reported, and that a running (drained) system has only running
    (drained) objects.  It succeeds, with one exception: [resume] when some
    [drainResume] constructs an object.  The documentation provides for that,
    but the constructor pushes into the vector [resume] iterates over, which is
    undefined.  [tryDrain] answers whether every object was drained at once;
    the last report ends the simulation loop; [resume] ends with everything
    running. *)
Theorem drain_invariant op d :
  dm_inv d -> dm_allowed op d ->
  match op with OResume creates => existsb creates (dm_all d) | _ => false end = false
    /\ (exists r d', dm_run op d = Ok (r, d') /\ dm_inv d' /\ dm_effect op d r d')
  \/ match op with OResume creates => existsb creates (dm_all d) | _ => false end = true
    /\ dm_run op d = Err (EUndefined "push_back into the vector under iteration").
Proof.
  intros Hi Ha. destruct op as [o|o|answer|o|creates|]; simpl dm_run;
    try (left; split; [done|]).
  - destruct (create_run d o Hi Ha) as (d' & Hr & ? & ?). exists None, d'. by erewrite bind_run by exact Hr.
  - destruct (delete_run d o Hi Ha) as (d' & Hr & ? & ?). exists None, d'. by erewrite bind_run by exact Hr.
  - destruct (tryDrain_run answer d Hi Ha) as (d' & Hr & ? & _ & ? & ?). eexists _, d'.
    by erewrite bind_run by exact Hr.
  - destruct (signal_run d o Hi Ha) as (d' & Hr & ? & _ & _ & ?). exists None, d'. by erewrite bind_run by exact Hr.
  - destruct (existsb creates (dm_all d)) eqn:Hc; [right|left]; (split; [done|]).
    + by apply bind_err, resume_creates.
    + destruct (resume_run creates d Hi Ha Hc) as (d' & Hr & ? & ? & ?). exists None, d'.
      by erewrite bind_run by exact Hr.
  - destruct (preRestore_run d Hi Ha) as (d' & Hr & ? & ?). exists None, d'. by erewrite bind_run by exact Hr.
Qed.

(** Two objects, one of which needs time. *)
Definition demo_answer (o : nat) : DrainState := if decide (o = 1%nat) then Draining else Drained.
Definition demo_dm : DrainManager := mkDM [0; 1]%nat {[0%nat := Drained; 1%nat := Draining]} 1 Draining 0.
Lemma demo_dm_inv : dm_inv demo_dm.
Proof.
  split; simpl; try done.
  - repeat constructor; set_solver.
  - intros o. rewrite !elem_of_cons, elem_of_nil. unfold demo_dm; simpl.
    destruct (decide (o = 0%nat)) as [-> |]; [naive_solver|].
    destruct (decide (o = 1%nat)) as [-> |]; [naive_solver|].
    rewrite lookup_insert_ne, lookup_singleton_ne by done. split; [naive_solver|by intros [? ?]].
  - intros o. rewrite !elem_of_cons, elem_of_nil. intros [-> |[-> |[]]]; auto.
Qed.

Lemma drain_invariant_witness :
  exists d', dm_run (OSignal 1) demo_dm = Ok (None, d') /\ dm_inv d' /\ dm_count d' = 0 /\ dm_exits d' = 1%nat.
Proof.
  destruct (drain_invariant (OSignal 1) demo_dm) as [[_ (r & d' & Hr & Hi & -> & He)]|[? _]];
    [exact demo_dm_inv|set_solver| |done].
  exists d'. split; [exact Hr|]. split; [exact Hi|]. destruct (He eq_refl) as [Hc Hx]. rewrite Hx, Hc. done.
Defined.

(** An object constructed while the system drains inherits the draining state
    without being counted: when it reports, the counter says that the object
    asked to drain is done. *)
Theorem created_while_draining_miscounts :
  exists d', exec (new_Drainable 2;; signalDrainDone 2) demo_dm = Ok d'
    /\ dm_count d' = 0 /\ dm_states d' !! 1%nat = Some Draining.
Proof. eexists. split; [reflexivity|]. done. Qed.
