(* ===== verification/Packet.v ===== *)
(** * Memory commands and packets (mem/packet.hh, mem/packet.cc)

    The command enumeration, the table [commandInfo] that gives every command
    its attributes, response and name, the attribute tests, and the part of
    [Packet] the modelled components use.  The table is indexed by the integer
    value of the command, as in the source, so that its alignment with the
    enumeration is a property and not an assumption. *)

From S2P Require Import Prelude.

Inductive Command :=
  | InvalidCmd
  | ReadReq
  | ReadResp
  | ReadRespWithInvalidate
  | WriteReq
  | WriteResp
  | WritebackDirty
  | WritebackClean
  | WriteClean
  | CleanEvict
  | SoftPFReq
  | SoftPFExReq
  | HardPFReq
  | SoftPFResp
  | HardPFResp
  | WriteLineReq
  | UpgradeReq
  | SCUpgradeReq
  | UpgradeResp
  | SCUpgradeFailReq
  | UpgradeFailResp
  | ReadExReq
  | ReadExResp
  | ReadCleanReq
  | ReadSharedReq
  | LoadLockedReq
  | StoreCondReq
  | StoreCondFailReq
  | StoreCondResp
  | SwapReq
  | SwapResp
  | MemFenceReq
  | MemFenceResp
  | CleanSharedReq
  | CleanSharedResp
  | CleanInvalidReq
  | CleanInvalidResp
  | InvalidDestError
  | BadAddressError
  | FunctionalReadError
  | FunctionalWriteError
  | PrintReq
  | FlushReq
  | InvalidateReq
  | InvalidateResp.

Inductive Attribute :=
  | IsRead | IsWrite | IsUpgrade | IsInvalidate | IsClean | NeedsWritable
  | IsRequest | IsResponse | NeedsResponse | IsEviction | IsSWPrefetch | IsHWPrefetch
  | IsLlsc | HasData | IsError | IsPrint | IsFlush | FromCache.

(** Values of the enumerators; [MemFenceReq = SwapResp + 3]. *)
Definition toInt (c : Command) : nat :=
  match c with
  | InvalidCmd => 0
  | ReadReq => 1
  | ReadResp => 2
  | ReadRespWithInvalidate => 3
  | WriteReq => 4
  | WriteResp => 5
  | WritebackDirty => 6
  | WritebackClean => 7
  | WriteClean => 8
  | CleanEvict => 9
  | SoftPFReq => 10
  | SoftPFExReq => 11
  | HardPFReq => 12
  | SoftPFResp => 13
  | HardPFResp => 14
  | WriteLineReq => 15
  | UpgradeReq => 16
  | SCUpgradeReq => 17
  | UpgradeResp => 18
  | SCUpgradeFailReq => 19
  | UpgradeFailResp => 20
  | ReadExReq => 21
  | ReadExResp => 22
  | ReadCleanReq => 23
  | ReadSharedReq => 24
  | LoadLockedReq => 25
  | StoreCondReq => 26
  | StoreCondFailReq => 27
  | StoreCondResp => 28
  | SwapReq => 29
  | SwapResp => 30
  | MemFenceReq => 33
  | MemFenceResp => 34
  | CleanSharedReq => 35
  | CleanSharedResp => 36
  | CleanInvalidReq => 37
  | CleanInvalidResp => 38
  | InvalidDestError => 39
  | BadAddressError => 40
  | FunctionalReadError => 41
  | FunctionalWriteError => 42
  | PrintReq => 43
  | FlushReq => 44
  | InvalidateReq => 45
  | InvalidateResp => 46
  end%nat.

Definition NUM_MEM_CMDS : nat := 47.

Definition attr_index (a : Attribute) : Z :=
  match a with
  | IsRead => 0
  | IsWrite => 1
  | IsUpgrade => 2
  | IsInvalidate => 3
  | IsClean => 4
  | NeedsWritable => 5
  | IsRequest => 6
  | IsResponse => 7
  | NeedsResponse => 8
  | IsEviction => 9
  | IsSWPrefetch => 10
  | IsHWPrefetch => 11
  | IsLlsc => 12
  | HasData => 13
  | IsError => 14
  | IsPrint => 15
  | IsFlush => 16
  | FromCache => 17
  end.

(** [SET1] ... [SET7]: the bit set of a list of attributes. *)
Definition SET (l : list Attribute) : Z :=
  foldr (fun a m => Z.lor (Z.shiftl 1 (attr_index a)) m) 0 l.

Record CommandInfo := mkInfo { ci_attributes : Z; ci_response : Command; ci_str : string }.

Definition commandInfo : list CommandInfo := [
  mkInfo 0 InvalidCmd "InvalidCmd";
  mkInfo (SET [IsRead; IsRequest; NeedsResponse]) ReadResp "ReadReq";
  mkInfo (SET [IsRead; IsResponse; HasData]) InvalidCmd "ReadResp";
  mkInfo (SET [IsRead; IsResponse; HasData; IsInvalidate]) InvalidCmd "ReadRespWithInvalidate";
  mkInfo (SET [IsWrite; NeedsWritable; IsRequest; NeedsResponse; HasData]) WriteResp "WriteReq";
  mkInfo (SET [IsWrite; IsResponse]) InvalidCmd "WriteResp";
  mkInfo (SET [IsWrite; IsRequest; IsEviction; HasData; FromCache]) InvalidCmd "WritebackDirty";
  mkInfo (SET [IsWrite; IsRequest; IsEviction; HasData; FromCache]) InvalidCmd "WritebackClean";
  mkInfo (SET [IsWrite; IsRequest; HasData; FromCache]) InvalidCmd "WriteClean";
  mkInfo (SET [IsRequest; IsEviction; FromCache]) InvalidCmd "CleanEvict";
  mkInfo (SET [IsRead; IsRequest; IsSWPrefetch; NeedsResponse]) SoftPFResp "SoftPFReq";
  mkInfo (SET [IsRead; NeedsWritable; IsInvalidate; IsRequest; IsSWPrefetch; NeedsResponse]) SoftPFResp "SoftPFExReq";
  mkInfo (SET [IsRead; IsRequest; IsHWPrefetch; NeedsResponse; FromCache]) HardPFResp "HardPFReq";
  mkInfo (SET [IsRead; IsResponse; IsSWPrefetch; HasData]) InvalidCmd "SoftPFResp";
  mkInfo (SET [IsRead; IsResponse; IsHWPrefetch; HasData]) InvalidCmd "HardPFResp";
  mkInfo (SET [IsWrite; NeedsWritable; IsRequest; NeedsResponse; HasData]) WriteResp "WriteLineReq";
  mkInfo (SET [IsInvalidate; NeedsWritable; IsUpgrade; IsRequest; NeedsResponse; FromCache]) UpgradeResp "UpgradeReq";
  mkInfo (SET [IsInvalidate; NeedsWritable; IsUpgrade; IsLlsc; IsRequest; NeedsResponse; FromCache]) UpgradeResp "SCUpgradeReq";
  mkInfo (SET [IsUpgrade; IsResponse]) InvalidCmd "UpgradeResp";
  mkInfo (SET [IsRead; NeedsWritable; IsInvalidate; IsLlsc; IsRequest; NeedsResponse; FromCache]) UpgradeFailResp "SCUpgradeFailReq";
  mkInfo (SET [IsRead; IsResponse; HasData]) InvalidCmd "UpgradeFailResp";
  mkInfo (SET [IsRead; NeedsWritable; IsInvalidate; IsRequest; NeedsResponse; FromCache]) ReadExResp "ReadExReq";
  mkInfo (SET [IsRead; IsResponse; HasData]) InvalidCmd "ReadExResp";
  mkInfo (SET [IsRead; IsRequest; NeedsResponse; FromCache]) ReadResp "ReadCleanReq";
  mkInfo (SET [IsRead; IsRequest; NeedsResponse; FromCache]) ReadResp "ReadSharedReq";
  mkInfo (SET [IsRead; IsLlsc; IsRequest; NeedsResponse]) ReadResp "LoadLockedReq";
  mkInfo (SET [IsWrite; NeedsWritable; IsLlsc; IsRequest; NeedsResponse; HasData]) StoreCondResp "StoreCondReq";
  mkInfo (SET [IsWrite; NeedsWritable; IsLlsc; IsRequest; NeedsResponse; HasData]) StoreCondResp "StoreCondFailReq";
  mkInfo (SET [IsWrite; IsLlsc; IsResponse]) InvalidCmd "StoreCondResp";
  mkInfo (SET [IsRead; IsWrite; NeedsWritable; IsRequest; HasData; NeedsResponse]) SwapResp "SwapReq";
  mkInfo (SET [IsRead; IsWrite; IsResponse; HasData]) InvalidCmd "SwapResp";
  mkInfo 0 InvalidCmd "Deprecated_MessageReq";
  mkInfo 0 InvalidCmd "Deprecated_MessageResp";
  mkInfo (SET [IsRequest; NeedsResponse]) MemFenceResp "MemFenceReq";
  mkInfo (SET [IsResponse]) InvalidCmd "MemFenceResp";
  mkInfo (SET [IsRequest; IsClean; NeedsResponse; FromCache]) CleanSharedResp "CleanSharedReq";
  mkInfo (SET [IsResponse; IsClean]) InvalidCmd "CleanSharedResp";
  mkInfo (SET [IsRequest; IsInvalidate; IsClean; NeedsResponse; FromCache]) CleanInvalidResp "CleanInvalidReq";
  mkInfo (SET [IsResponse; IsInvalidate; IsClean]) InvalidCmd "CleanInvalidResp";
  mkInfo (SET [IsResponse; IsError]) InvalidCmd "InvalidDestError";
  mkInfo (SET [IsResponse; IsError]) InvalidCmd "BadAddressError";
  mkInfo (SET [IsRead; IsResponse; IsError]) InvalidCmd "FunctionalReadError";
  mkInfo (SET [IsWrite; IsResponse; IsError]) InvalidCmd "FunctionalWriteError";
  mkInfo (SET [IsRequest; IsPrint]) InvalidCmd "PrintReq";
  mkInfo (SET [IsRequest; IsFlush; NeedsWritable]) InvalidCmd "FlushReq";
  mkInfo (SET [IsInvalidate; IsRequest; NeedsWritable; NeedsResponse; FromCache]) InvalidateResp "InvalidateReq";
  mkInfo (SET [IsInvalidate; IsResponse]) InvalidCmd "InvalidateResp"
].

#[global] Instance Command_eq_dec : EqDecision Command.
Proof. solve_decision. Defined.

Definition info (c : Command) : CommandInfo :=
  nth (toInt c) commandInfo (mkInfo 0 InvalidCmd "").

Definition testCmdAttrib (c : Command) (a : Attribute) : bool :=
  Z.testbit (ci_attributes (info c)) (attr_index a).

Definition isRead (c : Command) : bool := testCmdAttrib c IsRead.
Definition isWrite (c : Command) : bool := testCmdAttrib c IsWrite.
Definition isUpgrade (c : Command) : bool := testCmdAttrib c IsUpgrade.
Definition isRequest (c : Command) : bool := testCmdAttrib c IsRequest.
Definition isResponse (c : Command) : bool := testCmdAttrib c IsResponse.
Definition needsWritable (c : Command) : bool := testCmdAttrib c NeedsWritable.
Definition needsResponse (c : Command) : bool := testCmdAttrib c NeedsResponse.
Definition isInvalidate (c : Command) : bool := testCmdAttrib c IsInvalidate.
Definition isEviction (c : Command) : bool := testCmdAttrib c IsEviction.
Definition isClean (c : Command) : bool := testCmdAttrib c IsClean.
Definition fromCache (c : Command) : bool := testCmdAttrib c FromCache.
Definition isWriteback (c : Command) : bool :=
  testCmdAttrib c IsEviction && testCmdAttrib c HasData.
Definition hasData (c : Command) : bool := testCmdAttrib c HasData.
Definition isLLSC (c : Command) : bool := testCmdAttrib c IsLlsc.
Definition isSWPrefetch (c : Command) : bool := testCmdAttrib c IsSWPrefetch.
Definition isHWPrefetch (c : Command) : bool := testCmdAttrib c IsHWPrefetch.
Definition isPrefetch (c : Command) : bool :=
  testCmdAttrib c IsSWPrefetch || testCmdAttrib c IsHWPrefetch.
Definition isError (c : Command) : bool := testCmdAttrib c IsError.
Definition isPrint (c : Command) : bool := testCmdAttrib c IsPrint.
Definition isFlush (c : Command) : bool := testCmdAttrib c IsFlush.
Definition responseCommand (c : Command) : Command := ci_response (info c).
Definition toString (c : Command) : string := ci_str (info c).

(** A packet as the modelled components see it: its command, address, size,
    the payload word, and the [CACHE_RESPONDING] flag. *)
Record Packet := mkPacket {
  pk_cmd : Command;
  pk_addr : Z;
  pk_size : Z;
  pk_data : Z;
  pk_cacheResponding : bool
}.

Definition set_pk_cmd (c : Command) (p : Packet) : Packet :=
  mkPacket c (pk_addr p) (pk_size p) (pk_data p) (pk_cacheResponding p).
Definition set_pk_data (d : Z) (p : Packet) : Packet :=
  mkPacket (pk_cmd p) (pk_addr p) (pk_size p) d (pk_cacheResponding p).

(** [Packet::makeResponse] *)
Definition makeResponse (p : Packet) : res Packet :=
  if needsResponse (pk_cmd p) then
    if isRequest (pk_cmd p) then Ok (set_pk_cmd (responseCommand (pk_cmd p)) p)
    else Err (EAssert "isRequest()")
  else Err (EAssert "needsResponse()").

(** ** Properties *)

(** The identifier each command has in the enumeration. *)
Definition enumerator (c : Command) : string :=
  match c with
  | InvalidCmd => "InvalidCmd"
  | ReadReq => "ReadReq"
  | ReadResp => "ReadResp"
  | ReadRespWithInvalidate => "ReadRespWithInvalidate"
  | WriteReq => "WriteReq"
  | WriteResp => "WriteResp"
  | WritebackDirty => "WritebackDirty"
  | WritebackClean => "WritebackClean"
  | WriteClean => "WriteClean"
  | CleanEvict => "CleanEvict"
  | SoftPFReq => "SoftPFReq"
  | SoftPFExReq => "SoftPFExReq"
  | HardPFReq => "HardPFReq"
  | SoftPFResp => "SoftPFResp"
  | HardPFResp => "HardPFResp"
  | WriteLineReq => "WriteLineReq"
  | UpgradeReq => "UpgradeReq"
  | SCUpgradeReq => "SCUpgradeReq"
  | UpgradeResp => "UpgradeResp"
  | SCUpgradeFailReq => "SCUpgradeFailReq"
  | UpgradeFailResp => "UpgradeFailResp"
  | ReadExReq => "ReadExReq"
  | ReadExResp => "ReadExResp"
  | ReadCleanReq => "ReadCleanReq"
  | ReadSharedReq => "ReadSharedReq"
  | LoadLockedReq => "LoadLockedReq"
  | StoreCondReq => "StoreCondReq"
  | StoreCondFailReq => "StoreCondFailReq"
  | StoreCondResp => "StoreCondResp"
  | SwapReq => "SwapReq"
  | SwapResp => "SwapResp"
  | MemFenceReq => "MemFenceReq"
  | MemFenceResp => "MemFenceResp"
  | CleanSharedReq => "CleanSharedReq"
  | CleanSharedResp => "CleanSharedResp"
  | CleanInvalidReq => "CleanInvalidReq"
  | CleanInvalidResp => "CleanInvalidResp"
  | InvalidDestError => "InvalidDestError"
  | BadAddressError => "BadAddressError"
  | FunctionalReadError => "FunctionalReadError"
  | FunctionalWriteError => "FunctionalWriteError"
  | PrintReq => "PrintReq"
  | FlushReq => "FlushReq"
  | InvalidateReq => "InvalidateReq"
  | InvalidateResp => "InvalidateResp"
  end.

(** C37: the command table is aligned with the enumeration and closed under
    responses: there is one entry per enumerator value, no two enumerators
    share a value, the entry of a command is printed under its own name,
    [InvalidCmd] is neither a request nor a response and every other command is
    one of them and not both, a command that needs a response is a request
    whose response is a response that needs none and moves data in the same
    direction, and a command that needs no response has none. *)
Theorem commandInfo_consistent :
  length commandInfo = NUM_MEM_CMDS /\
  (forall c1 c2, toInt c1 = toInt c2 -> c1 = c2) /\
  forall c, (toInt c < NUM_MEM_CMDS)%nat /\ toString c = enumerator c /\
    (if decide (c = InvalidCmd) then isRequest c = false /\ isResponse c = false
     else isRequest c = negb (isResponse c)) /\
    if needsResponse c
    then isRequest c = true /\ isResponse (responseCommand c) = true
         /\ needsResponse (responseCommand c) = false
         /\ isRead (responseCommand c) = isRead c
         /\ isWrite (responseCommand c) = isWrite c
         /\ isError (responseCommand c) = false
    else responseCommand c = InvalidCmd.
Proof.
  split; [reflexivity|]. split; [by intros [] [] [=]|].
  intros []; (split; [vm_compute; lia|]); (split; [reflexivity|]);
    (split; [by vm_compute; auto|]); by vm_compute.
Qed.

(** The response made from a request carries the request's address, size and
    payload, and is accepted exactly once. *)
Lemma makeResponse_ok p :
  needsResponse (pk_cmd p) = true ->
  exists p', makeResponse p = Ok p' /\ isResponse (pk_cmd p') = true
    /\ needsResponse (pk_cmd p') = false
    /\ isRead (pk_cmd p') = isRead (pk_cmd p) /\ isWrite (pk_cmd p') = isWrite (pk_cmd p)
    /\ pk_addr p' = pk_addr p /\ pk_size p' = pk_size p /\ pk_data p' = pk_data p.
Proof.
  destruct p as [c a s d r]; simpl. intros Hn. unfold makeResponse; simpl. rewrite Hn.
  assert (isRequest c = true) as -> by (by destruct c).
  eexists. split; [done|]. simpl. by destruct c.
Qed.
