(* ===== verification/WorkQueue.v ===== *)
(** * The hardware work queue (mem/work_queue.hh, mem/work_queue.cc)

    A bounded FIFO of 32-bit work items behind two ports: the consumer reads
    (pops) through [PopPortType], the producer writes (pushes) through
    [PushPortType].  A request that cannot be taken is refused and its port is
    remembered for a retry; an accepted request makes the queue busy for
    [latency] ticks and its response waits in [packetQueue].

    The state is the object's fields, the two events on the abstract scheduler
    and, to state what the ports observe, the requests accepted and the
    responses taken so far.  What the other side of a port does
    is an argument: whether it takes a response, and the packets it sends from
    inside the call. *)

From S2P Require Import Prelude EventSched Drain Packet.

Inductive WorkQueuePort_e := PopPortType | PushPortType.
Inductive wq_event := ReleaseEvent | DequeueEvent.

#[global] Instance port_eq_dec : EqDecision WorkQueuePort_e.
Proof. solve_decision. Defined.
#[global] Instance wq_event_eq_dec : EqDecision wq_event.
Proof. solve_decision. Defined.
#[global] Instance wq_event_countable : Countable wq_event.
Proof.
  refine (inj_countable' (fun e => match e with ReleaseEvent => true | DequeueEvent => false end)
    (fun b => if b then ReleaseEvent else DequeueEvent) _). by intros [].
Defined.

Record DeferredPacket := mkDeferred {
  dp_tick : Z; dp_pkt : Packet; dp_portType : WorkQueuePort_e
}.

Record WorkQueue := mkWQ {
  workQ : list Z;
  wq_size : Z;                       (* int size *)
  latency : Z;
  packetQueue : list DeferredPacket;
  isBusy : bool; isEmpty : bool; isFull : bool;
  retryPop : bool; retryPush : bool; retryResp : bool;
  popPortAddr : Z; pushPortAddr : Z;
  pendingDelete : option Packet;
  pops : Z; pushes : Z;
  wq_drainState : DrainState;
  wq_sched : Sched wq_event;
  wq_accepted : list Packet;                  (* requests taken, in order *)
  wq_sent : list (WorkQueuePort_e * Packet)   (* responses taken by the ports *)
}.

Abbreviation W := (M WorkQueue).

(** *** Field updates *)
Definition upd_workQ (l : list Z) (w : WorkQueue) : WorkQueue :=
  mkWQ l (wq_size w) (latency w) (packetQueue w) (isBusy w) (isEmpty w) (isFull w)
    (retryPop w) (retryPush w) (retryResp w) (popPortAddr w) (pushPortAddr w)
    (pendingDelete w) (pops w) (pushes w) (wq_drainState w) (wq_sched w) (wq_accepted w) (wq_sent w).
Definition upd_stats (po pu : Z) (w : WorkQueue) : WorkQueue :=
  mkWQ (workQ w) (wq_size w) (latency w) (packetQueue w) (isBusy w) (isEmpty w) (isFull w)
    (retryPop w) (retryPush w) (retryResp w) (popPortAddr w) (pushPortAddr w)
    (pendingDelete w) po pu (wq_drainState w) (wq_sched w) (wq_accepted w) (wq_sent w).
Definition upd_flags (busy em fu : bool) (w : WorkQueue) : WorkQueue :=
  mkWQ (workQ w) (wq_size w) (latency w) (packetQueue w) busy em fu
    (retryPop w) (retryPush w) (retryResp w) (popPortAddr w) (pushPortAddr w)
    (pendingDelete w) (pops w) (pushes w) (wq_drainState w) (wq_sched w) (wq_accepted w) (wq_sent w).
Definition upd_retry (rpop rpush rresp : bool) (w : WorkQueue) : WorkQueue :=
  mkWQ (workQ w) (wq_size w) (latency w) (packetQueue w) (isBusy w) (isEmpty w) (isFull w)
    rpop rpush rresp (popPortAddr w) (pushPortAddr w)
    (pendingDelete w) (pops w) (pushes w) (wq_drainState w) (wq_sched w) (wq_accepted w) (wq_sent w).
Definition upd_packetQueue (l : list DeferredPacket) (w : WorkQueue) : WorkQueue :=
  mkWQ (workQ w) (wq_size w) (latency w) l (isBusy w) (isEmpty w) (isFull w)
    (retryPop w) (retryPush w) (retryResp w) (popPortAddr w) (pushPortAddr w)
    (pendingDelete w) (pops w) (pushes w) (wq_drainState w) (wq_sched w) (wq_accepted w) (wq_sent w).
Definition upd_pending (p : option Packet) (w : WorkQueue) : WorkQueue :=
  mkWQ (workQ w) (wq_size w) (latency w) (packetQueue w) (isBusy w) (isEmpty w) (isFull w)
    (retryPop w) (retryPush w) (retryResp w) (popPortAddr w) (pushPortAddr w)
    p (pops w) (pushes w) (wq_drainState w) (wq_sched w) (wq_accepted w) (wq_sent w).
Definition upd_sched (s : Sched wq_event) (w : WorkQueue) : WorkQueue :=
  mkWQ (workQ w) (wq_size w) (latency w) (packetQueue w) (isBusy w) (isEmpty w) (isFull w)
    (retryPop w) (retryPush w) (retryResp w) (popPortAddr w) (pushPortAddr w)
    (pendingDelete w) (pops w) (pushes w) (wq_drainState w) s (wq_accepted w) (wq_sent w).
Definition upd_drain (d : DrainState) (w : WorkQueue) : WorkQueue :=
  mkWQ (workQ w) (wq_size w) (latency w) (packetQueue w) (isBusy w) (isEmpty w) (isFull w)
    (retryPop w) (retryPush w) (retryResp w) (popPortAddr w) (pushPortAddr w)
    (pendingDelete w) (pops w) (pushes w) d (wq_sched w) (wq_accepted w) (wq_sent w).
Definition upd_sent (l : list (WorkQueuePort_e * Packet)) (w : WorkQueue) : WorkQueue :=
  mkWQ (workQ w) (wq_size w) (latency w) (packetQueue w) (isBusy w) (isEmpty w) (isFull w)
    (retryPop w) (retryPush w) (retryResp w) (popPortAddr w) (pushPortAddr w)
    (pendingDelete w) (pops w) (pushes w) (wq_drainState w) (wq_sched w) (wq_accepted w) l.

Definition upd_accepted (l : list Packet) (w : WorkQueue) : WorkQueue :=
  mkWQ (workQ w) (wq_size w) (latency w) (packetQueue w) (isBusy w) (isEmpty w) (isFull w)
    (retryPop w) (retryPush w) (retryResp w) (popPortAddr w) (pushPortAddr w)
    (pendingDelete w) (pops w) (pushes w) (wq_drainState w) (wq_sched w) l (wq_sent w).

Definition curTick (w : WorkQueue) : Z := s_now (wq_sched w).

(** Scheduler operations on the queue's events. *)
Definition on_sched (m : M (Sched wq_event) unit) : W unit := fun w =>
  match m (wq_sched w) with
  | Ok (_, s) => Ok (tt, upd_sched s w)
  | Err e => Err e
  end.

(** The constructor: an empty queue with nothing scheduled. *)
Definition new_WorkQueue (size lat pop_addr push_addr now : Z) : WorkQueue :=
  mkWQ [] size lat [] false true false false false false pop_addr push_addr
    None 0 0 Running (mkSched now ∅) [] [].

(** [init]: both ports must be connected. *)
Definition init (pop_connected push_connected : bool) : W unit :=
  panic_if (negb pop_connected) "pop_port unconnected";;
  panic_if (negb push_connected) "push_port unconnected".

(** [AbstractMemory::writeOK] with no tracked load-locked address (the work
    queue never records one): only a load-locked or store-conditional fails. *)
Definition writeOK (p : Packet) : bool := negb (isLLSC (pk_cmd p)).

(** [workQ.size() == this->size]: [size] is an [int] compared as [size_t]. *)
Definition at_capacity (w : WorkQueue) : bool :=
  Z.of_nat (length (workQ w)) =? u64 (wq_size w).

(** [WorkQueue::access]: performs the push or pop; returns the packet as it is
    left (payload read, turned into a response). *)
Definition access (pkt : Packet) : W Packet :=
  panic_if (negb (writeOK pkt)) "writeOK(pkt) not set";;
  panic_if (negb (pk_size pkt =? 4)) "Work item (req payload) size must be 4B";;
  pkt1 ←
    (if isRead (pk_cmd pkt) then
       assert_ (negb (isWrite (pk_cmd pkt))) "!pkt->isWrite()";;
       panic_if (isLLSC (pk_cmd pkt)) "Should only see load/store requests to work queue";;
       q ← gets workQ;
       match q with
       | [] => throw (EPanic "Work popped when queue was empty")
       | data :: rest =>
           modify (upd_workQ rest);;
           modify (fun w => upd_stats (pops w + 1) (pushes w) w);;
           mret (set_pk_data data pkt)
       end
     else if isWrite (pk_cmd pkt) then
       full ← gets at_capacity;
       panic_if full "Work pushed when queue was full";;
       modify (fun w => upd_workQ (workQ w ++ [u32 (pk_data pkt)]) w);;
       modify (fun w => upd_stats (pops w) (pushes w + 1) w);;
       mret pkt
     else throw (EPanic "Unexpected packet"));
  pkt2 ← (if needsResponse (pk_cmd pkt1) then lift (makeResponse pkt1) else mret pkt1);
  modify (fun w => upd_flags (isBusy w) (bool_decide (workQ w = [])) (at_capacity w) w);;
  mret pkt2.

Definition getLatency (w : WorkQueue) : Z := latency w.

(** [WorkQueue::recvAtomic]: the access and its latency. *)
Definition recvAtomic (pkt : Packet) : W (Z * Packet) :=
  panic_if (pk_cacheResponding pkt) "Should not see packets where cache is responding";;
  pkt' ← access pkt;
  lat ← gets getLatency;
  mret (lat, pkt').

(** [WorkQueue::recvTimingReq], refusals first. *)
Definition refuse (portType : WorkQueuePort_e) (w : WorkQueue) : option WorkQueue :=
  if (retryPop w && bool_decide (portType = PopPortType))
     || (retryPush w && bool_decide (portType = PushPortType))
  then Some w
  else match portType with
       | PopPortType =>
           if isBusy w then Some (upd_retry true (retryPush w) (retryResp w) w)
           else if isEmpty w then Some (upd_retry true (retryPush w) (retryResp w) w)
           else None
       | PushPortType =>
           if isBusy w then Some (upd_retry (retryPop w) true (retryResp w) w)
           else if isFull w then Some (upd_retry (retryPop w) true (retryResp w) w)
           else None
       end.

Definition recvTimingReq (pkt : Packet) (portType : WorkQueuePort_e) : W bool :=
  panic_if (pk_cacheResponding pkt) "Should not see packets where cache is responding";;
  panic_if (negb (isRead (pk_cmd pkt) || isWrite (pk_cmd pkt)))
    "Should only see read and writes at memory controller";;
  panic_if (bool_decide (portType = PopPortType) && negb (isRead (pk_cmd pkt)))
    "Should only see load requests to pop_port";;
  r ← gets (refuse portType);
  match r with
  | Some w' => modify (fun _ => w');; mret false
  | None =>
      now ← gets curTick; lat ← gets getLatency;
      on_sched (s_schedule ReleaseEvent (u64 (now + lat)));;
      modify (fun w => upd_flags true (isEmpty w) (isFull w) w);;
      '(_, pkt') ← recvAtomic pkt;
      (if needsResponse (pk_cmd pkt) then
         assert_ (isResponse (pk_cmd pkt')) "pkt->isResponse()";;
         modify (fun w => upd_packetQueue
           (packetQueue w ++ [mkDeferred (u64 (now + lat)) pkt' portType]) w);;
         rr ← gets retryResp;
         sch ← gets (fun w => s_scheduled DequeueEvent (wq_sched w));
         when_ (negb rr && negb sch) (on_sched (s_schedule DequeueEvent (u64 (now + lat))))
       else modify (upd_pending (Some pkt')));;
      modify (fun w => upd_accepted (wq_accepted w ++ [pkt]) w);;
      mret true
  end.

(** [sendRetryReq] on a port: the peer answers by sending the packets [l]. *)
Definition sendRetryReq (port : WorkQueuePort_e) (l : list Packet) : W unit :=
  forM_ l (fun p => recvTimingReq p port;; mret tt).

(** [WorkQueue::release] *)
Definition release (pop_peer push_peer : list Packet) : W unit :=
  modify (fun w => upd_flags false (isEmpty w) (isFull w) w);;
  rp ← gets retryPop;
  when_ rp
    (modify (fun w => upd_retry false (retryPush w) (retryResp w) w);;
     sendRetryReq PopPortType pop_peer);;
  rq ← gets retryPush;
  when_ rq
    (modify (fun w => upd_retry (retryPop w) false (retryResp w) w);;
     sendRetryReq PushPortType push_peer).

(** [sendTimingResp] on a port: [accept] is the peer's answer; before it
    returns the peer may send the requests [reent]. *)
Definition sendTimingResp (port : WorkQueuePort_e) (pkt : Packet) (accept : bool)
    (reent : list (WorkQueuePort_e * Packet)) : W bool :=
  forM_ reent (fun x => recvTimingReq x.2 x.1;; mret tt);;
  when_ accept (modify (fun w => upd_sent (wq_sent w ++ [(port, pkt)]) w));;
  mret accept.

(** [signalDrainDone]: a draining object becomes drained. *)
Definition signalDrainDone : W unit :=
  modify (fun w => if decide (wq_drainState w = Draining) then upd_drain Drained w else w).

(** [WorkQueue::dequeue] *)
Definition dequeue (accept : bool) (reent : list (WorkQueuePort_e * Packet)) : W unit :=
  pq ← gets packetQueue;
  match pq with
  | [] => throw (EAssert "!packetQueue.empty()")
  | d :: _ =>
      ok ← sendTimingResp (dp_portType d) (dp_pkt d) accept reent;
      modify (fun w => upd_retry (retryPop w) (retryPush w) (negb ok) w);;
      when_ ok
        (modify (fun w => upd_packetQueue (tail (packetQueue w)) w);;
         pq' ← gets packetQueue;
         now ← gets curTick;
         match pq' with
         | d' :: _ => on_sched (s_reschedule DequeueEvent (Z.max (dp_tick d') now) true)
         | [] =>
             ds ← gets wq_drainState;
             when_ (bool_decide (ds = Draining)) signalDrainDone
         end)
  end.

(** [WorkQueue::recvRespRetry] *)
Definition recvRespRetry (accept : bool) (reent : list (WorkQueuePort_e * Packet)) : W unit :=
  rr ← gets retryResp;
  assert_ rr "retryResp";;
  dequeue accept reent.

(** [WorkQueue::drain] *)
Definition drain (w : WorkQueue) : DrainState :=
  match packetQueue w with [] => Drained | _ => Draining end.

(** [MemoryPort::recvFunctional]: never allowed. *)
Definition recvFunctional (pkt : Packet) : W unit :=
  throw (EPanic "Should not be receiving a functional packet in the work queue").

(** ** Steps of the system around one work queue *)

Inductive wq_input :=
  | IReq (p : Packet) (port : WorkQueuePort_e)             (* MemoryPort::recvTimingReq *)
  | IRelease (pop_peer push_peer : list Packet)            (* the release event fires *)
  | IDequeue (accept : bool) (reent : list (WorkQueuePort_e * Packet))
  | IRespRetry (accept : bool) (reent : list (WorkQueuePort_e * Packet))
  | ITime (t : Z).                                         (* other events of the simulator *)

(** The event [e] fires: it is due, the clock moves to its tick, it leaves the
    scheduler and its handler runs. *)
Definition fire (e : wq_event) (h : W unit) : W unit := fun w =>
  match s_pending (wq_sched w) !! e with
  | Some t =>
      if bool_decide (map_Forall (fun _ t' => t <= t') (s_pending (wq_sched w)))
      then h (upd_sched (s_service e t (wq_sched w)) w)
      else Err (EUndefined "not the next event")
  | None => Err (EUndefined "not scheduled")
  end.

Definition wq_step (i : wq_input) : W unit :=
  match i with
  | IReq p port => recvTimingReq p port;; mret tt
  | IRelease pp qp => fire ReleaseEvent (release pp qp)
  | IDequeue a r => fire DequeueEvent (dequeue a r)
  | IRespRetry a r => recvRespRetry a r
  | ITime t => fun w =>
      if (curTick w <=? t)
         && bool_decide (map_Forall (fun _ t' => t <= t') (s_pending (wq_sched w)))
      then Ok (tt, upd_sched (mkSched t (s_pending (wq_sched w))) w)
      else Err (EUndefined "time may not pass a pending event")
  end.
