(* ===== verification/WorkQueueProps.v ===== *)
(** * Properties of the work queue

    The invariant of the flags, events and retries; that every well-formed
    request is handled without panic or failed assertion; that the values read
    on the pop port are the values written on the push port, in order. *)

From S2P Require Import Prelude EventSched Drain Packet WorkQueue.

(** Read and write requests as the two ports see them: a 4-byte plain read on
    the pop port, a 4-byte plain write on the push port. *)
Record wf_req (p : Packet) (port : WorkQueuePort_e) : Prop := {
  wr_size : pk_size p = 4;
  wr_resp : pk_cacheResponding p = false;
  wr_req : isRequest (pk_cmd p) = true;
  wr_llsc : isLLSC (pk_cmd p) = false;
  wr_dir : match port with
           | PopPortType => isRead (pk_cmd p) = true /\ isWrite (pk_cmd p) = false
           | PushPortType => isRead (pk_cmd p) = false /\ isWrite (pk_cmd p) = true
           end
}.

Lemma read_needs_response c :
  isRead c = true -> isRequest c = true -> needsResponse c = true.
Proof. by destruct c. Qed.

(** What was written and what was (or will be) read. *)
Definition pushed (l : list Packet) : list Z :=
  map (fun p => u32 (pk_data p)) (filter (fun p => isWrite (pk_cmd p) = true) l).
Definition read_data (l : list (WorkQueuePort_e * Packet)) : list Z :=
  map (fun x => pk_data x.2) (filter (fun x => isRead (pk_cmd x.2) = true) l).
Definition deferred (l : list DeferredPacket) : list (WorkQueuePort_e * Packet) :=
  map (fun d => (dp_portType d, dp_pkt d)) l.

Definition sched_is (e : wq_event) (w : WorkQueue) : bool := s_scheduled e (wq_sched w).

Section Invariant.
Context (size : Z).

(** The part of the invariant that also holds inside the handlers. *)
Record WInv0 (w : WorkQueue) : Prop := {
  wi_size : 0 < wq_size w < 2 ^ 31;
  wi_sz : wq_size w = size;
  wi_len : Z.of_nat (length (workQ w)) <= wq_size w;
  wi_empty : isEmpty w = bool_decide (workQ w = []);
  wi_full : isFull w = at_capacity w;
  wi_busy : isBusy w = sched_is ReleaseEvent w;
  wi_lat : 0 <= latency w;
  wi_now : 0 <= curTick w;
  wi_past : s_wf (wq_sched w);
  wi_stats : pushes w - pops w = Z.of_nat (length (workQ w));
  wi_fifo : pushed (wq_accepted w)
            = read_data (wq_sent w ++ deferred (packetQueue w)) ++ workQ w
}.

(** A refused port will be retried: the queue is busy (and the release event
    is pending), or it is in the state that caused the refusal. *)
Definition RPop (w : WorkQueue) : Prop := retryPop w = true -> isBusy w || isEmpty w = true.
Definition RPush (w : WorkQueue) : Prop := retryPush w = true -> isBusy w || isFull w = true.

(** A waiting response has its dequeue event pending, or awaits a retry. *)
Definition PQ (w : WorkQueue) : Prop :=
  bool_decide (packetQueue w <> []) = xorb (retryResp w) (sched_is DequeueEvent w)
  /\ (retryResp w && sched_is DequeueEvent w = false).

Record WInv (w : WorkQueue) : Prop := {
  wi_core : WInv0 w; wi_rpop : RPop w; wi_rpush : RPush w; wi_pq : PQ w
}.

(** Room for one more latency before the 64-bit clock wraps. *)
Definition no_wrap (w : WorkQueue) : Prop := curTick w + latency w < 2 ^ 64.

Lemma at_capacity_eq w : 0 < wq_size w < 2 ^ 31 ->
  at_capacity w = (Z.of_nat (length (workQ w)) =? wq_size w).
Proof. intros. unfold at_capacity. by rewrite u64_small by lia. Qed.

Lemma filter_snoc {A} (P : A -> Prop) `{forall x, Decision (P x)} l x :
  filter P (l ++ [x]) = filter P l ++ (if decide (P x) then [x] else []).
Proof. rewrite filter_app. simpl. unfold filter; simpl. by case_decide. Qed.

(** The packet as [access] leaves it. *)
Definition respond (p : Packet) : Packet :=
  if needsResponse (pk_cmd p) then set_pk_cmd (responseCommand (pk_cmd p)) p else p.

Lemma respond_run (p : Packet) (w : WorkQueue) :
  isRequest (pk_cmd p) = true ->
  (if needsResponse (pk_cmd p) then lift (makeResponse p) else mret p) w = Ok (respond p, w).
Proof.
  unfold respond, makeResponse. intros ->. by destruct (needsResponse (pk_cmd p)).
Qed.

Lemma respond_attrs p :
  isRequest (pk_cmd p) = true ->
  isRead (pk_cmd (respond p)) = isRead (pk_cmd p) /\ pk_data (respond p) = pk_data p
  /\ (needsResponse (pk_cmd p) = true -> isResponse (pk_cmd (respond p)) = true).
Proof. unfold respond. destruct p as [c a s d r]; simpl. by destruct c. Qed.

(** The state after the access: new queue and counters, flags recomputed. *)
Definition accessed (q' : list Z) (po pu : Z) (w : WorkQueue) : WorkQueue :=
  let w1 := upd_stats po pu (upd_workQ q' w) in
  upd_flags (isBusy w1) (bool_decide (workQ w1 = [])) (at_capacity w1) w1.

Lemma access_push w p :
  wf_req p PushPortType -> at_capacity w = false ->
  access p w = Ok (respond p, accessed (workQ w ++ [u32 (pk_data p)]) (pops w) (pushes w + 1) w).
Proof.
  intros [Hs _ Hr Hl [Hrd Hwr]] Hc.
  unfold access, writeOK. rewrite Hl, Hs, Hrd, Hwr. rewrite !bind_panic_if by done.
  rewrite bind_assoc, bind_gets, Hc, bind_assoc, bind_panic_if by done.
  rewrite bind_assoc, bind_modify, bind_assoc, bind_modify, bind_ret.
  rewrite (bind_run _ _ _ _ _ (respond_run p _ Hr)), bind_modify. done.
Qed.

Lemma access_pop w p v rest :
  wf_req p PopPortType -> workQ w = v :: rest ->
  access p w = Ok (respond (set_pk_data v p), accessed rest (pops w + 1) (pushes w) w).
Proof.
  intros [Hs _ Hr Hl [Hrd Hwr]] Hq.
  unfold access, writeOK. rewrite Hl, Hs, Hrd, Hwr. rewrite !bind_panic_if by done.
  rewrite bind_assoc, bind_assert by done. rewrite bind_assoc, bind_panic_if by done.
  rewrite bind_assoc, bind_gets, Hq.
  rewrite bind_assoc, bind_modify, bind_assoc, bind_modify, bind_ret.
  rewrite (bind_run _ _ _ _ _ (respond_run (set_pk_data v p) _ Hr)), bind_modify. done.
Qed.

(** *** One request *)

(** The state an accepted request leaves before its response is queued. *)
Lemma refuse_none_pop w : WInv0 w -> refuse PopPortType w = None ->
  retryPop w = false /\ isBusy w = false /\ workQ w <> [].
Proof.
  intros Hinv. unfold refuse. rewrite (wi_empty _ Hinv).
  destruct (retryPop w), (isBusy w); simpl; try done; rewrite ?andb_false_r; simpl; try done.
  case_bool_decide; naive_solver.
Qed.

Lemma refuse_none_push w : WInv0 w -> refuse PushPortType w = None ->
  retryPush w = false /\ isBusy w = false /\ isFull w = false.
Proof.
  unfold refuse. destruct (retryPush w), (isBusy w), (isFull w); simpl;
    rewrite ?andb_false_r; simpl; naive_solver.
Qed.

(** The state after an accepted request: [q'], [po], [pu] are the queue and
    counters after the access, [p'] the packet as the access left it. *)
Definition accept_result (w : WorkQueue) (p p' : Packet) (port : WorkQueuePort_e)
    (q' : list Z) (po pu : Z) : WorkQueue :=
  let t := u64 (curTick w + latency w) in
  let s1 := mkSched (curTick w) (<[ReleaseEvent := t]> (s_pending (wq_sched w))) in
  let resp := needsResponse (pk_cmd p) in
  let s2 := if resp && (negb (retryResp w) && negb (s_scheduled DequeueEvent s1))
            then mkSched (curTick w) (<[DequeueEvent := t]> (s_pending s1)) else s1 in
  mkWQ q' (wq_size w) (latency w)
    (if resp then packetQueue w ++ [mkDeferred t p' port] else packetQueue w)
    true (bool_decide (q' = [])) (Z.of_nat (length q') =? u64 (wq_size w))
    (retryPop w) (retryPush w) (retryResp w) (popPortAddr w) (pushPortAddr w)
    (if resp then pendingDelete w else Some p') po pu (wq_drainState w) s2
    (wq_accepted w ++ [p]) (wq_sent w).

Lemma tick_future w : WInv0 w -> no_wrap w ->
  u64 (curTick w + latency w) = curTick w + latency w
  /\ curTick w <= u64 (curTick w + latency w).
Proof. intros [] Hw. unfold no_wrap in Hw. rewrite u64_small; lia. Qed.

Lemma recv_accept w p p' port q' po pu :
  WInv0 w -> no_wrap w -> wf_req p port -> refuse port w = None -> isBusy w = false ->
  (forall w0, workQ w0 = workQ w -> at_capacity w0 = at_capacity w ->
     pops w0 = pops w -> pushes w0 = pushes w ->
     access p w0 = Ok (p', accessed q' po pu w0)) ->
  (needsResponse (pk_cmd p) = true -> isResponse (pk_cmd p') = true) ->
  recvTimingReq p port w = Ok (true, accept_result w p p' port q' po pu).
Proof.
  intros Hinv Hw Hreq Href Hbusy Hacc Hresp.
  destruct (tick_future w Hinv Hw) as [_ Hle].
  unfold recvTimingReq. rewrite bind_panic_if by apply Hreq.
  do 2 rewrite bind_panic_if
    by (destruct Hreq as [_ _ _ _ Hd]; destruct port, Hd as [Hd1 Hd2]; by rewrite ?Hd1, ?Hd2).
  rewrite bind_gets, Href, !bind_gets. unfold getLatency.
  erewrite bind_run; cycle 1.
  { unfold on_sched. rewrite s_schedule_fresh; [reflexivity|done|].
    rewrite (wi_busy _ Hinv) in Hbusy. exact Hbusy. }
  rewrite bind_modify. unfold recvAtomic.
  unfold mbind at 1, M_bind at 1. rewrite bind_panic_if by apply Hreq.
  erewrite bind_run; cycle 1.
  { apply Hacc; reflexivity. }
  rewrite bind_gets. unfold mret at 1, M_ret at 1.
  unfold accept_result. destruct (needsResponse (pk_cmd p)) eqn:Hn.
  - unfold assert_. rewrite (Hresp eq_refl).
    rewrite bind_assoc, bind_ret, bind_assoc, bind_modify, bind_assoc, bind_gets,
      bind_assoc, bind_gets.
    cbn -[s_scheduled s_schedule u64 at_capacity].
    destruct (negb (retryResp w) && _) eqn:Hc; [|reflexivity].
    apply andb_true_iff in Hc as [_ Hs%negb_true_iff].
    unfold when_. erewrite bind_run; cycle 1.
    { unfold on_sched. rewrite s_schedule_fresh; [reflexivity|exact Hle|exact Hs]. }
    reflexivity.
  - unfold mbind, M_bind, mret, M_ret, modify; cbn. reflexivity.
Qed.

(** What handling a request guarantees, accepted ([b = true]) or not. *)
Record recv_post (w w' : WorkQueue) (b : bool) : Prop := {
  rp_inv : WInv0 w';
  rp_pop : RPop w -> RPop w';
  rp_push : RPush w -> RPush w';
  rp_pq : PQ w -> PQ w';
  rp_app : exists l, packetQueue w' = packetQueue w ++ l
             /\ (sched_is DequeueEvent w' = true -> sched_is DequeueEvent w = true \/ l <> []);
  rp_resp : retryResp w' = retryResp w;
  rp_tick : curTick w' = curTick w;
  rp_lat : latency w' = latency w;
  rp_sent : wq_sent w' = wq_sent w;
  rp_busy : b = true -> isBusy w' = true
}.

Lemma recv_post_trans w w1 w2 b1 b2 :
  recv_post w w1 b1 -> recv_post w1 w2 b2 -> recv_post w w2 b2.
Proof.
  intros [? ? ? ? (l1 & H1 & Hd1) ? ? ? ? ?] [? ? ? ? (l2 & H2 & Hd2) ? ? ? ? ?].
  split; try (by auto); try congruence.
  exists (l1 ++ l2). split; [by rewrite H2, H1, app_assoc|]. intros Hs.
  destruct (Hd2 Hs) as [Hs1|]; [|right; by destruct l1].
  destruct (Hd1 Hs1) as [|]; [by left|right; by destruct l1].
Qed.

Lemma recv_post_refl w b : WInv0 w -> (b = true -> isBusy w = true) -> recv_post w w b.
Proof. intros. split; try done. exists []. by rewrite app_nil_r; auto. Qed.

(** Refusals. *)
Lemma refuse_post w port w' : WInv0 w -> refuse port w = Some w' -> recv_post w w' false.
Proof.
  intros Hinv Hr.
  assert (w' = w \/ (port = PopPortType /\ w' = upd_retry true (retryPush w) (retryResp w) w
            /\ isBusy w || isEmpty w = true)
          \/ (port = PushPortType /\ w' = upd_retry (retryPop w) true (retryResp w) w
            /\ isBusy w || isFull w = true)) as Hc.
  { unfold refuse in Hr. destruct (_ || _); [naive_solver|].
    destruct port, (isBusy w), (isEmpty w), (isFull w); naive_solver. }
  destruct Hc as [->|[(-> & -> & Hb)|(-> & -> & Hb)]];
    [by apply recv_post_refl| |]; destruct Hinv;
    (split; [by split|first [done|by intros _ _]|first [done|by intros _ _]|done|..]; try done;
     exists []; rewrite app_nil_r; auto).
Qed.

Lemma read_data_app l1 l2 : read_data (l1 ++ l2) = read_data l1 ++ read_data l2.
Proof. unfold read_data. by rewrite filter_app, map_app. Qed.

Lemma read_data_one port p :
  read_data [(port, p)] = if isRead (pk_cmd p) then [pk_data p] else [].
Proof.
  unfold read_data, filter; simpl. destruct (isRead (pk_cmd p)); by case_decide.
Qed.

Lemma pushed_snoc l p :
  pushed (l ++ [p]) = pushed l ++ (if isWrite (pk_cmd p) then [u32 (pk_data p)] else []).
Proof.
  unfold pushed. rewrite filter_app, map_app. f_equal. unfold filter; simpl.
  destruct (isWrite (pk_cmd p)); by case_decide.
Qed.

Lemma deferred_app l1 l2 : deferred (l1 ++ l2) = deferred l1 ++ deferred l2.
Proof. apply map_app. Qed.

(** Acceptances. *)
Lemma accept_sched w p p' port q' po pu :
  let w' := accept_result w p p' port q' po pu in
  sched_is ReleaseEvent w' = true /\
  sched_is DequeueEvent w'
    = sched_is DequeueEvent w || (needsResponse (pk_cmd p) && negb (retryResp w)).
Proof.
  assert (forall e, s_scheduled e (wq_sched w)
    = s_scheduled e (mkSched (curTick w) (s_pending (wq_sched w)))) as Heta by done.
  unfold sched_is, accept_result; simpl.
  destruct (needsResponse (pk_cmd p)), (retryResp w); cbn [negb andb];
    rewrite ?s_scheduled_insert, <- ?Heta; try done;
    destruct (s_scheduled DequeueEvent (wq_sched w)) eqn:Hd; simpl;
    rewrite ?s_scheduled_insert, <- ?Heta, ?Hd; done.
Qed.

Lemma accept_tick w p p' port q' po pu :
  curTick (accept_result w p p' port q' po pu) = curTick w.
Proof. unfold accept_result, curTick; simpl. by destruct (needsResponse _ && _). Qed.

Lemma accept_post w p p' port q' po pu :
  WInv0 w -> no_wrap w -> isBusy w = false ->
  Z.of_nat (length q') <= wq_size w -> pu - po = Z.of_nat (length q') ->
  pushed (wq_accepted w ++ [p])
    = read_data (wq_sent w ++ deferred (packetQueue (accept_result w p p' port q' po pu))) ++ q' ->
  recv_post w (accept_result w p p' port q' po pu) true.
Proof.
  intros Hinv Hw Hbusy Hlen Hst Hfifo.
  destruct (tick_future w Hinv Hw) as [_ Hle].
  destruct (accept_sched w p p' port q' po pu) as [Hrel Hdeq].
  split.
  - split; try done; try apply Hinv.
    + rewrite accept_tick. apply Hinv.
    + unfold s_wf. change (s_now _) with (curTick (accept_result w p p' port q' po pu)).
      rewrite accept_tick. unfold accept_result; simpl.
      clear Hdeq. destruct (needsResponse _ && _); simpl;
        repeat (apply map_Forall_insert_2; [done|]); apply Hinv.
  - done.
  - done.
  - intros [Hpq Hx]. unfold PQ. rewrite Hdeq.
    assert (retryResp (accept_result w p p' port q' po pu) = retryResp w) as -> by done.
    unfold accept_result; simpl. destruct (needsResponse (pk_cmd p)).
    + rewrite bool_decide_eq_true_2 by (by destruct (packetQueue w)).
      destruct (retryResp w), (sched_is DequeueEvent w); done.
    + simpl. rewrite orb_false_r. done.
  - unfold accept_result; simpl. exists (if needsResponse (pk_cmd p) then [mkDeferred (u64 (curTick w + latency w)) p' port] else []).
    split; [destruct (needsResponse _); [done|by rewrite app_nil_r]|].
    intros Hd. change (sched_is DequeueEvent (accept_result w p p' port q' po pu) = true) in Hd.
    rewrite Hdeq in Hd. destruct (needsResponse (pk_cmd p)); [by right|].
    rewrite orb_false_r in Hd. by left.
  - done.
  - apply accept_tick.
  - done.
  - done.
  - done.
Qed.

(** Any well-formed request is handled: no panic, no failed assertion. *)
Lemma recv_pop w p v rest :
  WInv0 w -> no_wrap w -> wf_req p PopPortType -> refuse PopPortType w = None ->
  workQ w = v :: rest ->
  exists w', recvTimingReq p PopPortType w = Ok (true, w') /\ recv_post w w' true.
Proof.
  intros Hinv Hw Hreq Href Hq. destruct (refuse_none_pop w Hinv Href) as (_ & Hbusy & _).
  pose proof Hreq as [_ _ Hr _ [Hr1 Hr2]].
  destruct (respond_attrs (set_pk_data v p) Hr) as (Hrd & Hd & Hresp).
  eexists. split.
  - apply (recv_accept w p (respond (set_pk_data v p)) _ rest (pops w + 1) (pushes w)); try done.
    intros w0 Hq0 _ <- <-. apply access_pop; [done|congruence].
  - pose proof (wi_len _ Hinv) as Hlen. pose proof (wi_stats _ Hinv) as Hst.
    rewrite Hq in Hlen, Hst; simpl in Hlen, Hst.
    apply accept_post; [done..|lia|lia|].
    rewrite pushed_snoc, Hr2, app_nil_r, (wi_fifo _ Hinv), Hq. unfold accept_result; simpl.
    rewrite (read_needs_response _ Hr1 Hr), deferred_app, app_assoc, (read_data_app (_ ++ _)).
    change (deferred [_]) with [(PopPortType, respond (set_pk_data v p))].
    rewrite read_data_one, Hrd, Hd, <- app_assoc. simpl. by rewrite Hr1.
Qed.

Lemma recv_push w p :
  WInv0 w -> no_wrap w -> wf_req p PushPortType -> refuse PushPortType w = None ->
  exists w', recvTimingReq p PushPortType w = Ok (true, w') /\ recv_post w w' true.
Proof.
  intros Hinv Hw Hreq Href. destruct (refuse_none_push w Hinv Href) as (_ & Hbusy & Hf).
  rewrite (wi_full _ Hinv) in Hf. pose proof Hreq as [_ _ Hr _ [Hr1 Hr2]].
  destruct (respond_attrs p Hr) as (Hrd & Hd & Hresp).
  eexists. split.
  - apply (recv_accept w p (respond p) _ (workQ w ++ [u32 (pk_data p)]) (pops w) (pushes w + 1));
      try done.
    intros w0 <- Hc <- <-. apply access_push; [done|congruence].
  - rewrite at_capacity_eq in Hf by apply Hinv.
    pose proof (wi_len _ Hinv). pose proof (wi_stats _ Hinv).
    apply accept_post; [done..| | |]; rewrite ?length_app; simpl; try lia.
    rewrite pushed_snoc, Hr2, (wi_fifo _ Hinv), <- app_assoc. f_equal.
    unfold accept_result; simpl. destruct (needsResponse (pk_cmd p)); [|done].
    rewrite deferred_app, app_assoc, (read_data_app (_ ++ _)).
    change (deferred [_]) with [(PushPortType, respond p)].
    by rewrite read_data_one, Hrd, Hr1, app_nil_r.
Qed.

Lemma recv_spec w p port :
  WInv0 w -> no_wrap w -> wf_req p port ->
  exists b w', recvTimingReq p port w = Ok (b, w') /\ recv_post w w' b.
Proof.
  intros Hinv Hw Hreq. destruct (refuse port w) as [w'|] eqn:Href.
  - exists false, w'. split; [|by eapply refuse_post].
    unfold recvTimingReq. rewrite bind_panic_if by apply Hreq.
    do 2 rewrite bind_panic_if
      by (destruct Hreq as [_ _ _ _ Hd]; destruct port, Hd as [Hd1 Hd2]; by rewrite ?Hd1, ?Hd2).
    by rewrite bind_gets, Href.
  - exists true. destruct port; [|by apply recv_push].
    destruct (refuse_none_pop w Hinv Href) as (_ & _ & Hne).
    destruct (workQ w) as [|v rest] eqn:Hq; [done|]. by eapply recv_pop.
Qed.

(** *** Requests sent from inside a callback *)

Lemma reent_spec (l : list (WorkQueuePort_e * Packet)) w :
  WInv0 w -> no_wrap w -> Forall (fun x => wf_req x.2 x.1) l ->
  exists w', forM_ l (fun x => recvTimingReq x.2 x.1;; mret tt) w = Ok (tt, w')
    /\ recv_post w w' false.
Proof.
  intros Hinv Hw Hl. revert w Hinv Hw.
  induction Hl as [|[port p] l Hp _ IH]; intros w Hinv Hw; simpl.
  - exists w. split; [done|]. by apply recv_post_refl.
  - destruct (recv_spec w p port) as (b & w1 & Hrun & Hpost); [done..|].
    destruct (IH w1) as (w' & Hrun' & Hpost'); [apply Hpost| |].
    { unfold no_wrap in *. by rewrite (rp_tick _ _ _ Hpost), (rp_lat _ _ _ Hpost). }
    exists w'. rewrite bind_assoc, (bind_run _ _ _ _ _ Hrun), bind_ret.
    split; [done|]. by eapply recv_post_trans.
Qed.

Lemma sendRetryReq_spec port (l : list Packet) w :
  WInv0 w -> no_wrap w -> Forall (fun p => wf_req p port) l ->
  exists w', sendRetryReq port l w = Ok (tt, w') /\ recv_post w w' false.
Proof.
  intros Hinv Hw Hl. destruct (reent_spec (map (pair port) l) w) as (w' & Hr & Hp); [done|done| |].
  { by apply Forall_map. }
  exists w'. split; [|done]. rewrite <- Hr. clear. unfold sendRetryReq.
  revert w. induction l as [|p l IH]; intros w; simpl; [done|].
  unfold mbind, M_bind. destruct (recvTimingReq p port w) as [[b w1]|e]; simpl; [apply IH|done].
Qed.

Lemma no_wrap_post w w' b : recv_post w w' b -> no_wrap w -> no_wrap w'.
Proof. unfold no_wrap. intros Hp. by rewrite (rp_tick _ _ _ Hp), (rp_lat _ _ _ Hp). Qed.

(** One retry phase of [release]. *)
Lemma retry_phase w port (l : list Packet) (flag : bool) (clear : WorkQueue -> WorkQueue) :
  WInv0 w -> no_wrap w -> Forall (fun p => wf_req p port) l ->
  (flag = true -> WInv0 (clear w) /\ no_wrap (clear w)) ->
  exists w1, when_ flag (modify clear;; sendRetryReq port l) w = Ok (tt, w1)
    /\ recv_post (if flag then clear w else w) w1 false.
Proof.
  intros Hinv Hw Hl Hc. destruct flag; simpl when_.
  - destruct Hc as [Hc Hcw]; [done|]. rewrite bind_modify. by apply sendRetryReq_spec.
  - exists w. split; [done|]. by apply recv_post_refl.
Qed.

Lemma upd_retry_inv w a b c : WInv0 w -> WInv0 (upd_retry a b c w).
Proof. by intros []. Qed.

Lemma wq_release_spec w pop_peer push_peer :
  WInv0 (upd_flags false (isEmpty w) (isFull w) w) -> PQ w -> no_wrap w ->
  Forall (fun p => wf_req p PopPortType) pop_peer ->
  Forall (fun p => wf_req p PushPortType) push_peer ->
  exists w', release pop_peer push_peer w = Ok (tt, w') /\ WInv w'.
Proof.
  intros Hinv Hpq Hw Hpp Hqp. unfold release. rewrite bind_modify.
  set (w0 := upd_flags false (isEmpty w) (isFull w) w) in *. rewrite bind_gets.
  destruct (retry_phase w0 PopPortType pop_peer (retryPop w0)
    (fun w => upd_retry false (retryPush w) (retryResp w) w)) as (w1 & Hr1 & Hp1); [done..| |].
  { intros _. split; [by apply upd_retry_inv|done]. }
  rewrite (bind_run _ _ _ _ _ Hr1), bind_gets.
  set (w0' := if retryPop w0 then _ else w0) in Hp1.
  assert (no_wrap w0' /\ PQ w0' /\ RPop w0') as (Hw0 & Hpq0 & Hrp0).
  { unfold w0', RPop. destruct (retryPop w0) eqn:E; split_and!; try done.
    intros Heq. congruence. }
  destruct (retry_phase w1 PushPortType push_peer (retryPush w1)
    (fun w => upd_retry (retryPop w) false (retryResp w) w)) as (w2 & Hr2 & Hp2).
  { apply Hp1. } { by eapply no_wrap_post. } { done. }
  { intros _. split; [apply upd_retry_inv, Hp1|]. by eapply no_wrap_post in Hp1. }
  exists w2. rewrite Hr2. split; [done|].
  set (w1' := if retryPush w1 then _ else w1) in Hp2.
  assert (PQ w1' /\ RPop w1' /\ RPush w1') as (Hpq1 & Hrp1 & Hrq1).
  { pose proof (rp_pq _ _ _ Hp1 Hpq0) as H1. pose proof (rp_pop _ _ _ Hp1 Hrp0) as H2.
    unfold w1', RPush. destruct (retryPush w1) eqn:E; split_and!; try done.
    intros Heq. congruence. }
  split; [apply Hp2|by apply Hp2..].
Qed.

(** *** Sending responses *)

Lemma sendTimingResp_run port p accept reent w w1 :
  forM_ reent (fun x => recvTimingReq x.2 x.1;; mret tt) w = Ok (tt, w1) ->
  sendTimingResp port p accept reent w
  = Ok (accept, if accept then upd_sent (wq_sent w1 ++ [(port, p)]) w1 else w1).
Proof. intros Hr. unfold sendTimingResp. rewrite (bind_run _ _ _ _ _ Hr). by destruct accept. Qed.

(** The state once the head response has been taken. *)
Definition taken (d : DeferredPacket) (w : WorkQueue) : WorkQueue :=
  upd_packetQueue (tail (packetQueue w))
    (upd_retry (retryPop w) (retryPush w) false
       (upd_sent (wq_sent w ++ [(dp_portType d, dp_pkt d)]) w)).

Lemma taken_inv d rest w : WInv0 w -> packetQueue w = d :: rest -> WInv0 (taken d w).
Proof.
  intros [] Hq. split; try done. unfold taken; simpl. rewrite Hq; simpl.
  rewrite <- app_assoc. by rewrite Hq in wi_fifo0.
Qed.

(** The tail of [dequeue] after a response was taken. *)
Lemma dequeue_next w :
  WInv0 w -> retryResp w = false -> (packetQueue w = [] -> sched_is DequeueEvent w = false) ->
  RPop w -> RPush w ->
  exists w', (pq' ← gets packetQueue; now ← gets curTick;
    match pq' with
    | d' :: _ => on_sched (s_reschedule DequeueEvent (Z.max (dp_tick d') now) true)
    | [] => ds ← gets wq_drainState; when_ (bool_decide (ds = Draining)) signalDrainDone
    end) w = Ok (tt, w') /\ WInv w' /\ wq_sent w' = wq_sent w.
Proof.
  intros Hinv Hr Hs Hrp Hrq. rewrite !bind_gets. destruct (packetQueue w) as [|d' l] eqn:Hq.
  - rewrite bind_gets. specialize (Hs eq_refl).
    assert (WInv w) as Hw.
    { split; [done..|]. split; [|by rewrite Hs, andb_false_r].
      by rewrite Hq, Hs, Hr, bool_decide_eq_false_2 by naive_solver. }
    case_bool_decide as Hd; simpl; [|by exists w].
    unfold signalDrainDone, modify. rewrite decide_True by done.
    eexists. split; [done|]. split; [|done]. by destruct Hw as [[] ? ? ?].
  - unfold on_sched, s_reschedule. change (s_now (wq_sched w)) with (curTick w).
    rewrite (proj2 (Z.leb_le _ _)) by lia. simpl.
    eexists. split; [done|]. split; [|done].
    set (w' := upd_sched _ w).
    assert (forall e, sched_is e w' = bool_decide (e = DequeueEvent) || sched_is e w) as Hsc.
    { intros e. unfold sched_is, w'; simpl. by rewrite s_scheduled_insert. }
    destruct Hinv. split.
    + split; try done.
      * rewrite Hsc. done.
      * unfold s_wf, w'; simpl. apply map_Forall_insert_2; [unfold curTick; lia|done].
    + done.
    + done.
    + unfold PQ. rewrite Hsc. unfold w'; simpl. rewrite Hq, Hr. done.
Qed.

Lemma dequeue_spec w accept reent d rest :
  WInv0 w -> RPop w -> RPush w -> no_wrap w -> packetQueue w = d :: rest ->
  sched_is DequeueEvent w = false ->
  Forall (fun x => wf_req x.2 x.1) reent -> (accept = false -> reent = []) ->
  exists w', dequeue accept reent w = Ok (tt, w') /\ WInv w'
    /\ wq_sent w' = wq_sent w ++ (if accept then [(dp_portType d, dp_pkt d)] else []).
Proof.
  intros Hinv Hrp Hrq Hw Hq Hs Hre Hacc. unfold dequeue. rewrite bind_gets, Hq.
  destruct (reent_spec reent w) as (w1 & Hr1 & Hp1); [done..|].
  rewrite (bind_run _ _ _ _ _ (sendTimingResp_run _ _ accept _ _ _ Hr1)), bind_modify.
  destruct accept; simpl when_.
  - destruct (rp_app _ _ _ Hp1) as (l & Hpq1 & Hd1). rewrite Hq in Hpq1; simpl in Hpq1.
    rewrite bind_modify. change (upd_packetQueue _ _) with (taken d w1).
    destruct (dequeue_next (taken d w1)) as (w' & Hrun & Hinv' & Hsent).
    + eapply taken_inv; [apply Hp1|done].
    + done.
    + unfold taken; simpl. rewrite Hpq1; simpl. intros [-> ->]%app_nil.
      destruct (sched_is DequeueEvent w1) eqn:E; [|done].
      by destruct (Hd1 eq_refl); [congruence|].
    + exact (rp_pop _ _ _ Hp1 Hrp).
    + exact (rp_push _ _ _ Hp1 Hrq).
    + exists w'. split; [done|]. split; [done|]. rewrite Hsent. simpl.
      by rewrite (rp_sent _ _ _ Hp1).
  - rewrite Hacc in Hr1 by done. simpl in Hr1. injection Hr1 as <-.
    eexists. split; [done|]. split; [|by rewrite app_nil_r].
    split; [by apply upd_retry_inv|done|done|].
    unfold PQ; simpl. rewrite Hq. change (sched_is DequeueEvent _) with (sched_is DequeueEvent w).
    by rewrite Hs.
Qed.

(** *** Steps *)

(** The state in which an event's handler starts. *)
Definition serviced (e : wq_event) (t : Z) (w : WorkQueue) : WorkQueue :=
  upd_sched (s_service e t (wq_sched w)) w.

Lemma fire_run e h t w :
  s_due e t (wq_sched w) -> fire e h w = h (serviced e t w).
Proof. intros [He Hd]. unfold fire. rewrite He. by rewrite bool_decide_eq_true_2. Qed.

(** Firing the release event while the busy flag still stands for it. *)
Lemma serviced_release_inv t w :
  WInv w -> s_due ReleaseEvent t (wq_sched w) ->
  let w0 := serviced ReleaseEvent t w in
  WInv0 (upd_flags false (isEmpty w0) (isFull w0) w0) /\ PQ w0.
Proof.
  intros [[] ? ? Hpq] Hd. simpl. split.
  - split; try done.
    + unfold sched_is; simpl. by rewrite s_service_scheduled.
    + unfold curTick; simpl. destruct Hd as [Hl _]. specialize (wi_past0 _ _ Hl). unfold curTick in *. lia.
    + by apply s_service_wf.
  - unfold PQ, sched_is; simpl. rewrite s_service_scheduled. exact Hpq.
Qed.

Lemma serviced_dequeue_inv t w :
  WInv w -> s_due DequeueEvent t (wq_sched w) ->
  let w0 := serviced DequeueEvent t w in
  WInv0 w0 /\ RPop w0 /\ RPush w0 /\ packetQueue w0 <> [] /\ sched_is DequeueEvent w0 = false.
Proof.
  intros [[] ? ? [Hpq Hx]] Hd. simpl. split_and!; try done.
  - split; try done.
    + unfold sched_is; simpl. by rewrite s_service_scheduled.
    + unfold curTick; simpl. destruct Hd as [Hl _]. specialize (wi_past0 _ _ Hl). unfold curTick in *. lia.
    + by apply s_service_wf.
  - simpl. unfold sched_is in *. rewrite (s_due_scheduled _ _ _ Hd), ?andb_true_r in *.
    rewrite Hx in Hpq. by apply bool_decide_eq_true_1 in Hpq.
  - unfold sched_is; simpl. by rewrite s_service_scheduled.
Qed.

(** What the environment of the queue may do in state [w]: requests are 4-byte
    reads and writes, events fire when due, a response retry follows a refused
    response, and a port that refuses a response sends nothing meanwhile. *)
Definition wf_input (w : WorkQueue) (i : wq_input) : Prop :=
  match i with
  | IReq p port => wf_req p port /\ no_wrap w
  | IRelease pp qp =>
      (exists t, s_due ReleaseEvent t (wq_sched w) /\ t + latency w < 2 ^ 64)
      /\ Forall (fun p => wf_req p PopPortType) pp
      /\ Forall (fun p => wf_req p PushPortType) qp
  | IDequeue a r =>
      (exists t, s_due DequeueEvent t (wq_sched w) /\ t + latency w < 2 ^ 64)
      /\ Forall (fun x => wf_req x.2 x.1) r /\ (a = false -> r = [])
  | IRespRetry a r =>
      retryResp w = true /\ no_wrap w
      /\ Forall (fun x => wf_req x.2 x.1) r /\ (a = false -> r = [])
  | ITime t => curTick w <= t /\ map_Forall (fun _ t' => t <= t') (s_pending (wq_sched w))
  end.

Lemma step_req w p port : WInv w -> wf_req p port -> no_wrap w ->
  exists w', wq_step (IReq p port) w = Ok (tt, w') /\ WInv w'.
Proof.
  intros [Hi Hp Hq Hpq] Hreq Hw. destruct (recv_spec w p port) as (b & w' & Hr & Hpost); [done..|].
  exists w'. unfold wq_step. rewrite (bind_run _ _ _ _ _ Hr). split; [done|].
  split; [apply Hpost|by apply Hpost..].
Qed.

Lemma step_dequeue w a r t : WInv w -> s_due DequeueEvent t (wq_sched w) -> t + latency w < 2 ^ 64 ->
  Forall (fun x => wf_req x.2 x.1) r -> (a = false -> r = []) ->
  exists w', wq_step (IDequeue a r) w = Ok (tt, w') /\ WInv w'.
Proof.
  intros Hinv Hd Ht Hr Ha. unfold wq_step. rewrite (fire_run _ _ _ _ Hd).
  destruct (serviced_dequeue_inv _ _ Hinv Hd) as (H0 & H1 & H2 & H3 & H4).
  destruct (packetQueue (serviced DequeueEvent t w)) as [|d rest] eqn:Hq; [done|].
  destruct (dequeue_spec _ a r d rest H0 H1 H2 Ht Hq H4 Hr Ha) as (w' & ? & ? & _). eauto.
Qed.

Lemma step_retry w a r : WInv w -> retryResp w = true -> no_wrap w ->
  Forall (fun x => wf_req x.2 x.1) r -> (a = false -> r = []) ->
  exists w', wq_step (IRespRetry a r) w = Ok (tt, w') /\ WInv w'.
Proof.
  intros [H0 H1 H2 [Hpq Hx]] Hrr Hw Hr Ha. unfold wq_step, recvRespRetry.
  rewrite bind_gets, Hrr, bind_assert by done. rewrite Hrr in Hpq, Hx.
  simpl in Hx. rewrite Hx in Hpq. apply bool_decide_eq_true_1 in Hpq.
  destruct (packetQueue w) as [|d rest] eqn:Hq; [done|].
  destruct (dequeue_spec _ a r d rest H0 H1 H2 Hw Hq Hx Hr Ha) as (w' & ? & ? & _). eauto.
Qed.

Lemma wq_step_ok w i : WInv w -> wf_input w i -> exists w', wq_step i w = Ok (tt, w') /\ WInv w'.
Proof.
  intros Hinv Hi. destruct i as [p port|pp qp|a r|a r|t]; simpl in Hi.
  - destruct Hi. by apply step_req.
  - destruct Hi as ((t & Hd & Ht) & Hpp & Hqp). destruct (serviced_release_inv _ _ Hinv Hd) as [H1 H2].
    unfold wq_step. rewrite (fire_run _ _ _ _ Hd). by apply wq_release_spec.
  - destruct Hi as ((t & Hd & Ht) & Hr & Ha). by eapply step_dequeue.
  - destruct Hi as (? & ? & ? & ?). by apply step_retry.
  - unfold wq_step. destruct Hi as [Ht Hf]. rewrite (proj2 (Z.leb_le _ _)) by done.
    rewrite bool_decide_eq_true_2 by done. eexists. split; [done|].
    destruct Hinv as [[] ? ? ?]. split; try done. split; try done.
    unfold curTick in *; simpl in *. lia.
Qed.

Lemma new_WorkQueue_inv lat a b now :
  0 < size < 2 ^ 31 -> 0 <= lat -> 0 <= now -> WInv (new_WorkQueue size lat a b now).
Proof.
  intros Hs Hl Hn. split; try done. split; simpl; try done; try lia.
  rewrite at_capacity_eq by done. symmetry. apply Z.eqb_neq. simpl. lia.
Qed.
End Invariant.

(** The states the queue can be in: it starts empty and takes well-formed
    inputs. *)
Inductive wq_reachable (size lat pop_addr push_addr : Z) : WorkQueue -> Prop :=
  | wqr_new now : 0 <= now -> wq_reachable size lat pop_addr push_addr
      (new_WorkQueue size lat pop_addr push_addr now)
  | wqr_step w i w' : wq_reachable size lat pop_addr push_addr w -> wf_input w i ->
      wq_step i w = Ok (tt, w') -> wq_reachable size lat pop_addr push_addr w'.

Lemma reachable_inv size lat a b w :
  0 < size < 2 ^ 31 -> 0 <= lat -> wq_reachable size lat a b w -> WInv size w.
Proof.
  intros Hs Hl Hr. induction Hr as [|w i w' _ IH Hi Hstep]; [by apply new_WorkQueue_inv|].
  destruct (wq_step_ok _ _ _ IH Hi) as (w'' & Heq & Hw). congruence.
Qed.

(** C7: no well-formed input makes a reachable work queue panic or fail an
    assertion, and the state it leaves is again a good one: flags agree with
    the contents, the queue never holds more than [size] items, a waiting
    response has its dequeue event or a retry pending, and a refused port is
    owed a retry only while the queue is busy, empty (pop) or full (push). *)
Theorem workqueue_step_safe size lat a b w i :
  0 < size < 2 ^ 31 -> 0 <= lat -> wq_reachable size lat a b w -> wf_input w i ->
  exists w', wq_step i w = Ok (tt, w') /\ WInv size w'.
Proof. intros Hs Hl Hr Hi. apply wq_step_ok; [by eapply reachable_inv|done]. Qed.

(** C8: the work queue is a FIFO.  In every reachable state the data of the
    read responses the ports have taken, then of those still waiting to be sent,
    then the items still queued, are exactly the values of the accepted writes
    in the order they were accepted. *)
Theorem workqueue_fifo size lat a b w :
  0 < size < 2 ^ 31 -> 0 <= lat -> wq_reachable size lat a b w ->
  pushed (wq_accepted w)
  = read_data (wq_sent w) ++ read_data (deferred (packetQueue w)) ++ workQ w
  /\ Z.of_nat (length (workQ w)) <= size.
Proof.
  intros Hs Hl Hr. pose proof (reachable_inv _ _ _ _ _ Hs Hl Hr) as [[] _ _ _].
  rewrite app_assoc, <- read_data_app. split; [done|]. congruence.
Qed.

(** *** A run on a queue of two items *)

Definition demo_write (v : Z) : Packet := mkPacket WriteReq 64 4 v false.
Definition demo_read : Packet := mkPacket ReadReq 68 4 0 false.

Lemma demo_write_wf v : wf_req (demo_write v) PushPortType.
Proof. by split. Qed.
Lemma demo_read_wf : wf_req demo_read PopPortType.
Proof. by split. Qed.

Definition demo_run (ins : list wq_input) (w : WorkQueue) : WorkQueue :=
  fold_left (fun w i => match wq_step i w with Ok (_, w') => w' | Err _ => w end) ins w.

(** A write is accepted; a second write and a read are refused while the queue
    is busy.  The first response is taken, then the release event retries both
    ports: the read is answered with the value written, the write is refused
    again until the next release. *)
Definition demo_w0 : WorkQueue := new_WorkQueue 2 10 68 64 0.
Definition demo_w4 : WorkQueue := demo_run
  [IReq (demo_write 7) PushPortType; IReq (demo_write 9) PushPortType;
   IReq demo_read PopPortType; IDequeue true []] demo_w0.
Definition demo_w5 : WorkQueue := demo_run [IRelease [demo_read] [demo_write 9]] demo_w4.
Definition demo_w7 : WorkQueue :=
  demo_run [IDequeue true []; IRelease [] [demo_write 9]] demo_w5.

Fixpoint wf_run (ins : list wq_input) (w : WorkQueue) : Prop :=
  match ins with
  | [] => True
  | i :: l => wf_input w i /\ wf_run l (demo_run [i] w)
  end.

Lemma wf_run_reachable size lat a b ins w :
  0 < size < 2 ^ 31 -> 0 <= lat -> wq_reachable size lat a b w -> wf_run ins w ->
  wq_reachable size lat a b (demo_run ins w).
Proof.
  intros Hs Hl. revert w. induction ins as [|i ins IH]; intros w Hr; simpl; [done|].
  intros [Hi Hrun]. destruct (wq_step_ok size w i) as (w' & Heq & _); [by eapply reachable_inv|done|].
  unfold demo_run in *; simpl in *. rewrite Heq in *. apply IH; [|done]. by eapply wqr_step.
Qed.

Ltac demo_due :=
  split; [reflexivity|refine (bool_decide_eq_true_1 (map_Forall _ _) _); vm_compute; reflexivity].

Lemma demo_w4_reachable : wq_reachable 2 10 68 64 demo_w4.
Proof.
  apply wf_run_reachable; [lia|lia|by apply (wqr_new 2 10 68 64 0)|].
  split; [by split|]. split; [by split|]. split; [by split|].
  split; [|done]. split; [exists 10; split; [demo_due|done]|done].
Qed.

Lemma demo_release_wf : wf_input demo_w4 (IRelease [demo_read] [demo_write 9]).
Proof.
  split; [exists 10; split; [demo_due|done]|].
  split; apply Forall_singleton; by split.
Qed.

Lemma workqueue_step_safe_witness :
  exists w', wq_step (IRelease [demo_read] [demo_write 9]) demo_w4 = Ok (tt, w') /\ WInv 2 w'.
Proof.
  apply (workqueue_step_safe 2 10 68 64);
    [lia|lia|apply demo_w4_reachable|apply demo_release_wf].
Defined.

Lemma demo_w7_reachable : wq_reachable 2 10 68 64 demo_w7.
Proof.
  apply wf_run_reachable; [lia|lia| |].
  - apply wf_run_reachable; [lia|lia|apply demo_w4_reachable|].
    split; [apply demo_release_wf|done].
  - split; [split; [exists 20; split; [demo_due|done]|done]|]. split; [|done].
    split; [exists 20; split; [demo_due|done]|]. split; [done|apply Forall_singleton; by split].
Qed.

Lemma workqueue_fifo_witness :
  pushed (wq_accepted demo_w7) = [7; 9] /\ read_data (wq_sent demo_w7) = [7]
  /\ pushed (wq_accepted demo_w7)
     = read_data (wq_sent demo_w7) ++ read_data (deferred (packetQueue demo_w7)) ++ workQ demo_w7.
Proof.
  split; [reflexivity|]. split; [reflexivity|].
  apply (workqueue_fifo 2 10 68 64 demo_w7); [lia|lia|apply demo_w7_reachable].
Defined.

(** The push port accepts reads, since the check that it sees only stores
    is commented out.  A read on the push port of an idle empty queue passes
    the guards, which look at [isFull] only, and panics in [access]. *)
Theorem workqueue_push_port_read_panics size lat a b :
  recvTimingReq demo_read PushPortType (new_WorkQueue size lat a b 0)
  = Err (EPanic "Work popped when queue was empty").
Proof.
  unfold recvTimingReq. rewrite !bind_panic_if by done. rewrite bind_gets.
  assert (refuse PushPortType (new_WorkQueue size lat a b 0) = None) as -> by done.
  rewrite !bind_gets. unfold getLatency. erewrite bind_run; cycle 1.
  { unfold on_sched. rewrite s_schedule_fresh; [reflexivity| |reflexivity]. simpl.
    apply u64_bound. }
  reflexivity.
Qed.
