(* ===== verification/IntMath.v ===== *)
(** * Integer mathematics (base/intmath.hh)

    The functions at their machine width: unless a size is given the template
    parameter is [uint64_t], the instance the modelled components use.  Each
    bit trick is shown equal to the arithmetic function it computes. *)

From S2P Require Import Prelude.

(** [power]: exponentiation by squaring, overflow included.  [e] is 32 bits
    wide, so 32 iterations empty it. *)
Fixpoint power_loop (fuel : nat) (result component e : Z) : res Z :=
  if e =? 0 then Ok result
  else match fuel with
       | O => Err EFuel
       | S f =>
           let result' := if Z.land e 1 =? 1 then u64 (result * component) else result in
           power_loop f result' (u64 (component * component)) (Z.shiftr e 1)
       end.
Definition power (n e : Z) : res Z := power_loop 32 1 n e.

(** One line of [floorLog2]: if a bit of the upper half is set, keep the upper half. *)
Definition floor_step (enabled : bool) (mask k : Z) (yu : Z * Z) : Z * Z :=
  let '(y, ux) := yu in
  if enabled && negb (Z.land ux mask =? 0) then (y + k, Z.shiftr ux k) else (y, ux).

(** [floorLog2] for a type of [ts] bytes. *)
Definition floorLog2 (ts : Z) (x : Z) : res Z :=
  if x <=? 0 then Err (EAssert "x > 0")
  else
    let s0 := (0, x) in
    let s1 := floor_step (8 <=? ts) 0xffffffff00000000 32 s0 in
    let s2 := floor_step (4 <=? ts) 0x00000000ffff0000 16 s1 in
    let s3 := floor_step (2 <=? ts) 0x000000000000ff00 8 s2 in
    let s4 := floor_step true 0x00000000000000f0 4 s3 in
    let s5 := floor_step true 0x000000000000000c 2 s4 in
    Ok (if negb (Z.land s5.2 2 =? 0) then s5.1 + 1 else s5.1).

Definition ceilLog2 (ts : Z) (n : Z) : res Z :=
  if n <=? 0 then Err (EAssert "n > 0")
  else if n =? 1 then Ok 0
  else match floorLog2 ts (n - 1) with Ok y => Ok (y + 1) | Err e => Err e end.

Definition isPowerOf2 (n : Z) : bool := negb (n =? 0) && (Z.land n (u64 (n - 1)) =? 0).

Definition divCeil (a b : Z) : Z := u64 (a + b - 1) / b.

(** [~mask] on 64 bits. *)
Definition not64 (m : Z) : Z := Z.ldiff (Z.ones 64) m.

Definition roundUp (val align : Z) : res Z :=
  if isPowerOf2 align
  then let mask := u64 (align - 1) in Ok (Z.land (u64 (val + mask)) (not64 mask))
  else Err (EAssert "isPowerOf2(align)").

Definition roundDown (val align : Z) : res Z :=
  if isPowerOf2 align
  then let mask := u64 (align - 1) in Ok (Z.land val (not64 mask))
  else Err (EAssert "isPowerOf2(align)").

(** ** Logarithms *)

Lemma land_upper_half u k :
  0 <= k -> 0 <= u < 2 ^ (2 * k) ->
  Z.land u (Z.shiftl (Z.ones k) k) = Z.shiftl (Z.shiftr u k) k.
Proof.
  intros Hk Hu. apply Z.bits_inj'. intros n Hn.
  rewrite Z.land_spec, !Z.shiftl_spec by done.
  destruct (Z.lt_ge_cases n k) as [Hlt|Hge].
  { rewrite !(Z.testbit_neg_r _ (n - k)) by lia. apply andb_false_r. }
  rewrite Z.shiftr_spec by lia. replace (n - k + k) with n by lia.
  rewrite Z.testbit_ones_nonneg by lia. destruct (n - k <? k) eqn:E; [apply andb_true_r|].
  apply Z.ltb_ge in E. rewrite andb_false_r. symmetry.
  rewrite <- (Z.mod_small u (2 ^ (2 * k))) by done. apply Z.mod_pow2_bits_high. lia.
Qed.

Lemma floor_step_log2 y u k mask :
  0 < k -> mask = Z.shiftl (Z.ones k) k -> 0 < u < 2 ^ (2 * k) ->
  let '(y', u') := floor_step true mask k (y, u) in
  0 < u' < 2 ^ k /\ y' + Z.log2 u' = y + Z.log2 u.
Proof.
  intros Hk -> Hu. unfold floor_step. rewrite land_upper_half by lia. simpl.
  rewrite Z.shiftl_mul_pow2, Z.shiftr_div_pow2 by lia.
  assert (2 ^ (2 * k) = 2 ^ k * 2 ^ k) as Hp by (rewrite <- Z.pow_add_r by lia; f_equal; lia).
  assert (0 < 2 ^ k) by lia.
  pose proof (Z.div_mod u (2 ^ k)). pose proof (Z.mod_pos_bound u (2 ^ k)).
  destruct (_ =? 0) eqn:E; simpl.
  - apply Z.eqb_eq in E. split; [nia|done].
  - apply Z.eqb_neq in E. assert (0 < u / 2 ^ k) by (pose proof (Z.div_pos u (2 ^ k)); nia).
    split; [split; [done|]; apply Z.div_lt_upper_bound; nia|].
    rewrite <- Z.shiftr_div_pow2, Z.log2_shiftr by lia.
    assert (k <= Z.log2 u) by (apply Z.log2_le_pow2; nia). lia.
Qed.

(** Applies one line of the cascade. *)
Ltac log2_step y u y' u' :=
  match goal with
  | H : 0 < u < 2 ^ ?b |- context [floor_step true ?m ?k (y, u)] =>
      let Hs := fresh "Hs" in
      pose proof (floor_step_log2 y u k m ltac:(lia) eq_refl H) as Hs;
      destruct (floor_step true m k (y, u)) as [y' u']; destruct Hs as [? ?]
  end.

Lemma log2_lt4 u : 0 < u < 2 ^ 2 -> Z.log2 u = if negb (Z.land u 2 =? 0) then 1 else 0.
Proof. intros. assert (u = 1 \/ u = 2 \/ u = 3) as [->|[->| ->]] by lia; reflexivity. Qed.

(** The cascade from 8 bits down. *)
Lemma cascade8 y3 u3 : 0 < u3 < 2 ^ 8 ->
  let s5 := floor_step true 0xc 2 (floor_step true 0xf0 4 (y3, u3)) in
  (if negb (Z.land s5.2 2 =? 0) then s5.1 + 1 else s5.1) = y3 + Z.log2 u3.
Proof.
  intros H3 s5. subst s5. log2_step y3 u3 y4 u4. log2_step y4 u4 y5 u5. simpl.
  pose proof (log2_lt4 u5) as Hl. destruct (negb _); lia.
Qed.

Lemma floorLog2_run ts x :
  ts = 1 \/ ts = 2 \/ ts = 4 \/ ts = 8 -> 0 < x < 2 ^ (8 * ts) -> floorLog2 ts x = Ok (Z.log2 x).
Proof.
  intros Hts Hx. unfold floorLog2. rewrite (proj2 (Z.leb_gt _ _)) by lia. f_equal.
  destruct Hts as [->|[->|[->| ->]]]; simpl Z.mul in Hx.
  - apply (cascade8 0 x Hx).
  - change (floor_step (8 <=? 2) _ _ _) with (0, x). change (floor_step (4 <=? 2) _ _ _) with (0, x).
    change (2 <=? 2) with true. log2_step 0 x y1 u1. rewrite cascade8 by done. lia.
  - change (floor_step (8 <=? 4) _ _ _) with (0, x). change (2 <=? 4) with true. change (4 <=? 4) with true.
    log2_step 0 x y1 u1. log2_step y1 u1 y2 u2. rewrite cascade8 by done. lia.
  - change (2 <=? 8) with true. change (4 <=? 8) with true. change (8 <=? 8) with true.
    log2_step 0 x y0 u0. log2_step y0 u0 y1 u1. log2_step y1 u1 y2 u2.
    rewrite cascade8 by done. lia.
Qed.

Lemma ceilLog2_run ts n :
  ts = 1 \/ ts = 2 \/ ts = 4 \/ ts = 8 -> 0 < n < 2 ^ (8 * ts) ->
  ceilLog2 ts n = Ok (Z.log2_up n).
Proof.
  intros Hts Hn. unfold ceilLog2. rewrite (proj2 (Z.leb_gt _ _)) by lia.
  destruct (n =? 1) eqn:E; [apply Z.eqb_eq in E as ->; done|]. apply Z.eqb_neq in E.
  rewrite floorLog2_run by (done || lia). f_equal. rewrite Z.log2_up_eqn by lia.
  rewrite Z.sub_1_r. lia.
Qed.

(** For every integer type of 1, 2, 4 or 8 bytes the bit cascades of
    [floorLog2] and [ceilLog2] compute the rounded logarithms: the returned [f]
    and [c] satisfy [2^f <= x < 2^(f+1)] and [2^(c-1) < x <= 2^c]. *)
Theorem log2_cascades ts x :
  ts = 1 \/ ts = 2 \/ ts = 4 \/ ts = 8 -> 0 < x < 2 ^ (8 * ts) ->
  exists f c, floorLog2 ts x = Ok f /\ ceilLog2 ts x = Ok c
    /\ 2 ^ f <= x < 2 ^ (f + 1) /\ (x = 1 /\ c = 0 \/ 2 ^ (c - 1) < x <= 2 ^ c).
Proof.
  intros Hts Hx. exists (Z.log2 x), (Z.log2_up x).
  split; [by apply floorLog2_run|]. split; [by apply ceilLog2_run|].
  split; [apply Z.log2_spec; lia|].
  destruct (decide (x = 1)) as [->|Hne]; [by left|right].
  rewrite Z.sub_1_r. apply Z.log2_up_spec. lia.
Qed.

Lemma log2_cascades_witness :
  exists f c, floorLog2 4 1000 = Ok f /\ ceilLog2 4 1000 = Ok c
    /\ 2 ^ f <= 1000 < 2 ^ (f + 1) /\ (1000 = 1 /\ c = 0 \/ 2 ^ (c - 1) < 1000 <= 2 ^ c).
Proof. apply log2_cascades; [tauto|lia]. Defined.

(** ** Powers of two and alignment *)

Lemma pow2_land_pred k : 0 <= k -> Z.land (2 ^ k) (2 ^ k - 1) = 0.
Proof.
  intros Hk. rewrite Z.sub_1_r, <- Z.ones_equiv, Z.land_ones by done.
  apply Z.mod_same. lia.
Qed.

Lemma pow2_or_shared_bit n : 0 < n -> n = 2 ^ Z.log2 n \/ Z.land n (n - 1) <> 0.
Proof.
  intros Hn. destruct (decide (n = 2 ^ Z.log2 n)) as [|Hne]; [by left|right].
  destruct (Z.log2_spec n Hn) as [Hl Hu].
  assert (Z.log2 (n - 1) = Z.log2 n) as Hlog by (apply Z.log2_unique; [apply Z.log2_nonneg|lia]).
  intros Hz. assert (Z.testbit (Z.land n (n - 1)) (Z.log2 n) = true) as Hb.
  { rewrite Z.land_spec, Z.bit_log2 by done. rewrite <- Hlog, Z.bit_log2; [done|].
    pose proof (Z.log2_nonneg n). lia. }
  by rewrite Hz, Z.bits_0 in Hb.
Qed.

Lemma isPowerOf2_spec n : 0 <= n < 2 ^ 64 ->
  isPowerOf2 n = true <-> exists k, 0 <= k /\ n = 2 ^ k.
Proof.
  intros Hn. unfold isPowerOf2. rewrite andb_true_iff, negb_true_iff, Z.eqb_neq, Z.eqb_eq. split.
  - intros [H0 Hl]. rewrite u64_small in Hl by lia.
    destruct (pow2_or_shared_bit n) as [->|?]; [lia| |done].
    eexists; split; [|done]. apply Z.log2_nonneg.
  - intros (k & Hk & ->). split; [lia|]. rewrite u64_small by lia. by apply pow2_land_pred.
Qed.

Lemma land_not64 x k : 0 <= k <= 64 -> 0 <= x < 2 ^ 64 ->
  Z.land x (not64 (2 ^ k - 1)) = 2 ^ k * (x / 2 ^ k).
Proof.
  intros Hk Hx. unfold not64. rewrite Z.sub_1_r, <- Z.ones_equiv.
  assert (Z.land x (Z.ldiff (Z.ones 64) (Z.ones k)) = Z.ldiff x (Z.ones k)) as ->.
  { rewrite <- (Z.mod_small x (2 ^ 64)) at 2 by done. rewrite <- Z.land_ones by lia.
    apply Z.bits_inj'. intros n Hn. rewrite !Z.land_spec, !Z.ldiff_spec, Z.land_spec.
    by destruct (Z.testbit x n), (Z.testbit (Z.ones 64) n). }
  rewrite Z.ldiff_ones_r by lia. rewrite Z.shiftl_mul_pow2, Z.shiftr_div_pow2 by lia. lia.
Qed.

(** For a power-of-two alignment [roundUp] returns the least multiple at or
    above the value and [roundDown] the greatest at or below it (no wrap), and
    any other alignment fails the assertion. *)
Theorem rounding val align :
  0 <= val < 2 ^ 64 -> 0 <= align < 2 ^ 64 ->
  match roundDown val align, roundUp val align with
  | Ok d, Ok u => (align | d) /\ val - align < d <= val
      /\ (val + align <= 2 ^ 64 -> (align | u) /\ val <= u < val + align)
  | Err e1, Err e2 => e1 = EAssert "isPowerOf2(align)" /\ e2 = e1
      /\ ~ exists k, 0 <= k /\ align = 2 ^ k
  | _, _ => False
  end.
Proof.
  intros Hv Ha. unfold roundDown, roundUp. pose proof (isPowerOf2_spec align Ha) as Hp.
  destruct (isPowerOf2 align).
  2:{ split_and!; [done..|]. intros Hk. by apply Hp in Hk. }
  destruct (proj1 Hp eq_refl) as (k & Hk & ->). clear Hp.
  assert (k < 64) as Hk64 by (apply (Z.pow_lt_mono_r_iff 2); lia).
  assert (0 < 2 ^ k) by lia.
  rewrite (u64_small (2 ^ k - 1)) by lia. rewrite land_not64 by lia.
  pose proof (Z.div_mod val (2 ^ k)). pose proof (Z.mod_pos_bound val (2 ^ k)).
  split; [apply Z.divide_factor_l|]. split; [lia|]. intros Hw.
  rewrite u64_small by lia. rewrite land_not64 by lia. split; [apply Z.divide_factor_l|].
  pose proof (Z.div_mod (val + (2 ^ k - 1)) (2 ^ k)).
  pose proof (Z.mod_pos_bound (val + (2 ^ k - 1)) (2 ^ k)). lia.
Qed.

Lemma rounding_witness :
  match roundDown 1001 64, roundUp 1001 64 with
  | Ok d, Ok u => (64 | d) /\ 1001 - 64 < d <= 1001
      /\ (1001 + 64 <= 2 ^ 64 -> (64 | u) /\ 1001 <= u < 1001 + 64)
  | Err e1, Err e2 => e1 = EAssert "isPowerOf2(align)" /\ e2 = e1
      /\ ~ exists k, 0 <= k /\ 64 = 2 ^ k
  | _, _ => False
  end.
Proof. apply (rounding 1001 64); lia. Defined.

(** Division rounding up, when the sum does not wrap. *)
Lemma divCeil_spec a b : 0 <= a -> 0 < b -> a + b - 1 < 2 ^ 64 ->
  b * (divCeil a b - 1) < a <= b * divCeil a b \/ (a = 0 /\ divCeil a b = 0).
Proof.
  intros Ha Hb Hw. unfold divCeil. rewrite u64_small by lia.
  pose proof (Z.div_mod (a + b - 1) b). pose proof (Z.mod_pos_bound (a + b - 1) b).
  destruct (decide (a = 0)) as [->|]; [right; split; [done|]|left; nia].
  apply Z.div_small. lia.
Qed.

(** ** Powers *)

Lemma power_loop_spec fuel r c e :
  0 <= e < 2 ^ Z.of_nat fuel -> 0 <= r < 2 ^ 64 ->
  power_loop fuel r c e = Ok (u64 (r * c ^ e)).
Proof.
  revert r c e. induction fuel as [|f IH]; intros r c e He Hr; simpl.
  { assert (e = 0) as -> by (simpl in He; lia). simpl. by rewrite Z.mul_1_r, u64_small. }
  destruct (e =? 0) eqn:E0.
  { apply Z.eqb_eq in E0 as ->. by rewrite Z.mul_1_r, u64_small. }
  apply Z.eqb_neq in E0. change 1 with (Z.ones 1) at 1. rewrite Z.land_ones by lia.
  rewrite Z.shiftr_div_pow2 by lia. change (2 ^ 1) with 2.
  rewrite Nat2Z.inj_succ, Z.pow_succ_r in He by lia.
  pose proof (Z.div_mod e 2). pose proof (Z.mod_pos_bound e 2).
  rewrite IH; [|lia|destruct (_ =? 1); [apply u64_bound|done]]. f_equal.
  assert (c ^ e = (c * c) ^ (e / 2) * c ^ (e mod 2)) as Hp.
  { rewrite <- Z.pow_2_r, <- Z.pow_mul_r, <- Z.pow_add_r by lia. f_equal. lia. }
  unfold u64, wrap. rewrite Hp, <- Zmult_mod_idemp_r, Z.mod_pow_l, Zmult_mod_idemp_r.
  assert (e mod 2 = 0 \/ e mod 2 = 1) as [He2|He2] by lia; rewrite He2; simpl.
  - rewrite Z.pow_0_r. f_equal. lia.
  - rewrite Z.pow_1_r, Zmult_mod_idemp_l. f_equal. lia.
Qed.

(** [power] terminates and returns [n^e] modulo [2^64] (the 64-bit
    products wrap silently apart from a warning). *)
Theorem power_mod n e :
  0 <= n < 2 ^ 32 -> 0 <= e < 2 ^ 32 -> power n e = Ok (n ^ e mod 2 ^ 64).
Proof.
  intros Hn He. unfold power. rewrite power_loop_spec by (change (Z.of_nat 32) with 32; lia).
  by rewrite Z.mul_1_l.
Qed.

Lemma power_mod_witness : power 10 20 = Ok (10 ^ 20 mod 2 ^ 64).
Proof. apply power_mod; lia. Defined.
