(* ===== verification/Clocked.v ===== *)
(** * Clocked objects (sim/clocked_object.hh, Cycles of base/types.hh)

    A clocked object caches the tick and the cycle number of its next clock
    edge and brings both up to date when asked.  [clk_period] is what its clock
    domain answers; it may change between calls. *)

From S2P Require Import Prelude IntMath.

(** [Cycles]: a 64-bit count. *)
Definition Cycles_incr (c : Z) : Z := u64 (c + 1).
Definition Cycles_decr (c : Z) : res Z :=
  if c =? 0 then Err (EAssert "c != 0") else Ok (c - 1).
Definition Cycles_add (a b : Z) : Z := u64 (a + b).
Definition Cycles_sub (a b : Z) : res Z :=
  if b <=? a then Ok (a - b) else Err EInvalidArgument.

Record Clocked := mkClocked { ck_tick : Z; ck_cycle : Z }.

Definition new_Clocked : Clocked := mkClocked 0 0.

(** [Clocked::update] at time [now]. *)
Definition update (now period : Z) (c : Clocked) : Clocked :=
  if now <=? ck_tick c then c
  else
    let tick1 := u64 (ck_tick c + period) in
    let cycle1 := Cycles_incr (ck_cycle c) in
    if now <=? tick1 then mkClocked tick1 cycle1
    else
      let elapsedCycles := divCeil (u64 (now - tick1)) period in
      mkClocked (u64 (tick1 + u64 (elapsedCycles * period))) (Cycles_add cycle1 elapsedCycles).

(** [Clocked::resetClock] *)
Definition resetClock (now period : Z) : Clocked :=
  let elapsedCycles := divCeil now period in
  mkClocked (u64 (elapsedCycles * period)) elapsedCycles.

(** [Clocked::updateClockPeriod]: called with the period still in force. *)
Definition updateClockPeriod (now period : Z) (c : Clocked) : Clocked := update now period c.

Definition clockEdge (now period cycles : Z) (c : Clocked) : Z * Clocked :=
  let c' := update now period c in (u64 (ck_tick c' + u64 (period * cycles)), c').

Definition curCycle (now period : Z) (c : Clocked) : Z * Clocked :=
  let c' := update now period c in (ck_cycle c', c').

Definition nextCycle (now period : Z) (c : Clocked) : Z * Clocked := clockEdge now period 1 c.

Definition ticksToCycles (t period : Z) : Z := divCeil t period.
Definition cyclesToTicks (period c : Z) : Z := u64 (period * c).

(** ** Correctness *)

(** Room below the wrap of the 64-bit clock. *)
Record clock_room (now period : Z) (c : Clocked) : Prop := {
  cr_period : 0 < period;
  cr_now : 0 <= now;
  cr_tick : 0 <= ck_tick c < 2 ^ 64;
  cr_cycle : 0 <= ck_cycle c;
  cr_far : now + period < 2 ^ 64;
  cr_cyc : ck_cycle c + now + period < 2 ^ 64
}.

(** What [update] does: the cached edge is the first one at or after [now] on
    the grid through the old edge, and the cycle count moves along with it. *)
Lemma update_spec now period c :
  clock_room now period c ->
  let c' := update now period c in
  now <= ck_tick c' /\ ck_cycle c <= ck_cycle c'
  /\ ck_tick c' - ck_tick c = period * (ck_cycle c' - ck_cycle c)
  /\ (ck_tick c' < now + period \/ c' = c).
Proof.
  intros [Hp Hn Ht Hc Hf Hcy]. unfold update.
  destruct (now <=? ck_tick c) eqn:E0; [apply Z.leb_le in E0; split_and!; [done|done|lia|by right]|].
  apply Z.leb_gt in E0. unfold Cycles_incr, Cycles_add. rewrite !(u64_small (ck_tick c + period)) by lia.
  rewrite !(u64_small (ck_cycle c + 1)) by lia.
  destruct (now <=? ck_tick c + period) eqn:E1; simpl.
  { apply Z.leb_le in E1. split_and!; [lia..|left; lia]. }
  apply Z.leb_gt in E1. rewrite !(u64_small (now - (ck_tick c + period))) by lia.
  set (d := now - (ck_tick c + period)).
  pose proof (divCeil_spec d period ltac:(lia) Hp ltac:(lia)) as Hd.
  assert (0 < d) as Hd0 by lia. destruct Hd as [Hd|]; [|lia].
  assert (0 < divCeil d period <= d) as Hr.
  { set (q := divCeil d period) in *. split; [nia|]. destruct (decide (q <= 1)); nia. }
  set (q := divCeil d period) in *.
  rewrite !(u64_small (q * period)) by nia.
  rewrite (u64_small (ck_tick c + period + q * period)), (u64_small (ck_cycle c + 1 + q)) by nia.
  split_and!; [nia..|left; nia].
Qed.

(** [clockEdge] answers the edge [cycles] periods after the first clock
    edge at or after [now]: the result lies in
    [now + [0, period) + period * cycles], it is on the object's grid, and
    [curCycle] counts the edges passed; asking does not disturb later answers. *)
Theorem clockEdge_first_edge now period cycles c :
  clock_room now period c -> 0 <= cycles -> ck_tick c <= now ->
  now + period + period * cycles < 2 ^ 64 ->
  let '(t, c') := clockEdge now period cycles c in
  now + period * cycles <= t < now + period + period * cycles
  /\ t = ck_tick c + period * (ck_cycle c' - ck_cycle c + cycles)
  /\ curCycle now period c = (ck_cycle c', c')
  /\ clockEdge now period cycles c' = (t, c').
Proof.
  intros Hr Hcy Hle Hw. unfold clockEdge.
  pose proof (update_spec now period c Hr) as (H1 & H2 & H3 & H4).
  destruct Hr. set (c' := update now period c) in *.
  assert (ck_tick c' < now + period) as Hlt by (destruct H4 as [|Heq]; [done|rewrite Heq; lia]).
  rewrite (u64_small (period * cycles)) by nia. rewrite u64_small by nia.
  split_and!; [lia|lia|lia|done|].
  assert (update now period c' = c') as -> by (unfold update; by rewrite (proj2 (Z.leb_le _ _))).
  f_equal. rewrite u64_small; [done|nia].
Qed.

Lemma clockEdge_first_edge_witness :
  let '(t, c') := clockEdge 2500 1000 3 (mkClocked 1000 1) in
  2500 + 1000 * 3 <= t < 2500 + 1000 + 1000 * 3
  /\ t = 1000 + 1000 * (ck_cycle c' - 1 + 3)
  /\ curCycle 2500 1000 (mkClocked 1000 1) = (ck_cycle c', c')
  /\ clockEdge 2500 1000 3 c' = (t, c').
Proof.
  apply (clockEdge_first_edge 2500 1000 3 (mkClocked 1000 1)); [|lia|simpl; lia|lia].
  split; simpl; lia.
Defined.

(** What schedulers rely on: an edge is never in the past, even when the cached
    edge is ahead of [now]. *)
Lemma clockEdge_future now period cycles c :
  clock_room now period c -> 0 <= cycles ->
  Z.max (ck_tick c) (now + period) + period * cycles < 2 ^ 64 ->
  now <= (clockEdge now period cycles c).1.
Proof.
  intros Hr Hcy Hw. unfold clockEdge.
  pose proof (update_spec now period c Hr) as (H1 & H2 & H3 & H4).
  destruct Hr. set (c' := update now period c) in *. simpl.
  assert (ck_tick c' <= Z.max (ck_tick c) (now + period)) by (destruct H4 as [|Heq]; [lia|rewrite Heq; lia]).
  rewrite (u64_small (period * cycles)) by nia. rewrite u64_small by nia. nia.
Qed.

(** Converting to cycles rounds up: [ticksToCycles] gives the least number of
    cycles that covers [t] ticks. *)
Lemma ticksToCycles_covers t period :
  0 <= t -> 0 < period -> t + period < 2 ^ 64 ->
  t <= cyclesToTicks period (ticksToCycles t period) < t + period.
Proof.
  intros Ht Hp Hw. unfold cyclesToTicks, ticksToCycles.
  pose proof (divCeil_spec t period Ht Hp ltac:(lia)) as Hd.
  rewrite u64_small by nia. nia.
Qed.
