(* ===== verification/Strtol.v ===== *)
(** * Number parsing of the trace reader

    [std::stol] and [std::stoi] as cpu/tre/tre.cc uses them on the
    whitespace-free words of a trace: optional sign, optional [0x] in base 16,
    the longest run of digits, whatever follows ignored; no digits is
    [std::invalid_argument], a value outside the result type is
    [std::out_of_range]. *)

From S2P Require Import Prelude.
From Stdlib Require Import Ascii.

Definition digit (base : Z) (c : ascii) : option Z :=
  let n := Z.of_nat (nat_of_ascii c) in
  let v := if (48 <=? n) && (n <=? 57) then n - 48
           else if (97 <=? n) && (n <=? 122) then n - 87
           else if (65 <=? n) && (n <=? 90) then n - 55
           else base in
  if v <? base then Some v else None.

(** The value of the longest prefix of digits, most significant first. *)
Fixpoint digits (base acc : Z) (s : string) : Z :=
  match s with
  | EmptyString => acc
  | String c s' => match digit base c with
                   | Some v => digits base (base * acc + v) s'
                   | None => acc
                   end
  end.

Definition has_digit (base : Z) (s : string) : bool :=
  match s with
  | EmptyString => false
  | String c _ => bool_decide (is_Some (digit base c))
  end.

Definition strip_sign (s : string) : bool * string :=
  match s with
  | String "-" s' => (true, s')
  | String "+" s' => (false, s')
  | _ => (false, s)
  end.

(** The [0x] prefix counts only when a digit follows it. *)
Definition strip_0x (base : Z) (s : string) : string :=
  match s with
  | String "0" (String "x" s') | String "0" (String "X" s') =>
      if (base =? 16) && has_digit base s' then s' else s
  | _ => s
  end.

Definition sto (lo hi base : Z) (s : string) : res Z :=
  let '(neg, s1) := strip_sign s in
  let s2 := strip_0x base s1 in
  if has_digit base s2 then
    let v := digits base 0 s2 in
    let v' := if neg then - v else v in
    if (lo <=? v') && (v' <=? hi) then Ok v' else Err EOutOfRange
  else Err EInvalidArgument.

Definition stol (base : Z) (s : string) : res Z := sto (- 2 ^ 63) (2 ^ 63 - 1) base s.
Definition stoi (base : Z) (s : string) : res Z := sto (- 2 ^ 31) (2 ^ 31 - 1) base s.

(** ** Printing, and reading back *)

Definition digit_char (d : Z) : ascii :=
  ascii_of_nat (Z.to_nat (if d <? 10 then d + 48 else d + 87)).

Fixpoint print_digits (fuel : nat) (base n : Z) (rest : string) : string :=
  match fuel with
  | O => rest
  | S f => let rest' := String (digit_char (n mod base)) rest in
           if n <? base then rest' else print_digits f base (n / base) rest'
  end.

(** [n] in [base], lower case, without prefix. *)
Definition print_num (base n : Z) : string := print_digits 64 base n "".

Lemma digit_digit_char base d : 0 <= d < base -> base <= 16 -> digit base (digit_char d) = Some d.
Proof.
  intros Hd Hb. unfold digit, digit_char.
  set (k := if d <? 10 then d + 48 else d + 87).
  assert (0 <= k < 256) by (unfold k; case_match; lia).
  rewrite nat_ascii_embedding by lia. rewrite Z2Nat.id by lia. unfold k.
  destruct (d <? 10) eqn:E.
  - apply Z.ltb_lt in E. rewrite (proj2 (Z.leb_le 48 _)), (proj2 (Z.leb_le _ 57)) by lia. simpl.
    replace (d + 48 - 48) with d by lia. by rewrite (proj2 (Z.ltb_lt _ _)) by lia.
  - apply Z.ltb_ge in E. rewrite (proj2 (Z.leb_gt (d + 87) 57)), andb_false_r by lia.
    rewrite (proj2 (Z.leb_le 97 _)), (proj2 (Z.leb_le _ 122)) by lia. simpl.
    replace (d + 87 - 87) with d by lia. by rewrite (proj2 (Z.ltb_lt _ _)) by lia.
Qed.

Lemma digits_print fuel base n rest acc :
  2 <= base <= 16 -> 0 <= n < base ^ Z.of_nat fuel -> (0 < fuel)%nat ->
  exists k, 0 < k /\ digits base acc (print_digits fuel base n rest)
                   = digits base (acc * base ^ k + n) rest.
Proof.
  intros Hb. revert n rest. induction fuel as [|f IH]; intros n rest Hn Hf; [lia|]. simpl.
  destruct (n <? base) eqn:E.
  - apply Z.ltb_lt in E. exists 1. split; [lia|]. rewrite Z.mod_small by lia. simpl.
    rewrite digit_digit_char by lia. f_equal. lia.
  - apply Z.ltb_ge in E. rewrite Nat2Z.inj_succ, Z.pow_succ_r in Hn by lia.
    assert (0 <= n / base < base ^ Z.of_nat f) as Hq.
    { split; [apply Z.div_pos; lia|apply Z.div_lt_upper_bound; lia]. }
    destruct (decide (f = O)) as [->|]; [rewrite Z.pow_0_r in Hn; lia|].
    destruct (IH (n / base) (String (digit_char (n mod base)) rest) Hq ltac:(lia)) as (k & Hk & ->).
    exists (k + 1). split; [lia|]. pose proof (Z.mod_pos_bound n base). pose proof (Z.div_mod n base).
    cbn [digits]. rewrite digit_digit_char by lia. f_equal. rewrite Z.pow_add_r, Z.pow_1_r by lia. nia.
Qed.

Fixpoint all_digits (base : Z) (s : string) : Prop :=
  match s with
  | EmptyString => True
  | String c s' => is_Some (digit base c) /\ all_digits base s'
  end.

Lemma print_all_digits fuel base n rest :
  2 <= base <= 16 -> 0 <= n -> all_digits base rest ->
  all_digits base (print_digits fuel base n rest).
Proof.
  intros Hb. revert n rest. induction fuel as [|f IH]; intros n rest Hn Hr; [done|]. simpl.
  assert (all_digits base (String (digit_char (n mod base)) rest)).
  { pose proof (Z.mod_pos_bound n base). simpl. rewrite digit_digit_char by lia. eauto. }
  case_match; [done|]. apply IH; [apply Z.div_pos; lia|done].
Qed.

Lemma print_nonempty base n rest fuel :
  rest <> ""%string \/ (0 < fuel)%nat -> print_digits fuel base n rest <> ""%string.
Proof.
  revert n rest. induction fuel as [|f IH]; intros n rest Hr; simpl; [by destruct Hr; [|lia]|].
  case_match; [done|]. apply IH. by left.
Qed.

Lemma strip_sign_digits base c s :
  base = 10 \/ base = 16 -> is_Some (digit base c) -> strip_sign (String c s) = (false, String c s).
Proof.
  intros Hb Hc. destruct c as [[] [] [] [] [] [] [] []]; try reflexivity;
    destruct Hb as [-> | ->]; by destruct Hc.
Qed.

Lemma strip_0x_digits base s :
  base = 10 \/ base = 16 -> all_digits base s -> strip_0x base s = s.
Proof.
  intros Hb Hs. destruct s as [|c s]; [done|].
  destruct c as [[] [] [] [] [] [] [] []]; try reflexivity.
  destruct s as [|c s]; [done|]. destruct Hs as (_ & Hc & _).
  destruct c as [[] [] [] [] [] [] [] []]; try reflexivity;
    destruct Hb as [-> | ->]; by destruct Hc.
Qed.

(** A number read back in the range of the result type. *)
Lemma sto_print lo hi base n :
  base = 10 \/ base = 16 -> 0 <= n < 2 ^ 64 -> lo <= 0 ->
  sto lo hi base (print_num base n) = if n <=? hi then Ok n else Err EOutOfRange.
Proof.
  intros Hb Hn Hlo. unfold sto, print_num. set (s := print_digits 64 base n "").
  assert (all_digits base s) as Hs by (apply print_all_digits; [lia|lia|done]).
  assert (digits base 0 s = n) as Hv.
  { destruct (digits_print 64 base n "" 0) as (k & _ & Hk); [lia| |lia|done].
    change (Z.of_nat 64) with 64. destruct Hb as [-> | ->]; lia. }
  destruct s as [|c s'] eqn:Es; [by apply print_nonempty in Es; [|right; lia]|].
  destruct Hs as [Hc Hs]. rewrite (strip_sign_digits base) by done.
  rewrite strip_0x_digits by (simpl; auto).
  unfold has_digit. rewrite bool_decide_eq_true_2, Hv by done.
  rewrite (proj2 (Z.leb_le lo n)) by lia. done.
Qed.

(** A number printed in base 10 or 16 is read back by [stol] exactly, up
    to [2^63 - 1]; a larger 64-bit number (an address with the top bit set)
    makes [stol] throw [std::out_of_range] although the destination is an
    unsigned 64-bit [Addr]. *)
Lemma stol_print base n :
  base = 10 \/ base = 16 -> 0 <= n < 2 ^ 64 ->
  stol base (print_num base n) = if n <? 2 ^ 63 then Ok n else Err EOutOfRange.
Proof.
  intros Hb Hn. unfold stol. rewrite sto_print by (done || lia).
  destruct (n <? 2 ^ 63) eqn:E; case_match; lia || done.
Qed.

Example stol_examples :
  stol 16 "0x1f" = Ok 31 /\ stol 16 "-1" = Ok (-1) /\ stol 16 "0xg" = Ok 0 /\ stol 10 "12)" = Ok 12
  /\ stol 16 "" = Err EInvalidArgument /\ stol 10 "(" = Err EInvalidArgument
  /\ stoi 10 "2147483648" = Err EOutOfRange.
Proof. vm_compute. auto 10. Qed.
