(* ===== verification/Hoare.v ===== *)
(** * Weakest preconditions for the state-and-error monad

    [wp E m Q s]: run from [s], the computation [m] either ends with a value
    and a state satisfying [Q], or fails with an error satisfying [E].  One rule
    per operation of the monad; [triple] quantifies over the start states. *)

From S2P Require Import Prelude.

Section Wp.
Context {S : Type} (E : err -> Prop).

Definition wp {A} (m : M S A) (Q : A -> S -> Prop) (s : S) : Prop :=
  match m s with Ok (a, s') => Q a s' | Err e => E e end.

Definition triple {A} (P : S -> Prop) (m : M S A) (Q : A -> S -> Prop) : Prop :=
  forall s, P s -> wp m Q s.

Lemma wp_ok {A} (m : M S A) Q s a s' : wp m Q s -> m s = Ok (a, s') -> Q a s'.
Proof. unfold wp. intros Hw Hm. by rewrite Hm in Hw. Qed.

Lemma wp_err {A} (m : M S A) Q s e : wp m Q s -> m s = Err e -> E e.
Proof. unfold wp. intros Hw Hm. by rewrite Hm in Hw. Qed.

Lemma wp_run {A} (m : M S A) Q s a s' : m s = Ok (a, s') -> Q a s' -> wp m Q s.
Proof. unfold wp. by intros ->. Qed.

Lemma wp_bind {A B} (m : M S A) (f : A -> M S B) Q s :
  wp m (fun a s' => wp (f a) Q s') s -> wp (m ≫= f) Q s.
Proof. unfold wp, mbind, M_bind. by destruct (m s) as [[a s']|e]. Qed.

Lemma wp_mono {A} (m : M S A) (R Q : A -> S -> Prop) s :
  wp m R s -> (forall a s', R a s' -> Q a s') -> wp m Q s.
Proof. unfold wp. destruct (m s) as [[a s']|e]; auto. Qed.

Lemma wp_triple {A} (P : S -> Prop) (m : M S A) (R Q : A -> S -> Prop) s :
  triple P m R -> P s -> (forall a s', R a s' -> Q a s') -> wp m Q s.
Proof. intros Ht HP. apply wp_mono. by apply Ht. Qed.

Lemma wp_use {A} (P : S -> Prop) (m : M S A) (R Q : A -> S -> Prop) s :
  P s -> triple P m R -> (forall a s', R a s' -> Q a s') -> wp m Q s.
Proof. intros HP Ht. by apply (wp_triple P). Qed.

Lemma wp_ret {A} (a : A) (Q : A -> S -> Prop) s : Q a s -> wp (mret a) Q s.
Proof. done. Qed.

Lemma wp_gets {A} (f : S -> A) (Q : A -> S -> Prop) s : Q (f s) s -> wp (gets f) Q s.
Proof. done. Qed.

Lemma wp_modify (f : S -> S) (Q : unit -> S -> Prop) s : Q tt (f s) -> wp (modify f) Q s.
Proof. done. Qed.

Lemma wp_throw {A} e (Q : A -> S -> Prop) s : E e -> wp (throw e) Q s.
Proof. done. Qed.

Lemma wp_lift {A} (r : res A) (Q : A -> S -> Prop) s :
  (forall e, r = Err e -> E e) -> (forall a, r = Ok a -> Q a s) -> wp (lift r) Q s.
Proof. unfold wp, lift. destruct r as [a|e]; auto. Qed.

Lemma wp_assert b what (Q : unit -> S -> Prop) s :
  E (EAssert what) -> (b = true -> Q tt s) -> wp (assert_ b what) Q s.
Proof. destruct b; unfold wp; simpl; auto. Qed.

Lemma wp_assert_holds b what (Q : unit -> S -> Prop) s : b = true -> Q tt s -> wp (assert_ b what) Q s.
Proof. by intros ->. Qed.

Lemma wp_fatal_if b msg (Q : unit -> S -> Prop) s :
  E (EFatal msg) -> (b = false -> Q tt s) -> wp (fatal_if b msg) Q s.
Proof. destruct b; unfold wp; simpl; auto. Qed.

Lemma wp_panic_if b msg (Q : unit -> S -> Prop) s :
  E (EPanic msg) -> (b = false -> Q tt s) -> wp (panic_if b msg) Q s.
Proof. destruct b; unfold wp; simpl; auto. Qed.

Lemma wp_when b (m : M S unit) (Q : unit -> S -> Prop) s :
  (b = true -> wp m Q s) -> (b = false -> Q tt s) -> wp (when_ b m) Q s.
Proof. intros Ht Hf. destruct b; [by apply Ht|by apply Hf]. Qed.
End Wp.

(** ** Computations that do not fail *)

Abbreviation total := (wp (fun _ : err => False)).

Section Total.
Context {S : Type}.

Lemma total_run {A} (m : M S A) Q s : total m Q s <-> exists a s', m s = Ok (a, s') /\ Q a s'.
Proof.
  unfold wp. destruct (m s) as [[a s']|e]; split.
  - intros H. by exists a, s'.
  - by intros (? & ? & [= <- <-] & H).
  - done.
  - by intros (? & ? & ? & _).
Qed.
Lemma total_lift {A} (r : res A) a (Q : A -> S -> Prop) s : r = Ok a -> Q a s -> total (lift r) Q s.
Proof. by intros ->. Qed.
Lemma total_assert b what (Q : unit -> S -> Prop) s : b = true -> Q tt s -> total (assert_ b what) Q s.
Proof. by intros ->. Qed.
Lemma total_panic_if b msg (Q : unit -> S -> Prop) s : b = false -> Q tt s -> total (panic_if b msg) Q s.
Proof. by intros ->. Qed.
End Total.

(** Steps over the binds whose rule is determined by the operation; stops at the others. *)
Ltac wp_step :=
  lazymatch goal with
  | |- wp _ (mbind _ _) _ _ => apply wp_bind
  | |- wp _ (mret _) _ _ => apply wp_ret
  | |- wp _ (gets _) _ _ => apply wp_gets
  | |- wp _ (modify _) _ _ => apply wp_modify
  | |- wp _ (throw _) _ _ => apply wp_throw; [try done]
  | |- wp _ (assert_ _ _) _ _ => apply wp_assert; [try done|]
  | |- wp _ (fatal_if _ _) _ _ => apply wp_fatal_if; [try done|]
  | |- wp _ (panic_if _ _) _ _ => apply wp_panic_if; [try done|]
  end; cbv beta.
