(* ===== verification/TRE.v ===== *)
(** * The trace replay engine (cpu/tre/tre.hh, cpu/tre/tre.cc)

    A TRE reads the trace of one processing element, word by word, and replays
    it: it issues the loads and stores to its memory port, waits for the
    accesses an entry depends on, stalls, and synchronises with the other TREs
    through mutexes, barriers, sleep/wake and bounded queues.

    [World] is everything the TREs share: the scheduler, the objects by
    address, the static maps of the class, and the statics of the file.  A
    [TRE*] is the key of the object in [w_tres].  What the rest of the
    simulator answers is in [Env]: whether the port takes a packet, the response an
    atomic access comes back with, the value of [rand()].  Debug output and
    [printf] are left out; the packets handed to the port and the statistics
    requests are recorded in order. *)

From S2P Require Import Prelude EventSched Packet Clocked Strtol.
From Stdlib Require Import Ascii.

(** ** Data *)

Inductive TRECmd := LD | ST | STALL.

Inductive tre_event :=
  | TickEv | NoRequestEv | NoResponseEv
  | InitMutexEv | LockMutexEv | UnlockMutexEv | InitBarrierEv | WaitAtBarrierEv
  | SleepEv | WakeEv | PushEv | PopEv | DumpStatsEv | ResetStatsEv | DumpResetStatsEv.

#[global] Instance TRECmd_eq_dec : EqDecision TRECmd.
Proof. solve_decision. Defined.
#[global] Instance tre_event_eq_dec : EqDecision tre_event.
Proof. solve_decision. Defined.

Definition tre_event_code (e : tre_event) : nat :=
  match e with
  | TickEv => 0 | NoRequestEv => 1 | NoResponseEv => 2 | InitMutexEv => 3 | LockMutexEv => 4
  | UnlockMutexEv => 5 | InitBarrierEv => 6 | WaitAtBarrierEv => 7 | SleepEv => 8 | WakeEv => 9
  | PushEv => 10 | PopEv => 11 | DumpStatsEv => 12 | ResetStatsEv => 13 | DumpResetStatsEv => 14
  end%nat.
Definition all_tre_events : list tre_event :=
  [TickEv; NoRequestEv; NoResponseEv; InitMutexEv; LockMutexEv; UnlockMutexEv; InitBarrierEv;
   WaitAtBarrierEv; SleepEv; WakeEv; PushEv; PopEv; DumpStatsEv; ResetStatsEv; DumpResetStatsEv].
#[global] Instance tre_event_countable : Countable tre_event.
Proof.
  refine (inj_countable tre_event_code (fun n => all_tre_events !! n) _). by intros [].
Defined.

Record TREMutex := mkMutex { mx_owner : option nat; mx_waiting : list nat }.
Record TREBarrier := mkBarrier { ba_count : Z; ba_arrived : list nat }.
Record TREQueue := mkQueue {
  tq_q : list Z; tq_size : Z; waitingToPush : option nat; waitingToPop : option nat
}.

Definition new_TREMutex : TREMutex := mkMutex None [].
Definition new_TREBarrier (count : Z) : TREBarrier := mkBarrier count [].
Definition new_TREQueue (size : Z) : TREQueue := mkQueue [] size None None.

(** A packet the TRE creates, with what it puts in the request. *)
Record TPacket := mkTPacket {
  tp_cmd : Command; tp_paddr : Z; tp_size : Z; tp_uncacheable : bool; tp_context : Z;
  tp_pc : option Z
}.

Record TREParams := mkParams {
  p_period : Z;               (* the clock domain's period *)
  p_interval : Z; p_id : Z; p_queue_depth : Z;
  p_progress_interval : Z; p_progress_check : Z;
  p_atomic : bool; p_suppress_func_errors : bool; p_max_outstanding : Z
}.

Record BlockedPkt := mkBlocked {
  bp_addr : Z; bp_cmd : TRECmd; bp_data : Z; bp_uncacheable : bool; bp_blking : bool;
  bp_deps : gset Z
}.

Record TREStats := mkStats {
  numLoads : Z; numStores : Z; numStalls : Z; numBlkingAccesses : Z; numTraceEntries : Z
}.

Record TRE := mkTRE {
  t_params : TREParams;
  t_clk : Clocked;
  t_trace : list string;            (* the words of the trace file *)
  t_pos : nat;                      (* words read so far *)
  t_lastTokEntryPos : nat;
  t_events : bool;                  (* the primitive events are allocated *)
  outstandingAddrs : list (Z * bool);
  blocked : bool;
  blockedPkt : BlockedPkt;
  retryPkt : option TPacket;
  paddr : Z; data : Z;
  nextProgressMessage : Z;
  t_stats : TREStats
}.

Definition INVALID_PADDR : Z := 2 ^ 64 - 1.

(** A request to [Stats::schedStatEvent]. *)
Record StatReq := mkStatReq { sr_dump : bool; sr_reset : bool; sr_when : Z; sr_repeat : Z }.

Record World := mkWorld {
  w_sched : Sched (nat * tre_event);
  w_tres : gmap nat TRE;
  mutexMap : gmap Z TREMutex;
  barrierMap : gmap Z TREBarrier;
  queues : gmap (Z * Z) TREQueue;
  allTREs : list nat;
  TESTER_ALLOCATOR : Z;
  numIdleTREs : Z;
  w_exit : bool;                    (* exitSimLoop has been called *)
  w_ns : Z;                         (* SimClock::Int::ns *)
  w_issued : list (nat * TPacket);  (* packets the ports have taken *)
  w_statReqs : list StatReq
}.

Record Env := mkEnv { e_accept : bool; e_resp : Command; e_rand : Z }.

Abbreviation T := (M World).

(** *** Field updates *)
Definition set_clk (v : Clocked) (t : TRE) : TRE :=
  mkTRE (t_params t) v (t_trace t) (t_pos t) (t_lastTokEntryPos t) (t_events t)
    (outstandingAddrs t) (blocked t) (blockedPkt t) (retryPkt t) (paddr t) (data t)
    (nextProgressMessage t) (t_stats t).
Definition set_pos (v : nat) (t : TRE) : TRE :=
  mkTRE (t_params t) (t_clk t) (t_trace t) v (t_lastTokEntryPos t) (t_events t)
    (outstandingAddrs t) (blocked t) (blockedPkt t) (retryPkt t) (paddr t) (data t)
    (nextProgressMessage t) (t_stats t).
Definition set_last (v : nat) (t : TRE) : TRE :=
  mkTRE (t_params t) (t_clk t) (t_trace t) (t_pos t) v (t_events t)
    (outstandingAddrs t) (blocked t) (blockedPkt t) (retryPkt t) (paddr t) (data t)
    (nextProgressMessage t) (t_stats t).
Definition set_out (v : list (Z * bool)) (t : TRE) : TRE :=
  mkTRE (t_params t) (t_clk t) (t_trace t) (t_pos t) (t_lastTokEntryPos t) (t_events t)
    v (blocked t) (blockedPkt t) (retryPkt t) (paddr t) (data t)
    (nextProgressMessage t) (t_stats t).
Definition set_blocked (b : bool) (v : BlockedPkt) (t : TRE) : TRE :=
  mkTRE (t_params t) (t_clk t) (t_trace t) (t_pos t) (t_lastTokEntryPos t) (t_events t)
    (outstandingAddrs t) b v (retryPkt t) (paddr t) (data t)
    (nextProgressMessage t) (t_stats t).
Definition set_retry (v : option TPacket) (t : TRE) : TRE :=
  mkTRE (t_params t) (t_clk t) (t_trace t) (t_pos t) (t_lastTokEntryPos t) (t_events t)
    (outstandingAddrs t) (blocked t) (blockedPkt t) v (paddr t) (data t)
    (nextProgressMessage t) (t_stats t).
Definition set_args (pa d : Z) (t : TRE) : TRE :=
  mkTRE (t_params t) (t_clk t) (t_trace t) (t_pos t) (t_lastTokEntryPos t) (t_events t)
    (outstandingAddrs t) (blocked t) (blockedPkt t) (retryPkt t) pa d
    (nextProgressMessage t) (t_stats t).
Definition set_progress (v : Z) (s : TREStats) (t : TRE) : TRE :=
  mkTRE (t_params t) (t_clk t) (t_trace t) (t_pos t) (t_lastTokEntryPos t) (t_events t)
    (outstandingAddrs t) (blocked t) (blockedPkt t) (retryPkt t) (paddr t) (data t) v s.

Definition set_paddr (v : Z) (t : TRE) : TRE := set_args v (data t) t.
Definition set_data (v : Z) (t : TRE) : TRE := set_args (paddr t) v t.
Definition set_stats (s : TREStats) (t : TRE) : TRE := set_progress (nextProgressMessage t) s t.

Definition with_deps (d : gset Z) (b : BlockedPkt) : BlockedPkt :=
  mkBlocked (bp_addr b) (bp_cmd b) (bp_data b) (bp_uncacheable b) (bp_blking b) d.

(** [blocked = true; blockedPkt.deps.insert(a)] *)
Definition add_dep (a : Z) (t : TRE) : TRE :=
  set_blocked true (with_deps ({[a]} ∪ bp_deps (blockedPkt t)) (blockedPkt t)) t.

Definition set_w_sched (v : Sched (nat * tre_event)) (w : World) : World :=
  mkWorld v (w_tres w) (mutexMap w) (barrierMap w) (queues w) (allTREs w) (TESTER_ALLOCATOR w)
    (numIdleTREs w) (w_exit w) (w_ns w) (w_issued w) (w_statReqs w).
Definition set_w_tres (v : gmap nat TRE) (w : World) : World :=
  mkWorld (w_sched w) v (mutexMap w) (barrierMap w) (queues w) (allTREs w) (TESTER_ALLOCATOR w)
    (numIdleTREs w) (w_exit w) (w_ns w) (w_issued w) (w_statReqs w).
Definition set_mutexMap (v : gmap Z TREMutex) (w : World) : World :=
  mkWorld (w_sched w) (w_tres w) v (barrierMap w) (queues w) (allTREs w) (TESTER_ALLOCATOR w)
    (numIdleTREs w) (w_exit w) (w_ns w) (w_issued w) (w_statReqs w).
Definition set_barrierMap (v : gmap Z TREBarrier) (w : World) : World :=
  mkWorld (w_sched w) (w_tres w) (mutexMap w) v (queues w) (allTREs w) (TESTER_ALLOCATOR w)
    (numIdleTREs w) (w_exit w) (w_ns w) (w_issued w) (w_statReqs w).
Definition set_queues (v : gmap (Z * Z) TREQueue) (w : World) : World :=
  mkWorld (w_sched w) (w_tres w) (mutexMap w) (barrierMap w) v (allTREs w) (TESTER_ALLOCATOR w)
    (numIdleTREs w) (w_exit w) (w_ns w) (w_issued w) (w_statReqs w).
Definition set_statics (all : list nat) (alloc idle : Z) (ex : bool) (w : World) : World :=
  mkWorld (w_sched w) (w_tres w) (mutexMap w) (barrierMap w) (queues w) all alloc idle ex
    (w_ns w) (w_issued w) (w_statReqs w).
Definition set_logs (iss : list (nat * TPacket)) (sr : list StatReq) (w : World) : World :=
  mkWorld (w_sched w) (w_tres w) (mutexMap w) (barrierMap w) (queues w) (allTREs w)
    (TESTER_ALLOCATOR w) (numIdleTREs w) (w_exit w) (w_ns w) iss sr.

(** *** Access to one object *)
Definition gets_tre {A} (p : nat) (f : TRE -> A) : T A := fun w =>
  match w_tres w !! p with
  | Some t => Ok (f t, w)
  | None => Err (EUndefined "dangling TRE pointer")
  end.
Definition upd_tre (p : nat) (f : TRE -> TRE) : T unit := fun w =>
  match w_tres w !! p with
  | Some t => Ok (tt, set_w_tres (<[p := f t]> (w_tres w)) w)
  | None => Err (EUndefined "dangling TRE pointer")
  end.

Definition world_now (w : World) : Z := s_now (w_sched w).

Definition on_wsched (m : M (Sched (nat * tre_event)) unit) : T unit := fun w =>
  match m (w_sched w) with
  | Ok (_, s) => Ok (tt, set_w_sched s w)
  | Err e => Err e
  end.

(** [clockEdge(cycles)] of the TRE [p]. *)
Definition edge (p : nat) (cycles : Z) : T Z :=
  now ← gets world_now;
  period ← gets_tre p (fun t => p_period (t_params t));
  clk ← gets_tre p t_clk;
  let '(when, clk') := clockEdge now period cycles clk in
  upd_tre p (set_clk clk');;
  mret when.

Definition interval (p : nat) : T Z := gets_tre p (fun t => p_interval (t_params t)).

(** [target->schedule(target->ev, clockEdge(interval))] called by [self]. *)
Definition schedule_next (self target : nat) (ev : tre_event) : T unit :=
  i ← interval self;
  when ← edge self i;
  gets_tre target (fun _ => tt);;
  on_wsched (s_schedule (target, ev) when).

(** [schedule(tickEvent, clockEdge(interval))] *)
Definition tick_again (p : nat) : T unit := schedule_next p p TickEv.

Definition ev_scheduled (p : nat) (ev : tre_event) (w : World) : bool :=
  s_scheduled (p, ev) (w_sched w).

Definition add_entries (n : Z) (s : TREStats) : TREStats :=
  mkStats (numLoads s) (numStores s) (numStalls s) (numBlkingAccesses s) (numTraceEntries s + n).
Definition count_entry (p : nat) : T unit :=
  upd_tre p (fun t => set_stats (add_entries 1 (t_stats t)) t).

(** ** In-flight addresses *)

Definition in_flight (a : Z) (l : list (Z * bool)) : bool :=
  existsb (fun x => x.1 =? a) l.

Fixpoint erase_first (a : Z) (l : list (Z * bool)) : list (Z * bool) :=
  match l with
  | [] => []
  | x :: l' => if x.1 =? a then l' else x :: erase_first a l'
  end.

(** [addrInFlight(paddr, erase)] *)
Definition addrInFlight (p : nat) (a : Z) (erase : bool) : T bool :=
  found ← gets_tre p (fun t => in_flight a (outstandingAddrs t));
  when_ (erase && found) (upd_tre p (fun t => set_out (erase_first a (outstandingAddrs t)) t));;
  assert_ (negb erase || found) "!erase || found";;
  mret found.

Fixpoint blking_addr (l : list (Z * bool)) : Z :=
  match l with
  | [] => INVALID_PADDR
  | (a, b) :: l' => if b then a else blking_addr l'
  end.
Definition blkingAccAddrInFlight (p : nat) : T Z :=
  gets_tre p (fun t => blking_addr (outstandingAddrs t)).

(** [readNextToken]: [trace_fh >> word]; at the end of the file the word stays empty. *)
Definition readNextToken (p : nat) : T string :=
  tok ← gets_tre p (fun t => t_trace t !! t_pos t);
  match tok with
  | Some word => upd_tre p (fun t => set_pos (S (t_pos t)) t);; mret word
  | None => mret ""%string
  end.

(** ** Completion of an access *)

Definition loads_stores (l s : Z) (st : TREStats) : TREStats :=
  mkStats l s (numStalls st) (numBlkingAccesses st) (numTraceEntries st).

(** The statistics of a completed access. *)
Definition count_load (t : TRE) : TRE :=
  let st := loads_stores (numLoads (t_stats t) + 1) (numStores (t_stats t)) (t_stats t) in
  if u64 (numLoads st) =? nextProgressMessage t
  then set_progress (u64 (nextProgressMessage t + u32 (p_progress_interval (t_params t)))) st t
  else set_stats st t.
Definition count_store (t : TRE) : TRE :=
  set_stats (loads_stores (numLoads (t_stats t)) (numStores (t_stats t) + 1) (t_stats t)) t.

(** The last two steps of [completeRequest]: tick again if an entry was blocked,
    then shift the response timeout or remove it. *)
Definition resume_blocked (p : nat) : T unit :=
  ticking ← gets (ev_scheduled p TickEv);
  blk ← gets_tre p blocked;
  when_ (negb ticking && blk) (tick_again p).

Definition shift_response_timeout (p : nat) : T unit :=
  out ← gets_tre p outstandingAddrs;
  pc ← gets_tre p (fun t => p_progress_check (t_params t));
  match out with
  | _ :: _ => when ← edge p pc; on_wsched (s_reschedule (p, NoResponseEv) when false)
  | [] =>
      resp ← gets (ev_scheduled p NoResponseEv);
      when_ resp (on_wsched (s_deschedule (p, NoResponseEv)))
  end.

(** [completeRequest(pkt, functional)] for a response [cmd] to [addr]. *)
Definition completeRequest (p : nat) (cmd : Command) (addr size : Z) (functional : bool) : T unit :=
  assert_ (size =? 4) "req->getSize() == 4";;
  found ← addrInFlight p addr true;
  fatal_if (negb found) "Received unsolicited response to TRE";;
  suppress ← gets_tre p (fun t => p_suppress_func_errors (t_params t));
  (if isError cmd then
     when_ (negb functional || negb suppress) (throw (EPanic "access failed"))
   else if isRead cmd then upd_tre p count_load
   else assert_ (isWrite cmd) "pkt->isWrite()";; upd_tre p count_store);;
  resume_blocked p;;
  shift_response_timeout p.

(** [CpuPort::recvTimingResp] *)
Definition recvTimingResp (p : nat) (cmd : Command) (addr size : Z) : T bool :=
  completeRequest p cmd addr size false;; mret true.

(** [sendTimingReq] on the port: the packet is recorded when it is taken. *)
Definition port_sendTimingReq (p : nat) (pkt : TPacket) (env : Env) : T bool :=
  when_ (e_accept env) (modify (fun w => set_logs (w_issued w ++ [(p, pkt)]) (w_statReqs w) w));;
  mret (e_accept env).

(** [sendPkt] *)
Definition sendPkt (p : nat) (pkt : TPacket) (env : Env) : T bool :=
  atomic ← gets_tre p (fun t => p_atomic (t_params t));
  match atomic with
  | true =>
      modify (fun w => set_logs (w_issued w ++ [(p, pkt)]) (w_statReqs w) w);;
      completeRequest p (e_resp env) (tp_paddr pkt) (tp_size pkt) false;;
      mret true
  | false =>
      ok ← port_sendTimingReq p pkt env;
      match ok with
      | true => mret true
      | false => upd_tre p (set_retry (Some pkt));; mret false
      end
  end.

(** [recvRetry] (from [CpuPort::recvReqRetry]) *)
Definition recvRetry (p : nat) (env : Env) : T unit :=
  r ← gets_tre p retryPkt;
  match r with
  | None => throw (EAssert "retryPkt")
  | Some pkt =>
      ok ← port_sendTimingReq p pkt env;
      when_ ok
        (upd_tre p (set_retry None);;
         blk ← gets_tre p blocked;
         when_ (negb blk) (tick_again p);;
         pc ← gets_tre p (fun t => p_progress_check (t_params t));
         when ← edge p pc;
         on_wsched (s_reschedule (p, NoRequestEv) when true))
  end.

Definition noRequest : T unit := throw (EPanic "did not send a request").
Definition noResponse : T unit := throw (EPanic "did not see a response").

(** [halt]: the last TRE to halt ends the simulation. *)
Definition halt (p : nat) : T unit :=
  modify (fun w => set_statics (allTREs w) (TESTER_ALLOCATOR w) (u32 (numIdleTREs w + 1)) (w_exit w) w);;
  idle ← gets numIdleTREs; alloc ← gets TESTER_ALLOCATOR;
  assert_ (idle <=? alloc) "numIdleTREs <= TESTER_ALLOCATOR";;
  when_ (idle =? alloc)
    (modify (fun w => set_statics (allTREs w) (TESTER_ALLOCATOR w) (numIdleTREs w) true w)).

(** ** Statistics primitives *)

Definition stat_event (dump reset : bool) (p : nat) (delay period : Z) : T unit :=
  now ← gets world_now; ns ← gets w_ns;
  modify (fun w => set_logs (w_issued w)
    (w_statReqs w ++ [mkStatReq dump reset (u64 (now + u64 (delay * ns))) (u64 (period * ns))]) w);;
  count_entry p;;
  tick_again p.
Definition resetstats : nat -> Z -> Z -> T unit := stat_event false true.
Definition dumpstats : nat -> Z -> Z -> T unit := stat_event true false.
Definition dumpresetstats : nat -> Z -> Z -> T unit := stat_event true true.

(** ** Mutexes *)

Definition initMutex (p : nat) : T unit :=
  a ← gets_tre p paddr;
  assert_ (negb (a =? 0)) "paddr";;
  m ← gets mutexMap;
  fatal_if (bool_decide (is_Some (m !! a))) "Mutex cannot be re-initialized!";;
  modify (set_mutexMap (<[a := new_TREMutex]> m));;
  count_entry p;;
  tick_again p;;
  upd_tre p (set_paddr 0).

(** Rewind to the entry being executed and try it again at the next tick. *)
Definition rewind (p : nat) : T unit :=
  upd_tre p (fun t => set_pos (t_lastTokEntryPos t) t);; tick_again p.

Definition lockMutex (p : nat) : T unit :=
  a ← gets_tre p paddr;
  assert_ (negb (a =? 0)) "paddr";;
  m ← gets mutexMap;
  match m !! a with
  | None => rewind p
  | Some mx =>
      match mx_owner mx with
      | None =>
          modify (set_mutexMap (<[a := mkMutex (Some p) (mx_waiting mx)]> m));; tick_again p
      | Some o =>
          fatal_if (bool_decide (o = p)) "Double lock on mutex not allowed!";;
          modify (set_mutexMap (<[a := mkMutex (Some o) (mx_waiting mx ++ [p])]> m))
      end;;
      count_entry p;;
      upd_tre p (set_paddr 0)
  end.

(** [rand() % waiting.size()] picks the next owner. *)
Definition pick (r : Z) (l : list nat) : nat := Z.to_nat (r mod Z.of_nat (length l)).

Definition unlockMutex (p : nat) (env : Env) : T unit :=
  a ← gets_tre p paddr;
  assert_ (negb (a =? 0)) "paddr";;
  m ← gets mutexMap;
  match m !! a with
  | None => throw EOutOfRange
  | Some mx =>
      fatal_if (negb (bool_decide (mx_owner mx = Some p)))
        "Non-owner attempted to call unlock on mutex!";;
      match mx_waiting mx with
      | [] => modify (set_mutexMap (<[a := mkMutex None []]> m))
      | _ :: _ =>
          let idx := pick (e_rand env) (mx_waiting mx) in
          match mx_waiting mx !! idx with
          | None => throw (EUndefined "vector index out of range")
          | Some target =>
              schedule_next p target TickEv;;
              modify (set_mutexMap (<[a := mkMutex (Some target) (delete idx (mx_waiting mx))]> m))
          end
      end;;
      count_entry p;;
      tick_again p;;
      upd_tre p (set_paddr 0)
  end.

(** ** Barriers *)

Definition initBarrier (p : nat) : T unit :=
  a ← gets_tre p paddr; d ← gets_tre p data;
  assert_ (negb (a =? 0)) "paddr";;
  assert_ (negb (d =? 0)) "data";;
  b ← gets barrierMap;
  fatal_if (bool_decide (is_Some (b !! a))) "Barrier cannot be re-initialized!";;
  modify (set_barrierMap (<[a := new_TREBarrier d]> b));;
  count_entry p;;
  tick_again p;;
  upd_tre p (set_args 0 0).

Definition waitAtBarrier (p : nat) : T unit :=
  a ← gets_tre p paddr;
  assert_ (negb (a =? 0)) "paddr";;
  b ← gets barrierMap;
  match b !! a with
  | None => rewind p
  | Some ba =>
      let arrived := ba_arrived ba ++ [p] in
      modify (set_barrierMap (<[a := mkBarrier (ba_count ba) arrived]> b));;
      when_ (Z.of_nat (length arrived) =? ba_count ba)
        (forM_ arrived (fun t => schedule_next p t TickEv);;
         modify (fun w => set_barrierMap (<[a := mkBarrier (ba_count ba) []]> (barrierMap w)) w));;
      count_entry p;;
      upd_tre p (set_paddr 0)
  end.

(** ** Sleep and wake *)

Definition wake (p : nat) : T unit :=
  d ← gets_tre p data;
  assert_ (negb (d =? 0)) "data";;
  all ← gets allTREs;
  match all !! Z.to_nat d with
  | None => throw (EUndefined "allTREs index out of range")
  | Some target =>
      awake ← gets (ev_scheduled target TickEv);
      fatal_if awake "Target TRE already awake!";;
      schedule_next p target TickEv;;
      count_entry p;;
      tick_again p;;
      upd_tre p (set_data 0)
  end.

Definition sleep (p : nat) : T unit := mret tt.

(** ** Queues between TREs *)

Definition initQueues (depth : Z) (m : gmap (Z * Z) TREQueue) : gmap (Z * Z) TREQueue :=
  fold_left (fun m k => match m !! k with Some _ => m | None => <[k := new_TREQueue (u32 depth)]> m end)
    [(0, 1); (0, 2); (0, 3); (0, 4)] m.
Definition teardownQueues (m : gmap (Z * Z) TREQueue) : gmap (Z * Z) TREQueue := ∅.

Definition push (p : nat) : T unit :=
  source ← gets_tre p (fun t => p_id (t_params t)); sink ← gets_tre p data;
  qs ← gets queues;
  match qs !! (source, sink) with
  | None => throw EExit
  | Some q =>
      if Z.of_nat (length (tq_q q)) =? tq_size q then
        modify (set_queues (<[(source, sink) := mkQueue (tq_q q) (tq_size q) (Some p) (waitingToPop q)]> qs))
      else
        modify (set_queues (<[(source, sink) :=
          mkQueue (tq_q q ++ [0]) (tq_size q) (waitingToPush q) (waitingToPop q)]> qs));;
        match waitingToPop q with
        | Some t =>
            schedule_next p t PopEv;;
            modify (fun w => set_queues (<[(source, sink) :=
              mkQueue (tq_q q ++ [0]) (tq_size q) (waitingToPush q) None]> (queues w)) w)
        | None => mret tt
        end;;
        count_entry p;;
        tick_again p;;
        upd_tre p (set_data 0)
  end.

Definition pop (p : nat) : T unit :=
  source ← gets_tre p data; sink ← gets_tre p (fun t => p_id (t_params t));
  qs ← gets queues;
  match qs !! (source, sink) with
  | None => throw EExit
  | Some q =>
      match tq_q q with
      | [] =>
          modify (set_queues (<[(source, sink) := mkQueue [] (tq_size q) (waitingToPush q) (Some p)]> qs))
      | _ :: rest =>
          modify (set_queues (<[(source, sink) :=
            mkQueue rest (tq_size q) (waitingToPush q) (waitingToPop q)]> qs));;
          match waitingToPush q with
          | Some t =>
              schedule_next p t PushEv;;
              modify (fun w => set_queues (<[(source, sink) :=
                mkQueue rest (tq_size q) None (waitingToPop q)]> (queues w)) w)
          | None => mret tt
          end;;
          count_entry p;;
          tick_again p;;
          upd_tre p (set_data 0)
      end
  end.

(** ** Executing one trace entry *)

Definition is_word (l : list string) (word : string) : bool := bool_decide (word ∈ l).

Definition ld_words : list string := ["LD"; "LDU"; "LDB"; "LDUB"]%string.
Definition st_words : list string := ["ST"; "STU"; "STB"; "STUB"]%string.
Definition blking_words : list string := ["LDB"; "LDUB"; "STB"; "STUB"]%string.
Definition uncacheable_words : list string := ["LDU"; "LDUB"; "STU"; "STUB"]%string.

(** Words converted where they are assigned: to an [Addr], to a 32-bit unsigned. *)
Definition read_addr (p : nat) : T Z :=
  word ← readNextToken p; v ← lift (stol 16 word); mret (u64 v).
Definition read_unsigned (p : nat) : T Z :=
  word ← readNextToken p; v ← lift (stol 10 word); mret (u32 v).
Definition read_int (p : nat) : T Z :=
  word ← readNextToken p; v ← lift (stoi 10 word); mret (u32 v).

(** The optional virtual PC and the address of an access. *)
Definition read_pc_addr (p : nat) : T (option Z * Z) :=
  word ← readNextToken p;
  match word with
  | EmptyString => throw (EUndefined "front() of an empty string")
  | String c rest =>
      if bool_decide (c = "@"%char) then
        pc ← lift (stol 10 rest);
        a ← read_addr p;
        mret (if u64 pc =? 2 ^ 64 - 1 then None else Some (u64 pc), a)
      else
        a ← lift (stol 16 word);
        mret (None, u64 a)
  end.

(** The loop over the dependency list, entered with its first word.  Every
    iteration consumes a word or fails on the empty one. *)
Fixpoint dep_loop (fuel : nat) (p : nat) (word : string) : T unit :=
  if bool_decide (word = ")"%string) then mret tt
  else match fuel with
       | O => throw EFuel
       | S f =>
           v ← lift (stol 16 word);
           let depAddr := u64 v in
           found ← addrInFlight p depAddr false;
           when_ found (upd_tre p (add_dep depAddr));;
           word' ← readNextToken p;
           dep_loop f p word'
       end.
Definition remaining (t : TRE) : nat := length (drop (t_pos t) (t_trace t)).
Definition read_deps (p : nat) : T unit :=
  word ← readNextToken p;
  n ← gets_tre p remaining;
  dep_loop (S (S n)) p word.

(** Wait for a blocking access in flight. *)
Definition block_on_blking (p : nat) : T unit :=
  depAddr ← blkingAccAddrInFlight p;
  when_ (negb (depAddr =? INVALID_PADDR))
    (empty ← gets_tre p (fun t => bool_decide (bp_deps (blockedPkt t) = ∅));
     assert_ empty "blockedPkt.deps.empty()";;
     upd_tre p (add_dep depAddr)).

Definition add_blking (s : TREStats) : TREStats :=
  mkStats (numLoads s) (numStores s) (numStalls s) (numBlkingAccesses s + 1) (numTraceEntries s).
Definition count_blking (p : nat) (b : bool) : T unit :=
  when_ b (upd_tre p (fun t => set_stats (add_blking (t_stats t)) t)).

(** What [tick] goes on with: command, uncacheable, blocking, pc. *)
Record Access := mkAccess {
  ac_cmd : TRECmd; ac_uncacheable : bool; ac_blking : bool; ac_pc : option Z
}.

(** A load or store entry. *)
Definition tick_mem (p : nat) (word : string) : T Access :=
  let cmd := if is_word ld_words word then LD else ST in
  let blking := is_word blking_words word in
  let uncacheable := is_word uncacheable_words word in
  count_blking p blking;;
  '(pc, a) ← read_pc_addr p;
  upd_tre p (set_paddr a);;
  full ← gets_tre p (fun t => p_max_outstanding (t_params t) <=? Z.of_nat (length (outstandingAddrs t)));
  when_ full (upd_tre p (fun t => set_blocked true (blockedPkt t) t));;
  block_on_blking p;;
  paren ← readNextToken p;
  fatal_if (negb (is_word ["("%string] paren))
    "Expecting parenthesis indicating the start of dependency list";;
  read_deps p;;
  blk ← gets_tre p blocked;
  when_ blk (upd_tre p (fun t => let b := blockedPkt t in
    set_blocked true (mkBlocked (paddr t) cmd (bp_data b) uncacheable blking (bp_deps b)) t));;
  count_entry p;;
  mret (mkAccess cmd uncacheable blking pc).

Definition add_stalls (n : Z) (s : TREStats) : TREStats :=
  mkStats (numLoads s) (numStores s) (numStalls s + n) (numBlkingAccesses s) (numTraceEntries s + n).

(** A stall entry. *)
Definition tick_stall (p : nat) (word : string) : T Access :=
  let blking := is_word ["STALLB"%string] word in
  count_blking p blking;;
  d ← read_unsigned p;
  upd_tre p (set_data d);;
  paren ← readNextToken p;
  assert_ (is_word ["("%string] paren) "Expecting paranthesis indicating start of dependency list";;
  read_deps p;;
  block_on_blking p;;
  blk ← gets_tre p blocked;
  when_ blk
    (empty ← gets_tre p (fun t => bool_decide (bp_deps (blockedPkt t) = ∅));
     assert_ (negb empty) "!blockedPkt.deps.empty()";;
     upd_tre p (fun t => let b := blockedPkt t in
       set_blocked true (mkBlocked (bp_addr b) STALL (data t) (bp_uncacheable b) blking (bp_deps b)) t));;
  upd_tre p (fun t => set_stats (add_stalls (data t) (t_stats t)) t);;
  mret (mkAccess STALL false blking None).

(** A primitive: read its cycle count, then run it now or schedule its event. *)
Definition after_cycles (p : nat) (ev : tre_event) (h : T unit) : T unit :=
  cycles ← read_unsigned p;
  match cycles with
  | 0 => h
  | _ => when ← edge p cycles; on_wsched (s_schedule (p, ev) when)
  end.

Definition with_paddr (p : nat) (k : T unit) : T unit :=
  a ← read_addr p; upd_tre p (set_paddr a);; k.
Definition with_pe (p : nat) (k : T unit) : T unit :=
  d ← read_int p; upd_tre p (set_data d);; k.

(** The branches of [tick] for the primitives; [None] when [word] is not one. *)
Definition tick_primitive (p : nat) (word : string) (env : Env) : option (T unit) :=
  if is_word ["MTXINIT"%string] word then
    Some (with_paddr p (after_cycles p InitMutexEv (initMutex p)))
  else if is_word ["MTXLOCK"%string] word then
    Some (with_paddr p (after_cycles p LockMutexEv (lockMutex p)))
  else if is_word ["MTXUNLOCK"%string] word then
    Some (with_paddr p (after_cycles p UnlockMutexEv (unlockMutex p env)))
  else if is_word ["BARINIT"%string] word then
    Some (with_paddr p (d ← read_unsigned p; upd_tre p (set_data d);;
                        after_cycles p InitBarrierEv (initBarrier p)))
  else if is_word ["BARWAIT"%string] word then
    Some (with_paddr p (after_cycles p WaitAtBarrierEv (waitAtBarrier p)))
  else if is_word ["SLEEP"%string] word then
    Some (after_cycles p SleepEv (sleep p))
  else if is_word ["WAKE"%string] word then
    Some (with_pe p (after_cycles p WakeEv (wake p)))
  else if is_word ["POP"%string] word then
    Some (with_pe p (after_cycles p PopEv (pop p)))
  else if is_word ["PUSH"%string] word then
    Some (with_pe p (after_cycles p PushEv (push p)))
  else if is_word ["DMP"%string] word then
    Some (after_cycles p DumpStatsEv (dumpstats p 0 0))
  else if is_word ["RST"%string] word then
    Some (after_cycles p ResetStatsEv (resetstats p 0 0))
  else if is_word ["DMPRST"%string] word then
    Some (after_cycles p DumpResetStatsEv (dumpresetstats p 0 0))
  else None.

(** [tick] re-entered while blocked: all recorded dependencies must have returned. *)
Definition tick_blocked (p : nat) : T (option Access) :=
  out ← gets_tre p outstandingAddrs;
  b ← gets_tre p blockedPkt;
  if existsb (fun d => in_flight d out) (elements (bp_deps b)) then mret None
  else
    upd_tre p (fun t => set_args (bp_addr b) (bp_data b) (set_blocked false (with_deps ∅ b) t));;
    mret (Some (mkAccess (bp_cmd b) (bp_uncacheable b) (bp_blking b) None)).

(** Create the packet and hand it to the port. *)
Definition tick_issue (p : nat) (ac : Access) (env : Env) : T unit :=
  a ← gets_tre p paddr;
  ctx ← gets_tre p (fun t => p_id (t_params t));
  upd_tre p (fun t => set_out (outstandingAddrs t ++ [(a, ac_blking ac)]) t);;
  n ← gets_tre p (fun t => length (outstandingAddrs t));
  panic_if (100 <? Z.of_nat n) "Tester has more than 100 outstanding requests";;
  cmd ← match ac_cmd ac with
        | LD => mret ReadReq
        | ST => mret WriteReq
        | STALL => throw (EAssert "false")
        end;
  keep_ticking ← sendPkt p (mkTPacket cmd a 4 (ac_uncacheable ac) ctx (ac_pc ac)) env;
  pc ← gets_tre p (fun t => p_progress_check (t_params t));
  when_ keep_ticking
    (tick_again p;;
     when ← edge p pc;
     on_wsched (s_reschedule (p, NoRequestEv) when true));;
  resp ← gets (ev_scheduled p NoResponseEv);
  out ← gets_tre p outstandingAddrs;
  when_ (negb resp && negb (bool_decide (out = [])))
    (when ← edge p pc; on_wsched (s_schedule (p, NoResponseEv) when)).

(** The tail of [tick], after the entry has been decoded. *)
Definition tick_tail (p : nat) (ac : Access) (env : Env) : T unit :=
  blk ← gets_tre p blocked;
  match blk with
  | true => mret tt
  | false =>
      match ac_cmd ac with
      | STALL =>
          d ← gets_tre p data; i ← interval p;
          when ← edge p (u64 (i * d));
          on_wsched (s_schedule (p, TickEv) when)
      | _ => tick_issue p ac env
      end
  end.

(** [tick] when the TRE is not blocked: read the next entry. *)
Definition tick_decode (p : nat) (env : Env) : T unit :=
  upd_tre p (fun t => set_last (t_pos t) t);;
  word ← readNextToken p;
  if is_word ["EOF"%string] word then halt p
  else if is_word (ld_words ++ st_words) word then
    ac ← tick_mem p word; tick_tail p ac env
  else if is_word ["STALL"; "STALLB"]%string word then
    ac ← tick_stall p word; tick_tail p ac env
  else match tick_primitive p word env with
       | Some h => h
       | None => throw (EFatal "Invalid token read")
       end.

Definition tick (p : nat) (env : Env) : T unit :=
  r ← gets_tre p retryPkt;
  assert_ (bool_decide (r = None)) "!retryPkt";;
  blk ← gets_tre p blocked;
  match blk with
  | true =>
      ac ← tick_blocked p;
      match ac with
      | None => mret tt
      | Some ac => tick_tail p ac env
      end
  | false => tick_decode p env
  end.

(** ** Construction and destruction *)

Definition new_TRE (pr : TREParams) (trace : list string) (opened : bool) : TRE :=
  mkTRE pr new_Clocked trace 0 0 opened [] false
    (mkBlocked 0 LD 0 false false ∅) None 0 0 (p_progress_interval pr) (mkStats 0 0 0 0 0).

(** The constructor of the object at [p]; [None] when its trace file cannot be opened. *)
Definition construct_TRE (p : nat) (pr : TREParams) (trace : option (list string)) : T unit :=
  match trace with
  | None => modify (fun w => set_w_tres (<[p := new_TRE pr [] false]> (w_tres w)) w)
  | Some words =>
      modify (fun w => set_w_tres (<[p := new_TRE pr words true]> (w_tres w)) w);;
      modify (fun w => set_statics (allTREs w ++ [p]) (TESTER_ALLOCATOR w) (numIdleTREs w) (w_exit w) w);;
      now ← gets world_now;
      on_wsched (s_schedule (p, TickEv) now);;
      when ← edge p (p_progress_check pr);
      on_wsched (s_schedule (p, NoRequestEv) when);;
      alloc ← gets TESTER_ALLOCATOR;
      when_ ((alloc =? 0) && negb (p_queue_depth pr =? 0))
        (modify (fun w => set_queues (initQueues (p_queue_depth pr) (queues w)) w));;
      modify (fun w => set_statics (allTREs w) (u32 (TESTER_ALLOCATOR w + 1)) (numIdleTREs w) (w_exit w) w)
  end.

(** The destructor. *)
Definition destruct_TRE (p : nat) : T unit :=
  modify (fun w => set_statics (allTREs w) (u32 (TESTER_ALLOCATOR w - 1)) (numIdleTREs w) (w_exit w) w);;
  allocated ← gets_tre p t_events;
  match allocated with
  | true => mret tt
  | false => throw (EUndefined "delete of an uninitialised pointer")
  end;;
  depth ← gets_tre p (fun t => p_queue_depth (t_params t));
  alloc ← gets TESTER_ALLOCATOR;
  when_ ((alloc =? 0) && negb (depth =? 0))
    (modify (fun w => set_queues (teardownQueues (queues w)) w)).

(** ** Steps of the system of TREs *)

Definition handler (p : nat) (ev : tre_event) (env : Env) : T unit :=
  match ev with
  | TickEv => tick p env
  | NoRequestEv => noRequest
  | NoResponseEv => noResponse
  | InitMutexEv => initMutex p
  | LockMutexEv => lockMutex p
  | UnlockMutexEv => unlockMutex p env
  | InitBarrierEv => initBarrier p
  | WaitAtBarrierEv => waitAtBarrier p
  | SleepEv => sleep p
  | WakeEv => wake p
  | PushEv => push p
  | PopEv => pop p
  | DumpStatsEv => dumpstats p 0 0
  | ResetStatsEv => resetstats p 0 0
  | DumpResetStatsEv => dumpresetstats p 0 0
  end.

Inductive w_input :=
  | WFire (p : nat) (ev : tre_event) (env : Env)          (* a due event fires *)
  | WResp (p : nat) (cmd : Command) (addr size : Z)       (* the port delivers a response *)
  | WRetry (p : nat) (env : Env)                          (* the port asks for a retry *)
  | WTime (t : Z).                                        (* other events of the simulator *)

Definition wfire (k : nat * tre_event) (h : T unit) : T unit := fun w =>
  match s_pending (w_sched w) !! k with
  | Some t =>
      if bool_decide (map_Forall (fun _ t' => t <= t') (s_pending (w_sched w)))
      then h (set_w_sched (s_service k t (w_sched w)) w)
      else Err (EUndefined "not the next event")
  | None => Err (EUndefined "not scheduled")
  end.

Definition w_step (i : w_input) : T unit :=
  match i with
  | WFire p ev env => wfire (p, ev) (handler p ev env)
  | WResp p cmd addr size => recvTimingResp p cmd addr size;; mret tt
  | WRetry p env => recvRetry p env
  | WTime t => fun w =>
      if (world_now w <=? t)
         && bool_decide (map_Forall (fun _ t' => t <= t') (s_pending (w_sched w)))
      then Ok (tt, set_w_sched (mkSched t (s_pending (w_sched w))) w)
      else Err (EUndefined "time may not pass a pending event")
  end.
