(* ===== verification/TREInv.v ===== *)
(** * The invariant of the system of TREs

    A TRE executes its trace sequentially: at any time it is in exactly one
    place (waiting for one event of its own, parked in a mutex, a barrier or a
    queue, waiting for a port retry or for a response, or nowhere because it
    sleeps or has halted).  [place] names the places, [Inv] ties them to the
    shared state and carries what each structure promises.  This file has the
    invariant and how the elementary updates preserve it. *)

From S2P Require Import Prelude Hoare EventSched Packet IntMath Clocked Strtol TRE.

Inductive place :=
  | PEvent (e : tre_event) | PMutex (a : Z) | PBarrier (a : Z)
  | PPush (k : Z * Z) | PPop (k : Z * Z) | PRetry | PBlocked | PNone.

#[global] Instance place_eq_dec : EqDecision place.
Proof. solve_decision. Defined.

(** The events that continue the execution of the trace, as opposed to the two watchdogs. *)
Definition ctrl (e : tre_event) : bool :=
  match e with NoRequestEv | NoResponseEv => false | _ => true end.

Definition on (s : Sched (nat * tre_event)) (k : nat * tre_event) : Prop :=
  is_Some (s_pending s !! k).

(** Configurations for which the 64-bit clock does not wrap before tick [2^62]. *)
Record params_ok (pr : TREParams) : Prop := {
  po_period : 0 < p_period pr < 2 ^ 16;
  po_interval : 0 <= p_interval pr < 2 ^ 12;
  po_check : 0 <= p_progress_check pr < 2 ^ 44;
  po_max : 0 <= p_max_outstanding pr
}.

Record clk_ok (now period : Z) (c : Clocked) : Prop := {
  co_cycle : 0 <= ck_cycle c <= ck_tick c;
  co_tick : ck_tick c <= now + period
}.

(** Only the youngest access in flight may be a blocking one. *)
Fixpoint blking_last (l : list (Z * bool)) : Prop :=
  match l with
  | [] => True
  | x :: l' => (l' = [] \/ x.2 = false) /\ blking_last l'
  end.

(** No word of the trace reads as -1 in base 16.  The decoder accepts such a
    word, as the address [INVALID_PADDR], which [blkingAccAddrInFlight] cannot
    tell from its answer that no blocking access is in flight; TREDemo shows
    what follows. *)
Definition trace_ok (l : list string) : Prop := Forall (fun w => stol 16 w <> Ok (-1)) l.

Record tre_ok (win : bool) (s : Sched (nat * tre_event)) (pl : place) (p : nat) (t : TRE) : Prop := {
  tk_params : params_ok (t_params t);
  tk_clk : clk_ok (s_now s) (p_period (t_params t)) (t_clk t);
  tk_trace : trace_ok (t_trace t);
  tk_valid : Forall (fun x => x.1 <> INVALID_PADDR) (outstandingAddrs t)
             /\ bp_addr (blockedPkt t) <> INVALID_PADDR;
  tk_data : 0 <= data t < 2 ^ 32 /\ 0 <= bp_data (blockedPkt t) < 2 ^ 32;
  tk_retry : retryPkt t <> None -> pl = PRetry;
  tk_blocked : blocked t = true -> pl = PBlocked \/ pl = PEvent TickEv;
  tk_nodeps : blocked t = false -> bp_deps (blockedPkt t) = ∅;
  tk_atomic : win = false -> p_atomic (t_params t) = true -> outstandingAddrs t = [];
  tk_size : Z.of_nat (length (outstandingAddrs t)) <= p_max_outstanding (t_params t);
  tk_tick : blocked t = true -> on s (p, TickEv) ->
    Z.of_nat (length (outstandingAddrs t)) < p_max_outstanding (t_params t);
  tk_order : blking_last (outstandingAddrs t);
  tk_deps : blocked t = true ->
    forall a, (a, true) ∈ outstandingAddrs t -> a ∈ bp_deps (blockedPkt t);
  tk_watch : win = false -> outstandingAddrs t <> [] -> on s (p, NoResponseEv)
}.

Record mutex_ok (L : nat -> place) (a : Z) (m : TREMutex) : Prop := {
  mo_parked : forall p, p ∈ mx_waiting m -> L p = PMutex a;
  mo_nodup : NoDup (mx_waiting m);
  mo_free : mx_owner m = None -> mx_waiting m = [];
  mo_owner : forall o, mx_owner m = Some o -> o ∉ mx_waiting m
}.

Record barrier_ok (L : nat -> place) (a : Z) (b : TREBarrier) : Prop := {
  bo_parked : forall p, p ∈ ba_arrived b -> L p = PBarrier a;
  bo_nodup : NoDup (ba_arrived b);
  bo_count : Z.of_nat (length (ba_arrived b)) < ba_count b
}.

Record queue_ok (L : nat -> place) (k : Z * Z) (q : TREQueue) : Prop := {
  qo_len : Z.of_nat (length (tq_q q)) <= tq_size q;
  qo_push : forall p, waitingToPush q = Some p ->
    L p = PPush k /\ Z.of_nat (length (tq_q q)) = tq_size q;
  qo_pop : forall p, waitingToPop q = Some p -> L p = PPop k /\ tq_q q = []
}.

(** [win] is the TRE whose new access is not yet covered by its watchdog. *)
Record Inv (win : option nat) (L : nat -> place) (w : World) : Prop := {
  iv_wf : s_wf (w_sched w);
  iv_time : 0 <= world_now w < 2 ^ 62;
  iv_sched : forall p e, ctrl e = true -> on (w_sched w) (p, e) -> L p = PEvent e;
  iv_mutex : map_Forall (mutex_ok L) (mutexMap w);
  iv_barrier : map_Forall (barrier_ok L) (barrierMap w);
  iv_queue : map_Forall (queue_ok L) (queues w);
  iv_valid : forall p, L p <> PNone -> is_Some (w_tres w !! p);
  iv_tre : forall p t, w_tres w !! p = Some t ->
    tre_ok (bool_decide (win = Some p)) (w_sched w) (L p) p t
}.

(** Moving [p] to a place. *)
Definition move (p : nat) (pl : place) (L : nat -> place) : nat -> place :=
  fun q => if decide (p = q) then pl else L q.

Lemma move_eq p pl L : move p pl L p = pl.
Proof. unfold move. by rewrite decide_True. Qed.
Lemma move_ne p q pl L : p <> q -> move p pl L q = L q.
Proof. intros. unfold move. by rewrite decide_False. Qed.

(** ** The shared structures under a move *)

(** What parks a TRE in a shared structure. *)
Definition parked (pl : place) : bool :=
  match pl with PMutex _ | PBarrier _ | PPush _ | PPop _ => true | _ => false end.

Lemma mutex_ok_change (L L' : nat -> place) a m :
  (forall q, L q = PMutex a -> L' q = PMutex a) -> mutex_ok L a m -> mutex_ok L' a m.
Proof. intros HL [Hm ? ? ?]. split; try done. intros q Hq. by apply HL, Hm. Qed.

Lemma barrier_ok_change (L L' : nat -> place) a b :
  (forall q, L q = PBarrier a -> L' q = PBarrier a) -> barrier_ok L a b -> barrier_ok L' a b.
Proof. intros HL [Hm ? ?]. split; try done. intros q Hq. by apply HL, Hm. Qed.

Lemma queue_ok_change (L L' : nat -> place) k x :
  (forall q, L q = PPush k -> L' q = PPush k) -> (forall q, L q = PPop k -> L' q = PPop k) ->
  queue_ok L k x -> queue_ok L' k x.
Proof.
  intros H1 H2 [? Hp Ho]. split; [done| |].
  - intros q Hq. destruct (Hp _ Hq). auto.
  - intros q Hq. destruct (Ho _ Hq). auto.
Qed.

Lemma move_other p pl L (x : place) q : L p <> x -> L q = x -> move p pl L q = x.
Proof. intros Hp Hq. rewrite move_ne; [done|]. intros <-. congruence. Qed.

Lemma mutex_ok_move L p pl a m : L p <> PMutex a -> mutex_ok L a m -> mutex_ok (move p pl L) a m.
Proof. intros Hp. apply mutex_ok_change. intros q. by apply move_other. Qed.
Lemma barrier_ok_move L p pl a b :
  L p <> PBarrier a -> barrier_ok L a b -> barrier_ok (move p pl L) a b.
Proof. intros Hp. apply barrier_ok_change. intros q. by apply move_other. Qed.
Lemma queue_ok_move L p pl k q :
  L p <> PPush k -> L p <> PPop k -> queue_ok L k q -> queue_ok (move p pl L) k q.
Proof. intros Hp1 Hp2. apply queue_ok_change; intros x; by apply move_other. Qed.

Lemma mutexes_move (L : nat -> place) (p : nat) (pl : place) (m : gmap Z TREMutex) :
  (forall a, L p <> PMutex a) -> map_Forall (mutex_ok L) m -> map_Forall (mutex_ok (move p pl L)) m.
Proof. intros Hp Hm a x Ha. apply mutex_ok_move; [done|by apply Hm]. Qed.
Lemma barriers_move (L : nat -> place) (p : nat) (pl : place) (m : gmap Z TREBarrier) :
  (forall a, L p <> PBarrier a) -> map_Forall (barrier_ok L) m -> map_Forall (barrier_ok (move p pl L)) m.
Proof. intros Hp Hm a x Ha. apply barrier_ok_move; [done|by apply Hm]. Qed.
Lemma queues_move (L : nat -> place) (p : nat) (pl : place) (m : gmap (Z * Z) TREQueue) :
  (forall k, L p <> PPush k) -> (forall k, L p <> PPop k) ->
  map_Forall (queue_ok L) m -> map_Forall (queue_ok (move p pl L)) m.
Proof. intros Hp1 Hp2 Hm a x Ha. apply queue_ok_move; [done|done|by apply Hm]. Qed.

(** ** Updating one TRE *)

Lemma Inv_upd_tre win L w p t t' :
  Inv win L w -> w_tres w !! p = Some t ->
  tre_ok (bool_decide (win = Some p)) (w_sched w) (L p) p t' ->
  Inv win L (set_w_tres (<[p := t']> (w_tres w)) w).
Proof.
  intros [] Hp Ht'. split; try done; simpl.
  - intros q Hq. destruct (decide (p = q)) as [<-|]; [rewrite lookup_insert_eq; eauto|].
    rewrite lookup_insert_ne by done. eauto.
  - intros q tq. destruct (decide (p = q)) as [<-|].
    + rewrite lookup_insert_eq. by intros [= <-].
    + rewrite lookup_insert_ne by done. eauto.
Qed.

(** Changes to the position, the scratch arguments and the statistics. *)
Record same_core (t t' : TRE) : Prop := {
  sc_params : t_params t' = t_params t; sc_clk : t_clk t' = t_clk t;
  sc_trace : t_trace t' = t_trace t;
  sc_out : outstandingAddrs t' = outstandingAddrs t; sc_blocked : blocked t' = blocked t;
  sc_pkt : blockedPkt t' = blockedPkt t; sc_retry : retryPkt t' = retryPkt t;
  sc_data : 0 <= data t < 2 ^ 32 -> 0 <= data t' < 2 ^ 32
}.

Lemma tre_ok_core win s pl p t t' : same_core t t' -> tre_ok win s pl p t -> tre_ok win s pl p t'.
Proof.
  intros [E1 E2 E3 E4 E5 E6 E7 E8] [? ? ? ? [] ? ? ? ? ? ? ? ? ?].
  split; rewrite ?E1, ?E2, ?E3, ?E4, ?E5, ?E6, ?E7; try done. auto.
Qed.

Lemma Inv_core win L w p t t' :
  Inv win L w -> w_tres w !! p = Some t -> same_core t t' ->
  Inv win L (set_w_tres (<[p := t']> (w_tres w)) w).
Proof. intros Hi Hp Hc. eapply Inv_upd_tre; [done..|]. eapply tre_ok_core; [done|]. by apply Hi. Qed.

(** ** Running forwards *)

Lemma bind_gets_tre {A B} p (f : TRE -> A) (k : A -> T B) w t :
  w_tres w !! p = Some t -> (gets_tre p f ≫= k) w = k (f t) w.
Proof. intros Hp. unfold gets_tre, mbind, M_bind. by rewrite Hp. Qed.

Lemma bind_upd_tre {B} p f (k : unit -> T B) w t :
  w_tres w !! p = Some t ->
  (upd_tre p f ≫= k) w = k tt (set_w_tres (<[p := f t]> (w_tres w)) w).
Proof. intros Hp. unfold upd_tre, mbind, M_bind. by rewrite Hp. Qed.

Lemma upd_tre_run p f w t :
  w_tres w !! p = Some t -> upd_tre p f w = Ok (tt, set_w_tres (<[p := f t]> (w_tres w)) w).
Proof. intros Hp. unfold upd_tre. by rewrite Hp. Qed.

Lemma on_wsched_run m w s : m (w_sched w) = Ok (tt, s) -> on_wsched m w = Ok (tt, set_w_sched s w).
Proof. intros Hm. unfold on_wsched. by rewrite Hm. Qed.

(** ** The clock *)

Lemma clk_room now pr c : 0 <= now < 2 ^ 62 -> params_ok pr -> clk_ok now (p_period pr) c ->
  clock_room now (p_period pr) c.
Proof. intros Hn [] []. split; lia. Qed.

Lemma edge_value now pr c cycles :
  0 <= now < 2 ^ 62 -> params_ok pr -> clk_ok now (p_period pr) c -> 0 <= cycles < 2 ^ 44 ->
  now <= (clockEdge now (p_period pr) cycles c).1
  /\ clk_ok now (p_period pr) (clockEdge now (p_period pr) cycles c).2.
Proof.
  intros Hn Hp Hc Hcy. pose proof (clk_room now pr c Hn Hp Hc) as Hr. destruct Hp, Hc. split.
  - apply clockEdge_future; [done|lia|]. assert (p_period pr * cycles <= 2 ^ 16 * 2 ^ 44) by nia. lia.
  - pose proof (update_spec _ _ _ Hr) as (H1 & H2 & H3 & H4). simpl.
    set (c' := update now (p_period pr) c) in *.
    assert (ck_cycle c' - ck_cycle c <= ck_tick c' - ck_tick c) by nia.
    split; [lia|]. destruct H4 as [|Heq]; [lia|rewrite Heq; lia].
Qed.

(** [edge] succeeds, answers a tick that is not in the past, and changes the
    object's clock only. *)
Lemma edge_spec win L w p t cycles :
  Inv win L w -> w_tres w !! p = Some t -> 0 <= cycles < 2 ^ 44 ->
  exists when clk', edge p cycles w = Ok (when, set_w_tres (<[p := set_clk clk' t]> (w_tres w)) w)
    /\ world_now w <= when /\ Inv win L (set_w_tres (<[p := set_clk clk' t]> (w_tres w)) w).
Proof.
  intros Hi Hp Hcy. pose proof (iv_tre _ _ _ Hi _ _ Hp) as Ht.
  destruct (edge_value (world_now w) (t_params t) (t_clk t) cycles) as [Hv Hc]; [apply Hi|apply Ht|apply Ht|done|].
  unfold edge. rewrite bind_gets, !(bind_gets_tre _ _ _ _ t) by done.
  destruct (clockEdge _ _ _ _) as [when clk'] eqn:E; simpl in Hv, Hc.
  rewrite (bind_upd_tre _ _ _ _ t) by done.
  exists when, clk'. split; [done|]. split; [done|].
  eapply Inv_upd_tre; [done..|]. destruct Ht. by split.
Qed.

(** ** Scheduling *)

Lemma on_insert s n k k' t :
  on (mkSched n (<[k := t]> (s_pending s))) k' <-> k = k' \/ on s k'.
Proof.
  unfold on; simpl. destruct (decide (k = k')) as [<-|Hne].
  - rewrite lookup_insert_eq. split; eauto.
  - rewrite lookup_insert_ne by done. naive_solver.
Qed.

Lemma on_delete s n k k' : on (mkSched n (delete k (s_pending s))) k' <-> k <> k' /\ on s k'.
Proof.
  unfold on; simpl. destruct (decide (k = k')) as [<-|Hne].
  - rewrite lookup_delete_eq. split; [by intros [? ?]|naive_solver].
  - rewrite lookup_delete_ne by done. naive_solver.
Qed.

Lemma on_scheduled s k : s_scheduled k s = true <-> on s k.
Proof. unfold s_scheduled, on. by rewrite bool_decide_eq_true. Qed.

Lemma not_on_scheduled s k : ~ on s k -> s_scheduled k s = false.
Proof. intros Hn. apply not_true_is_false. by rewrite on_scheduled. Qed.

Lemma s_wf_insert (s : Sched (nat * tre_event)) k t :
  s_wf s -> s_now s <= t -> s_wf (mkSched (s_now s) (<[k := t]> (s_pending s))).
Proof. intros Hw Ht. unfold s_wf; simpl. by apply map_Forall_insert_2. Qed.

(** The conditions on one TRE when the scheduler changes around it. *)
Lemma tre_ok_sched win s s' pl pl' p t :
  tre_ok win s pl p t -> s_now s' = s_now s ->
  (retryPkt t <> None -> pl' = PRetry) ->
  (blocked t = true -> pl' = PBlocked \/ pl' = PEvent TickEv) ->
  (blocked t = true -> on s' (p, TickEv) -> on s (p, TickEv) \/
     Z.of_nat (length (outstandingAddrs t)) < p_max_outstanding (t_params t)) ->
  (outstandingAddrs t <> [] -> on s (p, NoResponseEv) -> on s' (p, NoResponseEv)) ->
  tre_ok win s' pl' p t.
Proof.
  intros [] Hn Hr Hb Ht Hw. split; try done; auto.
  - by rewrite Hn.
  - intros Hbl Hon. destruct (Ht Hbl Hon); auto.
Qed.

(** [q] may be given the control event [ev]. *)
Definition free_for (L : nat -> place) (q : nat) (ev : tre_event) : Prop :=
  L q = PNone \/ ev = TickEv /\ (L q = PBlocked \/ L q = PEvent TickEv).

Lemma free_for_not_parked L q ev : free_for L q ev -> parked (L q) = false.
Proof. by intros [->|[_ [->| ->]]]. Qed.

Lemma Inv_schedule win L w q ev when :
  Inv win L w -> ctrl ev = true -> world_now w <= when -> is_Some (w_tres w !! q) ->
  free_for L q ev ->
  (forall t, w_tres w !! q = Some t -> blocked t = true ->
     Z.of_nat (length (outstandingAddrs t)) < p_max_outstanding (t_params t)) ->
  Inv win (move q (PEvent ev) L)
    (set_w_sched (mkSched (world_now w) (<[(q, ev) := when]> (s_pending (w_sched w)))) w).
Proof.
  intros [] Hc Hw Hq Hf Hmax. pose proof (free_for_not_parked _ _ _ Hf) as Hnp.
  split; simpl; try done.
  - by apply s_wf_insert.
  - intros p e He [[= <- <-]|Hon]%on_insert; [by rewrite move_eq|].
    pose proof (iv_sched0 _ _ He Hon) as Hp.
    destruct (decide (q = p)) as [<-|]; [|by rewrite move_ne].
    rewrite move_eq. destruct Hf as [Hf|[-> [Hf|Hf]]]; congruence.
  - apply mutexes_move; [intros a Ha; by rewrite Ha in Hnp|done].
  - apply barriers_move; [intros a Ha; by rewrite Ha in Hnp|done].
  - apply queues_move; [intros a Ha; by rewrite Ha in Hnp..|done].
  - intros p. destruct (decide (q = p)) as [<-|]; [done|]. rewrite move_ne by done. eauto.
  - intros p t Ht. pose proof (iv_tre0 _ _ Ht) as Hok.
    eapply tre_ok_sched; [done|done| | | |by intros _ ?; apply on_insert; right].
    + intros Hr. pose proof (tk_retry _ _ _ _ _ Hok Hr) as Hpl.
      rewrite move_ne; [done|]. intros <-. destruct Hf as [Hf|[_ [Hf|Hf]]]; congruence.
    + intros Hb. destruct (decide (q = p)) as [<-|]; [|rewrite move_ne by done; by apply Hok].
      rewrite move_eq. right. pose proof (tk_blocked _ _ _ _ _ Hok Hb) as Hpl.
      destruct Hf as [Hf|[-> _]]; [|done]. rewrite Hf in Hpl. by destruct Hpl.
    + intros Hb [[= <- ->]|Hon]%on_insert; [right; eauto|by left].
Qed.

Lemma free_not_on win L w q ev :
  Inv win L w -> ctrl ev = true -> L q = PNone \/ L q = PBlocked -> ~ on (w_sched w) (q, ev).
Proof. intros Hi Hc Hq Hon. pose proof (iv_sched _ _ _ Hi _ _ Hc Hon). destruct Hq; congruence. Qed.

(** A TRE that is parked, or nowhere, changes place while the shared structures
    change with it. *)
Definition idle (pl : place) : bool :=
  match pl with PEvent _ | PRetry | PBlocked => false | _ => true end.

Lemma Inv_rearrange win (L L' : nat -> place) w w' :
  Inv win L w -> w_sched w' = w_sched w -> w_tres w' = w_tres w ->
  (forall q, L' q <> L q -> idle (L q) = true /\ is_Some (w_tres w !! q)) ->
  map_Forall (mutex_ok L') (mutexMap w') ->
  map_Forall (barrier_ok L') (barrierMap w') ->
  map_Forall (queue_ok L') (queues w') ->
  Inv win L' w'.
Proof.
  intros [] Hs Ht Hch Hm Hb Hq. split; unfold world_now; rewrite ?Hs, ?Ht; try done.
  - intros q e He Hon. pose proof (iv_sched0 _ _ He Hon) as Hpl.
    destruct (decide (L' q = L q)) as [->|Hne]; [done|].
    destruct (Hch _ Hne) as [Hl _]. by rewrite Hpl in Hl.
  - intros q Hq'. destruct (decide (L' q = L q)) as [Heq|Hne]; [|by apply Hch].
    apply iv_valid0. congruence.
  - intros q t Hqt. pose proof (iv_tre0 _ _ Hqt) as Hok.
    destruct (decide (L' q = L q)) as [->|Hne]; [done|]. destruct (Hch _ Hne) as [Hl _].
    eapply tre_ok_sched; [done|done| | |by left|done].
    + intros Hr. by rewrite (tk_retry _ _ _ _ _ Hok Hr) in Hl.
    + intros Hbl. by destruct (tk_blocked _ _ _ _ _ Hok Hbl) as [Heq|Heq]; rewrite Heq in Hl.
Qed.

Lemma Inv_relocate win L w w' p pl :
  Inv win L w -> w_sched w' = w_sched w -> w_tres w' = w_tres w -> is_Some (w_tres w !! p) ->
  idle (L p) = true ->
  map_Forall (mutex_ok (move p pl L)) (mutexMap w') ->
  map_Forall (barrier_ok (move p pl L)) (barrierMap w') ->
  map_Forall (queue_ok (move p pl L)) (queues w') ->
  Inv win (move p pl L) w'.
Proof.
  intros Hi Hs Ht Hv Hl Hm Hb Hq. apply (Inv_rearrange win L _ w); try done. intros q.
  destruct (decide (p = q)) as [<-|]; [done|]. by rewrite move_ne.
Qed.

(** The watchdogs. *)
Lemma Inv_watchdog win L w q e when :
  Inv win L w -> ctrl e = false -> world_now w <= when ->
  Inv win L (set_w_sched (mkSched (world_now w) (<[(q, e) := when]> (s_pending (w_sched w)))) w).
Proof.
  intros [] Hc Hw. split; simpl; try done.
  - by apply s_wf_insert.
  - intros p e' He [[= <- <-]|Hon]%on_insert; [congruence|eauto].
  - intros p t Ht. pose proof (iv_tre0 _ _ Ht) as Hok.
    eapply tre_ok_sched; [done|done|apply Hok|apply Hok| |by intros _ ?; apply on_insert; right].
    intros Hb [[= <- ->]|Hon]%on_insert; [done|by left].
Qed.

Lemma Inv_unwatch win L w q t :
  Inv win L w -> w_tres w !! q = Some t -> outstandingAddrs t = [] ->
  Inv win L (set_w_sched (mkSched (world_now w) (delete (q, NoResponseEv) (s_pending (w_sched w)))) w).
Proof.
  intros [] Hq Ho. split; simpl; try done.
  - unfold s_wf; simpl. by apply map_Forall_delete.
  - intros p e' He [_ Hon]%on_delete. eauto.
  - intros p t' Ht. pose proof (iv_tre0 _ _ Ht) as Hok.
    eapply tre_ok_sched; [done|done|apply Hok|apply Hok| |].
    + intros Hb [_ Hon]%on_delete. by left.
    + intros Hne Hon. apply on_delete. split; [|done]. intros [= <-]. congruence.
Qed.

(** ** [schedule_next] *)

(** What [schedule_next] leaves alone. *)
Record frame (w w' : World) : Prop := {
  fr_now : world_now w' = world_now w;
  fr_mutex : mutexMap w' = mutexMap w; fr_barrier : barrierMap w' = barrierMap w;
  fr_queues : queues w' = queues w; fr_all : allTREs w' = allTREs w;
  fr_tres : forall q t, w_tres w !! q = Some t ->
    exists clk', w_tres w' !! q = Some (set_clk clk' t)
}.

Lemma frame_trans w1 w2 w3 : frame w1 w2 -> frame w2 w3 -> frame w1 w3.
Proof.
  intros [] []. split; try congruence. intros q t Hq.
  destruct (fr_tres0 _ _ Hq) as [c1 H1]. destruct (fr_tres1 _ _ H1) as [c2 H2].
  exists c2. exact H2.
Qed.

Lemma frame_clk w p t clk' :
  w_tres w !! p = Some t -> frame w (set_w_tres (<[p := set_clk clk' t]> (w_tres w)) w).
Proof.
  intros Hp. split; try done. intros q tq Hq. simpl.
  destruct (decide (p = q)) as [<-|]; [rewrite lookup_insert_eq|rewrite lookup_insert_ne by done].
  - simplify_eq. eauto.
  - exists (t_clk tq). rewrite Hq. by destruct tq.
Qed.

Lemma frame_sched w s : s_now s = world_now w -> frame w (set_w_sched s w).
Proof.
  intros Hs. split; try done. intros q t Hq. exists (t_clk t). simpl. rewrite Hq. by destruct t.
Qed.

(** [self] gives the free TRE [target] its next control event. *)
Lemma schedule_next_spec win L w self target ev ts tt_ :
  Inv win L w -> w_tres w !! self = Some ts -> w_tres w !! target = Some tt_ ->
  ctrl ev = true -> free_for L target ev -> ~ on (w_sched w) (target, ev) ->
  (blocked tt_ = true -> Z.of_nat (length (outstandingAddrs tt_)) < p_max_outstanding (t_params tt_)) ->
  exists w', schedule_next self target ev w = Ok (tt, w') /\ frame w w'
    /\ Inv win (move target (PEvent ev) L) w'.
Proof.
  intros Hi Hs Htg Hc Hf Hon Hmax. unfold schedule_next, interval.
  rewrite (bind_gets_tre _ _ _ _ ts) by done.
  pose proof (iv_tre _ _ _ Hi _ _ Hs) as Hts.
  destruct (edge_spec win L w self ts (p_interval (t_params ts))) as (when & clk' & He & Hle & Hi1);
    [done|done|destruct (tk_params _ _ _ _ _ Hts); lia|].
  rewrite (bind_run _ _ _ _ _ He). set (w1 := set_w_tres _ w) in *.
  destruct (fr_tres _ _ (frame_clk w self ts clk' Hs) _ _ Htg) as [ck Htg1]. fold w1 in Htg1.
  rewrite (bind_gets_tre _ _ _ _ _ Htg1).
  erewrite on_wsched_run; cycle 1.
  { apply s_schedule_fresh; [done|by apply not_on_scheduled]. }
  eexists. split; [done|]. split.
  - apply (frame_trans _ w1); [exact (frame_clk w self ts clk' Hs)|by apply frame_sched].
  - apply (Inv_schedule win L w1); [done|done|done|eauto|done|].
    intros t Ht. rewrite Htg1 in Ht. by injection Ht as <-.
Qed.
