(* ===== verification/TREPrims.v ===== *)
(** * The synchronisation primitives keep the invariant

    Mutexes, barriers, sleep/wake, queues and the statistics primitives: run by
    a TRE that is nowhere else, each leaves the invariant intact and never
    schedules an event twice or in the past. *)

From S2P Require Import Prelude Hoare EventSched Packet IntMath Clocked Strtol TRE TREInv.

(** The failures a step of the TREs may end in, one by one.  Not among them: an
    event scheduled twice, in the past or not at all, a tick while a packet waits
    for a retry, a STALL handed to the port, a blocked STALL without a
    dependency, a dangling pointer, an index out of range, exhausted fuel. *)
Definition benign (e : err) : bool :=
  match e with
  | EAssert what => bool_decide (what ∈
      ["req->getSize() == 4"; "!erase || found"; "pkt->isWrite()"; "retryPkt";
       "numIdleTREs <= TESTER_ALLOCATOR"; "paddr"; "data"; "blockedPkt.deps.empty()";
       "Expecting paranthesis indicating start of dependency list"]%string)
  | EFatal msg => bool_decide (msg ∈
      ["Received unsolicited response to TRE"; "Mutex cannot be re-initialized!";
       "Double lock on mutex not allowed!"; "Non-owner attempted to call unlock on mutex!";
       "Barrier cannot be re-initialized!"; "Target TRE already awake!";
       "Expecting parenthesis indicating the start of dependency list"; "Invalid token read"]%string)
  | EPanic msg => bool_decide (msg ∈
      ["access failed"; "did not send a request"; "did not see a response";
       "Tester has more than 100 outstanding requests"]%string)
  | EUndefined what => bool_decide (what ∈
      ["allTREs index out of range"; "front() of an empty string"]%string)
  | EInvalidArgument | EOutOfRange | EExit => true
  | EFuel => false
  end.
Definition Eb (e : err) : Prop := benign e = true.

(** The object [p] exists, the invariant holds, and [p] is in a place satisfying [pl]. *)
Definition At (pl : place -> Prop) (p : nat) (w : World) : Prop :=
  exists L, Inv None L w /\ pl (L p) /\ is_Some (w_tres w !! p).
Definition Running : nat -> World -> Prop := At (fun pl => pl = PNone).
Definition Alive : nat -> World -> Prop := At (fun _ => True).

Lemma At_alive pl p w : At pl p w -> Alive p w.
Proof. intros (L & ? & _ & ?). by exists L. Qed.
#[export] Hint Resolve At_alive : hetsim.

(** *** Rules for one object *)

Lemma wp_gets_tre {A} p (f : TRE -> A) (Q : A -> World -> Prop) w t :
  w_tres w !! p = Some t -> Q (f t) w -> wp Eb (gets_tre p f) Q w.
Proof. intros Hp HQ. eapply wp_run; [|exact HQ]. unfold gets_tre. by rewrite Hp. Qed.

Lemma wp_upd_tre p f (Q : unit -> World -> Prop) w t :
  w_tres w !! p = Some t -> Q tt (set_w_tres (<[p := f t]> (w_tres w)) w) -> wp Eb (upd_tre p f) Q w.
Proof. intros Hp HQ. eapply wp_run; [|exact HQ]. by apply upd_tre_run. Qed.

Lemma At_core pl p w t t' :
  At pl p w -> w_tres w !! p = Some t -> same_core t t' ->
  At pl p (set_w_tres (<[p := t']> (w_tres w)) w).
Proof.
  intros (L & Hi & Hpl & _) Hp Hc. exists L. split; [by eapply Inv_core|].
  split; [done|]. simpl. rewrite lookup_insert_eq. eauto.
Qed.

Lemma upd_core pl p f :
  (forall t, same_core t (f t)) -> triple Eb (At pl p) (upd_tre p f) (fun _ => At pl p).
Proof.
  intros Hf w Hw. pose proof Hw as (L & Hi & Hpl & t & Hp).
  eapply wp_upd_tre; [done|]. by eapply At_core.
Qed.

Lemma count_entry_at pl p : triple Eb (At pl p) (count_entry p) (fun _ => At pl p).
Proof. apply upd_core. done. Qed.

Lemma read_at {A} pl p (f : TRE -> A) :
  triple Eb (At pl p) (gets_tre p f)
    (fun a w => At pl p w /\ exists t, w_tres w !! p = Some t /\ a = f t).
Proof. intros w Hw. pose proof Hw as (L & Hi & Hpl & t & Hp). eapply wp_gets_tre; eauto. Qed.

(** A free TRE is not blocked and has no event pending. *)
Lemma none_not_blocked win L w p t :
  Inv win L w -> w_tres w !! p = Some t -> L p = PNone -> blocked t = false.
Proof.
  intros Hi Hp HL. destruct (blocked t) eqn:E; [|done].
  destruct (tk_blocked _ _ _ _ _ (iv_tre _ _ _ Hi _ _ Hp) E); congruence.
Qed.

Lemma parked_not_blocked win L w p t :
  Inv win L w -> w_tres w !! p = Some t -> parked (L p) = true -> blocked t = false.
Proof.
  intros Hi Hp HL. destruct (blocked t) eqn:E; [|done].
  by destruct (tk_blocked _ _ _ _ _ (iv_tre _ _ _ Hi _ _ Hp) E) as [Heq|Heq]; rewrite Heq in HL.
Qed.

(** [self] schedules the free TRE [target]. *)
Lemma schedule_free win L w self target ev :
  Inv win L w -> is_Some (w_tres w !! self) -> is_Some (w_tres w !! target) ->
  ctrl ev = true -> L target = PNone ->
  exists w', schedule_next self target ev w = Ok (tt, w') /\ frame w w'
    /\ Inv win (move target (PEvent ev) L) w'.
Proof.
  intros Hi [ts Hs] [t Ht] Hc HL. eapply schedule_next_spec; try done; [by left| |].
  - eapply free_not_on; eauto.
  - by rewrite (none_not_blocked _ _ _ _ _ Hi Ht HL).
Qed.

Lemma frame_valid w w' q : frame w w' -> is_Some (w_tres w !! q) -> is_Some (w_tres w' !! q).
Proof. intros Hf [t Ht]. destruct (fr_tres _ _ Hf _ _ Ht); eauto. Qed.

Lemma tick_again_running p :
  triple Eb (Running p) (tick_again p) (fun _ => Alive p).
Proof.
  intros w (L & Hi & HL & Hp). destruct (schedule_free None L w p p TickEv) as (w' & Hr & Hf & Hi'); [done..|].
  eapply wp_run; [exact Hr|]. exists (move p (PEvent TickEv) L). split; [done|].
  split; [done|]. by eapply frame_valid.
Qed.

(** The common end of a primitive: count it, tick again, clear the arguments. *)
Lemma primitive_end p f :
  (forall t, same_core t (f t)) ->
  triple Eb (Running p) (count_entry p;; tick_again p;; upd_tre p f) (fun _ => Alive p).
Proof.
  intros Hf w Hw. wp_step. eapply wp_triple; [apply count_entry_at|exact Hw|]. intros [] w1 H1.
  wp_step. eapply wp_triple; [apply tick_again_running|exact H1|]. intros [] w2 H2.
  by apply upd_core.
Qed.

(** ** Statistics *)

Lemma Inv_logs win L w iss sr : Inv win L w -> Inv win L (set_logs iss sr w).
Proof. by intros []. Qed.

Lemma stat_event_ok dump reset p : triple Eb (Running p) (stat_event dump reset p 0 0) (fun _ => Alive p).
Proof.
  intros w Hw. unfold stat_event. do 6 wp_step. simpl.
  set (w1 := set_logs _ _ w).
  assert (Running p w1) as H1.
  { destruct Hw as (L & Hi & HL & Hp). exists L. split; [by apply Inv_logs|done]. }
  wp_step. eapply wp_triple; [apply count_entry_at|exact H1|]. intros [] w2 H2.
  by apply tick_again_running.
Qed.

(** ** Mutexes *)

Lemma Inv_mutexMap win L w m :
  Inv win L w -> map_Forall (mutex_ok L) m -> Inv win L (set_mutexMap m w).
Proof. intros [] Hm. by split. Qed.

Lemma At_mutexMap pl p w m :
  At pl p w -> (forall L, Inv None L w -> pl (L p) -> map_Forall (mutex_ok L) m) ->
  At pl p (set_mutexMap m w).
Proof. intros (L & Hi & HL & Hp) Hm. exists L. split; [apply Inv_mutexMap; eauto|done]. Qed.

Lemma initMutex_ok p : triple Eb (Running p) (initMutex p) (fun _ => Alive p).
Proof.
  intros w Hw. unfold initMutex.
  wp_step. eapply wp_triple; [apply read_at|exact Hw|]. intros a w1 [H1 _]. clear w Hw.
  do 2 wp_step. intros _. do 3 wp_step. wp_step. intros _. do 2 wp_step.
  apply primitive_end; [done|]. apply At_mutexMap; [done|].
  intros L Hi _. apply map_Forall_insert_2; [|apply Hi].
  split; simpl; [by intros q Hq; apply not_elem_of_nil in Hq|constructor|done|done].
Qed.

Lemma rewind_ok p : triple Eb (Running p) (rewind p) (fun _ => Alive p).
Proof.
  intros w Hw. unfold rewind. wp_step. eapply wp_triple; [by apply upd_core|exact Hw|].
  intros [] w1 H1. by apply tick_again_running.
Qed.

(** Parking [p] in a mutex, and taking a waiting TRE out of it. *)
Lemma Inv_park_mutex L w p a mx o :
  Inv None L w -> mutexMap w !! a = Some mx -> mx_owner mx = Some o -> o <> p ->
  L p = PNone -> is_Some (w_tres w !! p) ->
  Inv None (move p (PMutex a) L)
    (set_mutexMap (<[a := mkMutex (Some o) (mx_waiting mx ++ [p])]> (mutexMap w)) w).
Proof.
  intros Hi Ha Ho Hne HL Hp. pose proof (iv_mutex _ _ _ Hi _ _ Ha) as Hm.
  assert (mutex_ok (move p (PMutex a) L) a mx) as Hm' by (apply mutex_ok_move; [congruence|done]).
  eapply Inv_relocate; try done; [by rewrite HL|..]; simpl.
  - apply map_Forall_insert_2; [|apply mutexes_move; [congruence|apply Hi]].
    assert (p ∉ mx_waiting mx) as Hn.
    { intros Hin. pose proof (mo_parked _ _ _ Hm _ Hin). congruence. }
    split; simpl; [|apply NoDup_app; split_and!|done|].
    + intros q [Hq|Hq%list_elem_of_singleton]%elem_of_app; [by apply Hm'|subst q; apply move_eq].
    + apply Hm.
    + intros q Hq Hq'%list_elem_of_singleton. by subst q.
    + apply NoDup_singleton.
    + intros o' [= <-]. rewrite elem_of_app, list_elem_of_singleton.
      intros [Hin|?]; [|done]. by apply (mo_owner _ _ _ Hm o Ho).
  - apply barriers_move; [congruence|apply Hi].
  - apply queues_move; [congruence|congruence|apply Hi].
Qed.

Lemma Inv_unpark_mutex L w q a mx idx :
  Inv None L w -> mutexMap w !! a = Some mx -> mx_waiting mx !! idx = Some q ->
  Inv None (move q PNone L)
    (set_mutexMap (<[a := mkMutex (Some q) (delete idx (mx_waiting mx))]> (mutexMap w)) w)
  /\ L q = PMutex a.
Proof.
  intros Hi Ha Hq. pose proof (iv_mutex _ _ _ Hi _ _ Ha) as Hm.
  assert (L q = PMutex a) as HL by (apply Hm; by eapply list_elem_of_lookup_2).
  split; [|done].
  pose proof (delete_Permutation _ _ _ Hq) as Hperm. pose proof (mo_nodup _ _ _ Hm) as Hnd.
  rewrite Hperm in Hnd. apply NoDup_cons in Hnd as [Hnin Hnd].
  eapply Inv_relocate; try done; [apply (iv_valid _ _ _ Hi); congruence|by rewrite HL|..]; simpl.
  - apply map_Forall_replace.
    + split; simpl; [|done|done|by intros o [= <-]].
      intros r Hr. rewrite move_ne; [|by intros <-]. apply Hm. rewrite Hperm. by right.
    + intros a' m' Hne Ha'. apply mutex_ok_move; [congruence|by apply Hi].
  - apply barriers_move; [congruence|apply Hi].
  - apply queues_move; [congruence|congruence|apply Hi].
Qed.

Lemma lockMutex_ok p : triple Eb (Running p) (lockMutex p) (fun _ => Alive p).
Proof.
  intros w Hw. unfold lockMutex.
  wp_step. eapply wp_triple; [apply read_at|exact Hw|]. intros a w1 [H1 _]. clear w Hw.
  do 2 wp_step. intros _. do 2 wp_step.
  destruct (mutexMap w1 !! a) as [mx|] eqn:Ha; [|by apply rewind_ok].
  wp_step. apply (wp_mono _ _ (fun _ => Alive p)).
  - destruct (mx_owner mx) as [o|] eqn:Ho.
    + do 2 wp_step. intros Hne%bool_decide_eq_false_1. wp_step.
      destruct H1 as (L & Hi & HL & Hp). exists (move p (PMutex a) L).
      split; [by apply Inv_park_mutex|done].
    + do 2 wp_step. apply tick_again_running. apply At_mutexMap; [done|].
      intros L Hi _. apply map_Forall_insert_2; [|apply Hi].
      pose proof (iv_mutex _ _ _ Hi _ _ Ha) as Hm. rewrite (mo_free _ _ _ Hm Ho).
      split; simpl; [by intros q Hq; apply not_elem_of_nil in Hq|constructor|done|].
      intros o _. apply not_elem_of_nil.
  - intros [] w2 H2. wp_step. eapply wp_triple; [apply count_entry_at|exact H2|].
    intros [] w3 H3. by apply upd_core.
Qed.

(** Scheduling does not look at the shared structures, so it may be done before
    or after they are changed. *)
Record map_update (f : World -> World) : Prop := {
  mu_sched : forall w, w_sched (f w) = w_sched w;
  mu_tres : forall w, w_tres (f w) = w_tres w;
  mu_set_sched : forall s w, set_w_sched s (f w) = f (set_w_sched s w);
  mu_set_tres : forall t w, set_w_tres t (f w) = f (set_w_tres t w)
}.

Lemma schedule_next_commute f self target ev w :
  map_update f ->
  schedule_next self target ev (f w)
  = match schedule_next self target ev w with Ok (u, w') => Ok (u, f w') | Err e => Err e end.
Proof.
  intros [H1 H2 H3 H4].
  unfold schedule_next, interval, edge, gets_tre, upd_tre, on_wsched, gets, world_now, mbind, M_bind, mret, M_ret.
  rewrite H2. destruct (w_tres w !! self) as [ts|] eqn:Es; [|done].
  cbv beta iota. rewrite H2, Es, H1. cbv beta iota. rewrite H2, Es. cbv beta iota.
  destruct (clockEdge _ _ _ _) as [when clk']. rewrite H2, Es. cbv beta iota.
  rewrite H4, H2. destruct (w_tres (set_w_tres _ w) !! target); [|done]. cbv beta iota.
  rewrite H1. destruct (s_schedule _ _ _) as [[[] s]|e]; [|done]. by rewrite H3.
Qed.

Lemma schedule_then f self target ev w w'' (Q : unit -> World -> Prop) :
  map_update f -> schedule_next self target ev (f w) = Ok (tt, w'') -> Q tt w'' ->
  wp Eb (schedule_next self target ev;; modify f) Q w.
Proof.
  intros Hf Hs HQ. rewrite schedule_next_commute in Hs by done. wp_step.
  destruct (schedule_next self target ev w) as [[[] w']|e] eqn:E; [|done].
  eapply wp_run; [done|]. simpl. wp_step. by simplify_eq.
Qed.

Lemma pick_lookup r (l : list nat) : l <> [] -> is_Some (l !! pick r l).
Proof.
  intros Hl. apply lookup_lt_is_Some. unfold pick. destruct l as [|x l]; [done|].
  pose proof (Z.mod_pos_bound r (Z.of_nat (length (x :: l)))). simpl length in *. lia.
Qed.

(** Handing the mutex over. *)
Lemma handoff_ok p a mx idx target w :
  Running p w -> mutexMap w !! a = Some mx -> mx_waiting mx !! idx = Some target ->
  wp Eb (schedule_next p target TickEv;;
         modify (set_mutexMap (<[a := mkMutex (Some target) (delete idx (mx_waiting mx))]> (mutexMap w))))
     (fun _ => Running p) w.
Proof.
  intros (L & Hi & HL & Hp) Ha Hidx.
  destruct (Inv_unpark_mutex L w target a mx idx Hi Ha Hidx) as [Hi' HLt].
  assert (target <> p) as Hne by congruence.
  destruct (schedule_free None _ _ p target TickEv Hi') as (w' & Hr & Hf & Hi''); [done| |done|apply move_eq|].
  { apply (iv_valid _ _ _ Hi). congruence. }
  eapply schedule_then; [|exact Hr|]; [done|].
  exists (move target (PEvent TickEv) (move target PNone L)).
  split; [done|]. split; [by rewrite !move_ne|by eapply frame_valid].
Qed.

Lemma unlockMutex_ok p env : triple Eb (Running p) (unlockMutex p env) (fun _ => Alive p).
Proof.
  intros w Hw. unfold unlockMutex.
  wp_step. eapply wp_triple; [apply read_at|exact Hw|]. intros a w1 [H1 _]. clear w Hw.
  do 2 wp_step. intros _. do 2 wp_step.
  destruct (mutexMap w1 !! a) as [mx|] eqn:Ha; [|by wp_step].
  do 2 wp_step. intros _. wp_step. apply (wp_mono _ _ (fun _ => Running p)).
  - destruct (mx_waiting mx) as [|x l] eqn:Hwt.
    + wp_step. apply At_mutexMap; [done|]. intros L Hi _. apply map_Forall_insert_2; [|apply Hi].
      split; simpl; [by intros q Hq; apply not_elem_of_nil in Hq|constructor|done|done].
    + rewrite <- Hwt. destruct (pick_lookup (e_rand env) (mx_waiting mx)) as [target Ht]; [by rewrite Hwt|].
      rewrite Ht. by apply handoff_ok.
  - intros [] w2 H2. by apply primitive_end.
Qed.

(** ** Barriers *)

Lemma Inv_barrierMap win L w m :
  Inv win L w -> map_Forall (barrier_ok L) m -> Inv win L (set_barrierMap m w).
Proof. intros [] Hm. by split. Qed.

Lemma initBarrier_ok p : triple Eb (Running p) (initBarrier p) (fun _ => Alive p).
Proof.
  intros w Hw. unfold initBarrier.
  wp_step. eapply wp_triple; [apply read_at|exact Hw|]. intros a w1 [H1 _]. clear w Hw.
  wp_step. eapply wp_triple; [apply read_at|exact H1|]. intros d w2 [H2 (t & Ht & ->)]. clear w1 H1.
  do 2 wp_step. intros _. do 2 wp_step. intros Hd. do 3 wp_step. wp_step. intros _. do 2 wp_step.
  apply primitive_end; [done|]. destruct H2 as (L & Hi & HL & Hp). exists L. split; [|done].
  apply Inv_barrierMap; [done|]. apply map_Forall_insert_2; [|apply Hi].
  split; simpl; [by intros q Hq; apply not_elem_of_nil in Hq|constructor|].
  destruct (tk_data _ _ _ _ _ (iv_tre _ _ _ Hi _ _ Ht)). lia.
Qed.

Lemma Inv_park_barrier L w p a ba :
  Inv None L w -> barrierMap w !! a = Some ba -> L p = PNone -> is_Some (w_tres w !! p) ->
  Z.of_nat (length (ba_arrived ba ++ [p])) < ba_count ba ->
  Inv None (move p (PBarrier a) L)
    (set_barrierMap (<[a := mkBarrier (ba_count ba) (ba_arrived ba ++ [p])]> (barrierMap w)) w).
Proof.
  intros Hi Ha HL Hp Hlen. pose proof (iv_barrier _ _ _ Hi _ _ Ha) as Hb.
  assert (barrier_ok (move p (PBarrier a) L) a ba) as Hb' by (apply barrier_ok_move; [congruence|done]).
  eapply Inv_relocate; try done; [by rewrite HL|..]; simpl.
  - apply mutexes_move; [congruence|apply Hi].
  - apply map_Forall_insert_2; [|apply barriers_move; [congruence|apply Hi]].
    split; simpl; [|apply NoDup_app; split_and!|done].
    + intros q [Hq|Hq%list_elem_of_singleton]%elem_of_app; [by apply Hb'|subst q; apply move_eq].
    + apply Hb.
    + intros q Hq Hq'%list_elem_of_singleton. subst q.
      pose proof (bo_parked _ _ _ Hb _ Hq). congruence.
    + apply NoDup_singleton.
  - apply queues_move; [congruence|congruence|apply Hi].
Qed.

(** Everybody leaves the barrier. *)
Definition leave (l : list nat) (L : nat -> place) : nat -> place :=
  fun q => if decide (q ∈ l) then PNone else L q.

Lemma Inv_open_barrier L w a ba :
  Inv None L w -> barrierMap w !! a = Some ba ->
  Inv None (leave (ba_arrived ba) L)
    (set_barrierMap (<[a := mkBarrier (ba_count ba) []]> (barrierMap w)) w).
Proof.
  intros Hi Ha. pose proof (iv_barrier _ _ _ Hi _ _ Ha) as Hb.
  assert (forall q x, L q = x -> x <> PBarrier a -> leave (ba_arrived ba) L q = x) as Hl.
  { intros q x Hx Hne. unfold leave. case_decide as Hin; [|done].
    pose proof (bo_parked _ _ _ Hb _ Hin). congruence. }
  apply (Inv_rearrange None L _ _ _ Hi); try done; simpl.
  - intros q. unfold leave. case_decide as Hin; [|done]. intros _.
    pose proof (bo_parked _ _ _ Hb _ Hin) as HL. rewrite HL. split; [done|].
    apply (iv_valid _ _ _ Hi). congruence.
  - intros a' m Hm. eapply mutex_ok_change; [|by apply Hi]. intros q Hq. by apply Hl.
  - apply map_Forall_replace.
    + split; simpl; [by intros q Hq; apply not_elem_of_nil in Hq|constructor|].
      pose proof (bo_count _ _ _ Hb). lia.
    + intros a' b' Hne Hb'. eapply barrier_ok_change; [|by apply Hi].
      intros q Hq. apply Hl; [done|congruence].
  - intros k x Hx. eapply queue_ok_change; [| |by apply Hi]; intros q Hq; by apply Hl.
Qed.

(** Releasing a list of free TREs. *)
Lemma release_all p l L w :
  Inv None L w -> is_Some (w_tres w !! p) -> NoDup l ->
  (forall q, q ∈ l -> L q = PNone /\ is_Some (w_tres w !! q)) ->
  exists w' L', forM_ l (fun t => schedule_next p t TickEv) w = Ok (tt, w')
    /\ Inv None L' w' /\ is_Some (w_tres w' !! p).
Proof.
  intros Hi Hp Hnd. revert L w Hi Hp. induction Hnd as [|q l Hq _ IH]; intros L w Hi Hp Hl; [by exists w, L|].
  destruct (Hl q) as [HLq Hvq]; [by left|].
  destruct (schedule_free None L w p q TickEv) as (w1 & Hr & Hf & Hi1); [done..|].
  destruct (IH (move q (PEvent TickEv) L) w1) as (w' & L' & Hr' & Hi' & Hp');
    [done|by eapply frame_valid| |].
  { intros r Hr'. destruct (Hl r) as [HLr Hvr]; [by right|]. split; [|by eapply frame_valid].
    rewrite move_ne; [done|]. by intros <-. }
  exists w', L'. simpl. by rewrite (bind_run _ _ _ _ _ Hr).
Qed.

Lemma forM_commute f p l w :
  map_update f ->
  forM_ l (fun t => schedule_next p t TickEv) (f w)
  = match forM_ l (fun t => schedule_next p t TickEv) w with
    | Ok (u, w') => Ok (u, f w') | Err e => Err e end.
Proof.
  intros Hf. revert w. induction l as [|q l IH]; intros w; simpl; [done|].
  unfold mbind, M_bind. rewrite schedule_next_commute by done.
  destruct (schedule_next p q TickEv w) as [[[] w1]|e]; [apply IH|done].
Qed.

Lemma barrier_update a c : map_update (fun w => set_barrierMap (<[a := mkBarrier c []]> (barrierMap w)) w).
Proof. by split. Qed.

Lemma open_barrier_ok p a ba w :
  Running p w -> barrierMap w !! a = Some ba ->
  let arrived := ba_arrived ba ++ [p] in
  wp Eb (forM_ arrived (fun t => schedule_next p t TickEv);;
         modify (fun w => set_barrierMap (<[a := mkBarrier (ba_count ba) []]> (barrierMap w)) w))
    (fun _ => Alive p)
    (set_barrierMap (<[a := mkBarrier (ba_count ba) arrived]> (barrierMap w)) w).
Proof.
  intros (L & Hi & HL & Hp) Ha arrived. pose proof (iv_barrier _ _ _ Hi _ _ Ha) as Hb.
  assert (p ∉ ba_arrived ba) as Hnp.
  { intros Hin. pose proof (bo_parked _ _ _ Hb _ Hin). congruence. }
  pose proof (Inv_open_barrier L w a ba Hi Ha) as Hi0.
  set (w2 := set_barrierMap (<[a := mkBarrier (ba_count ba) arrived]> (barrierMap w)) w).
  assert (set_barrierMap (<[a := mkBarrier (ba_count ba) []]> (barrierMap w)) w
    = set_barrierMap (<[a := mkBarrier (ba_count ba) []]> (barrierMap w2)) w2) as Heq.
  { unfold w2; simpl. unfold set_barrierMap; simpl. by rewrite insert_insert_eq. }
  rewrite Heq in Hi0.
  destruct (release_all p arrived _ _ Hi0 Hp) as (w' & L' & Hr & Hi' & Hp').
  { apply NoDup_app. split; [apply Hb|]. split; [|apply NoDup_singleton].
    intros q Hq Hq'%list_elem_of_singleton. by subst. }
  { intros q [Hq|Hq%list_elem_of_singleton]%elem_of_app; unfold leave.
    - rewrite decide_True by done. split; [done|]. apply (iv_valid _ _ _ Hi).
      rewrite (bo_parked _ _ _ Hb _ Hq). done.
    - subst q. by rewrite decide_False. }
  rewrite (forM_commute _ p arrived w2 (barrier_update a (ba_count ba))) in Hr.
  wp_step. destruct (forM_ arrived _ w2) as [[[] w3]|e] eqn:E; [|done].
  eapply wp_run; [done|]. simpl. wp_step. simplify_eq. by exists L'.
Qed.

Lemma waitAtBarrier_ok p : triple Eb (Running p) (waitAtBarrier p) (fun _ => Alive p).
Proof.
  intros w Hw. unfold waitAtBarrier.
  wp_step. eapply wp_triple; [apply read_at|exact Hw|]. intros a w1 [H1 _]. clear w Hw.
  do 2 wp_step. intros _. do 2 wp_step.
  destruct (barrierMap w1 !! a) as [ba|] eqn:Ha; [|by apply rewind_ok]. cbv zeta.
  do 2 wp_step. wp_step. apply (wp_mono _ _ (fun _ => Alive p)).
  - apply wp_when; [intros _; by apply open_barrier_ok|]. intros Hc%Z.eqb_neq.
    destruct H1 as (L & Hi & HL & Hp). exists (move p (PBarrier a) L). split; [|done].
    apply Inv_park_barrier; try done.
    pose proof (bo_count _ _ _ (iv_barrier _ _ _ Hi _ _ Ha)). rewrite length_app in *. simpl in *. lia.
  - intros [] w2 H2. wp_step. eapply wp_triple; [apply count_entry_at|exact H2|].
    intros [] w3 H3. by apply upd_core.
Qed.

(** ** Queues *)

Lemma Inv_queues win L w m :
  Inv win L w -> map_Forall (queue_ok L) m -> Inv win L (set_queues m w).
Proof. intros [] Hm. by split. Qed.

Lemma Inv_park_queue L w p k q pl :
  Inv None L w -> L p = PNone -> is_Some (w_tres w !! p) ->
  queue_ok (move p pl L) k q ->
  Inv None (move p pl L) (set_queues (<[k := q]> (queues w)) w).
Proof.
  intros Hi HL Hp Hq. eapply Inv_relocate; try done; [by rewrite HL|..]; simpl.
  - apply mutexes_move; [congruence|apply Hi].
  - apply barriers_move; [congruence|apply Hi].
  - apply map_Forall_insert_2; [done|]. apply queues_move; [congruence|congruence|apply Hi].
Qed.

(** [t] leaves the queue [k] it was parked at. *)
Lemma Inv_unpark_queue L w t k q :
  Inv None L w -> L t = PPush k \/ L t = PPop k -> queue_ok (move t PNone L) k q ->
  Inv None (move t PNone L) (set_queues (<[k := q]> (queues w)) w).
Proof.
  intros Hi HL Hq. eapply Inv_relocate; try done; simpl.
  - apply (iv_valid _ _ _ Hi). destruct HL; congruence.
  - by destruct HL as [-> | ->].
  - apply mutexes_move; [destruct HL; congruence|apply Hi].
  - apply barriers_move; [destruct HL; congruence|apply Hi].
  - apply map_Forall_replace; [done|]. intros k' q' Hne Hq'.
    apply queue_ok_move; [destruct HL; congruence..|]. by apply Hi.
Qed.

Lemma queue_update k q : map_update (fun w => set_queues (<[k := q]> (queues w)) w).
Proof. by split. Qed.

(** Waking the peer parked at queue [k], whose new contents are [q]. *)
Lemma wake_peer_ok p t k q q0 ev w :
  Running p w -> ctrl ev = true ->
  (forall L, Inv None L w -> (L t = PPush k \/ L t = PPop k) /\ queue_ok (move t PNone L) k q) ->
  wp Eb (schedule_next p t ev;; modify (fun w => set_queues (<[k := q]> (queues w)) w))
    (fun _ => Running p) (set_queues (<[k := q0]> (queues w)) w).
Proof.
  intros (L & Hi & HL & Hp) Hev Hq. destruct (Hq L Hi) as [HLt Hqok].
  assert (t <> p) as Hne by (destruct HLt; congruence).
  pose proof (Inv_unpark_queue L w t k q Hi HLt Hqok) as Hi1.
  destruct (schedule_free None _ _ p t ev Hi1) as (w' & Hr & Hf & Hi'); [done| |done|apply move_eq|].
  { apply (iv_valid _ _ _ Hi). destruct HLt; congruence. }
  eapply (schedule_then _ p t ev _ w'); [apply queue_update| |].
  - rewrite <- Hr. f_equal. unfold set_queues; simpl. by rewrite insert_insert_eq.
  - exists (move t (PEvent ev) (move t PNone L)). split; [done|].
    split; [by rewrite !move_ne|by eapply frame_valid].
Qed.

(** A queue after a push, once nobody waits to pop. *)
Lemma queue_pushed L L' k q :
  queue_ok L k q -> Z.of_nat (length (tq_q q)) <> tq_size q ->
  queue_ok L' k (mkQueue (tq_q q ++ [0]) (tq_size q) (waitingToPush q) None).
Proof.
  intros [Hl H1 H2] Hne. split; simpl; [rewrite length_app; simpl; lia| |done].
  intros x Hx. by destruct (H1 _ Hx).
Qed.

(** A queue after a pop, once nobody waits to push. *)
Lemma queue_popped L L' k q x rest :
  queue_ok L k q -> tq_q q = x :: rest ->
  queue_ok L' k (mkQueue rest (tq_size q) None (waitingToPop q)).
Proof.
  intros [Hl H1 H2] Hq. rewrite Hq in Hl; simpl in Hl. split; simpl; [lia|done|].
  intros y Hy. destruct (H2 _ Hy); congruence.
Qed.

Lemma queue_park_push L p k q :
  queue_ok L k q -> L p = PNone -> Z.of_nat (length (tq_q q)) = tq_size q ->
  queue_ok (move p (PPush k) L) k (mkQueue (tq_q q) (tq_size q) (Some p) (waitingToPop q)).
Proof.
  intros [Hl H1 H2] HL Hf. split; simpl; [done| |].
  - intros x [= <-]. by rewrite move_eq.
  - intros x Hx. destruct (H2 _ Hx). split; [|done]. apply move_other; congruence.
Qed.

Lemma queue_park_pop L p k q :
  queue_ok L k q -> L p = PNone -> tq_q q = [] ->
  queue_ok (move p (PPop k) L) k (mkQueue [] (tq_size q) (waitingToPush q) (Some p)).
Proof.
  intros [Hl H1 H2] HL Hq. rewrite Hq in *. split; simpl; [done| |].
  - intros x Hx. destruct (H1 _ Hx). split; [|done]. apply move_other; congruence.
  - intros x [= <-]. by rewrite move_eq.
Qed.

Lemma push_ok p : triple Eb (Running p) (push p) (fun _ => Alive p).
Proof.
  intros w Hw. unfold push.
  wp_step. eapply wp_triple; [apply read_at|exact Hw|]. intros source w1 [H1 _]. clear w Hw.
  wp_step. eapply wp_triple; [apply read_at|exact H1|]. intros sink w [Hw _]. clear w1 H1.
  do 2 wp_step. set (k := (source, sink)).
  destruct (queues w !! k) as [q|] eqn:Hk; [|by wp_step].
  destruct (_ =? _) eqn:Hfull.
  - apply Z.eqb_eq in Hfull. wp_step. destruct Hw as (L & Hi & HL & Hp). exists (move p (PPush k) L).
    split; [|done]. apply Inv_park_queue; [done..|].
    apply queue_park_push; [by apply (iv_queue _ _ _ Hi)|done..].
  - apply Z.eqb_neq in Hfull. do 2 wp_step. wp_step. apply (wp_mono _ _ (fun _ => Running p)).
    + destruct (waitingToPop q) as [t|] eqn:Hpop.
      * apply wake_peer_ok; [done|done|]. intros L Hi.
        pose proof (iv_queue _ _ _ Hi _ _ Hk) as Hq. split.
        -- right. by apply (qo_pop _ _ _ Hq).
        -- by eapply queue_pushed.
      * wp_step. destruct Hw as (L & Hi & HL & Hp). exists L. split; [|done].
        apply Inv_queues; [done|]. apply map_Forall_insert_2; [|apply Hi].
        eapply queue_pushed; [|done]. by apply (iv_queue _ _ _ Hi).
    + intros [] w2 H2. by apply primitive_end.
Qed.

Lemma pop_ok p : triple Eb (Running p) (pop p) (fun _ => Alive p).
Proof.
  intros w Hw. unfold pop.
  wp_step. eapply wp_triple; [apply read_at|exact Hw|]. intros source w1 [H1 _]. clear w Hw.
  wp_step. eapply wp_triple; [apply read_at|exact H1|]. intros sink w [Hw _]. clear w1 H1.
  do 2 wp_step. set (k := (source, sink)).
  destruct (queues w !! k) as [q|] eqn:Hk; [|by wp_step].
  destruct (tq_q q) as [|x rest] eqn:Hq0.
  - wp_step. destruct Hw as (L & Hi & HL & Hp). exists (move p (PPop k) L).
    split; [|done]. apply Inv_park_queue; [done..|].
    apply queue_park_pop; [by apply (iv_queue _ _ _ Hi)|done..].
  - do 2 wp_step. wp_step. apply (wp_mono _ _ (fun _ => Running p)).
    + destruct (waitingToPush q) as [t|] eqn:Hpush.
      * apply wake_peer_ok; [done|done|]. intros L Hi.
        pose proof (iv_queue _ _ _ Hi _ _ Hk) as Hq. split.
        -- left. by apply (qo_push _ _ _ Hq).
        -- by eapply queue_popped.
      * wp_step. destruct Hw as (L & Hi & HL & Hp). exists L. split; [|done].
        apply Inv_queues; [done|]. apply map_Forall_insert_2; [|apply Hi].
        eapply queue_popped; [|done]. by apply (iv_queue _ _ _ Hi).
    + intros [] w2 H2. by apply primitive_end.
Qed.

(** ** Sleep and wake *)

(** [q] is asleep: no event continues it, nothing holds it, it waits for
    nothing.  A TRE that executed SLEEP or halted is in this state. *)
Record asleep (w : World) (q : nat) : Prop := {
  as_event : forall e, ctrl e = true -> ~ on (w_sched w) (q, e);
  as_mutex : map_Forall (fun _ m => q ∉ mx_waiting m) (mutexMap w);
  as_barrier : map_Forall (fun _ b => q ∉ ba_arrived b) (barrierMap w);
  as_queue : map_Forall (fun _ x => waitingToPush x <> Some q /\ waitingToPop x <> Some q) (queues w);
  as_self : forall t, w_tres w !! q = Some t -> retryPkt t = None /\ blocked t = false
}.

(** A sleeping TRE is nowhere. *)
Lemma Inv_asleep L w q : Inv None L w -> asleep w q -> Inv None (move q PNone L) w.
Proof.
  intros [Hwf Htm iv_sched0 iv_mutex0 iv_barrier0 iv_queue0 Hva iv_tre0]
    [as_event0 as_mutex0 as_barrier0 as_queue0 as_self0]. split; try done.
  - intros p e He Hon. rewrite move_ne; [by apply iv_sched0|]. intros <-. by eapply as_event0.
  - intros a m Ha. destruct (iv_mutex0 _ _ Ha) as [Hp ? ? ?]. split; try done.
    intros x Hx. rewrite move_ne; [by apply Hp|]. intros <-. by eapply as_mutex0.
  - intros a b Ha. destruct (iv_barrier0 _ _ Ha) as [Hp ? ?]. split; try done.
    intros x Hx. rewrite move_ne; [by apply Hp|]. intros <-. by eapply as_barrier0.
  - intros k x Hk. destruct (iv_queue0 _ _ Hk) as [? H1 H2]. destruct (as_queue0 _ _ Hk) as [N1 N2].
    split; [done| |]; intros y Hy.
    + rewrite move_ne; [by apply H1|congruence].
    + rewrite move_ne; [by apply H2|congruence].
  - intros x. destruct (decide (q = x)) as [<-|]; [by rewrite move_eq|]. rewrite move_ne by done. auto.
  - intros x t Hx. pose proof (iv_tre0 _ _ Hx) as Hok.
    destruct (decide (q = x)) as [<-|]; [|by rewrite move_ne].
    destruct (as_self0 _ Hx) as [Hr Hb]. destruct Hok. split; try done; by rewrite Hb.
Qed.

(** What a WAKE by [p] finds at its target: another TRE, which is about to tick
    (the WAKE is then refused) or asleep. *)
Definition wakeable (p : nat) (w : World) (q : nat) : Prop :=
  q <> p /\ (on (w_sched w) (q, TickEv) \/ asleep w q /\ is_Some (w_tres w !! q)).
Definition wake_ready (p : nat) (w : World) : Prop :=
  forall t q, w_tres w !! p = Some t -> allTREs w !! Z.to_nat (data t) = Some q -> wakeable p w q.

Lemma wake_ok p : triple Eb (fun w => Running p w /\ wake_ready p w) (wake p) (fun _ => Alive p).
Proof.
  intros w [Hw Hrd]. unfold wake. pose proof Hw as (L & Hi & HL & t & Ht).
  wp_step. eapply wp_gets_tre; [done|]. do 2 wp_step. intros _. do 2 wp_step.
  destruct (allTREs w !! Z.to_nat (data t)) as [q|] eqn:Hq; [|by wp_step].
  destruct (Hrd t q Ht Hq) as (Hne & Htg).
  do 2 wp_step. do 2 wp_step. intros Hoff. wp_step.
  destruct Htg as [Hon|[Has Hvq]].
  { apply on_scheduled in Hon. unfold ev_scheduled in Hoff. congruence. }
  pose proof (Inv_asleep _ _ _ Hi Has) as Hi1.
  destruct (schedule_free None _ _ p q TickEv Hi1) as (w' & Hr & Hf & Hi'); [eauto|done|done|apply move_eq|].
  eapply wp_run; [exact Hr|]. apply primitive_end; [done|].
  exists (move q (PEvent TickEv) (move q PNone L)). split; [done|].
  split; [by rewrite !move_ne by congruence|]. eapply frame_valid; [done|eauto].
Qed.
