(* ===== verification/TREMem.v ===== *)
(** * The memory side of a TRE keeps the invariant

    Issuing, completing and retrying accesses, decoding the entries of the
    trace, and the whole of [tick]. *)

From S2P Require Import Prelude Hoare EventSched Packet IntMath Clocked Strtol TRE TREInv TREPrims.

(** ** The list of accesses in flight *)

Lemma in_flight_elem a l : in_flight a l = true <-> exists b, (a, b) ∈ l.
Proof.
  unfold in_flight. rewrite existsb_exists. split.
  - intros ([x b] & Hin & Hx%Z.eqb_eq). simpl in Hx. subst x. exists b. by apply list_elem_of_In.
  - intros [b Hin]. exists (a, b). split; [by apply list_elem_of_In|apply Z.eqb_refl].
Qed.

Lemma erase_first_sub a l x : x ∈ erase_first a l -> x ∈ l.
Proof.
  induction l as [|y l IH]; simpl; [done|]. case_match; [by right|].
  intros [->|Hin]%elem_of_cons; [by left|right; auto].
Qed.

Lemma erase_first_length a l : in_flight a l = true -> S (length (erase_first a l)) = length l.
Proof.
  induction l as [|y l IH]; simpl; [done|]. destruct (y.1 =? a); simpl; [done|].
  intros Hin. by rewrite IH.
Qed.

Lemma blking_last_erase a l : blking_last l -> blking_last (erase_first a l).
Proof.
  induction l as [|y l IH]; simpl; [done|]. intros [Hy Hl]. case_match; [done|]. simpl.
  split; [|auto]. destruct Hy as [->|?]; [by left|by right].
Qed.

Lemma blking_last_app l x : Forall (fun y => y.2 = false) l -> blking_last (l ++ [x]).
Proof.
  induction 1 as [|y l Hy _ IH]; simpl; [by split; [left|]|]. split; [by right|done].
Qed.

(** The sentinel tells the absence of a blocking access when no address equals it. *)
Lemma blking_addr_none l :
  Forall (fun x => x.1 <> INVALID_PADDR) l -> blking_addr l = INVALID_PADDR ->
  Forall (fun y => y.2 = false) l.
Proof.
  induction 1 as [|[a b] l Ha _ IH]; simpl; [constructor|]. destruct b; [done|].
  intros Hl. constructor; auto.
Qed.

Lemma blking_addr_some l a :
  blking_last l -> Forall (fun x => x.1 <> INVALID_PADDR) l ->
  (a, true) ∈ l -> blking_addr l = a.
Proof.
  induction l as [|[x b] l IH]; simpl; intros Hb Hv Hin; [by apply not_elem_of_nil in Hin|].
  destruct Hb as [Hx Hl]. apply Forall_cons in Hv as [Hv0 Hv].
  apply elem_of_cons in Hin as [[= -> <-]|Hin]; [done|].
  destruct b; [|auto]. destruct Hx as [->|?]; [by apply not_elem_of_nil in Hin|done].
Qed.

(** Removing a completed access. *)
Lemma tre_ok_erase win s pl p t a :
  tre_ok win s pl p t -> in_flight a (outstandingAddrs t) = true ->
  tre_ok win s pl p (set_out (erase_first a (outstandingAddrs t)) t)
  /\ Z.of_nat (length (erase_first a (outstandingAddrs t))) < p_max_outstanding (t_params t).
Proof.
  intros [H1 H2 H3 [H4 H4'] H5 H6 H7 H8 H9 H10 H11 H12 H13 H14] Ha.
  pose proof (erase_first_length _ _ Ha) as Hlen.
  split; [|lia]. split; simpl; try done.
  - split; [|done]. rewrite Forall_forall in *. intros x Hx. by eapply H4, erase_first_sub.
  - intros Hw Hat. by rewrite (H9 Hw Hat) in Ha.
  - lia.
  - intros Hb Hon. specialize (H11 Hb Hon). lia.
  - by apply blking_last_erase.
  - intros Hb x Hx. eapply H13; [done|]. by eapply erase_first_sub.
  - intros Hw Hne. apply H14; [done|]. intros He. by rewrite He in Ha.
Qed.

(** ** Completion *)

(** The accesses in flight, the blocked flag and the parameters of [p] in [w]. *)
Definition has (p : nat) (out : list (Z * bool)) (blk : bool) (pr : TREParams) (w : World) : Prop :=
  exists t, w_tres w !! p = Some t /\ outstandingAddrs t = out /\ blocked t = blk /\ t_params t = pr.

Lemma has_frame p out blk pr w w' : frame w w' -> has p out blk pr w -> has p out blk pr w'.
Proof.
  intros Hf (t & Ht & <- & <- & <-). destruct (fr_tres _ _ Hf _ _ Ht) as [clk Ht'].
  by exists (set_clk clk t).
Qed.

Lemma resume_blocked_ok win L p out blk pr w :
  Inv win L w -> has p out blk pr w ->
  (blk = true -> Z.of_nat (length out) < p_max_outstanding pr) ->
  wp Eb (resume_blocked p)
    (fun _ w' => exists L', Inv win L' w' /\ has p out blk pr w' /\ (blk = false -> L' = L)) w.
Proof.
  intros Hi Hh Hmax. pose proof Hh as (t & Ht & <- & <- & <-).
  unfold resume_blocked. do 2 wp_step. wp_step. eapply wp_gets_tre; [done|].
  apply wp_when; [|intros _; by exists L].
  intros [Hn%negb_true_iff Hb]%andb_true_iff.
  assert (~ on (w_sched w) (p, TickEv)) as Hon.
  { unfold ev_scheduled in Hn. rewrite <- on_scheduled. congruence. }
  destruct (schedule_next_spec win L w p p TickEv t t) as (w' & Hr & Hf & Hi'); try done.
  { right. split; [done|]. by apply (tk_blocked _ _ _ _ _ (iv_tre _ _ _ Hi _ _ Ht)). }
  eapply wp_run; [exact Hr|]. exists (move p (PEvent TickEv) L).
  split; [done|]. split; [by eapply has_frame|]. congruence.
Qed.

(** A watchdog moved to a later edge. *)
Lemma edge_watchdog (win : option nat) (L : nat -> place) (p : nat) (out : list (Z * bool)) (blk : bool) (pr : TREParams) (e : tre_event) (cycles : Z) (w : World)
    (m : Z -> M (Sched (nat * tre_event)) unit) :
  Inv win L w -> has p out blk pr w -> ctrl e = false -> 0 <= cycles < 2 ^ 44 ->
  (forall s when, s_pending s = s_pending (w_sched w) -> s_now s <= when ->
     m when s = Ok (tt, mkSched (s_now s) (<[(p, e) := when]> (s_pending s)))) ->
  exists w', (when ← edge p cycles; on_wsched (m when)) w = Ok (tt, w')
    /\ Inv win L w' /\ has p out blk pr w' /\ on (w_sched w') (p, e).
Proof.
  intros Hi Hh He Hc Hm. pose proof Hh as (t & Ht & _).
  destruct (edge_spec win L w p t cycles) as (when & clk' & Hr & Hle & Hi1); [done..|].
  rewrite (bind_run _ _ _ _ _ Hr). set (w1 := set_w_tres _ w) in *.
  assert (frame w w1) as Hf by (by apply frame_clk).
  erewrite on_wsched_run; [|by apply Hm].
  eexists. split; [done|]. split; [by apply (Inv_watchdog win L w1)|].
  split; [|apply on_insert; by left].
  eapply has_frame; [by apply frame_sched|by eapply has_frame].
Qed.

Lemma s_reschedule_run {K} `{Countable K} (k : K) when always (s : Sched K) :
  s_now s <= when -> always || s_scheduled k s = true ->
  s_reschedule k when always s = Ok (tt, mkSched (s_now s) (<[k := when]> (s_pending s))).
Proof. intros Hle Hs. unfold s_reschedule. by rewrite (proj2 (Z.leb_le _ _) Hle), Hs. Qed.

Lemma check_range win L w p t : Inv win L w -> w_tres w !! p = Some t ->
  0 <= p_progress_check (t_params t) < 2 ^ 44.
Proof. intros Hi Ht. apply (iv_tre _ _ _ Hi _ _ Ht). Qed.

Lemma shift_response_timeout_ok win L p out blk pr w :
  Inv win L w -> has p out blk pr w -> (win = None \/ out = []) ->
  wp Eb (shift_response_timeout p) (fun _ w' => Inv win L w' /\ has p out blk pr w') w.
Proof.
  intros Hi Hh Hwin. pose proof Hh as (t & Ht & Hout & _).
  pose proof (check_range _ _ _ _ _ Hi Ht) as Hck.
  unfold shift_response_timeout. do 2 (wp_step; eapply wp_gets_tre; [done|]).
  destruct (outstandingAddrs t) as [|x l] eqn:Ho.
  - do 2 wp_step. apply wp_when; [|by intros _]. intros Hs.
    eapply wp_run.
    { apply on_wsched_run. unfold s_deschedule. unfold ev_scheduled in Hs. by rewrite Hs. }
    split; [by eapply Inv_unwatch|]. eapply has_frame; [|done]. by apply frame_sched.
  - destruct (edge_watchdog win L p out blk pr NoResponseEv (p_progress_check (t_params t)) w
      (fun when => s_reschedule (p, NoResponseEv) when false)) as (w' & Hr & Hi' & Hh' & _); try done.
    { intros s when Hp Hle. apply s_reschedule_run; [done|]. apply on_scheduled. unfold on. rewrite Hp.
      apply (tk_watch _ _ _ _ _ (iv_tre _ _ _ Hi _ _ Ht)); [|by rewrite Ho].
      destruct Hwin as [-> | ->]; [by apply bool_decide_eq_false_2|done]. }
    by eapply wp_run.
Qed.

Lemma addrInFlight_erase_ok win L p t a w :
  Inv win L w -> w_tres w !! p = Some t ->
  wp Eb (addrInFlight p a true)
    (fun found w' => in_flight a (outstandingAddrs t) = true /\ Inv win L w'
       /\ has p (erase_first a (outstandingAddrs t)) (blocked t) (t_params t) w'
       /\ Z.of_nat (length (erase_first a (outstandingAddrs t))) < p_max_outstanding (t_params t)) w.
Proof.
  intros Hi Ht. unfold addrInFlight. wp_step. eapply wp_gets_tre; [done|]. simpl.
  destruct (in_flight a (outstandingAddrs t)) eqn:Ha; simpl.
  - destruct (tre_ok_erase _ _ _ _ _ _ (iv_tre _ _ _ Hi _ _ Ht) Ha) as [Hok Hlt].
    wp_step. eapply wp_upd_tre; [done|]. repeat (wp_step || intros _).
    split; [done|]. split; [by eapply Inv_upd_tre|]. split; [|done].
    eexists. split; [apply lookup_insert_eq|done].
  - repeat (wp_step || intros ?); done.
Qed.

Lemma count_core win L p out blk pr w f :
  (forall t, same_core t (f t)) -> Inv win L w -> has p out blk pr w ->
  wp Eb (upd_tre p f) (fun _ w' => Inv win L w' /\ has p out blk pr w') w.
Proof.
  intros Hf Hi (t & Ht & <- & <- & <-). eapply wp_upd_tre; [done|].
  split; [by eapply Inv_core|]. exists (f t). destruct (Hf t). split; [apply lookup_insert_eq|done].
Qed.

Lemma completeRequest_ok win L p t cmd addr size w :
  Inv win L w -> w_tres w !! p = Some t ->
  (win = None \/ blocked t = false /\ length (outstandingAddrs t) = 1%nat) ->
  wp Eb (completeRequest p cmd addr size false)
    (fun _ w' => exists L', Inv win L' w'
       /\ has p (erase_first addr (outstandingAddrs t)) (blocked t) (t_params t) w'
       /\ (blocked t = false -> L' = L)) w.
Proof.
  intros Hi Ht Hwin. unfold completeRequest. do 2 wp_step. intros _.
  wp_step. eapply wp_mono; [by eapply addrInFlight_erase_ok|].
  intros found w1 (Hin & Hi1 & Hh1 & Hlt). cbv beta. do 2 wp_step. intros _. wp_step.
  pose proof Hh1 as (t1 & Ht1 & _). eapply wp_gets_tre; [done|]. wp_step.
  set (out' := erase_first addr (outstandingAddrs t)) in *.
  apply (wp_mono _ _ (fun _ w' => Inv win L w' /\ has p out' (blocked t) (t_params t) w')).
  { destruct (isError cmd); [by apply wp_throw|]. destruct (isRead cmd).
    - apply count_core; [|done|done]. intros x. unfold count_load. by case_match.
    - do 2 wp_step. intros _. by apply count_core. }
  intros [] w2 [Hi2 Hh2]. wp_step. eapply wp_mono; [by eapply resume_blocked_ok|].
  intros [] w3 (L' & Hi3 & Hh3 & HL). cbv beta.
  eapply wp_mono; [eapply shift_response_timeout_ok; [done|done|]|].
  - destruct Hwin as [->|[_ H1]]; [by left|right]. pose proof (erase_first_length _ _ Hin) as Hl.
    apply length_zero_iff_nil. fold out' in Hl. lia.
  - intros [] w4 [Hi4 Hh4]. eauto.
Qed.

(** ** Places of the running TRE *)

(** A TRE that waits for nothing any more is nowhere. *)
Lemma Inv_settle win L w p t :
  Inv win L w -> w_tres w !! p = Some t -> retryPkt t = None -> blocked t = false ->
  L p = PRetry \/ L p = PBlocked -> Inv win (move p PNone L) w.
Proof.
  intros Hi Ht Hr Hb HL. destruct Hi as [H1 H2 H3 H4 H5 H6 H7 H8]. split; try done.
  - intros q e He Hon. pose proof (H3 _ _ He Hon). rewrite move_ne; [done|]. intros <-. destruct HL; congruence.
  - apply mutexes_move; [destruct HL; congruence|done].
  - apply barriers_move; [destruct HL; congruence|done].
  - apply queues_move; [destruct HL; congruence..|done].
  - intros q. destruct (decide (p = q)) as [<-|]; [by rewrite move_eq|]. rewrite move_ne by done. auto.
  - intros q tq Hq. destruct (decide (p = q)) as [<-|]; [|rewrite move_ne by done; auto].
    simplify_eq. eapply tre_ok_sched; [by apply H8|done|congruence|congruence|by left|done].
Qed.

(** A TRE that is nowhere starts to wait. *)
Lemma Inv_wait win L w p pl :
  Inv win L w -> is_Some (w_tres w !! p) -> L p = PNone -> parked pl = false ->
  Inv win (move p pl L) w.
Proof.
  intros Hi Hp HL Hpl. eapply Inv_relocate; try done; [by rewrite HL|..].
  - apply mutexes_move; [congruence|apply Hi].
  - apply barriers_move; [congruence|apply Hi].
  - apply queues_move; [congruence..|apply Hi].
Qed.

(** ** Retries *)

Lemma port_sendTimingReq_ok win L p out blk pr pkt env w :
  Inv win L w -> has p out blk pr w ->
  wp Eb (port_sendTimingReq p pkt env)
    (fun ok w' => ok = e_accept env /\ Inv win L w' /\ has p out blk pr w' /\ w_tres w' = w_tres w) w.
Proof.
  intros Hi Hh. unfold port_sendTimingReq. wp_step.
  apply wp_when; intros _; repeat wp_step; [|done]. split; [done|]. split; [by apply Inv_logs|done].
Qed.

Lemma has_at win L p out blk pr w : Inv win L w -> has p out blk pr w -> is_Some (w_tres w !! p).
Proof. intros _ (t & Ht & _). eauto. Qed.

Lemma tick_again_ok win L p out pr w :
  Inv win L w -> has p out false pr w -> L p = PNone ->
  wp Eb (tick_again p)
    (fun _ w' => Inv win (move p (PEvent TickEv) L) w' /\ has p out false pr w') w.
Proof.
  intros Hi Hh HL. destruct (schedule_free win L w p p TickEv) as (w' & Hr & Hf & Hi');
    [done|by eapply has_at|by eapply has_at|done|done|].
  eapply wp_run; [exact Hr|]. split; [done|by eapply has_frame].
Qed.

Lemma shift_request_ok win L p out blk pr w :
  Inv win L w -> has p out blk pr w ->
  wp Eb (when ← edge p (p_progress_check pr); on_wsched (s_reschedule (p, NoRequestEv) when true))
    (fun _ w' => Inv win L w' /\ has p out blk pr w') w.
Proof.
  intros Hi Hh. assert (0 <= p_progress_check pr < 2 ^ 44) as Hck.
  { destruct Hh as (t & Ht & _ & _ & <-). by eapply check_range. }
  destruct (edge_watchdog win L p out blk pr NoRequestEv (p_progress_check pr) w
    (fun when => s_reschedule (p, NoRequestEv) when true)) as (w' & Hr & Hi' & Hh' & _); try done.
  { intros s when _ Hle. by apply s_reschedule_run. }
  by eapply wp_run.
Qed.

Lemma recvRetry_ok p env : triple Eb (Alive p) (recvRetry p env) (fun _ => Alive p).
Proof.
  intros w (L & Hi & _ & t & Ht). pose proof (iv_tre _ _ _ Hi _ _ Ht) as Hok.
  unfold recvRetry. wp_step. eapply wp_gets_tre; [done|].
  destruct (retryPkt t) as [pkt|] eqn:Hr; [|by wp_step].
  assert (L p = PRetry) as HL by (apply Hok; congruence).
  assert (blocked t = false) as Hb.
  { destruct (blocked t) eqn:E; [|done]. destruct (tk_blocked _ _ _ _ _ Hok E); congruence. }
  wp_step. eapply wp_mono.
  { apply (port_sendTimingReq_ok None L p (outstandingAddrs t) (blocked t) (t_params t)); [done|by exists t]. }
  intros ok w1 (-> & Hi1 & Hh1 & Htr). cbv beta. rewrite <- Htr in Ht.
  apply wp_when; intros _; [|exists L; split_and!; [done|done|eauto]].
  wp_step. eapply wp_upd_tre; [done|].
  set (w2 := set_w_tres _ w1).
  assert (w_tres w2 !! p = Some (set_retry None t)) as Ht2 by apply lookup_insert_eq.
  assert (Inv None (move p PNone L) w2) as Hi2.
  { eapply Inv_settle; [|exact Ht2|done|done|by left]. eapply Inv_upd_tre; [done..|].
    destruct (iv_tre _ _ _ Hi1 _ _ Ht). by split. }
  assert (has p (outstandingAddrs t) false (t_params t) w2) as Hh2 by (by eexists).
  wp_step. eapply wp_gets_tre; [done|]. simpl. rewrite Hb. simpl.
  wp_step. eapply wp_mono; [eapply tick_again_ok; [done|done|apply move_eq]|].
  intros [] w3 [Hi3 Hh3]. cbv beta. wp_step. pose proof Hh3 as (t3 & Ht3 & _ & _ & Hp3).
  eapply wp_gets_tre; [done|]. rewrite Hp3.
  eapply wp_mono; [by eapply shift_request_ok|]. intros [] w4 [Hi4 Hh4].
  eexists. split; [done|]. split; [done|by eapply has_at].
Qed.

(** ** Issuing an access *)

(** The window between recording an access and arming the response watchdog. *)
Lemma tre_ok_weaken win s pl p t : tre_ok false s pl p t -> tre_ok win s pl p t.
Proof. intros []. split; try done; auto. Qed.

Lemma Inv_weaken win L w : Inv None L w -> Inv win L w.
Proof.
  intros [H1 H2 H3 H4 H5 H6 H7 H8]. split; try done. intros q tq Hq. by apply tre_ok_weaken, H8.
Qed.

Lemma Inv_open_window L w p t t' :
  Inv None L w -> w_tres w !! p = Some t -> tre_ok true (w_sched w) (L p) p t' ->
  Inv (Some p) L (set_w_tres (<[p := t']> (w_tres w)) w).
Proof.
  intros Hi Ht Hok. eapply Inv_upd_tre; [by apply Inv_weaken|done|by rewrite bool_decide_eq_true_2].
Qed.

Lemma Inv_close_window L w p t :
  Inv (Some p) L w -> w_tres w !! p = Some t ->
  (p_atomic (t_params t) = true -> outstandingAddrs t = []) ->
  (outstandingAddrs t <> [] -> on (w_sched w) (p, NoResponseEv)) -> Inv None L w.
Proof.
  intros [H1 H2 H3 H4 H5 H6 H7 H8] Ht Ha Hw. split; try done. intros q tq Hq.
  pose proof (H8 _ _ Hq) as Hok. destruct (decide (p = q)) as [<-|Hne].
  - simplify_eq. destruct Hok. by split.
  - by rewrite bool_decide_eq_false_2 in Hok by congruence.
Qed.

(** The new access enters the list. *)
Lemma tre_ok_issue s p t a b :
  tre_ok false s PNone p t -> blocked t = false -> a <> INVALID_PADDR ->
  Z.of_nat (length (outstandingAddrs t)) < p_max_outstanding (t_params t) ->
  Forall (fun x => x.2 = false) (outstandingAddrs t) ->
  tre_ok true s PNone p (set_out (outstandingAddrs t ++ [(a, b)]) t).
Proof.
  intros [H1 H2 H3 [H4 H4'] H5 H6 H7 H8 H9 H10 H11 H12 H13 H14] Hb Ha Hlt Hnb.
  split; simpl; try done; try congruence.
  - split; [|done]. apply Forall_app. split; [done|by apply Forall_singleton].
  - rewrite length_app; simpl. lia.
  - by apply blking_last_app.
Qed.

Lemma erase_only (a : Z) (b : bool) : erase_first a [(a, b)] = [].
Proof. simpl. by rewrite Z.eqb_refl. Qed.

(** [sendPkt] inside the window. *)
Lemma sendPkt_ok L p t pkt env w :
  Inv (Some p) L w -> w_tres w !! p = Some t -> L p = PNone -> blocked t = false ->
  (p_atomic (t_params t) = true -> exists b, outstandingAddrs t = [(tp_paddr pkt, b)]) ->
  wp Eb (sendPkt p pkt env)
    (fun keep w' => exists L' out', Inv (Some p) L' w' /\ has p out' false (t_params t) w'
       /\ (p_atomic (t_params t) = true -> out' = []) /\ (keep = true -> L' p = PNone)) w.
Proof.
  intros Hi Ht HL Hb Hat. unfold sendPkt. wp_step. eapply wp_gets_tre; [done|].
  destruct (p_atomic (t_params t)) eqn:Ha.
  - destruct Hat as [b Hout]; [done|]. do 2 wp_step. wp_step.
    eapply wp_mono.
    { apply (completeRequest_ok (Some p) L p t); [by apply Inv_logs|done|].
      right. by rewrite Hout. }
    intros [] w2 (L' & Hi2 & Hh2 & HL2). cbv beta. wp_step. rewrite Hout, erase_only, Hb in Hh2.
    exists L', []. split_and!; try done. intros _. by rewrite HL2.
  - wp_step. eapply wp_mono.
    { apply (port_sendTimingReq_ok (Some p) L p (outstandingAddrs t) false (t_params t)); [done|by exists t]. }
    intros ok w1 (-> & Hi1 & Hh1 & Htr). cbv beta. rewrite <- Htr in Ht.
    destruct (e_accept env); [by wp_step; exists L, (outstandingAddrs t)|].
    wp_step. eapply wp_upd_tre; [done|]. wp_step.
    exists (move p PRetry L), (outstandingAddrs t). split_and!; try done.
    + eapply Inv_upd_tre; [by apply Inv_wait; eauto|done|]. rewrite move_eq.
      destruct (iv_tre _ _ _ Hi1 _ _ Ht). split; try done. simpl. congruence.
    + eexists. split; [apply lookup_insert_eq|done].
Qed.

(** Arming the response watchdog closes the window. *)
Lemma arm_ok L p out pr w :
  Inv (Some p) L w -> has p out false pr w -> (p_atomic pr = true -> out = []) ->
  wp Eb (resp ← gets (ev_scheduled p NoResponseEv);
         out ← gets_tre p outstandingAddrs;
         when_ (negb resp && negb (bool_decide (out = [])))
           (when ← edge p (p_progress_check pr); on_wsched (s_schedule (p, NoResponseEv) when)))
    (fun _ => Alive p) w.
Proof.
  intros Hi Hh Hat. pose proof Hh as (t & Ht & Hout & _ & Hpr).
  do 2 wp_step. wp_step. eapply wp_gets_tre; [done|]. apply wp_when.
  - intros [Hs%negb_true_iff _]%andb_true_iff.
    destruct (edge_watchdog (Some p) L p out false pr NoResponseEv (p_progress_check pr) w
      (fun when => s_schedule (p, NoResponseEv) when)) as (w' & Hr & Hi' & Hh' & Hon); try done.
    { rewrite <- Hpr. by eapply check_range. }
    { intros s when Hp Hle. apply s_schedule_fresh; [done|].
      unfold ev_scheduled, s_scheduled in *. by rewrite Hp. }
    eapply wp_run; [exact Hr|]. pose proof Hh' as (t' & Ht' & Ho' & _ & Hp').
    exists L. split; [|split; [done|eauto]]. eapply Inv_close_window; [done..| |].
    + by rewrite Hp', Ho'.
    + by intros _.
  - intros Hc. exists L. split; [|split; [done|eauto]]. eapply Inv_close_window; [done..| |].
    + by rewrite Hpr, Hout.
    + intros Hne. apply on_scheduled. rewrite bool_decide_eq_false_2 in Hc by done.
      unfold ev_scheduled in Hc. by destruct (s_scheduled _ _).
Qed.

(** What [tick] has established when it issues an access. *)
Record can_issue (L : nat -> place) (p : nat) (t : TRE) : Prop := {
  ci_place : L p = PNone;
  ci_blocked : blocked t = false;
  ci_room : Z.of_nat (length (outstandingAddrs t)) < p_max_outstanding (t_params t);
  ci_order : Forall (fun x => x.2 = false) (outstandingAddrs t)
}.

Lemma tick_issue_ok L p t ac env w :
  Inv None L w -> w_tres w !! p = Some t -> can_issue L p t -> paddr t <> INVALID_PADDR ->
  ac_cmd ac <> STALL -> wp Eb (tick_issue p ac env) (fun _ => Alive p) w.
Proof.
  intros Hi Ht [HL Hb Hroom Hord] Ha Hcmd. pose proof (iv_tre _ _ _ Hi _ _ Ht) as Hok. rewrite HL in Hok.
  unfold tick_issue. do 2 (wp_step; eapply wp_gets_tre; [done|]).
  wp_step. eapply wp_upd_tre; [done|].
  set (t1 := set_out (outstandingAddrs t ++ [(paddr t, ac_blking ac)]) t). set (w1 := set_w_tres _ w).
  assert (w_tres w1 !! p = Some t1) as Ht1 by apply lookup_insert_eq.
  assert (Inv (Some p) L w1) as Hi1.
  { eapply Inv_open_window; [done..|]. rewrite HL. by apply tre_ok_issue. }
  wp_step. eapply wp_gets_tre; [done|]. do 2 wp_step. intros _. wp_step.
  apply (wp_mono _ _ (fun _ w' => w' = w1)); [by destruct (ac_cmd ac); wp_step|]. intros cmd ? ->.
  wp_step. eapply wp_mono.
  { apply (sendPkt_ok L p t1); [done..|]. intros Hat. exists (ac_blking ac). unfold t1; simpl.
    by rewrite (tk_atomic _ _ _ _ _ Hok eq_refl Hat). }
  intros keep w2 (L2 & out2 & Hi2 & Hh2 & Hat2 & HL2). cbv beta.
  wp_step. pose proof Hh2 as (t2 & Ht2 & _ & _ & Hp2). eapply wp_gets_tre; [done|]. rewrite Hp2.
  wp_step.
  apply (wp_mono _ _ (fun _ w' => exists L', Inv (Some p) L' w' /\ has p out2 false (t_params t) w')).
  - apply wp_when; [intros ->|by eauto]. wp_step.
    eapply wp_mono; [eapply tick_again_ok; [done|done|auto]|]. intros [] w3 [Hi3 Hh3]. cbv beta.
    eapply wp_mono; [by eapply shift_request_ok|]. intros [] w4 [Hi4 Hh4]. eauto.
  - intros [] w3 (L3 & Hi3 & Hh3). by eapply arm_ok.
Qed.
