(* ===== verification/TREDecode.v ===== *)
(** * Decoding trace entries

    While [tick] decodes an entry it changes its own object only.  [Dec J p w]:
    the state [w] is a state satisfying the invariant, in which [p] is nowhere,
    with the object [p] replaced by one that differs in the fields decoding may
    touch and satisfies [J]. *)

From S2P Require Import Prelude Hoare EventSched Packet IntMath Clocked Strtol TRE TREInv TREPrims TREMem.
From Stdlib Require Import Ascii.

Record dec (t0 t : TRE) : Prop := {
  d_params : t_params t = t_params t0; d_clk : t_clk t = t_clk t0;
  d_trace : t_trace t = t_trace t0; d_out : outstandingAddrs t = outstandingAddrs t0;
  d_retry : retryPkt t = retryPkt t0;
  d_data : 0 <= data t < 2 ^ 32; d_bdata : 0 <= bp_data (blockedPkt t) < 2 ^ 32;
  d_baddr : bp_addr (blockedPkt t) <> INVALID_PADDR;
  d_nodeps : blocked t = false -> bp_deps (blockedPkt t) = ∅
}.

Definition Dec (J : TRE -> Prop) (p : nat) (w : World) : Prop :=
  exists L w0 t0 t, Inv None L w0 /\ L p = PNone /\ w_tres w0 !! p = Some t0
    /\ w = set_w_tres (<[p := t]> (w_tres w0)) w0 /\ dec t0 t /\ J t.

Lemma set_w_tres_id w : set_w_tres (w_tres w) w = w.
Proof. by destruct w. Qed.

Lemma Dec_start p w t (J : TRE -> Prop) :
  Running p w -> w_tres w !! p = Some t -> J t -> Dec J p w.
Proof.
  intros (L & Hi & HL & _) Ht HJ. exists L, w, t, t. split_and!; try done.
  - by rewrite insert_id, set_w_tres_id.
  - destruct (iv_tre _ _ _ Hi _ _ Ht). destruct tk_data, tk_valid. by split.
Qed.

Lemma Dec_mono (J J' : TRE -> Prop) p w : Dec J p w -> (forall t, J t -> J' t) -> Dec J' p w.
Proof. intros (L & w0 & t0 & t & H1 & H2 & H3 & H4 & H5 & HJ) Himp. exists L, w0, t0, t. auto 10. Qed.

Lemma Dec_lookup J p w : Dec J p w -> exists t, w_tres w !! p = Some t /\ J t
  /\ trace_ok (t_trace t) /\ Forall (fun x => x.1 <> INVALID_PADDR) (outstandingAddrs t)
  /\ blking_last (outstandingAddrs t) /\ retryPkt t = None
  /\ Z.of_nat (length (outstandingAddrs t)) <= p_max_outstanding (t_params t).
Proof.
  intros (L & w0 & t0 & t & Hi & HL & H0 & -> & [] & HJ). exists t.
  destruct (iv_tre _ _ _ Hi _ _ H0). split; [apply lookup_insert_eq|].
  rewrite d_trace0, d_out0, d_retry0, d_params0. destruct tk_valid. split_and!; try done.
  destruct (retryPkt t0); [|done]. rewrite HL in tk_retry. by discriminate tk_retry.
Qed.

(** *** Rules *)

Lemma Dec_gets {A} J p (f : TRE -> A) :
  triple Eb (Dec J p) (gets_tre p f) (fun a => Dec (fun t => J t /\ a = f t) p).
Proof.
  intros w (L & w0 & t0 & t & Hi & HL & H0 & -> & Hd & HJ).
  eapply wp_gets_tre; [apply lookup_insert_eq|]. by exists L, w0, t0, t.
Qed.

Lemma Dec_upd (J J' : TRE -> Prop) p f :
  (forall t0 t, dec t0 t -> J t -> dec t0 (f t) /\ J' (f t)) ->
  triple Eb (Dec J p) (upd_tre p f) (fun _ => Dec J' p).
Proof.
  intros Hf w (L & w0 & t0 & t & Hi & HL & H0 & -> & Hd & HJ).
  eapply wp_upd_tre; [apply lookup_insert_eq|]. destruct (Hf t0 t Hd HJ).
  exists L, w0, t0, (f t). split_and!; try done. unfold set_w_tres; simpl. by rewrite insert_insert_eq.
Qed.

(** [J] does not depend on the position, the statistics or the scratch arguments. *)
Definition pos_stable (J : TRE -> Prop) : Prop := forall t n, J t -> J (set_pos n t).

(** A word read is in the trace, or empty at its end. *)
Lemma Dec_read J p :
  pos_stable J ->
  triple Eb (Dec J p) (readNextToken p)
    (fun word w => Dec J p w /\ (word = ""%string \/ stol 16 word <> Ok (-1))).
Proof.
  intros HJ w Hw. pose proof (Dec_lookup _ _ _ Hw) as (t & Ht & HJt & Htr & _).
  unfold readNextToken. wp_step. eapply wp_gets_tre; [done|].
  destruct (t_trace t !! t_pos t) as [word|] eqn:E; [|wp_step; by split; [|left]].
  wp_step. eapply wp_triple; [apply (Dec_upd J J)|done|].
  - intros t1 t2 [] HJ2. split; [by split|by apply HJ].
  - intros [] w1 H1. wp_step. split; [done|right].
    unfold trace_ok in Htr. rewrite Forall_lookup in Htr. by eapply Htr.
Qed.

Lemma sto_range lo hi base s v : sto lo hi base s = Ok v -> lo <= v <= hi.
Proof.
  unfold sto. destruct (strip_sign s) as [neg s1]. case_match; [|done].
  destruct ((lo <=? _) && (_ <=? hi)) eqn:E; [|done]. intros [= <-].
  apply andb_true_iff in E as [?%Z.leb_le ?%Z.leb_le]. lia.
Qed.

Lemma sto_benign lo hi base s e : sto lo hi base s = Err e -> Eb e.
Proof.
  unfold sto. destruct (strip_sign s) as [neg s1]. case_match; [|by intros [= <-]].
  case_match; [done|by intros [= <-]].
Qed.

Lemma addr_valid word v : stol 16 word = Ok v -> stol 16 word <> Ok (-1) -> u64 v <> INVALID_PADDR.
Proof.
  intros Hv Hne. pose proof (sto_range _ _ _ _ _ Hv) as Hr. unfold INVALID_PADDR, u64, wrap.
  intros Heq. apply Hne. rewrite Hv. f_equal.
  destruct (Z.lt_ge_cases v 0); [|rewrite Z.mod_small in Heq; lia].
  rewrite <- (Z.mod_add v 1), Z.mod_small in Heq; lia.
Qed.

Lemma Dec_read_addr J p :
  pos_stable J ->
  triple Eb (Dec J p) (read_addr p) (fun a w => Dec J p w /\ a <> INVALID_PADDR).
Proof.
  intros HJ w Hw. unfold read_addr. wp_step. eapply wp_triple; [by apply Dec_read|done|].
  intros word w1 [H1 Hv]. wp_step. apply wp_lift; [apply sto_benign|]. intros v Hs. wp_step.
  split; [done|]. eapply addr_valid; [done|]. destruct Hv as [->|]; [|done]. by vm_compute in Hs.
Qed.

Lemma Dec_read_unsigned J p :
  pos_stable J ->
  triple Eb (Dec J p) (read_unsigned p) (fun a w => Dec J p w /\ 0 <= a < 2 ^ 32).
Proof.
  intros HJ w Hw. unfold read_unsigned. wp_step. eapply wp_triple; [by apply Dec_read|done|].
  intros word w1 [H1 Hv]. wp_step. apply wp_lift; [apply sto_benign|]. intros v Hs. wp_step.
  split; [done|]. by apply wrap_bound.
Qed.

Lemma Dec_read_int J p :
  pos_stable J ->
  triple Eb (Dec J p) (read_int p) (fun a w => Dec J p w /\ 0 <= a < 2 ^ 32).
Proof.
  intros HJ w Hw. unfold read_int. wp_step. eapply wp_triple; [by apply Dec_read|done|].
  intros word w1 [H1 Hv]. wp_step. apply wp_lift; [apply sto_benign|]. intros v Hs. wp_step.
  split; [done|]. by apply wrap_bound.
Qed.

Lemma Dec_read_pc_addr J p :
  pos_stable J ->
  triple Eb (Dec J p) (read_pc_addr p) (fun a w => Dec J p w /\ a.2 <> INVALID_PADDR).
Proof.
  intros HJ w Hw. unfold read_pc_addr. wp_step. eapply wp_triple; [by apply Dec_read|done|].
  intros word w1 [H1 Hv]. destruct word as [|c rest] eqn:Hword; [by wp_step|].
  case_bool_decide.
  - wp_step. apply wp_lift; [apply sto_benign|]. intros pc _. wp_step.
    eapply wp_triple; [by apply Dec_read_addr|done|]. intros a w2 [H2 Ha]. by wp_step.
  - wp_step. apply wp_lift; [apply sto_benign|]. intros v Hs. wp_step. split; [done|]. simpl.
    eapply addr_valid; [done|]. by destruct Hv.
Qed.

(** *** The dependency list *)

Definition dep_stable (J : TRE -> Prop) : Prop := forall t a, J t -> J (add_dep a t).

Lemma dec_add_dep t0 t a : dec t0 t -> dec t0 (add_dep a t).
Proof. intros []. by split. Qed.

(** Reading a word shortens what is left, unless nothing was. *)
Lemma Dec_read_fuel J p n :
  pos_stable J ->
  triple Eb (Dec (fun t => J t /\ (remaining t <= n)%nat) p) (readNextToken p)
    (fun word => Dec (fun t => J t /\ (word = ""%string \/ (S (remaining t) <= n)%nat)) p).
Proof.
  intros HJ w Hw. pose proof (Dec_lookup _ _ _ Hw) as (t & Ht & _).
  unfold readNextToken. wp_step. eapply wp_triple; [apply Dec_gets|done|].
  intros [word|] w1 H1.
  - wp_step. eapply wp_triple; [|exact H1|].
    + apply (Dec_upd _ (fun t => J t /\ (word = ""%string \/ (S (remaining t) <= n)%nat))).
      intros t1 t2 [] [[HJt Hn] Hl]. split; [by split|]. split; [by apply HJ|right].
      unfold remaining in *; simpl in *. symmetry in Hl. apply lookup_lt_Some in Hl.
      rewrite length_drop in *. lia.
    + intros [] w2 H2. by wp_step.
  - wp_step. eapply Dec_mono; [exact H1|]. intros t1 [[HJt _] _]. split; [done|by left].
Qed.

Lemma addrInFlight_Dec J p a :
  triple Eb (Dec J p) (addrInFlight p a false) (fun _ => Dec J p).
Proof.
  intros w Hw. unfold addrInFlight. wp_step. eapply wp_triple; [apply Dec_gets|done|].
  intros found w1 H1. repeat (wp_step || intros _). eapply wp_run; [done|]. simpl.
  repeat (wp_step || intros _). eapply Dec_mono; [exact H1|]. by intros t [? _].
Qed.

Lemma dep_loop_ok J p fuel word :
  pos_stable J -> dep_stable J ->
  triple Eb (Dec (fun t => J t /\ (word = ""%string /\ (1 <= fuel)%nat \/ (remaining t + 2 <= fuel)%nat)) p)
    (dep_loop fuel p word) (fun _ => Dec J p).
Proof.
  intros HJ HD. revert word. induction fuel as [|f IH]; intros word w Hw; simpl.
  { pose proof (Dec_lookup _ _ _ Hw) as (t & _ & [_ Hf] & _). lia. }
  case_bool_decide; [wp_step; eapply Dec_mono; [exact Hw|by intros t [? _]]|].
  wp_step. apply wp_lift; [apply sto_benign|]. intros v Hs.
  destruct (decide (word = ""%string)) as [->|Hne]; [by vm_compute in Hs|].
  apply (Dec_mono _ (fun t => J t /\ (remaining t <= f - 1)%nat /\ (1 <= f)%nat)) in Hw;
    [|intros t [HJt [[? _]|?]]; [done|]; split; [done|lia]].
  wp_step. eapply wp_triple; [apply addrInFlight_Dec|exact Hw|]. intros found w1 H1. cbv beta.
  wp_step.
  apply (wp_mono _ _ (fun _ => Dec (fun t => J t /\ (remaining t <= f - 1)%nat /\ (1 <= f)%nat) p)).
  { apply wp_when; [|by intros _]. intros _. eapply wp_triple; [|exact H1|].
    - apply (Dec_upd _ (fun t => J t /\ (remaining t <= f - 1)%nat /\ (1 <= f)%nat)).
      intros t0 t Hd [HJt Hr]. split; [by apply dec_add_dep|]. split; [by apply HD|done].
    - by intros [] w2 H2. }
  intros [] w2 H2. wp_step. eapply wp_triple; [apply (Dec_read_fuel (fun t => J t /\ (1 <= f)%nat) p (f - 1))| |].
  { intros t n [? ?]. split; [by apply HJ|done]. }
  { eapply Dec_mono; [exact H2|]. intros t (? & ? & ?). auto. }
  intros word' w3 H3. apply IH. eapply Dec_mono; [exact H3|].
  intros t [[HJt Hf] Hr]. split; [done|]. destruct Hr; [left|right; lia]. done.
Qed.

Lemma read_deps_ok J p :
  pos_stable J -> dep_stable J -> triple Eb (Dec J p) (read_deps p) (fun _ => Dec J p).
Proof.
  intros HJ HD w Hw. unfold read_deps. wp_step. eapply wp_triple; [by apply Dec_read|done|].
  intros word w1 [H1 _]. wp_step. eapply wp_triple; [apply Dec_gets|exact H1|].
  intros n w2 H2. eapply dep_loop_ok; [done|done|]. eapply Dec_mono; [exact H2|].
  intros t [HJt ->]. split; [done|]. right. lia.
Qed.

(** *** Blocking *)

(** Every blocking access in flight is among the recorded dependencies. *)
Definition blk_recorded (t : TRE) : Prop :=
  forall a, (a, true) ∈ outstandingAddrs t -> blocked t = true /\ a ∈ bp_deps (blockedPkt t).

Lemma block_on_blking_ok J p :
  dep_stable J ->
  triple Eb (Dec J p) (block_on_blking p) (fun _ => Dec (fun t => J t /\ blk_recorded t) p).
Proof.
  intros HD w Hw. unfold block_on_blking, blkingAccAddrInFlight.
  pose proof (Dec_lookup _ _ _ Hw) as (t & Ht & HJt & _ & Hv & Hbl & _ & _).
  wp_step. eapply wp_gets_tre; [done|]. apply wp_when.
  - intros Hne%negb_true_iff. wp_step. eapply wp_gets_tre; [done|]. do 2 wp_step. intros _.
    destruct Hw as (L & w0 & t0 & t' & Hi & HL & H0 & -> & Hd & _).
    simpl in Ht. rewrite lookup_insert_eq in Ht. injection Ht as ->.
    eapply wp_upd_tre; [apply lookup_insert_eq|].
    exists L, w0, t0, (add_dep (blking_addr (outstandingAddrs t)) t). split_and!; try done.
    + unfold set_w_tres; simpl. by rewrite insert_insert_eq.
    + by apply dec_add_dep.
    + by apply HD.
    + intros a Ha. split; [done|]. rewrite <- (blking_addr_some (outstandingAddrs t) a); [|done|done|done].
      simpl. set_solver.
  - intros Heq%negb_false_iff%Z.eqb_eq. pose proof (blking_addr_none _ Hv Heq) as Hnb.
    destruct Hw as (L & w0 & t0 & t' & Hi & HL & H0 & -> & Hd & HJ').
    simpl in Ht. rewrite lookup_insert_eq in Ht. injection Ht as ->.
    exists L, w0, t0, t. split_and!; try done. intros a Ha.
    rewrite Forall_forall in Hnb. by specialize (Hnb _ Ha).
Qed.

(** *** Loads, stores and stalls *)

(** Updates of the statistics and of the scratch arguments. *)
Lemma Dec_stats J p (f : TRE -> TREStats) :
  (forall t s, J t -> J (set_stats s t)) ->
  triple Eb (Dec J p) (upd_tre p (fun t => set_stats (f t) t)) (fun _ => Dec J p).
Proof. intros HJ. apply Dec_upd. intros t0 t [] HJt. split; [by split|by apply HJ]. Qed.

Lemma count_blking_ok J p b :
  (forall t s, J t -> J (set_stats s t)) -> triple Eb (Dec J p) (count_blking p b) (fun _ => Dec J p).
Proof.
  intros HJ w Hw. unfold count_blking. apply wp_when; [|by intros _]. intros _.
  by apply (Dec_stats J p (fun t => add_blking (t_stats t))).
Qed.

(** What a decoded access guarantees. *)
Definition mem_ready (t : TRE) : Prop :=
  paddr t <> INVALID_PADDR
  /\ (blocked t = false -> Z.of_nat (length (outstandingAddrs t)) < p_max_outstanding (t_params t)).

Lemma tick_mem_ok p word :
  triple Eb (Dec (fun _ => True) p) (tick_mem p word)
    (fun ac => Dec (fun t => mem_ready t /\ blk_recorded t) p).
Proof.
  intros w Hw. unfold tick_mem. wp_step. eapply wp_use; [exact Hw|by apply count_blking_ok|].
  intros [] w1 H1. wp_step. eapply wp_use; [exact H1|by apply Dec_read_pc_addr|].
  intros [pc a] w2 [H2 Ha]. simpl in Ha. wp_step.
  eapply wp_use; [exact H2|apply (Dec_upd _ (fun t => paddr t <> INVALID_PADDR))|].
  { intros t0 t [] _. split; [by split|done]. }
  intros [] w3 H3. wp_step. eapply wp_use; [exact H3|apply Dec_gets|]. intros full w4 H4. wp_step.
  apply (wp_mono _ _ (fun _ => Dec mem_ready p)).
  { apply wp_when; intros ->.
    - eapply wp_use; [exact H4|apply (Dec_upd _ mem_ready)|by intros [] ? ?].
      intros t0 t [] [? _]. split; [by split|]. by split.
    - eapply Dec_mono; [exact H4|]. intros t [? Hf]. split; [done|]. intros _.
      symmetry in Hf. apply Z.leb_gt in Hf. lia. }
  intros [] w5 H5. wp_step. eapply wp_use; [exact H5|apply block_on_blking_ok|].
  { intros t x [? ?]. by split. }
  intros [] w6 H6. wp_step. eapply wp_use; [exact H6|apply Dec_read|].
  { intros t n [[? ?] ?]. by split. }
  intros paren w7 [H7 _]. do 2 wp_step. intros _. wp_step.
  eapply wp_use; [exact H7|apply read_deps_ok|].
  { intros t n [[? ?] ?]. by split. }
  { intros t x [[? ?] Hr]. split; [by split|]. intros b Hb. destruct (Hr b Hb). split; [done|].
    simpl. set_solver. }
  intros [] w8 H8. wp_step. eapply wp_use; [exact H8|apply Dec_gets|]. intros blk w9 H9. wp_step.
  apply (wp_mono _ _ (fun _ => Dec (fun t => mem_ready t /\ blk_recorded t) p)).
  { apply wp_when; intros ->; [|eapply Dec_mono; [exact H9|by intros t [? _]]].
    eapply wp_use; [exact H9|apply (Dec_upd _ (fun t => mem_ready t /\ blk_recorded t))|by intros [] ? ?].
    intros t0 t [] [[[Hp Hm] Hr] Hb]. split; [by split|]. split; [by split|].
    intros b Hb'. destruct (Hr b Hb'). done. }
  intros [] w10 H10. wp_step.
  eapply wp_use; [exact H10|apply (Dec_stats (fun t => mem_ready t /\ blk_recorded t) p)|].
  { intros t s [[? ?] ?]. by split. }
  intros [] w11 H11. by wp_step.
Qed.

(** A TRE blocked by its dependencies has recorded one. *)
Definition deps_recorded (t : TRE) : Prop := blocked t = true -> bp_deps (blockedPkt t) <> ∅.
Lemma deps_recorded_pos : pos_stable deps_recorded.
Proof. by intros t n. Qed.
Lemma deps_recorded_add : dep_stable deps_recorded.
Proof. intros t x _ _. simpl. set_solver. Qed.
#[local] Hint Resolve deps_recorded_pos deps_recorded_add : core.

Lemma tick_stall_ok p word :
  triple Eb (Dec deps_recorded p) (tick_stall p word)
    (fun ac w => Dec blk_recorded p w /\ ac_cmd ac = STALL).
Proof.
  intros w Hw. unfold tick_stall. wp_step. eapply wp_use; [exact Hw|by apply count_blking_ok|].
  intros [] w1 H1. wp_step. eapply wp_use; [exact H1|by apply Dec_read_unsigned|].
  intros d w2 [H2 Hd]. wp_step.
  eapply wp_use; [exact H2|apply (Dec_upd _ deps_recorded)|].
  { intros t0 t [] ?. split; [by split|done]. }
  intros [] w3 H3. wp_step. eapply wp_use; [exact H3|by apply Dec_read|].
  intros paren w4 [H4 _]. do 2 wp_step. intros _. wp_step.
  eapply wp_use; [exact H4|by apply read_deps_ok|]. intros [] w5 H5. wp_step.
  eapply wp_use; [exact H5|by apply block_on_blking_ok|]. intros [] w6 H6. wp_step.
  eapply wp_use; [exact H6|apply Dec_gets|]. intros blk w7 H7. wp_step.
  apply (wp_mono _ _ (fun _ => Dec blk_recorded p)).
  { apply wp_when; intros ->; [|eapply Dec_mono; [exact H7|by intros t [[_ ?] _]]].
    wp_step. eapply wp_use; [exact H7|apply Dec_gets|]. intros e w8 H8. wp_step.
    apply wp_assert_holds.
    { pose proof (Dec_lookup _ _ _ H8) as (t & _ & [[[Hn _] Hb] ->] & _).
      rewrite bool_decide_eq_false_2; [done|auto]. }
    eapply wp_use; [exact H8|apply (Dec_upd _ blk_recorded)|by intros [] ? ?].
    intros t0 t [] [[[_ Hr] Hb] _]. split; [by split|]. intros b Hb'. destruct (Hr b Hb'). done. }
  intros [] w8 H8. wp_step. eapply wp_use; [exact H8|by apply (Dec_stats blk_recorded p)|].
  intros [] w9 H9. by wp_step.
Qed.

(** *** Leaving the decoder *)

Lemma Dec_commit J p w :
  Dec J p w -> (forall t, J t -> blocked t = true -> blk_recorded t) ->
  exists L t, Inv None L w /\ w_tres w !! p = Some t /\ J t
    /\ L p = (if blocked t then PBlocked else PNone) /\ 0 <= data t < 2 ^ 32.
Proof.
  intros (L & w0 & t0 & t & Hi & HL & H0 & -> & Hd & HJ) Hr. specialize (Hr t HJ).
  pose proof (iv_tre _ _ _ Hi _ _ H0) as Hok.
  exists (move p (if blocked t then PBlocked else PNone) L), t.
  split; [|split; [apply lookup_insert_eq|split; [done|split; [apply move_eq|apply Hd]]]].
  eapply Inv_upd_tre; [apply Inv_wait; eauto; by destruct (blocked t)|done|]. rewrite move_eq.
  assert (~ on (w_sched w0) (p, TickEv)) as Hon by (eapply free_not_on; eauto).
  destruct Hd as [E1 E2 E3 E4 E5 E6 E7 E8 E9]. destruct Hok as [K1 K2 K3 K4 K5 K6 K7 K8 K9 K10 K11 K12 K13 K14].
  split; rewrite ?E1, ?E2, ?E3, ?E4, ?E5; try done.
  - split; [apply K4|done].
  - intros Hrt. specialize (K6 Hrt). congruence.
  - intros ->. by left.
  - intros Hb a Ha. apply (Hr Hb). by rewrite E4.
Qed.

(** A free TRE gives itself an event some cycles ahead. *)
Lemma schedule_at_ok L p ev cycles w :
  Inv None L w -> is_Some (w_tres w !! p) -> L p = PNone -> ctrl ev = true -> 0 <= cycles < 2 ^ 44 ->
  wp Eb (when ← edge p cycles; on_wsched (s_schedule (p, ev) when)) (fun _ => Alive p) w.
Proof.
  intros Hi [t Ht] HL Hc Hcy.
  destruct (edge_spec None L w p t cycles) as (when & clk' & Hr & Hle & Hi1); [done..|].
  wp_step. eapply wp_run; [exact Hr|]. simpl. set (w1 := set_w_tres _ w) in *.
  assert (w_tres w1 !! p = Some (set_clk clk' t)) as Ht1 by apply lookup_insert_eq.
  eapply wp_run.
  { apply on_wsched_run. apply s_schedule_fresh; [done|]. apply not_on_scheduled.
    eapply (free_not_on None L w1); eauto. }
  exists (move p (PEvent ev) L). split; [|split; [done|by exists (set_clk clk' t)]].
  apply (Inv_schedule None L w1); [done|done|done|eauto|by left|].
  intros t' Ht' Hb. rewrite (none_not_blocked _ _ _ _ _ Hi1 Ht' HL) in Hb. done.
Qed.

Lemma tick_tail_ok p ac env :
  triple Eb (Dec (fun t => (ac_cmd ac <> STALL -> mem_ready t) /\ blk_recorded t) p)
    (tick_tail p ac env) (fun _ => Alive p).
Proof.
  intros w Hw. destruct (Dec_commit _ _ _ Hw) as (L & t & Hi & Ht & [Hm Hr] & HL & Hd); [by intros t [_ ?] _|].
  unfold tick_tail. wp_step. eapply wp_gets_tre; [done|].
  destruct (blocked t) eqn:Hb; [wp_step; exists L; eauto|].
  assert (ac_cmd ac <> STALL -> wp Eb (tick_issue p ac env) (fun _ => Alive p) w) as Hissue.
  { intros Hc. destruct (Hm Hc) as [Hp Hlen]. eapply tick_issue_ok; [done|done| |done|done].
    split; [done|done|auto|]. apply Forall_forall. intros [a b] Hin.
    destruct b; [|done]. by destruct (Hr a Hin) as [? _]; congruence. }
  destruct (ac_cmd ac) eqn:Hc; [by apply Hissue..|].
  wp_step. eapply wp_gets_tre; [done|]. unfold interval. wp_step. eapply wp_gets_tre; [done|].
  apply (schedule_at_ok L); [done|eauto|done|done|].
  destruct (tk_params _ _ _ _ _ (iv_tre _ _ _ Hi _ _ Ht)). rewrite u64_small; nia.
Qed.

(** [tick] re-entered while blocked. *)
Lemma tick_blocked_ok L p t w env :
  Inv None L w -> w_tres w !! p = Some t -> L p = PBlocked -> blocked t = true ->
  Z.of_nat (length (outstandingAddrs t)) < p_max_outstanding (t_params t) ->
  wp Eb (ac ← tick_blocked p; match ac with None => mret tt | Some ac => tick_tail p ac env end)
    (fun _ => Alive p) w.
Proof.
  intros Hi Ht HL Hb Hlen. pose proof (iv_tre _ _ _ Hi _ _ Ht) as Hok.
  unfold tick_blocked. wp_step. do 2 (wp_step; eapply wp_gets_tre; [done|]).
  destruct (existsb _ _) eqn:Hex; [do 2 wp_step; exists L; eauto|].
  wp_step. eapply wp_upd_tre; [done|]. wp_step.
  set (bp := blockedPkt t). set (t1 := set_args _ _ _). set (w1 := set_w_tres _ w).
  assert (w_tres w1 !! p = Some t1) as Ht1 by apply lookup_insert_eq.
  assert (retryPkt t1 = None) as Hr1.
  { unfold t1; simpl. destruct (retryPkt t) eqn:E; [|done].
    assert (L p = PRetry) by (apply Hok; congruence). congruence. }
  assert (Inv None (move p PNone L) w1) as Hi1.
  { eapply Inv_settle; [|exact Ht1|done|done|by right]. eapply Inv_upd_tre; [done..|].
    destruct Hok as [K1 K2 K3 [K4 K4'] [K5 K5'] K6 K7 K8 K9 K10 K11 K12 K13 K14]. by split. }
  apply tick_tail_ok. eapply Dec_start; [|exact Ht1|].
  { exists (move p PNone L). split; [done|]. split; [apply move_eq|eauto]. }
  split; [intros _; split; [apply Hok|done]|]. intros a Ha. exfalso.
  pose proof (tk_deps _ _ _ _ _ Hok Hb a Ha) as Hdep.
  apply not_true_iff_false in Hex. apply Hex. apply existsb_exists. exists a.
  split; [by apply list_elem_of_In, elem_of_elements|]. apply in_flight_elem. by exists true.
Qed.

(** *** Primitives *)

Definition unblocked (t : TRE) : Prop := blocked t = false.
Lemma unblocked_pos : pos_stable unblocked.
Proof. intros t n Hb. exact Hb. Qed.

Lemma Dec_running p w : Dec unblocked p w -> Running p w.
Proof.
  intros Hw. destruct (Dec_commit _ _ _ Hw) as (L & t & Hi & Ht & Hb & HL & _); [congruence|].
  exists L. rewrite Hb in HL. eauto.
Qed.

Lemma after_cycles_ok p ev h w :
  Dec unblocked p w -> ctrl ev = true ->
  (forall w', Dec unblocked p w' -> read_unsigned p w = Ok (0, w') -> wp Eb h (fun _ => Alive p) w') ->
  wp Eb (after_cycles p ev h) (fun _ => Alive p) w.
Proof.
  intros Hw Hc Hh. unfold after_cycles. wp_step.
  pose proof (Dec_read_unsigned unblocked p unblocked_pos w Hw) as Hr. unfold wp in Hr |- *.
  destruct (read_unsigned p w) as [[cycles w1]|e] eqn:E; [|done]. destruct Hr as [H1 Hcy].
  destruct (decide (cycles = 0)) as [->|Hne]; [by apply Hh|].
  apply Dec_running in H1 as (L & Hi & HL & Hp).
  assert (wp Eb (when ← edge p cycles; on_wsched (s_schedule (p, ev) when)) (fun _ => Alive p) w1) as Hs
    by (apply (schedule_at_ok L); try done; lia).
  destruct cycles; [done|exact Hs|exact Hs].
Qed.

(** The primitives that take an address, or nothing, from the trace. *)
Lemma with_paddr_ok p k w :
  Dec unblocked p w -> triple Eb (Dec unblocked p) k (fun _ => Alive p) ->
  wp Eb (with_paddr p k) (fun _ => Alive p) w.
Proof.
  intros Hw Hk. unfold with_paddr. wp_step. eapply wp_use; [exact Hw|apply Dec_read_addr, unblocked_pos|].
  intros a w1 [H1 _]. wp_step. eapply wp_use; [exact H1|apply (Dec_upd _ unblocked)|].
  { intros t0 t [] Hb. split; [by split|done]. }
  intros [] w2 H2. by apply Hk.
Qed.

Lemma with_pe_ok p k w :
  Dec unblocked p w -> triple Eb (Dec unblocked p) k (fun _ => Alive p) ->
  wp Eb (with_pe p k) (fun _ => Alive p) w.
Proof.
  intros Hw Hk. unfold with_pe. wp_step. eapply wp_use; [exact Hw|apply Dec_read_int, unblocked_pos|].
  intros a w1 [H1 Ha]. wp_step. eapply wp_use; [exact H1|apply (Dec_upd _ unblocked)|].
  { intros t0 t [] Hb. split; [by split|done]. }
  intros [] w2 H2. by apply Hk.
Qed.

Lemma after_cycles_prim p ev h :
  ctrl ev = true -> triple Eb (Running p) h (fun _ => Alive p) ->
  triple Eb (Dec unblocked p) (after_cycles p ev h) (fun _ => Alive p).
Proof.
  intros Hc Hh w Hw. apply after_cycles_ok; [done|done|].
  intros w' H' _. by apply Hh, Dec_running.
Qed.

(** *** [wake] from the trace *)

Lemma asleep_upto w p q t' :
  q <> p -> asleep w q -> asleep (set_w_tres (<[p := t']> (w_tres w)) w) q.
Proof. intros Hne []. split; try done. intros t. simpl. rewrite lookup_insert_ne by done. auto. Qed.

Lemma wakeable_upto w p q t' :
  wakeable p w q -> wakeable p (set_w_tres (<[p := t']> (w_tres w)) w) q.
Proof.
  intros [Hne [Ho|[Ha Hv]]]; (split; [done|]); [by left|right].
  split; [by apply asleep_upto|]. simpl. by rewrite lookup_insert_ne.
Qed.

Lemma Dec_upto (J : TRE -> Prop) p w t t' :
  Running p w -> w_tres w !! p = Some t -> dec t t' -> J t' ->
  Dec J p (set_w_tres (<[p := t']> (w_tres w)) w).
Proof. intros (L & Hi & HL & _) Ht Hd HJ. by exists L, w, t, t'. Qed.

(** The next entry, if it is a WAKE to be executed at once, names a [wakeable] TRE. *)
Definition wake_safe (p : nat) (w : World) : Prop :=
  forall t dword d cword c q,
    w_tres w !! p = Some t -> blocked t = false ->
    t_trace t !! t_pos t = Some "WAKE"%string ->
    t_trace t !! S (t_pos t) = Some dword -> stoi 10 dword = Ok d ->
    t_trace t !! S (S (t_pos t)) = Some cword -> stol 10 cword = Ok c -> u32 c = 0 ->
    allTREs w !! Z.to_nat (u32 d) = Some q -> wakeable p w q.

Lemma readNextToken_run p w t :
  w_tres w !! p = Some t ->
  readNextToken p w = match t_trace t !! t_pos t with
    | Some word => Ok (word, set_w_tres (<[p := set_pos (S (t_pos t)) t]> (w_tres w)) w)
    | None => Ok (""%string, w)
    end.
Proof.
  intros Ht. unfold readNextToken. rewrite (bind_gets_tre _ _ _ _ t) by done.
  destruct (t_trace t !! t_pos t); [|done]. by rewrite (bind_upd_tre _ _ _ _ t).
Qed.

(** A run of [read_unsigned] that answers 0. *)
Lemma read_unsigned_zero p w t w' :
  w_tres w !! p = Some t -> read_unsigned p w = Ok (0, w') ->
  exists cword c, t_trace t !! t_pos t = Some cword /\ stol 10 cword = Ok c /\ u32 c = 0
    /\ w' = set_w_tres (<[p := set_pos (S (t_pos t)) t]> (w_tres w)) w.
Proof.
  intros Ht Hr. unfold read_unsigned in Hr. apply bind_ok in Hr as (word & w1 & H1 & H2).
  rewrite (readNextToken_run p w t Ht) in H1. apply bind_ok in H2 as (c & w2 & H2 & H3).
  apply lift_ok in H2 as (c' & Hs & [= -> ->]). apply ret_ok in H3. injection H3 as Hu ->.
  destruct (t_trace t !! t_pos t) as [cword|]; injection H1 as <- <-; [|by vm_compute in Hs].
  by exists cword, c'.
Qed.

Lemma wake_entry_ok p w t :
  Running p w -> w_tres w !! p = Some t -> wake_safe p w ->
  t_trace t !! t_pos t = Some "WAKE"%string ->
  wp Eb (with_pe p (after_cycles p WakeEv (wake p))) (fun _ => Alive p)
    (set_w_tres (<[p := set_pos (S (t_pos t)) (set_last (t_pos t) t)]> (w_tres w)) w).
Proof.
  intros Hrun Ht Hsafe Hwake. set (t1 := set_pos _ _). set (w1 := set_w_tres _ w).
  assert (blocked t = false) as Hb.
  { destruct Hrun as (L & Hi & HL & _). by eapply none_not_blocked. }
  assert (dec t t1) as Hd1.
  { destruct Hrun as (L & Hi & _ & _). destruct (iv_tre _ _ _ Hi _ _ Ht).
    destruct tk_data, tk_valid. by split. }
  assert (w_tres w1 !! p = Some t1) as Ht1 by apply lookup_insert_eq.
  unfold with_pe, read_int. do 2 wp_step. unfold wp at 1. rewrite (readNextToken_run p w1 t1 Ht1).
  destruct (t_trace t1 !! t_pos t1) as [dword|] eqn:Hdw; [|done].
  wp_step. apply wp_lift; [apply sto_benign|]. intros d Hd. wp_step.
  eapply wp_bind, wp_upd_tre; [apply lookup_insert_eq|].
  set (t2 := set_data _ _). unfold w1, set_w_tres; simpl. rewrite !insert_insert_eq.
  change (mkWorld _ _ _ _ _ _ _ _ _ _ _ _) with (set_w_tres (<[p := t2]> (w_tres w)) w).
  apply after_cycles_ok; [|done|].
  { eapply Dec_upto; [done|done| |done]. destruct Hd1. split; try done. by apply wrap_bound. }
  intros w' Hw' Hz.
  apply (read_unsigned_zero p _ t2) in Hz as (cword & c & Hcw & Hc & Hc0 & ->); [|apply lookup_insert_eq].
  apply wake_ok. split; [by apply Dec_running|]. intros t' q Ht' Hq. simpl in Ht'.
  rewrite lookup_insert_eq in Ht'. injection Ht' as <-. simpl in Hq.
  by repeat apply wakeable_upto; eapply (Hsafe t dword d cword c q).
Qed.

(** *** The whole of [tick] *)

Lemma is_word_true l word : is_word l word = true <-> word ∈ l.
Proof. unfold is_word. by rewrite bool_decide_eq_true. Qed.

Lemma Inv_statics win L w all alloc idl ex : Inv win L w -> Inv win L (set_statics all alloc idl ex w).
Proof. by intros []. Qed.

Lemma halt_ok p : triple Eb (Running p) (halt p) (fun _ => Alive p).
Proof.
  intros w Hw. unfold halt.
  assert (forall w', (exists all alloc idl ex, w' = set_statics all alloc idl ex w) -> Alive p w') as Ha.
  { intros w' (all & alloc & idl & ex & ->). destruct Hw as (L & Hi & _ & Hp).
    exists L. split; [by apply Inv_statics|done]. }
  do 6 wp_step. do 2 wp_step. intros _. apply wp_when; intros _; [wp_step|]; apply Ha; by repeat eexists.
Qed.

Lemma tick_primitive_ok p word env h :
  tick_primitive p word env = Some h -> word <> "WAKE"%string ->
  triple Eb (Dec unblocked p) h (fun _ => Alive p).
Proof.
  intros Hp Hwake. unfold tick_primitive in Hp.
  repeat match type of Hp with (if ?b then _ else _) = _ => destruct b eqn:?; [injection Hp as <-|] end;
    try done; try (intros w Hw).
  - apply with_paddr_ok; [done|]. by apply after_cycles_prim; [|apply initMutex_ok].
  - apply with_paddr_ok; [done|]. by apply after_cycles_prim; [|apply lockMutex_ok].
  - apply with_paddr_ok; [done|]. by apply after_cycles_prim; [|apply unlockMutex_ok].
  - apply with_paddr_ok; [done|]. clear w Hw. intros w Hw. wp_step.
    eapply wp_use; [exact Hw|apply Dec_read_unsigned, unblocked_pos|]. intros d w1 [H1 Hd]. wp_step.
    eapply wp_use; [exact H1|apply (Dec_upd _ unblocked)|].
    { intros t0 t [] Hb. split; [by split|done]. }
    intros [] w2 H2. by apply after_cycles_prim; [|apply initBarrier_ok|].
  - apply with_paddr_ok; [done|]. by apply after_cycles_prim; [|apply waitAtBarrier_ok].
  - apply after_cycles_prim; [done| |done]. intros w' H'. unfold sleep. wp_step. by eapply At_alive.
  - exfalso. apply Hwake. by apply list_elem_of_singleton, is_word_true.
  - apply with_pe_ok; [done|]. by apply after_cycles_prim; [|apply pop_ok].
  - apply with_pe_ok; [done|]. by apply after_cycles_prim; [|apply push_ok].
  - by apply after_cycles_prim; [|apply stat_event_ok|].
  - by apply after_cycles_prim; [|apply stat_event_ok|].
  - by apply after_cycles_prim; [|apply stat_event_ok|].
Qed.

Lemma dispatch_ok p word env w :
  Dec unblocked p w ->
  (word = "WAKE"%string -> wp Eb (with_pe p (after_cycles p WakeEv (wake p))) (fun _ => Alive p) w) ->
  wp Eb
    (if is_word ["EOF"%string] word then halt p
     else if is_word (ld_words ++ st_words) word then ac ← tick_mem p word; tick_tail p ac env
     else if is_word ["STALL"; "STALLB"]%string word then ac ← tick_stall p word; tick_tail p ac env
     else match tick_primitive p word env with
          | Some h => h
          | None => throw (EFatal "Invalid token read")
          end) (fun _ => Alive p) w.
Proof.
  intros Hw Hwake.
  assert (Dec (fun _ => True) p w) as Hw' by (by eapply Dec_mono).
  destruct (is_word ["EOF"%string] word); [by apply halt_ok, Dec_running|].
  destruct (is_word (ld_words ++ st_words) word).
  { wp_step. eapply wp_use; [exact Hw'|apply tick_mem_ok|]. intros ac w1 H1. apply tick_tail_ok.
    eapply Dec_mono; [exact H1|]. by intros t [? ?]. }
  destruct (is_word ["STALL"; "STALLB"]%string word).
  { assert (Dec deps_recorded p w) as Hd by (eapply Dec_mono; [exact Hw|]; intros t Hb; unfold unblocked, deps_recorded in *; congruence).
    wp_step. eapply wp_use; [exact Hd|apply tick_stall_ok|]. intros ac w1 [H1 Hac]. apply tick_tail_ok.
    eapply Dec_mono; [exact H1|]. by intros t Hr. }
  destruct (tick_primitive p word env) as [h|] eqn:Hp; [|by wp_step].
  destruct (decide (word = "WAKE"%string)) as [->|Hne].
  - injection Hp as <-. by apply Hwake.
  - by eapply tick_primitive_ok.
Qed.

Lemma tick_decode_ok p env w :
  Running p w -> wake_safe p w -> wp Eb (tick_decode p env) (fun _ => Alive p) w.
Proof.
  intros Hrun Hsafe. pose proof Hrun as (L & Hi & HL & t & Ht).
  assert (blocked t = false) as Hb by (by eapply none_not_blocked).
  assert (forall n, dec t (set_pos n (set_last (t_pos t) t))) as Hd.
  { destruct (iv_tre _ _ _ Hi _ _ Ht). destruct tk_data, tk_valid. by split. }
  unfold tick_decode. wp_step. eapply wp_upd_tre; [done|]. wp_step.
  unfold wp at 1. erewrite readNextToken_run; [|apply lookup_insert_eq]. simpl.
  destruct (t_trace t !! t_pos t) as [word|] eqn:Hword.
  - unfold set_w_tres; simpl. rewrite insert_insert_eq.
    change (mkWorld _ _ _ _ _ _ _ _ _ _ _ _)
      with (set_w_tres (<[p := set_pos (S (t_pos t)) (set_last (t_pos t) t)]> (w_tres w)) w).
    apply dispatch_ok; [by eapply Dec_upto|]. intros ->. by apply wake_entry_ok.
  - apply dispatch_ok; [|done]. eapply Dec_upto; [done..| |done]. apply (Hd (t_pos t)).
Qed.
