(* ===== verification/TREProps.v ===== *)
(** * Properties of the system of TREs

    Every reachable state satisfies the invariant; what follows from it for the
    mutexes, barriers, queues, the accesses in flight and the watchdogs. *)

From S2P Require Import Prelude Hoare EventSched Packet IntMath Clocked Strtol TRE TREInv TREPrims TREMem TREDecode.

(** ** Steps *)

(** The place of a TRE whose control event has just fired. *)
Definition fired_place (t : TRE) : place := if blocked t then PBlocked else PNone.

Lemma on_service (s : Sched (nat * tre_event)) k k' t : on (s_service k t s) k' <-> k <> k' /\ on s k'.
Proof. apply on_delete. Qed.

Lemma fire_inv L w p ev t tr :
  Inv None L w -> s_due (p, ev) t (w_sched w) -> t < 2 ^ 62 -> ctrl ev = true ->
  w_tres w !! p = Some tr ->
  Inv None (move p (fired_place tr) L) (set_w_sched (s_service (p, ev) t (w_sched w)) w)
  /\ (blocked tr = true -> ev = TickEv
       /\ Z.of_nat (length (outstandingAddrs tr)) < p_max_outstanding (t_params tr)).
Proof.
  intros Hi Hd Ht Hc Htr. pose proof Hd as [Hl Hmin].
  assert (on (w_sched w) (p, ev)) as Hon by (eexists; exact Hl).
  pose proof (iv_sched _ _ _ Hi _ _ Hc Hon) as HL.
  assert (world_now w <= t) as Hnow by (apply (iv_wf _ _ _ Hi _ _ Hl)).
  pose proof (iv_tre _ _ _ Hi _ _ Htr) as Hok.
  assert (blocked tr = true -> ev = TickEv) as Hev.
  { intros Hb. destruct (tk_blocked _ _ _ _ _ Hok Hb); congruence. }
  split; [|intros Hb; rewrite Hev in Hon by done; split; [auto|by apply (tk_tick _ _ _ _ _ Hok)]].
  pose proof (iv_time _ _ _ Hi). destruct Hi as [H1 H2 H3 H4 H5 H6 H7 H8].
  split; simpl; try done.
  - by apply s_service_wf.
  - unfold world_now; simpl. lia.
  - intros q e He [Hne Hone]%on_service. pose proof (H3 _ _ He Hone) as HLq.
    rewrite move_ne; [done|]. intros <-. congruence.
  - apply mutexes_move; [congruence|done].
  - apply barriers_move; [congruence|done].
  - apply queues_move; [congruence..|done].
  - intros q. destruct (decide (p = q)) as [<-|]; [rewrite Htr; eauto|]. rewrite move_ne by done. auto.
  - intros q tq Hq. destruct (H8 _ _ Hq) as [K1 [K2 K2'] K3 K4 K5 K6 K7 K8 K9 K10 K11 K12 K13 K14].
    split; try done.
    + split; [done|]. unfold world_now in *. simpl. lia.
    + intros Hr. specialize (K6 Hr). rewrite move_ne; [done|]. congruence.
    + intros Hb. destruct (decide (p = q)) as [<-|]; [|rewrite move_ne by done; auto].
      rewrite move_eq. simplify_eq. unfold fired_place. rewrite Hb. by left.
    + intros Hb [_ Ho]%on_service. auto.
    + intros Hw Hne. apply on_service. split; [|auto]. intros [= -> ->]. done.
Qed.

(** Sleeping survives the event of another TRE. *)
Lemma asleep_fired w p ev t q :
  asleep w q -> asleep (set_w_sched (s_service (p, ev) t (w_sched w)) w) q.
Proof. intros [A1 A2 A3 A4 A5]. split; try done. intros e He [_ Ho]%on_service. by eapply A1. Qed.

(** The inputs the properties speak about: due events fire, responses and
    retries reach an existing TRE, time stays below [2^62], and a WAKE names
    another TRE which is about to tick or asleep.  The last condition is one on
    the traces that the code does not check: [wake] only refuses a target whose
    tick is scheduled, and TREDemo shows what happens to one that waits at a barrier. *)
Definition wf_winput (w : World) (i : w_input) : Prop :=
  match i with
  | WFire p ev env =>
      (exists t, s_due (p, ev) t (w_sched w) /\ t < 2 ^ 62)
      /\ (ev = TickEv -> wake_safe p w) /\ (ev = WakeEv -> wake_ready p w)
  | WResp p _ _ _ | WRetry p _ => is_Some (w_tres w !! p)
  | WTime t =>
      world_now w <= t < 2 ^ 62 /\ map_Forall (fun _ t' => t <= t') (s_pending (w_sched w))
  end.

Definition Settled (w : World) : Prop := exists L, Inv None L w.

Lemma Alive_settled p w : Alive p w -> Settled w.
Proof. intros (L & Hi & _). by exists L. Qed.

Lemma tick_ok L p t w env :
  Inv None L w -> w_tres w !! p = Some t -> L p = fired_place t ->
  (blocked t = true -> Z.of_nat (length (outstandingAddrs t)) < p_max_outstanding (t_params t)) ->
  wake_safe p w -> wp Eb (tick p env) (fun _ => Alive p) w.
Proof.
  intros Hi Ht HL Hmax Hsafe. unfold tick. wp_step. eapply wp_gets_tre; [done|].
  wp_step. apply wp_assert_holds.
  { apply bool_decide_eq_true_2. destruct (retryPkt t) eqn:Hr; [|done].
    assert (L p = PRetry) by (apply (tk_retry _ _ _ _ _ (iv_tre _ _ _ Hi _ _ Ht)); congruence).
    unfold fired_place in HL. destruct (blocked t); congruence. }
  wp_step. eapply wp_gets_tre; [done|].
  unfold fired_place in HL. destruct (blocked t) eqn:Hb.
  - apply (tick_blocked_ok L p t); auto.
  - apply tick_decode_ok; [|done]. exists L. eauto.
Qed.

Lemma handler_ok L p ev t w env :
  Inv None L w -> w_tres w !! p = Some t -> L p = fired_place t ->
  (blocked t = true -> ev = TickEv
     /\ Z.of_nat (length (outstandingAddrs t)) < p_max_outstanding (t_params t)) ->
  (ev = TickEv -> wake_safe p w) -> (ev = WakeEv -> wake_ready p w) ->
  wp Eb (handler p ev env) (fun _ => Alive p) w.
Proof.
  intros Hi Ht HL Hb Hsafe Hready. destruct (decide (ev = TickEv)) as [->|Hne].
  { apply (tick_ok L p t); auto. intros Hbl. by apply Hb. }
  assert (Running p w) as Hrun.
  { exists L. split; [done|]. split; [|eauto]. rewrite HL. unfold fired_place.
    destruct (blocked t) eqn:E; [|done]. by destruct (Hb eq_refl). }
  destruct ev; try done; simpl.
  - by apply initMutex_ok.
  - by apply lockMutex_ok.
  - by apply unlockMutex_ok.
  - by apply initBarrier_ok.
  - by apply waitAtBarrier_ok.
  - unfold sleep. wp_step. by eapply At_alive.
  - apply wake_ok. auto.
  - by apply push_ok.
  - by apply pop_ok.
  - by apply stat_event_ok.
  - by apply stat_event_ok.
  - by apply stat_event_ok.
Qed.

Lemma wakeable_fired p ev t w q :
  wakeable p w q -> wakeable p (set_w_sched (s_service (p, ev) t (w_sched w)) w) q.
Proof.
  intros [Hne [Ho|[Ha Hv]]]; (split; [done|]); [left|right].
  - apply on_service. split; [congruence|done].
  - split; [by apply asleep_fired|done].
Qed.

Lemma wake_safe_fired p ev t w : wake_safe p w -> wake_safe p (set_w_sched (s_service (p, ev) t (w_sched w)) w).
Proof. intros Hs tr dw d cw c q H1 H2 H3 H4 H5 H6 H7 H8 H9. apply wakeable_fired. by eapply Hs. Qed.

Lemma wake_ready_fired p ev t w : wake_ready p w -> wake_ready p (set_w_sched (s_service (p, ev) t (w_sched w)) w).
Proof. intros Hs tr q H1 H2. apply wakeable_fired. by eapply Hs. Qed.

(** One step keeps the invariant and fails only for reasons the simulated
    program or its environment can cause. *)
Lemma w_step_ok w i : Settled w -> wf_winput w i -> wp Eb (w_step i) (fun _ => Settled) w.
Proof.
  intros [L Hi] Hwf. destruct i as [p ev env|p cmd addr size|p env|t]; simpl in Hwf.
  - destruct Hwf as ((t & Hd & Ht) & Hsafe & Hready).
    assert (wp Eb (handler p ev env) (fun _ => Settled) (set_w_sched (s_service (p, ev) t (w_sched w)) w)) as Hh.
    { destruct (ctrl ev) eqn:Hc; [|by destruct ev; try done; simpl; apply wp_throw].
      assert (L p = PEvent ev) as HL by (apply (iv_sched _ _ _ Hi _ _ Hc); eexists; apply Hd).
      destruct (iv_valid _ _ _ Hi p) as [tr Htr]; [congruence|].
      destruct (fire_inv L w p ev t tr Hi Hd Ht Hc Htr) as [Hi' Hb].
      eapply wp_mono; [eapply handler_ok; [exact Hi'|exact Htr|apply move_eq|done| |]|].
      - intros He. by apply wake_safe_fired, Hsafe.
      - intros He. by apply wake_ready_fired, Hready.
      - intros [] w'. apply Alive_settled. }
    unfold w_step, wp, wfire in *. destruct Hd as [Hl Hm]. rewrite Hl.
    by rewrite bool_decide_eq_true_2.
  - destruct Hwf as [t Ht]. simpl. unfold recvTimingResp. do 2 wp_step.
    eapply wp_mono; [apply (completeRequest_ok None L p t); [done|done|by left]|].
    intros [] w' (L' & Hi' & _). do 2 wp_step. by exists L'.
  - simpl. eapply wp_use; [|apply recvRetry_ok|].
    { by exists L. }
    intros [] w'. apply Alive_settled.
  - destruct Hwf as [Ht Hm]. unfold w_step, wp. rewrite (proj2 (Z.leb_le _ _)) by lia.
    rewrite bool_decide_eq_true_2 by done. exists L.
    destruct Hi as [H1 H2 H3 H4 H5 H6 H7 H8]. split; try done.
    + unfold world_now in *; simpl in *. lia.
    + intros q tq Hq. destruct (H8 _ _ Hq) as [K1 [K2 K2'] K3 K4 K5 K6 K7 K8 K9 K10 K11 K12 K13 K14].
      split; try done. split; [done|]. unfold world_now in *. simpl in *. lia.
Qed.

(** ** Construction *)

(** A system before the simulation starts: every pending event belongs to a TRE. *)
Definition Booting (w : World) : Prop :=
  exists L, Inv None L w /\ forall p e, on (w_sched w) (p, e) -> is_Some (w_tres w !! p).

Lemma new_TRE_ok s p pr words opened :
  params_ok pr -> trace_ok words -> 0 <= s_now s -> tre_ok false s PNone p (new_TRE pr words opened).
Proof.
  intros Hp Ht Hn. destruct Hp. split; simpl; try done.
  split; simpl; lia.
Qed.

Lemma Inv_add_tre L w p t :
  Inv None L w -> w_tres w !! p = None -> tre_ok false (w_sched w) PNone p t ->
  L p = PNone /\ Inv None L (set_w_tres (<[p := t]> (w_tres w)) w).
Proof.
  intros Hi Hp Ht. assert (L p = PNone) as HL.
  { destruct (decide (L p = PNone)) as [|Hne]; [done|]. destruct (iv_valid _ _ _ Hi p Hne); congruence. }
  split; [done|]. destruct Hi as [H1 H2 H3 H4 H5 H6 H7 H8]. split; try done; simpl.
  - intros q Hq. destruct (decide (p = q)) as [<-|]; [done|]. rewrite lookup_insert_ne by done. auto.
  - intros q tq. destruct (decide (p = q)) as [<-|].
    + rewrite lookup_insert_eq. intros [= <-]. by rewrite HL.
    + rewrite lookup_insert_ne by done. apply H8.
Qed.

Lemma initQueues_ok L depth m :
  map_Forall (queue_ok L) m -> map_Forall (queue_ok L) (initQueues depth m).
Proof.
  unfold initQueues. generalize [(0, 1); (0, 2); (0, 3); (0, 4)]. intros l. revert m.
  induction l as [|k l IH]; intros m Hm; simpl; [done|]. apply IH. case_match; [done|].
  apply map_Forall_insert_2; [|done]. split; simpl; [|done|done].
  pose proof (wrap_bound 32 depth ltac:(lia)). unfold u32. lia.
Qed.

(** The two events a new TRE starts with. *)
Lemma start_events_ok L w p t pr :
  Inv None L w -> w_tres w !! p = Some t -> t_params t = pr -> L p = PNone ->
  ~ on (w_sched w) (p, NoRequestEv) ->
  exists w' clk', (now ← gets world_now; on_wsched (s_schedule (p, TickEv) now);;
      when ← edge p (p_progress_check pr); on_wsched (s_schedule (p, NoRequestEv) when)) w = Ok (tt, w')
    /\ Inv None (move p (PEvent TickEv) L) w' /\ w_tres w' = <[p := set_clk clk' t]> (w_tres w)
    /\ (forall q e, on (w_sched w') (q, e) -> q = p \/ on (w_sched w) (q, e)).
Proof.
  intros Hi Ht <- HL Hnr. rewrite bind_gets.
  set (w1 := set_w_sched (mkSched (world_now w) (<[(p, TickEv) := world_now w]> (s_pending (w_sched w)))) w).
  assert (Inv None (move p (PEvent TickEv) L) w1) as Hi1.
  { apply (Inv_schedule None L w); [done|done|lia|eauto|by left|].
    intros t' Ht' Hb. rewrite (none_not_blocked _ _ _ _ _ Hi Ht' HL) in Hb. done. }
  rewrite (bind_run _ _ _ tt w1); cycle 1.
  { apply on_wsched_run, s_schedule_fresh; [done|]. apply not_on_scheduled. eapply free_not_on; eauto. }
  destruct (edge_spec None _ w1 p t (p_progress_check (t_params t)) Hi1 Ht) as (when & clk' & Hr & Hle & Hi2).
  { by eapply check_range. }
  rewrite (bind_run _ _ _ _ _ Hr). set (w2 := set_w_tres _ w1) in *.
  exists (set_w_sched (mkSched (world_now w2) (<[(p, NoRequestEv) := when]> (s_pending (w_sched w2)))) w2), clk'.
  split; [|split; [by apply Inv_watchdog|split; [done|]]].
  - apply on_wsched_run, s_schedule_fresh; [done|]. apply not_on_scheduled.
    intros [[=]|Ho]%on_insert. by apply Hnr.
  - intros q e [[= <- <-]|[[= <- <-]|Ho]%on_insert]%on_insert; auto.
Qed.

Lemma construct_TRE_ok p pr trace w :
  Booting w -> w_tres w !! p = None -> params_ok pr -> trace_ok (default [] trace) ->
  exists w', construct_TRE p pr trace w = Ok (tt, w') /\ Booting w'
    /\ dom (w_tres w') = {[p]} ∪ dom (w_tres w).
Proof.
  intros (L & Hi & Hev) Hp Hpr Htr.
  assert (0 <= s_now (w_sched w)) as Hn by apply (iv_time _ _ _ Hi).
  destruct trace as [words|]; simpl in Htr; unfold construct_TRE.
  - destruct (Inv_add_tre L w p _ Hi Hp (new_TRE_ok (w_sched w) p pr words true Hpr Htr Hn)) as [HL Hi1].
    rewrite bind_modify, bind_modify.
    set (t := new_TRE pr words true) in *. set (w1 := set_w_tres (<[p := t]> (w_tres w)) w) in *.
    set (w2 := set_statics _ _ _ _ w1).
    destruct (start_events_ok L w2 p t pr) as (w3 & clk' & Hr & Hi3 & Hw3 & Hev3);
      [by apply Inv_statics|apply lookup_insert_eq|done|done| |].
    { intros Ho. destruct (Hev p NoRequestEv Ho); congruence. }
    rewrite bind_gets in Hr. apply bind_ok in Hr as ([] & s2 & Hr1 & Hr).
    apply bind_ok in Hr as (when & s3 & Hr2 & Hr3).
    rewrite bind_gets, (bind_run _ _ _ _ _ Hr1), (bind_run _ _ _ _ _ Hr2), (bind_run _ _ _ _ _ Hr3), bind_gets.
    set (w4 := if (TESTER_ALLOCATOR w3 =? 0) && negb (p_queue_depth pr =? 0)
               then set_queues (initQueues (p_queue_depth pr) (queues w3)) w3 else w3).
    rewrite (bind_run _ _ _ tt w4) by (unfold w4; by destruct (_ && _)).
    eexists. split; [done|].
    assert (w_tres w4 = w_tres w3 /\ w_sched w4 = w_sched w3) as [E1 E2] by (unfold w4; by destruct (_ && _)).
    split; [|simpl; rewrite E1, Hw3; unfold w2, w1; simpl; rewrite !dom_insert_L; set_solver].
    exists (move p (PEvent TickEv) L). split.
    + apply Inv_statics. unfold w4. destruct (_ && _); [|done].
      apply Inv_queues; [done|]. apply initQueues_ok, Hi3.
    + intros q e. simpl. rewrite E1, E2, Hw3. intros [->|Ho]%Hev3; [rewrite lookup_insert_eq; eauto|].
      unfold w2, w1; simpl. rewrite insert_insert_eq, lookup_insert. case_decide; [eauto|]. by eapply Hev.
  - destruct (Inv_add_tre L w p _ Hi Hp (new_TRE_ok (w_sched w) p pr [] false Hpr ltac:(constructor) Hn)) as [HL Hi1].
    eexists. split; [done|]. split; [|simpl; by rewrite dom_insert_L].
    exists L. split; [done|]. intros q e Ho. simpl. rewrite lookup_insert. case_decide; [eauto|]. by eapply Hev.
Qed.

(** ** Reachable systems *)

(** A configuration: address, parameters and trace of each TRE. *)
Definition config : Type := list (nat * TREParams * option (list string)).
Definition boot (c : config) : T unit := forM_ c (fun x => construct_TRE x.1.1 x.1.2 x.2).
Definition world0 (now ns : Z) : World := mkWorld (mkSched now ∅) ∅ ∅ ∅ ∅ [] 0 0 false ns [] [].

Record wf_config (c : config) : Prop := {
  wc_nodup : NoDup (map (fun x => x.1.1) c);
  wc_params : Forall (fun x => params_ok x.1.2 /\ trace_ok (default [] x.2)) c
}.

Lemma world0_booting now ns : 0 <= now < 2 ^ 62 -> Booting (world0 now ns).
Proof.
  intros Hn. exists (fun _ => PNone). split; [|by intros p e [? ?]].
  split; try done. by intros p e _ [? ?].
Qed.

Lemma boot_ok c w :
  Booting w -> wf_config c -> (forall x, x ∈ c -> w_tres w !! x.1.1 = None) ->
  exists w', boot c w = Ok (tt, w') /\ Settled w'.
Proof.
  intros Hb [Hnd Hpr]. revert w Hb. unfold boot.
  induction c as [|[[p pr] tr] c IH]; intros w Hb Hfr; [destruct Hb as (L & Hi & _); exists w; split; [done|by exists L]|].
  simpl in *. apply NoDup_cons in Hnd as [Hp Hnd]. apply Forall_cons in Hpr as [[Hpr Htr] Hprs].
  destruct (construct_TRE_ok p pr tr w Hb) as (w1 & Hr & Hb1 & Hdom); [apply (Hfr (p, pr, tr)); by left|done|done|].
  destruct (IH Hnd Hprs w1 Hb1) as (w' & Hr' & Hs).
  { intros x Hx. apply not_elem_of_dom. rewrite Hdom. intros [Heq%elem_of_singleton|Hin]%elem_of_union.
    - apply Hp. rewrite <- Heq. by apply (list_elem_of_fmap_2 (fun x : nat * TREParams * option (list string) => x.1.1)).
    - revert Hin. apply not_elem_of_dom, Hfr. by right. }
  exists w'. by rewrite (bind_run _ _ _ _ _ Hr).
Qed.

(** The states a configuration can reach. *)
Inductive w_reachable (c : config) (now ns : Z) : World -> Prop :=
  | wr_boot w : boot c (world0 now ns) = Ok (tt, w) -> w_reachable c now ns w
  | wr_step w i w' : w_reachable c now ns w -> wf_winput w i -> w_step i w = Ok (tt, w') ->
      w_reachable c now ns w'.

Lemma w_reachable_inv c now ns w :
  wf_config c -> 0 <= now < 2 ^ 62 -> w_reachable c now ns w -> Settled w.
Proof.
  intros Hc Hn Hr. induction Hr as [w Hb|w i w' _ IH Hi Hs].
  - destruct (boot_ok c (world0 now ns)) as (w' & Hr' & Hset); [by apply world0_booting|done|done|congruence].
  - exact (wp_ok _ _ _ _ _ _ (w_step_ok w i IH Hi) Hs).
Qed.

(** ** What the invariant gives *)

(** [p] has no event that would make it run. *)
Definition suspended (w : World) (p : nat) : Prop := forall e, ctrl e = true -> ~ on (w_sched w) (p, e).

Lemma parked_suspended L w p : Inv None L w -> parked (L p) = true -> suspended w p.
Proof. intros Hi Hp e He Hon. by rewrite (iv_sched _ _ _ Hi _ _ He Hon) in Hp. Qed.

(** C1: which failures a step of the TREs can end in, one by one, whatever the
    traces and the memory system's answers are. It is one of: an assertion that a
    response answers an access in flight, is four bytes long and is a read or a
    write, that a retry was asked for, that the idle count stays within the number
    of TREs, that a mutex, barrier or wake argument is not zero, that a STALL's
    dependency list opens with a parenthesis, or that no dependency is recorded when
    a blocking access is found (this one fails on well-formed traces, see
    stall_after_blocking_load_asserts); a fatal report of an unsolicited response, a
    mutex or barrier initialised twice, locked twice or unlocked by another, a WAKE
    of a TRE about to tick, a missing parenthesis or an unknown word; a panic of an
    error response, a watchdog or more than 100 accesses in flight; a word that is
    not a number or out of range, a mutex that does not exist, or an exit for a
    missing queue; an index beyond allTREs or the front of an empty word. In
    particular no step schedules an event that is already scheduled or lies in the
    past, reschedules or deschedules one that is not scheduled, ticks while a packet
    waits for a retry, hands a STALL to the port, blocks a STALL without a
    dependency, follows a dangling pointer, indexes a waiting list out of range or
    fails to finish reading a dependency list. The conditions: distinct TREs with
    clock parameters small enough that 64-bit ticks do not wrap before 2^62, a
    simulation below that tick, no trace word that reads as -1 in base 16 (the
    sentinel INVALID_PADDR; sentinel_load_does_not_block shows why), events fired in
    the order of their ticks, and every WAKE naming another TRE that is about to
    tick or sleeps without waiting for anything (the code checks only that its tick
    is not scheduled; wake_at_barrier_arrives_twice shows why). *)
Theorem tre_step_benign c now ns w i e :
  wf_config c -> 0 <= now < 2 ^ 62 -> w_reachable c now ns w -> wf_winput w i ->
  w_step i w = Err e -> benign e = true.
Proof.
  intros Hc Hn Hr Hi Hs. pose proof (w_reachable_inv _ _ _ _ Hc Hn Hr) as Hset.
  exact (wp_err _ _ _ _ _ (w_step_ok w i Hset Hi) Hs).
Qed.

(** C4: a TRE executes its trace sequentially: in every reachable state at most one
    event that continues it is pending, and none while it waits for a port retry, a
    mutex, a barrier or a queue slot. While an entry is blocked by accesses in
    flight the only one that can be pending is the tick that looks at the
    dependencies again, and then there is room for another access. The conditions
    are those of the reachable states: distinct TREs with clock parameters that keep
    64-bit ticks below 2^62, no trace word that reads as -1 in base 16 (the sentinel
    INVALID_PADDR), events fired in the order of their ticks, and every WAKE naming
    another TRE that is about to tick or sleeps without waiting for anything, which
    wake() itself does not check. *)
Theorem tre_single_continuation c now ns w p t :
  wf_config c -> 0 <= now < 2 ^ 62 -> w_reachable c now ns w -> w_tres w !! p = Some t ->
  (forall e1 e2, ctrl e1 = true -> ctrl e2 = true ->
     on (w_sched w) (p, e1) -> on (w_sched w) (p, e2) -> e1 = e2)
  /\ (retryPkt t <> None -> suspended w p)
  /\ (blocked t = true -> forall e, ctrl e = true -> on (w_sched w) (p, e) ->
        e = TickEv /\ Z.of_nat (length (outstandingAddrs t)) < p_max_outstanding (t_params t))
  /\ map_Forall (fun _ m => p ∈ mx_waiting m -> suspended w p) (mutexMap w)
  /\ map_Forall (fun _ b => p ∈ ba_arrived b -> suspended w p) (barrierMap w)
  /\ map_Forall (fun _ q => waitingToPush q = Some p \/ waitingToPop q = Some p -> suspended w p) (queues w).
Proof.
  intros Hc Hn Hr Ht. destruct (w_reachable_inv _ _ _ _ Hc Hn Hr) as [L Hi].
  pose proof (iv_tre _ _ _ Hi _ _ Ht) as Hok. split_and!.
  - intros e1 e2 H1 H2 O1 O2. pose proof (iv_sched _ _ _ Hi _ _ H1 O1).
    pose proof (iv_sched _ _ _ Hi _ _ H2 O2). congruence.
  - intros Hrt e He Ho. pose proof (iv_sched _ _ _ Hi _ _ He Ho) as HL.
    rewrite (tk_retry _ _ _ _ _ Hok Hrt) in HL. done.
  - intros Hb e He Ho. pose proof (iv_sched _ _ _ Hi _ _ He Ho).
    assert (e = TickEv) as -> by (destruct (tk_blocked _ _ _ _ _ Hok Hb); congruence).
    split; [done|]. by apply (tk_tick _ _ _ _ _ Hok).
  - intros a m Ha Hin. eapply parked_suspended; [done|].
    by rewrite (mo_parked _ _ _ (iv_mutex _ _ _ Hi _ _ Ha) _ Hin).
  - intros a b Ha Hin. eapply parked_suspended; [done|].
    by rewrite (bo_parked _ _ _ (iv_barrier _ _ _ Hi _ _ Ha) _ Hin).
  - intros k q Hk [Hq|Hq]; (eapply parked_suspended; [done|]).
    + by rewrite (proj1 (qo_push _ _ _ (iv_queue _ _ _ Hi _ _ Hk) _ Hq)).
    + by rewrite (proj1 (qo_pop _ _ _ (iv_queue _ _ _ Hi _ _ Hk) _ Hq)).
Qed.

(** C2: mutexes, barriers and queues keep their promises in every state that a
    system of TREs reaches by traces whose WAKE entries name another TRE that is
    about to tick or sleeps without waiting for a mutex, a barrier, a queue, a retry
    or a dependency. A free mutex has no waiters, waiters are distinct and exclude
    the owner; a barrier holds fewer distinct TREs than its count; a queue never
    exceeds its depth, somebody waits to push only on a full queue and to pop only
    on an empty one. wake() does not check the condition on WAKE, it only refuses a
    target whose tick is scheduled, and without it the waiters are not distinct
    (wake_at_barrier_arrives_twice). The other conditions: distinct TREs with clock
    parameters that keep 64-bit ticks below 2^62, no trace word that reads as -1 in
    base 16, events fired in the order of their ticks. *)
Theorem tre_sync_invariant c now ns w :
  wf_config c -> 0 <= now < 2 ^ 62 -> w_reachable c now ns w ->
  map_Forall (fun _ m => NoDup (mx_waiting m) /\ (mx_owner m = None -> mx_waiting m = [])
     /\ forall o, mx_owner m = Some o -> o ∉ mx_waiting m) (mutexMap w)
  /\ map_Forall (fun _ b => NoDup (ba_arrived b)
       /\ Z.of_nat (length (ba_arrived b)) < ba_count b) (barrierMap w)
  /\ map_Forall (fun _ q => Z.of_nat (length (tq_q q)) <= tq_size q
       /\ (waitingToPush q <> None -> Z.of_nat (length (tq_q q)) = tq_size q)
       /\ (waitingToPop q <> None -> tq_q q = [])) (queues w).
Proof.
  intros Hc Hn Hr. destruct (w_reachable_inv _ _ _ _ Hc Hn Hr) as [L Hi]. split_and!.
  - intros a m Ha. by destruct (iv_mutex _ _ _ Hi _ _ Ha).
  - intros a b Ha. by destruct (iv_barrier _ _ _ Hi _ _ Ha).
  - intros k q Hk. destruct (iv_queue _ _ _ Hi _ _ Hk) as [Hl H1 H2]. split_and!; [done| |].
    + destruct (waitingToPush q) as [x|] eqn:E; [|done]. intros _. by apply (H1 x).
    + destruct (waitingToPop q) as [x|] eqn:E; [|done]. intros _. by apply (H2 x).
Qed.

(** C3: in every reachable state of traces without the address -1, a TRE never has
    more accesses in flight than configured, a blocking access is always the
    youngest one in flight (nothing is issued past it), a blocked entry records
    every blocking access in flight among its dependencies, and while a response is
    expected the response watchdog is armed. A word that reads as -1 in base 16 is
    the sentinel INVALID_PADDR by which the code says that no blocking access is in
    flight, and a load is issued past a blocking access to that address
    (sentinel_load_does_not_block). The other conditions: distinct TREs with clock
    parameters that keep 64-bit ticks below 2^62, events fired in the order of their
    ticks, and every WAKE naming another TRE that is about to tick or sleeps without
    waiting for anything, which wake() itself does not check. *)
Theorem tre_access_invariant c now ns w p t :
  wf_config c -> 0 <= now < 2 ^ 62 -> w_reachable c now ns w -> w_tres w !! p = Some t ->
  Z.of_nat (length (outstandingAddrs t)) <= p_max_outstanding (t_params t)
  /\ blking_last (outstandingAddrs t)
  /\ (blocked t = true -> forall a, (a, true) ∈ outstandingAddrs t -> a ∈ bp_deps (blockedPkt t))
  /\ (outstandingAddrs t <> [] -> on (w_sched w) (p, NoResponseEv)).
Proof.
  intros Hc Hn Hr Ht. destruct (w_reachable_inv _ _ _ _ Hc Hn Hr) as [L Hi].
  destruct (iv_tre _ _ _ Hi _ _ Ht). split_and!; try done. auto.
Qed.
