(* ===== verification/TREDemo.v ===== *)
(** * Running systems of TREs

    An executable check that a sequence of inputs is one the properties speak
    about, concrete systems that instantiate them, and runs on which the code
    does not do what its trace asks for. *)

From Stdlib Require Import Ascii.
From S2P Require Import Prelude Hoare EventSched Packet IntMath Clocked Strtol TRE TREInv TREPrims TREMem TREDecode TREProps.

(** ** Checking inputs *)

Definition due_at (k : nat * tre_event) (w : World) : option Z := s_pending (w_sched w) !! k.

(** The next word of [p] is not a WAKE. *)
Definition no_wake_next (p : nat) (w : World) : bool :=
  match w_tres w !! p with
  | Some t => negb (bool_decide (t_trace t !! t_pos t = Some "WAKE"%string))
  | None => true
  end.

Definition check_input (w : World) (i : w_input) : bool :=
  match i with
  | WFire p ev _ =>
      match due_at (p, ev) w with
      | Some t => (t <? 2 ^ 62) && bool_decide (map_Forall (fun _ t' => t <= t') (s_pending (w_sched w)))
                  && no_wake_next p w && negb (bool_decide (ev = WakeEv))
      | None => false
      end
  | WResp p _ _ _ | WRetry p _ => bool_decide (is_Some (w_tres w !! p))
  | WTime t => (world_now w <=? t) && (t <? 2 ^ 62)
               && bool_decide (map_Forall (fun _ t' => t <= t') (s_pending (w_sched w)))
  end.

Lemma check_input_wf w i : check_input w i = true -> wf_winput w i.
Proof.
  destruct i as [p ev env|p cmd addr size|p env|t]; simpl.
  - unfold due_at. destruct (s_pending (w_sched w) !! (p, ev)) as [t|] eqn:Hl; [|done].
    rewrite !andb_true_iff. intros [[[Ht%Z.ltb_lt Hm%bool_decide_eq_true_1] Hw] He%negb_true_iff%bool_decide_eq_false_1].
    split; [by exists t|]. split; [|done]. intros _ tr dw d cw c q H1 _ H3.
    unfold no_wake_next in Hw. rewrite H1 in Hw. apply negb_true_iff, bool_decide_eq_false_1 in Hw. done.
  - apply bool_decide_eq_true_1.
  - apply bool_decide_eq_true_1.
  - rewrite !andb_true_iff. intros [[H1%Z.leb_le H2%Z.ltb_lt] Hm%bool_decide_eq_true_1]. auto with lia.
Qed.

(** Run the inputs, checking each; [None] when one is refused or fails. *)
Fixpoint run_checked (l : list w_input) (w : World) : option World :=
  match l with
  | [] => Some w
  | i :: l => if check_input w i
              then match w_step i w with Ok (_, w') => run_checked l w' | Err _ => None end
              else None
  end.

Lemma run_checked_reachable c now ns l w w' :
  w_reachable c now ns w -> run_checked l w = Some w' -> w_reachable c now ns w'.
Proof.
  revert w. induction l as [|i l IH]; intros w Hr; simpl; [by intros [= <-]|].
  destruct (check_input w i) eqn:Hc; [|done]. destruct (w_step i w) as [[[] w1]|e] eqn:Hs; [|done].
  apply IH. eapply wr_step; [done|by apply check_input_wf|done].
Qed.

Definition run_system (c : config) (now ns : Z) (l : list w_input) : option World :=
  match boot c (world0 now ns) with Ok (_, w) => run_checked l w | Err _ => None end.

Lemma run_system_reachable c now ns l w :
  run_system c now ns l = Some w -> w_reachable c now ns w.
Proof.
  unfold run_system. destruct (boot c (world0 now ns)) as [[[] w0]|e] eqn:Hb; [|done].
  apply run_checked_reachable. by constructor.
Qed.

(** ** A producer and a consumer *)

Definition demo_params (id : Z) : TREParams := mkParams 500 1 id 2 1000000 1000000000 false false 2.
Definition demo_env : Env := mkEnv true ReadResp 0.
Definition demo_refuse : Env := mkEnv false ReadResp 0.

Definition demo_config : config :=
  [(1%nat, demo_params 0, Some ["MTXINIT"; "10"; "0"; "MTXLOCK"; "10"; "3"; "LD"; "@4"; "100"; "("; ")";
      "LDB"; "200"; "("; "100"; ")"; "PUSH"; "1"; "0"; "MTXUNLOCK"; "10"; "0"; "EOF"]%string);
   (2%nat, demo_params 1, Some ["POP"; "0"; "0"; "MTXLOCK"; "10"; "0"; "ST"; "300"; "("; ")"; "EOF"]%string)].

Lemma demo_params_ok id : params_ok (demo_params id).
Proof. split; simpl; lia. Qed.

(** Traces are checked word by word. *)
Lemma trace_ok_dec l : forallb (fun w => match stol 16 w with Ok v => negb (v =? -1) | Err _ => true end) l = true ->
  trace_ok l.
Proof.
  intros Hf. apply Forall_forall. intros w Hw Heq.
  rewrite forallb_forall in Hf. specialize (Hf w). rewrite Heq in Hf.
  by discriminate Hf; apply list_elem_of_In.
Qed.

Lemma demo_config_wf : wf_config demo_config.
Proof.
  split; [simpl; repeat constructor; set_solver|].
  apply Forall_cons; split; [|apply Forall_singleton];
    (split; [apply demo_params_ok|apply trace_ok_dec; vm_compute; reflexivity]).
Qed.

(** The consumer waits at the queue; the producer locks the mutex, issues its
    first load and is blocked on it. *)
Definition demo_inputs : list w_input :=
  [WFire 1 TickEv demo_env; WFire 2 TickEv demo_env; WFire 1 TickEv demo_env; WFire 1 LockMutexEv demo_env;
   WFire 1 TickEv demo_env; WFire 1 TickEv demo_env].
Definition demo_blocked : World := default (world0 0 1000) (run_system demo_config 0 1000 demo_inputs).
(** The load returns, the blocking load is refused and retried. *)
Definition demo_retry : World :=
  default (world0 0 1000)
    (run_system demo_config 0 1000
       (demo_inputs ++ [WResp 1 ReadResp 256 4; WFire 1 TickEv demo_refuse; WRetry 1 demo_env])).

Lemma demo_blocked_reachable : w_reachable demo_config 0 1000 demo_blocked.
Proof. apply (run_system_reachable _ _ _ demo_inputs). vm_compute. reflexivity. Qed.
Lemma demo_retry_reachable : w_reachable demo_config 0 1000 demo_retry.
Proof.
  apply (run_system_reachable _ _ _
    (demo_inputs ++ [WResp 1 ReadResp 256 4; WFire 1 TickEv demo_refuse; WRetry 1 demo_env])).
  vm_compute. reflexivity.
Qed.

(** An unsolicited response is refused by an assertion, not by the scheduler. *)
Lemma tre_step_benign_witness :
  exists e, w_step (WResp 1 ReadResp 512 4) demo_blocked = Err e /\ benign e = true.
Proof.
  exists (EAssert "!erase || found"). split; [vm_compute; reflexivity|].
  apply (tre_step_benign demo_config 0 1000 demo_blocked (WResp 1 ReadResp 512 4));
    [apply demo_config_wf|lia|apply demo_blocked_reachable|apply check_input_wf; vm_compute; reflexivity|vm_compute; reflexivity].
Defined.

(** The consumer is suspended at the empty queue. *)
Lemma tre_single_continuation_witness : suspended demo_blocked 2.
Proof.
  assert (exists t, w_tres demo_blocked !! 2%nat = Some t) as [t Ht] by (eexists; vm_compute; reflexivity).
  destruct (tre_single_continuation demo_config 0 1000 demo_blocked 2 t) as (_ & _ & _ & _ & _ & Hq);
    [apply demo_config_wf|lia|apply demo_blocked_reachable|exact Ht|].
  refine (Hq (0, 1) (mkQueue [] 2 None (Some 2%nat)) _ (or_intror eq_refl)). vm_compute. reflexivity.
Defined.

Lemma tre_sync_invariant_witness :
  map_Forall (fun _ q => Z.of_nat (length (tq_q q)) <= tq_size q
       /\ (waitingToPush q <> None -> Z.of_nat (length (tq_q q)) = tq_size q)
       /\ (waitingToPop q <> None -> tq_q q = [])) (queues demo_blocked).
Proof.
  apply (tre_sync_invariant demo_config 0 1000 demo_blocked);
    [apply demo_config_wf|lia|apply demo_blocked_reachable].
Defined.

(** After the retry the blocking load is in flight, alone, under the watchdog. *)
Lemma tre_access_invariant_witness :
  exists t, w_tres demo_retry !! 1%nat = Some t /\ outstandingAddrs t = [(512, true)]
    /\ on (w_sched demo_retry) (1%nat, NoResponseEv).
Proof.
  assert (exists t, w_tres demo_retry !! 1%nat = Some t /\ outstandingAddrs t = [(512, true)]) as (t & Ht & Ho)
    by (eexists; vm_compute; split; reflexivity).
  exists t. split; [exact Ht|]. split; [exact Ho|].
  apply (tre_access_invariant demo_config 0 1000 demo_retry 1 t);
    [apply demo_config_wf|lia|apply demo_retry_reachable|exact Ht|by rewrite Ho].
Defined.

(** The words of a load or store entry that carry its operands. *)
Definition operands_at (t : TRE) (pc a : Z) : Prop :=
  t_trace t !! t_pos t = Some (String "@"%char (print_num 10 pc))
  /\ t_trace t !! S (t_pos t) = Some (print_num 16 a).

(** C38: the operands of a load or store survive the trace file.  When the next
    two words are a virtual PC after an at sign, printed in base 10, and an
    address printed in base 16, decoding answers that PC and that address and
    moves two words on; an address of [2^63] or more is not decoded but makes
    [stol] throw [std::out_of_range], although [Addr] holds it. *)
Theorem trace_operands_roundtrip p w t pc a :
  w_tres w !! p = Some t -> 0 <= pc < 2 ^ 63 -> 0 <= a < 2 ^ 64 ->
  operands_at t pc a ->
  read_pc_addr p w =
    if a <? 2 ^ 63
    then Ok ((Some pc, a), set_w_tres (<[p := set_pos (S (S (t_pos t))) t]> (w_tres w)) w)
    else Err EOutOfRange.
Proof.
  intros Ht Hpc Ha [H1 H2]. unfold read_pc_addr, read_addr.
  erewrite bind_run by (rewrite (readNextToken_run p w t Ht), H1; reflexivity).
  cbv beta iota. rewrite bool_decide_eq_true_2 by done.
  erewrite bind_run by (unfold lift; rewrite stol_print, (proj2 (Z.ltb_lt pc _)) by lia; reflexivity).
  rewrite bind_assoc. erewrite bind_run by (erewrite readNextToken_run by apply lookup_insert_eq; simpl; rewrite H2; reflexivity).
  rewrite bind_assoc. unfold lift at 1, mbind, M_bind. rewrite stol_print by (auto || lia).
  destruct (a <? 2 ^ 63) eqn:E; [|done]. unfold mret, M_ret. simpl.
  unfold u64, wrap. rewrite !(Z.mod_small _ (2 ^ 64)) by lia.
  rewrite (proj2 (Z.eqb_neq pc _)) by lia. by rewrite insert_insert_eq.
Qed.

Definition demo_operands : World :=
  set_w_tres {[1%nat := new_TRE (demo_params 0) ["@4096"; "deadbeef"]%string true]} (world0 0 1000).
Lemma trace_operands_roundtrip_witness :
  exists w', read_pc_addr 1 demo_operands = Ok ((Some 4096, 3735928559), w').
Proof.
  eexists. rewrite (trace_operands_roundtrip 1 demo_operands
    (new_TRE (demo_params 0) ["@4096"; "deadbeef"]%string true) 4096 3735928559);
    [reflexivity|reflexivity|lia|lia|split; reflexivity].
Defined.

(** ** Where the code departs from the trace *)

(** A stall that depends on a blocking load in flight: the dependency list is
    read before the blocking access is looked up, so the assertion that no
    dependency has been recorded yet fails. *)
Definition stall_config : config :=
  [(1%nat, demo_params 0, Some ["LDB"; "100"; "("; ")"; "STALL"; "5"; "("; "100"; ")"; "EOF"]%string)].
Theorem stall_after_blocking_load_asserts :
  match boot stall_config (world0 0 1000) with
  | Ok (_, w) =>
      match w_step (WFire 1 TickEv demo_env) w with
      | Ok (_, w1) => w_step (WFire 1 TickEv demo_env) w1 = Err (EAssert "blockedPkt.deps.empty()")
      | Err _ => False
      end
  | Err _ => False
  end.
Proof. vm_compute. reflexivity. Qed.

(** The same dependency of a load is handled: the load waits. *)
Definition load_config : config :=
  [(1%nat, demo_params 0, Some ["LDB"; "100"; "("; ")"; "LD"; "@7"; "200"; "("; "100"; ")"; "EOF"]%string)].
Definition load_issued : list TPacket :=
  match run_system load_config 0 1000
    [WFire 1 TickEv demo_env; WFire 1 TickEv demo_env; WResp 1 ReadResp 256 4; WFire 1 TickEv demo_env] with
  | Some w => map snd (w_issued w)
  | None => []
  end.

(** A blocked load loses the virtual PC of its trace entry: the saved packet
    has no field for it. *)
Theorem blocked_load_loses_pc :
  load_issued = [mkTPacket ReadReq 256 4 false 0 None; mkTPacket ReadReq 512 4 false 0 None].
Proof. vm_compute. reflexivity. Qed.

(** Destroying a TRE that found no trace file deletes pointers that were never
    set (and has decremented a counter that its constructor did not increment). *)
Theorem destroy_without_trace p pr w :
  (construct_TRE p pr None;; destruct_TRE p) w = Err (EUndefined "delete of an uninitialised pointer").
Proof.
  unfold construct_TRE, destruct_TRE. rewrite bind_modify, bind_modify.
  by rewrite (bind_gets_tre _ _ _ _ (new_TRE pr [] false)) by apply lookup_insert_eq.
Qed.

(** [wake] refuses processing element 0: the argument doubles as a "set" flag. *)
Theorem wake_pe0_asserts p t w :
  w_tres w !! p = Some t -> data t = 0 -> wake p w = Err (EAssert "data").
Proof. intros Ht Hd. unfold wake. rewrite (bind_gets_tre _ _ _ _ t) by done. by rewrite Hd. Qed.

(** Boot and run the inputs as they come, without the conditions of [wf_winput]. *)
Definition run_unchecked (c : config) (l : list w_input) : res World :=
  match (boot c;; forM_ l w_step) (world0 0 1000) with Ok (_, w) => Ok w | Err e => Err e end.
Definition ticks (l : list nat) : list w_input := map (fun p => WFire p TickEv demo_env) l.

(** A barrier for [count] TREs, and a WAKE of the one that has arrived at it. *)
Definition wake_config (count : string) : config :=
  [(1%nat, demo_params 0, Some ["BARINIT"; "10"; count; "0"; "WAKE"; "1"; "0"; "STALL"; "5"; "("; ")"; "EOF"]%string);
   (2%nat, demo_params 1, Some ["BARWAIT"; "10"; "0"; "BARWAIT"; "10"; "0"; "EOF"]%string)].

(** [wake] does not ask what its target waits for.  A TRE woken while it waits
    at a barrier leaves without the others and stays in the list of those that
    have arrived: at the next wait it is entered a second time, and if that
    completes the barrier, its tick is scheduled twice. *)
Theorem wake_at_barrier_arrives_twice :
  (exists w, run_unchecked (wake_config "3") (ticks [1; 2; 1; 2]%nat) = Ok w
     /\ barrierMap w !! 16 = Some (mkBarrier 3 [2; 2]%nat))
  /\ run_unchecked (wake_config "2") (ticks [1; 2; 1; 2]%nat) = Err (EAssert "!event->scheduled()").
Proof. split; [eexists; split; vm_compute; reflexivity|vm_compute; reflexivity]. Qed.

(** A blocking load of address -1, then a load of address 0x100. *)
Definition sentinel_config : config :=
  [(1%nat, demo_params 0, Some ["LDB"; "-1"; "("; ")"; "LD"; "100"; "("; ")"; "EOF"]%string)].

(** The blocking access whose address is the sentinel does not block: the load
    behind it is issued while it is in flight. *)
Theorem sentinel_load_does_not_block :
  exists w t, run_unchecked sentinel_config (ticks [1; 1]%nat) = Ok w /\ w_tres w !! 1%nat = Some t
    /\ outstandingAddrs t = [(INVALID_PADDR, true); (256, false)].
Proof. do 2 eexists. split_and!; vm_compute; reflexivity. Qed.
