(* ===== verification/Bitfield.v ===== *)
(** * Bit fields (base/bitfield.hh, base/bitfield.cc)

    The helpers at [uint64_t], with their 64-bit truncations, and the value
    each computes, bit by bit.  A shift count outside [0, 64) is undefined in
    the source; the theorems keep counts in range. *)

From S2P Require Import Prelude IntMath.

Definition mask (nbits : Z) : Z := if 64 <=? nbits then 2 ^ 64 - 1 else Z.shiftl 1 nbits - 1.

Definition bits (val first last : Z) : Z := Z.land (Z.shiftr val last) (mask (first - last + 1)).
Definition bit (val b : Z) : Z := bits val b b.

Definition mbits (val first last : Z) : Z := Z.land val (Z.land (mask (first + 1)) (not64 (mask last))).
Definition mask2 (first last : Z) : Z := mbits (2 ^ 64 - 1) first last.

Definition sext (N val : Z) : Z :=
  if bits val (N - 1) (N - 1) =? 0 then val else Z.lor val (not64 (mask N)).

Definition insertBits (val first last bit_val : Z) : Z :=
  let bmask := u64 (Z.shiftl (mask (first - last + 1)) last) in
  Z.lor (Z.land (u64 (Z.shiftl bit_val last)) bmask) (Z.land val (not64 bmask)).
Definition insertBit (val b bit_val : Z) : Z := insertBits val b b bit_val.
Definition replaceBits (val first last bit_val : Z) : Z := insertBits val first last bit_val.

Definition msb_step (hi lo k : Z) (mv : Z * Z) : Z * Z :=
  let '(msb, val) := mv in
  if negb (bits val hi lo =? 0) then (msb + k, Z.shiftr val k) else (msb, val).
Definition findMsbSet (val : Z) : Z :=
  if val =? 0 then 0
  else
    let s := msb_step 3 2 2 (msb_step 7 4 4 (msb_step 15 8 8 (msb_step 31 16 16
               (msb_step 63 32 32 (0, val))))) in
    if negb (bits s.2 1 1 =? 0) then s.1 + 1 else s.1.

Definition lsb_step (hi k : Z) (mv : Z * Z) : Z * Z :=
  let '(lsb, val) := mv in
  if bits val hi 0 =? 0 then (lsb + k, Z.shiftr val k) else (lsb, val).
Definition findLsbSet (val : Z) : Z :=
  if val =? 0 then 64
  else
    let s := lsb_step 1 2 (lsb_step 3 4 (lsb_step 7 8 (lsb_step 15 16 (lsb_step 31 32 (0, val))))) in
    if bits s.2 0 0 =? 0 then s.1 + 1 else s.1.

Definition isPow2 (v : Z) : bool := Z.land v (u64 (v - 1)) =? 0.

(** The compiler builtins: number of set bits, number of trailing zeros. *)
Fixpoint pop_pos (p : positive) : Z :=
  match p with xH => 1 | xO p => pop_pos p | xI p => 1 + pop_pos p end.
Definition popCount (val : Z) : Z := match val with Zpos p => pop_pos p | _ => 0 end.

Fixpoint ctz_pos (p : positive) : Z :=
  match p with xH => 0 | xO p => 1 + ctz_pos p | xI _ => 0 end.
Definition ctz64 (val : Z) : Z := match val with Zpos p => ctz_pos p | _ => 64 end.
Definition ctz32 (val : Z) : Z := match val with Zpos p => ctz_pos p | _ => 32 end.

Definition smear (k val : Z) : Z := Z.lor val (Z.shiftr val k).
Definition alignToPowerOfTwo (val : Z) : Z :=
  u64 (smear 32 (smear 16 (smear 8 (smear 4 (smear 2 (smear 1 (u64 (val - 1))))))) + 1).

(** The byte reversal table of base/bitfield.cc. *)
Definition reverseLookUpTable : list Z :=
  [0x00; 0x80; 0x40; 0xc0; 0x20; 0xa0; 0x60; 0xe0; 0x10; 0x90; 0x50; 0xd0; 0x30; 0xb0; 0x70; 0xf0;
   0x08; 0x88; 0x48; 0xc8; 0x28; 0xa8; 0x68; 0xe8; 0x18; 0x98; 0x58; 0xd8; 0x38; 0xb8; 0x78; 0xf8;
   0x04; 0x84; 0x44; 0xc4; 0x24; 0xa4; 0x64; 0xe4; 0x14; 0x94; 0x54; 0xd4; 0x34; 0xb4; 0x74; 0xf4;
   0x0c; 0x8c; 0x4c; 0xcc; 0x2c; 0xac; 0x6c; 0xec; 0x1c; 0x9c; 0x5c; 0xdc; 0x3c; 0xbc; 0x7c; 0xfc;
   0x02; 0x82; 0x42; 0xc2; 0x22; 0xa2; 0x62; 0xe2; 0x12; 0x92; 0x52; 0xd2; 0x32; 0xb2; 0x72; 0xf2;
   0x0a; 0x8a; 0x4a; 0xca; 0x2a; 0xaa; 0x6a; 0xea; 0x1a; 0x9a; 0x5a; 0xda; 0x3a; 0xba; 0x7a; 0xfa;
   0x06; 0x86; 0x46; 0xc6; 0x26; 0xa6; 0x66; 0xe6; 0x16; 0x96; 0x56; 0xd6; 0x36; 0xb6; 0x76; 0xf6;
   0x0e; 0x8e; 0x4e; 0xce; 0x2e; 0xae; 0x6e; 0xee; 0x1e; 0x9e; 0x5e; 0xde; 0x3e; 0xbe; 0x7e; 0xfe;
   0x01; 0x81; 0x41; 0xc1; 0x21; 0xa1; 0x61; 0xe1; 0x11; 0x91; 0x51; 0xd1; 0x31; 0xb1; 0x71; 0xf1;
   0x09; 0x89; 0x49; 0xc9; 0x29; 0xa9; 0x69; 0xe9; 0x19; 0x99; 0x59; 0xd9; 0x39; 0xb9; 0x79; 0xf9;
   0x05; 0x85; 0x45; 0xc5; 0x25; 0xa5; 0x65; 0xe5; 0x15; 0x95; 0x55; 0xd5; 0x35; 0xb5; 0x75; 0xf5;
   0x0d; 0x8d; 0x4d; 0xcd; 0x2d; 0xad; 0x6d; 0xed; 0x1d; 0x9d; 0x5d; 0xdd; 0x3d; 0xbd; 0x7d; 0xfd;
   0x03; 0x83; 0x43; 0xc3; 0x23; 0xa3; 0x63; 0xe3; 0x13; 0x93; 0x53; 0xd3; 0x33; 0xb3; 0x73; 0xf3;
   0x0b; 0x8b; 0x4b; 0xcb; 0x2b; 0xab; 0x6b; 0xeb; 0x1b; 0x9b; 0x5b; 0xdb; 0x3b; 0xbb; 0x7b; 0xfb;
   0x07; 0x87; 0x47; 0xc7; 0x27; 0xa7; 0x67; 0xe7; 0x17; 0x97; 0x57; 0xd7; 0x37; 0xb7; 0x77; 0xf7;
   0x0f; 0x8f; 0x4f; 0xcf; 0x2f; 0xaf; 0x6f; 0xef; 0x1f; 0x9f; 0x5f; 0xdf; 0x3f; 0xbf; 0x7f; 0xff].

(** [reverseBits]: byte by byte through the table. *)
Fixpoint reverse_loop (n : nat) (output val : Z) : Z :=
  match n with
  | O => output
  | S n => reverse_loop n
             (Z.lor (u64 (Z.shiftl output 8)) (nth (Z.to_nat (Z.land val 0xff)) reverseLookUpTable 0))
             (Z.shiftr val 8)
  end.
Definition reverseBits (val : Z) (size : nat) : res Z :=
  if (size <=? 8)%nat then Ok (reverse_loop size 0 val) else Err (EAssert "size <= sizeof(T)").

(** ** Masks and fields *)

Lemma mask_ones n : 0 <= n <= 64 -> mask n = Z.ones n.
Proof.
  intros Hn. unfold mask. destruct (64 <=? n) eqn:E.
  - assert (n = 64) as -> by (apply Z.leb_le in E; lia). reflexivity.
  - by rewrite Z.ones_equiv, Z.shiftl_1_l, Z.sub_1_r.
Qed.

Lemma mask_testbit n i : 0 <= n <= 64 -> 0 <= i -> Z.testbit (mask n) i = (i <? n).
Proof. intros Hn Hi. rewrite mask_ones by done. by rewrite Z.testbit_ones_nonneg by lia. Qed.

Lemma u64_testbit x i : 0 <= i -> Z.testbit (u64 x) i = (i <? 64) && Z.testbit x i.
Proof.
  intros Hi. unfold u64, wrap. destruct (i <? 64) eqn:E.
  - apply Z.ltb_lt in E. by rewrite Z.mod_pow2_bits_low by lia.
  - apply Z.ltb_ge in E. by rewrite Z.mod_pow2_bits_high by lia.
Qed.

Lemma u64_high x i : 0 <= x < 2 ^ 64 -> 64 <= i -> Z.testbit x i = false.
Proof.
  intros Hx Hi. rewrite <- (u64_small x) by done. rewrite u64_testbit by lia.
  by rewrite (proj2 (Z.ltb_ge i 64)).
Qed.

Lemma not64_testbit m i : 0 <= i -> Z.testbit (not64 m) i = (i <? 64) && negb (Z.testbit m i).
Proof.
  intros Hi. unfold not64. rewrite Z.ldiff_spec. by rewrite Z.testbit_ones_nonneg by lia.
Qed.

Lemma bits_testbit val first last i :
  0 <= last <= first -> first < 64 -> 0 <= i ->
  Z.testbit (bits val first last) i = (i <? first - last + 1) && Z.testbit val (i + last).
Proof.
  intros H1 H2 Hi. unfold bits. rewrite Z.land_spec, Z.shiftr_spec, mask_testbit by lia.
  apply andb_comm.
Qed.

Lemma bits_zero val first last :
  0 <= last <= first -> first < 64 ->
  bits val first last = 0 <-> forall i, last <= i <= first -> Z.testbit val i = false.
Proof.
  intros H1 H2. split.
  - intros Hz i Hi. pose proof (bits_testbit val first last (i - last) H1 H2 ltac:(lia)) as Hb.
    rewrite Hz, Z.bits_0 in Hb. rewrite (proj2 (Z.ltb_lt _ _)) in Hb by lia. simpl in Hb.
    by replace (i - last + last) with i in Hb by lia.
  - intros Hall. apply Z.bits_inj'. intros i Hi. rewrite bits_testbit, Z.bits_0 by done.
    destruct (i <? first - last + 1) eqn:E; [|done]. apply Z.ltb_lt in E. simpl. apply Hall. lia.
Qed.

Lemma insertBits_testbit val first last v i :
  0 <= val < 2 ^ 64 -> 0 <= last <= first -> first < 64 -> 0 <= i ->
  Z.testbit (insertBits val first last v) i
  = if (last <=? i) && (i <=? first) then Z.testbit v (i - last) else Z.testbit val i.
Proof.
  intros Hv H1 H2 Hi. unfold insertBits.
  assert (Z.testbit (u64 (Z.shiftl (mask (first - last + 1)) last)) i = (last <=? i) && (i <=? first)) as Hm.
  { rewrite u64_testbit, Z.shiftl_spec by done. destruct (Z.lt_ge_cases i last).
    - rewrite Z.testbit_neg_r by lia. rewrite (proj2 (Z.leb_gt _ _)) by done. apply andb_false_r.
    - rewrite mask_testbit by lia. rewrite (proj2 (Z.leb_le last i)) by done. simpl.
      destruct (Z.le_gt_cases i first).
      + by rewrite !(proj2 (Z.ltb_lt _ _)), (proj2 (Z.leb_le _ _)) by lia.
      + rewrite (proj2 (Z.ltb_ge _ (first - last + 1))), (proj2 (Z.leb_gt _ _)) by lia. apply andb_false_r. }
  rewrite Z.lor_spec, !Z.land_spec, not64_testbit, Hm by done.
  destruct ((last <=? i) && (i <=? first)) eqn:E; simpl.
  - apply andb_true_iff in E as [?%Z.leb_le ?%Z.leb_le].
    rewrite u64_testbit, Z.shiftl_spec by done. rewrite (proj2 (Z.ltb_lt i 64)) by lia.
    by rewrite !andb_false_r, orb_false_r, andb_true_r.
  - rewrite andb_false_r. simpl. destruct (i <? 64) eqn:E64; [by rewrite andb_true_r|].
    apply Z.ltb_ge in E64. by rewrite (u64_high val i) by done.
Qed.

(** [insertBits] writes exactly the field [first..last]: reading the field
    back gives the low bits of the value inserted, reading any disjoint field
    gives what was there, and inserting a field's own value changes nothing. *)
Theorem insertBits_field val first last v :
  0 <= val < 2 ^ 64 -> 0 <= last <= first -> first < 64 ->
  bits (insertBits val first last v) first last = v mod 2 ^ (first - last + 1)
  /\ (forall f l, 0 <= l <= f -> f < 64 -> f < last \/ first < l ->
        bits (insertBits val first last v) f l = bits val f l)
  /\ insertBits val first last (bits val first last) = val.
Proof.
  intros Hv H1 H2. split_and!.
  - apply Z.bits_inj'. intros i Hi. rewrite bits_testbit, insertBits_testbit by lia.
    destruct (i <? first - last + 1) eqn:E; simpl.
    + apply Z.ltb_lt in E. rewrite (proj2 (Z.leb_le last _)), (proj2 (Z.leb_le _ first)) by lia. simpl.
      rewrite Z.mod_pow2_bits_low by lia. f_equal. lia.
    + apply Z.ltb_ge in E. by rewrite Z.mod_pow2_bits_high by lia.
  - intros f l Hf Hl Hd. apply Z.bits_inj'. intros i Hi.
    rewrite !bits_testbit, insertBits_testbit by lia.
    destruct (i <? f - l + 1) eqn:E; [|done]. apply Z.ltb_lt in E. simpl.
    destruct ((last <=? i + l) && (i + l <=? first)) eqn:E2; [|done].
    apply andb_true_iff in E2 as [?%Z.leb_le ?%Z.leb_le]. lia.
  - apply Z.bits_inj'. intros i Hi. rewrite insertBits_testbit by done.
    destruct ((last <=? i) && (i <=? first)) eqn:E; [|done].
    apply andb_true_iff in E as [?%Z.leb_le ?%Z.leb_le].
    rewrite bits_testbit by lia. rewrite (proj2 (Z.ltb_lt _ _)) by lia. simpl. f_equal. lia.
Qed.

Lemma insertBits_field_witness :
  bits (insertBits 0xffff 7 4 0) 7 4 = 0 mod 2 ^ (7 - 4 + 1) /\ insertBits 0xffff 7 4 0 = 0xff0f.
Proof.
  split; [|reflexivity]. apply (insertBits_field 0xffff 7 4 0); lia.
Defined.

(** ** Most and least significant set bits *)

Lemma bits_upper u k : 0 < k -> 0 <= u < 2 ^ (2 * k) -> 2 * k <= 64 ->
  bits u (2 * k - 1) k = Z.shiftr u k.
Proof.
  intros Hk Hu H64. unfold bits. rewrite mask_ones by lia. rewrite Z.land_ones by lia.
  apply Z.mod_small. rewrite Z.shiftr_div_pow2 by lia.
  assert (2 ^ (2 * k) = 2 ^ k * 2 ^ k) as Hp by (rewrite <- Z.pow_add_r by lia; f_equal; lia).
  replace (2 * k - 1 - k + 1) with k by lia.
  split; [apply Z.div_pos; lia|apply Z.div_lt_upper_bound; lia].
Qed.

Lemma msb_step_log2 m u k hi :
  0 < k -> 2 * k <= 64 -> hi = 2 * k - 1 -> 0 < u < 2 ^ (2 * k) ->
  let '(m', u') := msb_step hi k k (m, u) in
  0 < u' < 2 ^ k /\ m' + Z.log2 u' = m + Z.log2 u.
Proof.
  intros Hk H64 -> Hu. unfold msb_step. rewrite bits_upper by lia.
  pose proof (floor_step_log2 m u k _ Hk eq_refl Hu) as Hf. unfold floor_step in Hf.
  rewrite land_upper_half in Hf by lia. simpl in Hf.
  assert ((Z.shiftl (Z.shiftr u k) k =? 0) = (Z.shiftr u k =? 0)) as Heq.
  { rewrite Z.shiftl_mul_pow2 by lia. destruct (Z.eqb_spec (Z.shiftr u k) 0) as [->|Hne].
    - done.
    - apply Z.eqb_neq. assert (0 < 2 ^ k) by lia. nia. }
  rewrite Heq in Hf. exact Hf.
Qed.

Ltac msb_one m u m' u' :=
  match goal with
  | H : 0 < u < 2 ^ ?b |- context [msb_step ?hi ?k ?k (m, u)] =>
      let Hs := fresh "Hs" in
      pose proof (msb_step_log2 m u k hi ltac:(lia) ltac:(lia) eq_refl H) as Hs;
      destruct (msb_step hi k k (m, u)) as [m' u']; destruct Hs as [? ?]
  end.

Lemma findMsbSet_log2 val : 0 < val < 2 ^ 64 -> findMsbSet val = Z.log2 val.
Proof.
  intros Hv. unfold findMsbSet. rewrite (proj2 (Z.eqb_neq val 0)) by lia.
  msb_one 0 val m1 u1. msb_one m1 u1 m2 u2. msb_one m2 u2 m3 u3. msb_one m3 u3 m4 u4.
  msb_one m4 u4 m5 u5. simpl.
  assert (u5 = 1 \/ u5 = 2 \/ u5 = 3) as [->|[->| ->]] by lia; simpl in *; lia.
Qed.

(** [l] is the index of the lowest set bit of [u]. *)
Definition is_lsb (u l : Z) : Prop :=
  0 <= l /\ Z.testbit u l = true /\ forall j, 0 <= j < l -> Z.testbit u j = false.

Lemma is_lsb_unique u l l' : is_lsb u l -> is_lsb u l' -> l = l'.
Proof.
  intros (H0 & H1 & H2) (H0' & H1' & H2').
  destruct (Z.lt_trichotomy l l') as [Hlt|[Heq|Hgt]]; [|done|].
  - rewrite H2' in H1 by lia. done.
  - rewrite H2 in H1' by lia. done.
Qed.

Lemma ctz_pos_lsb p : is_lsb (Zpos p) (ctz_pos p).
Proof.
  induction p as [p IH|p IH|]; simpl.
  - split; [lia|]. split; [done|lia].
  - destruct IH as (H0 & H1 & H2). change (Zpos (xO p)) with (2 * Zpos p). rewrite Z.add_1_l.
    split; [lia|]. split; [by rewrite Z.double_bits_succ|]. intros j Hj.
    destruct (decide (j = 0)) as [->|]; [by rewrite Z.testbit_even_0|].
    replace j with (Z.succ (j - 1)) by lia. rewrite Z.double_bits_succ. apply H2. lia.
  - split; [lia|]. split; [done|lia].
Qed.

Lemma lsb_step_spec y u l k :
  0 < k <= 32 -> is_lsb u l -> l < 2 * k ->
  let '(y', u') := lsb_step (k - 1) k (y, u) in
  exists l', is_lsb u' l' /\ l' < k /\ y' + l' = y + l.
Proof.
  intros Hk (H0 & H1 & H2) Hl. unfold lsb_step.
  destruct (bits u (k - 1) 0 =? 0) eqn:E.
  - apply Z.eqb_eq in E. rewrite bits_zero in E by lia.
    assert (k <= l) as Hkl.
    { destruct (Z.le_gt_cases k l); [done|]. rewrite E in H1 by lia. done. }
    exists (l - k). split; [|lia]. split; [lia|]. split.
    + rewrite Z.shiftr_spec by lia. by replace (l - k + k) with l by lia.
    + intros j Hj. rewrite Z.shiftr_spec by lia. apply H2. lia.
  - apply Z.eqb_neq in E. exists l. split; [done|]. split; [|lia].
    destruct (Z.le_gt_cases k l); [|lia]. exfalso. apply E. apply bits_zero; [lia..|].
    intros i Hi. apply H2. lia.
Qed.

Ltac lsb_one y u y' u' :=
  match goal with
  | H : is_lsb u ?l |- context [lsb_step ?hi ?k (y, u)] =>
      let Hs := fresh "Hs" in let l' := fresh "l" in
      pose proof (lsb_step_spec y u l k ltac:(lia) H ltac:(lia)) as Hs;
      change (k - 1) with hi in Hs;
      destruct (lsb_step hi k (y, u)) as [y' u']; destruct Hs as (l' & ? & ? & ?)
  end.

Lemma findLsbSet_ctz val : 0 <= val < 2 ^ 64 -> findLsbSet val = ctz64 val.
Proof.
  intros Hv. unfold findLsbSet. destruct val as [|p|p]; [done| |lia].
  rewrite (proj2 (Z.eqb_neq (Zpos p) 0)) by lia.
  pose proof (ctz_pos_lsb p) as Hl. change (ctz64 (Zpos p)) with (ctz_pos p).
  set (l := ctz_pos p) in *.
  assert (l < 2 * 32) as Hlt.
  { destruct (Z.lt_ge_cases l 64); [lia|]. destruct Hl as (_ & Hb & _).
    by rewrite u64_high in Hb by done. }
  lsb_one 0 (Zpos p) y1 u1. lsb_one y1 u1 y2 u2. lsb_one y2 u2 y3 u3. lsb_one y3 u3 y4 u4.
  lsb_one y4 u4 y5 u5. cbv zeta. unfold fst, snd.
  match goal with H : is_lsb u5 ?l5, Hlt5 : ?l5 < 2 |- _ =>
    destruct H as (Hz & Hb & Hlow); destruct (bits u5 0 0 =? 0) eqn:E;
    [apply Z.eqb_eq in E; rewrite bits_zero in E by lia;
     assert (l5 <> 0) by (intros ->; rewrite E in Hb by lia; done)
    |apply Z.eqb_neq in E;
     assert (l5 = 0) by (destruct (decide (l5 = 0)); [done|]; exfalso; apply E; apply bits_zero;
       [lia..|]; intros i Hi; apply Hlow; lia)]
  end; lia.
Qed.

(** The two bit searches agree with the compiler's: on a non-zero word
    [findMsbSet] is the integer logarithm, and [findLsbSet] counts trailing
    zeros on every word, with 64 for the empty one. *)
Theorem bit_search val :
  0 <= val < 2 ^ 64 ->
  findLsbSet val = ctz64 val
  /\ (val <> 0 -> findMsbSet val = Z.log2 val
       /\ Z.testbit val (findLsbSet val) = true /\ (2 ^ findLsbSet val | val)).
Proof.
  intros Hv. split; [by apply findLsbSet_ctz|]. intros Hne.
  split; [apply findMsbSet_log2; lia|]. rewrite findLsbSet_ctz by done.
  destruct val as [|p|p]; [done| |lia]. simpl. destruct (ctz_pos_lsb p) as (H0 & H1 & H2).
  split; [done|]. apply Z.mod_divide; [lia|]. apply Z.bits_inj'. intros n Hn. rewrite Z.bits_0.
  destruct (Z.lt_ge_cases n (ctz_pos p)).
  - rewrite Z.mod_pow2_bits_low by lia. apply H2. lia.
  - by rewrite Z.mod_pow2_bits_high by lia.
Qed.

Lemma bit_search_witness :
  findLsbSet 0x6800 = ctz64 0x6800
  /\ (0x6800 <> 0 -> findMsbSet 0x6800 = Z.log2 0x6800
       /\ Z.testbit 0x6800 (findLsbSet 0x6800) = true /\ (2 ^ findLsbSet 0x6800 | 0x6800)).
Proof. apply bit_search. lia. Defined.

(** ** Rounding up to a power of two *)

(** [x] has a bit set where [v] has one among the [k] bits above. *)
Definition smeared (v k x : Z) : Prop :=
  forall n, 0 <= n -> Z.testbit x n = true <-> exists m, n <= m < n + k /\ Z.testbit v m = true.

Lemma smear_step v k x : 0 < k -> smeared v k x -> smeared v (2 * k) (smear k x).
Proof.
  intros Hk Hs n Hn. unfold smear. rewrite Z.lor_spec, orb_true_iff, Z.shiftr_spec by done.
  rewrite (Hs n Hn), (Hs (n + k)) by lia. split.
  - intros [(m & Hm & Hb)|(m & Hm & Hb)]; exists m; split; (done || lia).
  - intros (m & Hm & Hb). destruct (Z.lt_ge_cases m (n + k)); [left|right]; exists m; split; (done || lia).
Qed.

Lemma smear_all v : 0 < v < 2 ^ 64 ->
  smear 32 (smear 16 (smear 8 (smear 4 (smear 2 (smear 1 v))))) = Z.ones (Z.log2 v + 1).
Proof.
  intros Hv. set (x := smear 32 _).
  assert (smeared v 64 x) as Hs.
  { apply (smear_step v 32), (smear_step v 16), (smear_step v 8), (smear_step v 4), (smear_step v 2),
      (smear_step v 1); try lia.
    intros n Hn. split; [intros Hb; exists n; split; [lia|done]|].
    intros (m & Hm & Hb). by replace n with m by lia. }
  pose proof (Z.log2_nonneg v). apply Z.bits_inj'. intros n Hn. rewrite Z.testbit_ones_nonneg by lia.
  destruct (n <? Z.log2 v + 1) eqn:E.
  - apply Z.ltb_lt in E. apply Hs; [done|]. exists (Z.log2 v). rewrite Z.bit_log2 by lia.
    assert (Z.log2 v < 64) by (apply Z.log2_lt_pow2; lia). split; [lia|done].
  - apply Z.ltb_ge in E. apply not_true_iff_false. intros (m & Hm & Hb)%(Hs n Hn).
    rewrite Z.bits_above_log2 in Hb; [done|lia..].
Qed.

(** [alignToPowerOfTwo] returns the least power of two that is at least
    its argument (up to [2^63]), and 0 for 0. *)
Theorem alignToPowerOfTwo_least val :
  0 <= val <= 2 ^ 63 ->
  alignToPowerOfTwo val = if val =? 0 then 0 else 2 ^ Z.log2_up val.
Proof.
  intros Hv. unfold alignToPowerOfTwo. destruct (val =? 0) eqn:E.
  { apply Z.eqb_eq in E as ->. reflexivity. }
  apply Z.eqb_neq in E. destruct (decide (val = 1)) as [->|Hne]; [reflexivity|].
  rewrite (u64_small (val - 1)) by lia. rewrite smear_all by lia.
  rewrite Z.log2_up_eqn by lia. rewrite <- Z.sub_1_r.
  assert (Z.log2 (val - 1) < 63) by (apply Z.log2_lt_pow2; lia). pose proof (Z.log2_nonneg (val - 1)).
  rewrite Z.ones_equiv, <- Z.sub_1_r, Z.sub_add.
  replace (Z.log2 (val - 1) + 1) with (Z.succ (Z.log2 (val - 1))) by lia.
  apply u64_small. split; [lia|]. apply Z.pow_lt_mono_r; lia.
Qed.

Lemma alignToPowerOfTwo_least_witness : alignToPowerOfTwo 1000 = if 1000 =? 0 then 0 else 2 ^ Z.log2_up 1000.
Proof. apply alignToPowerOfTwo_least. lia. Defined.

(** ** Bit reversal *)

(** The table, checked entry by entry. *)
Lemma table_checked :
  forallb (fun b => let r := nth b reverseLookUpTable 0 in
    (0 <=? r) && (r <? 256)
    && forallb (fun i => Bool.eqb (Z.testbit r (Z.of_nat i)) (Z.testbit (Z.of_nat b) (7 - Z.of_nat i))) (seq 0 8))
    (seq 0 256) = true.
Proof. vm_compute. reflexivity. Qed.

Lemma table_spec b :
  0 <= b < 256 ->
  let r := nth (Z.to_nat b) reverseLookUpTable 0 in
  0 <= r < 2 ^ 8 /\ forall i, 0 <= i < 8 -> Z.testbit r i = Z.testbit b (7 - i).
Proof.
  intros Hb r. pose proof table_checked as Ht. rewrite forallb_forall in Ht.
  specialize (Ht (Z.to_nat b)). rewrite in_seq in Ht. specialize (Ht ltac:(lia)). fold r in Ht. cbv zeta in Ht.
  rewrite !andb_true_iff, Z.leb_le, Z.ltb_lt, forallb_forall in Ht. destruct Ht as [[H1 H2] H3].
  split; [lia|]. intros i Hi. specialize (H3 (Z.to_nat i)). rewrite in_seq in H3.
  specialize (H3 ltac:(lia)). apply eqb_prop in H3. by rewrite !Z2Nat.id in H3 by lia.
Qed.

(** The accumulator after one more byte. *)
Lemma reverse_step out val n :
  0 <= n <= 56 -> 0 <= out < 2 ^ (56 - n) ->
  let out' := Z.lor (u64 (Z.shiftl out 8)) (nth (Z.to_nat (Z.land val 0xff)) reverseLookUpTable 0) in
  0 <= out' < 2 ^ (64 - n)
  /\ forall j, 0 <= j -> Z.testbit out' j = if j <? 8 then Z.testbit val (7 - j) else Z.testbit out (j - 8).
Proof.
  intros Hn Ho. cbv zeta. change 0xff with (Z.ones 8). rewrite Z.land_ones by lia.
  destruct (table_spec (val mod 2 ^ 8)) as [Hr Hbits]; [apply Z.mod_pos_bound; lia|].
  set (r := nth _ _ _) in *.
  assert (0 <= Z.shiftl out 8 < 2 ^ (64 - n)) as Hs.
  { rewrite Z.shiftl_mul_pow2 by lia. replace (64 - n) with (56 - n + 8) by lia. rewrite Z.pow_add_r by lia. lia. }
  assert (2 ^ (64 - n) <= 2 ^ 64) as Hp by (apply Z.pow_le_mono_r; lia).
  rewrite u64_small by lia.
  assert (forall j, 0 <= j -> Z.testbit (Z.lor (Z.shiftl out 8) r) j
    = if j <? 8 then Z.testbit val (7 - j) else Z.testbit out (j - 8)) as Hb.
  { intros j Hj. rewrite Z.lor_spec, Z.shiftl_spec by done. destruct (j <? 8) eqn:E.
    - apply Z.ltb_lt in E. rewrite Z.testbit_neg_r, Hbits by lia. simpl. by rewrite Z.mod_pow2_bits_low by lia.
    - apply Z.ltb_ge in E. rewrite <- (Z.mod_small r (2 ^ 8)) by done.
      by rewrite Z.mod_pow2_bits_high, orb_false_r by lia. }
  split; [|done]. split; [apply Z.lor_nonneg; lia|].
  destruct (decide (Z.lor (Z.shiftl out 8) r = 0)) as [->|Hne]; [lia|].
  apply Z.log2_lt_pow2; [pose proof (proj2 (Z.lor_nonneg (Z.shiftl out 8) r)); lia|].
  rewrite Z.log2_lor by lia. apply Z.max_lub_lt.
  - destruct (decide (Z.shiftl out 8 = 0)) as [->|]; [simpl; lia|]. apply Z.log2_lt_pow2; lia.
  - destruct (decide (r = 0)) as [->|]; [simpl; lia|]. assert (Z.log2 r < 8) by (apply Z.log2_lt_pow2; lia). lia.
Qed.

Lemma reverse_loop_spec n out val i :
  (n <= 8)%nat -> 0 <= out < 2 ^ (64 - 8 * Z.of_nat n) -> 0 <= val -> 0 <= i ->
  Z.testbit (reverse_loop n out val) i
  = if i <? 8 * Z.of_nat n then Z.testbit val (8 * Z.of_nat n - 1 - i) else Z.testbit out (i - 8 * Z.of_nat n).
Proof.
  revert out val. induction n as [|n IH]; intros out val Hn Ho Hv Hi.
  { cbn [reverse_loop]. change (8 * Z.of_nat 0) with 0. rewrite (proj2 (Z.ltb_ge _ _)) by lia. f_equal. lia. }
  cbn [reverse_loop].
  destruct (reverse_step out val (8 * Z.of_nat n)) as [Hb Hbits]; [lia| |].
  { replace (56 - 8 * Z.of_nat n) with (64 - 8 * Z.of_nat (S n)) by lia. done. }
  rewrite IH by (lia || done || (apply Z.shiftr_nonneg; lia)).
  destruct (i <? 8 * Z.of_nat n) eqn:E.
  - apply Z.ltb_lt in E. rewrite (proj2 (Z.ltb_lt _ _)), Z.shiftr_spec by lia. f_equal. lia.
  - apply Z.ltb_ge in E. rewrite Hbits by lia. destruct (i - 8 * Z.of_nat n <? 8) eqn:E2.
    + apply Z.ltb_lt in E2. rewrite (proj2 (Z.ltb_lt i _)) by lia. f_equal. lia.
    + apply Z.ltb_ge in E2. rewrite (proj2 (Z.ltb_ge i _)) by lia. f_equal. lia.
Qed.

(** [reverseBits] mirrors the [size] low bytes of a word: bit [i] of the
    result is bit [8*size - 1 - i] of the input, and nothing above; reversing a
    word of that size twice gives it back. *)
Theorem reverseBits_mirror val size :
  (size <= 8)%nat -> 0 <= val < 2 ^ (8 * Z.of_nat size) ->
  exists r, reverseBits val size = Ok r
    /\ (forall i, 0 <= i -> Z.testbit r i
          = (i <? 8 * Z.of_nat size) && Z.testbit val (8 * Z.of_nat size - 1 - i))
    /\ reverseBits r size = Ok val.
Proof.
  intros Hs Hv. unfold reverseBits. rewrite (proj2 (Nat.leb_le _ _)) by done.
  set (n := 8 * Z.of_nat size) in *. set (r := reverse_loop size 0 val).
  assert (forall x i, 0 <= x -> 0 <= i -> Z.testbit (reverse_loop size 0 x) i = (i <? n) && Z.testbit x (n - 1 - i)) as Hb.
  { intros x i Hx Hi. rewrite reverse_loop_spec by (done || (split; [lia|apply Z.pow_pos_nonneg; lia])).
    fold n. rewrite Z.bits_0. by destruct (i <? n). }
  assert (0 <= r) as Hr.
  { apply Z.bits_iff_nonneg_ex. exists (n + 1). intros m Hm. unfold r. rewrite Hb by lia.
    by rewrite (proj2 (Z.ltb_ge _ _)) by lia. }
  exists r. split; [done|]. split; [intros i Hi; apply Hb; lia|]. f_equal.
  apply Z.bits_inj'. intros i Hi. rewrite Hb by done. destruct (i <? n) eqn:E; simpl.
  - apply Z.ltb_lt in E. unfold r. rewrite Hb by lia. rewrite (proj2 (Z.ltb_lt _ _)) by lia. simpl. f_equal. lia.
  - apply Z.ltb_ge in E. rewrite <- (Z.mod_small val (2 ^ n)) by done. by rewrite Z.mod_pow2_bits_high by lia.
Qed.

Lemma reverseBits_mirror_witness :
  exists r, reverseBits 0x1234 2 = Ok r
    /\ (forall i, 0 <= i -> Z.testbit r i = (i <? 8 * Z.of_nat 2) && Z.testbit 0x1234 (8 * Z.of_nat 2 - 1 - i))
    /\ reverseBits r 2 = Ok 0x1234.
Proof. apply reverseBits_mirror; [lia|]. change (8 * Z.of_nat 2) with 16. lia. Defined.

(** ** Sign extension *)

Lemma not64_mask N : 0 <= N <= 64 -> not64 (mask N) = 2 ^ 64 - 2 ^ N.
Proof.
  intros HN. unfold not64. rewrite mask_ones by done. rewrite <- Z.sub_nocarry_ldiff.
  - rewrite !Z.ones_equiv. lia.
  - apply Z.bits_inj'. intros i Hi. rewrite Z.ldiff_spec, Z.bits_0, !Z.testbit_ones_nonneg by lia.
    destruct (i <? N) eqn:E; [|done]. apply Z.ltb_lt in E. by rewrite (proj2 (Z.ltb_lt i 64)) by lia.
Qed.

Lemma bit_testbit val b : 0 <= b < 64 -> bits val b b = Z.b2z (Z.testbit val b).
Proof.
  intros Hb. apply Z.bits_inj'. intros i Hi. rewrite bits_testbit by lia.
  destruct (decide (i = 0)) as [->|Hne]; [by rewrite Z.b2z_bit0, (proj2 (Z.ltb_lt _ _)) by lia|].
  rewrite (proj2 (Z.ltb_ge _ _)) by lia. symmetry. destruct (Z.testbit val b); [|apply Z.bits_0].
  apply Z.bits_above_log2; simpl; lia.
Qed.

(** [sext<N>] sign-extends: read as two's complement, the 64-bit result
    has the value of the [N]-bit argument. *)
Theorem sext_value N val : 0 < N <= 64 -> 0 <= val < 2 ^ N -> sgn 64 (sext N val) = sgn N val.
Proof.
  intros HN Hv. assert (2 ^ N = 2 * 2 ^ (N - 1)) as HpN by (rewrite <- Z.pow_succ_r by lia; f_equal; lia).
  assert (2 ^ N <= 2 ^ 64) as Hle by (apply Z.pow_le_mono_r; lia).
  unfold sext, sgn. rewrite bit_testbit by lia. rewrite (wrap_small N val) by done.
  assert (Z.testbit val (N - 1) = (2 ^ (N - 1) <=? val)) as ->.
  { rewrite Z.testbit_odd, Z.shiftr_div_pow2 by lia. destruct (Z.leb_spec (2 ^ (N - 1)) val).
    - assert (val / 2 ^ (N - 1) = 1) as -> by (symmetry; apply (Z.div_unique_pos _ _ _ (val - 2 ^ (N - 1))); lia).
      reflexivity.
    - by rewrite Z.div_small by lia. }
  change (64 - 1) with 63. destruct (Z.leb_spec (2 ^ (N - 1)) val) as [Hge|Hlt]; simpl (_ =? 0).
  - assert (Z.lor val (not64 (mask N)) = val + (2 ^ 64 - 2 ^ N)) as ->.
    { assert (Z.land val (not64 (mask N)) = 0) as Hd.
      { apply Z.bits_inj'. intros i Hi. rewrite Z.land_spec, not64_testbit, mask_testbit, Z.bits_0 by lia.
        destruct (i <? N) eqn:E; simpl; [by rewrite andb_false_r, andb_false_r|].
        apply Z.ltb_ge in E. rewrite <- (Z.mod_small val (2 ^ N)) by done.
        by rewrite Z.mod_pow2_bits_high by lia. }
      rewrite <- Z.lxor_lor, <- Z.add_nocarry_lxor by done. by rewrite not64_mask by lia. }
    rewrite wrap_small by lia. rewrite (proj2 (Z.leb_le (2 ^ 63) _)) by lia. lia.
  - rewrite wrap_small by lia. rewrite (proj2 (Z.leb_gt (2 ^ 63) _)); [done|].
    assert (2 ^ (N - 1) <= 2 ^ 63) by (apply Z.pow_le_mono_r; lia). lia.
Qed.

Lemma sext_value_witness : sgn 64 (sext 12 0xfff) = sgn 12 0xfff.
Proof. apply sext_value; lia. Defined.
