(* ===== verification/AddrRange.v ===== *)
(** * Address ranges (base/addr_range.hh)

    A range [[start, end)], possibly restricted to one of the interleaved
    stripes selected by XOR-ing groups of address bits.  What membership means,
    that the stripes partition the range, that removing the interleaving bits
    is injective on a stripe, and where [addIntlvBits] does not undo it. *)

From S2P Require Import Prelude IntMath Bitfield.

Record AddrRange := mkAddrRange {
  ar_start : Z; ar_end : Z; ar_masks : list Z; ar_match : Z
}.

#[global] Instance AddrRange_eq_dec : EqDecision AddrRange.
Proof. solve_decision. Defined.

(** The constructors. *)
Definition AddrRange_default : AddrRange := mkAddrRange 1 0 [] 0.

Definition AddrRange_masks (start end_ : Z) (masks : list Z) (intlv_match : Z) : res AddrRange :=
  if negb (bool_decide (masks = [])) && (2 ^ Z.of_nat (length masks) <=? intlv_match)
  then Err (EFatal "Match value does not fit in interleaving bits")
  else Ok (mkAddrRange start end_ masks intlv_match).

(** The masks of the legacy constructor, least significant first. *)
Definition legacy_mask (intlv_high xor_high i : Z) : Z :=
  let m := Z.shiftl 1 (u8 (intlv_high - i)) in
  if xor_high =? 0 then m else Z.lor m (Z.shiftl 1 (u8 (xor_high - i))).
Definition legacy_masks (intlv_high xor_high intlv_bits : Z) : list Z :=
  map (fun k => legacy_mask intlv_high xor_high (intlv_bits - 1 - Z.of_nat k))
    (seq 0 (Z.to_nat intlv_bits)).

Definition AddrRange_legacy (start end_ intlv_high xor_high intlv_bits intlv_match : Z) : res AddrRange :=
  if negb (intlv_bits =? 0) && (2 ^ intlv_bits <=? intlv_match)
  then Err (EFatal "Match value does not fit in interleaving bits")
  else if negb (intlv_bits =? 0) && negb (xor_high =? 0) && (xor_high =? intlv_high)
  then Err (EFatal "XOR and interleave high bit must be different")
  else if negb (intlv_bits =? 0) && negb (xor_high =? 0) && (Z.abs (xor_high - intlv_high) <? intlv_bits)
  then Err (EFatal "XOR and interleave high bit must be apart")
  else Ok (mkAddrRange start end_ (legacy_masks intlv_high xor_high intlv_bits) intlv_match).

Definition AddrRange_simple (start end_ : Z) : AddrRange := mkAddrRange start end_ [] 0.

Definition mergesWith (r s : AddrRange) : bool :=
  (ar_start s =? ar_start r) && (ar_end s =? ar_end r) && bool_decide (ar_masks s = ar_masks r).

(** The loop of the merging constructor over the ranges, with the expected match value. *)
Fixpoint merge_check (r : AddrRange) (l : list AddrRange) (match_ : Z) : res unit :=
  match l with
  | [] => Ok tt
  | s :: l =>
      if negb (mergesWith r s)
      then Err (EFatal "Can only merge ranges with the same start, end and interleaving bits")
      else if negb (ar_match s =? match_)
      then Err (EFatal "Expected interleave match when merging")
      else merge_check r l (u8 (match_ + 1))
  end.

Definition AddrRange_merge (ranges : list AddrRange) : res AddrRange :=
  match ranges with
  | [] => Ok AddrRange_default
  | [r] => Ok r
  | r :: _ =>
      if negb (Z.of_nat (length ranges) =? 2 ^ Z.of_nat (length (ar_masks r)))
      then Err (EFatal "Got ranges spanning interleaving bits")
      else match merge_check r ranges 0 with
           | Ok _ => Ok (mkAddrRange (ar_start r) (ar_end r) [] 0)
           | Err e => Err e
           end
  end.

Definition interleaved (r : AddrRange) : bool := negb (bool_decide (ar_masks r = [])).

Definition ar_size (r : AddrRange) : Z :=
  Z.shiftr (u64 (ar_end r - ar_start r)) (Z.of_nat (length (ar_masks r))).
Definition valid (r : AddrRange) : bool := ar_start r <=? ar_end r.
Definition stripes (r : AddrRange) : Z := u32 (2 ^ Z.of_nat (length (ar_masks r))).

(** [granularity]: [combined_mask] is an [int]. *)
Definition combined_mask (masks : list Z) : Z :=
  fold_left (fun c m => sgn 32 (Z.lor (u64 c) m)) masks 0.
Definition granularity (r : AddrRange) : res Z :=
  if interleaved r then
    let lowest_bit := ctz64 (u64 (combined_mask (ar_masks r))) in
    if lowest_bit <? 64 then Ok (2 ^ lowest_bit) else Err (EUndefined "shift by 64")
  else Ok (ar_size r).

(** The selector of an address: bit [i] is the parity of the bits under mask [i]. *)
Definition sel_from (i : nat) (masks : list Z) (a : Z) : Z :=
  fold_left (fun sel im => Z.lor sel (Z.shiftl (popCount (Z.land a im.2) mod 2) (Z.of_nat im.1)))
    (zip (seq i (length masks)) masks) 0.
Definition contains (r : AddrRange) (a : Z) : bool :=
  (ar_start r <=? a) && (a <? ar_end r) && (sel_from 0 (ar_masks r) a =? ar_match r).

Definition intersects (r s : AddrRange) : res bool :=
  if (ar_end s <=? ar_start r) || (ar_end r <=? ar_start s) then Ok false
  else if negb (interleaved r) && negb (interleaved s) then Ok true
  else if ar_size s =? 1 then Ok (contains r (ar_start s))
  else if mergesWith r s then Ok (ar_match r =? ar_match s)
  else Err (EPanic "Cannot test intersection").

Definition isSubset (r s : AddrRange) : res bool :=
  if interleaved r then Err (EPanic "Cannot test subset of interleaved range")
  else if interleaved s then
    if contains s (ar_start r) && contains s (u64 (ar_end r - 1))
    then g ← granularity s; Ok (ar_size r <=? g)
    else Ok false
  else Ok ((ar_start s <=? ar_start r) && (ar_end r <=? ar_end s)).

(** The lowest bit of each mask, sorted. *)
Definition sorted_lsbs (masks : list Z) : list Z := merge_sort Z.le (map ctz64 masks).

(** Remove bit [k], shifting what is above it down. *)
Definition drop_bit (a k : Z) : Z :=
  insertBits (Z.shiftr a 1) (k - 1) 0 a.
Fixpoint remove_loop (i : Z) (lsbs : list Z) (a : Z) : Z :=
  match lsbs with
  | [] => a
  | intlv_bit :: l =>
      remove_loop (i + 1) l (if 0 <? intlv_bit then drop_bit a (intlv_bit - i) else Z.shiftr a 1)
  end.
Definition removeIntlvBits (r : AddrRange) (a : Z) : Z := remove_loop 0 (sorted_lsbs (ar_masks r)) a.

Fixpoint add_loop (i : Z) (lsbs : list Z) (a : Z) : Z :=
  match lsbs with
  | [] => a
  | intlv_bit :: l =>
      add_loop (i + 1) l
        (if 0 <? intlv_bit then insertBits (u64 (Z.shiftl a 1)) (intlv_bit + i - 1) 0 a
         else u64 (Z.shiftl a 1))
  end.
(** The second loop: set each mask's lowest bit to satisfy the selector.
    [1 << lsb] is an [int]. *)
Fixpoint select_loop (i : Z) (masks : list Z) (intlv_match a : Z) : res Z :=
  match masks with
  | [] => Ok a
  | m :: l =>
      let lsb := ctz64 m in
      if 31 <=? lsb then Err (EUndefined "1 << lsb")
      else
        let masked := Z.land (Z.land a m) (not64 (2 ^ lsb)) in
        select_loop (i + 1) l intlv_match
          (insertBit a lsb (Z.lxor (bit intlv_match i) (popCount masked)))
  end.
Definition addIntlvBits (r : AddrRange) (a : Z) : res Z :=
  select_loop 0 (ar_masks r) (ar_match r) (add_loop 0 (sorted_lsbs (ar_masks r)) a).

Definition MaxAddr : Z := 2 ^ 64 - 1.
Definition getOffset (r : AddrRange) (a : Z) : Z :=
  if (ar_start r <=? a) && (a <? ar_end r) then
    if interleaved r then u64 (removeIntlvBits r a - removeIntlvBits r (ar_start r))
    else u64 (a - ar_start r)
  else MaxAddr.

Definition ar_lt (r s : AddrRange) : bool :=
  if negb (ar_start r =? ar_start s) then ar_start r <? ar_start s else ar_match r <? ar_match s.
Definition ar_eq (r s : AddrRange) : bool :=
  if negb (ar_start r =? ar_start s) then false
  else if negb (ar_end r =? ar_end s) then false
  else if negb (bool_decide (ar_masks r = ar_masks s)) then false
  else if negb (ar_match r =? ar_match s) then false
  else true.
Definition ar_ne (r s : AddrRange) : bool := negb (ar_eq r s).

Definition RangeEx (start end_ : Z) : AddrRange := AddrRange_simple start end_.
Definition RangeIn (start end_ : Z) : AddrRange := AddrRange_simple start (u64 (end_ + 1)).
Definition RangeSize (start size : Z) : AddrRange := AddrRange_simple start (u64 (start + size)).

(** ** Parity *)

Definition parity (x : Z) : bool := Z.odd (popCount x).

Lemma popCount_half x : 0 <= x -> popCount x = Z.b2z (Z.odd x) + popCount (x / 2).
Proof.
  intros Hx. rewrite <- Z.div2_div. destruct x as [|[p|p|]|p]; simpl; lia.
Qed.

Lemma popCount_nonneg x : 0 <= popCount x.
Proof.
  destruct x as [|p|p]; simpl; [lia| |lia]. induction p as [p IH|p IH|]; simpl; lia.
Qed.

Lemma parity_half x : 0 <= x -> parity x = xorb (Z.odd x) (parity (x / 2)).
Proof.
  intros Hx. unfold parity. rewrite popCount_half by done. rewrite Z.odd_add. by destruct (Z.odd x).
Qed.

Lemma mod2_parity x : popCount x mod 2 = Z.b2z (parity x).
Proof. unfold parity. rewrite Zmod_odd. by destruct (Z.odd _). Qed.

(** Words that differ in one bit have different parity. *)
Lemma parity_flip (j : nat) x y :
  0 <= x -> 0 <= y ->
  (forall i, 0 <= i -> i <> Z.of_nat j -> Z.testbit x i = Z.testbit y i) ->
  Z.testbit x (Z.of_nat j) <> Z.testbit y (Z.of_nat j) -> parity x <> parity y.
Proof.
  revert x y. induction j as [|j IH]; intros x y Hx Hy Heq Hne; rewrite (parity_half x), (parity_half y) by done.
  - assert (x / 2 = y / 2) as ->.
    { apply Z.bits_inj'. intros n Hn. rewrite !Z.div2_bits by done. apply Heq; lia. }
    change (Z.of_nat 0) with 0 in Hne. rewrite !Z.bit0_odd in Hne.
    destruct (Z.odd x), (Z.odd y), (parity (y / 2)); simpl; congruence.
  - assert (Z.odd x = Z.odd y) as -> by (rewrite <- !Z.bit0_odd; apply Heq; lia).
    assert (parity (x / 2) <> parity (y / 2)) as Hp.
    { apply IH; [apply Z.div_pos; lia..| |].
      - intros i Hi Hj. rewrite !Z.div2_bits by done. apply Heq; lia.
      - rewrite !Z.div2_bits by lia. by rewrite <- Nat2Z.inj_succ. }
    destruct (Z.odd y), (parity (x / 2)), (parity (y / 2)); simpl; congruence.
Qed.

(** ** Membership *)

Lemma sel_fold_testbit l a sel n :
  0 <= n ->
  Z.testbit (fold_left (fun sel (im : nat * Z) =>
      Z.lor sel (Z.shiftl (popCount (Z.land a im.2) mod 2) (Z.of_nat im.1))) l sel) n
  = Z.testbit sel n || existsb (fun im => (Z.of_nat im.1 =? n) && parity (Z.land a im.2)) l.
Proof.
  intros Hn. revert sel. induction l as [|[i m] l IH]; intros sel; simpl; [by rewrite orb_false_r|].
  rewrite IH by done.
  rewrite Z.lor_spec, Z.shiftl_spec, mod2_parity by done. rewrite <- orb_assoc. f_equal.
  destruct (Z.eqb_spec (Z.of_nat i) n) as [<-|Hne]; simpl.
  - rewrite Z.sub_diag. by rewrite Z.b2z_bit0.
  - destruct (Z.lt_ge_cases n (Z.of_nat i)); [by rewrite Z.testbit_neg_r by lia|].
    destruct (parity _); simpl; [|by rewrite Z.bits_0].
    rewrite Z.bits_above_log2; [done|lia|simpl; lia].
Qed.

Lemma sel_testbit masks a n :
  0 <= n ->
  Z.testbit (sel_from 0 masks a) n
  = match masks !! Z.to_nat n with Some m => parity (Z.land a m) | None => false end.
Proof.
  intros Hn. unfold sel_from. rewrite sel_fold_testbit by done. rewrite Z.bits_0. simpl.
  destruct (masks !! Z.to_nat n) as [m|] eqn:Hm.
  - destruct (parity (Z.land a m)) eqn:Hp.
    + apply existsb_exists. exists (Z.to_nat n, m). split.
      * apply list_elem_of_In, list_elem_of_lookup. exists (Z.to_nat n).
        apply lookup_zip_Some. split; [|done]. apply lookup_seq. split; [lia|].
        by apply lookup_lt_Some in Hm.
      * simpl. rewrite Z2Nat.id, Z.eqb_refl, Hp by done. done.
    + apply not_true_iff_false. intros ([i m'] & Hin & He)%existsb_exists.
      apply list_elem_of_In, list_elem_of_lookup in Hin as [k Hk].
      apply lookup_zip_Some in Hk as [Hk1 Hk2]. apply lookup_seq in Hk1 as [-> _]. simpl in He.
      apply andb_true_iff in He as [<-%Z.eqb_eq He]. rewrite Nat2Z.id in Hm. simplify_eq. congruence.
  - apply not_true_iff_false. intros ([i m'] & Hin & He)%existsb_exists.
    apply list_elem_of_In, list_elem_of_lookup in Hin as [k Hk].
    apply lookup_zip_Some in Hk as [Hk1 Hk2]. apply lookup_seq in Hk1 as [-> Hlt]. simpl in He.
    apply andb_true_iff in He as [<-%Z.eqb_eq He]. rewrite Nat2Z.id in Hm. congruence.
Qed.

Lemma sel_nonneg masks a : 0 <= sel_from 0 masks a.
Proof.
  apply Z.bits_iff_nonneg_ex. exists (Z.of_nat (length masks)). intros m Hm. rewrite sel_testbit by lia.
  by rewrite lookup_ge_None_2 by lia.
Qed.

Lemma sel_bound masks a : sel_from 0 masks a < 2 ^ Z.of_nat (length masks).
Proof.
  assert (sel_from 0 masks a = sel_from 0 masks a mod 2 ^ Z.of_nat (length masks)) as ->;
    [|apply Z.mod_pos_bound; lia].
  apply Z.bits_inj'. intros n Hn. destruct (Z.lt_ge_cases n (Z.of_nat (length masks))).
  - by rewrite Z.mod_pow2_bits_low by lia.
  - rewrite Z.mod_pow2_bits_high, sel_testbit by lia. by rewrite lookup_ge_None_2 by lia.
Qed.

(** A range accepted by the constructor. *)
Record ar_wf (r : AddrRange) : Prop := {
  aw_match : 0 <= ar_match r < 2 ^ Z.of_nat (length (ar_masks r));
  aw_end : 0 <= ar_start r /\ ar_end r < 2 ^ 64;
  aw_masks : Forall (fun m => 0 < m < 2 ^ 64) (ar_masks r)
}.

Lemma contains_iff r a :
  ar_wf r ->
  contains r a = true <->
  ar_start r <= a < ar_end r
  /\ forall i m, ar_masks r !! i = Some m -> parity (Z.land a m) = Z.testbit (ar_match r) (Z.of_nat i).
Proof.
  intros [Hm _ _]. unfold contains. rewrite !andb_true_iff, Z.leb_le, Z.ltb_lt, Z.eqb_eq. split.
  - intros [? Hs]. split; [done|]. intros i m Hi. rewrite <- Hs, sel_testbit by lia.
    by rewrite Nat2Z.id, Hi.
  - intros [? Hs]. split; [done|]. apply Z.bits_inj'. intros n Hn. rewrite sel_testbit by done.
    destruct (ar_masks r !! Z.to_nat n) as [m|] eqn:Hl.
    + rewrite (Hs _ _ Hl). by rewrite Z2Nat.id.
    + apply lookup_ge_None in Hl. symmetry.
      rewrite <- (Z.mod_small (ar_match r) (2 ^ Z.of_nat (length (ar_masks r)))) by done.
      apply Z.mod_pow2_bits_high. lia.
Qed.

Definition demo_range : AddrRange := mkAddrRange 0 0x10000 [0x100; 0x1200] 2.
Lemma demo_range_wf : ar_wf demo_range.
Proof. split; simpl; [lia|lia|]. repeat constructor; lia. Qed.

(** An address is in a range exactly when it lies between the bounds and,
    for every mask [i], the XOR of the address bits under the mask is bit [i] of
    the match value. *)
Theorem contains_spec r a :
  ar_wf r ->
  contains r a = true <->
  ar_start r <= a < ar_end r
  /\ forall i m, ar_masks r !! i = Some m -> parity (Z.land a m) = Z.testbit (ar_match r) (Z.of_nat i).
Proof. apply contains_iff. Qed.

Lemma contains_spec_witness :
  contains demo_range 0x1000 = true <->
  ar_start demo_range <= 0x1000 < ar_end demo_range
  /\ forall i m, ar_masks demo_range !! i = Some m ->
       parity (Z.land 0x1000 m) = Z.testbit (ar_match demo_range) (Z.of_nat i).
Proof. apply contains_spec, demo_range_wf. Defined.

(** ** Merging stripes *)

Definition stripe (s e : Z) (masks : list Z) (k : nat) : AddrRange := mkAddrRange s e masks (Z.of_nat k).
Definition all_stripes (s e : Z) (masks : list Z) : list AddrRange :=
  map (stripe s e masks) (seq 0 (2 ^ length masks)).

Lemma merge_check_stripes s e masks k0 n k :
  (k + n <= 256)%nat ->
  merge_check (stripe s e masks k0) (map (stripe s e masks) (seq k n)) (Z.of_nat k) = Ok tt.
Proof.
  revert k. induction n as [|n IH]; intros k Hk; simpl; [done|].
  unfold mergesWith; simpl. rewrite !Z.eqb_refl, bool_decide_eq_true_2 by done. simpl.
  destruct n as [|n']; [done|].
  rewrite u8_small by lia. replace (Z.of_nat k + 1) with (Z.of_nat (S k)) by lia. apply IH. lia.
Qed.

(** The stripes of an interleaved range partition it.  Every address of
    the plain range is in exactly one stripe, and merging all stripes in order
    succeeds and gives a range with exactly the addresses of the stripes. *)
Theorem stripes_partition s e masks a :
  (1 <= length masks <= 8)%nat ->
  (s <= a < e -> exists k, (k < 2 ^ length masks)%nat /\ contains (stripe s e masks k) a = true
     /\ forall k', contains (stripe s e masks k') a = true -> k' = k)
  /\ exists r, AddrRange_merge (all_stripes s e masks) = Ok r
       /\ (contains r a = true <-> exists q, q ∈ all_stripes s e masks /\ contains q a = true).
Proof.
  intros Hn.
  assert (forall k, contains (stripe s e masks k) a = true
            <-> s <= a < e /\ k = Z.to_nat (sel_from 0 masks a)) as Hk.
  { intros k. unfold contains; simpl. rewrite !andb_true_iff, Z.leb_le, Z.ltb_lt, Z.eqb_eq.
    pose proof (sel_nonneg masks a). split; intros [? ?]; (split; [done|lia]). }
  assert (Z.to_nat (sel_from 0 masks a) < 2 ^ length masks)%nat as Hlt.
  { pose proof (sel_bound masks a). pose proof (sel_nonneg masks a).
    apply Nat2Z.inj_lt. rewrite Nat2Z.inj_pow, Z2Nat.id by done. done. }
  split.
  - intros Ha. exists (Z.to_nat (sel_from 0 masks a)). split; [done|]. split; [by apply Hk|].
    intros k' Hk'. by apply Hk in Hk' as [_ ->].
  - exists (AddrRange_simple s e). split.
    + unfold all_stripes.
      assert (2 ^ length masks <= 256)%nat as H256.
      { change 256%nat with (2 ^ 8)%nat. apply Nat.pow_le_mono_r; lia. }
      assert (2 <= 2 ^ length masks)%nat as H2.
      { change 2%nat with (2 ^ 1)%nat at 1. apply Nat.pow_le_mono_r; lia. }
      pose proof (merge_check_stripes s e masks 0 (2 ^ length masks) 0 ltac:(lia)) as Hc.
      destruct (2 ^ length masks)%nat as [|[|n]] eqn:En; [lia|lia|].
      set (l := map (stripe s e masks) (seq 0 (S (S n)))) in *.
      assert (Z.of_nat (length l) = 2 ^ Z.of_nat (length masks)) as Hlen.
      { unfold l. rewrite length_map, length_seq, <- En, Nat2Z.inj_pow. done. }
      unfold AddrRange_merge. unfold l at 1. cbn [seq map]. rewrite Hlen.
      cbn [ar_masks stripe]. rewrite Z.eqb_refl. cbn [negb]. change (Z.of_nat 0) with 0 in Hc. by rewrite Hc.
    + unfold contains; simpl. rewrite !andb_true_iff, Z.leb_le, Z.ltb_lt. split.
      * intros [Ha _]. eexists. split; [|by apply Hk].
        apply list_elem_of_fmap_2. apply elem_of_seq. lia.
      * intros (q & (k & -> & _)%list_elem_of_fmap & Hq). apply Hk in Hq as [? _]. done.
Qed.

Lemma stripes_partition_witness :
  exists r, AddrRange_merge (all_stripes 0 0x10000 [0x100; 0x1200]) = Ok r
    /\ (contains r 0x1234 = true
        <-> exists q, q ∈ all_stripes 0 0x10000 [0x100; 0x1200] /\ contains q 0x1234 = true).
Proof. apply (stripes_partition 0 0x10000 [0x100; 0x1200] 0x1234). simpl. lia. Defined.

(** ** Removing the interleaving bits *)

Lemma u64_sub_inj x y c : 0 <= x < 2 ^ 64 -> 0 <= y < 2 ^ 64 -> u64 (x - c) = u64 (y - c) -> x = y.
Proof.
  intros Hx Hy Heq. unfold u64, wrap in Heq.
  assert ((x - c - (y - c)) mod 2 ^ 64 = 0) as Hz by (rewrite Zminus_mod, Heq, Z.sub_diag; done).
  apply Z.mod_divide in Hz as [k Hk]; [|lia]. nia.
Qed.

Lemma bits64 x : 0 <= x -> (forall i, 64 <= i -> Z.testbit x i = false) -> x < 2 ^ 64.
Proof.
  intros Hx Hb. destruct (decide (x = 0)) as [->|]; [lia|].
  apply Z.log2_lt_pow2; [lia|]. destruct (Z.lt_ge_cases (Z.log2 x) 64); [done|].
  pose proof (Z.bit_log2 x ltac:(lia)) as Ht. by rewrite Hb in Ht.
Qed.

Lemma insertBits_nonneg val first last v : 0 <= val -> 0 <= insertBits val first last v.
Proof.
  intros Hv. unfold insertBits. apply Z.lor_nonneg. split; apply Z.land_nonneg; [left; apply u64_bound|by left].
Qed.

Lemma drop_bit_zero a : 0 <= a < 2 ^ 64 -> drop_bit a 0 = Z.shiftr a 1.
Proof.
  intros Ha. unfold drop_bit, insertBits. change (mask (0 - 1 - 0 + 1)) with 0.
  change (u64 (Z.shiftl 0 0)) with 0. rewrite Z.land_0_r, Z.lor_0_l.
  change (not64 0) with (Z.ones 64). rewrite Z.land_ones by lia. apply Z.mod_small.
  rewrite Z.shiftr_div_pow2 by lia. change (2 ^ 1) with 2. split; [apply Z.div_pos; lia|].
  apply Z.div_lt_upper_bound; lia.
Qed.

Lemma drop_bit_testbit a k j :
  0 <= a < 2 ^ 64 -> 0 <= k < 64 -> 0 <= j ->
  Z.testbit (drop_bit a k) j = if j <? k then Z.testbit a j else Z.testbit a (j + 1).
Proof.
  intros Ha Hk Hj. destruct (decide (k = 0)) as [->|Hk0].
  { rewrite drop_bit_zero, Z.shiftr_spec by done. by rewrite (proj2 (Z.ltb_ge _ _)) by lia. }
  unfold drop_bit. rewrite insertBits_testbit; [| |lia..].
  - rewrite (proj2 (Z.leb_le 0 j)) by done. simpl. rewrite Z.shiftr_spec, Z.sub_0_r by done.
    destruct (Z.ltb_spec j k), (Z.leb_spec j (k - 1)); (lia || done).
  - rewrite Z.shiftr_div_pow2 by lia. change (2 ^ 1) with 2.
    split; [apply Z.div_pos; lia|apply Z.div_lt_upper_bound; lia].
Qed.

Lemma drop_bit_range a k : 0 <= a < 2 ^ 64 -> 0 <= k < 64 -> 0 <= drop_bit a k < 2 ^ 64.
Proof.
  intros Ha Hk. assert (0 <= drop_bit a k) as Hn.
  { apply insertBits_nonneg, Z.shiftr_nonneg. lia. }
  split; [done|]. apply bits64; [done|]. intros i Hi. rewrite drop_bit_testbit by lia.
  case_match; apply u64_high; (done || lia).
Qed.

(** Strictly increasing bit positions, the first at least [i]. *)
Fixpoint increasing (i : Z) (l : list Z) : Prop :=
  match l with [] => True | k :: l => i <= k < 64 /\ increasing (k + 1) l end.

Lemma increasing_ge i l k : increasing i l -> k ∈ l -> i <= k.
Proof.
  revert i. induction l as [|x l IH]; intros i; simpl; [by intros _ ?%not_elem_of_nil|].
  intros [Hx Hl] [->|Hin]%elem_of_cons; [lia|]. specialize (IH _ Hl Hin). lia.
Qed.

Lemma increasing_weaken i i' l : increasing i l -> i' <= i -> increasing i' l.
Proof. destruct l as [|x l]; simpl; [done|]. intros [? ?] ?. split; [lia|done]. Qed.

Definition drop_step (i k a : Z) : Z := if 0 <? k then drop_bit a (k - i) else Z.shiftr a 1.

Lemma drop_step_eq i k a : 0 <= a < 2 ^ 64 -> 0 <= i <= k -> drop_step i k a = drop_bit a (k - i).
Proof.
  intros Ha Hi. unfold drop_step. destruct (Z.ltb_spec 0 k); [done|].
  replace (k - i) with 0 by lia. by rewrite drop_bit_zero.
Qed.

(** Equal results have equal bits everywhere but at the positions removed. *)
Lemma remove_loop_bits l i a b :
  0 <= i -> increasing i l -> 0 <= a < 2 ^ 64 -> 0 <= b < 2 ^ 64 ->
  remove_loop i l a = remove_loop i l b ->
  forall j, 0 <= j -> (j + i) ∉ l -> Z.testbit a j = Z.testbit b j.
Proof.
  revert i a b. induction l as [|k l IH]; intros i a b Hi Hl Ha Hb; simpl; [by intros -> j|].
  destruct Hl as [Hk Hl]. fold (drop_step i k a) (drop_step i k b).
  rewrite !drop_step_eq by lia. intros Heq j Hj Hn.
  assert (forall j, 0 <= j -> (j + (i + 1)) ∉ l ->
    Z.testbit (drop_bit a (k - i)) j = Z.testbit (drop_bit b (k - i)) j) as Hbits.
  { apply IH; [lia|eapply increasing_weaken; [exact Hl|lia]|by apply drop_bit_range; lia..|done]. }
  assert (j + i <> k) as Hjk by (intros <-; apply Hn; by left).
  destruct (Z.lt_ge_cases j (k - i)).
  - specialize (Hbits j Hj). rewrite !drop_bit_testbit in Hbits by lia.
    rewrite (proj2 (Z.ltb_lt _ _)) in Hbits by done. apply Hbits. intros Hin.
    pose proof (increasing_ge _ _ _ Hl Hin). lia.
  - specialize (Hbits (j - 1) ltac:(lia)). rewrite !drop_bit_testbit in Hbits by lia.
    rewrite (proj2 (Z.ltb_ge _ _)) in Hbits by lia. replace (j - 1 + 1) with j in Hbits by lia.
    apply Hbits. intros Hin. apply Hn. right. by replace (j + i) with (j - 1 + (i + 1)) by lia.
Qed.

Lemma remove_loop_range l i a :
  0 <= i -> increasing i l -> 0 <= a < 2 ^ 64 -> 0 <= remove_loop i l a < 2 ^ 64.
Proof.
  revert i a. induction l as [|k l IH]; intros i a Hi Hl Ha; simpl; [done|]. destruct Hl as [Hk Hl].
  fold (drop_step i k a). rewrite drop_step_eq by lia.
  apply IH; [lia|eapply increasing_weaken; [exact Hl|lia]|by apply drop_bit_range; lia].
Qed.

(** The sorted lowest bits of distinct masks. *)
Lemma ctz64_range m : 0 < m < 2 ^ 64 -> 0 <= ctz64 m < 64 /\ is_lsb m (ctz64 m).
Proof.
  intros Hm. destruct m as [|p|p]; [lia| |lia]. simpl. pose proof (ctz_pos_lsb p) as (H0 & H1 & H2).
  split; [|done]. split; [done|]. destruct (Z.lt_ge_cases (ctz_pos p) 64); [done|].
  by rewrite u64_high in H1 by lia.
Qed.

Lemma sorted_increasing i l :
  StronglySorted Z.le l -> NoDup l -> Forall (fun k => i <= k < 64) l -> increasing i l.
Proof.
  revert i. induction l as [|k l IH]; intros i Hs Hn Hf; simpl; [done|].
  apply StronglySorted_inv in Hs as [Hs Hle]. apply NoDup_cons in Hn as [Hk Hn].
  apply Forall_cons in Hf as [Hk64 Hf]. split; [done|]. apply IH; [done|done|].
  rewrite Forall_forall in *. intros x Hx. specialize (Hle _ Hx). specialize (Hf _ Hx).
  assert (x <> k) by (intros ->; done). lia.
Qed.

Lemma sorted_lsbs_increasing masks :
  Forall (fun m => 0 < m < 2 ^ 64) masks -> NoDup (map ctz64 masks) -> increasing 0 (sorted_lsbs masks).
Proof.
  intros Hm Hn. unfold sorted_lsbs. pose proof (merge_sort_Permutation Z.le (map ctz64 masks)) as Hp.
  apply sorted_increasing.
  - apply StronglySorted_merge_sort; [intros x y z; lia|intros x y; lia].
  - by rewrite Hp.
  - rewrite Hp. rewrite Forall_forall in *. intros x (m & -> & Hin)%list_elem_of_fmap. by apply ctz64_range, Hm.
Qed.

(** Agreement on all but the lowest bit of each mask, and on every selector
    bit, is agreement: the selector equations determine the missing bits from the top down. *)
Lemma stripe_bits_determined masks a b :
  0 <= a < 2 ^ 64 -> 0 <= b < 2 ^ 64 -> Forall (fun m => 0 < m < 2 ^ 64) masks ->
  (forall m, m ∈ masks -> parity (Z.land a m) = parity (Z.land b m)) ->
  (forall j, 0 <= j -> j ∉ map ctz64 masks -> Z.testbit a j = Z.testbit b j) -> a = b.
Proof.
  intros Ha Hb Hm Hpar Hbits.
  assert (forall d j, 0 <= j -> 64 - Z.of_nat d <= j -> Z.testbit a j = Z.testbit b j) as Hall.
  { induction d as [|d IH]; intros j Hj Hd.
    { by rewrite !u64_high by (done || lia). }
    destruct (decide (64 - Z.of_nat d <= j)); [by apply IH|].
    destruct (decide (j ∈ map ctz64 masks)) as [Hin|]; [|by apply Hbits].
    apply list_elem_of_fmap in Hin as (m & Hjm & Hin).
    rewrite Forall_forall in Hm. destruct (ctz64_range m (Hm _ Hin)) as [_ (_ & Hset & Hlow)]. rewrite <- Hjm in *.
    destruct (decide (Z.testbit a j = Z.testbit b j)) as [|Hne]; [done|]. exfalso.
    apply (parity_flip (Z.to_nat j) (Z.land a m) (Z.land b m)); [apply Z.land_nonneg; lia..| | |by apply Hpar].
    - intros i Hi Hij. rewrite !Z.land_spec. rewrite Z2Nat.id in Hij by done.
      destruct (Z.lt_ge_cases i j); [by rewrite Hlow, !andb_false_r by lia|]. f_equal. apply IH; lia.
    - rewrite Z2Nat.id, !Z.land_spec, Hset, !andb_true_r by done. done. }
  apply Z.bits_inj'. intros j Hj. apply (Hall 64%nat); lia.
Qed.

(** Offsets are unique.  When the masks have distinct lowest bits, two
    addresses of a stripe with the same offset are the same address: removing
    the interleaving bits loses nothing. *)
Theorem getOffset_injective r a b :
  ar_wf r -> NoDup (map ctz64 (ar_masks r)) ->
  contains r a = true -> contains r b = true -> getOffset r a = getOffset r b -> a = b.
Proof.
  intros Hwf Hnd Hca Hcb. apply (contains_iff r a Hwf) in Hca as [Ha Hpa].
  apply (contains_iff r b Hwf) in Hcb as [Hb Hpb]. destruct Hwf as [_ [Hs He] Hm].
  unfold getOffset. rewrite !(proj2 (Z.leb_le _ _)), !(proj2 (Z.ltb_lt _ _)) by lia. simpl.
  destruct (interleaved r).
  - intros Hoff. pose proof (sorted_lsbs_increasing _ Hm Hnd) as Hinc.
    assert (removeIntlvBits r a = removeIntlvBits r b) as Heq.
    { pose proof (remove_loop_range _ 0 a ltac:(lia) Hinc ltac:(lia)).
      pose proof (remove_loop_range _ 0 b ltac:(lia) Hinc ltac:(lia)).
      apply (u64_sub_inj _ _ (removeIntlvBits r (ar_start r))); [done|done|done]. }
    apply (stripe_bits_determined (ar_masks r)); [lia|lia|done| |].
    + intros m [i Hi]%list_elem_of_lookup. by rewrite (Hpa _ _ Hi), (Hpb _ _ Hi).
    + intros j Hj Hn. apply (remove_loop_bits _ 0 a b ltac:(lia) Hinc); [lia|lia|done|done|].
      rewrite Z.add_0_r. unfold sorted_lsbs. by rewrite merge_sort_Permutation.
  - rewrite !u64_small by lia. lia.
Qed.

Lemma getOffset_injective_witness :
  contains demo_range 0x1000 = true /\ contains demo_range 0x1001 = true
  /\ getOffset demo_range 0x1000 <> getOffset demo_range 0x1001.
Proof.
  split; [reflexivity|]. split; [reflexivity|]. intros Heq.
  assert (0x1000 = 0x1001); [|lia].
  apply (getOffset_injective demo_range); [apply demo_range_wf| |reflexivity|reflexivity|exact Heq].
  simpl. repeat constructor; set_solver.
Defined.

(** ** Adding the bit back *)

(** Parity, one bit taken out. *)
Lemma parity_out x k :
  0 <= x < 2 ^ 64 -> 0 <= k < 64 ->
  parity x = xorb (Z.testbit x k) (parity (Z.land x (not64 (2 ^ k)))).
Proof.
  intros Hx Hk. set (y := Z.land x (not64 (2 ^ k))).
  assert (forall i, 0 <= i -> Z.testbit y i = Z.testbit x i && negb (i =? k)) as Hy.
  { intros i Hi. unfold y. rewrite Z.land_spec, not64_testbit, Z.pow2_bits_eqb by lia.
    rewrite (Z.eqb_sym k i). destruct (i <? 64) eqn:E; [done|].
    apply Z.ltb_ge in E. by rewrite (u64_high x i) by done. }
  destruct (Z.testbit x k) eqn:Hb; simpl.
  - assert (parity x <> parity y) as Hne.
    { apply (parity_flip (Z.to_nat k)); [lia|apply Z.land_nonneg; lia| |]; rewrite Z2Nat.id by lia.
      - intros i Hi Hik. rewrite Hy by done. rewrite (proj2 (Z.eqb_neq _ _)) by done. by rewrite andb_true_r.
      - rewrite Hy, Z.eqb_refl, Hb by lia. done. }
    destruct (parity x), (parity y); (done || by destruct Hne).
  - replace y with x; [by destruct (parity x)|]. apply Z.bits_inj'. intros i Hi. rewrite Hy by done.
    destruct (Z.eqb_spec i k) as [->|]; [by rewrite Hb|by rewrite andb_true_r].
Qed.

Lemma add_bit_testbit x k j :
  0 <= x < 2 ^ 64 -> 0 <= k < 64 -> 0 <= j < 64 -> j <> k ->
  Z.testbit (if 0 <? k then insertBits (u64 (Z.shiftl x 1)) (k + 0 - 1) 0 x else u64 (Z.shiftl x 1)) j
  = if j <? k then Z.testbit x j else Z.testbit x (j - 1).
Proof.
  intros Hx Hk Hj Hjk. destruct (Z.ltb_spec 0 k).
  - rewrite insertBits_testbit by (lia || apply u64_bound). rewrite (proj2 (Z.leb_le 0 j)) by lia. simpl.
    rewrite Z.sub_0_r. destruct (Z.leb_spec j (k + 0 - 1)), (Z.ltb_spec j k); try lia; [done|].
    rewrite u64_testbit, Z.shiftl_spec by lia. by rewrite (proj2 (Z.ltb_lt _ _)) by lia.
  - rewrite u64_testbit, Z.shiftl_spec by lia. rewrite (proj2 (Z.ltb_lt j 64)) by lia.
    by rewrite (proj2 (Z.ltb_ge _ _)) by lia.
Qed.

(** The address put together again, away from bit [k]. *)
Lemma add_drop_testbit a k j :
  0 <= a < 2 ^ 64 -> 0 <= k < 64 -> 0 <= j < 64 -> j <> k ->
  Z.testbit (add_loop 0 [k] (remove_loop 0 [k] a)) j = Z.testbit a j.
Proof.
  intros Ha Hk Hj Hjk. cbn [add_loop remove_loop]. fold (drop_step 0 k a).
  rewrite drop_step_eq by lia. rewrite Z.sub_0_r. pose proof (drop_bit_range a k Ha Hk).
  rewrite add_bit_testbit by done. destruct (Z.ltb_spec j k).
  - rewrite drop_bit_testbit by lia. by rewrite (proj2 (Z.ltb_lt _ _)) by lia.
  - rewrite drop_bit_testbit by lia. rewrite (proj2 (Z.ltb_ge _ _)) by lia. f_equal. lia.
Qed.

Lemma add_loop_range k x : 0 <= add_loop 0 [k] x.
Proof.
  cbn [add_loop]. destruct (0 <? k); [apply insertBits_nonneg|]; apply u64_bound.
Qed.

Lemma add_loop_high k x i : 0 <= k < 64 -> 64 <= i -> Z.testbit (add_loop 0 [k] x) i = false.
Proof.
  intros Hk Hi. cbn [add_loop]. destruct (Z.ltb_spec 0 k).
  - rewrite insertBits_testbit by (lia || apply u64_bound). rewrite (proj2 (Z.leb_gt i _)), andb_false_r by lia.
    by apply u64_high; [apply u64_bound|].
  - by apply u64_high; [apply u64_bound|].
Qed.

(** With one interleaving mask, [addIntlvBits] undoes [removeIntlvBits] on
    every address of the stripe. *)
Theorem addIntlv_removeIntlv r m a :
  ar_wf r -> ar_masks r = [m] -> ctz64 m < 31 -> contains r a = true ->
  addIntlvBits r (removeIntlvBits r a) = Ok a.
Proof.
  intros Hwf Hm Hk31 Hc. apply (contains_iff r a Hwf) in Hc as [Ha Hp].
  specialize (Hp 0%nat m). rewrite Hm in Hp. specialize (Hp eq_refl). change (Z.of_nat 0) with 0 in Hp.
  destruct Hwf as [_ [Hs He] Hfm]. rewrite Hm in Hfm. apply Forall_cons in Hfm as [Hfm _].
  destruct (ctz64_range m Hfm) as [Hk (_ & Hset & _)].
  unfold addIntlvBits, removeIntlvBits. rewrite Hm.
  change (sorted_lsbs [m]) with [ctz64 m]. set (k := ctz64 m) in *.
  set (y := add_loop 0 [k] (remove_loop 0 [k] a)).
  assert (forall j, 0 <= j -> j <> k -> Z.testbit y j = Z.testbit a j) as Hy.
  { intros j Hj Hjk. destruct (Z.lt_ge_cases j 64); [apply add_drop_testbit; lia|].
    rewrite (u64_high a j) by lia. by apply add_loop_high. }
  assert (0 <= y < 2 ^ 64) as Hyr.
  { split; [apply add_loop_range|]. apply bits64; [apply add_loop_range|].
    intros i Hi. by apply add_loop_high. }
  cbn [select_loop]. fold k. rewrite (proj2 (Z.leb_gt 31 k)) by lia. f_equal.
  set (masked := Z.land (Z.land y m) (not64 (2 ^ k))).
  assert (masked = Z.land (Z.land a m) (not64 (2 ^ k))) as Hmask.
  { apply Z.bits_inj'. intros j Hj. unfold masked. rewrite !Z.land_spec, not64_testbit by done.
    rewrite Z.pow2_bits_eqb by lia. destruct (Z.eqb_spec k j) as [->|Hne]; [by rewrite !andb_false_r|].
    by rewrite Hy by (done || congruence). }
  assert (0 <= Z.land a m < 2 ^ 64) as Ham.
  { split; [apply Z.land_nonneg; lia|]. apply bits64; [apply Z.land_nonneg; lia|].
    intros i Hi. rewrite Z.land_spec, (u64_high a i) by lia. done. }
  rewrite (parity_out _ k Ham Hk), <- Hmask, Z.land_spec, Hset, andb_true_r in Hp.
  apply Z.bits_inj'. intros j Hj. unfold insertBit. rewrite insertBits_testbit by lia.
  destruct (Z.leb_spec k j), (Z.leb_spec j k); simpl; try (apply Hy; lia).
  assert (j = k) as -> by lia. rewrite Z.sub_diag, Z.lxor_spec.
  unfold bit. rewrite bits_testbit by lia. change (0 + 0) with 0. change (0 <? 0 - 0 + 1) with true.
  rewrite (Z.bit0_odd (popCount masked)), <- Hp. fold (parity masked).
  by destruct (Z.testbit a k), (parity masked).
Qed.

Definition demo_stripe : AddrRange := mkAddrRange 0 0x10000 [0x1200] 1.
Lemma addIntlv_removeIntlv_witness :
  addIntlvBits demo_stripe (removeIntlvBits demo_stripe 0x5034) = Ok 0x5034.
Proof.
  apply (addIntlv_removeIntlv demo_stripe 0x1200); [|reflexivity|vm_compute; reflexivity|reflexivity].
  split; simpl; [lia|lia|]. apply Forall_singleton. lia.
Defined.

(** With three masks it does not: the third bit is inserted one position too
    high, so the address comes back changed. *)
Definition three_masks : AddrRange := mkAddrRange 0 0x10000 [0x100; 0x200; 0x400] 1.
Theorem addIntlvBits_wrong :
  contains three_masks 0x5100 = true
  /\ addIntlvBits three_masks (removeIntlvBits three_masks 0x5100) = Ok 0x5900.
Proof. vm_compute. auto. Qed.

(** Masks above bit 31 are lost in the [int] that [granularity] combines them
    in; the shift by 64 that follows is undefined. *)
Theorem granularity_high_masks r :
  interleaved r = true -> Forall (fun m => m mod 2 ^ 32 = 0) (ar_masks r) ->
  granularity r = Err (EUndefined "shift by 64").
Proof.
  intros Hi Hm. unfold granularity. rewrite Hi.
  assert (combined_mask (ar_masks r) = 0) as ->; [|reflexivity]. unfold combined_mask.
  induction Hm as [|m l Hm _ IH]; cbn [fold_left]; [done|].
  change (u64 0) with 0. rewrite Z.lor_0_l. assert (sgn 32 m = 0) as ->; [|done]. unfold sgn, wrap. by rewrite Hm.
Qed.

(** ** The legacy constructor *)

Lemma land_bound a m : 0 <= a < 2 ^ 64 -> 0 <= m -> 0 <= Z.land a m < 2 ^ 64.
Proof.
  intros Ha Hm. assert (0 <= Z.land a m) by (apply Z.land_nonneg; lia).
  split; [done|]. apply bits64; [done|]. intros i Hi. by rewrite Z.land_spec, (u64_high a i) by done.
Qed.

Lemma parity_bit a b : 0 <= a < 2 ^ 64 -> 0 <= b < 64 -> parity (Z.land a (2 ^ b)) = Z.testbit a b.
Proof.
  intros Ha Hb. rewrite (parity_out _ b) by (apply land_bound || done; lia).
  assert (Z.land (Z.land a (2 ^ b)) (not64 (2 ^ b)) = 0) as ->.
  { apply Z.bits_inj'. intros i Hi. rewrite !Z.land_spec, not64_testbit, Z.bits_0 by done.
    destruct (Z.testbit (2 ^ b) i); by rewrite ?andb_false_r. }
  rewrite Z.land_spec, Z.pow2_bits_true, andb_true_r by lia. by destruct (Z.testbit a b).
Qed.

Lemma parity_two_bits a b1 b2 :
  0 <= a < 2 ^ 64 -> 0 <= b1 < 64 -> 0 <= b2 < 64 -> b1 <> b2 ->
  parity (Z.land a (Z.lor (2 ^ b1) (2 ^ b2))) = xorb (Z.testbit a b1) (Z.testbit a b2).
Proof.
  intros Ha H1 H2 Hne. rewrite (parity_out _ b1); [|apply land_bound; [done|apply Z.lor_nonneg; lia]|done].
  assert (Z.land (Z.land a (Z.lor (2 ^ b1) (2 ^ b2))) (not64 (2 ^ b1)) = Z.land a (2 ^ b2)) as ->.
  { apply Z.bits_inj'. intros i Hi. rewrite !Z.land_spec, not64_testbit, Z.lor_spec, !Z.pow2_bits_eqb by lia.
    destruct (Z.eqb_spec b1 i) as [->|], (Z.eqb_spec b2 i) as [->|]; simpl; rewrite ?andb_false_r, ?andb_true_r;
      try done. destruct (i <? 64) eqn:E; [by rewrite andb_true_r|]. apply Z.ltb_ge in E. lia. }
  rewrite parity_bit by done. rewrite Z.land_spec, Z.lor_spec, Z.pow2_bits_true by lia. simpl.
  by rewrite andb_true_r.
Qed.

(** Parameters the legacy constructor accepts for [n] interleaving bits. *)
Record legacy_ok (high xor n m : Z) : Prop := {
  lo_n : 0 < n <= 8;
  lo_high : n - 1 <= high < 64;
  lo_xor : xor = 0 \/ n - 1 <= xor < 64 /\ n <= Z.abs (xor - high);
  lo_match : 0 <= m < 2 ^ n
}.

Lemma legacy_mask_parity high xor n m a i :
  legacy_ok high xor n m -> 0 <= a < 2 ^ 64 -> 0 <= i < n ->
  parity (Z.land a (legacy_mask high xor (n - 1 - i)))
  = xorb (Z.testbit a (high - n + 1 + i)) (if xor =? 0 then false else Z.testbit a (xor - n + 1 + i)).
Proof.
  intros [Hn Hh Hx _] Ha Hi. unfold legacy_mask. rewrite !Z.shiftl_1_l.
  rewrite (u8_small (high - (n - 1 - i))) by lia. replace (high - (n - 1 - i)) with (high - n + 1 + i) by lia.
  destruct (Z.eqb_spec xor 0) as [->|Hx0].
  - rewrite parity_bit by lia. by rewrite xorb_false_r.
  - destruct Hx as [|[Hx Hd]]; [done|]. rewrite u8_small by lia.
    replace (xor - (n - 1 - i)) with (xor - n + 1 + i) by lia. apply parity_two_bits; lia.
Qed.

Lemma legacy_masks_lookup high xor n i :
  0 <= i < n -> legacy_masks high xor n !! Z.to_nat i = Some (legacy_mask high xor (n - 1 - i)).
Proof.
  intros Hi. unfold legacy_masks. change (map ?f ?l) with (f <$> l). rewrite list_lookup_fmap.
  rewrite (lookup_seq_lt 0 (Z.to_nat n) (Z.to_nat i)) by lia. simpl. by rewrite Z2Nat.id by lia.
Qed.

(** The legacy constructor selects the stripe its documentation promises:
    an address is in the range when it lies between the bounds and the [n]
    interleaving bits, XOR-ed with the [n] hash bits if any, equal the match value. *)
Theorem legacy_contains s e high xor n m a :
  legacy_ok high xor n m -> 0 <= a < 2 ^ 64 ->
  exists r, AddrRange_legacy s e high xor n m = Ok r
    /\ (contains r a = true <->
        s <= a < e /\ Z.lxor (bits a high (high - n + 1))
                        (if xor =? 0 then 0 else bits a xor (xor - n + 1)) = m).
Proof.
  intros Hok Ha. pose proof Hok as [Hn Hh Hx Hm].
  exists (mkAddrRange s e (legacy_masks high xor n) m). split.
  - unfold AddrRange_legacy. rewrite (proj2 (Z.eqb_neq n 0)) by lia. simpl.
    rewrite (proj2 (Z.leb_gt _ _)) by lia. destruct (Z.eqb_spec xor 0) as [->|]; [done|]. simpl.
    destruct Hx as [|[Hx Hd]]; [done|]. rewrite (proj2 (Z.eqb_neq xor high)), (proj2 (Z.ltb_ge _ _)) by lia. done.
  - unfold contains; simpl. rewrite !andb_true_iff, Z.leb_le, Z.ltb_lt, Z.eqb_eq.
    assert (sel_from 0 (legacy_masks high xor n) a
      = Z.lxor (bits a high (high - n + 1)) (if xor =? 0 then 0 else bits a xor (xor - n + 1))) as ->; [|done].
    apply Z.bits_inj'. intros i Hi. rewrite sel_testbit, Z.lxor_spec, bits_testbit by lia.
    replace (high - (high - n + 1) + 1) with n by lia.
    destruct (Z.ltb_spec i n).
    + rewrite legacy_masks_lookup, (legacy_mask_parity _ _ _ _ _ _ Hok) by done.
      f_equal; [simpl; f_equal; lia|]. destruct (Z.eqb_spec xor 0); [by rewrite Z.bits_0|].
      destruct Hx as [|[Hx _]]; [done|]. rewrite bits_testbit by lia.
      rewrite (proj2 (Z.ltb_lt _ _)) by lia. simpl. f_equal. lia.
    + rewrite lookup_ge_None_2 by (unfold legacy_masks; rewrite length_map, length_seq; lia). simpl.
      destruct (Z.eqb_spec xor 0); [by rewrite Z.bits_0|].
      destruct Hx as [|[Hx _]]; [done|]. rewrite bits_testbit by lia. by rewrite (proj2 (Z.ltb_ge _ _)) by lia.
Qed.

Lemma legacy_contains_witness :
  exists r, AddrRange_legacy 0 0x100000 9 13 2 1 = Ok r
    /\ (contains r 0x2500 = true <->
        0 <= 0x2500 < 0x100000 /\ Z.lxor (bits 0x2500 9 (9 - 2 + 1))
                        (if 13 =? 0 then 0 else bits 0x2500 13 (13 - 2 + 1)) = 1).
Proof. apply legacy_contains; [|lia]. split; lia. Defined.

(** [intersects] is right where it answers: for plain non-empty ranges it
    says whether an address is in both, and a negative answer for stripes of one
    interleaving means they share no address. *)
Theorem intersects_spec r s :
  ar_wf r -> ar_wf s -> ar_start r < ar_end r -> ar_start s < ar_end s ->
  (interleaved r = false -> interleaved s = false ->
     exists b, intersects r s = Ok b
       /\ (b = true <-> exists a, contains r a = true /\ contains s a = true))
  /\ (mergesWith r s = true -> ar_size s <> 1 -> intersects r s = Ok false ->
        ~ exists a, contains r a = true /\ contains s a = true).
Proof.
  intros Hr Hs Her Hes. split.
  - intros Hi Hj. unfold intersects. rewrite Hi, Hj. simpl.
    assert (forall q a, ar_wf q -> interleaved q = false ->
      contains q a = true <-> ar_start q <= a < ar_end q) as Hc.
    { intros q a [Hm _ _] Hq. unfold interleaved in Hq. apply negb_false_iff, bool_decide_eq_true_1 in Hq.
      unfold contains. rewrite !andb_true_iff, Z.leb_le, Z.ltb_lt, Z.eqb_eq.
      rewrite Hq in Hm |- *. simpl in Hm. change (sel_from 0 [] a) with 0. lia. }
    destruct ((ar_end s <=? ar_start r) || (ar_end r <=? ar_start s)) eqn:E.
    + exists false. split; [done|]. split; [done|]. intros (a & Ha & Hb). exfalso.
      apply Hc in Ha, Hb; [|done..]. apply orb_true_iff in E as [?%Z.leb_le|?%Z.leb_le]; lia.
    + exists true. split; [done|]. split; [|done]. intros _. exists (Z.max (ar_start r) (ar_start s)).
      apply orb_false_iff in E as [?%Z.leb_gt ?%Z.leb_gt]. rewrite !Hc by done. lia.
  - intros Hm Hsz. unfold intersects. rewrite Hm. apply Z.eqb_neq in Hsz. rewrite Hsz.
    unfold mergesWith in Hm. rewrite !andb_true_iff, !Z.eqb_eq in Hm.
    destruct Hm as [[Hms Hme] Hmm%bool_decide_eq_true_1].
    destruct ((ar_end s <=? ar_start r) || (ar_end r <=? ar_start s)) eqn:E.
    { apply orb_true_iff in E as [?%Z.leb_le|?%Z.leb_le]; lia. }
    destruct (negb (interleaved r) && negb (interleaved s)); [done|].
    intros [= Hne%Z.eqb_neq] (a & Ha & Hb). apply Hne.
    unfold contains in Ha, Hb. rewrite !andb_true_iff, !Z.eqb_eq in Ha, Hb. rewrite Hmm in Hb.
    destruct Ha as [_ <-], Hb as [_ <-]. done.
Qed.

Lemma intersects_spec_witness :
  exists b, intersects (RangeSize 0 4096) (RangeEx 4000 5000) = Ok b
    /\ (b = true <-> exists a, contains (RangeSize 0 4096) a = true /\ contains (RangeEx 4000 5000) a = true).
Proof.
  apply (intersects_spec (RangeSize 0 4096) (RangeEx 4000 5000)); try reflexivity;
    (split; simpl; [lia| |constructor]); change (u64 (0 + 4096)) with 4096; lia.
Defined.
