(* ===== verification/AddrRangeMap.v ===== *)
(** * Address decoding: the range map (base/addr_range_map.hh)

    An ordered map from address ranges to values with a small cache of recently
    used entries.  A [std::map] node is a record with an identity, which is what
    an iterator points to; the tree is the list of its nodes in key order. *)

From S2P Require Import Prelude IntMath Bitfield AddrRange.

Section Map.
Context {V : Type} (max_cache_size : nat).

Record Node := mkNode { n_id : nat; n_range : AddrRange; n_val : V }.

Record AddrRangeMap := mkMap {
  tree : list Node;
  cache : list nat;         (* iterators, most recently used first *)
  fresh_id : nat            (* the identity of the next node *)
}.

Definition set_cache (c : list nat) (m : AddrRangeMap) : AddrRangeMap := mkMap (tree m) c (fresh_id m).

Definition empty_map : AddrRangeMap := mkMap [] [] 0.

(** Dereferencing an iterator: undefined when its node is gone. *)
Definition deref (m : AddrRangeMap) (it : nat) : res Node :=
  match list_find (fun n => n_id n = it) (tree m) with
  | Some (_, n) => Ok n
  | None => Err (EUndefined "invalid iterator")
  end.

Definition addNewEntryToCache (n : Node) (m : AddrRangeMap) : AddrRangeMap :=
  if decide (max_cache_size = 0%nat) then m
  else if decide (max_cache_size <= length (cache m))%nat then
    if decide (1 < max_cache_size)%nat
    then set_cache (n_id n :: removelast (cache m)) m
    else set_cache (removelast (cache m) ++ [n_id n]) m
  else set_cache (n_id n :: cache m) m.

Section Find.
Context (cond : AddrRange -> res bool).

(** The loop over the cache: the entry found and the reordered cache. *)
Fixpoint find_cached (m : AddrRangeMap) (seen c : list nat) : res (option (Node * list nat)) :=
  match c with
  | [] => Ok None
  | it :: c' =>
      n ← deref m it;
      b ← cond (n_range n);
      if b : bool then Ok (Some (n, it :: seen ++ c')) else find_cached m (seen ++ [it]) c'
  end.

(** [tree.upper_bound(r)]: the nodes up to [r] in reverse order, and those after it. *)
Fixpoint upper_bound (r : AddrRange) (before after : list Node) : list Node * list Node :=
  match after with
  | [] => (before, [])
  | n :: after' => if ar_lt r (n_range n) then (before, after) else upper_bound r (n :: before) after'
  end.

(** The do-while loop that walks back over merging ranges. *)
Fixpoint walk_back (i : Node) (before : list Node) : res (option Node) :=
  b ← cond (n_range i);
  if b : bool then Ok (Some i)
  else match before with
       | [] => Ok None
       | next :: before' =>
           if mergesWith (n_range next) (n_range i) then walk_back next before' else Ok None
       end.

Definition search_tree (r : AddrRange) (t : list Node) : res (option Node) :=
  let '(before, after) := upper_bound r [] t in
  hit ← match after with
        | [] => Ok None
        | next :: _ => b ← cond (n_range next); Ok (if b : bool then Some next else None)
        end;
  match hit with
  | Some n => Ok (Some n)
  | None => match before with
            | [] => Ok None
            | i :: before' => walk_back i before'
            end
  end.

Definition find (r : AddrRange) (m : AddrRangeMap) : res (option Node * AddrRangeMap) :=
  o ← find_cached m [] (cache m);
  match o with
  | Some (n, c) => Ok (Some n, set_cache c m)
  | None =>
      o ← search_tree r (tree m);
      match o with
      | Some n => Ok (Some n, addNewEntryToCache n m)
      | None => Ok (None, m)
      end
  end.
End Find.

Definition contains_range (r : AddrRange) : AddrRangeMap -> res (option Node * AddrRangeMap) :=
  find (isSubset r) r.
Definition contains_addr (a : Z) : AddrRangeMap -> res (option Node * AddrRangeMap) :=
  contains_range (RangeSize a 1).
Definition intersects_range (r : AddrRange) : AddrRangeMap -> res (option Node * AddrRangeMap) :=
  find (intersects r) r.

(** [std::map::insert]: an equivalent key keeps its node. *)
Fixpoint tree_insert (n : Node) (t : list Node) : Node * list Node :=
  match t with
  | [] => (n, [n])
  | x :: t' =>
      if ar_lt (n_range n) (n_range x) then (n, n :: t)
      else if ar_lt (n_range x) (n_range n)
           then let '(i, t'') := tree_insert n t' in (i, x :: t'')
           else (x, t)
  end.

Definition insert (r : AddrRange) (d : V) (m : AddrRangeMap) : res (option Node * AddrRangeMap) :=
  '(hit, m') ← intersects_range r m;
  match hit with
  | Some _ => Ok (None, m')
  | None =>
      let '(i, t) := tree_insert (mkNode (fresh_id m') r d) (tree m') in
      Ok (Some i, mkMap t (cache m') (S (fresh_id m')))
  end.

(** [cache.remove(p)] *)
Definition cache_remove (p : nat) (c : list nat) : list nat := filter (fun it => it <> p) c.

Definition erase (p : nat) (m : AddrRangeMap) : AddrRangeMap :=
  mkMap (filter (fun n => n_id n <> p) (tree m)) (cache_remove p (cache m)) (fresh_id m).

(** The nodes of [\[p, q)]; [None] is [end()]. *)
Fixpoint until (q : option nat) (t : list Node) : list Node :=
  match t with
  | [] => []
  | n :: t' => if decide (Some (n_id n) = q) then [] else n :: until q t'
  end.
Fixpoint from (p : option nat) (t : list Node) : list Node :=
  match t with
  | [] => []
  | n :: t' => if decide (Some (n_id n) = p) then t else from p t'
  end.

Definition erase_range (p : nat) (q : option nat) (m : AddrRangeMap) : AddrRangeMap :=
  let gone := until q (from (Some p) (tree m)) in
  mkMap (until (Some p) (tree m) ++ from q (from (Some p) (tree m)))
    (fold_left (fun c _ => cache_remove p c) gone (cache m)) (fresh_id m).

Definition clear (m : AddrRangeMap) : AddrRangeMap := mkMap [] [] (fresh_id m).
Definition map_size (m : AddrRangeMap) : nat := length (tree m).
Definition map_empty (m : AddrRangeMap) : bool := bool_decide (length (tree m) = 0%nat).
End Map.

Arguments Node V : clear implicits.
Arguments AddrRangeMap V : clear implicits.
