(* ===== verification/AddrRangeMapProps.v ===== *)
(** * Correctness of the range map: lookups find the range of an address,
    insertion keeps the ranges apart, and the cache does not change answers. *)

From S2P Require Import Prelude IntMath Bitfield AddrRange AddrRangeMap.

Section Props.
Context {V : Type} (max_cache_size : nat).
Abbreviation node := (Node V).
Abbreviation amap := (AddrRangeMap V).

(** ** Well-formed maps *)

(** Two ranges in key order: one lies before the other, or they are stripes of
    one interleaving. *)
Definition before (r s : AddrRange) : Prop :=
  ar_end r <= ar_start s \/ mergesWith r s = true /\ ar_match r < ar_match s.
Definition node_before (x y : node) : Prop := before (n_range x) (n_range y).

Definition range_ok (r : AddrRange) : Prop := ar_wf r /\ ar_start r < ar_end r.

Record map_wf (m : amap) : Prop := {
  mw_sorted : StronglySorted node_before (tree m);
  mw_ranges : Forall (fun n => range_ok (n_range n)) (tree m);
  mw_ids : NoDup (map n_id (tree m));
  mw_fresh : Forall (fun n => (n_id n < fresh_id m)%nat) (tree m);
  mw_cache : Forall (fun it => it ∈ map n_id (tree m)) (cache m);
  mw_bound : (length (cache m) <= max_cache_size)%nat
}.

Lemma mergesWith_iff r s :
  mergesWith r s = true <-> ar_start r = ar_start s /\ ar_end r = ar_end s /\ ar_masks r = ar_masks s.
Proof.
  unfold mergesWith. rewrite !andb_true_iff, !Z.eqb_eq, bool_decide_eq_true. split; intros; intuition congruence.
Qed.

Lemma ar_lt_iff r s :
  ar_lt r s = true <-> ar_start r < ar_start s \/ ar_start r = ar_start s /\ ar_match r < ar_match s.
Proof.
  unfold ar_lt. destruct (Z.eqb_spec (ar_start r) (ar_start s)); simpl; rewrite Z.ltb_lt; lia.
Qed.

Lemma elem_of_rev {A} (l : list A) x : x ∈ rev l <-> x ∈ l.
Proof. rewrite !list_elem_of_In. symmetry. apply in_rev. Qed.

(** ** The search, for a condition that never fails *)

Lemma upper_bound_spec r (bs t : list node) b a :
  upper_bound r bs t = (b, a) ->
  (forall n, n ∈ bs -> ar_lt r (n_range n) = false) ->
  rev bs ++ t = rev b ++ a /\ (forall n, n ∈ b -> ar_lt r (n_range n) = false)
  /\ (forall n a', a = n :: a' -> ar_lt r (n_range n) = true).
Proof.
  revert bs. induction t as [|n t IH]; intros bs; simpl.
  - intros [= <- <-] Hb. split_and!; [done..|]. by intros.
  - destruct (ar_lt r (n_range n)) eqn:E.
    + intros [= <- <-] Hb. split_and!; [done..|]. by intros ? ? [= <- <-].
    + intros Hu Hb. apply IH in Hu.
      * simpl in Hu. by rewrite <- app_assoc in Hu.
      * intros n' [->|Hn]%elem_of_cons; [done|by apply Hb].
Qed.

(** The nodes the search looks at: the first one after the key, and those
    connected by merging ranges to the last one before it. *)
Definition reached (P : node -> Prop) (b a : list node) : Prop :=
  exists n, P n /\ ((exists a', a = n :: a')
    \/ exists l1 l2, b = l1 ++ n :: l2
         /\ Forall (fun y => mergesWith (n_range n) (n_range y) = true) l1).

Section Search.
Context (cond : AddrRange -> res bool) (c : AddrRange -> bool).

Lemma walk_back_spec (i : node) (bs : list node) :
  (forall n, n ∈ i :: bs -> cond (n_range n) = Ok (c (n_range n))) ->
  exists o, walk_back cond i bs = Ok o /\
    match o with
    | Some n => n ∈ i :: bs /\ c (n_range n) = true
    | None => forall l1 n l2, i :: bs = l1 ++ n :: l2 ->
        Forall (fun y => mergesWith (n_range n) (n_range y) = true) l1 -> c (n_range n) = false
    end.
Proof.
  revert i. induction bs as [|n bs IH]; intros i Hc; simpl; rewrite Hc by set_solver; simpl.
  all: destruct (c (n_range i)) eqn:Ei; [exists (Some i); split; [done|set_solver]|].
  - exists None. split; [done|]. intros l1 n l2 Hl _. destruct l1 as [|? l1]; [by simplify_eq/=|].
    destruct l1; simplify_eq/=.
  - destruct (mergesWith (n_range n) (n_range i)) eqn:Em.
    + destruct (IH n) as (o & Ho & Hspec); [set_solver|]. exists o. split; [done|].
      destruct o as [n'|]; [set_solver|]. intros l1 n' l2 Hl Hm.
      destruct l1 as [|x l1]; simplify_eq/=; [done|]. apply Forall_cons in Hm as [_ Hm]. eauto.
    + exists None. split; [done|]. intros l1 n' l2 Hl Hm.
      destruct l1 as [|x l1]; simplify_eq/=; [done|].
      destruct l1 as [|y l1]; simplify_eq/=.
      { apply Forall_cons in Hm as [Hm _]. congruence. }
      apply Forall_cons in Hm as [H1 [H2 _]%Forall_cons].
      apply mergesWith_iff in H1, H2. exfalso. apply not_true_iff_false in Em. apply Em.
      apply mergesWith_iff. intuition congruence.
Qed.

(** The search finds a matching node if one of them is in reach. *)
Lemma search_tree_spec r (t : list node) :
  (forall n, n ∈ t -> cond (n_range n) = Ok (c (n_range n))) ->
  (forall n, n ∈ t -> c (n_range n) = true -> forall b a, t = rev b ++ a ->
     (forall n, n ∈ b -> ar_lt r (n_range n) = false) ->
     (forall n a', a = n :: a' -> ar_lt r (n_range n) = true) ->
     reached (fun n => c (n_range n) = true) b a) ->
  exists o, search_tree cond r t = Ok o /\
    match o with
    | Some n => n ∈ t /\ c (n_range n) = true
    | None => forall n, n ∈ t -> c (n_range n) = false
    end.
Proof.
  intros Hc Hfind. unfold search_tree. destruct (upper_bound r [] t) as [b a] eqn:Hu.
  apply upper_bound_spec in Hu as (Ht & Hb & Ha); [|set_solver]. simpl in Ht.
  assert (Hmiss : (forall n a', a = n :: a' -> c (n_range n) = false) ->
    (forall l1 n l2, b = l1 ++ n :: l2 ->
       Forall (fun y => mergesWith (n_range n) (n_range y) = true) l1 -> c (n_range n) = false) ->
    forall n, n ∈ t -> c (n_range n) = false).
  { intros H1 H2 n Hn. destruct (c (n_range n)) eqn:E; [|done].
    destruct (Hfind n Hn E b a Ht Hb Ha) as (n' & Hn' & [[a' Ea]|(l1 & l2 & El & Hm)]);
      [apply H1 in Ea|apply (H2 _ _ _ El) in Hm]; congruence. }
  assert (Hwalk : (forall n a', a = n :: a' -> c (n_range n) = false) ->
    exists o, match b with [] => Ok None | i :: b' => walk_back cond i b' end = Ok o /\
      match o with
      | Some n => n ∈ t /\ c (n_range n) = true
      | None => forall n, n ∈ t -> c (n_range n) = false
      end).
  { intros H1. destruct b as [|i b].
    - exists None. split; [done|]. apply Hmiss; [done|]. intros [|? ?] ? ?; discriminate.
    - destruct (walk_back_spec i b) as (o & -> & Ho).
      { intros n Hn. apply Hc. rewrite Ht. apply elem_of_app. left. by apply elem_of_rev. }
      exists o. split; [done|]. destruct o as [n|]; [|by apply Hmiss].
      destruct Ho as [Hn Hcn]. split; [|done]. rewrite Ht. apply elem_of_app. left. by apply elem_of_rev. }
  destruct a as [|next a]; simpl; [by apply Hwalk|].
  assert (next ∈ t) as Hin by (rewrite Ht; set_solver).
  rewrite Hc by done. simpl. destruct (c (n_range next)) eqn:En.
  - exists (Some next). by split.
  - apply Hwalk. by intros n a' [= <- <-].
Qed.

(** ** The cache *)

Lemma deref_spec (m : amap) it :
  NoDup (map n_id (tree m)) -> it ∈ map n_id (tree m) ->
  exists n, deref m it = Ok n /\ n ∈ tree m /\ n_id n = it.
Proof.
  intros Hnd Hit. unfold deref. apply list_elem_of_fmap in Hit as (n & -> & Hn).
  destruct (list_find (fun n' => n_id n' = n_id n) (tree m)) as [[i x]|] eqn:E.
  - apply list_find_Some in E as (Hi & Hid & _). exists x. split_and!; [done| |done].
    by eapply list_elem_of_lookup_2.
  - apply list_find_None in E. rewrite Forall_forall in E. by destruct (E n).
Qed.

Lemma find_cached_spec (m : amap) seen ca :
  NoDup (map n_id (tree m)) -> Forall (fun it => it ∈ map n_id (tree m)) ca ->
  (forall n, n ∈ tree m -> cond (n_range n) = Ok (c (n_range n))) ->
  exists o, find_cached cond m seen ca = Ok o /\
    match o with
    | Some (n, ca') => n ∈ tree m /\ c (n_range n) = true /\ ca' ≡ₚ seen ++ ca
    | None => True
    end.
Proof.
  intros Hnd Hca Hc. revert seen. induction Hca as [|it ca Hit Hca IH]; intros seen; simpl.
  { by exists None. }
  destruct (deref_spec m it Hnd Hit) as (n & -> & Hn & Hid). simpl. rewrite Hc by done. simpl.
  destruct (c (n_range n)) eqn:E.
  - exists (Some (n, it :: seen ++ ca)). split_and!; try done. by rewrite Permutation_middle.
  - destruct (IH (seen ++ [it])) as (o & -> & Ho). exists o. split; [done|].
    destruct o as [[n' ca']|]; [|done]. by rewrite <- app_assoc in Ho.
Qed.

Lemma addNewEntryToCache_wf (m : amap) n :
  map_wf m -> n ∈ tree m ->
  map_wf (addNewEntryToCache max_cache_size n m) /\ tree (addNewEntryToCache max_cache_size n m) = tree m.
Proof.
  intros [H1 H2 H3 H4 H5 H6] Hn.
  assert (n_id n ∈ map n_id (tree m)) as Hid by (by apply list_elem_of_fmap_2).
  assert (Forall (fun it => it ∈ map n_id (tree m)) (removelast (cache m))) as Hrl.
  { rewrite Forall_forall in *. intros x Hx. apply H5. rewrite list_elem_of_In in *.
    destruct (cache m) as [|y l] eqn:E using rev_ind; [done|]. rewrite removelast_last in Hx.
    apply in_or_app. by left. }
  assert (length (removelast (cache m)) = pred (length (cache m))) as Hlen.
  { destruct (cache m) as [|y l] using rev_ind; [done|]. rewrite removelast_last, length_app. simpl. lia. }
  unfold addNewEntryToCache. repeat case_decide; split; try done; split; simpl; try done.
  - by constructor.
  - lia.
  - apply Forall_app. split; [done|]. by constructor.
  - rewrite length_app. simpl. lia.
  - by constructor.
  - lia.
Qed.

Lemma find_spec r (m : amap) :
  map_wf m -> (forall n, n ∈ tree m -> cond (n_range n) = Ok (c (n_range n))) ->
  (forall n, n ∈ tree m -> c (n_range n) = true -> forall b a, tree m = rev b ++ a ->
     (forall n, n ∈ b -> ar_lt r (n_range n) = false) ->
     (forall n a', a = n :: a' -> ar_lt r (n_range n) = true) ->
     reached (fun n => c (n_range n) = true) b a) ->
  exists o m', find max_cache_size cond r m = Ok (o, m') /\ map_wf m' /\ tree m' = tree m
    /\ fresh_id m' = fresh_id m /\
    match o with
    | Some n => n ∈ tree m /\ c (n_range n) = true
    | None => forall n, n ∈ tree m -> c (n_range n) = false
    end.
Proof.
  intros Hm Hc Hfind. pose proof Hm as [H1 H2 H3 H4 H5 H6]. unfold find.
  destruct (find_cached_spec m [] (cache m) H3 H5 Hc) as (o & -> & Ho). simpl.
  destruct o as [[n ca]|].
  - destruct Ho as (Hn & Hcn & Hp). simpl in Hp. exists (Some n), (set_cache ca m).
    split_and!; try done. split; simpl; try done; [by rewrite Hp|by rewrite Hp].
  - destruct (search_tree_spec r (tree m) Hc Hfind) as (o & -> & Hs). simpl. destruct o as [n|].
    + destruct (addNewEntryToCache_wf m n Hm (proj1 Hs)) as [Hwf Ht].
      exists (Some n), (addNewEntryToCache max_cache_size n m). split_and!; try done; try apply Hs.
      unfold addNewEntryToCache. by repeat case_decide.
    + by exists None, m.
Qed.
End Search.

(** ** Looking up an address *)

Lemma isSubset_addr a s :
  0 <= a < 2 ^ 64 - 1 -> ar_wf s -> (interleaved s = true -> is_ok (granularity s) = true) ->
  isSubset (RangeSize a 1) s = Ok (contains s a).
Proof.
  intros Ha [Hm He Hma] Hg. unfold isSubset, RangeSize, AddrRange_simple. cbn [ar_start ar_end].
  rewrite (u64_small (a + 1)) by lia. rewrite (u64_small (a + 1 - 1)) by lia.
  replace (a + 1 - 1) with a by lia. rewrite andb_diag.
  change (interleaved (mkAddrRange a (a + 1) [] 0)) with false. cbv iota.
  destruct (interleaved s) eqn:Hi.
  - destruct (contains s a) eqn:E; [|done]. specialize (Hg eq_refl).
    unfold granularity in *. rewrite Hi in *. destruct (_ <? 64) eqn:Hlt; [|done]. simpl.
    unfold ar_size. cbn [ar_start ar_end ar_masks length]. replace (a + 1 - a) with 1 by lia.
    rewrite (u64_small 1) by lia. change (Z.shiftr 1 (Z.of_nat 0)) with 1.
    f_equal. apply Z.leb_le. enough (0 < 2 ^ ctz64 (u64 (combined_mask (ar_masks s)))) by lia.
    apply Z.pow_pos_nonneg; [lia|]. unfold ctz64. destruct (u64 _) as [|p|]; try lia.
    clear. induction p; simpl; lia.
  - unfold interleaved in Hi. apply negb_false_iff, bool_decide_eq_true_1 in Hi.
    rewrite Hi in Hm. simpl in Hm. unfold contains. rewrite Hi. change (sel_from 0 [] a) with 0.
    replace (ar_match s) with 0 by lia. rewrite Z.eqb_refl, andb_true_r. f_equal. f_equal.
    destruct (Z.leb_spec (a + 1) (ar_end s)), (Z.ltb_spec a (ar_end s)); lia || done.
Qed.

Lemma sorted_app_before (l1 l2 : list node) x y :
  StronglySorted node_before (l1 ++ l2) -> x ∈ l1 -> y ∈ l2 -> node_before x y.
Proof.
  induction l1 as [|z l1 IH]; simpl; [set_solver|]. intros [Hs Hf]%StronglySorted_inv Hx Hy.
  apply elem_of_cons in Hx as [->|Hx]; [|by apply IH]. rewrite Forall_forall in Hf. apply Hf. set_solver.
Qed.

(** Where the node of an address is, seen from the upper bound of the address. *)
Lemma contains_position a (m : amap) n :
  map_wf m -> 0 <= a < 2 ^ 64 - 1 -> n ∈ tree m -> contains (n_range n) a = true ->
  ar_start (n_range n) < a \/ ar_match (n_range n) <= 1 ->
  forall b t, tree m = rev b ++ t ->
     (forall n, n ∈ b -> ar_lt (RangeSize a 1) (n_range n) = false) ->
     (forall n t', t = n :: t' -> ar_lt (RangeSize a 1) (n_range n) = true) ->
     reached (fun n => contains (n_range n) a = true) b t.
Proof.
  intros Hm Ha Hn Hc Hok b t Ht Hb Hhead. exists n. split; [done|]. pose proof Hm as [Hs Hr _ _ _ _].
  rewrite Forall_forall in Hr. unfold contains in Hc. rewrite !andb_true_iff, Z.leb_le, Z.ltb_lt in Hc.
  destruct Hc as [[Hlo Hhi] _].
  assert (forall x, x ∈ tree m -> 0 <= ar_match (n_range x) /\ ar_start (n_range x) < ar_end (n_range x)) as Hpos.
  { intros x [[Hx _ _] He]%Hr. by split; [apply Hx|]. }
  rewrite Ht in Hn. apply elem_of_app in Hn as [Hn|Hn].
  - right. rewrite elem_of_rev in Hn. apply list_elem_of_split in Hn as (l1 & l2 & Hl). exists l1, l2.
    split; [done|]. apply Forall_forall. intros y Hy.
    assert (node_before n y) as Hny.
    { rewrite Ht, Hl, rev_app_distr, <- app_assoc in Hs.
      eapply (sorted_app_before (rev l2 ++ [n]) (rev l1 ++ t)); [done|set_solver|].
      apply elem_of_app. left. by apply elem_of_rev. }
    destruct Hny as [Hd|[Hmm _]]; [|done]. exfalso.
    assert (ar_lt (RangeSize a 1) (n_range y) = false) as Hlt by (apply Hb; rewrite Hl; set_solver).
    apply not_true_iff_false in Hlt. apply Hlt, ar_lt_iff. simpl. left. lia.
  - left. destruct t as [|h t]; [set_solver|]. exists t. f_equal.
    apply elem_of_cons in Hn as [<-|Hn]; [done|]. exfalso.
    assert (h ∈ tree m) as [Hh0 Hh1]%Hpos by (rewrite Ht; set_solver).
    specialize (Hhead h t eq_refl). apply ar_lt_iff in Hhead. simpl in Hhead.
    assert (node_before h n) as [Hd|[[Hst _]%mergesWith_iff Hmm]].
    { rewrite Ht in Hs. eapply (sorted_app_before (rev b ++ [h]) t); [by rewrite <- app_assoc|set_solver|done]. }
    + lia.
    + lia.
Qed.

(** ** Inserting a range *)

(** Ranges [AddrRange::intersects] can compare with a new range. *)
Definition apart (r s : AddrRange) : Prop := ar_end s <= ar_start r \/ ar_end r <= ar_start s.
Definition comparable (r s : AddrRange) : Prop :=
  apart r s \/ interleaved r = false /\ interleaved s = false
  \/ mergesWith r s = true /\ interleaved r = true /\ ar_size s <> 1.

Definition clash (r s : AddrRange) : bool :=
  negb ((ar_end s <=? ar_start r) || (ar_end r <=? ar_start s))
  && (negb (interleaved r) && negb (interleaved s) || (ar_match r =? ar_match s)).

Lemma intersects_clash r s : comparable r s -> intersects r s = Ok (clash r s).
Proof.
  intros Hc. unfold intersects, clash.
  destruct ((ar_end s <=? ar_start r) || (ar_end r <=? ar_start s)) eqn:E; simpl; [done|].
  apply orb_false_iff in E as [E1%Z.leb_gt E2%Z.leb_gt].
  destruct Hc as [[?|?]|[[-> ->]|(Hm & Hi & Hs)]]; [lia|lia|done|].
  rewrite Hm, Hi, (proj2 (Z.eqb_neq _ _)) by done. done.
Qed.

Lemma clash_true r s :
  comparable r s -> clash r s = true ->
  ar_start r < ar_end s /\ ar_start s < ar_end r
  /\ (interleaved r = false /\ interleaved s = false
      \/ mergesWith r s = true /\ interleaved r = true /\ ar_match r = ar_match s).
Proof.
  intros Hc. unfold clash. rewrite andb_true_iff, negb_true_iff, orb_false_iff, !Z.leb_gt.
  intros [[H1 H2] H3]. split_and!; [done..|].
  destruct Hc as [[?|?]|[?|(Hm & Hi & Hs)]]; [lia|lia|by left|]. right. rewrite Hi in H3. simpl in H3.
  apply Z.eqb_eq in H3. done.
Qed.

Lemma clash_false r s :
  comparable r s -> range_ok r -> range_ok s -> clash r s = false -> before r s \/ before s r.
Proof.
  intros Hc [_ Hr] [_ Hs] Hf. unfold before.
  destruct Hc as [[?|?]|[[Hi Hj]|(Hm & Hi & Hsz)]]; [by right; left|by left; left| |].
  - unfold clash in Hf. rewrite Hi, Hj in Hf. simpl in Hf. rewrite andb_true_r in Hf.
    apply negb_false_iff, orb_true_iff in Hf as [?%Z.leb_le|?%Z.leb_le]; auto.
  - pose proof Hm as (E1 & E2 & E3)%mergesWith_iff.
    unfold clash in Hf. rewrite Hi in Hf. simpl in Hf. apply andb_false_iff in Hf as [Hf|Hf%Z.eqb_neq].
    + apply negb_false_iff, orb_true_iff in Hf as [?%Z.leb_le|?%Z.leb_le]; lia.
    + assert (mergesWith s r = true) by (apply mergesWith_iff; auto).
      destruct (Z.lt_total (ar_match r) (ar_match s)) as [?|[?|?]]; auto; lia.
Qed.

Lemma interleaved_masks r : interleaved r = false <-> ar_masks r = [].
Proof. unfold interleaved. by rewrite negb_false_iff, bool_decide_eq_true. Qed.

Lemma before_lt r s : range_ok r -> before r s -> ar_lt r s = true.
Proof.
  intros [_ Hr] [?|[(E & _)%mergesWith_iff ?]]; apply ar_lt_iff; lia.
Qed.

(** Where a clashing node is, seen from the upper bound of the new range. *)
Lemma clash_position r (m : amap) n :
  map_wf m -> range_ok r -> (forall x, x ∈ tree m -> comparable r (n_range x)) ->
  n ∈ tree m -> clash r (n_range n) = true ->
  forall b t, tree m = rev b ++ t ->
     (forall n, n ∈ b -> ar_lt r (n_range n) = false) ->
     (forall n t', t = n :: t' -> ar_lt r (n_range n) = true) ->
     reached (fun n => clash r (n_range n) = true) b t.
Proof.
  intros Hm Hr Hcmp Hn Hc b t Ht Hb Hhead. pose proof Hm as [Hs Hrs _ _ _ _].
  rewrite Forall_forall in Hrs. pose proof (clash_true _ _ (Hcmp _ Hn) Hc) as (H1 & H2 & Hk).
  rewrite Ht in Hn. apply elem_of_app in Hn as [Hn|Hn].
  - rewrite elem_of_rev in Hn. apply list_elem_of_split in Hn as (l1 & l2 & Hl).
    exists n. split; [done|]. right. exists l1, l2. split; [done|]. apply Forall_forall. intros y Hy.
    assert (node_before n y) as [Hd|[Hmm _]]; [|exfalso|done].
    { rewrite Ht, Hl, rev_app_distr, <- app_assoc in Hs.
      eapply (sorted_app_before (rev l2 ++ [n]) (rev l1 ++ t)); [done|set_solver|].
      apply elem_of_app. left. by apply elem_of_rev. }
    assert (ar_lt r (n_range y) = false) as Hlt by (apply Hb; rewrite Hl; set_solver).
    apply not_true_iff_false in Hlt. apply Hlt, ar_lt_iff. left. lia.
  - destruct t as [|h t]; [set_solver|]. exists h. split; [|left; by exists t].
    assert (h ∈ tree m) as Hh by (rewrite Ht; set_solver).
    specialize (Hhead h t eq_refl). apply ar_lt_iff in Hhead.
    apply elem_of_cons in Hn as [<-|Hn]; [done|].
    assert (node_before h n) as Hhn.
    { rewrite Ht in Hs. eapply (sorted_app_before (rev b ++ [h]) t); [by rewrite <- app_assoc|set_solver|done]. }
    destruct (Hrs h Hh) as [_ Hhe].
    destruct Hk as [[Hi Hj]|(Hmr & _ & Hmt)].
    + assert (ar_start (n_range h) < ar_end r) as Hov.
      { destruct Hhn as [|[(E & _)%mergesWith_iff _]]; lia. }
      destruct (Hcmp h Hh) as [[?|?]|[[_ Hk]|(_ & Hk & _)]]; [lia|lia| |congruence].
      unfold clash. rewrite Hi, Hk. simpl. rewrite andb_true_r. apply negb_true_iff, orb_false_iff.
      split; apply Z.leb_gt; lia.
    + apply mergesWith_iff in Hmr as (E & _).
      destruct Hhn as [|[(E' & _)%mergesWith_iff ?]]; lia.
Qed.

Lemma tree_insert_spec (n : node) (t : list node) :
  StronglySorted node_before t -> Forall (fun x => range_ok (n_range x)) (n :: t) ->
  (forall x, x ∈ t -> node_before n x \/ node_before x n) ->
  exists t', tree_insert n t = (n, t') /\ t' ≡ₚ n :: t /\ StronglySorted node_before t'.
Proof.
  intros Hs Hr Hcmp. apply Forall_cons in Hr as [Hn Hr].
  induction t as [|x t IH]; simpl.
  { exists [n]. split_and!; try done. by repeat constructor. }
  apply StronglySorted_inv in Hs as [Hs Hx]. apply Forall_cons in Hr as [Hrx Hr].
  assert (ar_lt (n_range n) (n_range x) = true -> Forall (node_before n) (x :: t)) as Hfirst.
  { intros Hlt. apply Forall_forall. intros y Hy. destruct (Hcmp y Hy) as [|Hyn]; [done|]. exfalso.
    assert (range_ok (n_range y)) as Hry by (rewrite Forall_forall in Hr; set_solver).
    apply before_lt in Hyn; [|done]. apply ar_lt_iff in Hlt, Hyn.
    apply elem_of_cons in Hy as [->|Hy]; [lia|]. rewrite Forall_forall in Hx.
    apply Hx, before_lt, ar_lt_iff in Hy; [lia|done]. }
  destruct (ar_lt (n_range n) (n_range x)) eqn:Elt.
  { exists (n :: x :: t). split_and!; try done. constructor; [by constructor|by apply Hfirst]. }
  assert (node_before x n) as Hxn.
  { destruct (Hcmp x) as [H%before_lt|]; [set_solver|congruence|done|done]. }
  rewrite (before_lt (n_range x) (n_range n)) by done.
  destruct IH as (t' & -> & Hp & Hs'); [done|done|set_solver|].
  exists (x :: t'). split_and!; [done|rewrite Hp; apply Permutation_swap|].
  constructor; [done|]. rewrite Hp. by constructor.
Qed.

(** ** No address belongs to two entries *)

Lemma wf_unique (m : amap) a n n' :
  map_wf m -> n ∈ tree m -> n' ∈ tree m ->
  contains (n_range n) a = true -> contains (n_range n') a = true -> n = n'.
Proof.
  intros [Hs Hr _ _ _ _] Hn Hn' Hc Hc'.
  assert (forall x y : node, node_before x y -> contains (n_range x) a = true ->
    contains (n_range y) a = true -> False) as Hdis.
  { intros x y Hb. unfold contains. rewrite !andb_true_iff, !Z.leb_le, !Z.ltb_lt, !Z.eqb_eq.
    destruct Hb as [|[(_ & _ & E)%mergesWith_iff ?]]; [lia|]. rewrite E. lia. }
  apply list_elem_of_split in Hn as (l1 & l2 & E). rewrite E in Hs, Hn'.
  assert (forall y, y ∈ l1 -> node_before y n) as H1
    by (intros y Hy; eapply (sorted_app_before l1 (n :: l2)); [done|done|set_solver]).
  assert (forall y, y ∈ l2 -> node_before n y) as H2
    by (intros y Hy; eapply (sorted_app_before (l1 ++ [n]) l2); [by rewrite <- app_assoc|set_solver|done]).
  apply elem_of_app in Hn' as [Hn'|[->|Hn']%elem_of_cons]; [|done|]; exfalso; eauto.
Qed.
End Props.

Lemma find_contains {V} mx (m : AddrRangeMap V) a :
  map_wf mx m -> 0 <= a < 2 ^ 64 - 1 ->
  (forall n, n ∈ tree m -> interleaved (n_range n) = true -> is_ok (granularity (n_range n)) = true) ->
  (forall n, n ∈ tree m -> contains (n_range n) a = true ->
     ar_start (n_range n) < a \/ ar_match (n_range n) <= 1) ->
  exists o m', contains_addr mx a m = Ok (o, m') /\ map_wf mx m' /\ tree m' = tree m
    /\ fresh_id m' = fresh_id m /\
    match o with
    | Some n => n ∈ tree m /\ contains (n_range n) a = true
    | None => forall n, n ∈ tree m -> contains (n_range n) a = false
    end.
Proof.
  intros Hm Ha Hg Hst.
  apply (find_spec mx (isSubset (RangeSize a 1)) (fun r => contains r a)); [done| |].
  - intros n Hn. apply isSubset_addr; [done| |by apply Hg].
    pose proof (mw_ranges _ _ Hm) as Hr. rewrite Forall_forall in Hr. by apply Hr.
  - intros n Hn Hc. eapply contains_position; eauto.
Qed.

Lemma insert_spec {V} mx (m : AddrRangeMap V) r d :
  map_wf mx m -> range_ok r -> (forall n, n ∈ tree m -> comparable r (n_range n)) ->
  exists o m', insert mx r d m = Ok (o, m') /\ map_wf mx m' /\
    match o with
    | Some i => n_range i = r /\ n_val i = d /\ tree m' ≡ₚ i :: tree m
                /\ forall n, n ∈ tree m -> clash r (n_range n) = false
    | None => tree m' = tree m /\ exists n, n ∈ tree m /\ clash r (n_range n) = true
    end.
Proof.
  intros Hm Hr Hcmp. unfold insert, intersects_range.
  destruct (find_spec mx (intersects r) (clash r) r m Hm) as (o & m' & -> & Hm' & Ht & Hfr & Ho).
  - intros n Hn. by apply intersects_clash, Hcmp.
  - intros n Hn Hc. eapply clash_position; eauto.
  - destruct o as [n|]; cbn [mbind res_bind].
    { exists None, m'. split_and!; [done..|]. by exists n. }
    pose proof Hm' as [Hs Hrs Hid Hfresh Hca Hbd].
    destruct (tree_insert_spec (mkNode (fresh_id m') r d) (tree m')) as (t' & -> & Hp & Hs'); [done|by constructor| |].
    { intros x Hx. rewrite Ht in Hx. rewrite Forall_forall in Hrs.
      apply clash_false; [by apply Hcmp|done|apply Hrs; by rewrite Ht|by apply Ho]. }
    exists (Some (mkNode (fresh_id m') r d)), (mkMap t' (cache m') (S (fresh_id m'))).
    split_and!; [done| |done..|by rewrite <- Ht|done].
    split; simpl; try done.
    + rewrite Hp. by constructor.
    + assert (map n_id t' ≡ₚ map n_id (mkNode (fresh_id m') r d :: tree m')) as -> by (by apply Permutation_map).
      simpl. constructor; [|done]. intros (n & Hn & Hin)%list_elem_of_fmap. rewrite Forall_forall in Hfresh.
      apply Hfresh in Hin. lia.
    + rewrite Hp. constructor; simpl; [lia|]. eapply Forall_impl; [exact Hfresh|]. simpl. intros; lia.
    + eapply Forall_impl; [exact Hca|]. intros it (n & -> & Hn)%list_elem_of_fmap.
      apply list_elem_of_fmap. exists n. split; [done|]. rewrite Hp. by right.
Qed.

Lemma empty_map_wf {V} mx : map_wf mx (empty_map : AddrRangeMap V).
Proof. split; simpl; try constructor. lia. Qed.

Lemma erase_wf {V} mx p (m : AddrRangeMap V) : map_wf mx m -> map_wf mx (erase p m).
Proof.
  intros [Hs Hr Hid Hf Hc Hb]. split; simpl.
  - clear -Hs. induction Hs as [|x t Hs IH Hx]; [constructor|]. rewrite filter_cons. case_decide; [|done].
    constructor; [done|]. by apply Forall_filter_keep.
  - by apply Forall_filter_keep.
  - clear -Hid. induction (tree m) as [|x t IH]; simpl in *; [constructor|].
    apply NoDup_cons in Hid as [Hn Hid]. rewrite filter_cons. case_decide; [|by apply IH].
    simpl. constructor; [|by apply IH]. intros (y & Hy & Hin)%list_elem_of_fmap. apply Hn.
    apply list_elem_of_fmap. exists y. split; [done|]. by apply list_elem_of_filter in Hin as [_ ?].
  - by apply Forall_filter_keep.
  - apply Forall_forall. intros it [Hne Hit]%list_elem_of_filter. rewrite Forall_forall in Hc.
    apply Hc in Hit as (n & -> & Hn)%list_elem_of_fmap. apply list_elem_of_fmap. exists n.
    split; [done|]. by apply list_elem_of_filter.
  - etrans; [apply length_filter|done].
Qed.

(** ** Claims *)

(** Address decoding is right.  In a well-formed map, looking up an address
    returns the one entry whose range contains it, and [end()] when there is
    none; the lookup leaves the entries as they are, its cache valid and within
    its size.  (The address must not be the start of a stripe with match value
    2 or more, see [armap_misses_start].) *)
Theorem armap_contains {V} mx (m : AddrRangeMap V) a :
  map_wf mx m -> 0 <= a < 2 ^ 64 - 1 ->
  (forall n, n ∈ tree m -> interleaved (n_range n) = true -> is_ok (granularity (n_range n)) = true) ->
  (forall n, n ∈ tree m -> contains (n_range n) a = true ->
     ar_start (n_range n) < a \/ ar_match (n_range n) <= 1) ->
  exists o m', contains_addr mx a m = Ok (o, m') /\ map_wf mx m' /\ tree m' = tree m /\
    match o with
    | Some n => n ∈ tree m /\ contains (n_range n) a = true
                /\ forall n', n' ∈ tree m -> contains (n_range n') a = true -> n' = n
    | None => forall n, n ∈ tree m -> contains (n_range n) a = false
    end.
Proof.
  intros Hm Ha Hg Hst. destruct (find_contains mx m a Hm Ha Hg Hst) as (o & m' & Hf & Hm' & Ht & _ & Ho).
  exists o, m'. split_and!; [done..|]. destruct o as [n|]; [|done]. destruct Ho as [Hn Hc].
  split_and!; [done..|]. intros n' Hn' Hc'. by apply (wf_unique mx m a).
Qed.

Definition demo_map : AddrRangeMap nat :=
  mkMap [mkNode 0 (RangeEx 0 0x1000) 7%nat; mkNode 1 (RangeEx 0x2000 0x3000) 8%nat] [1%nat] 2.

Lemma demo_map_wf : map_wf 2 demo_map.
Proof.
  assert (range_ok (RangeEx 0 0x1000) /\ range_ok (RangeEx 0x2000 0x3000)) as [H0 H1].
  { split; (split; [split; simpl; [lia|lia|constructor]|simpl; lia]). }
  split; simpl.
  - constructor; [by do 2 constructor|]. constructor; [left; simpl; lia|constructor].
  - constructor; [exact H0|]. constructor; [exact H1|constructor].
  - apply NoDup_cons; split; [set_solver|]. apply NoDup_singleton.
  - constructor; [simpl; lia|]. constructor; [simpl; lia|constructor].
  - constructor; [set_solver|constructor].
  - lia.
Qed.

Lemma armap_contains_witness :
  exists o m', contains_addr 2 0x10 demo_map = Ok (o, m') /\ map_wf 2 m' /\ tree m' = tree demo_map /\
    match o with
    | Some n => n ∈ tree demo_map /\ contains (n_range n) 0x10 = true
                /\ forall n', n' ∈ tree demo_map -> contains (n_range n') 0x10 = true -> n' = n
    | None => forall n, n ∈ tree demo_map -> contains (n_range n) 0x10 = false
    end.
Proof.
  apply (armap_contains 2 demo_map 0x10); [apply demo_map_wf|lia|..]; simpl.
  - intros n Hn. repeat (apply elem_of_cons in Hn as [->|Hn]); [done..|set_solver].
  - intros n Hn. repeat (apply elem_of_cons in Hn as [->|Hn]); [simpl; lia..|set_solver].
Defined.

(** Insertion keeps the map well formed.  For a non-empty range the
    existing ones can be compared with, [insert] adds the entry exactly when it
    overlaps none of them (or only merges with stripes of other match values),
    and otherwise returns [end()] and adds nothing. *)
Theorem armap_insert {V} mx (m : AddrRangeMap V) r d :
  map_wf mx m -> range_ok r -> (forall n, n ∈ tree m -> comparable r (n_range n)) ->
  exists o m', insert mx r d m = Ok (o, m') /\ map_wf mx m' /\
    match o with
    | Some i => n_range i = r /\ n_val i = d /\ tree m' ≡ₚ i :: tree m
                /\ forall n, n ∈ tree m -> clash r (n_range n) = false
    | None => tree m' = tree m /\ exists n, n ∈ tree m /\ clash r (n_range n) = true
    end.
Proof. apply insert_spec. Qed.

Lemma armap_insert_witness :
  exists o m', insert 2 (RangeEx 0x1000 0x1800) 9%nat demo_map = Ok (o, m') /\ map_wf 2 m' /\
    match o with
    | Some i => n_range i = RangeEx 0x1000 0x1800 /\ n_val i = 9%nat /\ tree m' ≡ₚ i :: tree demo_map
                /\ forall n, n ∈ tree demo_map -> clash (RangeEx 0x1000 0x1800) (n_range n) = false
    | None => tree m' = tree demo_map
              /\ exists n, n ∈ tree demo_map /\ clash (RangeEx 0x1000 0x1800) (n_range n) = true
    end.
Proof.
  apply (armap_insert 2 demo_map (RangeEx 0x1000 0x1800) 9%nat); [apply demo_map_wf|..].
  - split; [split; simpl; [lia|lia|constructor]|simpl; lia].
  - intros n Hn. simpl in Hn. repeat (apply elem_of_cons in Hn as [->|Hn]); [| |set_solver];
      right; left; done.
Defined.

(** ** What goes wrong *)

(** Four stripes of [0x200, 0x1000) interleaved on address bits 8 and 9: the
    address 0x200 belongs to stripe 2, but [upper_bound] leads the search to
    stripe 1 and then back to stripe 0. *)
Definition stripe_map : res (AddrRangeMap nat) :=
  let st k := mkAddrRange 0x200 0x1000 [0x100; 0x200] k in
  '(_, m) ← insert 0 (st 0) 0%nat empty_map; '(_, m) ← insert 0 (st 1) 1%nat m;
  '(_, m) ← insert 0 (st 2) 2%nat m; '(_, m) ← insert 0 (st 3) 3%nat m; Ok m.

Theorem armap_misses_start :
  (m ← stripe_map; '(o, _) ← contains_addr 0 0x200 m; Ok (option_map n_val o)) = Ok None
  /\ contains (mkAddrRange 0x200 0x1000 [0x100; 0x200] 2) 0x200 = true
  /\ (m ← stripe_map; '(o, _) ← contains_addr 0 0x201 m; Ok (option_map n_val o)) = Ok (Some 2%nat).
Proof. split_and!; vm_compute; reflexivity. Qed.

(** [erase(p, q)] removes only [p] from the cache: an entry erased with it stays
    cached, and the next lookup dereferences an invalid iterator. *)
Theorem armap_erase_range_dangles :
  ~ map_wf 2 (erase_range 0 None demo_map)
  /\ contains_addr 2 0x10 (erase_range 0 None demo_map) = Err (EUndefined "invalid iterator").
Proof.
  split; [|reflexivity]. intros [_ _ _ _ Hc _]. vm_compute in Hc.
  apply Forall_cons in Hc as [Hc _]. set_solver.
Qed.
