(* ===== verification/SatCounter.v ===== *)
(** * Saturating counters (base/sat_counter.hh) *)

From S2P Require Import Prelude.

Record SatCounter := mkSat { initialVal : Z; maxVal : Z; counter : Z }.

#[global] Instance SatCounter_eq_dec : EqDecision SatCounter.
Proof. solve_decision. Defined.

Definition set_counter (c : SatCounter) (v : Z) : SatCounter := mkSat (initialVal c) (maxVal c) v.

(** [SatCounter(bits, initial_val)]: [maxVal] is a [uint8_t]. *)
Definition new_SatCounter (bits initial_val : Z) : res SatCounter :=
  if 31 <=? bits then Err (EUndefined "shift of an int by 31 or more")
  else if 8 <? bits then Err (EFatal "Number of bits exceeds counter size")
  else let m := u8 (Z.shiftl 1 bits - 1) in
       if m <? initial_val then Err (EFatal "Initial value exceeds max value")
       else Ok (mkSat initial_val m initial_val).

(** Moving out of a counter leaves a counter of no bits behind. *)
Definition move_SatCounter (other : SatCounter) : SatCounter * SatCounter := (other, mkSat 0 0 0).
Definition swap_SatCounter (a b : SatCounter) : SatCounter * SatCounter := (b, a).

Definition pre_incr (c : SatCounter) : SatCounter :=
  if counter c <? maxVal c then set_counter c (u8 (counter c + 1)) else c.
Definition post_incr (c : SatCounter) : SatCounter * SatCounter := (c, pre_incr c).
Definition pre_decr (c : SatCounter) : SatCounter :=
  if 0 <? counter c then set_counter c (u8 (counter c - 1)) else c.
Definition post_decr (c : SatCounter) : SatCounter * SatCounter := (c, pre_decr c).

(** The shifts work on the promoted [int] and truncate the result to 8 bits. *)
Definition shr (c : SatCounter) (shift : Z) : res SatCounter :=
  if shift <? 0 then Err (EAssert "shift >= 0")
  else if 32 <=? shift then Err (EUndefined "shift count")
  else Ok (set_counter c (u8 (Z.shiftr (counter c) shift))).
Definition shl (c : SatCounter) (shift : Z) : res SatCounter :=
  if shift <? 0 then Err (EAssert "shift >= 0")
  else if (32 <=? shift) || (2 ^ 31 <=? Z.shiftl (counter c) shift) then Err (EUndefined "shift")
  else let v := u8 (Z.shiftl (counter c) shift) in
       Ok (set_counter c (if maxVal c <? v then maxVal c else v)).

(** [+=] and [-=] for a value that is not negative. *)
Definition add_nonneg (c : SatCounter) (value : Z) : SatCounter :=
  if value <=? maxVal c - counter c then set_counter c (u8 (counter c + value))
  else set_counter c (maxVal c).
Definition sub_nonneg (c : SatCounter) (value : Z) : SatCounter :=
  if value <? counter c then set_counter c (u8 (counter c - value)) else set_counter c 0.

(** A negative value is negated; the negation of [INT_MIN] is undefined. *)
Definition add_assign (c : SatCounter) (value : Z) : res SatCounter :=
  if 0 <=? value then Ok (add_nonneg c value)
  else if value =? - 2 ^ 31 then Err (EUndefined "negation of INT_MIN")
  else Ok (sub_nonneg c (- value)).
Definition sub_assign (c : SatCounter) (value : Z) : res SatCounter :=
  if 0 <=? value then Ok (sub_nonneg c value)
  else if value =? - 2 ^ 31 then Err (EUndefined "negation of INT_MIN")
  else Ok (add_nonneg c (- value)).

Definition reset (c : SatCounter) : SatCounter := set_counter c (initialVal c).
Definition isSaturated (c : SatCounter) : bool := counter c =? maxVal c.
Definition saturate (c : SatCounter) : Z * SatCounter :=
  (u8 (maxVal c - counter c), set_counter c (maxVal c)).

(** ** Correctness *)

Record sat_ok (c : SatCounter) : Prop := {
  so_max : 0 <= maxVal c < 2 ^ 8;
  so_init : 0 <= initialVal c <= maxVal c;
  so_counter : 0 <= counter c <= maxVal c
}.

(** Clamping to the counter's range. *)
Definition clamp (c : SatCounter) (v : Z) : Z := Z.max 0 (Z.min (maxVal c) v).

Lemma new_SatCounter_ok bits v c :
  0 <= bits -> 0 <= v -> new_SatCounter bits v = Ok c -> sat_ok c /\ maxVal c = 2 ^ bits - 1 /\ counter c = v.
Proof.
  intros Hb Hv. unfold new_SatCounter.
  destruct (Z.leb_spec 31 bits); [done|]. destruct (Z.ltb_spec 8 bits); [done|].
  assert (0 < 2 ^ bits <= 2 ^ 8) by (split; [lia|apply Z.pow_le_mono_r; lia]).
  rewrite Z.shiftl_1_l, u8_small by lia. cbv zeta. destruct (Z.ltb_spec (2 ^ bits - 1) v); [done|].
  intros [= <-]. split; [split; simpl; lia|done].
Qed.

Lemma set_counter_ok c v : sat_ok c -> 0 <= v <= maxVal c -> sat_ok (set_counter c v).
Proof. intros [Hm Hi _] Hv. by split. Qed.

Lemma add_nonneg_spec c v : sat_ok c -> 0 <= v -> add_nonneg c v = set_counter c (clamp c (counter c + v)).
Proof.
  intros [Hm Hi Hc] Hv. unfold add_nonneg, clamp. destruct (Z.leb_spec v (maxVal c - counter c)).
  - rewrite u8_small by lia. f_equal. lia.
  - f_equal. lia.
Qed.

Lemma sub_nonneg_spec c v : sat_ok c -> 0 <= v -> sub_nonneg c v = set_counter c (clamp c (counter c - v)).
Proof.
  intros [Hm Hi Hc] Hv. unfold sub_nonneg, clamp. destruct (Z.ltb_spec v (counter c)).
  - rewrite u8_small by lia. f_equal. lia.
  - f_equal. lia.
Qed.

(** C39: a saturating counter does saturating arithmetic: on a counter made by
    the constructor, [++], [--], [+=] and [-=] set the value to the clamped sum
    or difference, and each of them, [reset] and [saturate] keep it in range;
    [saturate] returns what was missing to the maximum. *)
Theorem satcounter_arithmetic c v :
  sat_ok c -> - 2 ^ 31 < v < 2 ^ 31 ->
  add_assign c v = Ok (set_counter c (clamp c (counter c + v)))
  /\ sub_assign c v = Ok (set_counter c (clamp c (counter c - v)))
  /\ pre_incr c = set_counter c (clamp c (counter c + 1))
  /\ pre_decr c = set_counter c (clamp c (counter c - 1))
  /\ sat_ok (set_counter c (clamp c v)) /\ sat_ok (reset c)
  /\ (let '(diff, c') := saturate c in
      sat_ok c' /\ counter c' = counter c + diff /\ isSaturated c' = true).
Proof.
  intros Hc Hv. pose proof Hc as [Hm Hi Hco]. split_and!.
  - unfold add_assign. destruct (Z.leb_spec 0 v); [by rewrite add_nonneg_spec|].
    rewrite (proj2 (Z.eqb_neq v (- 2 ^ 31))), sub_nonneg_spec by (done || lia). do 3 f_equal. lia.
  - unfold sub_assign. destruct (Z.leb_spec 0 v); [by rewrite sub_nonneg_spec|].
    rewrite (proj2 (Z.eqb_neq v (- 2 ^ 31))), add_nonneg_spec by (done || lia). do 3 f_equal.
  - unfold pre_incr, clamp. destruct (Z.ltb_spec (counter c) (maxVal c)).
    + rewrite u8_small by lia. f_equal. lia.
    + destruct c; unfold set_counter; simpl in *. f_equal. lia.
  - unfold pre_decr, clamp. destruct (Z.ltb_spec 0 (counter c)).
    + rewrite u8_small by lia. f_equal. lia.
    + destruct c; unfold set_counter; simpl in *. f_equal. lia.
  - apply set_counter_ok; [done|]. unfold clamp. lia.
  - by apply set_counter_ok.
  - unfold saturate, isSaturated. rewrite u8_small by lia. split_and!; simpl; [|lia|by rewrite Z.eqb_refl].
    apply set_counter_ok; [done|lia].
Qed.

Lemma satcounter_arithmetic_witness :
  exists c, new_SatCounter 2 1 = Ok c /\ add_assign c 5 = Ok (set_counter c (clamp c (counter c + 5))).
Proof.
  exists (mkSat 1 3 1). split; [reflexivity|].
  apply (satcounter_arithmetic (mkSat 1 3 1) 5); [|lia]. split; simpl; lia.
Defined.

(** [<<=] saturates only while the shifted value still fits in 8 bits: the
    shift is truncated to [uint8_t] before it is compared with the maximum. *)
Lemma shl_spec c shift :
  sat_ok c -> 0 <= shift < 23 ->
  shl c shift = Ok (set_counter c (Z.min (maxVal c) ((counter c * 2 ^ shift) mod 2 ^ 8))).
Proof.
  intros [Hm Hi Hc] Hs. unfold shl.
  assert (2 ^ shift <= 2 ^ 22) by (apply Z.pow_le_mono_r; lia).
  assert (0 < 2 ^ shift) by lia.
  rewrite (proj2 (Z.ltb_ge shift 0)), (proj2 (Z.leb_gt 32 shift)), Z.shiftl_mul_pow2 by lia.
  rewrite (proj2 (Z.leb_gt _ _)) by nia. simpl. unfold u8, wrap. do 2 f_equal.
  destruct (Z.ltb_spec (maxVal c) ((counter c * 2 ^ shift) mod 2 ^ 8)); lia.
Qed.

(** An 8-bit counter at 200 shifted left by one drops to 144, and a 7-bit
    counter at 64 shifted by two drops to zero, instead of saturating. *)
Theorem shl_does_not_saturate :
  (c ← new_SatCounter 8 200; c' ← shl c 1; Ok (counter c', isSaturated c')) = Ok (144, false)
  /\ (c ← new_SatCounter 7 64; c' ← shl c 2; Ok (counter c')) = Ok 0.
Proof. split; reflexivity. Qed.
