(* ===== verification/ReplPolicy.v ===== *)
(** * Cache replacement policies (mem/cache/replacement_policies)

    Every policy keeps a record of replacement data per entry.  The entries are
    numbered; [gmap nat D] is the store of their replacement data, and a list of
    numbers is the vector of candidates.  [now] is [curTick()] and [rnd] what
    the random generator draws. *)

From S2P Require Import Prelude SatCounter.

Abbreviation Store D := (gmap nat D).

(** [BaseReplacementPolicy]: the interface of base.hh. *)
Class BaseReplacementPolicy (D : Type) := {
  rp_instantiateEntry : res D;
  rp_invalidate : D -> D;
  rp_touch : Z -> D -> D;
  rp_reset : Z -> Z -> D -> D;
  rp_getVictim : Z -> Z -> list nat -> M (Store D) nat
}.

Definition repl_data {D} (c : nat) : M (Store D) D :=
  s ← get; match s !! c with Some d => mret d | None => throw (EUndefined "no replacement data") end.
Definition set_data {D} (c : nat) (d : D) : M (Store D) unit := modify (<[c := d]>).

(** The loop of the policies that keep the best candidate seen so far. *)
Fixpoint best {D} (better : D -> D -> bool) (victim : nat) (candidates : list nat) : M (Store D) nat :=
  match candidates with
  | [] => mret victim
  | candidate :: rest =>
      c ← repl_data candidate;
      v ← repl_data victim;
      best better (if better c v then candidate else victim) rest
  end.

Definition visit {D} (better : D -> D -> bool) (candidates : list nat) : M (Store D) nat :=
  match candidates with
  | [] => throw (EAssert "candidates.size() > 0")
  | c0 :: _ => best better c0 candidates
  end.

Module LRU.
Record LRUReplData := mkLRU { lastTouchTick : Z }.
Definition instantiateEntry : res LRUReplData := Ok (mkLRU 0).
Definition invalidate (d : LRUReplData) : LRUReplData := mkLRU 0.
Definition touch (now : Z) (d : LRUReplData) : LRUReplData := mkLRU now.
Definition reset (now rnd : Z) (d : LRUReplData) : LRUReplData := mkLRU now.
Definition older (c v : LRUReplData) : bool := lastTouchTick c <? lastTouchTick v.
Definition getVictim (now rnd : Z) : list nat -> M (Store LRUReplData) nat := visit older.
End LRU.

Module BIP.
Definition reset (btp now rnd : Z) (d : LRU.LRUReplData) : LRU.LRUReplData :=
  if rnd <=? btp then LRU.mkLRU now else LRU.mkLRU 1.
End BIP.

Module FIFO.
Record FIFOReplData := mkFIFO { tickInserted : Z }.
Definition instantiateEntry : res FIFOReplData := Ok (mkFIFO 0).
Definition invalidate (d : FIFOReplData) : FIFOReplData := mkFIFO 0.
Definition touch (now : Z) (d : FIFOReplData) : FIFOReplData := d.
Definition reset (now rnd : Z) (d : FIFOReplData) : FIFOReplData := mkFIFO now.
Definition older (c v : FIFOReplData) : bool := tickInserted c <? tickInserted v.
Definition getVictim (now rnd : Z) : list nat -> M (Store FIFOReplData) nat := visit older.
End FIFO.

Module LFU.
Record LFUReplData := mkLFU { refCount : Z }.
Definition instantiateEntry : res LFUReplData := Ok (mkLFU 0).
Definition invalidate (d : LFUReplData) : LFUReplData := mkLFU 0.
Definition touch (now : Z) (d : LFUReplData) : LFUReplData := mkLFU (u32 (refCount d + 1)).
Definition reset (now rnd : Z) (d : LFUReplData) : LFUReplData := mkLFU 1.
Definition rarer (c v : LFUReplData) : bool := refCount c <? refCount v.
Definition getVictim (now rnd : Z) : list nat -> M (Store LFUReplData) nat := visit rarer.
End LFU.

Module WeightedLRU.
Record WeightedLRUReplData := mkWLRU { last_occ_ptr : Z; last_touch_tick : Z }.
Definition instantiateEntry : res WeightedLRUReplData := Ok (mkWLRU 0 0).
Definition invalidate (d : WeightedLRUReplData) : WeightedLRUReplData := mkWLRU (last_occ_ptr d) 0.
Definition touch (now : Z) (d : WeightedLRUReplData) : WeightedLRUReplData := mkWLRU (last_occ_ptr d) now.
Definition touch_occupancy (now occupancy : Z) (d : WeightedLRUReplData) : WeightedLRUReplData :=
  mkWLRU occupancy now.
Definition reset (now rnd : Z) (d : WeightedLRUReplData) : WeightedLRUReplData := mkWLRU (last_occ_ptr d) now.
Definition lighter (c v : WeightedLRUReplData) : bool :=
  if last_occ_ptr c <? last_occ_ptr v then true
  else if last_occ_ptr c =? last_occ_ptr v then last_touch_tick c <? last_touch_tick v
  else false.
Definition getVictim (now rnd : Z) : list nat -> M (Store WeightedLRUReplData) nat := visit lighter.
End WeightedLRU.

Module MRU.
Record MRUReplData := mkMRU { lastTouchTick : Z }.
Definition instantiateEntry : res MRUReplData := Ok (mkMRU 0).
Definition invalidate (d : MRUReplData) : MRUReplData := mkMRU 0.
Definition touch (now : Z) (d : MRUReplData) : MRUReplData := mkMRU now.
Definition reset (now rnd : Z) (d : MRUReplData) : MRUReplData := mkMRU now.
(** The loop stops at an entry that was never touched. *)
Fixpoint newest (victim : nat) (candidates : list nat) : M (Store MRUReplData) nat :=
  match candidates with
  | [] => mret victim
  | candidate :: rest =>
      c ← repl_data candidate;
      if lastTouchTick c =? 0 then mret candidate
      else v ← repl_data victim;
           newest (if lastTouchTick v <? lastTouchTick c then candidate else victim) rest
  end.
Definition getVictim (now rnd : Z) (candidates : list nat) : M (Store MRUReplData) nat :=
  match candidates with
  | [] => throw (EAssert "candidates.size() > 0")
  | c0 :: _ => newest c0 candidates
  end.
End MRU.

Module RandomRP.
Record RandomReplData := mkRandom { valid : bool }.
Definition instantiateEntry : res RandomReplData := Ok (mkRandom false).
Definition invalidate (d : RandomReplData) : RandomReplData := mkRandom false.
Definition touch (now : Z) (d : RandomReplData) : RandomReplData := d.
Definition reset (now rnd : Z) (d : RandomReplData) : RandomReplData := mkRandom true.
Fixpoint first_invalid (victim : nat) (candidates : list nat) : M (Store RandomReplData) nat :=
  match candidates with
  | [] => mret victim
  | candidate :: rest =>
      c ← repl_data candidate;
      if valid c then first_invalid victim rest else mret candidate
  end.
(** [rnd] is the index drawn between 0 and [size() - 1]. *)
Definition getVictim (now rnd : Z) (candidates : list nat) : M (Store RandomReplData) nat :=
  match candidates !! Z.to_nat (rnd mod Z.of_nat (length candidates)) with
  | None => throw (EAssert "candidates.size() > 0")
  | Some victim => first_invalid victim candidates
  end.
End RandomRP.

Module BRRIP.
Record BRRIPReplData := mkBRRIP { rrpv : SatCounter; valid : bool }.
(** The constructor refuses policies without bits. *)
Definition instantiateEntry (numRRPVBits : Z) : res BRRIPReplData :=
  if numRRPVBits <=? 0 then Err (EFatal "There should be at least one bit per RRPV.")
  else c ← new_SatCounter numRRPVBits 0; Ok (mkBRRIP c false).
Definition invalidate (d : BRRIPReplData) : BRRIPReplData := mkBRRIP (rrpv d) false.
Definition touch (hitPriority : bool) (now : Z) (d : BRRIPReplData) : BRRIPReplData :=
  mkBRRIP (if hitPriority then SatCounter.reset (rrpv d) else pre_decr (rrpv d)) (valid d).
Definition reset (btp now rnd : Z) (d : BRRIPReplData) : BRRIPReplData :=
  let c := snd (saturate (rrpv d)) in
  mkBRRIP (if rnd <=? btp then pre_decr c else c) true.

(** The search loop: an invalid entry, or the first with the highest RRPV. *)
Fixpoint search (victim : nat) (victim_RRPV : Z) (candidates : list nat)
    : M (Store BRRIPReplData) (nat * bool) :=
  match candidates with
  | [] => mret (victim, true)
  | candidate :: rest =>
      c ← repl_data candidate;
      if negb (valid c) then mret (candidate, false)
      else if victim_RRPV <? counter (rrpv c)
           then search candidate (counter (rrpv c)) rest
           else search victim victim_RRPV rest
  end.

Definition age (diff : Z) (candidate : nat) : M (Store BRRIPReplData) unit :=
  c ← repl_data candidate;
  r ← lift (add_assign (rrpv c) diff);
  set_data candidate (mkBRRIP r (valid c)).

Definition getVictim (now rnd : Z) (candidates : list nat) : M (Store BRRIPReplData) nat :=
  match candidates with
  | [] => throw (EAssert "candidates.size() > 0")
  | c0 :: _ =>
      d0 ← repl_data c0;
      '(victim, all_valid) ← search c0 (counter (rrpv d0)) candidates;
      if negb all_valid then mret victim
      else
        v ← repl_data victim;
        let '(diff, r) := saturate (rrpv v) in
        set_data victim (mkBRRIP r (valid v));;
        when_ (0 <? diff) (forM_ candidates (age diff));;
        mret victim
  end.
End BRRIP.

Module SecondChance.
Record SecondChanceReplData := mkSC { tickInserted : Z; hasSecondChance : bool }.
Definition instantiateEntry : res SecondChanceReplData := Ok (mkSC 0 false).
Definition useSecondChance (now : Z) (d : SecondChanceReplData) : SecondChanceReplData := mkSC now false.
Definition invalidate (d : SecondChanceReplData) : SecondChanceReplData := mkSC 0 false.
Definition touch (now : Z) (d : SecondChanceReplData) : SecondChanceReplData := mkSC (tickInserted d) true.
Definition reset (now rnd : Z) (d : SecondChanceReplData) : SecondChanceReplData := mkSC now false.
Definition older (c v : SecondChanceReplData) : bool := tickInserted c <? tickInserted v.

Fixpoint find_invalid (candidates : list nat) : M (Store SecondChanceReplData) (option nat) :=
  match candidates with
  | [] => mret None
  | candidate :: rest =>
      c ← repl_data candidate;
      if (tickInserted c =? 0) && negb (hasSecondChance c) then mret (Some candidate)
      else find_invalid rest
  end.

(** [while (search_victim)]: FIFO searches until the victim has no second chance. *)
Fixpoint search_victim (fuel : nat) (now : Z) (candidates : list nat) : M (Store SecondChanceReplData) nat :=
  match fuel with
  | O => throw EFuel
  | S fuel' =>
      victim ← visit older candidates;
      v ← repl_data victim;
      if hasSecondChance v
      then set_data victim (useSecondChance now v);; search_victim fuel' now candidates
      else mret victim
  end.

Definition getVictim (now rnd : Z) (candidates : list nat) : M (Store SecondChanceReplData) nat :=
  match candidates with
  | [] => throw (EAssert "candidates.size() > 0")
  | _ :: _ =>
      o ← find_invalid candidates;
      match o with
      | Some candidate => mret candidate
      | None => search_victim (S (length candidates)) now candidates
      end
  end.
End SecondChance.

#[global] Instance LRU_policy : BaseReplacementPolicy LRU.LRUReplData :=
  { rp_instantiateEntry := LRU.instantiateEntry; rp_invalidate := LRU.invalidate; rp_touch := LRU.touch;
    rp_reset := LRU.reset; rp_getVictim := LRU.getVictim }.
Definition BIP_policy (btp : Z) : BaseReplacementPolicy LRU.LRUReplData :=
  {| rp_instantiateEntry := LRU.instantiateEntry; rp_invalidate := LRU.invalidate; rp_touch := LRU.touch;
     rp_reset := BIP.reset btp; rp_getVictim := LRU.getVictim |}.
#[global] Instance FIFO_policy : BaseReplacementPolicy FIFO.FIFOReplData :=
  { rp_instantiateEntry := FIFO.instantiateEntry; rp_invalidate := FIFO.invalidate; rp_touch := FIFO.touch;
    rp_reset := FIFO.reset; rp_getVictim := FIFO.getVictim }.
#[global] Instance LFU_policy : BaseReplacementPolicy LFU.LFUReplData :=
  { rp_instantiateEntry := LFU.instantiateEntry; rp_invalidate := LFU.invalidate; rp_touch := LFU.touch;
    rp_reset := LFU.reset; rp_getVictim := LFU.getVictim }.
#[global] Instance WeightedLRU_policy : BaseReplacementPolicy WeightedLRU.WeightedLRUReplData :=
  { rp_instantiateEntry := WeightedLRU.instantiateEntry; rp_invalidate := WeightedLRU.invalidate;
    rp_touch := WeightedLRU.touch; rp_reset := WeightedLRU.reset; rp_getVictim := WeightedLRU.getVictim }.
#[global] Instance MRU_policy : BaseReplacementPolicy MRU.MRUReplData :=
  { rp_instantiateEntry := MRU.instantiateEntry; rp_invalidate := MRU.invalidate; rp_touch := MRU.touch;
    rp_reset := MRU.reset; rp_getVictim := MRU.getVictim }.
#[global] Instance Random_policy : BaseReplacementPolicy RandomRP.RandomReplData :=
  { rp_instantiateEntry := RandomRP.instantiateEntry; rp_invalidate := RandomRP.invalidate;
    rp_touch := RandomRP.touch; rp_reset := RandomRP.reset; rp_getVictim := RandomRP.getVictim }.
Definition BRRIP_policy (numRRPVBits : Z) (hitPriority : bool) (btp : Z)
    : BaseReplacementPolicy BRRIP.BRRIPReplData :=
  {| rp_instantiateEntry := BRRIP.instantiateEntry numRRPVBits; rp_invalidate := BRRIP.invalidate;
     rp_touch := BRRIP.touch hitPriority; rp_reset := BRRIP.reset btp; rp_getVictim := BRRIP.getVictim |}.
#[global] Instance SecondChance_policy : BaseReplacementPolicy SecondChance.SecondChanceReplData :=
  { rp_instantiateEntry := SecondChance.instantiateEntry; rp_invalidate := SecondChance.invalidate;
    rp_touch := SecondChance.touch; rp_reset := SecondChance.reset; rp_getVictim := SecondChance.getVictim }.
