(* ===== verification/ReplPolicyProps.v ===== *)
(** * Correctness of the replacement policies: every policy evicts one of the
    candidates, and the one its description promises. *)

From S2P Require Import Prelude SatCounter ReplPolicy.

(** ** The contract of a policy *)

Definition instantiated {D} (s : Store D) (candidates : list nat) : Prop :=
  candidates <> [] /\ (forall c, c ∈ candidates -> is_Some (s !! c)) /\ NoDup candidates.

(** [ok] is what a policy maintains of the data of an entry. *)
Class LawfulPolicy {D} (P : BaseReplacementPolicy D) (ok : D -> Prop) : Prop := {
  lp_new d : rp_instantiateEntry = Ok d -> ok d;
  lp_invalidate d : ok d -> ok (rp_invalidate d);
  lp_touch now d : ok d -> ok (rp_touch now d);
  lp_reset now rnd d : ok d -> ok (rp_reset now rnd d);
  lp_getVictim now rnd candidates s :
    instantiated s candidates -> map_Forall (fun _ d => ok d) s ->
    exists v s', rp_getVictim now rnd candidates s = Ok (v, s') /\ v ∈ candidates
      /\ dom s' = dom s /\ map_Forall (fun _ d => ok d) s'
}.

Lemma repl_data_run {D} (s : Store D) c d : s !! c = Some d -> repl_data c s = Ok (d, s).
Proof. intros Hc. unfold repl_data, mbind, M_bind, get. by rewrite Hc. Qed.

(** ** Policies that keep the best candidate *)

Section Best.
Context {D : Type} (better : D -> D -> bool).
(** [better] compares by some key. *)
Context (Hirr : forall a, better a a = false).
Context (Htrans : forall a b c, better a b = false -> better b c = false -> better a c = false).
Context (Hasym : forall a b, better a b = true -> better b a = false).

Lemma best_spec s cands victim dv :
  s !! victim = Some dv -> (forall c, c ∈ cands -> is_Some (s !! c)) ->
  exists v d, best better victim cands s = Ok (v, s) /\ v ∈ victim :: cands /\ s !! v = Some d
    /\ better dv d = false /\ forall c dc, c ∈ cands -> s !! c = Some dc -> better dc d = false.
Proof.
  revert victim dv. induction cands as [|c cands IH]; intros victim dv Hv Hc; simpl.
  { exists victim, dv. split_and!; [done|set_solver|done|apply Hirr|set_solver]. }
  destruct (Hc c) as [dc Hdc]; [set_solver|].
  rewrite (bind_run _ _ _ _ _ (repl_data_run _ _ _ Hdc)), (bind_run _ _ _ _ _ (repl_data_run _ _ _ Hv)).
  destruct (better dc dv) eqn:E.
  - destruct (IH c dc Hdc) as (v & d & Hb & Hin & Hd & Hbd & Hall); [set_solver|].
    exists v, d. split_and!; [done|set_solver|done|eauto|].
    intros c' dc' [->|Hc']%elem_of_cons Hl; [congruence|eauto].
  - destruct (IH victim dv Hv) as (v & d & Hb & Hin & Hd & Hbd & Hall); [set_solver|].
    exists v, d. split_and!; [done|set_solver|done|done|].
    intros c' dc' [->|Hc']%elem_of_cons Hl; [|eauto]. simplify_eq. eauto.
Qed.

Lemma visit_spec s cands :
  instantiated s cands ->
  exists v d, visit better cands s = Ok (v, s) /\ v ∈ cands /\ s !! v = Some d
    /\ forall c dc, c ∈ cands -> s !! c = Some dc -> better dc d = false.
Proof.
  intros (Hne & Hc & _). destruct cands as [|c0 cands]; [done|].
  destruct (Hc c0) as [d0 Hd0]; [set_solver|].
  destruct (best_spec s (c0 :: cands) c0 d0 Hd0 Hc) as (v & d & Hb & Hin & Hd & _ & Hall).
  exists v, d. split_and!; [done|set_solver|done|done].
Qed.

Lemma visit_lawful s cands :
  instantiated s cands -> exists v s', visit better cands s = Ok (v, s') /\ v ∈ cands /\ dom s' = dom s
    /\ s' = s.
Proof. intros H. destruct (visit_spec s cands H) as (v & d & Hv & Hin & _). by exists v, s. Qed.
End Best.

(** A strict comparison of integer keys. *)
Ltac key_order := intros; repeat case_match; rewrite ?Z.ltb_ge, ?Z.ltb_lt, ?Z.eqb_eq, ?Z.eqb_neq in *; try done; lia.

Lemma lru_visit s cands : instantiated s cands ->
  exists v d, visit LRU.older cands s = Ok (v, s) /\ v ∈ cands /\ s !! v = Some d
    /\ forall c dc, c ∈ cands -> s !! c = Some dc -> LRU.older dc d = false.
Proof. apply visit_spec; unfold LRU.older; key_order. Qed.
Lemma fifo_visit s cands : instantiated s cands ->
  exists v d, visit FIFO.older cands s = Ok (v, s) /\ v ∈ cands /\ s !! v = Some d
    /\ forall c dc, c ∈ cands -> s !! c = Some dc -> FIFO.older dc d = false.
Proof. apply visit_spec; unfold FIFO.older; key_order. Qed.
Lemma lfu_visit s cands : instantiated s cands ->
  exists v d, visit LFU.rarer cands s = Ok (v, s) /\ v ∈ cands /\ s !! v = Some d
    /\ forall c dc, c ∈ cands -> s !! c = Some dc -> LFU.rarer dc d = false.
Proof. apply visit_spec; unfold LFU.rarer; key_order. Qed.
Lemma wlru_visit s cands : instantiated s cands ->
  exists v d, visit WeightedLRU.lighter cands s = Ok (v, s) /\ v ∈ cands /\ s !! v = Some d
    /\ forall c dc, c ∈ cands -> s !! c = Some dc -> WeightedLRU.lighter dc d = false.
Proof. apply visit_spec; unfold WeightedLRU.lighter; key_order. Qed.
Lemma sc_visit s cands : instantiated s cands ->
  exists v d, visit SecondChance.older cands s = Ok (v, s) /\ v ∈ cands /\ s !! v = Some d
    /\ forall c dc, c ∈ cands -> s !! c = Some dc -> SecondChance.older dc d = false.
Proof. apply visit_spec; unfold SecondChance.older; key_order. Qed.

#[global] Instance LRU_lawful : LawfulPolicy LRU_policy (fun _ => True).
Proof. split; try done. intros now rnd cands s Hi Hs. destruct (lru_visit s cands Hi) as (v & d & Hv & Hin & _). by exists v, s. Qed.
Lemma BIP_lawful btp : LawfulPolicy (BIP_policy btp) (fun _ => True).
Proof. split; try done. intros now rnd cands s Hi Hs. destruct (lru_visit s cands Hi) as (v & d & Hv & Hin & _). by exists v, s. Qed.
#[global] Instance FIFO_lawful : LawfulPolicy FIFO_policy (fun _ => True).
Proof. split; try done. intros now rnd cands s Hi Hs. destruct (fifo_visit s cands Hi) as (v & d & Hv & Hin & _). by exists v, s. Qed.
#[global] Instance LFU_lawful : LawfulPolicy LFU_policy (fun _ => True).
Proof. split; try done. intros now rnd cands s Hi Hs. destruct (lfu_visit s cands Hi) as (v & d & Hv & Hin & _). by exists v, s. Qed.
#[global] Instance WeightedLRU_lawful : LawfulPolicy WeightedLRU_policy (fun _ => True).
Proof. split; try done. intros now rnd cands s Hi Hs. destruct (wlru_visit s cands Hi) as (v & d & Hv & Hin & _). by exists v, s. Qed.

(** ** MRU and random *)

Lemma mru_newest s cands victim :
  is_Some (s !! victim) -> (forall c, c ∈ cands -> is_Some (s !! c)) ->
  exists v, MRU.newest victim cands s = Ok (v, s) /\ v ∈ victim :: cands.
Proof.
  revert victim. induction cands as [|c cands IH]; intros victim [dv Hv] Hc; simpl.
  { exists victim. split; [done|set_solver]. }
  destruct (Hc c) as [dc Hdc]; [set_solver|].
  rewrite (bind_run _ _ _ _ _ (repl_data_run _ _ _ Hdc)). case_match.
  { exists c. split; [done|set_solver]. }
  rewrite (bind_run _ _ _ _ _ (repl_data_run _ _ _ Hv)). case_match.
  - destruct (IH c) as (v & Hv' & Hin); [done|set_solver|]. exists v. split; [done|set_solver].
  - destruct (IH victim) as (v & Hv' & Hin); [done|set_solver|]. exists v. split; [done|set_solver].
Qed.

#[global] Instance MRU_lawful : LawfulPolicy MRU_policy (fun _ => True).
Proof.
  split; try done. intros now rnd [|c0 cands] s (Hne & Hc & _) Hs; [done|]. simpl. unfold MRU.getVictim.
  destruct (mru_newest s (c0 :: cands) c0) as (v & Hv & Hin); [apply Hc; set_solver|done|].
  exists v, s. split_and!; try done. set_solver.
Qed.

Lemma random_first_invalid s cands victim :
  (forall c, c ∈ cands -> is_Some (s !! c)) ->
  exists v, RandomRP.first_invalid victim cands s = Ok (v, s) /\ v ∈ victim :: cands.
Proof.
  induction cands as [|c cands IH]; intros Hc; simpl.
  { exists victim. split; [done|set_solver]. }
  destruct (Hc c) as [dc Hdc]; [set_solver|].
  rewrite (bind_run _ _ _ _ _ (repl_data_run _ _ _ Hdc)). case_match.
  - destruct IH as (v & Hv & Hin); [set_solver|]. exists v. split; [done|set_solver].
  - exists c. split; [done|set_solver].
Qed.

#[global] Instance Random_lawful : LawfulPolicy Random_policy (fun _ => True).
Proof.
  split; try done. intros now rnd cands s (Hne & Hc & _) Hs. simpl. unfold RandomRP.getVictim.
  assert (0 < length cands)%nat by (destruct cands; simpl; [done|lia]).
  pose proof (Z.mod_pos_bound rnd (Z.of_nat (length cands)) ltac:(lia)).
  destruct (lookup_lt_is_Some_2 cands (Z.to_nat (rnd mod Z.of_nat (length cands)))) as [victim Hv]; [lia|].
  rewrite Hv. destruct (random_first_invalid s cands victim Hc) as (v & Hv' & Hin).
  exists v, s. split_and!; try done. apply list_elem_of_lookup_2 in Hv. set_solver.
Qed.

(** ** BRRIP *)

(** All RRPVs of a policy have the same width. *)
Definition brrip_ok (mx : Z) (d : BRRIP.BRRIPReplData) : Prop :=
  sat_ok (BRRIP.rrpv d) /\ maxVal (BRRIP.rrpv d) = mx.
Abbreviation rrpv_of d := (counter (BRRIP.rrpv d)).

Lemma pre_decr_ok c : sat_ok c -> sat_ok (pre_decr c) /\ maxVal (pre_decr c) = maxVal c.
Proof.
  intros Hc. pose proof Hc as [Hm Hi Hco]. unfold pre_decr. destruct (Z.ltb_spec 0 (counter c)); [|done].
  rewrite u8_small by lia. split; [|done]. by apply set_counter_ok; [|lia].
Qed.

Lemma saturate_ok c : sat_ok c -> sat_ok (snd (saturate c)) /\ fst (saturate c) = maxVal c - counter c.
Proof.
  intros Hc. pose proof Hc as [Hm Hi Hco]. simpl. rewrite u8_small by lia. split; [|done].
  apply set_counter_ok; [done|lia].
Qed.

Lemma brrip_search_spec s cands victim dv :
  s !! victim = Some dv -> (forall c, c ∈ cands -> is_Some (s !! c)) ->
  exists v b dv', BRRIP.search victim (rrpv_of dv) cands s = Ok ((v, b), s) /\ v ∈ victim :: cands
    /\ s !! v = Some dv' /\
    match b with
    | false => BRRIP.valid dv' = false /\ v ∈ cands
    | true => rrpv_of dv <= rrpv_of dv'
        /\ forall c dc, c ∈ cands -> s !! c = Some dc -> BRRIP.valid dc = true /\ rrpv_of dc <= rrpv_of dv'
    end.
Proof.
  revert victim dv. induction cands as [|c cands IH]; intros victim dv Hv Hc; simpl.
  { exists victim, true, dv. split_and!; [done|set_solver|done|lia|set_solver]. }
  destruct (Hc c) as [dc Hdc]; [set_solver|].
  rewrite (bind_run _ _ _ _ _ (repl_data_run _ _ _ Hdc)).
  destruct (BRRIP.valid dc) eqn:Ev; simpl.
  2: { exists c, false, dc. split_and!; [done|set_solver|done|done|set_solver]. }
  destruct (Z.ltb_spec (rrpv_of dv) (rrpv_of dc)).
  - destruct (IH c dc Hdc) as (v & b & dv' & Hs & Hin & Hl & Hb); [set_solver|].
    exists v, b, dv'. split_and!; [done|set_solver|done|]. destruct b; [|set_solver].
    destruct Hb as [Hb1 Hb2]. split; [lia|]. intros c' dc' [->|Hc']%elem_of_cons Hl'; [|eauto].
    simplify_eq. done.
  - destruct (IH victim dv Hv) as (v & b & dv' & Hs & Hin & Hl & Hb); [set_solver|].
    exists v, b, dv'. split_and!; [done|set_solver|done|]. destruct b; [|set_solver].
    destruct Hb as [Hb1 Hb2]. split; [lia|]. intros c' dc' [->|Hc']%elem_of_cons Hl'; [|eauto].
    simplify_eq. split; [done|lia].
Qed.

(** Ageing: the counters of the candidates grow by [diff] and saturate. *)
Lemma brrip_age_spec mx diff s cands :
  0 <= diff < 2 ^ 31 -> map_Forall (fun _ => brrip_ok mx) s -> NoDup cands ->
  (forall c, c ∈ cands -> is_Some (s !! c)) ->
  exists s', forM_ cands (BRRIP.age diff) s = Ok (tt, s') /\ dom s' = dom s
    /\ map_Forall (fun _ => brrip_ok mx) s'
    /\ (forall c d, s !! c = Some d -> exists d', s' !! c = Some d' /\ BRRIP.valid d' = BRRIP.valid d
          /\ rrpv_of d' = if decide (c ∈ cands) then Z.min mx (rrpv_of d + diff) else rrpv_of d).
Proof.
  intros Hdiff. revert s. induction cands as [|c cands IH]; intros s Hs Hnd Hc; simpl.
  { exists s. split_and!; try done. intros c d Hd. exists d. split_and!; try done. }
  apply NoDup_cons in Hnd as [Hnotin Hnd]. destruct (Hc c) as [dc Hdc]; [set_solver|].
  pose proof (Hs c dc Hdc) as [Hsat Hmx]. pose proof Hsat as [Hm Hi Hco].
  set (r := set_counter (BRRIP.rrpv dc) (clamp (BRRIP.rrpv dc) (rrpv_of dc + diff))).
  assert (BRRIP.age diff c s = Ok (tt, <[c := BRRIP.mkBRRIP r (BRRIP.valid dc)]> s)) as Hage.
  { unfold BRRIP.age. rewrite (bind_run _ _ _ _ _ (repl_data_run _ _ _ Hdc)).
    unfold add_assign. rewrite (proj2 (Z.leb_le 0 diff)), add_nonneg_spec by (done || lia). done. }
  rewrite (bind_run _ _ _ _ _ Hage).
  assert (brrip_ok mx (BRRIP.mkBRRIP r (BRRIP.valid dc))) as Hok.
  { split; [|done]. apply set_counter_ok; [done|]. unfold clamp. lia. }
  destruct (IH (<[c := BRRIP.mkBRRIP r (BRRIP.valid dc)]> s)) as (s' & Hrun & Hdom & Hs' & Hl).
  - by apply map_Forall_insert_2.
  - done.
  - intros c' Hc'. rewrite lookup_insert_is_Some. destruct (decide (c = c')); [by left|right]. set_solver.
  - exists s'. split_and!; [done| |done|].
    + rewrite Hdom, dom_insert_L. apply elem_of_dom_2 in Hdc. set_solver.
    + intros c' d Hd. destruct (decide (c = c')) as [<-|Hne].
      * destruct (Hl c _ (lookup_insert_eq _ _ _)) as (d' & Hd' & Hv & Hr). exists d'.
        rewrite decide_False in Hr by done. simplify_eq. rewrite decide_True by set_solver.
        split_and!; try done. rewrite Hr. simpl. unfold clamp. lia.
      * destruct (Hl c' d) as (d' & Hd' & Hv & Hr); [by rewrite lookup_insert_ne|]. exists d'.
        split_and!; try done. rewrite Hr. destruct (decide (c' ∈ cands)), (decide (c' ∈ c :: cands)); set_solver.
Qed.

Lemma brrip_getVictim_spec mx now rnd cands s :
  instantiated s cands -> map_Forall (fun _ => brrip_ok mx) s ->
  exists v dv s', BRRIP.getVictim now rnd cands s = Ok (v, s') /\ v ∈ cands /\ s !! v = Some dv
    /\ dom s' = dom s /\ map_Forall (fun _ => brrip_ok mx) s'
    /\ ((BRRIP.valid dv = false /\ s' = s)
        \/ forall c d, c ∈ cands -> s !! c = Some d ->
             BRRIP.valid d = true /\ rrpv_of d <= rrpv_of dv
             /\ exists d', s' !! c = Some d' /\ rrpv_of d' = rrpv_of d + (mx - rrpv_of dv)).
Proof.
  intros (Hne & Hc & Hnd) Hs. destruct cands as [|c0 cands]; [done|].
  destruct (Hc c0) as [d0 Hd0]; [set_solver|]. unfold BRRIP.getVictim.
  rewrite (bind_run _ _ _ _ _ (repl_data_run _ _ _ Hd0)).
  destruct (brrip_search_spec s (c0 :: cands) c0 d0 Hd0 Hc) as (v & b & dv & Hsearch & Hin & Hdv & Hb).
  rewrite (bind_run _ _ _ _ _ Hsearch). destruct b; cbv beta iota delta [negb].
  2: { exists v, dv, s. destruct Hb. split_and!; try done. by left. }
  destruct Hb as [_ Hall]. rewrite (bind_run _ _ _ _ _ (repl_data_run _ _ _ Hdv)).
  pose proof (Hs v dv Hdv) as [Hsat Hmx]. pose proof Hsat as [Hm _ Hco].
  destruct (saturate_ok _ Hsat) as [Hsok Hdiff]. unfold saturate in *. simpl fst in Hdiff. simpl snd in Hsok.
  rewrite Hdiff, Hmx. rewrite Hmx in Hsok. unfold set_data. rewrite bind_modify.
  set (s1 := <[v := BRRIP.mkBRRIP (set_counter (BRRIP.rrpv dv) mx) (BRRIP.valid dv)]> s).
  assert (v ∈ c0 :: cands) as Hv by set_solver.
  assert (map_Forall (fun _ => brrip_ok mx) s1) as Hs1 by (apply map_Forall_insert_2; [by split|done]).
  assert (dom s1 = dom s) as Hd1
    by (unfold s1; rewrite dom_insert_L; apply elem_of_dom_2 in Hdv; set_solver).
  assert (exists s', when_ (0 <? mx - rrpv_of dv) (forM_ (c0 :: cands) (BRRIP.age (mx - rrpv_of dv))) s1 = Ok (tt, s')
    /\ dom s' = dom s1 /\ map_Forall (fun _ => brrip_ok mx) s'
    /\ forall c d, c ∈ c0 :: cands -> s1 !! c = Some d ->
         exists d', s' !! c = Some d' /\ rrpv_of d' = Z.min mx (rrpv_of d + (mx - rrpv_of dv))) as (s' & Hrun & Hdom & Hok & Hl).
  { destruct (Z.ltb_spec 0 (mx - rrpv_of dv)).
    - destruct (brrip_age_spec mx (mx - rrpv_of dv) s1 (c0 :: cands)) as (s' & Hrun & Hdom & Hok & Hl); [lia|done|done| |].
      { intros c' Hc'. rewrite <- elem_of_dom, Hd1, elem_of_dom. by apply Hc. }
      exists s'. split_and!; try done. intros c d Hin' Hd. destruct (Hl c d Hd) as (d' & Hd' & _ & Hr).
      exists d'. split; [done|]. by rewrite decide_True in Hr by done.
    - exists s1. split_and!; try done. intros c d _ Hd. exists d. split; [done|].
      pose proof (Hs1 c d Hd) as [[_ _ ?] ?]. lia. }
  rewrite (bind_run _ _ _ _ _ Hrun). exists v, dv, s'. split_and!; try done; [by rewrite Hdom|].
  right. intros c d Hin' Hd. destruct (Hall c d Hin' Hd) as [Hval Hle]. split_and!; try done.
  destruct (decide (c = v)) as [->|Hcv].
  - destruct (Hl v _ Hv (lookup_insert_eq _ _ _)) as (d' & Hd' & Hr). exists d'. split; [done|].
    simplify_eq. rewrite Hr. simpl. lia.
  - destruct (Hl c d Hin') as (d' & Hd' & Hr); [by unfold s1; rewrite lookup_insert_ne|].
    exists d'. split; [done|]. lia.
Qed.

Lemma BRRIP_lawful bits hp btp :
  0 <= bits -> LawfulPolicy (BRRIP_policy bits hp btp) (brrip_ok (2 ^ bits - 1)).
Proof.
  intros Hbits. split; simpl.
  - intros d. unfold BRRIP.instantiateEntry. case_match; [done|].
    destruct (new_SatCounter bits 0) eqn:E; [|done]. intros [= <-].
    apply new_SatCounter_ok in E as (? & ? & ?); [|lia..]. by split.
  - by intros d [Hd Hm].
  - intros now d [Hd Hm]. destruct hp; split; simpl; try done.
    + apply set_counter_ok; [done|]. apply Hd.
    + by apply pre_decr_ok.
    + by rewrite (proj2 (pre_decr_ok _ Hd)).
  - intros now rnd d [Hd Hm]. destruct (saturate_ok _ Hd) as [Hs _]. unfold BRRIP.reset, brrip_ok.
    case_match; simpl; [|done]. destruct (pre_decr_ok _ Hs) as [H1 H2]. simpl in *. by rewrite H2.
  - intros now rnd cands s Hi Hs. destruct (brrip_getVictim_spec _ now rnd cands s Hi Hs) as (v & dv & s' & H1 & H2 & _ & H3 & H4 & _).
    by exists v, s'.
Qed.

(** ** Second chance *)

Abbreviation scdata := SecondChance.SecondChanceReplData.

Definition chances (s : Store scdata) (cands : list nat) : nat :=
  length (filter (fun c => (SecondChance.hasSecondChance <$> s !! c) = Some true) cands).

Lemma chances_use (s : Store scdata) cands v d d' :
  v ∈ cands -> s !! v = Some d -> SecondChance.hasSecondChance d = true ->
  SecondChance.hasSecondChance d' = false -> (chances (<[v := d']> s) cands < chances s cands)%nat.
Proof.
  intros Hv Hd Ht Hf. unfold chances.
  assert (forall l, (length (filter (fun c => (SecondChance.hasSecondChance <$> <[v := d']> s !! c) = Some true) l)
    <= length (filter (fun c => (SecondChance.hasSecondChance <$> s !! c) = Some true) l))%nat) as Hle.
  { intros l. induction l as [|c l IH]; [done|]. rewrite !filter_cons. destruct (decide (c = v)) as [->|Hne].
    - rewrite lookup_insert_eq, Hd. simpl. rewrite Ht, Hf. simpl. lia.
    - rewrite lookup_insert_ne by done. case_decide; simpl; lia. }
  apply list_elem_of_split in Hv as (l1 & l2 & ->). rewrite !filter_app, !length_app, !filter_cons.
  rewrite lookup_insert_eq, Hd. simpl. rewrite Ht, Hf. simpl.
  pose proof (Hle l1). pose proof (Hle l2). lia.
Qed.

(** The search ends with an entry without a second chance that is the oldest of
    the candidates; on the way entries only lose their second chance. *)
Lemma sc_search_spec now cands n s :
  instantiated s cands -> (chances s cands < n)%nat ->
  exists v d s', SecondChance.search_victim n now cands s = Ok (v, s') /\ v ∈ cands /\ s' !! v = Some d
    /\ SecondChance.hasSecondChance d = false
    /\ (forall c dc, c ∈ cands -> s' !! c = Some dc -> SecondChance.tickInserted d <= SecondChance.tickInserted dc)
    /\ dom s' = dom s
    /\ forall c dc, s !! c = Some dc -> s' !! c = Some dc
         \/ SecondChance.hasSecondChance dc = true /\ s' !! c = Some (SecondChance.mkSC now false).
Proof.
  revert s. induction n as [|n IH]; intros s Hi Hn; [lia|]. simpl.
  destruct (sc_visit s cands Hi) as (v & d & Hv & Hin & Hd & Hmin).
  rewrite (bind_run _ _ _ _ _ Hv), (bind_run _ _ _ _ _ (repl_data_run _ _ _ Hd)).
  destruct (SecondChance.hasSecondChance d) eqn:Ec.
  - unfold set_data. rewrite bind_modify. set (s1 := <[v := SecondChance.useSecondChance now d]> s).
    pose proof (chances_use s cands v d (SecondChance.useSecondChance now d) Hin Hd Ec eq_refl) as Hlt.
    destruct (IH s1) as (v' & d' & s' & Hrun & Hin' & Hd' & Hch & Hmin' & Hdom & Hsame).
    + destruct Hi as (H1 & H2 & H3). split_and!; [done| |done]. intros c Hc. unfold s1.
      rewrite lookup_insert_is_Some. destruct (decide (v = c)); [by left|right; auto].
    + unfold s1. lia.
    + exists v', d', s'. split_and!; try done.
      * rewrite Hdom. unfold s1. rewrite dom_insert_L. apply elem_of_dom_2 in Hd. set_solver.
      * intros c dc Hdc. destruct (decide (c = v)) as [->|Hne].
        -- simplify_eq. right. split; [done|].
           destruct (Hsame v _ (lookup_insert_eq _ _ _)) as [->|[? _]]; done.
        -- apply Hsame. unfold s1. by rewrite lookup_insert_ne.
  - exists v, d, s. split_and!; try done; [|by left]. intros c dc Hc Hdc.
    specialize (Hmin c dc Hc Hdc). unfold SecondChance.older in Hmin. by apply Z.ltb_ge.
Qed.

Lemma sc_find_invalid s cands :
  (forall c, c ∈ cands -> is_Some (s !! c)) ->
  exists o, SecondChance.find_invalid cands s = Ok (o, s) /\
    match o with
    | Some v => v ∈ cands /\ s !! v = Some (SecondChance.mkSC 0 false)
    | None => forall c, c ∈ cands -> s !! c <> Some (SecondChance.mkSC 0 false)
    end.
Proof.
  induction cands as [|c cands IH]; intros Hc; simpl.
  { exists None. split; [done|set_solver]. }
  destruct (Hc c) as [[t b] Hdc]; [set_solver|].
  rewrite (bind_run _ _ _ _ _ (repl_data_run _ _ _ Hdc)). simpl.
  destruct (Z.eqb_spec t 0) as [->|Ht], b; simpl.
  2: { exists (Some c). split; [done|set_solver]. }
  all: destruct IH as (o & -> & Ho); [set_solver|]; exists o; split; [done|]; destruct o; [set_solver|].
  all: intros c' [->|Hc']%elem_of_cons; [congruence|by apply Ho].
Qed.

Lemma sc_getVictim_spec now rnd cands s :
  instantiated s cands ->
  exists v d s', SecondChance.getVictim now rnd cands s = Ok (v, s') /\ v ∈ cands /\ s' !! v = Some d
    /\ SecondChance.hasSecondChance d = false
    /\ dom s' = dom s
    /\ (s' = s /\ SecondChance.tickInserted d = 0
        \/ forall c dc, c ∈ cands -> s' !! c = Some dc -> SecondChance.tickInserted d <= SecondChance.tickInserted dc)
    /\ forall c dc, s !! c = Some dc -> s' !! c = Some dc
         \/ SecondChance.hasSecondChance dc = true /\ s' !! c = Some (SecondChance.mkSC now false).
Proof.
  intros Hi. pose proof Hi as (Hne & Hc & _). unfold SecondChance.getVictim.
  destruct (sc_find_invalid s cands Hc) as (o & Ho & Hspec). destruct cands as [|c0 cands]; [done|].
  rewrite (bind_run _ _ _ _ _ Ho). destruct o as [v|].
  - destruct Hspec. exists v, (SecondChance.mkSC 0 false), s. split_and!; try done; by left.
  - destruct (sc_search_spec now (c0 :: cands) (S (length (c0 :: cands))) s Hi) as (v & d & s' & H1 & H2 & H3 & H4 & H5 & H6 & H7).
    { unfold chances. pose proof (length_filter (fun c => (SecondChance.hasSecondChance <$> s !! c) = Some true) (c0 :: cands)). lia. }
    exists v, d, s'. split_and!; try done. by right.
Qed.

#[global] Instance SecondChance_lawful : LawfulPolicy SecondChance_policy (fun _ => True).
Proof.
  split; try done. intros now rnd cands s Hi Hs.
  destruct (sc_getVictim_spec now rnd cands s Hi) as (v & d & s' & H1 & H2 & _ & _ & H3 & _).
  exists v, s'. split_and!; try done.
Qed.

(** ** Claims *)

Definition demo_lru : Store LRU.LRUReplData := <[0%nat := LRU.mkLRU 30]> {[1%nat := LRU.mkLRU 10]}.
Definition demo_cands : list nat := [0; 1]%nat.

Lemma demo_instantiated {D} (x y : D) : instantiated (<[0%nat := x]> {[1%nat := y]}) demo_cands.
Proof.
  split_and!; [done| |repeat constructor; set_solver].
  intros c Hc. unfold demo_cands in Hc.
  repeat (apply elem_of_cons in Hc as [->|Hc]); [..|set_solver]; eexists; vm_compute; reflexivity.
Qed.

(** LRU, FIFO, LFU and weighted LRU evict what their names say: the victim
    is a candidate, and no candidate was touched earlier (LRU), inserted earlier
    (FIFO), referenced less often (LFU), or is lighter or as light and older
    (weighted LRU); looking for it changes no replacement data. *)
Theorem victims_minimal now rnd cands
    (lru : Store LRU.LRUReplData) (fifo : Store FIFO.FIFOReplData)
    (lfu : Store LFU.LFUReplData) (wlru : Store WeightedLRU.WeightedLRUReplData) :
  instantiated lru cands -> instantiated fifo cands -> instantiated lfu cands -> instantiated wlru cands ->
  (exists v d, LRU.getVictim now rnd cands lru = Ok (v, lru) /\ v ∈ cands /\ lru !! v = Some d
     /\ forall c dc, c ∈ cands -> lru !! c = Some dc -> LRU.lastTouchTick d <= LRU.lastTouchTick dc)
  /\ (exists v d, FIFO.getVictim now rnd cands fifo = Ok (v, fifo) /\ v ∈ cands /\ fifo !! v = Some d
     /\ forall c dc, c ∈ cands -> fifo !! c = Some dc -> FIFO.tickInserted d <= FIFO.tickInserted dc)
  /\ (exists v d, LFU.getVictim now rnd cands lfu = Ok (v, lfu) /\ v ∈ cands /\ lfu !! v = Some d
     /\ forall c dc, c ∈ cands -> lfu !! c = Some dc -> LFU.refCount d <= LFU.refCount dc)
  /\ (exists v d, WeightedLRU.getVictim now rnd cands wlru = Ok (v, wlru) /\ v ∈ cands /\ wlru !! v = Some d
     /\ forall c dc, c ∈ cands -> wlru !! c = Some dc ->
          WeightedLRU.last_occ_ptr d < WeightedLRU.last_occ_ptr dc
          \/ WeightedLRU.last_occ_ptr d = WeightedLRU.last_occ_ptr dc
             /\ WeightedLRU.last_touch_tick d <= WeightedLRU.last_touch_tick dc).
Proof.
  intros H1 H2 H3 H4. split_and!.
  - destruct (lru_visit lru cands H1) as (v & d & Hv & Hin & Hd & Hmin). exists v, d. split_and!; try done.
    intros c dc Hc Hdc. specialize (Hmin c dc Hc Hdc). unfold LRU.older in Hmin. by apply Z.ltb_ge.
  - destruct (fifo_visit fifo cands H2) as (v & d & Hv & Hin & Hd & Hmin). exists v, d. split_and!; try done.
    intros c dc Hc Hdc. specialize (Hmin c dc Hc Hdc). unfold FIFO.older in Hmin. by apply Z.ltb_ge.
  - destruct (lfu_visit lfu cands H3) as (v & d & Hv & Hin & Hd & Hmin). exists v, d. split_and!; try done.
    intros c dc Hc Hdc. specialize (Hmin c dc Hc Hdc). unfold LFU.rarer in Hmin. by apply Z.ltb_ge.
  - destruct (wlru_visit wlru cands H4) as (v & d & Hv & Hin & Hd & Hmin). exists v, d. split_and!; try done.
    intros c dc Hc Hdc. specialize (Hmin c dc Hc Hdc). unfold WeightedLRU.lighter in Hmin.
    destruct (Z.ltb_spec (WeightedLRU.last_occ_ptr dc) (WeightedLRU.last_occ_ptr d)); [done|].
    destruct (Z.eqb_spec (WeightedLRU.last_occ_ptr dc) (WeightedLRU.last_occ_ptr d)); [|lia].
    apply Z.ltb_ge in Hmin. lia.
Qed.

Lemma victims_minimal_witness :
  exists v d, LRU.getVictim 40 0 demo_cands demo_lru = Ok (v, demo_lru) /\ v ∈ demo_cands /\ demo_lru !! v = Some d
     /\ forall c dc, c ∈ demo_cands -> demo_lru !! c = Some dc -> LRU.lastTouchTick d <= LRU.lastTouchTick dc.
Proof.
  eapply (victims_minimal 40 0 demo_cands demo_lru
    (<[0%nat := FIFO.mkFIFO 1]> {[1%nat := FIFO.mkFIFO 2]})
    (<[0%nat := LFU.mkLFU 1]> {[1%nat := LFU.mkLFU 2]})
    (<[0%nat := WeightedLRU.mkWLRU 1 1]> {[1%nat := WeightedLRU.mkWLRU 2 1]})); apply demo_instantiated.
Defined.

(** C36: BRRIP evicts an invalid entry if there is one and leaves the data
    alone; otherwise the victim has the highest RRPV of the candidates, and all
    candidates age by the victim's distance to the maximum, so that their order
    is kept and the victim becomes saturated. *)
Theorem brrip_victim bits now rnd cands s :
  instantiated s cands -> map_Forall (fun _ => brrip_ok (2 ^ bits - 1)) s ->
  exists v dv s', BRRIP.getVictim now rnd cands s = Ok (v, s') /\ v ∈ cands /\ s !! v = Some dv
    /\ dom s' = dom s /\ map_Forall (fun _ => brrip_ok (2 ^ bits - 1)) s'
    /\ ((BRRIP.valid dv = false /\ s' = s)
        \/ forall c d, c ∈ cands -> s !! c = Some d ->
             BRRIP.valid d = true /\ rrpv_of d <= rrpv_of dv
             /\ exists d', s' !! c = Some d' /\ rrpv_of d' = rrpv_of d + ((2 ^ bits - 1) - rrpv_of dv)).
Proof. apply brrip_getVictim_spec. Qed.

Definition demo_brrip : Store BRRIP.BRRIPReplData :=
  <[0%nat := BRRIP.mkBRRIP (mkSat 0 3 2) true]> {[1%nat := BRRIP.mkBRRIP (mkSat 0 3 1) true]}.

Lemma brrip_victim_witness :
  exists v dv s', BRRIP.getVictim 0 0 demo_cands demo_brrip = Ok (v, s') /\ v ∈ demo_cands
    /\ demo_brrip !! v = Some dv
    /\ dom s' = dom demo_brrip /\ map_Forall (fun _ => brrip_ok (2 ^ 2 - 1)) s'
    /\ ((BRRIP.valid dv = false /\ s' = demo_brrip)
        \/ forall c d, c ∈ demo_cands -> demo_brrip !! c = Some d ->
             BRRIP.valid d = true /\ rrpv_of d <= rrpv_of dv
             /\ exists d', s' !! c = Some d' /\ rrpv_of d' = rrpv_of d + ((2 ^ 2 - 1) - rrpv_of dv)).
Proof.
  apply (brrip_victim 2 0 0 demo_cands demo_brrip).
  - apply demo_instantiated.
  - unfold demo_brrip. apply map_Forall_insert_2; [|apply map_Forall_singleton]; (split; [split|]; simpl; lia).
Defined.

(** The second-chance search ends, within one round per candidate, at a
    candidate without a second chance: an invalid one, or one no other candidate
    precedes in insertion order.  Entries it passes over lose their second
    chance and are inserted anew; no other data changes. *)
Theorem second_chance_victim now rnd cands s :
  instantiated s cands ->
  exists v d s', SecondChance.getVictim now rnd cands s = Ok (v, s') /\ v ∈ cands /\ s' !! v = Some d
    /\ SecondChance.hasSecondChance d = false
    /\ (s' = s /\ SecondChance.tickInserted d = 0
        \/ forall c dc, c ∈ cands -> s' !! c = Some dc -> SecondChance.tickInserted d <= SecondChance.tickInserted dc)
    /\ forall c dc, s !! c = Some dc -> s' !! c = Some dc
         \/ SecondChance.hasSecondChance dc = true /\ s' !! c = Some (SecondChance.mkSC now false).
Proof.
  intros Hi. destruct (sc_getVictim_spec now rnd cands s Hi) as (v & d & s' & H1 & H2 & H3 & H4 & _ & H5 & H6).
  by exists v, d, s'.
Qed.

Definition demo_sc : Store scdata :=
  <[0%nat := SecondChance.mkSC 5 true]> {[1%nat := SecondChance.mkSC 9 true]}.

Lemma second_chance_victim_witness :
  exists v d s', SecondChance.getVictim 20 0 demo_cands demo_sc = Ok (v, s') /\ v ∈ demo_cands /\ s' !! v = Some d
    /\ SecondChance.hasSecondChance d = false
    /\ (s' = demo_sc /\ SecondChance.tickInserted d = 0
        \/ forall c dc, c ∈ demo_cands -> s' !! c = Some dc -> SecondChance.tickInserted d <= SecondChance.tickInserted dc)
    /\ forall c dc, demo_sc !! c = Some dc -> s' !! c = Some dc
         \/ SecondChance.hasSecondChance dc = true /\ s' !! c = Some (SecondChance.mkSC 20 false).
Proof.
  apply (second_chance_victim 20 0 demo_cands demo_sc). apply demo_instantiated.
Defined.
