(* ===== verification/TreePLRU.v ===== *)
(** * Tree pseudo-LRU (mem/cache/replacement_policies/tree_plru_rp.{hh,cc})

    The entries of a set share a vector of direction bits: node [i] has the
    children [2i+1] and [2i+2], and a bit points to the subtree the next victim
    is in.  The policy object owns the trees; an entry's data names its tree by
    number, so that the entries of a set alias one tree. *)

From S2P Require Import Prelude IntMath.

Record TreePLRUReplData := mkPLRU { index : Z; tree : nat }.

Record TreePLRURP := mkRP {
  numLeaves : Z; count : Z;
  treeInstance : option nat;
  trees : list (list bool)
}.

Abbreviation P := (M TreePLRURP).

(** [std::floor] works on a [double]: an integer above 53 bits is rounded. *)
Definition to_double (q : Z) : Z :=
  let e := Z.log2 q - 52 in
  if e <=? 0 then q
  else let m := q / 2 ^ e in
       let r := q mod 2 ^ e in
       let half := 2 ^ (e - 1) in
       (if (half <? r) || ((r =? half) && Z.odd m) then m + 1 else m) * 2 ^ e.

Definition parentIndex (i : Z) : Z := to_double (u64 (i - 1) / 2).
Definition leftSubtreeIndex (i : Z) : Z := u64 (2 * i + 1).
Definition rightSubtreeIndex (i : Z) : Z := u64 (2 * i + 2).
Definition isRightSubtree (i : Z) : bool := i mod 2 =? 0.

(** [vector::at] *)
Definition tree_at (t : list bool) (i : Z) : res bool :=
  if i <? Z.of_nat (length t)
  then match t !! Z.to_nat i with Some b => Ok b | None => Err EOutOfRange end
  else Err EOutOfRange.
Definition tree_set (t : list bool) (i : Z) (b : bool) : res (list bool) :=
  _ ← tree_at t i; Ok (<[Z.to_nat i := b]> t).

(** The constructor. *)
Definition new_TreePLRURP (num_leaves : Z) : res TreePLRURP :=
  if isPowerOf2 num_leaves then Ok (mkRP num_leaves 0 None [])
  else Err (EFatal "Number of leaves must be non-zero and a power of 2").

(** The loop of [touch] and [invalidate]: walk to the root and make every bit
    point away from the entry ([away]) or towards it. *)
Fixpoint climb (fuel : nat) (away : bool) (tree_index : Z) (t : list bool) : res (list bool) :=
  match fuel with
  | O => Err EFuel
  | S fuel' =>
      let right := isRightSubtree tree_index in
      let parent := parentIndex tree_index in
      t' ← tree_set t parent (if away then negb right else right);
      if parent =? 0 then Ok t' else climb fuel' away parent t'
  end.

Definition with_tree (n : nat) (f : list bool -> res (list bool)) : P unit :=
  rp ← get;
  match trees rp !! n with
  | None => throw (EUndefined "no tree")
  | Some t =>
      t' ← lift (f t);
      modify (fun rp => mkRP (numLeaves rp) (count rp) (treeInstance rp) (<[n := t']> (trees rp)))
  end.

Definition invalidate (d : TreePLRUReplData) : P unit := with_tree (tree d) (climb 64 false (index d)).
Definition touch (d : TreePLRUReplData) : P unit := with_tree (tree d) (climb 64 true (index d)).
Definition reset (d : TreePLRUReplData) : P unit := touch d.

(** The loop of [getVictim]: follow the bits from the root to a leaf. *)
Fixpoint descend (fuel : nat) (tree_index : Z) (t : list bool) : res Z :=
  if tree_index <? Z.of_nat (length t) then
    match fuel with
    | O => Err EFuel
    | S fuel' =>
        b ← tree_at t tree_index;
        descend fuel' (if b : bool then rightSubtreeIndex tree_index else leftSubtreeIndex tree_index) t
    end
  else Ok tree_index.

(** [getVictim]: the position of the victim among the candidates. *)
Definition getVictim (candidates : list TreePLRUReplData) : P nat :=
  match candidates with
  | [] => throw (EAssert "candidates.size() > 0")
  | c0 :: _ =>
      rp ← get;
      match trees rp !! tree c0 with
      | None => throw (EUndefined "no tree")
      | Some t =>
          i ← lift (descend 64 0 t);
          let k := Z.to_nat (u64 (i - (numLeaves rp - 1))) in
          match candidates !! k with
          | Some _ => mret k
          | None => throw (EUndefined "candidates[...] out of range")
          end
      end
  end.

(** [instantiateEntry]: a new tree every [numLeaves] entries. *)
Definition instantiateEntry : P TreePLRUReplData :=
  rp0 ← get;
  when_ (count rp0 mod numLeaves rp0 =? 0)
    (modify (fun rp => mkRP (numLeaves rp) (count rp) (Some (length (trees rp)))
                         (trees rp ++ [replicate (Z.to_nat (numLeaves rp - 1)) false])));;
  rp ← get;
  match treeInstance rp with
  | None => throw (EUndefined "null tree")
  | Some n =>
      let d := mkPLRU (u64 (count rp mod numLeaves rp + numLeaves rp - 1)) n in
      modify (fun rp => mkRP (numLeaves rp) (u64 (count rp + 1)) (treeInstance rp) (trees rp));;
      mret d
  end.

(** ** Heap numbering

    Node [i] is number [i + 1]: the parent of number [j] is [j / 2], its
    children are [2j] and [2j + 1], and the leaves of [2^d] entries are the
    numbers from [2^d] to [2^(d+1) - 1]. *)

Lemma parentIndex_heap j : 2 <= j < 2 ^ 53 -> parentIndex (j - 1) = j / 2 - 1.
Proof.
  intros Hj. unfold parentIndex. rewrite u64_small by lia.
  replace (j - 1 - 1) with (j + (-1) * 2) by lia. rewrite Z.div_add by lia.
  unfold to_double. assert (j / 2 < 2 ^ 52) by (apply Z.div_lt_upper_bound; lia).
  assert (1 <= j / 2) by (apply Z.div_le_lower_bound; lia).
  assert (Z.log2 (j / 2 + -1) <= 52).
  { destruct (Z.eq_dec (j / 2) 1) as [->|]; [done|]. apply Z.lt_le_incl, Z.log2_lt_pow2; lia. }
  rewrite (proj2 (Z.leb_le _ _)) by lia. lia.
Qed.

Lemma isRight_heap j : 1 <= j -> isRightSubtree (j - 1) = Z.odd j.
Proof.
  intros Hj. unfold isRightSubtree.
  rewrite (Zmod_odd (j - 1)), Z.odd_sub. simpl. rewrite xorb_true_r. by destruct (Z.odd j).
Qed.

Lemma div_pow_succ j k : 0 <= k -> j / 2 ^ (k + 1) = j / 2 / 2 ^ k.
Proof. intros Hk. rewrite Z.pow_add_r, Z.mul_comm, <- Z.div_div by lia. done. Qed.

Lemma div_pow_succ' j k : 0 <= k -> j / 2 ^ (k + 1) = j / 2 ^ k / 2.
Proof. intros Hk. rewrite Z.pow_add_r, <- Z.div_div by lia. done. Qed.

(** [climb] writes the bits on the path to the root and nothing else above it. *)
Lemma climb_spec fuel away j t :
  2 <= j < 2 ^ 53 -> j < 2 ^ Z.of_nat fuel -> j / 2 <= Z.of_nat (length t) ->
  exists t', climb fuel away (j - 1) t = Ok t' /\ length t' = length t
    /\ (forall n, j / 2 < n -> t' !! Z.to_nat (n - 1) = t !! Z.to_nat (n - 1))
    /\ forall k, 0 <= k -> 1 <= j / 2 ^ (k + 1) ->
         t' !! Z.to_nat (j / 2 ^ (k + 1) - 1) = Some (xorb away (Z.odd (j / 2 ^ k))).
Proof.
  revert j t. induction fuel as [|fuel IH]; intros j t Hj Hf Hlen; [simpl in Hf; lia|].
  assert (1 <= j / 2) by (apply Z.div_le_lower_bound; lia).
  assert (j / 2 < j) by (apply Z.div_lt; lia).
  simpl. rewrite parentIndex_heap, isRight_heap by lia.
  unfold tree_set, tree_at. destruct (lookup_lt_is_Some_2 t (Z.to_nat (j / 2 - 1))) as [b Hb]; [lia|].
  rewrite (proj2 (Z.ltb_lt _ _)), Hb by lia. simpl. set (t1 := <[Z.to_nat (j / 2 - 1) := if away then negb (Z.odd j) else Z.odd j]> t).
  assert (length t1 = length t) as Hl1 by apply length_insert.
  assert (t1 !! Z.to_nat (j / 2 - 1) = Some (xorb away (Z.odd j))) as Hhere.
  { unfold t1. rewrite list_lookup_insert_eq by lia. by destruct away. }
  assert (forall n, j / 2 < n -> t1 !! Z.to_nat (n - 1) = t !! Z.to_nat (n - 1)) as Habove.
  { intros n Hn. unfold t1. rewrite list_lookup_insert_ne by lia. done. }
  destruct (Z.eqb_spec (j / 2 - 1) 0) as [H1|H1].
  - exists t1. split_and!; [done..|]. intros k Hk Hk1. destruct (Z.eq_dec k 0) as [->|Hk0].
    + rewrite Z.pow_0_r, Z.div_1_r. by rewrite Z.add_0_l, Z.pow_1_r.
    + rewrite div_pow_succ in Hk1 by done. replace (j / 2) with 1 in Hk1 by lia.
      rewrite Z.div_small in Hk1; [lia|]. split; [lia|]. apply Z.pow_gt_1; lia.
  - destruct (IH (j / 2) t1) as (t' & Hc & Hl & Hab & Hpath); [lia| | |].
    + rewrite Nat2Z.inj_succ, Z.pow_succ_r in Hf by lia. apply Z.div_lt_upper_bound; lia.
    + rewrite Hl1. assert (j / 2 / 2 <= j / 2) by (apply Z.div_le_upper_bound; lia). lia.
    + exists t'. split_and!; [done|lia| |].
      * intros n Hn. rewrite Hab, Habove; [done|lia|]. assert (j / 2 / 2 <= j / 2) by (apply Z.div_le_upper_bound; lia). lia.
      * intros k Hk Hk1. destruct (Z.eq_dec k 0) as [->|Hk0].
        -- rewrite Z.add_0_l, Z.pow_1_r, Z.pow_0_r, Z.div_1_r, Hab; [done|]. apply Z.div_lt; lia.
        -- replace k with ((k - 1) + 1) in Hk1 |- * by lia.
           rewrite div_pow_succ in Hk1 |- * by lia. rewrite (div_pow_succ j (k - 1)) by lia.
           apply Hpath; [lia|done].
Qed.

Lemma pow_gap n r m : 0 <= r -> 0 <= m -> 1 <= n -> n * 2 ^ r < 2 ^ m -> (n + 1) * 2 ^ r <= 2 ^ m.
Proof.
  intros Hr Hm Hn Hlt.
  assert (r <= m) by (destruct (Z.le_gt_cases r m); [done|]; assert (2 ^ m <= 2 ^ r) by (apply Z.pow_le_mono_r; lia); nia).
  assert (2 ^ m = 2 ^ (m - r) * 2 ^ r) as Em by (rewrite <- Z.pow_add_r by lia; f_equal; lia).
  rewrite Em in *. apply Z.mul_le_mono_nonneg_r; [lia|]. apply Z.mul_lt_mono_pos_r in Hlt; lia.
Qed.

(** [descend] ends at a leaf below the node it starts from, along the bits. *)
Lemma descend_spec fuel d r n t :
  0 <= d < 62 -> Z.of_nat (length t) = 2 ^ d - 1 -> 0 <= r <= Z.of_nat fuel -> 1 <= n ->
  2 ^ d <= n * 2 ^ r < 2 ^ (d + 1) ->
  exists w, descend fuel (n - 1) t = Ok (w - 1) /\ w / 2 ^ r = n /\ 2 ^ d <= w < 2 ^ (d + 1)
    /\ forall k, 0 <= k < r -> t !! Z.to_nat (w / 2 ^ (k + 1) - 1) = Some (Z.odd (w / 2 ^ k)).
Proof.
  intros Hd Ht. assert (2 ^ (d + 1) <= 2 ^ 62) by (apply Z.pow_le_mono_r; lia).
  assert (2 ^ (d + 1) = 2 * 2 ^ d) by (rewrite Z.pow_add_r by lia; lia).
  revert r n. induction fuel as [|fuel IH]; intros r n Hr Hn Hb.
  all: destruct (Z.eq_dec r 0) as [->|Hr0].
  1, 3: rewrite Z.pow_0_r, Z.mul_1_r in Hb; exists n; simpl; rewrite (proj2 (Z.ltb_ge _ _)) by lia;
    rewrite Z.pow_0_r, Z.div_1_r; split_and!; [done..|lia|lia|]; intros; lia.
  { lia. }
  assert (n < 2 ^ d) as Hlt.
  { assert (2 ^ r = 2 * 2 ^ (r - 1)) by (rewrite <- Z.pow_succ_r by lia; f_equal; lia).
    assert (0 < 2 ^ (r - 1)) by lia. nia. }
  simpl. rewrite (proj2 (Z.ltb_lt _ _)) by lia.
  destruct (lookup_lt_is_Some_2 t (Z.to_nat (n - 1))) as [b Hbit]; [lia|].
  unfold tree_at. rewrite (proj2 (Z.ltb_lt _ _)), Hbit by lia. simpl.
  assert (exists c, (if b then rightSubtreeIndex (n - 1) else leftSubtreeIndex (n - 1)) = c - 1
    /\ c / 2 = n /\ Z.odd c = b /\ 2 * n <= c <= 2 * n + 1) as (c & -> & Hc1 & Hc2 & Hc3).
  { destruct b; unfold rightSubtreeIndex, leftSubtreeIndex.
    - exists (2 * n + 1). rewrite u64_small by lia. split_and!; [lia|symmetry; apply (Z.div_unique _ _ _ 1); lia|by rewrite Z.add_comm, Z.odd_add_mul_2|lia|lia].
    - exists (2 * n). rewrite u64_small by lia. split_and!; [lia|rewrite Z.mul_comm; by apply Z.div_mul|by rewrite Z.odd_mul|lia|lia]. }
  assert (2 ^ r = 2 * 2 ^ (r - 1)) as Hp by (rewrite <- Z.pow_succ_r by lia; f_equal; lia).
  assert (0 < 2 ^ (r - 1)) by lia.
  destruct (IH (r - 1) c) as (w & Hw & Hanc & Hrange & Hpath); [lia|lia| |].
  { pose proof (pow_gap n r (d + 1) ltac:(lia) ltac:(lia) ltac:(lia) ltac:(lia)). rewrite Hp in *. nia. }
  exists w. split_and!; [done| |lia|lia|].
  - replace r with ((r - 1) + 1) by lia. by rewrite div_pow_succ', Hanc by lia.
  - intros k Hk. destruct (Z.eq_dec k (r - 1)) as [->|]; [|apply Hpath; lia].
    rewrite div_pow_succ', Hanc, Hc1, Hbit by lia. by f_equal.
Qed.

(** ** The policy *)

(** The entries of one set, in the order of the candidates. *)
Definition plru_set (n : Z) (tr : nat) : list TreePLRUReplData :=
  map (fun k => mkPLRU (n - 1 + Z.of_nat k) tr) (seq 0 (Z.to_nat n)).

Record plru_ok (d : Z) (tr : nat) (rp : TreePLRURP) : Prop := {
  pl_depth : 1 <= d < 52;
  pl_leaves : numLeaves rp = 2 ^ d;
  pl_tree : exists t, trees rp !! tr = Some t /\ Z.of_nat (length t) = 2 ^ d - 1
}.

Lemma plru_set_length d tr : 0 <= d -> Z.of_nat (length (plru_set (2 ^ d) tr)) = 2 ^ d.
Proof. intros Hd. unfold plru_set. rewrite length_map, length_seq. lia. Qed.

Lemma plru_set_lookup n tr k : (k < Z.to_nat n)%nat ->
  plru_set n tr !! k = Some (mkPLRU (n - 1 + Z.of_nat k) tr).
Proof.
  intros Hk. unfold plru_set. change (map ?f ?l) with (f <$> l).
  rewrite list_lookup_fmap, lookup_seq_lt by done. done.
Qed.

(** The victim is the leaf the bits lead to. *)
Lemma plru_victim d tr rp t :
  plru_ok d tr rp -> trees rp !! tr = Some t -> Z.of_nat (length t) = 2 ^ d - 1 ->
  exists w, getVictim (plru_set (2 ^ d) tr) rp = Ok (Z.to_nat (w - 2 ^ d), rp)
    /\ 2 ^ d <= w < 2 ^ (d + 1) /\ w / 2 ^ d = 1
    /\ forall k, 0 <= k < d -> t !! Z.to_nat (w / 2 ^ (k + 1) - 1) = Some (Z.odd (w / 2 ^ k)).
Proof.
  intros [Hd Hn _] Ht Hlen. assert (0 < 2 ^ d) by lia.
  assert (2 ^ (d + 1) = 2 * 2 ^ d) as Hp by (rewrite Z.pow_add_r by lia; lia).
  assert (2 ^ d < 2 ^ 52) by (apply Z.pow_lt_mono_r; lia).
  destruct (descend_spec 64 d d 1 t) as (w & Hw & Hanc & Hrange & Hpath); [lia|done|lia|lia|lia|].
  exists w. split_and!; [|lia|lia|done|done]. unfold getVictim.
  destruct (plru_set (2 ^ d) tr) as [|c0 cs] eqn:Hset.
  { pose proof (plru_set_length d tr ltac:(lia)) as Hl. rewrite Hset in Hl. simpl in Hl. lia. }
  assert (tree c0 = tr) as ->.
  { pose proof (plru_set_lookup (2 ^ d) tr 0 ltac:(lia)) as Hl. rewrite Hset in Hl.
    change (Some c0 = Some (mkPLRU (2 ^ d - 1 + Z.of_nat 0) tr)) in Hl. by injection Hl as ->. }
  rewrite <- Hset. unfold mbind at 1, M_bind at 1, get. rewrite Ht.
  change 0 with (1 - 1) at 1. unfold mbind at 1, M_bind at 1, lift. rewrite Hw, Hn.
  rewrite u64_small by lia. replace (w - 1 - (2 ^ d - 1)) with (w - 2 ^ d) by lia.
  rewrite (plru_set_lookup (2 ^ d) tr (Z.to_nat (w - 2 ^ d))) by lia. done.
Qed.

Lemma plru_climb away d tr rp k :
  plru_ok d tr rp -> 0 <= k < 2 ^ d ->
  exists rp' t', with_tree tr (climb 64 away (2 ^ d - 1 + k)) rp = Ok (tt, rp')
    /\ plru_ok d tr rp' /\ trees rp' !! tr = Some t' /\ Z.of_nat (length t') = 2 ^ d - 1
    /\ forall i, 0 <= i < d ->
         t' !! Z.to_nat ((2 ^ d + k) / 2 ^ (i + 1) - 1) = Some (xorb away (Z.odd ((2 ^ d + k) / 2 ^ i))).
Proof.
  intros [Hd Hn (t & Ht & Hlen)] Hk. assert (2 ^ d < 2 ^ 52) by (apply Z.pow_lt_mono_r; lia).
  assert (2 <= 2 ^ d) by (change 2 with (2 ^ 1) at 1; apply Z.pow_le_mono_r; lia).
  destruct (climb_spec 64 away (2 ^ d + k) t) as (t' & Hc & Hl & _ & Hpath); [lia|lia| |].
  { rewrite Hlen. assert ((2 ^ d + k) / 2 < 2 ^ d) by (apply Z.div_lt_upper_bound; lia). lia. }
  replace (2 ^ d + k - 1) with (2 ^ d - 1 + k) in Hc by lia.
  exists (mkRP (numLeaves rp) (count rp) (treeInstance rp) (<[tr := t']> (trees rp))), t'.
  assert (<[tr := t']> (trees rp) !! tr = Some t') as Hl'
    by (apply list_lookup_insert_eq; by eapply lookup_lt_Some).
  split_and!; [|split; simpl; [done|done|exists t'; split; [done|lia]]|done|lia|].
  - unfold with_tree, mbind, M_bind, get, lift. by rewrite Ht, Hc.
  - intros i Hi. apply Hpath; [lia|]. apply Z.div_le_lower_bound; [lia|].
    assert (2 ^ (i + 1) <= 2 ^ d) by (apply Z.pow_le_mono_r; lia). lia.
Qed.

(** Following the same bits leads to the same leaf. *)
Lemma path_unique d (t : list bool) a b :
  0 <= d -> a / 2 ^ d = b / 2 ^ d ->
  (forall k, 0 <= k < d -> t !! Z.to_nat (a / 2 ^ (k + 1) - 1) = Some (Z.odd (a / 2 ^ k))) ->
  (forall k, 0 <= k < d -> t !! Z.to_nat (b / 2 ^ (k + 1) - 1) = Some (Z.odd (b / 2 ^ k))) -> a = b.
Proof.
  intros Hd Htop Ha Hb. rewrite <- (Z.div_1_r a), <- (Z.div_1_r b). change 1 with (2 ^ 0).
  assert (forall i : nat, Z.of_nat i <= d -> a / 2 ^ (d - Z.of_nat i) = b / 2 ^ (d - Z.of_nat i)) as Hall.
  { induction i as [|i IH]; intros Hi; [by rewrite Z.sub_0_r|]. specialize (IH ltac:(lia)).
    set (k := d - Z.of_nat (S i)) in *. replace (d - Z.of_nat i) with (k + 1) in IH by lia.
    specialize (Ha k ltac:(lia)). specialize (Hb k ltac:(lia)). rewrite IH in Ha.
    assert (Z.odd (a / 2 ^ k) = Z.odd (b / 2 ^ k)) as Hodd by congruence.
    rewrite !div_pow_succ' in IH by lia.
    rewrite (Z.div_mod (a / 2 ^ k) 2), (Z.div_mod (b / 2 ^ k) 2), !Zmod_odd by lia. by rewrite IH, Hodd. }
  specialize (Hall (Z.to_nat d) ltac:(lia)). by replace (d - Z.of_nat (Z.to_nat d)) with 0 in Hall by lia.
Qed.

(** C35: the tree policy over [2^d] entries: the search for a victim always
    ends at one of the entries of the set and changes nothing; an entry that was
    just touched or inserted is not the next victim; an entry that was just
    invalidated is. *)
Theorem tree_plru_victim d tr rp k :
  plru_ok d tr rp -> 0 <= k < 2 ^ d ->
  let e := mkPLRU (2 ^ d - 1 + k) tr in
  (exists v, getVictim (plru_set (2 ^ d) tr) rp = Ok (v, rp) /\ Z.of_nat v < 2 ^ d)
  /\ (exists rp' v, touch e rp = Ok (tt, rp') /\ reset e rp = Ok (tt, rp') /\ plru_ok d tr rp'
        /\ getVictim (plru_set (2 ^ d) tr) rp' = Ok (v, rp') /\ Z.of_nat v <> k)
  /\ (exists rp', invalidate e rp = Ok (tt, rp') /\ plru_ok d tr rp'
        /\ getVictim (plru_set (2 ^ d) tr) rp' = Ok (Z.to_nat k, rp')).
Proof.
  intros Hok Hk e. pose proof Hok as [Hd Hn (t & Ht & Hlen)].
  assert (2 ^ (d + 1) = 2 * 2 ^ d) as Hp by (rewrite Z.pow_add_r by lia; lia).
  assert (0 < 2 ^ (d - 1)) by lia. split_and!.
  - destruct (plru_victim d tr rp t Hok Ht Hlen) as (w & Hv & Hw & _). eexists. split; [exact Hv|]. lia.
  - destruct (plru_climb true d tr rp k Hok Hk) as (rp' & t' & Hrun & Hok' & Ht' & Hlen' & Hpath).
    destruct (plru_victim d tr rp' t' Hok' Ht' Hlen') as (w & Hv & Hw & Htop & Hbits).
    exists rp'. eexists. split_and!; [exact Hrun|exact Hrun|done|exact Hv|]. intros Hwk.
    assert (w = 2 ^ d + k) as -> by lia.
    specialize (Hpath (d - 1) ltac:(lia)). specialize (Hbits (d - 1) ltac:(lia)).
    rewrite Hpath in Hbits. destruct (Z.odd _); simplify_eq.
  - destruct (plru_climb false d tr rp k Hok Hk) as (rp' & t' & Hrun & Hok' & Ht' & Hlen' & Hpath).
    destruct (plru_victim d tr rp' t' Hok' Ht' Hlen') as (w & Hv & Hw & Htop & Hbits).
    exists rp'. split_and!; [exact Hrun|done|]. rewrite Hv. do 2 f_equal.
    assert (w = 2 ^ d + k); [|lia]. apply (path_unique d t'); [lia| |done|].
    + rewrite Htop. apply (Z.div_unique _ _ _ k); lia.
    + intros i Hi. rewrite Hpath by done. by destruct (Z.odd _).
Qed.

(** Four entries instantiated one after the other share one tree. *)
Definition demo_rp : res (list TreePLRUReplData * TreePLRURP) :=
  rp ← new_TreePLRURP 4;
  '(a, rp) ← instantiateEntry rp; '(b, rp) ← instantiateEntry rp;
  '(c, rp) ← instantiateEntry rp; '(e, rp) ← instantiateEntry rp; Ok ([a; b; c; e], rp).

Example demo_rp_set : demo_rp = Ok (plru_set 4 0, mkRP 4 4 (Some 0%nat) [[false; false; false]]).
Proof. reflexivity. Qed.

Lemma tree_plru_victim_witness :
  exists rp', invalidate (mkPLRU (2 ^ 2 - 1 + 2) 0) (mkRP 4 4 (Some 0%nat) [[false; false; false]]) = Ok (tt, rp')
    /\ plru_ok 2 0 rp' /\ getVictim (plru_set (2 ^ 2) 0) rp' = Ok (Z.to_nat 2, rp').
Proof.
  apply (tree_plru_victim 2 0 (mkRP 4 4 (Some 0%nat) [[false; false; false]]) 2); [|lia].
  split; [lia|reflexivity|]. exists [false; false; false]. split; reflexivity.
Defined.

(** A direct-mapped cache has one leaf and a tree without nodes, which the
    constructor accepts: the first touch reads past its end. *)
Theorem plru_single_leaf_throws :
  (rp ← new_TreePLRURP 1; '(e, rp) ← instantiateEntry rp; touch e rp) = Err EOutOfRange.
Proof. vm_compute. reflexivity. Qed.
