(* ===== verification/Emu.v ===== *)
(** * The emulation library (emu/src/util.cpp, emu/inc/util.h)

    The threads of an emulated application share inter-PE queues and per-PE
    sleep counters, each guarded by a mutex with condition variables.  The
    model interleaves the threads: every thread has a control point, and a step
    runs one thread from one synchronisation point to the next.  A thread waits
    on a condition variable until another one notifies it or the wait ends
    spuriously, as the C++ library allows; it then has to take the mutex again.
    [std::mutex m] only guards the thread-to-PE map and is held for the whole
    of [get_id] and [__register_core_id], so these two are single steps.  The
    barriers and mutexes of the application, which are separate from all of this,
    are in the module at the end. *)

From S2P Require Import Prelude.

(** ** State *)

(** [q_intfc_t]; the two ghost lists record what went in and out. *)
Record q_intfc_t := mkQ {
  q_data : list Z; q_size : Z;
  q_m : option nat;                       (* the thread that holds [m] *)
  q_pushed : list Z; q_popped : list Z
}.

Abbreviation key := (Z * Z)%type.

Inductive pc :=
  | Idle
  | PushAcq (k : key) (d : Z)             (* about to lock the queue's mutex *)
  | PushTest (k : key) (d : Z)            (* at [while (q.size() == queue->size)] *)
  | PushWait (k : key) (d : Z)            (* waiting on [fullCv] *)
  | PushNotify (k : key)                  (* pushed, about to notify [emptyCv] *)
  | PushRel (k : key)                     (* about to unlock *)
  | PopAcq (k : key) | PopTest (k : key) | PopWait (k : key)
  | PopNotify (k : key) (d : Z) | PopRel (k : key) (d : Z)
  | SleepAcq (pe : Z) | SleepInc (pe : Z) | SleepTest (pe : Z) | SleepWait (pe : Z)
  | SleepReacq (pe : Z) | SleepRel (pe : Z)
  | WakeAcq (pe : Z) | WakeDec (pe : Z) | WakeNotify (pe : Z) | WakeRel (pe : Z).

#[global] Instance pc_eq_dec : EqDecision pc.
Proof. solve_decision. Defined.

(** The mutex and the counter of a PE. *)
Record PE := mkPE { pe_m : option nat; pe_cntr : Z }.

Record Emu := mkEmu {
  tid_to_core_id_map : gmap nat Z;
  queues : gmap key q_intfc_t;
  mutexes : list (option nat);            (* one per PE: the holder *)
  sleep_cntr : list Z;
  threads : gmap nat pc;
  pe_log : list (Z * Z)                   (* ghost: +1 per sleep, -1 per wake *)
}.

Abbreviation E := (M Emu).

Definition pc_of (s : Emu) (t : nat) : pc := default Idle (threads s !! t).

Definition set_pc (t : nat) (p : pc) (s : Emu) : Emu :=
  mkEmu (tid_to_core_id_map s) (queues s) (mutexes s) (sleep_cntr s) (<[t := p]> (threads s)) (pe_log s).
Definition set_queues (q : gmap key q_intfc_t) (s : Emu) : Emu :=
  mkEmu (tid_to_core_id_map s) q (mutexes s) (sleep_cntr s) (threads s) (pe_log s).
Definition set_pes (m : list (option nat)) (c : list Z) (l : list (Z * Z)) (s : Emu) : Emu :=
  mkEmu (tid_to_core_id_map s) (queues s) m c (threads s) l.
Definition set_ids (m : gmap nat Z) (s : Emu) : Emu :=
  mkEmu m (queues s) (mutexes s) (sleep_cntr s) (threads s) (pe_log s).

(** ** Set-up and tear-down *)

Definition new_q (size : Z) : q_intfc_t := mkQ [] size None [] [].

(** [__init]: the vectors grow, the queues of the generated code are inserted
    (an existing entry of the map is kept). *)
Definition __init (num_pe wq_depth : Z) (s : Emu) : Emu :=
  let n := Z.to_nat num_pe in
  let depth := u32 wq_depth in
  let generated := list_to_map (map (fun k => (k, new_q depth)) [(0, 1); (0, 2); (0, 3); (0, 4)]) in
  mkEmu (tid_to_core_id_map s) (queues s ∪ generated)
    (mutexes s ++ replicate n None) (sleep_cntr s ++ replicate n 0) (threads s) (pe_log s).

(** [__teardown] *)
Definition __teardown (s : Emu) : Emu :=
  mkEmu ∅ ∅ [] (sleep_cntr s) (threads s) (pe_log s).

Definition emu_start : Emu := mkEmu ∅ ∅ [] [] ∅ [].

(** [__register_core_id]: [insert] keeps an existing entry. *)
Definition __register_core_id (t : nat) (core_id : Z) : E unit :=
  modify (fun s => set_ids (tid_to_core_id_map s ∪ {[t := u32 core_id]}) s).

Definition get_id (t : nat) : E Z :=
  m ← gets tid_to_core_id_map;
  match m !! t with
  | Some id => mret (sgn 32 id)
  | None => throw EExit
  end.

(** ** Access to a queue and to a PE *)

Definition the_queue (k : key) : E q_intfc_t :=
  qs ← gets queues;
  match qs !! k with
  | Some q => mret q
  | None => throw (EUndefined "dangling queue")
  end.
Definition put_queue (k : key) (q : q_intfc_t) : E unit :=
  modify (fun s => set_queues (<[k := q]> (queues s)) s).

Definition with_lock (o : option nat) (q : q_intfc_t) : q_intfc_t :=
  mkQ (q_data q) (q_size q) o (q_pushed q) (q_popped q).

Definition the_pe (pe : Z) : E PE :=
  ms ← gets mutexes;
  cs ← gets sleep_cntr;
  match ms !! Z.to_nat pe, cs !! Z.to_nat pe with
  | Some m, Some c => mret (mkPE m c)
  | _, _ => throw EOutOfRange
  end.
Definition put_pe (pe : Z) (x : PE) (l : list (Z * Z)) : E unit :=
  modify (fun s => set_pes (<[Z.to_nat pe := pe_m x]> (mutexes s))
                           (<[Z.to_nat pe := pe_cntr x]> (sleep_cntr s)) (pe_log s ++ l) s).

Definition goto (t : nat) (p : pc) : E unit := modify (set_pc t p).

(** A step that is not enabled in this state. *)
Definition blocked {A} : E A := throw (EUndefined "not enabled").

(** Taking a mutex: only when nobody holds it. *)
Definition lock_queue (t : nat) (k : key) : E unit :=
  q ← the_queue k;
  match q_m q with
  | None => put_queue k (with_lock (Some t) q)
  | Some _ => blocked
  end.
Definition unlock_queue (k : key) : E unit := q ← the_queue k; put_queue k (with_lock None q).

Definition lock_pe (t : nat) (pe : Z) : E unit :=
  x ← the_pe pe;
  match pe_m x with
  | None => put_pe pe (mkPE (Some t) (pe_cntr x)) []
  | Some _ => blocked
  end.
Definition unlock_pe (pe : Z) : E unit := x ← the_pe pe; put_pe pe (mkPE None (pe_cntr x)) [].

(** [notify_one] on the condition variable whose waiters are at [p] for the
    threads [waits] accepts: the waiter [w] moves on, or nobody waits. *)
Definition notify_one (waits : pc -> option pc) (w : option nat) : E unit :=
  ts ← gets threads;
  match w with
  | Some t =>
      match waits (default Idle (ts !! t)) with
      | Some p => goto t p
      | None => blocked
      end
  | None =>
      if bool_decide (map_Forall (fun _ p => waits p = None) ts) then mret tt else blocked
  end.

(** Who waits on [fullCv] and [emptyCv] of a queue and on [cvs[pe]], and where
    a waiter continues. *)
Definition fullCv (k : key) (p : pc) : option pc :=
  match p with PushWait k' d => if decide (k = k') then Some (PushAcq k' d) else None | _ => None end.
Definition emptyCv (k : key) (p : pc) : option pc :=
  match p with PopWait k' => if decide (k = k') then Some (PopAcq k') else None | _ => None end.
Definition cvs (pe : Z) (p : pc) : option pc :=
  match p with SleepWait pe' => if decide (pe = pe') then Some (SleepReacq pe') else None | _ => None end.

(** ** The calls: up to the first lock *)

Definition __push_mmap (t : nat) (sink data : Z) : E unit :=
  id ← get_id t;
  let source := u32 id in
  qs ← gets queues;
  match qs !! (source, sink) with
  | Some _ => goto t (PushAcq (source, sink) data)
  | None => throw EExit
  end.
Definition __push := __push_mmap.

Definition __pop_mmap (t : nat) (source : Z) : E unit :=
  id ← get_id t;
  let sink := u32 id in
  qs ← gets queues;
  match qs !! (source, sink) with
  | Some _ => goto t (PopAcq (source, sink))
  | None => throw EExit
  end.
Definition __pop := __pop_mmap.

Definition __sleep (t : nat) : E unit :=
  id ← get_id t;
  let pe := u32 id in
  the_pe pe;; goto t (SleepAcq pe).

Definition __wake (t : nat) (pe : Z) : E unit := the_pe pe;; goto t (WakeAcq pe).

(** ** The bodies, one synchronisation point at a time *)

Definition push_body (t : nat) (k : key) (d : Z) : E unit :=
  q ← the_queue k;
  if Z.of_nat (length (q_data q)) =? q_size q
  then unlock_queue k;; goto t (PushWait k d)
  else put_queue k (mkQ (q_data q ++ [d]) (q_size q) (q_m q) (q_pushed q ++ [d]) (q_popped q));;
       goto t (PushNotify k).

Definition pop_body (t : nat) (k : key) : E unit :=
  q ← the_queue k;
  match q_data q with
  | [] => unlock_queue k;; goto t (PopWait k)
  | d :: rest =>
      put_queue k (mkQ rest (q_size q) (q_m q) (q_pushed q) (q_popped q ++ [d]));;
      goto t (PopNotify k d)
  end.

(** [int] counters: leaving the range is undefined. *)
Definition count_pe (pe by_ : Z) : E unit :=
  x ← the_pe pe;
  let c := pe_cntr x + by_ in
  if bool_decide (- 2 ^ 31 <= c < 2 ^ 31)
  then put_pe pe (mkPE (pe_m x) c) [(pe, by_)]
  else throw (EUndefined "signed overflow").

Definition run (t : nat) (w : option nat) : E unit :=
  s ← get;
  match pc_of s t with
  | Idle | PushWait _ _ | PopWait _ | SleepWait _ => blocked
  | PushAcq k d => lock_queue t k;; goto t (PushTest k d)
  | PushTest k d => push_body t k d
  | PushNotify k => notify_one (emptyCv k) w;; goto t (PushRel k)
  | PushRel k => unlock_queue k;; goto t Idle
  | PopAcq k => lock_queue t k;; goto t (PopTest k)
  | PopTest k => pop_body t k
  | PopNotify k d => notify_one (fullCv k) w;; goto t (PopRel k d)
  | PopRel k _ => unlock_queue k;; goto t Idle
  | SleepAcq pe => lock_pe t pe;; goto t (SleepInc pe)
  | SleepInc pe => count_pe pe 1;; goto t (SleepTest pe)
  | SleepTest pe =>
      x ← the_pe pe;
      if 0 <? pe_cntr x then unlock_pe pe;; goto t (SleepWait pe) else goto t (SleepRel pe)
  | SleepReacq pe => lock_pe t pe;; goto t (SleepTest pe)
  | SleepRel pe => unlock_pe pe;; goto t Idle
  | WakeAcq pe => lock_pe t pe;; goto t (WakeDec pe)
  | WakeDec pe => count_pe pe (-1);; goto t (WakeNotify pe)
  | WakeNotify pe => notify_one (cvs pe) w;; goto t (WakeRel pe)
  | WakeRel pe => unlock_pe pe;; goto t Idle
  end.

(** A wait that ends on its own. *)
Definition spurious (t : nat) : E unit :=
  s ← get;
  match pc_of s t with
  | PushWait k d => goto t (PushAcq k d)
  | PopWait k => goto t (PopAcq k)
  | SleepWait pe => goto t (SleepReacq pe)
  | _ => blocked
  end.

Inductive label :=
  | Register (t : nat) (core_id : Z)
  | CallPush (t : nat) (sink data : Z)
  | CallPop (t : nat) (source : Z)
  | CallSleep (t : nat)
  | CallWake (t : nat) (pe : Z)
  | Run (t : nat) (w : option nat)
  | Spurious (t : nat).

(** A thread calls the library only between calls. *)
Definition call (t : nat) (m : E unit) : E unit :=
  s ← get; if decide (pc_of s t = Idle) then m else blocked.

Definition emu_step (l : label) : E unit :=
  match l with
  | Register t c => call t (__register_core_id t c)
  | CallPush t sink d => call t (__push t (u32 sink) (u64 d))
  | CallPop t source => call t (__pop t (u32 source))
  | CallSleep t => call t (__sleep t)
  | CallWake t pe => call t (__wake t (u32 pe))
  | Run t w => run t w
  | Spurious t => spurious t
  end.

(** Different threads register different PEs. *)
Definition register_ok (l : label) (s : Emu) : Prop :=
  match l with
  | Register t c => forall t', tid_to_core_id_map s !! t' = Some (u32 c) -> t' = t
  | _ => True
  end.

Inductive emu_reachable (num_pe depth : Z) : Emu -> Prop :=
  | er_boot : emu_reachable num_pe depth (__init num_pe depth emu_start)
  | er_step l s s' :
      emu_reachable num_pe depth s -> register_ok l s ->
      emu_step l s = Ok (tt, s') -> emu_reachable num_pe depth s'.

(** ** Barriers and mutexes of the application

    The wrappers call pthreads with default attributes and ignore the results.
    What they use of the library: a barrier of [count] threads releases all of
    them when the last one arrives and can be used again; [count] zero is an
    error and initialises nothing; a mutex has an owner, others wait for it, and
    a thread that locks its own mutex again waits for itself.  Using an object
    that is not initialised, initialising one again, and unlocking the mutex of
    another thread are undefined. *)
Module EmuSync.

Inductive waits := AtBarrier (bar : Z) | AtMutex (lock : Z).
#[export] Instance waits_eq_dec : EqDecision waits.
Proof. solve_decision. Defined.

Record pthread_barrier_t := mkBarrier { b_count : Z; b_arrived : list nat }.
Record Sync := mkSync {
  barriers : gmap Z pthread_barrier_t;
  locks : gmap Z (option nat);
  waiting : gmap nat waits
}.
Abbreviation Y := (M Sync).
Definition sync_start : Sync := mkSync ∅ ∅ ∅.

Definition set_barriers (b : gmap Z pthread_barrier_t) (s : Sync) : Sync := mkSync b (locks s) (waiting s).
Definition set_locks (l : gmap Z (option nat)) (s : Sync) : Sync := mkSync (barriers s) l (waiting s).
Definition set_waiting (w : gmap nat waits) (s : Sync) : Sync := mkSync (barriers s) (locks s) w.

Definition __barrier_init (bar count : Z) : Y unit :=
  bs ← gets barriers;
  match bs !! bar with
  | Some _ => throw (EUndefined "barrier initialised twice")
  | None => when_ (negb (u32 count =? 0)) (modify (set_barriers (<[bar := mkBarrier (u32 count) []]> bs)))
  end.

Definition __barrier_wait (t : nat) (bar : Z) : Y unit :=
  bs ← gets barriers;
  match bs !! bar with
  | None => throw (EUndefined "barrier not initialised")
  | Some b =>
      if Z.of_nat (length (b_arrived b)) + 1 =? b_count b then
        modify (set_barriers (<[bar := mkBarrier (b_count b) []]> bs));;
        modify (fun s => set_waiting (foldr delete (waiting s) (b_arrived b)) s)
      else
        modify (set_barriers (<[bar := mkBarrier (b_count b) (b_arrived b ++ [t])]> bs));;
        modify (fun s => set_waiting (<[t := AtBarrier bar]> (waiting s)) s)
  end.

Definition __mutex_init (lock : Z) : Y unit :=
  ls ← gets locks;
  match ls !! lock with
  | Some _ => throw (EUndefined "mutex initialised twice")
  | None => modify (set_locks (<[lock := None]> ls))
  end.

Definition __mutex_lock (t : nat) (lock : Z) : Y unit :=
  ls ← gets locks;
  match ls !! lock with
  | None => throw (EUndefined "mutex not initialised")
  | Some None => modify (set_locks (<[lock := Some t]> ls))
  | Some (Some _) => modify (fun s => set_waiting (<[t := AtMutex lock]> (waiting s)) s)
  end.

Definition __mutex_unlock (t : nat) (lock : Z) : Y unit :=
  ls ← gets locks;
  match ls !! lock with
  | Some (Some o) => if decide (o = t) then modify (set_locks (<[lock := None]> ls)) else throw (EUndefined "mutex of another thread")
  | _ => throw (EUndefined "mutex not locked")
  end.

(** A thread that waits for a mutex gets it. *)
Definition granted (t : nat) : Y unit :=
  s ← get;
  match waiting s !! t with
  | Some (AtMutex lock) =>
      match locks s !! lock with
      | Some None => modify (set_locks (<[lock := Some t]> (locks s)));; modify (fun s => set_waiting (delete t (waiting s)) s)
      | _ => throw (EUndefined "not enabled")
      end
  | _ => throw (EUndefined "not enabled")
  end.

Inductive sync_label :=
  | BarrierInit (bar count : Z) | BarrierWait (t : nat) (bar : Z)
  | MutexInit (lock : Z) | MutexLock (t : nat) (lock : Z) | MutexUnlock (t : nat) (lock : Z)
  | Granted (t : nat).

(** A thread that waits does not call. *)
Definition sync_call (t : nat) (m : Y unit) : Y unit :=
  s ← get; if decide (waiting s !! t = None) then m else throw (EUndefined "not enabled").
Definition sync_step (l : sync_label) : Y unit :=
  match l with
  | BarrierInit bar count => __barrier_init bar count
  | BarrierWait t bar => sync_call t (__barrier_wait t bar)
  | MutexInit lock => __mutex_init lock
  | MutexLock t lock => sync_call t (__mutex_lock t lock)
  | MutexUnlock t lock => sync_call t (__mutex_unlock t lock)
  | Granted t => granted t
  end.
Inductive sync_reachable : Sync -> Prop :=
  | sync_boot : sync_reachable sync_start
  | sync_next l s s' : sync_reachable s -> sync_step l s = Ok (tt, s') -> sync_reachable s'.
End EmuSync.
