(* ===== verification/EmuProps.v ===== *)
(** * Correctness of the emulation library

    Under every interleaving: mutual exclusion, bounded FIFO queues, and no
    lost wake-up of a thread that waits to push, to pop or to be woken. *)

From S2P Require Import Prelude Emu.

(** ** Where a thread is *)

Definition push_key (p : pc) : option key :=
  match p with
  | PushAcq k _ | PushTest k _ | PushWait k _ | PushNotify k | PushRel k => Some k
  | _ => None
  end.
Definition pop_key (p : pc) : option key :=
  match p with
  | PopAcq k | PopTest k | PopWait k | PopNotify k _ | PopRel k _ => Some k
  | _ => None
  end.
Definition sleep_pe (p : pc) : option Z :=
  match p with
  | SleepAcq e | SleepInc e | SleepTest e | SleepWait e | SleepReacq e | SleepRel e => Some e
  | _ => None
  end.
Definition wake_pe (p : pc) : option Z :=
  match p with WakeAcq e | WakeDec e | WakeNotify e | WakeRel e => Some e | _ => None end.

(** The mutex a thread holds. *)
Definition in_queue_section (p : pc) : option key :=
  match p with
  | PushTest k _ | PushNotify k | PushRel k | PopTest k | PopNotify k _ | PopRel k _ => Some k
  | _ => None
  end.
Definition in_pe_section (p : pc) : option Z :=
  match p with
  | SleepInc e | SleepTest e | SleepRel e | WakeDec e | WakeNotify e | WakeRel e => Some e
  | _ => None
  end.

(** What a pop has taken and is about to return. *)
Definition returns (p : pc) : option (key * Z) :=
  match p with PopNotify k d | PopRel k d => Some (k, d) | _ => None end.

Lemma returns_section p k d : returns p = Some (k, d) -> in_queue_section p = Some k.
Proof. destruct p; naive_solver. Qed.

Definition on_queue (k : key) (p : pc) : Prop := push_key p = Some k \/ pop_key p = Some k.
Definition on_pe (e : Z) (p : pc) : Prop := sleep_pe p = Some e \/ wake_pe p = Some e.

(** Sleeps minus wakes of a PE. *)
Fixpoint balance (pe : Z) (log : list (Z * Z)) : Z :=
  match log with
  | [] => 0
  | (e, d) :: l => (if e =? pe then d else 0) + balance pe l
  end.

(** ** The invariant *)

Section Invariant.
Implicit Types f : nat -> pc.

(** A thread works for the PE it registered. *)
Definition thread_ok (ids : gmap nat Z) (n : nat) (qs : gmap key q_intfc_t) (t : nat) (p : pc) : Prop :=
  (forall k, push_key p = Some k -> ids !! t = Some k.1 /\ is_Some (qs !! k))
  /\ (forall k, pop_key p = Some k -> ids !! t = Some k.2 /\ is_Some (qs !! k))
  /\ (forall e, sleep_pe p = Some e -> ids !! t = Some e)
  /\ (forall e, on_pe e p -> (Z.to_nat e < n)%nat /\ 0 <= e).

Record queue_ok f (k : key) (q : q_intfc_t) : Prop := {
  qo_lock : forall t, q_m q = Some t <-> in_queue_section (f t) = Some k;
  qo_fifo : q_pushed q = q_popped q ++ q_data q;
  qo_cap : Z.of_nat (length (q_data q)) <= q_size q;
  qo_full : forall t d, f t = PushWait k d ->
    Z.of_nat (length (q_data q)) = q_size q \/ exists c d', f c = PopNotify k d';
  qo_empty : forall t, f t = PopWait k -> q_data q = [] \/ exists c, f c = PushNotify k;
  qo_ret : forall t d, returns (f t) = Some (k, d) -> last (q_popped q) = Some d
}.

Record pe_ok f (log : list (Z * Z)) (e : Z) (m : option nat) (c : Z) : Prop := {
  po_lock : forall t, m = Some t <-> in_pe_section (f t) = Some e;
  po_count : c = balance e log;
  po_wait : forall t, f t = SleepWait e -> 0 < c \/ exists w, f w = WakeNotify e
}.

(** A monitor is not affected by threads that are not at it. *)
Lemma queue_ok_frame f f' k q :
  (forall t, on_queue k (f t) \/ on_queue k (f' t) -> f t = f' t) ->
  queue_ok f k q -> queue_ok f' k q.
Proof.
  intros Hf [Hl Hfi Hc Hfu He Hr].
  assert (forall t p, on_queue k p -> f' t = p <-> f t = p) as Heq.
  { intros t p Hp. split; intros <-; [symmetry|]; rewrite Hf; auto. }
  split; try done.
  - intros t. rewrite Hl. split; intros Ht.
    + rewrite <- Hf; [done|]. left. unfold on_queue. by destruct (f t); simpl in *; auto.
    + rewrite Hf; [done|]. right. unfold on_queue. by destruct (f' t); simpl in *; auto.
  - intros t d Ht%Heq; [|by left]. destruct (Hfu t d Ht) as [|(c & d' & Hc')]; [by left|].
    right. exists c, d'. apply Heq; [by right|done].
  - intros t Ht%Heq; [|by right]. destruct (He t Ht) as [|(c & Hc')]; [by left|].
    right. exists c. apply Heq; [by left|done].
  - intros t d Ht. rewrite <- (Hf t) in Ht; [eauto|]. right. right. by destruct (f' t); naive_solver.
Qed.

Lemma pe_ok_frame f f' log e m c :
  (forall t, on_pe e (f t) \/ on_pe e (f' t) -> f t = f' t) ->
  pe_ok f log e m c -> pe_ok f' log e m c.
Proof.
  intros Hf [Hl Hb Hw].
  assert (forall t p, on_pe e p -> f' t = p <-> f t = p) as Heq.
  { intros t p Hp. split; intros <-; [symmetry|]; rewrite Hf; auto. }
  split; try done.
  - intros t. rewrite Hl. split; intros Ht.
    + rewrite <- Hf; [done|]. left. unfold on_pe. by destruct (f t); simpl in *; auto.
    + rewrite Hf; [done|]. right. unfold on_pe. by destruct (f' t); simpl in *; auto.
  - intros t Ht%Heq; [|by left]. destruct (Hw t Ht) as [|(w & Hw')]; [by left|].
    right. exists w. apply Heq; [by right|done].
Qed.

End Invariant.

Record emu_inv (s : Emu) : Prop := {
  ei_ids : forall t t' c, tid_to_core_id_map s !! t = Some c -> tid_to_core_id_map s !! t' = Some c -> t = t';
  ei_range : forall t c, tid_to_core_id_map s !! t = Some c -> 0 <= c < 2 ^ 32;
  ei_len : length (mutexes s) = length (sleep_cntr s);
  ei_threads : forall t, thread_ok (tid_to_core_id_map s) (length (mutexes s)) (queues s) t (pc_of s t);
  ei_queues : forall k q, queues s !! k = Some q -> queue_ok (pc_of s) k q;
  ei_pes : forall e m c, 0 <= e -> mutexes s !! Z.to_nat e = Some m -> sleep_cntr s !! Z.to_nat e = Some c ->
    pe_ok (pc_of s) (pe_log s) e m c
}.

(** ** Steps at a queue *)

Definition upd (f : nat -> pc) (t : nat) (p : pc) : nat -> pc :=
  fun t' => if decide (t' = t) then p else f t'.

Lemma pc_of_set t p s t' : pc_of (set_pc t p s) t' = upd (pc_of s) t p t'.
Proof.
  unfold pc_of, upd, set_pc; simpl. case_decide as Ht; [subst; by rewrite lookup_insert_eq|].
  by rewrite lookup_insert_ne.
Qed.

(** A thread stays in its call on the queue, or leaves the library. *)
Definition at_queue (k : key) (p p' : pc) : Prop :=
  p = p' \/ (push_key p = Some k /\ (push_key p' = Some k \/ p' = Idle))
  \/ (pop_key p = Some k /\ (pop_key p' = Some k \/ p' = Idle)).
Definition at_pe (e : Z) (p p' : pc) : Prop :=
  p = p' \/ (sleep_pe p = Some e /\ (sleep_pe p' = Some e \/ p' = Idle))
  \/ (wake_pe p = Some e /\ (wake_pe p' = Some e \/ p' = Idle)).

Ltac pc_case H := let H' := fresh in destruct H as [->|[[H [H'| ->]]|[H [H'| ->]]]]; [done|..].

Lemma at_queue_keys k p p' : at_queue k p p' -> p <> p' ->
  (forall k', on_queue k' p \/ on_queue k' p' -> k' = k) /\ (forall e, ~ on_pe e p /\ ~ on_pe e p').
Proof.
  unfold at_queue, on_queue, on_pe. intros H Hne.
  pc_case H; destruct p; try discriminate; try destruct p'; try discriminate; simpl in *;
    simplify_eq; split_and!; intros; intuition congruence.
Qed.

Lemma at_pe_keys e p p' : at_pe e p p' -> p <> p' ->
  (forall k, ~ on_queue k p /\ ~ on_queue k p') /\ (forall e', on_pe e' p \/ on_pe e' p' -> e' = e).
Proof.
  unfold at_pe, on_queue, on_pe. intros H Hne.
  pc_case H; destruct p; try discriminate; try destruct p'; try discriminate; simpl in *;
    simplify_eq; split_and!; intros; intuition congruence.
Qed.

Lemma thread_ok_at_queue ids n qs qs' k t p p' :
  at_queue k p p' -> (forall k, is_Some (qs !! k) -> is_Some (qs' !! k)) ->
  thread_ok ids n qs t p -> thread_ok ids n qs' t p'.
Proof.
  intros Hat Hqs (Hpu & Hpo & Hsl & Hpe). unfold at_queue, thread_ok, on_pe in *.
  destruct Hat as [->|[[H [H'| ->]]|[H [H'| ->]]]]; [| |naive_solver| |naive_solver].
  - split_and!; auto; intros k' Hk'; [destruct (Hpu k' Hk')|destruct (Hpo k' Hk')]; auto.
  - destruct (Hpu _ H). split_and!; intros ? Hk'; destruct p'; naive_solver.
  - destruct (Hpo _ H). split_and!; intros ? Hk'; destruct p'; naive_solver.
Qed.

Lemma thread_ok_at_pe ids n qs e t p p' :
  at_pe e p p' -> thread_ok ids n qs t p -> thread_ok ids n qs t p'.
Proof.
  intros Hat (Hpu & Hpo & Hsl & Hpe). unfold at_pe, thread_ok, on_pe in *.
  destruct Hat as [->|[[H [H'| ->]]|[H [H'| ->]]]]; [by auto| |naive_solver| |naive_solver].
  - pose proof (Hsl _ H). pose proof (Hpe e (or_introl H)).
    split_and!; intros ? Hk'; destruct p'; naive_solver.
  - pose proof (Hpe e (or_intror H)). split_and!; intros ? Hk'; destruct p'; naive_solver.
Qed.

Lemma queue_step k q' s s' :
  emu_inv s -> queue_ok (pc_of s') k q' ->
  queues s' = <[k := q']> (queues s) ->
  tid_to_core_id_map s' = tid_to_core_id_map s -> mutexes s' = mutexes s ->
  sleep_cntr s' = sleep_cntr s -> pe_log s' = pe_log s ->
  (forall t, at_queue k (pc_of s t) (pc_of s' t)) -> emu_inv s'.
Proof.
  intros [H1 H2 H3 H4 H5 H6] Hk Eq Ei Em Es El Hat.
  assert (forall t, pc_of s t <> pc_of s' t -> _) as Hne
    by (intros t; exact (at_queue_keys k _ _ (Hat t))).
  split; rewrite ?Ei, ?Em, ?Es, ?El; try done.
  - intros t. eapply (thread_ok_at_queue _ _ (queues s)); [done| |by auto].
    intros k'. rewrite Eq, !lookup_insert_is_Some. destruct (decide (k = k')); naive_solver.
  - intros k' q. rewrite Eq. destruct (decide (k = k')) as [<-|Hk'].
    + rewrite lookup_insert_eq. by intros [= <-].
    + rewrite lookup_insert_ne by done. intros Hq. apply (queue_ok_frame (pc_of s)); [|by auto].
      intros t Ht. destruct (decide (pc_of s t = pc_of s' t)) as [|[Hn _]%Hne]; [done|].
      by apply Hn in Ht.
  - intros e m c He Hm Hc. apply (pe_ok_frame (pc_of s)); [|by auto].
    intros t Ht. destruct (decide (pc_of s t = pc_of s' t)) as [|[_ Hn]%Hne]; [done|].
    destruct (Hn e). tauto.
Qed.

Lemma balance_app e l l' : balance e (l ++ l') = balance e l + balance e l'.
Proof. induction l as [|[e' d] l IH]; simpl; lia. Qed.

Lemma pe_step e m' c' l s s' :
  emu_inv s -> 0 <= e -> (Z.to_nat e < length (mutexes s))%nat ->
  pe_ok (pc_of s') (pe_log s') e m' c' ->
  mutexes s' = <[Z.to_nat e := m']> (mutexes s) -> sleep_cntr s' = <[Z.to_nat e := c']> (sleep_cntr s) ->
  pe_log s' = pe_log s ++ l -> (forall e', e' <> e -> balance e' l = 0) ->
  queues s' = queues s -> tid_to_core_id_map s' = tid_to_core_id_map s ->
  (forall t, at_pe e (pc_of s t) (pc_of s' t)) -> emu_inv s'.
Proof.
  intros [H1 H2 H3 H4 H5 H6] He Hlen Hk Em Es El Hl Eq Ei Hat.
  assert (forall t, pc_of s t <> pc_of s' t -> _) as Hne
    by (intros t; exact (at_pe_keys e _ _ (Hat t))).
  split; rewrite ?Ei, ?Eq, ?Em, ?Es, ?length_insert; try done.
  - intros t. eapply thread_ok_at_pe; [done|by auto].
  - intros k q Hq. apply (queue_ok_frame (pc_of s)); [|by auto].
    intros t Ht. destruct (decide (pc_of s t = pc_of s' t)) as [|[Hn _]%Hne]; [done|].
    destruct (Hn k). tauto.
  - intros e' m c He' Hm Hc. destruct (decide (e' = e)) as [->|Hee].
    + rewrite list_lookup_insert_eq in Hm by lia. rewrite list_lookup_insert_eq in Hc by lia. by simplify_eq.
    + rewrite list_lookup_insert_ne in Hm by lia. rewrite list_lookup_insert_ne in Hc by lia.
      assert (pe_ok (pc_of s) (pe_log s) e' m c) as Hp by auto.
      assert (pe_ok (pc_of s) (pe_log s') e' m c) as Hp'.
      { destruct Hp as [Hpl Hpb Hpw]. split; try done. rewrite El, balance_app, Hl by done. lia. }
      apply (pe_ok_frame (pc_of s)); [|done].
      intros t Ht. destruct (decide (pc_of s t = pc_of s' t)) as [|[_ Hn]%Hne]; [done|].
      by apply Hn in Ht.
Qed.

Lemma queue_ok_ext f f' k q : (forall t, f' t = f t) -> queue_ok f k q -> queue_ok f' k q.
Proof. intros Hf. apply queue_ok_frame. by intros. Qed.
Lemma pe_ok_ext f f' log e m c : (forall t, f' t = f t) -> pe_ok f log e m c -> pe_ok f' log e m c.
Proof. intros Hf. apply pe_ok_frame. by intros. Qed.

Ltac upd_cases := unfold upd in *; repeat case_decide; simplify_eq/=.

Section QueueTransitions.
Context (f : nat -> pc) (k : key) (q : q_intfc_t) (t : nat).
Context (Hq : queue_ok f k q).
Context (Hpush : forall t', push_key (f t) = Some k -> push_key (f t') = Some k -> t' = t).
Context (Hpop : forall t', pop_key (f t) = Some k -> pop_key (f t') = Some k -> t' = t).

Lemma nobody_inside t' : q_m q = None -> in_queue_section (f t') <> Some k.
Proof. intros Hn Hin. apply (qo_lock _ _ _ Hq) in Hin. congruence. Qed.

Lemma owner_alone t' : q_m q = Some t -> in_queue_section (f t') = Some k -> t' = t.
Proof. intros Hm Hin. apply (qo_lock _ _ _ Hq) in Hin. congruence. Qed.

Lemma queue_lock_ok p :
  q_m q = None -> in_queue_section p = Some k -> returns p = None ->
  queue_ok (upd f t p) k (with_lock (Some t) q).
Proof.
  intros Hn Hp Hpr. pose proof (fun t' => nobody_inside t' Hn) as Hno. destruct Hq as [Hl Hf Hc Hfu He Hr].
  split; simpl; try done.
  - intros t'. upd_cases; [done|]. split; [congruence|]. intros Hin. by destruct (Hno t').
  - intros t' d Ht. upd_cases. destruct (Hfu t' d Ht) as [|(c & d' & Hc')]; [by left|].
    destruct (Hno c). by rewrite Hc'.
  - intros t' Ht. upd_cases. destruct (He t' Ht) as [|(c & Hc')]; [by left|].
    destruct (Hno c). by rewrite Hc'.
  - intros t' d Ht. upd_cases; eauto; congruence.
Qed.

Lemma queue_unlock_ok p :
  q_m q = Some t -> in_queue_section p <> Some k ->
  (forall d, f t <> PopNotify k d) -> f t <> PushNotify k ->
  (forall d, p = PushWait k d -> Z.of_nat (length (q_data q)) = q_size q) ->
  (p = PopWait k -> q_data q = []) ->
  queue_ok (upd f t p) k (with_lock None q).
Proof.
  intros Hm Hp Hn1 Hn2 Hw1 Hw2. pose proof (fun t' => owner_alone t' Hm) as Hown.
  destruct Hq as [Hl Hf Hc Hfu He Hr]. split; simpl; try done.
  - intros t'. split; [done|]. upd_cases; [done|]. by intros ->%Hown.
  - intros t' d Ht. left. upd_cases; [eauto|]. destruct (Hfu t' d Ht) as [|(c & d' & Hc')]; [done|].
    assert (c = t) as -> by (apply Hown; by rewrite Hc'). by destruct (Hn1 d').
  - intros t' Ht. left. upd_cases; [eauto|]. destruct (He t' Ht) as [|(c & Hc')]; [done|].
    assert (c = t) as -> by (apply Hown; by rewrite Hc'). done.
  - intros t' d Ht. upd_cases; [by apply returns_section in Ht|eauto].
Qed.

Lemma queue_push_ok d :
  f t = PushTest k d -> Z.of_nat (length (q_data q)) <> q_size q ->
  queue_ok (upd f t (PushNotify k)) k
    (mkQ (q_data q ++ [d]) (q_size q) (q_m q) (q_pushed q ++ [d]) (q_popped q)).
Proof.
  intros Ht Hlen. destruct Hq as [Hl Hf Hc Hfu He Hr]. split; simpl.
  - intros t'. rewrite Hl. upd_cases; [|done]. by rewrite Ht.
  - by rewrite Hf, app_assoc.
  - rewrite length_app; simpl. lia.
  - intros t' d' Ht'. upd_cases. assert (t' = t) as ->; [|done]. apply Hpush; by rewrite ?Ht, ?Ht'.
  - intros t' Ht'. right. exists t. by upd_cases.
  - intros t' d' Ht'. upd_cases; eauto.
Qed.

Lemma queue_pop_ok d rest :
  f t = PopTest k -> q_data q = d :: rest ->
  queue_ok (upd f t (PopNotify k d)) k
    (mkQ rest (q_size q) (q_m q) (q_pushed q) (q_popped q ++ [d])).
Proof.
  intros Ht Hd. destruct Hq as [Hl Hf Hc Hfu He Hr]. split; simpl.
  - intros t'. rewrite Hl. upd_cases; [|done]. by rewrite Ht.
  - by rewrite Hf, Hd, <- app_assoc.
  - rewrite Hd in Hc. simpl in Hc. lia.
  - intros t' d' Ht'. right. exists t, d. by upd_cases.
  - intros t' Ht'. upd_cases. assert (t' = t) as ->; [|done]. apply Hpop; by rewrite ?Ht, ?Ht'.
  - intros t' d' Ht'. rewrite last_snoc. upd_cases; [done|].
    assert (q_m q = Some t) by (apply Hl; by rewrite Ht).
    apply returns_section, Hl in Ht'. congruence.
Qed.

(** The notifier leaves the notification point; nobody is left waiting behind it. *)
Lemma queue_notify_ok f' p :
  q_m q = Some t -> in_queue_section p = Some k ->
  (f t = PushNotify k /\ p = PushRel k /\ (forall c, f' c <> PopWait k)
   \/ exists d, f t = PopNotify k d /\ p = PopRel k d /\ forall c d', f' c <> PushWait k d') ->
  (forall c, in_queue_section (f' c) = in_queue_section (f c)) ->
  (forall c d, f' c = PushWait k d -> f c = PushWait k d) -> (forall c, f' c = PopWait k -> f c = PopWait k) ->
  queue_ok (upd f' t p) k q.
Proof.
  intros Hm Hp Hcase Hsec Hw1 Hw2. pose proof (fun t' => owner_alone t' Hm) as Hown.
  destruct Hq as [Hl Hf Hc Hfu He Hr]. split; try done.
  - intros t'. rewrite Hl. upd_cases; [|by rewrite Hsec]. rewrite Hp, <- Hl. done.
  - intros t' d Ht'. upd_cases.
    destruct Hcase as [(Ht & -> & Hno)|(d' & Ht & -> & Hno)]; [|by destruct (Hno t' d)].
    left. apply Hw1 in Ht' as Ht''. destruct (Hfu _ _ Ht'') as [|(c & d' & Hc')]; [done|].
    assert (c = t) as -> by (apply Hown; by rewrite Hc'). congruence.
  - intros t' Ht'. upd_cases.
    destruct Hcase as [(Ht & -> & Hno)|(d' & Ht & -> & Hno)]; [by destruct (Hno t')|].
    left. apply Hw2 in Ht' as Ht''. destruct (He _ Ht'') as [|(c & Hc')]; [done|].
    assert (c = t) as -> by (apply Hown; by rewrite Hc'). congruence.
  - intros t' d Ht'. upd_cases.
    + destruct Hcase as [(Ht & -> & _)|(d' & Ht & -> & _)]; [done|]. simplify_eq/=.
      apply (Hr t). by rewrite Ht.
    + apply returns_section in Ht'. rewrite Hsec in Ht'. by apply Hown in Ht'.
Qed.
End QueueTransitions.

Section PETransitions.
Context (f : nat -> pc) (log : list (Z * Z)) (e : Z) (m : option nat) (c : Z) (t : nat).
Context (Hpe : pe_ok f log e m c).

Lemma pe_owner_alone t' : m = Some t -> in_pe_section (f t') = Some e -> t' = t.
Proof. intros Hm Hin. apply (po_lock _ _ _ _ _ Hpe) in Hin. congruence. Qed.

Lemma pe_lock_ok p :
  m = None -> in_pe_section p = Some e -> pe_ok (upd f t p) log e (Some t) c.
Proof.
  intros Hn Hp. destruct Hpe as [Hl Hb Hw]. split; try done.
  - intros t'. upd_cases; [done|]. rewrite <- Hl. split; congruence.
  - intros t' Ht. upd_cases. destruct (Hw t' Ht) as [|(w & Hw')]; [by left|].
    assert (in_pe_section (f w) = Some e) as Hin%Hl by (by rewrite Hw'). congruence.
Qed.

Lemma pe_unlock_ok p :
  m = Some t -> in_pe_section p <> Some e -> f t <> WakeNotify e ->
  (p = SleepWait e -> 0 < c) -> pe_ok (upd f t p) log e None c.
Proof.
  intros Hm Hp Hn Hc. pose proof (fun t' => pe_owner_alone t' Hm) as Hown.
  destruct Hpe as [Hl Hb Hw]. split; try done.
  - intros t'. split; [done|]. upd_cases; [done|]. by intros ->%Hown.
  - intros t' Ht. left. upd_cases; [eauto|]. destruct (Hw t' Ht) as [|(w & Hw')]; [done|].
    assert (w = t) as -> by (apply Hown; by rewrite Hw'). done.
Qed.

(** The owner moves on inside its section. *)
Lemma pe_inside_ok p d :
  in_pe_section (f t) = Some e -> in_pe_section p = Some e -> f t <> WakeNotify e ->
  0 <= d \/ p = WakeNotify e ->
  pe_ok (upd f t p) (log ++ if decide (d = 0) then [] else [(e, d)]) e m (c + d).
Proof.
  intros Ht Hp Hn Hd. destruct Hpe as [Hl Hb Hw]. split.
  - intros t'. rewrite Hl. upd_cases; [|done]. by rewrite Ht, Hp.
  - rewrite balance_app, Hb. case_decide; simpl; [lia|]. rewrite Z.eqb_refl. lia.
  - intros t' Ht'. upd_cases. destruct Hd as [Hd| ->]; [|right; exists t; by upd_cases].
    destruct (Hw t' Ht') as [|(w & Hw')]; [left; lia|]. right. exists w.
    destruct (decide (w = t)); [congruence|]. by upd_cases.
Qed.

Lemma pe_notify_ok f' p :
  m = Some t -> in_pe_section p = Some e -> (forall w, f' w <> SleepWait e) ->
  (forall w, in_pe_section (f' w) = in_pe_section (f w)) -> pe_ok (upd f' t p) log e m c.
Proof.
  intros Hm Hp Hno Hsec. destruct Hpe as [Hl Hb Hw]. split; try done.
  - intros t'. rewrite Hl. upd_cases; [|by rewrite Hsec]. rewrite Hp, <- Hl. done.
  - intros t' Ht'. upd_cases. by destruct (Hno t').
Qed.
End PETransitions.

(** ** Every step preserves the invariant *)

Lemma the_queue_ok k s q s' :
  the_queue k s = Ok (q, s') <-> queues s !! k = Some q /\ s' = s.
Proof.
  unfold the_queue. rewrite bind_gets. destruct (queues s !! k); [|rewrite throw_ok; naive_solver].
  rewrite ret_ok. naive_solver.
Qed.

Lemma the_pe_ok e s x s' :
  the_pe e s = Ok (x, s') <->
  (mutexes s !! Z.to_nat e = Some (pe_m x) /\ sleep_cntr s !! Z.to_nat e = Some (pe_cntr x)) /\ s' = s.
Proof.
  unfold the_pe. rewrite !bind_gets.
  destruct (mutexes s !! Z.to_nat e), (sleep_cntr s !! Z.to_nat e); rewrite ?throw_ok, ?ret_ok; destruct x; naive_solver.
Qed.

Lemma emu_unique_push s k t t' :
  emu_inv s -> push_key (pc_of s t) = Some k -> push_key (pc_of s t') = Some k -> t' = t.
Proof.
  intros Hs [H _]%(proj1 (ei_threads _ Hs t)) [H' _]%(proj1 (ei_threads _ Hs t')).
  by eapply (ei_ids _ Hs).
Qed.
Lemma emu_unique_pop s k t t' :
  emu_inv s -> pop_key (pc_of s t) = Some k -> pop_key (pc_of s t') = Some k -> t' = t.
Proof.
  intros Hs [H _]%(proj1 (proj2 (ei_threads _ Hs t))) [H' _]%(proj1 (proj2 (ei_threads _ Hs t'))).
  by eapply (ei_ids _ Hs).
Qed.
Lemma emu_unique_sleep s e t t' :
  emu_inv s -> sleep_pe (pc_of s t) = Some e -> sleep_pe (pc_of s t') = Some e -> t' = t.
Proof.
  intros Hs H%(proj1 (proj2 (proj2 (ei_threads _ Hs t)))) H'%(proj1 (proj2 (proj2 (ei_threads _ Hs t')))).
  by eapply (ei_ids _ Hs).
Qed.

(** Moving one thread at a queue. *)
Lemma queue_move k q' t p s :
  emu_inv s -> at_queue k (pc_of s t) p -> queue_ok (upd (pc_of s) t p) k q' ->
  emu_inv (set_pc t p (set_queues (<[k := q']> (queues s)) s)).
Proof.
  intros Hs Hat Hq. eapply (queue_step k q' s); try done.
  - eapply queue_ok_ext; [|exact Hq]. intros t'. etrans; [apply pc_of_set|done].
  - intros t'. rewrite pc_of_set. unfold upd. case_decide; subst; [done|by left].
Qed.

Lemma pe_move e m c l t p s :
  emu_inv s -> at_pe e (pc_of s t) p -> on_pe e (pc_of s t) ->
  pe_ok (upd (pc_of s) t p) (pe_log s ++ l) e m c -> (forall e', e' <> e -> balance e' l = 0) ->
  emu_inv (set_pc t p (set_pes (<[Z.to_nat e := m]> (mutexes s)) (<[Z.to_nat e := c]> (sleep_cntr s))
                         (pe_log s ++ l) s)).
Proof.
  intros Hs Hat Hon Hp Hl. pose proof (proj2 (proj2 (proj2 (ei_threads _ Hs t))) e Hon) as [Hlt He].
  eapply (pe_step e m c l s); try done.
  - eapply pe_ok_ext; [|exact Hp]. intros t'. etrans; [apply pc_of_set|done].
  - intros t'. rewrite pc_of_set. unfold upd. case_decide; subst; [done|by left].
Qed.

Lemma lock_queue_inv t k p s s' :
  emu_inv s -> at_queue k (pc_of s t) p -> in_queue_section p = Some k -> returns p = None ->
  (lock_queue t k;; goto t p) s = Ok (tt, s') -> emu_inv s'.
Proof.
  intros Hs Hat Hp Hr (a & s1 & H1 & H2)%bind_ok.
  unfold lock_queue in H1. apply bind_ok in H1 as (q & s2 & [Hq ->]%the_queue_ok & H1).
  destruct (q_m q) eqn:Hm; [by apply throw_ok in H1|].
  apply modify_ok in H1. apply modify_ok in H2. simplify_eq/=.
  apply queue_move; try done. apply queue_lock_ok; try done. by apply (ei_queues _ Hs).
Qed.

Lemma unlock_queue_inv t k p s s' :
  emu_inv s -> at_queue k (pc_of s t) p -> in_queue_section (pc_of s t) = Some k ->
  in_queue_section p <> Some k -> (forall d, pc_of s t <> PopNotify k d) -> pc_of s t <> PushNotify k ->
  (forall d q, p = PushWait k d -> queues s !! k = Some q -> Z.of_nat (length (q_data q)) = q_size q) ->
  (forall q, p = PopWait k -> queues s !! k = Some q -> q_data q = []) ->
  (unlock_queue k;; goto t p) s = Ok (tt, s') -> emu_inv s'.
Proof.
  intros Hs Hat Hin Hp Hn1 Hn2 Hw1 Hw2 (a & s1 & H1 & H2)%bind_ok.
  unfold unlock_queue in H1. apply bind_ok in H1 as (q & s2 & [Hq ->]%the_queue_ok & H1).
  apply modify_ok in H1. apply modify_ok in H2. simplify_eq/=.
  pose proof (ei_queues _ Hs _ _ Hq) as Hok. apply (qo_lock _ _ _ Hok) in Hin.
  apply queue_move; try done. apply queue_unlock_ok; eauto.
Qed.

Lemma push_body_inv t k d s s' :
  emu_inv s -> pc_of s t = PushTest k d -> push_body t k d s = Ok (tt, s') -> emu_inv s'.
Proof.
  intros Hs Ht. unfold push_body. intros (q & s2 & [Hq ->]%the_queue_ok & H)%bind_ok.
  destruct (Z.eqb_spec (Z.of_nat (length (q_data q))) (q_size q)) as [Hlen|Hlen].
  - eapply unlock_queue_inv in H; rewrite ?Ht; try done; [by right; left; auto|].
    intros d' q' _ Hq'. congruence.
  - apply bind_ok in H as (a & s1 & H1 & H2). apply modify_ok in H1, H2. simplify_eq/=.
    apply queue_move; [done|rewrite Ht; right; left; auto|].
    apply queue_push_ok; [by apply (ei_queues _ Hs)| |done..].
    intros t'. by apply emu_unique_push.
Qed.

Lemma pop_body_inv t k s s' :
  emu_inv s -> pc_of s t = PopTest k -> pop_body t k s = Ok (tt, s') -> emu_inv s'.
Proof.
  intros Hs Ht. unfold pop_body. intros (q & s2 & [Hq ->]%the_queue_ok & H)%bind_ok.
  destruct (q_data q) as [|d rest] eqn:Hd.
  - eapply unlock_queue_inv in H; rewrite ?Ht; try done; [by right; right; auto|].
    intros q' _ Hq'. congruence.
  - apply bind_ok in H as (a & s1 & H1 & H2). apply modify_ok in H1, H2. simplify_eq/=.
    apply queue_move; [done|rewrite Ht; right; right; auto|].
    apply queue_pop_ok; [by apply (ei_queues _ Hs)| | |done..]; intros t';
      [by apply emu_unique_push|by apply emu_unique_pop].
Qed.

(** [notify_one] either moves a waiter or finds none. *)
Lemma notify_one_ok waits w s s' :
  waits Idle = None -> notify_one waits w s = Ok (tt, s') ->
  (exists t p, waits (pc_of s t) = Some p /\ s' = set_pc t p s)
  \/ (forall t, waits (pc_of s t) = None) /\ s' = s.
Proof.
  intros Hidle. unfold notify_one. rewrite bind_gets. destruct w as [t|].
  - change (default Idle (threads s !! t)) with (pc_of s t).
    destruct (waits (pc_of s t)) eqn:E; [|by intros ?%throw_ok].
    intros H%modify_ok. left. naive_solver.
  - case_bool_decide as Hall; [|by intros ?%throw_ok]. intros [= <-]. right. split; [|done].
    intros t. unfold pc_of. destruct (threads s !! t) eqn:E; [by eapply Hall|done].
Qed.

(** With at most one waiter, nobody waits afterwards. *)
Lemma notify_moves waits w s s' :
  waits Idle = None -> (forall p p', waits p = Some p' -> waits p' = None) ->
  (forall t t', is_Some (waits (pc_of s t)) -> is_Some (waits (pc_of s t')) -> t' = t) ->
  notify_one waits w s = Ok (tt, s') ->
  (queues s' = queues s /\ tid_to_core_id_map s' = tid_to_core_id_map s /\ mutexes s' = mutexes s
   /\ sleep_cntr s' = sleep_cntr s /\ pe_log s' = pe_log s)
  /\ (forall t, waits (pc_of s' t) = None)
  /\ forall t, pc_of s' t = pc_of s t \/ waits (pc_of s t) = Some (pc_of s' t).
Proof.
  intros Hi Hout Huniq [(t & p & Hp & ->)|[Hno ->]]%notify_one_ok; [| |done]; split; try done; [|by auto].
  split; intros t'; rewrite pc_of_set; upd_cases; eauto.
  destruct (waits (pc_of s t')) eqn:E; [|done]. destruct (Huniq t t'); by rewrite ?Hp, ?E.
Qed.

Lemma emptyCv_spec k p p' : emptyCv k p = Some p' <-> p = PopWait k /\ p' = PopAcq k.
Proof. destruct p; simpl; try case_decide; naive_solver. Qed.
Lemma fullCv_spec k p p' : fullCv k p = Some p' <-> exists d, p = PushWait k d /\ p' = PushAcq k d.
Proof. destruct p; simpl; try case_decide; naive_solver. Qed.
Lemma cvs_spec e p p' : cvs e p = Some p' <-> p = SleepWait e /\ p' = SleepReacq e.
Proof. destruct p; simpl; try case_decide; naive_solver. Qed.

Lemma push_notify_inv t k w s s' :
  emu_inv s -> pc_of s t = PushNotify k ->
  (notify_one (emptyCv k) w;; goto t (PushRel k)) s = Ok (tt, s') -> emu_inv s'.
Proof.
  intros Hs Ht ([] & s1 & H1 & H2)%bind_ok. apply modify_ok in H2. simplify_eq/=.
  destruct (proj2 (proj1 (ei_threads _ Hs t) k ltac:(by rewrite Ht))) as [q Hq].
  pose proof (ei_queues _ Hs _ _ Hq) as Hok.
  apply notify_moves in H1 as ((E1 & E2 & E3 & E4 & E5) & Hno & Hmv); [|done| |].
  2: { intros p p' [-> ->]%emptyCv_spec. done. }
  2: { intros c c' [p [Hc _]%emptyCv_spec] [p' [Hc' _]%emptyCv_spec].
       eapply emu_unique_pop; [done|by rewrite Hc|by rewrite Hc']. }
  setoid_rewrite emptyCv_spec in Hmv.
  eapply (queue_step k q s); simpl; rewrite ?E1, ?insert_id by done; try done.
  - eapply queue_ok_ext; [intros t'; apply pc_of_set|].
    apply (queue_notify_ok (pc_of s)); try done.
    + apply (qo_lock _ _ _ Hok). by rewrite Ht.
    + left. split_and!; [done..|]. intros c Hc. specialize (Hno c). rewrite Hc in Hno. simpl in Hno. by case_decide.
    + intros c. by destruct (Hmv c) as [->|[-> ->]].
    + intros c d. by destruct (Hmv c) as [->|[-> ->]].
    + intros c. by destruct (Hmv c) as [->|[-> ->]].
  - intros c. rewrite pc_of_set. unfold upd. case_decide; subst; [rewrite Ht; right; left; auto|].
    destruct (Hmv c) as [->|[-> ->]]; [by left|]. right; right; auto.
Qed.

Lemma pop_notify_inv t k d w s s' :
  emu_inv s -> pc_of s t = PopNotify k d ->
  (notify_one (fullCv k) w;; goto t (PopRel k d)) s = Ok (tt, s') -> emu_inv s'.
Proof.
  intros Hs Ht ([] & s1 & H1 & H2)%bind_ok. apply modify_ok in H2. simplify_eq/=.
  destruct (proj2 (proj1 (proj2 (ei_threads _ Hs t)) k ltac:(by rewrite Ht))) as [q Hq].
  pose proof (ei_queues _ Hs _ _ Hq) as Hok.
  apply notify_moves in H1 as ((E1 & E2 & E3 & E4 & E5) & Hno & Hmv); [|done| |].
  2: { intros p p' (? & -> & ->)%fullCv_spec. done. }
  2: { intros c c' [p (? & Hc & _)%fullCv_spec] [p' (? & Hc' & _)%fullCv_spec].
       eapply emu_unique_push; [done|by rewrite Hc|by rewrite Hc']. }
  setoid_rewrite fullCv_spec in Hmv.
  eapply (queue_step k q s); simpl; rewrite ?E1, ?insert_id by done; try done.
  - eapply queue_ok_ext; [intros t'; apply pc_of_set|].
    apply (queue_notify_ok (pc_of s)); try done.
    + apply (qo_lock _ _ _ Hok). by rewrite Ht.
    + right. exists d. split_and!; [done..|]. intros c d' Hc. specialize (Hno c). rewrite Hc in Hno. simpl in Hno. by case_decide.
    + intros c. by destruct (Hmv c) as [->|(? & -> & ->)].
    + intros c d'. by destruct (Hmv c) as [->|(? & -> & ->)].
    + intros c. by destruct (Hmv c) as [->|(? & -> & ->)].
  - intros c. rewrite pc_of_set. unfold upd. case_decide; subst; [rewrite Ht; right; right; auto|].
    destruct (Hmv c) as [->|(? & -> & ->)]; [by left|]. right; left; auto.
Qed.

(** The state of the PE a thread works at. *)
Lemma at_pe_ok s t e x :
  emu_inv s -> on_pe e (pc_of s t) ->
  mutexes s !! Z.to_nat e = Some (pe_m x) -> sleep_cntr s !! Z.to_nat e = Some (pe_cntr x) ->
  pe_ok (pc_of s) (pe_log s) e (pe_m x) (pe_cntr x).
Proof.
  intros Hs Hon Hm Hc. destruct (proj2 (proj2 (proj2 (ei_threads _ Hs t))) e Hon).
  by apply (ei_pes _ Hs).
Qed.

Lemma lock_pe_inv t e p s s' :
  emu_inv s -> at_pe e (pc_of s t) p -> on_pe e (pc_of s t) -> in_pe_section p = Some e ->
  (lock_pe t e;; goto t p) s = Ok (tt, s') -> emu_inv s'.
Proof.
  intros Hs Hat Hon Hp (a & s1 & H1 & H2)%bind_ok.
  unfold lock_pe in H1. apply bind_ok in H1 as (x & s2 & [[Hm Hc] ->]%the_pe_ok & H1).
  destruct (pe_m x) eqn:Em; [by apply throw_ok in H1|].
  apply modify_ok in H1. apply modify_ok in H2. simplify_eq/=.
  apply pe_move; try done. rewrite app_nil_r. eapply pe_lock_ok; try done.
  rewrite <- Em in Hm. by eapply at_pe_ok.
Qed.

Lemma unlock_pe_inv t e p s s' :
  emu_inv s -> at_pe e (pc_of s t) p -> on_pe e (pc_of s t) -> in_pe_section (pc_of s t) = Some e ->
  in_pe_section p <> Some e -> pc_of s t <> WakeNotify e ->
  (p = SleepWait e -> forall c, sleep_cntr s !! Z.to_nat e = Some c -> 0 < c) ->
  (unlock_pe e;; goto t p) s = Ok (tt, s') -> emu_inv s'.
Proof.
  intros Hs Hat Hon Hin Hp Hn Hw (a & s1 & H1 & H2)%bind_ok.
  unfold unlock_pe in H1. apply bind_ok in H1 as (x & s2 & [[Hm Hc] ->]%the_pe_ok & H1).
  apply modify_ok in H1. apply modify_ok in H2. simplify_eq/=.
  pose proof (at_pe_ok _ _ _ _ Hs Hon Hm Hc) as Hok. apply (po_lock _ _ _ _ _ Hok) in Hin.
  apply pe_move; try done. rewrite app_nil_r. eapply pe_unlock_ok; eauto.
Qed.

Lemma count_pe_inv t e d p s s' :
  emu_inv s -> at_pe e (pc_of s t) p -> on_pe e (pc_of s t) -> in_pe_section (pc_of s t) = Some e ->
  in_pe_section p = Some e -> pc_of s t <> WakeNotify e -> d <> 0 -> 0 <= d \/ p = WakeNotify e ->
  (count_pe e d;; goto t p) s = Ok (tt, s') -> emu_inv s'.
Proof.
  intros Hs Hat Hon Hin Hp Hn Hd Hw (a & s1 & H1 & H2)%bind_ok.
  unfold count_pe in H1. apply bind_ok in H1 as (x & s2 & [[Hm Hc] ->]%the_pe_ok & H1).
  case_bool_decide; [|by apply throw_ok in H1].
  apply modify_ok in H1. apply modify_ok in H2. simplify_eq/=.
  apply pe_move; try done.
  - pose proof (pe_inside_ok _ _ _ _ _ t (at_pe_ok _ _ _ _ Hs Hon Hm Hc) p d Hin Hp Hn Hw) as Hres.
    by rewrite decide_False in Hres by done.
  - intros e' He'. simpl. rewrite (proj2 (Z.eqb_neq e e')) by done. lia.
Qed.

Lemma sleep_test_inv t e s s' :
  emu_inv s -> pc_of s t = SleepTest e ->
  (x ← the_pe e;
   if 0 <? pe_cntr x then unlock_pe e;; goto t (SleepWait e) else goto t (SleepRel e)) s = Ok (tt, s') ->
  emu_inv s'.
Proof.
  intros Hs Ht (x & s2 & [[Hm Hc] ->]%the_pe_ok & H)%bind_ok.
  assert (on_pe e (pc_of s t)) as Hon by (rewrite Ht; by left).
  destruct (Z.ltb_spec 0 (pe_cntr x)).
  - eapply unlock_pe_inv in H; rewrite ?Ht; try done; [right; left; auto|by rewrite Ht in Hon|].
    intros _ c Hc'. simplify_eq. done.
  - apply modify_ok in H. simplify_eq.
    pose proof (pe_move e (pe_m x) (pe_cntr x) [] t (SleepRel e) s Hs) as Hmv.
    rewrite !list_insert_id, app_nil_r in Hmv by done.
    replace (set_pc t (SleepRel e) s)
      with (set_pc t (SleepRel e) (set_pes (mutexes s) (sleep_cntr s) (pe_log s) s)) by (by destruct s).
    apply Hmv; [rewrite Ht; right; left; auto|done| |done].
    pose proof (pe_inside_ok _ _ _ _ _ t (at_pe_ok _ _ _ _ Hs Hon Hm Hc) (SleepRel e) 0) as Hres.
    rewrite Ht, decide_True, app_nil_r, Z.add_0_r in Hres by done. apply Hres; try done. by left.
Qed.

Lemma wake_notify_inv t e w s s' :
  emu_inv s -> pc_of s t = WakeNotify e ->
  (notify_one (cvs e) w;; goto t (WakeRel e)) s = Ok (tt, s') -> emu_inv s'.
Proof.
  intros Hs Ht ([] & s1 & H1 & H2)%bind_ok. apply modify_ok in H2. simplify_eq/=.
  assert (on_pe e (pc_of s t)) as Hon by (rewrite Ht; by right).
  destruct (proj2 (proj2 (proj2 (ei_threads _ Hs t))) e Hon) as [Hlt He].
  destruct (lookup_lt_is_Some_2 _ _ Hlt) as [m Hm].
  rewrite (ei_len _ Hs) in Hlt. destruct (lookup_lt_is_Some_2 _ _ Hlt) as [c Hc].
  pose proof (ei_pes _ Hs e m c He Hm Hc) as Hok.
  apply notify_moves in H1 as ((E1 & E2 & E3 & E4 & E5) & Hno & Hmv); [|done| |].
  2: { intros p p' [-> ->]%cvs_spec. done. }
  2: { intros a b [p [Ha _]%cvs_spec] [p' [Hb _]%cvs_spec].
       eapply emu_unique_sleep; [done|by rewrite Ha|by rewrite Hb]. }
  setoid_rewrite cvs_spec in Hmv.
  eapply (pe_step e m c [] s); simpl; rewrite ?E3, ?E4, ?E5, ?list_insert_id, ?app_nil_r by done; try done.
  - by rewrite (ei_len _ Hs).
  - eapply pe_ok_ext; [intros t'; apply pc_of_set|].
    apply (pe_notify_ok (pc_of s)); try done.
    + apply (po_lock _ _ _ _ _ Hok). by rewrite Ht.
    + intros a Ha. specialize (Hno a). rewrite Ha in Hno. simpl in Hno. by case_decide.
    + intros a. by destruct (Hmv a) as [->|[-> ->]].
  - intros a. rewrite pc_of_set. unfold upd. case_decide; subst; [rewrite Ht; right; right; auto|].
    destruct (Hmv a) as [->|[-> ->]]; [by left|]. right; left; auto.
Qed.

(** Moves outside the sections: entering a call, leaving a wait. *)
Definition quiet (p : pc) : Prop := in_queue_section p = None /\ in_pe_section p = None.
Definition waiting (p : pc) : Prop :=
  match p with PushWait _ _ | PopWait _ | SleepWait _ => True | _ => False end.

Lemma quiet_queue_ok f t p k q :
  quiet (f t) -> quiet p -> ~ waiting p -> queue_ok f k q -> queue_ok (upd f t p) k q.
Proof.
  intros [Hq _] [Hp _] Hw [Hl Hf Hc Hfu He Hr]. split; try done.
  - intros t'. rewrite Hl. upd_cases; [|done]. by rewrite Hq, Hp.
  - intros t' d Ht. upd_cases; [done|]. destruct (Hfu t' d Ht) as [|(c & d' & Hc')]; [by left|].
    right. exists c, d'. upd_cases; [|done]. by rewrite Hc' in Hq.
  - intros t' Ht. upd_cases; [done|]. destruct (He t' Ht) as [|(c & Hc')]; [by left|].
    right. exists c. upd_cases; [|done]. by rewrite Hc' in Hq.
  - intros t' d Ht. upd_cases; [apply returns_section in Ht; congruence|eauto].
Qed.

Lemma quiet_pe_ok f t p log e m c :
  quiet (f t) -> quiet p -> ~ waiting p -> pe_ok f log e m c -> pe_ok (upd f t p) log e m c.
Proof.
  intros [_ Hq] [_ Hp] Hw [Hl Hb Hwt]. split; try done.
  - intros t'. rewrite Hl. upd_cases; [|done]. by rewrite Hq, Hp.
  - intros t' Ht. upd_cases; [done|]. destruct (Hwt t' Ht) as [|(a & Ha)]; [by left|].
    right. exists a. upd_cases; [|done]. by rewrite Ha in Hq.
Qed.

Lemma quiet_move t p s :
  emu_inv s -> quiet (pc_of s t) -> quiet p -> ~ waiting p ->
  thread_ok (tid_to_core_id_map s) (length (mutexes s)) (queues s) t p -> emu_inv (set_pc t p s).
Proof.
  intros [H1 H2 H3 H4 H5 H6] Hq Hp Hw Hth. split; simpl; try done.
  - intros t'. rewrite pc_of_set. unfold upd. case_decide; subst; auto.
  - intros k q Hk. eapply queue_ok_ext; [intros t'; apply pc_of_set|]. by apply quiet_queue_ok; auto.
  - intros e m c He Hm Hc. eapply pe_ok_ext; [intros t'; apply pc_of_set|]. by apply quiet_pe_ok; auto.
Qed.

Lemma spurious_inv t s s' : emu_inv s -> spurious t s = Ok (tt, s') -> emu_inv s'.
Proof.
  intros Hs. pose proof (ei_threads _ Hs t) as Hth. unfold spurious.
  intros (s0 & s1 & [= <- <-] & H)%bind_ok.
  destruct (pc_of s t) eqn:Ht; try by apply throw_ok in H.
  all: apply modify_ok in H; simplify_eq; apply quiet_move; rewrite ?Ht; try done; try by intros [].
  all: unfold thread_ok, on_pe in *; destruct Hth as (Ha & Hb & Hc & Hd); split_and!; simpl in *;
    intuition congruence.
Qed.

Lemma run_inv t w s s' : emu_inv s -> run t w s = Ok (tt, s') -> emu_inv s'.
Proof.
  intros Hs. unfold run. intros (s0 & s1 & [= <- <-] & H)%bind_ok.
  destruct (pc_of s t) eqn:Ht; try by apply throw_ok in H.
  all: first
    [ by eapply push_body_inv in H | by eapply pop_body_inv in H
    | by eapply push_notify_inv in H | by eapply pop_notify_inv in H
    | by eapply sleep_test_inv in H | by eapply wake_notify_inv in H
    | eapply lock_queue_inv in H; rewrite ?Ht; try done; unfold at_queue; simpl; by auto
    | eapply unlock_queue_inv in H; rewrite ?Ht; try done; unfold at_queue; simpl; by auto
    | eapply lock_pe_inv in H; rewrite ?Ht; try done; unfold at_pe, on_pe; simpl; by auto
    | eapply unlock_pe_inv in H; rewrite ?Ht; try done; unfold at_pe, on_pe; simpl; by auto
    | eapply count_pe_inv in H; rewrite ?Ht; try done; unfold at_pe, on_pe; simpl; auto; by left ].
Qed.

(** A registered PE number fits in [unsigned]: [get_id] gives it back. *)
Lemma u32_sgn c : 0 <= c < 2 ^ 32 -> u32 (sgn 32 c) = c.
Proof.
  intros Hc. unfold sgn. cbv zeta. change (wrap 32 c) with (u32 c). unfold u32.
  rewrite (wrap_small 32 c) by done. destruct (Z.leb_spec (2 ^ (32 - 1)) c); [|by apply wrap_small].
  unfold wrap. replace (c - 2 ^ 32) with (c + (-1) * 2 ^ 32) by lia. rewrite Z_mod_plus_full. by apply Z.mod_small.
Qed.

Lemma get_id_ok t s id s' :
  emu_inv s -> get_id t s = Ok (id, s') -> tid_to_core_id_map s !! t = Some (u32 id) /\ s' = s.
Proof.
  intros Hs. unfold get_id. rewrite bind_gets. destruct (tid_to_core_id_map s !! t) eqn:E; [|by intros ?%throw_ok].
  intros [= <- <-]. by rewrite u32_sgn by (by eapply ei_range).
Qed.

Lemma call_inv t (m : E unit) s s' :
  emu_inv s -> (pc_of s t = Idle -> m s = Ok (tt, s') -> emu_inv s') -> call t m s = Ok (tt, s') -> emu_inv s'.
Proof.
  intros Hs Hm. unfold call. intros (s0 & s1 & [= <- <-] & H)%bind_ok.
  case_decide; [by auto|by apply throw_ok in H].
Qed.

Lemma call_queue_inv t p k s :
  emu_inv s -> pc_of s t = Idle -> is_Some (queues s !! k) ->
  (exists d, p = PushAcq k d /\ tid_to_core_id_map s !! t = Some k.1)
  \/ p = PopAcq k /\ tid_to_core_id_map s !! t = Some k.2 ->
  emu_inv (set_pc t p s).
Proof.
  intros Hs Ht Hk Hp. apply quiet_move; try done; rewrite ?Ht; try done.
  all: destruct Hp as [(d & -> & Hid)|[-> Hid]]; try done.
  all: unfold thread_ok, on_pe; simpl; naive_solver.
Qed.

Lemma call_pe_inv t p e s :
  emu_inv s -> pc_of s t = Idle -> (Z.to_nat e < length (mutexes s))%nat -> 0 <= e ->
  p = SleepAcq e /\ tid_to_core_id_map s !! t = Some e \/ p = WakeAcq e ->
  emu_inv (set_pc t p s).
Proof.
  intros Hs Ht Hk He Hp. apply quiet_move; try done; rewrite ?Ht; try done.
  all: destruct Hp as [[-> Hid]| ->]; try done.
  all: unfold thread_ok, on_pe; simpl; naive_solver.
Qed.

Lemma register_inv t c s s' :
  emu_inv s -> (forall t', tid_to_core_id_map s !! t' = Some (u32 c) -> t' = t) ->
  __register_core_id t c s = Ok (tt, s') -> emu_inv s'.
Proof.
  intros [H1 H2 H3 H4 H5 H6] Hc [= <-].
  assert (forall t' c', (tid_to_core_id_map s ∪ {[t := u32 c]}) !! t' = Some c' ->
    tid_to_core_id_map s !! t' = Some c' \/ t' = t /\ c' = u32 c) as Hl.
  { intros t' c' [|[_ Hx]]%lookup_union_Some_raw; [by left|]. right.
    apply lookup_singleton_Some in Hx as [-> ->]. done. }
  split; simpl; try done.
  - intros t1 t2 c' [Ha|[-> ->]]%Hl [Hb|[-> Hb]]%Hl; subst; eauto. symmetry. eauto.
  - intros t' c' [Ha|[-> ->]]%Hl; [eauto|]. apply wrap_bound. lia.
  - intros t'. destruct (H4 t') as (Ha & Hb & Hd & He).
    split_and!; intros x Hx; try (by apply He);
      rewrite (lookup_union_Some_l _ _ _ _ (ltac:(first [exact (proj1 (Ha _ Hx))|exact (proj1 (Hb _ Hx))|exact (Hd _ Hx)]))).
    + split; [done|by apply Ha].
    + split; [done|by apply Hb].
    + done.
Qed.

Lemma emu_step_inv l s s' :
  emu_inv s -> register_ok l s -> emu_step l s = Ok (tt, s') -> emu_inv s'.
Proof.
  intros Hs Hr. destruct l as [t c|t sink d|t source|t|t pe|t w|t]; simpl.
  6: by apply run_inv. 6: by apply spurious_inv.
  all: apply call_inv; [done|]; intros Ht.
  - by apply register_inv.
  - intros (id & s1 & [Hid ->]%get_id_ok & H)%bind_ok; [|done]. rewrite bind_gets in H.
    destruct (queues s !! _) eqn:E; [|by apply throw_ok in H]. apply modify_ok in H. simplify_eq.
    eapply call_queue_inv; [done..|]. left. eauto.
  - intros (id & s1 & [Hid ->]%get_id_ok & H)%bind_ok; [|done]. rewrite bind_gets in H.
    destruct (queues s !! _) eqn:E; [|by apply throw_ok in H]. apply modify_ok in H. simplify_eq.
    eapply call_queue_inv; [done..|]. right. eauto.
  - intros (id & s1 & [Hid ->]%get_id_ok & H)%bind_ok; [|done].
    apply bind_ok in H as (x & s2 & [[Hm _] ->]%the_pe_ok & H). apply modify_ok in H. simplify_eq.
    eapply call_pe_inv; [done..|by eapply lookup_lt_Some| |by left]. apply wrap_bound. lia.
  - intros (x & s2 & [[Hm _] ->]%the_pe_ok & H)%bind_ok. apply modify_ok in H. simplify_eq.
    eapply call_pe_inv; [done..|by eapply lookup_lt_Some| |by right]. apply wrap_bound. lia.
Qed.

Lemma emu_boot_inv num_pe depth : emu_inv (__init num_pe depth emu_start).
Proof.
  assert (0 <= u32 depth) by (apply wrap_bound; lia).
  unfold __init, emu_start. split; cbn [tid_to_core_id_map queues mutexes sleep_cntr threads pe_log].
  - intros ???. by rewrite lookup_empty.
  - intros ??. by rewrite lookup_empty.
  - by rewrite !app_nil_l, !length_replicate.
  - intros t. unfold pc_of; simpl. rewrite lookup_empty. unfold thread_ok, on_pe. simpl. naive_solver.
  - intros k q. rewrite map_empty_union. intros Hq%elem_of_list_to_map_2.
    assert (q = new_q (u32 depth)) as -> by (set_unfold; naive_solver).
    split; unfold pc_of; simpl; try done; try (by intros ?; rewrite lookup_empty).
  - intros e m c _ [-> _]%lookup_replicate_1 [-> _]%lookup_replicate_1.
    split; unfold pc_of; simpl; try done; intros t; rewrite lookup_empty; simpl; naive_solver.
Qed.

Lemma emu_reachable_inv num_pe depth s : emu_reachable num_pe depth s -> emu_inv s.
Proof.
  induction 1; [apply emu_boot_inv|by eapply emu_step_inv].
Qed.

(** ** Progress *)

(** A notification always has a thread to pick, or nobody to pick. *)
Lemma notify_enabled waits s : exists w s', notify_one waits w s = Ok (tt, s').
Proof.
  unfold notify_one.
  destruct (decide (map_Forall (fun _ p => waits p = None) (threads s))) as [Hall|Hex].
  - exists None, s. rewrite bind_gets. by rewrite bool_decide_true.
  - apply map_not_Forall in Hex as (t & p & Ht & Hp); [|solve_decision].
    destruct (waits p) as [p'|] eqn:E; [|done].
    exists (Some t), (set_pc t p' s). rewrite bind_gets, Ht. simpl. by rewrite E.
Qed.

Lemma run_at t w s : run t w s = match pc_of s t with
  | Idle | PushWait _ _ | PopWait _ | SleepWait _ => blocked
  | PushAcq k d => lock_queue t k;; goto t (PushTest k d)
  | PushTest k d => push_body t k d
  | PushNotify k => notify_one (emptyCv k) w;; goto t (PushRel k)
  | PushRel k => unlock_queue k;; goto t Idle
  | PopAcq k => lock_queue t k;; goto t (PopTest k)
  | PopTest k => pop_body t k
  | PopNotify k d => notify_one (fullCv k) w;; goto t (PopRel k d)
  | PopRel k _ => unlock_queue k;; goto t Idle
  | SleepAcq pe => lock_pe t pe;; goto t (SleepInc pe)
  | SleepInc pe => count_pe pe 1;; goto t (SleepTest pe)
  | SleepTest pe =>
      x ← the_pe pe;
      if 0 <? pe_cntr x then unlock_pe pe;; goto t (SleepWait pe) else goto t (SleepRel pe)
  | SleepReacq pe => lock_pe t pe;; goto t (SleepTest pe)
  | SleepRel pe => unlock_pe pe;; goto t Idle
  | WakeAcq pe => lock_pe t pe;; goto t (WakeDec pe)
  | WakeDec pe => count_pe pe (-1);; goto t (WakeNotify pe)
  | WakeNotify pe => notify_one (cvs pe) w;; goto t (WakeRel pe)
  | WakeRel pe => unlock_pe pe;; goto t Idle
  end s.
Proof. reflexivity. Qed.

Definition can_run (t : nat) (s : Emu) : Prop := exists w s', emu_step (Run t w) s = Ok (tt, s').

Lemma goto_after (m : E unit) t p s : (exists s', m s = Ok (tt, s')) -> exists s', (m;; goto t p) s = Ok (tt, s').
Proof. intros [s' Hs']. rewrite (bind_run _ _ _ _ _ Hs'). by eexists. Qed.

Lemma the_queue_run k q s : queues s !! k = Some q -> the_queue k s = Ok (q, s).
Proof. intros. by apply the_queue_ok. Qed.

Lemma queue_holder_runs k q t s :
  queues s !! k = Some q -> in_queue_section (pc_of s t) = Some k -> can_run t s.
Proof.
  intros Hq Hin. unfold can_run, emu_step. setoid_rewrite run_at.
  assert (exists s', unlock_queue k s = Ok (tt, s')) as Hun
    by (unfold unlock_queue; rewrite (bind_run _ _ _ _ _ (the_queue_run _ _ _ Hq)); by eexists).
  destruct (pc_of s t) eqn:Ht; simplify_eq/=.
  - exists None. unfold push_body. rewrite (bind_run _ _ _ _ _ (the_queue_run _ _ _ Hq)).
    case_match; apply goto_after; [done|by eexists].
  - destruct (notify_enabled (emptyCv k) s) as [w Hw]. exists w. by apply goto_after.
  - exists None. by apply goto_after.
  - exists None. unfold pop_body. rewrite (bind_run _ _ _ _ _ (the_queue_run _ _ _ Hq)).
    case_match; apply goto_after; [done|by eexists].
  - destruct (notify_enabled (fullCv k) s) as [w Hw]. exists w. by apply goto_after.
  - exists None. by apply goto_after.
Qed.

Lemma queue_free_runs k q t s :
  queues s !! k = Some q -> q_m q = None -> on_queue k (pc_of s t) ->
  in_queue_section (pc_of s t) <> Some k -> can_run t s \/ waiting (pc_of s t).
Proof.
  intros Hq Hm Hon Hin. unfold can_run, emu_step. setoid_rewrite run_at.
  assert (exists s', lock_queue t k s = Ok (tt, s')) as Hl.
  { unfold lock_queue. rewrite (bind_run _ _ _ _ _ (the_queue_run _ _ _ Hq)), Hm. by eexists. }
  destruct (pc_of s t) eqn:Ht; destruct Hon as [Hon|Hon]; simplify_eq/=; try (by right); try done.
  all: left; exists None; by apply goto_after.
Qed.

(** Someone can move at a queue, unless the thread waits for good reason. *)
Lemma queue_progress k t s :
  emu_inv s -> on_queue k (pc_of s t) ->
  exists q, queues s !! k = Some q
    /\ ((exists c, on_queue k (pc_of s c) /\ can_run c s)
        \/ (exists d, pc_of s t = PushWait k d) /\ Z.of_nat (length (q_data q)) = q_size q
        \/ pc_of s t = PopWait k /\ q_data q = []).
Proof.
  intros Hs Hon.
  assert (is_Some (queues s !! k)) as [q Hq].
  { destruct (ei_threads _ Hs t) as (Ha & Hb & _). destruct Hon as [H|H]; [by apply Ha|by apply Hb]. }
  exists q. split; [done|]. pose proof (ei_queues _ Hs _ _ Hq) as [Hl Hf Hc Hfu He Hr].
  destruct (q_m q) as [h|] eqn:Hm.
  - left. exists h. pose proof (proj1 (Hl h) eq_refl) as Hin. split; [|by eapply queue_holder_runs].
    unfold on_queue. destruct (pc_of s h); naive_solver.
  - assert (forall c, in_queue_section (pc_of s c) <> Some k) as Hno by (by intros c Hin%Hl).
    destruct (queue_free_runs k q t s Hq Hm Hon (Hno t)) as [Hrun|Hwait]; [left; eauto|].
    destruct (pc_of s t) as [| | |k' d| | | | |k'| | | | | | | | | | | |] eqn:Ht; try done.
    + destruct Hon as [Hk|Hk]; simplify_eq/=. right. left. split; [eauto|].
      destruct (Hfu t d Ht) as [|(c & d' & Hc')]; [done|]. destruct (Hno c). by rewrite Hc'.
    + destruct Hon as [Hk|Hk]; simplify_eq/=. right. right. split; [done|].
      destruct (He t Ht) as [|(c & Hc')]; [done|]. destruct (Hno c). by rewrite Hc'.
    + by destruct Hon.
Qed.

Lemma the_pe_run e m c s :
  mutexes s !! Z.to_nat e = Some m -> sleep_cntr s !! Z.to_nat e = Some c ->
  the_pe e s = Ok (mkPE m c, s).
Proof. intros. by apply the_pe_ok. Qed.

Lemma pe_holder_runs e m c t s :
  mutexes s !! Z.to_nat e = Some m -> sleep_cntr s !! Z.to_nat e = Some c -> - 2 ^ 31 < c < 2 ^ 31 - 1 ->
  in_pe_section (pc_of s t) = Some e -> can_run t s.
Proof.
  intros Hm Hc Hb Hin. unfold can_run, emu_step. setoid_rewrite run_at.
  pose proof (the_pe_run e m c s Hm Hc) as Hpe.
  assert (exists s', unlock_pe e s = Ok (tt, s')) as Hun
    by (unfold unlock_pe; rewrite (bind_run _ _ _ _ _ Hpe); by eexists).
  assert (forall d, -1 <= d <= 1 -> exists s', count_pe e d s = Ok (tt, s')) as Hco.
  { intros d Hd. unfold count_pe. rewrite (bind_run _ _ _ _ _ Hpe). cbv zeta.
    rewrite bool_decide_true by (simpl; lia). by eexists. }
  destruct (pc_of s t) eqn:Ht; simplify_eq/=.
  5: { destruct (notify_enabled (cvs e) s) as [w Hw]. exists w. by apply goto_after. }
  all: exists None; try (apply goto_after; first [done|apply Hco; lia]).
  rewrite (bind_run _ _ _ _ _ Hpe). case_match; [by apply goto_after|by eexists].
Qed.

(** ** Running a schedule *)

Definition register_okb (l : label) (s : Emu) : bool :=
  match l with
  | Register t c => bool_decide (map_Forall (fun t' c' => c' = u32 c -> t' = t) (tid_to_core_id_map s))
  | _ => true
  end.

Fixpoint emu_run (ls : list label) (s : Emu) : option Emu :=
  match ls with
  | [] => Some s
  | l :: ls =>
      match register_okb l s, emu_step l s with
      | true, Ok (tt, s') => emu_run ls s'
      | _, _ => None
      end
  end.

Lemma emu_run_reachable num_pe depth ls s s' :
  emu_reachable num_pe depth s -> emu_run ls s = Some s' -> emu_reachable num_pe depth s'.
Proof.
  revert s. induction ls as [|l ls IH]; intros s Hs; simpl; [by intros [= <-]|].
  destruct (register_okb l s) eqn:Hr; [|done]. destruct (emu_step l s) as [[[] s1]|] eqn:Hl; [|done].
  apply IH. eapply er_step; [done| |done]. destruct l; simpl in *; try done.
  apply bool_decide_eq_true_1 in Hr. intros t' Ht'. by eapply Hr.
Qed.

(** Thread 0 is PE 0 and pushes twice into a queue of depth 1 towards thread 1,
    PE 1: the second push waits. *)
Definition demo_labels : list label :=
  [Register 0 0; Register 1 1; CallPush 0 1 7; Run 0 None; Run 0 None; Run 0 None; Run 0 None;
   CallPush 0 1 8; Run 0 None; Run 0 None; CallPop 1 0; Run 1 None].
Definition demo_emu : Emu := default emu_start (emu_run demo_labels (__init 2 1 emu_start)).

Lemma demo_emu_reachable : emu_reachable 2 1 demo_emu.
Proof.
  apply (emu_run_reachable 2 1 demo_labels (__init 2 1 emu_start)); [apply er_boot|].
  vm_compute. reflexivity.
Qed.

(** ** Claims *)

(** C14: whatever the interleaving, every queue of the emulation library is a
    bounded FIFO: the values popped so far followed by those still queued are
    the values pushed, in order; the queue never exceeds its depth; at most one
    thread is in its critical section; and the value a pop is about to return
    is the last one taken out. *)
Theorem emu_queue_fifo num_pe depth s k q :
  emu_reachable num_pe depth s -> queues s !! k = Some q ->
  q_pushed q = q_popped q ++ q_data q
  /\ Z.of_nat (length (q_data q)) <= q_size q
  /\ (forall t t', in_queue_section (pc_of s t) = Some k -> in_queue_section (pc_of s t') = Some k -> t = t')
  /\ (forall t d, returns (pc_of s t) = Some (k, d) -> last (q_popped q) = Some d).
Proof.
  intros Hs%emu_reachable_inv Hq. destruct (ei_queues _ Hs _ _ Hq) as [Hl Hf Hc _ _ Hr].
  split_and!; try done. intros t t' H%Hl H'%Hl. congruence.
Qed.

Lemma emu_queue_fifo_witness :
  exists q, queues demo_emu !! (0, 1) = Some q /\ q_pushed q = q_popped q ++ q_data q.
Proof.
  eexists. split; [vm_compute; reflexivity|].
  eapply (emu_queue_fifo 2 1 demo_emu (0, 1)); [apply demo_emu_reachable|vm_compute; reflexivity].
Defined.

(** C13: no wake-up of a pushing or popping thread is lost.  A thread inside a
    call on a queue finds some thread at that queue that can take a step, unless
    it waits to push and the queue is full, or waits to pop and it is empty; so
    when the queue has room for an element, a pushing and a popping thread are
    never stuck together. *)
Theorem emu_no_lost_wakeup num_pe depth s k t :
  emu_reachable num_pe depth s -> on_queue k (pc_of s t) ->
  exists q, queues s !! k = Some q
    /\ ((exists c, on_queue k (pc_of s c) /\ can_run c s)
        \/ (exists d, pc_of s t = PushWait k d) /\ Z.of_nat (length (q_data q)) = q_size q
        \/ pc_of s t = PopWait k /\ q_data q = [])
    /\ (0 < q_size q -> (exists a b, push_key (pc_of s a) = Some k /\ pop_key (pc_of s b) = Some k) ->
        exists c, on_queue k (pc_of s c) /\ can_run c s).
Proof.
  intros Hs%emu_reachable_inv Hon.
  destruct (queue_progress k t s Hs Hon) as (q & Hq & Hcase). exists q. split_and!; [done..|].
  intros Hsz (a & b & Ha & Hb).
  destruct (queue_progress k a s Hs (or_introl Ha)) as (q1 & Hq1 & [|[[_ Hf]|[Hp _]]]); [done| |].
  2: { by rewrite Hp in Ha. }
  destruct (queue_progress k b s Hs (or_intror Hb)) as (q2 & Hq2 & [|[[[d Hd] _]|[_ He]]]); [done| |].
  { by rewrite Hd in Hb. }
  simplify_eq. rewrite He in Hf. simpl in Hf. lia.
Qed.

Lemma emu_no_lost_wakeup_witness :
  exists q, queues demo_emu !! (0, 1) = Some q
    /\ ((exists c, on_queue (0, 1) (pc_of demo_emu c) /\ can_run c demo_emu)
        \/ (exists d, pc_of demo_emu 0 = PushWait (0, 1) d) /\ Z.of_nat (length (q_data q)) = q_size q
        \/ pc_of demo_emu 0 = PopWait (0, 1) /\ q_data q = [])
    /\ (0 < q_size q ->
        (exists a b, push_key (pc_of demo_emu a) = Some (0, 1) /\ pop_key (pc_of demo_emu b) = Some (0, 1)) ->
        exists c, on_queue (0, 1) (pc_of demo_emu c) /\ can_run c demo_emu).
Proof.
  apply (emu_no_lost_wakeup 2 1 demo_emu (0, 1) 0%nat); [apply demo_emu_reachable|].
  left. vm_compute. reflexivity.
Defined.

(** The counter of a PE is the number of its sleeps minus the number of
    its wakes, and a PE waits for a wake only while it has been put to sleep
    more often than woken, or while the thread that holds its mutex (about to
    notify it) can run. *)
Theorem emu_sleep_wake num_pe depth s e c m t :
  emu_reachable num_pe depth s -> 0 <= e ->
  mutexes s !! Z.to_nat e = Some m -> sleep_cntr s !! Z.to_nat e = Some c ->
  c = balance e (pe_log s)
  /\ (- 2 ^ 31 < c < 2 ^ 31 - 1 -> pc_of s t = SleepWait e ->
      0 < balance e (pe_log s) \/ exists w, pc_of s w = WakeNotify e /\ can_run w s).
Proof.
  intros Hs%emu_reachable_inv He Hm Hc. destruct (ei_pes _ Hs e m c He Hm Hc) as [Hl Hb Hw].
  split; [done|]. intros Hr Ht. destruct (Hw t Ht) as [|(w & Hw')]; [left; lia|].
  right. exists w. split; [done|]. eapply pe_holder_runs; [done..|]. by rewrite Hw'.
Qed.

(** PE 1 goes to sleep; PE 0 has decremented its counter and is about to notify. *)
Definition sleep_labels : list label :=
  [Register 0 0; Register 1 1; CallSleep 1; Run 1 None; Run 1 None; Run 1 None;
   CallWake 0 1; Run 0 None; Run 0 None].
Definition sleep_emu : Emu := default emu_start (emu_run sleep_labels (__init 2 1 emu_start)).

Lemma emu_sleep_wake_witness :
  0 < balance 1 (pe_log sleep_emu) \/ exists w, pc_of sleep_emu w = WakeNotify 1 /\ can_run w sleep_emu.
Proof.
  eapply (emu_sleep_wake 2 1 sleep_emu 1 0 (Some 0%nat) 1%nat).
  - apply (emu_run_reachable 2 1 sleep_labels (__init 2 1 emu_start)); [apply er_boot|].
    vm_compute. reflexivity.
  - lia.
  - vm_compute. reflexivity.
  - vm_compute. reflexivity.
  - lia.
  - vm_compute. reflexivity.
Defined.

(** ** Restarting the library

    [__teardown] leaves [sleep_cntr] as it is: after a run in which PE 1 was
    woken once more than it slept, a second [__init] starts PE 1 with that
    credit and its first [__sleep] returns at once. *)
Definition restart_labels : list label :=
  [Register 0 0; Register 1 1; CallWake 0 1; Run 0 None; Run 0 None; Run 0 None; Run 0 None].
Definition second_run : list label :=
  [Register 1 1; CallSleep 1; Run 1 None; Run 1 None; Run 1 None; Run 1 None].

Theorem emu_restart_skips_sleep :
  (s1 ← emu_run restart_labels (__init 2 1 emu_start);
   s2 ← emu_run second_run (__init 2 1 (__teardown s1));
   Some (pc_of s2 1, sleep_cntr s2)) = Some (Idle, [0; 0; 0; 0])
  /\ (s2 ← emu_run (take 4 second_run) (__init 2 1 emu_start); Some (pc_of s2 1)) = Some (SleepTest 1)
  /\ (s2 ← emu_run (take 5 second_run) (__init 2 1 emu_start); Some (pc_of s2 1)) = Some (SleepWait 1).
Proof. split_and!; vm_compute; reflexivity. Qed.

(** ** Barriers and mutexes *)

Section SyncProps.
Import EmuSync.
Implicit Types s : Sync.

Record sync_inv s : Prop := {
  sv_arrived bar b : barriers s !! bar = Some b -> NoDup (b_arrived b) /\ Z.of_nat (length (b_arrived b)) < b_count b
    /\ forall t, t ∈ b_arrived b <-> waiting s !! t = Some (AtBarrier bar);
  sv_known bar t : waiting s !! t = Some (AtBarrier bar) -> is_Some (barriers s !! bar);
  sv_locks lock t : waiting s !! t = Some (AtMutex lock) -> is_Some (locks s !! lock)
}.

(** The barriers see only who waits at them. *)
Lemma sync_barriers_frame s s' : sync_inv s -> barriers s' = barriers s ->
  (forall t bar, waiting s' !! t = Some (AtBarrier bar) <-> waiting s !! t = Some (AtBarrier bar)) ->
  (forall t lock, waiting s' !! t = Some (AtMutex lock) -> is_Some (locks s' !! lock)) -> sync_inv s'.
Proof.
  intros [H1 H2 H3] Eb Ew Hl. split; [|intros bar t; rewrite Eb, Ew; apply H2|intros lock t; apply Hl].
  intros bar b. rewrite Eb. intros Hb. destruct (H1 bar b Hb) as (? & ? & H). split; [done|]. split; [done|]. intros t. by rewrite Ew.
Qed.

Lemma barrier_wait_inv t bar s s' : sync_inv s -> waiting s !! t = None -> __barrier_wait t bar s = Ok (tt, s') -> sync_inv s'.
Proof.
  intros [H1 H2 H3] Ht H. unfold __barrier_wait, mbind at 1, M_bind at 1, gets in H. destruct (barriers s !! bar) as [b|] eqn:Eb; [|by minv H].
  destruct (H1 bar b Eb) as (Hnd & Hlen & Hin). destruct (Z.eqb_spec (Z.of_nat (length (b_arrived b)) + 1) (b_count b)); minv H.
  - assert (forall t' w, foldr delete (waiting s) (b_arrived b) !! t' = Some w <-> waiting s !! t' = Some w /\ t' ∉ b_arrived b) as Hw.
    { intros t' w. destruct (decide (t' ∈ b_arrived b)) as [Hd|Hd].
      - rewrite lookup_foldr_delete by done. split; [done|]. by intros [_ ?].
      - rewrite lookup_foldr_delete_not_elem_of by done. tauto. }
    split; simpl.
    + intros bar' b'. destruct (decide (bar = bar')) as [<-|Hne].
      * rewrite lookup_insert_eq. intros [= <-]. simpl. split; [by apply NoDup_nil|]. split; [lia|]. intros t'. rewrite Hw, Hin. set_solver.
      * rewrite lookup_insert_ne by done. intros Hb'. destruct (H1 bar' b' Hb') as (? & ? & Hin'). split; [done|]. split; [done|].
        intros t'. rewrite Hw, Hin', Hin. split; [|tauto]. intros E. split; [done|]. congruence.
    + intros bar' t' [E _]%Hw. destruct (decide (bar = bar')) as [<-|]; [by rewrite lookup_insert_eq|]. rewrite lookup_insert_ne by done. by eapply H2.
    + intros lock t' [E _]%Hw. by eapply H3.
  - assert (t ∉ b_arrived b) as Hnt by (rewrite Hin; congruence). split; simpl.
    + intros bar' b'. destruct (decide (bar = bar')) as [<-|Hne].
      * rewrite lookup_insert_eq. intros [= <-]. simpl. split; [apply NoDup_app; set_solver by (apply NoDup_singleton || done)|].
        rewrite length_app. simpl. split; [lia|]. intros t'. rewrite elem_of_app, list_elem_of_singleton, Hin.
        destruct (decide (t = t')) as [<-|]; [rewrite lookup_insert_eq; tauto|]. rewrite lookup_insert_ne by done. split; [intros [?| ->]; done|tauto].
      * rewrite lookup_insert_ne by done. intros Hb'. destruct (H1 bar' b' Hb') as (? & ? & Hin'). split; [done|]. split; [done|].
        intros t'. rewrite Hin'. destruct (decide (t = t')) as [<-|]; [rewrite lookup_insert_eq, Ht; split; congruence|by rewrite lookup_insert_ne].
    + intros bar' t'. destruct (decide (bar = bar')) as [<-|]; [by rewrite lookup_insert_eq|]. rewrite (lookup_insert_ne _ bar bar') by done.
      destruct (decide (t = t')) as [<-|]; [rewrite lookup_insert_eq; congruence|]. rewrite lookup_insert_ne by done. apply H2.
    + intros lock t'. destruct (decide (t = t')) as [<-|]; [by rewrite lookup_insert_eq|]. rewrite lookup_insert_ne by done. apply H3.
Qed.

Lemma sync_step_inv l s s' : sync_inv s -> sync_step l s = Ok (tt, s') -> sync_inv s'.
Proof.
  intros Hi H. destruct l as [bar count|t bar|lock|t lock|t lock|t]; cbn [sync_step] in H.
  - unfold __barrier_init, mbind, M_bind, gets in H. destruct (barriers s !! bar) eqn:Eb; [by minv H|]. unfold when_ in H. destruct (Z.eqb_spec (u32 count) 0) as [|Hc].
    { by injection H as <-. }
    injection H as <-. destruct Hi as [H1 H2 H3]. assert (forall t, waiting s !! t <> Some (AtBarrier bar)) as Hno.
    { intros t E. apply H2 in E as [? E]. congruence. }
    split; simpl; [| |done].
    + intros bar' b'. destruct (decide (bar = bar')) as [<-|]; [|rewrite lookup_insert_ne by done; apply H1].
      rewrite lookup_insert_eq. intros [= <-]. simpl. split; [by apply NoDup_nil|]. pose proof (wrap_bound 32 count ltac:(lia)) as Hb. fold (u32 count) in Hb.
      split; [lia|]. intros t. split; [by intros ?%elem_of_nil|]. intros E. by apply Hno in E.
    + intros bar' t E. destruct (decide (bar = bar')) as [<-|]; [by rewrite lookup_insert_eq|]. rewrite lookup_insert_ne by done. by eapply H2.
  - unfold sync_call, mbind, M_bind, get in H. case_decide; [|by minv H]. by eapply barrier_wait_inv.
  - unfold __mutex_init, mbind, M_bind, gets in H. destruct (locks s !! lock) eqn:El; [by minv H|]. injection H as <-.
    apply (sync_barriers_frame s); [done|done|done|]. intros t lock' E. simpl. apply (sv_locks _ Hi) in E as [o E].
    rewrite lookup_insert_ne by congruence. by exists o.
  - unfold sync_call, mbind, M_bind, get in H. case_decide as Ht; [|by minv H]. unfold __mutex_lock, mbind, M_bind, gets in H.
    destruct (locks s !! lock) as [[o|]|] eqn:El; [| |by minv H]; injection H as <-; (apply (sync_barriers_frame s); [done|done| |]); simpl.
    + intros t' bar. destruct (decide (t = t')) as [<-|]; [rewrite lookup_insert_eq, Ht; split; congruence|by rewrite lookup_insert_ne].
    + intros t' lock'. destruct (decide (t = t')) as [<-|]; [rewrite lookup_insert_eq; intros [= <-]; by exists (Some o)|].
      rewrite lookup_insert_ne by done. apply (sv_locks _ Hi).
    + done.
    + intros t' lock' E. apply (sv_locks _ Hi) in E. destruct (decide (lock = lock')) as [<-|]; [by rewrite lookup_insert_eq|by rewrite lookup_insert_ne].
  - unfold sync_call, mbind, M_bind, get in H. case_decide as Ht; [|by minv H]. unfold __mutex_unlock, mbind, M_bind, gets in H.
    destruct (locks s !! lock) as [[o|]|] eqn:El; [|by minv H..]. case_decide; [|by minv H]. injection H as <-.
    apply (sync_barriers_frame s); [done|done|done|]. simpl. intros t' lock' E. apply (sv_locks _ Hi) in E.
    destruct (decide (lock = lock')) as [<-|]; [by rewrite lookup_insert_eq|by rewrite lookup_insert_ne].
  - unfold granted, mbind, M_bind, get in H. destruct (waiting s !! t) as [[bar|lock]|] eqn:Et; [by minv H| |by minv H].
    destruct (locks s !! lock) as [[o|]|] eqn:El; [by minv H| |by minv H]. injection H as <-. apply (sync_barriers_frame s); [done|done| |]; simpl.
    + intros t' bar. destruct (decide (t = t')) as [<-|]; [rewrite lookup_delete_eq, Et; split; congruence|by rewrite lookup_delete_ne].
    + intros t' lock' [_ E]%lookup_delete_Some. apply (sv_locks _ Hi) in E.
      destruct (decide (lock = lock')) as [<-|]; [by rewrite lookup_insert_eq|by rewrite lookup_insert_ne].
Qed.
Lemma sync_reachable_inv s : sync_reachable s -> sync_inv s.
Proof.
  induction 1 as [|l s s' _ IH H]; [|by eapply sync_step_inv].
  split; cbn [sync_start barriers waiting locks]; intros *; by rewrite lookup_empty.
Qed.

(** Fewer threads wait at a barrier than it counts, each of them once, and the
    thread that completes the count releases exactly them and goes on. *)
Theorem emu_barrier_releases s bar b t : sync_reachable s -> barriers s !! bar = Some b -> waiting s !! t = None ->
  NoDup (b_arrived b) /\ Z.of_nat (length (b_arrived b)) < b_count b
  /\ (Z.of_nat (length (b_arrived b)) + 1 = b_count b -> exists s', sync_step (BarrierWait t bar) s = Ok (tt, s')
       /\ (forall t', waiting s !! t' = Some (AtBarrier bar) -> waiting s' !! t' = None)
       /\ (forall t', waiting s !! t' <> Some (AtBarrier bar) -> waiting s' !! t' = waiting s !! t')
       /\ barriers s' !! bar = Some (mkBarrier (b_count b) [])).
Proof.
  intros Hr Hb Ht. destruct (sv_arrived _ (sync_reachable_inv s Hr) bar b Hb) as (Hnd & Hlen & Hin). split; [done|]. split; [done|]. intros E.
  eexists. split; [|split; [|split]].
  - cbn [sync_step]. unfold sync_call, mbind, M_bind, get. rewrite decide_True by done. unfold __barrier_wait, mbind, M_bind, gets.
    rewrite Hb, (proj2 (Z.eqb_eq _ _) E). reflexivity.
  - intros t' Hw. simpl. apply lookup_foldr_delete. by apply Hin.
  - intros t' Hw. simpl. apply lookup_foldr_delete_not_elem_of. by rewrite Hin.
  - apply lookup_insert_eq.
Qed.
End SyncProps.
