(* ===== verification/Request.v ===== *)
(** * Memory requests (mem/request.hh)

    A [Request] travels from the requester to the memory and back; packets
    convey it.  Its fields are valid only once the matching bit of
    [privateFlags] is set, which the accessors assert.  The functor of an atomic
    operation is a function on the bytes it is applied to.  The local accessor,
    a callback into an ISA, is left out. *)

From S2P Require Import Prelude EventQ.

(** ** Flags *)

Definition ARCH_BITS : Z := 0x000000FF.
Definition INST_FETCH : Z := 0x00000100.
Definition PHYSICAL : Z := 0x00000200.
Definition UNCACHEABLE : Z := 0x00000400.
Definition STRICT_ORDER : Z := 0x00000800.
Definition PRIVILEGED : Z := 0x00008000.
Definition CACHE_BLOCK_ZERO : Z := 0x00010000.
Definition NO_ACCESS : Z := 0x00080000.
Definition LOCKED_RMW : Z := 0x00100000.
Definition LLSC : Z := 0x00200000.
Definition MEM_SWAP : Z := 0x00400000.
Definition MEM_SWAP_COND : Z := 0x00800000.
Definition PREFETCH : Z := 0x01000000.
Definition PF_EXCLUSIVE : Z := 0x02000000.
Definition EVICT_NEXT : Z := 0x04000000.
Definition ACQUIRE : Z := 0x00020000.
Definition RELEASE : Z := 0x00040000.
Definition ATOMIC_RETURN_OP : Z := 0x40000000.
Definition ATOMIC_NO_RETURN_OP : Z := 0x80000000.
Definition KERNEL : Z := 0x00001000.
Definition SECURE : Z := 0x10000000.
Definition PT_WALK : Z := 0x20000000.
Definition INVALIDATE : Z := 0x0000000100000000.
Definition CLEAN : Z := 0x0000000200000000.
Definition DST_POU : Z := 0x0000001000000000.
Definition DST_POC : Z := 0x0000002000000000.
Definition DST_BITS : Z := 0x0000003000000000.
Definition STICKY_FLAGS : Z := INST_FETCH.

Definition RQ_VALID_SIZE : Z := 0x00000001.
Definition VALID_PADDR : Z := 0x00000002.
Definition VALID_VADDR : Z := 0x00000004.
Definition VALID_INST_SEQ_NUM : Z := 0x00000008.
Definition VALID_PC : Z := 0x00000010.
Definition VALID_CONTEXT_ID : Z := 0x00000020.
Definition VALID_EXTRA_DATA : Z := 0x00000080.
Definition VALID_STREAM_ID : Z := 0x00000100.
Definition VALID_SUBSTREAM_ID : Z := 0x00000200.
Definition STICKY_PRIVATE_FLAGS : Z := VALID_CONTEXT_ID.

Definition SCOPE_VALID : Z := 0x00000001.
Definition WAVEFRONT_SCOPE : Z := 0x00000002.
Definition WORKGROUP_SCOPE : Z := 0x00000004.
Definition DEVICE_SCOPE : Z := 0x00000008.
Definition SYSTEM_SCOPE : Z := 0x00000010.
Definition GLOBAL_SEGMENT : Z := 0x00000020.
Definition GROUP_SEGMENT : Z := 0x00000040.
Definition PRIVATE_SEGMENT : Z := 0x00000080.
Definition KERNARG_SEGMENT : Z := 0x00000100.
Definition READONLY_SEGMENT : Z := 0x00000200.
Definition SPILL_SEGMENT : Z := 0x00000400.
Definition ARG_SEGMENT : Z := 0x00000800.

Definition MaxTick : Z := 2 ^ 64 - 1.
Definition MaxAddr : Z := 2 ^ 64 - 1.
Definition InvalidContextID : Z := -1.
Definition invldMasterId : Z := 2 ^ 16 - 1.
Definition Unknown_task : Z := 1024.

(** ** The request *)

Record Request := mkRequest {
  rq_paddr : Z;
  rq_size : Z;
  rq_byteEnable : list bool;
  rq_masterId : Z;
  rq_flags : Z;
  rq_memSpaceConfigFlags : Z;
  rq_privateFlags : Z;
  rq_time : Z;
  rq_taskId : Z;
  rq_streamId : Z;
  rq_substreamId : Z;
  rq_vaddr : Z;
  rq_extraData : Z;
  rq_contextId : Z;
  rq_pc : Z;
  rq_reqInstSeqNum : Z;
  rq_atomicOp : option (list Z -> list Z);
  rq_translateDelta : Z;
  rq_accessDelta : Z;
  rq_depth : Z
}.

(** *** Field updates *)
Definition set_rq_paddr (x : Z) (r : Request) : Request :=
  mkRequest x (rq_size r) (rq_byteEnable r) (rq_masterId r) (rq_flags r) (rq_memSpaceConfigFlags r)
    (rq_privateFlags r) (rq_time r) (rq_taskId r) (rq_streamId r) (rq_substreamId r) (rq_vaddr r)
    (rq_extraData r) (rq_contextId r) (rq_pc r) (rq_reqInstSeqNum r) (rq_atomicOp r)
    (rq_translateDelta r) (rq_accessDelta r) (rq_depth r).
Definition set_rq_size (x : Z) (r : Request) : Request :=
  mkRequest (rq_paddr r) x (rq_byteEnable r) (rq_masterId r) (rq_flags r)
    (rq_memSpaceConfigFlags r) (rq_privateFlags r) (rq_time r) (rq_taskId r) (rq_streamId r)
    (rq_substreamId r) (rq_vaddr r) (rq_extraData r) (rq_contextId r) (rq_pc r)
    (rq_reqInstSeqNum r) (rq_atomicOp r) (rq_translateDelta r) (rq_accessDelta r) (rq_depth r).
Definition set_rq_byteEnable (x : list bool) (r : Request) : Request :=
  mkRequest (rq_paddr r) (rq_size r) x (rq_masterId r) (rq_flags r) (rq_memSpaceConfigFlags r)
    (rq_privateFlags r) (rq_time r) (rq_taskId r) (rq_streamId r) (rq_substreamId r) (rq_vaddr r)
    (rq_extraData r) (rq_contextId r) (rq_pc r) (rq_reqInstSeqNum r) (rq_atomicOp r)
    (rq_translateDelta r) (rq_accessDelta r) (rq_depth r).
Definition set_rq_masterId (x : Z) (r : Request) : Request :=
  mkRequest (rq_paddr r) (rq_size r) (rq_byteEnable r) x (rq_flags r) (rq_memSpaceConfigFlags r)
    (rq_privateFlags r) (rq_time r) (rq_taskId r) (rq_streamId r) (rq_substreamId r) (rq_vaddr r)
    (rq_extraData r) (rq_contextId r) (rq_pc r) (rq_reqInstSeqNum r) (rq_atomicOp r)
    (rq_translateDelta r) (rq_accessDelta r) (rq_depth r).
Definition set_rq_flags (x : Z) (r : Request) : Request :=
  mkRequest (rq_paddr r) (rq_size r) (rq_byteEnable r) (rq_masterId r) x (rq_memSpaceConfigFlags r)
    (rq_privateFlags r) (rq_time r) (rq_taskId r) (rq_streamId r) (rq_substreamId r) (rq_vaddr r)
    (rq_extraData r) (rq_contextId r) (rq_pc r) (rq_reqInstSeqNum r) (rq_atomicOp r)
    (rq_translateDelta r) (rq_accessDelta r) (rq_depth r).
Definition set_rq_memSpaceConfigFlags (x : Z) (r : Request) : Request :=
  mkRequest (rq_paddr r) (rq_size r) (rq_byteEnable r) (rq_masterId r) (rq_flags r) x
    (rq_privateFlags r) (rq_time r) (rq_taskId r) (rq_streamId r) (rq_substreamId r) (rq_vaddr r)
    (rq_extraData r) (rq_contextId r) (rq_pc r) (rq_reqInstSeqNum r) (rq_atomicOp r)
    (rq_translateDelta r) (rq_accessDelta r) (rq_depth r).
Definition set_rq_privateFlags (x : Z) (r : Request) : Request :=
  mkRequest (rq_paddr r) (rq_size r) (rq_byteEnable r) (rq_masterId r) (rq_flags r)
    (rq_memSpaceConfigFlags r) x (rq_time r) (rq_taskId r) (rq_streamId r) (rq_substreamId r)
    (rq_vaddr r) (rq_extraData r) (rq_contextId r) (rq_pc r) (rq_reqInstSeqNum r) (rq_atomicOp r)
    (rq_translateDelta r) (rq_accessDelta r) (rq_depth r).
Definition set_rq_time (x : Z) (r : Request) : Request :=
  mkRequest (rq_paddr r) (rq_size r) (rq_byteEnable r) (rq_masterId r) (rq_flags r)
    (rq_memSpaceConfigFlags r) (rq_privateFlags r) x (rq_taskId r) (rq_streamId r)
    (rq_substreamId r) (rq_vaddr r) (rq_extraData r) (rq_contextId r) (rq_pc r)
    (rq_reqInstSeqNum r) (rq_atomicOp r) (rq_translateDelta r) (rq_accessDelta r) (rq_depth r).
Definition set_rq_taskId (x : Z) (r : Request) : Request :=
  mkRequest (rq_paddr r) (rq_size r) (rq_byteEnable r) (rq_masterId r) (rq_flags r)
    (rq_memSpaceConfigFlags r) (rq_privateFlags r) (rq_time r) x (rq_streamId r) (rq_substreamId r)
    (rq_vaddr r) (rq_extraData r) (rq_contextId r) (rq_pc r) (rq_reqInstSeqNum r) (rq_atomicOp r)
    (rq_translateDelta r) (rq_accessDelta r) (rq_depth r).
Definition set_rq_streamId (x : Z) (r : Request) : Request :=
  mkRequest (rq_paddr r) (rq_size r) (rq_byteEnable r) (rq_masterId r) (rq_flags r)
    (rq_memSpaceConfigFlags r) (rq_privateFlags r) (rq_time r) (rq_taskId r) x (rq_substreamId r)
    (rq_vaddr r) (rq_extraData r) (rq_contextId r) (rq_pc r) (rq_reqInstSeqNum r) (rq_atomicOp r)
    (rq_translateDelta r) (rq_accessDelta r) (rq_depth r).
Definition set_rq_substreamId (x : Z) (r : Request) : Request :=
  mkRequest (rq_paddr r) (rq_size r) (rq_byteEnable r) (rq_masterId r) (rq_flags r)
    (rq_memSpaceConfigFlags r) (rq_privateFlags r) (rq_time r) (rq_taskId r) (rq_streamId r) x
    (rq_vaddr r) (rq_extraData r) (rq_contextId r) (rq_pc r) (rq_reqInstSeqNum r) (rq_atomicOp r)
    (rq_translateDelta r) (rq_accessDelta r) (rq_depth r).
Definition set_rq_vaddr (x : Z) (r : Request) : Request :=
  mkRequest (rq_paddr r) (rq_size r) (rq_byteEnable r) (rq_masterId r) (rq_flags r)
    (rq_memSpaceConfigFlags r) (rq_privateFlags r) (rq_time r) (rq_taskId r) (rq_streamId r)
    (rq_substreamId r) x (rq_extraData r) (rq_contextId r) (rq_pc r) (rq_reqInstSeqNum r)
    (rq_atomicOp r) (rq_translateDelta r) (rq_accessDelta r) (rq_depth r).
Definition set_rq_extraData (x : Z) (r : Request) : Request :=
  mkRequest (rq_paddr r) (rq_size r) (rq_byteEnable r) (rq_masterId r) (rq_flags r)
    (rq_memSpaceConfigFlags r) (rq_privateFlags r) (rq_time r) (rq_taskId r) (rq_streamId r)
    (rq_substreamId r) (rq_vaddr r) x (rq_contextId r) (rq_pc r) (rq_reqInstSeqNum r)
    (rq_atomicOp r) (rq_translateDelta r) (rq_accessDelta r) (rq_depth r).
Definition set_rq_contextId (x : Z) (r : Request) : Request :=
  mkRequest (rq_paddr r) (rq_size r) (rq_byteEnable r) (rq_masterId r) (rq_flags r)
    (rq_memSpaceConfigFlags r) (rq_privateFlags r) (rq_time r) (rq_taskId r) (rq_streamId r)
    (rq_substreamId r) (rq_vaddr r) (rq_extraData r) x (rq_pc r) (rq_reqInstSeqNum r)
    (rq_atomicOp r) (rq_translateDelta r) (rq_accessDelta r) (rq_depth r).
Definition set_rq_pc (x : Z) (r : Request) : Request :=
  mkRequest (rq_paddr r) (rq_size r) (rq_byteEnable r) (rq_masterId r) (rq_flags r)
    (rq_memSpaceConfigFlags r) (rq_privateFlags r) (rq_time r) (rq_taskId r) (rq_streamId r)
    (rq_substreamId r) (rq_vaddr r) (rq_extraData r) (rq_contextId r) x (rq_reqInstSeqNum r)
    (rq_atomicOp r) (rq_translateDelta r) (rq_accessDelta r) (rq_depth r).
Definition set_rq_reqInstSeqNum (x : Z) (r : Request) : Request :=
  mkRequest (rq_paddr r) (rq_size r) (rq_byteEnable r) (rq_masterId r) (rq_flags r)
    (rq_memSpaceConfigFlags r) (rq_privateFlags r) (rq_time r) (rq_taskId r) (rq_streamId r)
    (rq_substreamId r) (rq_vaddr r) (rq_extraData r) (rq_contextId r) (rq_pc r) x (rq_atomicOp r)
    (rq_translateDelta r) (rq_accessDelta r) (rq_depth r).
Definition set_rq_atomicOp (x : option (list Z -> list Z)) (r : Request) : Request :=
  mkRequest (rq_paddr r) (rq_size r) (rq_byteEnable r) (rq_masterId r) (rq_flags r)
    (rq_memSpaceConfigFlags r) (rq_privateFlags r) (rq_time r) (rq_taskId r) (rq_streamId r)
    (rq_substreamId r) (rq_vaddr r) (rq_extraData r) (rq_contextId r) (rq_pc r)
    (rq_reqInstSeqNum r) x (rq_translateDelta r) (rq_accessDelta r) (rq_depth r).
Definition set_rq_translateDelta (x : Z) (r : Request) : Request :=
  mkRequest (rq_paddr r) (rq_size r) (rq_byteEnable r) (rq_masterId r) (rq_flags r)
    (rq_memSpaceConfigFlags r) (rq_privateFlags r) (rq_time r) (rq_taskId r) (rq_streamId r)
    (rq_substreamId r) (rq_vaddr r) (rq_extraData r) (rq_contextId r) (rq_pc r)
    (rq_reqInstSeqNum r) (rq_atomicOp r) x (rq_accessDelta r) (rq_depth r).
Definition set_rq_accessDelta (x : Z) (r : Request) : Request :=
  mkRequest (rq_paddr r) (rq_size r) (rq_byteEnable r) (rq_masterId r) (rq_flags r)
    (rq_memSpaceConfigFlags r) (rq_privateFlags r) (rq_time r) (rq_taskId r) (rq_streamId r)
    (rq_substreamId r) (rq_vaddr r) (rq_extraData r) (rq_contextId r) (rq_pc r)
    (rq_reqInstSeqNum r) (rq_atomicOp r) (rq_translateDelta r) x (rq_depth r).
Definition set_rq_depth (x : Z) (r : Request) : Request :=
  mkRequest (rq_paddr r) (rq_size r) (rq_byteEnable r) (rq_masterId r) (rq_flags r)
    (rq_memSpaceConfigFlags r) (rq_privateFlags r) (rq_time r) (rq_taskId r) (rq_streamId r)
    (rq_substreamId r) (rq_vaddr r) (rq_extraData r) (rq_contextId r) (rq_pc r)
    (rq_reqInstSeqNum r) (rq_atomicOp r) (rq_translateDelta r) (rq_accessDelta r) x.

(** ** Construction *)

(** [Request()]: nothing is valid. *)
Definition new_Request : Request :=
  mkRequest 0 0 [] invldMasterId 0 0 0 MaxTick Unknown_task 0 0 MaxAddr 0 InvalidContextID
    MaxAddr 0 None 0 0 0.

(** [Request(paddr, size, flags, mid)] at tick [now]. *)
Definition new_Request_phys (now paddr size flags mid : Z) : Request :=
  set_rq_privateFlags (fl_set 0 (Z.lor VALID_PADDR RQ_VALID_SIZE))
    (set_rq_flags (fl_set 0 flags)
      (set_rq_time now (set_rq_masterId mid (set_rq_size size (set_rq_paddr paddr new_Request))))).

Definition setContext (context_id : Z) (r : Request) : Request :=
  set_rq_privateFlags (fl_set (rq_privateFlags r) VALID_CONTEXT_ID) (set_rq_contextId context_id r).

(** [_flags.clear(~STICKY_FLAGS)] keeps the sticky bits. *)
Definition keep_only (f sticky : Z) : Z := Z.land f sticky.

Definition setVirt (now vaddr size flags mid pc : Z) (amo_op : option (list Z -> list Z))
    (r : Request) : Request :=
  let r := set_rq_time now (set_rq_pc pc (set_rq_masterId mid (set_rq_size size (set_rq_vaddr vaddr r)))) in
  let r := set_rq_flags (fl_set (keep_only (rq_flags r) STICKY_FLAGS) flags) r in
  let r := set_rq_privateFlags
    (fl_set (keep_only (rq_privateFlags r) STICKY_PRIVATE_FLAGS)
       (Z.lor VALID_VADDR (Z.lor RQ_VALID_SIZE VALID_PC))) r in
  set_rq_atomicOp amo_op (set_rq_translateDelta 0 (set_rq_accessDelta 0 (set_rq_depth 0 r))).

Definition new_Request_virt (now vaddr size flags mid pc cid : Z) (amo_op : option (list Z -> list Z))
    : Request :=
  setContext cid (setVirt now vaddr size flags mid pc amo_op new_Request).

(** The copy constructor lists the fields it copies; the stream identifiers
    are not among them and keep their initial value. *)
Definition copy_Request (o : Request) : Request :=
  set_rq_streamId (rq_streamId new_Request) (set_rq_substreamId (rq_substreamId new_Request) o).

Definition setPaddr (paddr : Z) (r : Request) : Request :=
  set_rq_privateFlags (fl_set (rq_privateFlags r) VALID_PADDR) (set_rq_paddr paddr r).

Definition setStreamId (sid : Z) (r : Request) : Request :=
  set_rq_privateFlags (fl_set (rq_privateFlags r) VALID_STREAM_ID) (set_rq_streamId sid r).

Definition setSubStreamId (ssid : Z) (r : Request) : res Request :=
  assert_r (fl_isSet (rq_privateFlags r) VALID_STREAM_ID) "privateFlags.isSet(VALID_STREAM_ID)";;
  Ok (set_rq_privateFlags (fl_set (rq_privateFlags r) VALID_SUBSTREAM_ID) (set_rq_substreamId ssid r)).

Definition setByteEnable (be : list bool) (r : Request) : res Request :=
  assert_r (bool_decide (be = []) || (Z.of_nat (length be) =? rq_size r)) "be.empty() || be.size() == _size";;
  Ok (set_rq_byteEnable be r).

(** [splitOnVaddr]: two requests for the parts below and above [split_addr].
    The sizes are 32-bit; the part below the split is at most [_size]. *)
Definition splitOnVaddr (split_addr : Z) (r : Request) : res (Request * Request) :=
  assert_r (fl_isSet (rq_privateFlags r) VALID_VADDR) "privateFlags.isSet(VALID_VADDR)";;
  assert_r (negb (fl_isSet (rq_privateFlags r) VALID_PADDR)) "privateFlags.noneSet(VALID_PADDR)";;
  assert_r ((rq_vaddr r <? split_addr) && (split_addr <? u64 (rq_vaddr r + rq_size r)))
    "split_addr > _vaddr && split_addr < _vaddr + _size";;
  let req1 := set_rq_size (u32 (split_addr - rq_vaddr r)) (copy_Request r) in
  let req2 := set_rq_size (u32 (rq_size r - rq_size req1)) (set_rq_vaddr split_addr (copy_Request r)) in
  if bool_decide (rq_byteEnable r = []) then Ok (req1, req2)
  else Ok (set_rq_byteEnable (take (Z.to_nat (rq_size req1)) (rq_byteEnable r)) req1,
           set_rq_byteEnable (drop (Z.to_nat (rq_size req1)) (rq_byteEnable r)) req2).

(** ** Accessors *)

Definition hasPaddr (r : Request) : bool := fl_isSet (rq_privateFlags r) VALID_PADDR.
Definition getPaddr (r : Request) : res Z :=
  assert_r (hasPaddr r) "privateFlags.isSet(VALID_PADDR)";; Ok (rq_paddr r).
Definition hasSize (r : Request) : bool := fl_isSet (rq_privateFlags r) RQ_VALID_SIZE.
Definition rq_getSize (r : Request) : res Z :=
  assert_r (hasSize r) "privateFlags.isSet(VALID_SIZE)";; Ok (rq_size r).
Definition hasVaddr (r : Request) : bool := fl_isSet (rq_privateFlags r) VALID_VADDR.
Definition getVaddr (r : Request) : res Z :=
  assert_r (hasVaddr r) "privateFlags.isSet(VALID_VADDR)";; Ok (rq_vaddr r).

(** [isSet] of a union tests for either bit: [hasAddr] of the assertions below. *)
Definition has_some_addr (r : Request) : bool :=
  fl_isSet (rq_privateFlags r) (Z.lor VALID_PADDR VALID_VADDR).
Definition rq_getTime (r : Request) : res Z :=
  assert_r (has_some_addr r) "privateFlags.isSet(VALID_PADDR|VALID_VADDR)";; Ok (rq_time r).
Definition getFlags (r : Request) : res Z :=
  assert_r (has_some_addr r) "privateFlags.isSet(VALID_PADDR|VALID_VADDR)";; Ok (rq_flags r).
Definition setFlags (flags : Z) (r : Request) : res Request :=
  assert_r (has_some_addr r) "privateFlags.isSet(VALID_PADDR|VALID_VADDR)";;
  Ok (set_rq_flags (fl_set (rq_flags r) flags) r).
Definition setMemSpaceConfigFlags (extra : Z) (r : Request) : res Request :=
  assert_r (has_some_addr r) "privateFlags.isSet(VALID_PADDR | VALID_VADDR)";;
  Ok (set_rq_memSpaceConfigFlags (fl_set (rq_memSpaceConfigFlags r) extra) r).
Definition getArchFlags (r : Request) : res Z :=
  assert_r (has_some_addr r) "privateFlags.isSet(VALID_PADDR|VALID_VADDR)";;
  Ok (u8 (Z.land (rq_flags r) ARCH_BITS)).

(** A byte of the request is disabled. *)
Definition isMasked (r : Request) : bool := bool_decide (false ∈ rq_byteEnable r).

Definition hasAtomicOpFunctor (r : Request) : bool :=
  match rq_atomicOp r with Some _ => true | None => false end.
Definition getAtomicOpFunctor (r : Request) : res (list Z -> list Z) :=
  match rq_atomicOp r with Some f => Ok f | None => Err (EAssert "atomicOpFunctor") end.

Definition extraDataValid (r : Request) : bool := fl_isSet (rq_privateFlags r) VALID_EXTRA_DATA.
Definition getExtraData (r : Request) : res Z :=
  assert_r (extraDataValid r) "privateFlags.isSet(VALID_EXTRA_DATA)";; Ok (rq_extraData r).
Definition setExtraData (x : Z) (r : Request) : Request :=
  set_rq_privateFlags (fl_set (rq_privateFlags r) VALID_EXTRA_DATA) (set_rq_extraData x r).
Definition hasContextId (r : Request) : bool := fl_isSet (rq_privateFlags r) VALID_CONTEXT_ID.
Definition contextId (r : Request) : res Z :=
  assert_r (hasContextId r) "privateFlags.isSet(VALID_CONTEXT_ID)";; Ok (rq_contextId r).
Definition streamId (r : Request) : res Z :=
  assert_r (fl_isSet (rq_privateFlags r) VALID_STREAM_ID) "privateFlags.isSet(VALID_STREAM_ID)";;
  Ok (rq_streamId r).
Definition hasSubstreamId (r : Request) : bool := fl_isSet (rq_privateFlags r) VALID_SUBSTREAM_ID.
Definition substreamId (r : Request) : res Z :=
  assert_r (hasSubstreamId r) "privateFlags.isSet(VALID_SUBSTREAM_ID)";; Ok (rq_substreamId r).
Definition setPC (pc : Z) (r : Request) : Request :=
  set_rq_pc pc (set_rq_privateFlags (fl_set (rq_privateFlags r) VALID_PC) r).
Definition hasPC (r : Request) : bool := fl_isSet (rq_privateFlags r) VALID_PC.
Definition getPC (r : Request) : res Z :=
  assert_r (hasPC r) "privateFlags.isSet(VALID_PC)";; Ok (rq_pc r).
Definition hasInstSeqNum (r : Request) : bool := fl_isSet (rq_privateFlags r) VALID_INST_SEQ_NUM.
Definition getReqInstSeqNum (r : Request) : res Z :=
  assert_r (hasInstSeqNum r) "privateFlags.isSet(VALID_INST_SEQ_NUM)";; Ok (rq_reqInstSeqNum r).
Definition setReqInstSeqNum (n : Z) (r : Request) : Request :=
  set_rq_reqInstSeqNum n (set_rq_privateFlags (fl_set (rq_privateFlags r) VALID_INST_SEQ_NUM) r).

Definition incAccessDepth (r : Request) : Request := set_rq_depth (rq_depth r + 1) r.
Definition setTranslateLatency (now : Z) (r : Request) : Request :=
  set_rq_translateDelta (u64 (now - rq_time r)) r.
Definition setAccessLatency (now : Z) (r : Request) : Request :=
  set_rq_accessDelta (u64 (now - rq_time r - rq_translateDelta r)) r.

Definition isUncacheable (r : Request) : bool := fl_isSet (rq_flags r) UNCACHEABLE.
Definition isStrictlyOrdered (r : Request) : bool := fl_isSet (rq_flags r) STRICT_ORDER.
Definition isInstFetch (r : Request) : bool := fl_isSet (rq_flags r) INST_FETCH.
Definition rq_isPrefetch (r : Request) : bool :=
  fl_isSet (rq_flags r) PREFETCH || fl_isSet (rq_flags r) PF_EXCLUSIVE.
Definition isPrefetchEx (r : Request) : bool := fl_isSet (rq_flags r) PF_EXCLUSIVE.
Definition rq_isLLSC (r : Request) : bool := fl_isSet (rq_flags r) LLSC.
Definition isPriv (r : Request) : bool := fl_isSet (rq_flags r) PRIVILEGED.
Definition isLockedRMW (r : Request) : bool := fl_isSet (rq_flags r) LOCKED_RMW.
Definition isSwap (r : Request) : bool := fl_isSet (rq_flags r) (Z.lor MEM_SWAP MEM_SWAP_COND).
Definition isCondSwap (r : Request) : bool := fl_isSet (rq_flags r) MEM_SWAP_COND.
Definition rq_isSecure (r : Request) : bool := fl_isSet (rq_flags r) SECURE.
Definition isPTWalk (r : Request) : bool := fl_isSet (rq_flags r) PT_WALK.
Definition isAcquire (r : Request) : bool := fl_isSet (rq_flags r) ACQUIRE.
Definition isRelease (r : Request) : bool := fl_isSet (rq_flags r) RELEASE.
Definition isKernel (r : Request) : bool := fl_isSet (rq_flags r) KERNEL.
Definition isAtomicReturn (r : Request) : bool := fl_isSet (rq_flags r) ATOMIC_RETURN_OP.
Definition isAtomicNoReturn (r : Request) : bool := fl_isSet (rq_flags r) ATOMIC_NO_RETURN_OP.
Definition isAtomic (r : Request) : bool := isAtomicReturn r || isAtomicNoReturn r.
Definition isToPOU (r : Request) : bool := fl_isSet (rq_flags r) DST_POU.
Definition isToPOC (r : Request) : bool := fl_isSet (rq_flags r) DST_POC.
Definition getDest (r : Request) : Z := Z.land (rq_flags r) DST_BITS.
Definition isCacheClean (r : Request) : bool := fl_isSet (rq_flags r) CLEAN.
Definition isCacheInvalidate (r : Request) : bool := fl_isSet (rq_flags r) INVALIDATE.
Definition isCacheMaintenance (r : Request) : bool := fl_isSet (rq_flags r) (Z.lor CLEAN INVALIDATE).

(** Scopes and segments of GPU accesses. *)
Definition isScoped (r : Request) : bool := fl_isSet (rq_memSpaceConfigFlags r) SCOPE_VALID.
Definition scope (bit : Z) (r : Request) : res bool :=
  assert_r (isScoped r) "isScoped()";; Ok (fl_isSet (rq_memSpaceConfigFlags r) bit).
Definition isWavefrontScope : Request -> res bool := scope WAVEFRONT_SCOPE.
Definition isWorkgroupScope : Request -> res bool := scope WORKGROUP_SCOPE.
Definition isDeviceScope : Request -> res bool := scope DEVICE_SCOPE.
Definition isSystemScope : Request -> res bool := scope SYSTEM_SCOPE.
Definition segment (bit : Z) (r : Request) : bool := fl_isSet (rq_memSpaceConfigFlags r) bit.
Definition isGroupSegment : Request -> bool := segment GROUP_SEGMENT.
Definition isPrivateSegment : Request -> bool := segment PRIVATE_SEGMENT.
Definition isKernargSegment : Request -> bool := segment KERNARG_SEGMENT.
Definition isReadonlySegment : Request -> bool := segment READONLY_SEGMENT.
Definition isSpillSegment : Request -> bool := segment SPILL_SEGMENT.
Definition isArgSegment : Request -> bool := segment ARG_SEGMENT.
Definition isGlobalSegment (r : Request) : bool :=
  segment GLOBAL_SEGMENT r
  || (negb (isGroupSegment r) && negb (isPrivateSegment r) && negb (isKernargSegment r)
      && negb (isReadonlySegment r) && negb (isSpillSegment r) && negb (isArgSegment r)).

(** ** Properties *)

Lemma getExtraData_set x r : getExtraData (setExtraData x r) = Ok x.
Proof.
  unfold getExtraData, extraDataValid, setExtraData. cbn [rq_privateFlags set_rq_privateFlags].
  rewrite assert_r_true; [done|]. unfold fl_isSet, fl_set. apply negb_true_iff, Z.eqb_neq.
  intros E. apply (f_equal (fun z => Z.testbit z 7)) in E.
  rewrite Z.land_spec, Z.lor_spec in E. simpl in E. by rewrite orb_true_r in E.
Qed.

(** A request with a virtual range that does not wrap and a mask, if any, of
    its own size. *)
Definition req_wf (r : Request) : Prop :=
  0 <= rq_vaddr r /\ 0 < rq_size r < 2 ^ 32 /\ rq_vaddr r + rq_size r < 2 ^ 64
  /\ (rq_byteEnable r = [] \/ Z.of_nat (length (rq_byteEnable r)) = rq_size r).

(** The request accesses the byte at virtual address [a]. *)
Definition accesses (r : Request) (a : Z) : bool :=
  (rq_vaddr r <=? a) && (a <? rq_vaddr r + rq_size r)
  && (bool_decide (rq_byteEnable r = [])
      || bool_decide (rq_byteEnable r !! Z.to_nat (a - rq_vaddr r) = Some true)).

Lemma accesses_unmasked r a :
  rq_byteEnable r = [] ->
  accesses r a = (rq_vaddr r <=? a) && (a <? rq_vaddr r + rq_size r).
Proof. intros H. unfold accesses. rewrite (bool_decide_eq_true_2 _ H). apply andb_true_r. Qed.

Lemma accesses_masked r a :
  rq_byteEnable r <> [] ->
  accesses r a = (rq_vaddr r <=? a) && (a <? rq_vaddr r + rq_size r)
    && bool_decide (rq_byteEnable r !! Z.to_nat (a - rq_vaddr r) = Some true).
Proof. intros H. unfold accesses. by rewrite (bool_decide_eq_false_2 _ H). Qed.

(** The two parts as they are made. *)
Lemma splitOnVaddr_run split r :
  req_wf r -> hasVaddr r = true -> hasPaddr r = false -> rq_vaddr r < split < rq_vaddr r + rq_size r ->
  let n := split - rq_vaddr r in
  splitOnVaddr split r =
    Ok (if bool_decide (rq_byteEnable r = [])
        then (set_rq_size n (copy_Request r),
              set_rq_size (rq_size r - n) (set_rq_vaddr split (copy_Request r)))
        else (set_rq_byteEnable (take (Z.to_nat n) (rq_byteEnable r)) (set_rq_size n (copy_Request r)),
              set_rq_byteEnable (drop (Z.to_nat n) (rq_byteEnable r))
                (set_rq_size (rq_size r - n) (set_rq_vaddr split (copy_Request r))))).
Proof.
  intros (H0 & Hs & Hb & _) Hv Hp Hr n. unfold splitOnVaddr, hasVaddr, hasPaddr in *.
  rewrite !assert_r_true; [|rewrite u64_small by lia; lia|by rewrite Hp|done].
  cbn [rq_size set_rq_size]. unfold u32.
  rewrite !(wrap_small 32 (split - _)) by lia. rewrite wrap_small by lia. by case_bool_decide.
Qed.

(** Each part accesses what the request accesses on its side of the split. *)
Lemma lower_accesses r n a :
  0 <= n <= rq_size r -> (rq_byteEnable r = [] \/ take (Z.to_nat n) (rq_byteEnable r) <> []) ->
  accesses (set_rq_byteEnable (take (Z.to_nat n) (rq_byteEnable r)) (set_rq_size n r)) a
  = accesses r a && (a <? rq_vaddr r + n).
Proof.
  intros Hn He. destruct (decide (rq_byteEnable r = [])) as [E|E].
  { rewrite !accesses_unmasked; [simpl; lia|done|simpl; by rewrite E, take_nil]. }
  destruct He as [?|He]; [done|]. rewrite !accesses_masked by done. simpl.
  destruct (rq_vaddr r <=? a) eqn:?, (a <? rq_vaddr r + n) eqn:?; simpl; try by rewrite ?andb_false_r.
  rewrite lookup_take_lt by lia. destruct (a <? rq_vaddr r + rq_size r) eqn:?; [by rewrite andb_true_r|lia].
Qed.

Lemma upper_accesses r n a :
  0 <= n <= rq_size r -> (rq_byteEnable r = [] \/ drop (Z.to_nat n) (rq_byteEnable r) <> []) ->
  accesses (set_rq_byteEnable (drop (Z.to_nat n) (rq_byteEnable r))
              (set_rq_size (rq_size r - n) (set_rq_vaddr (rq_vaddr r + n) r))) a
  = accesses r a && (rq_vaddr r + n <=? a).
Proof.
  intros Hn He. destruct (decide (rq_byteEnable r = [])) as [E|E].
  { rewrite !accesses_unmasked; [simpl; lia|done|simpl; by rewrite E, drop_nil]. }
  destruct He as [?|He]; [done|]. rewrite !accesses_masked by done. simpl.
  replace (rq_vaddr r + n + (rq_size r - n)) with (rq_vaddr r + rq_size r) by lia.
  destruct (rq_vaddr r + n <=? a) eqn:?, (a <? rq_vaddr r + rq_size r) eqn:?; simpl;
    rewrite ?andb_false_r, ?andb_true_r; try done.
  rewrite (proj2 (Z.leb_le (rq_vaddr r) a)) by lia. rewrite lookup_drop. simpl.
  by replace (Z.to_nat n + Z.to_nat (a - (rq_vaddr r + n)))%nat with (Z.to_nat (a - rq_vaddr r)) by lia.
Qed.

(** Splitting a request at an address inside it loses nothing and counts
    nothing twice: both parts are well-formed, every byte the request accesses
    (byte enables included) is accessed by exactly one of them, and outside
    the request the parts access nothing. *)
Theorem splitOnVaddr_partition split r :
  req_wf r -> hasVaddr r = true -> hasPaddr r = false -> rq_vaddr r < split < rq_vaddr r + rq_size r ->
  exists r1 r2, splitOnVaddr split r = Ok (r1, r2) /\ req_wf r1 /\ req_wf r2
    /\ rq_vaddr r1 = rq_vaddr r /\ rq_vaddr r2 = split
    /\ forall a, accesses r1 a = accesses r a && (a <? split)
                 /\ accesses r2 a = accesses r a && (split <=? a).
Proof.
  intros Hw Hv Hp Hr. rewrite splitOnVaddr_run by done. destruct Hw as (H0 & Hs & Hb & Hm).
  remember (split - rq_vaddr r) as n eqn:Hn. replace split with (rq_vaddr r + n) by lia.
  assert (rq_byteEnable r = [] \/ take (Z.to_nat n) (rq_byteEnable r) <> []
    /\ drop (Z.to_nat n) (rq_byteEnable r) <> []) as Hne.
  { destruct Hm as [?|Hm]; [by left|right].
    split; intros E; apply (f_equal length) in E; rewrite ?length_take, ?length_drop in E; simpl in E; lia. }
  assert (0 <= n <= rq_size r) as Hnr by lia.
  pose proof (fun a => lower_accesses (copy_Request r) n a Hnr ltac:(simpl; tauto)) as Hlo.
  pose proof (fun a => upper_accesses (copy_Request r) n a Hnr ltac:(simpl; tauto)) as Hup.
  case_bool_decide as He; do 2 eexists; (split; [reflexivity|]); unfold req_wf; simpl.
  - simpl in Hlo, Hup. rewrite He in Hlo, Hup. rewrite take_nil in Hlo. rewrite drop_nil in Hup.
    rewrite He. repeat split; auto; try lia; destruct r; simpl in *; subst; [apply Hlo|apply Hup].
  - destruct Hm as [?|Hm]; [done|]. rewrite length_take, length_drop.
    repeat split; try lia; [apply Hlo|apply Hup].
Qed.

Definition demo_split : Request :=
  set_rq_byteEnable [true; false; true; true] (new_Request_virt 0 0xFFE 4 0 5 0x400 1 None).
Lemma splitOnVaddr_partition_witness :
  exists r1 r2, splitOnVaddr 0x1000 demo_split = Ok (r1, r2)
    /\ accesses r2 0x1001 = true /\ accesses r1 0xFFF = false.
Proof.
  destruct (splitOnVaddr_partition 0x1000 demo_split) as (r1 & r2 & Hs & _ & _ & _ & _ & Ha);
    [unfold req_wf; simpl; intuition lia|done|done|by vm_compute|].
  exists r1, r2. split; [exact Hs|]. split; [rewrite (proj2 (Ha 0x1001))|rewrite (proj1 (Ha 0xFFF))]; reflexivity.
Defined.

(** The copy constructor copies the flag that says the stream identifier is
    valid, but not the identifier. *)
Theorem copy_Request_loses_stream sid :
  streamId (setStreamId sid new_Request) = Ok sid
  /\ streamId (copy_Request (setStreamId sid new_Request)) = Ok 0.
Proof. split; reflexivity. Qed.

(** [setVirt] sets a request object up again but keeps the byte enables of its
    previous use, whose number then differs from the new size. *)
Theorem setVirt_keeps_mask :
  exists r be, setByteEnable be r = Ok (set_rq_byteEnable be r)
    /\ let r' := setVirt 0 0x1000 8 0 5 0x400 None (set_rq_byteEnable be r) in
       isMasked r' = true /\ Z.of_nat (length (rq_byteEnable r')) <> rq_size r'.
Proof.
  exists (new_Request_virt 0 0x1000 2 0 5 0x400 1 None), [true; false].
  split; [by vm_compute|]. split; [by vm_compute|]. vm_compute. discriminate.
Qed.
