(* ===== verification/ByteSwap.v ===== *)
(** * Byte order (sim/byteswap.hh)

    The portable byte swaps, selected by the size of the type, and the
    conversions of a little-endian host.  The reference they are compared with
    is the reversal of the list of bytes of a word. *)

From S2P Require Import Prelude.

(** ** The code *)

Definition swap_byte64 (x : Z) : Z :=
  Z.lor (Z.shiftl (Z.land x 0xff) 56)
  (Z.lor (Z.shiftl (Z.land x 0xff00) 40)
  (Z.lor (Z.shiftl (Z.land x 0xff0000) 24)
  (Z.lor (Z.shiftl (Z.land x 0xff000000) 8)
  (Z.lor (Z.shiftr (Z.land x 0xff00000000) 8)
  (Z.lor (Z.shiftr (Z.land x 0xff0000000000) 24)
  (Z.lor (Z.shiftr (Z.land x 0xff000000000000) 40)
         (Z.shiftr (Z.land x 0xff00000000000000) 56))))))).

Definition swap_byte32 (x : Z) : Z :=
  Z.lor (Z.shiftl (Z.land x 0xff) 24)
  (Z.lor (Z.shiftl (Z.land x 0xff00) 8)
  (Z.lor (Z.shiftr (Z.land x 0xff0000) 8) (Z.shiftr (Z.land x 0xff000000) 24))).

Definition swap_byte16 (x : Z) : Z :=
  Z.lor (Z.shiftl (Z.land x 0xff) 8) (Z.shiftr (Z.land x 0xff00) 8).

(** [swap_byte<T>] for a type of [sz] bytes. *)
Definition swap_byte (sz : nat) (x : Z) : res Z :=
  match sz with
  | 8%nat => Ok (swap_byte64 (u64 x))
  | 4%nat => Ok (swap_byte32 (u32 x))
  | 2%nat => Ok (swap_byte16 (u16 x))
  | 1%nat => Ok x
  | _ => Err (EPanic "Can't byte-swap values larger than 64 bits")
  end.

Inductive ByteOrder := BigEndianByteOrder | LittleEndianByteOrder.

(** The host is little-endian. *)
Definition htole (sz : nat) (x : Z) : res Z := Ok x.
Definition letoh (sz : nat) (x : Z) : res Z := Ok x.
Definition htobe (sz : nat) (x : Z) : res Z := swap_byte sz x.
Definition betoh (sz : nat) (x : Z) : res Z := swap_byte sz x.
Definition htog (sz : nat) (x : Z) (o : ByteOrder) : res Z :=
  match o with BigEndianByteOrder => htobe sz x | LittleEndianByteOrder => htole sz x end.
Definition gtoh (sz : nat) (x : Z) (o : ByteOrder) : res Z :=
  match o with BigEndianByteOrder => betoh sz x | LittleEndianByteOrder => letoh sz x end.

(** ** Bytes of a word *)

Definition is_byte (b : Z) : Prop := 0 <= b < 2 ^ 8.

Fixpoint le_bytes (n : nat) (x : Z) : list Z :=
  match n with O => [] | S n' => Z.land x 255 :: le_bytes n' (Z.shiftr x 8) end.
Fixpoint le_word (bs : list Z) : Z :=
  match bs with [] => 0 | b :: bs' => b + 2 ^ 8 * le_word bs' end.

Lemma land_255 x : Z.land x 255 = x mod 2 ^ 8.
Proof. change 255 with (Z.ones 8). by rewrite Z.land_ones by lia. Qed.

Lemma le_bytes_length n x : length (le_bytes n x) = n.
Proof. revert x. induction n; simpl; auto. Qed.

Lemma le_bytes_byte n x : Forall is_byte (le_bytes n x).
Proof.
  revert x. induction n as [|n IH]; intros x; simpl; constructor; [|apply IH].
  rewrite land_255. apply Z.mod_pos_bound. lia.
Qed.

Lemma le_word_bound bs : Forall is_byte bs -> 0 <= le_word bs < 2 ^ (8 * Z.of_nat (length bs)).
Proof.
  induction 1 as [|b bs Hb Hbs IH]; simpl; [lia|]. unfold is_byte in Hb.
  replace (8 * Z.of_nat (S (length bs))) with (8 + 8 * Z.of_nat (length bs)) by lia.
  rewrite Z.pow_add_r by lia. nia.
Qed.

(** Splitting a word and putting it together again. *)
Lemma le_word_bytes n x : le_word (le_bytes n x) = x mod 2 ^ (8 * Z.of_nat n).
Proof.
  revert x. induction n as [|n IH]; intros x; [by rewrite Z.mod_1_r|].
  cbn [le_bytes le_word]. rewrite IH, land_255, Z.shiftr_div_pow2 by lia.
  replace (8 * Z.of_nat (S n)) with (8 + 8 * Z.of_nat n) by lia.
  rewrite Z.pow_add_r by lia. rewrite Z.rem_mul_r by lia. lia.
Qed.

Lemma le_bytes_word bs : Forall is_byte bs -> le_bytes (length bs) (le_word bs) = bs.
Proof.
  induction 1 as [|b bs Hb Hbs IH]; [done|]. unfold is_byte in Hb. cbn [le_bytes le_word length].
  rewrite land_255, Z.shiftr_div_pow2 by lia. f_equal.
  - rewrite Z.mul_comm, Z.mod_add by lia. by apply Z.mod_small.
  - rewrite Z.mul_comm, Z.div_add by lia. by rewrite Z.div_small, Z.add_0_l by lia.
Qed.

(** ** The swaps reverse the bytes *)

(** Equality of two bytes, bit by bit. *)
Ltac testbits :=
  repeat first
    [ rewrite Z.land_spec | rewrite Z.lor_spec
    | rewrite Z.shiftr_spec by lia | rewrite Z.shiftl_spec by lia ].
Ltac same_byte :=
  apply Z.bits_inj'; let i := fresh "i" in let Hi := fresh "Hi" in intros i Hi;
  destruct (Z.lt_ge_cases i 8);
  [ assert (i = 0 \/ i = 1 \/ i = 2 \/ i = 3 \/ i = 4 \/ i = 5 \/ i = 6 \/ i = 7)
      as [-> | [-> | [-> | [-> | [-> | [-> | [-> | ->]]]]]]] by lia;
    testbits; simpl; rewrite ?andb_true_r, ?andb_false_r, ?orb_false_r; reflexivity
  | rewrite !Z.land_spec, !(Z.bits_above_log2 255) by (simpl; lia); by rewrite !andb_false_r ].

Ltac swap_rev :=
  cbn [le_bytes rev app]; rewrite ?Z.shiftr_shiftr by lia;
  repeat match goal with |- _ :: _ = _ :: _ => f_equal end; try reflexivity; same_byte.

Lemma swap_byte16_rev x : le_bytes 2 (swap_byte16 x) = rev (le_bytes 2 x).
Proof. unfold swap_byte16. swap_rev. Qed.
Lemma swap_byte32_rev x : le_bytes 4 (swap_byte32 x) = rev (le_bytes 4 x).
Proof. unfold swap_byte32. swap_rev. Qed.
Lemma swap_byte64_rev x : le_bytes 8 (swap_byte64 x) = rev (le_bytes 8 x).
Proof. unfold swap_byte64. swap_rev. Qed.

Lemma high_bits_bound n y : 0 <= n -> (forall i, n <= i -> Z.testbit y i = false) -> 0 <= y < 2 ^ n.
Proof.
  intros Hn Hb. assert (y = y mod 2 ^ n) as ->; [|apply Z.mod_pos_bound; lia].
  apply Z.bits_inj'. intros i Hi. destruct (Z.lt_ge_cases i n).
  - by rewrite Z.mod_pow2_bits_low.
  - rewrite Z.mod_pow2_bits_high by lia. by apply Hb.
Qed.

Lemma mask_bit_false m n i : 0 <= m < 2 ^ n -> n <= i -> Z.testbit m i = false.
Proof.
  intros Hm Hi. destruct (Z.eq_dec m 0) as [-> |]; [apply Z.bits_0|].
  apply Z.bits_above_log2; [lia|]. assert (Z.log2 m < n) by (apply Z.log2_lt_pow2; lia). lia.
Qed.

Ltac swap_bound w :=
  apply high_bits_bound; [lia|]; let i := fresh "i" in let Hi := fresh "Hi" in intros i Hi;
  repeat (first [ rewrite Z.lor_spec | rewrite Z.shiftl_spec by lia | rewrite Z.shiftr_spec by lia
                | rewrite Z.land_spec ]);
  rewrite !orb_false_iff; repeat split; apply andb_false_intro2;
  first [ apply (mask_bit_false _ w); lia | apply (mask_bit_false _ 8); lia
        | apply (mask_bit_false _ 16); lia | apply (mask_bit_false _ 24); lia
        | apply (mask_bit_false _ 32); lia ].

Lemma swap_byte16_bound x : 0 <= swap_byte16 x < 2 ^ 16.
Proof. unfold swap_byte16. swap_bound 16. Qed.
Lemma swap_byte32_bound x : 0 <= swap_byte32 x < 2 ^ 32.
Proof. unfold swap_byte32. swap_bound 32. Qed.
Lemma swap_byte64_bound x : 0 <= swap_byte64 x < 2 ^ 64.
Proof. unfold swap_byte64. swap_bound 64. Qed.

(** Words that have the same bytes are equal. *)
Lemma le_bytes_inj n x y :
  0 <= x < 2 ^ (8 * Z.of_nat n) -> 0 <= y < 2 ^ (8 * Z.of_nat n) ->
  le_bytes n x = le_bytes n y -> x = y.
Proof.
  intros Hx Hy E. apply (f_equal le_word) in E. rewrite !le_word_bytes, !Z.mod_small in E by done. done.
Qed.

(** The sizes of the integer types. *)
Definition word_size (sz : nat) : bool := bool_decide (sz ∈ [1; 2; 4; 8]%nat).

Lemma word_size_cases sz : word_size sz = true -> sz = 1%nat \/ sz = 2%nat \/ sz = 4%nat \/ sz = 8%nat.
Proof. unfold word_size. rewrite bool_decide_eq_true. rewrite !elem_of_cons, elem_of_nil. tauto. Qed.

Lemma swap_byte_rev sz x :
  word_size sz = true -> 0 <= x < 2 ^ (8 * Z.of_nat sz) ->
  exists y, swap_byte sz x = Ok y /\ 0 <= y < 2 ^ (8 * Z.of_nat sz) /\ le_bytes sz y = rev (le_bytes sz x).
Proof.
  intros [-> | [-> | [-> | ->]]]%word_size_cases Hx; simpl in Hx; eexists; (split; [reflexivity|]).
  - done.
  - unfold u16. rewrite wrap_small by lia. split; [apply swap_byte16_bound|apply swap_byte16_rev].
  - unfold u32. rewrite wrap_small by lia. split; [apply swap_byte32_bound|apply swap_byte32_rev].
  - unfold u64. rewrite wrap_small by lia. split; [apply swap_byte64_bound|apply swap_byte64_rev].
Qed.

(** For every integer type the byte swap reverses the order of the bytes,
    keeps the value in the type, and undoes itself; a type of another size is
    refused. *)
Theorem swap_byte_reverses sz x :
  0 <= x < 2 ^ (8 * Z.of_nat sz) ->
  if word_size sz
  then exists y, swap_byte sz x = Ok y /\ 0 <= y < 2 ^ (8 * Z.of_nat sz)
         /\ le_bytes sz y = rev (le_bytes sz x) /\ swap_byte sz y = Ok x
  else swap_byte sz x = Err (EPanic "Can't byte-swap values larger than 64 bits").
Proof.
  intros Hx. destruct (word_size sz) eqn:Hs.
  - destruct (swap_byte_rev sz x Hs Hx) as (y & Hy & Hb & Hr). exists y. repeat split; try (done || lia).
    destruct (swap_byte_rev sz y Hs Hb) as (z & Hz & Hzb & Hzr). rewrite Hz. f_equal.
    apply (le_bytes_inj sz); [done..|]. by rewrite Hzr, Hr, rev_involutive.
  - do 9 (destruct sz as [|sz]; [done|]). done.
Qed.

Lemma swap_byte_reverses_witness : swap_byte 4 0x11223344 = Ok 0x44332211.
Proof.
  destruct (swap_byte_reverses 4 0x11223344) as (y & Hy & Hb & Hr & _); [simpl; lia|].
  rewrite Hy. f_equal. apply (le_bytes_inj 4); [exact Hb|simpl; lia|]. rewrite Hr. reflexivity.
Defined.
