(* ===== verification/PacketData.v ===== *)
(** * Packets with their data (mem/packet.hh, mem/packet.cc, mem/packet_access.hh)

    The whole [Packet]: flags, command, request, address, size and the bytes it
    carries.  The data pointer is [None] or an array of bytes of its own, so
    the sharing of static data between a packet and its copies is not visible;
    copies made here are either forwarded or read, never both.  Sender states
    are a stack of names.  Printing is left out. *)

From S2P Require Import Prelude EventQ Packet Request ByteSwap AddrRange.

(** ** Flags *)

Definition COPY_FLAGS : Z := 0x0000003F.
Definition RESPONDER_FLAGS : Z := 0x00000009.
Definition HAS_SHARERS : Z := 0x00000001.
Definition EXPRESS_SNOOP : Z := 0x00000002.
Definition RESPONDER_HAD_WRITABLE : Z := 0x00000004.
Definition CACHE_RESPONDING : Z := 0x00000008.
Definition WRITE_THROUGH : Z := 0x00000010.
Definition SATISFIED : Z := 0x00000020.
Definition VALID_ADDR : Z := 0x00000100.
Definition VALID_SIZE : Z := 0x00000200.
Definition STATIC_DATA : Z := 0x00001000.
Definition DYNAMIC_DATA : Z := 0x00002000.
Definition SUPPRESS_FUNC_ERROR : Z := 0x00008000.
Definition BLOCK_CACHED : Z := 0x00010000.

(** ** The packet *)

Record Pkt := mkPkt {
  p_flags : Z;
  p_cmd : Command;
  p_id : Z;
  p_req : Request;
  p_data : option (list Z);
  p_addr : Z;
  p_isSecure : bool;
  p_size : Z;
  p_bytesValid : list bool;
  p_qosValue : Z;
  p_headerDelay : Z;
  p_snoopDelay : Z;
  p_payloadDelay : Z;
  p_senderState : list nat
}.

(** *** Field updates *)
Definition set_p_flags (x : Z) (p : Pkt) : Pkt :=
  mkPkt x (p_cmd p) (p_id p) (p_req p) (p_data p) (p_addr p) (p_isSecure p) (p_size p)
    (p_bytesValid p) (p_qosValue p) (p_headerDelay p) (p_snoopDelay p) (p_payloadDelay p)
    (p_senderState p).
Definition set_p_cmd (x : Command) (p : Pkt) : Pkt :=
  mkPkt (p_flags p) x (p_id p) (p_req p) (p_data p) (p_addr p) (p_isSecure p) (p_size p)
    (p_bytesValid p) (p_qosValue p) (p_headerDelay p) (p_snoopDelay p) (p_payloadDelay p)
    (p_senderState p).
Definition set_p_id (x : Z) (p : Pkt) : Pkt :=
  mkPkt (p_flags p) (p_cmd p) x (p_req p) (p_data p) (p_addr p) (p_isSecure p) (p_size p)
    (p_bytesValid p) (p_qosValue p) (p_headerDelay p) (p_snoopDelay p) (p_payloadDelay p)
    (p_senderState p).
Definition set_p_req (x : Request) (p : Pkt) : Pkt :=
  mkPkt (p_flags p) (p_cmd p) (p_id p) x (p_data p) (p_addr p) (p_isSecure p) (p_size p)
    (p_bytesValid p) (p_qosValue p) (p_headerDelay p) (p_snoopDelay p) (p_payloadDelay p)
    (p_senderState p).
Definition set_p_data (x : option (list Z)) (p : Pkt) : Pkt :=
  mkPkt (p_flags p) (p_cmd p) (p_id p) (p_req p) x (p_addr p) (p_isSecure p) (p_size p)
    (p_bytesValid p) (p_qosValue p) (p_headerDelay p) (p_snoopDelay p) (p_payloadDelay p)
    (p_senderState p).
Definition set_p_addr (x : Z) (p : Pkt) : Pkt :=
  mkPkt (p_flags p) (p_cmd p) (p_id p) (p_req p) (p_data p) x (p_isSecure p) (p_size p)
    (p_bytesValid p) (p_qosValue p) (p_headerDelay p) (p_snoopDelay p) (p_payloadDelay p)
    (p_senderState p).
Definition set_p_isSecure (x : bool) (p : Pkt) : Pkt :=
  mkPkt (p_flags p) (p_cmd p) (p_id p) (p_req p) (p_data p) (p_addr p) x (p_size p)
    (p_bytesValid p) (p_qosValue p) (p_headerDelay p) (p_snoopDelay p) (p_payloadDelay p)
    (p_senderState p).
Definition set_p_size (x : Z) (p : Pkt) : Pkt :=
  mkPkt (p_flags p) (p_cmd p) (p_id p) (p_req p) (p_data p) (p_addr p) (p_isSecure p) x
    (p_bytesValid p) (p_qosValue p) (p_headerDelay p) (p_snoopDelay p) (p_payloadDelay p)
    (p_senderState p).
Definition set_p_bytesValid (x : list bool) (p : Pkt) : Pkt :=
  mkPkt (p_flags p) (p_cmd p) (p_id p) (p_req p) (p_data p) (p_addr p) (p_isSecure p) (p_size p) x
    (p_qosValue p) (p_headerDelay p) (p_snoopDelay p) (p_payloadDelay p) (p_senderState p).
Definition set_p_qosValue (x : Z) (p : Pkt) : Pkt :=
  mkPkt (p_flags p) (p_cmd p) (p_id p) (p_req p) (p_data p) (p_addr p) (p_isSecure p) (p_size p)
    (p_bytesValid p) x (p_headerDelay p) (p_snoopDelay p) (p_payloadDelay p) (p_senderState p).
Definition set_p_headerDelay (x : Z) (p : Pkt) : Pkt :=
  mkPkt (p_flags p) (p_cmd p) (p_id p) (p_req p) (p_data p) (p_addr p) (p_isSecure p) (p_size p)
    (p_bytesValid p) (p_qosValue p) x (p_snoopDelay p) (p_payloadDelay p) (p_senderState p).
Definition set_p_snoopDelay (x : Z) (p : Pkt) : Pkt :=
  mkPkt (p_flags p) (p_cmd p) (p_id p) (p_req p) (p_data p) (p_addr p) (p_isSecure p) (p_size p)
    (p_bytesValid p) (p_qosValue p) (p_headerDelay p) x (p_payloadDelay p) (p_senderState p).
Definition set_p_payloadDelay (x : Z) (p : Pkt) : Pkt :=
  mkPkt (p_flags p) (p_cmd p) (p_id p) (p_req p) (p_data p) (p_addr p) (p_isSecure p) (p_size p)
    (p_bytesValid p) (p_qosValue p) (p_headerDelay p) (p_snoopDelay p) x (p_senderState p).
Definition set_p_senderState (x : list nat) (p : Pkt) : Pkt :=
  mkPkt (p_flags p) (p_cmd p) (p_id p) (p_req p) (p_data p) (p_addr p) (p_isSecure p) (p_size p)
    (p_bytesValid p) (p_qosValue p) (p_headerDelay p) (p_snoopDelay p) (p_payloadDelay p) x.
Definition p_isSet (f : Z) (p : Pkt) : bool := fl_isSet (p_flags p) f.
Definition p_set (f : Z) (p : Pkt) : Pkt := set_p_flags (fl_set (p_flags p) f) p.
Definition p_clear (f : Z) (p : Pkt) : Pkt := set_p_flags (fl_clear (p_flags p) f) p.

(** ** Queries *)

Definition pkt_needsWritable (p : Pkt) : res bool :=
  assert_r (isRequest (p_cmd p)) "isRequest()";; Ok (needsWritable (p_cmd p)).
Definition hasRespData (p : Pkt) : bool := hasData (responseCommand (p_cmd p)).
Definition isMaskedWrite (p : Pkt) : bool :=
  bool_decide (p_cmd p = WriteReq) && isMasked (p_req p).
Definition mustCheckAbove (p : Pkt) : bool :=
  bool_decide (p_cmd p = HardPFReq) || isEviction (p_cmd p).
Definition isCleanEviction (p : Pkt) : bool :=
  bool_decide (p_cmd p = CleanEvict) || bool_decide (p_cmd p = WritebackClean).

Definition getAddr (p : Pkt) : res Z :=
  assert_r (p_isSet VALID_ADDR p) "flags.isSet(VALID_ADDR)";; Ok (p_addr p).
Definition setAddr (a : Z) (p : Pkt) : res Pkt :=
  assert_r (p_isSet VALID_ADDR p) "flags.isSet(VALID_ADDR)";; Ok (set_p_addr a p).
Definition getSize (p : Pkt) : res Z :=
  assert_r (p_isSet VALID_SIZE p) "flags.isSet(VALID_SIZE)";; Ok (p_size p).
Definition setSize (size : Z) (p : Pkt) : res Pkt :=
  assert_r (negb (p_isSet VALID_SIZE p)) "!flags.isSet(VALID_SIZE)";;
  Ok (p_set VALID_SIZE (set_p_size size p)).
Definition getAddrRange (p : Pkt) : res AddrRange :=
  a ← getAddr p; s ← getSize p; mret (RangeSize a s).
Definition isSecure (p : Pkt) : res bool :=
  assert_r (p_isSet VALID_ADDR p) "flags.isSet(VALID_ADDR)";; Ok (p_isSecure p).

(** [blk_size - 1] is computed at 32 bits and widened; its complement at 64. *)
Definition blk_mask (blk_size : Z) : Z := u32 (blk_size - 1).
Definition pkt_getOffset (blk_size : Z) (p : Pkt) : res Z :=
  a ← getAddr p; mret (Z.land a (blk_mask blk_size)).
Definition getBlockAddr (blk_size : Z) (p : Pkt) : res Z :=
  a ← getAddr p; mret (Z.ldiff a (blk_mask blk_size)).
Definition isWholeLineWrite (blk_size : Z) (p : Pkt) : res bool :=
  if bool_decide (p_cmd p = WriteReq) || bool_decide (p_cmd p = WriteLineReq) then
    off ← pkt_getOffset blk_size p;
    if off =? 0 then s ← getSize p; mret (s =? blk_size) else mret false
  else mret false.

Definition matchAddr_at (a : Z) (is_secure : bool) (p : Pkt) : res bool :=
  b ← getAddr p;
  if b =? a then s ← isSecure p; mret (Bool.eqb s is_secure) else mret false.
Definition matchAddr (p pkt : Pkt) : res bool :=
  a ← getAddr pkt; s ← isSecure pkt; matchAddr_at a s p.
Definition matchBlockAddr_at (a : Z) (is_secure : bool) (blk_size : Z) (p : Pkt) : res bool :=
  b ← getBlockAddr blk_size p;
  if b =? a then s ← isSecure p; mret (Bool.eqb s is_secure) else mret false.
Definition matchBlockAddr (p pkt : Pkt) (blk_size : Z) : res bool :=
  a ← getBlockAddr blk_size pkt; s ← isSecure pkt; matchBlockAddr_at a s blk_size p.

(** ** Snoop and status flags *)

Definition cacheResponding (p : Pkt) : bool := p_isSet CACHE_RESPONDING p.
Definition setCacheResponding (p : Pkt) : res Pkt :=
  assert_r (isRequest (p_cmd p)) "isRequest()";;
  assert_r (negb (cacheResponding p)) "!flags.isSet(CACHE_RESPONDING)";;
  Ok (p_set CACHE_RESPONDING p).
Definition setHasSharers : Pkt -> Pkt := p_set HAS_SHARERS.
Definition hasSharers (p : Pkt) : bool := p_isSet HAS_SHARERS p.
Definition setExpressSnoop : Pkt -> Pkt := p_set EXPRESS_SNOOP.
Definition isExpressSnoop (p : Pkt) : bool := p_isSet EXPRESS_SNOOP p.
Definition responderHadWritable (p : Pkt) : bool := p_isSet RESPONDER_HAD_WRITABLE p.
Definition setResponderHadWritable (p : Pkt) : res Pkt :=
  assert_r (cacheResponding p) "cacheResponding()";;
  assert_r (negb (responderHadWritable p)) "!responderHadWritable()";;
  Ok (p_set RESPONDER_HAD_WRITABLE p).
Definition copyResponderFlags (pkt p : Pkt) : res Pkt :=
  assert_r (isRequest (p_cmd p)) "isRequest()";;
  assert_r (negb (cacheResponding pkt) || negb (cacheResponding p))
    "!pkt->cacheResponding() || !cacheResponding()";;
  Ok (p_set (Z.land (p_flags pkt) RESPONDER_FLAGS) p).
Definition setWriteThrough (p : Pkt) : res Pkt :=
  assert_r (isWrite (p_cmd p) && (isEviction (p_cmd p) || bool_decide (p_cmd p = WriteClean)))
    "cmd.isWrite() && (cmd.isEviction() || cmd == MemCmd::WriteClean)";;
  Ok (p_set WRITE_THROUGH p).
Definition clearWriteThrough : Pkt -> Pkt := p_clear WRITE_THROUGH.
Definition writeThrough (p : Pkt) : bool := p_isSet WRITE_THROUGH p.
Definition satisfied (p : Pkt) : bool := p_isSet SATISFIED p.
Definition setSatisfied (p : Pkt) : res Pkt :=
  assert_r (isClean (p_cmd p)) "cmd.isClean()";;
  assert_r (negb (satisfied p)) "!flags.isSet(SATISFIED)";;
  Ok (p_set SATISFIED p).
Definition setSuppressFuncError : Pkt -> Pkt := p_set SUPPRESS_FUNC_ERROR.
Definition suppressFuncError (p : Pkt) : bool := p_isSet SUPPRESS_FUNC_ERROR p.
Definition setBlockCached : Pkt -> Pkt := p_set BLOCK_CACHED.
Definition isBlockCached (p : Pkt) : bool := p_isSet BLOCK_CACHED p.
Definition clearBlockCached : Pkt -> Pkt := p_clear BLOCK_CACHED.

Definition setBadAddress (p : Pkt) : res Pkt :=
  assert_r (isResponse (p_cmd p)) "isResponse()";; Ok (set_p_cmd BadAddressError p).
Definition copyError (pkt p : Pkt) : res Pkt :=
  assert_r (isError (p_cmd pkt)) "pkt->isError()";; Ok (set_p_cmd (p_cmd pkt) p).
Definition convertScToWrite (p : Pkt) : res Pkt :=
  assert_r (isLLSC (p_cmd p)) "isLLSC()";; assert_r (isWrite (p_cmd p)) "isWrite()";;
  Ok (set_p_cmd WriteReq p).
Definition convertLlToRead (p : Pkt) : res Pkt :=
  assert_r (isLLSC (p_cmd p)) "isLLSC()";; assert_r (isRead (p_cmd p)) "isRead()";;
  Ok (set_p_cmd ReadReq p).
Definition pkt_makeResponse (p : Pkt) : res Pkt :=
  assert_r (needsResponse (p_cmd p)) "needsResponse()";;
  assert_r (isRequest (p_cmd p)) "isRequest()";;
  Ok (p_clear EXPRESS_SNOOP (set_p_cmd (responseCommand (p_cmd p)) p)).
Definition setFunctionalResponseStatus (success : bool) (p : Pkt) : Pkt :=
  if success then p
  else if isWrite (p_cmd p) then set_p_cmd FunctionalWriteError p
  else set_p_cmd FunctionalReadError p.

Definition pushSenderState (s : nat) (p : Pkt) : Pkt := set_p_senderState (s :: p_senderState p) p.
Definition popSenderState (p : Pkt) : res (nat * Pkt) :=
  match p_senderState p with
  | [] => Err (EAssert "senderState != NULL")
  | s :: rest => Ok (s, set_p_senderState rest p)
  end.

(** ** Data *)

(** [memcpy(dst + off, src + soff, n)] *)
Definition memcpy (dst : list Z) (off : nat) (src : list Z) (soff n : nat) : res (list Z) :=
  if bool_decide (off + n <= length dst)%nat && bool_decide (soff + n <= length src)%nat
  then Ok (take off dst ++ take n (drop soff src) ++ drop (off + n) dst)
  else Err (EUndefined "memcpy out of bounds").

Definition has_data_flag (p : Pkt) : bool := p_isSet (Z.lor STATIC_DATA DYNAMIC_DATA) p.
Definition the_bytes (p : Pkt) : res (list Z) :=
  match p_data p with Some bs => Ok bs | None => Err (EUndefined "null data pointer") end.
Definition getConstPtr (p : Pkt) : res (list Z) :=
  assert_r (has_data_flag p) "flags.isSet(STATIC_DATA|DYNAMIC_DATA)";; the_bytes p.
Definition getPtr (p : Pkt) : res (list Z) :=
  assert_r (has_data_flag p) "flags.isSet(STATIC_DATA|DYNAMIC_DATA)";;
  assert_r (negb (isMaskedWrite p)) "!isMaskedWrite()";;
  the_bytes p.

Definition dataStatic (bs : list Z) (p : Pkt) : res Pkt :=
  assert_r (negb (has_data_flag p)) "flags.noneSet(STATIC_DATA|DYNAMIC_DATA)";;
  Ok (p_set STATIC_DATA (set_p_data (Some bs) p)).
Definition dataDynamic (bs : list Z) (p : Pkt) : res Pkt :=
  assert_r (negb (has_data_flag p)) "flags.noneSet(STATIC_DATA|DYNAMIC_DATA)";;
  Ok (p_set DYNAMIC_DATA (set_p_data (Some bs) p)).
Definition deleteData (p : Pkt) : Pkt :=
  set_p_data None (p_clear (Z.lor STATIC_DATA DYNAMIC_DATA) p).

(** [allocate]: [raw] is what the allocated memory holds. *)
Definition allocate (raw : list Z) (p : Pkt) : res Pkt :=
  if hasData (p_cmd p) || hasRespData p then
    assert_r (negb (has_data_flag p)) "flags.noneSet(STATIC_DATA|DYNAMIC_DATA)";;
    s ← getSize p;
    mret (set_p_data (Some (resize (Z.to_nat s) 0 raw)) (p_set DYNAMIC_DATA p))
  else Ok p.

(** [setData(p)] from memory other than the packet's own array. *)
Definition setData (src : list Z) (p : Pkt) : res Pkt :=
  bs ← getPtr p; s ← getSize p;
  bs' ← memcpy bs 0 src 0 (Z.to_nat s);
  mret (set_p_data (Some bs') p).
Definition setDataFromBlock (blk : list Z) (blkSize : Z) (p : Pkt) : res Pkt :=
  off ← pkt_getOffset blkSize p; setData (drop (Z.to_nat off) blk) p.

(** The loop of [writeData] over the enabled bytes. *)
Fixpoint write_enabled (enable : list bool) (base dst : list Z) : list Z :=
  match enable, base, dst with
  | b :: enable', x :: base', y :: dst' => (if b then x else y) :: write_enabled enable' base' dst'
  | _, _, _ => dst
  end.

(** [writeData(dst + off)] *)
Definition writeData (dst : list Z) (off : nat) (p : Pkt) : res (list Z) :=
  s ← getSize p;
  if negb (isMaskedWrite p) then
    bs ← getConstPtr p; memcpy dst off bs 0 (Z.to_nat s)
  else
    assert_r (Z.of_nat (length (rq_byteEnable (p_req p))) =? s) "req->getByteEnable().size() == getSize()";;
    bs ← getConstPtr p;
    if bool_decide (off + Z.to_nat s <= length dst)%nat && bool_decide (Z.to_nat s <= length bs)%nat
    then mret (take off dst ++ write_enabled (rq_byteEnable (p_req p)) bs (drop off dst))
    else Err (EUndefined "write out of bounds").
Definition writeDataToBlock (blk : list Z) (blkSize : Z) (p : Pkt) : res (list Z) :=
  off ← pkt_getOffset blkSize p; writeData blk (Z.to_nat off) p.

(** *** Words *)

Definition getRaw (sz : nat) (p : Pkt) : res Z :=
  assert_r (has_data_flag p) "flags.isSet(STATIC_DATA|DYNAMIC_DATA)";;
  assert_r (Z.of_nat sz <=? p_size p) "sizeof(T) <= size";;
  bs ← the_bytes p;
  if bool_decide (sz <= length bs)%nat then mret (le_word (take sz bs))
  else Err (EUndefined "read out of bounds").
Definition setRaw (sz : nat) (v : Z) (p : Pkt) : res Pkt :=
  assert_r (has_data_flag p) "flags.isSet(STATIC_DATA|DYNAMIC_DATA)";;
  assert_r (Z.of_nat sz <=? p_size p) "sizeof(T) <= size";;
  bs ← the_bytes p;
  bs' ← memcpy bs 0 (le_bytes sz v) 0 sz;
  mret (set_p_data (Some bs') p).
Definition getBE (sz : nat) (p : Pkt) : res Z := v ← getRaw sz p; betoh sz v.
Definition getLE (sz : nat) (p : Pkt) : res Z := v ← getRaw sz p; letoh sz v.
Definition get_word (sz : nat) (endian : ByteOrder) (p : Pkt) : res Z :=
  match endian with BigEndianByteOrder => getBE sz p | LittleEndianByteOrder => getLE sz p end.
Definition setBE (sz : nat) (v : Z) (p : Pkt) : res Pkt := w ← htobe sz v; setRaw sz w p.
Definition setLE (sz : nat) (v : Z) (p : Pkt) : res Pkt := w ← htole sz v; setRaw sz w p.
Definition set_word (sz : nat) (v : Z) (endian : ByteOrder) (p : Pkt) : res Pkt :=
  match endian with BigEndianByteOrder => setBE sz v p | LittleEndianByteOrder => setLE sz v p end.

(** The sizes [getUintX] and [setUintX] dispatch on. *)
Definition uint_size (s : Z) : res nat :=
  if s =? 1 then Ok 1%nat else if s =? 2 then Ok 2%nat
  else if s =? 4 then Ok 4%nat else if s =? 8 then Ok 8%nat
  else Err (EPanic "isn't a supported word size").
Definition getUintX (endian : ByteOrder) (p : Pkt) : res Z :=
  s ← getSize p; sz ← uint_size s; get_word sz endian p.
Definition setUintX (w : Z) (endian : ByteOrder) (p : Pkt) : res Pkt :=
  s ← getSize p; sz ← uint_size s; set_word sz (wrap (8 * Z.of_nat sz) w) endian p.

(** ** Construction *)

Definition makeReadCmd (r : Request) : Command :=
  if rq_isLLSC r then LoadLockedReq
  else if isPrefetchEx r then SoftPFExReq
  else if rq_isPrefetch r then SoftPFReq
  else ReadReq.
Definition makeWriteCmd (r : Request) : Command :=
  if rq_isLLSC r then StoreCondReq
  else if isSwap r || isAtomic r then SwapReq
  else if isCacheInvalidate r then (if isCacheClean r then CleanInvalidReq else InvalidateReq)
  else if isCacheClean r then CleanSharedReq
  else WriteReq.

(** [Packet(req, cmd)]; the request's identity is the packet's. *)
Definition new_Pkt (id : Z) (r : Request) (c : Command) : Pkt :=
  let p := mkPkt 0 c id r None 0 false 0 [] 0 0 0 0 [] in
  let p := if hasPaddr r
           then set_p_isSecure (rq_isSecure r) (p_set VALID_ADDR (set_p_addr (rq_paddr r) p)) else p in
  if hasSize r then p_set VALID_SIZE (set_p_size (rq_size r) p) else p.

(** [Packet(req, cmd, blkSize)]: [~(_blkSize - 1)] is an [int], widened with
    its sign. *)
Definition new_Pkt_block (id : Z) (r : Request) (c : Command) (blkSize : Z) : Pkt :=
  let p := mkPkt 0 c id r None 0 false 0 [] 0 0 0 0 [] in
  let p := if hasPaddr r
           then set_p_isSecure (rq_isSecure r)
                  (p_set VALID_ADDR (set_p_addr (Z.ldiff (rq_paddr r) (blkSize - 1)) p)) else p in
  p_set VALID_SIZE (set_p_size blkSize p).

Definition createRead (id : Z) (r : Request) : Pkt := new_Pkt id r (makeReadCmd r).
Definition createWrite (id : Z) (r : Request) : Pkt := new_Pkt id r (makeWriteCmd r).

(** [Packet(pkt, clear_flags, alloc_data)] *)
Definition copy_Pkt (raw : list Z) (pkt : Pkt) (clear_flags alloc_data : bool) : res Pkt :=
  let p := set_p_snoopDelay 0 (set_p_data None (set_p_flags 0 pkt)) in
  let p := if clear_flags then p else p_set (Z.land (p_flags pkt) COPY_FLAGS) p in
  let p := p_set (Z.land (p_flags pkt) (Z.lor VALID_ADDR VALID_SIZE)) p in
  if alloc_data then
    if p_isSet STATIC_DATA pkt then Ok (p_set STATIC_DATA (set_p_data (p_data pkt) p))
    else allocate raw p
  else Ok p.

(** ** Functional accesses *)

(** The valid-byte loops after a read: the bytes [off..off+n) become valid. *)
Definition mark_valid (valid : list bool) (off n : nat) : list bool :=
  take off valid ++ replicate n true ++ drop (off + n) valid.

(** [trySatisfyFunctional(obj, base, is_secure, size, data)]: returns the answer,
    the packet, and the memory value (a write changes it). *)
Definition trySatisfyFunctional_at (base : Z) (is_secure : bool) (size : Z) (_data : option (list Z))
    (p : Pkt) : res (bool * Pkt * option (list Z)) :=
  func_start ← getAddr p;
  psize ← getSize p;
  let func_end := u64 (func_start + psize - 1) in
  let val_start := base in
  let val_end := u64 (val_start + size - 1) in
  if negb (Bool.eqb is_secure (p_isSecure p)) || (val_end <? func_start) || (func_end <? val_start)
  then mret (false, p, _data)
  else if isPrint (p_cmd p) then
    assert_r (bool_decide (_data = None)) "!_data";; mret (false, p, _data)
  else match _data with
  | None => mret (false, p, _data)
  | Some d =>
      let val_offset := if val_start <? func_start then func_start - val_start else 0 in
      let func_offset := if func_start <? val_start then val_start - func_start else 0 in
      let overlap_size := u64 (Z.min val_end func_end + 1 - Z.max val_start func_start) in
      if isRead (p_cmd p) then
        bs ← getPtr p;
        bs' ← memcpy bs (Z.to_nat func_offset) d (Z.to_nat val_offset) (Z.to_nat overlap_size);
        let valid := if bool_decide (p_bytesValid p = [])
                     then replicate (Z.to_nat psize) false else p_bytesValid p in
        let valid' := mark_valid valid (Z.to_nat func_offset) (Z.to_nat overlap_size) in
        let all_bytes_valid :=
          forallb id (take (Z.to_nat func_offset) valid)
          && forallb id (drop (Z.to_nat (func_offset + overlap_size)) valid') in
        mret (all_bytes_valid, set_p_bytesValid valid' (set_p_data (Some bs') p), Some d)
      else if isWrite (p_cmd p) then
        bs ← getConstPtr p;
        d' ← memcpy d (Z.to_nat val_offset) bs (Z.to_nat func_offset) (Z.to_nat overlap_size);
        mret (false, p, Some d')
      else Err (EPanic "Don't know how to handle command")
  end.

(** [trySatisfyFunctional(other)]: against the data another packet carries. *)
Definition trySatisfyFunctional (other p : Pkt) : res (bool * Pkt * Pkt) :=
  if isMaskedWrite other then
    (* the overlap is only reported *)
    sec ← isSecure other;
    (if Bool.eqb (p_isSecure p) sec then
       a ← getAddr p; b ← getAddr other; s ← getSize other;
       if a <=? u64 (b + s - 1) then getSize p;; mret tt else mret tt
     else mret tt);;
    mret (false, p, other)
  else
    a ← getAddr other; sec ← isSecure other; sz ← getSize other;
    d ← (if hasData (p_cmd other) then bs ← getPtr other; mret (Some bs) else mret None);
    '(found, p', d') ← trySatisfyFunctional_at a sec (sgn 32 sz) d p;
    mret (found, p', if hasData (p_cmd other) then set_p_data d' other else other).
