(* ===== verification/PacketDataProps.v ===== *)
(** * Properties of packets with data

    Words written to a packet are read back in either byte order; a functional
    read picks up, byte by byte, what the packets in flight carry. *)

From S2P Require Import Prelude EventQ Packet Request ByteSwap AddrRange PacketData.

(** ** Copying bytes *)

Lemma memcpy_ok dst off src soff n :
  (off + n <= length dst)%nat -> (soff + n <= length src)%nat ->
  exists r, memcpy dst off src soff n = Ok r /\ length r = length dst
    /\ forall i, r !! i = if bool_decide (off <= i < off + n)%nat then src !! (soff + (i - off))%nat else dst !! i.
Proof.
  intros Hd Hs. unfold memcpy. rewrite !bool_decide_eq_true_2 by done. eexists. split; [reflexivity|].
  split; [rewrite !length_app, !length_take, !length_drop; lia|].
  intros i. destruct (decide (i < off)%nat).
  { rewrite lookup_app_l by (rewrite length_take; lia). rewrite lookup_take_lt by done.
    by rewrite bool_decide_eq_false_2 by lia. }
  rewrite lookup_app_r by (rewrite length_take; lia). rewrite length_take, Nat.min_l by lia.
  destruct (decide (i < off + n)%nat).
  - rewrite lookup_app_l by (rewrite length_take, length_drop; lia).
    rewrite lookup_take_lt, lookup_drop by lia. by rewrite bool_decide_eq_true_2 by lia.
  - rewrite lookup_app_r by (rewrite length_take, length_drop; lia).
    rewrite length_take, length_drop, lookup_drop, bool_decide_eq_false_2 by lia. f_equal. lia.
Qed.

(** Overwriting the whole array. *)
Lemma memcpy_all dst src n : length dst = n -> length src = n -> memcpy dst 0 src 0 n = Ok src.
Proof.
  intros Hd Hs. destruct (memcpy_ok dst 0 src 0 n) as (r & Hr & Hl & Hi); [lia..|]. rewrite Hr. f_equal.
  apply list_eq. intros i. rewrite Hi. case_bool_decide; [f_equal; lia|].
  rewrite !lookup_ge_None_2 by lia. done.
Qed.

(** ** Words *)

(** A packet with an array of its own size. *)
Record pkt_ok (p : Pkt) : Prop := {
  po_addr : p_isSet VALID_ADDR p = true;
  po_sz : p_isSet VALID_SIZE p = true;
  po_flag : has_data_flag p = true;
  po_range : 0 <= p_addr p /\ 0 < p_size p < 2 ^ 31 /\ p_addr p + p_size p <= 2 ^ 64;
  po_data : exists bs, p_data p = Some bs /\ Z.of_nat (length bs) = p_size p;
  po_valid : p_bytesValid p = [] \/ Z.of_nat (length (p_bytesValid p)) = p_size p;
  po_unmasked : isMaskedWrite p = false
}.

Lemma getAddr_run p : p_isSet VALID_ADDR p = true -> getAddr p = Ok (p_addr p).
Proof. intros H. unfold getAddr. by rewrite H. Qed.
Lemma getSize_run p : p_isSet VALID_SIZE p = true -> getSize p = Ok (p_size p).
Proof. intros H. unfold getSize. by rewrite H. Qed.
Lemma isSecure_run p : p_isSet VALID_ADDR p = true -> isSecure p = Ok (p_isSecure p).
Proof. intros H. unfold isSecure. by rewrite H. Qed.

Lemma uint_size_run sz : word_size sz = true -> uint_size (Z.of_nat sz) = Ok sz.
Proof. by intros [-> | [-> | [-> | ->]]]%word_size_cases. Qed.

Lemma uint_size_bad sz :
  word_size sz = false -> uint_size (Z.of_nat sz) = Err (EPanic "isn't a supported word size").
Proof.
  intros Hw. unfold uint_size.
  assert (sz <> 1 /\ sz <> 2 /\ sz <> 4 /\ sz <> 8)%nat as (H1 & H2 & H4 & H8)
    by (repeat split; intros ->; done).
  repeat match goal with |- context [Z.of_nat sz =? ?k] => destruct (Z.eqb_spec (Z.of_nat sz) k); [lia|] end.
  done.
Qed.

Lemma setRaw_getRaw sz v p :
  pkt_ok p -> Z.of_nat sz = p_size p -> 0 <= v < 2 ^ (8 * Z.of_nat sz) ->
  exists p', setRaw sz v p = Ok p' /\ getRaw sz p' = Ok v
    /\ p_data p' = Some (le_bytes sz v) /\ p_size p' = p_size p /\ p_isSet VALID_SIZE p' = true.
Proof.
  intros Hp Hsz Hv. destruct (po_data _ Hp) as (bs & Hd & Hl).
  unfold setRaw. rewrite !assert_r_true by (apply (po_flag _ Hp) || lia).
  unfold the_bytes at 1. rewrite Hd. cbn [mbind res_bind].
  rewrite memcpy_all by (rewrite ?le_bytes_length; lia). cbn [mbind res_bind].
  eexists. split; [reflexivity|]. split; [|split; [done|split; [done|apply (po_sz _ Hp)]]].
  unfold getRaw. rewrite !assert_r_true by (apply (po_flag _ Hp) || simpl; lia).
  unfold the_bytes; simpl. rewrite le_bytes_length, bool_decide_eq_true_2 by done.
  rewrite firstn_all2 by (rewrite le_bytes_length; done). unfold mret, res_ret. f_equal.
  rewrite le_word_bytes. by apply Z.mod_small.
Qed.

(** A word written to a packet of 1, 2, 4 or 8 bytes is read back from it,
    truncated to the size, in either byte order; its bytes lie in the packet in
    the order asked for.  Any other size is refused. *)
Theorem uintX_roundtrip w endian p :
  pkt_ok p ->
  if word_size (Z.to_nat (p_size p))
  then exists p' bs, setUintX w endian p = Ok p' /\ p_data p' = Some bs
         /\ getUintX endian p' = Ok (w mod 2 ^ (8 * p_size p))
         /\ bs = match endian with
                 | LittleEndianByteOrder => le_bytes (Z.to_nat (p_size p)) w
                 | BigEndianByteOrder => rev (le_bytes (Z.to_nat (p_size p)) w)
                 end
  else setUintX w endian p = Err (EPanic "isn't a supported word size")
       /\ getUintX endian p = Err (EPanic "isn't a supported word size").
Proof.
  intros Hp. destruct (po_range _ Hp) as (_ & Hs & _). set (sz := Z.to_nat (p_size p)).
  assert (Z.of_nat sz = p_size p) as Hsz by lia. unfold setUintX, getUintX.
  rewrite (getSize_run p (po_sz _ Hp)). cbn [mbind res_bind]. destruct (word_size sz) eqn:Hw; cycle 1.
  { rewrite <- Hsz. by rewrite uint_size_bad. }
  rewrite <- Hsz, uint_size_run by done. cbn [mbind res_bind].
  assert (0 <= wrap (8 * Z.of_nat sz) w < 2 ^ (8 * Z.of_nat sz)) as Hb by (apply wrap_bound; lia).
  assert (le_bytes sz (wrap (8 * Z.of_nat sz) w) = le_bytes sz w) as Hbytes.
  { rewrite <- (le_bytes_word (le_bytes sz w)) by apply le_bytes_byte.
    by rewrite le_bytes_length, le_word_bytes. }
  destruct endian; cbn [get_word set_word].
  - destruct (swap_byte_rev sz _ Hw Hb) as (y & Hy & Hyb & Hyr).
    destruct (setRaw_getRaw sz y p Hp Hsz Hyb) as (p' & Hset & Hget & Hd & Hsz' & Hv).
    exists p', (le_bytes sz y). unfold setBE, htobe. rewrite Hy. cbn [mbind res_bind].
    split; [done|]. split; [done|]. split; [|by rewrite Hyr, Hbytes].
    rewrite (getSize_run p' Hv), Hsz', <- Hsz. cbn [mbind res_bind]. rewrite uint_size_run by done.
    cbn [mbind res_bind]. unfold getBE, betoh. rewrite Hget. cbn [mbind res_bind].
    destruct (swap_byte_rev sz y Hw Hyb) as (z & Hz & Hzb & Hzr). rewrite Hz. f_equal.
    apply (le_bytes_inj sz); [done|done|]. by rewrite Hzr, Hyr, rev_involutive.
  - destruct (setRaw_getRaw sz _ p Hp Hsz Hb) as (p' & Hset & Hget & Hd & Hsz' & Hv).
    exists p', (le_bytes sz w). unfold setLE, htole. cbn [mbind res_bind].
    split; [done|]. split; [by rewrite Hd, Hbytes|]. split; [|done].
    rewrite (getSize_run p' Hv), Hsz', <- Hsz. cbn [mbind res_bind]. rewrite uint_size_run by done.
    cbn [mbind res_bind]. unfold getLE, letoh. rewrite Hget. done.
Qed.

(** A packet of four bytes to write to. *)
Definition demo_req : Request := new_Request_phys 0 0x1000 4 0 3.
Definition demo_pkt (c : Command) (bs : list Z) : Pkt :=
  p_set DYNAMIC_DATA (set_p_data (Some bs) (new_Pkt 1 demo_req c)).
Lemma demo_pkt_ok c bs : length bs = 4%nat -> pkt_ok (demo_pkt c bs).
Proof.
  intros Hl. assert (p_addr (demo_pkt c bs) = 0x1000 /\ p_size (demo_pkt c bs) = 4) as [Ha Hs] by done.
  split; [done|done|done|rewrite Ha, Hs; lia| |by left|].
  - exists bs. split; [done|]. rewrite Hs. lia.
  - unfold isMaskedWrite. by apply andb_false_intro2.
Qed.

Lemma uintX_roundtrip_witness :
  exists p' bs, setUintX 0xAABBCCDDEE BigEndianByteOrder (demo_pkt WriteReq [0; 0; 0; 0]) = Ok p'
    /\ p_data p' = Some bs /\ getUintX BigEndianByteOrder p' = Ok 0xBBCCDDEE.
Proof.
  destruct (uintX_roundtrip 0xAABBCCDDEE BigEndianByteOrder (demo_pkt WriteReq [0; 0; 0; 0]))
    as (p' & bs & Hs & Hd & Hg & _); [by apply demo_pkt_ok|].
  exists p', bs. split; [exact Hs|]. split; [exact Hd|exact Hg].
Defined.

(** ** Functional reads *)

(** The bytes of a packet by address. *)
Definition covers (p : Pkt) (a : Z) : bool := (p_addr p <=? a) && (a <? p_addr p + p_size p).
Definition byte_at (p : Pkt) (a : Z) : option Z :=
  if covers p a then p_data p ≫= (fun bs => bs !! Z.to_nat (a - p_addr p)) else None.
Definition valid_at (p : Pkt) (a : Z) : bool :=
  covers p a && bool_decide (p_bytesValid p !! Z.to_nat (a - p_addr p) = Some true).

(** A memory value at [base] supplies the byte at [a] of packet [p]. *)
Definition supplies (base : Z) (is_secure : bool) (size : Z) (p : Pkt) (a : Z) : bool :=
  Bool.eqb is_secure (p_isSecure p) && (base <=? a) && (a <? base + size).

(** Same packet but for the data and the valid bytes. *)
Definition same_frame (p p' : Pkt) : Prop :=
  p' = set_p_bytesValid (p_bytesValid p') (set_p_data (p_data p') p).

Lemma lookup_mark_valid valid off n i :
  (off + n <= length valid)%nat ->
  mark_valid valid off n !! i = if bool_decide (off <= i < off + n)%nat then Some true else valid !! i.
Proof.
  intros Hl. unfold mark_valid. destruct (decide (i < off)%nat).
  { rewrite lookup_app_l by (rewrite length_take; lia). rewrite lookup_take_lt by done.
    by rewrite bool_decide_eq_false_2 by lia. }
  rewrite lookup_app_r by (rewrite length_take; lia). rewrite length_take, Nat.min_l by lia.
  destruct (decide (i < off + n)%nat).
  - rewrite lookup_app_l by (rewrite length_replicate; lia).
    rewrite lookup_replicate_2 by lia. by rewrite bool_decide_eq_true_2 by lia.
  - rewrite lookup_app_r by (rewrite length_replicate; lia).
    rewrite length_replicate, lookup_drop, bool_decide_eq_false_2 by lia. f_equal. lia.
Qed.

Lemma mark_valid_length valid off n :
  (off + n <= length valid)%nat -> length (mark_valid valid off n) = length valid.
Proof. intros. unfold mark_valid. rewrite !length_app, length_take, length_replicate, length_drop. lia. Qed.

(** The two checking loops look at every byte that was not just marked. *)
Lemma all_valid_loops valid off n :
  (off + n <= length valid)%nat ->
  forallb id (take off valid) && forallb id (drop (off + n) (mark_valid valid off n))
  = forallb id (mark_valid valid off n).
Proof.
  intros Hl. unfold mark_valid at 2. rewrite !forallb_app.
  assert (drop (off + n) (mark_valid valid off n) = drop (off + n) valid) as ->.
  { apply list_eq. intros i. rewrite !lookup_drop, lookup_mark_valid by done.
    by rewrite bool_decide_eq_false_2 by lia. }
  assert (forallb id (replicate n true) = true) as -> by (induction n; simpl; auto with lia).
  done.
Qed.

Lemma isRead_not_print c : isRead c = true -> isPrint c = false.
Proof. by destruct c. Qed.

Lemma getPtr_run p bs : pkt_ok p -> p_data p = Some bs -> getPtr p = Ok bs.
Proof.
  intros Hp Hd. unfold getPtr, the_bytes. rewrite (po_flag _ Hp), (po_unmasked _ Hp), Hd. done.
Qed.

Lemma forallb_id_valid (p : Pkt) valid :
  Z.of_nat (length valid) = p_size p -> p_bytesValid p = valid ->
  forallb id valid = true <-> forall a, covers p a = true -> valid_at p a = true.
Proof.
  intros Hl Hv. unfold valid_at, covers. rewrite Hv, <- Is_true_true, forallb_True, Forall_lookup. split.
  - intros Hall a Ha. rewrite Ha. simpl. apply bool_decide_eq_true_2.
    destruct (lookup_lt_is_Some_2 valid (Z.to_nat (a - p_addr p))) as [x Hx]; [lia|].
    specialize (Hall _ _ Hx). rewrite Hx. destruct x; done.
  - intros Hall i x Hx. apply lookup_lt_Some in Hx as Hi. specialize (Hall (p_addr p + Z.of_nat i)).
    replace (Z.to_nat (p_addr p + Z.of_nat i - p_addr p)) with i in Hall by lia. rewrite Hx in Hall.
    destruct x; [done|]. specialize (Hall ltac:(lia)). apply andb_true_iff in Hall as [_ Hb].
    by apply bool_decide_eq_true in Hb.
Qed.

Lemma forallb_id_invalid (p : Pkt) valid :
  Z.of_nat (length valid) = p_size p -> p_bytesValid p = valid -> forallb id valid = false ->
  exists a, covers p a = true /\ valid_at p a = false.
Proof.
  intros Hl Hv Hf. assert (exists i, valid !! i = Some false) as [i Hi].
  { apply list_elem_of_lookup. clear Hl Hv. induction valid as [|[] v IH]; simpl in *; [done|..].
    - apply elem_of_cons. auto.
    - apply elem_of_cons. by left. }
  apply lookup_lt_Some in Hi as Hlt. exists (p_addr p + Z.of_nat i). unfold valid_at, covers. rewrite Hv.
  replace (Z.to_nat (p_addr p + Z.of_nat i - p_addr p)) with i by lia. split; [lia|].
  rewrite Hi, bool_decide_eq_false_2 by done. apply andb_false_r.
Qed.

(** What one memory value contributes to a functional read. *)
Definition contributes (base : Z) (is_secure : bool) (size : Z) (d : list Z) (p p' : Pkt) : Prop :=
  forall a, covers p a = true ->
    byte_at p' a = (if supplies base is_secure size p a then d !! Z.to_nat (a - base) else byte_at p a)
    /\ valid_at p' a = valid_at p a || supplies base is_secure size p a.

Lemma read_miss base is_secure size p :
  (forall a, covers p a = true -> supplies base is_secure size p a = false) ->
  forall d, contributes base is_secure size d p p.
Proof. intros H d a Ha. rewrite (H a Ha). split; [done|by rewrite orb_false_r]. Qed.

Lemma functional_read base is_secure size d p :
  pkt_ok p -> isRead (p_cmd p) = true ->
  0 <= base -> 0 < size < 2 ^ 31 -> base + size <= 2 ^ 64 -> Z.of_nat (length d) = size ->
  exists found p', trySatisfyFunctional_at base is_secure size (Some d) p = Ok (found, p', Some d)
    /\ pkt_ok p' /\ same_frame p p' /\ contributes base is_secure size d p p'
    /\ (found = true -> forall a, covers p a = true -> valid_at p' a = true)
    /\ (found = false -> (exists a, covers p a = true /\ valid_at p' a = false)
                         \/ forall a, covers p a = true -> supplies base is_secure size p a = false).
Proof.
  intros Hp Hr Hb Hs Hbs Hd. destruct (po_range _ Hp) as (Ha & Hsz & Has).
  destruct (po_data _ Hp) as (bs & Hbs' & Hl). unfold trySatisfyFunctional_at.
  rewrite (getAddr_run p (po_addr _ Hp)), (getSize_run p (po_sz _ Hp)). cbn [mbind res_bind].
  rewrite (isRead_not_print _ Hr), Hr, (getPtr_run p bs Hp Hbs').
  rewrite !u64_small by lia.
  destruct (negb _ || _ || _) eqn:Hmiss.
  { assert (forall a, covers p a = true -> supplies base is_secure size p a = false) as Hno.
    { intros a Hca. unfold covers, supplies in *. destruct (Bool.eqb _ _); [|done]. simpl in *. lia. }
    exists false, p. split; [done|]. split; [done|]. split; [by destruct p|]. split; [by apply read_miss|].
    split; [done|by right]. }
  rewrite !orb_false_iff, negb_false_iff in Hmiss. destruct Hmiss as [[Hsec H1] H2].
  remember (if base <? p_addr p then p_addr p - base else 0) as vo eqn:Hvo.
  remember (if p_addr p <? base then base - p_addr p else 0) as fo eqn:Hfo.
  remember (Z.min (base + size - 1) (p_addr p + p_size p - 1) + 1 - Z.max base (p_addr p)) as ov eqn:Hov.
  assert (0 <= fo /\ 0 <= vo /\ 0 < ov /\ fo + ov <= p_size p /\ vo + ov <= size
    /\ p_addr p + fo = base + vo /\ p_addr p + fo = Z.max base (p_addr p)) as (? & ? & ? & ? & ? & Hal & Hmx)
    by (destruct (base <? p_addr p) eqn:?, (p_addr p <? base) eqn:?; lia).
  rewrite u64_small by lia.
  destruct (memcpy_ok bs (Z.to_nat fo) d (Z.to_nat vo) (Z.to_nat ov)) as (bs' & Hcp & Hl' & Hlk); [lia..|].
  cbn [mbind res_bind]. rewrite Hcp. cbn [mbind res_bind].
  set (valid := if bool_decide (p_bytesValid p = []) then replicate (Z.to_nat (p_size p)) false else p_bytesValid p).
  assert (Z.of_nat (length valid) = p_size p) as Hvl.
  { subst valid. case_bool_decide; [rewrite length_replicate; lia|by destruct (po_valid _ Hp)]. }
  replace (Z.to_nat (fo + ov)) with (Z.to_nat fo + Z.to_nat ov)%nat by lia.
  rewrite all_valid_loops by lia. set (valid' := mark_valid valid (Z.to_nat fo) (Z.to_nat ov)).
  assert (Z.of_nat (length valid') = p_size p) as Hvl' by (subst valid'; rewrite mark_valid_length; lia).
  set (p' := set_p_bytesValid valid' (set_p_data (Some bs') p)).
  assert (pkt_ok p') as Hp'.
  { destruct Hp. split; try done; [|by right]. exists bs'. split; [done|]. simpl. lia. }
  exists (forallb id valid'), p'. split; [done|]. split; [done|]. split; [by destruct p|].
  pose proof (forallb_id_valid p' valid' Hvl' eq_refl) as Hall.
  split; [|split; [by intros ?; apply Hall|]].
  - intros a Hca. assert (supplies base is_secure size p a
        = bool_decide (Z.to_nat fo <= Z.to_nat (a - p_addr p) < Z.to_nat fo + Z.to_nat ov)%nat) as ->.
    { unfold supplies, covers in *. rewrite Hsec. simpl. case_bool_decide; lia. }
    assert (covers p' a = true) as Hca' by done. unfold byte_at, valid_at. rewrite Hca, Hca'. simpl.
    rewrite Hlk, Hbs'. subst valid'. rewrite lookup_mark_valid by lia. unfold covers in Hca.
    destruct (decide (Z.to_nat fo <= Z.to_nat (a - p_addr p) < Z.to_nat fo + Z.to_nat ov)%nat) as [Hin|Hout].
    + rewrite !(bool_decide_eq_true_2 _ Hin). split; [f_equal; lia|]. by rewrite orb_true_r.
    + rewrite !(bool_decide_eq_false_2 _ Hout). split; [done|]. rewrite orb_false_r.
      subst valid. case_bool_decide as E; [|done]. rewrite E, lookup_replicate_2 by lia. done.
  - intros Hf. left. by apply (forallb_id_invalid p' valid').
Qed.

(** *** Against another packet *)

(** A packet in flight: it has an address and, if it carries data, an array of
    its size. *)
Record in_flight (o : Pkt) : Prop := {
  if_addr : p_isSet VALID_ADDR o = true;
  if_size : p_isSet VALID_SIZE o = true;
  if_range : 0 <= p_addr o /\ 0 < p_size o < 2 ^ 31 /\ p_addr o + p_size o <= 2 ^ 64;
  if_data : hasData (p_cmd o) = true ->
    has_data_flag o = true /\ exists bs, p_data o = Some bs /\ Z.of_nat (length bs) = p_size o
}.

(** The byte another packet offers for address [a]: none if it carries no data,
    is in the other address space, or is a masked write. *)
Definition carries (o p : Pkt) (a : Z) : option Z :=
  if isMaskedWrite o || negb (hasData (p_cmd o)) || negb (Bool.eqb (p_isSecure o) (p_isSecure p))
  then None else byte_at o a.

Definition override (old new : option Z) : option Z := match new with Some x => Some x | None => old end.

Lemma carries_supplies o p bs a :
  in_flight o -> isMaskedWrite o = false -> hasData (p_cmd o) = true -> p_data o = Some bs ->
  carries o p a
  = (if supplies (p_addr o) (p_isSecure o) (p_size o) p a then bs !! Z.to_nat (a - p_addr o) else None).
Proof.
  intros _ Hm Hd Hb. unfold carries, supplies, byte_at, covers. rewrite Hm, Hd, Hb.
  by destruct (Bool.eqb _ _), (p_addr o <=? a), (a <? p_addr o + p_size o).
Qed.

Lemma supplies_some o p (bs : list Z) a :
  supplies (p_addr o) (p_isSecure o) (p_size o) p a = true -> Z.of_nat (length bs) = p_size o ->
  is_Some (bs !! Z.to_nat (a - p_addr o)).
Proof. unfold supplies. intros Hs Hl. apply lookup_lt_is_Some_2. lia. Qed.

(** What one packet in flight adds to a functional read. *)
Lemma trySatisfyFunctional_read o p :
  pkt_ok p -> isRead (p_cmd p) = true -> in_flight o ->
  exists found p', trySatisfyFunctional o p = Ok (found, p', o) /\ pkt_ok p' /\ same_frame p p'
    /\ (forall a, covers p a = true ->
          byte_at p' a = override (byte_at p a) (carries o p a)
          /\ valid_at p' a = valid_at p a || bool_decide (is_Some (carries o p a)))
    /\ (found = true -> forall a, covers p a = true -> valid_at p' a = true).
Proof.
  intros Hp Hr Ho. pose proof Ho as [Hoa Hos Hrg Hod]. unfold trySatisfyFunctional.
  assert (forall a, carries o p a = None -> byte_at p a = override (byte_at p a) (carries o p a)
    /\ valid_at p a = valid_at p a || bool_decide (is_Some (carries o p a))) as Hnone.
  { intros a ->. by rewrite orb_false_r. }
  destruct (isMaskedWrite o) eqn:Hm.
  { exists false, p. rewrite isSecure_run by done. cbn [mbind res_bind].
    rewrite !getAddr_run, !getSize_run by (apply Hp || done). cbn [mbind res_bind].
    split; [by repeat case_match|]. split; [done|]. split; [by destruct p|]. split; [|done].
    intros a _. apply Hnone. unfold carries. by rewrite Hm. }
  rewrite getAddr_run, isSecure_run, getSize_run by done. cbn [mbind res_bind].
  assert (sgn 32 (p_size o) = p_size o) as ->.
  { unfold sgn. rewrite wrap_small by lia. case_match; lia. }
  destruct (hasData (p_cmd o)) eqn:Hd; cycle 1.
  { exists false, p. cbn [mbind res_bind]. split; [|split; [done|split; [by destruct p|split; [|done]]]].
    - unfold trySatisfyFunctional_at. rewrite getAddr_run, getSize_run by apply Hp. cbn [mbind res_bind].
      rewrite (isRead_not_print _ Hr). by case_match.
    - intros a _. apply Hnone. unfold carries. by rewrite Hm, Hd. }
  destruct (Hod eq_refl) as (Hfl & bs & Hb & Hl).
  assert (getPtr o = Ok bs) as -> by (unfold getPtr, the_bytes; by rewrite Hfl, Hm, Hb).
  cbn [mbind res_bind mret res_ret].
  destruct (functional_read (p_addr o) (p_isSecure o) (p_size o) bs p) as (found & p' & Hrun & Hp' & Hf & Hc & Ht & _);
    [done|done|lia|lia|lia|done|].
  rewrite Hrun. cbn [mbind res_bind]. exists found, p'. split; [by destruct o; simpl in *; subst|].
  split; [done|]. split; [done|]. split; [|done]. intros a Ha. destruct (Hc a Ha) as [Hby Hva].
  rewrite (carries_supplies o p bs a) by done. rewrite Hby, Hva. destruct (supplies _ _ _ p a) eqn:Hs; cycle 1.
  { done. }
  destruct (supplies_some o p bs a Hs Hl) as [x ->]. split; [done|]. by rewrite bool_decide_eq_true_2.
Qed.
