(* ===== verification/PacketQueue.v ===== *)
(** * Packet queues (mem/packet_queue.hh, mem/packet_queue.cc)

    The queue of packets behind a port: packets are held until their time and
    offered to the peer, which takes them or asks for a retry.  The state is
    the object's fields, its send event on the abstract scheduler and, to say
    what the peer observes, the packets accepted and the packets sent so far.
    The peer's answer is an argument, with the packets that reach the queue
    from inside the call (the code takes the head off the list before it sends
    it because of them). *)

From S2P Require Import Prelude EventSched Drain Packet Request PacketData.

Record DeferredPacket := mkDP { dp_tick : Z; dp_pkt : Pkt }.

Record PacketQueue := mkPQ {
  transmitList : list DeferredPacket;
  pq_sched : Sched unit;             (* the send event *)
  disableSanityCheck : bool;
  forceOrder : bool;
  waitingOnRetry : bool;
  pq_drainState : DrainState;
  pq_accepted : list DeferredPacket;
  pq_sent : list DeferredPacket
}.
Abbreviation Q := (M PacketQueue).

Definition set_transmitList (l : list DeferredPacket) (q : PacketQueue) : PacketQueue :=
  mkPQ l (pq_sched q) (disableSanityCheck q) (forceOrder q) (waitingOnRetry q) (pq_drainState q)
    (pq_accepted q) (pq_sent q).
Definition set_pq_sched (s : Sched unit) (q : PacketQueue) : PacketQueue :=
  mkPQ (transmitList q) s (disableSanityCheck q) (forceOrder q) (waitingOnRetry q) (pq_drainState q)
    (pq_accepted q) (pq_sent q).
Definition set_waitingOnRetry (b : bool) (q : PacketQueue) : PacketQueue :=
  mkPQ (transmitList q) (pq_sched q) (disableSanityCheck q) (forceOrder q) b (pq_drainState q)
    (pq_accepted q) (pq_sent q).
Definition set_pq_drainState (d : DrainState) (q : PacketQueue) : PacketQueue :=
  mkPQ (transmitList q) (pq_sched q) (disableSanityCheck q) (forceOrder q) (waitingOnRetry q) d
    (pq_accepted q) (pq_sent q).
Definition accept_dp (d : DeferredPacket) (q : PacketQueue) : PacketQueue :=
  mkPQ (transmitList q) (pq_sched q) (disableSanityCheck q) (forceOrder q) (waitingOnRetry q) (pq_drainState q)
    (pq_accepted q ++ [d]) (pq_sent q).
Definition send_dp (d : DeferredPacket) (q : PacketQueue) : PacketQueue :=
  mkPQ (transmitList q) (pq_sched q) (disableSanityCheck q) (forceOrder q) (waitingOnRetry q) (pq_drainState q)
    (pq_accepted q) (pq_sent q ++ [d]).
Definition set_disableSanityCheck (q : PacketQueue) : PacketQueue :=
  mkPQ (transmitList q) (pq_sched q) true (forceOrder q) (waitingOnRetry q) (pq_drainState q)
    (pq_accepted q) (pq_sent q).

Definition pq_curTick (q : PacketQueue) : Z := s_now (pq_sched q).
Definition pq_on_sched (m : M (Sched unit) unit) : Q unit := fun q =>
  match m (pq_sched q) with Ok (_, s) => Ok (tt, set_pq_sched s q) | Err e => Err e end.

Definition new_PacketQueue (force_order disable_sanity_check : bool) (now : Z) : PacketQueue :=
  mkPQ [] (mkSched now ∅) disable_sanity_check force_order false Running [] [].

Definition deferredPacketReady (q : PacketQueue) : bool :=
  match transmitList q with [] => false | d :: _ => dp_tick d <=? pq_curTick q end.
Definition deferredPacketReadyTime (q : PacketQueue) : Z :=
  match transmitList q with [] => MaxTick | d :: _ => dp_tick d end.
Definition pq_size (q : PacketQueue) : nat := length (transmitList q).

Fixpoint conflict_in (l : list DeferredPacket) (pkt : Pkt) (blk_size : Z) : res bool :=
  match l with
  | [] => mret false
  | d :: l' => b ← matchBlockAddr (dp_pkt d) pkt blk_size;
               if b : bool then mret true else conflict_in l' pkt blk_size
  end.
Definition checkConflict (pkt : Pkt) (blk_size : Z) (q : PacketQueue) : res bool :=
  conflict_in (transmitList q) pkt blk_size.

(** [trySatisfyFunctional]: the packets in the queue are tried from the front
    until one completes the access; a functional write may change them. *)
Fixpoint satisfy_in (l : list DeferredPacket) (pkt : Pkt) : res (bool * Pkt * list DeferredPacket) :=
  match l with
  | [] => mret (false, pkt, [])
  | d :: l' =>
      '(found, pkt', other) ← trySatisfyFunctional (dp_pkt d) pkt;
      if found : bool then mret (true, pkt', mkDP (dp_tick d) other :: l')
      else '(found', pkt'', l'') ← satisfy_in l' pkt';
           mret (found', pkt'', mkDP (dp_tick d) other :: l'')
  end.
Definition pq_trySatisfyFunctional (pkt : Pkt) : Q (bool * Pkt) := fun q =>
  match satisfy_in (transmitList q) pkt with
  | Ok (found, pkt', l) => Ok ((found, pkt'), set_transmitList l q)
  | Err e => Err e
  end.

(** [signalDrainDone]: a draining object becomes drained. *)
Definition pq_signalDrainDone : Q unit :=
  modify (fun q => if decide (pq_drainState q = Draining) then set_pq_drainState Drained q else q).

Definition schedSendEvent (when : Z) : Q unit :=
  w ← gets waitingOnRetry;
  sch ← gets (fun q => s_scheduled tt (pq_sched q));
  if w : bool then assert_ (negb sch) "!sendEvent.scheduled()"
  else if negb (when =? MaxTick) then
    now ← gets pq_curTick;
    let when := Z.max when (u64 (now + 1)) in
    old ← gets (fun q => s_pending (pq_sched q) !! tt);
    match old with
    | None => pq_on_sched (s_schedule tt when)
    | Some t => when_ (when <? t) (pq_on_sched (s_reschedule tt when false))
    end
  else
    l ← gets transmitList; d ← gets pq_drainState;
    when_ (bool_decide (d = Draining) && bool_decide (l = []) && negb sch) pq_signalDrainDone.

(** The search for the place of a packet, on the reversed list; the flag says
    that it goes before every other packet. *)
Fixpoint place (force_order : bool) (d : DeferredPacket) (rl : list DeferredPacket)
    : res (bool * list DeferredPacket) :=
  match rl with
  | [] => mret (true, [d])
  | x :: rl' =>
      m ← (if force_order then matchAddr (dp_pkt x) (dp_pkt d) else mret false);
      if m || (dp_tick x <=? dp_tick d) then mret (false, d :: x :: rl')
      else '(front, l) ← place force_order d rl'; mret (front, x :: l)
  end.

Definition schedSendTiming (pkt : Pkt) (when : Z) : Q unit :=
  now ← gets pq_curTick;
  assert_ (now <=? when) "when >= curTick()";;
  assert_ (negb (isExpressSnoop pkt)) "!pkt->isExpressSnoop()";;
  dis ← gets disableSanityCheck; n ← gets pq_size;
  panic_if (negb dis && (100 <? Z.of_nat n)) "Packet queue has grown beyond 100 packets";;
  fo ← gets forceOrder; l ← gets transmitList;
  '(front, rl) ← lift (place fo (mkDP when pkt) (rev l));
  modify (set_transmitList (rev rl));;
  modify (accept_dp (mkDP when pkt));;
  when_ front (schedSendEvent when).

(** [sendTiming] on the port: the packets [reent] reach the queue before the
    peer answers [accept]. *)
Definition sendTiming (d : DeferredPacket) (accept : bool) (reent : list (Pkt * Z)) : Q bool :=
  forM_ reent (fun x => schedSendTiming x.1 x.2);;
  when_ accept (modify (send_dp d));;
  mret accept.

Definition sendDeferredPacket (accept : bool) (reent : list (Pkt * Z)) : Q unit :=
  w ← gets waitingOnRetry;
  assert_ (negb w) "!waitingOnRetry";;
  r ← gets deferredPacketReady;
  assert_ r "deferredPacketReady()";;
  l ← gets transmitList;
  match l with
  | [] => throw (EUndefined "front() of an empty list")
  | dp :: rest =>
      modify (set_transmitList rest);;
      ok ← sendTiming dp accept reent;
      modify (set_waitingOnRetry (negb ok));;
      if ok : bool then t ← gets deferredPacketReadyTime; schedSendEvent t
      else modify (fun q => set_transmitList (dp :: transmitList q) q)
  end.

Definition processSendEvent (accept : bool) (reent : list (Pkt * Z)) : Q unit :=
  w ← gets waitingOnRetry;
  assert_ (negb w) "!waitingOnRetry";;
  sendDeferredPacket accept reent.

Definition retry (accept : bool) (reent : list (Pkt * Z)) : Q unit :=
  w ← gets waitingOnRetry;
  assert_ w "waitingOnRetry";;
  modify (set_waitingOnRetry false);;
  sendDeferredPacket accept reent.

Definition pq_drain (q : PacketQueue) : DrainState :=
  match transmitList q with [] => Drained | _ => Draining end.

(** ** Steps of the system around one packet queue *)

Inductive pq_input :=
  | PSend (pkt : Pkt) (when : Z)
  | PEvent (accept : bool) (reent : list (Pkt * Z))      (* the send event fires *)
  | PRetry (accept : bool) (reent : list (Pkt * Z))      (* the peer asks for a retry *)
  | PTime (t : Z).                                       (* other events of the simulator *)

Definition pq_step (i : pq_input) : Q unit :=
  match i with
  | PSend pkt when => schedSendTiming pkt when
  | PEvent accept reent => fun q =>
      match s_pending (pq_sched q) !! tt with
      | Some t => processSendEvent accept reent (set_pq_sched (s_service tt t (pq_sched q)) q)
      | None => Err (EUndefined "not scheduled")
      end
  | PRetry accept reent => retry accept reent
  | PTime t => fun q =>
      if (pq_curTick q <=? t) && bool_decide (map_Forall (fun _ t' => t <= t') (s_pending (pq_sched q)))
      then Ok (tt, set_pq_sched (mkSched t (s_pending (pq_sched q))) q)
      else Err (EUndefined "time may not pass a pending event")
  end.
