(* ===== verification/PacketQueueProps.v ===== *)
(** * Properties of packet queues

    The send event or an outstanding retry keeps a non-empty queue moving, no
    input that respects the protocol trips an assertion, and packets leave in
    the order their address (if forced) and their time ask for. *)

From S2P Require Import Prelude EventSched Drain Packet Request ByteSwap AddrRange PacketData PacketDataProps PacketQueue.

(** ** Placing a packet *)

Definition dp_valid (d : DeferredPacket) : Prop := p_isSet VALID_ADDR (dp_pkt d) = true.
Definition same_addr (d x : DeferredPacket) : bool :=
  (p_addr (dp_pkt x) =? p_addr (dp_pkt d)) && Bool.eqb (p_isSecure (dp_pkt x)) (p_isSecure (dp_pkt d)).

Lemma matchAddr_run x d : dp_valid x -> dp_valid d -> matchAddr (dp_pkt x) (dp_pkt d) = Ok (same_addr d x).
Proof.
  intros Hx Hd. unfold matchAddr, matchAddr_at. rewrite !getAddr_run, !isSecure_run by done.
  cbn [mbind res_bind]. unfold same_addr. by destruct (_ =? _).
Qed.

(** The packet that stays ahead of the new one. *)
Definition ahead (fo : bool) (d x : DeferredPacket) : bool := (fo && same_addr d x) || (dp_tick x <=? dp_tick d).

Lemma place_spec fo d l :
  dp_valid d -> Forall dp_valid l ->
  exists l1 l2, l = l1 ++ l2
    /\ place fo d (rev l) = Ok (bool_decide (l1 = []), rev (l1 ++ d :: l2))
    /\ Forall (fun x => ahead fo d x = false) l2
    /\ match last l1 with Some x => ahead fo d x = true | None => True end.
Proof.
  intros Hd. induction l as [|x l IH] using rev_ind; intros Hl.
  { exists [], []. repeat split; done. }
  apply Forall_app in Hl as [Hl [Hx _]%Forall_cons_1]. rewrite rev_app_distr. simpl.
  assert ((if fo then matchAddr (dp_pkt x) (dp_pkt d) else mret false) = Ok (fo && same_addr d x)) as ->.
  { destruct fo; [by rewrite matchAddr_run|done]. }
  cbn [mbind res_bind]. fold (ahead fo d x). destruct (ahead fo d x) eqn:Ha.
  - exists (l ++ [x]), []. split; [by rewrite app_nil_r|]. split; [|split; [constructor|by rewrite last_snoc]].
    rewrite bool_decide_eq_false_2 by (by destruct l). by rewrite !rev_app_distr.
  - destruct (IH Hl) as (l1 & l2 & -> & Hp & H2 & Hlast). exists l1, (l2 ++ [x]).
    split; [by rewrite app_assoc|]. rewrite Hp. cbn [mbind res_bind]. split.
    + unfold mret, res_ret. do 2 f_equal. replace (l1 ++ d :: l2 ++ [x]) with ((l1 ++ d :: l2) ++ [x]) by (by rewrite <- app_assoc).
      by rewrite (rev_app_distr (l1 ++ d :: l2) [x]).
    + split; [|done]. apply Forall_app. split; [done|by constructor].
Qed.

(** ** The invariant *)

Definition dp_ok (d : DeferredPacket) : Prop := dp_valid d /\ 0 <= dp_tick d < MaxTick.

(** Packets that the queue keeps in order of arrival: those of one tick, and
    with forced order those of one address. *)
Definition kept_together (fo : bool) (P : DeferredPacket -> Prop) : Prop :=
  forall d x, P d -> P x -> dp_tick x = dp_tick d \/ (fo = true /\ same_addr d x = true).

(** [pre] has left the list, [acc] has been accepted. *)
Definition in_order (fo : bool) (pre l acc : list DeferredPacket) : Prop :=
  pre ++ l ≡ₚ acc
  /\ (forall P `{!forall d, Decision (P d)}, kept_together fo P -> filter P (pre ++ l) = filter P acc)
  /\ (fo = false -> Sorted Z.le (map dp_tick l)).

Definition send_pending (q : PacketQueue) : option Z := s_pending (pq_sched q) !! tt.

(** A queue with packets is waiting for a retry of its first packet, or has its
    send event scheduled no earlier than that packet may leave. *)
Definition pq_live (l : list DeferredPacket) (q : PacketQueue) : Prop :=
  if waitingOnRetry q then
    send_pending q = None /\ match l with d :: _ => dp_tick d <= pq_curTick q | [] => False end
  else match l with
       | [] => send_pending q = None
       | d :: _ => exists t, send_pending q = Some t /\ dp_tick d <= t /\ pq_curTick q <= t
       end.

Record pq_inv (q : PacketQueue) : Prop := {
  pi_now : 0 <= pq_curTick q;
  pi_dps : Forall dp_ok (transmitList q);
  pi_order : in_order (forceOrder q) (pq_sent q) (transmitList q) (pq_accepted q);
  pi_live : pq_live (transmitList q) q
}.

Lemma sorted_insert (a b : list Z) x :
  Sorted Z.le (a ++ b) -> match last a with Some y => y <= x | None => True end -> Forall (Z.le x) b ->
  Sorted Z.le (a ++ x :: b).
Proof.
  intros Hs Hl Hb. induction a as [|y a IH]; simpl in *.
  { constructor; [done|]. destruct Hb; by constructor. }
  apply Sorted_inv in Hs as [Hs Hd]. constructor.
  - apply IH; [done|]. by destruct a.
  - destruct a as [|z a]; simpl; [by constructor|]. inversion Hd; subst. by constructor.
Qed.

Lemma in_order_insert fo pre l1 l2 acc d :
  in_order fo pre (l1 ++ l2) acc -> Forall (fun x => ahead fo d x = false) l2 ->
  (fo = false -> match last l1 with Some x => ahead fo d x = true | None => True end) ->
  in_order fo pre (l1 ++ d :: l2) (acc ++ [d]).
Proof.
  intros (Hp & Hf & Hs) H2 Hl. split; [|split].
  - rewrite <- Hp. rewrite <- Permutation_middle, <- Permutation_cons_append, <- Permutation_middle. done.
  - intros P HP Hk. specialize (Hf P _ Hk). rewrite !filter_app in *. rewrite <- Hf, !filter_cons, filter_nil.
    destruct (decide (P d)) as [Hd|Hd]; [|by rewrite app_nil_r].
    assert (filter P l2 = []) as ->; [|by rewrite app_nil_r, <- app_assoc].
    clear -H2 Hk Hd. induction H2 as [|x l Hx H2 IH]; [done|]. rewrite filter_cons, decide_False; [done|].
    intros Px. unfold ahead in Hx. destruct (Hk d x Hd Px) as [Ht|[-> Ha]]; [lia|]. by rewrite Ha in Hx.
  - intros ->. specialize (Hs eq_refl). rewrite !map_app in *. simpl.
    apply sorted_insert; [done| |].
    + specialize (Hl eq_refl). rewrite fmap_last. destruct (last l1) as [x|]; [|done].
      unfold ahead in Hl. simpl in *. lia.
    + apply Forall_map. eapply Forall_impl; [exact H2|]. intros x Hx. unfold ahead in Hx. simpl in *. lia.
Qed.

(** ** Scheduling the send event *)

(** The time the send event has after it was asked for at [when]. *)
Definition send_time (when : Z) (q : PacketQueue) : Z :=
  let t := Z.max when (pq_curTick q + 1) in
  match send_pending q with Some t0 => Z.min t0 t | None => t end.

Definition with_send (t : Z) (q : PacketQueue) : PacketQueue :=
  set_pq_sched (mkSched (pq_curTick q) (<[tt := t]> (s_pending (pq_sched q)))) q.

Lemma schedSendEvent_run when q :
  waitingOnRetry q = false -> 0 <= pq_curTick q < MaxTick -> when < MaxTick ->
  schedSendEvent when q = Ok (tt, with_send (send_time when q) q).
Proof.
  intros Hw Hn Hwh. unfold schedSendEvent. rewrite !bind_gets. unfold MaxTick in *.
  rewrite Hw, (proj2 (Z.eqb_neq when _)) by lia. simpl. rewrite bind_gets, u64_small by lia. rewrite bind_gets.
  unfold send_time, send_pending. destruct (s_pending (pq_sched q) !! tt) as [t0|] eqn:Hp.
  - destruct (Z.ltb_spec (Z.max when (pq_curTick q + 1)) t0) as [Hlt|Hge]; simpl.
    + rewrite Z.min_r by lia. unfold pq_on_sched, s_reschedule. rewrite (proj2 (Z.leb_le _ _)) by (unfold pq_curTick; lia).
      unfold s_scheduled. by rewrite Hp.
    + rewrite Z.min_l by lia. unfold with_send. rewrite insert_id by done. by destruct q as [? [] ? ? ? ? ? ?].
  - unfold pq_on_sched. rewrite s_schedule_fresh; [done|unfold pq_curTick; lia|]. unfold s_scheduled. by rewrite Hp.
Qed.

Lemma schedSendEvent_max q :
  waitingOnRetry q = false ->
  exists d, schedSendEvent MaxTick q = Ok (tt, set_pq_drainState d q).
Proof.
  intros Hw. unfold schedSendEvent. rewrite !bind_gets. rewrite Hw, Z.eqb_refl. simpl. rewrite !bind_gets.
  unfold pq_signalDrainDone. destruct (bool_decide (pq_drainState q = Draining)) eqn:E; simpl.
  - apply bool_decide_eq_true in E. unfold when_. case_match.
    + unfold modify. rewrite decide_True by done. eauto.
    + exists (pq_drainState q). by destruct q.
  - exists (pq_drainState q). by destruct q.
Qed.

Lemma send_pending_with t q : send_pending (with_send t q) = Some t.
Proof. unfold send_pending, with_send; simpl. by rewrite lookup_insert_eq. Qed.

(** ** Accepting a packet *)

(** The conditions under which a client may hand a packet over. *)
Definition may_send (pkt : Pkt) (when : Z) (n : nat) (q : PacketQueue) : Prop :=
  dp_ok (mkDP when pkt) /\ pq_curTick q <= when /\ isExpressSnoop pkt = false
  /\ (disableSanityCheck q = true \/ (n <= 100)%nat).

(** What accepting keeps, with [pre] taken off the list: the packets in order,
    and the send event for the front of the list. *)
Record pq_frame (pre : list DeferredPacket) (q : PacketQueue) : Prop := {
  pf_now : 0 <= pq_curTick q < MaxTick;
  pf_dps : Forall dp_ok (transmitList q);
  pf_order : in_order (forceOrder q) pre (transmitList q) (pq_accepted q);
  pf_live : if waitingOnRetry q
            then pq_live (transmitList q) q
            else forall t, send_pending q = Some t -> pq_curTick q <= t
                   /\ match transmitList q with d :: _ => dp_tick d <= t | [] => False end
}.

(** A send is on its way. *)
Definition armed (q : PacketQueue) : Prop := transmitList q <> [] -> is_Some (send_pending q).

Lemma schedSendTiming_run pkt when pre q :
  pq_frame pre q -> may_send pkt when (length (transmitList q)) q ->
  exists q', schedSendTiming pkt when q = Ok (tt, q') /\ pq_frame pre q'
    /\ length (transmitList q') = S (length (transmitList q))
    /\ waitingOnRetry q' = waitingOnRetry q /\ pq_curTick q' = pq_curTick q
    /\ disableSanityCheck q' = disableSanityCheck q /\ pq_sent q' = pq_sent q
    /\ forceOrder q' = forceOrder q /\ pq_drainState q' = pq_drainState q
    /\ (waitingOnRetry q = false -> armed q -> armed q')
    /\ (waitingOnRetry q = true -> head (transmitList q') = head (transmitList q)).
Proof.
  intros [Hn Hd Ho Hl] (Hok & Hwh & Hx & Hsz). unfold schedSendTiming.
  rewrite bind_gets, bind_assert by lia. rewrite bind_assert by (by rewrite Hx).
  rewrite !bind_gets. rewrite bind_panic_if.
  2:{ unfold pq_size. destruct Hsz as [-> |]; [done|]. destruct (negb _); simpl; lia. }
  rewrite !bind_gets.
  destruct (place_spec (forceOrder q) (mkDP when pkt) (transmitList q)) as (l1 & l2 & Hs & Hp & H2 & Hlast).
  { apply Hok. } { eapply Forall_impl; [exact Hd|]. by intros x [? _]. }
  erewrite bind_run by (unfold lift; rewrite Hp; reflexivity). cbv beta iota.
  rewrite !bind_modify, rev_involutive. rewrite Hs in *. set (q1 := accept_dp _ _).
  assert (Forall dp_ok (l1 ++ mkDP when pkt :: l2)) as Hd1.
  { apply Forall_app in Hd as [? ?]. apply Forall_app. split; [done|by constructor]. }
  assert (in_order (forceOrder q) pre (l1 ++ mkDP when pkt :: l2) (pq_accepted q ++ [mkDP when pkt])) as Ho1
    by (by apply in_order_insert).
  assert (length (l1 ++ mkDP when pkt :: l2) = S (length (l1 ++ l2))) as Hlen
    by (rewrite !length_app; simpl; lia).
  destruct l1 as [|x l1]; cycle 1.
  { (* behind the first packet *)
    rewrite bool_decide_eq_false_2 by done. exists q1. split; [done|].
    split; [by split|]. repeat split; try done. unfold armed. rewrite Hs. intros _ Ha _. by apply Ha. }
  rewrite bool_decide_eq_true_2 by done. cbn [when_].
  destruct (waitingOnRetry q) eqn:Hw.
  { (* a packet waiting for a retry is never overtaken *)
    exfalso. unfold pq_live in Hl. rewrite Hw in Hl. destruct Hl as [_ Hl]. simpl in Hl.
    destruct l2 as [|x l2]; [done|]. apply Forall_cons_1 in H2 as [Hx2 _]. unfold ahead in Hx2. simpl in *. lia. }
  rewrite schedSendEvent_run; [|done|done|apply Hok].
  eexists. split; [reflexivity|]. split.
  - split; try done. simpl. rewrite Hw. intros t. rewrite send_pending_with. intros [= <-].
    change (send_time when q1) with (send_time when q). unfold send_time.
    change (pq_curTick (with_send _ q1)) with (pq_curTick q). simpl.
    destruct (send_pending q) as [t0|] eqn:Hsp; [|lia]. destruct (Hl t0 eq_refl) as [Hnow Ht0].
    destruct l2 as [|x l2]; [done|]. apply Forall_cons_1 in H2 as [Hx2 _]. unfold ahead in Hx2. simpl in *. lia.
  - repeat split; try done. intros _ _ _. rewrite send_pending_with. by eexists.
Qed.

(** Several packets, from inside a call of the peer. *)
Lemma schedSendTiming_list pre reent q :
  pq_frame pre q -> waitingOnRetry q = false ->
  Forall (fun x => may_send x.1 x.2 (length (transmitList q) + length reent) q) reent ->
  exists q', forM_ reent (fun x => schedSendTiming x.1 x.2) q = Ok (tt, q') /\ pq_frame pre q'
    /\ waitingOnRetry q' = false /\ pq_curTick q' = pq_curTick q
    /\ disableSanityCheck q' = disableSanityCheck q /\ pq_sent q' = pq_sent q
    /\ forceOrder q' = forceOrder q.
Proof.
  intros Hf Hw. revert q Hf Hw. induction reent as [|[pkt when] reent IH]; intros q Hf Hw Hall.
  { exists q. done. }
  apply Forall_cons_1 in Hall as [Hx Hall]. simpl in *.
  destruct (schedSendTiming_run pkt when pre q Hf) as (q1 & Hr & Hf1 & Hlen & Hw1 & Hc1 & Hd1 & Hs1 & Ho1 & _).
  { destruct Hx as (? & ? & ? & Hn). do 3 (split; [done|]). destruct Hn; [by left|right; lia]. }
  erewrite bind_run by exact Hr.
  destruct (IH q1) as (q2 & Hr2 & Hf2 & Hw2 & Hc2 & Hd2 & Hs2 & Ho2); [done|congruence| |].
  - eapply Forall_impl; [exact Hall|]. intros x (H1 & H2 & H3 & H4). unfold may_send.
    rewrite Hc1, Hd1, Hlen. do 3 (split; [done|]). destruct H4; [by left|right; lia].
  - exists q2. split; [exact Hr2|]. split; [done|]. repeat split; congruence.
Qed.

(** ** Sending *)

(** The peer's part of the protocol: it may hand over packets from inside the
    call only if it takes the packet it is offered. *)
Definition may_answer (accept : bool) (reent : list (Pkt * Z)) (q : PacketQueue) : Prop :=
  (reent <> [] -> accept = true)
  /\ Forall (fun x => may_send x.1 x.2 (length (transmitList q) + length reent) q) reent.

(** The state in which a packet is offered: the event is not scheduled. *)
Record pq_ready (q : PacketQueue) : Prop := {
  pr_now : 0 <= pq_curTick q < MaxTick;
  pr_dps : Forall dp_ok (transmitList q);
  pr_order : in_order (forceOrder q) (pq_sent q) (transmitList q) (pq_accepted q);
  pr_wait : waitingOnRetry q = false;
  pr_pending : send_pending q = None;
  pr_head : match transmitList q with d :: _ => dp_tick d <= pq_curTick q | [] => False end
}.

Lemma in_order_shift fo pre d l acc : in_order fo pre (d :: l) acc -> in_order fo (pre ++ [d]) l acc.
Proof.
  intros (Hp & Hf & Hs). rewrite cons_middle, app_assoc in Hp. split; [done|]. split.
  - intros P HP Hk. rewrite <- Hf by done. by rewrite <- app_assoc.
  - intros Hfo. specialize (Hs Hfo). simpl in Hs. by apply Sorted_inv in Hs as [? _].
Qed.

Lemma sendDeferredPacket_run accept reent q :
  pq_ready q -> may_answer accept reent q ->
  exists q', sendDeferredPacket accept reent q = Ok (tt, q') /\ pq_inv q'
    /\ waitingOnRetry q' = negb accept
    /\ match transmitList q with
       | d :: _ => pq_sent q' = pq_sent q ++ (if accept then [d] else [])
                   /\ (accept = false -> head (transmitList q') = Some d)
       | [] => False
       end.
Proof.
  intros [Hn Hd Ho Hw Hp Hh] [Hacc Hre]. unfold sendDeferredPacket.
  rewrite bind_gets, bind_assert by (by rewrite Hw).
  destruct (transmitList q) as [|d l] eqn:Hl; [done|].
  rewrite bind_gets, bind_assert by (unfold deferredPacketReady; rewrite Hl; lia).
  rewrite bind_gets, Hl, bind_modify. apply Forall_cons_1 in Hd as [Hd0 Hd].
  set (q1 := set_transmitList l q).
  assert (pq_frame (pq_sent q ++ [d]) q1) as Hf1.
  { split; [done|done|by apply in_order_shift|]. simpl. rewrite Hw. intros t. unfold send_pending in *. simpl. by rewrite Hp. }
  unfold sendTiming. destruct accept; cycle 1.
  { (* refused: the packet goes back to the front *)
    destruct reent as [|x reent]; [|by discriminate Hacc]. simpl.
    eexists. split; [reflexivity|]. split; [|split; [done|split; [by rewrite app_nil_r|done]]].
    split; simpl; [apply Hn|by constructor|done|done]. }
  destruct (schedSendTiming_list (pq_sent q ++ [d]) reent q1 Hf1 Hw) as (q2 & Hr & Hf2 & Hw2 & Hc2 & Hd2 & Hs2 & Ho2).
  { eapply Forall_impl; [exact Hre|]. intros x (H1 & H2 & H3 & H4). do 3 (split; [done|]).
    destruct H4; [by left|right]. simpl in *. lia. }
  erewrite bind_run; cycle 1.
  { erewrite bind_run by exact Hr. simpl. reflexivity. }
  rewrite bind_modify. cbn [negb]. rewrite bind_gets.
  set (q3 := set_waitingOnRetry false (send_dp d q2)). destruct Hf2 as [Hn2 Hdp2 Ho2' Hl2]. rewrite Hw2 in Hl2.
  assert (pq_sent q3 = pq_sent q ++ [d]) as Hs3 by (simpl; by rewrite Hs2).
  unfold deferredPacketReadyTime. change (transmitList q3) with (transmitList q2).
  destruct (transmitList q2) as [|d2 l2] eqn:Hl3.
  - (* nothing left to send *)
    destruct (schedSendEvent_max q3 eq_refl) as [ds Hds]. rewrite Hds. eexists. split; [reflexivity|].
    split; [|done]. split; simpl; [exact (proj1 Hn2)|by rewrite Hl3|by rewrite Hl3, Hs2|].
    unfold pq_live; simpl. rewrite Hl3. change (send_pending _) with (send_pending q2).
    destruct (send_pending q2) as [t|]; [|done]. by destruct (Hl2 t eq_refl).
  - pose proof (Forall_inv Hdp2) as [_ Ht2].
    rewrite schedSendEvent_run; [|done|done|lia]. eexists. split; [reflexivity|]. split; [|done].
    split; simpl; [exact (proj1 Hn2)|by rewrite Hl3|by rewrite Hl3, Hs2|].
    unfold pq_live; simpl. rewrite Hl3. exists (send_time (dp_tick d2) q3). rewrite send_pending_with.
    split; [done|]. unfold send_time. change (send_pending q3) with (send_pending q2).
    change (pq_curTick (with_send _ q3)) with (pq_curTick q2). change (pq_curTick q3) with (pq_curTick q2).
    destruct (send_pending q2) as [t|]; [|lia]. destruct (Hl2 t eq_refl). lia.
Qed.

(** ** Steps *)

Definition pq_allowed (i : pq_input) (q : PacketQueue) : Prop :=
  match i with
  | PSend pkt when => pq_curTick q < MaxTick /\ may_send pkt when (length (transmitList q)) q
  | PEvent accept reent => exists t, send_pending q = Some t /\ t < MaxTick
      /\ may_answer accept reent (set_pq_sched (s_service tt t (pq_sched q)) q)
  | PRetry accept reent => waitingOnRetry q = true /\ pq_curTick q < MaxTick /\ may_answer accept reent q
  | PTime t => pq_curTick q <= t /\ forall t', send_pending q = Some t' -> t <= t'
  end.

Lemma pq_send_inv pkt when q :
  pq_inv q -> pq_curTick q < MaxTick -> may_send pkt when (length (transmitList q)) q ->
  exists q', schedSendTiming pkt when q = Ok (tt, q') /\ pq_inv q'.
Proof.
  intros [H0 Hd Ho Hl] Hn Hs.
  destruct (schedSendTiming_run pkt when (pq_sent q) q) as (q' & Hr & Hf & _ & Hw & Hc & _ & Hse & _ & _ & Ha & _);
    [|done|].
  { split; [lia|done|done|]. destruct (waitingOnRetry q) eqn:E; [done|]. intros t Ht.
    unfold pq_live in Hl. rewrite E, Ht in Hl. destruct (transmitList q); [done|]. naive_solver. }
  exists q'. split; [done|]. destruct Hf as [Hn' Hd' Ho' Hl']. split; [lia|done|by rewrite Hse|].
  destruct (waitingOnRetry q') eqn:E; [done|]. unfold pq_live. rewrite E.
  assert (armed q') as Har.
  { apply Ha; [congruence|]. unfold armed, pq_live in *. rewrite <- Hw in Hl. destruct (transmitList q); [done|].
    destruct Hl as (t & -> & _). by eexists. }
  unfold armed in Har. destruct (transmitList q') as [|d l] eqn:Hq.
  - destruct (send_pending q') as [t|]; [|done]. by destruct (Hl' t eq_refl).
  - destruct Har as [t Ht]; [done|]. exists t. split; [done|]. destruct (Hl' t Ht). lia.
Qed.

Lemma pq_step_inv i q : pq_inv q -> pq_allowed i q -> exists q', pq_step i q = Ok (tt, q') /\ pq_inv q'.
Proof.
  intros Hi Ha. destruct i as [pkt when|accept reent|accept reent|t]; simpl in *.
  - destruct Ha. by apply pq_send_inv.
  - destruct Ha as (t & Ht & Hlt & Hm). pose proof Hi as [H0 Hd Ho Hl]. unfold send_pending in Ht. rewrite Ht.
    set (q1 := set_pq_sched _ q) in *. unfold pq_live in Hl. destruct (waitingOnRetry q) eqn:Hw.
    { destruct Hl as [Hl _]. unfold send_pending in Hl. congruence. }
    destruct (transmitList q) as [|d l] eqn:Hq; [unfold send_pending in Hl; congruence|].
    destruct Hl as (t' & Ht' & H1 & H2). unfold send_pending in Ht'. simplify_eq.
    unfold processSendEvent. rewrite bind_gets, bind_assert by (simpl; by rewrite Hw).
    destruct (sendDeferredPacket_run accept reent q1) as (q' & Hr & Hi' & _); [|done|by exists q'].
    subst q1. split; simpl; try done; [unfold pq_curTick; simpl; lia|by rewrite Hq|by rewrite Hq| |by rewrite Hq].
    unfold send_pending; simpl. by rewrite lookup_delete_eq.
  - destruct Ha as (Hw & Hn & Hm). pose proof Hi as [H0 Hd Ho Hl]. unfold pq_live in Hl. rewrite Hw in Hl.
    destruct Hl as [Hp Hh]. unfold retry. rewrite bind_gets, bind_assert by done. rewrite bind_modify.
    destruct (sendDeferredPacket_run accept reent (set_waitingOnRetry false q)) as (q' & Hr & Hi' & _);
      [by split|done|by exists q'].
  - destruct Ha as [H1 H2]. pose proof Hi as [H0 Hd Ho Hl]. rewrite (proj2 (Z.leb_le _ _)) by done.
    rewrite bool_decide_eq_true_2.
    2:{ intros [] t' Ht'. by apply H2. }
    eexists. split; [reflexivity|]. split; simpl; try done; [unfold pq_curTick; simpl; lia|].
    unfold pq_live in *. simpl. destruct (waitingOnRetry q).
    + destruct Hl as [? Hh]. split; [done|]. destruct (transmitList q); [done|]. unfold pq_curTick in *; simpl; lia.
    + destruct (transmitList q); [done|]. destruct Hl as (t' & Ht' & ? & ?). exists t'.
      split; [done|]. split; [done|]. by apply H2.
Qed.

(** ** Reachable queues *)

Inductive pq_reachable (fo dis : bool) (now : Z) : PacketQueue -> Prop :=
  | pq_start : pq_reachable fo dis now (new_PacketQueue fo dis now)
  | pq_next i q q' : pq_reachable fo dis now q -> pq_allowed i q -> pq_step i q = Ok (tt, q') ->
      pq_reachable fo dis now q'.

Lemma pq_new_inv fo dis now : 0 <= now -> pq_inv (new_PacketQueue fo dis now).
Proof. intros Hn. split; simpl; [done|constructor| |done]. split; [done|]. split; [done|constructor]. Qed.

Lemma pq_reachable_inv fo dis now q : 0 <= now -> pq_reachable fo dis now q -> pq_inv q.
Proof.
  intros Hn. induction 1 as [|i q q' _ IH Ha Hs]; [by apply pq_new_inv|].
  destruct (pq_step_inv i q IH Ha) as (q2 & Hr & Hi). congruence.
Qed.

(** C15: a packet queue never stalls and never trips an assertion.  In every
    state reached under the port protocol each input the protocol allows is
    handled without failure, and a queue that holds packets is either waiting
    for the retry of its first packet, whose time has come, or has its send
    event scheduled at a time when that packet may leave. *)
Theorem packet_queue_live fo dis now q :
  0 <= now -> pq_reachable fo dis now q ->
  (forall i, pq_allowed i q -> exists q', pq_step i q = Ok (tt, q'))
  /\ match transmitList q with
     | [] => waitingOnRetry q = false /\ send_pending q = None
     | d :: _ =>
         if waitingOnRetry q then dp_tick d <= pq_curTick q /\ send_pending q = None
         else exists t, send_pending q = Some t /\ dp_tick d <= t /\ pq_curTick q <= t
     end.
Proof.
  intros Hn Hr. pose proof (pq_reachable_inv _ _ _ _ Hn Hr) as Hi. split.
  - intros i Ha. destruct (pq_step_inv i q Hi Ha) as (q' & ? & _). eauto.
  - destruct Hi as [_ _ _ Hl]. unfold pq_live in Hl.
    destruct (waitingOnRetry q), (transmitList q); naive_solver.
Qed.

(** C16: packets leave in order.  What was sent followed by what is held is what
    was accepted: packets of one tick are in the order they were accepted in,
    with forced order so are the packets of one address, and without it the
    queue is sorted by tick.  A refused packet is the one offered on the retry. *)
Theorem packet_queue_order fo dis now q :
  0 <= now -> pq_reachable fo dis now q ->
  let out := pq_sent q ++ transmitList q in
  out ≡ₚ pq_accepted q
  /\ (forall t, filter (fun d => dp_tick d = t) out = filter (fun d => dp_tick d = t) (pq_accepted q))
  /\ (forceOrder q = true -> forall d0,
        filter (fun d => same_addr d0 d = true) out = filter (fun d => same_addr d0 d = true) (pq_accepted q))
  /\ (forceOrder q = false -> Sorted Z.le (map dp_tick (transmitList q)))
  /\ (forall d l accept reent q', transmitList q = d :: l -> waitingOnRetry q = true ->
        pq_allowed (PRetry accept reent) q -> pq_step (PRetry accept reent) q = Ok (tt, q') ->
        pq_sent q' = pq_sent q ++ (if accept then [d] else [])).
Proof.
  intros Hn Hr out. pose proof (pq_reachable_inv _ _ _ _ Hn Hr) as Hi. pose proof (pi_order _ Hi) as (Hp & Hf & Hs).
  split; [done|]. split; [|split; [|split; [done|]]].
  - intros t. apply Hf. intros d x <- <-. by left.
  - intros Hfo d0. apply Hf. intros d x Hd Hx. right. split; [done|].
    unfold same_addr in *. rewrite andb_true_iff, Z.eqb_eq, eqb_true_iff in *. intuition congruence.
  - intros d l accept reent q' Hl Hw Ha. simpl in *. destruct Ha as (_ & Hlt & Hm). unfold retry.
    rewrite bind_gets, bind_assert by done. rewrite bind_modify.
    destruct Hi as [H0 Hd Ho Hlv]. unfold pq_live in Hlv. rewrite Hw in Hlv. destruct Hlv as [Hpd Hh].
    destruct (sendDeferredPacket_run accept reent (set_waitingOnRetry false q)) as (q1 & Hr1 & _ & _ & Hsent);
      [by split|done|].
    rewrite Hr1. intros [= <-]. simpl in Hsent. rewrite Hl in Hsent. by destruct Hsent.
Qed.

(** ** Functional reads through the queue *)

(** The byte at [a] after the packets [tried] have been looked at in turn. *)
Fixpoint picked (tried : list DeferredPacket) (p : Pkt) (old : option Z) (a : Z) : option Z :=
  match tried with
  | [] => old
  | d :: tried' => picked tried' p (override old (carries (dp_pkt d) p a)) a
  end.

Lemma carries_frame o p p' a : same_frame p p' -> carries o p' a = carries o p a.
Proof. unfold same_frame, carries. intros ->. done. Qed.

Lemma picked_frame tried p p' old a : same_frame p p' -> picked tried p' old a = picked tried p old a.
Proof.
  intros Hf. revert old. induction tried as [|d l IH]; intros old; simpl; [done|].
  by rewrite IH, (carries_frame _ p p').
Qed.

Lemma covers_frame p p' a : same_frame p p' -> covers p' a = covers p a.
Proof. unfold same_frame. by intros ->. Qed.

Lemma same_frame_trans p1 p2 p3 : same_frame p1 p2 -> same_frame p2 p3 -> same_frame p1 p3.
Proof. unfold same_frame. intros E1 E2. rewrite E2, E1. by destruct p1. Qed.

(** A byte is valid once a packet that was tried carries it. *)
Definition tried_covers (tried : list DeferredPacket) (p : Pkt) (a : Z) : Prop :=
  exists d, d ∈ tried /\ is_Some (carries (dp_pkt d) p a).

Lemma satisfy_in_read l p :
  pkt_ok p -> isRead (p_cmd p) = true -> Forall (fun d => in_flight (dp_pkt d)) l ->
  exists found p' tried rest, l = tried ++ rest /\ satisfy_in l p = Ok (found, p', l)
    /\ (found = false -> rest = []) /\ same_frame p p'
    /\ (forall a, covers p a = true -> byte_at p' a = picked tried p (byte_at p a) a
         /\ (valid_at p' a = true <-> valid_at p a = true \/ tried_covers tried p a))
    /\ (found = true -> forall a, covers p a = true -> valid_at p' a = true).
Proof.
  revert p. induction l as [|d l IH]; intros p Hp Hr Hl.
  { exists false, p, [], []. split; [done|]. split; [done|]. split; [done|]. split; [by destruct p|].
    split; [|done]. intros a _. split; [done|]. unfold tried_covers. set_solver. }
  apply Forall_cons_1 in Hl as [Hd Hl]. simpl.
  destruct (trySatisfyFunctional_read (dp_pkt d) p Hp Hr Hd) as (found & p1 & Hrun & Hp1 & Hf1 & Hb1 & Ht1).
  rewrite Hrun. cbn [mbind res_bind].
  assert (mkDP (dp_tick d) (dp_pkt d) = d) as -> by (by destruct d).
  assert (forall a, covers p a = true -> (valid_at p1 a = true <-> valid_at p a = true \/ tried_covers [d] p a)) as Hv1.
  { intros a Ha. rewrite (proj2 (Hb1 a Ha)), orb_true_iff, bool_decide_eq_true. unfold tried_covers. set_solver. }
  destruct found.
  { exists true, p1, [d], l. do 3 (split; [done|]). split; [done|]. split; [|done].
    intros a Ha. split; [|by apply Hv1]. apply Hb1, Ha. }
  assert (isRead (p_cmd p1) = true) as Hr1 by (by rewrite Hf1).
  destruct (IH p1 Hp1 Hr1 Hl) as (found & p2 & tried & rest & Hs & Hrun2 & Hrest & Hf2 & Hb2 & Ht2).
  rewrite Hrun2. cbn [mbind res_bind]. exists found, p2, (d :: tried), rest.
  split; [by rewrite Hs|]. split; [done|]. split; [done|]. split; [by eapply same_frame_trans|]. split.
  - intros a Ha. destruct (Hb2 a) as [Hby Hva]; [by rewrite (covers_frame p p1)|]. rewrite Hby, Hva, Hv1 by done. simpl.
    rewrite (picked_frame _ p p1) by done. rewrite (proj1 (Hb1 a Ha)). split; [done|].
    unfold tried_covers. setoid_rewrite (carries_frame _ p p1 a Hf1). set_solver.
  - intros Hf a Ha. apply Ht2; [done|]. by rewrite (covers_frame p p1).
Qed.

(** A functional read of the queue gathers the data in flight.  The packets
    are tried from the front and left unchanged; every byte of the request ends
    with the value of the last packet tried that carries it, or keeps its own;
    the answer is yes only when every byte was found in a packet, and no only
    after the whole queue has been tried. *)
Theorem packet_queue_functional_read q p :
  pkt_ok p -> isRead (p_cmd p) = true -> p_bytesValid p = [] ->
  Forall (fun d => in_flight (dp_pkt d)) (transmitList q) ->
  exists found p' tried rest, pq_trySatisfyFunctional p q = Ok ((found, p'), q)
    /\ transmitList q = tried ++ rest /\ (found = false -> rest = [])
    /\ (forall a, covers p a = true -> byte_at p' a = picked tried p (byte_at p a) a)
    /\ (found = true -> forall a, covers p a = true -> tried_covers tried p a).
Proof.
  intros Hp Hr Hv Hl. destruct (satisfy_in_read _ p Hp Hr Hl) as (found & p' & tried & rest & Hs & Hrun & Hre & Hf & Hb & Ht).
  exists found, p', tried, rest. unfold pq_trySatisfyFunctional. rewrite Hrun.
  split; [by destruct q|]. split; [done|]. split; [done|]. split; [intros a Ha; by apply Hb|].
  intros Hfd a Ha. destruct (Hb a Ha) as [_ Hva]. apply Hva in Ht as [Hva'|]; [|done|done|done].
  unfold valid_at in Hva'. rewrite Hv, lookup_nil in Hva'. by rewrite andb_false_r in Hva'.
Qed.

(** ** Concrete queues *)

(** Two responses for one address, the second of which could go earlier; the
    peer refuses the first offer. *)
Definition demo_resp (x : Z) : Pkt := demo_pkt ReadResp [x; 0; 0; 0].
Definition demo_inputs : list pq_input :=
  [PSend (demo_resp 1) 10; PSend (demo_resp 2) 5; PEvent false []].
Fixpoint pq_run (l : list pq_input) (q : PacketQueue) : PacketQueue :=
  match l with
  | [] => q
  | i :: l' => match pq_step i q with Ok (_, q') => pq_run l' q' | Err _ => q end
  end.
Definition demo_q (n : nat) : PacketQueue := pq_run (take n demo_inputs) (new_PacketQueue true false 0).

Lemma demo_may_send x when n q :
  0 <= when < MaxTick -> pq_curTick q <= when -> (n <= 100)%nat -> may_send (demo_resp x) when n q.
Proof. intros. do 2 (split; [done|]). split; [done|by right]. Qed.

Lemma demo_q_reachable : pq_reachable true false 0 (demo_q 3).
Proof.
  apply (pq_next _ _ _ (PEvent false []) (demo_q 2)); [| |by vm_compute].
  2:{ exists 10. split; [by vm_compute|]. split; [by vm_compute|]. split; [congruence|constructor]. }
  apply (pq_next _ _ _ (PSend (demo_resp 2) 5) (demo_q 1)); [| |by vm_compute].
  2:{ split; [by vm_compute|]. apply demo_may_send; [by vm_compute|by vm_compute|vm_compute; lia]. }
  apply (pq_next _ _ _ (PSend (demo_resp 1) 10) (demo_q 0)); [constructor| |by vm_compute].
  split; [by vm_compute|]. apply demo_may_send; [by vm_compute|by vm_compute|vm_compute; lia].
Qed.

Lemma packet_queue_live_witness :
  waitingOnRetry (demo_q 3) = true
  /\ exists q', pq_step (PRetry true []) (demo_q 3) = Ok (tt, q').
Proof.
  split; [by vm_compute|]. apply (packet_queue_live true false 0 (demo_q 3)); [lia|exact demo_q_reachable|].
  split; [by vm_compute|]. split; [by vm_compute|]. split; [congruence|constructor].
Defined.

Lemma packet_queue_order_witness :
  filter (fun d => same_addr (mkDP 0 (demo_resp 0)) d = true) (pq_sent (demo_q 3) ++ transmitList (demo_q 3))
  = [mkDP 10 (demo_resp 1); mkDP 5 (demo_resp 2)].
Proof.
  destruct (packet_queue_order true false 0 (demo_q 3)) as (_ & _ & Ha & _); [lia|exact demo_q_reachable|].
  rewrite Ha by (by vm_compute). by vm_compute.
Defined.

Lemma demo_resp_in_flight x : in_flight (demo_resp x).
Proof.
  destruct (demo_pkt_ok ReadResp [x; 0; 0; 0] eq_refl). split; [done|done|done|]. intros _. by split.
Qed.

Lemma packet_queue_functional_read_witness :
  exists found p' tried rest,
    pq_trySatisfyFunctional (demo_pkt ReadReq [9; 9; 9; 9]) (demo_q 3) = Ok ((found, p'), demo_q 3)
    /\ transmitList (demo_q 3) = tried ++ rest
    /\ byte_at p' 0x1000 = picked tried (demo_pkt ReadReq [9; 9; 9; 9]) (Some 9) 0x1000.
Proof.
  destruct (packet_queue_functional_read (demo_q 3) (demo_pkt ReadReq [9; 9; 9; 9]))
    as (found & p' & tried & rest & Hrun & Hs & _ & Hb & _);
    [by apply demo_pkt_ok|by vm_compute|by vm_compute| |].
  { assert (transmitList (demo_q 3) = [mkDP 10 (demo_resp 1); mkDP 5 (demo_resp 2)]) as -> by (by vm_compute).
    constructor; [apply demo_resp_in_flight|constructor; [apply demo_resp_in_flight|constructor]]. }
  exists found, p', tried, rest. split; [exact Hrun|]. split; [exact Hs|]. by rewrite Hb by (by vm_compute).
Defined.

(** A peer that hands a packet over from inside the call and then refuses the
    one it is offered leaves the send event scheduled while a retry is
    outstanding; the event fails its assertion when it fires. *)
Definition demo_bad : PacketQueue :=
  pq_run [PSend (demo_resp 1) 10; PEvent false [(demo_resp 2, 20)]] (new_PacketQueue false false 0).
Theorem refusal_with_reentry_asserts :
  waitingOnRetry demo_bad = true /\ send_pending demo_bad = Some 20
  /\ pq_step (PEvent true []) demo_bad = Err (EAssert "!waitingOnRetry").
Proof. by vm_compute. Qed.
