(* ===== verification/AbstractMem.v ===== *)
(** * Memories (mem/abstract_mem.hh, mem/abstract_mem.cc)

    The backing store of a memory with the reservations of load-locked and
    store-conditional accesses.  The store is an array of bytes from the start
    of the range on, or absent (a null memory).  Clearing the exclusive monitor
    of another context, a call into the ISA, is recorded.  The image a memory is
    loaded from and the registration of statistics are left out. *)

From S2P Require Import Prelude Packet Request ByteSwap AddrRange PacketData.

(** ** Data *)

Record LockedAddr := mkLocked { la_addr : Z; la_contextId : Z }.

Definition Addr_Mask : Z := 0xf.
Definition la_mask (paddr : Z) : Z := Z.ldiff paddr Addr_Mask.

Record MemStats := mkMemStats {
  bytesRead : gmap Z Z; bytesInstRead : gmap Z Z; bytesWritten : gmap Z Z;
  numReads : gmap Z Z; numWrites : gmap Z Z; numOther : gmap Z Z
}.
Definition bump (n : Z) (k : Z) (m : gmap Z Z) : gmap Z Z := <[k := default 0 (m !! k) + n]> m.

Record AbstractMemory := mkMem {
  am_range : AddrRange;
  pmemAddr : option (list Z);
  lockedAddrList : list LockedAddr;
  am_stats : MemStats;
  am_cleared : list Z;                (* contexts passed to globalClearExclusive *)
  am_backdoor : bool                  (* the backdoor has a pointer to the array *)
}.
Abbreviation A := (M AbstractMemory).

Definition set_pmem (m : option (list Z)) (x : AbstractMemory) : AbstractMemory :=
  mkMem (am_range x) m (lockedAddrList x) (am_stats x) (am_cleared x) (am_backdoor x).
Definition set_locked (l : list LockedAddr) (x : AbstractMemory) : AbstractMemory :=
  mkMem (am_range x) (pmemAddr x) l (am_stats x) (am_cleared x) (am_backdoor x).
Definition set_am_stats (s : MemStats) (x : AbstractMemory) : AbstractMemory :=
  mkMem (am_range x) (pmemAddr x) (lockedAddrList x) s (am_cleared x) (am_backdoor x).
Definition set_cleared (l : list Z) (x : AbstractMemory) : AbstractMemory :=
  mkMem (am_range x) (pmemAddr x) (lockedAddrList x) (am_stats x) l (am_backdoor x).

(** The constructor; [setBackingStore] sets the array. *)
Definition new_AbstractMemory (range : AddrRange) : res AbstractMemory :=
  panic_r (negb (valid range) || (ar_size range =? 0)) "Memory range must be valid with non-zero size.";;
  Ok (mkMem range None [] (mkMemStats ∅ ∅ ∅ ∅ ∅ ∅) [] false).
Definition setBackingStore (pmem : option (list Z)) (x : AbstractMemory) : AbstractMemory :=
  mkMem (am_range x) pmem (lockedAddrList x) (am_stats x) (am_cleared x)
    (negb (interleaved (am_range x)) && bool_decide (pmem <> None)).
Definition am_size (x : AbstractMemory) : Z := ar_size (am_range x).

(** [toHostAddr(addr)]: the index into the array. *)
Definition toHostAddr (addr : Z) (x : AbstractMemory) : nat := Z.to_nat (addr - ar_start (am_range x)).

Definition addLockedAddr (la : LockedAddr) (x : AbstractMemory) : AbstractMemory :=
  set_locked (lockedAddrList x ++ [la]) x.

(** ** Load-locked and store-conditional *)

Definition matchesContext (la : LockedAddr) (r : Request) : res bool :=
  assert_r (negb (la_contextId la =? InvalidContextID)) "contextId != InvalidContextID";;
  assert_r (hasContextId r) "req->hasContextId()";;
  cid ← contextId r; mret (la_contextId la =? cid).

Definition new_LockedAddr (r : Request) : res LockedAddr :=
  a ← getPaddr r; cid ← contextId r; mret (mkLocked (la_mask a) cid).

(** The loop over the records: the one of this context gets the new address. *)
Fixpoint relock (l : list LockedAddr) (r : Request) (paddr : Z) : res (option (list LockedAddr)) :=
  match l with
  | [] => mret None
  | la :: l' =>
      b ← matchesContext la r;
      if b : bool then mret (Some (mkLocked paddr (la_contextId la) :: l'))
      else o ← relock l' r paddr; mret (option_map (cons la) o)
  end.
Definition trackLoadLocked (pkt : Pkt) : A unit :=
  a ← lift (getPaddr (p_req pkt));
  l ← gets lockedAddrList;
  o ← lift (relock l (p_req pkt) (la_mask a));
  match o with
  | Some l' => modify (set_locked l')
  | None => la ← lift (new_LockedAddr (p_req pkt)); modify (set_locked (la :: l))
  end.

(** The search of a store-conditional for the reservation of its context. *)
Fixpoint reserved (l : list LockedAddr) (r : Request) (paddr : Z) : res bool :=
  match l with
  | [] => mret false
  | la :: l' =>
      b ← (if la_addr la =? paddr then matchesContext la r else mret false);
      if b : bool then mret true else reserved l' r paddr
  end.

(** The loop that drops every reservation of the written block; it returns the
    records kept and the contexts whose monitors are cleared. *)
Fixpoint unlock (l : list LockedAddr) (r : Request) (paddr : Z) : res (list LockedAddr * list Z) :=
  match l with
  | [] => mret ([], [])
  | la :: l' =>
      if la_addr la =? paddr then
        assert_r (negb (la_contextId la =? InvalidContextID)) "owner_cid != InvalidContextID";;
        requester ← (if hasContextId r then contextId r else mret InvalidContextID);
        '(kept, cleared) ← unlock l' r paddr;
        mret (kept, if la_contextId la =? requester then cleared else la_contextId la :: cleared)
      else '(kept, cleared) ← unlock l' r paddr; mret (la :: kept, cleared)
  end.

Definition checkLockedAddrList (pkt : Pkt) : A (bool * Pkt) :=
  a ← lift (getPaddr (p_req pkt));
  let paddr := la_mask a in
  l ← gets lockedAddrList;
  '(allowStore, pkt') ←
    (if isLLSC (p_cmd pkt) then
       ok ← lift (reserved l (p_req pkt) paddr);
       mret (ok, set_p_req (setExtraData (if ok : bool then 1 else 0) (p_req pkt)) pkt)
     else mret (true, pkt));
  when_ allowStore
    ('(kept, cleared) ← lift (unlock l (p_req pkt) paddr);
     modify (set_locked kept);;
     modify (fun x => set_cleared (am_cleared x ++ cleared) x));;
  mret (allowStore, pkt').

Definition writeOK (pkt : Pkt) : A (bool * Pkt) :=
  l ← gets lockedAddrList;
  match l with
  | [] =>
      let llsc := isLLSC (p_cmd pkt) in
      mret (negb llsc, if llsc then set_p_req (setExtraData 0 (p_req pkt)) pkt else pkt)
  | _ => checkLockedAddrList pkt
  end.

(** ** Accesses *)

(** Copy from and to the array, if there is one. *)
Definition load_data (pkt : Pkt) (host : nat) : A Pkt :=
  m ← gets pmemAddr;
  match m with Some mem => lift (setData (drop host mem) pkt) | None => mret pkt end.
Definition store_data (pkt : Pkt) (host : nat) : A unit :=
  m ← gets pmemAddr;
  match m with
  | Some mem => mem' ← lift (writeData mem host pkt); modify (set_pmem (Some mem'))
  | None => mret tt
  end.

Definition count_read (pkt : Pkt) : A unit :=
  sz ← lift (getSize pkt);
  modify (fun x =>
    let s := am_stats x in let id := rq_masterId (p_req pkt) in
    set_am_stats (mkMemStats (bump sz id (bytesRead s))
      (if isInstFetch (p_req pkt) then bump sz id (bytesInstRead s) else bytesInstRead s)
      (bytesWritten s) (bump 1 id (numReads s)) (numWrites s) (numOther s)) x).
Definition count_write (pkt : Pkt) : A unit :=
  sz ← lift (getSize pkt);
  modify (fun x =>
    let s := am_stats x in let id := rq_masterId (p_req pkt) in
    set_am_stats (mkMemStats (bytesRead s) (bytesInstRead s) (bump sz id (bytesWritten s))
      (numReads s) (bump 1 id (numWrites s)) (numOther s)) x).
Definition count_other (pkt : Pkt) : A unit :=
  modify (fun x =>
    let s := am_stats x in
    set_am_stats (mkMemStats (bytesRead s) (bytesInstRead s) (bytesWritten s)
      (numReads s) (numWrites s) (bump 1 (rq_masterId (p_req pkt)) (numOther s))) x).

(** The atomic operation of a request, applied to the bytes at [host]. *)
Definition atomic_swap (pkt : Pkt) (host : nat) : A Pkt :=
  m ← gets pmemAddr;
  match m with
  | None => mret pkt
  | Some mem =>
      pkt' ← lift (setData (drop host mem) pkt);
      op ← lift (getAtomicOpFunctor (p_req pkt));
      sz ← lift (getSize pkt);
      let n := Z.to_nat sz in
      mem' ← lift (memcpy mem host (op (take n (drop host mem))) 0 n);
      modify (set_pmem (Some mem'));;
      mret pkt'
  end.

(** Does a conditional swap find the value it expects? *)
Definition swap_condition (pkt : Pkt) (host : nat) (mem : list Z) : res bool :=
  sz ← getSize pkt;
  x ← (if (sz =? 8) || (sz =? 4) then getExtraData (p_req pkt)
       else Err (EPanic "Invalid size for conditional read/write"));
  let n := Z.to_nat sz in
  mret (bool_decide (le_bytes n x = take n (drop host mem))).

Definition plain_swap (pkt : Pkt) (host : nat) : A Pkt :=
  m ← gets pmemAddr;
  match m with
  | None => throw (EPanic "Swap only works if there is real memory (i.e. null=False)")
  | Some mem =>
      sz ← lift (getSize pkt);
      let n := Z.to_nat sz in
      overwrite_val ← lift (writeData (replicate n 0) 0 pkt);
      pkt' ← lift (setData (drop host mem) pkt);
      overwrite_mem ← lift (if isCondSwap (p_req pkt') then swap_condition pkt' host mem else mret true);
      when_ overwrite_mem
        (mem' ← lift (memcpy mem host overwrite_val 0 n); modify (set_pmem (Some mem')));;
      assert_ (negb (isInstFetch (p_req pkt'))) "!pkt->req->isInstFetch()";;
      count_other pkt';;
      mret pkt'
  end.

(** What [access] does to the memory, before the response is made. *)
Definition perform (pkt : Pkt) (host : nat) : A Pkt :=
  let cmd := p_cmd pkt in
  if bool_decide (cmd = SwapReq) then
    if isAtomic (p_req pkt) then atomic_swap pkt host else plain_swap pkt host
  else if isRead cmd then
    assert_ (negb (isWrite cmd)) "!pkt->isWrite()";;
    when_ (isLLSC cmd)
      (assert_ (negb (fromCache cmd)) "!pkt->fromCache()";; trackLoadLocked pkt);;
    pkt' ← load_data pkt host;
    count_read pkt';;
    mret pkt'
  else if isInvalidate cmd || isClean cmd then
    assert_ (negb (isWrite cmd)) "!pkt->isWrite()";; mret pkt
  else if isWrite cmd then
    '(ok, pkt') ← writeOK pkt;
    when_ ok
      (store_data pkt' host;;
       assert_ (negb (isInstFetch (p_req pkt'))) "!pkt->req->isInstFetch()";;
       count_write pkt');;
    mret pkt'
  else throw (EPanic "Unexpected packet").

Definition mem_access (pkt : Pkt) : A Pkt :=
  if cacheResponding pkt then mret pkt
  else if bool_decide (p_cmd pkt = CleanEvict) || bool_decide (p_cmd pkt = WritebackClean) then mret pkt
  else
    pr ← lift (getAddrRange pkt); r ← gets am_range;
    sub ← lift (isSubset pr r);
    assert_ sub "pkt->getAddrRange().isSubset(range)";;
    a ← lift (getAddr pkt);
    host ← gets (toHostAddr a);
    pkt' ← perform pkt host;
    if needsResponse (p_cmd pkt') then lift (pkt_makeResponse pkt') else mret pkt'.

(** [functionalAccess]; a print request only prints. *)
Definition functionalAccess (pkt : Pkt) : A Pkt :=
  pr ← lift (getAddrRange pkt); r ← gets am_range;
  sub ← lift (isSubset pr r);
  assert_ sub "pkt->getAddrRange().isSubset(range)";;
  a ← lift (getAddr pkt);
  host ← gets (toHostAddr a);
  if isRead (p_cmd pkt) then
    pkt' ← load_data pkt host; lift (pkt_makeResponse pkt')
  else if isWrite (p_cmd pkt) then
    store_data pkt host;; lift (pkt_makeResponse pkt)
  else if isPrint (p_cmd pkt) then mret pkt
  else throw (EPanic "AbstractMemory: unimplemented functional command").
