(* ===== verification/AbstractMemProps.v ===== *)
(** * Properties of memories

    Reads return the bytes last written; a store-conditional succeeds exactly
    when the reservation of its context has survived. *)

From S2P Require Import Prelude Packet Request ByteSwap AddrRange PacketData PacketDataProps AbstractMem.

(** ** Reservations *)

(** The block a context has reserved. *)
Fixpoint reservation (l : list LockedAddr) (cid : Z) : option Z :=
  match l with
  | [] => None
  | la :: l' => if la_contextId la =? cid then Some (la_addr la) else reservation l' cid
  end.

(** Each context has at most one record, and none is invalid. *)
Definition locks_wf (l : list LockedAddr) : Prop :=
  NoDup (map la_contextId l) /\ Forall (fun la => la_contextId la <> InvalidContextID) l.

(** A request for [paddr] by the context [cid]. *)
Definition req_by (r : Request) (paddr cid : Z) : Prop :=
  hasPaddr r = true /\ rq_paddr r = paddr /\ hasContextId r = true /\ rq_contextId r = cid.

Lemma matchesContext_run la r paddr cid :
  req_by r paddr cid -> la_contextId la <> InvalidContextID ->
  matchesContext la r = Ok (la_contextId la =? cid).
Proof.
  intros (_ & _ & Hc & <-) Hl. unfold matchesContext, contextId. rewrite Hc.
  by rewrite (proj2 (Z.eqb_neq _ _) Hl).
Qed.

Lemma reservation_none l cid : cid ∉ map la_contextId l -> reservation l cid = None.
Proof.
  induction l as [|la l IH]; simpl; [done|]. rewrite not_elem_of_cons. intros [Hn Hl].
  rewrite (proj2 (Z.eqb_neq _ _)) by congruence. by apply IH.
Qed.

Lemma reservation_some l cid b : reservation l cid = Some b -> cid ∈ map la_contextId l.
Proof.
  induction l as [|la l IH]; simpl; [done|]. rewrite elem_of_cons.
  destruct (Z.eqb_spec (la_contextId la) cid) as [<-|]; auto.
Qed.

Lemma relock_spec l r paddr cid b :
  locks_wf l -> req_by r paddr cid ->
  match relock l r b with
  | Ok (Some l') => cid ∈ map la_contextId l /\ map la_contextId l' = map la_contextId l
      /\ forall c, reservation l' c = if c =? cid then Some b else reservation l c
  | Ok None => cid ∉ map la_contextId l
  | Err _ => False
  end.
Proof.
  intros [Hnd Hok] Hr. induction l as [|la l IH]; simpl; [set_solver|].
  apply NoDup_cons in Hnd as [Hn Hnd]. apply Forall_cons_1 in Hok as [Hla Hok].
  rewrite (matchesContext_run la r paddr cid) by done. cbn [mbind res_bind].
  destruct (Z.eqb_spec (la_contextId la) cid) as [E|E].
  - simpl. split; [set_solver|]. split; [done|]. intros c. simpl.
    destruct (Z.eqb_spec (la_contextId la) c), (Z.eqb_spec c cid); congruence.
  - specialize (IH Hnd Hok). destruct (relock l r b) as [[l'|]|]; simpl; [|set_solver|done].
    destruct IH as (Hin & Hm & Hl). split; [set_solver|]. split; [by rewrite Hm|]. intros c.
    rewrite Hl. destruct (Z.eqb_spec (la_contextId la) c), (Z.eqb_spec c cid); congruence.
Qed.

Lemma reserved_spec l r paddr cid b :
  locks_wf l -> req_by r paddr cid -> reserved l r b = Ok (bool_decide (reservation l cid = Some b)).
Proof.
  intros [Hnd Hok] Hr. induction l as [|la l IH]; simpl; [done|].
  apply NoDup_cons in Hnd as [Hn Hnd]. apply Forall_cons_1 in Hok as [Hla Hok]. specialize (IH Hnd Hok).
  rewrite (matchesContext_run la r paddr cid) by done.
  destruct (Z.eqb_spec (la_addr la) b) as [E|E]; cbn [mbind res_bind mret res_ret].
  - destruct (Z.eqb_spec (la_contextId la) cid) as [F|F]; [by rewrite bool_decide_eq_true_2 by congruence|done].
  - rewrite IH. destruct (Z.eqb_spec (la_contextId la) cid) as [F|F]; [|done].
    rewrite reservation_none by (by rewrite <- F). by rewrite !bool_decide_eq_false_2 by congruence.
Qed.

Lemma unlock_spec l r b :
  Forall (fun la => la_contextId la <> InvalidContextID) l ->
  exists cleared, unlock l r b = Ok (filter (fun la => la_addr la <> b) l, cleared)
    /\ forall c, c ∈ cleared -> exists la, la ∈ l /\ la_contextId la = c /\ la_addr la = b
                  /\ (hasContextId r = true -> c <> rq_contextId r).
Proof.
  induction 1 as [|la l Hla Hok IH]; [exists []; split; [done|set_solver]|]. simpl.
  destruct IH as (cleared & Hu & Hc). rewrite filter_cons. destruct (Z.eqb_spec (la_addr la) b) as [E|E].
  - rewrite (proj2 (Z.eqb_neq _ _) Hla), Hu. rewrite decide_False by (intros ?; done).
    assert (exists rq, (if hasContextId r then contextId r else mret InvalidContextID) = Ok rq
      /\ (hasContextId r = true -> rq = rq_contextId r)) as (rq & -> & Hrq).
    { unfold contextId. destruct (hasContextId r); eexists; (split; [reflexivity|done]). }
    cbn [mbind res_bind assert_r]. eexists. split; [reflexivity|]. intros c.
    destruct (Z.eqb_spec (la_contextId la) rq) as [F|F].
    + intros Hin. destruct (Hc c Hin) as (x & ? & ? & ?). exists x. set_solver.
    + rewrite elem_of_cons. intros [-> |Hin].
      * exists la. split; [set_solver|]. split; [done|]. split; [done|]. intros Hh. rewrite <- Hrq by done. done.
      * destruct (Hc c Hin) as (x & ? & ? & ?). exists x. set_solver.
  - rewrite Hu, decide_True by done. cbn [mbind res_bind]. exists cleared. split; [done|].
    intros c Hin. destruct (Hc c Hin) as (x & ? & ? & ?). exists x. set_solver.
Qed.

Lemma reservation_filter l b c :
  NoDup (map la_contextId l) ->
  reservation (filter (fun la => la_addr la <> b) l) c
  = if bool_decide (reservation l c = Some b) then None else reservation l c.
Proof.
  induction l as [|la l IH]; simpl; [done|]. intros [Hn Hnd]%NoDup_cons. specialize (IH Hnd). rewrite filter_cons.
  destruct (Z.eqb_spec (la_contextId la) c) as [E|E].
  - destruct (decide (la_addr la <> b)) as [F|F]; simpl.
    + rewrite (proj2 (Z.eqb_eq _ _) E). by rewrite bool_decide_eq_false_2 by congruence.
    + apply dec_stable in F. rewrite bool_decide_eq_true_2 by congruence. rewrite IH, reservation_none by congruence. done.
  - destruct (decide (la_addr la <> b)); simpl; [by rewrite (proj2 (Z.eqb_neq _ _) E)|done].
Qed.

Lemma locks_wf_filter l b : locks_wf l -> locks_wf (filter (fun la => la_addr la <> b) l).
Proof.
  intros [Hnd Hok]. split; [|by apply Forall_filter_keep].
  clear Hok. induction l as [|la l IH]; [done|]. simpl in Hnd. apply NoDup_cons in Hnd as [Hn Hnd].
  rewrite filter_cons. case_decide; [|by apply IH]. simpl. apply NoDup_cons. split; [|by apply IH].
  intros (x & Hx & [_ Hin]%list_elem_of_filter)%list_elem_of_fmap. apply Hn. rewrite Hx.
  apply list_elem_of_fmap. by exists x.
Qed.

(** *** The three operations on reservations *)

Lemma trackLoadLocked_run pkt paddr cid x :
  locks_wf (lockedAddrList x) -> req_by (p_req pkt) paddr cid -> cid <> InvalidContextID ->
  exists l', trackLoadLocked pkt x = Ok (tt, set_locked l' x) /\ locks_wf l'
    /\ forall c, reservation l' c = if c =? cid then Some (la_mask paddr) else reservation (lockedAddrList x) c.
Proof.
  intros Hw Hr Hc. unfold trackLoadLocked. pose proof Hr as (Hp & Ha & Hcx & Hcid).
  assert (getPaddr (p_req pkt) = Ok paddr) as Hg by (unfold getPaddr; rewrite Hp, Ha; done).
  erewrite bind_run by (unfold lift; rewrite Hg; reflexivity). rewrite bind_gets.
  pose proof (relock_spec (lockedAddrList x) (p_req pkt) paddr cid (la_mask paddr) Hw Hr) as Hs.
  destruct (relock _ _ _) as [[l'|]|]; [| |done].
  - erewrite bind_run by reflexivity. exists l'. split; [done|]. destruct Hs as (_ & Hm & Hs). split; [|done].
    destruct Hw as [Hnd Hok]. split; [by rewrite Hm|]. apply Forall_forall. intros la Hin.
    assert (la_contextId la ∈ map la_contextId l') as Hi by (apply list_elem_of_fmap; eauto).
    rewrite Hm in Hi. apply list_elem_of_fmap in Hi as (y & -> & Hy). rewrite Forall_forall in Hok. by apply Hok.
  - erewrite bind_run by reflexivity. unfold new_LockedAddr, contextId. rewrite Hg, Hcx, Hcid. cbn.
    eexists. split; [reflexivity|]. split.
    + destruct Hw. split; [by constructor|by constructor].
    + intros c. simpl. by rewrite (Z.eqb_sym cid c).
Qed.

(** Whether a write is allowed. *)
Definition granted (pkt : Pkt) (paddr : Z) (x : AbstractMemory) : bool :=
  negb (isLLSC (p_cmd pkt))
  || bool_decide (reservation (lockedAddrList x) (rq_contextId (p_req pkt)) = Some (la_mask paddr)).

(** The packet a write leaves: a store-conditional carries its outcome. *)
Definition with_outcome (ok : bool) (pkt : Pkt) : Pkt :=
  if isLLSC (p_cmd pkt) then set_p_req (setExtraData (if ok then 1 else 0) (p_req pkt)) pkt else pkt.

Lemma writeOK_run pkt paddr x :
  locks_wf (lockedAddrList x) -> hasPaddr (p_req pkt) = true -> rq_paddr (p_req pkt) = paddr ->
  (isLLSC (p_cmd pkt) = true -> hasContextId (p_req pkt) = true) ->
  let ok := granted pkt paddr x in
  exists l' cl, writeOK pkt x = Ok ((ok, with_outcome ok pkt), set_cleared (am_cleared x ++ cl) (set_locked l' x))
    /\ locks_wf l'
    /\ (forall c, reservation l' c
         = if ok && bool_decide (reservation (lockedAddrList x) c = Some (la_mask paddr))
           then None else reservation (lockedAddrList x) c).
Proof.
  intros Hw Hp Ha Hc ok. unfold writeOK. rewrite bind_gets.
  destruct (lockedAddrList x) as [|la0 l0] eqn:El.
  { exists [], []. split; [|split; [done|by intros; destruct (ok && _)]].
    unfold ok, granted, with_outcome. rewrite El, app_nil_r. simpl.
    destruct x; simpl in *; subst. by destruct (isLLSC (p_cmd pkt)). }
  rewrite <- El in *. clear El la0 l0. unfold checkLockedAddrList.
  erewrite bind_run by (unfold lift, getPaddr; rewrite Hp, Ha; reflexivity). rewrite bind_gets.
  assert (exists s, (if isLLSC (p_cmd pkt)
      then o ← lift (reserved (lockedAddrList x) (p_req pkt) (la_mask paddr));
           mret (o, set_p_req (setExtraData (if o : bool then 1 else 0) (p_req pkt)) pkt)
      else mret (true, pkt)) x = Ok (s, x) /\ s = (ok, with_outcome ok pkt)) as (s & Hs & ->).
  { unfold ok, granted, with_outcome. destruct (isLLSC (p_cmd pkt)) eqn:Hl; [|by eexists].
    rewrite (reserved_spec _ _ paddr (rq_contextId (p_req pkt)) _ Hw) by (repeat split; auto). by eexists. }
  erewrite bind_run by exact Hs. cbv beta iota. destruct ok; cycle 1.
  { exists (lockedAddrList x), []. simpl. rewrite app_nil_r. split; [by destruct x|done]. }
  destruct (unlock_spec (lockedAddrList x) (p_req pkt) (la_mask paddr) (proj2 Hw)) as (cl & Hu & _).
  exists (filter (fun la => la_addr la <> la_mask paddr) (lockedAddrList x)), cl. cbn [when_].
  erewrite bind_run; cycle 1.
  { erewrite bind_run by (unfold lift; rewrite Hu; reflexivity). reflexivity. }
  split; [done|]. split; [by apply locks_wf_filter|]. intros c. by rewrite reservation_filter by apply Hw.
Qed.

(** ** Reads and writes *)

Record mem_ok (x : AbstractMemory) : Prop := {
  mo_plain : ar_masks (am_range x) = [];
  mo_range : 0 <= ar_start (am_range x) < ar_end (am_range x) /\ ar_end (am_range x) < 2 ^ 64;
  mo_pmem : exists mem, pmemAddr x = Some mem
              /\ Z.of_nat (length mem) = ar_end (am_range x) - ar_start (am_range x);
  mo_locks : locks_wf (lockedAddrList x)
}.

Definition mem_byte (x : AbstractMemory) (a : Z) : option Z :=
  if (ar_start (am_range x) <=? a) && (a <? ar_end (am_range x))
  then pmemAddr x ≫= (fun mem => mem !! Z.to_nat (a - ar_start (am_range x))) else None.

Definition plain_read (c : Command) : bool := isRead c && negb (isWrite c).
Definition plain_write (c : Command) : bool :=
  isWrite c && negb (isRead c) && negb (isInvalidate c) && negb (isClean c).

(** A read or write that falls into the memory. *)
Record access_ok (pkt : Pkt) (x : AbstractMemory) : Prop := {
  ao_addr : p_isSet VALID_ADDR pkt = true;
  ao_size : p_isSet VALID_SIZE pkt = true;
  ao_flag : has_data_flag pkt = true;
  ao_data : exists bs, p_data pkt = Some bs /\ Z.of_nat (length bs) = p_size pkt;
  ao_range : ar_start (am_range x) <= p_addr pkt /\ 0 < p_size pkt
             /\ p_addr pkt + p_size pkt <= ar_end (am_range x);
  ao_here : cacheResponding pkt = false;
  ao_cmd : plain_read (p_cmd pkt) = true \/ plain_write (p_cmd pkt) = true /\ isInstFetch (p_req pkt) = false;
  ao_clean : p_cmd pkt <> WritebackClean;
  ao_mask : isMaskedWrite pkt = true -> Z.of_nat (length (rq_byteEnable (p_req pkt))) = p_size pkt;
  ao_paddr : hasPaddr (p_req pkt) = true;
  ao_ctx : isLLSC (p_cmd pkt) = true ->
    hasContextId (p_req pkt) = true /\ rq_contextId (p_req pkt) <> InvalidContextID
    /\ fromCache (p_cmd pkt) = false
}.

(** The packet writes the byte at [a]. *)
Definition writes_at (pkt : Pkt) (a : Z) : bool :=
  covers pkt a && (negb (isMaskedWrite pkt)
    || bool_decide (rq_byteEnable (p_req pkt) !! Z.to_nat (a - p_addr pkt) = Some true)).

Lemma lookup_write_enabled en base dst i :
  length en = length base -> (length base <= length dst)%nat ->
  write_enabled en base dst !! i
  = if bool_decide (en !! i = Some true) then base !! i else dst !! i.
Proof.
  revert base dst i. induction en as [|b en IH]; intros [|y base] [|z dst] i He Hd; simpl in *; try lia; try by destruct i.
  destruct i as [|i]; simpl; [by destruct b|]. apply IH; lia.
Qed.

Lemma write_enabled_length en base dst :
  length en = length base -> (length base <= length dst)%nat -> length (write_enabled en base dst) = length dst.
Proof.
  revert base dst. induction en as [|b en IH]; intros [|y base] [|z dst] He Hd; simpl in *; try lia.
  rewrite IH; lia.
Qed.

(** The array after a write at index [off]. *)
Lemma writeData_run pkt bs mem off :
  p_isSet VALID_SIZE pkt = true -> has_data_flag pkt = true -> p_data pkt = Some bs ->
  Z.of_nat (length bs) = p_size pkt ->
  (isMaskedWrite pkt = true -> Z.of_nat (length (rq_byteEnable (p_req pkt))) = p_size pkt) ->
  (off + length bs <= length mem)%nat ->
  exists mem', writeData mem off pkt = Ok mem' /\ length mem' = length mem
    /\ forall i, mem' !! i
         = if bool_decide (off <= i < off + length bs)%nat
              && (negb (isMaskedWrite pkt)
                  || bool_decide (rq_byteEnable (p_req pkt) !! (i - off)%nat = Some true))
           then bs !! (i - off)%nat else mem !! i.
Proof.
  intros Hs Hf Hb Hl Hm Hoff. unfold writeData. rewrite getSize_run by done. cbn [mbind res_bind].
  assert (getConstPtr pkt = Ok bs) as Hptr by (unfold getConstPtr, the_bytes; by rewrite Hf, Hb).
  replace (Z.to_nat (p_size pkt)) with (length bs) by lia. rewrite Hptr.
  destruct (isMaskedWrite pkt) eqn:E; cbn [negb].
  - rewrite assert_r_true by (specialize (Hm eq_refl); lia). cbn [mbind res_bind].
    rewrite !bool_decide_eq_true_2 by lia. cbn [andb]. eexists. split; [reflexivity|].
    specialize (Hm eq_refl). assert (length (rq_byteEnable (p_req pkt)) = length bs) as Hlen by lia.
    split; [rewrite length_app, length_take, write_enabled_length, length_drop; rewrite ?length_drop; lia|].
    intros i. destruct (decide (i < off)%nat).
    { rewrite lookup_app_l by (rewrite length_take; lia). rewrite lookup_take_lt by done.
      by rewrite bool_decide_eq_false_2 by lia. }
    rewrite lookup_app_r by (rewrite length_take; lia). rewrite length_take, Nat.min_l by lia.
    rewrite lookup_write_enabled by (rewrite ?length_drop; lia). rewrite lookup_drop.
    replace (off + (i - off))%nat with i by lia.
    destruct (decide (i - off < length bs)%nat).
    + by rewrite (bool_decide_eq_true_2 (off <= i < _)%nat) by lia.
    + rewrite (bool_decide_eq_false_2 (off <= i < _)%nat) by lia.
      rewrite lookup_ge_None_2 by lia. by rewrite bool_decide_eq_false_2.
  - cbn [mbind res_bind]. destruct (memcpy_ok mem off bs 0 (length bs)) as (r & Hr & Hlr & Hi); [lia..|].
    rewrite Hr. exists r. split; [done|]. split; [done|]. intros i. rewrite Hi.
    rewrite orb_true_l, andb_true_r. by case_bool_decide.
Qed.

(** *** The parts of an access *)

Lemma setData_run pkt bs src :
  p_isSet VALID_SIZE pkt = true -> has_data_flag pkt = true -> isMaskedWrite pkt = false ->
  p_data pkt = Some bs -> Z.of_nat (length bs) = p_size pkt -> (length bs <= length src)%nat ->
  setData src pkt = Ok (set_p_data (Some (take (length bs) src)) pkt).
Proof.
  intros Hs Hf Hm Hb Hl Hsrc. unfold setData, getPtr, the_bytes. rewrite Hf, Hm, Hb, getSize_run by done.
  cbn [mbind res_bind assert_r negb]. replace (Z.to_nat (p_size pkt)) with (length bs) by lia.
  unfold memcpy. rewrite !bool_decide_eq_true_2 by lia. cbn [andb mbind res_bind].
  rewrite drop_0, take_0, (drop_ge bs) by lia. by rewrite app_nil_r.
Qed.

Lemma pkt_makeResponse_run p :
  needsResponse (p_cmd p) = true ->
  pkt_makeResponse p = Ok (p_clear EXPRESS_SNOOP (set_p_cmd (responseCommand (p_cmd p)) p)).
Proof.
  intros Hn. unfold pkt_makeResponse. rewrite Hn. by destruct (p_cmd p).
Qed.

(** The packet after the access. *)
Definition responded (p : Pkt) : Pkt :=
  if needsResponse (p_cmd p) then p_clear EXPRESS_SNOOP (set_p_cmd (responseCommand (p_cmd p)) p) else p.

Lemma mem_access_perform pkt x :
  mem_ok x -> access_ok pkt x ->
  forall p' x', perform pkt (toHostAddr (p_addr pkt) x) x = Ok (p', x') ->
  mem_access pkt x = Ok (responded p', x').
Proof.
  intros [Hpl Hrg _ _] Ha p' x' Hper. unfold mem_access. rewrite (ao_here _ _ Ha).
  destruct (ao_range _ _ Ha) as (H1 & H2 & H3).
  assert (p_cmd pkt <> CleanEvict) as Hce by (destruct (ao_cmd _ _ Ha) as [Hc|[Hc _]]; intros E; by rewrite E in Hc).
  rewrite !bool_decide_eq_false_2 by (done || apply Ha). cbn [orb].
  erewrite bind_run; cycle 1.
  { unfold lift, getAddrRange. rewrite getAddr_run, getSize_run by apply Ha. reflexivity. }
  rewrite bind_gets. erewrite bind_run; cycle 1.
  { unfold lift, isSubset, interleaved. rewrite Hpl. unfold RangeSize, AddrRange_simple. cbn. reflexivity. }
  rewrite bind_assert by (rewrite u64_small by lia; lia).
  erewrite bind_run by (unfold lift; rewrite getAddr_run by apply Ha; reflexivity). rewrite bind_gets.
  erewrite bind_run by exact Hper. unfold responded.
  destruct (needsResponse (p_cmd p')) eqn:E; [|done]. unfold lift. by rewrite pkt_makeResponse_run.
Qed.

(** Looking at the array through addresses. *)
Lemma mem_byte_index x mem a :
  pmemAddr x = Some mem -> Z.of_nat (length mem) = ar_end (am_range x) - ar_start (am_range x) ->
  ar_start (am_range x) <= a -> mem_byte x a = mem !! Z.to_nat (a - ar_start (am_range x)).
Proof.
  intros Hm Hl Ha. unfold mem_byte. rewrite Hm. rewrite (proj2 (Z.leb_le _ _)) by done. simpl.
  destruct (Z.ltb_spec a (ar_end (am_range x))); [done|]. rewrite lookup_ge_None_2 by lia. done.
Qed.

Lemma read_performs pkt x :
  mem_ok x -> access_ok pkt x -> plain_read (p_cmd pkt) = true ->
  exists p' x', perform pkt (toHostAddr (p_addr pkt) x) x = Ok (p', x') /\ mem_ok x' /\ am_range x' = am_range x
    /\ (forall a, mem_byte x' a = mem_byte x a) /\ p' = set_p_data (p_data p') pkt
    /\ (forall a, covers pkt a = true -> byte_at p' a = mem_byte x a)
    /\ (forall c, reservation (lockedAddrList x') c
         = if isLLSC (p_cmd pkt) && (c =? rq_contextId (p_req pkt))
           then Some (la_mask (rq_paddr (p_req pkt))) else reservation (lockedAddrList x) c)
    /\ exists bs, p_data p' = Some bs /\ length bs = Z.to_nat (p_size pkt).
Proof.
  intros Hx Ha Hr. unfold plain_read in Hr. apply andb_true_iff in Hr as [Hrd Hwr]. apply negb_true_iff in Hwr.
  assert (p_cmd pkt <> SwapReq) as Hsw by (intros E; by rewrite E in Hwr).
  assert (isMaskedWrite pkt = false) as Hm.
  { unfold isMaskedWrite. rewrite bool_decide_eq_false_2; [done|]. intros E. by rewrite E in Hrd. }
  unfold perform. rewrite bool_decide_eq_false_2, Hrd, Hwr by done. rewrite bind_assert by done.
  pose proof Hx as [Hpl Hrg (mem & Hmem & Hlen) Hlk].
  assert (exists l', when_ (isLLSC (p_cmd pkt))
      (assert_ (negb (fromCache (p_cmd pkt))) "!pkt->fromCache()";; trackLoadLocked pkt) x = Ok (tt, set_locked l' x)
    /\ locks_wf l' /\ forall c, reservation l' c = if isLLSC (p_cmd pkt) && (c =? rq_contextId (p_req pkt))
         then Some (la_mask (rq_paddr (p_req pkt))) else reservation (lockedAddrList x) c) as (l' & Ht & Hw' & Hres).
  { destruct (isLLSC (p_cmd pkt)) eqn:Hl; cycle 1.
    { exists (lockedAddrList x). split; [by destruct x|done]. }
    destruct (ao_ctx _ _ Ha Hl) as (Hcx & Hcid & Hfc).
    destruct (trackLoadLocked_run pkt (rq_paddr (p_req pkt)) (rq_contextId (p_req pkt)) x) as (l' & Ht & Hw & Hs);
      [done|by repeat split; try apply Ha|done|].
    exists l'. cbn [when_]. rewrite bind_assert by (by rewrite Hfc). by rewrite Ht. }
  erewrite bind_run by exact Ht. destruct (ao_data _ _ Ha) as (bs & Hb & Hbl).
  destruct (ao_range _ _ Ha) as (H1 & H2 & H3). set (host := toHostAddr (p_addr pkt) x).
  assert (host = Z.to_nat (p_addr pkt - ar_start (am_range x))) as Hhost by done.
  unfold load_data. erewrite bind_run; cycle 1.
  { rewrite bind_gets. simpl. rewrite Hmem. unfold lift.
    rewrite (setData_run pkt bs) by (apply Ha || done || rewrite length_drop; lia). reflexivity. }
  unfold count_read. erewrite bind_run; cycle 1.
  { erewrite bind_run by (unfold lift; rewrite getSize_run by apply Ha; reflexivity). reflexivity. }
  eexists _, _. split; [reflexivity|]. split; [by split; simpl; eauto|]. split; [done|]. split; [done|]. split; [by destruct pkt|].
  split; [|split; [done|]]; cycle 1.
  { eexists. split; [reflexivity|]. rewrite length_take, length_drop. lia. }
  intros a Hca. rewrite (mem_byte_index x mem) by (done || unfold covers in Hca; lia).
  unfold byte_at. assert (covers (set_p_data (Some (take (length bs) (drop host mem))) pkt) a = true) as -> by done.
  simpl. unfold covers in Hca. rewrite lookup_take_lt, lookup_drop by lia. f_equal. lia.
Qed.

Lemma write_performs pkt x :
  mem_ok x -> access_ok pkt x -> plain_write (p_cmd pkt) = true ->
  let paddr := rq_paddr (p_req pkt) in let ok := granted pkt paddr x in
  exists x', perform pkt (toHostAddr (p_addr pkt) x) x = Ok (with_outcome ok pkt, x') /\ mem_ok x'
    /\ am_range x' = am_range x
    /\ (forall a, mem_byte x' a = if ok && writes_at pkt a then byte_at pkt a else mem_byte x a)
    /\ (forall c, reservation (lockedAddrList x') c
         = if ok && bool_decide (reservation (lockedAddrList x) c = Some (la_mask paddr))
           then None else reservation (lockedAddrList x) c).
Proof.
  intros Hx Ha Hc paddr ok. pose proof Hc as Hc0. unfold plain_write in Hc.
  rewrite !andb_true_iff, !negb_true_iff in Hc. destruct Hc as [[[Hw Hr] Hi] Hcl].
  assert (isInstFetch (p_req pkt) = false) as Hif.
  { destruct (ao_cmd _ _ Ha) as [E|[_ E]]; [|done]. unfold plain_read in E. by rewrite Hr in E. }
  unfold perform. rewrite bool_decide_eq_false_2 by (intros E; by rewrite E in Hr). rewrite Hr, Hi, Hcl, Hw. cbn [orb].
  pose proof Hx as [Hpl Hrg (mem & Hmem & Hlen) Hlk].
  destruct (writeOK_run pkt paddr x Hlk (ao_paddr _ _ Ha) eq_refl) as (l' & cl & Hok & Hw' & Hres);
    [by intros E; apply Ha|]. fold ok in Hok, Hres.
  erewrite bind_run by exact Hok. cbv beta iota. destruct ok; cycle 1.
  { eexists. split; [reflexivity|]. split; [by split; simpl; eauto|]. split; [done|]. split; [|done]. done. }
  set (pkt' := with_outcome true pkt).
  assert (p_data pkt' = p_data pkt /\ p_addr pkt' = p_addr pkt /\ p_size pkt' = p_size pkt
    /\ p_isSet VALID_SIZE pkt' = true /\ has_data_flag pkt' = true /\ isMaskedWrite pkt' = isMaskedWrite pkt
    /\ rq_byteEnable (p_req pkt') = rq_byteEnable (p_req pkt) /\ isInstFetch (p_req pkt') = false
    ) as (E1 & E2 & E3 & E4 & E5 & E6 & E7 & E8).
  { destruct Ha. subst pkt'. unfold with_outcome. by destruct (isLLSC (p_cmd pkt)). }
  destruct (ao_data _ _ Ha) as (bs & Hb & Hbl). destruct (ao_range _ _ Ha) as (H1 & H2 & H3).
  set (host := toHostAddr (p_addr pkt) x).
  assert (host = Z.to_nat (p_addr pkt - ar_start (am_range x))) as Hhost by done.
  destruct (writeData_run pkt' bs mem host) as (mem' & Hwd & Hl' & Hmi);
    [done|done|by rewrite E1|by rewrite E3|rewrite E6, E7, E3; apply Ha|lia|].
  cbn [when_]. unfold store_data. erewrite bind_run; cycle 1.
  { erewrite bind_run; cycle 1.
    { rewrite bind_gets. simpl. rewrite Hmem. erewrite bind_run by (unfold lift; rewrite Hwd; reflexivity). reflexivity. }
    rewrite bind_assert by (by rewrite E8). unfold count_write.
    erewrite bind_run by (unfold lift; rewrite getSize_run by done; reflexivity). reflexivity. }
  eexists. split; [reflexivity|]. set (x' := set_am_stats _ _). 
  split. { split; simpl; eauto. exists mem'. split; [done|lia]. }
  split; [done|]. split; [|done]. intros a. cbn [andb].
  destruct (Z.le_gt_cases (ar_start (am_range x)) a); cycle 1.
  { unfold mem_byte, writes_at, covers. simpl. rewrite (proj2 (Z.leb_gt _ _)) by lia.
    by rewrite (proj2 (Z.leb_gt (p_addr pkt) a)) by lia. }
  rewrite (mem_byte_index x mem) by done. rewrite (mem_byte_index x' mem') by (done || simpl; lia).
  change (am_range x') with (am_range x). rewrite Hmi, E6, E7. unfold writes_at, byte_at. rewrite Hb.
  destruct (covers pkt a) eqn:Hca; unfold covers in Hca; cycle 1.
  { by rewrite bool_decide_eq_false_2 by lia. }
  rewrite (bool_decide_eq_true_2 (host <= _ < _)%nat) by lia. simpl.
  by replace (Z.to_nat (a - ar_start (am_range x)) - host)%nat with (Z.to_nat (a - p_addr pkt)) by lia.
Qed.

(** What a client of the memory needs to know of an access. *)
Lemma clear_express_valid p : p_isSet VALID_ADDR (p_clear EXPRESS_SNOOP p) = p_isSet VALID_ADDR p.
Proof.
  unfold p_isSet, p_clear; simpl. unfold EventQ.fl_isSet, EventQ.fl_clear.
  assert (Z.land (Z.ldiff (p_flags p) EXPRESS_SNOOP) VALID_ADDR = Z.land (p_flags p) VALID_ADDR) as ->; [|done].
  apply Z.bits_inj'. intros i Hi. rewrite !Z.land_spec, Z.ldiff_spec.
  destruct (Z.testbit VALID_ADDR i) eqn:Hb; [|by rewrite !andb_false_r].
  change VALID_ADDR with (2 ^ 8) in Hb. rewrite Z.pow2_bits_eqb in Hb by lia. apply Z.eqb_eq in Hb as <-.
  by rewrite andb_true_r.
Qed.

Lemma access_frame pkt x :
  mem_ok x -> access_ok pkt x ->
  exists p' x', mem_access pkt x = Ok (p', x') /\ mem_ok x' /\ am_range x' = am_range x
    /\ p_cmd p' = (if needsResponse (p_cmd pkt) then responseCommand (p_cmd pkt) else p_cmd pkt)
    /\ p_isSet VALID_ADDR p' = true /\ p_addr p' = p_addr pkt /\ p_isSecure p' = p_isSecure pkt.
Proof.
  intros Hx Ha. assert (exists p' x', perform pkt (toHostAddr (p_addr pkt) x) x = Ok (p', x') /\ mem_ok x'
    /\ am_range x' = am_range x /\ p_cmd p' = p_cmd pkt /\ p_flags p' = p_flags pkt /\ p_addr p' = p_addr pkt
    /\ p_isSecure p' = p_isSecure pkt) as (p' & x' & Hp & Hx' & Hr & Hc & Hf & Had & Hs).
  { destruct (ao_cmd _ _ Ha) as [Hr|[Hw _]].
    - destruct (read_performs pkt x Hx Ha Hr) as (p' & x' & Hp & Hx' & Hrg & _ & Hd & _).
      exists p', x'. split; [exact Hp|]. by rewrite Hd.
    - destruct (write_performs pkt x Hx Ha Hw) as (x' & Hp & Hx' & Hrg & _).
      eexists _, x'. split; [exact Hp|]. unfold with_outcome. by destruct (isLLSC (p_cmd pkt)). }
  exists (responded p'), x'. split; [by apply mem_access_perform|]. split; [done|]. split; [done|].
  assert (p_isSet VALID_ADDR p' = true) as Hva by (unfold p_isSet; rewrite Hf; apply Ha).
  unfold responded. rewrite Hc. destruct (needsResponse (p_cmd pkt)); [|done].
  rewrite clear_express_valid. done.
Qed.

(** C17: a memory behaves as an array of bytes. Its range is not interleaved, it has
    a backing store, and the access is neither a swap, a WritebackClean nor one that
    a cache has promised to answer. A read or write that falls into the range
    succeeds, keeps the memory well-formed and is turned into its response. A read
    returns the bytes stored and changes none; a write changes exactly the bytes it
    covers and enables, unless it is a store-conditional that is refused, which
    changes none. *)
Theorem memory_access pkt x :
  mem_ok x -> access_ok pkt x ->
  exists p' x', mem_access pkt x = Ok (p', x') /\ mem_ok x'
    /\ p_cmd p' = (if needsResponse (p_cmd pkt) then responseCommand (p_cmd pkt) else p_cmd pkt)
    /\ (plain_read (p_cmd pkt) = true ->
          (forall a, mem_byte x' a = mem_byte x a)
          /\ forall a, covers pkt a = true -> byte_at p' a = mem_byte x a)
    /\ (plain_write (p_cmd pkt) = true ->
          forall a, mem_byte x' a
            = if granted pkt (rq_paddr (p_req pkt)) x && writes_at pkt a then byte_at pkt a else mem_byte x a).
Proof.
  intros Hx Ha. assert (plain_read (p_cmd pkt) = true -> plain_write (p_cmd pkt) = false) as Hex.
  { unfold plain_read, plain_write. destruct (isRead (p_cmd pkt)), (isWrite (p_cmd pkt)); done. }
  destruct (ao_cmd _ _ Ha) as [Hr|[Hw _]].
  - destruct (read_performs pkt x Hx Ha Hr) as (p' & x' & Hp & Hx' & _ & Hm & Hd & Hb & _).
    exists (responded p'), x'. split; [by apply mem_access_perform|]. split; [done|].
    assert (p_cmd p' = p_cmd pkt) as Hcmd by (by rewrite Hd). unfold responded. rewrite Hcmd.
    split; [by destruct (needsResponse (p_cmd pkt))|]. split; [|by rewrite Hex].
    intros _. split; [done|]. intros a Hca. rewrite <- (Hb a Hca). by destruct (needsResponse (p_cmd pkt)).
  - destruct (write_performs pkt x Hx Ha Hw) as (x' & Hp & Hx' & _ & Hm & _).
    eexists _, x'. split; [by apply mem_access_perform|]. split; [done|].
    assert (forall ok, p_cmd (with_outcome ok pkt) = p_cmd pkt) as Hcmd
      by (intros ok; unfold with_outcome; by destruct (isLLSC (p_cmd pkt))).
    unfold responded. rewrite Hcmd. split; [by destruct (needsResponse (p_cmd pkt))|]. split; [|done].
    intros Hr. by rewrite (Hex Hr) in Hw.
Qed.

(** C18: load-locked and store-conditional.  After an access the reservations
    are: a load-locked moves the reservation of its context to its block and
    touches no other; a write that takes effect drops every reservation of its
    block and no other; anything else changes none.  A store-conditional takes
    effect exactly when its context still holds its block, and the packet it
    leaves carries 1 or 0 accordingly. *)
Theorem memory_reservations pkt x :
  mem_ok x -> access_ok pkt x ->
  let block := la_mask (rq_paddr (p_req pkt)) in
  let cid := rq_contextId (p_req pkt) in
  let held c := reservation (lockedAddrList x) c in
  let ok := negb (isLLSC (p_cmd pkt)) || bool_decide (held cid = Some block) in
  exists p' x', mem_access pkt x = Ok (p', x')
    /\ (plain_read (p_cmd pkt) = true -> forall c, reservation (lockedAddrList x') c
          = if isLLSC (p_cmd pkt) && (c =? cid) then Some block else held c)
    /\ (plain_write (p_cmd pkt) = true ->
          (forall c, reservation (lockedAddrList x') c
             = if ok && bool_decide (held c = Some block) then None else held c)
          /\ (isLLSC (p_cmd pkt) = true -> getExtraData (p_req p') = Ok (if ok then 1 else 0))).
Proof.
  intros Hx Ha block cid held ok. assert (plain_read (p_cmd pkt) = true -> plain_write (p_cmd pkt) = false) as Hex.
  { unfold plain_read, plain_write. destruct (isRead (p_cmd pkt)), (isWrite (p_cmd pkt)); done. }
  destruct (ao_cmd _ _ Ha) as [Hr|[Hw _]].
  - destruct (read_performs pkt x Hx Ha Hr) as (p' & x' & Hp & _ & _ & _ & _ & _ & Hres & _).
    exists (responded p'), x'. split; [by apply mem_access_perform|]. split; [done|by rewrite Hex].
  - destruct (write_performs pkt x Hx Ha Hw) as (x' & Hp & _ & _ & _ & Hres).
    eexists _, x'. split; [by apply mem_access_perform|]. split; [intros Hr; by rewrite (Hex Hr) in Hw|].
    intros _. split; [done|]. intros Hl. unfold responded, with_outcome. rewrite Hl. simpl.
    assert (granted pkt (rq_paddr (p_req pkt)) x = ok) as -> by done.
    destruct (needsResponse (p_cmd pkt)); simpl; apply getExtraData_set.
Qed.

(** ** A memory of 64 bytes *)

Definition demo_mem (locks : list LockedAddr) : AbstractMemory :=
  mkMem (mkAddrRange 0x1000 0x1040 [] 0) (Some (replicate 64 0)) locks (mkMemStats ∅ ∅ ∅ ∅ ∅ ∅) [] true.
Definition demo_access (c : Command) (cid : Z) (bs : list Z) : Pkt :=
  set_p_req (setContext cid demo_req) (demo_pkt c bs).

Lemma demo_mem_ok locks : locks_wf locks -> mem_ok (demo_mem locks).
Proof. intros Hl. split; simpl; [done|lia|by eexists; split; [reflexivity|]|done]. Qed.
Lemma demo_access_ok c cid bs locks :
  c = LoadLockedReq \/ c = StoreCondReq \/ c = WriteReq \/ c = ReadReq -> length bs = 4%nat -> cid <> InvalidContextID ->
  access_ok (demo_access c cid bs) (demo_mem locks).
Proof.
  intros Hc Hb Hcid.
  assert (p_addr (demo_access c cid bs) = 0x1000 /\ p_size (demo_access c cid bs) = 4) as [E1 E2] by done.
  split; try done; try (by destruct Hc as [-> |[-> |[-> | ->]]]); rewrite ?E1, ?E2.
  - exists bs. split; [done|]. lia.
  - destruct Hc as [-> |[-> |[-> | ->]]]; auto.
Qed.

Lemma memory_access_witness :
  exists p' x', mem_access (demo_access WriteReq 1 [1; 2; 3; 4]) (demo_mem []) = Ok (p', x')
    /\ mem_byte x' 0x1002 = Some 3 /\ mem_byte x' 0x1004 = Some 0.
Proof.
  destruct (memory_access (demo_access WriteReq 1 [1; 2; 3; 4]) (demo_mem []))
    as (p' & x' & Hr & _ & _ & _ & Hw); [apply demo_mem_ok; split; constructor|apply demo_access_ok; [auto|done|done]|].
  exists p', x'. split; [exact Hr|]. rewrite !(Hw eq_refl). by vm_compute.
Defined.

Lemma memory_reservations_witness :
  exists p' x', mem_access (demo_access StoreCondReq 1 [1; 2; 3; 4]) (demo_mem [mkLocked 0x1000 2; mkLocked 0x1000 1])
      = Ok (p', x')
    /\ getExtraData (p_req p') = Ok 1 /\ reservation (lockedAddrList x') 2 = None.
Proof.
  destruct (memory_reservations (demo_access StoreCondReq 1 [1; 2; 3; 4]) (demo_mem [mkLocked 0x1000 2; mkLocked 0x1000 1]))
    as (p' & x' & Hr & _ & Hw).
  - apply demo_mem_ok. split; [repeat constructor; set_solver|repeat constructor; done].
  - apply demo_access_ok; [auto|done|done].
  - exists p', x'. split; [exact Hr|]. destruct (Hw eq_refl) as [Hres Hex]. rewrite Hex by reflexivity. rewrite Hres.
    by vm_compute.
Defined.

(** ** Stores the reservations do not see *)

(** The reservations of a written block are found by the first address of the
    request only: a store of more than 16 bytes leaves the reservations of the
    other blocks it overwrites, and a store-conditional to them succeeds. *)
Definition wide_store : Pkt :=
  p_set DYNAMIC_DATA (set_p_data (Some (replicate 32 7))
    (new_Pkt 1 (new_Request_phys 0 0x1000 32 0 3) WriteReq)).
Theorem wide_store_keeps_reservation :
  match mem_access wide_store (demo_mem [mkLocked 0x1010 1]) with
  | Ok (_, x') => mem_byte x' 0x1010 = Some 7 /\ reservation (lockedAddrList x') 1 = Some 0x1010
  | Err _ => False
  end.
Proof. by vm_compute. Qed.

(** A swap writes memory without looking at the reservations at all, although
    every store must clear the matching ones. *)
Definition demo_swap : Pkt := demo_access SwapReq 2 [9; 9; 9; 9].
Theorem swap_keeps_reservation :
  match mem_access demo_swap (demo_mem [mkLocked 0x1000 1]) with
  | Ok (_, x') => mem_byte x' 0x1000 = Some 9 /\ reservation (lockedAddrList x') 1 = Some 0x1000
  | Err _ => False
  end.
Proof. by vm_compute. Qed.
