(* ===== verification/SimpleMem.v ===== *)
(** * The simple memory (mem/simple_mem.hh, mem/simple_mem.cc)

    A memory with a fixed latency, an optional random part and a bandwidth
    limit: it is busy for a time that depends on the size of the request, and
    holds its responses until their time.  The busy time of a request is the
    product of its size and a [double]; it is a field of the model, a function
    of the size.  The random part of the latency and what the other side of the
    port does are arguments. *)

From S2P Require Import Prelude EventSched Drain Packet Request PacketData AbstractMem PacketQueue.

Inductive sm_event := SmRelease | SmDequeue.
#[global] Instance sm_event_eq_dec : EqDecision sm_event.
Proof. solve_decision. Defined.
#[global] Instance sm_event_countable : Countable sm_event.
Proof.
  refine (inj_countable' (fun e => match e with SmRelease => true | SmDequeue => false end)
    (fun b => if b then SmRelease else SmDequeue) _). by intros [].
Defined.

Record SimpleMemory := mkSM {
  sm_mem : AbstractMemory;
  sm_latency : Z; sm_latency_var : Z;
  sm_duration : Z -> Z;                (* ticks to receive this many bytes *)
  sm_queue : list DeferredPacket;      (* packetQueue *)
  sm_busy : bool; sm_retryReq : bool; sm_retryResp : bool;
  sm_pendingDelete : option Pkt;
  sm_drainState : DrainState;
  sm_sched : Sched sm_event;
  sm_responses : list (Z * Pkt * DeferredPacket);
    (* responses made, in order, with the tick and the request as it arrived *)
  sm_sent : list (Z * DeferredPacket)  (* responses taken, with the tick *)
}.
Abbreviation SM := (M SimpleMemory).

Definition set_sm_mem (m : AbstractMemory) (x : SimpleMemory) : SimpleMemory :=
  mkSM m (sm_latency x) (sm_latency_var x) (sm_duration x) (sm_queue x) (sm_busy x) (sm_retryReq x)
    (sm_retryResp x) (sm_pendingDelete x) (sm_drainState x) (sm_sched x) (sm_responses x) (sm_sent x).
Definition set_sm_queue (q : list DeferredPacket) (x : SimpleMemory) : SimpleMemory :=
  mkSM (sm_mem x) (sm_latency x) (sm_latency_var x) (sm_duration x) q (sm_busy x) (sm_retryReq x)
    (sm_retryResp x) (sm_pendingDelete x) (sm_drainState x) (sm_sched x) (sm_responses x) (sm_sent x).
Definition set_sm_flags (busy rreq rresp : bool) (x : SimpleMemory) : SimpleMemory :=
  mkSM (sm_mem x) (sm_latency x) (sm_latency_var x) (sm_duration x) (sm_queue x) busy rreq rresp
    (sm_pendingDelete x) (sm_drainState x) (sm_sched x) (sm_responses x) (sm_sent x).
Definition set_sm_pendingDelete (p : option Pkt) (x : SimpleMemory) : SimpleMemory :=
  mkSM (sm_mem x) (sm_latency x) (sm_latency_var x) (sm_duration x) (sm_queue x) (sm_busy x) (sm_retryReq x)
    (sm_retryResp x) p (sm_drainState x) (sm_sched x) (sm_responses x) (sm_sent x).
Definition set_sm_drainState (d : DrainState) (x : SimpleMemory) : SimpleMemory :=
  mkSM (sm_mem x) (sm_latency x) (sm_latency_var x) (sm_duration x) (sm_queue x) (sm_busy x) (sm_retryReq x)
    (sm_retryResp x) (sm_pendingDelete x) d (sm_sched x) (sm_responses x) (sm_sent x).
Definition set_sm_sched (s : Sched sm_event) (x : SimpleMemory) : SimpleMemory :=
  mkSM (sm_mem x) (sm_latency x) (sm_latency_var x) (sm_duration x) (sm_queue x) (sm_busy x) (sm_retryReq x)
    (sm_retryResp x) (sm_pendingDelete x) (sm_drainState x) s (sm_responses x) (sm_sent x).
Definition add_response (d : Z * Pkt * DeferredPacket) (x : SimpleMemory) : SimpleMemory :=
  mkSM (sm_mem x) (sm_latency x) (sm_latency_var x) (sm_duration x) (sm_queue x) (sm_busy x) (sm_retryReq x)
    (sm_retryResp x) (sm_pendingDelete x) (sm_drainState x) (sm_sched x) (sm_responses x ++ [d]) (sm_sent x).
Definition add_sent (t : Z) (d : DeferredPacket) (x : SimpleMemory) : SimpleMemory :=
  mkSM (sm_mem x) (sm_latency x) (sm_latency_var x) (sm_duration x) (sm_queue x) (sm_busy x) (sm_retryReq x)
    (sm_retryResp x) (sm_pendingDelete x) (sm_drainState x) (sm_sched x) (sm_responses x) (sm_sent x ++ [(t, d)]).

Definition sm_curTick (x : SimpleMemory) : Z := s_now (sm_sched x).
Definition sm_on_sched (m : M (Sched sm_event) unit) : SM unit := fun x =>
  match m (sm_sched x) with Ok (_, s) => Ok (tt, set_sm_sched s x) | Err e => Err e end.
Definition on_mem {R} (m : M AbstractMemory R) : SM R := fun x =>
  match m (sm_mem x) with Ok (r, y) => Ok (r, set_sm_mem y x) | Err e => Err e end.

Definition new_SimpleMemory (mem : AbstractMemory) (lat var : Z) (duration : Z -> Z) (now : Z) : SimpleMemory :=
  mkSM mem lat var duration [] false false false None Running (mkSched now ∅) [] [].

(** [getLatency]: [rnd] is the number drawn. *)
Definition sm_getLatency (rnd : Z) (x : SimpleMemory) : Z :=
  u64 (sm_latency x + if sm_latency_var x =? 0 then 0 else rnd).

Definition sm_recvAtomic (pkt : Pkt) (rnd : Z) : SM (Z * Pkt) :=
  panic_if (cacheResponding pkt) "Should not see packets where cache is responding";;
  pkt' ← on_mem (mem_access pkt);
  lat ← gets (sm_getLatency rnd);
  mret (lat, pkt').
Definition sm_recvAtomicBackdoor (pkt : Pkt) (rnd : Z) : SM (Z * Pkt * bool) :=
  '(lat, pkt') ← sm_recvAtomic pkt rnd;
  b ← gets (fun x => am_backdoor (sm_mem x));
  mret (lat, pkt', b).

(** [recvFunctional]: the memory, then the responses in flight. *)
Definition sm_recvFunctional (pkt : Pkt) : SM Pkt :=
  pkt' ← on_mem (functionalAccess pkt);
  q ← gets sm_queue;
  '(_, pkt'', q') ← lift (satisfy_in q pkt');
  modify (set_sm_queue q');;
  mret pkt''.

(** The insertion from the end, on the reversed queue: the search stops at the
    first packet of the queue, behind which the new one goes at the earliest.
    On an empty list the source decrements [end()]; a circular list arrives at
    [begin()], dereferences nothing and inserts the only element. *)
Fixpoint place_resp (d : DeferredPacket) (rl : list DeferredPacket) : res (list DeferredPacket) :=
  match rl with
  | [] => mret [d]
  | x :: rl' =>
      m ← (if negb (bool_decide (rl' = [])) && (dp_tick d <? dp_tick x)
           then b ← matchAddr (dp_pkt x) (dp_pkt d); mret (negb b) else mret false);
      if m : bool then l ← place_resp d rl'; mret (x :: l) else mret (d :: x :: rl')
  end.

(** [recvTimingReq]: [rnd1] is drawn by [recvAtomic] and not used, [rnd2] by
    the response. *)
Definition sm_recvTimingReq (pkt : Pkt) (rnd1 rnd2 : Z) : SM bool :=
  panic_if (cacheResponding pkt) "Should not see packets where cache is responding";;
  panic_if (negb (isRead (p_cmd pkt) || isWrite (p_cmd pkt)))
    "Should only see read and writes at memory controller";;
  rr ← gets sm_retryReq; busy ← gets sm_busy;
  if rr : bool then mret false
  else if busy : bool then
    modify (fun x => set_sm_flags (sm_busy x) true (sm_retryResp x) x);; mret false
  else
    let receive_delay := u32 (p_headerDelay pkt + p_payloadDelay pkt) in
    let pkt1 := set_p_payloadDelay 0 (set_p_headerDelay 0 pkt) in
    sz ← lift (getSize pkt1);
    duration ← gets (fun x => sm_duration x sz);
    now ← gets sm_curTick;
    when_ (negb (duration =? 0))
      (sm_on_sched (s_schedule SmRelease (u64 (now + duration)));;
       modify (fun x => set_sm_flags true (sm_retryReq x) (sm_retryResp x) x));;
    let needs := needsResponse (p_cmd pkt1) in
    '(_, pkt2) ← sm_recvAtomic pkt1 rnd1;
    (if needs : bool then
       assert_ (isResponse (p_cmd pkt2)) "pkt->isResponse()";;
       lat ← gets (sm_getLatency rnd2);
       let d := mkDP (u64 (now + receive_delay + lat)) pkt2 in
       q ← gets sm_queue;
       rl ← lift (place_resp d (rev q));
       modify (set_sm_queue (rev rl));;
       modify (add_response (now, pkt, d));;
       rresp ← gets sm_retryResp;
       sch ← gets (fun x => s_scheduled SmDequeue (sm_sched x));
       back ← gets (fun x => last (sm_queue x));
       match back with
       | Some b => when_ (negb rresp && negb sch) (sm_on_sched (s_schedule SmDequeue (dp_tick b)))
       | None => throw (EUndefined "back() of an empty list")
       end
     else modify (set_sm_pendingDelete (Some pkt2)));;
    mret true.

(** A peer sends requests with the numbers drawn for them. *)
Definition sm_requests (l : list (Pkt * Z * Z)) : SM unit :=
  forM_ l (fun p => sm_recvTimingReq p.1.1 p.1.2 p.2;; mret tt).

Definition sm_release (peer : list (Pkt * Z * Z)) : SM unit :=
  b ← gets sm_busy;
  assert_ b "isBusy";;
  modify (fun x => set_sm_flags false (sm_retryReq x) (sm_retryResp x) x);;
  r ← gets sm_retryReq;
  when_ r (modify (fun x => set_sm_flags (sm_busy x) false (sm_retryResp x) x);; sm_requests peer).

Definition sm_signalDrainDone : SM unit :=
  modify (fun x => if decide (sm_drainState x = Draining) then set_sm_drainState Drained x else x).

Definition sm_dequeue (accept : bool) (reent : list (Pkt * Z * Z)) : SM unit :=
  q ← gets sm_queue;
  match q with
  | [] => throw (EAssert "!packetQueue.empty()")
  | d :: _ =>
      sm_requests reent;;
      now ← gets sm_curTick;
      when_ accept (modify (add_sent now d));;
      modify (fun x => set_sm_flags (sm_busy x) (sm_retryReq x) (negb accept) x);;
      when_ accept
        (modify (fun x => set_sm_queue (tail (sm_queue x)) x);;
         q' ← gets sm_queue;
         match q' with
         | d' :: _ => sm_on_sched (s_reschedule SmDequeue (Z.max (dp_tick d') now) true)
         | [] =>
             ds ← gets sm_drainState;
             when_ (bool_decide (ds = Draining)) sm_signalDrainDone
         end)
  end.

Definition sm_recvRespRetry (accept : bool) (reent : list (Pkt * Z * Z)) : SM unit :=
  rr ← gets sm_retryResp;
  assert_ rr "retryResp";;
  sm_dequeue accept reent.

Definition sm_drain (x : SimpleMemory) : DrainState :=
  match sm_queue x with [] => Drained | _ => Draining end.

(** ** Steps of the system around one memory *)

Inductive sm_input :=
  | SReq (pkt : Pkt) (rnd1 rnd2 : Z)
  | SRelease (peer : list (Pkt * Z * Z))
  | SDequeue (accept : bool) (reent : list (Pkt * Z * Z))
  | SRespRetry (accept : bool) (reent : list (Pkt * Z * Z))
  | STime (t : Z).

(** The event [e], due at [t], fires. *)
Definition sm_fire (e : sm_event) (h : SM unit) : SM unit := fun x =>
  match s_pending (sm_sched x) !! e with
  | Some t =>
      if bool_decide (map_Forall (fun _ t' => t <= t') (s_pending (sm_sched x)))
      then h (set_sm_sched (s_service e t (sm_sched x)) x)
      else Err (EUndefined "not the next event")
  | None => Err (EUndefined "not scheduled")
  end.

Definition sm_step (i : sm_input) : SM unit :=
  match i with
  | SReq pkt r1 r2 => sm_recvTimingReq pkt r1 r2;; mret tt
  | SRelease peer => sm_fire SmRelease (sm_release peer)
  | SDequeue a r => sm_fire SmDequeue (sm_dequeue a r)
  | SRespRetry a r => sm_recvRespRetry a r
  | STime t => fun x =>
      if (sm_curTick x <=? t) && bool_decide (map_Forall (fun _ t' => t <= t') (s_pending (sm_sched x)))
      then Ok (tt, set_sm_sched (mkSched t (s_pending (sm_sched x))) x)
      else Err (EUndefined "time may not pass a pending event")
  end.
