(* ===== verification/SimpleMemProps.v ===== *)
(** * Properties of the simple memory

    Requests are served one at a time under the bandwidth limit, every response
    leaves once, not before its time, and in order for its address. *)

From S2P Require Import Prelude EventSched Drain Packet Request ByteSwap AddrRange PacketData PacketDataProps AbstractMem AbstractMemProps PacketQueue PacketQueueProps SimpleMem.

(** ** Placing a response *)

Lemma place_resp_spec d l :
  dp_valid d -> Forall dp_valid l ->
  exists l1 l2, l = l1 ++ l2 /\ place_resp d (rev l) = Ok (rev (l1 ++ d :: l2))
    /\ (l <> [] -> l1 <> []) /\ Forall (fun x => ahead true d x = false) l2.
Proof.
  intros Hd. induction l as [|x l IH] using rev_ind; intros Hl.
  { exists [], []. done. }
  apply Forall_app in Hl as [Hl [Hx _]%Forall_cons_1]. rewrite rev_app_distr. simpl.
  assert (bool_decide (rev l = []) = bool_decide (l = [])) as ->.
  { apply bool_decide_ext. split; [|by intros ->]. intros E. apply (f_equal (@rev _)) in E. by rewrite rev_involutive in E. }
  destruct (negb (bool_decide (l = [])) && (dp_tick d <? dp_tick x)) eqn:Hgo; cycle 1.
  { cbn [mbind res_bind mret res_ret]. exists (l ++ [x]), []. split; [by rewrite app_nil_r|].
    split; [by rewrite !rev_app_distr|]. split; [by destruct l|constructor]. }
  apply andb_true_iff in Hgo as [Hne Htick]. apply negb_true_iff, bool_decide_eq_false in Hne.
  rewrite matchAddr_run by done. cbn [mbind res_bind mret res_ret]. destruct (same_addr d x) eqn:Hsa; simpl.
  { exists (l ++ [x]), []. split; [by rewrite app_nil_r|]. split; [by rewrite !rev_app_distr|].
    split; [by destruct l|constructor]. }
  destruct (IH Hl) as (l1 & l2 & -> & Hp & H1 & H2). exists l1, (l2 ++ [x]). split; [by rewrite app_assoc|].
  rewrite Hp. cbn [mbind res_bind mret res_ret]. split.
  - f_equal. replace (l1 ++ d :: l2 ++ [x]) with ((l1 ++ d :: l2) ++ [x]) by (by rewrite <- app_assoc).
    by rewrite (rev_app_distr (l1 ++ d :: l2) [x]).
  - split; [auto|]. apply Forall_app. split; [done|]. constructor; [|done]. unfold ahead. rewrite Hsa. simpl. lia.
Qed.

(** ** The invariant *)

Definition sm_pending (e : sm_event) (x : SimpleMemory) : option Z := s_pending (sm_sched x) !! e.

Section Serving.

(** The latency the memory is configured with. *)
Variable lat : Z.

(** A response is due when its request has been received and the latency has
    passed. *)
Definition made_ok (m : Z * Pkt * DeferredPacket) : Prop :=
  m.1.1 + u32 (p_headerDelay m.1.2 + p_payloadDelay m.1.2) + lat <= dp_tick m.2.

(** What holds even while a response is being handed over. *)
Record sm_frame (x : SimpleMemory) : Prop := {
  sf_mem : mem_ok (sm_mem x);
  sf_now : 0 <= sm_curTick x;
  sf_wf : s_wf (sm_sched x);
  sf_busy : sm_busy x = s_scheduled SmRelease (sm_sched x);
  sf_retry : sm_retryReq x = true -> sm_busy x = true;
  sf_dps : Forall dp_valid (sm_queue x);
  sf_order : in_order true (map snd (sm_sent x)) (sm_queue x) (map snd (sm_responses x));
  sf_times : Forall (fun s => dp_tick s.2 <= s.1) (sm_sent x);
  sf_lat : sm_latency x = lat;
  sf_made : Forall made_ok (sm_responses x)
}.

(** The next response: it waits for the peer, or for an event that is not
    before its time. *)
Definition sm_live (x : SimpleMemory) : Prop :=
  if sm_retryResp x then
    sm_pending SmDequeue x = None /\ match sm_queue x with d :: _ => dp_tick d <= sm_curTick x | [] => False end
  else match sm_queue x with
       | [] => sm_pending SmDequeue x = None
       | d :: _ => exists t, sm_pending SmDequeue x = Some t /\ dp_tick d <= t
       end.

Record sm_inv (x : SimpleMemory) : Prop := { si_frame : sm_frame x; si_live : sm_live x }.

(** A request as the protocol allows it; its times do not wrap. *)
Definition may_request (p : Pkt * Z * Z) (x : SimpleMemory) : Prop :=
  access_ok p.1.1 (sm_mem x) /\ 0 <= sm_duration x (p_size p.1.1)
  /\ 0 <= p_headerDelay p.1.1 /\ 0 <= p_payloadDelay p.1.1
  /\ 0 <= sm_latency x /\ 0 <= p.2
  /\ sm_curTick x + sm_duration x (p_size p.1.1) < 2 ^ 63
  /\ sm_curTick x + p_headerDelay p.1.1 + p_payloadDelay p.1.1 + sm_latency x + p.2 < 2 ^ 63.

(** Nothing was queued, or something was. *)
Definition queued_or_same (x x' : SimpleMemory) : Prop :=
  (sm_queue x' = sm_queue x /\ sm_pending SmDequeue x' = sm_pending SmDequeue x)
  \/ (length (sm_queue x) < length (sm_queue x'))%nat.

(** The fields a request leaves alone. *)
Definition same_config (x x' : SimpleMemory) : Prop :=
  sm_curTick x' = sm_curTick x /\ sm_latency x' = sm_latency x /\ sm_duration x' = sm_duration x
  /\ am_range (sm_mem x') = am_range (sm_mem x) /\ sm_retryResp x' = sm_retryResp x /\ sm_sent x' = sm_sent x.

Lemma access_ok_range pkt x x' : am_range x' = am_range x -> access_ok pkt x -> access_ok pkt x'.
Proof. intros E []. split; rewrite ?E; done. Qed.

Lemma may_request_config p x x' : same_config x x' -> may_request p x -> may_request p x'.
Proof.
  intros (H1 & H2 & H3 & H4 & _) (Ha & Hr). split; [by eapply access_ok_range|]. by rewrite H1, H2, H3.
Qed.

Lemma access_ok_headers pkt m :
  access_ok pkt m -> access_ok (set_p_payloadDelay 0 (set_p_headerDelay 0 pkt)) m.
Proof. intros []. by split. Qed.

Lemma response_is_response c : needsResponse c = true -> isResponse (responseCommand c) = true.
Proof. by destruct c. Qed.

(** Going busy. *)
Lemma release_scheduled x t :
  sm_frame x -> sm_busy x = false -> sm_curTick x <= t ->
  exists x', (sm_on_sched (s_schedule SmRelease t);;
      modify (fun x => set_sm_flags true (sm_retryReq x) (sm_retryResp x) x)) x = Ok (tt, x')
    /\ sm_frame x' /\ same_config x x' /\ sm_queue x' = sm_queue x /\ sm_responses x' = sm_responses x
    /\ sm_mem x' = sm_mem x /\ sm_pending SmDequeue x' = sm_pending SmDequeue x.
Proof.
  intros [Hm Hn Hw Hb Hr Hd Ho Ht Hlat Hmade] Hbusy Hle. eexists. split.
  { erewrite bind_run; [reflexivity|]. unfold sm_on_sched. rewrite s_schedule_fresh; [reflexivity|done|congruence]. }
  split; [|by repeat split; unfold sm_pending; simpl; rewrite ?lookup_insert_ne by done].
  split; simpl; try done.
  - unfold s_wf; simpl. apply map_Forall_insert_2; [done|exact Hw].
  - rewrite s_scheduled_insert. by rewrite bool_decide_eq_true_2.
Qed.

(** The access itself. *)
Lemma recvAtomic_run pkt rnd x :
  sm_frame x -> access_ok pkt (sm_mem x) ->
  exists p' m', sm_recvAtomic pkt rnd x = Ok ((sm_getLatency rnd x, p'), set_sm_mem m' x)
    /\ sm_frame (set_sm_mem m' x) /\ am_range m' = am_range (sm_mem x)
    /\ p_cmd p' = (if needsResponse (p_cmd pkt) then responseCommand (p_cmd pkt) else p_cmd pkt)
    /\ p_isSet VALID_ADDR p' = true.
Proof.
  intros [Hm Hn Hw Hb Hr Hd Ho Ht Hlat Hmade] Ha. unfold sm_recvAtomic. rewrite bind_panic_if by apply Ha.
  destruct (access_frame pkt (sm_mem x) Hm Ha) as (p' & m' & Hrun & Hm' & Hrg & Hc & Hv & _).
  exists p', m'. split; [|split; [by split|done]].
  erewrite bind_run by (unfold on_mem; rewrite Hrun; reflexivity). done.
Qed.

(** Queueing a response and scheduling it if it is the next one. *)
Definition respond (now : Z) (pkt : Pkt) (d : DeferredPacket) : SM unit :=
  q ← gets sm_queue;
  rl ← lift (place_resp d (rev q));
  modify (set_sm_queue (rev rl));;
  modify (add_response (now, pkt, d));;
  rresp ← gets sm_retryResp;
  sch ← gets (fun x => s_scheduled SmDequeue (sm_sched x));
  back ← gets (fun x => last (sm_queue x));
  match back with
  | Some b => when_ (negb rresp && negb sch) (sm_on_sched (s_schedule SmDequeue (dp_tick b)))
  | None => throw (EUndefined "back() of an empty list")
  end.

Lemma pending_scheduled e x : s_scheduled e (sm_sched x) = bool_decide (is_Some (sm_pending e x)).
Proof. done. Qed.

Lemma sm_respond_run now pkt d x :
  sm_frame x -> dp_valid d -> sm_curTick x <= dp_tick d -> made_ok (now, pkt, d) ->
  exists x', respond now pkt d x = Ok (tt, x') /\ sm_frame x' /\ same_config x x' /\ (sm_live x -> sm_live x')
    /\ (sm_queue x <> [] -> head (sm_queue x') = head (sm_queue x))
    /\ (length (sm_queue x) < length (sm_queue x'))%nat.
Proof.
  intros [Hm Hn Hw Hb Hr Hd Ho Ht Hlat Hmade] Hv Hle Hok. unfold respond. rewrite bind_gets.
  destruct (place_resp_spec d (sm_queue x) Hv Hd) as (l1 & l2 & Hq & Hp & H1 & H2).
  erewrite bind_run by (unfold lift; rewrite Hp; reflexivity). rewrite !bind_modify, rev_involutive, !bind_gets.
  set (x1 := add_response _ _).
  assert (sm_frame x1) as Hf1.
  { subst x1. split; simpl; try done.
    - rewrite Hq in Hd. apply Forall_app in Hd as [? ?]. apply Forall_app. split; [done|by constructor].
    - rewrite Hq in Ho. rewrite map_app. by apply in_order_insert.
    - apply Forall_app. split; [done|by constructor]. }
  assert (sm_queue x <> [] -> head (l1 ++ d :: l2) = head (sm_queue x)) as Hhead.
  { intros Hne. specialize (H1 Hne). rewrite Hq. by destruct l1. }
  assert (length (sm_queue x) < length (l1 ++ d :: l2))%nat as Hlen
    by (rewrite Hq, !length_app; simpl; lia).
  assert (exists b, last (l1 ++ d :: l2) = Some b /\ dp_tick d <= dp_tick b) as (b & Hlast & Hbt).
  { destruct (last l2) as [b|] eqn:E.
    - exists b. apply last_Some in E as [l3 ->]. split; [by rewrite app_comm_cons, app_assoc, last_snoc|].
      apply Forall_app in H2 as [_ [Hx _]%Forall_cons_1]. unfold ahead in Hx. lia.
    - apply last_None in E as ->. exists d. by rewrite last_snoc. }
  change (sm_queue x1) with (l1 ++ d :: l2). rewrite Hlast. change (sm_retryResp x1) with (sm_retryResp x).
  destruct (sm_retryResp x) eqn:Hrr.
  { exists x1. split; [done|]. split; [done|]. split; [by repeat split|]. split; [|done].
    unfold sm_live. simpl. rewrite Hrr. intros [? Hh]. split; [done|].
    destruct (sm_queue x) as [|y q]; [done|]. specialize (Hhead ltac:(done)). by destruct (l1 ++ d :: l2); simplify_eq/=. }
  rewrite pending_scheduled. cbn [negb andb].
  change (sm_pending SmDequeue x1) with (sm_pending SmDequeue x).
  destruct (sm_pending SmDequeue x) as [t|] eqn:Hpd.
  { rewrite bool_decide_eq_true_2 by eauto. exists x1. split; [done|]. split; [done|]. split; [by repeat split|].
    split; [|done]. unfold sm_live. simpl. rewrite Hrr. intros Hl. destruct (sm_queue x) as [|y q]; [congruence|].
    specialize (Hhead ltac:(done)). by destruct (l1 ++ d :: l2); simplify_eq/=. }
  rewrite bool_decide_eq_false_2 by (by intros [? ?]). cbn [negb when_].
  unfold sm_on_sched. rewrite s_schedule_fresh; [|simpl; unfold sm_curTick in *; lia|].
  2:{ rewrite pending_scheduled. change (sm_pending SmDequeue x1) with (sm_pending SmDequeue x). by rewrite Hpd. }
  eexists. split; [reflexivity|]. split; [|split; [by repeat split|split; [|done]]].
  - destruct Hf1. split; simpl; try done.
    + unfold s_wf; simpl. apply map_Forall_insert_2; [unfold sm_curTick in *; lia|exact Hw].
    + rewrite s_scheduled_insert. by rewrite bool_decide_eq_false_2.
  - unfold sm_live. simpl. rewrite Hrr. destruct (sm_queue x) as [|y q] eqn:Eq; [|by intros (t & ? & _); congruence].
    intros _. destruct l1; [|done]. destruct l2; [|done]. simpl in *. exists (dp_tick d). simplify_eq.
    split; [|lia]. unfold sm_pending; simpl. by rewrite lookup_insert_eq.
Qed.

(** ** A request *)

Lemma request_run p x :
  sm_frame x -> may_request p x ->
  exists b x', sm_recvTimingReq p.1.1 p.1.2 p.2 x = Ok (b, x') /\ sm_frame x' /\ same_config x x'
    /\ (sm_live x -> sm_live x') /\ (sm_queue x <> [] -> head (sm_queue x') = head (sm_queue x))
    /\ queued_or_same x x'.
Proof.
  destruct p as [[pkt r1] r2]. cbn [fst snd]. intros Hf (Ha & Hdu & Hh & Hpd & Hl0 & Hr2 & Hbd & Hbt). cbn [fst snd] in *.
  unfold sm_recvTimingReq. rewrite bind_panic_if by apply Ha. rewrite bind_panic_if.
  2:{ destruct (ao_cmd _ _ Ha) as [Hc|[Hc _]]; unfold plain_read, plain_write in Hc;
        destruct (isRead _), (isWrite _); done. }
  rewrite !bind_gets. destruct (sm_retryReq x) eqn:Hrq.
  { exists false, x. do 2 (split; [done|]). split; [by repeat split|]. do 2 (split; [done|]). by left. }
  destruct (sm_busy x) eqn:Hbz.
  { eexists _, _. split; [reflexivity|]. split; [by destruct Hf; split|]. split; [by repeat split|].
    do 2 (split; [done|]). by left. }
  set (pkt1 := set_p_payloadDelay 0 (set_p_headerDelay 0 pkt)).
  assert (access_ok pkt1 (sm_mem x)) as Ha1 by (by apply access_ok_headers).
  erewrite bind_run by (unfold lift; rewrite getSize_run by apply Ha1; reflexivity). rewrite !bind_gets.
  change (p_size pkt1) with (p_size pkt). set (dur := sm_duration x (p_size pkt)) in *.
  assert (exists x1, when_ (negb (dur =? 0)) (sm_on_sched (s_schedule SmRelease (u64 (sm_curTick x + dur)));;
      modify (fun x => set_sm_flags true (sm_retryReq x) (sm_retryResp x) x)) x = Ok (tt, x1)
    /\ sm_frame x1 /\ same_config x x1 /\ sm_queue x1 = sm_queue x /\ sm_responses x1 = sm_responses x
    /\ sm_mem x1 = sm_mem x /\ sm_pending SmDequeue x1 = sm_pending SmDequeue x)
    as (x1 & Hrun1 & Hf1 & Hc1 & Hq1 & _ & Hm1 & Hp1).
  { pose proof (sf_now _ Hf). destruct (dur =? 0) eqn:E; cbn [negb when_]; [by exists x|].
    apply release_scheduled; [done|done|]. rewrite u64_small; lia. }
  erewrite bind_run by exact Hrun1. destruct Hc1 as (Hn1 & Hl1 & Hd1 & Hr1 & Hrr1 & Hs1).
  destruct (recvAtomic_run pkt1 r1 x1) as (p2 & m2 & Hrun2 & Hf2 & Hr2' & Hcmd & Hva); [done|by rewrite Hm1|].
  erewrite bind_run by exact Hrun2. cbv beta iota. set (x2 := set_sm_mem m2 x1) in *.
  assert (same_config x x2) as Hc2.
  { split; [exact Hn1|]. split; [exact Hl1|]. split; [exact Hd1|]. split; [|by split].
    simpl. by rewrite Hr2'. }
  assert (sm_live x -> sm_live x2) as Hlv2.
  { unfold sm_live. subst x2. simpl. rewrite Hrr1, Hq1.
    change (sm_pending SmDequeue (set_sm_mem m2 x1)) with (sm_pending SmDequeue x1). rewrite Hp1.
    change (sm_curTick (set_sm_mem m2 x1)) with (sm_curTick x1). by rewrite Hn1. }
  change (p_cmd pkt1) with (p_cmd pkt) in *. destruct (needsResponse (p_cmd pkt)) eqn:Hnr; cycle 1.
  { eexists true, _. split; [reflexivity|]. split; [by destruct Hf2; split|]. split; [by destruct Hc2|].
    split; [exact Hlv2|]. split; [simpl; by rewrite Hq1|]. left. split; [exact Hq1|exact Hp1]. }
  rewrite bind_assoc, bind_assert by (rewrite Hcmd; by apply response_is_response).
  rewrite bind_assoc, bind_gets.
  set (d := mkDP _ p2). fold (respond (sm_curTick x) pkt d).
  assert (sm_curTick x + u32 (p_headerDelay pkt + p_payloadDelay pkt) + sm_latency x <= dp_tick d) as Hwhen.
  { subst d. simpl. unfold sm_getLatency. change (sm_latency x2) with (sm_latency x1). rewrite Hl1.
    pose proof (sf_now _ Hf).
    pose proof (wrap_bound 32 (p_headerDelay pkt + p_payloadDelay pkt) ltac:(lia)) as Hw1.
    assert (wrap 32 (p_headerDelay pkt + p_payloadDelay pkt) <= p_headerDelay pkt + p_payloadDelay pkt) as Hw2
      by (apply Z.mod_le; lia).
    unfold u32. rewrite (u64_small (sm_latency x + _)) by (case_match; lia).
    rewrite u64_small by (case_match; lia). case_match; lia. }
  destruct (sm_respond_run (sm_curTick x) pkt d x2) as (x3 & Hrun3 & Hf3 & Hc3 & Hlv3 & Hh3 & Hlen3); [done|done| | |].
  { destruct Hc2 as (-> & _). pose proof (wrap_bound 32 (p_headerDelay pkt + p_payloadDelay pkt) ltac:(lia)).
    unfold u32 in Hwhen. lia. }
  { unfold made_ok; simpl. by rewrite <- (sf_lat _ Hf). }
  erewrite bind_run by exact Hrun3. exists true, x3. split; [done|]. split; [done|].
  split; [|split; [by auto|split; [intros Hne; rewrite Hh3 by (simpl; by rewrite Hq1); simpl; by rewrite Hq1|]]].
  2:{ right. simpl in Hlen3. by rewrite Hq1 in Hlen3. }
  destruct Hc2 as (A1 & A2 & A3 & A4 & A5 & A6), Hc3 as (B1 & B2 & B3 & B4 & B5 & B6).
  repeat split; congruence.
Qed.

(** Several requests from inside a call of the peer. *)
Lemma requests_run l x :
  sm_frame x -> Forall (fun p => may_request p x) l ->
  exists x', sm_requests l x = Ok (tt, x') /\ sm_frame x' /\ same_config x x' /\ (sm_live x -> sm_live x')
    /\ (sm_queue x <> [] -> head (sm_queue x') = head (sm_queue x)) /\ queued_or_same x x'.
Proof.
  intros Hf. revert x Hf. induction l as [|p l IH]; intros x Hf Hl; unfold sm_requests in *; simpl.
  { exists x. do 2 (split; [done|]). split; [by repeat split|]. do 2 (split; [done|]). by left. }
  apply Forall_cons_1 in Hl as [Hp Hl].
  destruct (request_run p x Hf Hp) as (b & x1 & Hr & Hf1 & Hc1 & Hlv1 & Hh1 & Hg1).
  erewrite bind_run by (erewrite bind_run by exact Hr; reflexivity).
  destruct (IH x1 Hf1) as (x2 & Hr2 & Hf2 & Hc2 & Hlv2 & Hh2 & Hg2).
  { eapply Forall_impl; [exact Hl|]. intros q. by apply may_request_config. }
  exists x2. split; [exact Hr2|]. split; [done|].
  split; [|split; [by auto|split]].
  - destruct Hc1 as (A1 & A2 & A3 & A4 & A5 & A6), Hc2 as (B1 & B2 & B3 & B4 & B5 & B6). repeat split; congruence.
  - intros Hne. rewrite Hh2, Hh1; [done|done|]. specialize (Hh1 Hne). destruct (sm_queue x); [done|].
    by destruct (sm_queue x1).
  - destruct Hg1 as [[E1 E2]|], Hg2 as [[E3 E4]|]; [left; split; congruence| | |]; right; congruence || lia.
Qed.

(** ** Handing over a response *)

Definition may_take (accept : bool) (reent : list (Pkt * Z * Z)) (x : SimpleMemory) : Prop :=
  (reent <> [] -> accept = true) /\ Forall (fun p => may_request p x) reent.

(** The response at the front is due and no event is scheduled for it. *)
Definition sm_due (x : SimpleMemory) : Prop :=
  sm_pending SmDequeue x = None /\ match sm_queue x with d :: _ => dp_tick d <= sm_curTick x | [] => False end.

Lemma dequeue_run accept reent x :
  sm_frame x -> sm_due x -> may_take accept reent x ->
  exists x', sm_dequeue accept reent x = Ok (tt, x') /\ sm_inv x'.
Proof.
  intros Hf [Hp Hdue] [Hacc Hre]. unfold sm_dequeue. rewrite bind_gets.
  destruct (sm_queue x) as [|d q] eqn:Hq; [done|].
  destruct (requests_run reent x Hf Hre) as (x1 & Hr1 & Hf1 & Hc1 & _ & Hh1 & Hg1).
  erewrite bind_run by exact Hr1. rewrite bind_gets. specialize (Hh1 ltac:(congruence)). rewrite Hq in Hh1.
  destruct (sm_queue x1) as [|d1 q1] eqn:Hq1; [done|]. simplify_eq/=.
  destruct Hc1 as (Hn1 & _ & _ & _ & _ & Hs1). pose proof Hf1 as [Hm Hn Hw Hb Hr Hd Ho Ht Hlat Hmade].
  destruct accept; cycle 1.
  { (* refused *)
    destruct reent; [|by discriminate Hacc]. injection Hr1 as <-. simpl.
    eexists. split; [reflexivity|]. split; [by destruct Hf; split|]. unfold sm_live; simpl. by rewrite Hq. }
  cbn [when_ negb]. rewrite !bind_modify. rewrite bind_gets.
  set (x2 := set_sm_queue _ _).
  assert (sm_queue x2 = q1) as Hq2 by (subst x2; simpl; by rewrite Hq1).
  assert (sm_frame x2) as Hf2.
  { subst x2. split; simpl; try done.
    - rewrite Hq1 in *. simpl. by apply Forall_cons_1 in Hd as [_ ?].
    - rewrite Hq1 in *. rewrite map_app. simpl. by apply in_order_shift.
    - apply Forall_app. split; [done|]. constructor; [|done]. simpl. lia. }
  rewrite Hq2. destruct q1 as [|d2 q1].
  - rewrite bind_gets. assert (exists ds, when_ (bool_decide (sm_drainState x2 = Draining)) sm_signalDrainDone x2
      = Ok (tt, set_sm_drainState ds x2)) as [ds Hds].
    { unfold sm_signalDrainDone. case_bool_decide as E; simpl; [unfold modify; rewrite decide_True by done; eauto|].
      exists (sm_drainState x2). by destruct x2. }
    eexists. split; [exact Hds|]. split; [by destruct Hf2; split|].
    unfold sm_live; simpl. rewrite Hq1. destruct Hg1 as [[_ E]|Hlen]; [by rewrite Hp in E|].
    rewrite Hq, Hq1 in Hlen. simpl in Hlen. lia.
  - unfold sm_on_sched. rewrite s_reschedule_always by (subst x2; unfold sm_curTick; simpl; lia).
    eexists. split; [reflexivity|]. split.
    + destruct Hf2. split; simpl; try done; simpl in *.
      * unfold s_wf; simpl. apply map_Forall_insert_2; [unfold sm_curTick; simpl; lia|exact Hw].
      * rewrite s_scheduled_insert. by rewrite bool_decide_eq_false_2.
    + unfold sm_live; simpl. rewrite Hq1. simpl. eexists. unfold sm_pending; simpl. rewrite lookup_insert_eq.
      split; [done|]. lia.
Qed.

(** ** Steps *)

(** The event [e] is the next one of this memory, due at [t]. *)
Definition sm_next (e : sm_event) (t : Z) (x : SimpleMemory) : Prop := s_due e t (sm_sched x).

Definition sm_allowed (i : sm_input) (x : SimpleMemory) : Prop :=
  match i with
  | SReq pkt r1 r2 => may_request (pkt, r1, r2) x
  | SRelease peer => exists t, sm_next SmRelease t x
      /\ Forall (fun p => may_request p (set_sm_sched (s_service SmRelease t (sm_sched x)) x)) peer
  | SDequeue accept reent => exists t, sm_next SmDequeue t x
      /\ may_take accept reent (set_sm_sched (s_service SmDequeue t (sm_sched x)) x)
  | SRespRetry accept reent => sm_retryResp x = true /\ may_take accept reent x
  | STime t => sm_curTick x <= t /\ forall e t', sm_pending e x = Some t' -> t <= t'
  end.

(** Servicing the other event. *)
Lemma service_frame e t x :
  sm_frame x -> sm_next e t x -> sm_curTick x <= t ->
  s_wf (s_service e t (sm_sched x)) /\ 0 <= t.
Proof. intros Hf Hd Ht. split; [by apply s_service_wf|]. pose proof (sf_now _ Hf). lia. Qed.

Lemma next_time e t x : sm_frame x -> sm_next e t x -> sm_curTick x <= t.
Proof. intros Hf [Hp _]. apply (sf_wf _ Hf _ _ Hp). Qed.

Lemma live_later x s :
  sm_live x -> sm_curTick x <= s_now s -> s_pending s !! SmDequeue = sm_pending SmDequeue x ->
  sm_live (set_sm_sched s x).
Proof.
  unfold sm_live; simpl. intros Hl Hle Hp. unfold sm_pending at 1 3; simpl.
  destruct (sm_retryResp x); destruct (sm_queue x); unfold sm_pending in *; simpl in *; rewrite Hp in *; try done.
  destruct Hl. split; [done|]. unfold sm_curTick in *. simpl. lia.
Qed.

Lemma release_inv peer t x :
  sm_inv x -> sm_next SmRelease t x ->
  Forall (fun p => may_request p (set_sm_sched (s_service SmRelease t (sm_sched x)) x)) peer ->
  exists x', sm_step (SRelease peer) x = Ok (tt, x') /\ sm_inv x'.
Proof.
  intros [Hf Hl] Hnx Hp. pose proof (next_time _ _ _ Hf Hnx) as Hle. pose proof Hnx as [Hpd Hall].
  destruct (service_frame _ _ _ Hf Hnx Hle) as [Hwf H0].
  simpl. unfold sm_fire. rewrite Hpd, bool_decide_eq_true_2 by done.
  set (x0 := set_sm_sched _ x) in *. unfold sm_release. rewrite bind_gets.
  assert (sm_busy x = true) as Hb.
  { rewrite (sf_busy _ Hf). by apply (s_due_scheduled _ t). }
  rewrite bind_assert by done. rewrite bind_modify, bind_gets.
  assert (sm_live x0) as Hl0.
  { apply live_later; [done|done|]. simpl. by rewrite lookup_delete_ne. }
  assert (forall rr, (rr = true -> False) -> sm_frame (set_sm_flags false rr (sm_retryResp x0) x0)) as Hfr.
  { intros rr Hrr. destruct Hf. split; simpl; try done.
    rewrite s_service_scheduled. by rewrite bool_decide_eq_true_2. }
  destruct (sm_retryReq x) eqn:Hrq; cbn [sm_retryReq set_sm_flags x0 set_sm_sched].
  - change (sm_retryReq (set_sm_flags false (sm_retryReq x0) (sm_retryResp x0) x0)) with (sm_retryReq x).
    rewrite Hrq. cbn [when_]. rewrite bind_modify.
    destruct (requests_run peer (set_sm_flags false false (sm_retryResp x0) x0)) as (x' & Hr & Hf' & _ & Hl' & _).
    + by apply Hfr.
    + eapply Forall_impl; [exact Hp|]. intros p. apply may_request_config. by repeat split.
    + exists x'. split; [exact Hr|]. split; [done|]. by apply Hl'.
  - change (sm_retryReq (set_sm_flags false (sm_retryReq x0) (sm_retryResp x0) x0)) with (sm_retryReq x).
    rewrite Hrq. eexists. split; [reflexivity|]. split; [|done]. apply Hfr. intros E. simpl in E. congruence.
Qed.

Lemma sm_step_inv i x : sm_inv x -> sm_allowed i x -> exists x', sm_step i x = Ok (tt, x') /\ sm_inv x'.
Proof.
  intros Hi Ha. pose proof Hi as [Hf Hl]. destruct i as [pkt r1 r2|peer|accept reent|accept reent|t]; simpl sm_allowed in Ha.
  - destruct (request_run (pkt, r1, r2) x Hf Ha) as (b & x' & Hr & Hf' & _ & Hl' & _). exists x'.
    simpl in *. split; [by erewrite bind_run by exact Hr|]. split; auto.
  - destruct Ha as (t & Hn & Hp). by eapply release_inv.
  - destruct Ha as (t & Hn & Ht). pose proof (next_time _ _ _ Hf Hn) as Hle. pose proof Hn as [Hpd Hall].
    destruct (service_frame _ _ _ Hf Hn Hle) as [Hwf H0].
    simpl. unfold sm_fire. rewrite Hpd, bool_decide_eq_true_2 by done.
    apply dequeue_run; [| |done].
    + destruct Hf. split; simpl; try done. rewrite s_service_scheduled. by rewrite bool_decide_eq_false_2.
    + unfold sm_due, sm_pending; simpl. rewrite lookup_delete_eq. split; [done|]. unfold sm_live in Hl.
      unfold sm_pending in Hl. rewrite Hpd in Hl. destruct (sm_retryResp x); [by destruct Hl|].
      destruct (sm_queue x); [done|]. destruct Hl as (t' & [= <-] & Hd). done.
  - destruct Ha as [Hrr Hm]. simpl. unfold sm_recvRespRetry. rewrite bind_gets, bind_assert by done.
    apply dequeue_run; [done| |done]. unfold sm_live in Hl. by rewrite Hrr in Hl.
  - destruct Ha as [Hle Hall]. simpl. rewrite (proj2 (Z.leb_le _ _)) by done.
    rewrite bool_decide_eq_true_2 by (intros e t' He; by apply (Hall e)). eexists. split; [reflexivity|]. split.
    + pose proof (sf_now _ Hf). destruct Hf. split; simpl; try done; try (unfold sm_curTick in *; simpl in *; lia).
    + by apply live_later.
Qed.

End Serving.

Inductive sm_reachable (x0 : SimpleMemory) : SimpleMemory -> Prop :=
  | sm_start : sm_reachable x0 x0
  | sm_then i x x' : sm_reachable x0 x -> sm_allowed i x -> sm_step i x = Ok (tt, x') -> sm_reachable x0 x'.

Lemma sm_new_inv mem lat var dur now : mem_ok mem -> 0 <= now -> sm_inv lat (new_SimpleMemory mem lat var dur now).
Proof.
  intros Hm Hn. split; [|done]. split; simpl; try done; try apply map_Forall_empty; by repeat split.
Qed.

Lemma sm_reachable_inv mem lat var dur now x :
  mem_ok mem -> 0 <= now -> sm_reachable (new_SimpleMemory mem lat var dur now) x -> sm_inv lat x.
Proof.
  intros Hm Hn. induction 1 as [|i x x' _ IH Ha Hs]; [by apply sm_new_inv|].
  destruct (sm_step_inv lat i x IH Ha) as (x2 & Hr & Hi). congruence.
Qed.

(** ** Two reads and the bandwidth limit *)

Definition demo_sm0 : SimpleMemory :=
  new_SimpleMemory (demo_mem []) 30 0 (fun sz => 5 * sz) 0.
Definition demo_load : Pkt := demo_access ReadReq 1 [0; 0; 0; 0].
Definition sm_after (i : sm_input) (x : SimpleMemory) : SimpleMemory :=
  match sm_step i x with Ok (_, x') => x' | Err _ => x end.
Definition demo_sm1 : SimpleMemory := sm_after (SReq demo_load 0 0) demo_sm0.
Definition demo_sm2 : SimpleMemory := sm_after (SReq demo_load 0 0) demo_sm1.

Lemma demo_load_ok m : am_range m = am_range (demo_mem []) -> access_ok demo_load m.
Proof. intros E. apply (access_ok_range _ (demo_mem [])); [done|]. by apply demo_access_ok; auto. Qed.

Lemma demo_sm2_reachable : sm_reachable demo_sm0 demo_sm2.
Proof.
  assert (forall x, am_range (sm_mem x) = am_range (demo_mem []) -> sm_curTick x = 0 -> sm_latency x = 30 ->
    sm_duration x = (fun sz => 5 * sz) -> may_request (demo_load, 0, 0) x) as Hreq.
  { intros x Hr Hn Hl Hd. split; [by apply demo_load_ok|]. rewrite Hn, Hl, Hd. vm_compute. intuition congruence. }
  apply (sm_then _ (SReq demo_load 0 0) demo_sm1); [|by apply Hreq|by vm_compute].
  apply (sm_then _ (SReq demo_load 0 0) demo_sm0); [constructor|by apply Hreq|by vm_compute].
Qed.

(** C19: the simple memory serves its port.  In every state reached under the
    port protocol (requests are reads and writes within the memory's range, and
    their times do not wrap) each allowed input is handled without failure; a
    refused request is remembered only while the release event, which sends the
    retry, is scheduled; the first response held is waiting for the peer's
    retry or has the dequeue event scheduled not before its time; every
    response made is sent or held, exactly once; responses for one address are
    sent in the order they were made; and a response is sent no earlier than
    the arrival of its request plus the header and payload delays of the
    request plus the configured latency. *)
Theorem simple_memory_serves mem lat var dur now x :
  mem_ok mem -> 0 <= now -> sm_reachable (new_SimpleMemory mem lat var dur now) x ->
  (forall i, sm_allowed i x -> exists x', sm_step i x = Ok (tt, x'))
  /\ (sm_retryReq x = true -> s_scheduled SmRelease (sm_sched x) = true)
  /\ sm_live x
  /\ map snd (sm_sent x) ++ sm_queue x ≡ₚ map snd (sm_responses x)
  /\ (forall d0, filter (fun d => same_addr d0 d = true) (map snd (sm_sent x) ++ sm_queue x)
                 = filter (fun d => same_addr d0 d = true) (map snd (sm_responses x)))
  /\ (forall t d, (t, d) ∈ sm_sent x -> exists t0 pkt, (t0, pkt, d) ∈ sm_responses x)
  /\ (forall t t0 pkt d, (t, d) ∈ sm_sent x -> (t0, pkt, d) ∈ sm_responses x ->
        t0 + u32 (p_headerDelay pkt + p_payloadDelay pkt) + lat <= t).
Proof.
  intros Hm Hn Hr. pose proof (sm_reachable_inv _ _ _ _ _ _ Hm Hn Hr) as Hi.
  split; [intros i Ha; destruct (sm_step_inv lat i x Hi Ha) as (x' & ? & _); eauto|].
  destruct Hi as [Hf Hl]. destruct (sf_order _ _ Hf) as (Hp & Hfi & _).
  split; [intros E; rewrite <- (sf_busy _ _ Hf); by apply (sf_retry _ _ Hf)|].
  split; [done|]. split; [done|]. split; [|split].
  - intros d0. apply Hfi. intros d y Hd Hy. right. split; [done|].
    unfold same_addr in *. rewrite andb_true_iff, Z.eqb_eq, eqb_true_iff in *. intuition congruence.
  - intros t d Hs. assert (d ∈ map snd (sm_responses x)) as Hin.
    { rewrite <- Hp. apply elem_of_app. left. apply list_elem_of_fmap. by exists (t, d). }
    apply list_elem_of_fmap in Hin as ([[t0 pkt] d'] & -> & Hin). eauto.
  - intros t t0 pkt d Hs Hin. pose proof (proj1 (Forall_forall _ _) (sf_made _ _ Hf) _ Hin) as Hok.
    pose proof (proj1 (Forall_forall _ _) (sf_times _ _ Hf) _ Hs) as Ht. unfold made_ok in Hok. simpl in *. lia.
Qed.

Lemma simple_memory_serves_witness :
  sm_retryReq demo_sm2 = true /\ s_scheduled SmRelease (sm_sched demo_sm2) = true
  /\ sm_pending SmRelease demo_sm2 = Some 20 /\ sm_pending SmDequeue demo_sm2 = Some 30.
Proof.
  destruct (simple_memory_serves (demo_mem []) 30 0 (fun sz => 5 * sz) 0 demo_sm2) as (_ & Hr & _);
    [apply demo_mem_ok; split; constructor|lia|exact demo_sm2_reachable|].
  split; [by vm_compute|]. split; [apply Hr; by vm_compute|]. by vm_compute.
Defined.
