(* ===== verification/Indexing.v ===== *)
(** * Indexing policies of the cache tags (mem/cache/tags/indexing_policies)

    A table of entries with [numSets] rows and [assoc] columns; a policy maps an
    address to the places that may hold it and recovers the address from a tag
    and a place.  The table holds pointers to entries: [None] is the null
    pointer a resized vector starts with, [Some e] the entry numbered [e].
    [setEntry] returns the position it gives to the entry.  [IndexingPolicy] is
    the interface of base.hh and [LawfulIndexing] what the tags rely on;
    set-associative and skewed-associative indexing are its instances. *)

From S2P Require Import Prelude IntMath Bitfield.

(** ** BaseIndexingPolicy *)

Record BaseIndexingPolicy := mkIdx {
  assoc : Z;
  numSets : Z;
  setShift : Z;
  setMask : Z;
  sets : list (list (option nat));
  tagShift : Z
}.

Definition set_sets (l : list (list (option nat))) (p : BaseIndexingPolicy) : BaseIndexingPolicy :=
  mkIdx (assoc p) (numSets p) (setShift p) (setMask p) l (tagShift p).

(** The divisor is an [unsigned] product; both logarithms assert a positive
    argument, and the checks of the body come after them. *)
Definition new_BaseIndexingPolicy (p_size p_entry_size p_assoc : Z) : res BaseIndexingPolicy :=
  let assoc := u32 p_assoc in
  let divisor := u32 (p_entry_size * assoc) in
  if divisor =? 0 then Err (EUndefined "division by zero")
  else
    let numSets := u32 (p_size / divisor) in
    setShift ← floorLog2 4 p_entry_size;
    setBits ← floorLog2 4 numSets;
    if negb (isPowerOf2 numSets) then Err (EFatal "# of sets must be non-zero and a power of 2")
    else if assoc <=? 0 then Err (EFatal "associativity must be greater than zero")
    else Ok (mkIdx assoc numSets setShift (u32 (numSets - 1))
               (replicate (Z.to_nat numSets) (replicate (Z.to_nat assoc) None)) (setShift + setBits)).

(** [sets[set][way]]. *)
Definition slot (set way : Z) (p : BaseIndexingPolicy) : option (option nat) :=
  sets p !! Z.to_nat set ≫= fun row => row !! Z.to_nat way.

Definition getEntry (set way : Z) (p : BaseIndexingPolicy) : res (option nat) :=
  match slot set way p with
  | Some e => Ok e
  | None => Err (EUndefined "index out of range")
  end.

Definition setEntry (entry : nat) (index : Z) (p : BaseIndexingPolicy) : res (BaseIndexingPolicy * (Z * Z)) :=
  let set := u32 (Z.quot (sgn 64 index) (assoc p)) in
  let way := u32 (Z.rem (sgn 64 index) (assoc p)) in
  assert_r (set <? numSets p) "set < numSets";;
  match slot set way p with
  | Some _ => Ok (set_sets (alter (<[Z.to_nat way := Some entry]>) (Z.to_nat set) (sets p)) p, (set, way))
  | None => Err (EUndefined "index out of range")
  end.

Definition extractTag (addr : Z) (p : BaseIndexingPolicy) : Z := Z.shiftr addr (tagShift p).

(** ** The interface *)

Class IndexingPolicy (P : Type) := {
  ip_base : P -> BaseIndexingPolicy;
  ip_set_base : BaseIndexingPolicy -> P -> P;
  ip_getPossibleEntries : Z -> P -> res (list (option nat));
  ip_regenerateAddr : Z -> Z * Z -> P -> res Z
}.

(** ** SetAssociative *)

Module SetAssociative.
Definition extractSet (addr : Z) (p : BaseIndexingPolicy) : Z :=
  u32 (Z.land (Z.shiftr addr (setShift p)) (setMask p)).

(** The set is a [uint32_t], so that it is shifted at 32 bits. *)
Definition regenerateAddr (tag : Z) (loc : Z * Z) (p : BaseIndexingPolicy) : res Z :=
  Ok (Z.lor (u64 (Z.shiftl tag (tagShift p))) (u32 (Z.shiftl loc.1 (setShift p)))).

Definition getPossibleEntries (addr : Z) (p : BaseIndexingPolicy) : res (list (option nat)) :=
  match sets p !! Z.to_nat (extractSet addr p) with
  | Some row => Ok row
  | None => Err (EUndefined "index out of range")
  end.
End SetAssociative.

#[global] Instance SetAssociative_policy : IndexingPolicy BaseIndexingPolicy :=
  { ip_base := fun p => p; ip_set_base := fun b _ => b;
    ip_getPossibleEntries := SetAssociative.getPossibleEntries;
    ip_regenerateAddr := SetAssociative.regenerateAddr }.

(** ** SkewedAssociative *)

Module SkewedAssociative.
Record SkewedAssociative := mkSkewed { base : BaseIndexingPolicy; msbShift : Z }.

Definition NUM_SKEWING_FUNCTIONS : Z := 8.

Definition new_SkewedAssociative (p_size p_entry_size p_assoc : Z) : res SkewedAssociative :=
  b ← new_BaseIndexingPolicy p_size p_entry_size p_assoc;
  l ← floorLog2 4 (numSets b);
  let msbShift := l - 1 in
  panic_r (64 <? setShift b + 2 * (msbShift + 1)) "Unsuported number of bits for the skewing functions.";;
  if numSets b <=? 2 then Err (EFatal "The number of sets must be greater than 2")
  else Ok (mkSkewed b msbShift).

Definition hash (msbShift addr : Z) : Z :=
  let lsb := bit addr 0 in
  let msb := bit addr msbShift in
  let xor_bit := Z.lxor msb lsb in
  insertBit (Z.shiftr addr 1) msbShift xor_bit.

Definition dehash (msbShift addr : Z) : Z :=
  let msb := bit addr (msbShift - 1) in
  let xor_bit := bit addr msbShift in
  let lsb := Z.lxor msb xor_bit in
  let addr_no_msb := mbits addr (msbShift - 1) 0 in
  insertBit (u64 (Z.shiftl addr_no_msb 1)) 0 lsb.

(** The skewing function selected by the way. *)
Definition skew_select (m addr1 addr2 way : Z) : res Z :=
  match way mod NUM_SKEWING_FUNCTIONS with
  | 0 => Ok (Z.lxor (Z.lxor (hash m addr1) (hash m addr2)) addr2)
  | 1 => Ok (Z.lxor (Z.lxor (hash m addr1) (hash m addr2)) addr1)
  | 2 => Ok (Z.lxor (Z.lxor (hash m addr1) (dehash m addr2)) addr2)
  | 3 => Ok (Z.lxor (Z.lxor (hash m addr1) (dehash m addr2)) addr1)
  | 4 => Ok (Z.lxor (Z.lxor (dehash m addr1) (hash m addr2)) addr2)
  | 5 => Ok (Z.lxor (Z.lxor (dehash m addr1) (hash m addr2)) addr1)
  | 6 => Ok (Z.lxor (Z.lxor (dehash m addr1) (dehash m addr2)) addr2)
  | 7 => Ok (Z.lxor (Z.lxor (dehash m addr1) (dehash m addr2)) addr1)
  | _ => Err (EPanic "A skewing function has not been implemented for this way.")
  end.

Definition skew (m addr way : Z) : res Z :=
  let addr1 := bits addr m 0 in
  let addr2 := bits addr (2 * (m + 1) - 1) (m + 1) in
  addr1 ← skew_select m addr1 addr2 way;
  Ok (Nat.iter (Z.to_nat (way / NUM_SKEWING_FUNCTIONS)) (hash m) addr1).

Definition deskew_select (m addr1 addr2 way : Z) : res Z :=
  match way mod 8 with
  | 0 => Ok (dehash m (Z.lxor (Z.lxor addr1 (hash m addr2)) addr2))
  | 1 => Ok (Nat.iter (Z.to_nat m) (hash m) (Z.lxor addr1 (hash m addr2)))
  | 2 => Ok (dehash m (Z.lxor (Z.lxor addr1 (dehash m addr2)) addr2))
  | 3 => Ok (Nat.iter (Z.to_nat m) (hash m) (Z.lxor addr1 (dehash m addr2)))
  | 4 => Ok (hash m (Z.lxor (Z.lxor addr1 (hash m addr2)) addr2))
  | 5 => Ok (Nat.iter (Z.to_nat (m + 1)) (hash m) (Z.lxor addr1 (hash m addr2)))
  | 6 => Ok (hash m (Z.lxor (Z.lxor addr1 (dehash m addr2)) addr2))
  | 7 => Ok (Nat.iter (Z.to_nat (m + 1)) (hash m) (Z.lxor addr1 (dehash m addr2)))
  | _ => Err (EPanic "A skewing function has not been implemented for this way.")
  end.

Definition deskew (m addr way : Z) : res Z :=
  let addr1 := bits addr m 0 in
  let addr2 := bits addr (2 * (m + 1) - 1) (m + 1) in
  let addr1 := if NUM_SKEWING_FUNCTIONS <=? way
               then Nat.iter (Z.to_nat (way / NUM_SKEWING_FUNCTIONS)) (dehash m) addr1 else addr1 in
  deskew_select m addr1 addr2 way.

Definition extractSet (addr way : Z) (p : SkewedAssociative) : res Z :=
  s ← skew (msbShift p) (Z.shiftr addr (setShift (base p))) way;
  Ok (u32 (Z.land s (setMask (base p)))).

Definition regenerateAddr (tag : Z) (loc : Z * Z) (p : SkewedAssociative) : res Z :=
  let addr_set := Z.lor (u64 (Z.shiftl tag (msbShift p + 1))) loc.1 in
  d ← deskew (msbShift p) addr_set loc.2;
  Ok (Z.lor (u64 (Z.shiftl tag (tagShift (base p))))
            (u64 (Z.shiftl (Z.land d (setMask (base p))) (setShift (base p))))).

(** One entry per way, from the set that way's function selects. *)
Fixpoint possible_ways (n : nat) (way addr : Z) (p : SkewedAssociative) : res (list (option nat)) :=
  match n with
  | O => Ok []
  | S n' =>
      set ← extractSet addr way p;
      e ← getEntry set way (base p);
      rest ← possible_ways n' (way + 1) addr p;
      Ok (e :: rest)
  end.

Definition getPossibleEntries (addr : Z) (p : SkewedAssociative) : res (list (option nat)) :=
  possible_ways (Z.to_nat (assoc (base p))) 0 addr p.
End SkewedAssociative.

#[global] Instance SkewedAssociative_policy : IndexingPolicy SkewedAssociative.SkewedAssociative :=
  { ip_base := SkewedAssociative.base;
    ip_set_base := fun b p => SkewedAssociative.mkSkewed b (SkewedAssociative.msbShift p);
    ip_getPossibleEntries := SkewedAssociative.getPossibleEntries;
    ip_regenerateAddr := SkewedAssociative.regenerateAddr }.
