(* ===== verification/IndexingProps.v ===== *)
(** * Indexing policies: addresses can be recovered

    The hash of the skewed policy is a linear shift register: with [n] set bits,
    [hash^n x = hash^(n-1) x xor x], which is what the inverse of the odd skewing
    functions rests on.  [LawfulIndexing] collects what the tags need, and both
    policies are shown to be lawful. *)

From S2P Require Import Prelude IntMath Bitfield Indexing.

Definition small (m x : Z) : Prop := 0 <= x < 2 ^ (m + 1).

Lemma testbit_small m x i : 0 <= m -> small m x -> m < i -> Z.testbit x i = false.
Proof.
  intros Hm Hx Hi. rewrite <- (Z.mod_small x (2 ^ (m + 1))) by exact Hx.
  apply Z.mod_pow2_bits_high. lia.
Qed.

Lemma small_of_bits m x : 0 <= m -> 0 <= x -> (forall i, m < i -> Z.testbit x i = false) -> small m x.
Proof.
  intros Hm Hx Hb. assert (x = x mod 2 ^ (m + 1)) as ->; [|apply Z.mod_pos_bound; lia].
  apply Z.bits_inj'. intros i Hi. destruct (Z.le_gt_cases i m).
  - by rewrite Z.mod_pow2_bits_low by lia.
  - by rewrite Z.mod_pow2_bits_high, Hb by lia.
Qed.

Lemma small_u64 m x : 0 <= m <= 31 -> small m x -> 0 <= x < 2 ^ 64.
Proof. intros Hm Hx. red in Hx. pose proof (Z.pow_le_mono_r 2 (m + 1) 64). lia. Qed.

Lemma lxor_bound k x y : 0 <= k -> 0 <= x < 2 ^ k -> 0 <= y < 2 ^ k -> 0 <= Z.lxor x y < 2 ^ k.
Proof.
  intros Hk Hx Hy. assert (Z.lxor x y = Z.lxor x y mod 2 ^ k) as ->; [|apply Z.mod_pos_bound; lia].
  apply Z.bits_inj'. intros i Hi. rewrite Z.lxor_spec. destruct (Z.lt_ge_cases i k).
  - by rewrite Z.mod_pow2_bits_low, Z.lxor_spec by lia.
  - rewrite Z.mod_pow2_bits_high by lia. rewrite <- (Z.mod_small x (2 ^ k)), <- (Z.mod_small y (2 ^ k)) by done.
    by rewrite !Z.mod_pow2_bits_high by lia.
Qed.

Lemma lxor_small m x y : 0 <= m -> small m x -> small m y -> small m (Z.lxor x y).
Proof. intros. apply lxor_bound; unfold small in *; lia. Qed.

Lemma shiftr_bound x k : 0 <= k -> 0 <= x < 2 ^ 64 -> 0 <= Z.shiftr x k < 2 ^ 64.
Proof.
  intros Hk Hx. rewrite Z.shiftr_div_pow2 by done. split; [apply Z.div_pos; lia|].
  apply Z.div_lt_upper_bound; [lia|]. pose proof (Z.pow_pos_nonneg 2 k). nia.
Qed.

(** ** The shift register *)

Section Hash.
Import SkewedAssociative.
Context (m : Z) (Hm : 1 <= m <= 31).

Lemma b2z_lxor (a b : bool) : Z.lxor (Z.b2z a) (Z.b2z b) = Z.b2z (xorb a b).
Proof. by destruct a, b. Qed.

Lemma hash_testbit x i : small m x -> 0 <= i ->
  Z.testbit (hash m x) i
  = if i =? m then xorb (Z.testbit x m) (Z.testbit x 0) else Z.testbit x (i + 1).
Proof using Hm.
  intros Hx Hi. pose proof (small_u64 m x ltac:(lia) Hx) as Hx64. unfold hash, insertBit, bit.
  rewrite !bit_testbit, b2z_lxor by lia. rewrite insertBits_testbit by (lia || by apply shiftr_bound).
  destruct (Z.eqb_spec i m) as [->|Hne].
  - rewrite Z.leb_refl, Z.sub_diag. simpl. apply Z.b2z_bit0.
  - rewrite Z.shiftr_spec by done. destruct (m <=? i) eqn:E1, (i <=? m) eqn:E2; simpl; lia || done.
Qed.

Lemma hash_nonneg x : small m x -> 0 <= hash m x.
Proof using Hm.
  intros Hx. red in Hx. unfold hash, insertBit, insertBits. apply Z.lor_nonneg. split; apply Z.land_nonneg.
  - left. apply u64_bound.
  - left. rewrite Z.shiftr_div_pow2 by lia. apply Z.div_pos; lia.
Qed.

Lemma hash_small x : small m x -> small m (hash m x).
Proof using Hm.
  intros Hx. apply small_of_bits; [lia|by apply hash_nonneg|]. intros i Hi.
  rewrite hash_testbit by (done || lia). rewrite (proj2 (Z.eqb_neq i m)) by lia.
  apply (testbit_small m); done || lia.
Qed.

Lemma dehash_testbit x i : small m x -> 0 <= i ->
  Z.testbit (dehash m x) i
  = if i =? 0 then xorb (Z.testbit x (m - 1)) (Z.testbit x m)
    else (i <=? m) && Z.testbit x (i - 1).
Proof using Hm.
  intros Hx Hi. unfold dehash, insertBit, bit. rewrite !bit_testbit, b2z_lxor by lia.
  rewrite insertBits_testbit by (try apply u64_bound; lia).
  destruct (Z.eqb_spec i 0) as [->|Hne]; [apply Z.b2z_bit0|].
  rewrite (proj2 (Z.leb_gt i 0)), andb_false_r by lia. rewrite u64_testbit, Z.shiftl_spec by lia.
  unfold mbits. rewrite !Z.land_spec, not64_testbit, !mask_testbit by lia.
  replace (i - 1 <? 64) with (i <? 65) by lia. replace (i - 1 <? m - 1 + 1) with (i <=? m) by lia.
  replace (i - 1 <? 0) with false by lia.
  destruct (Z.testbit x (i - 1)); rewrite ?andb_false_r, ?andb_true_r; simpl; lia || done.
Qed.

Lemma dehash_small x : small m x -> small m (dehash m x).
Proof using Hm.
  intros Hx. apply small_of_bits; [lia| |].
  - unfold dehash, insertBit, insertBits. apply Z.lor_nonneg. split; apply Z.land_nonneg; left; apply u64_bound.
  - intros i Hi. rewrite dehash_testbit by (done || lia). rewrite (proj2 (Z.eqb_neq i 0)) by lia.
    by rewrite (proj2 (Z.leb_gt i m)) by lia.
Qed.

Lemma dehash_hash x : small m x -> dehash m (hash m x) = x.
Proof using Hm.
  intros Hx. apply Z.bits_inj'. intros i Hi. rewrite dehash_testbit by (done || by apply hash_small).
  rewrite !hash_testbit by (done || lia). rewrite Z.eqb_refl, (proj2 (Z.eqb_neq (m - 1) m)) by lia.
  replace (m - 1 + 1) with m by lia. destruct (Z.eqb_spec i 0) as [->|Hne]; [by destruct (Z.testbit x m), (Z.testbit x 0)|].
  destruct (Z.leb_spec i m); simpl.
  - rewrite hash_testbit, (proj2 (Z.eqb_neq (i - 1) m)) by (done || lia). f_equal. lia.
  - symmetry. apply (testbit_small m); done || lia.
Qed.

Lemma hash_dehash x : small m x -> hash m (dehash m x) = x.
Proof using Hm.
  intros Hx. apply Z.bits_inj'. intros i Hi. rewrite hash_testbit by (done || by apply dehash_small).
  rewrite !dehash_testbit by (done || lia). rewrite Z.eqb_refl, (proj2 (Z.eqb_neq m 0)), Z.leb_refl by lia.
  destruct (Z.eqb_spec i m) as [->|Hne]; [by destruct (Z.testbit x m), (Z.testbit x (m - 1))|].
  rewrite (proj2 (Z.eqb_neq (i + 1) 0)) by lia. replace (i + 1 - 1) with i by lia.
  destruct (Z.leb_spec (i + 1) m); [done|]. symmetry. apply (testbit_small m); done || lia.
Qed.

Lemma hash_lxor x y : small m x -> small m y -> hash m (Z.lxor x y) = Z.lxor (hash m x) (hash m y).
Proof using Hm.
  intros Hx Hy. apply Z.bits_inj'. intros i Hi.
  rewrite Z.lxor_spec, !hash_testbit, !Z.lxor_spec by (try apply lxor_small; done || lia).
  destruct (i =? m); [|done].
  by destruct (Z.testbit x m), (Z.testbit y m), (Z.testbit x 0), (Z.testbit y 0).
Qed.

Lemma iter_hash_small k x : small m x -> small m (Nat.iter k (hash m) x).
Proof using Hm. intros Hx. induction k; simpl; [done|by apply hash_small]. Qed.

Lemma iter_hash_lxor k x y : small m x -> small m y ->
  Nat.iter k (hash m) (Z.lxor x y) = Z.lxor (Nat.iter k (hash m) x) (Nat.iter k (hash m) y).
Proof using Hm.
  intros Hx Hy. induction k as [|k IH]; simpl; [done|].
  by rewrite IH, hash_lxor by by apply iter_hash_small.
Qed.

Lemma iter_dehash_hash k x : small m x -> Nat.iter k (dehash m) (Nat.iter k (hash m) x) = x.
Proof using Hm.
  intros Hx. induction k as [|k IH]; [done|].
  rewrite Nat.iter_succ_r. simpl (Nat.iter (S k) (hash m) x).
  by rewrite dehash_hash by by apply iter_hash_small.
Qed.

(** Below the top, hashing [k] times shifts by [k]. *)
Lemma iter_hash_shift k x i : small m x -> 0 <= i -> i + Z.of_nat k <= m ->
  Z.testbit (Nat.iter k (hash m) x) i = Z.testbit x (i + Z.of_nat k).
Proof using Hm.
  intros Hx. revert i. induction k as [|k IH]; intros i Hi Hk; simpl Nat.iter; [f_equal; lia|].
  rewrite hash_testbit by (done || by apply iter_hash_small).
  rewrite (proj2 (Z.eqb_neq i m)) by lia. rewrite IH by lia. f_equal. lia.
Qed.

Lemma iter_hash_period x : small m x ->
  Nat.iter (Z.to_nat (m + 1)) (hash m) x = Z.lxor (Nat.iter (Z.to_nat m) (hash m) x) x.
Proof using Hm.
  intros Hx. apply Z.bits_inj'. intros i Hi. rewrite Z.lxor_spec. destruct (Z.le_gt_cases i m) as [Hle|Hgt].
  - replace (Z.to_nat (m + 1)) with (Z.to_nat (m - i) + (1 + Z.to_nat i))%nat by lia.
    rewrite Nat.iter_add, iter_hash_shift by (try apply iter_hash_small; done || lia).
    replace (i + Z.of_nat (Z.to_nat (m - i))) with m by lia. simpl.
    rewrite hash_testbit, Z.eqb_refl by (try apply iter_hash_small; done || lia).
    replace (Z.to_nat m) with (Z.to_nat (m - i) + Z.to_nat i)%nat by lia.
    rewrite Nat.iter_add, (iter_hash_shift (Z.to_nat (m - i))) by (try apply iter_hash_small; done || lia).
    replace (i + Z.of_nat (Z.to_nat (m - i))) with m by lia. f_equal.
    rewrite iter_hash_shift by (done || lia). f_equal. lia.
  - rewrite !(testbit_small m) by (try apply iter_hash_small; done || lia). done.
Qed.

Lemma iter_hash_odd x : small m x -> Nat.iter (Z.to_nat m) (hash m) (Z.lxor (hash m x) x) = x.
Proof using Hm.
  intros Hx. rewrite iter_hash_lxor by (done || by apply hash_small).
  rewrite <- Nat.iter_succ_r. replace (S (Z.to_nat m)) with (Z.to_nat (m + 1)) by lia.
  rewrite iter_hash_period by done.
  by rewrite Z.lxor_assoc, (Z.lxor_comm x), <- Z.lxor_assoc, Z.lxor_nilpotent, Z.lxor_0_l.
Qed.

Lemma iter_hash_odd' x : small m x -> Nat.iter (Z.to_nat (m + 1)) (hash m) (Z.lxor (dehash m x) x) = x.
Proof using Hm.
  intros Hx. replace (Z.to_nat (m + 1)) with (S (Z.to_nat m)) by lia. rewrite Nat.iter_succ_r.
  rewrite hash_lxor, hash_dehash by (done || by apply dehash_small).
  rewrite Z.lxor_comm. by apply iter_hash_odd.
Qed.
End Hash.

(** ** Skewing is undone *)

Lemma lxor_cancel2 x y z : Z.lxor (Z.lxor (Z.lxor (Z.lxor x y) z) y) z = x.
Proof.
  apply Z.bits_inj'. intros i _. rewrite !Z.lxor_spec.
  by destruct (Z.testbit x i), (Z.testbit y i), (Z.testbit z i).
Qed.
Lemma lxor_cancel1 x y z : Z.lxor (Z.lxor (Z.lxor x y) z) y = Z.lxor x z.
Proof.
  apply Z.bits_inj'. intros i _. rewrite !Z.lxor_spec.
  by destruct (Z.testbit x i), (Z.testbit y i), (Z.testbit z i).
Qed.

Section Skew.
Import SkewedAssociative.
Context (m : Z) (Hm : 1 <= m <= 31).

Lemma skew_select_roundtrip a1 a2 way : small m a1 -> small m a2 -> 0 <= way ->
  exists s, skew_select m a1 a2 way = Ok s /\ small m s /\ deskew_select m s a2 way = Ok a1.
Proof using Hm.
  intros H1 H2 Hw. pose proof (Z.mod_pos_bound way 8 ltac:(lia)) as Hr.
  pose proof (hash_small m Hm _ H1). pose proof (hash_small m Hm _ H2).
  pose proof (dehash_small m Hm _ H1). pose proof (dehash_small m Hm _ H2).
  unfold skew_select, deskew_select. change NUM_SKEWING_FUNCTIONS with 8.
  assert (way mod 8 = 0 \/ way mod 8 = 1 \/ way mod 8 = 2 \/ way mod 8 = 3 \/ way mod 8 = 4
          \/ way mod 8 = 5 \/ way mod 8 = 6 \/ way mod 8 = 7) as Hc by lia.
  repeat destruct Hc as [Hc|Hc]; rewrite Hc; eexists; (split; [reflexivity|]);
    (split; [repeat apply lxor_small; done || lia|]); f_equal.
  all: try rewrite lxor_cancel2; try rewrite lxor_cancel1.
  all: auto using dehash_hash, hash_dehash, iter_hash_odd, iter_hash_odd'.
Qed.

Lemma bits_small addr first last k :
  0 <= last -> first = last + k -> 0 <= k <= 31 -> first < 64 -> small k (bits addr first last).
Proof using.
  intros H0 -> Hk Hf. apply small_of_bits; [lia| |].
  - unfold bits. apply Z.land_nonneg. right. rewrite mask_ones by lia. rewrite Z.ones_equiv. lia.
  - intros i Hi. rewrite bits_testbit by lia. by rewrite (proj2 (Z.ltb_ge _ _)) by lia.
Qed.

Lemma skew_roundtrip addr way : 2 * (m + 1) <= 64 -> 0 <= way ->
  exists s, skew m addr way = Ok s /\ small m s
    /\ forall addr', bits addr' m 0 = s ->
         bits addr' (2 * (m + 1) - 1) (m + 1) = bits addr (2 * (m + 1) - 1) (m + 1) ->
         deskew m addr' way = Ok (bits addr m 0).
Proof using Hm.
  intros H64 Hw. set (a1 := bits addr m 0). set (a2 := bits addr (2 * (m + 1) - 1) (m + 1)).
  assert (small m a1) as H1 by (apply bits_small; lia).
  assert (small m a2) as H2 by (apply bits_small; lia).
  destruct (skew_select_roundtrip a1 a2 way H1 H2 Hw) as (s & Hs & Hsm & Hd).
  exists (Nat.iter (Z.to_nat (way / 8)) (hash m) s). split_and!.
  - unfold skew. fold a1 a2. by rewrite Hs.
  - by apply iter_hash_small.
  - intros addr' E1 E2. unfold deskew. rewrite E1, E2. change NUM_SKEWING_FUNCTIONS with 8.
    destruct (8 <=? way) eqn:E; [by rewrite iter_dehash_hash by done|].
    apply Z.leb_gt in E. by rewrite Z.div_small by lia.
Qed.
End Skew.

(** ** Well-formed tables *)

Record idx_wf (b : BaseIndexingPolicy) : Prop := {
  wf_assoc : 0 < assoc b < 2 ^ 32;
  wf_setShift : 0 <= setShift b <= 30;
  wf_setBits : 0 <= Z.log2 (numSets b) <= 31;
  wf_numSets : numSets b = 2 ^ Z.log2 (numSets b);
  wf_setMask : setMask b = numSets b - 1;
  wf_tagShift : tagShift b = setShift b + Z.log2 (numSets b);
  wf_rows : length (sets b) = Z.to_nat (numSets b);
  wf_row : Forall (fun r => length r = Z.to_nat (assoc b)) (sets b)
}.

Lemma floorLog2_nonpos ts x : x <= 0 -> floorLog2 ts x = Err (EAssert "x > 0").
Proof. intros Hx. unfold floorLog2. by rewrite (proj2 (Z.leb_le _ _)). Qed.

Lemma new_idx_wf p_size p_entry_size p_assoc b :
  p_entry_size < 2 ^ 31 ->
  new_BaseIndexingPolicy p_size p_entry_size p_assoc = Ok b -> idx_wf b.
Proof.
  intros He. unfold new_BaseIndexingPolicy. case_match eqn:Ed; [done|].
  set (n := u32 (p_size / u32 (p_entry_size * u32 p_assoc))).
  assert (0 <= n < 2 ^ 32) as Hn by (apply wrap_bound; lia).
  assert (0 <= u32 p_assoc < 2 ^ 32) as Ha by (apply wrap_bound; lia).
  destruct (Z.le_gt_cases p_entry_size 0) as [Hle|Hpos].
  { by rewrite (floorLog2_nonpos _ p_entry_size). }
  rewrite (floorLog2_run 4 p_entry_size) by (lia || (change (8 * 4) with 32; lia)). cbn [mbind res_bind].
  destruct (Z.le_gt_cases n 0) as [Hle|Hnpos].
  { by rewrite floorLog2_nonpos. }
  rewrite floorLog2_run by (lia || (change (8 * 4) with 32; lia)). cbn [mbind res_bind].
  destruct (isPowerOf2 n) eqn:Ep; [|done]. simpl negb. cbv iota.
  destruct (u32 p_assoc <=? 0) eqn:Ea; [done|]. apply Z.leb_gt in Ea. intros [= <-].
  apply isPowerOf2_spec in Ep as (k & Hk & Ek); [|lia].
  assert (Z.log2 n = k) as Hlog by (rewrite Ek; by apply Z.log2_pow2).
  assert (k <= 31) by (apply Z.lt_succ_r, (Z.pow_lt_mono_r_iff 2); simpl; lia).
  assert (Z.log2 p_entry_size <= 30).
  { apply Z.lt_succ_r. apply Z.log2_lt_pow2; simpl; lia. }
  pose proof (Z.log2_nonneg p_entry_size).
  split; simpl; rewrite ?Hlog; try lia.
  - unfold u32. rewrite wrap_small; lia.
  - by rewrite length_replicate.
  - apply Forall_replicate. apply length_replicate.
Qed.

Definition in_table (l : Z * Z) (b : BaseIndexingPolicy) : Prop :=
  0 <= l.1 < numSets b /\ 0 <= l.2 < assoc b.

Lemma slot_in_table b l : idx_wf b -> in_table l b -> exists e, slot l.1 l.2 b = Some e.
Proof.
  intros Hwf [H1 H2]. unfold slot.
  destruct (lookup_lt_is_Some_2 (sets b) (Z.to_nat l.1)) as [row Hrow].
  { rewrite (wf_rows b Hwf). lia. }
  rewrite Hrow. simpl. apply lookup_lt_is_Some_2.
  pose proof (Forall_lookup_1 _ _ _ _ (wf_row b Hwf) Hrow) as ->. lia.
Qed.

(** What a place of the table holds. *)
Definition entry_at (l : Z * Z) (b : BaseIndexingPolicy) : option nat := mjoin (slot l.1 l.2 b).

Lemma getEntry_run b s w : idx_wf b -> in_table (s, w) b -> getEntry s w b = Ok (entry_at (s, w) b).
Proof.
  intros Hwf Hl. destruct (slot_in_table b _ Hwf Hl) as [e He]. simpl in He.
  unfold getEntry, entry_at. simpl. by rewrite He.
Qed.

Definition same_dims (b b' : BaseIndexingPolicy) : Prop :=
  assoc b' = assoc b /\ numSets b' = numSets b /\ setShift b' = setShift b /\ setMask b' = setMask b
  /\ tagShift b' = tagShift b.

(** [setEntry] fills the table row by row. *)
Definition index_place (b : BaseIndexingPolicy) (i : Z) : Z * Z := (i / assoc b, i mod assoc b).

Lemma index_place_in b i : idx_wf b -> 0 <= i < numSets b * assoc b -> in_table (index_place b i) b.
Proof.
  intros Hwf Hi. pose proof (wf_assoc b Hwf). split; simpl; [split|].
  - apply Z.div_pos; lia.
  - apply Z.div_lt_upper_bound; lia.
  - apply Z.mod_pos_bound. lia.
Qed.

Lemma slot_set b e s w s' w' : in_table (s, w) b -> in_table (s', w') b -> idx_wf b ->
  slot s' w' (set_sets (alter (<[Z.to_nat w := Some e]>) (Z.to_nat s) (sets b)) b)
  = if decide ((s, w) = (s', w')) then Some (Some e) else slot s' w' b.
Proof.
  intros Hl Hl' Hwf. destruct (slot_in_table b _ Hwf Hl) as [x Hx]. destruct Hl as [H1 H2], Hl' as [H3 H4]. simpl in *.
  unfold slot in *. simpl. destruct (decide (s = s')) as [<-|Hs].
  - rewrite list_lookup_alter_eq. destruct (sets b !! Z.to_nat s) as [row|] eqn:Er; simpl in *; [|done].
    destruct (decide (w = w')) as [<-|Hw].
    + rewrite decide_True by done. apply list_lookup_insert_eq. by eapply lookup_lt_Some.
    + rewrite decide_False by congruence. apply list_lookup_insert_ne. lia.
  - rewrite decide_False by congruence. by rewrite list_lookup_alter_ne by lia.
Qed.

Lemma setEntry_run b e i : idx_wf b -> 0 <= i < numSets b * assoc b ->
  exists b', setEntry e i b = Ok (b', index_place b i) /\ same_dims b b' /\ idx_wf b'
    /\ forall l, in_table l b -> entry_at l b' = if decide (index_place b i = l) then Some e else entry_at l b.
Proof.
  intros Hwf Hi. pose proof (wf_assoc b Hwf) as Ha. pose proof (wf_setBits b Hwf) as Hk.
  assert (numSets b <= 2 ^ 31) as Hn by (rewrite (wf_numSets b Hwf); apply Z.pow_le_mono_r; lia).
  pose proof (index_place_in b i Hwf Hi) as Hl. destruct (slot_in_table b _ Hwf Hl) as [x Hx].
  assert (0 < numSets b) by (rewrite (wf_numSets b Hwf); lia).
  unfold setEntry. assert (sgn 64 i = i) as ->.
  { unfold sgn. rewrite wrap_small by nia. rewrite (proj2 (Z.leb_gt _ _)); [done|]. change (64 - 1) with 63. nia. }
  rewrite Z.quot_div_nonneg, Z.rem_mod_nonneg by lia. destruct Hl as [H1 H2]. simpl in H1, H2, Hx.
  assert (u32 (i / assoc b) = i / assoc b) as -> by (apply wrap_small; lia).
  assert (u32 (i mod assoc b) = i mod assoc b) as -> by (apply wrap_small; lia).
  rewrite assert_r_true by (apply Z.ltb_lt; lia). rewrite Hx. eexists. split; [reflexivity|].
  split; [done|]. split.
  - destruct Hwf. split; simpl; try done; [by rewrite length_alter|].
    apply Forall_alter; [done|]. intros row _ Hrow. by rewrite length_insert.
  - intros [s w] Hsw. unfold entry_at. cbn [fst snd]. rewrite slot_set by done.
    by destruct (decide (_ = _)).
Qed.

(** ** The contract *)

Abbreviation addr_ok a := (0 <= a < 2 ^ 64) (only parsing).
Definition block_of (shift a : Z) : Z := 2 ^ shift * (a / 2 ^ shift).

(** What a policy promises to the tags: an address has at least one place, its
    places are distinct places of the table, they depend on the block only, the
    policy returns what they hold, and from the tag and any of the places the
    block address comes back. *)
Class LawfulIndexing (P : Type) `{IndexingPolicy P} (wf : P -> Prop) := {
  locations : Z -> P -> list (Z * Z);
  law_base p : wf p -> idx_wf (ip_base p);
  law_set_base p b : wf p -> same_dims (ip_base p) b -> idx_wf b ->
    wf (ip_set_base b p) /\ ip_base (ip_set_base b p) = b
    /\ forall a, locations a (ip_set_base b p) = locations a p;
  law_locations p a : wf p -> addr_ok a ->
    NoDup (locations a p) /\ locations a p <> []
    /\ forall l, l ∈ locations a p -> in_table l (ip_base p);
  law_block p a : wf p -> addr_ok a -> locations (block_of (setShift (ip_base p)) a) p = locations a p;
  law_possible p a : wf p -> addr_ok a ->
    ip_getPossibleEntries a p = Ok ((fun l => entry_at l (ip_base p)) <$> locations a p);
  law_regenerate p a l : wf p -> addr_ok a -> l ∈ locations a p ->
    ip_regenerateAddr (extractTag a (ip_base p)) l p = Ok (block_of (setShift (ip_base p)) a)
}.

(** ** Putting an address together *)

Lemma testbit_block_of s a i : 0 <= s -> 0 <= i -> Z.testbit (block_of s a) i = (s <=? i) && Z.testbit a i.
Proof.
  intros Hs Hi. unfold block_of. rewrite Z.mul_comm, <- Z.shiftl_mul_pow2, <- Z.shiftr_div_pow2 by done.
  rewrite Z.shiftl_spec by done. destruct (Z.leb_spec s i); simpl.
  - rewrite Z.shiftr_spec by lia. f_equal. lia.
  - apply Z.testbit_neg_r. lia.
Qed.

Lemma block_of_ok s a : 0 <= s -> addr_ok a -> addr_ok (block_of s a).
Proof.
  intros Hs Ha. unfold block_of. pose proof (Z.mul_div_le a (2 ^ s)). pose proof (Z.pow_pos_nonneg 2 s).
  pose proof (Z.div_pos a (2 ^ s)). nia.
Qed.

Lemma compose_addr s k a low : 0 <= s -> 0 <= k -> s + k <= 64 -> addr_ok a ->
  low = Z.shiftl (Z.shiftr a s mod 2 ^ k) s ->
  Z.lor (u64 (Z.shiftl (Z.shiftr a (s + k)) (s + k))) low = block_of s a.
Proof.
  intros Hs Hk H64 Ha ->. apply Z.bits_inj'. intros i Hi.
  rewrite testbit_block_of, Z.lor_spec, u64_testbit, !Z.shiftl_spec by done.
  destruct (Z.lt_ge_cases i s).
  { rewrite !(Z.testbit_neg_r _ (i - _)) by lia. rewrite andb_false_r, (proj2 (Z.leb_gt s i)) by done. done. }
  rewrite (proj2 (Z.leb_le s i)) by done. destruct (Z.lt_ge_cases i (s + k)).
  - rewrite (Z.testbit_neg_r _ (i - (s + k))) by lia. rewrite andb_false_r.
    rewrite Z.mod_pow2_bits_low, Z.shiftr_spec by lia. simpl. f_equal. lia.
  - rewrite Z.mod_pow2_bits_high by lia. rewrite Z.shiftr_spec by lia.
    replace (i - (s + k) + (s + k)) with i by lia. rewrite orb_false_r.
    destruct (Z.ltb_spec i 64); [done|]. symmetry. by apply u64_high.
Qed.

Lemma shiftl_small x k s : 0 <= s -> 0 <= k -> 0 <= x < 2 ^ k -> 0 <= Z.shiftl x s < 2 ^ (s + k).
Proof.
  intros Hs Hk Hx. rewrite Z.shiftl_mul_pow2, Z.pow_add_r by done.
  pose proof (Z.pow_pos_nonneg 2 s). nia.
Qed.

Lemma land_setMask b x : idx_wf b -> 0 <= x -> Z.land x (setMask b) = x mod 2 ^ Z.log2 (numSets b).
Proof.
  intros Hwf Hx. pose proof (wf_setBits b Hwf). rewrite (wf_setMask b Hwf), (wf_numSets b Hwf) at 1.
  by rewrite Z.sub_1_r, <- Z.ones_equiv, Z.land_ones by lia.
Qed.

Lemma shiftr_block_of s k a : 0 <= s <= k -> Z.shiftr (block_of s a) k = Z.shiftr a k.
Proof.
  intros Hs. apply Z.bits_inj'. intros i Hi. rewrite !Z.shiftr_spec, testbit_block_of by lia.
  by rewrite (proj2 (Z.leb_le _ _)) by lia.
Qed.

(** ** Set-associative indexing is lawful *)

Definition set_wf (b : BaseIndexingPolicy) : Prop := idx_wf b /\ tagShift b <= 32.

Lemma extractSet_mod b a : idx_wf b -> addr_ok a ->
  SetAssociative.extractSet a b = Z.shiftr a (setShift b) mod 2 ^ Z.log2 (numSets b).
Proof.
  intros Hwf Ha. pose proof (wf_setBits b Hwf). pose proof (wf_setShift b Hwf).
  unfold SetAssociative.extractSet.
  rewrite land_setMask by (done || apply shiftr_bound; lia). unfold u32. apply wrap_small.
  pose proof (Z.mod_pos_bound (Z.shiftr a (setShift b)) (2 ^ Z.log2 (numSets b)) ltac:(lia)).
  pose proof (Z.pow_le_mono_r 2 (Z.log2 (numSets b)) 31). lia.
Qed.

Lemma extractSet_bound b a : idx_wf b -> addr_ok a -> 0 <= SetAssociative.extractSet a b < numSets b.
Proof.
  intros Hwf Ha. rewrite extractSet_mod by done. pose proof (wf_setBits b Hwf).
  rewrite (wf_numSets b Hwf) at 3. apply Z.mod_pos_bound. lia.
Qed.

Definition set_locations (a : Z) (b : BaseIndexingPolicy) : list (Z * Z) :=
  (fun w => (SetAssociative.extractSet a b, Z.of_nat w)) <$> seq 0 (Z.to_nat (assoc b)).

Lemma places_wf (f : Z -> Z) (n : nat) (b : BaseIndexingPolicy) :
  Z.of_nat n = assoc b -> (0 < n)%nat -> (forall w, 0 <= w < assoc b -> 0 <= f w < numSets b) ->
  let ls := (fun w => (f (Z.of_nat w), Z.of_nat w)) <$> seq 0 n in
  NoDup ls /\ ls <> [] /\ forall l, l ∈ ls -> in_table l b.
Proof.
  intros Hn Hpos Hf. split_and!.
  - apply NoDup_fmap; [|apply NoDup_seq]. intros x y [= _ E]. lia.
  - destruct n; [lia|done].
  - intros l (w & -> & Hw)%list_elem_of_fmap. apply elem_of_seq in Hw. split; simpl; [apply Hf|]; lia.
Qed.

#[global] Instance SetAssociative_lawful : LawfulIndexing BaseIndexingPolicy set_wf.
Proof.
  refine {| locations := set_locations |}.
  - by intros p [Hwf _].
  - intros p b [Hwf Ht] (E1 & E2 & E3 & E4 & E5) Hb. simpl in *. split_and!; [split; [done|lia]|done|].
    intros a. unfold set_locations, SetAssociative.extractSet. by rewrite E1, E3, E4.
  - intros p a [Hwf _] Ha. pose proof (wf_assoc p Hwf).
    apply (places_wf (fun _ => SetAssociative.extractSet a p)); simpl; [lia|lia|].
    intros. by apply extractSet_bound.
  - intros p a [Hwf _] Ha. simpl. unfold set_locations, SetAssociative.extractSet.
    pose proof (wf_setShift p Hwf). by rewrite shiftr_block_of by lia.
  - intros p a [Hwf _] Ha. simpl. unfold SetAssociative.getPossibleEntries.
    pose proof (extractSet_bound p a Hwf Ha) as Hs.
    destruct (lookup_lt_is_Some_2 (sets p) (Z.to_nat (SetAssociative.extractSet a p))) as [row Hrow].
    { rewrite (wf_rows p Hwf). lia. }
    rewrite Hrow. f_equal. pose proof (Forall_lookup_1 _ _ _ _ (wf_row p Hwf) Hrow) as Hlen. simpl in Hlen.
    apply list_eq. intros i. unfold set_locations. rewrite <- list_fmap_compose, list_lookup_fmap.
    destruct (Nat.lt_ge_cases i (length row)).
    + rewrite lookup_seq_lt by lia. simpl. unfold entry_at, slot. simpl. rewrite Hrow. simpl.
      rewrite Nat2Z.id. destruct (lookup_lt_is_Some_2 row i) as [e ->]; done.
    + rewrite lookup_seq_ge, lookup_ge_None_2 by lia. done.
  - intros p a l [Hwf Ht] Ha (w & -> & _)%list_elem_of_fmap. simpl in *. unfold SetAssociative.regenerateAddr.
    f_equal. simpl. pose proof (wf_setBits p Hwf). pose proof (wf_setShift p Hwf).
    unfold extractTag. rewrite (wf_tagShift p Hwf) in *. apply compose_addr; [lia|lia|lia|done|].
    rewrite extractSet_mod by done. unfold u32. apply wrap_small.
    pose proof (shiftl_small (Z.shiftr a (setShift p) mod 2 ^ Z.log2 (numSets p)) (Z.log2 (numSets p)) (setShift p)).
    pose proof (Z.mod_pos_bound (Z.shiftr a (setShift p)) (2 ^ Z.log2 (numSets p)) ltac:(lia)).
    pose proof (Z.pow_le_mono_r 2 (setShift p + Z.log2 (numSets p)) 32). lia.
Qed.

(** ** Skewed-associative indexing is lawful *)

Import SkewedAssociative.

Record skew_wf (p : SkewedAssociative) : Prop := {
  sk_base : idx_wf (base p);
  sk_msb : msbShift p = Z.log2 (numSets (base p)) - 1;
  sk_two : 1 <= msbShift p;
  sk_fits : setShift (base p) + 2 * (msbShift p + 1) <= 64
}.

Lemma skew_base_wf p : skew_wf p -> 1 <= msbShift p <= 31 /\ Z.log2 (numSets (base p)) = msbShift p + 1.
Proof. intros [Hwf E H2 _]. pose proof (wf_setBits _ Hwf). lia. Qed.

Lemma new_skew_wf p_size p_entry_size p_assoc p :
  p_entry_size < 2 ^ 31 -> new_SkewedAssociative p_size p_entry_size p_assoc = Ok p -> skew_wf p.
Proof.
  intros He. unfold new_SkewedAssociative.
  destruct (new_BaseIndexingPolicy p_size p_entry_size p_assoc) as [b|] eqn:Eb; [|done].
  cbn [mbind res_bind]. pose proof (new_idx_wf _ _ _ _ He Eb) as Hwf.
  pose proof (wf_setBits b Hwf) as Hk. pose proof (wf_numSets b Hwf) as Hn.
  assert (numSets b <= 2 ^ 31) by (rewrite Hn; apply Z.pow_le_mono_r; lia).
  rewrite floorLog2_run by (lia || (change (8 * 4) with 32; lia)). cbn [mbind res_bind].
  unfold panic_r. destruct (64 <? _) eqn:E1; cbn [mbind res_bind]; [done|].
  case_match eqn:E2; [done|]. intros [= <-]. apply Z.ltb_ge in E1. apply Z.leb_gt in E2.
  split; simpl; [done|done| |lia].
  assert (2 <= Z.log2 (numSets b)); [|lia].
  destruct (Z.le_gt_cases 2 (Z.log2 (numSets b))); [done|].
  pose proof (Z.pow_le_mono_r 2 (Z.log2 (numSets b)) 1). lia.
Qed.

(** The address handed to [deskew] carries the skewed set below the tag. *)
Lemma bits_addr_set m tag s : 1 <= m <= 31 -> 0 <= tag -> small m s ->
  bits (Z.lor (u64 (Z.shiftl tag (m + 1))) s) m 0 = s
  /\ bits (Z.lor (u64 (Z.shiftl tag (m + 1))) s) (2 * (m + 1) - 1) (m + 1) = bits tag m 0.
Proof.
  intros Hm Ht Hs. split; apply Z.bits_inj'; intros i Hi.
  - rewrite bits_testbit, Z.lor_spec, u64_testbit, Z.shiftl_spec by lia. rewrite Z.add_0_r.
    destruct (Z.ltb_spec i (m - 0 + 1)); simpl.
    + rewrite (Z.testbit_neg_r tag) by lia. by rewrite andb_false_r.
    + symmetry. apply (testbit_small m); done || lia.
  - rewrite !bits_testbit, Z.lor_spec, u64_testbit, Z.shiftl_spec by lia.
    replace (2 * (m + 1) - 1 - (m + 1) + 1) with (m - 0 + 1) by lia.
    destruct (Z.ltb_spec i (m - 0 + 1)); simpl; [|done].
    rewrite (testbit_small m s) by (done || lia). rewrite (proj2 (Z.ltb_lt _ 64)) by lia.
    rewrite orb_false_r. simpl. f_equal. lia.
Qed.

Lemma bits_low m x : 0 <= m < 63 -> bits x m 0 = x mod 2 ^ (m + 1).
Proof.
  intros Hm. unfold bits. rewrite Z.shiftr_0_r, mask_ones by lia.
  replace (m - 0 + 1) with (m + 1) by lia. by rewrite Z.land_ones by lia.
Qed.

Lemma bits_shiftr x f l k : 0 <= l -> 0 <= k -> bits (Z.shiftr x k) f l = bits x (f + k) (l + k).
Proof. intros. unfold bits. rewrite Z.shiftr_shiftr by done. f_equal; [f_equal; lia|f_equal; lia]. Qed.

Lemma land_small b x : idx_wf b -> 0 <= x < numSets b -> Z.land x (setMask b) = x.
Proof. intros Hwf Hx. rewrite land_setMask by (done || lia). rewrite <- wf_numSets by done. by apply Z.mod_small. Qed.

Lemma skew_place p a way : skew_wf p -> addr_ok a -> 0 <= way ->
  exists set, extractSet a way p = Ok set /\ 0 <= set < numSets (base p)
    /\ regenerateAddr (extractTag a (base p)) (set, way) p = Ok (block_of (setShift (base p)) a).
Proof.
  intros Hp Ha Hw. destruct (skew_base_wf p Hp) as [Hm Hlog]. destruct Hp as [Hwf Emsb H2 Hfit].
  pose proof (wf_setShift _ Hwf) as Hss. pose proof (wf_numSets _ Hwf) as Hns. rewrite Hlog in Hns.
  set (m := msbShift p) in *. set (b := base p) in *. set (x := Z.shiftr a (setShift b)).
  destruct (skew_roundtrip m Hm x way) as (s & Hs & Hsm & Hd); [lia|done|].
  exists s. assert (0 <= s < numSets b) as Hsb by (rewrite Hns; exact Hsm).
  assert (numSets b <= 2 ^ 32) by (rewrite Hns; apply Z.pow_le_mono_r; lia).
  split_and!; [|lia|lia|].
  - unfold extractSet. fold m b x. rewrite Hs. cbn [mbind res_bind]. f_equal.
    rewrite land_small by done. unfold u32. apply wrap_small. lia.
  - unfold regenerateAddr. cbn [fst snd]. fold m b. set (tag := extractTag a b).
    assert (tag = Z.shiftr x (m + 1)) as Htag.
    { unfold tag, extractTag, x. rewrite (wf_tagShift _ Hwf), Hlog, Z.shiftr_shiftr by lia. f_equal. }
    assert (0 <= tag) by (unfold tag, extractTag; apply Z.shiftr_nonneg; lia).
    destruct (bits_addr_set m tag s Hm ltac:(done) Hsm) as [E1 E2].
    rewrite (Hd _ E1); [|rewrite E2, Htag, bits_shiftr by lia; f_equal; lia]. cbn [mbind res_bind]. f_equal.
    assert (0 <= bits x m 0 < numSets b) as Hb by (rewrite Hns; apply bits_small; lia).
    rewrite land_small by done. unfold tag, extractTag. rewrite (wf_tagShift _ Hwf), Hlog.
    apply compose_addr; [lia|lia|lia|done|]. fold x. rewrite <- bits_low by lia. apply u64_small.
    pose proof (shiftl_small (bits x m 0) (m + 1) (setShift b)).
    pose proof (Z.pow_le_mono_r 2 (setShift b + (m + 1)) 64). rewrite Hns in Hb. lia.
Qed.

Definition skew_set (a : Z) (p : SkewedAssociative) (way : Z) : Z :=
  match extractSet a way p with Ok s => s | Err _ => 0 end.
Definition skew_locations (a : Z) (p : SkewedAssociative) : list (Z * Z) :=
  (fun w => (skew_set a p (Z.of_nat w), Z.of_nat w)) <$> seq 0 (Z.to_nat (assoc (base p))).

Lemma skew_set_run p a way : skew_wf p -> addr_ok a -> 0 <= way ->
  extractSet a way p = Ok (skew_set a p way) /\ 0 <= skew_set a p way < numSets (base p).
Proof. intros Hp Ha Hw. destruct (skew_place p a way Hp Ha Hw) as (s & E & Hb & _). unfold skew_set. by rewrite E. Qed.

Lemma possible_ways_run p a n w : skew_wf p -> addr_ok a -> Z.of_nat w + Z.of_nat n <= assoc (base p) ->
  possible_ways n (Z.of_nat w) a p
  = Ok ((fun v => entry_at (skew_set a p (Z.of_nat v), Z.of_nat v) (base p)) <$> seq w n).
Proof.
  intros Hp Ha. revert w. induction n as [|n IH]; intros w Hn; [done|]. simpl.
  destruct (skew_set_run p a (Z.of_nat w) Hp Ha) as [-> Hb]; [lia|]. cbn [mbind res_bind].
  rewrite getEntry_run; [|apply Hp|split; simpl; lia].
  cbn [mbind res_bind]. replace (Z.of_nat w + 1) with (Z.of_nat (S w)) by lia. by rewrite IH by lia.
Qed.

#[global] Instance SkewedAssociative_lawful : LawfulIndexing SkewedAssociative skew_wf.
Proof.
  refine {| locations := skew_locations |}.
  - by intros p [Hwf].
  - intros p b [Hwf E1 E2 E3] (D1 & D2 & D3 & D4 & D5) Hb. simpl in *. split_and!; [split; simpl|done|].
    + done.
    + by rewrite D2.
    + done.
    + by rewrite D3.
    + intros a. unfold skew_locations, skew_set, extractSet. simpl. by rewrite D1, D3, D4.
  - intros p a Hp Ha. pose proof (wf_assoc _ (sk_base p Hp)). simpl.
    apply (places_wf (skew_set a p)); [lia|lia|]. intros w Hw. apply skew_set_run; done || lia.
  - intros p a Hp Ha. simpl. unfold skew_locations, skew_set, extractSet.
    pose proof (wf_setShift _ (sk_base p Hp)). by rewrite shiftr_block_of by lia.
  - intros p a Hp Ha. simpl. unfold getPossibleEntries. pose proof (wf_assoc _ (sk_base p Hp)).
    rewrite (possible_ways_run p a _ 0) by (done || lia). unfold skew_locations.
    by rewrite <- list_fmap_compose.
  - intros p a l Hp Ha (w & -> & _)%list_elem_of_fmap. simpl.
    destruct (skew_place p a (Z.of_nat w) Hp Ha) as (s & E & _ & Hr); [lia|]. unfold skew_set. by rewrite E.
Qed.

(** C33: in every skewed-associative table the constructor accepts, each way
    maps an address to a set of the table, [regenerateAddr] recovers the block
    address from the tag and that place ([deskew] undoes [skew] for all eight
    functions and for the hashes piled on top of them), and so two blocks with
    the same tag never share a place. *)
Theorem skewed_roundtrip p_size p_entry_size p_assoc p a way :
  p_entry_size < 2 ^ 31 -> new_SkewedAssociative p_size p_entry_size p_assoc = Ok p ->
  addr_ok a -> 0 <= way < assoc (base p) ->
  exists set, extractSet a way p = Ok set /\ 0 <= set < numSets (base p)
    /\ regenerateAddr (extractTag a (base p)) (set, way) p = Ok (block_of (setShift (base p)) a)
    /\ forall a', addr_ok a' -> extractTag a' (base p) = extractTag a (base p) ->
         extractSet a' way p = Ok set -> block_of (setShift (base p)) a' = block_of (setShift (base p)) a.
Proof.
  intros He Hp Ha Hw. apply new_skew_wf in Hp; [|done].
  destruct (skew_place p a way Hp Ha) as (set & Es & Hb & Hr); [lia|].
  exists set. split_and!; try done; try lia. intros a' Ha' Ht Es'.
  destruct (skew_place p a' way Hp Ha') as (set' & Es2 & _ & Hr'); [lia|].
  assert (set' = set) as -> by congruence. rewrite Ht in Hr'. congruence.
Qed.

Lemma skewed_roundtrip_witness :
  exists p, new_SkewedAssociative 8192 64 16 = Ok p /\
  exists set, extractSet 0xdeadbeef 13 p = Ok set
    /\ regenerateAddr (extractTag 0xdeadbeef (base p)) (set, 13) p = Ok 0xdeadbec0.
Proof.
  eexists. split; [vm_compute; reflexivity|].
  match goal with |- exists set, extractSet _ _ ?p = _ /\ _ =>
    destruct (skewed_roundtrip 8192 64 16 p 0xdeadbeef 13) as (set & E & _ & Hr & _) end;
    [lia|by vm_compute|lia|simpl; lia|].
  exists set. split; [exact E|exact Hr].
Defined.

(** The set number is shifted at 32 bits: in a table whose ways span more than
    4 GiB the regenerated address of a block is another block's. *)
Theorem set_regenerate_truncates p :
  setShift p = 7 -> tagShift p = 33 -> setMask p = 2 ^ 26 - 1 ->
  SetAssociative.regenerateAddr (extractTag (2 ^ 32) p) (SetAssociative.extractSet (2 ^ 32) p, 0) p = Ok 0.
Proof.
  intros E1 E2 E3. unfold SetAssociative.regenerateAddr, extractTag, SetAssociative.extractSet.
  rewrite E1, E2, E3. by vm_compute.
Qed.
