(* ===== verification/CacheBlk.v ===== *)
(** * Cache blocks (mem/cache/cache_blk.hh, mem/cache/cache_blk.cc,
    mem/cache/replacement_policies/replaceable_entry.hh)

    A block with its status bits, its place in the table and the list of
    load-locked reservations on it.  [data] is the block's offset in the data
    array of the tags ([None]: the null pointer).  The theorem at the end reads
    the success of a store-conditional off the history of the block; printing
    is left out. *)

From S2P Require Import Prelude EventQ Packet Request PacketData.

(** ** Data *)

Definition BlkValid : Z := 0x01.
Definition BlkWritable : Z := 0x02.
Definition BlkReadable : Z := 0x04.
Definition BlkDirty : Z := 0x08.
Definition BlkHWPrefetched : Z := 0x20.
Definition BlkSecure : Z := 0x40.
Definition BlkCompressed : Z := 0x80.

Record Lock := mkLock { lk_contextId : Z; lowAddr : Z; highAddr : Z }.
#[global] Instance Lock_eq_dec : EqDecision Lock.
Proof. solve_decision. Defined.

Record CacheBlk := mkBlk {
  blk_set : Z;
  blk_way : Z;
  task_id : Z;
  blk_tag : Z;
  blk_data : option Z;
  status : Z;
  whenReady : Z;
  refCount : Z;
  srcMasterId : Z;
  tickInserted : Z;
  lockList : list Lock
}.

Definition setPosition (set way : Z) (b : CacheBlk) : CacheBlk :=
  mkBlk set way (task_id b) (blk_tag b) (blk_data b) (status b) (whenReady b) (refCount b) (srcMasterId b)
    (tickInserted b) (lockList b).
Definition set_blk_data (d : option Z) (b : CacheBlk) : CacheBlk :=
  mkBlk (blk_set b) (blk_way b) (task_id b) (blk_tag b) d (status b) (whenReady b) (refCount b)
    (srcMasterId b) (tickInserted b) (lockList b).
Definition set_status (x : Z) (b : CacheBlk) : CacheBlk :=
  mkBlk (blk_set b) (blk_way b) (task_id b) (blk_tag b) (blk_data b) x (whenReady b) (refCount b)
    (srcMasterId b) (tickInserted b) (lockList b).
Definition set_whenReady (x : Z) (b : CacheBlk) : CacheBlk :=
  mkBlk (blk_set b) (blk_way b) (task_id b) (blk_tag b) (blk_data b) (status b) x (refCount b)
    (srcMasterId b) (tickInserted b) (lockList b).
Definition set_refCount (x : Z) (b : CacheBlk) : CacheBlk :=
  mkBlk (blk_set b) (blk_way b) (task_id b) (blk_tag b) (blk_data b) (status b) (whenReady b) x
    (srcMasterId b) (tickInserted b) (lockList b).
Definition set_lockList (l : list Lock) (b : CacheBlk) : CacheBlk :=
  mkBlk (blk_set b) (blk_way b) (task_id b) (blk_tag b) (blk_data b) (status b) (whenReady b) (refCount b)
    (srcMasterId b) (tickInserted b) l.

(** ** Status *)

Definition has_bits (needed_bits : Z) (b : CacheBlk) : bool := Z.land (status b) needed_bits =? needed_bits.
Definition isWritable : CacheBlk -> bool := has_bits (Z.lor BlkWritable BlkValid).
Definition isReadable : CacheBlk -> bool := has_bits (Z.lor BlkReadable BlkValid).
Definition blk_isValid (b : CacheBlk) : bool := negb (Z.land (status b) BlkValid =? 0).
Definition isDirty (b : CacheBlk) : bool := negb (Z.land (status b) BlkDirty =? 0).
Definition wasPrefetched (b : CacheBlk) : bool := negb (Z.land (status b) BlkHWPrefetched =? 0).
Definition blk_isSecure (b : CacheBlk) : bool := negb (Z.land (status b) BlkSecure =? 0).

Definition setValid (b : CacheBlk) : res CacheBlk :=
  assert_r (negb (blk_isValid b)) "!isValid()";; Ok (set_status (Z.lor (status b) BlkValid) b).
Definition setSecure (b : CacheBlk) : CacheBlk := set_status (Z.lor (status b) BlkSecure) b.

Definition getWhenReady (b : CacheBlk) : res Z :=
  assert_r (negb (whenReady b =? MaxTick)) "whenReady != MaxTick";; Ok (whenReady b).
Definition setWhenReady (tick : Z) (b : CacheBlk) : res CacheBlk :=
  assert_r (tickInserted b <=? tick) "tick >= tickInserted";; Ok (set_whenReady tick b).

Definition blk_invalidate (b : CacheBlk) : CacheBlk :=
  mkBlk (blk_set b) (blk_way b) Unknown_task MaxAddr (blk_data b) 0 MaxTick 0 invldMasterId (tickInserted b) [].

(** The constructor; the place is set by the indexing policy later. *)
Definition new_CacheBlk : CacheBlk := blk_invalidate (mkBlk 0 0 0 0 None 0 0 0 0 0 []).

Definition blk_insert (now tag : Z) (is_secure : bool) (src_master_ID task_ID : Z) (b : CacheBlk) : res CacheBlk :=
  assert_r (status b =? 0) "status == 0";;
  let b := mkBlk (blk_set b) (blk_way b) task_ID tag (blk_data b) (status b) (whenReady b) 1 src_master_ID
             now (lockList b) in
  setValid (if is_secure then setSecure b else b).

(** ** Reservations *)

Definition req_high (r : Request) : res Z :=
  req_low ← getPaddr r; n ← rq_getSize r; Ok (u64 (req_low + n - 1)).

Definition lk_matches (l : Lock) (r : Request) : res bool :=
  req_low ← getPaddr r;
  req_high ← req_high r;
  cid ← contextId r;
  Ok ((lk_contextId l =? cid) && (lowAddr l <=? req_low) && (req_high <=? highAddr l)).

Definition lk_intersects (l : Lock) (r : Request) : res bool :=
  req_low ← getPaddr r;
  req_high ← req_high r;
  Ok ((req_low <=? highAddr l) && (lowAddr l <=? req_high)).

Definition new_Lock (r : Request) : res Lock :=
  cid ← contextId r; low ← getPaddr r; high ← req_high r; Ok (mkLock cid low high).

(** The loops that erase the locks a test selects. *)
Fixpoint erase_locks (test : Lock -> res bool) (l : list Lock) : res (list Lock) :=
  match l with
  | [] => Ok []
  | x :: l' => b ← test x; rest ← erase_locks test l'; Ok (if b : bool then rest else x :: rest)
  end.

Definition blk_trackLoadLocked (pkt : Pkt) (b : CacheBlk) : res CacheBlk :=
  assert_r (isLLSC (p_cmd pkt)) "pkt->isLLSC()";;
  l ← erase_locks (fun x => lk_intersects x (p_req pkt)) (lockList b);
  x ← new_Lock (p_req pkt);
  Ok (set_lockList (x :: l) b).

Definition clearLoadLocks (r : Request) (b : CacheBlk) : res CacheBlk :=
  l ← erase_locks (fun x =>
        i ← lk_intersects x r;
        if i : bool then cid ← contextId r; Ok (negb (lk_contextId x =? cid)) else Ok false) (lockList b);
  Ok (set_lockList l b).

(** The search of a store-conditional: the first matching lock is erased. *)
Fixpoint take_lock (r : Request) (l : list Lock) : res (bool * list Lock) :=
  match l with
  | [] => Ok (false, [])
  | x :: l' =>
      m ← lk_matches x r;
      if m : bool then Ok (true, l')
      else '(success, rest) ← take_lock r l'; Ok (success, x :: rest)
  end.

Definition checkWrite (pkt : Pkt) (b : CacheBlk) : res (bool * Pkt * CacheBlk) :=
  assert_r (isWrite (p_cmd pkt)) "pkt->isWrite()";;
  if negb (isLLSC (p_cmd pkt)) && bool_decide (lockList b = []) then Ok (true, pkt, b)
  else if isLLSC (p_cmd pkt) then
    '(success, l) ← take_lock (p_req pkt) (lockList b);
    let req := setExtraData (if success : bool then 1 else 0) (p_req pkt) in
    b ← clearLoadLocks req (set_lockList l b);
    Ok (success, set_p_req req pkt, b)
  else
    b ← clearLoadLocks (p_req pkt) b;
    Ok (true, pkt, b).

(** ** TempCacheBlk: the block outside the tags, which keeps its address *)

Record TempCacheBlk := mkTemp { tmp_blk : CacheBlk; tmp_addr : Z }.
Definition tmp_invalidate (t : TempCacheBlk) : TempCacheBlk := mkTemp (blk_invalidate (tmp_blk t)) MaxAddr.
Definition tmp_insert (addr : Z) (is_secure : bool) (t : TempCacheBlk) : res TempCacheBlk :=
  assert_r (status (tmp_blk t) =? 0) "status == 0";;
  b ← setValid (if is_secure then setSecure (tmp_blk t) else tmp_blk t);
  Ok (mkTemp b addr).
Definition tmp_getAddr (t : TempCacheBlk) : Z := tmp_addr t.

(** ** What a store-conditional sees *)

(** A request of a context, with a physical range that does not wrap. *)
Record ll_req (r : Request) : Prop := {
  llr_paddr : hasPaddr r = true;
  llr_hasSize : hasSize r = true;
  llr_cid : hasContextId r = true;
  llr_low : 0 <= rq_paddr r;
  llr_size : 0 < rq_size r;
  llr_high : rq_paddr r + rq_size r <= 2 ^ 64
}.

Definition lock_of (r : Request) : Lock := mkLock (rq_contextId r) (rq_paddr r) (rq_paddr r + rq_size r - 1).
Definition meets (l : Lock) (r : Request) : bool :=
  (rq_paddr r <=? highAddr l) && (lowAddr l <=? rq_paddr r + rq_size r - 1).
Definition covers (l : Lock) (r : Request) : bool :=
  (lk_contextId l =? rq_contextId r) && (lowAddr l <=? rq_paddr r) && (rq_paddr r + rq_size r - 1 <=? highAddr l).
Definition foreign (l : Lock) (r : Request) : bool := meets l r && negb (lk_contextId l =? rq_contextId r).

Lemma getPaddr_run r : ll_req r -> getPaddr r = Ok (rq_paddr r).
Proof. intros H. unfold getPaddr. by rewrite (llr_paddr r H). Qed.
Lemma contextId_run r : ll_req r -> contextId r = Ok (rq_contextId r).
Proof. intros H. unfold contextId. by rewrite (llr_cid r H). Qed.
Lemma req_high_run r : ll_req r -> req_high r = Ok (rq_paddr r + rq_size r - 1).
Proof.
  intros H. unfold req_high. rewrite getPaddr_run by done. cbn [mbind res_bind]. unfold rq_getSize.
  rewrite (llr_hasSize r H). cbn [assert_r mbind res_bind]. f_equal. apply u64_small.
  destruct H. lia.
Qed.
Lemma lk_matches_run l r : ll_req r -> lk_matches l r = Ok (covers l r).
Proof.
  intros H. unfold lk_matches. rewrite getPaddr_run, req_high_run, contextId_run by done. done.
Qed.
Lemma lk_intersects_run l r : ll_req r -> lk_intersects l r = Ok (meets l r).
Proof. intros H. unfold lk_intersects. rewrite getPaddr_run, req_high_run by done. done. Qed.
Lemma new_Lock_run r : ll_req r -> new_Lock r = Ok (lock_of r).
Proof. intros H. unfold new_Lock. rewrite contextId_run, getPaddr_run, req_high_run by done. done. Qed.

Lemma erase_locks_run test f l : (forall x, test x = Ok (f x)) ->
  erase_locks test l = Ok (filter (fun x => f x = false) l).
Proof.
  intros Ht. induction l as [|x l IH]; [done|]. simpl. rewrite Ht, IH. cbn [mbind res_bind].
  rewrite filter_cons. destruct (f x); [by rewrite decide_False|by rewrite decide_True].
Qed.

Lemma clearLoadLocks_run r b : ll_req r ->
  clearLoadLocks r b = Ok (set_lockList (filter (fun x => foreign x r = false) (lockList b)) b).
Proof.
  intros H. unfold clearLoadLocks. rewrite (erase_locks_run _ (fun x => foreign x r)); [done|].
  intros x. rewrite lk_intersects_run by done. cbn [mbind res_bind]. unfold foreign.
  destruct (meets x r); [|done]. by rewrite contextId_run.
Qed.

(** A flag other than the new one is not changed. *)
Lemma ll_req_setExtraData x r : ll_req r -> ll_req (setExtraData x r).
Proof.
  assert (forall f, Z.land 128 f = 0 -> forall g, fl_isSet (fl_set g 128) f = fl_isSet g f) as Hkeep.
  { intros f Hf g. unfold fl_isSet, fl_set. by rewrite Z.land_lor_distr_l, Hf, Z.lor_0_r. }
  intros [H1 H2 H3 H4 H5 H6].
  split; simpl; try done; unfold hasPaddr, hasSize, hasContextId in *; simpl; rewrite Hkeep; done.
Qed.

(** Locks are ranges that do not overlap, so that a request is covered by one
    at most. *)
Record locks_wf (l : list Lock) : Prop := {
  lw_nodup : NoDup l;
  lw_apart : forall x y, x ∈ l -> y ∈ l -> x <> y -> highAddr x < lowAddr y \/ highAddr y < lowAddr x
}.

Lemma blk_locks_wf_filter (f : Lock -> bool) l : locks_wf l -> locks_wf (filter (fun x => f x = false) l).
Proof.
  intros [Hn Ha]. split; [by apply NoDup_filter|].
  intros x y [_ Hx]%list_elem_of_filter [_ Hy]%list_elem_of_filter. by apply Ha.
Qed.

Lemma take_lock_run r l : ll_req r -> locks_wf l ->
  take_lock r l = Ok (bool_decide (Exists (fun x => covers x r = true) l), filter (fun x => covers x r = false) l).
Proof.
  intros Hr. induction l as [|x l IH]; intros [Hn Ha]; [done|]. simpl. rewrite lk_matches_run by done.
  cbn [mbind res_bind]. apply NoDup_cons in Hn as [Hx Hn]. rewrite filter_cons.
  destruct (covers x r) eqn:Ex.
  - rewrite decide_False by done. f_equal. f_equal.
    { symmetry. apply bool_decide_eq_true_2. by apply Exists_cons_hd. }
    symmetry. apply list_filter_all. apply Forall_forall. intros y Hy.
    destruct (covers y r) eqn:Ey; [|done]. exfalso.
    unfold covers in Ex, Ey. repeat rewrite andb_true_iff in Ex, Ey. destruct Hr.
    destruct (Ha x y); [set_solver|set_solver|by intros ->|lia|lia].
  - rewrite decide_True by done. rewrite IH by (split; [done|]; intros; apply Ha; set_solver).
    cbn [mbind res_bind]. f_equal. f_equal. apply bool_decide_ext. rewrite Exists_cons, Ex. naive_solver.
Qed.

(** Operations on a block: load-locked reads and writes of both kinds. *)
Inductive llop := LoadLocked (p : Pkt) | Store (p : Pkt).
Definition llop_run (o : llop) (b : CacheBlk) : res CacheBlk :=
  match o with
  | LoadLocked p => blk_trackLoadLocked p b
  | Store p => '(_, _, b') ← checkWrite p b; Ok b'
  end.
Fixpoint llops_run (os : list llop) (b : CacheBlk) : res CacheBlk :=
  match os with [] => Ok b | o :: os => b' ← llop_run o b; llops_run os b' end.

Definition llop_ok (o : llop) : Prop :=
  match o with
  | LoadLocked p => isLLSC (p_cmd p) = true /\ ll_req (p_req p)
  | Store p => isWrite (p_cmd p) = true /\ ll_req (p_req p)
  end.

(** The operation ends the reservation [l]. *)
Definition kills (o : llop) (l : Lock) : bool :=
  match o with
  | LoadLocked p => meets l (p_req p)
  | Store p => foreign l (p_req p) || isLLSC (p_cmd p) && covers l (p_req p)
  end.

(** The reservation [l] was made and has not been ended since. *)
Definition reserved_by (os : list llop) (l : Lock) : Prop :=
  exists pre p post, os = pre ++ LoadLocked p :: post /\ l = lock_of (p_req p)
    /\ Forall (fun o => kills o l = false) post.

Lemma llops_run_snoc os o b :
  llops_run (os ++ [o]) b = (b' ← llops_run os b; llop_run o b').
Proof.
  revert b. induction os as [|o' os IH]; intros b; simpl.
  - destruct (llop_run o b); done.
  - destruct (llop_run o' b); [apply IH|done].
Qed.

Lemma reserved_by_snoc os o l :
  reserved_by (os ++ [o]) l
  <-> (exists p, o = LoadLocked p /\ l = lock_of (p_req p)) \/ (reserved_by os l /\ kills o l = false).
Proof.
  split.
  - intros (pre & p & post & E & -> & Hk). destruct post as [|x post _] using rev_ind.
    + apply app_inj_tail in E as [_ ->]. left. by exists p.
    + rewrite app_comm_cons, app_assoc in E. apply app_inj_tail in E as [-> ->].
      apply Forall_app in Hk as [Hk [Hx _]%Forall_cons_1]. right. split; [|exact Hx]. by exists pre, p, post.
  - intros [(p & -> & ->)|[(pre & p & post & -> & -> & Hk) Hx]].
    + by exists os, p, [].
    + exists pre, p, (post ++ [o]). split; [by rewrite <- app_assoc|]. split; [done|].
      apply Forall_app. by rewrite Forall_singleton.
Qed.

Lemma checkWrite_run p b : isWrite (p_cmd p) = true -> ll_req (p_req p) -> locks_wf (lockList b) ->
  let llsc := isLLSC (p_cmd p) in
  let ok := negb llsc || bool_decide (Exists (fun x => covers x (p_req p) = true) (lockList b)) in
  exists p', checkWrite p b = Ok (ok, p',
    set_lockList (filter (fun x => kills (Store p) x = false) (lockList b)) b)
    /\ (llsc = true -> getExtraData (p_req p') = Ok (if ok then 1 else 0)).
Proof.
  intros Hw Hr Hwf llsc ok. unfold checkWrite. rewrite assert_r_true by done. unfold kills. fold llsc.
  unfold ok. destruct llsc eqn:El; simpl negb; simpl orb; cbn [andb].
  - rewrite take_lock_run by done. cbn [mbind res_bind].
    set (found := bool_decide _). rewrite clearLoadLocks_run by by apply ll_req_setExtraData.
    cbn [mbind res_bind lockList set_lockList].
    exists (set_p_req (setExtraData (if found then 1 else 0) (p_req p)) p). split; [|intros _; apply getExtraData_set].
    f_equal. f_equal. unfold set_lockList. simpl. f_equal. rewrite list_filter_filter.
    apply list_filter_iff. intros x. change (foreign x (setExtraData _ (p_req p))) with (foreign x (p_req p)).
    rewrite orb_false_iff. tauto.
  - exists p. split; [|done]. case_bool_decide as Hl.
    + rewrite Hl. destruct b; simpl in *; subst; done.
    + rewrite clearLoadLocks_run by done. cbn [mbind res_bind]. f_equal. f_equal. unfold set_lockList. f_equal.
      apply list_filter_iff. intros x. by rewrite orb_false_r.
Qed.

Lemma blk_trackLoadLocked_run p b : isLLSC (p_cmd p) = true -> ll_req (p_req p) ->
  blk_trackLoadLocked p b
  = Ok (set_lockList (lock_of (p_req p) :: filter (fun x => kills (LoadLocked p) x = false) (lockList b)) b).
Proof.
  intros Hl Hr. unfold blk_trackLoadLocked. rewrite assert_r_true by done.
  rewrite (erase_locks_run _ (fun x => meets x (p_req p))) by (intros; by apply lk_intersects_run).
  cbn [mbind res_bind]. by rewrite new_Lock_run.
Qed.

Lemma locks_wf_cons r l : locks_wf l -> ll_req r -> Forall (fun x => meets x r = false) l ->
  locks_wf (lock_of r :: l).
Proof.
  intros [Hn Ha] Hr Hm. rewrite Forall_forall in Hm.
  assert (forall x, x ∈ l -> highAddr x < rq_paddr r \/ rq_paddr r + rq_size r - 1 < lowAddr x) as Hap.
  { intros x Hx. specialize (Hm x Hx). unfold meets in Hm. apply andb_false_iff in Hm. lia. }
  split.
  - apply NoDup_cons. split; [|done]. intros Hin. destruct (Hap _ Hin); simpl in *; destruct Hr; lia.
  - intros x y Hx Hy Hne. apply elem_of_cons in Hx as [->|Hx], Hy as [->|Hy]; simpl; [done| | |by apply Ha].
    + destruct (Hap y Hy); lia.
    + destruct (Hap x Hx); lia.
Qed.

Lemma llops_locks os b : lockList b = [] -> Forall llop_ok os ->
  exists b', llops_run os b = Ok b' /\ locks_wf (lockList b')
    /\ forall l, l ∈ lockList b' <-> reserved_by os l.
Proof.
  intros Hb. induction os as [|o os IH] using rev_ind; intros Hok.
  { exists b. rewrite Hb. split; [done|]. split; [split; [constructor|set_solver]|].
    intros l. split; [set_solver|]. intros (pre & p & post & E & _). by destruct pre. }
  apply Forall_app in Hok as [Hos [Ho _]%Forall_cons_1]. destruct (IH Hos) as (b' & Hrun & Hwf & Hl).
  rewrite llops_run_snoc, Hrun. cbn [mbind res_bind]. destruct o as [p|p]; destruct Ho as [Hc Hr]; simpl.
  - rewrite blk_trackLoadLocked_run by done. eexists. split; [done|]. simpl. split.
    + apply locks_wf_cons; [by apply blk_locks_wf_filter|done|]. apply Forall_forall.
      by intros x [Hx _]%list_elem_of_filter.
    + intros l. rewrite elem_of_cons, list_elem_of_filter, Hl, reserved_by_snoc. naive_solver.
  - destruct (checkWrite_run p b' Hc Hr Hwf) as (p' & -> & _). cbn [mbind res_bind]. eexists. split; [done|].
    simpl. split; [by apply (blk_locks_wf_filter (kills (Store p)))|].
    intros l. rewrite list_elem_of_filter, Hl, reserved_by_snoc. naive_solver.
Qed.

(** C32: a store-conditional on a block succeeds exactly when its context made a
    load-locked access whose range covers it and no operation since has ended
    that reservation: a load-locked access that meets the range, a write of
    another context that meets it (a store-conditional too, even one that
    fails), or a store-conditional of the same context that used it up.  The
    outcome is reported in the request. *)
Theorem llsc_history os b p :
  lockList b = [] -> Forall llop_ok os -> llop_ok (Store p) -> isLLSC (p_cmd p) = true ->
  exists b' ok p' b'', llops_run os b = Ok b' /\ checkWrite p b' = Ok (ok, p', b'')
    /\ getExtraData (p_req p') = Ok (if ok : bool then 1 else 0)
    /\ (ok = true <-> exists l, reserved_by os l /\ covers l (p_req p) = true).
Proof.
  intros Hb Hos [Hw Hr] Hl. destruct (llops_locks os b Hb Hos) as (b' & Hrun & Hwf & Hres).
  destruct (checkWrite_run p b' Hw Hr Hwf) as (p' & Hc & Hx). rewrite Hl in *.
  eexists b', _, p', _. split; [done|]. split; [exact Hc|]. split; [by apply Hx|].
  simpl. rewrite bool_decide_eq_true, Exists_exists. by setoid_rewrite Hres.
Qed.

Definition ll_demo_req (cid addr : Z) : Request := setContext cid (new_Request_phys 0 addr 4 0 5).
Definition demo_ll (cid addr : Z) : llop := LoadLocked (new_Pkt 0 (ll_demo_req cid addr) LoadLockedReq).
Definition demo_sc (cid addr : Z) : Pkt := new_Pkt 1 (ll_demo_req cid addr) StoreCondReq.
Lemma demo_ll_ok cid addr : 0 <= addr < 2 ^ 63 -> llop_ok (demo_ll cid addr).
Proof. intros Ha. split; [done|]. split; [by vm_compute|by vm_compute|by vm_compute|simpl; lia|simpl; lia|simpl; lia]. Qed.
Lemma demo_sc_ok cid addr : 0 <= addr < 2 ^ 63 -> llop_ok (Store (demo_sc cid addr)).
Proof. intros Ha. split; [done|]. split; [by vm_compute|by vm_compute|by vm_compute|simpl; lia|simpl; lia|simpl; lia]. Qed.

Lemma llsc_history_witness :
  exists b' ok p' b'', llops_run [demo_ll 1 0x100; demo_ll 2 0x200] new_CacheBlk = Ok b'
    /\ checkWrite (demo_sc 1 0x100) b' = Ok (ok, p', b'') /\ ok = true.
Proof.
  destruct (llsc_history [demo_ll 1 0x100; demo_ll 2 0x200] new_CacheBlk (demo_sc 1 0x100))
    as (b' & ok & p' & b'' & H1 & H2 & _ & H4);
    [done|repeat constructor; by apply demo_ll_ok|by apply demo_sc_ok|done|].
  exists b', ok, p', b''. split; [exact H1|]. split; [exact H2|]. apply H4.
  exists (lock_of (ll_demo_req 1 0x100)). split; [|by vm_compute].
  exists [], (new_Pkt 0 (ll_demo_req 1 0x100) LoadLockedReq), [demo_ll 2 0x200].
  split; [done|]. split; [done|]. repeat constructor.
Defined.

(** A store-conditional that fails still clears the reservations of other
    contexts: when two contexts take turns, both fail, and the block is back in
    its first state. *)
Theorem failed_sc_clears_others :
  exists b1 p1 b2 p2,
    llops_run [demo_ll 1 0x100; demo_ll 2 0x100] new_CacheBlk = Ok b1
    /\ checkWrite (demo_sc 1 0x100) b1 = Ok (false, p1, b2)
    /\ checkWrite (demo_sc 2 0x100) b2 = Ok (false, p2, new_CacheBlk).
Proof.
  exists (set_lockList [lock_of (ll_demo_req 2 0x100)] new_CacheBlk).
  exists (set_p_req (setExtraData 0 (ll_demo_req 1 0x100)) (demo_sc 1 0x100)), new_CacheBlk.
  exists (set_p_req (setExtraData 0 (ll_demo_req 2 0x100)) (demo_sc 2 0x100)).
  split_and!; by vm_compute.
Qed.
