(* ===== verification/Tags.v ===== *)
(** * Set-associative cache tags (mem/cache/tags/base.{hh,cc}, base_set_assoc.{hh,cc})

    The tags own the blocks, an indexing policy and a replacement policy, both
    by their interfaces.  Blocks and their replacement data are numbered; a
    pointer to a block is its number.  The warm-up bound, a product of
    floating-point numbers, and the number of masters of the system are
    parameters. *)

From S2P Require Import Prelude IntMath EventQ Packet Request PacketData Indexing CacheBlk ReplPolicy.

Record BaseTagStats := mkTagStats {
  tagsInUse : Z;
  totalRefs : Z;
  sampledRefs : Z;
  warmupCycle : Z;
  occupancies : gmap Z Z;
  occupanciesTaskId : gmap Z Z;
  ageTaskId : gmap (Z * Z) Z;
  tagAccesses : Z;
  dataAccesses : Z
}.
Definition count_up {K} `{Countable K} (n : Z) (k : K) (m : gmap K Z) : gmap K Z :=
  <[k := default 0 (m !! k) + n]> m.

Record BaseSetAssoc (P D : Type) := mkTags {
  blkSize : Z;
  lookupLatency : Z;
  maxMasters : Z;
  indexingPolicy : P;
  warmupBound : Z;
  warmedUp : bool;
  numBlocks : Z;
  tag_stats : BaseTagStats;
  allocAssoc : Z;
  blks : list CacheBlk;
  sequentialAccess : bool;
  replacementData : Store D
}.
Arguments mkTags {P D}.
Arguments blkSize {P D}. Arguments lookupLatency {P D}. Arguments maxMasters {P D}.
Arguments indexingPolicy {P D}. Arguments warmupBound {P D}. Arguments warmedUp {P D}.
Arguments numBlocks {P D}. Arguments tag_stats {P D}. Arguments allocAssoc {P D}.
Arguments blks {P D}. Arguments sequentialAccess {P D}. Arguments replacementData {P D}.

Section Tags.
Context {P D : Type} `{!IndexingPolicy P} `{!BaseReplacementPolicy D}.
Implicit Types t : BaseSetAssoc P D.
Abbreviation T := (M (BaseSetAssoc P D)).

Definition set_indexing (p : P) t : BaseSetAssoc P D :=
  mkTags (blkSize t) (lookupLatency t) (maxMasters t) p (warmupBound t) (warmedUp t) (numBlocks t)
    (tag_stats t) (allocAssoc t) (blks t) (sequentialAccess t) (replacementData t).
Definition set_warmedUp (b : bool) t : BaseSetAssoc P D :=
  mkTags (blkSize t) (lookupLatency t) (maxMasters t) (indexingPolicy t) (warmupBound t) b (numBlocks t)
    (tag_stats t) (allocAssoc t) (blks t) (sequentialAccess t) (replacementData t).
Definition set_stats (s : BaseTagStats) t : BaseSetAssoc P D :=
  mkTags (blkSize t) (lookupLatency t) (maxMasters t) (indexingPolicy t) (warmupBound t) (warmedUp t)
    (numBlocks t) s (allocAssoc t) (blks t) (sequentialAccess t) (replacementData t).
Definition set_allocAssoc (n : Z) t : BaseSetAssoc P D :=
  mkTags (blkSize t) (lookupLatency t) (maxMasters t) (indexingPolicy t) (warmupBound t) (warmedUp t)
    (numBlocks t) (tag_stats t) n (blks t) (sequentialAccess t) (replacementData t).
Definition set_blks (l : list CacheBlk) t : BaseSetAssoc P D :=
  mkTags (blkSize t) (lookupLatency t) (maxMasters t) (indexingPolicy t) (warmupBound t) (warmedUp t)
    (numBlocks t) (tag_stats t) (allocAssoc t) l (sequentialAccess t) (replacementData t).
Definition set_replacement (s : Store D) t : BaseSetAssoc P D :=
  mkTags (blkSize t) (lookupLatency t) (maxMasters t) (indexingPolicy t) (warmupBound t) (warmedUp t)
    (numBlocks t) (tag_stats t) (allocAssoc t) (blks t) (sequentialAccess t) s.
Definition on_stats (f : BaseTagStats -> BaseTagStats) : T unit :=
  modify (fun t => set_stats (f (tag_stats t)) t).

(** ** Construction *)

Definition new_BaseSetAssoc (p_size p_block_size p_assoc p_tag_latency bound masters : Z)
    (sequential : bool) (indexing : P) : res (BaseSetAssoc P D) :=
  if p_block_size =? 0 then Err (EUndefined "division by zero")
  else
    let blkSize := u32 p_block_size in
    let n := p_size / u64 p_block_size in
    if (blkSize <? 4) || negb (isPowerOf2 blkSize)
    then Err (EFatal "Block size must be at least 4 and a power of 2")
    else Ok (mkTags blkSize p_tag_latency masters indexing bound false (u32 n)
               (mkTagStats 0 0 0 0 ∅ ∅ ∅ 0 0) (u32 p_assoc)
               (replicate (Z.to_nat n) new_CacheBlk) sequential ∅).

(** [*blk] of a block pointer, and updating a block. *)
Definition get_blk (i : nat) : T CacheBlk :=
  l ← gets blks; match l !! i with Some b => mret b | None => throw (EUndefined "blk") end.
Definition put_blk (i : nat) (b : CacheBlk) : T unit := modify (fun t => set_blks (<[i := b]> (blks t)) t).

(** The body of the loop over the blocks. *)
Definition init_blk (blk_index : nat) : T unit :=
  b ← get_blk blk_index;
  p ← gets indexingPolicy;
  '(base, (set, way)) ← lift (setEntry blk_index (Z.of_nat blk_index) (ip_base p));
  modify (set_indexing (ip_set_base base p));;
  n ← gets blkSize;
  put_blk blk_index (set_blk_data (Some (n * Z.of_nat blk_index)) (setPosition set way b));;
  d ← lift rp_instantiateEntry;
  modify (fun t => set_replacement (<[blk_index := d]> (replacementData t)) t).
Definition tagsInit : T unit :=
  n ← gets numBlocks; forM_ (seq 0 (Z.to_nat n)) init_blk.

(** ** Lookup *)

Definition tags_extractTag (addr : Z) t : Z := extractTag addr (ip_base (indexingPolicy t)).

Fixpoint search_blk (tag : Z) (is_secure : bool) (entries : list (option nat)) (l : list CacheBlk)
    : res (option nat) :=
  match entries with
  | [] => Ok None
  | None :: _ => Err (EUndefined "null block")
  | Some i :: rest =>
      match l !! i with
      | None => Err (EUndefined "blk")
      | Some b =>
          if (blk_tag b =? tag) && blk_isValid b && Bool.eqb (blk_isSecure b) is_secure then Ok (Some i)
          else search_blk tag is_secure rest l
      end
  end.

Definition findBlock (addr : Z) (is_secure : bool) t : res (option nat) :=
  entries ← ip_getPossibleEntries addr (indexingPolicy t);
  search_blk (tags_extractTag addr t) is_secure entries (blks t).

Definition findBlockBySetAndWay (set way : Z) t : res (option nat) :=
  getEntry (u32 set) (u32 way) (ip_base (indexingPolicy t)).

Definition blkAlign (addr : Z) t : Z := Z.land addr (not64 (u64 (blkSize t - 1))).
Definition extractBlkOffset (addr : Z) t : Z := Z.land addr (u64 (blkSize t - 1)).

Definition regenerateBlkAddr (i : nat) t : res Z :=
  match blks t !! i with
  | Some b => ip_regenerateAddr (blk_tag b) (blk_set b, blk_way b) (indexingPolicy t)
  | None => Err (EUndefined "blk")
  end.

(** ** Operations *)

Definition on_replacement (i : nat) (f : D -> D) : T unit :=
  s ← gets replacementData;
  match s !! i with
  | Some d => modify (set_replacement (<[i := f d]> s))
  | None => throw (EUndefined "no replacement data")
  end.

Definition bump_accesses (tags data : Z) (s : BaseTagStats) : BaseTagStats :=
  mkTagStats (tagsInUse s) (totalRefs s) (sampledRefs s) (warmupCycle s) (occupancies s)
    (occupanciesTaskId s) (ageTaskId s) (tagAccesses s + tags) (dataAccesses s + data).
Definition bump_inUse (n : Z) (s : BaseTagStats) : BaseTagStats :=
  mkTagStats (tagsInUse s + n) (totalRefs s) (sampledRefs s) (warmupCycle s) (occupancies s)
    (occupanciesTaskId s) (ageTaskId s) (tagAccesses s) (dataAccesses s).
Definition bump_occupancy (m n : Z) (s : BaseTagStats) : BaseTagStats :=
  mkTagStats (tagsInUse s) (totalRefs s) (sampledRefs s) (warmupCycle s) (count_up n m (occupancies s))
    (occupanciesTaskId s) (ageTaskId s) (tagAccesses s) (dataAccesses s).
Definition bump_refs (n : Z) (s : BaseTagStats) : BaseTagStats :=
  mkTagStats (tagsInUse s) (totalRefs s + n) (sampledRefs s + 1) (warmupCycle s) (occupancies s)
    (occupanciesTaskId s) (ageTaskId s) (tagAccesses s) (dataAccesses s).
Definition set_warmupCycle (c : Z) (s : BaseTagStats) : BaseTagStats :=
  mkTagStats (tagsInUse s) (totalRefs s) (sampledRefs s) c (occupancies s)
    (occupanciesTaskId s) (ageTaskId s) (tagAccesses s) (dataAccesses s).

Definition accessBlock (now addr : Z) (is_secure : bool) : T (option nat * Z) :=
  t ← get;
  blk ← lift (findBlock addr is_secure t);
  on_stats (bump_accesses (allocAssoc t)
    (if sequentialAccess t then match blk with Some _ => 1 | None => 0 end else allocAssoc t));;
  match blk with
  | Some i =>
      b ← get_blk i;
      put_blk i (set_refCount (u32 (refCount b + 1)) b);;
      on_replacement i (rp_touch now)
  | None => mret tt
  end;;
  mret (blk, lookupLatency t).

(** The candidates handed to the replacement policy. *)
Fixpoint candidates (entries : list (option nat)) : res (list nat) :=
  match entries with
  | [] => Ok []
  | None :: _ => Err (EUndefined "null block")
  | Some i :: rest => l ← candidates rest; Ok (i :: l)
  end.

Definition findVictim (now rnd addr : Z) : T (nat * list nat) :=
  t ← get;
  entries ← lift (ip_getPossibleEntries addr (indexingPolicy t));
  cands ← lift (candidates entries);
  '(victim, s) ← lift (rp_getVictim now rnd cands (replacementData t));
  modify (set_replacement s);;
  mret (victim, [victim]).

(** [BaseTags::insertBlock] *)
Definition base_insertBlock (now : Z) (pkt : Pkt) (i : nat) : T unit :=
  b ← get_blk i;
  assert_ (negb (blk_isValid b)) "!blk->isValid()";;
  t ← get;
  let master_id := rq_masterId (p_req pkt) in
  assert_ (master_id <? maxMasters t) "master_id < system->maxMasters()";;
  on_stats (bump_occupancy master_id 1);;
  addr ← lift (getAddr pkt);
  is_secure ← lift (isSecure pkt);
  b' ← lift (blk_insert now (tags_extractTag addr t) is_secure master_id (rq_taskId (p_req pkt)) b);
  put_blk i b';;
  when_ (negb (warmedUp t) && (warmupBound t <=? tagsInUse (tag_stats t)))
    (modify (set_warmedUp true);; on_stats (set_warmupCycle now));;
  on_stats (bump_accesses 1 1).

Definition insertBlock (now rnd : Z) (pkt : Pkt) (i : nat) : T unit :=
  base_insertBlock now pkt i;;
  on_stats (bump_inUse 1);;
  on_replacement i (rp_reset now rnd).

(** [BaseTags::invalidate] *)
Definition base_invalidate (i : nat) : T unit :=
  b ← get_blk i;
  assert_ (blk_isValid b) "blk->isValid()";;
  on_stats (bump_occupancy (srcMasterId b) (-1));;
  on_stats (bump_refs (refCount b));;
  put_blk i (blk_invalidate b).

Definition tags_invalidate (i : nat) : T unit :=
  base_invalidate i;;
  on_stats (bump_inUse (-1));;
  on_replacement i rp_invalidate.

Definition setWayAllocationMax (ways : Z) : T unit :=
  fatal_if (ways <? 1) "Allocation limit must be greater than zero";; modify (set_allocAssoc ways).
Definition getWayAllocationMax t : Z := allocAssoc t.

(** ** Visitors *)

Definition anyBlk (visitor : CacheBlk -> bool) t : bool := existsb visitor (blks t).

Definition cleanupRefsVisitor (b : CacheBlk) (s : BaseTagStats) : BaseTagStats :=
  if blk_isValid b then bump_refs (refCount b) s else s.
Definition cleanupRefs : T unit :=
  modify (fun t => set_stats (fold_left (fun s b => cleanupRefsVisitor b s) (blks t) (tag_stats t)) t).

Definition NumTaskId : Z := 1025.

(** [us] and [ms] are the simulator's ticks per microsecond and millisecond. *)
Definition age_index (us ms age : Z) : Z :=
  if age / us <? 10 then 0 else if age / us <? 100 then 1 else if age / ms <? 1 then 2
  else if age / ms <? 10 then 3 else 4.

Definition computeStatsVisitor (now us ms : Z) (b : CacheBlk) : T unit :=
  when_ (blk_isValid b)
    (assert_ (task_id b <? NumTaskId) "blk.task_id < ContextSwitchTaskId::NumTaskId";;
     on_stats (fun s => mkTagStats (tagsInUse s) (totalRefs s) (sampledRefs s) (warmupCycle s) (occupancies s)
       (count_up 1 (task_id b) (occupanciesTaskId s)) (ageTaskId s) (tagAccesses s) (dataAccesses s));;
     assert_ (tickInserted b <=? now) "blk.tickInserted <= curTick()";;
     on_stats (fun s => mkTagStats (tagsInUse s) (totalRefs s) (sampledRefs s) (warmupCycle s) (occupancies s)
       (occupanciesTaskId s) (count_up 1 (task_id b, age_index us ms (now - tickInserted b)) (ageTaskId s))
       (tagAccesses s) (dataAccesses s))).

Definition computeStats (now us ms : Z) : T unit :=
  on_stats (fun s => mkTagStats (tagsInUse s) (totalRefs s) (sampledRefs s) (warmupCycle s) (occupancies s)
    ∅ ∅ (tagAccesses s) (dataAccesses s));;
  l ← gets blks; forM_ l (computeStatsVisitor now us ms).
End Tags.
