(* ===== verification/TagsProps.v ===== *)
(** * The tags are a directory of blocks

    The abstract state of the tags is a finite map from block addresses and
    security states to blocks.  [tags_inv t m] says that [t] represents [m];
    each operation of the tags is shown to act on the map, for every lawful
    indexing policy and every lawful replacement policy. *)

From S2P Require Import Prelude IntMath EventQ Packet Request PacketData Indexing IndexingProps CacheBlk ReplPolicy ReplPolicyProps Tags.

Definition place (b : CacheBlk) : Z * Z := (blk_set b, blk_way b).

Section Directory.
Context {P D : Type} `{!IndexingPolicy P} `{R : !BaseReplacementPolicy D}.
Context {wf : P -> Prop} `{!LawfulIndexing P wf} {ok : D -> Prop} `{!LawfulPolicy R ok}.
Implicit Types t : BaseSetAssoc P D.
Implicit Types m : gmap (Z * bool) nat.

Abbreviation base t := (ip_base (indexingPolicy t)).
Definition blk_addr (a : Z) t : Z := block_of (setShift (base t)) a.

(** Block [i] holds the block at address [a]. *)
Definition holds t (a : Z) (sec : bool) (i : nat) : Prop :=
  exists b, blks t !! i = Some b /\ blk_isValid b = true /\ blk_isSecure b = sec
    /\ addr_ok a /\ blk_addr a t = a /\ place b ∈ locations a (indexingPolicy t)
    /\ blk_tag b = extractTag a (base t).

Definition owned (master : Z) (b : CacheBlk) : Prop := blk_isValid b = true /\ srcMasterId b = master.
#[export] Instance owned_dec master b : Decision (owned master b).
Proof. apply _. Defined.

Record tags_inv t m : Prop := {
  ti_wf : wf (indexingPolicy t);
  ti_table l : in_table l (base t) ->
    exists i b, entry_at l (base t) = Some i /\ blks t !! i = Some b /\ place b = l;
  ti_place i b : blks t !! i = Some b -> in_table (place b) (base t) /\ entry_at (place b) (base t) = Some i;
  ti_repl i : is_Some (blks t !! i) -> is_Some (replacementData t !! i);
  ti_ok : map_Forall (fun _ d => ok d) (replacementData t);
  ti_rep a sec i : m !! (a, sec) = Some i <-> holds t a sec i;
  ti_valid i b : blks t !! i = Some b -> blk_isValid b = true -> exists a, holds t a (blk_isSecure b) i;
  ti_clear i b : blks t !! i = Some b -> blk_isValid b = false -> status b = 0;
  ti_inUse : tagsInUse (tag_stats t) = Z.of_nat (size m);
  ti_occ master : default 0 (occupancies (tag_stats t) !! master)
                  = Z.of_nat (length (filter (owned master) (blks t)))
}.

(** ** Lookup *)

Lemma search_blk_spec t m tag sec ls : tags_inv t m -> (forall l, l ∈ ls -> in_table l (base t)) ->
  exists o, search_blk tag sec ((fun l => entry_at l (base t)) <$> ls) (blks t) = Ok o
    /\ match o with
       | Some i => exists b, blks t !! i = Some b /\ place b ∈ ls /\ blk_tag b = tag /\ blk_isValid b = true
                     /\ blk_isSecure b = sec
       | None => forall i b, blks t !! i = Some b -> place b ∈ ls -> blk_tag b = tag -> blk_isValid b = true ->
                   blk_isSecure b <> sec
       end.
Proof using Type*.
  intros Hi. induction ls as [|l ls IH]; intros Hls; rewrite ?fmap_cons; cbn [search_blk].
  { exists None. split; [done|]. set_solver. }
  destruct (ti_table t m Hi l) as (i & b & -> & Hb & Hp); [set_solver|]. rewrite Hb.
  destruct ((blk_tag b =? tag) && blk_isValid b && Bool.eqb (blk_isSecure b) sec) eqn:E.
  - apply andb_true_iff in E as [[?%Z.eqb_eq ?]%andb_true_iff ?%Bool.eqb_prop].
    exists (Some i). split; [done|]. exists b. split_and!; try done. rewrite Hp. set_solver.
  - destruct IH as (o & -> & Ho); [set_solver|]. exists o. split; [done|]. destruct o as [j|].
    + destruct Ho as (b' & ? & ? & ? & ? & ?). exists b'. split_and!; try done. set_solver.
    + intros j b' Hb' [Hpl|Hpl]%elem_of_cons Ht Hv Hs; [|by eapply Ho].
      destruct (ti_place t m Hi i b Hb) as [_ E1]. destruct (ti_place t m Hi j b' Hb') as [_ E2].
      rewrite Hp in E1. rewrite Hpl in E2. assert (j = i) as -> by congruence. simplify_eq.
      rewrite Z.eqb_refl, Hv, Bool.eqb_reflx in E. done.
Qed.

Lemma extractTag_block t a : idx_wf (base t) -> extractTag (blk_addr a t) (base t) = extractTag a (base t).
Proof using Type.
  intros Hwf. unfold extractTag, blk_addr. apply shiftr_block_of.
  pose proof (wf_setShift _ Hwf). pose proof (wf_setBits _ Hwf). rewrite (wf_tagShift _ Hwf). lia.
Qed.

Lemma blk_addr_ok t a : idx_wf (base t) -> addr_ok a -> addr_ok (blk_addr a t).
Proof using Type. intros Hwf Ha. apply block_of_ok; [apply (wf_setShift _ Hwf)|done]. Qed.

Lemma block_of_idemp s a : 0 <= s -> block_of s (block_of s a) = block_of s a.
Proof using Type.
  intros Hs. apply Z.bits_inj'. intros i Hi. rewrite !testbit_block_of by done. by destruct (s <=? i).
Qed.

(** A block at a place of [a] with the tag of [a] holds the block of [a]. *)
Lemma holds_intro t a sec i b : wf (indexingPolicy t) -> addr_ok a ->
  blks t !! i = Some b -> blk_isValid b = true -> blk_isSecure b = sec ->
  place b ∈ locations a (indexingPolicy t) -> blk_tag b = extractTag a (base t) ->
  holds t (blk_addr a t) sec i.
Proof using Type*.
  intros Hwf Ha Hb Hv Hs Hp Ht. pose proof (law_base _ Hwf) as Hbase. exists b. split_and!; try done.
  - by apply blk_addr_ok.
  - by apply blk_addr_ok.
  - apply block_of_idemp, (wf_setShift _ Hbase).
  - unfold blk_addr. by rewrite law_block.
  - by rewrite extractTag_block.
Qed.

Lemma holds_address t a sec i : wf (indexingPolicy t) -> holds t a sec i -> regenerateBlkAddr i t = Ok a.
Proof using Type*.
  intros Hwf (b & Hb & _ & _ & Ha & E & Hp & Ht). unfold regenerateBlkAddr. rewrite Hb, Ht.
  change (blk_set b, blk_way b) with (place b). rewrite law_regenerate by done. f_equal. exact E.
Qed.

Lemma findBlock_run t m a sec : tags_inv t m -> addr_ok a -> findBlock a sec t = Ok (m !! (blk_addr a t, sec)).
Proof using Type*.
  intros Hi Ha. pose proof (ti_wf t m Hi) as Hwf. pose proof (law_base _ Hwf) as Hbase.
  unfold findBlock. rewrite law_possible by done. cbn [mbind res_bind].
  destruct (law_locations (indexingPolicy t) a Hwf Ha) as (_ & _ & Hin).
  destruct (search_blk_spec t m (tags_extractTag a t) sec (locations a (indexingPolicy t)) Hi Hin) as (o & -> & Ho).
  f_equal. destruct o as [i|].
  - destruct Ho as (b & Hb & Hp & Ht & Hv & Hs). symmetry. apply (ti_rep t m Hi). by apply (holds_intro t a sec i b).
  - symmetry. destruct (m !! (blk_addr a t, sec)) as [i|] eqn:E; [exfalso|done].
    apply (ti_rep t m Hi) in E as (b & Hb & Hv & Hs & _ & _ & Hp & Ht).
    unfold blk_addr in Hp. rewrite law_block in Hp by done.
    rewrite extractTag_block in Ht by done. by apply (Ho i b).
Qed.

(** ** Changing one block *)

Lemma count_insert (Q : CacheBlk -> Prop) `{!forall b, Decision (Q b)} l (i : nat) b b' : l !! i = Some b ->
  Z.of_nat (length (filter Q (<[i := b']> l)))
  = Z.of_nat (length (filter Q l)) - (if decide (Q b) then 1 else 0) + (if decide (Q b') then 1 else 0).
Proof using Type.
  revert i. induction l as [|x l IH]; intros [|i] Hl; [done|done| |].
  - simplify_eq/=. rewrite !filter_cons. destruct (decide (Q b)), (decide (Q b')); simpl; lia.
  - simpl in Hl. change (<[S i := b']> (x :: l)) with (x :: <[i := b']> l). rewrite !filter_cons.
    specialize (IH i Hl). destruct (decide (Q x)); simpl; lia.
Qed.

Record updates t t' (i : nat) (b b' : CacheBlk) : Prop := {
  up_old : blks t !! i = Some b;
  up_policy : indexingPolicy t' = indexingPolicy t;
  up_blks : blks t' = <[i := b']> (blks t);
  up_place : place b' = place b;
  up_dom : dom (replacementData t') = dom (replacementData t);
  up_ok : map_Forall (fun _ d => ok d) (replacementData t')
}.

Lemma updates_new t t' i b b' : updates t t' i b b' -> blks t' !! i = Some b'.
Proof using Type.
  intros U. rewrite (up_blks _ _ _ _ _ U). apply list_lookup_insert_eq. by eapply lookup_lt_Some, up_old.
Qed.

Lemma updates_other t t' i b b' j : updates t t' i b b' -> j <> i -> blks t' !! j = blks t !! j.
Proof using Type. intros U Hne. rewrite (up_blks _ _ _ _ _ U). by apply list_lookup_insert_ne. Qed.

Lemma holds_other t t' i b b' a sec j : updates t t' i b b' -> j <> i -> holds t' a sec j <-> holds t a sec j.
Proof using Type.
  intros U Hne. unfold holds, blk_addr. by rewrite (up_policy _ _ _ _ _ U), (updates_other _ _ _ _ _ j U Hne).
Qed.

Lemma inv_update t m t' m' i b b' :
  tags_inv t m -> updates t t' i b b' ->
  (forall a sec j, j <> i -> m' !! (a, sec) = Some j <-> m !! (a, sec) = Some j) ->
  (forall a sec, m' !! (a, sec) = Some i <-> holds t' a sec i) ->
  (blk_isValid b' = true -> exists a, holds t' a (blk_isSecure b') i) ->
  (blk_isValid b' = false -> status b' = 0) ->
  tagsInUse (tag_stats t') = Z.of_nat (size m') ->
  (forall k, default 0 (occupancies (tag_stats t') !! k)
     = default 0 (occupancies (tag_stats t) !! k)
       - (if decide (owned k b) then 1 else 0) + (if decide (owned k b') then 1 else 0)) ->
  tags_inv t' m'.
Proof using Type*.
  intros Hi U Hm1 Hm2 Hv Hc Hu Ho.
  pose proof (up_policy _ _ _ _ _ U) as Ep. pose proof (updates_new _ _ _ _ _ U) as Hn.
  pose proof (up_old _ _ _ _ _ U) as Hold. split; rewrite ?Ep.
  - apply (ti_wf t m Hi).
  - intros l Hl. destruct (ti_table t m Hi l Hl) as (j & bj & He & Hb & Hp). exists j.
    destruct (decide (j = i)) as [->|Hne].
    + exists b'. split_and!; [done|done|]. rewrite (up_place _ _ _ _ _ U). congruence.
    + exists bj. by rewrite (updates_other _ _ _ _ _ j U Hne).
  - intros j bj Hb. destruct (decide (j = i)) as [->|Hne].
    + simplify_eq. rewrite (up_place _ _ _ _ _ U). by apply (ti_place t m Hi).
    + rewrite (updates_other _ _ _ _ _ j U Hne) in Hb. by apply (ti_place t m Hi).
  - intros j Hj. apply elem_of_dom. rewrite (up_dom _ _ _ _ _ U). apply elem_of_dom.
    apply (ti_repl t m Hi). destruct (decide (j = i)) as [->|Hne]; [by eexists|].
    by rewrite <- (updates_other _ _ _ _ _ j U Hne).
  - apply (up_ok _ _ _ _ _ U).
  - intros a sec j. destruct (decide (j = i)) as [->|Hne]; [apply Hm2|].
    rewrite Hm1 by done. rewrite (ti_rep t m Hi). symmetry. by eapply holds_other.
  - intros j bj Hb Hvj. destruct (decide (j = i)) as [->|Hne]; [simplify_eq; by apply Hv|].
    pose proof Hb as Hb'. rewrite (updates_other _ _ _ _ _ j U Hne) in Hb'.
    destruct (ti_valid t m Hi j bj Hb' Hvj) as [a Ha]. exists a. by eapply holds_other.
  - intros j bj Hb Hvj. destruct (decide (j = i)) as [->|Hne]; [simplify_eq; by apply Hc|].
    rewrite (updates_other _ _ _ _ _ j U Hne) in Hb. by apply (ti_clear t m Hi j).
  - done.
  - intros k. rewrite Ho, (ti_occ t m Hi k), (up_blks _ _ _ _ _ U). symmetry. by apply count_insert.
Qed.

(** Changing the data of one entry with an operation of the policy. *)
Lemma repl_updates t m i f : tags_inv t m -> is_Some (blks t !! i) -> (forall d, ok d -> ok (f d)) ->
  exists d, replacementData t !! i = Some d
    /\ dom (<[i := f d]> (replacementData t)) = dom (replacementData t)
    /\ map_Forall (fun _ d => ok d) (<[i := f d]> (replacementData t)).
Proof using Type*.
  intros Hi Hb Hf. destruct (ti_repl t m Hi i Hb) as [d Hd]. exists d. split; [done|]. split.
  - rewrite dom_insert_L. assert (i ∈ dom (replacementData t)) by (by apply elem_of_dom_2 in Hd). set_solver.
  - apply map_Forall_replace; [apply Hf; by apply (ti_ok t m Hi i)|]. intros j y _. apply (ti_ok t m Hi).
Qed.

Lemma get_blk_run t i b : blks t !! i = Some b -> get_blk i t = Ok (b, t).
Proof using Type. intros H. unfold get_blk. rewrite bind_gets. by rewrite H. Qed.

Lemma on_replacement_run t i f d : replacementData t !! i = Some d ->
  on_replacement i f t = Ok (tt, set_replacement (<[i := f d]> (replacementData t)) t).
Proof using Type. intros H. unfold on_replacement. rewrite bind_gets. by rewrite H. Qed.

(** ** The operations *)

Lemma inv_frame t m t' : tags_inv t m -> indexingPolicy t' = indexingPolicy t -> blks t' = blks t ->
  dom (replacementData t') = dom (replacementData t) -> map_Forall (fun _ d => ok d) (replacementData t') ->
  tagsInUse (tag_stats t') = tagsInUse (tag_stats t) -> occupancies (tag_stats t') = occupancies (tag_stats t) ->
  tags_inv t' m.
Proof using Type*.
  intros [H1 H2 H3 H4 H5 H6 H7 H8 H9 H10] Ep Eb Ed Hok Eu Eo.
  assert (forall a sec i, holds t' a sec i <-> holds t a sec i) as Hh.
  { intros. unfold holds, blk_addr. by rewrite Ep, Eb. }
  split; rewrite ?Ep, ?Eb, ?Eu, ?Eo; try done.
  - intros i Hi. apply elem_of_dom. rewrite Ed. by apply elem_of_dom, H4.
  - intros a sec i. by rewrite Hh.
  - intros i b Hb Hv. destruct (H7 i b Hb Hv) as [a Ha]. exists a. by apply Hh.
Qed.

Lemma access_refines t m now a sec : tags_inv t m -> addr_ok a ->
  exists t', accessBlock now a sec t = Ok ((m !! (blk_addr a t, sec), lookupLatency t), t')
    /\ tags_inv t' m /\ indexingPolicy t' = indexingPolicy t /\ maxMasters t' = maxMasters t
    /\ lookupLatency t' = lookupLatency t
    /\ Forall2 (fun b b' => b' = set_refCount (refCount b') b) (blks t) (blks t').
Proof using Type*.
  intros Hi Ha. unfold accessBlock. rewrite (bind_run get _ t t t) by done.
  rewrite (findBlock_run t m a sec Hi Ha). set (o := m !! (blk_addr a t, sec)).
  rewrite (bind_run (lift (Ok o)) _ t o t) by done.
  destruct o as [i|] eqn:Eo.
  - pose proof Eo as Hh. apply (ti_rep t m Hi) in Hh. pose proof Hh as (b & Hb & Hv & _).
    destruct (repl_updates t m i (rp_touch now) Hi) as (d & Hd & Hdom & Hok); [by eexists|apply lp_touch|].
    unfold on_stats. rewrite bind_modify. rewrite !bind_assoc.
    erewrite (bind_run (get_blk i)); [|apply get_blk_run; exact Hb]. rewrite !bind_assoc. unfold put_blk.
    rewrite bind_modify. erewrite (bind_run (on_replacement _ _)); [|apply on_replacement_run; exact Hd].
    eexists. split; [reflexivity|]. split; [|split; [done|split; [done|split; [done|]]]].
    2: { simpl. apply Forall2_same_length_lookup_2; [by rewrite length_insert|]. intros j b0 b1 H0.
         intros [(<- & <- & _)|[_ H1]]%list_lookup_insert_Some; [|rewrite H1 in H0; simplify_eq; by destruct b0].
         by assert (b0 = b) as -> by congruence. }
    eapply (inv_update t m _ m i b (set_refCount (u32 (refCount b + 1)) b) Hi); [by split| | | | | |].
    + done.
    + intros a' sec'. rewrite (ti_rep t m Hi). unfold holds, blk_addr. simpl.
      rewrite list_lookup_insert_eq by (by eapply lookup_lt_Some). rewrite Hb.
      split; intros (b0 & [= <-] & H'); by eexists.
    + intros _. destruct (ti_valid t m Hi i b Hb Hv) as [a' (b0 & Hb0 & H')].
      assert (b0 = b) as -> by congruence. exists a', (set_refCount (u32 (refCount b + 1)) b). split; [|done]. simpl.
      apply list_lookup_insert_eq. exact (lookup_lt_Some _ _ _ Hb).
    + exact (ti_clear t m Hi i b Hb).
    + apply (ti_inUse t m Hi).
    + intros k. simpl. change (owned k (set_refCount _ b)) with (owned k b). destruct (decide (owned k b)); lia.
  - unfold on_stats. rewrite bind_modify, bind_ret. eexists. split; [reflexivity|]. split; [|split; [done|split; [done|split; [done|]]]].
    + eapply (inv_frame t m); try done. apply (ti_ok t m Hi).
    + apply Forall_Forall2_diag, Forall_forall. intros b _. by destruct b.
Qed.

Lemma candidates_run t m ls : tags_inv t m -> NoDup ls -> (forall l, l ∈ ls -> in_table l (base t)) ->
  exists cs, candidates ((fun l => entry_at l (base t)) <$> ls) = Ok cs /\ length cs = length ls /\ NoDup cs
    /\ forall i, i ∈ cs -> exists b, blks t !! i = Some b /\ place b ∈ ls.
Proof using Type*.
  intros Hi. induction ls as [|l ls IH]; intros Hn Hls; rewrite ?fmap_cons; cbn [candidates].
  { exists []. split_and!; [done|done|constructor|set_solver]. }
  apply NoDup_cons in Hn as [Hl Hn].
  destruct (ti_table t m Hi l) as (i & b & -> & Hb & Hp); [set_solver|].
  destruct IH as (cs & -> & Hlen & Hnd & Hcs); [done|set_solver|]. cbn [mbind res_bind].
  exists (i :: cs). split_and!; [done|simpl; by rewrite Hlen| |].
  - apply NoDup_cons. split; [|done]. intros Hin. destruct (Hcs i Hin) as (b' & Hb' & Hp'). simplify_eq. done.
  - intros j [->|Hj]%elem_of_cons; [exists b; split; [done|set_solver]|].
    destruct (Hcs j Hj) as (b' & ? & ?). exists b'. split; [done|set_solver].
Qed.

(** The victim is a block at one of the places of the address. *)
Lemma victim_refines t m now rnd a : tags_inv t m -> addr_ok a ->
  exists i b t', findVictim now rnd a t = Ok ((i, [i]), t') /\ tags_inv t' m
    /\ indexingPolicy t' = indexingPolicy t /\ blks t' = blks t /\ maxMasters t' = maxMasters t
    /\ blks t !! i = Some b /\ place b ∈ locations a (indexingPolicy t) /\ lookupLatency t' = lookupLatency t.
Proof using Type*.
  intros Hi Ha. destruct (law_locations (indexingPolicy t) a (ti_wf t m Hi) Ha) as (Hnd & Hne & Hin).
  destruct (candidates_run t m _ Hi Hnd Hin) as (cs & Hcs & Hlen & Hn & Hall).
  assert (instantiated (replacementData t) cs) as Hinst.
  { split_and!; [|intros c Hc; apply (ti_repl t m Hi); destruct (Hall c Hc) as (b & ? & _); by eexists|done].
    intros ->. by destruct (locations a (indexingPolicy t)). }
  destruct (lp_getVictim now rnd cs (replacementData t) Hinst (ti_ok t m Hi)) as (v & s' & Hv & Hvin & Hdom & Hok).
  destruct (Hall v Hvin) as (b & Hb & Hp). exists v, b, (set_replacement s' t). split; [|split_and!; try done].
  - unfold findVictim. rewrite (bind_run get _ t t t) by done. rewrite law_possible by (done || apply (ti_wf t m Hi)).
    rewrite (bind_run (lift (Ok _)) _ t _ t) by done. rewrite Hcs, (bind_run (lift (Ok _)) _ t _ t) by done.
    rewrite Hv, (bind_run (lift (Ok _)) _ t _ t) by done. reflexivity.
  - by eapply (inv_frame t m).
Qed.

Lemma holds_key t m a sec a' sec' i : tags_inv t m -> holds t a sec i -> holds t a' sec' i -> a' = a /\ sec' = sec.
Proof using Type*.
  intros Hi H1 H2. pose proof (holds_address t a sec i (ti_wf t m Hi) H1) as E1.
  pose proof (holds_address t a' sec' i (ti_wf t m Hi) H2) as E2.
  destruct H1 as (b1 & B1 & _ & S1 & _), H2 as (b2 & B2 & _ & S2 & _).
  split; [congruence|]. assert (b1 = b2) as -> by congruence. congruence.
Qed.

Lemma count_up_lookup (n k k' : Z) (c : gmap Z Z) :
  default 0 (count_up n k c !! k') = default 0 (c !! k') + (if decide (k = k') then n else 0).
Proof using Type.
  unfold count_up. destruct (decide (k = k')) as [->|Hne].
  - by rewrite lookup_insert_eq.
  - rewrite lookup_insert_ne by done. lia.
Qed.

Lemma invalidate_refines t m a sec i : tags_inv t m -> m !! (a, sec) = Some i ->
  exists b t', tags_invalidate i t = Ok (tt, t') /\ tags_inv t' (delete (a, sec) m) /\ blks t !! i = Some b
    /\ indexingPolicy t' = indexingPolicy t /\ maxMasters t' = maxMasters t
    /\ blks t' = <[i := blk_invalidate b]> (blks t) /\ lookupLatency t' = lookupLatency t.
Proof using Type*.
  intros Hi Hm. pose proof Hm as Hh. apply (ti_rep t m Hi) in Hh. pose proof Hh as (b & Hb & Hv & _).
  destruct (repl_updates t m i rp_invalidate Hi) as (d & Hd & Hdom & Hok); [by eexists|apply lp_invalidate|].
  exists b. eexists. split; [|split].
  { unfold tags_invalidate, base_invalidate. rewrite !bind_assoc.
    erewrite (bind_run (get_blk i)); [|apply get_blk_run; exact Hb]. rewrite !bind_assoc, bind_assert by done.
    unfold on_stats, put_blk. rewrite !bind_assoc, bind_modify, !bind_assoc, bind_modify, bind_modify, bind_modify.
    apply on_replacement_run. exact Hd. }
  2: { split_and!; done. }
  eapply (inv_update t m _ _ i b (blk_invalidate b) Hi); [by split| | | | | |].
  - intros a' sec' j Hne. destruct (decide ((a, sec) = (a', sec'))) as [[= <- <-]|Hk].
    + rewrite lookup_delete_eq, Hm. split; [done|]. intros [= ->]. done.
    + by rewrite lookup_delete_ne.
  - intros a' sec'. split.
    + intros [Hk Hm']%lookup_delete_Some. apply (ti_rep t m Hi) in Hm'.
      destruct (holds_key t m _ _ _ _ i Hi Hh Hm') as [-> ->]. done.
    + intros (b' & Hb' & Hv' & _). simpl in Hb'. rewrite list_lookup_insert_eq in Hb' by exact (lookup_lt_Some _ _ _ Hb).
      by simplify_eq.
  - done.
  - done.
  - simpl. rewrite (ti_inUse t m Hi). assert (size m <> 0%nat) by (eapply map_size_ne_0_lookup_2; by rewrite Hm).
    rewrite map_size_delete_Some by (by eexists). lia.
  - intros k. destruct (decide (owned k (blk_invalidate b))) as [[? _]|_]; [done|].
    destruct (decide (owned k b)) as [[_ E]|Hn]; simpl; rewrite count_up_lookup.
    + rewrite decide_True by done. lia.
    + rewrite decide_False by (intros E; by apply Hn). lia.
Qed.

Lemma blk_insert_run now tag sec master task b : status b = 0 ->
  exists b', blk_insert now tag sec master task b = Ok b' /\ blk_isValid b' = true /\ blk_isSecure b' = sec
    /\ blk_tag b' = tag /\ place b' = place b /\ srcMasterId b' = master /\ refCount b' = 1
    /\ task_id b' = task /\ tickInserted b' = now.
Proof using Type.
  intros Hs. unfold blk_insert. rewrite Hs. cbn [Z.eqb assert_r mbind res_bind].
  destruct sec; eexists; (split; [reflexivity|]); by vm_compute.
Qed.

Lemma insert_refines t m now rnd pkt i b a sec :
  tags_inv t m -> getAddr pkt = Ok a -> isSecure pkt = Ok sec -> addr_ok a ->
  rq_masterId (p_req pkt) < maxMasters t -> blks t !! i = Some b -> blk_isValid b = false ->
  place b ∈ locations a (indexingPolicy t) -> m !! (blk_addr a t, sec) = None ->
  exists t', insertBlock now rnd pkt i t = Ok (tt, t') /\ tags_inv t' (<[(blk_addr a t, sec) := i]> m)
    /\ indexingPolicy t' = indexingPolicy t /\ maxMasters t' = maxMasters t
    /\ exists b', blk_insert now (tags_extractTag a t) sec (rq_masterId (p_req pkt)) (rq_taskId (p_req pkt)) b = Ok b'
         /\ blks t' = <[i := b']> (blks t) /\ lookupLatency t' = lookupLatency t.
Proof using Type*.
  intros Hi Ea Es Ha Hmax Hb Hv Hp Hm.
  destruct (repl_updates t m i (rp_reset now rnd) Hi) as (d & Hd & Hdom & Hok); [by eexists|apply lp_reset|].
  destruct (blk_insert_run now (tags_extractTag a t) sec (rq_masterId (p_req pkt)) (rq_taskId (p_req pkt)) b)
    as (b' & Hins & Hv' & Hs' & Ht' & Hp' & Hm' & _); [by apply (ti_clear t m Hi i)|].
  assert (exists t', insertBlock now rnd pkt i t = Ok (tt, t') /\ updates t t' i b b'
    /\ tagsInUse (tag_stats t') = tagsInUse (tag_stats t) + 1
    /\ occupancies (tag_stats t') = count_up 1 (rq_masterId (p_req pkt)) (occupancies (tag_stats t))
    /\ maxMasters t' = maxMasters t /\ lookupLatency t' = lookupLatency t) as (t' & Hrun & U & Eu & Eo & Em & El).
  { unfold insertBlock, base_insertBlock. rewrite !bind_assoc.
    erewrite (bind_run (get_blk i)); [|apply get_blk_run; exact Hb]. rewrite !bind_assoc, bind_assert by by rewrite Hv.
    rewrite !bind_assoc. rewrite (bind_run get _ t t t) by done. rewrite !bind_assoc, bind_assert by (by apply Z.ltb_lt).
    unfold on_stats, put_blk. rewrite !bind_assoc, bind_modify, !bind_assoc.
    rewrite Ea, (bind_run (lift (Ok a)) _ _ a _) by done. rewrite !bind_assoc.
    rewrite Es, (bind_run (lift (Ok sec)) _ _ sec _) by done. rewrite !bind_assoc, Hins.
    erewrite (bind_run (lift (Ok b'))) by done. rewrite !bind_assoc, bind_modify, !bind_assoc.
    destruct (negb (warmedUp t) && (warmupBound t <=? tagsInUse (tag_stats t))) eqn:Ew; cbn [when_].
    - rewrite !bind_assoc, bind_modify, bind_modify, bind_modify, bind_modify.
      eexists. split; [apply on_replacement_run; exact Hd|]. split; [by split|done].
    - rewrite bind_ret, bind_modify, bind_modify.
      eexists. split; [apply on_replacement_run; exact Hd|]. split; [by split|done]. }
  exists t'. split; [done|].
  split; [|split; [apply (up_policy _ _ _ _ _ U)|split; [done|exists b'; split; [done|split; [apply (up_blks _ _ _ _ _ U)|done]]]]].
  pose proof (updates_new _ _ _ _ _ U) as Hn. pose proof (up_policy _ _ _ _ _ U) as Ep.
  assert (holds t' (blk_addr a t) sec i) as Hh.
  { replace (blk_addr a t) with (blk_addr a t') by (unfold blk_addr; by rewrite Ep).
    apply (holds_intro t' a sec i b'); rewrite ?Ep; try done; [apply (ti_wf t m Hi)|by rewrite Hp']. }
  eapply (inv_update t m t' _ i b b' Hi U).
  - intros a' sec' j Hne. destruct (decide ((blk_addr a t, sec) = (a', sec'))) as [[= <- <-]|Hk].
    + rewrite lookup_insert_eq, Hm. split; [intros [= ->]; done|done].
    + by rewrite lookup_insert_ne.
  - intros a' sec'. split.
    + intros [[[= <- <-] _]|[_ Hm1]]%lookup_insert_Some; [done|].
      apply (ti_rep t m Hi) in Hm1 as (b1 & Hb1 & Hv1 & _). congruence.
    + intros Hh'. pose proof (holds_address t' _ _ i ltac:(rewrite Ep; apply (ti_wf t m Hi)) Hh) as E1.
      pose proof (holds_address t' _ _ i ltac:(rewrite Ep; apply (ti_wf t m Hi)) Hh') as E2.
      destruct Hh' as (b1 & Hb1 & _ & Hs1 & _). assert (a' = blk_addr a t) as -> by congruence.
      assert (sec' = sec) as -> by congruence. apply lookup_insert_eq.
  - intros _. exists (blk_addr a t). by rewrite Hs'.
  - by rewrite Hv'.
  - rewrite Eu, (ti_inUse t m Hi), map_size_insert_None by done. lia.
  - intros k. rewrite Eo, count_up_lookup. destruct (decide (owned k b)) as [[? _]|_]; [congruence|].
    destruct (decide (owned k b')) as [[_ E]|Hn'].
    + rewrite decide_True by congruence. lia.
    + rewrite decide_False by (intros E; apply Hn'; split; congruence). lia.
Qed.

(** ** Initialisation *)

(** The first [k] blocks have been linked. *)
Record init_inv (n k : nat) (t : BaseSetAssoc P D) : Prop := {
  ii_wf : wf (indexingPolicy t);
  ii_n : Z.of_nat n = numSets (base t) * assoc (base t);
  ii_len : length (blks t) = n;
  ii_fresh i b : blks t !! i = Some b -> status b = 0;
  ii_linked i b : (i < k)%nat -> blks t !! i = Some b ->
    place b = index_place (base t) (Z.of_nat i) /\ entry_at (place b) (base t) = Some i;
  ii_repl i : (i < k)%nat -> is_Some (replacementData t !! i);
  ii_ok : map_Forall (fun _ d => ok d) (replacementData t);
  ii_stats : tagsInUse (tag_stats t) = 0 /\ occupancies (tag_stats t) = ∅;
  ii_new i b : blks t !! i = Some b -> lockList b = [] /\ tickInserted b = 0;
  ii_data i b : (i < k)%nat -> blks t !! i = Some b -> blk_data b = Some (blkSize t * Z.of_nat i)
}.

(** What initialisation leaves as the constructor made it. *)
Definition same_config (t t' : BaseSetAssoc P D) : Prop :=
  maxMasters t' = maxMasters t /\ (forall a, locations a (indexingPolicy t') = locations a (indexingPolicy t))
  /\ setShift (base t') = setShift (base t) /\ blkSize t' = blkSize t /\ lookupLatency t' = lookupLatency t.

Lemma index_place_inj b (i j : Z) : 0 < assoc b -> index_place b i = index_place b j -> i = j.
Proof using Type.
  intros Ha [= E1 E2]. rewrite (Z.div_mod i (assoc b)), (Z.div_mod j (assoc b)) by lia. by rewrite E1, E2.
Qed.

Lemma init_step n k t d0 : init_inv n k t -> (k < n)%nat -> rp_instantiateEntry = Ok d0 ->
  exists t', init_blk k t = Ok (tt, t') /\ init_inv n (S k) t' /\ numBlocks t' = numBlocks t /\ same_config t t'.
Proof using Type*.
  intros [Hwf Hn Hlen Hfr Hlk Hr Hok Hst Hnew Hdat] Hk Hd. pose proof (law_base _ Hwf) as Hbase.
  destruct (lookup_lt_is_Some_2 (blks t) k ltac:(lia)) as [b Hb].
  destruct (setEntry_run (base t) k (Z.of_nat k) Hbase ltac:(lia)) as (b1 & Hset & Hdims & Hb1 & Hent).
  destruct (law_set_base _ b1 Hwf Hdims Hb1) as (Hwf1 & Eb1 & Hloc). pose proof (wf_assoc _ Hbase) as Ha.
  pose proof Hdims as (D1 & D2 & D3 & _).
  assert (forall i, index_place b1 i = index_place (base t) i) as Eip by (intros; unfold index_place; by rewrite D1).
  eexists. split.
  { unfold init_blk. erewrite (bind_run (get_blk k)); [|apply get_blk_run; exact Hb]. rewrite bind_gets.
    rewrite Hset. erewrite (bind_run (lift (Ok _))) by done. cbv beta iota. unfold index_place. cbv iota.
    rewrite bind_modify, bind_gets. unfold put_blk. rewrite bind_modify. rewrite Hd.
    erewrite (bind_run (lift (Ok d0))) by done. reflexivity. }
  split; [|split; [done|split; [done|split; [exact Hloc|split; [cbn; by rewrite Eb1|done]]]]].
  split; cbn [indexingPolicy set_indexing set_blks set_replacement blks replacementData tag_stats blkSize]; rewrite ?Eb1.
  - done.
  - by rewrite D1, D2.
  - by rewrite length_insert.
  - intros i x [(<- & <- & _)|[_ Hx]]%list_lookup_insert_Some; [exact (Hfr k b Hb)|by apply (Hfr i)].
  - intros i x Hi [(<- & <- & _)|[Hne Hx]]%list_lookup_insert_Some; rewrite Eip.
    + split; [done|]. change (place _) with (index_place (base t) (Z.of_nat k)).
      rewrite Hent by (apply index_place_in; [done|lia]). by rewrite decide_True.
    + destruct (Hlk i x) as [E1 E2]; [lia|done|]. split; [done|].
      rewrite Hent by (rewrite E1; apply index_place_in; [done|]; apply lookup_lt_Some in Hx; lia).
      rewrite decide_False; [done|]. rewrite E1. intros E%index_place_inj; lia.
  - intros i Hi. destruct (decide (i = k)) as [->|Hne]; [by rewrite lookup_insert_eq|].
    rewrite lookup_insert_ne by done. apply Hr. lia.
  - apply map_Forall_replace; [by apply lp_new|]. intros j y _. apply Hok.
  - done.
  - intros i x [(<- & <- & _)|[_ Hx]]%list_lookup_insert_Some; [exact (Hnew k b Hb)|by apply (Hnew i)].
  - intros i x Hi [(<- & <- & _)|[Hne Hx]]%list_lookup_insert_Some; [done|]. apply Hdat; [lia|done].
Qed.

Lemma init_loop n k j t d0 : init_inv n k t -> (k + j = n)%nat -> rp_instantiateEntry = Ok d0 ->
  exists t', forM_ (seq k j) init_blk t = Ok (tt, t') /\ init_inv n n t' /\ same_config t t'.
Proof using Type*.
  revert k t. induction j as [|j IH]; intros k t Hi Hkj Hd; simpl.
  { replace k with n in Hi by lia. by exists t. }
  destruct (init_step n k t d0 Hi ltac:(lia) Hd) as (t1 & Hs & Hi1 & _ & E1 & E2 & E3 & E4 & E5).
  rewrite (bind_run _ _ _ _ _ Hs). destruct (IH (S k) t1 Hi1 ltac:(lia) Hd) as (t' & Hl & Hi' & F1 & F2 & F3 & F4 & F5).
  exists t'. split; [done|]. split; [done|]. split; [congruence|]. split; [intros a; by rewrite F2, E2|]. split_and!; congruence.
Qed.

Lemma init_done n t : init_inv n n t -> tags_inv t ∅.
Proof using Type*.
  intros [Hwf Hn Hlen Hfr Hlk Hr Hok [Hu Ho] _ _]. pose proof (law_base _ Hwf) as Hbase.
  pose proof (wf_assoc _ Hbase) as Ha.
  assert (forall i b, blks t !! i = Some b -> blk_isValid b = false) as Hinv.
  { intros i b Hb. unfold blk_isValid. by rewrite (Hfr i b Hb). }
  split; try done.
  - intros [s w] [Hs Hw]. simpl in *. set (i := Z.to_nat (s * assoc (base t) + w)).
    destruct (lookup_lt_is_Some_2 (blks t) i) as [b Hb]; [subst i; nia|].
    destruct (Hlk i b) as [E1 E2]; [subst i; nia|done|].
    assert (place b = (s, w)) as Ep.
    { rewrite E1. unfold index_place. subst i. rewrite Z2Nat.id by nia.
      rewrite Z.div_add_l, Z.div_small, Z.add_0_r by lia.
      by rewrite Z.add_comm, Z.mod_add, Z.mod_small by lia. }
    exists i, b. rewrite <- Ep at 1. done.
  - intros i b Hb. pose proof (lookup_lt_Some _ _ _ Hb). destruct (Hlk i b) as [E1 E2]; [lia|done|].
    split; [|done]. rewrite E1. apply index_place_in; [done|lia].
  - intros i [b Hb]. apply Hr. rewrite <- Hlen. by eapply lookup_lt_Some.
  - intros a sec i. rewrite lookup_empty. split; [done|]. intros (b & Hb & Hv & _). by rewrite (Hinv i b Hb) in Hv.
  - intros i b Hb Hv. by rewrite (Hinv i b Hb) in Hv.
  - intros i b Hb _. by apply (Hfr i).
  - intros k. rewrite Ho, lookup_empty. simpl.
    assert (filter (owned k) (blks t) = []) as ->; [|done].
    destruct (filter (owned k) (blks t)) as [|b l] eqn:E; [done|].
    assert (b ∈ filter (owned k) (blks t)) as [[Hv _] Hin]%list_elem_of_filter by (rewrite E; set_solver).
    apply list_elem_of_lookup in Hin as [i Hi]. by rewrite (Hinv i b Hi) in Hv.
Qed.

Lemma tagsInit_run t d0 n : wf (indexingPolicy t) -> rp_instantiateEntry = Ok d0 ->
  blks t = replicate n new_CacheBlk -> numBlocks t = Z.of_nat n ->
  Z.of_nat n = numSets (base t) * assoc (base t) -> replacementData t = ∅ ->
  tag_stats t = mkTagStats 0 0 0 0 ∅ ∅ ∅ 0 0 ->
  exists t', tagsInit t = Ok (tt, t') /\ tags_inv t' ∅ /\ same_config t t' /\ length (blks t') = n
    /\ forall i b, blks t' !! i = Some b ->
         blk_data b = Some (blkSize t * Z.of_nat i) /\ lockList b = [] /\ tickInserted b = 0.
Proof using Type*.
  intros Hwf Hd Hb Hnb Hn Hr Hs. destruct (init_loop n 0 n t d0) as (t' & Hl & Hi & Hc); [|lia|done|].
  { split; try done; rewrite ?Hb, ?Hr, ?Hs; try done.
    - apply length_replicate.
    - by intros i b [-> _]%lookup_replicate.
    - intros i b Hi. lia.
    - intros i Hi. lia.
    - by intros i b [-> _]%lookup_replicate.
    - intros i b Hi. lia. }
  exists t'. unfold tagsInit. rewrite bind_gets, Hnb, Nat2Z.id. split; [done|]. split; [by eapply init_done|]. split; [done|].
  split; [apply Hi|]. intros i b Hib. pose proof (lookup_lt_Some _ _ _ Hib) as Hlt. rewrite (ii_len _ _ _ Hi) in Hlt.
  destruct Hc as (_ & _ & _ & <- & _). split; [by eapply ii_data|by eapply ii_new].
Qed.

(** ** The directory *)

(** What a cache does with its tags: an access, the fill of a missing block (the
    steps of [BaseCache::allocateBlock] that involve the tags) and an
    invalidation. *)
Inductive tag_op :=
  | TAccess (now a : Z) (sec : bool)
  | TFill (now rnd : Z) (pkt : Pkt)
  | TInvalidate (a : Z) (sec : bool).

Definition fill (now rnd : Z) (pkt : Pkt) : M (BaseSetAssoc P D) unit :=
  a ← lift (getAddr pkt);
  sec ← lift (isSecure pkt);
  t ← get;
  o ← lift (findBlock a sec t);
  match o with
  | Some _ => mret tt
  | None =>
      '(victim, _) ← findVictim now rnd a;
      b ← get_blk victim;
      when_ (blk_isValid b) (tags_invalidate victim);;
      insertBlock now rnd pkt victim
  end.

Definition tag_run (o : tag_op) : M (BaseSetAssoc P D) unit :=
  match o with
  | TAccess now a sec => accessBlock now a sec;; mret tt
  | TFill now rnd pkt => fill now rnd pkt
  | TInvalidate a sec =>
      t ← get;
      o ← lift (findBlock a sec t);
      match o with Some i => tags_invalidate i | None => mret tt end
  end.

Definition tag_op_ok (masters : Z) (o : tag_op) : Prop :=
  match o with
  | TAccess _ a _ | TInvalidate a _ => addr_ok a
  | TFill _ _ pkt => rq_masterId (p_req pkt) < masters
      /\ exists a sec, getAddr pkt = Ok a /\ isSecure pkt = Ok sec /\ addr_ok a
  end.

(** The specification: a map from block addresses to blocks.  A fill of a
    missing block evicts what the chosen block held. *)
Inductive dir_step (shift : Z) : tag_op -> gmap (Z * bool) nat -> gmap (Z * bool) nat -> Prop :=
  | DAccess now a sec m : dir_step shift (TAccess now a sec) m m
  | DHit now rnd pkt a sec m :
      getAddr pkt = Ok a -> isSecure pkt = Ok sec -> is_Some (m !! (block_of shift a, sec)) ->
      dir_step shift (TFill now rnd pkt) m m
  | DMiss now rnd pkt a sec v m :
      getAddr pkt = Ok a -> isSecure pkt = Ok sec -> m !! (block_of shift a, sec) = None ->
      dir_step shift (TFill now rnd pkt) m (<[(block_of shift a, sec) := v]> (filter (fun e => e.2 <> v) m))
  | DInvalidate a sec m : dir_step shift (TInvalidate a sec) m (delete (block_of shift a, sec) m).

Lemma filter_evict t m a sec v : tags_inv t m -> m !! (a, sec) = Some v ->
  filter (fun e => e.2 <> v) m = delete (a, sec) m.
Proof using Type*.
  intros Hi Hm. apply map_eq. intros [a' sec']. pose proof Hm as Hh. apply (ti_rep t m Hi) in Hh.
  destruct (decide ((a, sec) = (a', sec'))) as [[= <- <-]|Hne].
  - rewrite lookup_delete_eq. apply map_lookup_filter_None. right. intros x Hx. simpl. congruence.
  - rewrite lookup_delete_ne by done. destruct (m !! (a', sec')) as [j|] eqn:E.
    + apply map_lookup_filter_Some. split; [done|]. simpl. intros ->. apply (ti_rep t m Hi) in E.
      destruct (holds_key t m _ _ _ _ v Hi Hh E) as [-> ->]. done.
    + apply map_lookup_filter_None. by left.
Qed.

Lemma fill_refines t m now rnd pkt a sec : tags_inv t m -> getAddr pkt = Ok a -> isSecure pkt = Ok sec ->
  addr_ok a -> rq_masterId (p_req pkt) < maxMasters t ->
  exists t' m', fill now rnd pkt t = Ok (tt, t') /\ dir_step (setShift (base t)) (TFill now rnd pkt) m m'
    /\ tags_inv t' m' /\ indexingPolicy t' = indexingPolicy t /\ maxMasters t' = maxMasters t
    /\ is_Some (m' !! (blk_addr a t, sec)).
Proof using Type*.
  intros Hi Ea Es Ha Hmax. unfold fill. rewrite Ea, Es. rewrite (bind_run (lift (Ok a)) _ t a t) by done.
  rewrite (bind_run (lift (Ok sec)) _ t sec t) by done. rewrite (bind_run get _ t t t) by done.
  rewrite (findBlock_run t m a sec Hi Ha). erewrite (bind_run (lift (Ok _))) by done.
  destruct (m !! (blk_addr a t, sec)) as [j|] eqn:Em.
  { exists t, m. split; [done|]. split; [by eapply DHit|]. done. }
  destruct (victim_refines t m now rnd a Hi Ha) as (v & b & t1 & Hv & Hi1 & E1 & Eb & M1 & Hb & Hp & _).
  rewrite (bind_run _ _ _ _ _ Hv). cbv beta iota. erewrite (bind_run (get_blk v)); [|apply get_blk_run; by rewrite Eb].
  assert (exists t2 b2, when_ (blk_isValid b) (tags_invalidate v) t1 = Ok (tt, t2)
    /\ tags_inv t2 (filter (fun e => e.2 <> v) m) /\ blks t2 !! v = Some b2 /\ blk_isValid b2 = false
    /\ place b2 = place b /\ indexingPolicy t2 = indexingPolicy t /\ maxMasters t2 = maxMasters t)
    as (t2 & b2 & Hw & Hi2 & Hb2 & Hv2 & Hp2 & E2 & M2).
  { destruct (blk_isValid b) eqn:Evb; cbn [when_].
    - destruct (ti_valid t m Hi v b Hb Evb) as [a0 Ha0]. apply (ti_rep t m Hi) in Ha0.
      destruct (invalidate_refines t1 m a0 _ v Hi1 Ha0) as (b1 & t2 & Hrun & Hi2 & Hb1 & E2 & M2 & Eb2 & _).
      exists t2, (blk_invalidate b1). rewrite (filter_evict t m a0 (blk_isSecure b)) by done.
      assert (b1 = b) as -> by congruence. split_and!; try done; try congruence.
      rewrite Eb2. apply list_lookup_insert_eq. rewrite Eb. by eapply lookup_lt_Some.
    - exists t1, b. split; [done|]. split; [|by rewrite Eb]. rewrite map_filter_id; [done|].
      intros [a' sec'] j Hj. simpl. intros ->. apply (ti_rep t m Hi) in Hj as (b' & Hb' & Hv' & _). congruence. }
  rewrite (bind_run _ _ _ _ _ Hw).
  assert (blk_addr a t2 = blk_addr a t) as Eba by (unfold blk_addr; by rewrite E2).
  destruct (insert_refines t2 _ now rnd pkt v b2 a sec Hi2 Ea Es Ha) as (t' & Hins & Hi' & E' & M' & _); try done.
  - by rewrite M2.
  - rewrite Hp2, E2. done.
  - rewrite Eba. apply map_lookup_filter_None. by left.
  - rewrite Eba in Hi'. eexists t', _. split; [done|]. split; [by eapply DMiss|]. split; [done|].
    split; [congruence|]. split; [congruence|]. by rewrite lookup_insert_eq.
Qed.

(** What the tags show of the directory [m] they represent. *)
Definition shows t m : Prop :=
  (forall a sec, addr_ok a -> findBlock a sec t = Ok (m !! (block_of (setShift (base t)) a, sec)))
  /\ (forall a sec i, m !! (a, sec) = Some i -> regenerateBlkAddr i t = Ok a)
  /\ tagsInUse (tag_stats t) = Z.of_nat (size m)
  /\ forall master, default 0 (occupancies (tag_stats t) !! master)
                    = Z.of_nat (length (filter (owned master) (blks t))).

Lemma inv_shows t m : tags_inv t m -> shows t m.
Proof using Type*.
  intros Hi. split_and!.
  - intros a sec Ha. by apply findBlock_run.
  - intros a sec i Hm. apply (holds_address t a sec i); [apply (ti_wf t m Hi)|by apply (ti_rep t m Hi)].
  - apply (ti_inUse t m Hi).
  - apply (ti_occ t m Hi).
Qed.

Lemma tag_step_refines t m o : tags_inv t m -> tag_op_ok (maxMasters t) o ->
  exists t' m', tag_run o t = Ok (tt, t') /\ dir_step (setShift (base t)) o m m' /\ tags_inv t' m'
    /\ indexingPolicy t' = indexingPolicy t /\ maxMasters t' = maxMasters t.
Proof using Type*.
  intros Hi Ho. destruct o as [now a sec|now rnd pkt|a sec]; simpl in Ho |- *.
  - destruct (access_refines t m now a sec Hi Ho) as (t' & Hr & Hi' & E & Em & _). exists t', m.
    rewrite (bind_run _ _ _ _ _ Hr). split; [done|]. split; [constructor|done].
  - destruct Ho as (Hm & a & sec & Ea & Es & Ha).
    destruct (fill_refines t m now rnd pkt a sec Hi Ea Es Ha Hm) as (t' & m' & ? & ? & ? & ? & ? & _). by exists t', m'.
  - rewrite (bind_run get _ t t t) by done. rewrite (findBlock_run t m a sec Hi Ho).
    erewrite (bind_run (lift (Ok _))) by done. destruct (m !! (blk_addr a t, sec)) as [i|] eqn:Em.
    + destruct (invalidate_refines t m _ sec i Hi Em) as (b & t' & Hr & Hi' & _ & E & M' & _).
      exists t', (delete (blk_addr a t, sec) m). split; [done|]. split; [constructor|done].
    + exists t, (delete (blk_addr a t, sec) m). split; [done|]. split; [constructor|].
      by rewrite delete_id.
Qed.

(** C30: the tags implement a directory of blocks, for every lawful indexing
    policy and every lawful replacement policy: an access, a fill or an
    invalidation never fails, it changes the map from block addresses to blocks
    as the specification says, a lookup returns exactly what the map holds at
    the address, every block regenerates the address it is filed under, and the
    counters of tags in use and of blocks per master are those of the map. *)
Theorem tags_refine_directory t m o : tags_inv t m -> tag_op_ok (maxMasters t) o ->
  shows t m
  /\ exists t' m', tag_run o t = Ok (tt, t') /\ dir_step (setShift (base t)) o m m'
       /\ tags_inv t' m' /\ shows t' m'.
Proof using Type*.
  intros Hi Ho. split; [by apply inv_shows|].
  destruct (tag_step_refines t m o Hi Ho) as (t' & m' & Hr & Hs & Hi' & _).
  exists t', m'. split; [done|]. split; [done|]. split; [done|]. by apply inv_shows.
Qed.

Inductive dir_run (shift : Z) : list tag_op -> gmap (Z * bool) nat -> gmap (Z * bool) nat -> Prop :=
  | dir_nil m : dir_run shift [] m m
  | dir_cons o os m m1 m2 : dir_step shift o m m1 -> dir_run shift os m1 m2 -> dir_run shift (o :: os) m m2.

Lemma tag_run_refines os t m : tags_inv t m -> Forall (tag_op_ok (maxMasters t)) os ->
  exists t' m', forM_ os tag_run t = Ok (tt, t') /\ dir_run (setShift (base t)) os m m' /\ tags_inv t' m'
    /\ indexingPolicy t' = indexingPolicy t.
Proof using Type*.
  revert t m. induction os as [|o os IH]; intros t m Hi Hos; simpl.
  { exists t, m. split; [done|]. split; [constructor|done]. }
  apply Forall_cons in Hos as [Ho Hos].
  destruct (tag_step_refines t m o Hi Ho) as (t1 & m1 & Hr & Hs & Hi1 & E1 & M1).
  rewrite (bind_run _ _ _ _ _ Hr). destruct (IH t1 m1 Hi1) as (t' & m' & Hf & Hd & Hi' & E'); [by rewrite M1|].
  exists t', m'. split; [done|]. rewrite E1 in Hd. split; [by econstructor|]. split; [done|congruence].
Qed.

(** Tags made by the constructor and initialised by [tagsInit] over an
    empty table of as many entries as there are blocks start as the empty
    directory, and any sequence of accesses, fills and invalidations runs to
    its end and leaves the directory the specification describes. *)
Theorem tags_from_scratch p_size p_block_size p_assoc lat bound masters seqAccess p t0 d0 os :
  new_BaseSetAssoc p_size p_block_size p_assoc lat bound masters seqAccess p = Ok t0 ->
  wf p -> rp_instantiateEntry = Ok d0 ->
  0 <= p_size / u64 p_block_size < 2 ^ 32 ->
  p_size / u64 p_block_size = numSets (ip_base p) * assoc (ip_base p) ->
  Forall (tag_op_ok masters) os ->
  exists t1 t' m, tagsInit t0 = Ok (tt, t1) /\ shows t1 ∅
    /\ forM_ os tag_run t1 = Ok (tt, t') /\ dir_run (setShift (base t1)) os ∅ m /\ shows t' m.
Proof using Type*.
  intros Hnew Hwf Hd Hsize Hn Hos. unfold new_BaseSetAssoc in Hnew. case_match; [done|].
  case_match; [done|]. simplify_eq. destruct (tagsInit_run
    (mkTags (u32 p_block_size) lat masters p bound false (u32 (p_size / u64 p_block_size))
       (mkTagStats 0 0 0 0 ∅ ∅ ∅ 0 0) (u32 p_assoc)
       (replicate (Z.to_nat (p_size / u64 p_block_size)) new_CacheBlk) seqAccess ∅) d0
    (Z.to_nat (p_size / u64 p_block_size))) as (t1 & Hinit & Hi & (Em & _) & _); try done.
  - simpl. rewrite Z2Nat.id by lia. unfold u32. apply wrap_small. lia.
  - simpl. rewrite Z2Nat.id by lia. done.
  - destruct (tag_run_refines os t1 ∅ Hi) as (t' & m & Hr & Hdir & Hi' & _); [by rewrite Em|].
    exists t1, t', m. split_and!; try done; by apply inv_shows.
Qed.
End Directory.

(** The limit on the ways that may be allocated has no effect: the victim is
    chosen among all places of the address whatever the limit. *)
Theorem way_allocation_ignored {P D} `{!IndexingPolicy P} `{!BaseReplacementPolicy D}
    (t : BaseSetAssoc P D) now rnd a ways :
  findVictim now rnd a (set_allocAssoc ways t)
  = match findVictim now rnd a t with Ok (v, t') => Ok (v, set_allocAssoc ways t') | Err e => Err e end.
Proof.
  unfold findVictim, mbind, M_bind, get, lift. simpl.
  destruct (ip_getPossibleEntries a (indexingPolicy t)); [|done]. destruct (candidates a0); [|done].
  by destruct (rp_getVictim now rnd a1 (replacementData t)) as [[v s]|].
Qed.

(** ** Tags of 8 sets of 2 blocks with LRU replacement *)

Definition demo_idx : BaseIndexingPolicy :=
  mkIdx 2 8 6 7 (replicate 8 (replicate 2 None)) 9.
Lemma demo_idx_new : new_BaseIndexingPolicy 1024 64 2 = Ok demo_idx.
Proof. by vm_compute. Qed.
Lemma demo_idx_wf : set_wf demo_idx.
Proof. split; [by apply (new_idx_wf 1024 64 2 demo_idx)|done]. Qed.

Definition demo_pkt (a : Z) : Pkt := new_Pkt 0 (new_Request_phys 0 a 64 0 3) ReadReq.
Definition demo_ops : list tag_op :=
  [TFill 1 0 (demo_pkt 0x1000); TAccess 2 0x1008 false; TFill 3 0 (demo_pkt 0x2000);
   TFill 4 0 (demo_pkt 0x3000); TInvalidate 0x3000 false].
Lemma demo_fill_ok now rnd a : addr_ok a -> tag_op_ok 8 (TFill now rnd (demo_pkt a)).
Proof. intros Ha. split; [done|]. exists a, false. split; [done|]. split; [done|exact Ha]. Qed.
Lemma demo_ops_ok : Forall (tag_op_ok 8) demo_ops.
Proof. repeat (apply Forall_cons_2; [by apply demo_fill_ok || by simpl|]). constructor. Qed.

Definition demo_tags : BaseSetAssoc BaseIndexingPolicy LRU.LRUReplData :=
  mkTags 64 2 8 demo_idx 8 false 16 (mkTagStats 0 0 0 0 ∅ ∅ ∅ 0 0) 2 (replicate 16 new_CacheBlk) false ∅.

Lemma tags_from_scratch_witness :
  exists t1 t' m, tagsInit demo_tags = Ok (tt, t1) /\ forM_ demo_ops tag_run t1 = Ok (tt, t')
    /\ shows t' m /\ dir_run (setShift (indexingPolicy t1)) demo_ops ∅ m.
Proof.
  destruct (tags_from_scratch (wf := set_wf) (ok := fun _ => True) 1024 64 2 2 8 8 false demo_idx demo_tags
              (LRU.mkLRU 0) demo_ops) as (t1 & t' & m & H1 & _ & H2 & H3 & H4);
    [by vm_compute|exact demo_idx_wf|done|by vm_compute|by vm_compute|exact demo_ops_ok|].
  exists t1, t', m. split; [exact H1|]. split; [exact H2|]. split; [exact H4|exact H3].
Defined.

Lemma tags_refine_directory_witness :
  exists t1 t' m', tagsInit demo_tags = Ok (tt, t1) /\ tag_run (TFill 1 0 (demo_pkt 0x1000)) t1 = Ok (tt, t')
    /\ shows t' m' /\ dir_step (setShift (indexingPolicy t1)) (TFill 1 0 (demo_pkt 0x1000)) ∅ m'.
Proof.
  destruct (tagsInit_run (wf := set_wf) (ok := fun _ => True) demo_tags (LRU.mkLRU 0) 16) as (t1 & H1 & Hi & (Em & _) & _);
    [exact demo_idx_wf|done|done|done|by vm_compute|done|done|].
  destruct (tags_refine_directory t1 ∅ (TFill 1 0 (demo_pkt 0x1000)) Hi) as (_ & t' & m' & Hr & Hs & _ & Hsh).
  { rewrite Em. apply demo_fill_ok. lia. }
  exists t1, t', m'. split; [exact H1|]. split; [exact Hr|]. split; [exact Hsh|exact Hs].
Defined.
