(* ===== verification/XBarLayer.v ===== *)
(** * The layers of a crossbar (mem/xbar.hh, mem/xbar.cc)

    A layer arbitrates between the ports that want to send to one destination.
    Ports are numbered; the release event is on the abstract scheduler.  A
    client's use of the layer is [attempt]: it asks for the layer, forwards its
    packet when it gets it, and reports whether the destination took it, as the
    crossbars do; other ports may ask while the packet is being forwarded.  What
    clients do when they are told to retry, and the next clock edge, are
    arguments.  [ly_refused] and [ly_retried] record the refusals and the
    retries sent. *)

From S2P Require Import Prelude EventSched Drain.

Inductive LayerState := IDLE | BUSY | RETRY.
#[global] Instance LayerState_eq_dec : EqDecision LayerState.
Proof. solve_decision. Defined.

Record Layer := mkLayer {
  ly_state : LayerState;
  waitingForLayer : list nat;
  waitingForPeer : option nat;
  ly_sched : Sched unit;               (* the release event *)
  occupancy : Z;
  ly_drainState : DrainState;
  ly_refused : list nat;
  ly_retried : list nat
}.
Abbreviation L := (M Layer).

Definition set_ly_state (s : LayerState) (l : Layer) : Layer :=
  mkLayer s (waitingForLayer l) (waitingForPeer l) (ly_sched l) (occupancy l) (ly_drainState l)
    (ly_refused l) (ly_retried l).
Definition set_waitingForLayer (w : list nat) (l : Layer) : Layer :=
  mkLayer (ly_state l) w (waitingForPeer l) (ly_sched l) (occupancy l) (ly_drainState l)
    (ly_refused l) (ly_retried l).
Definition set_waitingForPeer (p : option nat) (l : Layer) : Layer :=
  mkLayer (ly_state l) (waitingForLayer l) p (ly_sched l) (occupancy l) (ly_drainState l)
    (ly_refused l) (ly_retried l).
Definition set_ly_sched (s : Sched unit) (l : Layer) : Layer :=
  mkLayer (ly_state l) (waitingForLayer l) (waitingForPeer l) s (occupancy l) (ly_drainState l)
    (ly_refused l) (ly_retried l).
Definition set_occupancy (n : Z) (l : Layer) : Layer :=
  mkLayer (ly_state l) (waitingForLayer l) (waitingForPeer l) (ly_sched l) n (ly_drainState l)
    (ly_refused l) (ly_retried l).
Definition set_ly_drainState (d : DrainState) (l : Layer) : Layer :=
  mkLayer (ly_state l) (waitingForLayer l) (waitingForPeer l) (ly_sched l) (occupancy l) d
    (ly_refused l) (ly_retried l).
Definition log_refused (p : nat) (l : Layer) : Layer :=
  mkLayer (ly_state l) (waitingForLayer l) (waitingForPeer l) (ly_sched l) (occupancy l) (ly_drainState l)
    (ly_refused l ++ [p]) (ly_retried l).
Definition log_retried (p : nat) (l : Layer) : Layer :=
  mkLayer (ly_state l) (waitingForLayer l) (waitingForPeer l) (ly_sched l) (occupancy l) (ly_drainState l)
    (ly_refused l) (ly_retried l ++ [p]).

Definition ly_now (l : Layer) : Z := s_now (ly_sched l).
Definition ly_on_sched (m : M (Sched unit) unit) : L unit := fun l =>
  match m (ly_sched l) with Ok (_, s) => Ok (tt, set_ly_sched s l) | Err e => Err e end.

Definition new_Layer (now : Z) : Layer := mkLayer IDLE [] None (mkSched now ∅) 0 Running [] [].

(** ** Operations *)

Definition occupyLayer (until : Z) : L unit :=
  st ← gets ly_state;
  assert_ (bool_decide (st = BUSY)) "state == BUSY";;
  assert_ (negb (until =? 0)) "until != 0";;
  ly_on_sched (s_schedule tt until);;
  modify (fun l => set_occupancy (occupancy l + (until - ly_now l)) l).

Definition tryTiming (src_port : nat) : L bool :=
  l ← get;
  if bool_decide (ly_state l = BUSY) || bool_decide (waitingForPeer l <> None) then
    assert_ (bool_decide (src_port ∉ waitingForLayer l)) "src_port is not waiting already";;
    modify (set_waitingForLayer (waitingForLayer l ++ [src_port]));;
    modify (log_refused src_port);;
    mret false
  else
    modify (set_ly_state BUSY);;
    mret true.

Definition succeededTiming (busy_time : Z) : L unit :=
  st ← gets ly_state;
  assert_ (bool_decide (st = BUSY)) "state == BUSY";;
  occupyLayer busy_time.

Definition failedTiming (src_port : nat) (busy_time : Z) : L unit :=
  p ← gets waitingForPeer;
  assert_ (bool_decide (p = None)) "waitingForPeer == NULL";;
  modify (set_waitingForPeer (Some src_port));;
  modify (log_refused src_port);;
  st ← gets ly_state;
  assert_ (bool_decide (st = BUSY)) "state == BUSY";;
  occupyLayer busy_time.

(** A client's attempt: the ports that ask meanwhile, whether the destination
    takes the packet, and until when the layer is busy. *)
Record Attempt := mkAttempt { at_src : nat; at_between : list nat; at_accept : bool; at_busy : Z }.

Definition attempt (a : Attempt) : L unit :=
  ok ← tryTiming (at_src a);
  when_ ok
    (forM_ (at_between a) (fun p => tryTiming p;; mret tt);;
     if at_accept a then succeededTiming (at_busy a) else failedTiming (at_src a) (at_busy a)).

(** [retryWaiting] before and after [sendRetry(retryingPort)], which lets the
    clients make attempts. *)
Definition retry_first : L unit :=
  l ← get;
  assert_ (bool_decide (waitingForLayer l <> [])) "!waitingForLayer.empty()";;
  assert_ (bool_decide (ly_state l = IDLE)) "state == IDLE";;
  modify (set_ly_state RETRY);;
  match waitingForLayer l with
  | [] => throw (EUndefined "front of an empty queue")
  | retryingPort :: rest => modify (set_waitingForLayer rest);; modify (log_retried retryingPort)
  end.

Definition retry_last (clockEdge : Z) : L unit :=
  st ← gets ly_state;
  when_ (bool_decide (st = RETRY))
    (modify (set_ly_state BUSY);; occupyLayer clockEdge).

Definition retryWaiting (react : list Attempt) (clockEdge : Z) : L unit :=
  retry_first;; forM_ react attempt;; retry_last clockEdge.

Definition ly_signalDrainDone : L unit :=
  modify (fun l => if decide (ly_drainState l = Draining) then set_ly_drainState Drained l else l).

(** [releaseLayer] and [recvRetry] up to the call of [retryWaiting]: whether it
    is made. *)
Definition release_first : L bool :=
  l ← get;
  assert_ (bool_decide (ly_state l = BUSY)) "state == BUSY";;
  assert_ (negb (s_scheduled tt (ly_sched l))) "!releaseEvent.scheduled()";;
  modify (set_ly_state IDLE);;
  if bool_decide (waitingForLayer l <> []) then mret (bool_decide (waitingForPeer l = None))
  else
    when_ (bool_decide (waitingForPeer l = None) && bool_decide (ly_drainState l = Draining)) ly_signalDrainDone;;
    mret false.

Definition recv_first : L bool :=
  l ← get;
  match waitingForPeer l with
  | None => throw (EAssert "waitingForPeer != NULL")
  | Some p =>
      modify (set_waitingForLayer (p :: waitingForLayer l));;
      modify (set_waitingForPeer None);;
      if bool_decide (ly_state l = IDLE) then mret true
      else assert_ (bool_decide (ly_state l = BUSY)) "state == BUSY";; mret false
  end.

Definition releaseLayer (react : list Attempt) (clockEdge : Z) : L unit :=
  b ← release_first; when_ b (retryWaiting react clockEdge).

Definition recvRetry (react : list Attempt) (clockEdge : Z) : L unit :=
  b ← recv_first; when_ b (retryWaiting react clockEdge).

Definition ly_drain (l : Layer) : DrainState :=
  if decide (ly_state l = IDLE) then Drained else Draining.

(** ** Inputs *)

Inductive layer_input :=
  | LAttempt (a : Attempt)
  | LRelease (t : Z) (react : list Attempt) (edge : Z)     (* the release event fires at [t] *)
  | LRetry (react : list Attempt) (edge : Z)               (* the destination asks for a retry *)
  | LTime (t : Z)
  | LDrain.

Definition layer_step (i : layer_input) : L unit :=
  match i with
  | LAttempt a => attempt a
  | LRelease t react edge =>
      modify (fun l => set_ly_sched (s_service tt t (ly_sched l)) l);; releaseLayer react edge
  | LRetry react edge => recvRetry react edge
  | LTime t => modify (fun l => set_ly_sched (mkSched t (s_pending (ly_sched l))) l)
  | LDrain => modify (fun l => set_ly_drainState (ly_drain l) l)
  end.
