(* ===== verification/XBarLayerProps.v ===== *)
(** * Crossbar layers neither fail nor forget a port

    The invariant of a layer: it is busy exactly while its release event is
    scheduled, the ports it has refused and not yet told to retry are the ones
    it keeps waiting, each once, and an idle layer keeps ports waiting only while
    the destination owes it a retry. *)

From S2P Require Import Prelude EventSched Drain XBarLayer.

Definition pending (l : Layer) : list nat := option_list (waitingForPeer l) ++ waitingForLayer l.
Definition released (l : Layer) : bool := s_scheduled tt (ly_sched l).

Record layer_inv (l : Layer) : Prop := {
  li_nodup : NoDup (pending l);
  li_log : ly_refused l ≡ₚ ly_retried l ++ pending l;
  li_busy : ly_state l = BUSY <-> released l = true;
  li_retry : ly_state l = RETRY -> waitingForPeer l = None;
  li_live : ly_state l = IDLE -> waitingForPeer l = None -> waitingForLayer l = [];
  li_now : 0 <= ly_now l;
  li_wf : s_wf (ly_sched l);
  li_pos : forall t, s_pending (ly_sched l) !! tt = Some t -> t <> 0;
  li_idle : ly_state l = IDLE -> waitingForPeer l <> None -> ly_now l <> 0
}.

Definition attempt_ok (l : Layer) (a : Attempt) : Prop :=
  NoDup (at_src a :: at_between a) /\ (forall p, p ∈ at_src a :: at_between a -> p ∉ pending l)
  /\ ly_now l <= at_busy a /\ at_busy a <> 0.

(** ** Asking for the layer *)

Definition enqueue (ps : list nat) (l : Layer) : Layer :=
  mkLayer (ly_state l) (waitingForLayer l ++ ps) (waitingForPeer l) (ly_sched l) (occupancy l)
    (ly_drainState l) (ly_refused l ++ ps) (ly_retried l).

Lemma tryTiming_refused p l : ly_state l = BUSY \/ waitingForPeer l <> None -> p ∉ waitingForLayer l ->
  tryTiming p l = Ok (false, enqueue [p] l).
Proof.
  intros Hb Hp. unfold tryTiming. rewrite (bind_run get _ l l l) by done.
  assert (bool_decide (ly_state l = BUSY) || bool_decide (waitingForPeer l <> None) = true) as ->.
  { apply orb_true_iff. by rewrite !bool_decide_eq_true. }
  rewrite bind_assert by (by apply bool_decide_eq_true_2). done.
Qed.

Lemma tryTiming_granted p l : ly_state l <> BUSY -> waitingForPeer l = None ->
  tryTiming p l = Ok (true, set_ly_state BUSY l).
Proof.
  intros Hb Hp. unfold tryTiming. rewrite (bind_run get _ l l l) by done.
  by rewrite (bool_decide_eq_false_2 _ Hb), Hp, (bool_decide_eq_false_2 (None <> None)) by tauto.
Qed.

Lemma between_run ps l : ly_state l = BUSY -> NoDup ps -> (forall p, p ∈ ps -> p ∉ waitingForLayer l) ->
  forM_ ps (fun p => tryTiming p;; mret tt) l = Ok (tt, enqueue ps l).
Proof.
  revert l. induction ps as [|p ps IH]; intros l Hb Hn Hps; simpl.
  { unfold enqueue. destruct l; simpl. by rewrite !app_nil_r. }
  apply NoDup_cons in Hn as [Hp Hn]. rewrite bind_assoc.
  rewrite (bind_run _ _ _ _ _ (tryTiming_refused p l (or_introl Hb) ltac:(apply Hps; set_solver))).
  rewrite bind_ret, IH; [|done|done|].
  - unfold enqueue. simpl. by rewrite <- !app_assoc.
  - intros q Hq. simpl. apply not_elem_of_app. split; [apply Hps; set_solver|]. set_solver.
Qed.

(** The release event is scheduled. *)
Definition occupied (t : Z) (l : Layer) : Layer :=
  mkLayer BUSY (waitingForLayer l) (waitingForPeer l) (mkSched (ly_now l) (<[tt := t]> (s_pending (ly_sched l))))
    (occupancy l + (t - ly_now l)) (ly_drainState l) (ly_refused l) (ly_retried l).

Lemma occupyLayer_run t l : ly_state l = BUSY -> released l = false -> ly_now l <= t -> t <> 0 ->
  occupyLayer t l = Ok (tt, occupied t l).
Proof.
  intros Hb Hr Ht H0. unfold occupyLayer. rewrite bind_gets, bind_assert by (by apply bool_decide_eq_true_2).
  rewrite bind_assert by (by apply negb_true_iff, Z.eqb_neq).
  erewrite bind_run; [|unfold ly_on_sched; rewrite s_schedule_fresh by done; reflexivity].
  unfold occupied. by rewrite <- Hb.
Qed.

Lemma occupied_released t l : released (occupied t l) = true.
Proof. unfold released, s_scheduled. simpl. by rewrite lookup_insert_eq. Qed.

(** A layer that becomes busy until [t]. *)
Lemma occupied_inv t l :
  NoDup (pending l) -> ly_refused l ≡ₚ ly_retried l ++ pending l -> s_wf (ly_sched l) -> 0 <= ly_now l -> ly_now l <= t -> t <> 0 ->
  layer_inv (occupied t l).
Proof.
  intros Hn Hl Hw Hnow Ht H0. split; try done.
  - split; [intros _; apply occupied_released|done].
  - simpl. unfold s_wf in *. simpl. apply map_Forall_insert_2; [exact Ht|exact Hw].
  - intros t'. simpl. rewrite lookup_insert_eq. by intros [= <-].
Qed.

Lemma refused_inv ps l : layer_inv l -> ly_state l = BUSY \/ waitingForPeer l <> None -> NoDup ps ->
  (forall p, p ∈ ps -> p ∉ pending l) -> layer_inv (enqueue ps l).
Proof.
  intros [H1 H2 H3 H4 H5 H6 H7 H8 H9] Hb Hn Hps. split; try done; unfold pending in *; simpl.
  - rewrite app_assoc. apply NoDup_app. split_and!; [done| |done]. intros x Hx Hx'. by apply (Hps x).
  - by rewrite H2, !app_assoc.
  - intros E1 E2. destruct Hb as [Hb|Hb]; congruence.
Qed.

Lemma attempt_inv l a : layer_inv l -> attempt_ok l a ->
  exists l', attempt a l = Ok (tt, l') /\ layer_inv l' /\ ly_now l' = ly_now l /\ ly_retried l' = ly_retried l
    /\ ly_state l' <> RETRY.
Proof.
  intros Hi (Hn & Hp & Ht & H0). pose proof (proj1 (NoDup_cons _ _) Hn) as [Hsrc Hbw]. unfold attempt.
  destruct (decide (ly_state l = BUSY \/ waitingForPeer l <> None)) as [Hb|Hb].
  - assert (at_src a ∉ pending l) as Hs by (apply Hp; set_solver).
    rewrite (bind_run _ _ _ _ _ (tryTiming_refused (at_src a) l Hb ltac:(unfold pending in Hs; set_solver))).
    eexists. split; [done|]. split; [|split; [done|split; [done|]]].
    + apply refused_inv; [done|done|apply NoDup_singleton|]. by intros p ->%list_elem_of_singleton.
    + intros E. simpl in E. destruct Hb as [?|Hb]; [congruence|]. by rewrite (li_retry l Hi E) in Hb.
  - assert (ly_state l <> BUSY /\ waitingForPeer l = None) as [Hst Hpe].
    { split; [tauto|]. destruct (waitingForPeer l); [|done]. exfalso. apply Hb. by right. }
    rewrite (bind_run _ _ _ _ _ (tryTiming_granted _ _ Hst Hpe)). cbn [when_].
    assert (pending l = waitingForLayer l) as Epl by (unfold pending; by rewrite Hpe).
    rewrite Epl in Hp.
    erewrite bind_run; [|apply between_run; [done|done|simpl; set_solver]].
    set (l1 := enqueue (at_between a) (set_ly_state BUSY l)).
    assert (released l1 = false) as Hr1.
    { destruct (released l1) eqn:E; [|done]. exfalso. apply Hst, (li_busy l Hi). exact E. }
    assert (NoDup (at_src a :: waitingForLayer l ++ at_between a)) as Hnd.
    { apply NoDup_cons. split; [apply not_elem_of_app; set_solver|]. apply NoDup_app.
      split_and!; [rewrite <- Epl; apply (li_nodup l Hi)| |done]. intros x Hx Hx'. apply (Hp x); set_solver. }
    pose proof (li_log l Hi) as Hlog. rewrite Epl in Hlog.
    destruct (at_accept a).
    + unfold succeededTiming. rewrite bind_gets, bind_assert by done.
      rewrite (occupyLayer_run (at_busy a) l1) by done. eexists. split; [done|].
      split; [|done]. apply occupied_inv; [| |apply (li_wf l Hi)|apply (li_now l Hi)|done|done]; unfold l1, pending; simpl; rewrite Hpe; simpl.
      * by apply NoDup_cons in Hnd as [_ ?].
      * by rewrite Hlog, app_assoc.
    + unfold failedTiming. rewrite bind_gets. simpl waitingForPeer. rewrite Hpe, bind_assert by done.
      rewrite bind_modify, bind_modify, bind_gets, bind_assert by done.
      rewrite occupyLayer_run by done. eexists. split; [done|].
      split; [|done]. apply occupied_inv; [| |apply (li_wf l Hi)|apply (li_now l Hi)|done|done]; unfold l1, pending; simpl.
      * exact Hnd.
      * rewrite Hlog. solve_Permutation.
Qed.

(** ** Telling a port to retry *)

Fixpoint attempts_ok (l : Layer) (react : list Attempt) : Prop :=
  match react with
  | [] => True
  | a :: rest => attempt_ok l a /\ forall l', attempt a l = Ok (tt, l') -> attempts_ok l' rest
  end.

Lemma attempts_inv react l : layer_inv l -> attempts_ok l react ->
  exists l', forM_ react attempt l = Ok (tt, l') /\ layer_inv l' /\ ly_now l' = ly_now l
    /\ ly_retried l' = ly_retried l.
Proof.
  revert l. induction react as [|a react IH]; intros l Hi Hok; simpl; [by exists l|].
  destruct Hok as [Ha Hr]. destruct (attempt_inv l a Hi Ha) as (l1 & H1 & Hi1 & Hn1 & Hr1 & _).
  rewrite (bind_run _ _ _ _ _ H1). destruct (IH l1 Hi1 (Hr l1 H1)) as (l' & ? & ? & ? & ?).
  exists l'. split_and!; [done|done|congruence|congruence].
Qed.

(** The layer while the port at the head of the queue is told to retry. *)
Definition retrying (l : Layer) : Layer :=
  match waitingForLayer l with
  | [] => l
  | p :: rest => log_retried p (set_waitingForLayer rest (set_ly_state RETRY l))
  end.

Lemma retrying_inv l p rest :
  ly_state l = IDLE -> waitingForPeer l = None -> waitingForLayer l = p :: rest -> released l = false ->
  NoDup (pending l) -> ly_refused l ≡ₚ ly_retried l ++ pending l -> s_wf (ly_sched l) -> 0 <= ly_now l ->
  retry_first l = Ok (tt, retrying l) /\ layer_inv (retrying l).
Proof.
  intros Hst Hpe Hw Hr Hn Hl Hwf Hnow. split.
  { unfold retry_first, retrying. rewrite (bind_run get _ l l l) by done. by rewrite Hw, bind_assert, Hst, bind_assert by done. }
  unfold retrying. rewrite Hw. unfold pending in Hn, Hl. rewrite Hpe, Hw in Hn, Hl.
  assert (s_pending (ly_sched l) !! tt = None) as Hnone.
  { unfold released, s_scheduled in Hr. apply bool_decide_eq_false in Hr. by apply eq_None_not_Some. }
  split; unfold pending; simpl; rewrite ?Hpe; simpl; try done.
  - by apply NoDup_cons in Hn as [_ ?].
  - rewrite Hl. simpl. by rewrite <- app_assoc.
  - split; [done|]. intros E. unfold released in *. simpl in E. congruence.
  - rewrite Hnone. done.
Qed.

Lemma retryWaiting_inv react edge l p rest :
  ly_state l = IDLE -> waitingForPeer l = None -> waitingForLayer l = p :: rest -> released l = false ->
  NoDup (pending l) -> ly_refused l ≡ₚ ly_retried l ++ pending l -> s_wf (ly_sched l) -> 0 < ly_now l ->
  ly_now l <= edge -> attempts_ok (retrying l) react ->
  exists l', retryWaiting react edge l = Ok (tt, l') /\ layer_inv l' /\ ly_state l' <> RETRY
    /\ ly_retried l' = ly_retried l ++ [p].
Proof.
  intros Hst Hpe Hw Hr Hn Hl Hwf Hnow Hedge Hok. unfold retryWaiting.
  destruct (retrying_inv l p rest) as [Hrun Hir]; try done; [lia|]. rewrite (bind_run _ _ _ _ _ Hrun).
  unfold retrying in *. rewrite Hw in *. set (lr := log_retried p _) in *.
  destruct (attempts_inv react lr Hir Hok) as (l1 & H1 & Hi1 & Hn1 & Hr1).
  rewrite (bind_run _ _ _ _ _ H1). unfold retry_last. rewrite bind_gets. case_bool_decide as Hs1; cbn [when_].
  - rewrite bind_modify. change (ly_now lr) with (ly_now l) in Hn1. assert (released l1 = false) as Hr1'.
    { destruct (released l1) eqn:E; [|done]. apply (li_busy l1 Hi1) in E. congruence. }
    rewrite occupyLayer_run; [|done|exact Hr1'|change (ly_now l1 <= edge); lia|lia].
    eexists. split; [done|]. split; [|split; [done|exact Hr1]].
    apply occupied_inv; [apply (li_nodup l1 Hi1)|apply (li_log l1 Hi1)|apply (li_wf l1 Hi1)|apply (li_now l1 Hi1)| |];
      [change (ly_now l1 <= edge)|]; lia.
  - exists l1. split_and!; try done.
Qed.

(** ** Inputs *)

Definition freed (t : Z) (l : Layer) : Layer :=
  set_ly_state IDLE (set_ly_sched (s_service tt t (ly_sched l)) l).
Definition peer_ready (p : nat) (l : Layer) : Layer :=
  set_waitingForPeer None (set_waitingForLayer (p :: waitingForLayer l) l).

(** The clients and the destination follow the port protocol: a port that has
    been refused waits for its retry, the destination asks for a retry after it
    has refused, and time does not pass a due event. *)
Definition input_ok (l : Layer) (i : layer_input) : Prop :=
  match i with
  | LAttempt a => attempt_ok l a
  | LRelease t react edge => s_due tt t (ly_sched l) /\ t <= edge /\ attempts_ok (retrying (freed t l)) react
  | LRetry react edge => exists p, waitingForPeer l = Some p /\ ly_now l <= edge
      /\ attempts_ok (retrying (peer_ready p l)) react
  | LTime t => ly_now l <= t /\ map_Forall (fun _ t' => t <= t') (s_pending (ly_sched l))
  | LDrain => True
  end.

Lemma layer_release_inv l t react edge : layer_inv l -> input_ok l (LRelease t react edge) ->
  exists l', layer_step (LRelease t react edge) l = Ok (tt, l') /\ layer_inv l' /\ ly_state l' <> RETRY
    /\ ly_retried l' = ly_retried l ++ match waitingForPeer l with None => take 1 (waitingForLayer l) | Some _ => [] end.
Proof.
  intros Hi (Hdue & Hedge & Hok). simpl. rewrite bind_modify. unfold releaseLayer, release_first.
  set (l0 := set_ly_sched _ l). rewrite bind_assoc, (bind_run get _ l0 l0 l0) by done.
  pose proof Hdue as [Hp Hall]. pose proof (li_pos l Hi t Hp) as Ht0.
  pose proof (li_wf l Hi _ _ Hp) as Htn. pose proof (li_now l Hi) as Hnn. change (ly_now l <= t) in Htn.
  assert (ly_state l = BUSY) as Hb by (apply (li_busy l Hi); by eapply s_due_scheduled).
  assert (released l0 = false) as Hr0.
  { unfold released. simpl. rewrite s_service_scheduled. by rewrite bool_decide_eq_true_2. }
  rewrite bind_assoc, bind_assert by (by apply bool_decide_eq_true_2).
  unfold released in Hr0. rewrite Hr0, bind_assoc, bind_assert by done.
  rewrite bind_assoc, bind_modify. change (set_ly_state IDLE l0) with (freed t l).
  assert (released (freed t l) = false) as Hrf by exact Hr0.
  assert (s_wf (ly_sched (freed t l))) as Hwf by by apply s_service_wf.
  change (waitingForLayer l0) with (waitingForLayer l). change (waitingForPeer l0) with (waitingForPeer l).
  change (ly_drainState l0) with (ly_drainState l).
  destruct (waitingForLayer l) as [|p rest] eqn:Ew; [rewrite (bool_decide_eq_false_2 ([] <> [])) by tauto|rewrite (bool_decide_eq_true_2 (p :: rest <> [])) by done].
  - assert (layer_inv (freed t l)) as Hf.
    { split; try done; unfold pending; simpl; try apply Hi; change (ly_now (freed t l)) with t; try lia.
      - by rewrite Hrf.
      - intros t'. by rewrite lookup_delete_eq. }
    assert (forall d, layer_inv (set_ly_drainState d (freed t l))) as Hd by (intros d; destruct Hf; by split).
    assert (ly_retried l = ly_retried l ++ match waitingForPeer l with None => take 1 [] | Some _ => [] end) as Er
      by (destruct (waitingForPeer l); simpl; by rewrite app_nil_r).
    destruct (_ && _); cbn [when_]; (eexists; split; [reflexivity|]); simpl; [case_decide|]; split_and!; done || apply Hd.
  - destruct (waitingForPeer l) as [q|] eqn:Ep; cbn [bool_decide decide_rel when_].
    + eexists. split; [done|]. split_and!; try done; [|simpl; by rewrite app_nil_r].
      split; try done; unfold pending; simpl; try apply Hi; change (ly_now (freed t l)) with t; try lia.
      * by rewrite Hrf.
      * rewrite Ep. done.
      * intros t'. by rewrite lookup_delete_eq.
    + destruct (retryWaiting_inv react edge (freed t l) p rest) as (l' & H1 & H2 & H3 & H4); try done;
        try apply Hi; [simpl; unfold ly_now; simpl; lia|].
      exists l'. split_and!; done.
Qed.

Lemma recvRetry_inv l react edge : layer_inv l -> ly_state l <> RETRY -> input_ok l (LRetry react edge) ->
  exists l', layer_step (LRetry react edge) l = Ok (tt, l') /\ layer_inv l' /\ ly_state l' <> RETRY
    /\ ly_retried l' = ly_retried l ++
         (if decide (ly_state l = IDLE) then option_list (waitingForPeer l) else []).
Proof.
  intros Hi Hst (p & Ep & Hedge & Hok). simpl. unfold recvRetry, recv_first. rewrite bind_assoc, (bind_run get _ l l l) by done.
  rewrite Ep, bind_assoc, bind_modify, bind_assoc, bind_modify. change (set_waitingForPeer None _) with (peer_ready p l).
  assert (pending (peer_ready p l) = pending l) as Epd by (unfold pending; simpl; by rewrite Ep).
  case_decide as Hidle.
  - rewrite bool_decide_eq_true_2 by done.
    destruct (retryWaiting_inv react edge (peer_ready p l) p (waitingForLayer l)) as (l' & H1 & H2 & H3 & H4);
      try done; rewrite ?Epd; try apply Hi.
    + destruct (released (peer_ready p l)) eqn:E; [|done]. apply (li_busy l Hi) in E. congruence.
    + pose proof (li_now l Hi). pose proof (li_idle l Hi Hidle) as Hz. rewrite Ep in Hz.
      change (ly_now (peer_ready p l)) with (ly_now l). assert (ly_now l <> 0) by by apply Hz. lia.
    + exists l'. split_and!; done.
  - rewrite bool_decide_eq_false_2 by done. assert (ly_state l = BUSY) as Hb by (by destruct (ly_state l)).
    rewrite Hb. eexists. split; [done|]. split_and!; [|simpl; congruence|simpl; by rewrite app_nil_r].
    split; rewrite ?Epd; try apply Hi; done || (simpl; congruence).
Qed.

Lemma layer_step_inv l i : layer_inv l -> ly_state l <> RETRY -> input_ok l i ->
  exists l', layer_step i l = Ok (tt, l') /\ layer_inv l' /\ ly_state l' <> RETRY.
Proof.
  intros Hi Hst Hok. destruct i as [a|t react edge|react edge|t|].
  - destruct (attempt_inv l a Hi Hok) as (l' & H1 & H2 & _ & _ & H3). by exists l'.
  - destruct (layer_release_inv l t react edge Hi Hok) as (l' & ? & ? & ? & _). by exists l'.
  - destruct (recvRetry_inv l react edge Hi Hst Hok) as (l' & ? & ? & ? & _). by exists l'.
  - destruct Hok as [Ht Hall]. eexists. split; [done|]. split; [|done]. pose proof (li_now l Hi) as Hnn.
    split; try done; try apply Hi; unfold ly_now in *; simpl; [lia|].
    intros E1 E2. pose proof (li_idle l Hi E1 E2) as Hz. unfold ly_now in Hz. lia.
  - eexists. split; [done|]. split; [|done]. destruct Hi. by split.
Qed.

(** The layers reached from a new one by inputs that follow the protocol. *)
Inductive layer_reach : Layer -> Prop :=
  | lr_new now : 0 <= now -> layer_reach (new_Layer now)
  | lr_step l i l' : layer_reach l -> input_ok l i -> layer_step i l = Ok (tt, l') -> layer_reach l'.

Lemma layer_reach_inv l : layer_reach l -> layer_inv l /\ ly_state l <> RETRY.
Proof.
  induction 1 as [now Hnow|l i l' _ [Hi Hst] Hok Hrun].
  - split; [|done]. split; unfold pending, s_wf; simpl; try done; apply NoDup_nil_2 || apply map_Forall_empty.
  - destruct (layer_step_inv l i Hi Hst Hok) as (l1 & H1 & H2 & H3). by assert (l1 = l') as -> by congruence.
Qed.

(** C21: as long as the ports follow the protocol, no input makes a layer of a
    crossbar fail an assertion, and no port is forgotten: every refusal has
    been answered by exactly one retry or its port is waiting, once; while any
    port waits, the release event is scheduled or the destination owes a retry;
    when the layer is released and the destination owes nothing, the port that
    waited longest is told to retry, and a retry from the destination goes to
    the port whose packet it refused, at once if the layer is idle. *)
Theorem layer_forgets_no_port l i : layer_reach l -> input_ok l i ->
  (exists l', layer_step i l = Ok (tt, l') /\ layer_reach l'
     /\ match i with
        | LRelease _ _ _ => ly_retried l' = ly_retried l ++
            match waitingForPeer l with None => take 1 (waitingForLayer l) | Some _ => [] end
        | LRetry _ _ => ly_retried l' = ly_retried l ++
            (if decide (ly_state l = IDLE) then option_list (waitingForPeer l) else [])
        | _ => ly_retried l' = ly_retried l
        end)
  /\ ly_refused l ≡ₚ ly_retried l ++ pending l /\ NoDup (pending l)
  /\ (pending l <> [] -> (ly_state l = BUSY /\ released l = true) \/ waitingForPeer l <> None).
Proof.
  intros Hr Hok. destruct (layer_reach_inv l Hr) as [Hi Hst]. split.
  - destruct (layer_step_inv l i Hi Hst Hok) as (l' & H1 & _ & _). exists l'. split; [done|].
    split; [by eapply lr_step|]. destruct i as [a|t react edge|react edge|t|].
    + destruct (attempt_inv l a Hi Hok) as (l1 & H2 & _ & _ & H3 & _). simpl in H1. congruence.
    + destruct (layer_release_inv l t react edge Hi Hok) as (l1 & H2 & _ & _ & H3). congruence.
    + destruct (recvRetry_inv l react edge Hi Hst Hok) as (l1 & H2 & _ & _ & H3). congruence.
    + simpl in H1. minv H1. done.
    + simpl in H1. minv H1. done.
  - split; [apply (li_log l Hi)|]. split; [apply (li_nodup l Hi)|]. intros Hp.
    destruct (waitingForPeer l) as [p|] eqn:Ep; [by right|]. left.
    destruct (ly_state l) eqn:Es; [exfalso|split; [done|by apply (li_busy l Hi)]|done].
    apply Hp. unfold pending. by rewrite Ep, (li_live l Hi Es Ep).
Qed.

Definition demo_attempt : Attempt := mkAttempt 1 [2%nat] false 10.
Definition demo_layer : Layer :=
  match layer_step (LAttempt demo_attempt) (new_Layer 5) with Ok (_, l) => l | Err _ => new_Layer 5 end.
Lemma demo_layer_reach : layer_reach demo_layer.
Proof.
  apply (lr_step (new_Layer 5) (LAttempt demo_attempt)); [by apply lr_new| |by vm_compute].
  split; [repeat constructor; set_solver|]. split; [unfold pending; simpl; set_solver|]. split; [by vm_compute|done].
Qed.
Lemma demo_release_ok : input_ok demo_layer (LRelease 10 [] 10).
Proof.
  split; [|split; [lia|by vm_compute]]. split; [by vm_compute|].
  assert (s_pending (ly_sched demo_layer) = {[ tt := 10 ]}) as -> by (by vm_compute).
  intros k x Hx. apply lookup_singleton_Some in Hx as [_ <-]. lia.
Qed.

Lemma layer_forgets_no_port_witness :
  exists l', layer_step (LRelease 10 [] 10) demo_layer = Ok (tt, l') /\ ly_retried l' = []
    /\ waitingForPeer demo_layer = Some 1%nat.
Proof.
  destruct (layer_forgets_no_port demo_layer (LRelease 10 [] 10) demo_layer_reach demo_release_ok)
    as [(l' & H1 & _ & H2) _].
  exists l'. split; [exact H1|]. split; [rewrite H2; by vm_compute|by vm_compute].
Defined.

(** [drain] looks at the state only: an idle layer says that it is drained
    although a port waits for the destination to ask for a retry. *)
Theorem drained_with_port_waiting :
  exists l, layer_reach l /\ ly_drain l = Drained /\ pending l <> [].
Proof.
  destruct (layer_reach_inv _ demo_layer_reach) as [Hi Hst].
  destruct (layer_step_inv _ _ Hi Hst demo_release_ok) as (l' & H1 & _).
  exists l'. split; [by eapply lr_step; [apply demo_layer_reach|apply demo_release_ok|]|].
  vm_compute in H1. by simplify_eq.
Qed.
