(* ===== verification/XBar.v ===== *)
(** * Crossbars (mem/xbar.{hh,cc}, mem/noncoherent_xbar.cc)

    The address decoding of a crossbar over the range map, and the non-coherent
    crossbar over its layers and the response queues of its slave ports.  Ports
    are numbered.  What a neighbour answers is an argument: the ranges of the
    module behind a master port, whether it takes a request, the latency of an
    atomic access.  [routeTo] is keyed by the request, whose identity is the
    packet's number.  [x_forwarded] and [x_responded] record the requests taken
    by a destination that are to be answered, and the responses handed to a
    slave port. *)

From S2P Require Import Prelude IntMath Clocked AddrRange AddrRangeMap EventSched Drain Packet Request PacketData PacketQueue XBarLayer.

(** ** State *)

Record XBarParams := mkXParams {
  frontendLatency : Z; forwardLatency : Z; responseLatency : Z; width : Z;
  clockPeriod : Z; tick_us : Z;
  defaultPortID : option nat;
  useDefaultRange : bool
}.

(** The tables address decoding works on. *)
Record Decoder := mkDecoder {
  portMap : AddrRangeMap nat;
  xbarRanges : list AddrRange;
  defaultRange : AddrRange;
  gotAddrRanges : list bool;
  gotAllAddrRanges : bool
}.

Record XBar := mkXBar {
  x_params : XBarParams;
  x_now : Z;
  x_clock : Clocked;
  x_decoder : Decoder;
  routeTo : gmap Z nat;
  reqLayers : list Layer;
  respLayers : list Layer;
  slavePorts : list PacketQueue;
  pktCount : gmap (nat * nat) Z;
  pktSize : gmap (nat * nat) Z;
  transDist : gmap nat Z;
  x_forwarded : list (Z * nat * nat);
  x_responded : list (Z * nat)
}.
Abbreviation X := (M XBar).

Definition set_x_clock (c : Clocked) (x : XBar) : XBar :=
  mkXBar (x_params x) (x_now x) c (x_decoder x) (routeTo x) (reqLayers x) (respLayers x) (slavePorts x)
    (pktCount x) (pktSize x) (transDist x) (x_forwarded x) (x_responded x).
Definition set_x_decoder (d : Decoder) (x : XBar) : XBar :=
  mkXBar (x_params x) (x_now x) (x_clock x) d (routeTo x) (reqLayers x) (respLayers x) (slavePorts x)
    (pktCount x) (pktSize x) (transDist x) (x_forwarded x) (x_responded x).
Definition set_routeTo (r : gmap Z nat) (x : XBar) : XBar :=
  mkXBar (x_params x) (x_now x) (x_clock x) (x_decoder x) r (reqLayers x) (respLayers x) (slavePorts x)
    (pktCount x) (pktSize x) (transDist x) (x_forwarded x) (x_responded x).
Definition set_reqLayers (l : list Layer) (x : XBar) : XBar :=
  mkXBar (x_params x) (x_now x) (x_clock x) (x_decoder x) (routeTo x) l (respLayers x) (slavePorts x)
    (pktCount x) (pktSize x) (transDist x) (x_forwarded x) (x_responded x).
Definition set_respLayers (l : list Layer) (x : XBar) : XBar :=
  mkXBar (x_params x) (x_now x) (x_clock x) (x_decoder x) (routeTo x) (reqLayers x) l (slavePorts x)
    (pktCount x) (pktSize x) (transDist x) (x_forwarded x) (x_responded x).
Definition set_slavePorts (l : list PacketQueue) (x : XBar) : XBar :=
  mkXBar (x_params x) (x_now x) (x_clock x) (x_decoder x) (routeTo x) (reqLayers x) (respLayers x) l
    (pktCount x) (pktSize x) (transDist x) (x_forwarded x) (x_responded x).
Definition set_counts (c s : gmap (nat * nat) Z) (t : gmap nat Z) (x : XBar) : XBar :=
  mkXBar (x_params x) (x_now x) (x_clock x) (x_decoder x) (routeTo x) (reqLayers x) (respLayers x) (slavePorts x)
    c s t (x_forwarded x) (x_responded x).
Definition log_forwarded (e : Z * nat * nat) (x : XBar) : XBar :=
  mkXBar (x_params x) (x_now x) (x_clock x) (x_decoder x) (routeTo x) (reqLayers x) (respLayers x) (slavePorts x)
    (pktCount x) (pktSize x) (transDist x) (x_forwarded x ++ [e]) (x_responded x).
Definition log_responded (e : Z * nat) (x : XBar) : XBar :=
  mkXBar (x_params x) (x_now x) (x_clock x) (x_decoder x) (routeTo x) (reqLayers x) (respLayers x) (slavePorts x)
    (pktCount x) (pktSize x) (transDist x) (x_forwarded x) (x_responded x ++ [e]).

Definition set_defaultPortID (d : option nat) (p : XBarParams) : XBarParams :=
  mkXParams (frontendLatency p) (forwardLatency p) (responseLatency p) (width p) (clockPeriod p) (tick_us p)
    d (useDefaultRange p).

(** The constructor: one request layer per master port (the default port last),
    one response layer and queue per slave port. *)
Definition new_XBar (p : XBarParams) (now : Z) (masters slaves : nat) : XBar :=
  let all := match defaultPortID p with Some _ => S masters | None => masters end in
  mkXBar (set_defaultPortID ((fun _ => masters) <$> defaultPortID p) p) now new_Clocked (mkDecoder empty_map [] AddrRange_default (replicate all false) false) ∅
    (replicate all (new_Layer now)) (replicate slaves (new_Layer now))
    (replicate slaves (new_PacketQueue false false now)) ∅ ∅ ∅ [] [].

(** Running an operation of a part. *)
Definition on_part {A R} (get_l : XBar -> list A) (set_l : list A -> XBar -> XBar) (i : nat) (m : M A R) : X R :=
  fun x =>
    match get_l x !! i with
    | None => Err (EUndefined "index out of range")
    | Some a => match m a with
                | Ok (r, a') => Ok (r, set_l (<[i := a']> (get_l x)) x)
                | Err e => Err e
                end
    end.
Definition on_reqLayer {R} (i : nat) (m : M Layer R) : X R := on_part reqLayers set_reqLayers i m.
Definition on_respLayer {R} (i : nat) (m : M Layer R) : X R := on_part respLayers set_respLayers i m.
Definition on_slavePort {R} (i : nat) (m : M PacketQueue R) : X R := on_part slavePorts set_slavePorts i m.

(** ** Timing *)

Definition x_clockEdge (cycles : Z) : X Z :=
  x ← get;
  let '(t, c) := clockEdge (x_now x) (clockPeriod (x_params x)) cycles (x_clock x) in
  modify (set_x_clock c);; mret t.

Definition calcPacketTiming (pkt : Pkt) (header_delay : Z) : X Pkt :=
  edge ← x_clockEdge 0;
  x ← get;
  let p := x_params x in
  let offset := u64 (edge - x_now x) in
  let pkt := set_p_headerDelay (u32 (p_headerDelay pkt + u64 (offset + header_delay))) pkt in
  panic_if (tick_us p <? p_headerDelay pkt) "Encountered header delay exceeding 1 us";;
  if hasData (p_cmd pkt) then
    size ← lift (getSize pkt);
    mret (set_p_payloadDelay
            (u32 (Z.max (p_payloadDelay pkt) (u64 (u32 (size + width p - 1) / width p * clockPeriod p)))) pkt)
  else mret pkt.

(** ** Address decoding *)

(** [mx] entries are cached: [AddrRangeMap<PortID, 3>]. *)
Definition findPort (addr_range : AddrRange) : X nat :=
  x ← get;
  let d := x_decoder x in
  assert_ (gotAllAddrRanges d) "gotAllAddrRanges";;
  '(o, m) ← lift (contains_range 3 addr_range (portMap d));
  modify (set_x_decoder (mkDecoder m (xbarRanges d) (defaultRange d) (gotAddrRanges d) (gotAllAddrRanges d)));;
  match o with
  | Some n => mret (n_val n)
  | None =>
      let fatal := throw (EFatal "Unable to find destination") in
      if useDefaultRange (x_params x) then
        b ← lift (isSubset addr_range (defaultRange d));
        if b : bool then match defaultPortID (x_params x) with
                         | Some id => mret id
                         | None => throw (EUndefined "InvalidPortID")
                         end
        else fatal
      else match defaultPortID (x_params x) with Some id => mret id | None => fatal end
  end.

(** Removing the entries of a port, and adding its ranges. *)
Definition erase_port (id : nat) (m : AddrRangeMap nat) : AddrRangeMap nat :=
  fold_left (fun m n => if decide (n_val n = id) then erase (n_id n) m else m) (tree m) m.

Fixpoint insert_ranges (ranges : list AddrRange) (id : nat) (m : AddrRangeMap nat) : res (AddrRangeMap nat) :=
  match ranges with
  | [] => Ok m
  | r :: rest =>
      '(o, m) ← insert 3 r id m;
      match o with
      | None => Err (EFatal "two ports responding within range")
      | Some _ => insert_ranges rest id m
      end
  end.

(** The ranges shown to the neighbours: interleaved ranges are merged and ranges
    inside the default range are left out. *)
Section Aggregate.
Context (useDefault : bool) (dflt : AddrRange).
Definition keep_range (r : AddrRange) (acc : list AddrRange) : res (list AddrRange) :=
  b ← (if useDefault then isSubset r dflt else Ok false);
  Ok (if b : bool then acc else acc ++ [r]).

Definition merge_kept (intlv acc : list AddrRange) : res (list AddrRange) :=
  merged ← AddrRange_merge intlv; keep_range merged acc.

Fixpoint aggregate (rs intlv acc : list AddrRange) : res (list AddrRange) :=
  match rs with
  | [] => match intlv with [] => Ok acc | _ => merge_kept intlv acc end
  | r :: rest =>
      if interleaved r then
        match last intlv with
        | Some b => if negb (mergesWith b r) then acc ← merge_kept intlv acc; aggregate rest [r] acc
                    else aggregate rest (intlv ++ [r]) acc
        | None => aggregate rest (intlv ++ [r]) acc
        end
      else acc ← keep_range r acc; aggregate rest intlv acc
  end.

Fixpoint check_default (rs : list AddrRange) : res unit :=
  match rs with
  | [] => Ok tt
  | r :: rest =>
      i ← intersects r dflt;
      bad ← (if i : bool then s ← isSubset r dflt; Ok (negb s) else Ok false);
      if bad : bool then Err (EFatal "Range intersects the default range but is not a subset")
      else check_default rest
  end.
End Aggregate.

(** [ranges]: what the module behind the port answers to [getAddrRanges]. *)
Definition recvRangeChange (id : nat) (ranges : list AddrRange) : X unit :=
  x ← get;
  let d := x_decoder x in
  let p := x_params x in
  match gotAddrRanges d !! id with
  | None => throw (EUndefined "gotAddrRanges out of range")
  | Some _ =>
      let got := <[id := true]> (gotAddrRanges d) in
      let all := gotAllAddrRanges d || forallb (fun b => b) got in
      '(m, dflt) ←
        (if bool_decide (Some id = defaultPortID p) then
           if useDefaultRange p then
             match ranges with
             | [r] => mret (portMap d, r)
             | _ => throw (EFatal "Crossbar may only have a single default range")
             end
           else mret (portMap d, defaultRange d)
         else
           m ← lift (insert_ranges ranges id (erase_port id (portMap d)));
           mret (m, defaultRange d));
      shown ←
        (if all then
           rs0 ← (if useDefaultRange p then
                    match defaultPortID p with
                    | Some i => if default false (got !! i) then mret [dflt]
                                else throw (EFatal "Crossbar uses default range, but none provided")
                    | None => throw (EUndefined "gotAddrRanges[InvalidPortID]")
                    end
                  else mret []);
           rs ← lift (aggregate (useDefaultRange p) dflt (n_range <$> tree m) [] rs0);
           lift (if useDefaultRange p then check_default dflt rs else Ok tt);;
           mret rs
         else mret (xbarRanges d));
      modify (set_x_decoder (mkDecoder m shown dflt got all))
  end.

Definition x_getAddrRanges (x : XBar) : res (list AddrRange) :=
  assert_r (gotAllAddrRanges (x_decoder x)) "gotAllAddrRanges";; Ok (xbarRanges (x_decoder x)).

(** ** The non-coherent crossbar *)

Definition count (slave master : nat) (size : Z) (cmd : nat) : X unit :=
  modify (fun x =>
    let add {K} `{Countable K} (k : K) (n : Z) (m : gmap K Z) := <[k := default 0 (m !! k) + n]> m in
    set_counts (add (slave, master) 1 (pktCount x)) (add (slave, master) size (pktSize x))
      (add cmd 1 (transDist x)) x).

Definition data_size (pkt : Pkt) : res Z := if hasData (p_cmd pkt) then getSize pkt else Ok 0.

(** [accept]: whether the destination takes the packet. *)
Definition x_recvTimingReq (pkt : Pkt) (slave_port_id : nat) (accept : bool) : X (bool * Pkt) :=
  assert_ (negb (isExpressSnoop pkt)) "!pkt->isExpressSnoop()";;
  r ← lift (getAddrRange pkt);
  master_port_id ← findPort r;
  granted ← on_reqLayer master_port_id (tryTiming slave_port_id);
  if negb granted then mret (false, pkt)
  else
    pkt_size ← lift (data_size pkt);
    p ← gets x_params;
    fwd ← calcPacketTiming pkt (u64 (u64 (frontendLatency p + forwardLatency p) * clockPeriod p));
    edge ← x_clockEdge 1;
    let packetFinishTime := u64 (edge + p_payloadDelay fwd) in
    let expect_response := needsResponse (p_cmd fwd) && negb (cacheResponding fwd) in
    if negb accept then
      edge ← x_clockEdge 1;
      on_reqLayer master_port_id (failedTiming slave_port_id edge);;
      mret (false, set_p_headerDelay (p_headerDelay pkt) fwd)
    else
      when_ expect_response
        (rt ← gets routeTo;
         assert_ (bool_decide (rt !! p_id pkt = None)) "routeTo.find(pkt->req) == routeTo.end()";;
         modify (set_routeTo (<[p_id pkt := slave_port_id]> rt));;
         modify (log_forwarded (p_id pkt, slave_port_id, master_port_id)));;
      on_reqLayer master_port_id (succeededTiming packetFinishTime);;
      count slave_port_id master_port_id pkt_size (toInt (p_cmd pkt));;
      mret (true, fwd).

Definition x_recvTimingResp (pkt : Pkt) (master_port_id : nat) : X (bool * Pkt) :=
  rt ← gets routeTo;
  match rt !! p_id pkt with
  | None => throw (EAssert "route_lookup != routeTo.end()")
  | Some slave_port_id =>
      ls ← gets respLayers;
      assert_ (bool_decide (slave_port_id < length ls)%nat) "slave_port_id < respLayers.size()";;
      granted ← on_respLayer slave_port_id (tryTiming master_port_id);
      if negb granted then mret (false, pkt)
      else
        pkt_size ← lift (data_size pkt);
        p ← gets x_params;
        now ← gets x_now;
        fwd ← calcPacketTiming pkt (u64 (responseLatency p * clockPeriod p));
        edge ← x_clockEdge 1;
        let packetFinishTime := u64 (edge + p_payloadDelay fwd) in
        let latency := p_headerDelay fwd in
        let fwd := set_p_headerDelay 0 fwd in
        on_slavePort slave_port_id (schedSendTiming fwd (u64 (now + latency)));;
        modify (log_responded (p_id pkt, slave_port_id));;
        modify (set_routeTo (delete (p_id pkt) rt));;
        on_respLayer slave_port_id (succeededTiming packetFinishTime);;
        count slave_port_id master_port_id pkt_size (toInt (p_cmd pkt));;
        mret (true, fwd)
  end.

(** The layers' [retryWaiting], [recvRetry] and [releaseLayer] inside the
    crossbar: [react] is what the ports do when they are told to retry. *)
Definition on_layer {R} (req : bool) (i : nat) (m : M Layer R) : X R :=
  if req then on_reqLayer i m else on_respLayer i m.

Definition x_retryWaiting (req : bool) (i : nat) (react : X unit) : X unit :=
  on_layer req i retry_first;;
  react;;
  st ← on_layer req i (gets ly_state);
  when_ (bool_decide (st = RETRY)) (edge ← x_clockEdge 0; on_layer req i (retry_last edge)).

Definition x_serve (req : bool) (i : nat) (first : M Layer bool) (react : X unit) : X unit :=
  b ← on_layer req i first; when_ b (x_retryWaiting req i react).

Definition x_recvReqRetry (master_port_id : nat) (react : X unit) : X unit :=
  x_serve true master_port_id recv_first react.

(** The release event of a layer fires at [t]. *)
Definition x_releaseLayer (req : bool) (i : nat) (t : Z) (react : X unit) : X unit :=
  on_layer req i (modify (fun l => set_ly_sched (s_service tt t (ly_sched l)) l));;
  x_serve req i release_first react.

(** The loop over the response queues of the slave ports. *)
Fixpoint satisfied_by (qs : list nat) (pkt : Pkt) : X (bool * Pkt) :=
  match qs with
  | [] => mret (false, pkt)
  | q :: rest =>
      '(found, pkt) ← on_slavePort q (pq_trySatisfyFunctional pkt);
      if found : bool then mret (true, pkt) else satisfied_by rest pkt
  end.

(** Atomic and functional accesses call the component behind a master port, which
    has a state of its own: the state [S] has the crossbar as a part, and
    [send i pkt] is the call of the component behind master port [i]. *)
Section Forwarding.
Context {S : Type} (bar : S -> XBar) (put_bar : XBar -> S -> S).
Definition at_bar {R} (m : X R) : M S R := zoom bar put_bar m.

(** [send]: the latency the destination returns, and the packet. *)
Definition x_recvAtomic (send : nat -> Pkt -> M S (Z * Pkt)) (pkt : Pkt) (slave_port_id : nat) : M S (Z * Pkt) :=
  pkt_size ← lift (data_size pkt);
  r ← lift (getAddrRange pkt);
  master_port_id ← at_bar (findPort r);
  at_bar (count slave_port_id master_port_id pkt_size (toInt (p_cmd pkt)));;
  '(response_latency, pkt) ← send master_port_id pkt;
  (if isResponse (p_cmd pkt) then
     pkt_size ← lift (data_size pkt);
     at_bar (count slave_port_id master_port_id pkt_size (toInt (p_cmd pkt)))
   else mret tt);;
  mret (response_latency, set_p_payloadDelay (u32 response_latency) pkt).

Definition x_recvFunctional (send : nat -> Pkt -> M S Pkt) (pkt : Pkt) : M S Pkt :=
  n ← at_bar (gets (fun x => length (slavePorts x)));
  '(found, pkt) ← at_bar (satisfied_by (seq 0 n) pkt);
  if found : bool then lift (if needsResponse (p_cmd pkt) then pkt_makeResponse pkt else Ok pkt)
  else
    r ← lift (getAddrRange pkt);
    dest_id ← at_bar (findPort r);
    send dest_id pkt.
End Forwarding.

(** ** Inputs *)

(** Other events of the simulator: time passes for every part. *)
Definition sched_at {E} `{Countable E} (t : Z) (s : Sched E) : Sched E := mkSched t (s_pending s).
Definition x_time (t : Z) (x : XBar) : XBar :=
  let at_ (l : Layer) := set_ly_sched (sched_at t (ly_sched l)) l in
  mkXBar (x_params x) t (x_clock x) (x_decoder x) (routeTo x) (at_ <$> reqLayers x) (at_ <$> respLayers x)
    ((fun q => set_pq_sched (sched_at t (pq_sched q)) q) <$> slavePorts x)
    (pktCount x) (pktSize x) (transDist x) (x_forwarded x) (x_responded x).

Record ReqArrival := mkReqArrival { ra_pkt : Pkt; ra_slave : nat; ra_accept : bool }.
Record RespArrival := mkRespArrival { rr_pkt : Pkt; rr_master : nat }.
Definition take_req (a : ReqArrival) : X unit := x_recvTimingReq (ra_pkt a) (ra_slave a) (ra_accept a);; mret tt.
Definition take_resp (a : RespArrival) : X unit := x_recvTimingResp (rr_pkt a) (rr_master a);; mret tt.

Inductive x_input :=
  | XRange (id : nat) (ranges : list AddrRange)
  | XReq (a : ReqArrival)
  | XResp (a : RespArrival)
  | XRetry (master : nat) (react : list ReqArrival)
  | XReleaseReq (i : nat) (t : Z) (react : list ReqArrival)
  | XReleaseResp (i : nat) (t : Z) (react : list RespArrival)
  | XQueue (slave : nat) (i : pq_input)
  | XAtomic (pkt : Pkt) (slave : nat) (send : nat -> Pkt -> res (Z * Pkt))
  | XFunctional (pkt : Pkt) (send : nat -> Pkt -> res Pkt)
  | XTime (t : Z).

Definition x_step (i : x_input) : X unit :=
  match i with
  | XRange id ranges => recvRangeChange id ranges
  | XReq a => take_req a
  | XResp a => take_resp a
  | XRetry master react => x_recvReqRetry master (forM_ react take_req)
  | XReleaseReq i t react => x_releaseLayer true i t (forM_ react take_req)
  | XReleaseResp i t react => x_releaseLayer false i t (forM_ react take_resp)
  | XQueue slave i => on_slavePort slave (pq_step i)
  | XAtomic pkt slave send => x_recvAtomic id (fun x _ => x) (fun i p => lift (send i p)) pkt slave;; mret tt
  | XFunctional pkt send => x_recvFunctional id (fun x _ => x) (fun i p => lift (send i p)) pkt;; mret tt
  | XTime t => modify (x_time t)
  end.
