(* ===== verification/XBarProps.v ===== *)
(** * Crossbars decode addresses and route responses back

    The range map of a crossbar holds what its master ports announced; a packet
    goes to the port whose range holds it, a response to the slave port its
    request came from, and the layers see attempts of the kind XBarLayerProps is
    about. *)

From S2P Require Import Prelude IntMath Bitfield Clocked AddrRange AddrRangeMap AddrRangeMapProps EventSched Drain Packet Request PacketData PacketQueue XBarLayer XBar.

(** ** Decoding a packet *)

(** The bytes [a .. a+n-1] lie in the range, as [isSubset] sees it. *)
Definition covered (a n : Z) (r : AddrRange) : bool :=
  match isSubset (RangeSize a n) r with Ok b => b | Err _ => false end.

Lemma isSubset_run a n r : (interleaved r = true -> is_ok (granularity r) = true) ->
  isSubset (RangeSize a n) r = Ok (covered a n r).
Proof.
  intros Hg. unfold covered, isSubset. change (interleaved (RangeSize a n)) with false. cbv iota.
  destruct (interleaved r); [|done]. destruct (_ && _); [|done]. specialize (Hg eq_refl).
  by destruct (granularity r).
Qed.

Lemma covered_contains a n r : ar_wf r -> 0 <= a -> 0 < n -> a + n < 2 ^ 64 ->
  covered a n r = true -> contains r a = true.
Proof.
  intros [Hm He Hma] Ha Hn Hw. unfold covered, isSubset. change (interleaved (RangeSize a n)) with false. cbv iota.
  cbn [RangeSize AddrRange_simple ar_start ar_end]. destruct (interleaved r) eqn:Hi.
  - destruct (contains r a); [done|]. done.
  - unfold interleaved in Hi. apply negb_false_iff, bool_decide_eq_true_1 in Hi.
    rewrite Hi in Hm. simpl in Hm. unfold contains. rewrite Hi. change (sel_from 0 [] a) with 0.
    rewrite (u64_small (a + n)) by lia. intros [? ?]%andb_true_iff. repeat (apply andb_true_iff; split); lia.
Qed.

(** Where a lookup by address may go wrong: the first address of a stripe with
    a match value above 1 (see AddrRangeMapProps). *)
Definition decodable (m : AddrRangeMap nat) (a : Z) : Prop :=
  (forall n, n ∈ tree m -> interleaved (n_range n) = true -> is_ok (granularity (n_range n)) = true)
  /\ forall n, n ∈ tree m -> contains (n_range n) a = true -> ar_start (n_range n) < a \/ ar_match (n_range n) <= 1.

Lemma find_packet (m : AddrRangeMap nat) a n : map_wf 3 m -> 0 <= a -> 0 < n -> a + n < 2 ^ 64 -> decodable m a ->
  exists o m', contains_range 3 (RangeSize a n) m = Ok (o, m') /\ map_wf 3 m' /\ tree m' = tree m
    /\ match o with
       | Some x => x ∈ tree m /\ covered a n (n_range x) = true
       | None => forall x, x ∈ tree m -> covered a n (n_range x) = false
       end.
Proof.
  intros Hm Ha Hn Hw [Hg Hst]. pose proof (mw_ranges _ _ Hm) as Hr. rewrite Forall_forall in Hr.
  destruct (find_spec 3 (isSubset (RangeSize a n)) (covered a n) (RangeSize a n) m Hm) as (o & m' & H1 & H2 & H3 & _ & H4).
  - intros x Hx. apply isSubset_run. by apply Hg.
  - intros x Hx Hc b t Ht Hb Hh.
    assert (contains (n_range x) a = true) as Hca by (apply (covered_contains a n); try done; by apply Hr).
    destruct (contains_position 3 a m x Hm ltac:(lia) Hx Hca (Hst x Hx Hca) b t Ht Hb Hh) as (y & Hy & Hpos).
    assert (y = x) as ->; [|by exists x].
    eapply (wf_unique 3 m a); [done| |done|done|done]. rewrite Ht.
    destruct Hpos as [(t' & ->)|(l1 & l2 & -> & _)]; [set_solver|]. rewrite elem_of_app, elem_of_rev. left. set_solver.
  - exists o, m'. split_and!; done.
Qed.

(** ** The ranges of the ports *)

(** [own id]: the ranges the module behind master port [id] announced. *)
Record announced (m : AddrRangeMap nat) (own : nat -> list AddrRange) : Prop := {
  an_wf : map_wf 3 m;
  an_own id r : r ∈ own id <-> exists n, n ∈ tree m /\ n_range n = r /\ n_val n = id
}.

Lemma erase_port_run id (m : AddrRangeMap nat) : map_wf 3 m ->
  map_wf 3 (erase_port id m) /\ tree (erase_port id m) = filter (fun n => n_val n <> id) (tree m).
Proof.
  assert (forall (l : list (Node nat)) (m' : AddrRangeMap nat), map_wf 3 m' ->
    let r := fold_left (fun m n => if decide (n_val n = id) then erase (n_id n) m else m) l m' in
    map_wf 3 r /\ tree r = filter (fun n => Forall (fun y => n_val y = id -> n_id n <> n_id y) l) (tree m')) as Hfold.
  { induction l as [|y l IH]; intros m' Hm; simpl.
    - split; [done|]. symmetry. apply list_filter_all, Forall_forall. intros. constructor.
    - destruct (decide (n_val y = id)) as [E|E].
      + destruct (IH _ (erase_wf 3 (n_id y) m' Hm)) as [H1 ->]. split; [done|]. simpl. rewrite list_filter_filter.
        apply list_filter_iff. intros n. rewrite Forall_cons. tauto.
      + destruct (IH m' Hm) as [H1 ->]. split; [done|]. apply list_filter_iff. intros n. rewrite Forall_cons. tauto. }
  intros Hm. unfold erase_port. destruct (Hfold (tree m) m Hm) as [H1 H2]. split; [done|]. rewrite H2.
  assert (forall t : list (Node nat), NoDup (map n_id t) -> forall x y, x ∈ t -> y ∈ t -> n_id x = n_id y -> x = y) as Hinj.
  { clear. induction t as [|z t IH]; intros Hn x y Hx Hy E; [set_solver|]. apply NoDup_cons in Hn as [Hz Hn].
    apply elem_of_cons in Hx as [->|Hx], Hy as [->|Hy]; [done| | |by apply IH].
    - exfalso. apply Hz. apply list_elem_of_fmap. by exists y.
    - exfalso. apply Hz. apply list_elem_of_fmap. by exists x. }
  pose proof (mw_ids _ _ Hm) as Hid. apply list_filter_iff'. intros n Hn. rewrite Forall_forall. split.
  - intros Hall E. by apply (Hall n Hn).
  - intros Hne y Hy Ev Eid. apply Hne. by rewrite (Hinj _ Hid n y Hn Hy Eid).
Qed.

Lemma insert_ranges_run rs id m m' own :
  announced m own -> Forall range_ok rs ->
  (forall r s, r ∈ rs -> (s ∈ rs \/ exists i, s ∈ own i) -> comparable r s) ->
  insert_ranges rs id m = Ok m' ->
  announced m' (fun i => if decide (i = id) then own i ++ rs else own i).
Proof.
  revert m own. induction rs as [|r rs IH]; intros m own [Hwf Hown] Hok Hcmp Hrun.
  { simpl in Hrun. simplify_eq. split; [done|]. intros i s. case_decide; rewrite ?app_nil_r; apply Hown. }
  apply Forall_cons in Hok as [Hr Hok]. simpl in Hrun.
  destruct (insert_spec 3 m r id Hwf Hr) as (o & m1 & E1 & Hwf1 & Ho).
  { intros n Hn. apply Hcmp; [set_solver|]. right. exists (n_val n). apply Hown. by exists n. }
  rewrite E1 in Hrun. cbn [mbind res_bind] in Hrun. destruct o as [i0|]; [|done].
  destruct Ho as (Er & Ev & Hp & _).
  apply (IH m1 (fun i => if decide (i = id) then own i ++ [r] else own i)) in Hrun as [Hwf' Hown'].
  - split; [done|]. intros i s. rewrite <- Hown'. case_decide; [|done]. set_solver.
  - split; [done|]. intros i s. setoid_rewrite Hp. case_decide as E; [subst i|].
    + rewrite elem_of_app, list_elem_of_singleton, Hown. split.
      * intros [(n & ? & ?)| ->]; [exists n; set_solver|exists i0; set_solver].
      * intros (n & [->|Hn]%elem_of_cons & ? & ?); [right; congruence|left; by exists n].
    + rewrite Hown. split.
      * intros (n & ? & ?). exists n. set_solver.
      * intros (n & [->|Hn]%elem_of_cons & ? & ?); [congruence|by exists n].
  - done.
  - intros x y Hx Hy. apply Hcmp; [set_solver|]. destruct Hy as [Hy|(i & Hy)]; [set_solver|].
    case_decide; [|by eauto]. apply elem_of_app in Hy as [Hy|Hy]; [by eauto|set_solver].
Qed.

Lemma erase_port_announced id m own : announced m own ->
  announced (erase_port id m) (fun i => if decide (i = id) then [] else own i).
Proof.
  intros [Hwf Hown]. destruct (erase_port_run id m Hwf) as [H1 H2]. split; [done|]. intros i r.
  setoid_rewrite H2. setoid_rewrite list_elem_of_filter. case_decide as E.
  - split; [set_solver|]. intros (n & [Hv _] & _ & Hi). congruence.
  - rewrite Hown. split; intros (n & Hn); exists n; naive_solver.
Qed.

(** Two ports never share an address. *)
Lemma announced_unique m own i j r s a : announced m own -> r ∈ own i -> s ∈ own j ->
  contains r a = true -> contains s a = true -> i = j.
Proof.
  intros [Hwf Hown] (n & Hn & <- & <-)%Hown (n' & Hn' & <- & <-)%Hown Ha Ha'.
  by rewrite (wf_unique 3 m a n n').
Qed.

(** ** Crossbars that are being configured and used *)

Definition is_default (x : XBar) (id : nat) : bool := bool_decide (Some id = defaultPortID (x_params x)).
Definition announce (x : XBar) (id : nat) (rs : list AddrRange) (own : nat -> list AddrRange) : nat -> list AddrRange :=
  fun i => if is_default x id then own i else if decide (i = id) then rs else own i.

(** The ranges are ones the constructors accept, and [intersects] can compare
    them with each other and with those of the other ports. *)
Definition ranges_fit (own : nat -> list AddrRange) (id : nat) (rs : list AddrRange) : Prop :=
  Forall range_ok rs
  /\ forall r s, r ∈ rs -> (s ∈ rs \/ exists i, i <> id /\ s ∈ own i) -> comparable r s.

Definition packet_fits (x : XBar) (a n : Z) : Prop :=
  0 <= a /\ 0 < n /\ a + n < 2 ^ 64 /\ decodable (portMap (x_decoder x)) a
  /\ (interleaved (defaultRange (x_decoder x)) = true -> is_ok (granularity (defaultRange (x_decoder x))) = true).

Inductive xbar_conf : XBar -> (nat -> list AddrRange) -> Prop :=
  | xc_new p now masters slaves : xbar_conf (new_XBar p now masters slaves) (fun _ => [])
  | xc_ranges x own id rs x' : xbar_conf x own -> (is_default x id = false -> ranges_fit own id rs) ->
      recvRangeChange id rs x = Ok (tt, x') -> xbar_conf x' (announce x id rs own)
  | xc_find x own a n id x' : xbar_conf x own -> packet_fits x a n ->
      findPort (RangeSize a n) x = Ok (id, x') -> xbar_conf x' own.

Lemma recvRangeChange_map id rs x x' : recvRangeChange id rs x = Ok (tt, x') ->
  if is_default x id then portMap (x_decoder x') = portMap (x_decoder x)
  else insert_ranges rs id (erase_port id (portMap (x_decoder x))) = Ok (portMap (x_decoder x')).
Proof.
  unfold recvRangeChange, is_default. intros H. rewrite (bind_run get _ x x x) in H by done.
  destruct (gotAddrRanges _ !! id); [|done]. apply bind_ok in H as ([m dflt] & x1 & H1 & H2).
  apply bind_ok in H2 as (shown & x2 & _ & H2). minv H2. simpl.
  case_bool_decide.
  - destruct (useDefaultRange _); [destruct rs as [|? [|]]; try done|]; by minv H1.
  - minv H1. congruence.
Qed.

(** What [findPort] does for a packet. *)
Definition refind (m : AddrRangeMap nat) (x : XBar) : XBar :=
  let d := x_decoder x in
  set_x_decoder (mkDecoder m (xbarRanges d) (defaultRange d) (gotAddrRanges d) (gotAllAddrRanges d)) x.

Definition default_port (x : XBar) (a n : Z) : res nat :=
  match defaultPortID (x_params x) with
  | Some d => if useDefaultRange (x_params x) && negb (covered a n (defaultRange (x_decoder x)))
              then Err (EFatal "Unable to find destination") else Ok d
  | None => if useDefaultRange (x_params x) && covered a n (defaultRange (x_decoder x))
            then Err (EUndefined "InvalidPortID") else Err (EFatal "Unable to find destination")
  end.

Lemma findPort_run x own a n : announced (portMap (x_decoder x)) own -> gotAllAddrRanges (x_decoder x) = true ->
  packet_fits x a n ->
  exists m, announced m own /\ tree m = tree (portMap (x_decoder x))
    /\ ((exists id r, r ∈ own id /\ covered a n r = true /\ findPort (RangeSize a n) x = Ok (id, refind m x))
        \/ (forall id r, r ∈ own id -> covered a n r = false)
           /\ findPort (RangeSize a n) x = (d ← default_port x a n; Ok (d, refind m x))).
Proof.
  intros [Hwf Hown] Hall (Ha & Hn & Hw & Hdec & Hdef).
  destruct (find_packet _ a n Hwf Ha Hn Hw Hdec) as (o & m & Hrun & Hwf' & Ht & Ho).
  exists m. split; [split; [done|]; intros id r; rewrite Ht; apply Hown|]. split; [done|].
  unfold findPort. rewrite (bind_run get _ x x x) by done. rewrite bind_assert by done.
  rewrite (bind_run (lift _) _ x (o, m) x) by (by rewrite Hrun). cbv beta iota. rewrite bind_modify. fold (refind m x).
  destruct o as [y|].
  - destruct Ho as [Hy Hc]. left. exists (n_val y), (n_range y). split; [apply Hown; by exists y|]. done.
  - right. split; [intros id r (y & Hy & <- & _)%Hown; by apply Ho|]. unfold default_port.
    destruct (useDefaultRange (x_params x)); [|by destruct (defaultPortID _)].
    erewrite (bind_run (lift _)) by (rewrite isSubset_run by done; reflexivity).
    destruct (covered a n _), (defaultPortID _); done.
Qed.

Lemma xbar_conf_announced x own : xbar_conf x own -> announced (portMap (x_decoder x)) own.
Proof.
  induction 1 as [p now ms ss|x own id rs x' _ IH Hfit Hrun|x own a n id x' Hx IH Hfit Hrun].
  - split; [apply empty_map_wf|]. intros id r. simpl. split; [set_solver|]. intros (n & Hn & _). set_solver.
  - pose proof (recvRangeChange_map _ _ _ _ Hrun) as Hm. unfold announce.
    destruct (is_default x id); [by rewrite Hm|]. destruct (Hfit eq_refl) as [Hok Hcmp].
    unshelve epose proof (insert_ranges_run rs id _ _ _ (erase_port_announced id _ own IH) Hok _ Hm) as [Hwf Hown].
    + intros r s Hr [Hs|(i & Hs)]; apply Hcmp; [done|by left|done|]. right. exists i.
      case_decide; [set_solver|done].
    + split; [done|]. intros i r. rewrite <- Hown. by case_decide.
  - destruct (decide (gotAllAddrRanges (x_decoder x) = true)) as [Hall|Hall].
    + destruct (findPort_run x own a n IH Hall Hfit) as (m & Hm & _ & [(id' & r & _ & _ & H1)|[_ H1]]).
      * rewrite H1 in Hrun. by simplify_eq.
      * rewrite H1 in Hrun. destruct (default_port x a n); [|done]. cbn [mbind res_bind] in Hrun. by simplify_eq.
    + unfold findPort in Hrun. rewrite (bind_run get _ x x x) in Hrun by done.
      apply bind_ok in Hrun as (? & ? & H1 & _). by apply assert_ok in H1 as [? _].
Qed.


(** Two memories behind master ports 0 and 1, everything else to port 2. *)
Definition demo_xparams : XBarParams := mkXParams 1 1 1 8 1000 1000000 (Some 2%nat) false.
Definition demo_xrange (id : nat) : list AddrRange :=
  match id with 0%nat => [AddrRange_simple 0 4096] | 1%nat => [AddrRange_simple 8192 12288] | _ => [] end.
Definition demo_xstep (r : res XBar) (id : nat) : res XBar :=
  x ← r; '(_, x) ← recvRangeChange id (demo_xrange id) x; Ok x.
Definition demo_xbar (ids : list nat) : XBar :=
  match fold_left demo_xstep ids (Ok (new_XBar demo_xparams 0 2 2)) with
  | Ok x => x | Err _ => new_XBar demo_xparams 0 0 0
  end.

Lemma demo_xbar_conf : exists own, xbar_conf (demo_xbar [0%nat; 1%nat; 2%nat]) own /\ forall i, own i = demo_xrange i.
Proof.
  assert (forall own id, (forall i, own i = [] \/ own i = demo_xrange i) -> (id < 2)%nat ->
    ranges_fit own id (demo_xrange id)) as Hfit.
  { intros own id Hown Hid. split.
    - destruct id as [|[|]]; [| |lia]; repeat constructor; simpl; lia.
    - intros r s Hr Hs. right; left.
      assert (forall i t, t ∈ demo_xrange i -> interleaved t = false) as Hi.
      { intros [|[|i]] t Ht; [by apply list_elem_of_singleton in Ht as ->..|by apply elem_of_nil in Ht]. }
      split; [by apply (Hi id)|]. destruct Hs as [Hs|(i & _ & Hs)]; [by apply (Hi id)|].
      destruct (Hown i) as [E|E]; rewrite E in Hs; [set_solver|by apply (Hi i)]. }
  set (own0 := fun _ : nat => [] : list AddrRange).
  set (own1 := announce (demo_xbar []) 0 (demo_xrange 0) own0).
  set (own2 := announce (demo_xbar [0%nat]) 1 (demo_xrange 1) own1).
  exists (announce (demo_xbar [0%nat; 1%nat]) 2 (demo_xrange 2) own2). split; [|by intros [|[|i]]; vm_compute].
  apply (xc_ranges (demo_xbar [0%nat; 1%nat])); [|intros H; vm_compute in H; discriminate|by vm_compute].
  apply (xc_ranges (demo_xbar [0%nat])); [|intros _; apply Hfit; [|lia]|by vm_compute].
  - apply (xc_ranges (demo_xbar [])); [apply xc_new|intros _; apply Hfit; [by left|lia]|by vm_compute].
  - intros [|i]; [right; by vm_compute|left; by vm_compute].
Qed.

