(* ===== verification/XBarRoute.v ===== *)
(** * Crossbars send every response back where its request came from

    What the parts of a crossbar leave alone, the ledger of requests and
    responses kept over any run, and that a response meets no failed assertion
    and goes through the layer and the queue of the right slave port. *)

From S2P Require Import Prelude IntMath Clocked AddrRange AddrRangeMap EventSched Drain Packet Request PacketData PacketDataProps PacketQueue PacketQueueProps XBarLayer XBarLayerProps XBar.

(** ** What operations leave alone *)

(** Operations that do not change what [view] shows. *)
Definition keeps {S T R} (view : S -> T) (m : M S R) : Prop := forall x r x', m x = Ok (r, x') -> view x' = view x.

Section Keeps.
Context {S T : Type} (view : S -> T).

Lemma keeps_bind {A B} (m : M S A) (f : A -> M S B) : keeps view m -> (forall a, keeps view (f a)) -> keeps view (m ≫= f).
Proof. intros Hm Hf x r x' (a & x1 & H1 & H2)%bind_ok. by rewrite (Hf _ _ _ _ H2), (Hm _ _ _ H1). Qed.
Lemma keeps_ret {A} (a : A) : keeps view (mret a).
Proof. intros x r x' H. by minv H. Qed.
Lemma keeps_get : keeps view (get : M S S).
Proof. intros x r x' H. unfold get in H. by simplify_eq. Qed.
Lemma keeps_gets {A} (f : S -> A) : keeps view (gets f).
Proof. intros x r x' H. by minv H. Qed.
Lemma keeps_lift {A} (r : res A) : keeps view (lift r).
Proof. intros x y x' H. by minv H. Qed.
Lemma keeps_throw {A} e : keeps view (throw e : M S A).
Proof. intros x y x' H. by minv H. Qed.
Lemma keeps_assert b w : keeps view (assert_ b w).
Proof. intros x y x' H. by minv H. Qed.
Lemma keeps_panic b w : keeps view (panic_if b w).
Proof. intros x y x' H. by minv H. Qed.
Lemma keeps_modify f : (forall x, view (f x) = view x) -> keeps view (modify f).
Proof. intros Hf x y x' H. by minv H. Qed.
Lemma keeps_forM {A} (f : A -> M S unit) l : (forall a, keeps view (f a)) -> keeps view (forM_ l f).
Proof. intros Hf. induction l as [|a l IH]; simpl; [apply keeps_ret|]. by apply keeps_bind. Qed.
End Keeps.

Section Parts.
Context {T : Type} (view : XBar -> T).
Lemma keeps_part {A R} get_l set_l i (m : M A R) :
  (forall l x, view (set_l l x) = view x) -> keeps view (on_part get_l set_l i m).
Proof. intros Hs x r x' H. unfold on_part in H. repeat case_match; simplify_eq. apply Hs. Qed.
Lemma keeps_at_bar {R} (m : X R) : keeps view m -> keeps view (at_bar id (fun x _ => x) m).
Proof. intros Hm x r x' H. unfold at_bar, zoom, id in H. repeat case_match; simplify_eq. by eapply Hm. Qed.
End Parts.

Create HintDb keeps.
#[export] Hint Resolve keeps_bind keeps_ret keeps_get keeps_gets keeps_lift keeps_throw keeps_assert keeps_panic
  keeps_modify keeps_forM keeps_part keeps_at_bar : keeps.

(** Walks through an operation. *)
Ltac keeps :=
  repeat first
    [ progress intros | match goal with H : _ |- _ => solve [apply H] end | apply keeps_bind | apply keeps_part | apply keeps_modify | apply keeps_at_bar | done
    | solve [auto with keeps] | case_match ].

(** Two views: the ledger of requests and responses, and the parts that handle
    responses. *)
Definition ledger (x : XBar) : gmap Z nat * list (Z * nat * nat) * list (Z * nat) :=
  (routeTo x, x_forwarded x, x_responded x).
Definition answering (x : XBar) : Z * list Layer * list PacketQueue := (x_now x, respLayers x, slavePorts x).

(** What neither view shows. *)
Section Plain.
Context {T : Type} (view : XBar -> T).
Context (Hd : forall d x, view (set_x_decoder d x) = view x) (Hc : forall c x, view (set_x_clock c x) = view x).
Context (Hn : forall c s t x, view (set_counts c s t x) = view x).

Lemma keeps_findPort r : keeps view (findPort r).
Proof using Hd. unfold findPort. keeps. Qed.
Lemma keeps_clockEdge c : keeps view (x_clockEdge c).
Proof using Hc. unfold x_clockEdge. keeps. Qed.
Lemma keeps_timing pkt d : keeps view (calcPacketTiming pkt d).
Proof using Hc. unfold calcPacketTiming. pose proof keeps_clockEdge. keeps. Qed.
Lemma keeps_count s m n c : keeps view (count s m n c).
Proof using Hn. apply keeps_modify. intros x. apply Hn. Qed.
Lemma keeps_range id rs : keeps view (recvRangeChange id rs).
Proof using Hd. unfold recvRangeChange. keeps. Qed.
End Plain.
#[export] Hint Extern 2 (keeps _ (findPort _)) => apply keeps_findPort; done : keeps.
#[export] Hint Extern 2 (keeps _ (x_clockEdge _)) => apply keeps_clockEdge; done : keeps.
#[export] Hint Extern 2 (keeps _ (calcPacketTiming _ _)) => apply keeps_timing; done : keeps.
#[export] Hint Extern 2 (keeps _ (count _ _ _ _)) => apply keeps_count; done : keeps.
#[export] Hint Extern 2 (keeps _ (recvRangeChange _ _)) => apply keeps_range; done : keeps.
#[export] Hint Extern 2 (keeps _ (on_reqLayer _ _)) => apply keeps_part; done : keeps.
#[export] Hint Extern 2 (keeps ledger (on_respLayer _ _)) => apply keeps_part; done : keeps.
#[export] Hint Extern 2 (keeps ledger (on_slavePort _ _)) => apply keeps_part; done : keeps.

Lemma keeps_satisfied qs pkt : keeps ledger (satisfied_by qs pkt).
Proof. revert pkt. induction qs as [|q qs IH]; intros pkt; simpl; keeps. Qed.
#[export] Hint Resolve keeps_satisfied : keeps.

(** ** The ledger *)

Section Ledger.

(** The number of slave ports. *)
Variable n : nat.

(** The requests taken by a destination are those answered and those in the
    routing table, with the slave ports they came from. *)
Definition ledger_ok (x : XBar) : Prop :=
  (x_forwarded x).*1 ≡ₚ x_responded x ++ map_to_list (routeTo x) /\ Forall (fun e => e.1.2 < n)%nat (x_forwarded x).

(** Operations that keep it. *)
Definition balanced {R} (m : X R) : Prop := forall x r x', m x = Ok (r, x') -> ledger_ok x -> ledger_ok x'.

Lemma ledger_ok_eq x x' : ledger x' = ledger x -> ledger_ok x -> ledger_ok x'.
Proof. unfold ledger, ledger_ok. by intros [= -> -> ->]. Qed.
Lemma keeps_balanced {R} (m : X R) : keeps ledger m -> balanced m.
Proof. intros Hm x r x' H. eapply ledger_ok_eq, Hm, H. Qed.
Lemma balanced_bind {A B} (m : X A) (f : A -> X B) : balanced m -> (forall a, balanced (f a)) -> balanced (m ≫= f).
Proof. intros Hm Hf x r x' (a & x1 & H1 & H2)%bind_ok Hx. eapply Hf; [done|]. by eapply Hm. Qed.

Lemma balanced_forward pid s m : (s < n)%nat ->
  balanced (rt ← gets routeTo;
            assert_ (bool_decide (rt !! pid = None)) "routeTo.find(pkt->req) == routeTo.end()";;
            modify (set_routeTo (<[pid := s]> rt));;
            modify (log_forwarded (pid, s, m))).
Proof.
  intros Hs x r x' H [Hx Hb]. minv H. apply bool_decide_eq_true in Hg. unfold ledger_ok in *. simpl. split.
  - rewrite fmap_app, Hx, (map_to_list_insert _ _ _ Hg). simpl. by rewrite <- !Permutation_middle, app_nil_r.
  - apply Forall_app. split; [done|by constructor].
Qed.

(** [recvTimingReq] and [recvTimingResp], the two operations that write it. *)
Ltac balance := repeat (first [apply balanced_bind; [solve [apply keeps_balanced; auto with keeps]|intros ?] | case_match]).

Lemma balanced_req pkt s accept : (s < n)%nat -> balanced (x_recvTimingReq pkt s accept).
Proof.
  intros Hs. unfold x_recvTimingReq. balance; try (apply keeps_balanced; auto with keeps; fail).
  apply balanced_bind; [|intros _; apply keeps_balanced; keeps].
  unfold when_. case_match; [by apply balanced_forward|by apply keeps_balanced, keeps_ret].
Qed.

Lemma balanced_resp pkt m : balanced (x_recvTimingResp pkt m).
Proof.
  intros x r x' H Hx. unfold x_recvTimingResp in H. rewrite bind_gets in H.
  destruct (routeTo x !! p_id pkt) as [s|] eqn:Es; [|done]. rewrite bind_gets in H.
  apply bind_ok in H as ([] & x1 & K1 & H). apply bind_ok in H as (g & x2 & K2 & H).
  assert (ledger x2 = ledger x) as E2.
  { transitivity (ledger x1); [eapply keeps_part; [|exact K2]|eapply keeps_assert, K1]. done. }
  destruct g; cbn [negb] in H; [|apply ret_ok in H as [= -> ->]; by eapply ledger_ok_eq].
  apply bind_ok in H as (sz & x3 & K3 & H). rewrite !bind_gets in H.
  apply bind_ok in H as (fwd & x4 & K4 & H). apply bind_ok in H as (e & x5 & K5 & H).
  apply bind_ok in H as ([] & x6 & K6 & H). rewrite !bind_modify in H.
  assert (ledger x6 = ledger x) as E6.
  { transitivity (ledger x5); [eapply keeps_part; [|exact K6]; done|].
    transitivity (ledger x4); [eapply keeps_clockEdge; [|exact K5]; done|].
    transitivity (ledger x3); [eapply keeps_timing; [|exact K4]; done|].
    transitivity (ledger x2); [eapply keeps_lift, K3|done]. }
  eapply keeps_balanced in H; [apply H|keeps].
  unfold ledger in E6. injection E6 as E6 E7 E8. destruct Hx as [Hx Hb]. unfold ledger_ok in *. simpl. rewrite E7, E8, Hx.
  split; [|done]. rewrite <- (map_to_list_delete _ _ _ Es). by rewrite <- !Permutation_middle, app_nil_r.
Qed.

Lemma balanced_take_req a : (ra_slave a < n)%nat -> balanced (take_req a).
Proof. intros Ha. apply balanced_bind; [by apply balanced_req|intros _; apply keeps_balanced, keeps_ret]. Qed.
Lemma balanced_take_resp a : balanced (take_resp a).
Proof. apply balanced_bind; [apply balanced_resp|intros _; apply keeps_balanced, keeps_ret]. Qed.

Lemma balanced_forM {A} (f : A -> X unit) l : Forall (fun a => balanced (f a)) l -> balanced (forM_ l f).
Proof.
  intros Hf. induction l as [|a l IH]; simpl; [apply keeps_balanced, keeps_ret|]. apply Forall_cons in Hf as [Ha Hf].
  apply balanced_bind; [done|]. intros _. by apply IH.
Qed.

Lemma keeps_on_layer {R} req i (m : M Layer R) : keeps ledger (on_layer req i m).
Proof. destruct req; by apply keeps_part. Qed.
Hint Resolve keeps_on_layer : keeps.

Lemma balanced_serve req i first react : balanced react -> balanced (x_serve req i first react).
Proof.
  intros Hr. unfold x_serve, x_retryWaiting. apply balanced_bind; [by apply keeps_balanced; auto with keeps|].
  intros []; cbn [when_]; [|apply keeps_balanced, keeps_ret].
  apply balanced_bind; [by apply keeps_balanced; auto with keeps|]. intros _. apply balanced_bind; [done|]. intros _.
  apply keeps_balanced. unfold when_. keeps.
Qed.

(** Requests come from the slave ports of the crossbar. *)
Definition from_ports (i : x_input) : Prop :=
  match i with
  | XReq a => (ra_slave a < n)%nat
  | XRetry _ react | XReleaseReq _ _ react => Forall (fun a => ra_slave a < n)%nat react
  | _ => True
  end.

Lemma balanced_step i : from_ports i -> balanced (x_step i).
Proof.
  intros Hi. assert (forall l, Forall (fun a => ra_slave a < n)%nat l -> balanced (forM_ l take_req)) as Hl.
  { intros l Hl. apply balanced_forM. eapply Forall_impl; [exact Hl|]. intros a. apply balanced_take_req. }
  destruct i as [id rs|a|a|m react|i t react|i t react|s i|pkt s send|pkt send|t]; simpl in *.
  - apply keeps_balanced. auto with keeps.
  - by apply balanced_take_req.
  - apply balanced_take_resp.
  - by apply balanced_serve, Hl.
  - apply balanced_bind; [by apply keeps_balanced; auto with keeps|]. intros _. by apply balanced_serve, Hl.
  - apply balanced_bind; [by apply keeps_balanced; auto with keeps|]. intros _. apply balanced_serve, balanced_forM.
    apply Forall_true. intros a. apply balanced_take_resp.
  - apply keeps_balanced. auto with keeps.
  - apply keeps_balanced. unfold x_recvAtomic. keeps.
  - apply keeps_balanced. unfold x_recvFunctional. keeps.
  - by apply keeps_balanced, keeps_modify.
Qed.
End Ledger.
#[export] Hint Resolve keeps_on_layer : keeps.

(** ** Time *)

Definition edge_at (x : XBar) (k : Z) : Z := (clockEdge (x_now x) (clockPeriod (x_params x)) k (x_clock x)).1.
Definition ticked (x : XBar) : Clocked := update (x_now x) (clockPeriod (x_params x)) (x_clock x).

Lemma x_clockEdge_run k x : x_clockEdge k x = Ok (edge_at x k, set_x_clock (ticked x) x).
Proof. done. Qed.

Definition header_of (x : XBar) (pkt : Pkt) (d : Z) : Z :=
  u32 (p_headerDelay pkt + u64 (u64 (edge_at x 0 - x_now x) + d)).
Definition payload_of (x : XBar) (pkt : Pkt) : Z :=
  if hasData (p_cmd pkt) then
    u32 (Z.max (p_payloadDelay pkt)
      (u64 (u32 (p_size pkt + width (x_params x) - 1) / width (x_params x) * clockPeriod (x_params x))))
  else p_payloadDelay pkt.
Definition timed (x : XBar) (d : Z) (pkt : Pkt) : Pkt :=
  let pkt' := set_p_headerDelay (header_of x pkt d) pkt in
  if hasData (p_cmd pkt) then set_p_payloadDelay (payload_of x pkt) pkt' else pkt'.

(** The clock is not about to wrap. *)
Record time_ok (x : XBar) : Prop := {
  to_room : clock_room (x_now x) (clockPeriod (x_params x)) (x_clock x);
  to_far : Z.max (ck_tick (x_clock x)) (x_now x + clockPeriod (x_params x)) + clockPeriod (x_params x) + 2 ^ 32 < MaxTick;
  to_us : 0 <= tick_us (x_params x) < 2 ^ 32
}.

Record packet_ok (x : XBar) (d : Z) (pkt : Pkt) : Prop := {
  po_addr : p_isSet VALID_ADDR pkt = true;
  po_size : p_isSet VALID_SIZE pkt = true;
  po_snoop : isExpressSnoop pkt = false;
  po_payload : 0 <= p_payloadDelay pkt < 2 ^ 32;
  po_header : header_of x pkt d <= tick_us (x_params x)
}.

Lemma edge_later x k : time_ok x -> 0 <= k <= 1 ->
  x_now x + clockPeriod (x_params x) * k <= edge_at x k /\ edge_at x k + 2 ^ 32 < MaxTick.
Proof.
  intros [Hr Hf _] Hk. unfold edge_at, clockEdge. simpl. pose proof (update_spec _ _ _ Hr) as (H1 & _ & _ & H4).
  destruct Hr. unfold MaxTick in *. set (c' := update _ _ _) in *. set (p := clockPeriod _) in *.
  assert (ck_tick c' <= Z.max (ck_tick (x_clock x)) (x_now x + p)) by (destruct H4 as [|E]; [lia|rewrite E; lia]).
  assert (0 <= p * k <= p) by nia. rewrite (u64_small (p * k)) by lia. rewrite u64_small by lia. lia.
Qed.

Lemma calcPacketTiming_run x d pkt : packet_ok x d pkt ->
  calcPacketTiming pkt d x = Ok (timed x d pkt, set_x_clock (ticked x) x).
Proof.
  intros [_ Hs _ _ Hh]. unfold calcPacketTiming. rewrite (bind_run _ _ _ _ _ (x_clockEdge_run 0 x)).
  rewrite (bind_run get _ _ _ _ eq_refl). cbn [set_x_clock x_params x_now].
  change (u32 (p_headerDelay pkt + u64 (u64 (edge_at x 0 - x_now x) + d))) with (header_of x pkt d).
  rewrite bind_panic_if by (apply Z.ltb_ge; exact Hh). cbn [set_p_headerDelay p_cmd].
  unfold timed, payload_of. destruct (hasData (p_cmd pkt)); [|done].
  erewrite (bind_run (lift _)); [|unfold lift; rewrite getSize_run by exact Hs; reflexivity]. done.
Qed.

Lemma ticked_again x : time_ok x -> ticked (set_x_clock (ticked x) x) = ticked x /\ edge_at (set_x_clock (ticked x) x) 1 = edge_at x 1.
Proof.
  intros Ht. destruct Ht as [Hr _ _]. pose proof (update_spec _ _ _ Hr) as (H1 & _).
  unfold edge_at, clockEdge, ticked. cbn [set_x_clock x_now x_params x_clock]. set (c' := update _ _ (x_clock x)) in *.
  assert (update (x_now x) (clockPeriod (x_params x)) c' = c') as -> by (unfold update; by rewrite (proj2 (Z.leb_le _ _))).
  done.
Qed.

(** ** Time of the parts *)

Lemma keeps_s_schedule e t : keeps s_now (s_schedule (e : unit) t).
Proof. intros s r s' H. unfold s_schedule in H. repeat case_match; by simplify_eq. Qed.
Lemma keeps_s_reschedule e t a : keeps s_now (s_reschedule (e : unit) t a).
Proof. intros s r s' H. unfold s_reschedule in H. repeat case_match; by simplify_eq. Qed.
Lemma keeps_pq_on_sched m : keeps s_now m -> keeps pq_curTick (pq_on_sched m).
Proof. intros Hm q r q' H. unfold pq_on_sched in H. repeat case_match; simplify_eq. by eapply Hm. Qed.

Lemma keeps_schedSendEvent t : keeps pq_curTick (schedSendEvent t).
Proof.
  pose proof keeps_s_schedule. pose proof keeps_s_reschedule. pose proof keeps_pq_on_sched.
  unfold schedSendEvent, pq_signalDrainDone, when_. keeps.
Qed.
Lemma keeps_schedSendTiming pkt t : keeps pq_curTick (schedSendTiming pkt t).
Proof. pose proof keeps_schedSendEvent. unfold schedSendTiming, when_. keeps. Qed.
Lemma keeps_sendDeferred accept reent : keeps pq_curTick (sendDeferredPacket accept reent).
Proof.
  pose proof keeps_schedSendEvent. pose proof keeps_schedSendTiming.
  unfold sendDeferredPacket, sendTiming, when_. keeps.
Qed.

(** ** A response *)

Definition resp_delay (x : XBar) : Z := u64 (responseLatency (x_params x) * clockPeriod (x_params x)).
Definition busy_until (x : XBar) (d : Z) (pkt : Pkt) : Z := u64 (edge_at x 1 + p_payloadDelay (timed x d pkt)).

Lemma busy_later x d pkt : time_ok x -> packet_ok x d pkt -> x_now x <= busy_until x d pkt /\ busy_until x d pkt <> 0.
Proof.
  intros Ht [_ _ _ Hp _]. pose proof (edge_later x 1 Ht ltac:(lia)) as [H1 H2].
  destruct Ht as [[Hper Hnow _ _ _ _] _ _]. unfold busy_until, timed, payload_of, MaxTick in *.
  assert (0 <= p_payloadDelay (if hasData (p_cmd pkt) then set_p_payloadDelay (payload_of x pkt) (set_p_headerDelay (header_of x pkt d) pkt)
                               else set_p_headerDelay (header_of x pkt d) pkt) < 2 ^ 32) as Hb.
  { unfold payload_of. destruct (hasData (p_cmd pkt)); simpl; [|done]. apply (wrap_bound 32). lia. }
  unfold payload_of in Hb. rewrite u64_small by lia. lia.
Qed.

Lemma on_part_run {A R} get_l set_l i (m : M A R) x a r a' :
  get_l x !! i = Some a -> m a = Ok (r, a') -> on_part get_l set_l i m x = Ok (r, set_l (<[i := a']> (get_l x)) x).
Proof. intros H1 H2. unfold on_part. by rewrite H1, H2. Qed.

Lemma schedSendEvent_accepted when q q' : schedSendEvent when q = Ok (tt, q') -> pq_accepted q' = pq_accepted q.
Proof.
  intros H. unfold schedSendEvent in H. rewrite !bind_gets in H. destruct (waitingOnRetry q); [by minv H|].
  destruct (negb _); rewrite !bind_gets in H.
  - unfold pq_on_sched, when_ in H. repeat case_match; simplify_eq/=; try done. by minv H.
  - unfold when_, pq_signalDrainDone, modify in H. case_match; [|by minv H]. simplify_eq/=. by case_decide.
Qed.

Lemma schedSendTiming_accepted pkt when q q' :
  schedSendTiming pkt when q = Ok (tt, q') -> pq_accepted q' = pq_accepted q ++ [mkDP when pkt].
Proof.
  intros H. unfold schedSendTiming in H. rewrite bind_gets in H.
  do 2 (apply bind_ok in H as ([] & ? & [_ [= ->]]%assert_ok & H)). rewrite !bind_gets in H.
  apply bind_ok in H as ([] & ? & [_ [= ->]]%panic_if_ok & H). rewrite !bind_gets in H.
  apply bind_ok in H as ([front rl] & ? & (? & _ & [= <- ->])%lift_ok & H). rewrite !bind_modify in H.
  destruct front; cbn [when_] in H; [apply schedSendEvent_accepted in H as ->; done|by minv H].
Qed.

(** The crossbar is asked to take a response for a request it forwarded from
    slave port [s]; [l] and [q] are the layer and the queue of that port. *)
Record resp_ok (x : XBar) (pkt : Pkt) (m s : nat) (l : Layer) (q : PacketQueue) : Prop := {
  ro_time : time_ok x;
  ro_pkt : packet_ok x (resp_delay x) pkt;
  ro_route : routeTo x !! p_id pkt = Some s;
  ro_layer : respLayers x !! s = Some l;
  ro_inv : layer_inv l;
  ro_now : ly_now l = x_now x;
  ro_src : m ∉ pending l;
  ro_queue : slavePorts x !! s = Some q;
  ro_qinv : pq_inv q;
  ro_qnow : pq_curTick q = x_now x;
  ro_room : (length (transmitList q) <= 100)%nat
}.

(** An attempt that nothing interrupts, in its two halves. *)
Lemma attempt_halves p accept t l l' : attempt (mkAttempt p [] accept t) l = Ok (tt, l') ->
  (tryTiming p l = Ok (false, l') /\ p ∈ waitingForLayer l')
  \/ exists l1, tryTiming p l = Ok (true, l1)
       /\ (if accept then succeededTiming t else failedTiming p t) l1 = Ok (tt, l').
Proof.
  unfold attempt. cbn [at_src at_between at_accept at_busy]. intros (b & l1 & H1 & H2)%bind_ok. destruct b; cbn [when_] in H2.
  - right. exists l1. done.
  - left. minv H2. split; [done|]. unfold tryTiming in H1. rewrite (bind_run get _ l l l) in H1 by done.
    destruct (_ || _); [|minv H1; done]. minv H1. simpl. set_solver.
Qed.

Lemma timed_frame x d pkt : p_id (timed x d pkt) = p_id pkt /\ p_flags (timed x d pkt) = p_flags pkt
  /\ p_headerDelay (timed x d pkt) = header_of x pkt d.
Proof. unfold timed. by destruct (hasData _). Qed.

Lemma resp_may_send x pkt m s l q : resp_ok x pkt m s l q ->
  let fwd := timed x (resp_delay x) pkt in
  let when := u64 (x_now x + p_headerDelay fwd) in
  x_now x <= when /\ may_send (set_p_headerDelay 0 fwd) when (length (transmitList q)) q.
Proof.
  intros [[Hr Hf Hu] [Ha Hs He Hp Hh] _ _ _ _ _ _ Hq Hqn Hroom] fwd when.
  destruct (timed_frame x (resp_delay x) pkt) as (E1 & E2 & E3).
  assert (0 <= header_of x pkt (resp_delay x)) by (apply (wrap_bound 32); lia).
  assert (when = x_now x + header_of x pkt (resp_delay x)) as Ew.
  { unfold when, fwd. rewrite E3. apply u64_small. destruct Hr. unfold MaxTick in *. lia. }
  destruct Hr. split; [lia|]. split; [split|].
  - unfold dp_valid. simpl. unfold p_isSet in *. simpl. unfold fwd. by rewrite E2.
  - simpl. rewrite Ew. unfold MaxTick in *. lia.
  - split; [rewrite Hqn; lia|]. split; [|by right].
    unfold isExpressSnoop, p_isSet in *. simpl. unfold fwd. by rewrite E2.
Qed.

Lemma resp_run x pkt m s l q : resp_ok x pkt m s l q ->
  exists l' g pkt' x',
    attempt (mkAttempt m [] true (busy_until x (resp_delay x) pkt)) l = Ok (tt, l') /\ layer_inv l'
    /\ x_recvTimingResp pkt m x = Ok ((g, pkt'), x') /\ respLayers x' = <[s := l']> (respLayers x)
    /\ if g : bool then
         x_responded x' = x_responded x ++ [(p_id pkt, s)] /\ routeTo x' = delete (p_id pkt) (routeTo x)
         /\ exists q' when, slavePorts x' = <[s := q']> (slavePorts x) /\ pq_inv q' /\ pq_curTick q' = pq_curTick q /\ x_now x <= when
              /\ pq_accepted q' = pq_accepted q ++ [mkDP when pkt'] /\ p_id pkt' = p_id pkt
       else m ∈ waitingForLayer l' /\ ledger x' = ledger x /\ slavePorts x' = slavePorts x.
Proof.
  intros Hok. pose proof Hok as [Ht Hp Hroute Hl Hi Hn Hsrc Hq Hqi Hqn _].
  destruct (busy_later x _ pkt Ht Hp) as [Hb1 Hb2]. set (t := busy_until x (resp_delay x) pkt) in *.
  destruct (attempt_inv l (mkAttempt m [] true t) Hi) as (l' & Hrun & Hi' & _).
  { split; [apply NoDup_singleton|]. split; [intros p ->%list_elem_of_singleton; done|]. simpl. lia. }
  exists l'. unfold x_recvTimingResp. rewrite bind_gets, Hroute, bind_gets.
  rewrite bind_assert by (apply bool_decide_eq_true_2; by apply lookup_lt_Some in Hl).
  destruct (attempt_halves _ _ _ _ _ Hrun) as [[H1 Hw]|(l1 & H1 & H2)].
  - rewrite (bind_run _ _ _ _ _ (on_part_run respLayers set_respLayers s _ x l _ _ Hl H1)). cbn [negb].
    eexists false, pkt, _. split_and!; done.
  - rewrite (bind_run _ _ _ _ _ (on_part_run respLayers set_respLayers s _ x l _ _ Hl H1)). cbn [negb].
    set (x1 := set_respLayers _ x). assert (exists z, data_size pkt = Ok z) as [z Hz].
    { unfold data_size. destruct (hasData _); [|by eexists]. rewrite getSize_run by apply Hp. by eexists. }
    rewrite (bind_run (lift _) _ x1 z x1) by (unfold lift; by rewrite Hz). rewrite !bind_gets.
    assert (packet_ok x1 (resp_delay x) pkt) as Hp1 by (destruct Hp; by split).
    assert (time_ok x1) as Ht1 by (destruct Ht; by split).
    change (u64 (responseLatency _ * clockPeriod (x_params x1))) with (resp_delay x).
    rewrite (bind_run _ _ _ _ _ (calcPacketTiming_run x1 (resp_delay x) pkt Hp1)).
    rewrite (bind_run _ _ _ _ _ (x_clockEdge_run 1 _)). destruct (ticked_again x1 Ht1) as [-> ->].
    change (timed x1) with (timed x). set (fwd := timed x (resp_delay x) pkt). cbv zeta.
    change (u64 (edge_at x1 1 + p_payloadDelay fwd)) with t. change (x_now x1) with (x_now x).
    destruct (resp_may_send x pkt m s l q Hok) as [Hwhen Hsend]. fold fwd in Hwhen, Hsend.
    assert (pq_curTick q < MaxTick) as Hqm by (destruct Ht as [[? ? _ _ _ _] ? _]; lia).
    destruct (pq_send_inv _ _ q Hqi Hqm Hsend) as (q' & Hq' & Hqi').
    erewrite (bind_run (on_slavePort s _)); [|apply (on_part_run slavePorts set_slavePorts s _ _ q tt q'); [exact Hq|exact Hq']].
    rewrite !bind_modify.
    erewrite (bind_run (on_respLayer s _)); cycle 1.
    { apply (on_part_run respLayers set_respLayers s _ _ l1 tt l'); [|exact H2]. cbn. apply list_lookup_insert_eq.
      by apply lookup_lt_Some in Hl. }
    eexists true, _, _. split; [done|]. split; [done|]. split; [reflexivity|]. split; [cbn; apply list_insert_insert_eq|].
    split; [done|]. split; [done|]. exists q', (u64 (x_now x + p_headerDelay fwd)). split_and!; try done.
    + by eapply keeps_schedSendTiming.
    + by apply schedSendTiming_accepted.
    + apply (timed_frame x (resp_delay x) pkt).
Qed.

Lemma keeps_resp_now pkt m : keeps x_now (x_recvTimingResp pkt m).
Proof. unfold x_recvTimingResp. keeps. Qed.

(** ** The parts that handle responses *)

(** Every response layer and response queue is in order, at the time of the
    crossbar. *)
Record answers_ok (n : nat) (x : XBar) : Prop := {
  an_layers : Forall (fun l => layer_inv l /\ ly_now l = x_now x) (respLayers x);
  an_queues : Forall (fun q => pq_inv q /\ pq_curTick q = x_now x) (slavePorts x);
  an_nl : length (respLayers x) = n;
  an_nq : length (slavePorts x) = n
}.

Lemma answers_ok_eq n x x' : answering x' = answering x -> answers_ok n x -> answers_ok n x'.
Proof. unfold answering. intros [= E1 E2 E3] []. split; by rewrite ?E1, ?E2, ?E3. Qed.

Lemma set_layer_ok n x i l : answers_ok n x -> layer_inv l -> ly_now l = x_now x ->
  answers_ok n (set_respLayers (<[i := l]> (respLayers x)) x).
Proof. intros [] H1 H2. split; simpl; rewrite ?length_insert; try done. by apply Forall_insert. Qed.

(** A response that may be sent: its request is in the routing table, its port
    is not waiting, the packet is well formed and due within a microsecond, the
    queue of the slave port has room, and the clock is not about to wrap. *)
Record resp_fits (x : XBar) (pkt : Pkt) (m s : nat) : Prop := {
  rf_time : time_ok x;
  rf_pkt : packet_ok x (resp_delay x) pkt;
  rf_route : routeTo x !! p_id pkt = Some s;
  rf_src l : respLayers x !! s = Some l -> m ∉ pending l;
  rf_room q : slavePorts x !! s = Some q -> (length (transmitList q) <= 100)%nat
}.

Lemma resp_fits_ok n x pkt m s : answers_ok n x -> ledger_ok n x -> resp_fits x pkt m s ->
  exists l q, resp_ok x pkt m s l q.
Proof.
  intros Ha [Hled Hb] [Ht Hp Hr Hs Hq].
  assert (s < n)%nat as Hlt.
  { assert ((p_id pkt, s) ∈ (x_forwarded x).*1) as ([[p' s'] m0] & E & Hin)%list_elem_of_fmap.
    { rewrite Hled, elem_of_app. right. by apply elem_of_map_to_list. }
    simpl in E. simplify_eq. apply (proj1 (Forall_forall _ _) Hb _ Hin). }
  destruct (lookup_lt_is_Some_2 (respLayers x) s) as [l Hl]; [by rewrite (an_nl _ _ Ha)|].
  destruct (lookup_lt_is_Some_2 (slavePorts x) s) as [q Hqs]; [by rewrite (an_nq _ _ Ha)|].
  destruct (proj1 (Forall_lookup _ _) (an_layers _ _ Ha) s l Hl). destruct (proj1 (Forall_lookup _ _) (an_queues _ _ Ha) s q Hqs).
  exists l, q. split; auto.
Qed.

Lemma resp_keeps_answers n x a s x' : answers_ok n x -> ledger_ok n x -> resp_fits x (rr_pkt a) (rr_master a) s ->
  take_resp a x = Ok (tt, x') -> answers_ok n x'.
Proof.
  intros Ha Hl Hf H. destruct (resp_fits_ok n x _ _ s Ha Hl Hf) as (l & q & Hok).
  destruct (resp_run _ _ _ _ _ _ Hok) as (l' & g & pkt' & x1 & Hat & Hi & Hrun & El & Hrest).
  unfold take_resp in H. rewrite (bind_run _ _ _ _ _ Hrun) in H. minv H.
  pose proof (keeps_resp_now _ _ _ _ _ Hrun) as En.
  assert (ly_now l' = x_now x) as Enl.
  { destruct (attempt_inv l (mkAttempt (rr_master a) [] true (busy_until x (resp_delay x) (rr_pkt a)))) as (l2 & H2 & _ & E2 & _);
      [apply Hok| |].
    - split; [apply NoDup_singleton|]. split; [intros p ->%list_elem_of_singleton; apply Hok|]. rewrite (ro_now _ _ _ _ _ _ Hok).
      apply busy_later; apply Hok.
    - rewrite Hat in H2. simplify_eq. by rewrite E2, (ro_now _ _ _ _ _ _ Hok). }
  destruct Ha as [HL HQ NL NQ]. split; rewrite ?En, ?El, ?length_insert; try done.
  - by apply Forall_insert.
  - destruct g; [|by destruct Hrest as (_ & _ & ->)]. destruct Hrest as (_ & _ & q' & w & -> & Hqi & Eq & _).
    apply Forall_insert; [done|]. split; [done|]. rewrite Eq. apply Hok.
  - destruct g; [|by destruct Hrest as (_ & _ & ->)]. destruct Hrest as (_ & _ & q' & w & -> & _). by rewrite length_insert.
Qed.

(** A response layer is released: the layer at rest, or the one whose port is
    told to retry. *)
Lemma on_layer_ok {R} i (m : M Layer R) x r x' : on_layer false i m x = Ok (r, x') ->
  exists l l', respLayers x !! i = Some l /\ m l = Ok (r, l') /\ x' = set_respLayers (<[i := l']> (respLayers x)) x.
Proof. unfold on_layer, on_respLayer, on_part. intros H. repeat case_match; simplify_eq. eauto. Qed.
Lemma layer_again x i l l' : respLayers x !! i = Some l' -> respLayers (set_respLayers (<[i := l]> (respLayers x)) x) !! i = Some l.
Proof. intros H. simpl. apply list_lookup_insert_eq. by eapply lookup_lt_Some. Qed.
Lemma layer_over x i l l' : set_respLayers (<[i := l']> (respLayers (set_respLayers (<[i := l]> (respLayers x)) x)))
    (set_respLayers (<[i := l]> (respLayers x)) x) = set_respLayers (<[i := l']> (respLayers x)) x.
Proof. unfold set_respLayers. simpl. by rewrite list_insert_insert_eq. Qed.

Lemma keeps_release : keeps ly_now release_first.
Proof. unfold release_first, ly_signalDrainDone, when_. keeps. Qed.

Lemma release_cases l t b l' : layer_inv l -> s_due tt t (ly_sched l) ->
  release_first (set_ly_sched (s_service tt t (ly_sched l)) l) = Ok (b, l') ->
  if b then exists p rest, retry_first l' = Ok (tt, retrying (freed t l)) /\ layer_inv (retrying (freed t l))
                           /\ waitingForLayer l = p :: rest /\ waitingForPeer l = None
  else layer_inv l' /\ ly_now l' = t.
Proof.
  intros Hi Hd H. destruct b.
  - unfold release_first in H. rewrite (bind_run get _ _ _ _ eq_refl) in H.
    apply bind_ok in H as ([] & ? & [_ [= ->]]%assert_ok & H). apply bind_ok in H as ([] & ? & [Hr [= ->]]%assert_ok & H).
    rewrite bind_modify in H. change (set_ly_state IDLE _) with (freed t l) in H. apply negb_true_iff in Hr.
    case_bool_decide as Hw; [|by minv H]. apply ret_ok in H as [= Hp ->]. symmetry in Hp. apply bool_decide_eq_true in Hp.
    simpl in Hw, Hp. destruct (waitingForLayer l) as [|p rest] eqn:Ew; [done|]. exists p, rest.
    destruct (retrying_inv (freed t l) p rest) as [H1 H2]; try done; try apply Hi; [by apply s_service_wf|].
    pose proof (li_now l Hi) as Hn. pose proof (li_wf l Hi _ _ (proj1 Hd)) as Ht. unfold ly_now in *. simpl in *. lia.
  - destruct (layer_release_inv l t [] t Hi) as (l1 & H1 & H2 & _); [split; [done|split; [lia|done]]|].
    simpl in H1. rewrite bind_modify in H1. unfold releaseLayer in H1. rewrite (bind_run _ _ _ _ _ H) in H1. cbn [when_] in H1. apply ret_ok in H1. simplify_eq. split; [done|].
    by rewrite (keeps_release _ _ _ H).
Qed.
(** The responses of the ports that are told to retry. *)
Fixpoint resps_fit (x : XBar) (react : list RespArrival) : Prop :=
  match react with
  | [] => True
  | a :: rest => (exists s, resp_fits x (rr_pkt a) (rr_master a) s)
      /\ forall x', take_resp a x = Ok (tt, x') -> resps_fit x' rest
  end.

Lemma resps_keep_answers n react x x' : answers_ok n x -> ledger_ok n x -> resps_fit x react ->
  forM_ react take_resp x = Ok (tt, x') -> answers_ok n x'.
Proof.
  revert x. induction react as [|a react IH]; intros x Ha Hl Hf H; simpl in H; [by minv H|].
  destruct Hf as [[s Hf] Hr]. apply bind_ok in H as ([] & x1 & H1 & H2).
  eapply IH; [by eapply resp_keeps_answers|by eapply balanced_take_resp|by apply Hr|exact H2].
Qed.

Lemma keeps_take_resp_now l : keeps x_now (forM_ l take_resp).
Proof. apply keeps_forM. intros a. apply keeps_bind; [apply keeps_resp_now|intros _; apply keeps_ret]. Qed.

Lemma retry_last_inv edge l l' : layer_inv l -> ly_state l = RETRY -> retry_last edge l = Ok (tt, l') ->
  layer_inv l' /\ ly_now l' = ly_now l.
Proof.
  intros Hi Hs H. unfold retry_last in H. rewrite bind_gets, Hs in H. cbn [bool_decide decide_rel] in H.
  assert (released l = false) as Hr.
  { destruct (released l) eqn:E; [|done]. apply (li_busy l Hi) in E. congruence. }
  cbn [when_] in H. simpl in H. rewrite bind_modify in H. pose proof H as H0. unfold occupyLayer in H0. rewrite bind_gets in H0.
  apply bind_ok in H0 as ([] & ? & [_ [= ->]]%assert_ok & H0). apply bind_ok in H0 as ([] & ? & [He [= ->]]%assert_ok & H0).
  apply bind_ok in H0 as ([] & l1 & H0 & _). apply negb_true_iff, Z.eqb_neq in He.
  assert (ly_now l <= edge) as Hle.
  { unfold ly_on_sched, s_schedule in H0. simpl in H0. unfold ly_now. destruct (Z.leb_spec (s_now (ly_sched l)) edge); [done|]. done. }
  rewrite occupyLayer_run in H by done. simplify_eq. split; [|done]. apply occupied_inv; [apply (li_nodup l Hi)|apply (li_log l Hi)|apply (li_wf l Hi)|apply (li_now l Hi)|exact Hle|done].
Qed.

Lemma release_keeps_answers n x i t react x' l : answers_ok n x -> ledger_ok n x ->
  respLayers x !! i = Some l -> s_due tt t (ly_sched l) -> t = x_now x ->
  resps_fit (set_respLayers (<[i := retrying (freed t l)]> (respLayers x)) x) react ->
  x_step (XReleaseResp i t react) x = Ok (tt, x') -> answers_ok n x'.
Proof.
  intros Ha Hled Hl Hd Ht Hf H. destruct (proj1 (Forall_lookup _ _) (an_layers _ _ Ha) i l Hl) as [Hi Hn].
  simpl in H. unfold x_releaseLayer in H. apply bind_ok in H as ([] & x1 & H1 & H).
  apply on_layer_ok in H1 as (l0 & l1 & H0 & H1 & ->). simplify_eq. minv H1.
  unfold x_serve in H. apply bind_ok in H as (b & x2 & H2 & H). apply on_layer_ok in H2 as (l3 & l4 & H3 & H2 & ->).
  rewrite (layer_again x i _ l Hl) in H3. injection H3 as <-. rewrite layer_over in H.
  pose proof (release_cases l _ b l4 Hi Hd H2) as Hc. destruct b; cbn [when_] in H.
  2:{ apply ret_ok in H as [= ->]. destruct Hc. by apply set_layer_ok. }
  destruct Hc as (p & rest & Hr & Hir & _ & _). unfold x_retryWaiting in H. apply bind_ok in H as ([] & x3 & H3 & H).
  apply on_layer_ok in H3 as (l5 & l6 & H5 & H3 & ->). rewrite (layer_again x i _ l Hl) in H5. injection H5 as <-.
  rewrite Hr in H3. simplify_eq. rewrite layer_over in H. apply bind_ok in H as ([] & x4 & H4 & H).
  set (x3 := set_respLayers _ x) in *.
  assert (answers_ok n x3) as Ha3.
  { apply set_layer_ok; [done|done|]. unfold retrying, freed. simpl. by case_match. }
  assert (answers_ok n x4) as Ha4 by (by eapply resps_keep_answers).
  apply bind_ok in H as (st & x5 & H5 & H). apply on_layer_ok in H5 as (l7 & l8 & H7 & H5 & ->). minv H5.
  destruct (proj1 (Forall_lookup _ _) (an_layers _ _ Ha4) i l7 H7) as [Hi7 Hn7].
  assert (set_respLayers (<[i := l7]> (respLayers x4)) x4 = x4) as E by (rewrite list_insert_id by done; by destruct x4).
  rewrite E in H. case_bool_decide as Hst; cbn [when_] in H; [|by apply ret_ok in H as [= ->]].
  apply bind_ok in H as (e & x6 & H6 & H). apply on_layer_ok in H as (l9 & l10 & H9 & H & ->).
  assert (answering x6 = answering x4) as E6 by (eapply keeps_clockEdge; [|exact H6]; done).
  assert (l9 = l7) as -> by (unfold answering in E6; injection E6 as _ E6 _; rewrite E6 in H9; congruence).
  destruct (retry_last_inv e l7 l10 Hi7 Hst H) as [Hi' Hn'].
  apply set_layer_ok; [by eapply answers_ok_eq|done|]. rewrite Hn', Hn7. unfold answering in E6. by injection E6.
Qed.

(** A functional read leaves the packets it meets as they are. *)
#[local] Ltac rsimpl := unfold mret, res_ret in *; simplify_eq/=.
Lemma route_satisfy_read other p f p' o : isRead (p_cmd p) = true -> trySatisfyFunctional other p = Ok (f, p', o) ->
  o = other /\ p_cmd p' = p_cmd p.
Proof.
  intros Hr H. unfold trySatisfyFunctional in H. destruct (isMaskedWrite other).
  { repeat (apply res_bind_ok in H as (? & ? & H)). by rsimpl. }
  apply res_bind_ok in H as (a & _ & H). apply res_bind_ok in H as (sec & _ & H). apply res_bind_ok in H as (sz & _ & H).
  apply res_bind_ok in H as (d & Hd & H). apply res_bind_ok in H as ([[found q] d'] & Hat & H). rsimpl.
  assert (d' = d /\ p_cmd p' = p_cmd p) as [-> ->].
  { unfold trySatisfyFunctional_at in Hat. apply res_bind_ok in Hat as (? & _ & Hat). apply res_bind_ok in Hat as (? & _ & Hat).
    destruct (_ || _); [by rsimpl|]. destruct (isPrint _); [by apply res_bind_ok in Hat as (? & _ & Hat); rsimpl|].
    destruct d as [bs|]; [|by rsimpl]. rewrite Hr in Hat. apply res_bind_ok in Hat as (? & _ & Hat).
    apply res_bind_ok in Hat as (? & _ & Hat). by rsimpl. }
  split; [|done]. destruct (hasData (p_cmd other)); [|done]. apply res_bind_ok in Hd as (bs & Hg & Hd). rsimpl.
  unfold getPtr, the_bytes in Hg. apply res_bind_ok in Hg as (? & _ & Hg). apply res_bind_ok in Hg as (? & _ & Hg).
  destruct other; simpl in *. by case_match; simplify_eq.
Qed.
Lemma route_satisfy_in_read l p f p' l' : isRead (p_cmd p) = true -> satisfy_in l p = Ok (f, p', l') ->
  l' = l /\ p_cmd p' = p_cmd p.
Proof.
  revert p f p' l'. induction l as [|d l IH]; intros p f p' l' Hr H; simpl in H; [by rsimpl|].
  apply res_bind_ok in H as ([[found q] o] & H1 & H). destruct (route_satisfy_read _ _ _ _ _ Hr H1) as [-> Eq].
  assert (mkDP (dp_tick d) (dp_pkt d) = d) as Ed by (by destruct d). rewrite Ed in H. destruct found; [by rsimpl|].
  apply res_bind_ok in H as ([[f2 q2] l2] & H2 & H). apply IH in H2 as [-> Eq2]; [|by rewrite Eq]. rsimpl.
  split; [done|congruence].
Qed.

(** A functional access that finds nothing to change in the response queues. *)
Definition harmless (pkt : Pkt) (x : XBar) : Prop :=
  isRead (p_cmd pkt) = true \/ Forall (fun q => transmitList q = []) (slavePorts x).
Lemma satisfied_keeps qs pkt x r x' : harmless pkt x -> satisfied_by qs pkt x = Ok (r, x') -> answering x' = answering x.
Proof.
  revert pkt x. induction qs as [|i qs IH]; intros pkt x Hh H; simpl in H; [by minv H|].
  apply bind_ok in H as ([found p] & x1 & H1 & H). unfold on_slavePort, on_part in H1.
  destruct (slavePorts x !! i) as [q|] eqn:Hq; [|done]. unfold pq_trySatisfyFunctional in H1.
  destruct (satisfy_in _ pkt) as [[[f p1] l']|] eqn:Hs; [|done]. simplify_eq/=.
  assert (l' = transmitList q /\ harmless p x) as [-> Hh'].
  { destruct Hh as [Hr|He].
    - destruct (route_satisfy_in_read _ _ _ _ _ Hr Hs) as [-> Ep]. split; [done|]. left. by rewrite Ep.
    - pose proof (proj1 (Forall_lookup _ _) He i q Hq) as Eq. simpl in Eq. rewrite Eq in *. simpl in Hs. rsimpl.
      split; [done|by right]. }
  assert (set_slavePorts (<[i := set_transmitList (transmitList q) q]> (slavePorts x)) x = x) as Ex.
  { assert (set_transmitList (transmitList q) q = q) as -> by (by destruct q). rewrite list_insert_id by done. by destruct x. }
  rewrite Ex in H. destruct found; [by minv H|by eapply IH].
Qed.

Lemma functional_keeps send pkt x x' : harmless pkt x -> x_step (XFunctional pkt send) x = Ok (tt, x') -> answering x' = answering x.
Proof.
  intros Hh H. simpl in H. apply bind_ok in H as (p & x1 & H & H1). minv H1. unfold x_recvFunctional in H.
  apply bind_ok in H as (m & x2 & H2 & H). unfold at_bar, zoom in H2. simplify_eq/=.
  apply bind_ok in H as ([found q] & x3 & H3 & H). unfold at_bar, zoom, id in H3. destruct (satisfied_by _ pkt x2) as [[r y]|] eqn:Es; [|done].
  simplify_eq/=. apply (satisfied_keeps _ _ _ _ _ Hh) in Es. rewrite <- Es.
  destruct found; [by minv H|]. apply bind_ok in H as (rg & ? & (? & _ & [= <- ->])%lift_ok & H).
  apply bind_ok in H as (d & x4 & H4 & H). unfold at_bar, zoom, id in H4. destruct (findPort _ _) as [[d' y']|] eqn:Ef; [|done].
  simplify_eq/=. minv H. eapply keeps_findPort; [|exact Ef]. done.
Qed.

Lemma time_keeps_answers n x t : answers_ok n x -> x_now x <= t ->
  Forall (fun l => map_Forall (fun _ t' => t <= t') (s_pending (ly_sched l))) (respLayers x) ->
  Forall (fun q => forall t', send_pending q = Some t' -> t <= t') (slavePorts x) -> answers_ok n (x_time t x).
Proof.
  intros [HL HQ NL NQ] Ht Hl Hq. split; simpl; rewrite ?length_fmap; try done.
  - apply Forall_fmap, Forall_lookup. intros i l Hi. destruct (proj1 (Forall_lookup _ _) HL i l Hi) as [H1 H2].
    pose proof (proj1 (Forall_lookup _ _) Hl i l Hi) as H3. split; [|done]. simpl in H3. pose proof (li_now l H1) as Hn.
    split; try done; try apply H1; unfold ly_now in *; simpl; [lia|].
    intros E1 E2. pose proof (li_idle l H1 E1 E2) as Hz. unfold ly_now in Hz. lia.
  - apply Forall_fmap, Forall_lookup. intros i q Hi. destruct (proj1 (Forall_lookup _ _) HQ i q Hi) as [H1 H2].
    pose proof (proj1 (Forall_lookup _ _) Hq i q Hi) as H3. simpl. split; [|done].
    destruct (pq_step_inv (PTime t) q H1) as (q' & Hs & Hi'); [split; [by rewrite H2|exact H3]|].
    simpl in Hs. rewrite H2, (proj2 (Z.leb_le _ _)) in Hs by done. case_bool_decide; [|done]. by simplify_eq/=.
Qed.

Lemma queue_keeps_answers n x s q i q' : answers_ok n x -> slavePorts x !! s = Some q -> pq_allowed i q ->
  pq_step i q = Ok (tt, q') -> pq_curTick q' = x_now x -> answers_ok n (set_slavePorts (<[s := q']> (slavePorts x)) x).
Proof.
  intros [HL HQ NL NQ] Hq Ha Hs Hn. split; simpl; rewrite ?length_insert; try done. apply Forall_insert; [done|].
  destruct (proj1 (Forall_lookup _ _) HQ s q Hq) as [H1 _]. destruct (pq_step_inv i q H1 Ha) as (q2 & Hs2 & Hi). split; [congruence|done].
Qed.

(** ** Runs *)

(** What the neighbours of a crossbar with [n] slave ports do: requests come from
    its slave ports; responses are such that they fit; the events of the response
    side fire at their time, and time does not pass one of them; the peer of a
    slave port asks for a retry after it has refused, and sends nothing from
    inside a call; a functional write comes while no response is queued. *)
Definition x_allowed (n : nat) (x : XBar) (i : x_input) : Prop :=
  from_ports n i /\
  match i with
  | XResp a => exists s, resp_fits x (rr_pkt a) (rr_master a) s
  | XReleaseResp i t react => exists l, respLayers x !! i = Some l /\ s_due tt t (ly_sched l) /\ t = x_now x
      /\ resps_fit (set_respLayers (<[i := retrying (freed t l)]> (respLayers x)) x) react
  | XQueue s i => exists q, slavePorts x !! s = Some q /\ pq_allowed i q
      /\ match i with
         | PEvent _ reent => reent = [] /\ send_pending q = Some (x_now x)
         | PRetry _ reent => reent = []
         | PSend _ _ | PTime _ => False
         end
  | XFunctional pkt _ => harmless pkt x
  | XTime t => x_now x <= t
      /\ Forall (fun l => map_Forall (fun _ t' => t <= t') (s_pending (ly_sched l))) (respLayers x)
      /\ Forall (fun q => forall t', send_pending q = Some t' -> t <= t') (slavePorts x)
  | _ => True
  end.

Lemma keeps_take_req a : keeps answering (take_req a).
Proof. unfold take_req, x_recvTimingReq, when_. keeps. Qed.
Lemma keeps_serve_req i first react : keeps answering react -> keeps answering (x_serve true i first react).
Proof. intros Hr. unfold x_serve, x_retryWaiting, when_. simpl. keeps. Qed.

Lemma step_keeps_answers n x i x' : answers_ok n x -> ledger_ok n x -> x_allowed n x i -> x_step i x = Ok (tt, x') -> answers_ok n x'.
Proof.
  intros Ha Hl [_ Hi] H. assert (keeps answering (x_step i) -> answers_ok n x') as Hk.
  { intros Hk. eapply answers_ok_eq; [by eapply Hk|done]. }
  assert (forall l, keeps answering (forM_ l take_req)) as Hf by (intros l; apply keeps_forM, keeps_take_req).
  destruct i as [id rs|a|a|m react|i t react|i t react|s i|pkt s send|pkt send|t].
  - apply Hk. simpl. auto with keeps.
  - apply Hk. apply keeps_take_req.
  - destruct Hi as [s Hi]. by eapply resp_keeps_answers.
  - apply Hk. by apply keeps_serve_req.
  - apply Hk. apply keeps_bind; [apply keeps_part; done|intros _]. by apply keeps_serve_req.
  - destruct Hi as (l & H1 & H2 & H3 & H4). by eapply release_keeps_answers.
  - destruct Hi as (q & Hq & Hal & Hi). simpl in H. unfold on_slavePort, on_part in H. rewrite Hq in H.
    destruct (pq_step i q) as [[[] q']|] eqn:Es; [|done]. simplify_eq/=.
    eapply queue_keeps_answers; [done|done|exact Hal|exact Es|].
    destruct (proj1 (Forall_lookup _ _) (an_queues _ _ Ha) s q Hq) as [_ Hn].
    destruct i as [|accept reent|accept reent|]; [done| | |done]; simpl in Es.
    + destruct Hi as [-> Hp]. unfold send_pending in Hp. rewrite Hp in Es. unfold processSendEvent in Es.
      pose proof keeps_sendDeferred. eapply (keeps_bind pq_curTick) in Es; [exact Es|keeps|keeps].
    + unfold retry in Es. pose proof keeps_sendDeferred. rewrite <- Hn.
      eapply (keeps_bind pq_curTick) in Es; [exact Es|keeps|keeps].
  - apply Hk. simpl. unfold x_recvAtomic. keeps.
  - eapply answers_ok_eq; [by eapply functional_keeps|done].
  - destruct Hi as (H1 & H2 & H3). simpl in H. minv H. by apply time_keeps_answers.
Qed.

(** The crossbars reached from a new one. *)
Inductive x_reach (n : nat) : XBar -> Prop :=
  | xr_new p now masters : 0 <= now -> x_reach n (new_XBar p now masters n)
  | xr_step x i x' : x_reach n x -> x_allowed n x i -> x_step i x = Ok (tt, x') -> x_reach n x'.

Lemma x_reach_ok n x : x_reach n x -> ledger_ok n x /\ answers_ok n x.
Proof.
  induction 1 as [p now masters Hn|x i x' _ [Hl Ha] Hok Hrun].
  - split; [split; simpl; [by rewrite map_to_list_empty|constructor]|].
    split; simpl; rewrite ?length_replicate; try done; apply Forall_replicate; (split; [|done]).
    + by apply layer_reach_inv, lr_new.
    + by apply pq_new_inv.
  - split; [|by eapply step_keeps_answers]. eapply balanced_step; [apply Hok|exact Hrun|exact Hl].
Qed.

(** C20: responses go back where their requests came from.  Take a crossbar that
    was reached from a new one by any sequence of steps in which its neighbours
    keep to the port protocol: requests come from its slave ports, each response
    satisfies the conditions below, the release events of the response layers and
    the send events of the response queues fire at their time, a peer of a slave
    port asks for a retry only after a refusal and does not call back from inside
    a call, and a functional write comes while no response is queued.  Then the
    requests its destinations took and must answer are those answered and those
    in the routing table, each once and with the slave port it came from.  A
    response to one in the table fails no assertion if the packet has an address
    and a size and is no express snoop, its port is not waiting already, its
    header delay stays below a microsecond, at most 100 packets wait in the
    queue of the slave port (otherwise the queue panics), and the 64-bit clock
    is not about to wrap.  Either the port must then wait for the response layer,
    and nothing else changes, or the response is queued, once, at the slave port
    its request came from and the request leaves the routing table.  The layer of
    that slave port sees one attempt. *)
Theorem xbar_routes_back n x : x_reach n x ->
  (x_forwarded x).*1 ≡ₚ x_responded x ++ map_to_list (routeTo x)
  /\ forall pkt m s, resp_fits x pkt m s ->
    (exists m0, (p_id pkt, s, m0) ∈ x_forwarded x)
    /\ exists l q l' g pkt' x', respLayers x !! s = Some l /\ slavePorts x !! s = Some q
      /\ attempt (mkAttempt m [] true (busy_until x (resp_delay x) pkt)) l = Ok (tt, l')
      /\ x_recvTimingResp pkt m x = Ok ((g, pkt'), x') /\ respLayers x' = <[s := l']> (respLayers x)
      /\ if g : bool then
           x_responded x' = x_responded x ++ [(p_id pkt, s)] /\ routeTo x' = delete (p_id pkt) (routeTo x)
           /\ exists q' when, slavePorts x' = <[s := q']> (slavePorts x) /\ x_now x <= when
                /\ pq_accepted q' = pq_accepted q ++ [mkDP when pkt'] /\ p_id pkt' = p_id pkt
         else m ∈ waitingForLayer l' /\ ledger x' = ledger x /\ slavePorts x' = slavePorts x.
Proof.
  intros Hx. destruct (x_reach_ok n x Hx) as [Hled Ha]. split; [apply Hled|]. intros pkt m s Hf.
  destruct (resp_fits_ok n x pkt m s Ha Hled Hf) as (l & q & Hok). split.
  - assert ((p_id pkt, s) ∈ (x_forwarded x).*1) as ([[p' s'] m0] & E & Hin)%list_elem_of_fmap.
    { rewrite (proj1 Hled), elem_of_app. right. apply elem_of_map_to_list, Hf. }
    simpl in E. simplify_eq. by exists m0.
  - destruct (resp_run x pkt m s l q Hok) as (l' & g & pkt' & x' & H1 & _ & H2 & H3 & H4).
    exists l, q, l', g, pkt', x'. split; [apply Hok|]. split; [apply Hok|]. split_and!; try done. destruct g; [|done].
    destruct H4 as (E1 & E2 & q' & w & E3 & _ & _ & E4 & E5 & E6). split_and!; try done. by exists q', w.
Qed.

(** A request from slave port 1 to the memory behind master port 0, and the
    response to it. *)
Fixpoint x_run (l : list x_input) (x : XBar) : XBar :=
  match l with
  | [] => x
  | i :: l' => match x_step i x with Ok (_, x') => x_run l' x' | Err _ => x end
  end.
Lemma x_run_reach n l x : (forall x i, i ∈ l -> x_allowed n x i) -> x_reach n x -> x_reach n (x_run l x).
Proof.
  intros Hl. revert x. induction l as [|i l IH]; intros x Hx; simpl; [done|].
  destruct (x_step i x) as [[[] x']|] eqn:E; [|done]. apply IH; [set_solver|]. eapply xr_step; [done| |exact E]. set_solver.
Qed.

Definition route_demo : list x_input :=
  [XRange 0 [AddrRange_simple 0 8192]; XReq (mkReqArrival (demo_pkt ReadReq [0; 0; 0; 0]) 1 true)].
Definition route_xbar : XBar := x_run route_demo (new_XBar (mkXParams 1 1 1 8 1000 1000000 None false) 0 1 2).

Lemma xbar_routes_back_witness :
  exists pkt' x', x_recvTimingResp (demo_pkt ReadResp [1; 2; 3; 4]) 0 route_xbar = Ok ((true, pkt'), x')
    /\ x_responded x' = [(p_id pkt', 1%nat)] /\ routeTo x' = ∅.
Proof.
  destruct (xbar_routes_back 2 route_xbar) as [_ H].
  { apply x_run_reach; [|by apply xr_new]. intros x i [->|[->|[]%elem_of_nil]%elem_of_cons]%elem_of_cons; split; simpl; try done. lia. }
  destruct (H (demo_pkt ReadResp [1; 2; 3; 4]) 0%nat 1%nat) as [_ (l & q & l' & g & pkt' & x' & _ & _ & _ & H1 & _ & H2)].
  - split; try (by vm_compute).
    + intros l El. assert (l = new_Layer 0) as -> by (vm_compute in El; by simplify_eq). unfold pending. simpl. set_solver.
    + intros q Eq. assert (q = new_PacketQueue false false 0) as -> by (vm_compute in Eq; by simplify_eq). simpl. lia.
  - destruct g; [|exfalso; vm_compute in H1; discriminate].
    exists pkt', x'. split; [exact H1|]. destruct H2 as (E1 & E2 & q' & w & _ & _ & _ & E3).
    rewrite E1, E2, E3. split; by vm_compute.
Defined.
