(* ===== verification/SnoopFilter.v ===== *)
(** * The snoop filter (mem/snoop_filter.hh, mem/snoop_filter.cc)

    The filter of a coherent crossbar: for every cache line the ports with a
    request in flight and the ports that may hold the line, as bit masks over
    the snooping ports.  A slave port is its identifier and the answer of
    [isSnooping].  The iterator kept between [lookupRequest] and
    [finishRequest] is the key it points at, or dangling once the entry has been
    erased; masks ([std::bitset<256>]) are integers. *)

From S2P Require Import Prelude Packet Request PacketData.

Definition SNOOP_MASK_SIZE : Z := 256.
Definition InvalidPortID : Z := -1.
Definition LineSecure : Z := 1.

Record SlavePort := mkSlavePort { sp_id : nat; sp_isSnooping : bool }.

Record SnoopItem := mkItem { requested : Z; holder : Z }.
Definition null_item : SnoopItem := mkItem 0 0.
Definition interested (i : SnoopItem) : Z := Z.lor (holder i) (requested i).

Inductive LookupIt := ItEnd | ItAt (line : Z) | ItDangling.
#[global] Instance LookupIt_eq_dec : EqDecision LookupIt.
Proof. solve_decision. Defined.

Record SnoopFilter := mkSF {
  cachedLocations : gmap Z SnoopItem;
  req_it : LookupIt;                  (* reqLookupResult.it *)
  retryItem : SnoopItem;
  sf_slavePorts : list SlavePort;
  localSlavePortIds : list Z;
  linesize : Z;
  lookupLatency : Z;
  maxEntryCount : Z;
  totRequests : Z; hitSingleRequests : Z; hitMultiRequests : Z;
  totSnoops : Z; hitSingleSnoops : Z; hitMultiSnoops : Z
}.
Abbreviation F := (M SnoopFilter).

Definition set_cachedLocations (m : gmap Z SnoopItem) (f : SnoopFilter) : SnoopFilter :=
  mkSF m (req_it f) (retryItem f) (sf_slavePorts f) (localSlavePortIds f) (linesize f) (lookupLatency f)
    (maxEntryCount f) (totRequests f) (hitSingleRequests f) (hitMultiRequests f)
    (totSnoops f) (hitSingleSnoops f) (hitMultiSnoops f).
Definition set_lookup (it : LookupIt) (i : SnoopItem) (f : SnoopFilter) : SnoopFilter :=
  mkSF (cachedLocations f) it i (sf_slavePorts f) (localSlavePortIds f) (linesize f) (lookupLatency f)
    (maxEntryCount f) (totRequests f) (hitSingleRequests f) (hitMultiRequests f)
    (totSnoops f) (hitSingleSnoops f) (hitMultiSnoops f).
Definition set_ports (ps : list SlavePort) (ids : list Z) (f : SnoopFilter) : SnoopFilter :=
  mkSF (cachedLocations f) (req_it f) (retryItem f) ps ids (linesize f) (lookupLatency f)
    (maxEntryCount f) (totRequests f) (hitSingleRequests f) (hitMultiRequests f)
    (totSnoops f) (hitSingleSnoops f) (hitMultiSnoops f).
Definition count_request (t s m : Z) (f : SnoopFilter) : SnoopFilter :=
  mkSF (cachedLocations f) (req_it f) (retryItem f) (sf_slavePorts f) (localSlavePortIds f) (linesize f)
    (lookupLatency f) (maxEntryCount f) (totRequests f + t) (hitSingleRequests f + s) (hitMultiRequests f + m)
    (totSnoops f) (hitSingleSnoops f) (hitMultiSnoops f).
Definition count_snoop (t s m : Z) (f : SnoopFilter) : SnoopFilter :=
  mkSF (cachedLocations f) (req_it f) (retryItem f) (sf_slavePorts f) (localSlavePortIds f) (linesize f)
    (lookupLatency f) (maxEntryCount f) (totRequests f) (hitSingleRequests f) (hitMultiRequests f)
    (totSnoops f + t) (hitSingleSnoops f + s) (hitMultiSnoops f + m).

Definition new_SnoopFilter (cacheLineSize lookup_latency max_capacity : Z) : SnoopFilter :=
  mkSF ∅ ItEnd null_item [] [] cacheLineSize lookup_latency (max_capacity / cacheLineSize) 0 0 0 0 0 0.

(** ** Masks *)

(** [bitset::count() == 1] *)
Definition mask_count (m : Z) : nat :=
  length (filter (fun i => Z.testbit m (Z.of_nat i) = true) (seq 0 (Z.to_nat SNOOP_MASK_SIZE))).

(** [setSlavePorts]: snooping ports get consecutive mask bits. *)
Fixpoint assign_ports (ports : list SlavePort) (id : Z) (snooping : list SlavePort) (ids : list Z)
    : res (Z * list SlavePort * list Z) :=
  match ports with
  | [] => Ok (id, snooping, ids)
  | p :: rest =>
      if sp_isSnooping p then
        if bool_decide (sp_id p < length ids)%nat
        then assign_ports rest (id + 1) (snooping ++ [p]) (<[sp_id p := id]> ids)
        else Err (EUndefined "localSlavePortIds out of range")
      else assign_ports rest id snooping ids
  end.

Definition setSlavePorts (ports : list SlavePort) : F unit :=
  f ← get;
  '(id, snooping, ids) ← lift (assign_ports ports 0 (sf_slavePorts f)
    (take (length ports) (localSlavePortIds f)
     ++ replicate (length ports - length (localSlavePortIds f)) InvalidPortID));
  modify (set_ports snooping ids);;
  fatal_if (SNOOP_MASK_SIZE <? id) "Snoop filter only supports 256 snooping ports".

(** Shifting a [bitset] by its size or more (here: by [size_t(-1)]) clears it. *)
Definition portToMask (f : SnoopFilter) (p : SlavePort) : res Z :=
  if sp_isSnooping p then
    match localSlavePortIds f !! sp_id p with
    | Some i => Ok (if (0 <=? i) && (i <? SNOOP_MASK_SIZE) then Z.shiftl 1 i else 0)
    | None => Err (EUndefined "localSlavePortIds out of range")
    end
  else Ok 0.

Fixpoint ports_in_mask (f : SnoopFilter) (ports : list SlavePort) (mask : Z) : res (list SlavePort) :=
  match ports with
  | [] => Ok []
  | p :: rest =>
      m ← portToMask f p;
      l ← ports_in_mask f rest mask;
      Ok (if negb (Z.land mask m =? 0) then p :: l else l)
  end.
Definition maskToPortList (f : SnoopFilter) (mask : Z) : res (list SlavePort) :=
  ports_in_mask f (sf_slavePorts f) mask.

Definition snoopSelected (ports : list SlavePort) : F (list SlavePort * Z) :=
  latency ← gets lookupLatency; mret (ports, latency).
Definition snoopDown : F (list SlavePort * Z) := snoopSelected [].

(** ** Operations *)

Definition line_addr (f : SnoopFilter) (pkt : Pkt) : res Z :=
  a ← getBlockAddr (linesize f) pkt;
  s ← isSecure pkt;
  Ok (if s : bool then Z.lor a LineSecure else a).

Definition put_item (line : Z) (i : SnoopItem) : F unit :=
  modify (fun f => set_cachedLocations (<[line := i]> (cachedLocations f)) f).

Definition eraseIfNullEntry (line : Z) : F unit :=
  f ← get;
  match cachedLocations f !! line with
  | None => throw (EUndefined "dereferencing the end iterator")
  | Some i =>
      when_ (Z.lor (requested i) (holder i) =? 0)
        (modify (set_cachedLocations (delete line (cachedLocations f)));;
         when_ (bool_decide (req_it f = ItAt line)) (modify (set_lookup ItDangling (retryItem f))))
  end.

(** What [lookupRequest] makes of the entry when it tracks the request. *)
Definition track_request (pkt : Pkt) (req_port : Z) (i : SnoopItem) : res SnoopItem :=
  if needsResponse (p_cmd pkt) then
    if negb (cacheResponding pkt) then
      panic_r (negb (Z.land (requested i) req_port =? 0)) "double request";;
      Ok (mkItem (Z.lor (requested i) req_port) (holder i))
    else
      panic_r (Z.land (holder i) req_port =? 0) "Need to hold the value!";; Ok i
  else
    assert_r (isEviction (p_cmd pkt)) "cpkt->isEviction()";;
    panic_r (Z.land (holder i) req_port =? 0) "requester is not a holder";;
    Ok (if negb (isBlockCached pkt) then mkItem (requested i) (Z.ldiff (holder i) req_port) else i).

Definition allocates (pkt : Pkt) (slave_port : SlavePort) : bool :=
  negb (isUncacheable (p_req pkt)) && sp_isSnooping slave_port && fromCache (p_cmd pkt).

Definition lookupRequest (pkt : Pkt) (slave_port : SlavePort) : F (list SlavePort * Z) :=
  let allocate := allocates pkt slave_port in
  f ← get;
  line ← lift (line_addr f pkt);
  req_port ← lift (portToMask f slave_port);
  let is_hit := bool_decide (is_Some (cachedLocations f !! line)) in
  modify (set_lookup (if is_hit then ItAt line else ItEnd) (retryItem f));;
  if negb is_hit && negb allocate then snoopDown
  else
    let sf_item := default null_item (cachedLocations f !! line) in
    when_ (negb is_hit) (put_item line null_item);;
    modify (set_lookup (ItAt line) sf_item);;
    modify (count_request 1
      (if is_hit then if Nat.eqb (mask_count (interested sf_item)) 1 then 1 else 0 else 0)
      (if is_hit then if Nat.eqb (mask_count (interested sf_item)) 1 then 0 else 1 else 0));;
    let others := Z.ldiff (interested sf_item) req_port in
    when_ allocate
      (new_item ← lift (track_request pkt req_port sf_item);
       put_item line new_item);;
    ports ← lift (maskToPortList f others);
    snoopSelected ports.

Definition finishRequest (will_retry : bool) (addr : Z) (is_secure : bool) : F unit :=
  f ← get;
  match req_it f with
  | ItEnd => mret tt
  | ItDangling => throw (EUndefined "dereferencing an erased iterator")
  | ItAt line =>
      let a := Z.ldiff addr (blk_mask (linesize f)) in
      let line_addr := if is_secure then Z.lor a LineSecure else a in
      assert_ (line =? line_addr) "reqLookupResult.it->first == line_addr";;
      when_ will_retry (put_item line (retryItem f));;
      eraseIfNullEntry line
  end.

Definition lookupSnoop (pkt : Pkt) : F (list SlavePort * Z) :=
  assert_ (isRequest (p_cmd pkt)) "cpkt->isRequest()";;
  f ← get;
  line ← lift (line_addr f pkt);
  let sf_it := cachedLocations f !! line in
  panic_if (negb (bool_decide (is_Some sf_it)) && (maxEntryCount f <=? Z.of_nat (size (cachedLocations f))))
    "snoop filter exceeded capacity";;
  match sf_it with
  | None => snoopDown
  | Some sf_item =>
      modify (count_snoop 1 (if Nat.eqb (mask_count (interested sf_item)) 1 then 1 else 0)
                            (if Nat.eqb (mask_count (interested sf_item)) 1 then 0 else 1));;
      assert_ (isWriteback (p_cmd pkt) || isUncacheable (p_req pkt)
               || Bool.eqb (isInvalidate (p_cmd pkt)) (needsWritable (p_cmd pkt))
               || isCacheMaintenance (p_req pkt)) "invalidate matches writable";;
      when_ (isInvalidate (p_cmd pkt) && (requested sf_item =? 0))
        (put_item line (mkItem (requested sf_item) 0);; eraseIfNullEntry line);;
      ports ← lift (maskToPortList f (interested sf_item));
      snoopSelected ports
  end.

Definition updateSnoopResponse (pkt : Pkt) (rsp_port req_port : SlavePort) : F unit :=
  assert_ (isResponse (p_cmd pkt)) "cpkt->isResponse()";;
  assert_ (cacheResponding pkt) "cpkt->cacheResponding()";;
  if isUncacheable (p_req pkt) || negb (sp_isSnooping req_port) then mret tt
  else
    f ← get;
    line ← lift (line_addr f pkt);
    rsp_mask ← lift (portToMask f rsp_port);
    req_mask ← lift (portToMask f req_port);
    let sf_item := default null_item (cachedLocations f !! line) in
    panic_if (Z.land (holder sf_item) rsp_mask =? 0) "does not have the line";;
    panic_if (Z.land (requested sf_item) req_mask =? 0) "missing the original request";;
    assert_ (negb (isWriteback (p_cmd pkt))) "!cpkt->isWriteback()";;
    let h := if negb (hasSharers pkt) then 0 else holder sf_item in
    let new := mkItem (Z.ldiff (requested sf_item) req_mask) (Z.lor h req_mask) in
    assert_ (negb (Z.lor (requested new) (holder new) =? 0)) "(sf_item.requested | sf_item.holder).any()";;
    put_item line new.

Definition updateSnoopForward (pkt : Pkt) : F unit :=
  assert_ (isResponse (p_cmd pkt)) "cpkt->isResponse()";;
  assert_ (cacheResponding pkt) "cpkt->cacheResponding()";;
  f ← get;
  line ← lift (line_addr f pkt);
  match cachedLocations f !! line with
  | None => mret tt
  | Some sf_item =>
      when_ (negb (hasSharers pkt))
        (put_item line (mkItem (requested sf_item) 0);; eraseIfNullEntry line)
  end.

Definition updateResponse (pkt : Pkt) (slave_port : SlavePort) : F unit :=
  assert_ (isResponse (p_cmd pkt)) "cpkt->isResponse()";;
  if isUncacheable (p_req pkt) || negb (sp_isSnooping slave_port) then mret tt
  else
    f ← get;
    line ← lift (line_addr f pkt);
    match cachedLocations f !! line with
    | None => mret tt
    | Some sf_item =>
        slave_mask ← lift (portToMask f slave_port);
        panic_if (Z.land (requested sf_item) slave_mask =? 0) "missing request bit";;
        let r := Z.ldiff (requested sf_item) slave_mask in
        if isCacheMaintenance (p_req pkt) then
          put_item line (mkItem r (if isInvalidate (p_cmd pkt) then Z.ldiff (holder sf_item) slave_mask
                                   else holder sf_item));;
          eraseIfNullEntry line
        else
          let h := Z.lor (holder sf_item) slave_mask in
          assert_ (negb (Z.lor h r =? 0)) "(sf_item.holder | sf_item.requested).any()";;
          put_item line (mkItem r h)
    end.
