(* ===== verification/SnoopFilterProps.v ===== *)
(** * The snoop filter is a directory

    The masks of the filter stand for sets of ports; every operation acts on
    them as a directory would that keeps, per line, who has a request in flight
    and who may hold the line.  No operation loses a port, so no cache that has
    the line is left out of a snoop. *)

From S2P Require Import Prelude Packet Request PacketData PacketDataProps SnoopFilter.

(** ** Masks as sets of ports *)

Definition ports_of (f : SnoopFilter) (mask : Z) : gset nat :=
  list_to_set (omap (fun i => if Z.testbit mask (Z.of_nat i) then sp_id <$> sf_slavePorts f !! i else None)
                 (seq 0 (length (sf_slavePorts f)))).
Definition mask_ok (f : SnoopFilter) (m : Z) : Prop := 0 <= m < 2 ^ Z.of_nat (length (sf_slavePorts f)).

(** The tables [setSlavePorts] makes. *)
Record ports_wf (f : SnoopFilter) : Prop := {
  pw_local i sp : sf_slavePorts f !! i = Some sp ->
    sp_isSnooping sp = true /\ localSlavePortIds f !! sp_id sp = Some (Z.of_nat i);
  pw_size : (length (sf_slavePorts f) <= 256)%nat
}.

Lemma elem_ports f mask p : p ∈ ports_of f mask <->
  exists i sp, sf_slavePorts f !! i = Some sp /\ sp_id sp = p /\ Z.testbit mask (Z.of_nat i) = true.
Proof.
  unfold ports_of. rewrite elem_of_list_to_set, list_elem_of_omap. split.
  - intros (i & Hi & H). destruct (Z.testbit mask (Z.of_nat i)) eqn:E; [|done].
    destruct (sf_slavePorts f !! i) as [sp|] eqn:Es; simplify_eq/=. by exists i, sp.
  - intros (i & sp & Hs & <- & Hb). exists i. rewrite Hb, Hs. split; [|done].
    apply elem_of_seq. apply lookup_lt_Some in Hs. lia.
Qed.

Lemma ports_of_same f g mask : sf_slavePorts f = sf_slavePorts g -> ports_of f mask = ports_of g mask.
Proof. unfold ports_of. by intros ->. Qed.
Lemma ports_of_0 f : ports_of f 0 = ∅.
Proof. apply set_eq. intros p. rewrite elem_ports. split; [|set_solver]. intros (i & sp & _ & _ & H). by rewrite Z.testbit_0_l in H. Qed.
Lemma ports_of_lor f a b : ports_of f (Z.lor a b) = ports_of f a ∪ ports_of f b.
Proof.
  apply set_eq. intros p. rewrite elem_of_union, !elem_ports. setoid_rewrite Z.lor_spec. setoid_rewrite orb_true_iff.
  naive_solver.
Qed.

Lemma mask_ok_bits f m i : mask_ok f m -> Z.testbit m (Z.of_nat i) = true -> (i < length (sf_slavePorts f))%nat.
Proof.
  intros [H1 H2] Hb. destruct (decide (i < length (sf_slavePorts f))%nat) as [|Hge]; [done|exfalso].
  rewrite (Z.bits_above_log2 m) in Hb; [done|done|]. destruct (decide (m = 0)) as [->|]; [by rewrite Z.testbit_0_l in Hb|].
  apply Z.log2_lt_pow2; [lia|]. eapply Z.lt_le_trans; [exact H2|]. apply Z.pow_le_mono_r; lia.
Qed.

Lemma mask_ok_0 f : mask_ok f 0.
Proof. split; [done|]. apply Z.pow_pos_nonneg; lia. Qed.

(** A mask within the ports is empty when it stands for no port. *)
Lemma ports_of_empty f m : mask_ok f m -> ports_of f m = ∅ -> m = 0.
Proof.
  intros Hm He. apply Z.bits_inj_0. intros n. destruct (decide (0 <= n)) as [Hn|Hn]; [|apply Z.testbit_neg_r; lia].
  destruct (Z.testbit m n) eqn:Hb; [exfalso|done]. rewrite <- (Z2Nat.id n Hn) in Hb.
  destruct (lookup_lt_is_Some_2 (sf_slavePorts f) (Z.to_nat n)) as [sp Hs]; [by apply (mask_ok_bits f m)|].
  assert (sp_id sp ∈ ports_of f m) as Hin by (apply elem_ports; by exists (Z.to_nat n), sp). set_solver.
Qed.

Lemma bounded_pow2 m n : 0 <= m -> 0 <= n -> (forall k, n <= k -> Z.testbit m k = false) -> m < 2 ^ n.
Proof.
  intros Hm Hn Hb. destruct (Z_lt_le_dec m (2 ^ n)) as [|Hge]; [done|exfalso].
  assert (0 < m) by (pose proof (Z.pow_pos_nonneg 2 n); lia).
  assert (n <= Z.log2 m) by (by apply Z.log2_le_pow2). pose proof (Z.bit_log2 m). rewrite Hb in *; naive_solver.
Qed.

Lemma testbit_high m n k : 0 <= m < 2 ^ n -> n <= k -> Z.testbit m k = false.
Proof.
  intros Hm Hk. destruct (decide (m = 0)) as [->|]; [apply Z.testbit_0_l|]. apply Z.bits_above_log2; [lia|].
  apply Z.lt_le_trans with n; [|done]. destruct (Z_lt_le_dec n 0); [rewrite Z.pow_neg_r in Hm by done; lia|].
  apply Z.log2_lt_pow2; lia.
Qed.

Lemma mask_ok_lor f a b : mask_ok f a -> mask_ok f b -> mask_ok f (Z.lor a b).
Proof.
  intros Ha Hb. split; [apply Z.lor_nonneg; split; [apply Ha|apply Hb]|].
  apply bounded_pow2; [apply Z.lor_nonneg; split; [apply Ha|apply Hb]|lia|].
  intros k Hk. by rewrite Z.lor_spec, (testbit_high a _ k Ha Hk), (testbit_high b _ k Hb Hk).
Qed.
Lemma mask_ok_ldiff f a b : mask_ok f a -> mask_ok f (Z.ldiff a b).
Proof.
  intros Ha. assert (0 <= Z.ldiff a b) as H0 by (apply Z.ldiff_nonneg; left; apply Ha). split; [done|].
  apply bounded_pow2; [done|lia|]. intros k Hk. by rewrite Z.ldiff_spec, (testbit_high a _ k Ha Hk).
Qed.
#[export] Hint Resolve mask_ok_0 mask_ok_lor mask_ok_ldiff : hetsim.

(** ** Ports *)

(** A port of the crossbar: one of the tracked ports, or one that does not snoop. *)
Definition port_known (f : SnoopFilter) (p : SlavePort) : Prop :=
  if sp_isSnooping p then p ∈ sf_slavePorts f else forall q, q ∈ sf_slavePorts f -> sp_id q <> sp_id p.

Lemma port_index f i j sp sq : ports_wf f -> sf_slavePorts f !! i = Some sp -> sf_slavePorts f !! j = Some sq ->
  sp_id sp = sp_id sq -> i = j.
Proof.
  intros [Hl _] Hi Hj E. destruct (Hl i sp Hi) as [_ H1], (Hl j sq Hj) as [_ H2]. rewrite E in H1.
  rewrite H1 in H2. simplify_eq. lia.
Qed.

Lemma tracked_mask f i sp : ports_wf f -> sf_slavePorts f !! i = Some sp ->
  portToMask f sp = Ok (Z.shiftl 1 (Z.of_nat i)).
Proof.
  intros [Hl Hs] Hi. destruct (Hl i sp Hi) as [H1 H2]. apply lookup_lt_Some in Hi. unfold portToMask. rewrite H1, H2.
  unfold SNOOP_MASK_SIZE. rewrite (proj2 (Z.leb_le 0 _)), (proj2 (Z.ltb_lt _ 256)) by lia. done.
Qed.

Lemma testbit_one i k : 0 <= i -> Z.testbit (Z.shiftl 1 i) k = bool_decide (i = k).
Proof.
  intros Hi. rewrite Z.shiftl_mul_pow2, Z.mul_1_l by done. case_bool_decide as E; [subst; by apply Z.pow2_bits_true|].
  by apply Z.pow2_bits_false.
Qed.

Lemma land_one x i : 0 <= i -> (Z.land x (Z.shiftl 1 i) =? 0) = negb (Z.testbit x i).
Proof.
  intros Hi. destruct (Z.testbit x i) eqn:Hb; simpl.
  - apply Z.eqb_neq. intros E. assert (Z.testbit (Z.land x (Z.shiftl 1 i)) i = true) as H.
    { rewrite Z.land_spec, Hb, testbit_one by done. by apply bool_decide_eq_true_2. }
    rewrite E in H. by rewrite Z.testbit_0_l in H.
  - apply Z.eqb_eq, Z.bits_inj_0. intros k. rewrite Z.land_spec, testbit_one by done.
    case_bool_decide; [subst; by rewrite Hb|apply andb_false_r].
Qed.

(** What the mask of a port does to the mask of a set. *)
Record is_mask (f : SnoopFilter) (p : SlavePort) (m : Z) : Prop := {
  im_run : portToMask f p = Ok m;
  im_ok : mask_ok f m;
  im_set : sp_isSnooping p = true -> ports_of f m = {[sp_id p]};
  im_diff x : ports_of f (Z.ldiff x m) = ports_of f x ∖ {[sp_id p]};
  im_land x : (Z.land x m =? 0) = negb (bool_decide (sp_id p ∈ ports_of f x))
}.

Lemma port_mask f p : ports_wf f -> port_known f p -> exists m, is_mask f p m.
Proof.
  intros Hwf Hk. unfold port_known in Hk. destruct (sp_isSnooping p) eqn:Hs.
  - apply list_elem_of_lookup in Hk as [i Hi]. exists (Z.shiftl 1 (Z.of_nat i)).
    assert (forall x, sp_id p ∈ ports_of f x <-> Z.testbit x (Z.of_nat i) = true) as Hin.
    { intros x. rewrite elem_ports. split; [|intros Hb; by exists i, p].
      intros (j & sq & Hj & E & Hb). by rewrite (port_index f i j p sq) by done. }
    split.
    + by apply tracked_mask.
    + rewrite Z.shiftl_mul_pow2, Z.mul_1_l by lia. split; [apply Z.pow_nonneg; lia|].
      apply Z.pow_lt_mono_r; [lia|lia|]. apply lookup_lt_Some in Hi. lia.
    + intros _. apply set_eq. intros q. rewrite elem_of_singleton, elem_ports. split.
      * intros (j & sq & Hj & <- & Hb). rewrite testbit_one in Hb by lia. apply bool_decide_eq_true in Hb.
        assert (i = j) as -> by lia. congruence.
      * intros ->. exists i, p. rewrite testbit_one by lia. by rewrite bool_decide_eq_true_2.
    + intros x. apply set_eq. intros q. rewrite elem_of_difference, elem_of_singleton, !elem_ports.
      setoid_rewrite Z.ldiff_spec. setoid_rewrite testbit_one; [|lia..]. split.
      * intros (j & sq & Hj & <- & Hb). apply andb_true_iff in Hb as [Hb Hne]. apply negb_true_iff, bool_decide_eq_false in Hne.
        split; [by exists j, sq|]. intros E. apply Hne. f_equal. by apply (port_index f i j p sq).
      * intros ((j & sq & Hj & <- & Hb) & Hne). exists j, sq. split_and!; [done|done|]. rewrite Hb. simpl.
        apply negb_true_iff, bool_decide_eq_false_2. intros E. apply Hne. assert (i = j) as -> by lia. congruence.
    + intros x. rewrite land_one by lia. f_equal. specialize (Hin x).
      destruct (Z.testbit x _); case_bool_decide; naive_solver.
  - exists 0. assert (forall x, sp_id p ∉ ports_of f x) as Hn.
    { intros x (i & sp & Hi & E & _)%elem_ports. by apply (Hk sp); [apply list_elem_of_lookup_2 in Hi|]. }
    split; [unfold portToMask; by rewrite Hs|apply mask_ok_0|congruence| |].
    + intros x. rewrite Z.ldiff_0_r. specialize (Hn x). set_solver.
    + intros x. rewrite Z.land_0_r. symmetry. apply negb_true_iff. by apply bool_decide_eq_false_2.
Qed.

Lemma maskToPortList_run f x : ports_wf f ->
  maskToPortList f x = Ok (filter (fun p => sp_id p ∈ ports_of f x) (sf_slavePorts f)).
Proof.
  intros Hwf. unfold maskToPortList.
  assert (forall l, (forall p, p ∈ l -> port_known f p) ->
    ports_in_mask f l x = Ok (filter (fun p => sp_id p ∈ ports_of f x) l)) as H.
  { induction l as [|p l IH]; intros Hl; [done|]. simpl.
    destruct (port_mask f p Hwf ltac:(apply Hl; set_solver)) as (m & Hm).
    rewrite (im_run _ _ _ Hm). cbn [mbind res_bind]. rewrite IH by (intros; apply Hl; set_solver). cbn [mbind res_bind].
    rewrite (im_land _ _ _ Hm), filter_cons, negb_involutive. by case_bool_decide; case_decide. }
  apply H. intros p Hp. unfold port_known. apply list_elem_of_lookup in Hp as [i Hi].
  destruct (pw_local f Hwf i p Hi) as [-> _]. by apply list_elem_of_lookup_2 in Hi.
Qed.

(** ** The directory *)

(** Per line: the ports with a request in flight, and the ports that may hold it. *)
Definition entry : Type := gset nat * gset nat.
Definition everyone (e : entry) : gset nat := e.1 ∪ e.2.

(** [d_undo]: a request whose outcome is open; the line and the entry to go back
    to, or nothing if the line is not tracked. *)
Record Dir := mkDir { d_entry : Z -> entry; d_undo : option (option (Z * entry)) }.
Definition set_entry (l : Z) (e : entry) (d : Dir) : Dir :=
  mkDir (fun l' => if decide (l' = l) then e else d_entry d l') (d_undo d).
Definition set_undo (u : option (option (Z * entry))) (d : Dir) : Dir := mkDir (d_entry d) u.
Definition open_at (d : Dir) (l : Z) : Prop := exists e, d_undo d = Some (Some (l, e)).

Definition item_entry (f : SnoopFilter) (i : SnoopItem) : entry := (ports_of f (requested i), ports_of f (holder i)).
Definition item_ok (f : SnoopFilter) (i : SnoopItem) : Prop := mask_ok f (requested i) /\ mask_ok f (holder i).
Definition item_at (f : SnoopFilter) (l : Z) : SnoopItem := default null_item (cachedLocations f !! l).

Record sf_rel (f : SnoopFilter) (d : Dir) : Prop := {
  sr_ports : ports_wf f;
  sr_items l i : cachedLocations f !! l = Some i -> item_ok f i;
  sr_retry : item_ok f (retryItem f);
  sr_entry l : item_entry f (item_at f l) = d_entry d l;
  sr_null l i : cachedLocations f !! l = Some i -> item_entry f i = (∅, ∅) -> open_at d l;
  sr_undo : match d_undo d with
            | None => True
            | Some None => req_it f = ItEnd
            | Some (Some (l, e)) => req_it f = ItAt l /\ is_Some (cachedLocations f !! l)
                                    /\ item_entry f (retryItem f) = e
            end
}.

Lemma null_entry f : item_entry f null_item = (∅, ∅).
Proof. unfold item_entry. simpl. by rewrite ports_of_0. Qed.
Lemma item_at_ok f d l : sf_rel f d -> item_ok f (item_at f l).
Proof.
  intros Hr. unfold item_at. destruct (cachedLocations f !! l) as [i|] eqn:E; [by apply (sr_items f d Hr l)|].
  split; apply mask_ok_0.
Qed.

(** An entry without ports is the null entry. *)
Lemma entry_null f i : item_ok f i -> (Z.lor (requested i) (holder i) =? 0) = bool_decide (item_entry f i = (∅, ∅)).
Proof.
  intros [H1 H2]. case_bool_decide as E.
  - unfold item_entry in E. simplify_eq/=. rewrite (ports_of_empty f (requested i)), (ports_of_empty f (holder i)) by done. done.
  - apply Z.eqb_neq. intros E0. apply Z.lor_eq_0_iff in E0 as [E1 E2]. apply E. unfold item_entry. by rewrite E1, E2, ports_of_0.
Qed.

Definition stored (l : Z) (i : SnoopItem) (f : SnoopFilter) : SnoopFilter :=
  set_cachedLocations (<[l := i]> (cachedLocations f)) f.

Lemma item_at_stored l i f l' : item_at (stored l i f) l' = if decide (l' = l) then i else item_at f l'.
Proof.
  unfold item_at, stored. simpl. case_decide; [subst; by rewrite lookup_insert_eq|by rewrite lookup_insert_ne].
Qed.

Lemma stored_rel l i f d : sf_rel f d -> item_ok f i -> (item_entry f i = (∅, ∅) -> open_at d l) ->
  sf_rel (stored l i f) (set_entry l (item_entry f i) d).
Proof.
  intros [H1 H2 H3 H4 H5 H6] Hi Hn. split.
  - destruct H1. by split.
  - intros l' i'. simpl. intros [[<- <-]|[_ E]]%lookup_insert_Some; [done|by apply H2 in E].
  - done.
  - intros l'. rewrite item_at_stored. unfold set_entry. simpl. case_decide; [done|apply H4].
  - intros l' i'. simpl. intros [[<- <-]|[_ E]]%lookup_insert_Some E'; [by apply Hn|by apply (H5 l' i')].
  - simpl. destruct (d_undo d) as [[[l' e]|]|]; [|done|done]. destruct H6 as (E1 & E2 & E3). split_and!; [done| |done].
    destruct (decide (l = l')) as [->|]; [rewrite lookup_insert_eq; by eexists|by rewrite lookup_insert_ne].
Qed.

Definition erased (l : Z) (f : SnoopFilter) : SnoopFilter :=
  let f' := set_cachedLocations (delete l (cachedLocations f)) f in
  if decide (req_it f = ItAt l) then set_lookup ItDangling (retryItem f) f' else f'.

Definition forget (l : Z) (u : option (option (Z * entry))) (d : Dir) : Dir := set_undo u (set_entry l (∅, ∅) d).

Lemma erased_rel l f d u : sf_rel f d -> (~ open_at d l /\ u = d_undo d) \/ (open_at d l /\ u = None) ->
  sf_rel (erased l f) (forget l u d).
Proof.
  intros [H1 H2 H3 H4 H5 H6] Hu.
  assert (cachedLocations (erased l f) = delete l (cachedLocations f) /\ sf_slavePorts (erased l f) = sf_slavePorts f
    /\ localSlavePortIds (erased l f) = localSlavePortIds f /\ retryItem (erased l f) = retryItem f) as (E1 & E2 & E3 & E4)
    by (unfold erased; by case_decide).
  assert (forall i, item_entry (erased l f) i = item_entry f i) as Ee.
  { intros i. unfold item_entry. by rewrite !(ports_of_same (erased l f) f). }
  assert (forall i, item_ok (erased l f) i <-> item_ok f i) as Eo by (intros i; unfold item_ok, mask_ok; by rewrite E2).
  split.
  - destruct H1 as [Ha Hb]. split; rewrite E2, ?E3; done.
  - intros l' i. rewrite E1, Eo. intros [_ E]%lookup_delete_Some. by apply (H2 l').
  - rewrite E4, Eo. done.
  - intros l'. rewrite Ee. unfold item_at. rewrite E1. simpl. case_decide as E.
    + subst. rewrite lookup_delete_eq. apply null_entry.
    + rewrite lookup_delete_ne by done. apply H4.
  - intros l' i. rewrite E1, Ee. intros [Hne E]%lookup_delete_Some En. destruct (H5 l' i E En) as [e' He'].
    destruct Hu as [[_ ->]|[[e He] _]]; [by exists e'|congruence].
  - simpl. destruct Hu as [[Ho ->]|[_ ->]]; [|done]. destruct (d_undo d) as [[[l' e]|]|] eqn:Eu; [| |done].
    + destruct H6 as (Ha & Hb & Hc). assert (l <> l') as Hne by (intros ->; apply Ho; by exists e).
      rewrite E1, E4, Ee, lookup_delete_ne by done. split; [|done]. unfold erased. rewrite decide_False by congruence. done.
    + unfold erased. rewrite decide_False by congruence. done.
Qed.

(** What no operation on lines changes. *)
Definition same_config (f f' : SnoopFilter) : Prop :=
  sf_slavePorts f' = sf_slavePorts f /\ linesize f' = linesize f /\ lookupLatency f' = lookupLatency f
  /\ maxEntryCount f' = maxEntryCount f.

(** Storing an entry and dropping it again if it has become null. *)
Lemma put_erase_run l i f d : sf_rel f d -> item_ok f i -> ~ open_at d l ->
  exists f', (put_item l i;; eraseIfNullEntry l) f = Ok (tt, f') /\ sf_rel f' (set_entry l (item_entry f i) d)
    /\ same_config f f'.
Proof.
  intros Hr Hi Ho. unfold put_item. rewrite bind_modify. fold (stored l i f).
  unfold eraseIfNullEntry. rewrite (bind_run get _ (stored l i f) (stored l i f) (stored l i f)) by done.
  cbn [stored set_cachedLocations cachedLocations]. rewrite lookup_insert_eq, (entry_null f) by done.
  case_bool_decide as E; cbn [when_].
  - exists (erased l f). rewrite bind_modify, E. split; [|split; [apply (erased_rel l f d); auto|unfold erased; by case_decide]].
    unfold stored, erased. simpl. rewrite delete_insert_eq. by case_bool_decide; case_decide.
  - exists (stored l i f). split; [done|]. split; [by apply stored_rel|done].
Qed.

(** Once the outcome of a request is known, its entry may be dropped. *)
Lemma close_run l e f d : sf_rel f d -> d_undo d = Some (Some (l, e)) ->
  exists f', eraseIfNullEntry l f = Ok (tt, f') /\ sf_rel f' (set_undo None d) /\ same_config f f'.
Proof.
  intros Hr Hu. pose proof (sr_undo f d Hr) as H. rewrite Hu in H. destruct H as (_ & [i Hi] & _).
  assert (forall l' i', cachedLocations f !! l' = Some i' -> item_entry f i' = (∅, ∅) -> l' = l) as Hnull.
  { intros l' i' H1 H2. destruct (sr_null f d Hr l' i' H1 H2) as [e' E]. congruence. }
  unfold eraseIfNullEntry. rewrite (bind_run get _ f f f) by done. rewrite Hi.
  rewrite (entry_null f) by (by apply (sr_items f d Hr l)). case_bool_decide as E; cbn [when_].
  - exists (erased l f). split; [unfold erased; rewrite bind_modify; by case_bool_decide; case_decide|].
    split; [|unfold erased; by case_decide].
    assert (sf_rel (erased l f) (forget l None d)) as [H1 H2 H3 H4 H5 H6].
    { apply erased_rel; [done|]. right. split; [by exists e|done]. }
    split; try done. intros l'. rewrite H4. simpl. case_decide; [subst|done].
    rewrite <- (sr_entry f d Hr l). unfold item_at. by rewrite Hi.
  - exists f. split; [done|]. split; [|done]. destruct Hr as [H1 H2 H3 H4 H5 H6]. split; try done.
    intros l' i' Hl' He'. assert (l' = l) as -> by (by apply (Hnull l' i')). congruence.
Qed.

(** ** Operations *)

Definition line_of (f : SnoopFilter) (pkt : Pkt) : Z :=
  let a := Z.ldiff (p_addr pkt) (blk_mask (linesize f)) in if p_isSecure pkt then Z.lor a LineSecure else a.

Lemma line_addr_run f pkt : p_isSet VALID_ADDR pkt = true -> line_addr f pkt = Ok (line_of f pkt).
Proof. intros H. unfold line_addr, getBlockAddr. rewrite getAddr_run, isSecure_run by done. done. Qed.

(** What a tracked request does to the entry of its line, and when it may come. *)
Definition track_entry (pkt : Pkt) (p : nat) (e : entry) : entry :=
  if needsResponse (p_cmd pkt) then if cacheResponding pkt then e else (e.1 ∪ {[p]}, e.2)
  else if isBlockCached pkt then e else (e.1, e.2 ∖ {[p]}).
Definition track_ok (pkt : Pkt) (p : nat) (e : entry) : Prop :=
  if needsResponse (p_cmd pkt) then if cacheResponding pkt then p ∈ e.2 else p ∉ e.1
  else isEviction (p_cmd pkt) = true /\ p ∈ e.2.

Lemma track_request_run f pkt sp m i : is_mask f sp m -> sp_isSnooping sp = true -> item_ok f i ->
  track_ok pkt (sp_id sp) (item_entry f i) ->
  exists i', track_request pkt m i = Ok i' /\ item_ok f i'
    /\ item_entry f i' = track_entry pkt (sp_id sp) (item_entry f i).
Proof.
  intros Hm Hs [Hi1 Hi2] Hok. unfold track_request, track_entry, track_ok, panic_r, item_entry in *. simpl in *.
  rewrite !(im_land _ _ _ Hm). destruct (needsResponse (p_cmd pkt)).
  - destruct (cacheResponding pkt); simpl.
    + rewrite bool_decide_eq_true_2 by done. exists i. done.
    + rewrite bool_decide_eq_false_2 by done. eexists. split; [done|]. split; [|simpl; by rewrite ports_of_lor, (im_set _ _ _ Hm)].
      split; simpl; [|done]. apply mask_ok_lor; [done|apply Hm].
  - destruct Hok as [-> Hok]. simpl. rewrite bool_decide_eq_true_2 by done. simpl. eexists. split; [done|].
    destruct (isBlockCached pkt); simpl; [done|]. rewrite (im_diff _ _ _ Hm). split; [|done].
    split; [done|]. by apply mask_ok_ldiff.
Qed.

(** A filter with the same ports. *)
Lemma same_ports f f' : sf_slavePorts f' = sf_slavePorts f ->
  (forall i, item_entry f' i = item_entry f i) /\ (forall i, item_ok f' i <-> item_ok f i).
Proof.
  intros E. split; intros i; [unfold item_entry; by rewrite !(ports_of_same f' f)|unfold item_ok, mask_ok; by rewrite E].
Qed.

Lemma opened_rel f d l f' : sf_rel f d -> d_undo d = None ->
  cachedLocations f' = <[l := item_at f l]> (cachedLocations f) -> req_it f' = ItAt l -> retryItem f' = item_at f l ->
  sf_slavePorts f' = sf_slavePorts f -> localSlavePortIds f' = localSlavePortIds f ->
  sf_rel f' (set_undo (Some (Some (l, d_entry d l))) d).
Proof.
  intros Hr Hu Ec Ei Ery Es El. destruct (same_ports f f' Es) as [Ee Eo].
  pose proof (item_at_ok f d l Hr) as Hat. destruct Hr as [H1 H2 H3 H4 H5 H6].
  assert (item_at f' l = item_at f l) as Eat by (unfold item_at; by rewrite Ec, lookup_insert_eq).
  split; simpl.
  - destruct H1 as [Ha Hb]. split; rewrite Es, ?El; done.
  - intros l' i. rewrite Ec, Eo. intros [[<- <-]|[_ E]]%lookup_insert_Some; [done|by apply (H2 l')].
  - by rewrite Ery, Eo.
  - intros l'. rewrite Ee, <- H4. destruct (decide (l = l')) as [<-|Hne]; [by rewrite Eat|].
    unfold item_at. by rewrite Ec, lookup_insert_ne.
  - intros l' i. rewrite Ec, Ee. intros [[<- _]|[_ E]]%lookup_insert_Some E'; [by exists (d_entry d l)|].
    destruct (H5 l' i E E') as [e He]. congruence.
  - rewrite Ec, Ery, Ee, lookup_insert_eq. split_and!; [done|by eexists|apply H4].
Qed.

Lemma tracked_iff f d l : sf_rel f d -> d_undo d = None ->
  bool_decide (is_Some (cachedLocations f !! l)) = bool_decide (d_entry d l <> (∅, ∅)).
Proof.
  intros Hr Hu. apply bool_decide_ext. rewrite <- (sr_entry f d Hr l). unfold item_at.
  destruct (cachedLocations f !! l) as [i|] eqn:E; simpl.
  - split; [intros _ E'|by eexists]. destruct (sr_null f d Hr l i E E') as [e He]. congruence.
  - rewrite null_entry. split; [by intros [? ?]|done].
Qed.

(** The ports a snoop goes to. *)
Definition snooped (f : SnoopFilter) (s : gset nat) : list SlavePort := filter (fun p => sp_id p ∈ s) (sf_slavePorts f).

Lemma snooped_nobody f s : s ≡ ∅ -> snooped f s = [].
Proof.
  intros Hs. unfold snooped. induction (sf_slavePorts f) as [|p l IH]; [done|].
  rewrite filter_cons_False by set_solver. done.
Qed.

Definition request_dir (pkt : Pkt) (sp : SlavePort) (l : Z) (d : Dir) : Dir :=
  let e := d_entry d l in
  if allocates pkt sp then set_undo (Some (Some (l, e))) (set_entry l (track_entry pkt (sp_id sp) e) d)
  else set_undo (Some (if decide (e = (∅, ∅)) then None else Some (l, e))) d.

Lemma set_undo_entry u l e d : set_undo u (set_entry l e d) = set_entry l e (set_undo u d).
Proof. done. Qed.

Lemma others_set f m sp i : is_mask f sp m ->
  ports_of f (Z.ldiff (interested i) m) = everyone (item_entry f i) ∖ {[sp_id sp]}.
Proof.
  intros Hm. rewrite (im_diff _ _ _ Hm). unfold interested, everyone, item_entry. simpl. rewrite ports_of_lor. set_solver.
Qed.

Lemma lookupRequest_run f d pkt sp : sf_rel f d -> d_undo d = None -> port_known f sp ->
  p_isSet VALID_ADDR pkt = true ->
  (allocates pkt sp = true -> track_ok pkt (sp_id sp) (d_entry d (line_of f pkt))) ->
  exists f', lookupRequest pkt sp f
    = Ok ((snooped f (everyone (d_entry d (line_of f pkt)) ∖ {[sp_id sp]}), lookupLatency f), f')
    /\ sf_rel f' (request_dir pkt sp (line_of f pkt) d) /\ same_config f f'.
Proof.
  intros Hr Hu Hk Hv Hok. set (l := line_of f pkt) in *. pose proof (sr_ports f d Hr) as Hp.
  destruct (port_mask f sp Hp Hk) as (m & Hm). pose proof (item_at_ok f d l Hr) as Hat.
  pose proof (sr_entry f d Hr l) as He. unfold lookupRequest. rewrite (bind_run get _ f f f) by done.
  rewrite (bind_run (lift _) _ f l f) by (unfold lift; by rewrite line_addr_run).
  rewrite (bind_run (lift _) _ f m f) by (unfold lift; by rewrite (im_run _ _ _ Hm)).
  rewrite bind_modify. fold (item_at f l). set (hit := bool_decide (is_Some (cachedLocations f !! l))).
  destruct (negb hit && negb (allocates pkt sp)) eqn:Ecase.
  { apply andb_true_iff in Ecase as [Eh Ea]. apply negb_true_iff in Eh, Ea. unfold hit in *.
    rewrite Eh. rewrite (tracked_iff f d l Hr Hu) in Eh. apply bool_decide_eq_false in Eh. apply dec_stable in Eh.
    exists (set_lookup ItEnd (retryItem f) f). split; [|split; [|done]].
    - rewrite (snooped_nobody f) by (rewrite Eh; set_solver). done.
    - unfold request_dir. rewrite Ea, decide_True by done. destruct Hr as [H1 H2 H3 H4 H5 H6]. destruct H1. split; try done.
      intros l' i H7 H8. destruct (H5 l' i H7 H8) as [e0 E0]. congruence. }
  set (f1 := set_lookup _ _ f).
  assert (exists f2, when_ (negb hit) (put_item l null_item) f1 = Ok (tt, f2) /\
    cachedLocations f2 = <[l := item_at f l]> (cachedLocations f) /\ same_config f f2
    /\ localSlavePortIds f2 = localSlavePortIds f) as (f2 & E2 & Ec2 & Es2 & El2).
  { unfold hit. case_bool_decide as Eh; cbn [negb when_]; eexists; (split; [done|]); split; [|done| |done].
    - destruct Eh as [i Ei]. simpl. unfold item_at. rewrite Ei. simpl. by rewrite insert_id.
    - simpl. unfold item_at. apply eq_None_not_Some in Eh. by rewrite Eh. }
  rewrite (bind_run _ _ _ _ _ E2), !bind_modify. set (f3 := count_request _ _ _ _).
  assert (sf_rel f3 (set_undo (Some (Some (l, d_entry d l))) d)) as H3 by (apply (opened_rel f d l); try done; apply Es2).
  assert (same_config f f3) as Es3 by exact Es2. assert (sf_slavePorts f3 = sf_slavePorts f) as Esp by apply Es3.
  destruct (same_ports f f3 Esp) as [Ee3 Eo3].
  assert (forall f', same_config f f' -> (ports ← lift (maskToPortList f (Z.ldiff (interested (item_at f l)) m));
    snoopSelected ports) f' = Ok ((snooped f (everyone (d_entry d l) ∖ {[sp_id sp]}), lookupLatency f), f')) as Hend.
  { intros f' Hc. rewrite maskToPortList_run, (others_set f m sp), He by done. erewrite bind_run by reflexivity.
    unfold snoopSelected. rewrite bind_gets. unfold snooped. destruct Hc as (_ & _ & -> & _). done. }
  unfold request_dir. destruct (allocates pkt sp) eqn:Ea; cbn [when_].
  - destruct (track_request_run f pkt sp m (item_at f l) Hm) as (i & Ei & Hi & Hie).
    { unfold allocates in Ea. by destruct (sp_isSnooping sp), (negb _). }
    { done. } { rewrite He. by apply Hok. }
    exists (stored l i f3). split; [|split; [|exact Es3]].
    + erewrite (bind_run (_ ≫= _)); [apply Hend; exact Es3|]. erewrite (bind_run (lift _)) by (rewrite Ei; reflexivity). done.
    + rewrite set_undo_entry, <- He, <- Hie, <- (Ee3 i). rewrite He.
      apply stored_rel; [done|by apply Eo3|]. intros _. by exists (d_entry d l).
  - exists f3. split; [apply (Hend f3 Es3)|]. split; [|done].
    assert (hit = true) as Ehit by (by destruct hit). unfold hit in Ehit. rewrite (tracked_iff f d l Hr Hu) in Ehit.
    apply bool_decide_eq_true in Ehit. by rewrite decide_False.
Qed.

Definition addr_line (f : SnoopFilter) (addr : Z) (is_secure : bool) : Z :=
  let a := Z.ldiff addr (blk_mask (linesize f)) in if is_secure then Z.lor a LineSecure else a.

Definition finish_dir (will_retry : bool) (d : Dir) : Dir :=
  match d_undo d with
  | Some (Some (l, e)) => set_undo None (if will_retry then set_entry l e d else d)
  | _ => set_undo None d
  end.

Lemma finishRequest_run f d will_retry addr sec : sf_rel f d -> d_undo d <> None ->
  (forall l e, d_undo d = Some (Some (l, e)) -> l = addr_line f addr sec) ->
  exists f', finishRequest will_retry addr sec f = Ok (tt, f') /\ sf_rel f' (finish_dir will_retry d) /\ same_config f f'.
Proof.
  intros Hr Hu Hl. pose proof (sr_undo f d Hr) as H. unfold finishRequest, finish_dir.
  rewrite (bind_run get _ f f f) by done. destruct (d_undo d) as [[[l e]|]|] eqn:Eu; [| |done].
  - destruct H as (Hit & _ & Hre). rewrite Hit, bind_assert by (apply Z.eqb_eq; by apply (Hl l e)).
    destruct will_retry; cbn [when_].
    + unfold put_item. rewrite bind_modify. fold (stored l (retryItem f) f).
      destruct (close_run l e (stored l (retryItem f) f) (set_entry l e d)) as (f' & H1 & H2 & H3); [|done|by exists f'].
      rewrite <- Hre. apply stored_rel; [done|apply (sr_retry f d Hr)|]. intros _. by exists e.
    + rewrite bind_ret. by apply (close_run l e f d).
  - rewrite H. exists f. split; [done|]. split; [|done]. destruct Hr as [H1 H2 H3 H4 H5 H6]. split; try done.
    intros l i E1 E2. destruct (H5 l i E1 E2) as [e' E']. congruence.
Qed.

Definition snoop_dir (pkt : Pkt) (l : Z) (d : Dir) : Dir :=
  if isInvalidate (p_cmd pkt) && bool_decide ((d_entry d l).1 = ∅) then set_entry l ((d_entry d l).1, ∅) d else d.

(** The assertion on the kind of snoops, and the capacity. *)
Definition snoop_ok (f : SnoopFilter) (pkt : Pkt) : Prop :=
  isRequest (p_cmd pkt) = true /\ p_isSet VALID_ADDR pkt = true
  /\ isWriteback (p_cmd pkt) || isUncacheable (p_req pkt)
     || Bool.eqb (isInvalidate (p_cmd pkt)) (needsWritable (p_cmd pkt)) || isCacheMaintenance (p_req pkt) = true
  /\ (is_Some (cachedLocations f !! line_of f pkt) \/ Z.of_nat (size (cachedLocations f)) < maxEntryCount f).

Lemma counted_rel f d a b c : sf_rel f d -> sf_rel (count_snoop a b c f) d.
Proof. intros [[H0 H0'] H2 H3 H4 H5 H6]. split; [by split|done..]. Qed.

Lemma set_entry_same f d l : sf_rel f d -> d_entry d l = (∅, ∅) -> sf_rel f (set_entry l (∅, ∅) d).
Proof.
  intros [H1 H2 H3 H4 H5 H6] He. split; try done. intros l'. rewrite H4. simpl. case_decide; [by subst|done].
Qed.

Lemma untracked f d l : sf_rel f d -> cachedLocations f !! l = None -> d_entry d l = (∅, ∅).
Proof. intros Hr E. rewrite <- (sr_entry f d Hr l). unfold item_at. rewrite E. apply null_entry. Qed.
Lemma tracked f d l i : sf_rel f d -> cachedLocations f !! l = Some i -> item_entry f i = d_entry d l.
Proof. intros Hr E. rewrite <- (sr_entry f d Hr l). unfold item_at. by rewrite E. Qed.

Lemma mask_empty f m : mask_ok f m -> (m =? 0) = bool_decide (ports_of f m = ∅).
Proof.
  intros Hm. case_bool_decide as E; [by rewrite (ports_of_empty f m)|]. apply Z.eqb_neq. intros ->. by rewrite ports_of_0 in E.
Qed.

Lemma lookupSnoop_run f d pkt : sf_rel f d -> ~ open_at d (line_of f pkt) -> snoop_ok f pkt ->
  exists f', lookupSnoop pkt f = Ok ((snooped f (everyone (d_entry d (line_of f pkt))), lookupLatency f), f')
    /\ sf_rel f' (snoop_dir pkt (line_of f pkt) d) /\ same_config f f'.
Proof.
  intros Hr Ho (Hrq & Hv & Hk & Hcap). set (l := line_of f pkt) in *. unfold lookupSnoop. rewrite bind_assert by done.
  rewrite (bind_run get _ f f f) by done. rewrite (bind_run (lift _) _ f l f) by (unfold lift; by rewrite line_addr_run).
  destruct (cachedLocations f !! l) as [i|] eqn:Ei.
  - rewrite bind_panic_if, bind_modify, bind_assert by done. set (f1 := count_snoop _ _ _ f).
    assert (sf_rel f1 d) as Hr1 by by apply counted_rel. pose proof (tracked f d l i Hr Ei) as He.
    pose proof (sr_items f d Hr l i Ei) as Hi. rewrite (mask_empty f) by apply Hi.
    assert (forall f', same_config f f' -> (ports ← lift (maskToPortList f (interested i)); snoopSelected ports) f'
      = Ok ((snooped f (everyone (d_entry d l)), lookupLatency f), f')) as Hend.
    { intros f' Hc. rewrite maskToPortList_run by apply (sr_ports f d Hr). erewrite bind_run by reflexivity.
      unfold snoopSelected. rewrite bind_gets. destruct Hc as (_ & _ & -> & _). unfold snooped.
      rewrite <- He. unfold interested, everyone, item_entry. simpl. rewrite ports_of_lor, (union_comm_L (ports_of f (holder i))). done. }
    assert ((d_entry d l).1 = ports_of f (requested i)) as E1 by (by rewrite <- He).
    unfold snoop_dir. rewrite E1. destruct (isInvalidate (p_cmd pkt) && _) eqn:Ec; cbn [when_].
    + destruct (put_erase_run l (mkItem (requested i) 0) f1 d Hr1) as (f' & H1 & H2 & H3); [|done|].
      { split; [apply Hi|apply mask_ok_0]. }
      exists f'. rewrite (bind_run _ _ _ _ _ H1). split; [by apply Hend|]. split; [|done].
      unfold item_entry in H2. cbn [requested holder] in H2. by rewrite ports_of_0 in H2.
    + exists f1. split; [by apply (Hend f1)|done].
  - rewrite bind_panic_if by (destruct Hcap as [[? ?]|]; [done|]; simpl; lia).
    assert (d_entry d l = (∅, ∅)) as He by (by apply (untracked f)). exists f. rewrite He.
    rewrite (snooped_nobody f) by set_solver. split; [done|]. split; [|done]. unfold snoop_dir. rewrite He. simpl.
    destruct (_ && _); [|done]. by apply set_entry_same.
Qed.

(** ** Responses *)

Definition snoop_response_dir (pkt : Pkt) (req : SlavePort) (l : Z) (d : Dir) : Dir :=
  if isUncacheable (p_req pkt) || negb (sp_isSnooping req) then d
  else let e := d_entry d l in
       set_entry l (e.1 ∖ {[sp_id req]}, (if hasSharers pkt then e.2 else ∅) ∪ {[sp_id req]}) d.

Lemma response_not_writeback c : isResponse c = true -> isWriteback c = false.
Proof. by destruct c. Qed.

Lemma updateSnoopResponse_run f d pkt rsp req : sf_rel f d -> port_known f rsp -> port_known f req ->
  p_isSet VALID_ADDR pkt = true -> isResponse (p_cmd pkt) = true -> cacheResponding pkt = true ->
  (sp_isSnooping req = true -> isUncacheable (p_req pkt) = false ->
    sp_id rsp ∈ (d_entry d (line_of f pkt)).2 /\ sp_id req ∈ (d_entry d (line_of f pkt)).1) ->
  exists f', updateSnoopResponse pkt rsp req f = Ok (tt, f')
    /\ sf_rel f' (snoop_response_dir pkt req (line_of f pkt) d) /\ same_config f f'.
Proof.
  intros Hr Hkr Hkq Hv Hrs Hcr Hin. set (l := line_of f pkt) in *. unfold updateSnoopResponse, snoop_response_dir.
  rewrite !bind_assert by done. destruct (isUncacheable _); [by exists f|]. destruct (sp_isSnooping req) eqn:Es; [|by exists f].
  destruct (Hin eq_refl eq_refl) as [H1 H2]. simpl. rewrite (bind_run get _ f f f) by done. pose proof (sr_ports f d Hr) as Hp.
  destruct (port_mask f rsp Hp Hkr) as (mr & Hmr), (port_mask f req Hp Hkq) as (mq & Hmq).
  rewrite (bind_run (lift _) _ f l f) by (unfold lift; by rewrite line_addr_run).
  rewrite (bind_run (lift _) _ f mr f) by (unfold lift; by rewrite (im_run _ _ _ Hmr)).
  rewrite (bind_run (lift _) _ f mq f) by (unfold lift; by rewrite (im_run _ _ _ Hmq)). fold (item_at f l).
  pose proof (sr_entry f d Hr l) as He. destruct (item_at_ok f d l Hr) as [Hi1 Hi2].
  rewrite <- He in H1, H2. unfold item_entry in H1, H2. simpl in H1, H2.
  rewrite bind_panic_if by (rewrite (im_land _ _ _ Hmr); by rewrite bool_decide_eq_true_2).
  rewrite bind_panic_if by (rewrite (im_land _ _ _ Hmq); by rewrite bool_decide_eq_true_2).
  rewrite bind_assert by (by rewrite response_not_writeback). set (i := mkItem _ _).
  assert (item_ok f i) as Hi.
  { split; simpl; [by apply mask_ok_ldiff|]. apply mask_ok_lor; [|apply Hmq]. destruct (hasSharers pkt); [done|apply mask_ok_0]. }
  assert (item_entry f i = ((d_entry d l).1 ∖ {[sp_id req]}, (if hasSharers pkt then (d_entry d l).2 else ∅) ∪ {[sp_id req]})) as Ei.
  { rewrite <- He. unfold item_entry, i. simpl. rewrite (im_diff _ _ _ Hmq), ports_of_lor, (im_set _ _ _ Hmq) by done.
    destruct (hasSharers pkt); simpl; [done|by rewrite ports_of_0]. }
  assert (item_entry f i <> (∅, ∅)) as Hne by (rewrite Ei; intros [= _ E]; set_solver).
  rewrite bind_assert by (change (negb (Z.lor (requested i) (holder i) =? 0) = true);
    rewrite (entry_null f i) by done; by rewrite bool_decide_eq_false_2).
  exists (stored l i f). split; [done|]. split; [|done]. rewrite <- Ei. by apply stored_rel.
Qed.

Definition snoop_forward_dir (pkt : Pkt) (l : Z) (d : Dir) : Dir :=
  if hasSharers pkt then d else set_entry l ((d_entry d l).1, ∅) d.

Lemma updateSnoopForward_run f d pkt : sf_rel f d -> p_isSet VALID_ADDR pkt = true -> isResponse (p_cmd pkt) = true ->
  cacheResponding pkt = true -> ~ open_at d (line_of f pkt) ->
  exists f', updateSnoopForward pkt f = Ok (tt, f') /\ sf_rel f' (snoop_forward_dir pkt (line_of f pkt) d) /\ same_config f f'.
Proof.
  intros Hr Hv Hrs Hcr Ho. set (l := line_of f pkt) in *. unfold updateSnoopForward, snoop_forward_dir.
  rewrite !bind_assert by done. rewrite (bind_run get _ f f f) by done.
  rewrite (bind_run (lift _) _ f l f) by (unfold lift; by rewrite line_addr_run).
  destruct (cachedLocations f !! l) as [i|] eqn:Ei.
  - destruct (hasSharers pkt); cbn [negb when_]; [by exists f|]. pose proof (tracked f d l i Hr Ei) as He.
    destruct (put_erase_run l (mkItem (requested i) 0) f d Hr) as (f' & H1 & H2 & H3); [|done|].
    { split; [apply (sr_items f d Hr l i Ei)|apply mask_ok_0]. }
    exists f'. split; [done|]. split; [|done]. rewrite <- He. unfold item_entry in *. cbn in H2 |- *. by rewrite ports_of_0 in H2.
  - exists f. split; [done|]. split; [|done]. destruct (hasSharers pkt); [done|].
    rewrite (untracked f d l) by done. apply set_entry_same; [done|]. by apply (untracked f).
Qed.

Definition response_dir (pkt : Pkt) (sp : SlavePort) (l : Z) (d : Dir) : Dir :=
  let e := d_entry d l in
  if isUncacheable (p_req pkt) || negb (sp_isSnooping sp) || bool_decide (e = (∅, ∅)) then d
  else set_entry l (e.1 ∖ {[sp_id sp]},
         if isCacheMaintenance (p_req pkt) then if isInvalidate (p_cmd pkt) then e.2 ∖ {[sp_id sp]} else e.2
         else e.2 ∪ {[sp_id sp]}) d.

Lemma updateResponse_run f d pkt sp : sf_rel f d -> port_known f sp -> p_isSet VALID_ADDR pkt = true ->
  isResponse (p_cmd pkt) = true -> ~ open_at d (line_of f pkt) ->
  (sp_isSnooping sp = true -> isUncacheable (p_req pkt) = false -> d_entry d (line_of f pkt) <> (∅, ∅) ->
    sp_id sp ∈ (d_entry d (line_of f pkt)).1) ->
  exists f', updateResponse pkt sp f = Ok (tt, f') /\ sf_rel f' (response_dir pkt sp (line_of f pkt) d) /\ same_config f f'.
Proof.
  intros Hr Hk Hv Hrs Ho Hin. set (l := line_of f pkt) in *. unfold updateResponse, response_dir.
  rewrite bind_assert by done. destruct (isUncacheable _); [by exists f|]. destruct (sp_isSnooping sp) eqn:Es; [|by exists f].
  simpl. rewrite (bind_run get _ f f f) by done. rewrite (bind_run (lift _) _ f l f) by (unfold lift; by rewrite line_addr_run).
  destruct (cachedLocations f !! l) as [i|] eqn:Ei; cycle 1.
  { exists f. rewrite (untracked f d l) by done. rewrite bool_decide_eq_true_2 by done. done. }
  pose proof (tracked f d l i Hr Ei) as He. pose proof (sr_items f d Hr l i Ei) as [Hi1 Hi2].
  destruct (port_mask f sp (sr_ports f d Hr) Hk) as (m & Hm).
  assert (d_entry d l <> (∅, ∅)) as Hne by (intros E; apply Ho, (sr_null f d Hr l i); congruence).
  specialize (Hin eq_refl eq_refl Hne). rewrite bool_decide_eq_false_2 by done. rewrite <- He in *.
  unfold item_entry in Hin. simpl in Hin.
  rewrite (bind_run (lift _) _ f m f) by (unfold lift; by rewrite (im_run _ _ _ Hm)).
  rewrite bind_panic_if by (rewrite (im_land _ _ _ Hm); by rewrite bool_decide_eq_true_2).
  destruct (isCacheMaintenance (p_req pkt)).
  - destruct (put_erase_run l (mkItem (Z.ldiff (requested i) m)
      (if isInvalidate (p_cmd pkt) then Z.ldiff (holder i) m else holder i)) f d Hr) as (f' & H1 & H2 & H3); [|done|].
    { split; simpl; [by apply mask_ok_ldiff|]. destruct (isInvalidate _); [by apply mask_ok_ldiff|done]. }
    exists f'. split; [done|]. split; [|done]. unfold item_entry in *. cbn [requested holder fst snd] in H2 |- *. rewrite (im_diff _ _ _ Hm) in H2.
    destruct (isInvalidate _); [by rewrite (im_diff _ _ _ Hm) in H2|done].
  - set (i' := mkItem (Z.ldiff (requested i) m) (Z.lor (holder i) m)).
    assert (item_ok f i') as Hi' by (split; simpl; [by apply mask_ok_ldiff|apply mask_ok_lor; [done|apply Hm]]).
    assert (item_entry f i' = ((item_entry f i).1 ∖ {[sp_id sp]}, (item_entry f i).2 ∪ {[sp_id sp]})) as Ei'.
    { unfold item_entry. simpl. by rewrite (im_diff _ _ _ Hm), ports_of_lor, (im_set _ _ _ Hm). }
    assert (item_entry f i' <> (∅, ∅)) as Hn' by (rewrite Ei'; intros [= _ E]; set_solver).
    rewrite bind_assert by (rewrite Z.lor_comm; change (negb (Z.lor (requested i') (holder i') =? 0) = true);
      rewrite (entry_null f i') by done; by rewrite bool_decide_eq_false_2).
    exists (stored l i' f). split; [done|]. split; [|done]. rewrite <- Ei'. by apply stored_rel.
Qed.

(** ** Runs *)

Inductive sf_op :=
  | FRequest (pkt : Pkt) (sp : SlavePort)
  | FFinish (will_retry : bool) (addr : Z) (is_secure : bool)
  | FSnoop (pkt : Pkt)
  | FSnoopResponse (pkt : Pkt) (rsp req : SlavePort)
  | FSnoopForward (pkt : Pkt)
  | FResponse (pkt : Pkt) (sp : SlavePort).

(** The operation, with the ports it tells the crossbar to snoop. *)
Definition sf_do (op : sf_op) : F (list SlavePort) :=
  match op with
  | FRequest pkt sp => r ← lookupRequest pkt sp; mret r.1
  | FFinish w a s => finishRequest w a s;; mret []
  | FSnoop pkt => r ← lookupSnoop pkt; mret r.1
  | FSnoopResponse pkt rsp req => updateSnoopResponse pkt rsp req;; mret []
  | FSnoopForward pkt => updateSnoopForward pkt;; mret []
  | FResponse pkt sp => updateResponse pkt sp;; mret []
  end.

(** The same operation of the directory. *)
Definition dir_do (f : SnoopFilter) (op : sf_op) (d : Dir) : Dir :=
  match op with
  | FRequest pkt sp => request_dir pkt sp (line_of f pkt) d
  | FFinish w _ _ => finish_dir w d
  | FSnoop pkt => snoop_dir pkt (line_of f pkt) d
  | FSnoopResponse pkt _ req => snoop_response_dir pkt req (line_of f pkt) d
  | FSnoopForward pkt => snoop_forward_dir pkt (line_of f pkt) d
  | FResponse pkt sp => response_dir pkt sp (line_of f pkt) d
  end.
Definition dir_answer (f : SnoopFilter) (op : sf_op) (d : Dir) : gset nat :=
  match op with
  | FRequest pkt sp => everyone (d_entry d (line_of f pkt)) ∖ {[sp_id sp]}
  | FSnoop pkt => everyone (d_entry d (line_of f pkt))
  | _ => ∅
  end.

(** The protocol of the crossbar and the caches above it. *)
Definition op_ok (f : SnoopFilter) (op : sf_op) (d : Dir) : Prop :=
  match op with
  | FRequest pkt sp =>
      d_undo d = None /\ port_known f sp /\ p_isSet VALID_ADDR pkt = true
      /\ (allocates pkt sp = true -> track_ok pkt (sp_id sp) (d_entry d (line_of f pkt)))
  | FFinish _ a s => d_undo d <> None /\ forall l e, d_undo d = Some (Some (l, e)) -> l = addr_line f a s
  | FSnoop pkt => ~ open_at d (line_of f pkt) /\ snoop_ok f pkt
  | FSnoopResponse pkt rsp req =>
      ~ open_at d (line_of f pkt) /\ port_known f rsp /\ port_known f req /\ p_isSet VALID_ADDR pkt = true
      /\ isResponse (p_cmd pkt) = true /\ cacheResponding pkt = true
      /\ (sp_isSnooping req = true -> isUncacheable (p_req pkt) = false ->
          sp_id rsp ∈ (d_entry d (line_of f pkt)).2 /\ sp_id req ∈ (d_entry d (line_of f pkt)).1)
  | FSnoopForward pkt =>
      ~ open_at d (line_of f pkt) /\ p_isSet VALID_ADDR pkt = true
      /\ isResponse (p_cmd pkt) = true /\ cacheResponding pkt = true
  | FResponse pkt sp =>
      ~ open_at d (line_of f pkt) /\ port_known f sp /\ p_isSet VALID_ADDR pkt = true /\ isResponse (p_cmd pkt) = true
      /\ (sp_isSnooping sp = true -> isUncacheable (p_req pkt) = false -> d_entry d (line_of f pkt) <> (∅, ∅) ->
          sp_id sp ∈ (d_entry d (line_of f pkt)).1)
  end.

Lemma sf_do_refines f d op : sf_rel f d -> op_ok f op d ->
  exists f', sf_do op f = Ok (snooped f (dir_answer f op d), f') /\ sf_rel f' (dir_do f op d) /\ same_config f f'.
Proof.
  intros Hr Hok. destruct op as [pkt sp|w a s|pkt|pkt rsp req|pkt|pkt sp]; simpl; rewrite ?(snooped_nobody f ∅) by done.
  - destruct Hok as (H1 & H2 & H3 & H4). destruct (lookupRequest_run f d pkt sp Hr H1 H2 H3 H4) as (f' & E & H).
    exists f'. rewrite (bind_run _ _ _ _ _ E). done.
  - destruct Hok as [H1 H2]. destruct (finishRequest_run f d w a s Hr H1 H2) as (f' & E & H).
    exists f'. rewrite (bind_run _ _ _ _ _ E). done.
  - destruct Hok as [H1 H2]. destruct (lookupSnoop_run f d pkt Hr H1 H2) as (f' & E & H).
    exists f'. rewrite (bind_run _ _ _ _ _ E). done.
  - destruct Hok as (_ & H1 & H2 & H3 & H4 & H5 & H6).
    destruct (updateSnoopResponse_run f d pkt rsp req Hr H1 H2 H3 H4 H5 H6) as (f' & E & H).
    exists f'. rewrite (bind_run _ _ _ _ _ E). done.
  - destruct Hok as (H1 & H2 & H3 & H4). destruct (updateSnoopForward_run f d pkt Hr H2 H3 H4 H1) as (f' & E & H).
    exists f'. rewrite (bind_run _ _ _ _ _ E). done.
  - destruct Hok as (H1 & H2 & H3 & H4 & H5). destruct (updateResponse_run f d pkt sp Hr H2 H3 H4 H1 H5) as (f' & E & H).
    exists f'. rewrite (bind_run _ _ _ _ _ E). done.
Qed.

(** Undoing a request gives back the directory it found. *)
Lemma request_undo pkt sp l d l' e : d_undo (request_dir pkt sp l d) = Some (Some (l', e)) -> l' = l /\ e = d_entry d l.
Proof. unfold request_dir. case_match; simpl; [by intros [= <- <-]|]. case_decide; by intros [= <- <-]. Qed.

Lemma retry_undoes pkt sp l d : d_undo d = None ->
  let d' := finish_dir true (request_dir pkt sp l d) in d_undo d' = None /\ forall l', d_entry d' l' = d_entry d l'.
Proof.
  intros Hu d'. unfold d', finish_dir. destruct (d_undo (request_dir pkt sp l d)) as [[[l2 e2]|]|] eqn:E.
  - apply request_undo in E as [-> ->]. split; [done|]. intros l'. simpl. case_decide; [by subst|].
    unfold request_dir. destruct (allocates pkt sp); simpl; [by rewrite decide_False|done].
  - split; [done|]. intros l'. unfold request_dir in *. by destruct (allocates pkt sp).
  - unfold request_dir in E. by destruct (allocates pkt sp).
Qed.

Lemma same_dir f d d' : sf_rel f d -> d_undo d' = d_undo d -> (forall l, d_entry d' l = d_entry d l) -> sf_rel f d'.
Proof.
  intros [H1 H2 H3 H4 H5 H6] Hu He. split; try done; [intros l; by rewrite He| |by rewrite Hu].
  intros l i E1 E2. destruct (H5 l i E1 E2) as [e E]. exists e. congruence.
Qed.

(** C23: the snoop filter is a directory: every operation that respects the
    protocol succeeds, changes the sets of requesters and holders of its line as
    the directory does and no other line, leaves the snoop to exactly the ports
    that have a request in flight or may hold the line (the requester left out),
    and a request that must be retried leaves no trace. *)
Theorem snoop_filter_refines f d op : sf_rel f d -> op_ok f op d ->
  exists f', sf_do op f = Ok (snooped f (dir_answer f op d), f') /\ sf_rel f' (dir_do f op d)
    /\ (forall pkt sp a s, op = FRequest pkt sp -> addr_line f a s = line_of f pkt ->
        exists f'', sf_do (FFinish true a s) f' = Ok ([], f'') /\ sf_rel f'' d).
Proof.
  intros Hr Hok. destruct (sf_do_refines f d op Hr Hok) as (f' & H1 & H2 & H3). exists f'. split; [done|]. split; [done|].
  intros pkt sp a s -> Ea. destruct Hok as (Hu & _). simpl in H2. set (l := line_of f pkt) in *.
  assert (addr_line f' a s = l) as El by (destruct H3 as (_ & E & _); unfold addr_line in *; by rewrite E).
  destruct (sf_do_refines f' (request_dir pkt sp l d) (FFinish true a s) H2) as (f2 & H4 & H5 & _).
  { split; [unfold request_dir; by destruct (allocates pkt sp)|]. intros l' e E. apply request_undo in E as [-> _]. done. }
  exists f2. split; [rewrite H4; by rewrite snooped_nobody|]. destruct (retry_undoes pkt sp l d Hu) as [E1 E2].
  apply (same_dir _ _ _ H5); [simpl; congruence|]. intros l'. by rewrite <- E2.
Qed.

(** ** Setting up *)

Lemma assign_ports_run ports S L : NoDup (sp_id <$> S ++ ports) -> Forall (fun p => (sp_id p < length L)%nat) ports ->
  (forall i sp, S !! i = Some sp -> sp_isSnooping sp = true /\ L !! sp_id sp = Some (Z.of_nat i)) ->
  exists S' L', assign_ports ports (Z.of_nat (length S)) S L = Ok (Z.of_nat (length S'), S', L')
    /\ S' = S ++ filter (fun p => sp_isSnooping p = true) ports
    /\ forall i sp, S' !! i = Some sp -> sp_isSnooping sp = true /\ L' !! sp_id sp = Some (Z.of_nat i).
Proof.
  revert S L. induction ports as [|p ports IH]; intros S L Hn Hl Hs; simpl.
  { exists S, L. by rewrite app_nil_r. }
  apply Forall_cons in Hl as [Hp Hl]. rewrite filter_cons. destruct (sp_isSnooping p) eqn:Esn.
  - rewrite bool_decide_eq_true_2, decide_True by done.
    destruct (IH (S ++ [p]) (<[sp_id p := Z.of_nat (length S)]> L)) as (S' & L' & E1 & E2 & E3).
    + by rewrite <- app_assoc.
    + eapply Forall_impl; [exact Hl|]. simpl. intros q. by rewrite length_insert.
    + intros i sp [Hi|[Hi Ei]]%lookup_app_Some.
      * destruct (Hs i sp Hi) as [Ha Hb]. split; [done|]. rewrite list_lookup_insert_ne; [done|]. intros E.
        rewrite fmap_app, fmap_cons in Hn. apply NoDup_app in Hn as (_ & Hn & _). apply (Hn (sp_id p)); [|set_solver].
        rewrite E. apply list_elem_of_fmap_2. by apply list_elem_of_lookup_2 in Hi.
      * apply list_lookup_singleton_Some in Ei as [E0 <-]. split; [done|]. rewrite list_lookup_insert_eq by done. f_equal. lia.
    + exists S', L'. rewrite length_app in E1. simpl in E1. rewrite Nat2Z.inj_add in E1. split; [done|]. split; [|done].
      by rewrite E2, <- app_assoc.
  - rewrite decide_False by congruence. destruct (IH S L) as (S' & L' & E1 & E2 & E3); [|done|done|by exists S', L'].
    rewrite fmap_app, fmap_cons in Hn. rewrite fmap_app. by apply NoDup_app_cons_middle, NoDup_cons in Hn as [_ ?].
Qed.

Definition dir0 : Dir := mkDir (fun _ => (∅, ∅)) None.

(** The ports of a crossbar, numbered from 0. *)
Lemma setSlavePorts_run ports ls lat cap : sp_id <$> ports = seq 0 (length ports) ->
  (length (filter (fun p => sp_isSnooping p = true) ports) <= 256)%nat ->
  exists f, setSlavePorts ports (new_SnoopFilter ls lat cap) = Ok (tt, f) /\ sf_rel f dir0
    /\ (forall p, p ∈ ports -> port_known f p)
    /\ linesize f = ls /\ maxEntryCount f = cap / ls.
Proof.
  intros Hids Hlen. unfold setSlavePorts. rewrite (bind_run get _ _ _ _ eq_refl). simpl.
  rewrite take_nil, app_nil_l, Nat.sub_0_r.
  destruct (assign_ports_run ports [] (replicate (length ports) InvalidPortID)) as (S & L & E1 & E2 & E3); [|..|done|].
  - rewrite app_nil_l, Hids. apply NoDup_seq.
  - apply Forall_forall. intros p Hp. rewrite length_replicate.
    assert (sp_id p ∈ sp_id <$> ports) as Hin by (by apply list_elem_of_fmap_2). rewrite Hids in Hin. apply elem_of_seq in Hin. lia.
  - simpl in E2. change (Z.of_nat (length [])) with 0 in E1. erewrite (bind_run (lift _)) by (rewrite E1; reflexivity). cbv beta iota. rewrite bind_modify.
    set (f := set_ports _ _ _). exists f. split.
    { unfold fatal_if, SNOOP_MASK_SIZE. rewrite (proj2 (Z.ltb_ge 256 _)) by (rewrite E2; lia). done. }
    assert (ports_wf f) as Hwf by (split; [exact E3|simpl; by rewrite E2]).
    split; [|split; [|done]].
    + split; try done; [split; apply mask_ok_0|]. intros l. unfold item_at. simpl. rewrite lookup_empty. apply null_entry.
    + intros p Hp. unfold port_known. simpl. rewrite E2. destruct (sp_isSnooping p) eqn:Ep; [by apply list_elem_of_filter|].
      intros q [Hq Hin]%list_elem_of_filter E. apply list_elem_of_lookup in Hp as [i Hi], Hin as [j Hj].
      assert (forall k r, ports !! k = Some r -> sp_id r = k) as Hk.
      { intros k r Hkr. assert ((sp_id <$> ports) !! k = Some (sp_id r)) as H by (by rewrite list_lookup_fmap, Hkr).
        rewrite Hids in H. apply lookup_seq in H as [? _]. lia. }
      assert (i = j) as -> by (by rewrite <- (Hk i p Hi), <- (Hk j q Hj)). congruence.
Qed.

(** ** Nobody is forgotten *)

Inductive sf_trace : SnoopFilter -> Dir -> list sf_op -> SnoopFilter -> Dir -> Prop :=
  | st_nil f d : sf_trace f d [] f d
  | st_cons f d op r f1 ops f2 d2 : op_ok f op d -> sf_do op f = Ok (r, f1) ->
      sf_trace f1 (dir_do f op d) ops f2 d2 -> sf_trace f d (op :: ops) f2 d2.

Lemma trace_rel f d ops f' d' : sf_trace f d ops f' d' -> sf_rel f d -> sf_rel f' d' /\ same_config f f'.
Proof.
  induction 1 as [|f d op r f1 ops f2 d2 Hok Hrun _ IH]; intros Hr; [done|].
  destruct (sf_do_refines f d op Hr Hok) as (f' & H1 & H2 & H3). rewrite Hrun in H1. simplify_eq.
  destruct (IH H2) as [H4 H5]. split; [done|]. unfold same_config in *. naive_solver congruence.
Qed.

(** The messages after which port [p] need not have line [l] any more. *)
Definition gives_up (f : SnoopFilter) (p : nat) (l : Z) (op : sf_op) : bool :=
  match op with
  | FRequest pkt sp => bool_decide (line_of f pkt = l) && bool_decide (sp_id sp = p)
      && negb (needsResponse (p_cmd pkt)) && negb (isBlockCached pkt)
  | FFinish _ _ _ => false
  | FSnoop pkt => bool_decide (line_of f pkt = l) && isInvalidate (p_cmd pkt)
  | FSnoopResponse pkt _ _ | FSnoopForward pkt => bool_decide (line_of f pkt = l) && negb (hasSharers pkt)
  | FResponse pkt sp => bool_decide (line_of f pkt = l) && bool_decide (sp_id sp = p) && isCacheMaintenance (p_req pkt)
  end.

Definition concerns (p : nat) (l : Z) (d : Dir) : Prop :=
  p ∈ everyone (d_entry d l) /\ forall e, d_undo d = Some (Some (l, e)) -> p ∈ everyone e.

Lemma track_concerns pkt q p e : p ∈ everyone e ->
  (q = p -> needsResponse (p_cmd pkt) = false -> isBlockCached pkt = true) -> p ∈ everyone (track_entry pkt q e).
Proof.
  unfold everyone, track_entry. intros Hp Hk. destruct (needsResponse _); [destruct (cacheResponding _); set_solver|].
  destruct (isBlockCached pkt); [done|]. simpl. destruct (decide (q = p)) as [E|]; [by specialize (Hk E eq_refl)|set_solver].
Qed.

Lemma dir_concerns f p l op d : op_ok f op d -> gives_up f p l op = false -> concerns p l d -> concerns p l (dir_do f op d).
Proof.
  intros Hok Hg Hc. pose proof Hc as [Hp Hu]. destruct op as [pkt sp|w a s|pkt|pkt rsp req|pkt|pkt sp]; simpl in *.
  - unfold request_dir. destruct (allocates pkt sp); split; simpl.
    + destruct (decide (l = line_of f pkt)) as [E|E]; [|done]. apply track_concerns; [by rewrite <- E|]. intros E' En.
      rewrite !bool_decide_eq_true_2, En in Hg by done. simpl in Hg. by apply negb_false_iff.
    + by intros e [= <- <-].
    + done.
    + intros e. destruct (decide (d_entry d (line_of f pkt) = (∅, ∅))); [done|by intros [= <- <-]].
  - unfold finish_dir. destruct (d_undo d) as [[[l' e]|]|] eqn:E; [|done|done]. split; [|done].
    destruct w; simpl; [|done]. case_decide as E'; [|done]. subst. by apply Hu.
  - unfold snoop_dir. destruct (isInvalidate _ && bool_decide (_ = ∅)) eqn:Ec; [|done]. split; [|done]. simpl. destruct (decide (l = line_of f pkt)) as [E|E]; [|done].
    apply andb_true_iff in Ec as [Ec _]. rewrite bool_decide_eq_true_2, Ec in Hg by done. done.
  - unfold snoop_response_dir. destruct (isUncacheable _ || _); [done|]. split; [|done]. simpl. destruct (decide (l = line_of f pkt)) as [E|E]; [|done].
    rewrite bool_decide_eq_true_2 in Hg by done. apply negb_false_iff in Hg. rewrite Hg, <- E. unfold everyone in *. simpl.
    destruct (decide (p = sp_id req)); set_solver.
  - unfold snoop_forward_dir. destruct (hasSharers pkt); [done|]. split; [|done]. simpl. destruct (decide (l = line_of f pkt)) as [E|E]; [|done].
    rewrite bool_decide_eq_true_2 in Hg by done. done.
  - unfold response_dir. destruct (isUncacheable _ || _ || _); [done|]. split; [|done]. simpl. destruct (decide (l = line_of f pkt)) as [E|E]; [|done].
    rewrite bool_decide_eq_true_2 in Hg by done. simpl in Hg. rewrite <- E. unfold everyone in *. simpl.
    destruct (decide (p = sp_id sp)) as [->|Hne].
    + rewrite bool_decide_eq_true_2 in Hg by done. simpl in Hg. rewrite Hg. set_solver.
    + destruct (isCacheMaintenance _); [destruct (isInvalidate _)|]; set_solver.
Qed.

Lemma trace_concerns f d ops f' d' p l : sf_trace f d ops f' d' -> sf_rel f d ->
  Forall (fun op => gives_up f p l op = false) ops -> concerns p l d -> concerns p l d'.
Proof.
  induction 1 as [|f d op r f1 ops f2 d2 Hok Hrun Ht IH]; intros Hr Hall Hc; [done|]. apply Forall_cons in Hall as [Ho Hall].
  destruct (sf_do_refines f d op Hr Hok) as (f' & H1 & H2 & H3). rewrite Hrun in H1. simplify_eq.
  apply IH; [done| |by apply dir_concerns]. eapply Forall_impl; [exact Hall|]. intros o. destruct H3 as (_ & E & _).
  unfold gives_up, line_of. by rewrite E.
Qed.

(** A request the filter tracks: of a cache, and to be answered. *)
Definition fetches (pkt : Pkt) (sp : SlavePort) : bool :=
  allocates pkt sp && needsResponse (p_cmd pkt) && negb (cacheResponding pkt).

Lemma trace_app f d ops1 ops2 f2 d2 : sf_trace f d (ops1 ++ ops2) f2 d2 ->
  exists f1 d1, sf_trace f d ops1 f1 d1 /\ sf_trace f1 d1 ops2 f2 d2.
Proof.
  revert f d. induction ops1 as [|op ops1 IH]; intros f d H; [exists f, d; split; [constructor|done]|].
  inversion H as [|? ? ? r f1 ? ? ? Hok Hrun Ht]; subst. destruct (IH _ _ Ht) as (f' & d' & H1 & H2).
  exists f', d'. split; [by econstructor|done].
Qed.

Lemma request_concerns f d pkt sp w a s f2 d2 : sf_rel f d -> fetches pkt sp = true ->
  sf_trace f d [FRequest pkt sp; FFinish w a s] f2 d2 -> w = false -> concerns (sp_id sp) (line_of f pkt) d2.
Proof.
  intros Hr Hf Ht ->. inversion Ht as [|? ? ? r f1 ? ? ? Hok Hrun Ht1]; subst.
  inversion Ht1 as [|? ? ? r1 f3 ? ? ? Hok1 Hrun1 Ht2]; subst. inversion Ht2; subst. simpl.
  unfold fetches in Hf. apply andb_true_iff in Hf as [[Ha Hn]%andb_true_iff Hc%negb_true_iff].
  unfold request_dir, finish_dir. rewrite Ha. simpl. split; [|done]. simpl. rewrite decide_True by done.
  unfold everyone, track_entry. rewrite Hn, Hc. set_solver.
Qed.

(** C24: no false negatives.  Once the request of a cache for a line has gone
    out, the port of that cache is snooped by every later request of another
    port for the line and by every snoop of it from below, whatever happened in
    between, as long as no message said that the cache may have lost the line:
    its own eviction, an invalidating snoop, a snoop response without sharers, or
    the response to its cache maintenance. *)
Theorem snoop_no_false_negative ports ls lat cap f0 pre post pkt sp a s f d :
  sp_id <$> ports = seq 0 (length ports) ->
  (length (filter (fun p => sp_isSnooping p = true) ports) <= 256)%nat ->
  setSlavePorts ports (new_SnoopFilter ls lat cap) = Ok (tt, f0) ->
  sf_trace f0 dir0 (pre ++ [FRequest pkt sp; FFinish false a s] ++ post) f d ->
  sp ∈ ports -> fetches pkt sp = true -> Forall (fun op => gives_up f0 (sp_id sp) (line_of f0 pkt) op = false) post ->
  forall op, op_ok f op d ->
    match op with
    | FRequest pkt' sp' => line_of f pkt' = line_of f0 pkt /\ sp_id sp' <> sp_id sp
    | FSnoop pkt' => line_of f pkt' = line_of f0 pkt
    | _ => False
    end ->
    exists snoops f', sf_do op f = Ok (snoops, f') /\ sp ∈ snoops.
Proof.
  intros Hids Hlen H0 Ht Hsp Hf Hpost op Hok Hop.
  destruct (setSlavePorts_run ports ls lat cap Hids Hlen) as (f0' & E0 & Hr0 & Hknown & _). rewrite H0 in E0. simplify_eq.
  apply trace_app in Ht as (f1 & d1 & Ht1 & Ht). apply trace_app in Ht as (f2 & d2 & Ht2 & Ht3).
  destruct (trace_rel _ _ _ _ _ Ht1 Hr0) as [Hr1 C1]. destruct (trace_rel _ _ _ _ _ Ht2 Hr1) as [Hr2 C2].
  destruct (trace_rel _ _ _ _ _ Ht3 Hr2) as [Hr C3].
  assert (forall g, linesize g = linesize f0' -> forall q, line_of g q = line_of f0' q) as Hline.
  { intros g E q. unfold line_of. by rewrite E. }
  assert (linesize f1 = linesize f0') as L1 by apply C1.
  assert (linesize f2 = linesize f0') as L2 by (destruct C2 as (_ & -> & _); done).
  assert (concerns (sp_id sp) (line_of f0' pkt) d) as [Hc _].
  { apply (trace_concerns f2 d2 post f d); [done|done| |].
    - eapply Forall_impl; [exact Hpost|]. intros o. unfold gives_up. destruct o; by rewrite ?(Hline f2 L2).
    - rewrite <- (Hline f1 L1). by apply (request_concerns f1 d1 pkt sp false a s f2 d2). }
  destruct (sf_do_refines f d op Hr Hok) as (f' & Hrun & _). eexists _, f'. split; [exact Hrun|].
  assert (sp ∈ sf_slavePorts f) as Hin.
  { pose proof (Hknown sp Hsp) as Hk. unfold port_known in Hk. unfold fetches, allocates in Hf.
    destruct (sp_isSnooping sp); [|by rewrite andb_false_r in Hf].
    destruct C1 as (E1 & _), C2 as (E2 & _), C3 as (E3 & _). by rewrite E3, E2, E1. }
  apply list_elem_of_filter. split; [|done].
  destruct op; try done; simpl; [destruct Hop as [-> Hne]|rewrite Hop]; set_solver.
Qed.

(** ** A run *)

(** Two caches and a port that does not snoop. *)
Definition demo_ports : list SlavePort := [mkSlavePort 0 true; mkSlavePort 1 false; mkSlavePort 2 true].
Definition demo_sf : SnoopFilter :=
  match setSlavePorts demo_ports (new_SnoopFilter 64 1 4096) with Ok (_, f) => f | Err _ => new_SnoopFilter 64 1 4096 end.
Definition demo_fetch : Pkt := demo_pkt ReadSharedReq [0; 0; 0; 0].
Definition demo_fetch_resp : Pkt := demo_pkt ReadResp [1; 2; 3; 4].
Definition demo_cache (n : nat) : SlavePort := mkSlavePort n true.
Definition sf_after (op : sf_op) (f : SnoopFilter) : SnoopFilter := match sf_do op f with Ok (_, f') => f' | Err _ => f end.
Definition demo_sf1 : SnoopFilter := sf_after (FRequest demo_fetch (demo_cache 0)) demo_sf.
Definition demo_sf2 : SnoopFilter := sf_after (FFinish false 0x1004 false) demo_sf1.
Definition demo_sf3 : SnoopFilter := sf_after (FResponse demo_fetch_resp (demo_cache 0)) demo_sf2.

Lemma demo_known f : sf_slavePorts f = [demo_cache 0; demo_cache 2] ->
  port_known f (demo_cache 0) /\ port_known f (demo_cache 2).
Proof. intros E. unfold port_known. simpl. rewrite E. set_solver. Qed.

Lemma demo_sf_rel : sf_rel demo_sf dir0.
Proof.
  destruct (setSlavePorts_run demo_ports 64 1 4096) as (f & E & Hr & _); [done|by vm_compute; lia|].
  unfold demo_sf. by rewrite E.
Qed.
Lemma demo_fetch_ok : op_ok demo_sf (FRequest demo_fetch (demo_cache 0)) dir0.
Proof.
  split; [done|]. split; [by apply demo_known|]. split; [done|]. intros _. unfold track_ok.
  change (needsResponse (p_cmd demo_fetch)) with true. change (cacheResponding demo_fetch) with false. simpl. set_solver.
Qed.

Lemma snoop_filter_refines_witness :
  exists f', sf_do (FRequest demo_fetch (demo_cache 0)) demo_sf = Ok ([], f')
    /\ exists f'', sf_do (FFinish true 0x1004 false) f' = Ok ([], f'') /\ cachedLocations f'' = ∅.
Proof.
  destruct (snoop_filter_refines demo_sf dir0 _ demo_sf_rel demo_fetch_ok) as (f' & H1 & _ & H3).
  exists f'. split; [rewrite H1; by vm_compute|].
  destruct (H3 demo_fetch (demo_cache 0) 0x1004 false eq_refl) as (f'' & H4 & H5); [by vm_compute|].
  exists f''. split; [exact H4|]. apply map_empty. intros l. destruct (cachedLocations f'' !! l) as [i|] eqn:E; [|done].
  destruct (sr_null f'' dir0 H5 l i E) as [e He]; [|done].
  rewrite (tracked f'' dir0 l i H5 E). done.
Defined.

Lemma demo_trace : exists d, sf_trace demo_sf dir0
    ([] ++ [FRequest demo_fetch (demo_cache 0); FFinish false 0x1004 false] ++ [FResponse demo_fetch_resp (demo_cache 0)])
    demo_sf3 d /\ d_undo d = None /\ d_entry d (line_of demo_sf demo_fetch) = (∅, {[0%nat]}).
Proof.
  eexists. split; [|split].
  - eapply (st_cons demo_sf dir0 _ _ demo_sf1); [apply demo_fetch_ok|by vm_compute|].
    eapply (st_cons demo_sf1 _ _ _ demo_sf2); [|by vm_compute|].
    { split; [by vm_compute|]. intros l e E. vm_compute in E. simplify_eq. by vm_compute. }
    eapply (st_cons demo_sf2 _ _ _ demo_sf3); [|by vm_compute|apply st_nil].
    split; [intros [e E]; vm_compute in E; discriminate|]. split; [by apply demo_known|]. split; [done|]. split; [done|].
    intros _ _ _. apply (bool_decide_unpack _). by vm_compute.
  - by vm_compute.
  - by vm_compute.
Qed.

Lemma snoop_no_false_negative_witness :
  exists snoops f', sf_do (FRequest demo_fetch (demo_cache 2)) demo_sf3 = Ok (snoops, f') /\ demo_cache 0 ∈ snoops.
Proof.
  destruct demo_trace as (d & Ht & Hu & He).
  refine (snoop_no_false_negative demo_ports 64 1 4096 demo_sf [] [FResponse demo_fetch_resp (demo_cache 0)] demo_fetch
    (demo_cache 0) 0x1004 false demo_sf3 d _ _ _ Ht _ _ _ (FRequest demo_fetch (demo_cache 2)) _ _).
  - done.
  - vm_compute. lia.
  - by vm_compute.
  - by left.
  - by vm_compute.
  - repeat constructor.
  - split; [done|]. split; [by apply demo_known|]. split; [done|]. intros _. unfold track_ok.
    change (line_of demo_sf3 demo_fetch) with (line_of demo_sf demo_fetch). rewrite He.
    change (needsResponse (p_cmd demo_fetch)) with true. change (cacheResponding demo_fetch) with false. simpl. set_solver.
  - split; [by vm_compute|done].
Defined.

(** ** The capacity check *)

(** A filter may fill up to its capacity, since requests are not checked; then a
    snoop that misses, which allocates nothing, ends the simulation. *)
Definition full_sf : SnoopFilter :=
  match setSlavePorts demo_ports (new_SnoopFilter 64 1 64) with Ok (_, f) => f | Err _ => new_SnoopFilter 64 1 64 end.
Definition other_snoop : Pkt := p_set DYNAMIC_DATA (set_p_data (Some [0; 0; 0; 0])
  (new_Pkt 2 (new_Request_phys 0 0x2000 4 0 3) ReadSharedReq)).

Theorem full_filter_panics_on_miss :
  exists f, sf_do (FRequest demo_fetch (demo_cache 0)) full_sf = Ok ([], f)
    /\ Z.of_nat (size (cachedLocations f)) = maxEntryCount f
    /\ sf_do (FSnoop other_snoop) f = Err (EPanic "snoop filter exceeded capacity").
Proof. eexists. split; [by vm_compute|]. split; by vm_compute. Qed.
