(* ===== verification/Bridge.v ===== *)
(** * Bridges (mem/bridge.hh, mem/bridge.cc)

    A bridge joins two crossbars: requests that reach its slave port are queued
    and sent from its master port a fixed number of cycles later, responses
    travel back the same way.  A request that wants a response reserves a place
    in the response queue.  What the other sides do is an argument: whether a
    packet is taken, and the requests that arrive while the master above is told
    to retry.  Neighbours are assumed not to call back from inside a send.
    [br_reqs] .. [br_resps_sent] record the traffic, [br_refused] and
    [br_retries] the stalled requests, [br_reqOwed] and [br_respOwed] that a peer has
    refused a packet and owes a retry. *)

From S2P Require Import Prelude IntMath Clocked AddrRange EventSched Packet Request PacketData PacketQueue.

Inductive BridgeEvent := SlaveSend | MasterSend.
#[global] Instance BridgeEvent_eq_dec : EqDecision BridgeEvent.
Proof. solve_decision. Defined.
#[global] Instance BridgeEvent_countable : Countable BridgeEvent.
Proof.
  refine (inj_countable' (fun e => match e with SlaveSend => true | MasterSend => false end)
    (fun b => if b then SlaveSend else MasterSend) _). by intros [].
Defined.

Record BridgeSlavePort := mkBS {
  bs_transmitList : list DeferredPacket;
  outstandingResponses : Z;
  retryReq : bool;
  respQueueLimit : Z;
  bs_ranges : list AddrRange
}.
Record BridgeMasterPort := mkBM {
  bm_transmitList : list DeferredPacket;
  reqQueueLimit : Z
}.
Record Bridge := mkBridge {
  slavePort : BridgeSlavePort;
  masterPort : BridgeMasterPort;
  br_delay : Z;                        (* cycles *)
  br_period : Z;
  br_clock : Clocked;
  br_sched : Sched BridgeEvent;
  br_reqs : list Pkt; br_reqs_sent : list Pkt;
  br_resps : list Pkt; br_resps_sent : list Pkt;
  br_refused : nat; br_retries : nat;
  br_reqOwed : bool; br_respOwed : bool     (* the peer has refused a packet and owes a retry *)
}.
Abbreviation B := (M Bridge).

Definition set_slavePort (s : BridgeSlavePort) (b : Bridge) : Bridge :=
  mkBridge s (masterPort b) (br_delay b) (br_period b) (br_clock b) (br_sched b) (br_reqs b) (br_reqs_sent b)
    (br_resps b) (br_resps_sent b) (br_refused b) (br_retries b) (br_reqOwed b) (br_respOwed b).
Definition set_masterPort (m : BridgeMasterPort) (b : Bridge) : Bridge :=
  mkBridge (slavePort b) m (br_delay b) (br_period b) (br_clock b) (br_sched b) (br_reqs b) (br_reqs_sent b)
    (br_resps b) (br_resps_sent b) (br_refused b) (br_retries b) (br_reqOwed b) (br_respOwed b).
Definition set_br_clock (c : Clocked) (b : Bridge) : Bridge :=
  mkBridge (slavePort b) (masterPort b) (br_delay b) (br_period b) c (br_sched b) (br_reqs b) (br_reqs_sent b)
    (br_resps b) (br_resps_sent b) (br_refused b) (br_retries b) (br_reqOwed b) (br_respOwed b).
Definition set_br_sched (s : Sched BridgeEvent) (b : Bridge) : Bridge :=
  mkBridge (slavePort b) (masterPort b) (br_delay b) (br_period b) (br_clock b) s (br_reqs b) (br_reqs_sent b)
    (br_resps b) (br_resps_sent b) (br_refused b) (br_retries b) (br_reqOwed b) (br_respOwed b).
Definition log_reqs (i o : list Pkt) (b : Bridge) : Bridge :=
  mkBridge (slavePort b) (masterPort b) (br_delay b) (br_period b) (br_clock b) (br_sched b)
    (br_reqs b ++ i) (br_reqs_sent b ++ o) (br_resps b) (br_resps_sent b) (br_refused b) (br_retries b) (br_reqOwed b) (br_respOwed b).
Definition log_resps (i o : list Pkt) (b : Bridge) : Bridge :=
  mkBridge (slavePort b) (masterPort b) (br_delay b) (br_period b) (br_clock b) (br_sched b) (br_reqs b) (br_reqs_sent b)
    (br_resps b ++ i) (br_resps_sent b ++ o) (br_refused b) (br_retries b) (br_reqOwed b) (br_respOwed b).
Definition log_stall (r t : nat) (b : Bridge) : Bridge :=
  mkBridge (slavePort b) (masterPort b) (br_delay b) (br_period b) (br_clock b) (br_sched b) (br_reqs b) (br_reqs_sent b)
    (br_resps b) (br_resps_sent b) (br_refused b + r) (br_retries b + t) (br_reqOwed b) (br_respOwed b).
Definition log_owed (q r : bool) (b : Bridge) : Bridge :=
  mkBridge (slavePort b) (masterPort b) (br_delay b) (br_period b) (br_clock b) (br_sched b) (br_reqs b) (br_reqs_sent b)
    (br_resps b) (br_resps_sent b) (br_refused b) (br_retries b) q r.
Definition upd_slave (f : BridgeSlavePort -> BridgeSlavePort) : B unit :=
  modify (fun b => set_slavePort (f (slavePort b)) b).
Definition upd_master (f : BridgeMasterPort -> BridgeMasterPort) : B unit :=
  modify (fun b => set_masterPort (f (masterPort b)) b).
Definition set_bs_list (l : list DeferredPacket) (s : BridgeSlavePort) : BridgeSlavePort :=
  mkBS l (outstandingResponses s) (retryReq s) (respQueueLimit s) (bs_ranges s).
Definition set_outstanding (n : Z) (s : BridgeSlavePort) : BridgeSlavePort :=
  mkBS (bs_transmitList s) n (retryReq s) (respQueueLimit s) (bs_ranges s).
Definition set_retryReq (r : bool) (s : BridgeSlavePort) : BridgeSlavePort :=
  mkBS (bs_transmitList s) (outstandingResponses s) r (respQueueLimit s) (bs_ranges s).
Definition set_bm_list (l : list DeferredPacket) (m : BridgeMasterPort) : BridgeMasterPort := mkBM l (reqQueueLimit m).

Definition br_now (b : Bridge) : Z := s_now (br_sched b).
Definition br_schedule (e : BridgeEvent) (when : Z) : B unit := fun b =>
  match s_schedule e when (br_sched b) with Ok (_, s) => Ok (tt, set_br_sched s b) | Err e => Err e end.
Definition br_clockEdge (cycles : Z) : B Z :=
  b ← get;
  let '(t, c) := clockEdge (br_now b) (br_period b) cycles (br_clock b) in
  modify (set_br_clock c);; mret t.

(** [delay], [resp_size], [req_size]: parameters; the limits become unsigned. *)
Definition new_Bridge (delay period resp_size req_size : Z) (ranges : list AddrRange) (now : Z) : Bridge :=
  mkBridge (mkBS [] 0 false (u32 resp_size) ranges) (mkBM [] (u32 req_size))
    (ticksToCycles delay period) period new_Clocked (mkSched now ∅) [] [] [] [] 0 0 false false.

(** [init]: both sides must be connected. *)
Definition br_init (connected : bool) : B (list AddrRange) :=
  fatal_if (negb connected) "Both ports of a bridge must be connected.";;
  gets (fun b => bs_ranges (slavePort b)).

(** ** Operations *)

Definition respQueueFull (b : Bridge) : bool := outstandingResponses (slavePort b) =? respQueueLimit (slavePort b).
Definition reqQueueFull (b : Bridge) : bool :=
  Z.of_nat (length (bm_transmitList (masterPort b))) =? reqQueueLimit (masterPort b).

Definition schedTimingReq (pkt : Pkt) (when : Z) : B unit :=
  l ← gets (fun b => bm_transmitList (masterPort b));
  when_ (bool_decide (l = [])) (br_schedule MasterSend when);;
  full ← gets reqQueueFull;
  assert_ (negb full) "transmitList.size() != reqQueueLimit";;
  upd_master (set_bm_list (l ++ [mkDP when pkt]));;
  modify (log_reqs [pkt] []).

Definition schedTimingResp (pkt : Pkt) (when : Z) : B unit :=
  l ← gets (fun b => bs_transmitList (slavePort b));
  when_ (bool_decide (l = [])) (br_schedule SlaveSend when);;
  upd_slave (set_bs_list (l ++ [mkDP when pkt]));;
  modify (log_resps [pkt] []).

(** The packet reaches the bridge after its delays, which it loses. *)
Definition receive_delay (pkt : Pkt) : Z := u32 (p_headerDelay pkt + p_payloadDelay pkt).
Definition undelayed (pkt : Pkt) : Pkt := set_p_payloadDelay 0 (set_p_headerDelay 0 pkt).

Definition br_recvTimingResp (pkt : Pkt) : B bool :=
  delay ← gets br_delay;
  edge ← br_clockEdge delay;
  schedTimingResp (undelayed pkt) (u64 (edge + receive_delay pkt));;
  mret true.

Definition br_recvTimingReq (pkt : Pkt) : B bool :=
  panic_if (cacheResponding pkt) "Should not see packets where cache is responding";;
  rr ← gets (fun b => retryReq (slavePort b));
  if rr : bool then mret false
  else
    full ← gets reqQueueFull;
    (if full : bool then upd_slave (set_retryReq true)
     else
       (if needsResponse (p_cmd pkt) then
          rfull ← gets respQueueFull;
          if rfull : bool then upd_slave (set_retryReq true)
          else upd_slave (fun s => set_outstanding (u32 (outstandingResponses s + 1)) s)
        else mret tt);;
       rr ← gets (fun b => retryReq (slavePort b));
       if negb rr then
         delay ← gets br_delay;
         edge ← br_clockEdge delay;
         schedTimingReq (undelayed pkt) (u64 (edge + receive_delay pkt))
       else mret tt);;
    rr ← gets (fun b => retryReq (slavePort b));
    when_ rr (modify (log_stall 1 0));;
    mret (negb rr).

(** [sendRetryReq]: the master above may send again at once. *)
Definition sendRetryReq (react : list Pkt) : B unit :=
  modify (log_stall 0 1);; forM_ react (fun p => br_recvTimingReq p;; mret tt).

Definition retryStalledReq (react : list Pkt) : B unit :=
  rr ← gets (fun b => retryReq (slavePort b));
  when_ rr (upd_slave (set_retryReq false);; sendRetryReq react).

Definition schedule_next (e : BridgeEvent) (l : list DeferredPacket) : B unit :=
  match l with
  | [] => mret tt
  | next :: _ => edge ← br_clockEdge 0; br_schedule e (Z.max (dp_tick next) edge)
  end.

(** [accept]: whether the peer takes the packet. *)
Definition trySendReq (accept : bool) (react : list Pkt) : B unit :=
  l ← gets (fun b => bm_transmitList (masterPort b));
  match l with
  | [] => throw (EAssert "!transmitList.empty()")
  | req :: rest =>
      now ← gets br_now;
      assert_ (dp_tick req <=? now) "req.tick <= curTick()";;
      modify (fun b => log_owed (negb accept) (br_respOwed b) b);;
      when_ accept
        (upd_master (set_bm_list rest);;
         modify (log_reqs [] [dp_pkt req]);;
         schedule_next MasterSend rest;;
         retryStalledReq react)
  end.

Definition trySendResp (accept : bool) (react : list Pkt) : B unit :=
  l ← gets (fun b => bs_transmitList (slavePort b));
  match l with
  | [] => throw (EAssert "!transmitList.empty()")
  | resp :: rest =>
      now ← gets br_now;
      assert_ (dp_tick resp <=? now) "resp.tick <= curTick()";;
      modify (fun b => log_owed (br_reqOwed b) (negb accept) b);;
      when_ accept
        (upd_slave (set_bs_list rest);;
         modify (log_resps [] [dp_pkt resp]);;
         n ← gets (fun b => outstandingResponses (slavePort b));
         assert_ (negb (n =? 0)) "outstandingResponses != 0";;
         upd_slave (set_outstanding (n - 1));;
         schedule_next SlaveSend rest;;
         full ← gets reqQueueFull; rr ← gets (fun b => retryReq (slavePort b));
         when_ (negb full && rr) (upd_slave (set_retryReq false);; sendRetryReq react))
  end.

Definition br_recvReqRetry (accept : bool) (react : list Pkt) : B unit := trySendReq accept react.
Definition br_recvRespRetry (accept : bool) (react : list Pkt) : B unit := trySendResp accept react.

(** [below]: the latency the other side answers. *)
Definition br_recvAtomic (pkt : Pkt) (below : Z) : B Z :=
  panic_if (cacheResponding pkt) "Should not see packets where cache is responding";;
  b ← get; mret (u64 (u64 (br_delay b * br_period b) + below)).

Definition br_trySatisfyFunctional (pkt : Pkt) : B (bool * Pkt) :=
  l ← gets (fun b => bm_transmitList (masterPort b));
  '(found, pkt', l') ← lift (satisfy_in l pkt);
  upd_master (set_bm_list l');;
  if found : bool then r ← lift (pkt_makeResponse pkt'); mret (true, r) else mret (false, pkt').

Definition br_recvFunctional (pkt : Pkt) (sendFunctional : Pkt -> res Pkt) : B Pkt :=
  l ← gets (fun b => bs_transmitList (slavePort b));
  '(found, pkt', l') ← lift (satisfy_in l pkt);
  upd_slave (set_bs_list l');;
  if found : bool then lift (pkt_makeResponse pkt')
  else
    '(found, pkt'') ← br_trySatisfyFunctional pkt';
    if found : bool then mret pkt'' else lift (sendFunctional pkt'').

(** ** Inputs *)

Inductive br_input :=
  | BReq (pkt : Pkt)
  | BResp (pkt : Pkt)
  | BEvent (e : BridgeEvent) (t : Z) (accept : bool) (react : list Pkt)   (* a send event fires at [t] *)
  | BReqRetry (accept : bool) (react : list Pkt)
  | BRespRetry (accept : bool) (react : list Pkt)
  | BTime (t : Z).

Definition br_step (i : br_input) : B unit :=
  match i with
  | BReq pkt => br_recvTimingReq pkt;; mret tt
  | BResp pkt => br_recvTimingResp pkt;; mret tt
  | BEvent e t accept react =>
      modify (fun b => set_br_sched (s_service e t (br_sched b)) b);;
      match e with MasterSend => trySendReq accept react | SlaveSend => trySendResp accept react end
  | BReqRetry accept react => br_recvReqRetry accept react
  | BRespRetry accept react => br_recvRespRetry accept react
  | BTime t => modify (fun b => set_br_sched (mkSched t (s_pending (br_sched b))) b)
  end.
