(* ===== verification/BridgeProps.v ===== *)
(** * Bridges keep order, keep their promises and never stall for ever

    The invariant of a bridge under the port protocol, and that every input
    keeps it without failing an assertion. *)

From S2P Require Import Prelude IntMath Clocked AddrRange EventSched Packet Request PacketData PacketQueue Bridge.

(** ** Time *)

(** No computation of a clock edge or of an arrival wraps around. *)
Record br_room (b : Bridge) : Prop := {
  rm_period : 0 < br_period b;
  rm_delay : 0 <= br_delay b;
  rm_now : 0 <= br_now b;
  rm_edge : br_now b <= ck_tick (update (br_now b) (br_period b) (br_clock b));
  rm_far : ck_tick (update (br_now b) (br_period b) (br_clock b)) + br_period b * br_delay b + 2 ^ 32 < 2 ^ 64
}.

Lemma br_room_clock b : 0 <= br_delay b -> clock_room (br_now b) (br_period b) (br_clock b) ->
  Z.max (ck_tick (br_clock b)) (br_now b + br_period b) + br_period b * br_delay b + 2 ^ 32 < 2 ^ 64 -> br_room b.
Proof.
  intros Hd Hr Hf. pose proof (update_spec _ _ _ Hr) as (H1 & _ & _ & H4). destruct Hr. split; try done.
  destruct H4 as [|E]; [lia|rewrite E in *; lia].
Qed.

Definition ticked (b : Bridge) : Bridge := set_br_clock (update (br_now b) (br_period b) (br_clock b)) b.

Lemma edge_run b k : br_room b -> 0 <= k <= br_delay b ->
  exists e, br_clockEdge k b = Ok (e, ticked b) /\ br_now b <= e /\ e + 2 ^ 32 < 2 ^ 64 /\ br_room (ticked b).
Proof.
  intros [Hp Hd Hn He Hf] Hk. unfold br_clockEdge. rewrite (bind_run get _ b b b) by done.
  unfold clockEdge. rewrite bind_modify. eexists. split; [done|]. set (c := update _ _ _) in *.
  assert (0 <= br_period b * k <= br_period b * br_delay b) by nia.
  rewrite (u64_small (br_period b * k)) by lia. rewrite u64_small by lia. split; [lia|]. split; [lia|].
  assert (update (br_now b) (br_period b) c = c) as E by (unfold update; by rewrite (proj2 (Z.leb_le _ _))).
  split; try done.
  - change (br_now b <= ck_tick (update (br_now b) (br_period b) c)). by rewrite E.
  - change (ck_tick (update (br_now b) (br_period b) c) + br_period b * br_delay b + 2 ^ 32 < 2 ^ 64). by rewrite E.
Qed.

(** ** The invariant *)

Definition wants (l : list Pkt) : nat := length (filter (fun p => needsResponse (p_cmd p) = true) l).

(** A queue sends: the event of its head is scheduled, or its peer owes a retry. *)
Definition live (e : BridgeEvent) (l : list DeferredPacket) (owed : bool) (s : Sched BridgeEvent) : Prop :=
  match l with
  | [] => s_pending s !! e = None /\ owed = false
  | d :: _ => if owed then s_pending s !! e = None /\ dp_tick d <= s_now s
              else exists t, s_pending s !! e = Some t /\ dp_tick d <= t
  end.

Record br_core (b : Bridge) : Prop := {
  bc_req : br_reqs b = br_reqs_sent b ++ map dp_pkt (bm_transmitList (masterPort b));
  bc_resp : br_resps b = br_resps_sent b ++ map dp_pkt (bs_transmitList (slavePort b));
  bc_answered : (length (br_resps b) <= wants (br_reqs_sent b))%nat;
  bc_out : outstandingResponses (slavePort b)
           = Z.of_nat (wants (br_reqs b)) - Z.of_nat (length (br_resps_sent b));
  bc_resps : 0 <= outstandingResponses (slavePort b) <= respQueueLimit (slavePort b);
  bc_reqs : Z.of_nat (length (bm_transmitList (masterPort b))) <= reqQueueLimit (masterPort b);
  bc_limits : 0 < respQueueLimit (slavePort b) < 2 ^ 32 /\ 0 < reqQueueLimit (masterPort b);
  bc_count : br_refused b = (br_retries b + if retryReq (slavePort b) then 1 else 0)%nat;
  bc_wf : s_wf (br_sched b)
}.

Record br_inv (b : Bridge) : Prop := {
  bi_core : br_core b;
  bi_stall : retryReq (slavePort b) = true -> reqQueueFull b = true \/ respQueueFull b = true;
  bi_master : live MasterSend (bm_transmitList (masterPort b)) (br_reqOwed b) (br_sched b);
  bi_slave : live SlaveSend (bs_transmitList (slavePort b)) (br_respOwed b) (br_sched b)
}.

Lemma wants_app l1 l2 : wants (l1 ++ l2) = (wants l1 + wants l2)%nat.
Proof. unfold wants. by rewrite filter_app, length_app. Qed.

Lemma live_other e e' t l owed s : e <> e' -> live e l owed s ->
  live e l owed (mkSched (s_now s) (<[e' := t]> (s_pending s))).
Proof. intros Hne. unfold live. simpl. by rewrite lookup_insert_ne. Qed.

Lemma br_schedule_run e t b : br_now b <= t -> s_pending (br_sched b) !! e = None ->
  br_schedule e t b = Ok (tt, set_br_sched (mkSched (br_now b) (<[e := t]> (s_pending (br_sched b)))) b).
Proof.
  intros Ht Hn. unfold br_schedule. rewrite s_schedule_fresh; [done|exact Ht|]. unfold s_scheduled. by rewrite Hn.
Qed.

Lemma wf_insert e t s : s_wf s -> s_now s <= t -> s_wf (mkSched (s_now s) (<[e := t]> (s_pending s)) : Sched BridgeEvent).
Proof. intros Hw Ht. by apply map_Forall_insert_2. Qed.

(** ** Queueing *)

(** A packet at the end of a queue: the event is scheduled for an empty queue. *)
Definition enqueued (e : BridgeEvent) (l : list DeferredPacket) (t : Z) (s : Sched BridgeEvent) : Sched BridgeEvent :=
  match l with [] => mkSched (s_now s) (<[e := t]> (s_pending s)) | _ => s end.

Lemma live_enqueue e l owed s d : live e l owed s -> s_now s <= dp_tick d ->
  live e (l ++ [d]) owed (enqueued e l (dp_tick d) s).
Proof.
  intros Hl Ht. destruct l as [|x l]; simpl in *; [|done]. destruct Hl as [_ ->]. exists (dp_tick d).
  rewrite lookup_insert_eq. by split.
Qed.
Lemma live_enqueue_other e e' l l' owed t s : e <> e' -> live e l owed s -> live e l owed (enqueued e' l' t s).
Proof. intros Hne Hl. unfold enqueued. destruct l'; [by apply live_other|done]. Qed.
Lemma enqueued_wf e l t s : s_wf s -> s_now s <= t -> s_wf (enqueued e l t s).
Proof. intros. unfold enqueued. destruct l; [by apply wf_insert|done]. Qed.
Lemma enqueued_now e l t s : s_now (enqueued e l t s) = s_now s.
Proof. by destruct l. Qed.

Lemma enqueue_event e l owed t b : live e l owed (br_sched b) -> br_now b <= t ->
  when_ (bool_decide (l = [])) (br_schedule e t) b = Ok (tt, set_br_sched (enqueued e l t (br_sched b)) b).
Proof.
  intros Hl Ht. destruct l as [|x l].
  - rewrite bool_decide_eq_true_2 by done. simpl. apply br_schedule_run; [done|apply Hl].
  - rewrite bool_decide_eq_false_2 by done. by destruct b.
Qed.

Lemma bridge_room_sched b s : br_room b -> s_now s = br_now b -> br_room (set_br_sched s b).
Proof. intros [H1 H2 H3 H4 H5] E. unfold br_now in *. split; unfold br_now; simpl; rewrite ?E; done. Qed.

(** What taking a request or a response leaves alone. *)
Definition br_same (b b' : Bridge) : Prop :=
  br_now b' = br_now b /\ br_reqs_sent b' = br_reqs_sent b /\ br_resps_sent b' = br_resps_sent b
  /\ br_reqOwed b' = br_reqOwed b /\ br_respOwed b' = br_respOwed b.

Definition took_req (d : DeferredPacket) (b : Bridge) : Bridge :=
  let l := bm_transmitList (masterPort b) in
  log_reqs [dp_pkt d] [] (set_masterPort (set_bm_list (l ++ [d]) (masterPort b))
    (set_br_sched (enqueued MasterSend l (dp_tick d) (br_sched b)) b)).

Lemma schedTimingReq_run pkt t b :
  live MasterSend (bm_transmitList (masterPort b)) (br_reqOwed b) (br_sched b) -> br_now b <= t -> reqQueueFull b = false ->
  schedTimingReq pkt t b = Ok (tt, took_req (mkDP t pkt) b).
Proof.
  intros Hl Ht Hf. unfold schedTimingReq. rewrite bind_gets, (bind_run _ _ _ _ _ (enqueue_event _ _ _ t b Hl Ht)).
  rewrite bind_gets, bind_assert by (change (reqQueueFull (set_br_sched _ b)) with (reqQueueFull b); by rewrite Hf).
  unfold upd_master. by rewrite bind_modify.
Qed.

Lemma receive_delay_bound pkt : 0 <= receive_delay pkt < 2 ^ 32.
Proof. apply (wrap_bound 32). lia. Qed.

(** A request that is taken. *)
Lemma take_req_inv b pkt t n : br_inv b -> br_now b <= t -> reqQueueFull b = false -> retryReq (slavePort b) = false ->
  n = (if needsResponse (p_cmd pkt) then 1 else 0) -> outstandingResponses (slavePort b) + n <= respQueueLimit (slavePort b) ->
  br_inv (took_req (mkDP t pkt) (set_slavePort (set_outstanding (outstandingResponses (slavePort b) + n) (slavePort b)) b)).
Proof.
  intros [[H1 H2 H3 H4 H5 H6 H7 H9 H10] _ Hm Hs] Ht Hf Hr Hn Hlim. apply Z.eqb_neq in Hf.
  assert (Z.of_nat (wants [pkt]) = n) as Hw by (rewrite Hn; unfold wants; rewrite filter_cons, filter_nil; destruct (needsResponse _); done).
  split; [split|..]; simpl.
  - by rewrite app_nil_r, H1, map_app, <- app_assoc.
  - done.
  - by rewrite app_nil_r.
  - rewrite wants_app. lia.
  - lia.
  - rewrite length_app. simpl. lia.
  - done.
  - by rewrite H9, Hr.
  - by apply enqueued_wf.
  - by rewrite Hr.
  - by apply (live_enqueue MasterSend _ _ _ (mkDP t pkt)).
  - by apply live_enqueue_other.
Qed.

Lemma inv_clock c b : br_inv b -> br_inv (set_br_clock c b).
Proof. intros [[] Hst Hm Hs]. by split; [split|..]. Qed.

(** A request that is stalled: the master above waits for a retry. *)
Definition stalled (b : Bridge) : Bridge := log_stall 1 0 (set_slavePort (set_retryReq true (slavePort b)) b).

Lemma stall_inv b : br_inv b -> retryReq (slavePort b) = false -> reqQueueFull b = true \/ respQueueFull b = true ->
  br_inv (stalled b).
Proof.
  intros [[H1 H2 H3 H4 H5 H6 H7 H9 H10] _ Hm Hs] Hr Hf. split; [split|..]; try done. simpl. rewrite H9, Hr. lia.
Qed.

Definition refuses (b : Bridge) (pkt : Pkt) : bool :=
  retryReq (slavePort b) || reqQueueFull b || (needsResponse (p_cmd pkt) && respQueueFull b).

Record took (pkt : Pkt) (refused : bool) (b b' : Bridge) : Prop := {
  tk_inv : br_inv b';
  tk_room : br_room b';
  tk_same : br_same b b';
  tk_reqs : br_reqs b' = br_reqs b ++ if refused then [] else [undelayed pkt];
  tk_resps : br_resps b' = br_resps b;
  tk_retries : br_retries b' = br_retries b;
  tk_stall : refused = true -> retryReq (slavePort b') = true
}.

Lemma take_room b d n : br_room b -> 
  br_room (took_req d (set_slavePort n b)).
Proof.
  intros [H1 H2 H3 H4 H5]. assert (br_now (took_req d (set_slavePort n b)) = br_now b) as E by apply enqueued_now.
  split; rewrite ?E; done.
Qed.

(** The second half of [recvTimingReq], once the request may be taken. *)
Lemma take_run b pkt n : br_inv b -> br_room b -> reqQueueFull b = false -> retryReq (slavePort b) = false ->
  n = (if needsResponse (p_cmd pkt) then 1 else 0) ->
  outstandingResponses (slavePort b) + n <= respQueueLimit (slavePort b) ->
  exists b', ((rr ← gets (fun b => retryReq (slavePort b));
      if negb rr then delay ← gets br_delay; edge ← br_clockEdge delay;
         schedTimingReq (undelayed pkt) (u64 (edge + receive_delay pkt)) else mret tt);;
      rr ← gets (fun b => retryReq (slavePort b)); when_ rr (modify (log_stall 1 0));; mret (negb rr))
      (set_slavePort (set_outstanding (outstandingResponses (slavePort b) + n) (slavePort b)) b)
      = Ok (true, b') /\ took pkt false b b'.
Proof.
  intros Hi Hrm Hf Hr Hn Hlim. set (b1 := set_slavePort _ b).
  destruct (edge_run b (br_delay b) Hrm ltac:(destruct Hrm; lia)) as (e & He & Hle & Hfar & Hrm').
  assert (br_now b <= u64 (e + receive_delay pkt)) as Ht.
  { pose proof (receive_delay_bound pkt). destruct Hrm. rewrite u64_small by lia. lia. }
  set (t := u64 (e + receive_delay pkt)) in *.
  rewrite bind_assoc, bind_gets. change (retryReq (slavePort b1)) with (retryReq (slavePort b)). rewrite Hr. simpl.
  rewrite bind_assoc, bind_gets. change (br_delay b1) with (br_delay b).
  assert (br_clockEdge (br_delay b) b1 = Ok (e, ticked b1)) as He1.
  { revert He. unfold br_clockEdge. rewrite !(bind_run get _ _ _ _ eq_refl). unfold clockEdge. rewrite !bind_modify.
    intros [= <-]. done. }
  rewrite bind_assoc, (bind_run _ _ _ _ _ He1). fold t.
  erewrite (bind_run (schedTimingReq _ _)); [|apply schedTimingReq_run; [apply (bi_master b Hi)|exact Ht|exact Hf]].
  rewrite bind_gets. change (retryReq _) with (retryReq (slavePort b)). rewrite Hr. simpl. eexists. split; [reflexivity|].
  pose proof (take_req_inv b (undelayed pkt) t n Hi Ht Hf Hr Hn Hlim) as Hinv. split; try done; simpl.
  - apply (inv_clock (update (br_now b) (br_period b) (br_clock b))) in Hinv. exact Hinv.
  - exact (take_room (ticked b) (mkDP t (undelayed pkt)) _ Hrm').
  - split; [apply enqueued_now|]. split; [simpl; apply app_nil_r|done].
Qed.

Lemma recvReq_run pkt b : br_inv b -> br_room b -> cacheResponding pkt = false ->
  exists b', br_recvTimingReq pkt b = Ok (negb (refuses b pkt), b') /\ took pkt (refuses b pkt) b b'.
Proof.
  intros Hi Hrm Hc. unfold br_recvTimingReq. rewrite bind_panic_if, bind_gets by done. unfold refuses.
  destruct (retryReq (slavePort b)) eqn:Hr; simpl.
  { exists b. split; [done|]. split; try done. by rewrite app_nil_r. }
  assert (reqQueueFull b = true \/ respQueueFull b = true -> took pkt true b (stalled b)) as Hstall.
  { intros Hf. split; try done; [by apply stall_inv|by destruct Hrm|simpl; by rewrite app_nil_r]. }
  rewrite bind_gets. destruct (reqQueueFull b) eqn:Hf; simpl; [exists (stalled b); split; [done|auto]|].
  pose proof (bi_core b Hi) as Hcore. destruct (needsResponse (p_cmd pkt)) eqn:Hw; simpl.
  - rewrite !bind_assoc, bind_gets. destruct (respQueueFull b) eqn:Hrf; simpl; [exists (stalled b); split; [done|auto]|].
    unfold upd_slave. rewrite bind_modify. destruct Hcore as [_ _ _ _ H5 _ H7 _ _]. apply Z.eqb_neq in Hrf.
    assert (u32 (outstandingResponses (slavePort b) + 1) = outstandingResponses (slavePort b) + 1) as ->
      by (apply (wrap_small 32); lia).
    apply (take_run b pkt 1); try done; [by rewrite Hw|lia].
  - rewrite bind_assoc, bind_ret.
    destruct (take_run b pkt 0) as (b' & E & Hb'); try done; [by rewrite Hw|destruct Hcore; lia|]. rewrite Z.add_0_r in E.
    exists b'. split; [|done]. rewrite <- E. by destruct b as [[] ? ? ? ? ? ? ? ? ? ? ? ?].
Qed.

(** ** Sending *)

(** The requests that arrive while the master above is told to retry. *)
Lemma react_run react b : br_inv b -> br_room b -> Forall (fun p => cacheResponding p = false) react ->
  exists b', forM_ react (fun p => br_recvTimingReq p;; mret tt) b = Ok (tt, b') /\ br_inv b' /\ br_room b'
    /\ br_same b b' /\ br_resps b' = br_resps b /\ br_retries b' = br_retries b
    /\ exists new, br_reqs b' = br_reqs b ++ new.
Proof.
  revert b. induction react as [|p react IH]; intros b Hi Hrm Hc; simpl.
  { exists b. split; [done|]. split_and!; try done. exists []. by rewrite app_nil_r. }
  apply Forall_cons in Hc as [Hp Hc]. destruct (recvReq_run p b Hi Hrm Hp) as (b1 & H1 & [Hi1 Hrm1 Hs1 Hq1 Hr1 Ht1 _]).
  destruct (IH b1 Hi1 Hrm1 Hc) as (b2 & H2 & Hi2 & Hrm2 & Hs2 & Hr2 & Ht2 & new & Hq2).
  exists b2. rewrite bind_assoc, (bind_run _ _ _ _ _ H1). rewrite bind_ret. split; [done|]. split_and!; try done; try congruence.
  - unfold br_same in *. naive_solver congruence.
  - rewrite Hq2, Hq1, <- app_assoc. by eexists.
Qed.

(** The bridge with everything in order but the stalled request. *)
Definition br_ready (b : Bridge) : Prop :=
  br_core b /\ live MasterSend (bm_transmitList (masterPort b)) (br_reqOwed b) (br_sched b)
  /\ live SlaveSend (bs_transmitList (slavePort b)) (br_respOwed b) (br_sched b).

(** What a retry leaves alone, and that it is sent. *)
Record retried (b b' : Bridge) : Prop := {
  rt_inv : br_inv b';
  rt_same : br_same b b';
  rt_resps : br_resps b' = br_resps b;
  rt_new : exists new, br_reqs b' = br_reqs b ++ new
}.

Lemma retry_run react b : br_ready b -> br_room b -> retryReq (slavePort b) = true ->
  Forall (fun p => cacheResponding p = false) react ->
  exists b', (upd_slave (set_retryReq false);; sendRetryReq react) b = Ok (tt, b') /\ retried b b'
    /\ br_retries b' = S (br_retries b).
Proof.
  intros ([H1 H2 H3 H4 H5 H6 H7 H9 H10] & Hm & Hs) Hrm Hr Hc. unfold upd_slave, sendRetryReq. rewrite !bind_modify.
  set (b1 := log_stall 0 1 _). assert (br_inv b1) as Hi1.
  { split; [split|..]; try done. simpl. rewrite H9, Hr. lia. }
  destruct (react_run react b1 Hi1) as (b' & E & Hi & _ & Hs' & Hrs & Hrt & new & Hn); [by destruct Hrm|done|].
  exists b'. split; [done|]. split; [split; try done; by exists new|]. rewrite Hrt. simpl. lia.
Qed.

Lemma schedule_next_run e rest b : br_room b -> s_pending (br_sched b) !! e = None ->
  exists s c, schedule_next e rest b = Ok (tt, set_br_sched s (set_br_clock c b)) /\ live e rest false s
    /\ s_now s = br_now b /\ br_room (set_br_sched s (set_br_clock c b))
    /\ (s_wf (br_sched b) -> s_wf s)
    /\ forall e' l owed, e' <> e -> live e' l owed (br_sched b) -> live e' l owed s.
Proof.
  intros Hrm Hp. destruct rest as [|next rest]; simpl.
  - exists (br_sched b), (br_clock b). split_and!; try done; by destruct b.
  - destruct (edge_run b 0 Hrm ltac:(destruct Hrm; lia)) as (t & Ht & Hle & _ & Hrm').
    rewrite (bind_run _ _ _ _ _ Ht), br_schedule_run; [|change (br_now (ticked b)) with (br_now b); lia|done].
    eexists _, _. split; [reflexivity|]. split_and!.
    + exists (Z.max (dp_tick next) t). simpl. rewrite lookup_insert_eq. split; [done|lia].
    + done.
    + by apply bridge_room_sched.
    + intros Hw. apply wf_insert; [done|]. change (s_now (br_sched (ticked b))) with (br_now b). lia.
    + intros e' l owed Hne Hl. by apply live_other.
Qed.

(** A queue whose head may be sent. *)
Record sendable (e : BridgeEvent) (l : list DeferredPacket) (b : Bridge) : Prop := {
  sd_core : br_core b;
  sd_stall : retryReq (slavePort b) = true -> reqQueueFull b = true \/ respQueueFull b = true;
  sd_room : br_room b;
  sd_pending : s_pending (br_sched b) !! e = None;
  sd_head : match l with d :: _ => dp_tick d <= br_now b | [] => False end
}.

(** The effect of a send on the traffic. *)
Record sent (accept : bool) (qs rs : list Pkt) (b b' : Bridge) : Prop := {
  se_inv : br_inv b';
  se_now : br_now b' = br_now b;
  se_reqs : br_reqs_sent b' = br_reqs_sent b ++ (if accept then qs else []);
  se_resps : br_resps_sent b' = br_resps_sent b ++ (if accept then rs else []);
  se_in : br_resps b' = br_resps b /\ exists new, br_reqs b' = br_reqs b ++ new
}.

Lemma trySendReq_run accept react b d rest : bm_transmitList (masterPort b) = d :: rest ->
  sendable MasterSend (d :: rest) b -> live SlaveSend (bs_transmitList (slavePort b)) (br_respOwed b) (br_sched b) ->
  Forall (fun p => cacheResponding p = false) react ->
  exists b', trySendReq accept react b = Ok (tt, b') /\ sent accept [dp_pkt d] [] b b'
    /\ br_reqOwed b' = negb accept /\ br_respOwed b' = br_respOwed b
    /\ (accept = true -> retryReq (slavePort b) = true -> br_retries b' = S (br_retries b)).
Proof.
  intros Hl [Hc Hst Hrm Hp Hh] Hs Hreact. unfold trySendReq. rewrite bind_gets, Hl, bind_gets, bind_assert by lia.
  rewrite bind_modify. pose proof Hc as [H1 H2 H3 H4 H5 H6 H7 H9 H10]. rewrite Hl in H1, H6. simpl in H1, H6.
  destruct accept; cbn [when_ negb]; cycle 1.
  { eexists. split; [done|]. split; [|done]. split; try done; simpl; rewrite ?app_nil_r; try done.
    - split; [split; try done|done| |done]; simpl; rewrite ?Hl; done.
    - split; [done|]. exists []. by rewrite app_nil_r. }
  unfold upd_master. rewrite !bind_modify. set (b1 := log_reqs _ _ _).
  destruct (schedule_next_run MasterSend rest b1) as (s & c & E & Hlive & Hnow & Hrm2 & Hwf & Hoth); [by destruct Hrm|done|].
  rewrite (bind_run _ _ _ _ _ E). set (b2 := set_br_sched s _) in *.
  assert (br_core b2) as Hc2.
  { split; simpl; rewrite ?app_nil_r; try done.
    - by rewrite H1, <- app_assoc.
    - rewrite wants_app. lia.
    - lia.
    - by apply Hwf. }
  unfold retryStalledReq. rewrite bind_gets. change (retryReq (slavePort b2)) with (retryReq (slavePort b)).
  destruct (retryReq (slavePort b)) eqn:Hr; cbn [when_].
  - destruct (retry_run react b2) as (b' & Hrun & [Hi (S1 & S2 & S3 & S4 & S5) Hrs [new Hn]] & Hrt); [|done|done|done|].
    { split; [done|]. split; [done|]. by apply Hoth. }
    exists b'. split; [done|]. split; [|split; [done|split; [done|intros _ _; exact Hrt]]].
    split; try done; [by rewrite S1|by rewrite S3, app_nil_r|]. split; [done|]. exists new. rewrite Hn. simpl. by rewrite app_nil_r.
  - exists b2. split; [done|]. split; [|done]. split; try done.
    + split; [done|by simpl; rewrite Hr|done|by apply Hoth].
    + simpl. by rewrite app_nil_r.
    + split; [done|]. exists []. simpl. by rewrite !app_nil_r.
Qed.

Lemma trySendResp_run accept react b d rest : bs_transmitList (slavePort b) = d :: rest ->
  sendable SlaveSend (d :: rest) b -> live MasterSend (bm_transmitList (masterPort b)) (br_reqOwed b) (br_sched b) ->
  Forall (fun p => cacheResponding p = false) react ->
  exists b', trySendResp accept react b = Ok (tt, b') /\ sent accept [] [dp_pkt d] b b'
    /\ br_reqOwed b' = br_reqOwed b /\ br_respOwed b' = negb accept
    /\ (accept = true -> retryReq (slavePort b) = true -> reqQueueFull b = false -> br_retries b' = S (br_retries b)).
Proof.
  intros Hl [Hc Hst Hrm Hp Hh] Hm Hreact. unfold trySendResp. rewrite bind_gets, Hl, bind_gets, bind_assert by lia.
  rewrite bind_modify. pose proof Hc as [H1 H2 H3 H4 H5 H6 H7 H9 H10]. rewrite Hl in H2. simpl in H2.
  destruct accept; cbn [when_ negb]; cycle 1.
  { eexists. split; [done|]. split; [|done]. split; try done; simpl; rewrite ?app_nil_r; try done.
    - split; [split; try done|done|done|]; simpl; rewrite ?Hl; done.
    - split; [done|]. exists []. by rewrite app_nil_r. }
  assert (0 < outstandingResponses (slavePort b)) as Hpos.
  { rewrite H2, length_app in H3. simpl in H3. rewrite H1, wants_app in H4. lia. }
  unfold upd_slave. rewrite !bind_modify, bind_gets. rewrite bind_assert by (apply negb_true_iff, Z.eqb_neq; simpl; lia).
  rewrite bind_modify. set (b1 := set_slavePort _ (log_resps _ _ _)).
  destruct (schedule_next_run SlaveSend rest b1) as (s & c & E & Hlive & Hnow & Hrm2 & Hwf & Hoth); [by destruct Hrm|done|].
  rewrite (bind_run _ _ _ _ _ E). set (b2 := set_br_sched s _) in *.
  assert (br_core b2) as Hc2.
  { split; simpl; rewrite ?app_nil_r; try done.
    - by rewrite H2, <- app_assoc.
    - rewrite length_app. simpl. lia.
    - lia.
    - by apply Hwf. }
  rewrite !bind_gets. change (retryReq (slavePort b2)) with (retryReq (slavePort b)).
  change (reqQueueFull b2) with (reqQueueFull b).
  destruct (negb (reqQueueFull b) && retryReq (slavePort b)) eqn:Hr; cbn [when_].
  - apply andb_true_iff in Hr as [Hf Hr].
    destruct (retry_run react b2) as (b' & Hrun & [Hi (S1 & S2 & S3 & S4 & S5) Hrs [new Hn]] & Hrt); [|done|done|done|].
    { split; [done|]. split; [by apply Hoth|done]. }
    exists b'. split; [done|]. split; [|split; [done|split; [done|intros _ _ _; exact Hrt]]].
    split; try done; [by rewrite S1|by rewrite S2; simpl; rewrite app_nil_r|]. split; [rewrite Hrs; simpl; by rewrite app_nil_r|].
    by exists new.
  - exists b2. split; [done|]. split; [|split; [done|split; [done|]]].
    + split; try done.
      * split; [done| |by apply Hoth|done]. intros Hr'. left. change (reqQueueFull b2) with (reqQueueFull b).
        change (retryReq (slavePort b2)) with (retryReq (slavePort b)) in Hr'. rewrite Hr', andb_true_r in Hr. by apply negb_false_iff.
      * simpl. by rewrite app_nil_r.
      * split; [simpl; by rewrite app_nil_r|]. exists []. simpl. by rewrite app_nil_r.
    + intros _ Hr' Hf. by rewrite Hr', Hf in Hr.
Qed.

Lemma recvResp_run pkt b : br_inv b -> br_room b -> (length (br_resps b) < wants (br_reqs_sent b))%nat ->
  exists b', br_recvTimingResp pkt b = Ok (true, b') /\ br_inv b' /\ br_resps b' = br_resps b ++ [undelayed pkt].
Proof.
  intros [[H1 H2 H3 H4 H5 H6 H7 H9 H10] Hst Hm Hs] Hrm Hw. unfold br_recvTimingResp. rewrite bind_gets.
  destruct (edge_run b (br_delay b) Hrm ltac:(destruct Hrm; lia)) as (e & He & Hle & Hfar & Hrm').
  rewrite (bind_run _ _ _ _ _ He). assert (br_now b <= u64 (e + receive_delay pkt)) as Ht.
  { pose proof (receive_delay_bound pkt). destruct Hrm. rewrite u64_small by lia. lia. }
  set (t := u64 (e + receive_delay pkt)) in *. unfold schedTimingResp. rewrite bind_assoc, bind_gets.
  rewrite bind_assoc, (bind_run _ _ _ _ _ (enqueue_event SlaveSend _ (br_respOwed b) t (ticked b) Hs Ht)).
  unfold upd_slave. rewrite bind_assoc, !bind_modify. eexists. split; [reflexivity|]. split; [|done].
  split; [split|..]; simpl; rewrite ?app_nil_r; try done.
  - by rewrite H2, map_app, <- app_assoc.
  - rewrite length_app. simpl. lia.
  - by apply enqueued_wf.
  - by apply live_enqueue_other.
  - by apply (live_enqueue SlaveSend _ _ _ (mkDP t (undelayed pkt))).
Qed.

(** ** Runs *)

(** The port protocol: a response only to a request sent on, a retry only after a
    refusal, events in time order. *)
Definition br_input_ok (b : Bridge) (i : br_input) : Prop :=
  match i with
  | BReq pkt => br_room b /\ cacheResponding pkt = false
  | BResp pkt => br_room b /\ (length (br_resps b) < wants (br_reqs_sent b))%nat
  | BEvent e t _ react => s_due e t (br_sched b) /\ br_room (set_br_sched (s_service e t (br_sched b)) b)
      /\ Forall (fun p => cacheResponding p = false) react
  | BReqRetry _ react => br_reqOwed b = true /\ br_room b /\ Forall (fun p => cacheResponding p = false) react
  | BRespRetry _ react => br_respOwed b = true /\ br_room b /\ Forall (fun p => cacheResponding p = false) react
  | BTime t => br_now b <= t /\ map_Forall (fun _ t' => t <= t') (s_pending (br_sched b))
  end.

Lemma live_serviced e e' t l owed (s : Sched BridgeEvent) : s_due e t s -> s_wf s -> e' <> e -> live e' l owed s ->
  live e' l owed (s_service e t s).
Proof.
  intros [He Hall] Hw Hne Hl. pose proof (Hw _ _ He) as Hle. simpl in Hle. unfold live in *. simpl.
  rewrite lookup_delete_ne by congruence. destruct l as [|d l]; [done|]. destruct owed; [|done]. destruct Hl. split; [done|lia].
Qed.

Lemma live_due e t l owed (s : Sched BridgeEvent) : s_due e t s -> live e l owed s ->
  exists d rest, l = d :: rest /\ dp_tick d <= t /\ owed = false.
Proof.
  intros [He _] Hl. unfold live in Hl. destruct l as [|d l]; [destruct Hl; congruence|].
  destruct owed; [destruct Hl; congruence|]. destruct Hl as (t' & E & Hle). exists d, l. split_and!; [done| |done]. congruence.
Qed.

Lemma live_owed e l s : live e l true s -> exists d rest, l = d :: rest /\ s_pending s !! e = None /\ dp_tick d <= s_now s.
Proof. unfold live. destruct l as [|d l]; [by intros [_ ?]|]. intros [? ?]. by exists d, l. Qed.

Lemma core_serviced e t b : br_core b -> s_due e t (br_sched b) -> br_core (set_br_sched (s_service e t (br_sched b)) b).
Proof. intros [] Hd. split; try done. by apply s_service_wf. Qed.

Definition sends (i : br_input) (b b' : Bridge) : Prop :=
  match i with
  | BEvent MasterSend _ true _ | BReqRetry true _ =>
      br_reqs_sent b' = br_reqs_sent b ++ take 1 (map dp_pkt (bm_transmitList (masterPort b)))
      /\ (retryReq (slavePort b) = true -> br_retries b' = S (br_retries b))
  | BEvent SlaveSend _ true _ | BRespRetry true _ =>
      br_resps_sent b' = br_resps_sent b ++ take 1 (map dp_pkt (bs_transmitList (slavePort b)))
      /\ (retryReq (slavePort b) = true -> reqQueueFull b = false -> br_retries b' = S (br_retries b))
  | BReq pkt => br_reqs b' = br_reqs b ++ (if refuses b pkt then [] else [undelayed pkt])
  | BResp pkt => br_resps b' = br_resps b ++ [undelayed pkt]
  | _ => True
  end.

Lemma br_send_master b accept react : br_inv b -> br_input_ok b (BReqRetry accept react) ->
  exists b', br_step (BReqRetry accept react) b = Ok (tt, b') /\ br_inv b' /\ sends (BReqRetry accept react) b b'.
Proof.
  intros [Hc Hst Hm Hs] (Ho & Hrm & Hr). rewrite Ho in Hm. apply live_owed in Hm as (d & rest & El & Hp & Ht).
  destruct (trySendReq_run accept react b d rest) as (b' & H1 & [Hi _ H2 _ _] & _ & _ & H3); try done.
  exists b'. split; [done|]. split; [done|]. destruct accept; [|done]. simpl. rewrite El. split; [done|auto].
Qed.

Lemma br_send_slave b accept react : br_inv b -> br_input_ok b (BRespRetry accept react) ->
  exists b', br_step (BRespRetry accept react) b = Ok (tt, b') /\ br_inv b' /\ sends (BRespRetry accept react) b b'.
Proof.
  intros [Hc Hst Hm Hs] (Ho & Hrm & Hr). rewrite Ho in Hs. apply live_owed in Hs as (d & rest & El & Hp & Ht).
  destruct (trySendResp_run accept react b d rest) as (b' & H1 & [Hi _ _ H2 _] & _ & _ & H3); try done.
  exists b'. split; [done|]. split; [done|]. destruct accept; [|done]. simpl. rewrite El. split; [done|auto].
Qed.

Lemma br_event b e t accept react : br_inv b -> br_input_ok b (BEvent e t accept react) ->
  exists b', br_step (BEvent e t accept react) b = Ok (tt, b') /\ br_inv b' /\ sends (BEvent e t accept react) b b'.
Proof.
  intros [Hc Hst Hm Hs] (Hd & Hrm & Hr). simpl. rewrite bind_modify. set (b1 := set_br_sched _ b) in *.
  pose proof (core_serviced e t b Hc Hd) as Hc1. fold b1 in Hc1.
  assert (s_pending (br_sched b1) !! e = None) as Hp by (simpl; apply lookup_delete_eq).
  pose proof (bc_wf b Hc) as Hw. destruct e.
  - destruct (live_due _ _ _ _ _ Hd Hs) as (d & rest & El & Hle & _).
    destruct (trySendResp_run accept react b1 d rest) as (b' & H1 & [Hi _ _ H2 _] & _ & _ & H3); try done.
    { by apply live_serviced. }
    exists b'. split; [done|]. split; [done|]. destruct accept; [|done]. simpl. rewrite El. split; [done|auto].
  - destruct (live_due _ _ _ _ _ Hd Hm) as (d & rest & El & Hle & _).
    destruct (trySendReq_run accept react b1 d rest) as (b' & H1 & [Hi _ H2 _ _] & _ & _ & H3); try done.
    { by apply live_serviced. }
    exists b'. split; [done|]. split; [done|]. destruct accept; [|done]. simpl. rewrite El. split; [done|auto].
Qed.

Lemma br_step_inv b i : br_inv b -> br_input_ok b i ->
  exists b', br_step i b = Ok (tt, b') /\ br_inv b' /\ sends i b b'.
Proof.
  intros Hi Hok. destruct i as [pkt|pkt|e t accept react|accept react|accept react|t].
  - destruct Hok as [Hrm Hc]. destruct (recvReq_run pkt b Hi Hrm Hc) as (b' & H1 & Ht). exists b'.
    simpl. rewrite (bind_run _ _ _ _ _ H1). split; [done|]. by destruct Ht.
  - destruct Hok as [Hrm Hw]. destruct (recvResp_run pkt b Hi Hrm Hw) as (b' & H1 & H2 & H3). exists b'.
    simpl. rewrite (bind_run _ _ _ _ _ H1). done.
  - by apply br_event.
  - by apply br_send_master.
  - by apply br_send_slave.
  - destruct Hok as [Ht Hall]. eexists. split; [done|]. split; [|done]. destruct Hi as [[] Hst Hm Hs].
    assert (forall e l owed, live e l owed (br_sched b) -> live e l owed (mkSched t (s_pending (br_sched b)))) as Hl.
    { intros e l owed. unfold live. simpl. destruct l; [done|]. destruct owed; [|done]. intros [? ?]. split; [done|].
      unfold br_now in Ht. lia. }
    split; [by split|done|by apply Hl..].
Qed.

Inductive br_reach : Bridge -> Prop :=
  | br_new delay period resp_size req_size ranges now : 0 < resp_size < 2 ^ 32 -> 0 < req_size < 2 ^ 32 ->
      br_reach (new_Bridge delay period resp_size req_size ranges now)
  | br_next b i b' : br_reach b -> br_input_ok b i -> br_step i b = Ok (tt, b') -> br_reach b'.

Lemma br_reach_inv b : br_reach b -> br_inv b.
Proof.
  induction 1 as [delay period rs qs ranges now Hrs Hqs|b i b' _ IH Hok Hrun].
  - assert (u32 rs = rs /\ u32 qs = qs) as [E1 E2] by (split; apply (wrap_small 32); lia).
    split; [split|..]; try done; simpl; rewrite ?E1, ?E2; try lia.
  - destruct (br_step_inv b i IH Hok) as (b1 & H1 & H2 & _). rewrite Hrun in H1. by simplify_eq.
Qed.

(** C29: under the port protocol no input makes a bridge fail an assertion.
    Requests leave in the order they were taken, and responses too; neither
    queue grows beyond its limit, and a request that wants a response is taken
    only when a place is left for it, so every response finds room.  As long as a
    packet waits, its send event is scheduled or the peer owes a retry.  A
    refused request is retried exactly once, when a request leaves, or when a
    response leaves and the request queue has room; until then a packet that will
    cause the retry is on its way. *)
Theorem bridge_keeps_promises b i : br_reach b -> br_input_ok b i ->
  (exists b', br_step i b = Ok (tt, b') /\ br_reach b' /\ sends i b b')
  /\ br_reqs b = br_reqs_sent b ++ map dp_pkt (bm_transmitList (masterPort b))
  /\ br_resps b = br_resps_sent b ++ map dp_pkt (bs_transmitList (slavePort b))
  /\ Z.of_nat (length (bm_transmitList (masterPort b))) <= reqQueueLimit (masterPort b)
  /\ Z.of_nat (wants (br_reqs b)) - Z.of_nat (length (br_resps_sent b)) <= respQueueLimit (slavePort b)
  /\ Z.of_nat (length (bs_transmitList (slavePort b))) <= respQueueLimit (slavePort b)
  /\ live MasterSend (bm_transmitList (masterPort b)) (br_reqOwed b) (br_sched b)
  /\ live SlaveSend (bs_transmitList (slavePort b)) (br_respOwed b) (br_sched b)
  /\ br_refused b = (br_retries b + if retryReq (slavePort b) then 1 else 0)%nat
  /\ (retryReq (slavePort b) = true -> bm_transmitList (masterPort b) <> [] \/ (length (br_resps_sent b) < wants (br_reqs b))%nat).
Proof.
  intros Hr Hok. pose proof (br_reach_inv b Hr) as Hi.
  split; [destruct (br_step_inv b i Hi Hok) as (b' & H1 & H2 & H3); exists b'; split; [done|]; split; [by eapply br_next|done]|].
  destruct Hi as [[H1 H2 H3 H4 H5 H6 H7 H9 H10] Hst Hm Hs]. split_and!; try done; try lia.
  - rewrite H2, length_app, length_map in H3. rewrite H1, wants_app in H4. lia.
  - intros Hrq. destruct (Hst Hrq) as [Hf|Hf]; apply Z.eqb_eq in Hf; [left|right; lia].
    intros E. rewrite E in Hf. simpl in Hf. lia.
Qed.

(** A bridge with room for one request and one response: the second request is
    stalled and retried when the first leaves. *)
Definition demo_read (a : Z) : Pkt := new_Pkt a (new_Request_phys 0 a 4 0 3) ReadReq.
Definition demo_bridge0 : Bridge := new_Bridge 2000 1000 2 1 [] 0.
Fixpoint br_run (l : list br_input) (b : Bridge) : Bridge :=
  match l with
  | [] => b
  | i :: l' => match br_step i b with Ok (_, b') => br_run l' b' | Err _ => b end
  end.
Definition demo_bridge : Bridge := br_run [BReq (demo_read 16); BReq (demo_read 32)] demo_bridge0.

Lemma demo_room b : br_delay b = 2 -> br_period b = 1000 -> 0 <= br_now b <= 10000 -> ck_tick (br_clock b) = 0 ->
  ck_cycle (br_clock b) = 0 -> br_room b.
Proof. intros E1 E2 E3 E4 E5. apply br_room_clock; [lia|split; lia|lia]. Qed.

Lemma demo_bridge_reach : br_reach demo_bridge.
Proof.
  apply (br_next (br_run [BReq (demo_read 16)] demo_bridge0) (BReq (demo_read 32))); [|split; [|done]|by vm_compute].
  - apply (br_next demo_bridge0 (BReq (demo_read 16))); [by apply br_new|split; [|done]|by vm_compute]. apply demo_room; done.
  - apply demo_room; try (by vm_compute).
Qed.

Lemma bridge_keeps_promises_witness :
  exists b', br_step (BEvent MasterSend 2000 true [demo_read 32]) demo_bridge = Ok (tt, b')
    /\ map p_id (br_reqs_sent b') = [16] /\ br_retries b' = 1%nat /\ br_refused demo_bridge = 1%nat.
Proof.
  destruct (bridge_keeps_promises demo_bridge (BEvent MasterSend 2000 true [demo_read 32]) demo_bridge_reach)
    as [(b' & H1 & _ & H2 & H3) _].
  - split; [split; [by vm_compute|]|split; [|by repeat constructor]].
    + assert (s_pending (br_sched demo_bridge) = {[ MasterSend := 2000 ]}) as -> by (by vm_compute).
      apply map_Forall_singleton. lia.
    + apply demo_room; try (by vm_compute).
  - exists b'. split; [exact H1|]. rewrite H2. split; [by vm_compute|]. split; [|by vm_compute].
    rewrite H3 by (by vm_compute). by vm_compute.
Defined.
