(* ===== verification/CacheQueue.v ===== *)
(** * Queues of a cache (mem/cache/queue.hh, mem/cache/queue_entry.hh)

    [Queue<Entry>] is the common part of the miss queue and of the write buffer:
    a fixed vector of entries and three lists of pointers into it.  Entries live
    in a store indexed by their address, because miss entries are also reached
    from other caches; [q_entries] are the addresses of the queue's own vector.
    The virtual functions of [QueueEntry] are the class [QueueEntry]. *)

From S2P Require Import Prelude Drain Packet Request PacketData.

(** ** Entries *)

(** [QueueEntry::Target]; [tg_recvTime] is the tick of its creation. *)
Record Target := mkTarget { tg_recvTime : Z; tg_readyTime : Z; tg_order : Z; tg_pkt : Pkt }.

Class QueueEntry (E : Type) := {
  qe_readyTime : E -> Z;
  qe_isUncacheable : E -> bool;
  qe_inService : E -> bool;
  qe_order : E -> Z;
  qe_matchBlockAddr : Z -> bool -> E -> res bool;
  qe_matchBlockPkt : Pkt -> E -> res bool;
  (* the other entry, seen through its own [matchBlockAddr] *)
  qe_conflictAddr : (Z -> bool -> res bool) -> E -> res bool;
  qe_trySatisfyFunctional : Pkt -> E -> res (bool * Pkt * E);
  qe_deallocate : E -> res E
}.

Definition set_tg_pkt (p : Pkt) (t : Target) : Target := mkTarget (tg_recvTime t) (tg_readyTime t) (tg_order t) p.

(** The loop of [TargetList::trySatisfyFunctional], for both kinds of target. *)
Section Targets.
Context {T : Type} (pkt_of : T -> Pkt) (set_pkt : Pkt -> T -> T).
Fixpoint satisfy_targets (l : list T) (pkt : Pkt) : res (bool * Pkt * list T) :=
  match l with
  | [] => mret (false, pkt, [])
  | t :: l' =>
      '(found, pkt', other) ← trySatisfyFunctional (pkt_of t) pkt;
      if found : bool then mret (true, pkt', set_pkt other t :: l')
      else '(found', pkt'', l'') ← satisfy_targets l' pkt';
           mret (found', pkt'', set_pkt other t :: l'')
  end.
End Targets.

(** ** The queue *)

Record Queue := mkQueue {
  numEntries : Z;
  numReserve : Z;
  q_entries : list nat;
  allocatedList : list nat;
  readyList : list nat;
  freeList : list nat;
  q_numInService : Z;
  q_allocated : Z;
  q_drainState : DrainState
}.

Record QS (E : Type) := mkQS { q_now : Z; q_store : gmap nat E; q_queue : Queue }.
Arguments mkQS {E}. Arguments q_now {E}. Arguments q_store {E}. Arguments q_queue {E}.

Definition set_allocatedList (l : list nat) (q : Queue) : Queue :=
  mkQueue (numEntries q) (numReserve q) (q_entries q) l (readyList q) (freeList q) (q_numInService q) (q_allocated q) (q_drainState q).
Definition set_readyList (l : list nat) (q : Queue) : Queue :=
  mkQueue (numEntries q) (numReserve q) (q_entries q) (allocatedList q) l (freeList q) (q_numInService q) (q_allocated q) (q_drainState q).
Definition set_freeList (l : list nat) (q : Queue) : Queue :=
  mkQueue (numEntries q) (numReserve q) (q_entries q) (allocatedList q) (readyList q) l (q_numInService q) (q_allocated q) (q_drainState q).
Definition set_numInService (n : Z) (q : Queue) : Queue :=
  mkQueue (numEntries q) (numReserve q) (q_entries q) (allocatedList q) (readyList q) (freeList q) n (q_allocated q) (q_drainState q).
Definition set_allocated (n : Z) (q : Queue) : Queue :=
  mkQueue (numEntries q) (numReserve q) (q_entries q) (allocatedList q) (readyList q) (freeList q) (q_numInService q) n (q_drainState q).
Definition set_q_drainState (d : DrainState) (q : Queue) : Queue :=
  mkQueue (numEntries q) (numReserve q) (q_entries q) (allocatedList q) (readyList q) (freeList q) (q_numInService q) (q_allocated q) d.

(** The constructor: the vector starts at address [base]. *)
Definition new_Queue (num_entries reserve : Z) (base : nat) : Queue :=
  let es := seq base (Z.to_nat (num_entries + reserve)) in
  mkQueue (num_entries + reserve) reserve es [] [] es 0 0 Running.

Definition isEmpty (q : Queue) : bool := q_allocated q =? 0.
Definition isFull (q : Queue) : bool := numEntries q - numReserve q <=? q_allocated q.
Definition numInService (q : Queue) : Z := q_numInService q.
Definition q_drain (q : Queue) : DrainState := if q_allocated q =? 0 then Drained else Draining.

(** [list.erase(it)], where [it] is the iterator an entry keeps of its own
    place in the list; an entry is at most once in a list. *)
Fixpoint erase (i : nat) (l : list nat) : option (list nat) :=
  match l with
  | [] => None
  | j :: l' => if decide (i = j) then Some l' else (cons j) <$> erase i l'
  end.

Section Queue.
Context {E : Type} `{QE : !QueueEntry E}.
Abbreviation Q := (M (QS E)).

Definition set_store (m : gmap nat E) (s : QS E) : QS E := mkQS (q_now s) m (q_queue s).
Definition set_queue (q : Queue) (s : QS E) : QS E := mkQS (q_now s) (q_store s) q.
Definition on_queue (f : Queue -> Queue) : Q unit := modify (fun s => set_queue (f (q_queue s)) s).
Definition put_entry (i : nat) (e : E) : Q unit := modify (fun s => set_store (<[i := e]> (q_store s)) s).
Definition the_entry (i : nat) : Q E := fun s =>
  match q_store s !! i with Some e => Ok (e, s) | None => Err (EUndefined "queue entry") end.
Definition iterator {A} (o : option A) : res A :=
  match o with Some a => Ok a | None => Err (EUndefined "iterator") end.

(** [readyTime] of the entry a list element points to; the lists point into the
    vector of entries, which keeps its size. *)
Definition ready_at (m : gmap nat E) (i : nat) : Z := match m !! i with Some e => qe_readyTime e | None => 0 end.

(** The loop of [addToReadyList]. *)
Fixpoint insert_before (time : nat -> Z) (i : nat) (l : list nat) : option (list nat) :=
  match l with
  | [] => None
  | j :: l' => if time i <? time j then Some (i :: l) else (cons j) <$> insert_before time i l'
  end.
Definition place_ready (time : nat -> Z) (i : nat) (l : list nat) : res (list nat) :=
  match last l with
  | None => Ok (l ++ [i])
  | Some k =>
      if time k <=? time i then Ok (l ++ [i])
      else match insert_before time i l with Some l' => Ok l' | None => Err (EPanic "Failed to add to ready list.") end
  end.
Definition addToReadyList (i : nat) : Q unit :=
  s ← get;
  l ← lift (place_ready (ready_at (q_store s)) i (readyList (q_queue s)));
  on_queue (set_readyList l).

Fixpoint find_entry (p : E -> res bool) (m : gmap nat E) (l : list nat) : res (option nat) :=
  match l with
  | [] => Ok None
  | i :: l' =>
      match m !! i with
      | None => Err (EUndefined "queue entry")
      | Some e => b ← p e; if b : bool then Ok (Some i) else find_entry p m l'
      end
  end.

Definition findMatch (blk_addr : Z) (is_secure ignore_uncacheable : bool) : Q (option nat) :=
  s ← get;
  lift (find_entry (fun e => if ignore_uncacheable && qe_isUncacheable e then Ok false
                             else qe_matchBlockAddr blk_addr is_secure e)
          (q_store s) (allocatedList (q_queue s))).

Definition findPending (other : Z -> bool -> res bool) : Q (option nat) :=
  s ← get; lift (find_entry (qe_conflictAddr other) (q_store s) (readyList (q_queue s))).

(** The loop of [trySatisfyFunctional]; labels only serve printing. *)
Fixpoint satisfy_from (l : list nat) (pkt : Pkt) : Q (bool * Pkt) :=
  match l with
  | [] => mret (false, pkt)
  | i :: l' =>
      e ← the_entry i;
      m ← lift (qe_matchBlockPkt pkt e);
      if m : bool then
        '(found, pkt', e') ← lift (qe_trySatisfyFunctional pkt e);
        put_entry i e';;
        if found : bool then mret (true, pkt') else satisfy_from l' pkt'
      else satisfy_from l' pkt
  end.
Definition q_trySatisfyFunctional (pkt : Pkt) : Q (bool * Pkt) :=
  l ← gets (fun s => allocatedList (q_queue s)); satisfy_from l pkt.

Definition getNext (s : QS E) : option nat :=
  match readyList (q_queue s) with
  | [] => None
  | i :: _ => if q_now s <? ready_at (q_store s) i then None else Some i
  end.
Definition nextReadyTime (s : QS E) : Z :=
  match readyList (q_queue s) with [] => MaxTick | i :: _ => ready_at (q_store s) i end.

Definition q_signalDrainDone : Q unit :=
  on_queue (fun q => if decide (q_drainState q = Draining) then set_q_drainState Drained q else q).

Definition deallocate (i : nat) : Q unit :=
  q ← gets q_queue;
  al ← lift (iterator (erase i (allocatedList q)));
  on_queue (set_allocatedList al);;
  on_queue (set_freeList (i :: freeList q));;
  on_queue (set_allocated (q_allocated q - 1));;
  e ← the_entry i;
  (if qe_inService e then on_queue (set_numInService (q_numInService q - 1))
   else rl ← lift (iterator (erase i (readyList q))); on_queue (set_readyList rl));;
  e' ← lift (qe_deallocate e);
  put_entry i e';;
  when_ (bool_decide (q_drainState q = Draining) && (q_allocated q - 1 =? 0)) q_signalDrainDone.

(** What both [allocate] functions do with an entry they have filled in. *)
Definition enlist (i : nat) : Q unit :=
  on_queue (fun q => set_allocatedList (allocatedList q ++ [i]) q);;
  addToReadyList i;;
  on_queue (fun q => set_allocated (q_allocated q + 1) q).
End Queue.
