(* ===== verification/CacheQueueProps.v ===== *)
(** * The lists of a cache queue

    [q_inv]: the allocated and the free list divide the entries of the queue, the
    ready list holds the allocated entries that are not in service, and the
    counters count them.  [q_sorted]: the ready list is in the order of the ready
    times.  The lemmas hold for every kind of entry. *)

From S2P Require Import Prelude Drain Packet Request PacketData CacheQueue.

(** ** Lists *)

Lemma erase_spec (l : list nat) i : i ∈ l -> exists l1 l2, l = l1 ++ i :: l2 /\ i ∉ l1 /\ erase i l = Some (l1 ++ l2).
Proof.
  induction l as [|j l IH]; [by intros ?%not_elem_of_nil|]. intros Hi. simpl. case_decide as Hd.
  - subst. exists [], l. split; [done|]. split; [apply not_elem_of_nil|done].
  - apply elem_of_cons in Hi as [|Hi]; [done|]. destruct (IH Hi) as (l1 & l2 & -> & Hn & E). exists (j :: l1), l2.
    split; [done|]. split; [set_solver|]. by rewrite E.
Qed.

Lemma erase_perm (l : list nat) i : i ∈ l -> exists l', erase i l = Some l' /\ l ≡ₚ i :: l' /\ sublist l' l.
Proof.
  intros Hi. destruct (erase_spec l i Hi) as (l1 & l2 & -> & _ & E). exists (l1 ++ l2). split; [done|].
  split; [by rewrite Permutation_middle|]. apply sublist_app; [done|]. by apply sublist_cons.
Qed.

Lemma StronglySorted_sublist {A} (R : A -> A -> Prop) l l' : sublist l l' -> StronglySorted R l' -> StronglySorted R l.
Proof.
  induction 1 as [|x l l' Hs IH|x l l' Hs IH]; intros Hl; [done|..].
  - apply StronglySorted_inv in Hl as [Hl Hx]. constructor; [by apply IH|].
    rewrite Forall_forall in *. intros y Hy. apply Hx. by eapply elem_of_sublist.
  - apply StronglySorted_inv in Hl as [Hl _]. by apply IH.
Qed.

Lemma StronglySorted_app_mid {A} (R : A -> A -> Prop) l1 l2 x : StronglySorted R (l1 ++ l2) ->
  Forall (fun y => R y x) l1 -> Forall (R x) l2 -> StronglySorted R (l1 ++ x :: l2).
Proof.
  induction l1 as [|y l1 IH]; simpl; intros Hs H1 H2; [by constructor|].
  apply StronglySorted_inv in Hs as [Hs Hy]. apply Forall_cons in H1 as [Hyx H1]. constructor; [by apply IH|].
  apply Forall_app in Hy as [Hy1 Hy2]. apply Forall_app. split; [done|]. by constructor.
Qed.

(** ** Placing an entry on the ready list *)

Section Place.
Context (time : nat -> Z).
Definition no_later (i j : nat) : Prop := time i <= time j.

Lemma insert_before_spec i l k : k ∈ l -> time i < time k ->
  exists l1 l2, l = l1 ++ l2 /\ insert_before time i l = Some (l1 ++ i :: l2) /\ Forall (fun j => time j <= time i) l1
    /\ hd_error l2 = hd_error (filter (fun j => time i < time j) l).
Proof.
  induction l as [|j l IH]; [by intros ?%not_elem_of_nil|]. intros Hk Hlt. simpl. destruct (Z.ltb_spec (time i) (time j)) as [Hj|Hj].
  - exists [], (j :: l). rewrite filter_cons, decide_True by done. repeat split; constructor.
  - apply elem_of_cons in Hk as [->|Hk]; [lia|]. destruct (IH Hk Hlt) as (l1 & l2 & -> & E & Hf & Hh).
    exists (j :: l1), l2. rewrite E, filter_cons, decide_False by lia. repeat split; try done. by constructor.
Qed.

(** The entry goes somewhere; no input makes the loop fall through. *)
Lemma place_ready_total i l :
  exists l1 l2, l = l1 ++ l2 /\ place_ready time i l = Ok (l1 ++ i :: l2)
    /\ (StronglySorted no_later l -> Forall (fun j => time j <= time i) l1 /\ Forall (fun j => time i < time j) l2).
Proof.
  unfold place_ready. destruct (last l) as [k|] eqn:Hl.
  - apply last_Some in Hl as [l0 ->]. destruct (Z.leb_spec (time k) (time i)) as [Hk|Hk].
    + exists (l0 ++ [k]), []. rewrite app_nil_r. split; [done|]. split; [done|].
      intros Hs. split; [|constructor].
      apply Forall_app. split; [|by constructor]. apply Forall_forall. intros j Hj.
      assert (time j <= time k); [|lia]. clear -Hs Hj. induction l0 as [|x l0 IH]; [by apply not_elem_of_nil in Hj|].
      simpl in Hs. apply StronglySorted_inv in Hs as [Hs Hx]. apply elem_of_cons in Hj as [->|Hj]; [|by apply IH].
      apply Forall_app in Hx as [_ Hx]. by apply Forall_cons in Hx as [Hx _].
    + destruct (insert_before_spec i (l0 ++ [k]) k) as (l1 & l2 & E1 & E2 & Hf & Hh); [set_solver|done|].
      exists l1, l2. rewrite E2. split; [done|]. split; [done|]. intros Hs. split; [done|]. rewrite E1 in Hh, Hs. clear E1 E2.
      destruct l2 as [|x l2]; [constructor|]. simpl in Hh.
      assert (time i < time x) as Hx.
      { symmetry in Hh. destruct (filter _ _) as [|y f] eqn:Ef; [done|]. simpl in Hh. injection Hh as <-.
        assert (y ∈ filter (fun j => time i < time j) (l1 ++ y :: l2)) as Hy by (rewrite Ef; set_solver).
        by apply list_elem_of_filter in Hy as [Hy _]. }
      constructor; [done|]. clear -Hs Hx. induction l1 as [|y l1 IH]; simpl in Hs.
      * apply StronglySorted_inv in Hs as [_ Hs]. eapply Forall_impl; [done|]. unfold no_later. simpl. lia.
      * apply StronglySorted_inv in Hs as [Hs _]. by apply IH.
  - apply last_None in Hl. subst. exists [], []. repeat split; constructor.
Qed.

Lemma place_ready_sorted i l1 l2 : StronglySorted no_later (l1 ++ l2) ->
  Forall (fun j => time j <= time i) l1 -> Forall (fun j => time i < time j) l2 -> StronglySorted no_later (l1 ++ i :: l2).
Proof.
  intros Hs H1 H2. apply StronglySorted_app_mid; [done|done|]. eapply Forall_impl; [exact H2|]. unfold no_later. simpl. lia.
Qed.

Lemma StronglySorted_no_later_ext (time' : nat -> Z) l : (forall j, j ∈ l -> time j = time' j) -> StronglySorted no_later l ->
  StronglySorted (fun i j => time' i <= time' j) l.
Proof.
  induction l as [|x l IH]; intros He Hs; [constructor|]. apply StronglySorted_inv in Hs as [Hs Hx].
  constructor; [apply IH; [set_solver|done]|]. apply Forall_forall. intros j Hj. rewrite Forall_forall in Hx.
  rewrite <- !He by set_solver. by apply Hx.
Qed.
End Place.

(** ** The invariant *)

Section Inv.
Context {E : Type} `{QE : !QueueEntry E}.
Implicit Types (s : QS E) (m : gmap nat E) (e : E).

Record q_inv (s : QS E) : Prop := {
  qi_size : numEntries (q_queue s) = Z.of_nat (length (q_entries (q_queue s)));
  qi_perm : allocatedList (q_queue s) ++ freeList (q_queue s) ≡ₚ q_entries (q_queue s);
  qi_nodup : NoDup (q_entries (q_queue s));
  qi_dom : forall i, i ∈ q_entries (q_queue s) -> is_Some (q_store s !! i);
  qi_rnodup : NoDup (readyList (q_queue s));
  qi_ready : forall i, i ∈ readyList (q_queue s) <->
    i ∈ allocatedList (q_queue s) /\ exists e, q_store s !! i = Some e /\ qe_inService e = false;
  qi_alloc : q_allocated (q_queue s) = Z.of_nat (length (allocatedList (q_queue s)));
  qi_serv : q_numInService (q_queue s) + Z.of_nat (length (readyList (q_queue s))) = Z.of_nat (length (allocatedList (q_queue s)))
}.
Definition q_sorted (s : QS E) : Prop := StronglySorted (no_later (ready_at (q_store s))) (readyList (q_queue s)).

(** What the lists depend on. *)
Definition view (e : E) : Z * bool := (qe_readyTime e, qe_inService e).
Definition same_views m m' : Prop := forall i, view <$> m !! i = view <$> m' !! i.

Lemma same_views_lookup m m' i e : same_views m m' -> m !! i = Some e -> exists e', m' !! i = Some e' /\ view e' = view e.
Proof.
  intros Hv Hi. specialize (Hv i). rewrite Hi in Hv. destruct (m' !! i) as [e'|]; [|done]. exists e'.
  split; [done|]. injection Hv as H1 H2. unfold view. by rewrite H1, H2.
Qed.
Lemma same_views_sym m m' : same_views m m' -> same_views m' m.
Proof. intros Hv i. by rewrite Hv. Qed.
Lemma same_views_trans m1 m2 m3 : same_views m1 m2 -> same_views m2 m3 -> same_views m1 m3.
Proof. intros H1 H2 i. by rewrite H1. Qed.
Lemma same_views_insert m i e e' : m !! i = Some e -> view e' = view e -> same_views m (<[i := e']> m).
Proof.
  intros Hi Hv j. destruct (decide (i = j)) as [<-|Hne]; [|by rewrite lookup_insert_ne].
  by rewrite lookup_insert_eq, Hi; simpl; rewrite Hv.
Qed.
Lemma same_views_time m m' i : same_views m m' -> ready_at m i = ready_at m' i.
Proof. intros Hv. specialize (Hv i). unfold ready_at. destruct (m !! i), (m' !! i); try done. by injection Hv. Qed.

(** [q_inv] needs to know which entries are in service only. *)
Definition same_service m m' : Prop := forall i, qe_inService <$> m !! i = qe_inService <$> m' !! i.
Lemma same_views_service m m' : same_views m m' -> same_service m m'.
Proof. intros Hv i. specialize (Hv i). destruct (m !! i), (m' !! i); try done. injection Hv as _ Hv. simpl. by rewrite Hv. Qed.

Lemma q_inv_service s m : q_inv s -> same_service (q_store s) m -> q_inv (set_store m s).
Proof.
  intros [H1 H2 H3 H4 H5 H6 H7 H8] Hv. split; simpl; try done.
  - intros i Hi. destruct (H4 i Hi) as [e He]. specialize (Hv i). rewrite He in Hv. destruct (m !! i); [by eexists|done].
  - intros i. rewrite H6. specialize (Hv i). destruct (q_store s !! i), (m !! i); try done.
    injection Hv as Hv. naive_solver congruence.
Qed.
Lemma q_inv_store s m : q_inv s -> same_views (q_store s) m -> q_inv (set_store m s).
Proof. intros Hq Hv. apply q_inv_service; [done|by apply same_views_service]. Qed.

Lemma q_sorted_store s m : q_sorted s -> same_views (q_store s) m -> q_sorted (set_store m s).
Proof. intros Hs Hv. by apply (StronglySorted_no_later_ext (ready_at (q_store s))); [intros; by apply same_views_time|]. Qed.

Lemma qi_anodup s : q_inv s -> NoDup (allocatedList (q_queue s) ++ freeList (q_queue s)).
Proof. intros [? H2 H3 ? ? ? ? ?]. by rewrite H2. Qed.

Lemma qi_member s i : q_inv s -> i ∈ q_entries (q_queue s) <-> i ∈ allocatedList (q_queue s) \/ i ∈ freeList (q_queue s).
Proof. intros Hq. rewrite <- (qi_perm s Hq). apply elem_of_app. Qed.

Lemma qi_alloc_entry s i : q_inv s -> i ∈ allocatedList (q_queue s) -> is_Some (q_store s !! i).
Proof. intros Hq Hi. apply (qi_dom s Hq). apply qi_member; auto. Qed.

Lemma the_entry_run i s e : q_store s !! i = Some e -> the_entry i s = Ok (e, s).
Proof. unfold the_entry. by intros ->. Qed.

Lemma bind_on_queue {B} f (k : unit -> M (QS E) B) s : (on_queue f ≫= k) s = k tt (set_queue (f (q_queue s)) s).
Proof. done. Qed.
Lemma bind_put_entry {B} i e (k : unit -> M (QS E) B) s : (put_entry i e ≫= k) s = k tt (set_store (<[i := e]> (q_store s)) s).
Proof. done. Qed.
Lemma bind_lift {A B} (r : res A) a (k : A -> M (QS E) B) s : r = Ok a -> (lift r ≫= k) s = k a s.
Proof. by intros ->. Qed.

Lemma addToReadyList_run i s : exists l1 l2, readyList (q_queue s) = l1 ++ l2 /\
  addToReadyList i s = Ok (tt, set_queue (set_readyList (l1 ++ i :: l2) (q_queue s)) s) /\
  (q_sorted s -> Forall (fun j => ready_at (q_store s) j <= ready_at (q_store s) i) l1
                 /\ Forall (fun j => ready_at (q_store s) i < ready_at (q_store s) j) l2).
Proof.
  destruct (place_ready_total (ready_at (q_store s)) i (readyList (q_queue s))) as (l1 & l2 & E1 & E2 & Hs).
  exists l1, l2. split; [done|]. split; [|done]. unfold addToReadyList. rewrite (bind_run get _ s s s) by done.
  rewrite (bind_run _ _ s (l1 ++ i :: l2) s); [done|]. unfold lift. by rewrite E2.
Qed.

(** *** Taking an entry out *)

Record freed (i : nat) (e' : E) (s s' : QS E) : Prop := {
  fr_inv : q_inv s';
  fr_sorted : q_sorted s -> q_sorted s';
  fr_now : q_now s' = q_now s;
  fr_store : q_store s' = <[i := e']> (q_store s);
  fr_entries : q_entries (q_queue s') = q_entries (q_queue s);
  fr_reserve : numReserve (q_queue s') = numReserve (q_queue s);
  fr_free : freeList (q_queue s') = i :: freeList (q_queue s);
  fr_alloc : erase i (allocatedList (q_queue s)) = Some (allocatedList (q_queue s'));
  fr_ready : sublist (readyList (q_queue s')) (readyList (q_queue s))
}.

Lemma freed_core s i e e' al rl n d : q_inv s -> i ∈ allocatedList (q_queue s) -> q_store s !! i = Some e ->
  erase i (allocatedList (q_queue s)) = Some al -> sublist rl (readyList (q_queue s)) ->
  (forall j, j ∈ rl <-> j ∈ readyList (q_queue s) /\ j <> i) ->
  n + Z.of_nat (length rl) = Z.of_nat (length al) ->
  freed i e' s (set_queue (mkQueue (numEntries (q_queue s)) (numReserve (q_queue s)) (q_entries (q_queue s)) al rl
    (i :: freeList (q_queue s)) n (q_allocated (q_queue s) - 1) d) (set_store (<[i := e']> (q_store s)) s)).
Proof.
  intros Hq Hi He Ea Hsub Hrl Hn. pose proof (qi_anodup s Hq) as Hnd. destruct (erase_perm _ _ Hi) as (al' & Ea' & Hp & _).
  assert (al' = al) as -> by congruence. destruct Hq as [H1 H2 H3 H4 H5 H6 H7 H8].
  assert (forall j, j ∈ al <-> j ∈ allocatedList (q_queue s) /\ j <> i) as Hal.
  { intros j. rewrite Hp in Hnd |- *. simpl in Hnd. apply NoDup_cons in Hnd as [Hnd _]. set_solver. }
  split; try done; simpl.
  - split; simpl; try done.
    + rewrite <- H2, Hp. simpl. by rewrite Permutation_middle.
    + intros j Hj. destruct (decide (i = j)) as [<-|Hne]; [rewrite lookup_insert_eq; by eexists|].
      rewrite lookup_insert_ne by done. by apply H4.
    + by apply (sublist_NoDup _ (readyList (q_queue s))).
    + intros j. rewrite Hrl, H6, Hal. destruct (decide (j = i)) as [->|Hne]; [tauto|].
      rewrite lookup_insert_ne by done. tauto.
    + rewrite H7, Hp. simpl. lia.
  - intros Hs. unfold q_sorted. simpl. apply (StronglySorted_no_later_ext (ready_at (q_store s))).
    + intros j Hj. apply Hrl in Hj as [_ Hne]. unfold ready_at. by rewrite lookup_insert_ne.
    + by eapply StronglySorted_sublist.
Qed.

(** Signalling the drain manager changes the drain state only. *)
Definition signalled (b : bool) (d : DrainState) : DrainState :=
  if b then if decide (d = Draining) then Drained else d else d.
Lemma q_signal_run b s : when_ b q_signalDrainDone s = Ok (tt, set_queue (set_q_drainState (signalled b (q_drainState (q_queue s))) (q_queue s)) s).
Proof.
  destruct s as [now m [? ? ? ? ? ? ? ? d]]. destruct b; [|done]. unfold when_, q_signalDrainDone, on_queue, modify, signalled. simpl.
  by case_decide.
Qed.

Lemma deallocate_run s i e e' : q_inv s -> i ∈ allocatedList (q_queue s) -> q_store s !! i = Some e -> qe_deallocate e = Ok e' ->
  exists s', deallocate i s = Ok (tt, s') /\ freed i e' s s'.
Proof.
  intros Hq Hi He Hd. destruct (erase_perm _ _ Hi) as (al & Ea & Hp & _). unfold deallocate. rewrite bind_gets, Ea.
  rewrite (bind_lift _ al) by done. rewrite !bind_on_queue.
  rewrite (bind_run _ _ _ e _) by (by apply the_entry_run).
  pose proof (Permutation_length Hp) as Hlen. simpl in Hlen. pose proof (qi_serv s Hq) as Hserv.
  destruct (qe_inService e) eqn:Hsv.
  - rewrite bind_on_queue, (bind_lift _ e'), bind_put_entry by done. eexists. split; [by apply q_signal_run|].
    apply (freed_core s i e e' al); try done.
    + intros j. split; [|tauto]. intros Hj. split; [done|]. intros ->. apply (qi_ready s Hq) in Hj as (_ & x & Hx & Hs). congruence.
    + simpl. lia.
  - assert (i ∈ readyList (q_queue s)) as Hr by (apply (qi_ready s Hq); eauto).
    destruct (erase_perm _ _ Hr) as (rl & Er & Hpr & Hsub). pose proof (Permutation_length Hpr) as Hlr. simpl in Hlr.
    rewrite bind_assoc. rewrite Er, (bind_lift _ rl), bind_on_queue, (bind_lift _ e'), bind_put_entry by done. eexists. split; [by apply q_signal_run|].
    apply (freed_core s i e e' al); try done.
    + pose proof (qi_rnodup s Hq) as Hn. intros j. rewrite Hpr in Hn |- *. apply NoDup_cons in Hn as [Hn _]. set_solver.
    + simpl. lia.
Qed.

(** *** Putting an entry in *)

Definition same_views_but (i : nat) (m m' : gmap nat E) : Prop := forall j, j <> i -> view <$> m !! j = view <$> m' !! j.

Lemma same_views_but_lookup i m m' j e : same_views_but i m m' -> j <> i -> m !! j = Some e ->
  exists e', m' !! j = Some e' /\ view e' = view e.
Proof.
  intros Hv Hj He. specialize (Hv j Hj). rewrite He in Hv. destruct (m' !! j) as [e'|]; [|done]. exists e'.
  split; [done|]. injection Hv as H1 H2. unfold view. by rewrite H1, H2.
Qed.
Lemma same_views_but_sym i m m' : same_views_but i m m' -> same_views_but i m' m.
Proof. intros Hv j Hj. by rewrite Hv. Qed.
Lemma same_views_but_time i m m' j : same_views_but i m m' -> j <> i -> ready_at m j = ready_at m' j.
Proof. intros Hv Hj. specialize (Hv j Hj). unfold ready_at. destruct (m !! j), (m' !! j); try done. by injection Hv. Qed.
Lemma same_views_but_of i m m' : same_views m m' -> same_views_but i m m'.
Proof. intros Hv j _. apply Hv. Qed.

(** The ready list of [q] with the entry [i], wherever it goes by its time. *)
Record enlisted (i : nat) (s s' : QS E) : Prop := {
  en_inv : q_inv s';
  en_sorted : q_sorted s -> q_sorted s';
  en_ready : exists l1 l2, readyList (q_queue s) = l1 ++ l2 /\ readyList (q_queue s') = l1 ++ i :: l2
    /\ (q_sorted s -> Forall (fun j => ready_at (q_store s') j <= ready_at (q_store s') i) l1
                       /\ Forall (fun j => ready_at (q_store s') i < ready_at (q_store s') j) l2)
}.

Lemma place_run s i m q1 : same_views_but i (q_store s) m -> i ∉ readyList (q_queue s) -> readyList q1 = readyList (q_queue s) ->
  exists l1 l2, readyList (q_queue s) = l1 ++ l2 /\
    addToReadyList i (mkQS (q_now s) m q1) = Ok (tt, mkQS (q_now s) m (set_readyList (l1 ++ i :: l2) q1)) /\
    (q_sorted s -> StronglySorted (no_later (ready_at m)) (l1 ++ i :: l2)
       /\ Forall (fun j => ready_at m j <= ready_at m i) l1 /\ Forall (fun j => ready_at m i < ready_at m j) l2).
Proof.
  intros Hv Hi Hr. destruct (addToReadyList_run i (mkQS (q_now s) m q1)) as (l1 & l2 & E1 & E2 & Hs). simpl in *.
  exists l1, l2. split; [congruence|]. split; [done|]. intros Hq.
  assert (StronglySorted (no_later (ready_at m)) (l1 ++ l2)) as Hm.
  { rewrite <- E1, Hr. apply (StronglySorted_no_later_ext (ready_at (q_store s))); [|done].
    intros j Hj. apply (same_views_but_time i); [done|]. by intros ->. }
  destruct Hs as [H1 H2]; [unfold q_sorted; simpl; by rewrite E1|]. split; [by apply place_ready_sorted|done].
Qed.

Lemma enlist_run s i fl m e : q_inv s -> freeList (q_queue s) = i :: fl -> same_views_but i (q_store s) m ->
  m !! i = Some e -> qe_inService e = false ->
  exists s', enlist i (mkQS (q_now s) m (set_freeList fl (q_queue s))) = Ok (tt, s') /\ enlisted i s s'
    /\ q_now s' = q_now s /\ q_store s' = m /\ freeList (q_queue s') = fl
    /\ allocatedList (q_queue s') = allocatedList (q_queue s) ++ [i] /\ q_entries (q_queue s') = q_entries (q_queue s)
    /\ numReserve (q_queue s') = numReserve (q_queue s).
Proof.
  intros Hq Hf Hv He Hsv. pose proof (qi_anodup s Hq) as Hnd. rewrite Hf in Hnd.
  assert (i ∉ allocatedList (q_queue s)) as Hia by (apply NoDup_app in Hnd as (_ & Hx & _); intros Hi; apply (Hx i Hi); set_solver).
  assert (i ∉ readyList (q_queue s)) as Hir by (intros Hi; by apply (qi_ready s Hq) in Hi as [? _]).
  destruct (place_run s i m (set_allocatedList (allocatedList (q_queue s) ++ [i]) (set_freeList fl (q_queue s)))) as (l1 & l2 & E1 & E2 & Hs); [done..|].
  eexists. split.
  { unfold enlist. rewrite bind_on_queue. simpl. rewrite (bind_run _ _ _ _ _ E2). reflexivity. }
  split; [|by repeat split].
  destruct Hq as [H1 H2 H3 H4 H5 H6 H7 H8]. split; simpl.
  - split; simpl; try done.
    + rewrite <- H2, Hf, <- app_assoc. done.
    + intros j Hj. destruct (decide (j = i)) as [->|Hne]; [by eexists|]. destruct (H4 j Hj) as [x Hx].
      destruct (same_views_but_lookup _ _ _ _ _ Hv Hne Hx) as (x' & -> & _). by eexists.
    + rewrite <- Permutation_middle, <- E1. by constructor.
    + intros j. rewrite <- Permutation_middle, <- E1, elem_of_cons, elem_of_app, list_elem_of_singleton, H6.
      destruct (decide (j = i)) as [->|Hne]; [naive_solver|].
      specialize (Hv j Hne). destruct (q_store s !! j), (m !! j); try done; [|naive_solver].
      injection Hv as _ Hv. naive_solver congruence.
    + rewrite H7, length_app. simpl. lia.
    + rewrite !length_app. rewrite E1, length_app in H8. simpl. lia.
  - intros Hq. by apply Hs.
  - exists l1, l2. split; [done|]. split; [done|]. intros Hq. by apply Hs.
Qed.

(** *** Moving between the ready list and service *)

Lemma q_inv_ready s l : q_inv s -> l ≡ₚ readyList (q_queue s) -> q_inv (set_queue (set_readyList l (q_queue s)) s).
Proof. intros [H1 H2 H3 H4 H5 H6 H7 H8] Hp. split; simpl; try done; try (by rewrite Hp). intros i. by rewrite Hp. Qed.

(** The members of the ready list, when only entry [i] has changed. *)
Lemma ready_but s m i j : q_inv s -> same_views_but i (q_store s) m -> j <> i ->
  j ∈ readyList (q_queue s) <-> j ∈ allocatedList (q_queue s) /\ exists e, m !! j = Some e /\ qe_inService e = false.
Proof.
  intros Hq Hv Hj. rewrite (qi_ready s Hq). specialize (Hv j Hj). destruct (q_store s !! j), (m !! j); try done.
  injection Hv as _ Hv. naive_solver congruence.
Qed.

Lemma dom_but s m i e : q_inv s -> same_views_but i (q_store s) m -> m !! i = Some e -> forall j, j ∈ q_entries (q_queue s) -> is_Some (m !! j).
Proof.
  intros Hq Hv He j Hj. destruct (decide (j = i)) as [->|Hne]; [by eexists|]. destruct (qi_dom s Hq j Hj) as [x Hx].
  destruct (same_views_but_lookup _ _ _ _ _ Hv Hne Hx) as (x' & -> & _). by eexists.
Qed.

Lemma sent_inv s m i e rl : q_inv s -> i ∈ readyList (q_queue s) -> same_views_but i (q_store s) m -> m !! i = Some e -> qe_inService e = true ->
  erase i (readyList (q_queue s)) = Some rl ->
  q_inv (mkQS (q_now s) m (set_numInService (q_numInService (q_queue s) + 1) (set_readyList rl (q_queue s)))).
Proof.
  intros Hq Hi Hv He Hs Er. destruct (erase_perm _ _ Hi) as (rl' & Er' & Hp & Hsub). assert (rl' = rl) as -> by congruence.
  pose proof (qi_rnodup s Hq) as Hnd. rewrite Hp in Hnd. apply NoDup_cons in Hnd as [Hni Hnd].
  pose proof (Permutation_length Hp) as Hlen. simpl in Hlen. pose proof Hq as [H1 H2 H3 H4 H5 H6 H7 H8]. split; simpl; try done.
  - by apply (dom_but s m i e).
  - intros j. destruct (decide (j = i)) as [->|Hne]; [split; [done|]; intros (_ & x & Hx & Hxs); congruence|].
    rewrite <- (ready_but s m i j) by done. rewrite Hp. set_solver.
  - lia.
Qed.

Lemma pending_run s m i e : q_inv s -> i ∈ allocatedList (q_queue s) -> i ∉ readyList (q_queue s) -> same_views_but i (q_store s) m ->
  m !! i = Some e -> qe_inService e = false ->
  exists l1 l2, readyList (q_queue s) = l1 ++ l2 /\
    let q := set_numInService (q_numInService (q_queue s) - 1) (q_queue s) in
    addToReadyList i (mkQS (q_now s) m q) = Ok (tt, mkQS (q_now s) m (set_readyList (l1 ++ i :: l2) q)) /\
    q_inv (mkQS (q_now s) m (set_readyList (l1 ++ i :: l2) q)) /\
    (q_sorted s -> q_sorted (mkQS (q_now s) m (set_readyList (l1 ++ i :: l2) q))).
Proof.
  intros Hq Hi Hir Hv He Hs.
  destruct (place_run s i m (set_numInService (q_numInService (q_queue s) - 1) (q_queue s))) as (l1 & l2 & E1 & E2 & Hsort); [done..|].
  exists l1, l2. split; [done|]. split; [done|]. split; [|intros Hso; by apply Hsort].
  pose proof Hq as [H1 H2 H3 H4 H5 H6 H7 H8]. split; simpl; try done.
  - by apply (dom_but s m i e).
  - rewrite <- Permutation_middle, <- E1. by constructor.
  - intros j. rewrite <- Permutation_middle, <- E1, elem_of_cons.
    destruct (decide (j = i)) as [->|Hne]; [naive_solver|]. rewrite <- (ready_but s m i j) by done. naive_solver.
  - rewrite E1 in H8. rewrite !length_app in *. simpl. lia.
Qed.

(** *** Queries *)

(** The head of a sorted ready list is a pending entry that is ready first. *)
Lemma getNext_some s i : q_inv s -> q_sorted s -> getNext s = Some i ->
  i ∈ readyList (q_queue s) /\ ready_at (q_store s) i <= q_now s
  /\ forall j, j ∈ readyList (q_queue s) -> ready_at (q_store s) i <= ready_at (q_store s) j.
Proof.
  intros Hq Hs. unfold getNext, q_sorted in *. destruct (readyList (q_queue s)) as [|k l]; [done|].
  destruct (Z.ltb_spec (q_now s) (ready_at (q_store s) k)); [done|]. intros [= ->]. split; [set_solver|]. split; [done|].
  apply StronglySorted_inv in Hs as [_ Hs]. rewrite Forall_forall in Hs. intros j [->|Hj]%elem_of_cons; [lia|]. by apply Hs.
Qed.
Lemma getNext_none s : q_sorted s -> getNext s = None -> forall j, j ∈ readyList (q_queue s) -> q_now s < ready_at (q_store s) j.
Proof.
  intros Hs. unfold getNext, q_sorted in *. destruct (readyList (q_queue s)) as [|k l]; [by intros _ j ?%not_elem_of_nil|].
  destruct (Z.ltb_spec (q_now s) (ready_at (q_store s) k)) as [Hk|]; [|done]. intros _ j.
  apply StronglySorted_inv in Hs as [_ Hs]. rewrite Forall_forall in Hs. intros [->|Hj]%elem_of_cons; [done|].
  specialize (Hs j Hj). unfold no_later in Hs. lia.
Qed.

Definition entry_is (t : E -> bool) (m : gmap nat E) (i : nat) : bool := match m !! i with Some e => t e | None => false end.

(** A search answers with the first entry of the list that satisfies the test. *)
Lemma find_entry_spec (p : E -> res bool) (t : E -> bool) m l :
  (forall i, i ∈ l -> exists e, m !! i = Some e /\ p e = Ok (t e)) ->
  find_entry p m l = Ok (hd_error (filter (fun i => entry_is t m i = true) l)).
Proof.
  induction l as [|i l IH]; intros Hl; [done|]. destruct (Hl i) as (e & He & Hp); [set_solver|]. simpl.
  rewrite He, Hp. cbn [mbind res_bind]. rewrite filter_cons.
  assert (entry_is t m i = t e) as -> by (unfold entry_is; by rewrite He). destruct (t e).
  - by rewrite decide_True.
  - rewrite decide_False by done. apply IH. set_solver.
Qed.
End Inv.
