(* ===== verification/WriteQueue.v ===== *)
(** * Write buffers (mem/cache/write_queue_entry.{hh,cc}, write_queue.{hh,cc})

    Entries for evictions and uncacheable writes, and the queue over them. *)

From S2P Require Import Prelude Drain Packet Request PacketData CacheQueue.

Record WriteQueueEntry := mkWQE {
  wq_readyTime : Z;
  wq_isUncacheable : bool;
  wq_inService : bool;
  wq_order : Z;
  wq_blkAddr : Z;
  wq_blkSize : Z;
  wq_isSecure : bool;
  wq_targets : list Target
}.

Definition new_WriteQueueEntry : WriteQueueEntry := mkWQE 0 false false 0 0 0 false [].
Definition set_wq_targets (l : list Target) (e : WriteQueueEntry) : WriteQueueEntry :=
  mkWQE (wq_readyTime e) (wq_isUncacheable e) (wq_inService e) (wq_order e) (wq_blkAddr e) (wq_blkSize e) (wq_isSecure e) l.
Definition set_wq_inService (b : bool) (e : WriteQueueEntry) : WriteQueueEntry :=
  mkWQE (wq_readyTime e) (wq_isUncacheable e) b (wq_order e) (wq_blkAddr e) (wq_blkSize e) (wq_isSecure e) (wq_targets e).

Definition wq_hasTargets (e : WriteQueueEntry) : bool := match wq_targets e with [] => false | _ => true end.
Definition wq_getNumTargets (e : WriteQueueEntry) : Z := Z.of_nat (length (wq_targets e)).
Definition wq_getTarget (e : WriteQueueEntry) : res Target :=
  match wq_targets e with [] => Err (EAssert "hasTargets()") | t :: _ => Ok t end.
Definition wq_popTarget (e : WriteQueueEntry) : res WriteQueueEntry :=
  match wq_targets e with [] => Err (EUndefined "pop_front") | _ :: l => Ok (set_wq_targets l e) end.

Definition wq_allocate (now blk_addr blk_size : Z) (target : Pkt) (when_ready order : Z) (e : WriteQueueEntry)
    : res WriteQueueEntry :=
  secure ← isSecure target;
  let unc := isUncacheable (p_req target) in
  panic_r (negb unc && wq_hasTargets e) "should never have more than one cacheable target";;
  panic_r (negb ((isWrite (p_cmd target) && unc) || (isEviction (p_cmd target) && negb unc)
                 || bool_decide (p_cmd target = WriteClean)))
    "should be an uncacheable write or a cacheable eviction or a writeclean";;
  let l := wq_targets e ++ [mkTarget now when_ready order target] in
  front ← match l with [] => Err (EUndefined "front") | t :: _ => Ok (tg_pkt t) end;
  same ← matchBlockAddr target front blk_size;
  assert_r same "target->matchBlockAddr(targets.front().pkt, blkSize)";;
  mret (mkWQE when_ready unc false order blk_addr blk_size secure l).

Definition wq_deallocate (e : WriteQueueEntry) : res WriteQueueEntry :=
  assert_r (negb (wq_hasTargets e)) "targets.empty()";; Ok (set_wq_inService false e).

(** A print request only prints. *)
Definition wq_trySatisfyFunctional (pkt : Pkt) (e : WriteQueueEntry) : res (bool * Pkt * WriteQueueEntry) :=
  if isPrint (p_cmd pkt) then
    '(_, pkt', _) ← trySatisfyFunctional_at (wq_blkAddr e) (wq_isSecure e) (sgn 32 (wq_blkSize e)) None pkt;
    mret (false, pkt', e)
  else '(found, pkt', l) ← satisfy_targets tg_pkt set_tg_pkt (wq_targets e) pkt;
       mret (found, pkt', set_wq_targets l e).

Definition wq_matchBlockAddr (addr : Z) (is_secure : bool) (e : WriteQueueEntry) : res bool :=
  assert_r (wq_hasTargets e) "hasTargets()";; Ok ((wq_blkAddr e =? addr) && Bool.eqb (wq_isSecure e) is_secure).
Definition wq_matchBlockPkt (pkt : Pkt) (e : WriteQueueEntry) : res bool :=
  assert_r (wq_hasTargets e) "hasTargets()";; matchBlockAddr_at (wq_blkAddr e) (wq_isSecure e) (wq_blkSize e) pkt.
Definition wq_conflictAddr (other : Z -> bool -> res bool) (e : WriteQueueEntry) : res bool :=
  assert_r (wq_hasTargets e) "hasTargets()";; other (wq_blkAddr e) (wq_isSecure e).

#[global] Instance WriteQueueEntry_entry : QueueEntry WriteQueueEntry := {
  qe_readyTime := wq_readyTime;
  qe_isUncacheable := wq_isUncacheable;
  qe_inService := wq_inService;
  qe_order := wq_order;
  qe_matchBlockAddr := wq_matchBlockAddr;
  qe_matchBlockPkt := wq_matchBlockPkt;
  qe_conflictAddr := wq_conflictAddr;
  qe_trySatisfyFunctional := wq_trySatisfyFunctional;
  qe_deallocate := wq_deallocate
}.

(** ** The queue *)

Abbreviation WQ := (M (QS WriteQueueEntry)).

Definition WriteQueue_allocate (blk_addr blk_size : Z) (pkt : Pkt) (when_ready order : Z) : WQ nat :=
  s ← get;
  match freeList (q_queue s) with
  | [] => throw (EAssert "!freeList.empty()")
  | i :: fl =>
      entry ← the_entry i;
      assert_ (wq_getNumTargets entry =? 0) "entry->getNumTargets() == 0";;
      on_queue (set_freeList fl);;
      entry' ← lift (wq_allocate (q_now s) blk_addr blk_size pkt when_ready order entry);
      put_entry i entry';;
      enlist i;;
      mret i
  end.

Definition WriteQueue_markInService (i : nat) : WQ unit :=
  entry ← the_entry i;
  entry' ← lift (wq_popTarget entry);
  put_entry i entry';;
  deallocate i.
