(* ===== verification/WriteQueueProps.v ===== *)
(** * The write buffer refines a list of pending writes

    Seen from the cache, the write buffer is the list of the writes it has
    accepted and not sent yet, in the order of their acceptance. *)

From S2P Require Import Prelude Drain Packet Request PacketData CacheQueue CacheQueueProps WriteQueue.

(** ** The specification *)

Record PendingWrite := mkPW {
  pw_id : nat; pw_addr : Z; pw_secure : bool; pw_uncacheable : bool; pw_ready : Z; pw_order : Z; pw_pkt : Pkt
}.

Inductive wb_op :=
  | WAllocate (blk_addr blk_size : Z) (pkt : Pkt) (when_ready order : Z)
  | WSent (i : nat)
  | WFind (blk_addr : Z) (is_secure ignore_uncacheable : bool)
  | WNext
  | WTime (t : Z).

Definition wb_step (op : wb_op) : WQ (option nat) :=
  match op with
  | WAllocate a n pkt t o => i ← WriteQueue_allocate a n pkt t o; mret (Some i)
  | WSent i => WriteQueue_markInService i;; mret None
  | WFind a sec ign => findMatch a sec ign
  | WNext => gets getNext
  | WTime t => modify (fun s => mkQS t (q_store s) (q_queue s));; mret None
  end.

(** Uncacheable writes, evictions and clean writes belong here. *)
Definition wb_kind (pkt : Pkt) : bool :=
  (isWrite (p_cmd pkt) && isUncacheable (p_req pkt)) || (isEviction (p_cmd pkt) && negb (isUncacheable (p_req pkt)))
  || bool_decide (p_cmd pkt = WriteClean).

Definition wb_allowed (capacity : Z) (op : wb_op) (l : list PendingWrite) : Prop :=
  match op with
  | WAllocate _ _ pkt _ _ => Z.of_nat (length l) < capacity /\ p_isSet VALID_ADDR pkt = true /\ wb_kind pkt = true
  | WSent i => i ∈ map pw_id l
  | _ => True
  end.

(** [x] is due and the next to send: none is ready earlier, and none that is ready
    at the same time was accepted before. *)
Definition sends_first (now : Z) (l : list PendingWrite) (x : PendingWrite) : Prop :=
  x ∈ l /\ pw_ready x <= now /\ forall y, y ∈ l ->
    y = x \/ pw_ready x < pw_ready y \/ (pw_ready x = pw_ready y /\ sublist [x; y] l).

Definition wb_spec (now : Z) (op : wb_op) (l : list PendingWrite) (r : option nat) (l' : list PendingWrite) : Prop :=
  match op with
  | WAllocate a n pkt t o =>
      exists i, r = Some i /\ i ∉ map pw_id l
        /\ l' = l ++ [mkPW i a (p_isSecure pkt) (isUncacheable (p_req pkt)) t o pkt]
  | WSent i => l' = filter (fun w => pw_id w <> i) l
  | WFind a sec ign =>
      l' = l /\ r = pw_id <$> hd_error (filter (fun w => negb (ign && pw_uncacheable w) && (pw_addr w =? a)
                                                         && Bool.eqb (pw_secure w) sec = true) l)
  | WNext => l' = l /\ match r with
                       | Some i => exists x, pw_id x = i /\ sends_first now l x
                       | None => Forall (fun w => now < pw_ready w) l
                       end
  | WTime _ => l' = l
  end.

(** ** The abstraction *)

Definition pending_of (m : gmap nat WriteQueueEntry) (i : nat) : option PendingWrite :=
  e ← m !! i; t ← head (wq_targets e);
  Some (mkPW i (wq_blkAddr e) (wq_isSecure e) (wq_isUncacheable e) (wq_readyTime e) (wq_order e) (tg_pkt t)).
Definition wb_abs (s : QS WriteQueueEntry) : list PendingWrite := omap (pending_of (q_store s)) (allocatedList (q_queue s)).

Definition sent_before (m : gmap nat WriteQueueEntry) (l : list nat) (i j : nat) : Prop :=
  ready_at m i < ready_at m j \/ (ready_at m i = ready_at m j /\ sublist [i; j] l).

Record wb_inv (s : QS WriteQueueEntry) : Prop := {
  wi_queue : q_inv s;
  wi_fifo : StronglySorted (sent_before (q_store s) (allocatedList (q_queue s))) (readyList (q_queue s));
  wi_used : forall i, i ∈ allocatedList (q_queue s) ->
    exists e t, q_store s !! i = Some e /\ wq_targets e = [t] /\ wq_inService e = false;
  wi_free : forall i, i ∈ freeList (q_queue s) -> exists e, q_store s !! i = Some e /\ wq_targets e = []
}.

Lemma wi_sorted s : wb_inv s -> q_sorted s.
Proof.
  intros [_ Hf _ _]. unfold q_sorted. revert Hf. generalize (readyList (q_queue s)). intros l. induction 1 as [|i l Hs IH Hi]; [constructor|].
  constructor; [done|]. eapply Forall_impl; [exact Hi|]. unfold sent_before, no_later. intros j. simpl. lia.
Qed.

(** Everything allocated is waiting. *)
Lemma wi_ready s i : wb_inv s -> i ∈ readyList (q_queue s) <-> i ∈ allocatedList (q_queue s).
Proof.
  intros Hw. rewrite (qi_ready s (wi_queue s Hw)). split; [tauto|]. intros Hi. split; [done|].
  destruct (wi_used s Hw i Hi) as (e & t & He & _ & Hs). eauto.
Qed.

Lemma omap_ids (f : nat -> option PendingWrite) (l : list nat) : (forall i, i ∈ l -> exists w, f i = Some w /\ pw_id w = i) ->
  map pw_id (omap f l) = l.
Proof.
  induction l as [|i l IH]; intros Hl; [done|]. destruct (Hl i) as (w & Hw & Hi); [set_solver|]. simpl. rewrite Hw. simpl.
  f_equal; [done|]. apply IH. set_solver.
Qed.

Lemma pending_used s i : wb_inv s -> i ∈ allocatedList (q_queue s) ->
  exists w, pending_of (q_store s) i = Some w /\ pw_id w = i /\ pw_ready w = ready_at (q_store s) i.
Proof.
  intros Hw Hi. destruct (wi_used s Hw i Hi) as (e & t & He & Ht & _). eexists. unfold pending_of, ready_at. rewrite He. simpl.
  rewrite Ht. done.
Qed.

Lemma wb_ids s : wb_inv s -> map pw_id (wb_abs s) = allocatedList (q_queue s).
Proof. intros Hw. apply omap_ids. intros i Hi. destruct (pending_used s i Hw Hi) as (w & ? & ? & _). eauto. Qed.

Lemma wb_elem s w : wb_inv s -> w ∈ wb_abs s <-> pending_of (q_store s) (pw_id w) = Some w /\ pw_id w ∈ allocatedList (q_queue s).
Proof.
  intros Hw. unfold wb_abs. rewrite list_elem_of_omap. split.
  - intros (i & Hi & Hp). destruct (pending_used s i Hw Hi) as (w' & Hp' & Hid & _). assert (w' = w) as -> by congruence.
    by rewrite Hid.
  - intros [Hp Hi]. eauto.
Qed.

Lemma omap_ext_in (f g : nat -> option PendingWrite) (l : list nat) : (forall i, i ∈ l -> f i = g i) -> omap f l = omap g l.
Proof.
  induction l as [|i l IH]; intros Hl; [done|]. simpl. rewrite Hl by set_solver.
  assert (omap f l = omap g l) as E by (apply IH; set_solver). unfold omap in E. destruct (g i); [by f_equal|done].
Qed.

(** ** Accepting a write *)

Lemma own_block pkt n a b : getBlockAddr n pkt = Ok a -> isSecure pkt = Ok b -> matchBlockAddr pkt pkt n = Ok true.
Proof.
  intros Ha Hb. unfold matchBlockAddr, matchBlockAddr_at. rewrite !Ha, !Hb. cbn [mbind res_bind].
  rewrite Z.eqb_refl. cbn [mbind res_bind]. by rewrite Bool.eqb_reflx.
Qed.

Lemma wq_allocate_run now a n pkt t o e : p_isSet VALID_ADDR pkt = true -> wb_kind pkt = true -> wq_targets e = [] ->
  wq_allocate now a n pkt t o e = Ok (mkWQE t (isUncacheable (p_req pkt)) false o a n (p_isSecure pkt) [mkTarget now t o pkt]).
Proof.
  intros Hv Hk He. unfold wq_allocate. assert (isSecure pkt = Ok (p_isSecure pkt)) as Hs by (unfold isSecure; by rewrite Hv).
  rewrite Hs. cbn [mbind res_bind]. unfold wq_hasTargets. rewrite He, andb_false_r. unfold panic_r.
  unfold wb_kind in Hk. rewrite Hk. cbn [mbind res_bind negb app tg_pkt].
  rewrite (own_block pkt n (Z.ldiff (p_addr pkt) (blk_mask n)) (p_isSecure pkt)); [done| |done].
  unfold getBlockAddr, getAddr. by rewrite Hv.
Qed.

Lemma sent_before_app m l x i j : sent_before m l i j -> sent_before m (l ++ x) i j.
Proof. intros [?|[? Hs]]; [by left|]. right. split; [done|]. by apply sublist_inserts_r. Qed.

Lemma StronglySorted_impl {A} (R R' : A -> A -> Prop) l : (forall x y, x ∈ l -> y ∈ l -> R x y -> R' x y) ->
  StronglySorted R l -> StronglySorted R' l.
Proof.
  induction l as [|x l IH]; intros Hr Hs; [constructor|]. apply StronglySorted_inv in Hs as [Hs Hx].
  constructor; [apply IH; [intros; apply Hr; set_solver|done]|]. rewrite Forall_forall in *. intros y Hy. apply Hr; set_solver.
Qed.

Lemma sublist_pair (l : list nat) i j : i ∈ l -> sublist [i; j] (l ++ [j]).
Proof. intros Hi. apply (sublist_app [i] l [j] [j]); [by apply singleton_sublist_l|done]. Qed.

Lemma sent_before_ext m m' l i j : ready_at m i = ready_at m' i -> ready_at m j = ready_at m' j -> sent_before m l i j -> sent_before m' l i j.
Proof. unfold sent_before. intros -> ->. done. Qed.

Lemma allocate_refines s a n pkt t o : wb_inv s -> wb_allowed (numEntries (q_queue s)) (WAllocate a n pkt t o) (wb_abs s) ->
  exists i s', WriteQueue_allocate a n pkt t o s = Ok (i, s') /\ wb_inv s'
    /\ wb_spec (q_now s) (WAllocate a n pkt t o) (wb_abs s) (Some i) (wb_abs s').
Proof.
  intros Hw (Hlen & Hv & Hk). pose proof (wi_queue s Hw) as Hq.
  destruct (freeList (q_queue s)) as [|i fl] eqn:Hf.
  { exfalso. pose proof (Permutation_length (qi_perm s Hq)) as Hl. rewrite Hf, app_nil_r in Hl.
    rewrite (qi_size s Hq), <- Hl, <- (wb_ids s Hw), length_map in Hlen. lia. }
  destruct (wi_free s Hw i) as (e & He & Ht); [rewrite Hf; set_solver|]. pose proof (qi_anodup s Hq) as Hnd. rewrite Hf in Hnd.
  assert (i ∉ allocatedList (q_queue s)) as Hia by (apply NoDup_app in Hnd as (_ & Hx & _); intros Hi; apply (Hx i Hi); set_solver).
  set (e' := mkWQE t (isUncacheable (p_req pkt)) false o a n (p_isSecure pkt) [mkTarget (q_now s) t o pkt]).
  destruct (enlist_run s i fl (<[i := e']> (q_store s)) e') as (s' & Hrun & [Hinv Hsort (l1 & l2 & E1 & E2 & Hpl)] & Hn & Hst & Hfr & Hal & Hen & Hre);
    [done|done|intros j Hj; by rewrite lookup_insert_ne|by rewrite lookup_insert_eq|done|].
  assert (forall j, j ∈ allocatedList (q_queue s) -> j <> i) as Hne by (intros j Hj ->; done).
  exists i, s'. split; [|split].
  - unfold WriteQueue_allocate. rewrite (bind_run get _ s s s) by done. rewrite Hf.
    rewrite (bind_run _ _ _ e s) by (by apply the_entry_run). rewrite bind_assert by (unfold wq_getNumTargets; by rewrite Ht).
    rewrite bind_on_queue, (bind_lift _ e'), bind_put_entry by (by apply wq_allocate_run). by rewrite (bind_run _ _ _ _ _ Hrun).
  - destruct (Hpl (wi_sorted s Hw)) as [Hp1 Hp2]. split; [done|..].
    + rewrite Hst, Hal, E2 in *. apply StronglySorted_app_mid.
      * rewrite <- E1. apply (StronglySorted_impl (sent_before (q_store s) (allocatedList (q_queue s)))); [|apply wi_fifo; done].
        intros x y Hx Hy Hb. apply sent_before_app. apply (wi_ready s _ Hw) in Hx. apply (wi_ready s _ Hw) in Hy.
        revert Hb. apply sent_before_ext; unfold ready_at; rewrite lookup_insert_ne; auto using not_eq_sym.
      * rewrite Forall_forall in *. intros j Hj. specialize (Hp1 j Hj).
        destruct (Z.eq_dec (ready_at (<[i:=e']> (q_store s)) j) (ready_at (<[i:=e']> (q_store s)) i)) as [E|E]; [|left; lia].
        right. split; [done|]. apply sublist_pair. apply (wi_ready s _ Hw). rewrite E1. set_solver.
      * eapply Forall_impl; [exact Hp2|]. intros j Hj. by left.
    + rewrite Hal, Hst. intros j [Hj|Hj]%elem_of_app.
      * rewrite lookup_insert_ne by (apply not_eq_sym; auto). by apply wi_used.
      * apply list_elem_of_singleton in Hj as ->. rewrite lookup_insert_eq. by eexists e', _.
    + rewrite Hfr, Hst. intros j Hj. destruct (wi_free s Hw j) as (x & Hx & Hxt); [rewrite Hf; set_solver|].
      exists x. split; [|done]. rewrite lookup_insert_ne; [done|]. intros ->.
      apply NoDup_app in Hnd as (_ & _ & Hnd). by apply NoDup_cons in Hnd as [Hnd _].
  - exists i. split; [done|]. split; [by rewrite wb_ids|]. unfold wb_abs. rewrite Hal, Hst, omap_app. f_equal.
    + apply omap_ext_in. intros j Hj. unfold pending_of. rewrite lookup_insert_ne; [done|]. apply not_eq_sym; auto.
    + simpl. unfold pending_of. by rewrite lookup_insert_eq.
Qed.

(** ** Sending a write *)

Lemma sublist_pair_erase (l1 l2 : list nat) k i j : sublist [i; j] (l1 ++ k :: l2) -> i <> k -> j <> k -> sublist [i; j] (l1 ++ l2).
Proof.
  intros Hs Hi Hj. apply sublist_app_r in Hs as (p & q & E & Hp & Hq). rewrite E.
  apply sublist_app; [done|]. apply sublist_cons_r in Hq as [Hq|(q' & -> & Hq)]; [done|]. exfalso.
  assert (k ∈ [i; j]) as Hk by (rewrite E; apply elem_of_app; right; by constructor).
  apply elem_of_cons in Hk as [->|Hk]; [done|]. apply list_elem_of_singleton in Hk. done.
Qed.

Lemma filter_ids f (l1 l2 : list nat) i : (forall j, j ∈ l1 ++ i :: l2 -> exists w, f j = Some w /\ pw_id w = j) ->
  i ∉ l1 ++ l2 -> filter (fun w => pw_id w <> i) (omap f (l1 ++ i :: l2)) = omap f (l1 ++ l2).
Proof.
  intros Hf Hi. rewrite !omap_app, filter_app. destruct (Hf i) as (w & Hw & Hid); [set_solver|]. f_equal.
  - apply list_filter_all. apply Forall_forall. intros x (j & Hj & Hx)%list_elem_of_omap.
    destruct (Hf j) as (y & Hy & Hyid); [set_solver|]. assert (x = y) as -> by congruence.
    intros E. apply Hi. rewrite <- E, Hyid. apply elem_of_app. by left.
  - simpl. rewrite Hw, filter_cons, decide_False by tauto. apply list_filter_all, Forall_forall.
    intros x Hx0. apply (list_elem_of_omap f l2) in Hx0 as (j & Hj & Hx).
    destruct (Hf j) as (y & Hy & Hyid); [set_solver|]. assert (x = y) as -> by congruence.
    intros E. apply Hi. rewrite <- E, Hyid. apply elem_of_app. by right.
Qed.

Lemma sent_refines s i : wb_inv s -> i ∈ map pw_id (wb_abs s) ->
  exists s', WriteQueue_markInService i s = Ok (tt, s') /\ wb_inv s' /\ wb_spec (q_now s) (WSent i) (wb_abs s) None (wb_abs s').
Proof.
  intros Hw Hi. rewrite wb_ids in Hi by done. destruct (wi_used s Hw i Hi) as (e & t & He & Ht & Hsv).
  pose proof (wi_queue s Hw) as Hq. set (e1 := set_wq_targets [] e). set (s1 := set_store (<[i := e1]> (q_store s)) s).
  assert (same_views (q_store s) (<[i := e1]> (q_store s))) as Hv by (by apply (same_views_insert _ _ e)).
  destruct (deallocate_run s1 i e1 (set_wq_inService false e1)) as (s' & Hrun & [F1 F2 F3 F4 F5 F6 F7 F8 F9]);
    [by apply q_inv_store|done|by simpl; rewrite lookup_insert_eq|done|].
  exists s'. split.
  { unfold WriteQueue_markInService. rewrite (bind_run _ _ _ _ _ (the_entry_run i s e He)).
    rewrite (bind_lift _ e1), bind_put_entry by (unfold wq_popTarget; by rewrite Ht). exact Hrun. }
  simpl in *. destruct (erase_spec _ _ Hi) as (l1 & l2 & El & Hn1 & Ee). rewrite Ee in F8. injection F8 as F8.
  rewrite insert_insert_eq in F4. pose proof (qi_anodup s Hq) as Hnd. rewrite El in Hnd.
  assert (i ∉ l1 ++ l2) as Hni.
  { rewrite <- app_assoc in Hnd. simpl in Hnd. apply NoDup_app_cons_middle, NoDup_cons in Hnd as [Hnd _]. set_solver. }
  assert (forall j, j <> i -> q_store s' !! j = q_store s !! j) as Hl by (intros j Hj; by rewrite F4, lookup_insert_ne).
  split; [split|].
  - done.
  - rewrite <- F8, F4. apply (StronglySorted_impl (sent_before (q_store s) (allocatedList (q_queue s)))).
    + intros x y Hx Hy. apply (qi_ready s' F1) in Hx as [Hx _], Hy as [Hy _]. rewrite <- F8 in Hx, Hy.
      rewrite El. unfold sent_before, ready_at. rewrite !lookup_insert_ne by set_solver.
      intros [?|[? Hs]]; [by left|]. right. split; [done|]. apply (sublist_pair_erase _ _ i); set_solver.
    + apply (StronglySorted_sublist _ _ (readyList (q_queue s))); [done|by apply wi_fifo].
  - rewrite <- F8. intros j Hj. rewrite Hl by set_solver. apply wi_used; [done|]. rewrite El. set_solver.
  - rewrite F7, F4. intros j [->|Hj]%elem_of_cons; [rewrite lookup_insert_eq; by eexists|].
    destruct (wi_free s Hw j Hj) as (x & Hx & Hxt). exists x. split; [|done]. rewrite lookup_insert_ne; [done|]. intros ->.
    apply NoDup_app in Hnd as (_ & Hnd & _). apply (Hnd j); [set_solver|done].
  - simpl. unfold wb_abs. rewrite <- F8, El, filter_ids; [|rewrite <- El; intros j Hj; destruct (pending_used s j Hw Hj) as (w & ? & ? & _); eauto|done].
    apply omap_ext_in. intros j Hj. unfold pending_of. rewrite Hl; [done|]. set_solver.
Qed.

(** ** Queries *)

Definition wb_matches (a : Z) (sec ign : bool) (e : WriteQueueEntry) : bool :=
  negb (ign && wq_isUncacheable e) && (wq_blkAddr e =? a) && Bool.eqb (wq_isSecure e) sec.

Lemma head_omap_filter (m : gmap nat WriteQueueEntry) (l : list nat) a sec ign :
  (forall i, i ∈ l -> exists e t, m !! i = Some e /\ wq_targets e = [t]) ->
  hd_error (filter (fun i => entry_is (wb_matches a sec ign) m i = true) l) =
  pw_id <$> hd_error (filter (fun w => negb (ign && pw_uncacheable w) && (pw_addr w =? a) && Bool.eqb (pw_secure w) sec = true)
                        (omap (pending_of m) l)).
Proof.
  induction l as [|i l IH]; intros Hl; [done|]. destruct (Hl i) as (e & t & He & Ht); [set_solver|].
  assert (pending_of m i = Some (mkPW i (wq_blkAddr e) (wq_isSecure e) (wq_isUncacheable e) (wq_readyTime e) (wq_order e) (tg_pkt t))) as Hp
    by (unfold pending_of; rewrite He; simpl; by rewrite Ht).
  simpl. rewrite Hp, !filter_cons. assert (entry_is (wb_matches a sec ign) m i = wb_matches a sec ign e) as -> by (unfold entry_is; by rewrite He).
  destruct (wb_matches a sec ign e) eqn:Hb; unfold wb_matches in Hb.
  - by rewrite !decide_True.
  - rewrite !decide_False by (simpl; congruence). apply IH. intros. apply Hl. by constructor.
Qed.

Lemma find_refines s a sec ign : wb_inv s ->
  findMatch a sec ign s = Ok (pw_id <$> hd_error (filter (fun w => negb (ign && pw_uncacheable w) && (pw_addr w =? a)
                                                         && Bool.eqb (pw_secure w) sec = true) (wb_abs s)), s).
Proof.
  intros Hw. unfold findMatch. rewrite (bind_run get _ s s s) by done. unfold lift.
  rewrite (find_entry_spec _ (wb_matches a sec ign)).
  - unfold wb_abs. rewrite <- head_omap_filter; [done|]. intros i Hi. destruct (wi_used s Hw i Hi) as (e & t & ? & ? & _). eauto.
  - intros i Hi. destruct (wi_used s Hw i Hi) as (e & t & He & Ht & _). exists e. split; [done|]. unfold wb_matches. simpl.
    unfold wq_matchBlockAddr, wq_hasTargets. rewrite Ht. by destruct (ign && wq_isUncacheable e).
Qed.

Lemma sublist_omap (f : nat -> option PendingWrite) i j x y (l : list nat) : f i = Some x -> f j = Some y -> sublist [i; j] l ->
  sublist [x; y] (omap f l).
Proof.
  intros Hx Hy Hs. assert (forall k l, sublist k l -> sublist (omap f k) (omap f l)) as Hm.
  { clear. induction 1 as [|z k l Hs IH|z k l Hs IH]; simpl; [constructor|..]; destruct (f z); try done; by constructor. }
  specialize (Hm _ _ Hs). simpl in Hm. by rewrite Hx, Hy in Hm.
Qed.

Lemma next_refines s : wb_inv s -> wb_spec (q_now s) WNext (wb_abs s) (getNext s) (wb_abs s).
Proof.
  intros Hw. split; [done|]. destruct (getNext s) as [i|] eqn:Hn.
  - destruct (getNext_some s i (wi_queue s Hw) (wi_sorted s Hw) Hn) as (Hi & Hd & _).
    apply (wi_ready s i Hw) in Hi. destruct (pending_used s i Hw Hi) as (x & Hx & Hid & Hr). exists x. split; [done|].
    split; [apply wb_elem; [done|]; by rewrite Hid|]. split; [by rewrite Hr|]. intros y [Hy Hya]%(wb_elem s y Hw).
    destruct (decide (pw_id y = i)) as [E|Hne]; [left; rewrite E in Hy; congruence|right].
    assert (pw_ready y = ready_at (q_store s) (pw_id y)) as Hry by (destruct (pending_used s _ Hw Hya) as (y' & Hy' & _ & Hr'); congruence).
    pose proof (wi_fifo s Hw) as Hf. unfold getNext in Hn. apply (wi_ready s _ Hw) in Hya.
    destruct (readyList (q_queue s)) as [|k l]; [done|]. destruct (q_now s <? ready_at (q_store s) k); [done|]. injection Hn as ->.
    apply StronglySorted_inv in Hf as [_ Hf]. rewrite Forall_forall in Hf. apply elem_of_cons in Hya as [?|Hya]; [done|].
    rewrite Hr, Hry. destruct (Hf _ Hya) as [?|[? Hs]]; [by left|]. right. split; [done|]. by apply (sublist_omap _ i (pw_id y)).
  - apply Forall_forall. intros w [Hp Hi]%(wb_elem s w Hw). destruct (pending_used s _ Hw Hi) as (w' & Hp' & _ & Hr).
    assert (w' = w) as -> by congruence. rewrite Hr. apply (getNext_none s (wi_sorted s Hw) Hn). by apply wi_ready.
Qed.

(** ** The refinement *)

Definition wb_init (num_entries reserve : Z) (base : nat) : QS WriteQueueEntry :=
  let q := new_Queue num_entries reserve base in
  mkQS 0 (list_to_map (map (fun i => (i, new_WriteQueueEntry)) (q_entries q))) q.

Lemma init_store (l : list nat) i : i ∈ l ->
  (list_to_map (map (fun j => (j, new_WriteQueueEntry)) l) : gmap nat WriteQueueEntry) !! i = Some new_WriteQueueEntry.
Proof.
  induction l as [|j l IH]; intros Hi; [by apply not_elem_of_nil in Hi|]. simpl. destruct (decide (j = i)) as [->|Hne].
  - apply lookup_insert_eq.
  - rewrite lookup_insert_ne by done. apply IH. apply elem_of_cons in Hi as [->|]; done.
Qed.

Lemma wb_init_inv num_entries reserve base : 0 <= num_entries + reserve -> wb_inv (wb_init num_entries reserve base).
Proof.
  intros Hn. split; simpl.
  - split; simpl; try done.
    + rewrite length_seq. lia.
    + apply NoDup_seq.
    + intros i Hi. rewrite init_store by done. by eexists.
    + constructor.
    + intros i. split; [by intros ?%not_elem_of_nil|]. by intros [?%not_elem_of_nil _].
  - constructor.
  - by intros i ?%not_elem_of_nil.
  - intros i Hi. rewrite init_store by done. by eexists.
Qed.

Inductive wb_reach (num_entries reserve : Z) (base : nat) : QS WriteQueueEntry -> Prop :=
  | wb_reach_init : wb_reach num_entries reserve base (wb_init num_entries reserve base)
  | wb_reach_step s op r s' : wb_reach num_entries reserve base s -> wb_allowed (numEntries (q_queue s)) op (wb_abs s) ->
      wb_step op s = Ok (r, s') -> wb_reach num_entries reserve base s'.

Lemma wb_step_refines s op : wb_inv s -> wb_allowed (numEntries (q_queue s)) op (wb_abs s) ->
  exists r s', wb_step op s = Ok (r, s') /\ wb_inv s' /\ wb_spec (q_now s) op (wb_abs s) r (wb_abs s').
Proof.
  intros Hw Ha. destruct op as [a n pkt t o|i|a sec ign| |t].
  - destruct (allocate_refines s a n pkt t o Hw Ha) as (i & s' & Hr & Hi & Hs). exists (Some i), s'. split; [|done].
    simpl. by rewrite (bind_run _ _ _ _ _ Hr).
  - destruct (sent_refines s i Hw Ha) as (s' & Hr & Hi & Hs). exists None, s'. split; [|done]. simpl. by rewrite (bind_run _ _ _ _ _ Hr).
  - eexists _, s. split; [by apply find_refines|]. split; [done|]. by split.
  - eexists _, s. split; [done|]. split; [done|]. by apply next_refines.
  - eexists None, _. split; [done|]. split; [|done]. destruct Hw as [[H1 H2 H3 H4 H5 H6 H7 H8] Hf Hu Hfr].
    split; [by split|done..].
Qed.

Lemma wb_reach_inv num_entries reserve base s : 0 <= num_entries + reserve -> wb_reach num_entries reserve base s -> wb_inv s.
Proof.
  intros Hn. induction 1 as [|s op r s' _ IH Ha Hs]; [by apply wb_init_inv|].
  destruct (wb_step_refines s op IH Ha) as (r' & s'' & Hs' & Hi & _). by assert (s'' = s') as <- by congruence.
Qed.

(** C28: The write buffer refines the list of pending writes.  From its constructor on,
    accepting, sending, finding and choosing a write never fail when the buffer
    has room and the packet is of the kind the buffer takes, and they act on the
    list as specified: a write goes to the end, a sent one leaves, [findMatch]
    answers with the oldest write to the block, and [getNext] with the one that is
    ready first, the oldest of them if several are.  The counters tell the number
    of pending writes. *)
Theorem write_buffer_refines num_entries reserve base s op :
  0 <= num_entries + reserve -> wb_reach num_entries reserve base s -> wb_allowed (numEntries (q_queue s)) op (wb_abs s) ->
  (exists r s', wb_step op s = Ok (r, s') /\ wb_spec (q_now s) op (wb_abs s) r (wb_abs s'))
  /\ (isEmpty (q_queue s) = true <-> wb_abs s = [])
  /\ (isFull (q_queue s) = true <-> numEntries (q_queue s) - numReserve (q_queue s) <= Z.of_nat (length (wb_abs s)))
  /\ numInService (q_queue s) = 0.
Proof.
  intros Hn Hr Ha. pose proof (wb_reach_inv _ _ _ _ Hn Hr) as Hw. destruct (wb_step_refines s op Hw Ha) as (r & s' & Hs & _ & Hsp).
  split; [eauto|]. pose proof (wi_queue s Hw) as Hq. pose proof (qi_alloc s Hq) as Hal. rewrite <- (wb_ids s Hw), length_map in Hal.
  unfold isEmpty, isFull, numInService. rewrite Z.eqb_eq, Z.leb_le, Hal. split; [|split; [done|]].
  - destruct (wb_abs s); simpl; split; [done|done|lia|done].
  - assert (readyList (q_queue s) ≡ₚ allocatedList (q_queue s)) as Hp.
    { apply NoDup_Permutation; [apply (qi_rnodup s Hq)| |intros i; by apply wi_ready].
      pose proof (qi_anodup s Hq) as Hnd. by apply NoDup_app in Hnd as (Hnd & _). }
    pose proof (qi_serv s Hq) as Hsv. rewrite Hp in Hsv. lia.
Qed.

(** A writeback of block [a]. *)
Definition demo_writeback (a : Z) : Pkt := new_Pkt 0 (new_Request_phys 0 a 64 0 0) WritebackDirty.
Definition wb_after (op : wb_op) (s : QS WriteQueueEntry) : QS WriteQueueEntry :=
  match wb_step op s with Ok (_, s') => s' | Err _ => s end.
Lemma wb_reach_after n r base op s : wb_reach n r base s -> wb_allowed (numEntries (q_queue s)) op (wb_abs s) ->
  is_ok (wb_step op s) = true -> wb_reach n r base (wb_after op s).
Proof.
  intros Hr Ha Hs. unfold wb_after. destruct (wb_step op s) as [[x s']|] eqn:E; [|done]. by apply (wb_reach_step n r base s op x s').
Qed.
Definition demo_wb : QS WriteQueueEntry :=
  wb_after (WTime 20) (wb_after (WAllocate 128 64 (demo_writeback 128) 5 2)
    (wb_after (WAllocate 64 64 (demo_writeback 64) 10 1) (wb_init 2 1 0))).

Lemma write_buffer_refines_witness :
  exists r s', wb_step WNext demo_wb = Ok (r, s') /\ r = Some 1%nat /\ wb_spec 20 WNext (wb_abs demo_wb) r (wb_abs s').
Proof.
  assert (wb_reach 2 1 0 demo_wb) as Hr.
  { repeat (apply wb_reach_after; [|vm_compute; by repeat split|by vm_compute]). constructor. }
  destruct (write_buffer_refines 2 1 0 demo_wb WNext ltac:(lia) Hr I) as [(r & s' & Hs & Hsp) _].
  exists r, s'. split; [done|]. split; [|exact Hsp].
  assert (getNext demo_wb = Some 1%nat) as E by by vm_compute. change (Ok (getNext demo_wb, demo_wb) = Ok (r, s')) in Hs. congruence.
Defined.
