(* ===== verification/MSHR.v ===== *)
(** * Miss status handling registers (mem/cache/mshr.{hh,cc}, mshr_queue.{hh,cc})

    An MSHR is an outstanding miss with the requests that wait for it: [targets]
    will be served by the response to come, [deferredTargets] need another one.
    A packet that came from a cache above carries that cache's MSHR in its
    sender states; an MSHR of a cache below marks it as pending while the request
    has not been sent on.  MSHRs therefore live in one store, and the methods run
    on it.  [raw] is what newly allocated packet data holds. *)

From S2P Require Import Prelude EventQ Drain Packet Request PacketData CacheQueue.

Inductive Source := FromCPU | FromSnoop | FromPrefetcher.
#[global] Instance Source_eq_dec : EqDecision Source.
Proof. solve_decision. Defined.

Record MTarget := mkMT {
  mt_base : Target;
  mt_source : Source;
  mt_markedPending : bool;
  mt_allocOnFill : bool
}.
Definition mt_pkt (t : MTarget) : Pkt := tg_pkt (mt_base t).
Definition set_mt_pkt (p : Pkt) (t : MTarget) : MTarget :=
  mkMT (set_tg_pkt p (mt_base t)) (mt_source t) (mt_markedPending t) (mt_allocOnFill t).
Definition set_mt_marked (x : bool) (t : MTarget) : MTarget := mkMT (mt_base t) (mt_source t) x (mt_allocOnFill t).

Record TargetList := mkTL {
  tl_list : list MTarget;
  tl_needsWritable : bool;
  tl_hasUpgrade : bool;
  tl_allocOnFill : bool;
  tl_hasFromCache : bool;
  tl_blkAddr : Z;
  tl_blkSize : Z;
  canMergeWrites : bool;
  writesBitmap : list bool
}.

Definition set_tl_list (x : list MTarget) (l : TargetList) : TargetList :=
  mkTL x (tl_needsWritable l) (tl_hasUpgrade l) (tl_allocOnFill l) (tl_hasFromCache l) (tl_blkAddr l) (tl_blkSize l)
    (canMergeWrites l) (writesBitmap l).
Definition set_tl_needsWritable (x : bool) (l : TargetList) : TargetList :=
  mkTL (tl_list l) x (tl_hasUpgrade l) (tl_allocOnFill l) (tl_hasFromCache l) (tl_blkAddr l) (tl_blkSize l)
    (canMergeWrites l) (writesBitmap l).
Definition set_tl_hasUpgrade (x : bool) (l : TargetList) : TargetList :=
  mkTL (tl_list l) (tl_needsWritable l) x (tl_allocOnFill l) (tl_hasFromCache l) (tl_blkAddr l) (tl_blkSize l)
    (canMergeWrites l) (writesBitmap l).
Definition set_tl_allocOnFill (x : bool) (l : TargetList) : TargetList :=
  mkTL (tl_list l) (tl_needsWritable l) (tl_hasUpgrade l) x (tl_hasFromCache l) (tl_blkAddr l) (tl_blkSize l)
    (canMergeWrites l) (writesBitmap l).
Definition set_tl_hasFromCache (x : bool) (l : TargetList) : TargetList :=
  mkTL (tl_list l) (tl_needsWritable l) (tl_hasUpgrade l) (tl_allocOnFill l) x (tl_blkAddr l) (tl_blkSize l)
    (canMergeWrites l) (writesBitmap l).
Definition set_canMergeWrites (x : bool) (l : TargetList) : TargetList :=
  mkTL (tl_list l) (tl_needsWritable l) (tl_hasUpgrade l) (tl_allocOnFill l) (tl_hasFromCache l) (tl_blkAddr l)
    (tl_blkSize l) x (writesBitmap l).
Definition set_writesBitmap (x : list bool) (l : TargetList) : TargetList :=
  mkTL (tl_list l) (tl_needsWritable l) (tl_hasUpgrade l) (tl_allocOnFill l) (tl_hasFromCache l) (tl_blkAddr l)
    (tl_blkSize l) (canMergeWrites l) x.

Record MSHR := mkMSHR {
  m_readyTime : Z;
  m_isUncacheable : bool;
  m_inService : bool;
  m_order : Z;
  m_blkAddr : Z;
  m_blkSize : Z;
  m_isSecure : bool;
  downstreamPending : bool;
  pendingModified : bool;
  postInvalidate : bool;
  postDowngrade : bool;
  wasWholeLineWrite : bool;
  isForward : bool;
  m_targets : TargetList;
  m_deferredTargets : TargetList
}.

Definition set_m_readyTime (x : Z) (m : MSHR) : MSHR :=
  mkMSHR x (m_isUncacheable m) (m_inService m) (m_order m) (m_blkAddr m) (m_blkSize m) (m_isSecure m)
    (downstreamPending m) (pendingModified m) (postInvalidate m) (postDowngrade m) (wasWholeLineWrite m) (isForward m) (m_targets m) (m_deferredTargets m).
Definition set_m_isUncacheable (x : bool) (m : MSHR) : MSHR :=
  mkMSHR (m_readyTime m) x (m_inService m) (m_order m) (m_blkAddr m) (m_blkSize m) (m_isSecure m) (downstreamPending m)
    (pendingModified m) (postInvalidate m) (postDowngrade m) (wasWholeLineWrite m) (isForward m) (m_targets m) (m_deferredTargets m).
Definition set_m_inService (x : bool) (m : MSHR) : MSHR :=
  mkMSHR (m_readyTime m) (m_isUncacheable m) x (m_order m) (m_blkAddr m) (m_blkSize m) (m_isSecure m)
    (downstreamPending m) (pendingModified m) (postInvalidate m) (postDowngrade m) (wasWholeLineWrite m) (isForward m) (m_targets m) (m_deferredTargets m).
Definition set_m_order (x : Z) (m : MSHR) : MSHR :=
  mkMSHR (m_readyTime m) (m_isUncacheable m) (m_inService m) x (m_blkAddr m) (m_blkSize m) (m_isSecure m)
    (downstreamPending m) (pendingModified m) (postInvalidate m) (postDowngrade m) (wasWholeLineWrite m) (isForward m) (m_targets m) (m_deferredTargets m).
Definition set_downstreamPending (x : bool) (m : MSHR) : MSHR :=
  mkMSHR (m_readyTime m) (m_isUncacheable m) (m_inService m) (m_order m) (m_blkAddr m) (m_blkSize m) (m_isSecure m) x
    (pendingModified m) (postInvalidate m) (postDowngrade m) (wasWholeLineWrite m) (isForward m) (m_targets m) (m_deferredTargets m).
Definition set_pendingModified (x : bool) (m : MSHR) : MSHR :=
  mkMSHR (m_readyTime m) (m_isUncacheable m) (m_inService m) (m_order m) (m_blkAddr m) (m_blkSize m) (m_isSecure m)
    (downstreamPending m) x (postInvalidate m) (postDowngrade m) (wasWholeLineWrite m) (isForward m) (m_targets m) (m_deferredTargets m).
Definition set_postInvalidate (x : bool) (m : MSHR) : MSHR :=
  mkMSHR (m_readyTime m) (m_isUncacheable m) (m_inService m) (m_order m) (m_blkAddr m) (m_blkSize m) (m_isSecure m)
    (downstreamPending m) (pendingModified m) x (postDowngrade m) (wasWholeLineWrite m) (isForward m) (m_targets m) (m_deferredTargets m).
Definition set_postDowngrade (x : bool) (m : MSHR) : MSHR :=
  mkMSHR (m_readyTime m) (m_isUncacheable m) (m_inService m) (m_order m) (m_blkAddr m) (m_blkSize m) (m_isSecure m)
    (downstreamPending m) (pendingModified m) (postInvalidate m) x (wasWholeLineWrite m) (isForward m) (m_targets m) (m_deferredTargets m).
Definition set_wasWholeLineWrite (x : bool) (m : MSHR) : MSHR :=
  mkMSHR (m_readyTime m) (m_isUncacheable m) (m_inService m) (m_order m) (m_blkAddr m) (m_blkSize m) (m_isSecure m)
    (downstreamPending m) (pendingModified m) (postInvalidate m) (postDowngrade m) x (isForward m) (m_targets m) (m_deferredTargets m).
Definition set_isForward (x : bool) (m : MSHR) : MSHR :=
  mkMSHR (m_readyTime m) (m_isUncacheable m) (m_inService m) (m_order m) (m_blkAddr m) (m_blkSize m) (m_isSecure m)
    (downstreamPending m) (pendingModified m) (postInvalidate m) (postDowngrade m) (wasWholeLineWrite m) x (m_targets m) (m_deferredTargets m).
Definition set_m_targets (x : TargetList) (m : MSHR) : MSHR :=
  mkMSHR (m_readyTime m) (m_isUncacheable m) (m_inService m) (m_order m) (m_blkAddr m) (m_blkSize m) (m_isSecure m)
    (downstreamPending m) (pendingModified m) (postInvalidate m) (postDowngrade m) (wasWholeLineWrite m) (isForward m) x (m_deferredTargets m).
Definition set_m_deferredTargets (x : TargetList) (m : MSHR) : MSHR :=
  mkMSHR (m_readyTime m) (m_isUncacheable m) (m_inService m) (m_order m) (m_blkAddr m) (m_blkSize m) (m_isSecure m)
    (downstreamPending m) (pendingModified m) (postInvalidate m) (postDowngrade m) (wasWholeLineWrite m) (isForward m) (m_targets m) x.

(** ** Lists of targets *)

(** The constructor leaves [blkAddr], [blkSize] and [canMergeWrites] as they are
    in memory until [init]. *)
Definition new_TargetList (junk : bool) : TargetList := mkTL [] false false false false 0 0 junk [].

Definition resetFlags (l : TargetList) : TargetList :=
  mkTL (tl_list l) false false false false (tl_blkAddr l) (tl_blkSize l) true (map (fun _ => false) (writesBitmap l)).
Definition tl_init (blk_addr blk_size : Z) (l : TargetList) : TargetList :=
  resetFlags (mkTL (tl_list l) (tl_needsWritable l) (tl_hasUpgrade l) (tl_allocOnFill l) (tl_hasFromCache l) blk_addr blk_size
                (canMergeWrites l) (resize (Z.to_nat blk_size) false (writesBitmap l))).
Definition isReset (l : TargetList) : bool :=
  negb (tl_needsWritable l) && negb (tl_hasUpgrade l) && negb (tl_allocOnFill l) && negb (tl_hasFromCache l) && canMergeWrites l.
Definition tl_isWholeLineWrite (l : TargetList) : bool := forallb id (writesBitmap l).
Definition tl_empty (l : TargetList) : bool := match tl_list l with [] => true | _ => false end.

Definition no_merge_flags : Z :=
  Z.lor UNCACHEABLE (Z.lor STRICT_ORDER (Z.lor PRIVILEGED (Z.lor LLSC (Z.lor MEM_SWAP (Z.lor MEM_SWAP_COND SECURE))))).

(** Bytes [off..off+n) of the bitmap; [std::fill] past its end is undefined. *)
Definition fill_bitmap (off n : Z) (m : list bool) : res (list bool) :=
  if off + n <=? Z.of_nat (length m) then Ok (mark_valid m (Z.to_nat off) (Z.to_nat n)) else Err (EUndefined "std::fill").

Definition updateWriteFlags (pkt : Pkt) (l : TargetList) : res TargetList :=
  if tl_isWholeLineWrite l then Ok l
  else if negb (canMergeWrites l) then Ok l
  else if negb (isWrite (p_cmd pkt)) then Ok (set_canMergeWrites false l)
  else
    req_flags ← getFlags (p_req pkt);
    let compat_write := negb (fl_isSet req_flags no_merge_flags) in
    let first_write := tl_empty l in
    l' ← (if first_write || compat_write then
            offset ← pkt_getOffset (tl_blkSize l) pkt;
            size ← getSize pkt;
            bm ← fill_bitmap offset size (writesBitmap l);
            mret (set_writesBitmap bm l)
          else Ok l);
    mret (set_canMergeWrites (canMergeWrites l' && compat_write) l').

Definition updateFlags (pkt : Pkt) (source : Source) (alloc_on_fill : bool) (l : TargetList) : res TargetList :=
  if decide (source = FromSnoop) then Ok l
  else
    nw ← pkt_needsWritable pkt;
    let l := if nw : bool then set_tl_needsWritable true l else l in
    let l := if isUpgrade (p_cmd pkt) || bool_decide (p_cmd pkt = StoreCondReq) then set_tl_hasUpgrade true l else l in
    let l := set_tl_allocOnFill (tl_allocOnFill l || alloc_on_fill) l in
    if decide (source = FromPrefetcher) then Ok l
    else updateWriteFlags pkt (set_tl_hasFromCache (tl_hasFromCache l || fromCache (p_cmd pkt)) l).

Fixpoint update_all (ts : list MTarget) (l : TargetList) : res TargetList :=
  match ts with
  | [] => Ok l
  | t :: ts' => l' ← updateFlags (mt_pkt t) (mt_source t) (mt_allocOnFill t) l; update_all ts' l'
  end.
Definition populateFlags (l : TargetList) : res TargetList := update_all (tl_list l) (resetFlags l).

Definition replaceUpgrade (raw : list Z) (pkt : Pkt) : res Pkt :=
  let has_data := hasData (p_cmd pkt) || hasRespData pkt in
  let pkt := if decide (p_cmd pkt = UpgradeReq) then set_p_cmd ReadExReq pkt
             else if decide (p_cmd pkt = SCUpgradeReq) then set_p_cmd SCUpgradeFailReq pkt
             else if decide (p_cmd pkt = StoreCondReq) then set_p_cmd StoreCondFailReq pkt
             else pkt in
  if has_data then Ok pkt
  else assert_r (negb (hasData (p_cmd pkt))) "!pkt->hasData()";;
       if hasRespData pkt then PacketData.allocate raw pkt else Ok pkt.

Fixpoint replace_all (raw : list Z) (ts : list MTarget) : res (list MTarget) :=
  match ts with
  | [] => Ok []
  | t :: ts' => p ← replaceUpgrade raw (mt_pkt t); ts'' ← replace_all raw ts'; mret (set_mt_pkt p t :: ts'')
  end.
Definition replaceUpgrades (raw : list Z) (l : TargetList) : res TargetList :=
  if negb (tl_hasUpgrade l) then Ok l
  else ts ← replace_all raw (tl_list l); mret (set_tl_hasUpgrade false (set_tl_list ts l)).

(** ** Registers *)

Definition new_MSHR (junk : bool) : MSHR :=
  mkMSHR 0 false false 0 0 0 false false false false false false false (new_TargetList junk) (new_TargetList junk).

Definition m_hasTargets (m : MSHR) : bool := negb (tl_empty (m_targets m)).
Definition m_getNumTargets (m : MSHR) : Z :=
  Z.of_nat (length (tl_list (m_targets m)) + length (tl_list (m_deferredTargets m))).
Definition m_needsWritable (m : MSHR) : bool := tl_needsWritable (m_targets m).
Definition m_allocOnFill (m : MSHR) : bool := tl_allocOnFill (m_targets m).
Definition m_hasFromCache (m : MSHR) : bool := tl_hasFromCache (m_targets m).
Definition m_isWholeLineWrite (m : MSHR) : bool := tl_isWholeLineWrite (m_targets m).
Definition isPendingModified (m : MSHR) : res bool := assert_r (m_inService m) "inService";; Ok (pendingModified m).
Definition hasPostInvalidate (m : MSHR) : res bool := assert_r (m_inService m) "inService";; Ok (postInvalidate m).
Definition hasPostDowngrade (m : MSHR) : res bool := assert_r (m_inService m) "inService";; Ok (postDowngrade m).
(** [targets.front().pkt]; undefined for an empty list. *)
Definition front_pkt (m : MSHR) : res Pkt :=
  match tl_list (m_targets m) with [] => Err (EUndefined "front") | t :: _ => Ok (mt_pkt t) end.
Definition isCleaning (m : MSHR) : res bool := p ← front_pkt m; mret (isClean (p_cmd p)).
Definition m_getTarget (m : MSHR) : res MTarget :=
  match tl_list (m_targets m) with [] => Err (EAssert "hasTargets()") | t :: _ => Ok t end.
Definition m_popTarget (m : MSHR) : res MSHR :=
  match tl_list (m_targets m) with
  | [] => Err (EUndefined "pop_front")
  | _ :: l => Ok (set_m_targets (set_tl_list l (m_targets m)) m)
  end.
Definition m_delay (now delay_ticks : Z) (m : MSHR) : res MSHR :=
  assert_r (m_readyTime m <=? now) "readyTime <= curTick()";; Ok (set_m_readyTime (u64 (now + delay_ticks)) m).

(** ** Methods that reach other registers *)

Abbreviation Heap := (gmap nat MSHR).
Abbreviation H := (M Heap).

Definition load (i : nat) : H MSHR := fun h =>
  match h !! i with Some m => Ok (m, h) | None => Err (EUndefined "MSHR") end.
Definition store (i : nat) (m : MSHR) : H unit := modify (fun h => <[i := m]> h).

(** [deferred] selects one of the two lists of a register. *)
Definition the_list (deferred : bool) (m : MSHR) : TargetList := if deferred then m_deferredTargets m else m_targets m.
Definition set_the_list (deferred : bool) (l : TargetList) (m : MSHR) : MSHR :=
  if deferred then set_m_deferredTargets l m else set_m_targets l m.

(** [findNextSenderState<MSHR>]: the first sender state that is a register. *)
Fixpoint first_mshr (h : Heap) (states : list nat) : option nat :=
  match states with [] => None | i :: l => match h !! i with Some _ => Some i | None => first_mshr h l end end.
Definition findNextSenderState (pkt : Pkt) : H (option nat) := gets (fun h => first_mshr h (p_senderState pkt)).

Definition tl_add (now : Z) (i : nat) (deferred : bool) (pkt : Pkt) (readyTime order : Z) (source : Source)
    (markPending alloc_on_fill : bool) : H unit :=
  m ← load i;
  l ← lift (updateFlags pkt source alloc_on_fill (the_list deferred m));
  store i (set_the_list deferred l m);;
  marked ← (if markPending then
              up ← findNextSenderState pkt;
              match up with
              | Some j => mj ← load j;
                          assert_ (negb (downstreamPending mj)) "!mshr->downstreamPending";;
                          store j (set_downstreamPending true mj);;
                          mret true
              | None => mret false
              end
            else mret false);
  m ← load i;
  let l := the_list deferred m in
  store i (set_the_list deferred (set_tl_list (tl_list l ++ [mkMT (mkTarget now readyTime order pkt) source marked alloc_on_fill]) l) m).

(** One round of the loop of [clearDownstreamPending(begin, end)]: target [k] of
    the list; [clear] is [MSHR::clearDownstreamPending]. *)
Definition clear_target (clear : nat -> H unit) (i : nat) (deferred : bool) (k : nat) : H unit :=
  m ← load i;
  match tl_list (the_list deferred m) !! k with
  | None => throw (EUndefined "target")
  | Some t =>
      when_ (mt_markedPending t)
        (up ← findNextSenderState (mt_pkt t);
         match up with Some j => clear j | None => mret tt end;;
         m ← load i;
         let l := the_list deferred m in
         store i (set_the_list deferred (set_tl_list (alter (set_mt_marked false) k (tl_list l)) l) m))
  end.
Definition clear_targets (clear : nat -> H unit) (i : nat) (deferred : bool) (n : nat) : H unit :=
  forM_ (seq 0 n) (clear_target clear i deferred).

(** [MSHR::clearDownstreamPending]; each nested call clears one flag that was set. *)
Fixpoint clearDownstreamPending (fuel : nat) (i : nat) : H unit :=
  match fuel with
  | O => throw EFuel
  | S fuel =>
      m ← load i;
      assert_ (downstreamPending m) "downstreamPending";;
      store i (set_downstreamPending false m);;
      clear_targets (clearDownstreamPending fuel) i false (length (tl_list (m_targets m)))
  end.
(** [TargetList::clearDownstreamPending] on the first [n] targets of a list. *)
Definition tl_clearDownstreamPending (i : nat) (deferred : bool) (n : nat) : H unit :=
  h ← get; clear_targets (clearDownstreamPending (S (size h))) i deferred n.

(** [MSHR::allocate] *)
Definition m_allocate (now : Z) (i : nat) (blk_addr blk_size : Z) (target : Pkt) (when_ready order : Z) (alloc_on_fill : bool) : H unit :=
  m ← load i;
  secure ← lift (isSecure target);
  store i (mkMSHR when_ready (isUncacheable (p_req target)) false order blk_addr blk_size secure false
             (pendingModified m) (postInvalidate m) (postDowngrade m) false false
             (tl_init blk_addr blk_size (m_targets m)) (tl_init blk_addr blk_size (m_deferredTargets m)));;
  let source := if decide (p_cmd target = HardPFReq) then FromPrefetcher else FromCPU in
  tl_add now i false target when_ready order source true alloc_on_fill;;
  m ← load i;
  front ← lift (front_pkt m);
  same ← lift (matchBlockAddr target front blk_size);
  assert_ same "target->matchBlockAddr(targets.front().pkt, blkSize)".

Definition m_markInService (i : nat) (pending_modified_resp : bool) : H unit :=
  m ← load i;
  assert_ (negb (m_inService m)) "!inService";;
  let m := set_m_inService true m in
  let m := set_pendingModified (tl_needsWritable (m_targets m) || pending_modified_resp) m in
  let m := set_postInvalidate false (set_postDowngrade false m) in
  store i m;;
  when_ (negb (downstreamPending m)) (tl_clearDownstreamPending i false (length (tl_list (m_targets m))));;
  m ← load i;
  store i (set_wasWholeLineWrite (m_isWholeLineWrite m) m).

Definition m_deallocate (m : MSHR) : res MSHR :=
  assert_r (tl_empty (m_targets m)) "targets.empty()";;
  let m := set_m_targets (resetFlags (m_targets m)) m in
  assert_r (isReset (m_deferredTargets m)) "deferredTargets.isReset()";;
  mret (set_m_inService false m).

(** The condition of [allocateTarget] to defer the new target. *)
Definition must_defer (pkt : Pkt) (m : MSHR) : res bool :=
  tgt_pkt ← front_pkt m;
  if isCacheMaintenance (p_req pkt) || isCacheMaintenance (p_req tgt_pkt) || negb (tl_empty (m_deferredTargets m)) then Ok true
  else if negb (m_inService m) then Ok false
  else
    inv ← hasPostInvalidate m;
    if inv : bool then Ok true
    else
      nw ← pkt_needsWritable pkt;
      if negb nw then Ok false
      else pm ← isPendingModified m; dg ← hasPostDowngrade m; mret (negb pm || dg || isForward m).

Definition allocateTarget (raw : list Z) (now : Z) (i : nat) (pkt : Pkt) (whenReady order : Z) (alloc_on_fill : bool) : H unit :=
  assert_ (negb (bool_decide (p_cmd pkt = HardPFReq))) "pkt->cmd != MemCmd::HardPFReq";;
  m ← load i;
  defer ← lift (must_defer pkt m);
  if defer : bool then
    pkt' ← (if m_inService m then
              inv ← lift (hasPostInvalidate m);
              if inv : bool then lift (replaceUpgrade raw pkt) else mret pkt
            else mret pkt);
    tl_add now i true pkt' whenReady order FromCPU true alloc_on_fill
  else tl_add now i false pkt whenReady order FromCPU (negb (m_inService m)) alloc_on_fill.

(** [handleSnoop] from the point where the register's request comes first. *)
Definition snoop_after (raw : list Z) (now : Z) (i : nat) (pkt : Pkt) (order : Z) (invalidating : bool) : H (bool * Pkt) :=
  m ← load i;
  (if invalidating then l ← lift (replaceUpgrades raw (m_deferredTargets m)); store i (set_m_deferredTargets l m) else mret tt);;
  m ← load i;
  tgt_pkt ← lift (front_pkt m);
  inv ← lift (hasPostInvalidate m);
  if inv || isCacheInvalidate (p_req tgt_pkt) then mret (true, pkt)
  else
    pm ← lift (isPendingModified m);
    let will_respond := pm && needsResponse (p_cmd pkt) && negb (isClean (p_cmd pkt)) in
    pkt ← (if pm || isInvalidate (p_cmd pkt) then
             cp_pkt ← (if will_respond then lift (copy_Pkt raw pkt true true)
                       else mret (new_Pkt_block (p_id pkt) (copy_Request (p_req pkt)) (p_cmd pkt) (sgn 32 (m_blkSize m))));
             pkt ← (if will_respond then p ← lift (setCacheResponding pkt); lift (setResponderHadWritable p)
                    else if pm && isClean (p_cmd pkt) then lift (setSatisfied pkt) else mret pkt);
             tl_add now i false cp_pkt now order FromSnoop (downstreamPending m && tl_needsWritable (m_targets m)) false;;
             nw ← lift (pkt_needsWritable pkt);
             (if nw || isInvalidate (p_cmd pkt) then m ← load i; store i (set_postInvalidate true m) else mret tt);;
             mret pkt
           else mret pkt);
    nw ← lift (pkt_needsWritable pkt);
    if negb nw && negb (isUncacheable (p_req pkt)) then
      m ← load i; store i (set_postDowngrade true m);; mret (will_respond, setHasSharers pkt)
    else mret (will_respond, pkt).

Definition m_handleSnoop (raw : list Z) (now : Z) (i : nat) (pkt : Pkt) (order : Z) : H (bool * Pkt) :=
  nw ← lift (pkt_needsWritable pkt);
  panic_if (negb (Bool.eqb nw (isInvalidate (p_cmd pkt))) && negb (isCacheMaintenance (p_req pkt)))
    "needsWritable, does not match isInvalidate";;
  m ← load i;
  let invalidating := nw || isCacheInvalidate (p_req pkt) in
  if negb (m_inService m) || (isExpressSnoop pkt && downstreamPending m) then
    (if invalidating then
       l ← lift (replaceUpgrades raw (m_targets m));
       d ← lift (replaceUpgrades raw (m_deferredTargets m));
       store i (set_m_deferredTargets d (set_m_targets l m))
     else mret tt);;
    mret (false, pkt)
  else snoop_after raw now i pkt order invalidating.

(** The loop of [extractServiceableTargets]: snoops are taken, the CPU's targets stay. *)
Fixpoint take_snoops (l : list MTarget) : res (list MTarget * list MTarget) :=
  match l with
  | [] => Ok ([], [])
  | t :: l' =>
      match mt_source t with
      | FromCPU => '(r, k) ← take_snoops l'; mret (r, t :: k)
      | FromSnoop => '(r, k) ← take_snoops l'; mret (t :: r, k)
      | FromPrefetcher => Err (EAssert "it->source == Target::FromSnoop")
      end
  end.
Definition extractServiceableTargets (i : nat) (junk : bool) (pkt : Pkt) : H TargetList :=
  m ← load i;
  let ready := tl_init (m_blkAddr m) (m_blkSize m) (new_TargetList junk) in
  '(ready, rest) ← lift
    (if decide (p_cmd pkt = ReadRespWithInvalidate) then
       match tl_list (m_targets m) with
       | [] => Err (EUndefined "targets.begin()")
       | t :: l =>
           assert_r (bool_decide (mt_source t = FromCPU) || bool_decide (mt_source t = FromPrefetcher))
             "(it->source == Target::FromCPU) || (it->source == Target::FromPrefetcher)";;
           '(r, k) ← take_snoops l;
           ready' ← populateFlags (set_tl_list (t :: r) ready);
           mret (ready', set_tl_list k (m_targets m))
       end
     else mret (m_targets m, ready));
  rest' ← lift (populateFlags rest);
  store i (set_m_targets rest' m);;
  mret ready.

(** The number of deferred targets before the first cache maintenance request. *)
Fixpoint before_maintenance (l : list MTarget) : nat :=
  match l with
  | [] => 0
  | t :: l' => if isCacheMaintenance (p_req (mt_pkt t)) then 0 else S (before_maintenance l')
  end.
(** [targets.splice(targets.end(), deferredTargets, begin, begin + n)] *)
Definition splice (n : nat) (m : MSHR) : MSHR :=
  set_m_deferredTargets (set_tl_list (drop n (tl_list (m_deferredTargets m))) (m_deferredTargets m))
    (set_m_targets (set_tl_list (tl_list (m_targets m) ++ take n (tl_list (m_deferredTargets m))) (m_targets m)) m).

Definition promoteDeferredTargets (now : Z) (m : MSHR) : res (bool * MSHR) :=
  if tl_empty (m_targets m) && tl_empty (m_deferredTargets m) then Ok (false, m)
  else
    let n := before_maintenance (tl_list (m_deferredTargets m)) in
    let m := match n with
             | O => if tl_empty (m_targets m) then splice 1 m else m
             | _ => splice n m
             end in
    d ← populateFlags (m_deferredTargets m);
    l ← populateFlags (m_targets m);
    let m := set_m_targets l (set_m_deferredTargets d m) in
    match tl_list l with
    | [] => Err (EUndefined "front")
    | t :: _ => mret (true, set_m_readyTime (Z.max now (tg_readyTime (mt_base t))) (set_m_order (tg_order (mt_base t)) m))
    end.

(** [std::find_if_not] over the deferred targets, as the length of the prefix. *)
Fixpoint prefix_where (pred : MTarget -> res bool) (l : list MTarget) : res nat :=
  match l with
  | [] => Ok 0%nat
  | t :: l' => b ← pred t; if b : bool then n ← prefix_where pred l'; mret (S n) else Ok 0%nat
  end.
Definition promoteIf (i : nat) (pred : MTarget -> res bool) : H unit :=
  m ← load i;
  assert_ (negb (downstreamPending m)) "!downstreamPending";;
  n ← lift (prefix_where pred (tl_list (m_deferredTargets m)));
  tl_clearDownstreamPending i true n;;
  m ← load i;
  let m := splice n m in
  d ← lift (populateFlags (m_deferredTargets m));
  store i (set_m_deferredTargets d m).

Definition from_cpu (t : MTarget) : res unit := assert_r (bool_decide (mt_source t = FromCPU)) "t.source == Target::FromCPU".
Definition promoteReadable (i : nat) : H unit :=
  m ← load i;
  if tl_empty (m_deferredTargets m) then mret tt
  else
    inv ← lift (hasPostInvalidate m);
    if inv : bool then mret tt
    else promoteIf i (fun t => from_cpu t;;
                               if isCacheInvalidate (p_req (mt_pkt t)) then Ok false
                               else nw ← pkt_needsWritable (mt_pkt t); mret (negb nw)).

(** [deferredTargets.front()] is taken before the list is known to have
    elements, but only looked at when the list's [needsWritable] is set. *)
Definition promoteWritable (i : nat) : H unit :=
  m ← load i;
  if negb (tl_needsWritable (m_deferredTargets m)) then mret tt
  else
    inv ← lift (hasPostInvalidate m);
    dg ← (if inv : bool then mret true else lift (hasPostDowngrade m));
    if inv || dg then mret tt
    else match tl_list (m_deferredTargets m) with
    | [] => throw (EUndefined "front")
    | t :: _ =>
        if isCacheInvalidate (p_req (mt_pkt t)) then mret tt
        else
          assert_ (negb (tl_needsWritable (m_targets m))) "!targets.needsWritable";;
          store i (set_m_targets (set_tl_needsWritable true (m_targets m)) m);;
          promoteIf i (fun t => from_cpu t;; mret (negb (isCacheInvalidate (p_req (mt_pkt t)))))
    end.

Definition m_trySatisfyFunctional (pkt : Pkt) (m : MSHR) : res (bool * Pkt * MSHR) :=
  if isPrint (p_cmd pkt) then
    '(_, pkt', _) ← trySatisfyFunctional_at (m_blkAddr m) (m_isSecure m) (sgn 32 (m_blkSize m)) None pkt;
    mret (false, pkt', m)
  else
    '(found, pkt', l) ← satisfy_targets mt_pkt set_mt_pkt (tl_list (m_targets m)) pkt;
    let m := set_m_targets (set_tl_list l (m_targets m)) m in
    if found : bool then mret (true, pkt', m)
    else '(found, pkt'', d) ← satisfy_targets mt_pkt set_mt_pkt (tl_list (m_deferredTargets m)) pkt';
         mret (found, pkt'', set_m_deferredTargets (set_tl_list d (m_deferredTargets m)) m).

Definition m_matchBlockAddr (addr : Z) (is_secure : bool) (m : MSHR) : res bool :=
  assert_r (m_hasTargets m) "hasTargets()";; Ok ((m_blkAddr m =? addr) && Bool.eqb (m_isSecure m) is_secure).
Definition m_matchBlockPkt (pkt : Pkt) (m : MSHR) : res bool :=
  assert_r (m_hasTargets m) "hasTargets()";; matchBlockAddr_at (m_blkAddr m) (m_isSecure m) (m_blkSize m) pkt.
Definition m_conflictAddr (other : Z -> bool -> res bool) (m : MSHR) : res bool :=
  assert_r (m_hasTargets m) "hasTargets()";; other (m_blkAddr m) (m_isSecure m).

#[global] Instance MSHR_entry : QueueEntry MSHR := {
  qe_readyTime := m_readyTime;
  qe_isUncacheable := m_isUncacheable;
  qe_inService := m_inService;
  qe_order := m_order;
  qe_matchBlockAddr := m_matchBlockAddr;
  qe_matchBlockPkt := m_matchBlockPkt;
  qe_conflictAddr := m_conflictAddr;
  qe_trySatisfyFunctional := m_trySatisfyFunctional;
  qe_deallocate := m_deallocate
}.

(** ** The queue *)

Abbreviation MQ := (M (QS MSHR)).
Definition on_store {A} (m : H A) : MQ A := fun s =>
  match m (q_store s) with Ok (a, h) => Ok (a, set_store h s) | Err e => Err e end.

Definition MSHRQueue_allocate (blk_addr blk_size : Z) (pkt : Pkt) (when_ready order : Z) (alloc_on_fill : bool) : MQ nat :=
  s ← get;
  match freeList (q_queue s) with
  | [] => throw (EAssert "!freeList.empty()")
  | i :: fl =>
      mshr ← the_entry i;
      assert_ (m_getNumTargets mshr =? 0) "mshr->getNumTargets() == 0";;
      on_queue (set_freeList fl);;
      on_store (m_allocate (q_now s) i blk_addr blk_size pkt when_ready order alloc_on_fill);;
      enlist i;;
      mret i
  end.

Definition moveToFront (i : nat) : MQ unit :=
  mshr ← the_entry i;
  when_ (negb (m_inService mshr))
    (l ← gets (fun s => readyList (q_queue s));
     l' ← lift (iterator (erase i l));
     on_queue (set_readyList (i :: l'))).

(** [std::find_if(it, end, p)] and [splice(pos, it)] on the list from the entry
    on: the entry [i] moves in front of the first element that is not ready
    later than itself.  The search starts at the entry itself. *)
Fixpoint index_where (p : nat -> bool) (l : list nat) : nat :=
  match l with [] => 0 | j :: l' => if p j then 0 else S (index_where p l') end.
Definition splice_at (i : nat) (k : nat) (rest : list nat) : list nat :=
  match k with O => i :: rest | S k' => take k' rest ++ i :: drop k' rest end.
Fixpoint delay_in (time : nat -> Z) (i : nat) (l : list nat) : option (list nat) :=
  match l with
  | [] => None
  | j :: l' => if decide (i = j) then Some (splice_at i (index_where (fun k => time k <=? time i) l) l')
               else (cons j) <$> delay_in time i l'
  end.
Definition mq_delay (i : nat) (delay_ticks : Z) : MQ unit :=
  s ← get;
  mshr ← the_entry i;
  mshr' ← lift (m_delay (q_now s) delay_ticks mshr);
  put_entry i mshr';;
  s ← get;
  l ← lift (iterator (delay_in (ready_at (q_store s)) i (readyList (q_queue s))));
  on_queue (set_readyList l).

Definition mq_markInService (i : nat) (pending_modified_resp : bool) : MQ unit :=
  on_store (m_markInService i pending_modified_resp);;
  q ← gets q_queue;
  l ← lift (iterator (erase i (readyList q)));
  on_queue (set_readyList l);;
  on_queue (fun q => set_numInService (q_numInService q + 1) q).

Definition markPending (i : nat) : MQ unit :=
  mshr ← the_entry i;
  assert_ (m_inService mshr) "mshr->inService";;
  put_entry i (set_m_inService false mshr);;
  on_queue (fun q => set_numInService (q_numInService q - 1) q);;
  addToReadyList i.

Definition on_entry {A} (i : nat) (f : MSHR -> res (A * MSHR)) : MQ A :=
  mshr ← the_entry i; '(a, mshr') ← lift (f mshr); put_entry i mshr';; mret a.

Definition forceDeallocateTarget (i : nat) : MQ bool :=
  was_full ← gets (fun s => isFull (q_queue s));
  mshr ← the_entry i;
  assert_ (m_hasTargets mshr) "mshr->hasTargets()";;
  on_entry i (fun m => m' ← m_popTarget m; mret (tt, m'));;
  mshr ← the_entry i;
  (if m_hasTargets mshr then mret tt
   else now ← gets q_now;
        promoted ← on_entry i (promoteDeferredTargets now);
        if promoted : bool then mret tt else deallocate i);;
  full ← gets (fun s => isFull (q_queue s));
  mret (was_full && negb full).

Definition havePending (q : Queue) : bool := match readyList q with [] => false | _ => true end.
Definition canPrefetch (demandReserve : Z) (q : Queue) : bool :=
  q_allocated q <? numEntries q - (numReserve q + 1 + demandReserve).

(** What [BaseCache::recvTimingResp] does with the register and the queue when a
    response arrives: [readable] and [writable] say that the block the response
    filled lets deferred targets be promoted.  Returns the targets to serve. *)
Definition mq_respond (i : nat) (junk : bool) (pkt : Pkt) (readable writable : bool) : MQ TargetList :=
  when_ readable (on_store (promoteReadable i));;
  when_ writable (on_store (promoteWritable i));;
  served ← on_store (extractServiceableTargets i junk pkt);
  now ← gets q_now;
  promoted ← on_entry i (promoteDeferredTargets now);
  (if promoted : bool then markPending i else deallocate i);;
  mret served.
