(* ===== verification/MSHRProps.v ===== *)
(** * Registers keep their targets in order

    What the operations of a register do to its two lists, for any state of the
    other registers.  [wp benign]: an operation may fail because of the packet it
    is given or because of the pending flags of other registers, but never
    because of the register's own lists. *)

From S2P Require Import Prelude Hoare EventQ Drain Packet Request PacketData CacheQueue CacheQueueProps MSHR.

(** ** Failures *)

(** Failures of the lists and of the registers themselves. *)
Definition structural (e : err) : bool :=
  match e with
  | EUndefined s => bool_decide (s ∈ ["iterator"; "queue entry"; "MSHR"; "target"; "front"; "targets.begin()"; "pop_front"])
  | EPanic s => bool_decide (s = "Failed to add to ready list.")
  | EAssert s => bool_decide (s ∈ ["mshr->getNumTargets() == 0"; "targets.empty()"; "deferredTargets.isReset()"; "hasTargets()";
      "inService"; "!inService"; "mshr->inService"; "mshr->hasTargets()"; "t.source == Target::FromCPU";
      "it->source == Target::FromSnoop"; "(it->source == Target::FromCPU) || (it->source == Target::FromPrefetcher)"])
  | EFuel => true
  | _ => false
  end.
Definition benign (e : err) : Prop := structural e = false.

(** The same for computations without state. *)
Definition safe {A} (r : res A) (Q : A -> Prop) : Prop := match r with Ok a => Q a | Err e => benign e end.

Lemma safe_bind {A B} (r : res A) (f : A -> res B) Q : safe r (fun a => safe (f a) Q) -> safe (r ≫= f) Q.
Proof. by destruct r. Qed.
Lemma safe_mono {A} (r : res A) (P Q : A -> Prop) : safe r P -> (forall a, P a -> Q a) -> safe r Q.
Proof. destruct r; simpl; auto. Qed.
Lemma safe_assert b what (Q : unit -> Prop) : benign (EAssert what) -> (b = true -> Q tt) -> safe (assert_r b what) Q.
Proof. destruct b; simpl; auto. Qed.
Lemma safe_panic b what (Q : unit -> Prop) : benign (EPanic what) -> (b = false -> Q tt) -> safe (panic_r b what) Q.
Proof. destruct b; simpl; auto. Qed.
Lemma wp_lift_safe {S A} (r : res A) (Q : A -> S -> Prop) s : safe r (fun a => Q a s) -> wp benign (lift r) Q s.
Proof. unfold wp, lift. by destruct r. Qed.

(** Packet operations fail benignly; the goal is a [safe] of a term of binds,
    conditionals and assertions. *)
Ltac safe_auto :=
  repeat (cbv zeta; lazymatch goal with
  | |- safe (mbind _ _) _ => apply safe_bind
  | |- safe (assert_r _ _) _ => apply safe_assert; [vm_compute; reflexivity|intros _]
  | |- safe (panic_r _ _) _ => apply safe_panic; [vm_compute; reflexivity|intros _]
  | |- safe (mret _) _ => simpl
  | |- safe (Ok _) _ => simpl
  | |- safe (Err _) _ => vm_compute; reflexivity
  | |- safe (if ?b then _ else _) _ => destruct b
  | |- safe (match ?b with _ => _ end) _ => destruct b
  | |- safe (let '(_, _) := ?b in _) _ => destruct b
  end).

Lemma needsWritable_safe pkt (Q : bool -> Prop) : Q (needsWritable (p_cmd pkt)) -> safe (pkt_needsWritable pkt) Q.
Proof. intros HQ. unfold pkt_needsWritable. by safe_auto. Qed.
Lemma getSize_safe pkt : safe (getSize pkt) (fun _ => True).
Proof. unfold getSize. by safe_auto. Qed.
Lemma getOffset_safe n pkt : safe (pkt_getOffset n pkt) (fun _ => True).
Proof. unfold pkt_getOffset, getAddr. by safe_auto. Qed.
Lemma getFlags_safe r : safe (getFlags r) (fun _ => True).
Proof. unfold getFlags. by safe_auto. Qed.
Lemma fill_safe off n m : safe (fill_bitmap off n m) (fun _ => True).
Proof. unfold fill_bitmap. by safe_auto. Qed.
Lemma isSecure_safe pkt : safe (isSecure pkt) (fun _ => True).
Proof. unfold isSecure. by safe_auto. Qed.
Lemma matchBlock_safe p q n : safe (matchBlockAddr p q n) (fun _ => True).
Proof. unfold matchBlockAddr, matchBlockAddr_at, getBlockAddr, getAddr, isSecure. by safe_auto. Qed.
Lemma allocate_safe raw pkt : safe (PacketData.allocate raw pkt) (fun p => p_id p = p_id pkt /\ p_cmd p = p_cmd pkt /\ p_req p = p_req pkt
  /\ p_senderState p = p_senderState pkt).
Proof. unfold PacketData.allocate, getSize. by safe_auto. Qed.

(** ** Flags *)

Definition keeps_targets (l l' : TargetList) : Prop :=
  tl_list l' = tl_list l /\ tl_blkSize l' = tl_blkSize l /\ tl_blkAddr l' = tl_blkAddr l.

Lemma updateWriteFlags_safe pkt l : safe (updateWriteFlags pkt l) (keeps_targets l).
Proof.
  unfold updateWriteFlags. safe_auto; try done.
  eapply safe_mono; [apply getFlags_safe|]. intros fl _. safe_auto; try done.
  eapply safe_mono; [apply getOffset_safe|]. intros off _. safe_auto. eapply safe_mono; [apply getSize_safe|]. intros n _. safe_auto.
  eapply safe_mono; [apply fill_safe|]. intros bm _. safe_auto. done.
Qed.

Lemma updateFlags_safe pkt src aof l : safe (updateFlags pkt src aof l) (keeps_targets l).
Proof.
  unfold updateFlags. case_decide; [done|]. apply safe_bind, needsWritable_safe. cbv zeta.
  set (l1 := if needsWritable _ then _ else _). set (l2 := if isUpgrade _ || _ then _ else _).
  assert (keeps_targets l l1) as H1 by (unfold l1; by destruct (needsWritable _)).
  assert (keeps_targets l l2) as H2 by (unfold l2; by destruct (_ || _)).
  case_decide; [done|]. eapply safe_mono; [apply updateWriteFlags_safe|]. intros l3 (E1 & E2 & E3). destruct H2 as (F1 & F2 & F3).
  split; [by rewrite E1|]. split; [by rewrite E2|by rewrite E3].
Qed.

Lemma update_all_safe ts l : safe (update_all ts l) (fun l' => keeps_targets l l' /\ (ts = [] -> l' = l)).
Proof.
  revert l. induction ts as [|t ts IH]; intros l; simpl; [done|]. apply safe_bind. eapply safe_mono; [apply updateFlags_safe|].
  intros l1 (E1 & E2 & E3). eapply safe_mono; [apply IH|]. intros l2 [(F1 & F2 & F3) _]. split; [|done].
  split; [congruence|]. split; congruence.
Qed.

Lemma populateFlags_safe l : safe (populateFlags l) (fun l' => keeps_targets l l' /\ (tl_list l = [] -> isReset l' = true)).
Proof. eapply safe_mono; [apply update_all_safe|]. intros l' [Hk He]. split; [done|]. intros E. by rewrite He. Qed.

(** ** Replacing upgrades *)

(** A packet whose command, data and flags may have changed. *)
Definition same_packet (p p' : Pkt) : Prop := p_id p' = p_id p /\ p_req p' = p_req p /\ p_senderState p' = p_senderState p.
Definition same_target (t t' : MTarget) : Prop := exists p, t' = set_mt_pkt p t /\ same_packet (mt_pkt t) p.

Lemma replaceUpgrade_safe raw pkt : safe (replaceUpgrade raw pkt) (same_packet pkt).
Proof.
  unfold replaceUpgrade. cbv zeta. set (p := if decide (p_cmd pkt = UpgradeReq) then _ else _).
  assert (same_packet pkt p) as (H1 & H2 & H3) by (unfold p; repeat case_decide; done).
  destruct (hasData (p_cmd pkt) || hasRespData pkt); [by repeat split|]. apply safe_bind, safe_assert; [done|]. intros _.
  destruct (hasRespData p); [|by repeat split]. eapply safe_mono; [apply allocate_safe|]. intros q (? & _ & ? & ?).
  repeat split; congruence.
Qed.

Lemma replace_all_safe raw ts : safe (replace_all raw ts) (Forall2 same_target ts).
Proof.
  induction ts as [|t ts IH]; simpl; [constructor|]. apply safe_bind. eapply safe_mono; [apply replaceUpgrade_safe|].
  intros p Hp. apply safe_bind. eapply safe_mono; [exact IH|]. intros ts' Hts. constructor; [|done]. by exists p.
Qed.

Lemma same_targets_refl ts : Forall2 same_target ts ts.
Proof. induction ts as [|t ts IH]; constructor; [|done]. exists (mt_pkt t). split; [by destruct t as [[]]|done]. Qed.

Lemma replaceUpgrades_safe raw l : safe (replaceUpgrades raw l) (fun l' => Forall2 same_target (tl_list l) (tl_list l')
  /\ (tl_list l = [] -> isReset l = true -> isReset l' = true)).
Proof.
  unfold replaceUpgrades. destruct (tl_hasUpgrade l) eqn:Hu; [|split; [apply same_targets_refl|done]]. simpl. apply safe_bind.
  eapply safe_mono; [apply replace_all_safe|]. intros ts Hts. split; [done|]. intros E.
  unfold isReset. rewrite Hu, andb_false_r. done.
Qed.

(** ** The pending flags aside *)

Definition unmark : MTarget -> MTarget := set_mt_marked false.
Definition tl_shape (l : TargetList) : TargetList := set_tl_list (map unmark (tl_list l)) l.
Definition shape (m : MSHR) : MSHR :=
  set_downstreamPending false (set_m_targets (tl_shape (m_targets m)) (set_m_deferredTargets (tl_shape (m_deferredTargets m)) m)).
Definition same_shape (h h' : Heap) : Prop := forall i, shape <$> h !! i = shape <$> h' !! i.

Lemma same_shape_refl h : same_shape h h.
Proof. done. Qed.
Lemma same_shape_trans h1 h2 h3 : same_shape h1 h2 -> same_shape h2 h3 -> same_shape h1 h3.
Proof. intros H1 H2 i. by rewrite H1. Qed.
Lemma same_shape_lookup h h' i m : same_shape h h' -> h !! i = Some m -> exists m', h' !! i = Some m' /\ shape m' = shape m.
Proof.
  intros Hs Hi. specialize (Hs i). rewrite Hi in Hs. destruct (h' !! i) as [m'|]; [|done]. exists m'. split; [done|].
  change (Some (shape m) = Some (shape m')) in Hs. by apply (inj Some) in Hs.
Qed.
Lemma same_shape_insert h i m m' : h !! i = Some m -> shape m' = shape m -> same_shape h (<[i := m']> h).
Proof.
  intros Hi Hs j. destruct (decide (i = j)) as [<-|Hne]; [|by rewrite lookup_insert_ne]. rewrite lookup_insert_eq, Hi.
  change (Some (shape m) = Some (shape m')). by rewrite Hs.
Qed.
Lemma same_shape_dom h h' i : same_shape h h' -> is_Some (h !! i) <-> is_Some (h' !! i).
Proof. intros Hs. specialize (Hs i). destruct (h !! i), (h' !! i); try done; split; intros []; by eexists. Qed.
Lemma first_mshr_shape h h' l : same_shape h h' -> first_mshr h l = first_mshr h' l.
Proof.
  intros Hs. induction l as [|i l IH]; [done|]. simpl. rewrite IH. pose proof (same_shape_dom h h' i Hs) as Hd.
  destruct (h !! i), (h' !! i); try done.
  - assert (is_Some (None : option MSHR)) as [? ?] by (apply Hd; by eexists). done.
  - assert (is_Some (None : option MSHR)) as [? ?] by (apply Hd; by eexists). done.
Qed.

(** ** Clearing pending flags ends *)

(** The number of registers that are pending; it bounds the recursion. *)
Definition npending (h : Heap) : nat := length (filter (fun x => downstreamPending x.2 = true) (map_to_list h)).

Lemma npending_split h i m : h !! i = Some m -> npending h = ((if downstreamPending m then 1 else 0) + npending (delete i h))%nat.
Proof.
  intros Hi. unfold npending. rewrite <- (map_to_list_delete h i m Hi), filter_cons. simpl.
  destruct (downstreamPending m); [by rewrite decide_True|by rewrite decide_False].
Qed.
Lemma npending_insert h i m m' : h !! i = Some m ->
  (npending (<[i := m']> h) + (if downstreamPending m then 1 else 0) = npending h + (if downstreamPending m' then 1 else 0))%nat.
Proof.
  intros Hi. rewrite (npending_split h i m Hi), (npending_split (<[i := m']> h) i m') by apply lookup_insert_eq.
  rewrite delete_insert_eq. lia.
Qed.
Lemma npending_size h : (npending h <= size h)%nat.
Proof. unfold npending. etrans; [apply length_filter|]. by rewrite length_map_to_list. Qed.

Lemma load_wp i (Q : MSHR -> Heap -> Prop) h m : h !! i = Some m -> Q m h -> wp benign (load i) Q h.
Proof. unfold wp, load. by intros ->. Qed.
Lemma store_wp i m (Q : unit -> Heap -> Prop) h : Q tt (<[i := m]> h) -> wp benign (store i m) Q h.
Proof. done. Qed.

Ltac hstep :=
  lazymatch goal with
  | |- wp _ (mbind _ _) _ _ => apply wp_bind
  | |- wp _ (mret _) _ _ => apply wp_ret
  | |- wp _ (gets _) _ _ => apply wp_gets
  | |- wp _ (modify _) _ _ => apply wp_modify
  | |- wp _ (store _ _) _ _ => apply store_wp
  | |- wp _ (findNextSenderState _) _ _ => unfold findNextSenderState; apply wp_gets
  | |- wp _ (load _) _ _ => eapply load_wp; [eassumption|]
  | |- wp _ (lift _) _ _ => apply wp_lift_safe
  | |- wp _ (assert_ _ _) _ _ => apply wp_assert; [try (vm_compute; reflexivity)|]
  | |- wp _ (panic_if _ _) _ _ => apply wp_panic_if; [try (vm_compute; reflexivity)|]
  end; cbv beta.

Lemma wp_forM {S A} (E : err -> Prop) (I : S -> Prop) (f : A -> M S unit) l s : I s -> (forall x s, x ∈ l -> I s -> wp E (f x) (fun _ => I) s) ->
  wp E (forM_ l f) (fun _ => I) s.
Proof.
  revert s. induction l as [|x l IH]; intros s Hs Hf; [by apply wp_ret|]. simpl. apply wp_bind.
  eapply wp_mono; [apply Hf; [by constructor|done]|]. intros ? s' Hs'. apply IH; [done|]. intros y s'' Hy. apply Hf. by constructor.
Qed.

Lemma list_of_shape d m m' : shape m' = shape m -> length (tl_list (the_list d m')) = length (tl_list (the_list d m)).
Proof.
  intros Hs. assert (tl_shape (the_list d m') = tl_shape (the_list d m)) as E by (destruct d; [exact (f_equal m_deferredTargets Hs)|exact (f_equal m_targets Hs)]).
  apply (f_equal (fun l => length (tl_list l))) in E. unfold tl_shape in E. simpl in E. by rewrite !length_map in E.
Qed.

Lemma map_alter_id {A B} (f : A -> B) (g : A -> A) (l : list A) k : (forall x, f (g x) = f x) -> map f (alter g k l) = map f l.
Proof. intros Hf. revert k. induction l as [|x l IH]; intros [|k]; simpl; [done..| |]; f_equal; [apply Hf|apply IH]. Qed.

(** Clearing one mark. *)
Definition cleared (d : bool) (k : nat) (m : MSHR) : MSHR :=
  set_the_list d (set_tl_list (alter (set_mt_marked false) k (tl_list (the_list d m))) (the_list d m)) m.
Lemma cleared_shape d k m : shape (cleared d k m) = shape m.
Proof.
  assert (tl_shape (set_tl_list (alter (set_mt_marked false) k (tl_list (the_list d m))) (the_list d m)) = tl_shape (the_list d m)) as E.
  { unfold tl_shape. simpl. by rewrite map_alter_id by (by intros []). }
  unfold cleared, shape. destruct d; simpl in *; by rewrite E.
Qed.

Lemma clear_target_safe (clear : nat -> H unit) n i d k h0 m0 h :
  (forall j h, is_Some (h !! j) -> (npending h <= n)%nat -> wp benign (clear j) (fun _ h' => same_shape h h' /\ (npending h' <= npending h)%nat) h) ->
  h0 !! i = Some m0 -> (k < length (tl_list (the_list d m0)))%nat -> same_shape h0 h -> (npending h <= n)%nat ->
  wp benign (clear_target clear i d k) (fun _ h' => same_shape h0 h' /\ (npending h' <= n)%nat) h.
Proof.
  intros Hc Hi Hk Hs Hn. destruct (same_shape_lookup _ _ _ _ Hs Hi) as (m & Hm & Hsm). unfold clear_target. hstep. hstep.
  destruct (lookup_lt_is_Some_2 (tl_list (the_list d m)) k) as [t Ht]; [by rewrite (list_of_shape d _ _ Hsm)|]. rewrite Ht.
  apply wp_when; [|done]. intros _. hstep. hstep. hstep.
  apply (wp_mono _ _ (fun _ h' => same_shape h0 h' /\ (npending h' <= n)%nat)).
  - destruct (first_mshr h (p_senderState (mt_pkt t))) as [j|] eqn:Hj; [|by hstep].
    assert (is_Some (h !! j)) as Hd.
    { clear -Hj. induction (p_senderState (mt_pkt t)) as [|x l IH]; [done|]. simpl in Hj. destruct (h !! x) eqn:E; [injection Hj as <-; by eexists|auto]. }
    eapply wp_mono; [apply Hc; done|]. simpl. intros _ h' [Hs' Hn']. split; [by apply (same_shape_trans _ h)|lia].
  - simpl. intros _ h' [Hs' Hn']. destruct (same_shape_lookup _ _ _ _ Hs' Hi) as (m' & Hm' & Hsm'). hstep. hstep. hstep.
    split; [apply (same_shape_trans _ h'); [done|apply (same_shape_insert _ _ m'); [done|apply cleared_shape]]|].
    pose proof (npending_insert h' i m' (cleared d k m') Hm') as Hx. unfold cleared in *. destruct d; simpl in *; lia.
Qed.

Lemma clear_targets_safe (clear : nat -> H unit) n i d k h m :
  (forall j h, is_Some (h !! j) -> (npending h <= n)%nat -> wp benign (clear j) (fun _ h' => same_shape h h' /\ (npending h' <= npending h)%nat) h) ->
  h !! i = Some m -> (k <= length (tl_list (the_list d m)))%nat -> (npending h <= n)%nat ->
  wp benign (clear_targets clear i d k) (fun _ h' => same_shape h h' /\ (npending h' <= n)%nat) h.
Proof.
  intros Hc Hi Hk Hn. apply wp_forM; [by split|]. intros x h' Hx [Hs Hn']. apply elem_of_seq in Hx.
  apply (clear_target_safe clear n i d x h m); try done. lia.
Qed.

Lemma clear_safe fuel i h : is_Some (h !! i) -> (npending h < fuel)%nat ->
  wp benign (clearDownstreamPending fuel i) (fun _ h' => same_shape h h' /\ (npending h' <= npending h)%nat) h.
Proof.
  revert i h. induction fuel as [|fuel IH]; intros i h [m Hi] Hn; [lia|]. simpl. hstep. hstep. hstep. hstep. intros Hp. hstep. hstep.
  pose proof (npending_insert h i m (set_downstreamPending false m) Hi) as Hx. rewrite Hp in Hx. simpl in Hx.
  eapply wp_mono; [apply (clear_targets_safe _ (npending h - 1) i false _ _ (set_downstreamPending false m))|]; simpl.
  - intros j h' Hj Hn'. apply IH; [done|lia].
  - apply lookup_insert_eq.
  - done.
  - lia.
  - intros _ h' [Hs Hn']. split; [|lia]. eapply same_shape_trans; [|exact Hs]. by apply (same_shape_insert _ _ m).
Qed.

(** The fuel the model takes is enough. *)
Lemma tl_clear_safe i d n h m : h !! i = Some m -> (n <= length (tl_list (the_list d m)))%nat ->
  wp benign (tl_clearDownstreamPending i d n) (fun _ h' => same_shape h h') h.
Proof.
  intros Hi Hn. unfold tl_clearDownstreamPending. apply wp_bind. apply (wp_run _ get _ _ h h); [done|].
  eapply wp_mono; [apply (clear_targets_safe _ (npending h) i d n h m)|]; [|done|done|done|by intros _ h' [? _]].
  intros j h' Hj Hn'. apply clear_safe; [done|]. pose proof (npending_size h). lia.
Qed.

(** ** What waits in a register *)

(** A target without what the operations may change: its mark, and the command and data of its packet. *)
Record TKey := mkKey { k_source : Source; k_recv : Z; k_ready : Z; k_order : Z; k_id : Z; k_alloc : bool }.
Definition tkey (t : MTarget) : TKey :=
  mkKey (mt_source t) (tg_recvTime (mt_base t)) (tg_readyTime (mt_base t)) (tg_order (mt_base t)) (p_id (mt_pkt t)) (mt_allocOnFill t).
Definition tkeys (m : MSHR) : list TKey := map tkey (tl_list (m_targets m)).
Definition dkeys (m : MSHR) : list TKey := map tkey (tl_list (m_deferredTargets m)).

Record reg_core (m : MSHR) : Prop := {
  rc_reset : dkeys m = [] -> isReset (m_deferredTargets m) = true;
  rc_def : Forall (fun k => k_source k = FromCPU) (dkeys m);
  rc_head : Forall (fun k => k_source k <> FromSnoop) (take 1 (tkeys m));
  rc_tail : Forall (fun k => k_source k <> FromPrefetcher) (drop 1 (tkeys m));
  rc_unsent : m_inService m = false -> Forall (fun k => k_source k <> FromSnoop) (tkeys m)
}.

Lemma map_unmark_keys l : map tkey (map unmark l) = map tkey l.
Proof. rewrite map_map. done. Qed.

Lemma core_ext m m' : tkeys m' = tkeys m -> dkeys m' = dkeys m -> isReset (m_deferredTargets m') = isReset (m_deferredTargets m) ->
  m_inService m' = m_inService m -> reg_core m -> reg_core m'.
Proof. intros E1 E2 E3 E4 [H1 H2 H3 H4 H5]. split; rewrite ?E1, ?E2, ?E3, ?E4; done. Qed.

(** The shape of a register determines what its lists and the queue need. *)
Lemma shape_keys m m' : shape m' = shape m -> tkeys m' = tkeys m /\ dkeys m' = dkeys m
  /\ isReset (m_deferredTargets m') = isReset (m_deferredTargets m) /\ m_inService m' = m_inService m /\ m_readyTime m' = m_readyTime m.
Proof.
  intros Hs. unfold tkeys, dkeys. rewrite <- !(map_unmark_keys (tl_list _)).
  split; [exact (f_equal (fun m => map tkey (tl_list (m_targets m))) Hs)|].
  split; [exact (f_equal (fun m => map tkey (tl_list (m_deferredTargets m))) Hs)|].
  split; [exact (f_equal (fun m => isReset (m_deferredTargets m)) Hs)|].
  split; [exact (f_equal m_inService Hs)|exact (f_equal m_readyTime Hs)].
Qed.
Lemma shape_core m m' : shape m' = shape m -> reg_core m -> reg_core m'.
Proof. intros (E1 & E2 & E3 & E4 & _)%shape_keys. by apply core_ext. Qed.

(** [becomes i h P h']: register [i] now satisfies [P], the others keep their shape. *)
Definition becomes (i : nat) (h : Heap) (P : MSHR -> Prop) (h' : Heap) : Prop :=
  (forall j, j <> i -> shape <$> h !! j = shape <$> h' !! j) /\ exists m, h' !! i = Some m /\ P m.

Lemma becomes_insert i h (P : MSHR -> Prop) m : P m -> becomes i h P (<[i := m]> h).
Proof. intros HP. split; [intros j Hj; by rewrite lookup_insert_ne|]. exists m. by rewrite lookup_insert_eq. Qed.
Lemma becomes_shape i h h' m (P : MSHR -> Prop) : same_shape h h' -> h !! i = Some m -> (forall m', shape m' = shape m -> P m') -> becomes i h P h'.
Proof. intros Hs Hi HP. split; [intros; apply Hs|]. destruct (same_shape_lookup _ _ _ _ Hs Hi) as (m' & Hm & Hsm). eauto. Qed.
Lemma becomes_trans i h h1 h2 (P Q : MSHR -> Prop) : becomes i h P h1 -> (forall m, h1 !! i = Some m -> P m -> becomes i h1 Q h2) -> becomes i h Q h2.
Proof.
  intros [Hf (m & Hm & HP)] HQ. destruct (HQ m Hm HP) as [Hf' HQ']. split; [|done]. intros j Hj. by rewrite Hf, Hf'.
Qed.
Lemma becomes_mono i h h' (P Q : MSHR -> Prop) : becomes i h P h' -> (forall m, P m -> Q m) -> becomes i h Q h'.
Proof. intros [Hf (m & Hm & HP)] HQ. split; eauto. Qed.

(** *** Adding a target *)

Definition with_target (d : bool) (l : TargetList) (t : MTarget) (m : MSHR) : MSHR :=
  set_the_list d (set_tl_list (tl_list l ++ [t]) l) m.

Lemma shape_with d t m m' : shape m' = shape m -> shape (with_target d (the_list d m') t m') = shape (with_target d (the_list d m) t m).
Proof.
  intros Hs. assert (forall x, shape (with_target d (the_list d x) t x)
    = with_target d (the_list d (shape x)) (unmark t) (shape x)) as E.
  { intros x. unfold with_target, shape, tl_shape. destruct d; simpl; by rewrite map_app. }
  by rewrite !E, Hs.
Qed.

Lemma tl_add_wp now i d pkt rt o src mp aof h m : h !! i = Some m ->
  wp benign (tl_add now i d pkt rt o src mp aof)
    (fun _ => becomes i h (fun m' => exists l marked, keeps_targets (the_list d m) l /\
       shape m' = shape (with_target d l (mkMT (mkTarget now rt o pkt) src marked aof) m))) h.
Proof.
  intros Hi. unfold tl_add. hstep. hstep. hstep. hstep. eapply safe_mono; [apply updateFlags_safe|]. intros l Hl. simpl. hstep. hstep.
  set (m1 := set_the_list d l m). set (h1 := <[i := m1]> h). assert (h1 !! i = Some m1) as Hi1 by apply lookup_insert_eq.
  hstep. apply (wp_mono _ _ (fun _ h' => same_shape h1 h')).
  - destruct mp; [|by hstep]. hstep. hstep. destruct (first_mshr h1 _) as [j|] eqn:Hj; [|by hstep].
    assert (is_Some (h1 !! j)) as [mj Hmj].
    { clear -Hj. induction (p_senderState pkt) as [|x l' IH]; [done|]. simpl in Hj. destruct (h1 !! x) eqn:E; [injection Hj as <-; by eexists|auto]. }
    hstep. hstep. hstep. hstep. intros _. hstep. hstep. hstep. by apply (same_shape_insert _ _ mj).
  - intros mk h2 Hs. destruct (same_shape_lookup _ _ _ _ Hs Hi1) as (m2 & Hm2 & Hsm). hstep. hstep. hstep. split.
    + intros j Hj. rewrite lookup_insert_ne by done. rewrite <- Hs. unfold h1. by rewrite lookup_insert_ne.
    + eexists. split; [apply lookup_insert_eq|]. exists l, mk. split; [done|].
      etrans; [apply (shape_with d _ m1 m2 Hsm)|]. unfold m1, with_target. by destruct d.
Qed.

Lemma added_keys (d : bool) l t m m' : keeps_targets (the_list d m) l -> shape m' = shape (with_target d l t m) ->
  tkeys m' = tkeys m ++ (if d then [] else [tkey t]) /\ dkeys m' = dkeys m ++ (if d then [tkey t] else [])
  /\ (d = false -> isReset (m_deferredTargets m') = isReset (m_deferredTargets m))
  /\ m_inService m' = m_inService m /\ m_readyTime m' = m_readyTime m.
Proof.
  intros (Hl & _ & _) (E1 & E2 & E3 & E4 & E5)%shape_keys. rewrite E1, E2, E3, E4, E5. unfold tkeys, dkeys, with_target.
  destruct d; simpl in *; rewrite Hl, map_app, ?app_nil_r; done.
Qed.

(** *** The operations *)

(** What an operation leaves of register [m]: the two lists, and whether the register is in service. *)
Record now_has (m : MSHR) (ts ds : list TKey) (sent : bool) (m' : MSHR) : Prop := {
  nh_core : reg_core m';
  nh_targets : tkeys m' = ts;
  nh_deferred : dkeys m' = ds;
  nh_sent : m_inService m' = sent;
  nh_time : m_readyTime m' = m_readyTime m
}.

Lemma Forall_take_app {A} (P : A -> Prop) (l l' : list A) : Forall P (take 1 l) -> Forall P l' -> Forall P (take 1 (l ++ l')).
Proof. destruct l as [|x l]; simpl; intros H1 H2; [by apply Forall_take|]. by rewrite take_0 in *. Qed.
Lemma Forall_drop_app {A} (P : A -> Prop) (l l' : list A) : Forall P (drop 1 l) -> Forall P l' -> Forall P (drop 1 (l ++ l')).
Proof. destruct l as [|x l]; simpl; intros H1 H2; [by apply Forall_drop|]. rewrite drop_0 in *. by apply Forall_app. Qed.

Lemma must_defer_safe pkt m : tkeys m <> [] -> safe (must_defer pkt m) (fun b => b = false -> dkeys m = []).
Proof.
  intros Ht. unfold must_defer, front_pkt, hasPostInvalidate, isPendingModified, hasPostDowngrade, tkeys, dkeys, tl_empty in *.
  destruct (tl_list (m_targets m)) as [|t l]; [done|]. simpl. destruct (isCacheMaintenance _); [done|]. simpl.
  destruct (isCacheMaintenance _); [done|]. simpl. destruct (tl_list (m_deferredTargets m)); [|done]. simpl.
  destruct (m_inService m); [|done]. simpl. destruct (postInvalidate m); [done|]. apply safe_bind, needsWritable_safe.
  by destruct (needsWritable _).
Qed.

Lemma allocateTarget_wp raw now i pkt w o aof h m : h !! i = Some m -> reg_core m -> tkeys m <> [] ->
  wp benign (allocateTarget raw now i pkt w o aof) (fun _ => becomes i h (fun m' => exists ts ds, now_has m ts ds (m_inService m) m'
    /\ ts ++ ds = (tkeys m ++ dkeys m) ++ [mkKey FromCPU now w o (p_id pkt) aof] /\ ts <> [])) h.
Proof.
  intros Hi [H1 H2 H3 H4 H5] Ht. unfold allocateTarget. hstep. hstep. intros _. hstep. hstep. hstep. hstep.
  eapply safe_mono; [by apply must_defer_safe|]. intros b Hb. simpl. destruct b.
  - hstep. apply (wp_mono _ _ (fun p h' => same_packet pkt p /\ h' = h)).
    + destruct (m_inService m) eqn:Hs; [|by hstep]. hstep. hstep. unfold hasPostInvalidate. rewrite Hs. simpl.
      destruct (postInvalidate m); [|by hstep]. hstep. eapply safe_mono; [apply replaceUpgrade_safe|]. done.
    + intros p h' [(Hid & _ & _) ->]. eapply wp_mono; [by apply tl_add_wp|]. cbv beta. intros _ h' Hb'.
      eapply becomes_mono; [exact Hb'|]. intros m' (l & mk & Hl & Hsh). destruct (added_keys _ _ _ _ _ Hl Hsh) as (E1 & E2 & _ & E4 & E5).
      rewrite app_nil_r in E1. assert (reg_core m') as Hc.
      { split; rewrite ?E1, ?E2, ?E4; try done; [by destruct (dkeys m)|]. apply Forall_app. split; [done|]. by constructor. }
      eexists _, _. split; [split; [done|exact E1|exact E2|done|done]|]. split; [|done].
      rewrite <- app_assoc. unfold tkey. simpl. unfold mt_pkt. simpl. by rewrite Hid.
  - specialize (Hb eq_refl). eapply wp_mono; [by apply tl_add_wp|]. cbv beta. intros _ h' Hb'.
    eapply becomes_mono; [exact Hb'|]. intros m' (l & mk & Hl & Hsh). destruct (added_keys _ _ _ _ _ Hl Hsh) as (E1 & E2 & E3 & E4 & E5).
    rewrite app_nil_r in E2. assert (reg_core m') as Hc.
    { split; rewrite ?E1, ?E2, ?E3, ?E4; try done.
      - apply Forall_take_app; [done|by constructor].
      - apply Forall_drop_app; [done|by constructor].
      - intros Hs. apply Forall_app. split; [by apply H5|by constructor]. }
    eexists _, _. split; [split; [done|exact E1|exact E2|done|done]|]. rewrite Hb, !app_nil_r. split; [done|]. by destruct (tkeys m).
Qed.

Lemma same_target_keys ts ts' : Forall2 same_target ts ts' -> map tkey ts' = map tkey ts.
Proof.
  induction 1 as [|t t' ts ts' (p & -> & Hp & _ & _) _ IH]; [done|]. simpl. rewrite IH. f_equal. unfold tkey, mt_pkt in *. simpl. by rewrite Hp.
Qed.

Lemma front_pkt_safe m (Q : Pkt -> Prop) : tkeys m <> [] -> (forall p, Q p) -> safe (front_pkt m) Q.
Proof. unfold front_pkt, tkeys. destruct (tl_list (m_targets m)); [done|]. simpl. auto. Qed.

Lemma m_allocate_wp now i a n pkt w o aof h m : h !! i = Some m -> tkeys m = [] -> dkeys m = [] ->
  wp benign (m_allocate now i a n pkt w o aof) (fun _ => becomes i h (fun m' => exists src, src <> FromSnoop
    /\ reg_core m' /\ tkeys m' = [mkKey src now w o (p_id pkt) aof] /\ dkeys m' = [] /\ m_inService m' = false /\ m_readyTime m' = w)) h.
Proof.
  intros Hi Ht Hd. unfold m_allocate. hstep. hstep. hstep. hstep. eapply safe_mono; [apply isSecure_safe|]. intros sec _. simpl.
  hstep. hstep. set (m1 := mkMSHR _ _ _ _ _ _ _ _ _ _ _ _ _ _ _). set (src := if decide (p_cmd pkt = HardPFReq) then _ else _).
  assert (tkeys m1 = [] /\ dkeys m1 = []) as [Ht1 Hd1] by done.
  hstep. eapply wp_mono; [apply tl_add_wp, lookup_insert_eq|]. cbv beta. intros _ h1 Hb.
  assert (becomes i h (fun m' => exists src, src <> FromSnoop /\ reg_core m' /\ tkeys m' = [mkKey src now w o (p_id pkt) aof]
    /\ dkeys m' = [] /\ m_inService m' = false /\ m_readyTime m' = w) h1) as Hb1.
  { eapply becomes_trans; [exact (becomes_insert i h (eq m1) m1 eq_refl)|]. intros m0 Hm0 <-. eapply becomes_mono; [exact Hb|].
    intros m' (l & mk & Hl & Hsh). destruct (added_keys _ _ _ _ _ Hl Hsh) as (E1 & E2 & E3 & E4 & E5). exists src.
    rewrite Ht1, Hd1 in *. simpl in *. assert (src <> FromSnoop) by (unfold src; by case_decide). split; [done|]. split; [|done].
    split; rewrite ?E1, ?E2, ?E3, ?E4; try done; simpl; try (by constructor). }
  destruct Hb1 as [Hf (m2 & Hm2 & HP)]. hstep. hstep. hstep. hstep.
  apply front_pkt_safe; [destruct HP as (s & _ & _ & -> & _); done|]. intros p. hstep. hstep.
  eapply safe_mono; [apply matchBlock_safe|]. intros b _. hstep. intros _. split; eauto.
Qed.

Definition snoop_key (now o : Z) (pkt : Pkt) : TKey := mkKey FromSnoop now now o (p_id pkt) false.

Lemma copy_safe raw pkt : safe (copy_Pkt raw pkt true true) (fun p => p_id p = p_id pkt).
Proof.
  unfold copy_Pkt. cbv zeta. destruct (p_isSet STATIC_DATA pkt); [done|]. eapply safe_mono; [apply allocate_safe|]. by intros p (-> & _).
Qed.
Lemma setCacheResponding_safe p : safe (setCacheResponding p) (fun q => p_id q = p_id p /\ p_cmd q = p_cmd p).
Proof. unfold setCacheResponding. by safe_auto. Qed.
Lemma setResponderHadWritable_safe p : safe (setResponderHadWritable p) (fun q => p_id q = p_id p /\ p_cmd q = p_cmd p).
Proof. unfold setResponderHadWritable. by safe_auto. Qed.
Lemma setSatisfied_safe p : safe (setSatisfied p) (fun q => p_id q = p_id p /\ p_cmd q = p_cmd p).
Proof. unfold setSatisfied. by safe_auto. Qed.

(** [post*] flags are not part of what waits. *)
Lemma now_has_flag m ts ds sent m' f : (f = set_postInvalidate true \/ f = set_postDowngrade true) -> now_has m ts ds sent m' -> now_has m ts ds sent (f m').
Proof. intros [-> | ->] [[C1 C2 C3 C4 C5] H2 H3 H4 H5]; (split; [split|..]); done. Qed.

Definition snooped (m : MSHR) (k : TKey) (m' : MSHR) : Prop :=
  now_has m (tkeys m) (dkeys m) (m_inService m) m' \/ (m_inService m = true /\ now_has m (tkeys m ++ [k]) (dkeys m) (m_inService m) m').

Lemma snooped_flag m k m' f : (f = set_postInvalidate true \/ f = set_postDowngrade true) -> snooped m k m' -> snooped m k (f m').
Proof. intros Hf [Hn|[Hs Hn]]; [left|right; split; [done|]]; by apply now_has_flag. Qed.

Lemma now_has_refl m : reg_core m -> now_has m (tkeys m) (dkeys m) (m_inService m) m.
Proof. intros Hc. by split. Qed.

Lemma snoop_flag_wp i h m k (b : bool) f (Q : unit -> Heap -> Prop) h1 : (f = set_postInvalidate true \/ f = set_postDowngrade true) ->
  becomes i h (snooped m k) h1 -> (forall h2, becomes i h (snooped m k) h2 -> Q tt h2) ->
  wp benign (if b then m ← load i; store i (f m) else mret tt) Q h1.
Proof.
  intros Hf Hb HQ. destruct b; [|hstep; by apply HQ]. pose proof Hb as [Hfr (m1 & Hm1 & HP)]. hstep. hstep. hstep. apply HQ.
  eapply becomes_trans; [exact Hb|]. intros m2 Hm2 HP2. assert (m2 = m1) as -> by congruence. apply becomes_insert. by apply snooped_flag.
Qed.

Lemma add_snoop_wp now i pkt o mp h h1 m m1 cp : h1 !! i = Some m1 -> (forall j, j <> i -> shape <$> h !! j = shape <$> h1 !! j) ->
  now_has m (tkeys m) (dkeys m) (m_inService m) m1 -> tkeys m <> [] -> m_inService m = true -> p_id cp = p_id pkt ->
  wp benign (tl_add now i false cp now o FromSnoop mp false) (fun _ => becomes i h (snooped m (snoop_key now o pkt))) h1.
Proof.
  intros Hi Hfr [[C1 C2 C3 C4 C5] N2 N3 N4 N5] Ht Hs Hid. eapply wp_mono; [by apply tl_add_wp|]. cbv beta. intros _ h2 Hb.
  assert (becomes i h (eq m1) h1) as Hb0 by (split; eauto). eapply becomes_trans; [exact Hb0|]. intros m2 Hm2 <-.
  eapply becomes_mono; [exact Hb|]. intros m' (l & mk & Hl & Hsh). destruct (added_keys _ _ _ _ _ Hl Hsh) as (E1 & E2 & E3 & E4 & E5).
  right. split; [done|]. rewrite app_nil_r in E2.
  assert (tkeys m' = tkeys m1 ++ [snoop_key now o pkt]) as E1' by (rewrite E1; unfold snoop_key; by rewrite <- Hid). clear E1.
  rename E1' into E1.
  split; [split|..]; rewrite ?E1, ?E2, ?E3, ?E4, ?E5; try done.
  - rewrite N2. destruct (tkeys m); [done|]. by rewrite N2 in C3.
  - apply Forall_drop_app; [done|by constructor].
  - intros Hf. congruence.
  - by rewrite N2.
Qed.

Lemma replaced_deferred m l m1 : now_has m (tkeys m) (dkeys m) (m_inService m) m1 ->
  Forall2 same_target (tl_list (m_deferredTargets m1)) (tl_list l) ->
  (tl_list (m_deferredTargets m1) = [] -> isReset (m_deferredTargets m1) = true -> isReset l = true) ->
  now_has m (tkeys m) (dkeys m) (m_inService m) (set_m_deferredTargets l m1).
Proof.
  intros [[C1 C2 C3 C4 C5] N2 N3 N4 N5] Hs Hr. assert (dkeys (set_m_deferredTargets l m1) = dkeys m1) as E by (by apply same_target_keys).
  split; [split|..]; rewrite ?E; try done. intros Hd. apply Hr; [|by apply C1]. unfold dkeys in Hd. by destruct (tl_list (m_deferredTargets m1)).
Qed.
Lemma replaced_targets m l m1 : now_has m (tkeys m) (dkeys m) (m_inService m) m1 ->
  Forall2 same_target (tl_list (m_targets m1)) (tl_list l) -> now_has m (tkeys m) (dkeys m) (m_inService m) (set_m_targets l m1).
Proof.
  intros [[C1 C2 C3 C4 C5] N2 N3 N4 N5] Hs. assert (tkeys (set_m_targets l m1) = tkeys m1) as E by (by apply same_target_keys).
  split; [split|..]; rewrite ?E; done.
Qed.

Lemma inService_safe (f : MSHR -> bool) m (Q : bool -> Prop) : m_inService m = true -> Q (f m) ->
  safe (assert_r (m_inService m) "inService";; Ok (f m)) Q.
Proof. by intros ->. Qed.

(** The part that answers a snoop: the copy is queued, flags tell what happens after the response. *)
Lemma snoop_reply_wp raw now i pkt o (pm : bool) h h1 m m1 (Q : Pkt -> Heap -> Prop) :
  h1 !! i = Some m1 -> (forall j, j <> i -> shape <$> h !! j = shape <$> h1 !! j) ->
  now_has m (tkeys m) (dkeys m) (m_inService m) m1 -> tkeys m <> [] -> m_inService m = true ->
  (forall p h2, becomes i h (snooped m (snoop_key now o pkt)) h2 -> Q p h2) ->
  wp benign (let will_respond := pm && needsResponse (p_cmd pkt) && negb (isClean (p_cmd pkt)) in
     cp_pkt ← (if will_respond then lift (copy_Pkt raw pkt true true)
               else mret (new_Pkt_block (p_id pkt) (copy_Request (p_req pkt)) (p_cmd pkt) (sgn 32 (m_blkSize m1))));
     pkt ← (if will_respond then p ← lift (setCacheResponding pkt); lift (setResponderHadWritable p)
            else if pm && isClean (p_cmd pkt) then lift (setSatisfied pkt) else mret pkt);
     tl_add now i false cp_pkt now o FromSnoop (downstreamPending m1 && tl_needsWritable (m_targets m1)) false;;
     nw ← lift (pkt_needsWritable pkt);
     (if nw || isInvalidate (p_cmd pkt) then m ← load i; store i (set_postInvalidate true m) else mret tt);;
     mret pkt) Q h1.
Proof.
  intros Hi Hfr Hn Ht Hs HQ. cbv zeta. set (wr := pm && _ && _). hstep.
  apply (wp_mono _ _ (fun cp h' => p_id cp = p_id pkt /\ h' = h1)).
  { destruct wr; hstep; [|]. - eapply safe_mono; [apply copy_safe|]. done.
    - split; [|done]. unfold new_Pkt_block. cbv zeta. by destruct (hasPaddr _). }
  intros cp h' [Hcp ->]. hstep. apply (wp_mono _ _ (fun p h' => h' = h1)).
  { destruct wr; [|destruct (pm && _)]; hstep; [| |done].
    - hstep. eapply safe_mono; [apply setCacheResponding_safe|]. intros p Hp. hstep. eapply safe_mono; [apply setResponderHadWritable_safe|]. done.
    - eapply safe_mono; [apply setSatisfied_safe|]. done. }
  intros p h' ->. hstep. eapply wp_mono; [by apply (add_snoop_wp now i pkt o _ h h1 m m1 cp)|]. cbv beta. intros _ h2 Hb.
  hstep. hstep. apply needsWritable_safe. hstep. apply (snoop_flag_wp i h m (snoop_key now o pkt) _ (set_postInvalidate true)); [by left|done|].
  intros h3 Hb3. hstep. by apply HQ.
Qed.

Lemma snoop_after_wp raw now i pkt o inv h m : h !! i = Some m -> reg_core m -> tkeys m <> [] -> m_inService m = true ->
  wp benign (snoop_after raw now i pkt o inv) (fun _ => becomes i h (snooped m (snoop_key now o pkt))) h.
Proof.
  intros Hi Hc Ht Hs. unfold snoop_after. hstep. hstep. hstep.
  apply (wp_mono _ _ (fun _ => becomes i h (now_has m (tkeys m) (dkeys m) (m_inService m)))).
  { pose proof (now_has_refl m Hc) as Hn. destruct inv; [|hstep; split; eauto]. hstep. hstep.
    eapply safe_mono; [apply replaceUpgrades_safe|]. intros l [Hl Hr]. hstep. apply becomes_insert. by apply replaced_deferred. }
  intros _ h1 [Hfr (m1 & Hm1 & Hn1)]. pose proof Hn1 as [Hc1 E1 E2 E3 _]. hstep. hstep. hstep. hstep.
  apply front_pkt_safe; [by rewrite E1|]. intros p. hstep. hstep. apply inService_safe; [congruence|].
  assert (becomes i h (snooped m (snoop_key now o pkt)) h1) as Hb1 by (split; [done|]; exists m1; split; [done|by left]).
  destruct (_ || _); [by hstep|]. hstep. hstep. apply inService_safe; [congruence|]. hstep.
  apply (wp_mono _ _ (fun _ h2 => becomes i h (snooped m (snoop_key now o pkt)) h2)).
  - destruct (_ || _); [|by hstep]. eapply (snoop_reply_wp raw now i pkt o _ h h1 m m1); try done. 
  - intros p2 h2 Hb2. hstep. hstep. apply needsWritable_safe. destruct (_ && _); [|by hstep]. 
    destruct Hb2 as [Hf2 (m2 & Hm2 & HP2)]. hstep. hstep. hstep. hstep. hstep.
    apply (becomes_trans i h h2 _ (snooped m (snoop_key now o pkt))); [split; eauto|]. intros m3 Hm3 _. apply becomes_insert.
    assert (m3 = m2) as -> by congruence. apply snooped_flag; [by right|done].
Qed.

Lemma snoop_before_wp raw now i pkt o (inv : bool) h m : h !! i = Some m -> reg_core m ->
  wp benign ((if inv then l ← lift (replaceUpgrades raw (m_targets m)); d ← lift (replaceUpgrades raw (m_deferredTargets m));
                store i (set_m_deferredTargets d (set_m_targets l m)) else mret tt);; mret (false, pkt))
    (fun _ => becomes i h (snooped m (snoop_key now o pkt))) h.
Proof.
  intros Hi Hc. hstep. apply (wp_mono _ _ (fun _ => becomes i h (snooped m (snoop_key now o pkt)))); [|by intros _ h' Hb; hstep].
  pose proof (now_has_refl m Hc) as Hn. destruct inv; [|hstep; split; [done|]; exists m; split; [done|by left]].
  hstep. hstep. eapply safe_mono; [apply replaceUpgrades_safe|]. intros l [Hl _]. hstep. hstep.
  eapply safe_mono; [apply replaceUpgrades_safe|]. intros d [Hd Hr]. hstep. apply becomes_insert. left.
  apply replaced_deferred; [by apply replaced_targets|done|done].
Qed.

Lemma handleSnoop_wp raw now i pkt o h m : h !! i = Some m -> reg_core m -> tkeys m <> [] ->
  wp benign (m_handleSnoop raw now i pkt o) (fun _ => becomes i h (snooped m (snoop_key now o pkt))) h.
Proof.
  intros Hi Hc Ht. unfold m_handleSnoop. hstep. hstep. apply needsWritable_safe. hstep. hstep. intros _. hstep. hstep.
  destruct (m_inService m) eqn:Hs; simpl; [|by apply snoop_before_wp].
  destruct (_ && _); [by apply snoop_before_wp|by apply snoop_after_wp].
Qed.

Lemma markInService_wp i pm h m : h !! i = Some m -> reg_core m -> m_inService m = false ->
  wp benign (m_markInService i pm) (fun _ => becomes i h (now_has m (tkeys m) (dkeys m) true)) h.
Proof.
  intros Hi [C1 C2 C3 C4 C5] Hs. unfold m_markInService. hstep. hstep. hstep. rewrite Hs. apply wp_ret. hstep. hstep.
  set (m1 := set_postInvalidate _ _). set (h1 := <[i := m1]> h). hstep.
  assert (now_has m (tkeys m) (dkeys m) true m1) as Hn by (by repeat split).
  apply (wp_mono _ _ (fun _ h' => same_shape h1 h')).
  - apply wp_when; [|done]. intros _. apply (tl_clear_safe i false _ h1 m1); [apply lookup_insert_eq|done].
  - intros _ h2 Hs2. destruct (same_shape_lookup h1 h2 i m1 Hs2 (lookup_insert_eq _ _ _)) as (m2 & Hm2 & Hsm). hstep. hstep. hstep.
    destruct (shape_keys _ _ Hsm) as (E1 & E2 & E3 & E4 & E5). pose proof (shape_core _ _ Hsm (nh_core _ _ _ _ _ Hn)) as [D1 D2 D3 D4 D5].
    split.
    + intros j Hj. rewrite lookup_insert_ne by done. rewrite <- Hs2. unfold h1. by rewrite lookup_insert_ne.
    + eexists. split; [apply lookup_insert_eq|]. split; [by split|done..].
Qed.

(** *** Promotion *)

Lemma splice_keys n m : tkeys (splice n m) = tkeys m ++ take n (dkeys m) /\ dkeys (splice n m) = drop n (dkeys m).
Proof. unfold tkeys, dkeys, splice. simpl. by rewrite map_app, firstn_map, skipn_map. Qed.

(** Deferred targets move up; the flags of the deferred list are recomputed. *)
Lemma spliced_core n m d : reg_core m -> m_inService m = true -> tkeys m <> [] -> keeps_targets (m_deferredTargets (splice n m)) d ->
  (tl_list (m_deferredTargets (splice n m)) = [] -> isReset d = true) ->
  now_has m (tkeys m ++ take n (dkeys m)) (drop n (dkeys m)) true (set_m_deferredTargets d (splice n m)).
Proof.
  intros [C1 C2 C3 C4 C5] Hs Ht (Hd & _) Hr. destruct (splice_keys n m) as [E1 E2].
  assert (dkeys (set_m_deferredTargets d (splice n m)) = drop n (dkeys m)) as E3 by (rewrite <- E2; unfold dkeys; by rewrite <- Hd).
  assert (tkeys (set_m_deferredTargets d (splice n m)) = tkeys m ++ take n (dkeys m)) as E4 by exact E1.
  assert (Forall (fun k => k_source k = FromCPU) (take n (dkeys m))) as Hcpu by (by apply Forall_take).
  split; [split|done..]; rewrite ?E3, ?E4.
  - intros He. apply Hr. rewrite <- E2 in He. unfold dkeys in He. by apply map_eq_nil in He.
  - by apply Forall_drop.
  - destruct (tkeys m); [done|]. simpl in *. by rewrite take_0 in *.
  - apply Forall_drop_app; [done|]. eapply Forall_impl; [exact Hcpu|]. simpl. congruence.
  - simpl. congruence.
Qed.

Lemma prefix_safe (pred : MTarget -> res bool) l : Forall (fun t => safe (pred t) (fun _ => True)) l ->
  safe (prefix_where pred l) (fun n => (n <= length l)%nat).
Proof.
  induction 1 as [|t l Ht _ IH]; simpl; [done|]. apply safe_bind. eapply safe_mono; [exact Ht|]. intros [] _; [|simpl; lia].
  apply safe_bind. eapply safe_mono; [exact IH|]. simpl. lia.
Qed.

Lemma deferred_cpu m (P : MTarget -> Prop) : reg_core m -> (forall t, mt_source t = FromCPU -> P t) -> Forall P (tl_list (m_deferredTargets m)).
Proof. intros [_ H2 _ _ _] HP. unfold dkeys in H2. rewrite Forall_map in H2. eapply Forall_impl; [exact H2|]. intros t. apply HP. Qed.

Definition promoted (m m' : MSHR) : Prop := exists n, now_has m (tkeys m ++ take n (dkeys m)) (drop n (dkeys m)) true m'.

Lemma promoteIf_wp i pred h m : h !! i = Some m -> reg_core m -> m_inService m = true -> tkeys m <> [] ->
  (forall t, mt_source t = FromCPU -> safe (pred t) (fun _ => True)) ->
  wp benign (promoteIf i pred) (fun _ => becomes i h (promoted m)) h.
Proof.
  intros Hi Hc Hs Ht Hp. unfold promoteIf. hstep. hstep. hstep. hstep. intros _. hstep. hstep.
  eapply safe_mono; [apply prefix_safe; by apply deferred_cpu|]. intros n Hn. hstep.
  eapply wp_mono; [by apply (tl_clear_safe i true n h m)|]. cbv beta. intros _ h1 Hs1.
  destruct (same_shape_lookup _ _ _ _ Hs1 Hi) as (m1 & Hm1 & Hsm). destruct (shape_keys _ _ Hsm) as (E1 & E2 & E3 & E4 & E5).
  pose proof (shape_core _ _ Hsm Hc) as Hc1. hstep. hstep. hstep. hstep. eapply safe_mono; [apply populateFlags_safe|]. intros d [Hd Hr]. hstep.
  split; [intros j Hj; rewrite lookup_insert_ne by done; apply Hs1|]. eexists. split; [apply lookup_insert_eq|]. exists n.
  rewrite <- E1, <- E2. destruct (spliced_core n m1 d Hc1) as [N1 N2 N3 N4 N5]; [congruence|by rewrite E1|done|done|].
  by split.
Qed.

Lemma promoted_none m : reg_core m -> m_inService m = true -> promoted m m.
Proof. intros Hc Hs. exists 0%nat. rewrite take_0, drop_0, app_nil_r. rewrite <- Hs. by apply now_has_refl. Qed.

Lemma promoteReadable_wp i h m : h !! i = Some m -> reg_core m -> m_inService m = true -> tkeys m <> [] ->
  wp benign (promoteReadable i) (fun _ => becomes i h (promoted m)) h.
Proof.
  intros Hi Hc Hs Ht. pose proof (promoted_none m Hc Hs) as Hp. unfold promoteReadable. hstep. hstep.
  destruct (tl_empty _); [hstep; split; eauto|]. hstep. hstep. apply inService_safe; [done|]. destruct (postInvalidate m); [hstep; split; eauto|].
  apply promoteIf_wp; try done. intros t Hcpu. unfold from_cpu. rewrite bool_decide_eq_true_2 by done. simpl.
  destruct (isCacheInvalidate _); [done|]. by apply safe_bind, needsWritable_safe.
Qed.

Lemma promoteWritable_wp i h m : h !! i = Some m -> reg_core m -> m_inService m = true -> tkeys m <> [] ->
  wp benign (promoteWritable i) (fun _ => becomes i h (promoted m)) h.
Proof.
  intros Hi Hc Hs Ht. pose proof (promoted_none m Hc Hs) as Hp. unfold promoteWritable. hstep. hstep.
  destruct (tl_needsWritable (m_deferredTargets m)) eqn:Hw; simpl; [|hstep; split; eauto]. hstep. hstep. apply inService_safe; [done|].
  hstep. apply (wp_mono _ _ (fun _ h' => h' = h)).
  { destruct (postInvalidate m); hstep; [done|]. by apply inService_safe. }
  intros dg h' ->. destruct (_ || _); [hstep; split; eauto|]. destruct (tl_list (m_deferredTargets m)) as [|t l] eqn:Hl.
  { pose proof (rc_reset m Hc) as Hr. unfold dkeys in Hr. rewrite Hl in Hr. specialize (Hr eq_refl). unfold isReset in Hr. by rewrite Hw in Hr. }
  destruct (isCacheInvalidate _); [hstep; split; eauto|]. hstep. hstep. intros _. hstep. hstep.
  set (m1 := set_m_targets _ m). assert (reg_core m1) as Hc1 by (by apply (core_ext m)).
  eapply wp_mono; [apply (promoteIf_wp i _ _ m1); [apply lookup_insert_eq|done..|]|].
  - intros t' Hcpu. unfold from_cpu. by rewrite bool_decide_eq_true_2.
  - cbv beta. intros _ h1 Hb. eapply becomes_trans; [exact (becomes_insert i h (eq m1) m1 eq_refl)|]. intros m2 _ <-.
    eapply becomes_mono; [exact Hb|]. intros m' (n & [N1 N2 N3 N4 N5]). exists n. by split.
Qed.

(** *** Serving *)

(** Requests, as opposed to the snoops queued behind them. *)
Abbreviation requests := (filter (fun k => k_source k <> FromSnoop)).

Lemma take_snoops_safe l : Forall (fun k => k_source k <> FromPrefetcher) (map tkey l) ->
  safe (take_snoops l) (fun '(r, k) => map tkey r ++ map tkey k ≡ₚ map tkey l /\ requests (map tkey r) = []
    /\ requests (map tkey k) = requests (map tkey l) /\ Forall (fun k => k_source k = FromCPU) (map tkey k)).
Proof.
  induction l as [|t l IH]; simpl; intros Hl; [by repeat constructor|]. apply Forall_cons in Hl as [Ht Hl]. specialize (IH Hl).
  destruct (mt_source t) eqn:Hs; [| |by simpl in Ht; rewrite Hs in Ht]; apply safe_bind; (eapply safe_mono; [exact IH|]);
    intros [r k] (H1 & H2 & H3 & H4); simpl; rewrite !filter_cons; simpl; rewrite Hs; simpl.
  - split; [by rewrite <- Permutation_middle, H1|]. split; [done|]. split; [by rewrite H3|]. by constructor.
  - by rewrite H1.
Qed.

(** What a response leaves: the CPU's targets it does not serve. *)
Definition after_serving (m : MSHR) (served : list TKey) (m' : MSHR) : Prop :=
  exists ts, now_has m ts (dkeys m) true m' /\ Forall (fun k => k_source k = FromCPU) ts
    /\ served ++ ts ≡ₚ tkeys m /\ requests served ++ requests ts = requests (tkeys m).

Lemma serve_core m l : reg_core m -> m_inService m = true -> Forall (fun k => k_source k = FromCPU) (map tkey (tl_list l)) ->
  now_has m (map tkey (tl_list l)) (dkeys m) true (set_m_targets l m).
Proof.
  intros [C1 C2 C3 C4 C5] Hs Hc. assert (tkeys (set_m_targets l m) = map tkey (tl_list l)) as E by done.
  split; [split|done..]; rewrite ?E; try done.
  - apply Forall_take. eapply Forall_impl; [exact Hc|]. simpl. congruence.
  - apply Forall_drop. eapply Forall_impl; [exact Hc|]. simpl. congruence.
  - simpl. congruence.
Qed.

Lemma served_safe m junk pkt : reg_core m -> tkeys m <> [] ->
  let ready := tl_init (m_blkAddr m) (m_blkSize m) (new_TargetList junk) in
  safe (if decide (p_cmd pkt = ReadRespWithInvalidate) then
       match tl_list (m_targets m) with
       | [] => Err (EUndefined "targets.begin()")
       | t :: l =>
           assert_r (bool_decide (mt_source t = FromCPU) || bool_decide (mt_source t = FromPrefetcher))
             "(it->source == Target::FromCPU) || (it->source == Target::FromPrefetcher)";;
           '(r, k) ← take_snoops l;
           ready' ← populateFlags (set_tl_list (t :: r) ready);
           mret (ready', set_tl_list k (m_targets m))
       end
     else mret (m_targets m, ready))
  (fun '(l, rest) => Forall (fun k => k_source k = FromCPU) (map tkey (tl_list rest))
    /\ map tkey (tl_list l) ++ map tkey (tl_list rest) ≡ₚ tkeys m
    /\ requests (map tkey (tl_list l)) ++ requests (map tkey (tl_list rest)) = requests (tkeys m)).
Proof.
  intros [C1 C2 C3 C4 C5] Ht ready. unfold tkeys in *. case_decide.
  - destruct (tl_list (m_targets m)) as [|t l]; [done|]. simpl in *. rewrite take_0 in C3. rewrite drop_0 in C4.
    apply Forall_cons in C3 as [C3 _]. simpl in C3.
    assert (bool_decide (mt_source t = FromCPU) || bool_decide (mt_source t = FromPrefetcher) = true) as -> by (by destruct (mt_source t)).
    simpl. apply safe_bind. eapply safe_mono; [by apply take_snoops_safe|]. intros [r k] (H1 & H2 & H3 & H4). apply safe_bind.
    eapply safe_mono; [apply populateFlags_safe|]. intros l' [(El & _) _]. simpl in El |- *. rewrite El. simpl. split; [done|].
    split; [by rewrite H1|]. rewrite !filter_cons. simpl. rewrite !decide_True by done. simpl. by rewrite H2, H3.
  - simpl. rewrite !app_nil_r. done.
Qed.

Lemma extract_wp i junk pkt h m : h !! i = Some m -> reg_core m -> m_inService m = true -> tkeys m <> [] ->
  wp benign (extractServiceableTargets i junk pkt) (fun l => becomes i h (after_serving m (map tkey (tl_list l)))) h.
Proof.
  intros Hi Hc Hs Ht. unfold extractServiceableTargets. hstep. hstep. hstep. hstep.
  eapply safe_mono; [by apply served_safe|]. intros [l rest] (H1 & H2 & H3). hstep. hstep.
  eapply safe_mono; [apply populateFlags_safe|]. intros rest' [(Er & _) _]. hstep. hstep. hstep. apply becomes_insert.
  exists (map tkey (tl_list rest')). rewrite Er. split; [|done]. rewrite <- Er. apply serve_core; [done|done|by rewrite Er].
Qed.

Lemma Forall_keys_ne (l : list TKey) s s' : s <> s' -> Forall (fun k => k_source k = s) l -> Forall (fun k => k_source k <> s') l.
Proof. intros Hne Hl. eapply Forall_impl; [exact Hl|]. simpl. congruence. Qed.

Lemma tl_empty_keys l : tl_empty l = true <-> map tkey (tl_list l) = [].
Proof. unfold tl_empty. by destruct (tl_list l). Qed.

Definition moved_up (m : MSHR) (b : bool) (m' : MSHR) : Prop :=
  if b then reg_core (set_m_inService false m') /\ tkeys m' ++ dkeys m' = tkeys m ++ dkeys m /\ tkeys m' <> [] /\ m_inService m' = m_inService m
  else m' = m /\ tkeys m = [] /\ dkeys m = [].

Lemma promoteDeferred_safe now m : reg_core m -> Forall (fun k => k_source k = FromCPU) (tkeys m) ->
  safe (promoteDeferredTargets now m) (fun '(b, m') => moved_up m b m').
Proof.
  intros [C1 C2 C3 C4 C5] Hcpu. unfold promoteDeferredTargets. destruct (tl_empty (m_targets m) && tl_empty (m_deferredTargets m)) eqn:He.
  { apply andb_true_iff in He as [H1%tl_empty_keys H2%tl_empty_keys]. done. }
  set (m1 := match before_maintenance _ with O => _ | _ => _ end).
  assert (m_inService m1 = m_inService m /\ (exists n, tkeys m1 = tkeys m ++ take n (dkeys m) /\ dkeys m1 = drop n (dkeys m)) /\ tkeys m1 <> []) as (Hs1 & (n & E1 & E2) & Hne).
  { unfold m1. destruct (before_maintenance _) as [|n] eqn:Hb.
    - destruct (tl_empty (m_targets m)) eqn:Ht.
      + destruct (splice_keys 1 m) as [F1 F2]. split; [done|]. split; [by exists 1%nat|]. rewrite F1. intros [Ha Hd]%app_eq_nil.
        apply andb_false_iff in He as [|He]; [done|]. assert (dkeys m <> []) by (intros E%tl_empty_keys; congruence). by destruct (dkeys m).
      + split; [done|]. split; [exists 0%nat; by rewrite take_0, drop_0, app_nil_r|]. intros E%tl_empty_keys. congruence.
    - destruct (splice_keys (S n) m) as [F1 F2]. split; [done|]. split; [by exists (S n)|]. rewrite F1. intros [_ Hd]%app_eq_nil.
      unfold dkeys in Hd. destruct (tl_list (m_deferredTargets m)); done. }
  apply safe_bind. eapply safe_mono; [apply populateFlags_safe|]. intros d [(Ed & _) Hr]. apply safe_bind.
  eapply safe_mono; [apply populateFlags_safe|]. intros l [(El & _) _].
  assert (map tkey (tl_list l) = tkeys m1) as El' by (unfold tkeys; by rewrite <- El).
  assert (map tkey (tl_list d) = dkeys m1) as Ed' by (unfold dkeys; by rewrite <- Ed).
  destruct (tl_list l) as [|t ts] eqn:Hl; [exfalso; by apply Hne|]. cbn [safe mret res_ret]. set (m' := set_m_readyTime _ _).
  assert (Forall (fun k => k_source k = FromCPU) (tkeys m1)) as Hc1 by (rewrite E1; apply Forall_app; split; [done|by apply Forall_take]).
  assert (tkeys m' = tkeys m1) as F1 by (unfold tkeys at 1; simpl; by rewrite Hl).
  assert (dkeys m' = dkeys m1) as F2 by (unfold dkeys at 1; simpl; done).
  split; [|split; [|split; [by rewrite F1|done]]].
  - assert (tkeys (set_m_inService false m') = tkeys m1 /\ dkeys (set_m_inService false m') = dkeys m1) as [G1 G2] by done.
    split; rewrite ?G1, ?G2.
    + intros E. apply Hr. unfold dkeys in E. by apply map_eq_nil in E.
    + rewrite E2. by apply Forall_drop.
    + apply Forall_take. by apply (Forall_keys_ne _ FromCPU).
    + apply Forall_drop. by apply (Forall_keys_ne _ FromCPU).
    + intros _. by apply (Forall_keys_ne _ FromCPU).
  - by rewrite F1, F2, E1, E2, <- app_assoc, take_drop.
Qed.
