(* ===== verification/MSHRQueueProps.v ===== *)
(** * The miss queue

    The lists of the queue, the lists of its registers and the order in which
    requests are served, under everything a cache does with its miss queue. *)

From S2P Require Import Prelude Hoare EventQ Drain Packet Request PacketData CacheQueue CacheQueueProps MSHR MSHRProps.

(** ** What a cache does with the queue *)

Inductive mq_op :=
  | QAllocate (blk_addr blk_size : Z) (pkt : Pkt) (when_ready order : Z) (alloc_on_fill : bool)
  | QTarget (raw : list Z) (i : nat) (pkt : Pkt) (when_ready order : Z) (alloc_on_fill : bool)
  | QSnoop (raw : list Z) (i : nat) (pkt : Pkt) (order : Z)
  | QSend (i : nat) (pending_modified_resp : bool)
  | QRespond (i : nat) (junk : bool) (pkt : Pkt) (readable writable : bool)
  | QForce (i : nat)
  | QFront (i : nat)
  | QDelay (i : nat) (ticks : Z)
  | QTime (t : Z).

(** The targets that leave the queue are the result. *)
Definition mq_step (op : mq_op) : MQ (list TKey) :=
  match op with
  | QAllocate a n pkt w o aof => MSHRQueue_allocate a n pkt w o aof;; mret []
  | QTarget raw i pkt w o aof => now ← gets q_now; on_store (allocateTarget raw now i pkt w o aof);; mret []
  | QSnoop raw i pkt o => now ← gets q_now; on_store (m_handleSnoop raw now i pkt o);; mret []
  | QSend i pm => mq_markInService i pm;; mret []
  | QRespond i junk pkt rd wr => l ← mq_respond i junk pkt rd wr; mret (map tkey (tl_list l))
  | QForce i => m ← the_entry i; forceDeallocateTarget i;; mret (take 1 (tkeys m))
  | QFront i => moveToFront i;; mret []
  | QDelay i t => mq_delay i t;; mret []
  | QTime t => modify (fun s => mkQS t (q_store s) (q_queue s));; mret []
  end.

(** A free entry for a miss; an entry that waits to be sent; an entry that was
    sent, for the response. *)
Definition mq_allowed (op : mq_op) (s : QS MSHR) : Prop :=
  match op with
  | QAllocate _ _ _ _ _ _ => freeList (q_queue s) <> []
  | QTarget _ i _ _ _ _ | QSnoop _ i _ _ => i ∈ allocatedList (q_queue s)
  | QSend i _ | QForce i | QFront i | QDelay i _ => i ∈ readyList (q_queue s)
  | QRespond i _ _ _ _ => i ∈ allocatedList (q_queue s) /\ i ∉ readyList (q_queue s)
  | QTime _ => True
  end.

#[global] Instance mq_allowed_dec op s : Decision (mq_allowed op s).
Proof. destruct op; simpl; apply _. Defined.

Record mq_inv (s : QS MSHR) : Prop := {
  mi_queue : q_inv s;
  mi_used : forall i, i ∈ allocatedList (q_queue s) -> exists m, q_store s !! i = Some m /\ reg_core m /\ tkeys m <> [];
  mi_free : forall i, i ∈ freeList (q_queue s) -> exists m, q_store s !! i = Some m /\ tkeys m = [] /\ dkeys m = []
}.

(** What waits in a register, in order. *)
Definition waiting (h : Heap) (i : nat) : list TKey := match h !! i with Some m => tkeys m ++ dkeys m | None => [] end.

(** [served] leave register [i], [acc] join it at the end; of other registers only pending flags and marks change. *)
Definition moves (i : nat) (acc served : list TKey) (h h' : Heap) : Prop :=
  served ++ waiting h' i ≡ₚ waiting h i ++ acc
  /\ requests served ++ requests (waiting h' i) = requests (waiting h i) ++ requests acc
  /\ forall j, j <> i -> shape <$> h !! j = shape <$> h' !! j.

(** ** From registers to the queue *)

Lemma wp_on_store {A} E (m : H A) (Q : A -> QS MSHR -> Prop) s : wp E m (fun a h => Q a (set_store h s)) (q_store s) -> wp E (on_store m) Q s.
Proof. unfold wp, on_store. by destruct (m (q_store s)) as [[a h]|]. Qed.

Lemma shape_view m m' : shape m' = shape m -> view m' = view m.
Proof. intros (_ & _ & _ & E4 & E5)%shape_keys. unfold view. simpl. by rewrite E4, E5. Qed.

Lemma becomes_views_but i h P h' : becomes i h P h' -> same_views_but i h h'.
Proof.
  intros [Hf _] j Hj. specialize (Hf j Hj). destruct (h !! j) as [m|], (h' !! j) as [m'|]; try done.
  change (Some (shape m) = Some (shape m')) in Hf. apply (inj Some) in Hf. simpl. f_equal. by apply shape_view.
Qed.
Lemma becomes_views i h P h' m : h !! i = Some m -> becomes i h P h' -> (forall m', P m' -> view m' = view m) -> same_views h h'.
Proof.
  intros Hi Hb HP j. destruct (decide (j = i)) as [->|Hj]; [|by apply (becomes_views_but i h P h')].
  destruct Hb as [_ (m' & Hm' & HPm)]. rewrite Hi, Hm'. simpl. f_equal. symmetry. by apply HP.
Qed.
Lemma waiting_at h i m : h !! i = Some m -> waiting h i = tkeys m ++ dkeys m.
Proof. unfold waiting. by intros ->. Qed.

(** Registers other than [i] keep what the invariant says of them. *)
Lemma becomes_other i h P h' j : becomes i h P h' -> j <> i ->
  (forall Q : MSHR -> Prop, (forall m m', shape m' = shape m -> Q m -> Q m') -> (exists m, h !! j = Some m /\ Q m) -> exists m, h' !! j = Some m /\ Q m).
Proof.
  intros [Hf _] Hj Q HQ (m & Hm & Hq). specialize (Hf j Hj). rewrite Hm in Hf. destruct (h' !! j) as [m'|]; [|done].
  change (Some (shape m) = Some (shape m')) in Hf. apply (inj Some) in Hf. exists m'. split; [done|]. by apply (HQ m).
Qed.
Lemma used_shape m m' : shape m' = shape m -> reg_core m /\ tkeys m <> [] -> reg_core m' /\ tkeys m' <> [].
Proof. intros Hs [Hc Ht]. split; [by apply (shape_core m)|]. by destruct (shape_keys _ _ Hs) as (-> & _). Qed.
Lemma free_shape m m' : shape m' = shape m -> tkeys m = [] /\ dkeys m = [] -> tkeys m' = [] /\ dkeys m' = [].
Proof. intros Hs. by destruct (shape_keys _ _ Hs) as (-> & -> & _). Qed.

(** The registers of a queue after a change to one of them, which is allocated. *)
Definition regs_ok (q : Queue) (h : Heap) : Prop :=
  (forall i, i ∈ allocatedList q -> exists m, h !! i = Some m /\ reg_core m /\ tkeys m <> [])
  /\ (forall i, i ∈ freeList q -> exists m, h !! i = Some m /\ tkeys m = [] /\ dkeys m = []).

Lemma regs_update i q h P h' : regs_ok q h -> becomes i h P h' -> i ∉ freeList q ->
  (i ∈ allocatedList q -> forall m, P m -> reg_core m /\ tkeys m <> []) -> regs_ok q h'.
Proof.
  intros [Hu Hf] Hb Hi HP. split; intros j Hj.
  - destruct (decide (j = i)) as [->|Hne]; [destruct Hb as [_ (m & Hm & HPm)]; exists m; split; [done|by apply HP]|].
    apply (becomes_other i h P h' j Hb Hne (fun m => reg_core m /\ tkeys m <> []) used_shape). by apply Hu.
  - apply (becomes_other i h P h' j Hb ltac:(intros ->; done) (fun m => tkeys m = [] /\ dkeys m = []) free_shape). by apply Hf.
Qed.

Lemma mq_inv_split s : mq_inv s <-> q_inv s /\ regs_ok (q_queue s) (q_store s).
Proof. split; [intros [H1 H2 H3]; split; [done|by split]|intros [H1 [H2 H3]]; by split]. Qed.

Lemma alloc_not_free s i : q_inv s -> i ∈ allocatedList (q_queue s) -> i ∉ freeList (q_queue s).
Proof. intros Hq Hi Hf. pose proof (qi_anodup s Hq) as Hnd. apply NoDup_app in Hnd as (_ & Hx & _). by apply (Hx i). Qed.

(** A change to an allocated register that the lists of the queue do not see. *)
Lemma mq_update s i m P h' acc served : mq_inv s -> i ∈ allocatedList (q_queue s) -> q_store s !! i = Some m -> becomes i (q_store s) P h' ->
  (forall m', P m' -> view m' = view m /\ reg_core m' /\ tkeys m' <> []
     /\ served ++ (tkeys m' ++ dkeys m') ≡ₚ (tkeys m ++ dkeys m) ++ acc
     /\ requests served ++ requests (tkeys m' ++ dkeys m') = requests (tkeys m ++ dkeys m) ++ requests acc) ->
  mq_inv (set_store h' s) /\ moves i acc served (q_store s) h'.
Proof.
  intros [Hq Hr]%mq_inv_split Hi Hm Hb HP. split.
  - apply mq_inv_split. split.
    + apply q_inv_store; [done|]. apply (becomes_views i _ P _ m); [done|done|]. intros m' Hm'. by apply HP.
    + apply (regs_update i _ (q_store s) P); [done|done|by apply (alloc_not_free s)|]. intros _ m' Hm'. by apply HP in Hm' as (_ & ? & ? & _).
  - destruct Hb as [Hf (m' & Hm' & HPm)] eqn:E. destruct (HP m' HPm) as (_ & _ & _ & H4 & H5).
    split; [by rewrite (waiting_at _ _ _ Hm'), (waiting_at _ _ _ Hm)|]. split; [by rewrite (waiting_at _ _ _ Hm'), (waiting_at _ _ _ Hm)|].
    exact Hf.
Qed.

(** ** The operations one by one *)

Lemma the_entry_wp E i (Q : MSHR -> QS MSHR -> Prop) s m : q_store s !! i = Some m -> Q m s -> wp E (the_entry i) Q s.
Proof. unfold wp, the_entry. by intros ->. Qed.
Lemma run_wp {A} (m : MQ A) Q s a s' : m s = Ok (a, s') -> Q a s' -> wp benign m Q s.
Proof. unfold wp. by intros ->. Qed.
Ltac qstep :=
  lazymatch goal with
  | |- wp _ (mbind _ _) _ _ => apply wp_bind
  | |- wp _ (mret _) _ _ => apply wp_ret
  | |- wp _ (gets _) _ _ => apply wp_gets
  | |- wp _ get _ _ => apply (wp_gets _ id)
  | |- wp _ (modify _) _ _ => apply wp_modify
  | |- wp _ (on_queue _) _ _ => apply wp_modify
  | |- wp _ (put_entry _ _) _ _ => apply wp_modify
  | |- wp _ (on_store _) _ _ => apply wp_on_store
  | |- wp _ (the_entry _) _ _ => eapply the_entry_wp; [eassumption|]
  | |- wp _ (lift _) _ _ => apply wp_lift_safe
  end; cbv beta.

Definition step_post (i : nat) (acc : list TKey) (s : QS MSHR) (served : list TKey) (s' : QS MSHR) : Prop :=
  mq_inv s' /\ moves i acc served (q_store s) (q_store s').

Lemma target_step raw i pkt w o aof s : mq_inv s -> i ∈ allocatedList (q_queue s) ->
  wp benign (mq_step (QTarget raw i pkt w o aof)) (step_post i [mkKey FromCPU (q_now s) w o (p_id pkt) aof] s) s.
Proof.
  intros Hs Hi. destruct (mi_used s Hs i Hi) as (m & Hm & Hc & Ht). simpl. qstep. qstep. qstep. qstep.
  eapply wp_mono; [by apply allocateTarget_wp|]. cbv beta. intros _ h' Hb. qstep.
  apply (mq_update s i m _ h' _ [] Hs Hi Hm Hb). intros m' (ts & ds & [N1 N2 N3 N4 N5] & E & Hne). rewrite N2, N3.
  split; [by unfold view; simpl; rewrite N4, N5|]. split; [done|]. split; [done|]. rewrite E, !filter_app. done.
Qed.

Lemma snoop_step raw i pkt o s : mq_inv s -> i ∈ allocatedList (q_queue s) ->
  wp benign (mq_step (QSnoop raw i pkt o)) (fun served s' => exists acc, (acc = [] \/ acc = [snoop_key (q_now s) o pkt]) /\ step_post i acc s served s') s.
Proof.
  intros Hs Hi. destruct (mi_used s Hs i Hi) as (m & Hm & Hc & Ht). simpl. qstep. qstep. qstep. qstep.
  eapply wp_mono; [by apply handleSnoop_wp|]. cbv beta. intros _ h' Hb. qstep. pose proof Hb as [Hf (m' & Hm' & [Hn|[Hsv Hn]])].
  - exists []. split; [by left|]. assert (becomes i (q_store s) (eq m') h') as Hb' by (split; eauto).
    apply (mq_update s i m _ h' _ [] Hs Hi Hm Hb'). intros ? <-. destruct Hn as [N1 N2 N3 N4 N5]. rewrite N2, N3.
    split; [by unfold view; simpl; rewrite N4, N5|]. split; [done|]. split; [done|]. simpl. by rewrite !app_nil_r.
  - eexists. split; [by right|]. assert (becomes i (q_store s) (eq m') h') as Hb' by (split; eauto).
    apply (mq_update s i m _ h' _ [] Hs Hi Hm Hb'). intros ? <-. destruct Hn as [N1 N2 N3 N4 N5]. rewrite N2, N3.
    split; [by unfold view; simpl; rewrite N4, N5|]. split; [done|]. split; [by destruct (tkeys m)|]. simpl. split.
    + rewrite <- !app_assoc. apply Permutation_app_head. by rewrite Permutation_app_comm.
    + rewrite !filter_app. assert (requests [snoop_key (q_now s) o pkt] = []) as -> by done. by rewrite !app_nil_r.
Qed.

(** A register that is sent leaves the ready list. *)
Lemma moves_keys i h P h' m : h !! i = Some m -> becomes i h P h' -> (forall m', P m' -> tkeys m' = tkeys m /\ dkeys m' = dkeys m) -> moves i [] [] h h'.
Proof.
  intros Hi Hb HP. pose proof Hb as [_ (m' & Hm' & HPm)]. destruct (HP m' HPm) as [E1 E2].
  assert (waiting h' i = waiting h i) as E by (by rewrite (waiting_at _ _ _ Hi), (waiting_at _ _ _ Hm'), E1, E2).
  split; [by rewrite E, app_nil_r|]. split; [by rewrite E; simpl; rewrite app_nil_r|]. apply Hb.
Qed.

Lemma send_step i pm s : mq_inv s -> i ∈ readyList (q_queue s) -> wp benign (mq_step (QSend i pm)) (step_post i [] s) s.
Proof.
  intros Hs Hi. pose proof Hs as [Hq Hr]%mq_inv_split. pose proof Hi as (Ha & m0 & Hm0 & Hsv)%(qi_ready s Hq).
  destruct (mi_used s Hs i Ha) as (m & Hm & Hc & Ht). assert (m0 = m) as -> by congruence.
  simpl. qstep. unfold mq_markInService. qstep. qstep. eapply wp_mono; [by apply markInService_wp|]. cbv beta. intros _ h' Hb.
  pose proof Hb as [_ (m' & Hm' & [N1 N2 N3 N4 N5])]. destruct (erase_perm _ _ Hi) as (rl & Er & _ & _).
  qstep. qstep. qstep. qstep. simpl. rewrite Er. simpl. qstep. qstep. qstep. qstep. split.
  - apply mq_inv_split. split; [apply (sent_inv s h' i m' rl); try done; by apply (becomes_views_but i _ _ _ Hb)|].
    apply (regs_update i _ (q_store s) _ _ Hr Hb); [by apply (alloc_not_free s)|]. intros _ m2 [M1 M2 _ _ _]. split; [done|by rewrite M2].
  - apply (moves_keys i _ _ _ m Hm Hb). by intros m2 [M1 M2 M3 _ _].
Qed.

Lemma moves_refl i h : moves i [] [] h h.
Proof. split; [by rewrite app_nil_r|]. split; [by simpl; rewrite app_nil_r|done]. Qed.

Lemma front_step i s : mq_inv s -> i ∈ readyList (q_queue s) -> wp benign (mq_step (QFront i)) (step_post i [] s) s.
Proof.
  intros Hs Hi. pose proof Hs as [Hq Hr]%mq_inv_split. pose proof Hi as (Ha & m & Hm & Hsv)%(qi_ready s Hq).
  simpl. qstep. unfold moveToFront. qstep. qstep. simpl in Hsv. rewrite Hsv. simpl. qstep. qstep. qstep. qstep.
  destruct (erase_perm _ _ Hi) as (rl & Er & Hp & _). rewrite Er. simpl. qstep. qstep. split; [|apply moves_refl].
  apply mq_inv_split. split; [|done]. apply q_inv_ready; [done|]. by symmetry.
Qed.

(** The search of [delay] starts at the entry itself, which satisfies the test. *)
Lemma delay_in_same time i l : i ∈ l -> delay_in time i l = Some l.
Proof.
  induction l as [|j l IH]; [by intros ?%not_elem_of_nil|]. intros Hi. simpl. case_decide as Hd.
  - subst j. by rewrite Z.leb_refl.
  - apply elem_of_cons in Hi as [|Hi]; [done|]. by rewrite IH.
Qed.

Lemma becomes_put i h m' : becomes i h (eq m') (<[i := m']> h).
Proof. by apply becomes_insert. Qed.

Lemma delay_step i t s : mq_inv s -> i ∈ readyList (q_queue s) -> wp benign (mq_step (QDelay i t)) (step_post i [] s) s.
Proof.
  intros Hs Hi. pose proof Hs as [Hq Hr]%mq_inv_split. pose proof Hi as (Ha & m0 & Hm0 & Hsv)%(qi_ready s Hq).
  destruct (mi_used s Hs i Ha) as (m & Hm & Hc & Ht). assert (m0 = m) as -> by congruence.
  simpl. qstep. unfold mq_delay. qstep. qstep. qstep. qstep. qstep. qstep. unfold m_delay. safe_auto. qstep. qstep. qstep. qstep. qstep. qstep.
  simpl. rewrite delay_in_same by done. simpl. qstep. qstep. set (m' := set_m_readyTime _ m). split.
  - apply mq_inv_split. split.
    + apply (q_inv_ready (set_store (<[i := m']> (q_store s)) s)); [|done]. apply q_inv_service; [done|]. intros j.
      destruct (decide (i = j)) as [<-|Hne]; [by rewrite lookup_insert_eq, Hm|by rewrite lookup_insert_ne].
    + apply (regs_update i _ (q_store s) (eq m')); [done|by apply becomes_put|by apply (alloc_not_free s)|]. intros _ ? <-.
      split; [|done]. by apply (core_ext m).
  - apply (moves_keys i _ (eq m') _ m Hm); [by apply becomes_put|]. by intros ? <-.
Qed.

(** *** Responses *)

(** A register in service whose targets may have moved up. *)
Record reordered (m m' : MSHR) : Prop := {
  ro_core : reg_core m';
  ro_sent : m_inService m' = true;
  ro_time : m_readyTime m' = m_readyTime m;
  ro_some : tkeys m' <> [];
  ro_keys : tkeys m' ++ dkeys m' = tkeys m ++ dkeys m
}.
Lemma promoted_reordered m m1 m' : reordered m m1 -> promoted m1 m' -> reordered m m'.
Proof.
  intros [R1 R2 R3 R4 R5] (n & [N1 N2 N3 N4 N5]). split; try done; rewrite ?N2, ?N3.
  - congruence.
  - by destruct (tkeys m1).
  - by rewrite <- app_assoc, take_drop.
Qed.
Lemma reordered_refl m : reg_core m -> m_inService m = true -> tkeys m <> [] -> reordered m m.
Proof. by split. Qed.

Lemma promote_wp (b : bool) (f : nat -> H unit) i h m h1 (Q : unit -> Heap -> Prop) :
  (forall h m, h !! i = Some m -> reg_core m -> m_inService m = true -> tkeys m <> [] -> wp benign (f i) (fun _ => becomes i h (promoted m)) h) ->
  becomes i h (reordered m) h1 -> (forall h2, becomes i h (reordered m) h2 -> Q tt h2) ->
  wp benign (when_ b (f i)) Q h1.
Proof.
  intros Hf Hb HQ. apply wp_when; intros _; [|by apply HQ]. pose proof Hb as [_ (m1 & Hm1 & [R1 R2 R3 R4 R5])].
  eapply wp_mono; [by apply (Hf h1 m1)|]. cbv beta. intros [] h2 Hb2. apply HQ. eapply becomes_trans; [exact Hb|]. intros m2 Hm2 Hr2.
  assert (m2 = m1) as -> by congruence. eapply becomes_mono; [exact Hb2|]. intros m3. by apply promoted_reordered.
Qed.
Lemma wp_when_store E (b : bool) (m : H unit) (Q : unit -> QS MSHR -> Prop) s :
  wp E (when_ b m) (fun a h => Q a (set_store h s)) (q_store s) -> wp E (when_ b (on_store m)) Q s.
Proof. destruct b; [apply wp_on_store|]. unfold wp. simpl. by destruct s. Qed.

(** A register that goes back to the ready list with the targets that moved up. *)
Lemma repend_wp s i h m3 m4 : mq_inv s -> i ∈ allocatedList (q_queue s) -> i ∉ readyList (q_queue s) ->
  becomes i (q_store s) (eq m3) h -> m_inService m3 = true -> moved_up m3 true m4 ->
  wp benign (markPending i) (fun _ s' => mq_inv s' /\ becomes i (q_store s) (fun m => tkeys m ++ dkeys m = tkeys m3 ++ dkeys m3) (q_store s'))
    (mkQS (q_now s) (<[i := m4]> h) (q_queue s)).
Proof.
  intros [Hq Hr]%mq_inv_split Ha Hir Hb Hsv (Hc & Hk & Hne & Hs4). unfold markPending. qstep.
  apply (the_entry_wp _ i _ _ m4); [apply lookup_insert_eq|]. qstep. rewrite Hs4, Hsv. apply wp_ret. qstep. qstep. qstep. qstep.
  set (m5 := set_m_inService false m4). unfold set_store, set_queue. cbn [q_now q_store q_queue]. rewrite insert_insert_eq.
  assert (becomes i (q_store s) (eq m5) (<[i := m5]> h)) as Hb5 by (eapply becomes_trans; [exact Hb|]; intros m' _ _; by apply becomes_insert).
  destruct (pending_run s (<[i := m5]> h) i m5) as (l1 & l2 & E1 & E2 & Hinv & _); try done; [by apply (becomes_views_but i _ _ _ Hb5)|apply lookup_insert_eq|].
  apply (run_wp _ _ _ _ _ E2). split.
  - apply mq_inv_split. split; [done|]. apply (regs_update i _ (q_store s) _ _ Hr Hb5); [by apply (alloc_not_free s)|]. by intros _ ? <-.
  - eapply becomes_mono; [exact Hb5|]. intros ? <-. exact Hk.
Qed.

(** A register without targets is freed. *)
Lemma free_wp s i h m : mq_inv s -> i ∈ allocatedList (q_queue s) -> becomes i (q_store s) (eq m) h -> same_service (q_store s) h ->
  reg_core m -> tkeys m = [] -> dkeys m = [] ->
  wp benign (deallocate i) (fun _ s' => mq_inv s' /\ becomes i (q_store s) (fun m' => tkeys m' ++ dkeys m' = []) (q_store s'))
    (mkQS (q_now s) h (q_queue s)).
Proof.
  intros [Hq Hr]%mq_inv_split Ha Hb Hv Hc Ht Hd. pose proof Hb as [_ (m' & Hm & <-)].
  set (m2 := set_m_inService false (set_m_targets (resetFlags (m_targets m)) m)).
  assert (qe_deallocate m = Ok m2) as Hde.
  { simpl. unfold m_deallocate. rewrite (proj2 (tl_empty_keys (m_targets m)) Ht). simpl. by rewrite (rc_reset m Hc Hd). }
  destruct (deallocate_run (set_store h s) i m m2 (q_inv_service s h Hq Hv) Ha Hm Hde) as (s' & Hrun & [F1 F2 F3 F4 F5 F6 F7 F8 F9]).
  apply (run_wp _ _ _ _ _ Hrun). simpl in *.
  assert (becomes i (q_store s) (eq m2) (q_store s')) as Hb2 by (rewrite F4; eapply becomes_trans; [exact Hb|]; intros; by apply becomes_insert).
  assert (tkeys m2 = [] /\ dkeys m2 = []) as [Ht2 Hd2] by done.
  split; [|eapply becomes_mono; [exact Hb2|]; intros ? <-; by rewrite Ht2, Hd2].
  apply mq_inv_split. split; [done|]. destruct (erase_perm _ _ Ha) as (al & Ea & Hp & _). assert (al = allocatedList (q_queue s')) as -> by congruence.
  pose proof (qi_anodup s Hq) as Hnd. rewrite Hp in Hnd. simpl in Hnd. apply NoDup_cons in Hnd as [Hnd _]. destruct Hr as [Hu Hf]. split.
  - intros j Hj. assert (j <> i) as Hne by (intros ->; apply Hnd, elem_of_app; by left).
    apply (becomes_other i _ _ _ j Hb2 Hne (fun m => reg_core m /\ tkeys m <> []) used_shape). apply Hu. rewrite Hp. by right.
  - rewrite F7. intros j [->|Hj]%elem_of_cons.
    + destruct Hb2 as [_ (m3 & Hm3 & <-)]. eauto.
    + assert (j <> i) as Hne by (intros ->; apply Hnd, elem_of_app; by right).
      apply (becomes_other i _ _ _ j Hb2 Hne (fun m => tkeys m = [] /\ dkeys m = []) free_shape). by apply Hf.
Qed.

Lemma moves_becomes i h m h' (w served : list TKey) : h !! i = Some m -> becomes i h (fun m' => tkeys m' ++ dkeys m' = w) h' ->
  served ++ w ≡ₚ tkeys m ++ dkeys m -> requests served ++ requests w = requests (tkeys m ++ dkeys m) -> moves i [] served h h'.
Proof.
  intros Hi Hb H1 H2. pose proof Hb as [_ (m' & Hm' & E)].
  rewrite <- E in H1, H2. rewrite <- (waiting_at _ _ _ Hi), <- (waiting_at _ _ _ Hm') in H1, H2.
  split; [by rewrite app_nil_r|]. split; [rewrite H2; simpl; by rewrite app_nil_r|]. apply Hb.
Qed.

(** Promotion of the deferred targets, then back to the ready list or to the free list. *)
Lemma settle_wp s i h m : mq_inv s -> i ∈ allocatedList (q_queue s) -> i ∉ readyList (q_queue s) -> becomes i (q_store s) (eq m) h ->
  reg_core m -> m_inService m = true -> Forall (fun k => k_source k = FromCPU) (tkeys m) ->
  wp benign (now ← gets q_now; promoted ← on_entry i (promoteDeferredTargets now); if promoted : bool then markPending i else deallocate i)
    (fun _ s' => mq_inv s' /\ becomes i (q_store s) (fun m' => tkeys m' ++ dkeys m' = tkeys m ++ dkeys m) (q_store s')) (set_store h s).
Proof.
  intros Hs Ha Hir Hb Hc Hsv Hcpu. pose proof Hb as [_ (m' & Hm & <-)]. qstep. qstep. qstep. unfold on_entry. qstep. qstep. qstep. qstep.
  eapply safe_mono; [by apply promoteDeferred_safe|]. intros [[] m4] Hmv; qstep; qstep; qstep.
  - by apply (repend_wp s i h m m4).
  - destruct Hmv as (-> & Ht & Hd). unfold set_store. simpl. rewrite insert_id by done. eapply wp_mono; [apply (free_wp s i h m); try done|].
    + intros j. destruct (decide (j = i)) as [->|Hne].
      * destruct (mi_used s Hs i Ha) as (m0 & Hm0 & _). rewrite Hm0, Hm. simpl. rewrite Hsv. f_equal.
        destruct (m_inService m0) eqn:E; [done|]. exfalso. apply Hir. apply (qi_ready s (mi_queue s Hs)). eauto.
      * destruct Hb as [Hf _]. specialize (Hf j Hne). destruct (q_store s !! j) as [x|], (h !! j) as [y|]; try done.
        change (Some (shape x) = Some (shape y)) in Hf. apply (inj Some) in Hf. simpl. by destruct (shape_keys _ _ Hf) as (_ & _ & _ & -> & _).
    + cbv beta. intros _ s' [Hi' Hb']. split; [done|]. by rewrite Ht, Hd.
Qed.

Lemma respond_step i junk pkt rd wr s : mq_inv s -> i ∈ allocatedList (q_queue s) -> i ∉ readyList (q_queue s) ->
  wp benign (mq_step (QRespond i junk pkt rd wr)) (step_post i [] s) s.
Proof.
  intros Hs Ha Hir. destruct (mi_used s Hs i Ha) as (m & Hm & Hc & Ht). assert (m_inService m = true) as Hsv.
  { destruct (m_inService m) eqn:E; [done|]. exfalso. apply Hir. apply (qi_ready s (mi_queue s Hs)). eauto. }
  assert (becomes i (q_store s) (reordered m) (q_store s)) as Hb0 by (split; [done|]; exists m; split; [done|by apply reordered_refl]).
  simpl. qstep. unfold mq_respond. qstep. apply wp_when_store, (promote_wp rd promoteReadable i (q_store s) m); [apply promoteReadable_wp|done|].
  intros h1 Hb1. qstep. apply wp_when_store, (promote_wp wr promoteWritable i (q_store s) m); [apply promoteWritable_wp|done|].
  intros h2 Hb2. pose proof Hb2 as [_ (m2 & Hm2 & [R1 R2 R3 R4 R5])]. qstep. qstep. eapply wp_mono; [by apply (extract_wp i junk pkt h2 m2)|].
  cbv beta. intros l h3 Hb3. pose proof Hb3 as [_ (m3 & Hm3 & (ts & [N1 N2 N3 N4 N5] & Hcpu & Hp & Hreq))].
  assert (becomes i (q_store s) (eq m3) h3) as Hbs by (eapply becomes_trans; [exact Hb2|]; intros; split; [apply Hb3|eauto]).
  eapply (wp_mono _ _ (fun l' s' => l' = l /\ mq_inv s' /\ becomes i (q_store s) (fun m' => tkeys m' ++ dkeys m' = ts ++ dkeys m2) (q_store s'))).
  - pose proof (settle_wp s i h3 m3 Hs Ha Hir Hbs N1 N4 ltac:(by rewrite N2)) as Hw. rewrite N2, N3 in Hw.
    unfold wp in Hw |- *. change (set_store h3 (set_store h2 (set_store h1 s))) with (set_store h3 s).
    revert Hw. unfold mbind, M_bind. destruct (gets q_now (set_store h3 s)) as [[now s1]|]; [|done].
    destruct (on_entry i (promoteDeferredTargets now) s1) as [[b s2]|]; [|done].
    destruct ((if b then markPending i else deallocate i) s2) as [[u s3]|]; [|done]. done.
  - intros l' s' (-> & Hi' & Hb'). qstep. split; [done|]. apply (moves_becomes i _ m _ (ts ++ dkeys m2)); [done|done|..].
    + by rewrite app_assoc, Hp, R5.
    + rewrite <- R5, !filter_app, <- Hreq, app_assoc. done.
Qed.

(** *** Prefetches that are not needed any more *)

Lemma popped_core m k ks : reg_core m -> m_inService m = false -> tkeys m = k :: ks -> forall m', m_popTarget m = Ok m' ->
  reg_core m' /\ tkeys m' = ks /\ dkeys m' = dkeys m /\ view m' = view m.
Proof.
  intros [C1 C2 C3 C4 C5] Hsv Hk m'. unfold m_popTarget. unfold tkeys in Hk. destruct (tl_list (m_targets m)) as [|t l] eqn:El; [done|].
  intros [= <-]. simpl in Hk. injection Hk as <- <-. split; [|by repeat split]. unfold tkeys in C3, C4, C5. rewrite El in C3, C4, C5. simpl in *.
  specialize (C5 Hsv). apply Forall_cons in C5 as [_ C5]. rewrite drop_0 in C4.
  split; try done; unfold tkeys; simpl; [by apply Forall_take|by apply Forall_drop].
Qed.
Lemma popTarget_ok m k ks : tkeys m = k :: ks -> exists m', m_popTarget m = Ok m'.
Proof. unfold m_popTarget, tkeys. destruct (tl_list (m_targets m)); [done|]. eauto. Qed.

Lemma hasTargets_keys m : m_hasTargets m = true <-> tkeys m <> [].
Proof. unfold m_hasTargets, tl_empty, tkeys. by destruct (tl_list (m_targets m)). Qed.

Lemma service_put s i m m' : q_store s !! i = Some m -> m_inService m' = m_inService m -> same_service (q_store s) (<[i := m']> (q_store s)).
Proof.
  intros Hm E j. destruct (decide (i = j)) as [<-|Hne]; [|by rewrite lookup_insert_ne]. rewrite lookup_insert_eq, Hm. simpl. by rewrite E.
Qed.

(** A register of the ready list that has lost its first target. *)
Lemma drop_wp s i m m1 : mq_inv s -> i ∈ allocatedList (q_queue s) -> q_store s !! i = Some m -> m_inService m = false ->
  reg_core m1 -> m_inService m1 = false ->
  wp benign (if m_hasTargets m1 then mret tt
             else now ← gets q_now; promoted ← on_entry i (promoteDeferredTargets now); if promoted : bool then mret tt else deallocate i)
    (fun _ s' => mq_inv s' /\ becomes i (q_store s) (fun m' => tkeys m' ++ dkeys m' = tkeys m1 ++ dkeys m1) (q_store s'))
    (set_store (<[i := m1]> (q_store s)) s).
Proof.
  intros Hs Ha Hm Hsv Hc1 Hsv1. pose proof Hs as [Hq Hr]%mq_inv_split.
  assert (forall m2, m_inService m2 = false -> reg_core m2 -> tkeys m2 <> [] -> tkeys m2 ++ dkeys m2 = tkeys m1 ++ dkeys m1 ->
    mq_inv (set_store (<[i := m2]> (q_store s)) s) /\ becomes i (q_store s) (fun m' => tkeys m' ++ dkeys m' = tkeys m1 ++ dkeys m1) (<[i := m2]> (q_store s))) as Hput.
  { intros m2 E Hc2 Ht2 Hk. split; [|by apply becomes_insert]. apply mq_inv_split. split; [apply q_inv_service, (service_put s i m); [done|done|congruence]|].
    apply (regs_update i _ (q_store s) (eq m2)); [done|by apply becomes_put|by apply (alloc_not_free s)|]. by intros _ ? <-. }
  destruct (m_hasTargets m1) eqn:Hh; [qstep; apply Hput; try done; by apply hasTargets_keys|].
  assert (tkeys m1 = []) as Ht1 by (destruct (tkeys m1) eqn:E; [done|]; assert (m_hasTargets m1 = true) by (apply hasTargets_keys; by rewrite E); congruence).
  qstep. qstep. qstep. unfold on_entry. qstep. apply (the_entry_wp _ i _ _ m1); [apply lookup_insert_eq|]. qstep. qstep.
  eapply safe_mono; [apply promoteDeferred_safe; [done|by rewrite Ht1]|]. intros [[] m4] Hmv; qstep; qstep; qstep.
  - qstep. destruct Hmv as (Hc4 & Hk & Hne & Hs4). unfold set_store. simpl. rewrite insert_insert_eq. apply Hput; try done; [congruence|].
    apply (core_ext (set_m_inService false m4)); [done..| |done]. simpl. congruence.
  - destruct Hmv as (-> & _ & Hd). unfold set_store. simpl. rewrite insert_insert_eq.
    eapply wp_mono; [apply (free_wp s i _ m1); [done|done|by apply becomes_put|apply (service_put s i m); [done|congruence]|done..]|].
    cbv beta. intros _ s' [Hi' Hb']. split; [done|]. by rewrite Ht1, Hd.
Qed.

Lemma force_step i s : mq_inv s -> i ∈ readyList (q_queue s) -> wp benign (mq_step (QForce i)) (step_post i [] s) s.
Proof.
  intros Hs Hi. pose proof Hs as [Hq Hr]%mq_inv_split. pose proof Hi as (Ha & m0 & Hm0 & Hsv)%(qi_ready s Hq).
  destruct (mi_used s Hs i Ha) as (m & Hm & Hc & Ht). assert (m0 = m) as -> by congruence. simpl in Hsv.
  destruct (tkeys m) as [|k ks] eqn:Hk; [done|]. destruct (popTarget_ok m k ks Hk) as (m1 & Hpop).
  destruct (popped_core m k ks Hc Hsv Hk m1 Hpop) as (Hc1 & Ht1 & Hd1 & Hv1). assert (m_inService m1 = false) as Hsv1 by (by injection Hv1; congruence).
  simpl. qstep. qstep. qstep. unfold forceDeallocateTarget. qstep. qstep. qstep. qstep. qstep.
  rewrite (proj2 (hasTargets_keys m)) by (by rewrite Hk). apply wp_ret. qstep. unfold on_entry at 1. qstep. qstep. qstep. qstep. rewrite Hpop. simpl.
  qstep. qstep. qstep. qstep. apply (the_entry_wp _ i _ _ m1); [apply lookup_insert_eq|]. qstep.
  eapply wp_mono; [by apply (drop_wp s i m m1)|]. cbv beta. intros _ s' [Hi' Hb']. qstep. qstep. qstep. qstep. split; [done|].
  apply (moves_becomes i _ m _ (tkeys m1 ++ dkeys m1)); [done|done|..]; rewrite Hk, Ht1, Hd1; [done|].
  change (k :: ks) with ([k] ++ ks). by rewrite !filter_app, <- app_assoc.
Qed.

(** *** Misses *)

Lemma allocate_step a n pkt w o aof s i fl : mq_inv s -> freeList (q_queue s) = i :: fl ->
  wp benign (mq_step (QAllocate a n pkt w o aof))
    (fun served s' => exists src, src <> FromSnoop /\ step_post i [mkKey src (q_now s) w o (p_id pkt) aof] s served s') s.
Proof.
  intros Hs Hf. pose proof Hs as [Hq [Hu Hfr]]%mq_inv_split. destruct (Hfr i) as (m & Hm & Ht & Hd); [rewrite Hf; by left|].
  simpl. qstep. unfold MSHRQueue_allocate. qstep. qstep. unfold id. rewrite Hf. qstep. qstep. qstep.
  assert (m_getNumTargets m =? 0 = true) as ->.
  { unfold m_getNumTargets. unfold tkeys in Ht. unfold dkeys in Hd. apply map_eq_nil in Ht as ->. by apply map_eq_nil in Hd as ->. }
  apply wp_ret. qstep. qstep. qstep. qstep. simpl. eapply wp_mono; [by apply (m_allocate_wp (q_now s) i a n pkt w o aof _ m)|]. cbv beta.
  intros _ h' Hb. pose proof Hb as [_ (m' & Hm' & (src & Hsrc & Hc & Ht' & Hd' & Hsv & Hrt))].
  destruct (enlist_run s i fl h' m' Hq Hf (becomes_views_but _ _ _ _ Hb) Hm' Hsv) as (s' & Hrun & [Hinv _ _] & Hn & Hst & Hfl & Hal & He & _).
  qstep. apply (run_wp _ _ _ _ _ Hrun). qstep. qstep. exists src. split; [done|]. pose proof (qi_anodup s Hq) as Hnd. rewrite Hf in Hnd.
  apply NoDup_app_cons_middle, NoDup_cons in Hnd as [Hnd _]. split.
  - apply mq_inv_split. split; [done|]. rewrite Hst. split.
    + rewrite Hal. intros j [Hj|Hj]%elem_of_app; [|apply list_elem_of_singleton in Hj as ->; exists m'; split; [done|]; split; [done|by rewrite Ht']].
      apply (becomes_other i _ _ _ j Hb ltac:(intros ->; apply Hnd, elem_of_app; by left) (fun m => reg_core m /\ tkeys m <> []) used_shape). by apply Hu.
    + rewrite Hfl. intros j Hj.
      apply (becomes_other i _ _ _ j Hb ltac:(intros ->; apply Hnd, elem_of_app; by right) (fun m => tkeys m = [] /\ dkeys m = []) free_shape).
      apply Hfr. rewrite Hf. by right.
  - rewrite Hst. unfold moves. rewrite (waiting_at _ _ _ Hm), (waiting_at _ _ _ Hm'), Ht, Hd, Ht', Hd'. split; [done|]. split; [done|].
    apply Hb.
Qed.

(** ** The theorems *)

(** The register an operation works on, and what it adds there. *)
Definition op_register (op : mq_op) (s : QS MSHR) (i : nat) : Prop :=
  match op with
  | QAllocate _ _ _ _ _ _ => hd_error (freeList (q_queue s)) = Some i
  | QTarget _ j _ _ _ _ | QSnoop _ j _ _ | QSend j _ | QRespond j _ _ _ _ | QForce j | QFront j | QDelay j _ => i = j
  | QTime _ => True
  end.
Definition op_accepts (op : mq_op) (now : Z) (acc : list TKey) : Prop :=
  match op with
  | QAllocate _ _ pkt w o aof => exists src, src <> FromSnoop /\ acc = [mkKey src now w o (p_id pkt) aof]
  | QTarget _ _ pkt w o aof => acc = [mkKey FromCPU now w o (p_id pkt) aof]
  | QSnoop _ _ pkt o => acc = [] \/ acc = [snoop_key now o pkt]
  | _ => acc = []
  end.

Lemma mq_step_wp op s : mq_inv s -> mq_allowed op s ->
  wp benign (mq_step op) (fun served s' => exists i acc, op_register op s i /\ op_accepts op (q_now s) acc /\ step_post i acc s served s') s.
Proof.
  intros Hs Ha. destruct op as [a n pkt w o aof|raw i pkt w o aof|raw i pkt o|i pm|i junk pkt rd wr|i|i|i t|t]; simpl in Ha.
  - destruct (freeList (q_queue s)) as [|i fl] eqn:Hf; [done|]. eapply wp_mono; [by apply (allocate_step a n pkt w o aof s i fl)|]. cbv beta.
    intros served s' (src & Hsrc & Hp). eexists i, _. simpl. rewrite Hf. split; [done|]. split; [by exists src|done].
  - eapply wp_mono; [by apply target_step|]. intros served s' Hp. by eexists i, _.
  - eapply wp_mono; [by apply snoop_step|]. cbv beta. intros served s' (acc & Hacc & Hp). by exists i, acc.
  - eapply wp_mono; [by apply send_step|]. intros served s' Hp. by exists i, [].
  - destruct Ha as [Ha Hr]. eapply wp_mono; [by apply respond_step|]. intros served s' Hp. by exists i, [].
  - eapply wp_mono; [by apply force_step|]. intros served s' Hp. by exists i, [].
  - eapply wp_mono; [by apply front_step|]. intros served s' Hp. by exists i, [].
  - eapply wp_mono; [by apply delay_step|]. intros served s' Hp. by exists i, [].
  - simpl. qstep. qstep. qstep. exists 0%nat, []. split; [done|]. split; [done|]. split; [|apply moves_refl].
    destruct Hs as [[H1 H2 H3 H4 H5 H6 H7 H8] Hu Hf]. split; [by split|done..].
Qed.

Definition mq_init (num_entries reserve : Z) (base : nat) (junk : bool) : QS MSHR :=
  let q := new_Queue num_entries reserve base in
  mkQS 0 (list_to_map (map (fun i => (i, new_MSHR junk)) (q_entries q))) q.

Lemma mq_init_store junk (l : list nat) i : i ∈ l -> (list_to_map (map (fun j => (j, new_MSHR junk)) l) : Heap) !! i = Some (new_MSHR junk).
Proof.
  induction l as [|j l IH]; intros Hi; [by apply not_elem_of_nil in Hi|]. simpl. destruct (decide (j = i)) as [->|Hne].
  - apply lookup_insert_eq.
  - rewrite lookup_insert_ne by done. apply IH. apply elem_of_cons in Hi as [->|]; done.
Qed.

Lemma mq_init_inv n r base junk : 0 <= n + r -> mq_inv (mq_init n r base junk).
Proof.
  intros Hn. split; simpl.
  - split; simpl; try done.
    + rewrite length_seq. lia.
    + apply NoDup_seq.
    + intros i Hi. rewrite mq_init_store by done. by eexists.
    + constructor.
    + intros i. split; [by intros ?%not_elem_of_nil|]. by intros [?%not_elem_of_nil _].
  - by intros i ?%not_elem_of_nil.
  - intros i Hi. rewrite mq_init_store by done. by eexists.
Qed.

(** Reached from a new queue by allowed operations; between them, operations of
    other caches may change the pending flags and marks of the registers. *)
Inductive mq_reach (n r : Z) (base : nat) (junk : bool) : QS MSHR -> Prop :=
  | mq_reach_init : mq_reach n r base junk (mq_init n r base junk)
  | mq_reach_step s op served s' : mq_reach n r base junk s -> mq_allowed op s -> mq_step op s = Ok (served, s') -> mq_reach n r base junk s'
  | mq_reach_other s h : mq_reach n r base junk s -> (forall i, i ∈ q_entries (q_queue s) -> shape <$> q_store s !! i = shape <$> h !! i) ->
      mq_reach n r base junk (set_store h s).

Lemma mq_other s h : mq_inv s -> (forall i, i ∈ q_entries (q_queue s) -> shape <$> q_store s !! i = shape <$> h !! i) -> mq_inv (set_store h s).
Proof.
  intros Hs Hh. pose proof (mi_queue s Hs) as Hq. assert (forall i m, i ∈ q_entries (q_queue s) -> q_store s !! i = Some m -> exists m', h !! i = Some m' /\ shape m' = shape m) as Hl.
  { intros i m Hi Hm. specialize (Hh i Hi). rewrite Hm in Hh. destruct (h !! i) as [m'|]; [|done]. exists m'. split; [done|].
    change (Some (shape m) = Some (shape m')) in Hh. by apply (inj Some) in Hh. }
  split; simpl.
  - destruct Hq as [H1 H2 H3 H4 H5 H6 H7 H8] eqn:E. split; simpl; try done.
    + intros i Hi. destruct (H4 i Hi) as [m Hm]. destruct (Hl i m Hi Hm) as (m' & -> & _). by eexists.
    + intros i. rewrite H6. split; intros (Ha & m & Hm & Hsv); (split; [done|]).
      * destruct (Hl i m) as (m' & Hm' & Hsh); [apply (qi_member s i Hq); by left|done|]. exists m'. split; [done|].
        destruct (shape_keys _ _ Hsh) as (_ & _ & _ & -> & _). done.
      * destruct (qi_alloc_entry s i Hq Ha) as [m0 Hm0]. destruct (Hl i m0) as (m' & Hm' & Hsh); [apply (qi_member s i Hq); by left|done|].
        exists m0. split; [done|]. assert (m' = m) as -> by congruence. simpl in *. destruct (shape_keys _ _ Hsh) as (_ & _ & _ & <- & _). done.
  - intros i Hi. destruct (mi_used s Hs i Hi) as (m & Hm & Hc). destruct (Hl i m) as (m' & Hm' & Hsh); [apply (qi_member s i Hq); by left|done|].
    exists m'. split; [done|]. by apply (used_shape m).
  - intros i Hi. destruct (mi_free s Hs i Hi) as (m & Hm & Hc). destruct (Hl i m) as (m' & Hm' & Hsh); [apply (qi_member s i Hq); by right|done|].
    exists m'. split; [done|]. by apply (free_shape m).
Qed.

Lemma mq_reach_inv n r base junk s : 0 <= n + r -> mq_reach n r base junk s -> mq_inv s.
Proof.
  intros Hn. induction 1 as [|s op served s' _ IH Ha Hs|s h _ IH Hh]; [by apply mq_init_inv| |by apply mq_other].
  pose proof (wp_ok _ _ _ _ _ _ (mq_step_wp op s IH Ha) Hs) as (i & acc & _ & _ & Hi & _). done.
Qed.

(** C26: The lists of a miss queue are right under everything a cache does with it,
    whatever other caches do to the pending flags of its registers: the allocated
    and the free list divide the entries, the ready list holds exactly the
    allocated registers that are not in service, the counters count them, an
    allocated register has a target and a free one has none.  And no allowed
    operation (a miss while an entry is free, a target or a snoop for an allocated
    register, sending or dropping one that is ready, a response to one that was
    sent) fails for one of the reasons in [structural]: an invalid iterator, a
    register or target that is not there, the first element of an empty list; an
    assertion that a register is or is not in service, has targets, or has none
    and its flags reset when it is taken or freed; the panic of the ready list; an
    assertion about the source of a target; or clearing pending flags without
    end.  Other failures are not excluded: assertions about the fields of packets,
    those about pending flags, and [!targets.needsWritable], which an allowed
    response can fail ([clean_between_writes_asserts]). *)
Theorem mshr_queue_keeps_lists n r base junk s op : 0 <= n + r -> mq_reach n r base junk s -> mq_allowed op s ->
  q_inv s
  /\ (forall i, i ∈ allocatedList (q_queue s) -> exists m, q_store s !! i = Some m /\ m_hasTargets m = true)
  /\ (forall i, i ∈ freeList (q_queue s) -> exists m, q_store s !! i = Some m /\ m_getNumTargets m = 0)
  /\ (forall e, mq_step op s = Err e -> structural e = false).
Proof.
  intros Hn Hr Ha. pose proof (mq_reach_inv n r base junk s Hn Hr) as Hs. split; [apply Hs|]. split; [|split].
  - intros i Hi. destruct (mi_used s Hs i Hi) as (m & Hm & _ & Ht). exists m. split; [done|by apply hasTargets_keys].
  - intros i Hi. destruct (mi_free s Hs i Hi) as (m & Hm & Ht & Hd). exists m. split; [done|]. unfold m_getNumTargets, tkeys, dkeys in *.
    apply map_eq_nil in Ht as ->. by apply map_eq_nil in Hd as ->.
  - intros e He. exact (wp_err _ _ _ _ _ (mq_step_wp op s Hs Ha) He).
Qed.

(** C25: Requests are served in the order of their arrival and none is lost or served
    twice: the targets an operation takes out of a register, followed by those that
    wait there afterwards, are those that waited before and the one it adds; and
    requests (as opposed to snoops queued behind them) leave in the order in which
    they came, whether they wait for the current response, for a later one, or are
    asked for again because the response was an invalidation.  Of other registers,
    those of other caches included, nothing changes but pending flags and marks. *)
Theorem mshr_requests_in_order n r base junk s op served s' :
  0 <= n + r -> mq_reach n r base junk s -> mq_allowed op s -> mq_step op s = Ok (served, s') ->
  exists i acc, op_register op s i /\ op_accepts op (q_now s) acc /\ moves i acc served (q_store s) (q_store s').
Proof.
  intros Hn Hr Ha Hs. pose proof (mq_reach_inv n r base junk s Hn Hr) as Hi.
  destruct (wp_ok _ _ _ _ _ _ (mq_step_wp op s Hi Ha) Hs) as (i & acc & H1 & H2 & _ & H3). eauto.
Qed.

(** ** Concrete runs *)

Definition mq_after (op : mq_op) (s : QS MSHR) : QS MSHR := match mq_step op s with Ok (_, s') => s' | Err _ => s end.
Lemma mq_reach_after n r base junk op s : mq_reach n r base junk s -> mq_allowed op s -> is_ok (mq_step op s) = true ->
  mq_reach n r base junk (mq_after op s).
Proof.
  intros Hr Ha Hs. unfold mq_after. destruct (mq_step op s) as [[x s']|] eqn:E; [|done]. by apply (mq_reach_step n r base junk s op x s').
Qed.

Definition demo_pkt (id : Z) (c : Command) (flags : Z) : Pkt := new_Pkt id (new_Request_phys 0 128 64 flags 0) c.
(** A read miss is sent; a second read joins it and a write has to wait for another response. *)
Definition demo_mq : QS MSHR :=
  mq_after (QTarget [] 0 (demo_pkt 3 WriteReq 0) 5 3 true) (mq_after (QTarget [] 0 (demo_pkt 2 ReadReq 0) 4 2 true)
    (mq_after (QSend 0 false) (mq_after (QAllocate 128 64 (demo_pkt 1 ReadReq 0) 3 1 true) (mq_init 2 0 0 true)))).
Definition demo_resp : Pkt := demo_pkt 1 ReadResp 0.

Lemma demo_mq_reach : mq_reach 2 0 0 true demo_mq.
Proof.
  repeat (apply mq_reach_after; [|apply (bool_decide_unpack _); by vm_compute|by vm_compute]). constructor.
Qed.
Lemma demo_respond_allowed : mq_allowed (QRespond 0 true demo_resp false false) demo_mq.
Proof. apply (bool_decide_unpack _). by vm_compute. Qed.

Lemma mshr_queue_keeps_lists_witness :
  q_inv demo_mq /\ forall e, mq_step (QRespond 0 true demo_resp false false) demo_mq = Err e -> structural e = false.
Proof.
  destruct (mshr_queue_keeps_lists 2 0 0 true demo_mq (QRespond 0 true demo_resp false false) ltac:(lia) demo_mq_reach demo_respond_allowed)
    as (H1 & _ & _ & H4). by split.
Defined.

Lemma mshr_requests_in_order_witness : exists served s', mq_step (QRespond 0 true demo_resp false false) demo_mq = Ok (served, s')
  /\ map k_id served = [1; 2] /\ map k_id (waiting (q_store s') 0) = [3]
  /\ exists i acc, op_register (QRespond 0 true demo_resp false false) demo_mq i /\ op_accepts (QRespond 0 true demo_resp false false) (q_now demo_mq) acc
       /\ moves i acc served (q_store demo_mq) (q_store s').
Proof.
  destruct (mq_step (QRespond 0 true demo_resp false false) demo_mq) as [[served s']|e] eqn:E; [|vm_compute in E; discriminate].
  exists served, s'. split; [done|]. split; [vm_compute in E; by injection E as <- <-|]. split; [vm_compute in E; by injection E as <- <-|].
  exact (mshr_requests_in_order 2 0 0 true demo_mq _ served s' ltac:(lia) demo_mq_reach demo_respond_allowed E).
Defined.

(** ** Deviations *)

(** [delay] never moves a register: the ready list keeps its order, so that a
    register that was delayed hides the ones behind it that are ready. *)
Theorem delay_hides_ready_entries :
  let s := mq_after (QTime 10) (mq_after (QAllocate 256 64 (new_Pkt 2 (new_Request_phys 0 256 64 0 0) WriteReq) 5 2 true)
             (mq_after (QAllocate 128 64 (demo_pkt 1 WriteReq 0) 3 1 true) (mq_init 2 0 0 true))) in
  getNext s = Some 0%nat
  /\ exists s', mq_step (QDelay 0 100) s = Ok ([], s') /\ readyList (q_queue s') = [0; 1]%nat
       /\ getNext s' = None /\ ready_at (q_store s') 1 <= q_now s'.
Proof.
  cbv zeta. set (s := mq_after _ _). split; [by vm_compute|]. exists (mq_after (QDelay 0 100) s). split; [by vm_compute|].
  split; [by vm_compute|]. split; [by vm_compute|]. by vm_compute.
Qed.

(** A write miss in service, then a cache clean request and another write for the
    block: both are deferred.  When the response makes the block writable,
    [promoteWritable] asserts that the targets did not need a writable block. *)
Theorem clean_between_writes_asserts :
  let s := mq_after (QTarget [] 0 (demo_pkt 3 WriteReq 0) 5 3 true) (mq_after (QTarget [] 0 (demo_pkt 2 CleanSharedReq CLEAN) 4 2 false)
    (mq_after (QSend 0 true) (mq_after (QAllocate 128 64 (demo_pkt 1 WriteReq 0) 3 1 true) (mq_init 2 0 0 true)))) in
  mq_step (QRespond 0 true (demo_pkt 1 ReadExResp 0) false true) s = Err (EAssert "!targets.needsWritable").
Proof. by vm_compute. Qed.

(** A secure write of a whole line is recorded as such when it is added to an
    empty list, but not when the flags are recomputed for the list that holds it:
    a deferred one loses the property when its turn comes. *)
Theorem deferred_secure_line_is_lost :
  let w := demo_pkt 2 WriteLineReq SECURE in
  let direct := mq_after (QAllocate 128 64 w 3 1 true) (mq_init 2 0 0 true) in
  let deferred := mq_after (QTarget [] 0 w 4 2 true) (mq_after (QSend 0 false)
                    (mq_after (QAllocate 128 64 (demo_pkt 1 ReadReq SECURE) 3 1 true) (mq_init 2 0 0 true))) in
  let turn := mq_after (QRespond 0 true (demo_pkt 1 ReadResp SECURE) false false) deferred in
  (m_isWholeLineWrite <$> q_store direct !! 0%nat) = Some true
  /\ (fun m => tl_isWholeLineWrite (m_deferredTargets m)) <$> q_store deferred !! 0%nat = Some true
  /\ map k_id (waiting (q_store turn) 0) = [2]
  /\ (m_isWholeLineWrite <$> q_store turn !! 0%nat) = Some false.
Proof. by vm_compute. Qed.

(** Targets promoted by [promoteReadable] do not count for the flags of the list
    they join: one that should allocate on a fill is served without [allocOnFill]. *)
Theorem promoted_targets_miss_flags :
  let s := mq_after (QTarget [] 0 (demo_pkt 2 ReadSharedReq 0) 4 2 true)
    (mq_after (QSend 0 false) (mq_after (QAllocate 128 64 (demo_pkt 1 CleanSharedReq CLEAN) 3 1 false) (mq_init 2 0 0 true))) in
  exists h m, promoteReadable 0 (q_store s) = Ok (tt, h) /\ h !! 0%nat = Some m /\ map k_id (tkeys m) = [1; 2]
    /\ map k_alloc (tkeys m) = [false; true] /\ m_allocOnFill m = false.
Proof.
  cbv zeta. set (s := mq_after _ _). destruct (promoteReadable 0 (q_store s)) as [[[] h]|] eqn:E; [|vm_compute in E; discriminate].
  exists h. destruct (h !! 0%nat) as [m|] eqn:Em; [|vm_compute in E; injection E as <-; vm_compute in Em; discriminate].
  exists m. split; [done|]. split; [done|]. vm_compute in E. injection E as <-. vm_compute in Em. injection Em as <-. by vm_compute.
Qed.
