(* ===== verification/MSHRPending.v ===== *)
(** * Pending flags across caches

    A register is [downstreamPending] while its request sits, unsent, in a register
    of a cache below; the target that holds the request there is marked.  The
    invariant says that marks and flags correspond one to one, and that a register
    which has been sent and is not pending has no marked targets.  Clearing flags
    is recursive: [X] are the registers whose clearing has begun, [S] are those and
    the one at which it started. *)

From S2P Require Import Prelude Hoare EventQ Drain Packet Request PacketData CacheQueue CacheQueueProps MSHR MSHRProps.
From stdpp Require Import sets gmap.

(** ** Marks *)

(** The register a target's mark refers to. *)
Definition up (h : Heap) (t : MTarget) : option nat :=
  if mt_markedPending t then first_mshr h (p_senderState (mt_pkt t)) else None.
Definition tups (h : Heap) (l : list MTarget) : list nat := omap (up h) l.
Definition ups (h : Heap) (m : MSHR) : list nat := tups h (tl_list (m_targets m)) ++ tups h (tl_list (m_deferredTargets m)).

Definition marked_for (h : Heap) (j : nat) : Prop := exists i m, h !! i = Some m /\ j ∈ ups h m.

Record p_core (X : gset nat) (h : Heap) : Prop := {
  pc_nodup : forall i m, h !! i = Some m -> NoDup (ups h m);
  pc_disj : forall i i' m m' j, h !! i = Some m -> h !! i' = Some m' -> j ∈ ups h m -> j ∈ ups h m' -> i = i';
  pc_pend : forall j m, h !! j = Some m -> downstreamPending m = true <-> marked_for h j /\ j ∉ X
}.
Definition sent_ok (S : gset nat) (h : Heap) : Prop := forall i m, i ∉ S -> h !! i = Some m -> m_inService m = true ->
  downstreamPending m = false -> tups h (tl_list (m_targets m)) = [].

(** Which sender states are registers does not change. *)
Definition same_dom (h h' : Heap) : Prop := forall i, is_Some (h !! i) <-> is_Some (h' !! i).
Lemma first_mshr_dom h h' l : same_dom h h' -> first_mshr h' l = first_mshr h l.
Proof.
  intros Hd. induction l as [|i l IH]; [done|]. simpl. rewrite IH. specialize (Hd i).
  destruct (h !! i), (h' !! i); try done; [by destruct (proj1 Hd (mk_is_Some _ _ eq_refl))|by destruct (proj2 Hd (mk_is_Some _ _ eq_refl))].
Qed.
Lemma first_mshr_some h l j : first_mshr h l = Some j -> is_Some (h !! j).
Proof. induction l as [|x l IH]; [done|]. simpl. destruct (h !! x) eqn:E; [intros [= <-]; by eexists|done]. Qed.
Lemma up_dom h h' t : same_dom h h' -> up h' t = up h t.
Proof. intros Hd. unfold up. by rewrite (first_mshr_dom h h'). Qed.
Lemma tups_dom h h' l : same_dom h h' -> tups h' l = tups h l.
Proof. intros Hd. unfold tups. induction l as [|t l IH]; [done|]. simpl. rewrite (up_dom h h') by done. destruct (up h t); [f_equal|]; exact IH. Qed.
Lemma ups_dom h h' m : same_dom h h' -> ups h' m = ups h m.
Proof. intros Hd. unfold ups. by rewrite !(tups_dom h h'). Qed.
Lemma same_dom_insert h i m m' : h !! i = Some m -> same_dom h (<[i := m']> h).
Proof.
  intros Hi j. destruct (decide (i = j)) as [<-|Hne]; [|by rewrite lookup_insert_ne]. rewrite lookup_insert_eq, Hi. split; intros _; by eexists.
Qed.
Lemma dom_shape h h' : same_shape h h' -> same_dom h h'.
Proof. intros Hs i. by apply same_shape_dom. Qed.
Lemma same_dom_trans h1 h2 h3 : same_dom h1 h2 -> same_dom h2 h3 -> same_dom h1 h3.
Proof. intros H1 H2 i. exact (iff_trans (H1 i) (H2 i)). Qed.

(** ** Changing one register *)

Section Insert.
Context (X : gset nat) (h : Heap) (i : nat) (m m' : MSHR).
Context (Hi : h !! i = Some m).
Let h' := <[i := m']> h.

Lemma ups_insert x : ups h' x = ups h x.
Proof. apply ups_dom. by apply (same_dom_insert h i m). Qed.
Lemma lookup_cases j x : h' !! j = Some x -> (j = i /\ x = m') \/ (j <> i /\ h !! j = Some x).
Proof. unfold h'. destruct (decide (i = j)) as [<-|Hne]; [rewrite lookup_insert_eq; intros [= <-]; by left|rewrite lookup_insert_ne by done; right; split; [congruence|done]]. Qed.

(** Marks may only disappear. *)
Lemma insert_marks : (forall j, j ∈ ups h m' -> j ∈ ups h m) -> NoDup (ups h m') -> p_core X h ->
  (forall k x, h' !! k = Some x -> NoDup (ups h' x))
  /\ (forall k k' x x' j, h' !! k = Some x -> h' !! k' = Some x' -> j ∈ ups h' x -> j ∈ ups h' x' -> k = k')
  /\ (forall j, marked_for h' j <-> j ∈ ups h m' \/ exists k x, k <> i /\ h !! k = Some x /\ j ∈ ups h x).
Proof.
  intros Hsub Hnd [P1 P2 P3]. split; [|split].
  - intros k x Hk. rewrite ups_insert. destruct (lookup_cases k x Hk) as [[_ ->]|[_ Hx]]; [done|by apply (P1 k)].
  - intros k k' x x' j Hk Hk'. rewrite !ups_insert. intros Hj Hj'.
    assert (exists y y', h !! k = Some y /\ h !! k' = Some y' /\ j ∈ ups h y /\ j ∈ ups h y') as (y & y' & Hy & Hy' & Hjy & Hjy').
    { destruct (lookup_cases k x Hk) as [[-> ->]|[_ Hx]], (lookup_cases k' x' Hk') as [[-> ->]|[_ Hx']]; eauto 10. }
    by apply (P2 k k' y y' j).
  - intros j. split.
    + intros (k & x & Hk & Hj). rewrite ups_insert in Hj. destruct (lookup_cases k x Hk) as [[_ ->]|[Hne Hx]]; [by left|right; eauto].
    + intros [Hj|(k & x & Hne & Hx & Hj)].
      * exists i, m'. rewrite ups_insert. split; [apply lookup_insert_eq|done].
      * exists k, x. rewrite ups_insert. split; [unfold h'; by rewrite lookup_insert_ne|done].
Qed.

Lemma marked_split : p_core X h -> forall j, marked_for h j <-> j ∈ ups h m \/ exists k x, k <> i /\ h !! k = Some x /\ j ∈ ups h x.
Proof.
  intros _ j. split.
  - intros (k & x & Hk & Hj). destruct (decide (k = i)) as [->|Hne]; [left; congruence|right; eauto].
  - intros [Hj|(k & x & _ & Hx & Hj)]; [by exists i, m|by exists k, x].
Qed.

(** The marks stay as they are. *)
Lemma core_same : p_core X h -> ups h m' ≡ₚ ups h m -> downstreamPending m' = downstreamPending m -> p_core X h'.
Proof.
  intros Hp Hu Hd. destruct (insert_marks) as (M1 & M2 & M3); [intros j; by rewrite Hu|rewrite Hu; exact (pc_nodup X h Hp i m Hi)|done|].
  split; [done|done|]. intros j x Hj. assert (marked_for h' j <-> marked_for h j) as -> by (rewrite M3, (marked_split Hp), Hu; done).
  destruct (lookup_cases j x Hj) as [[-> ->]|[_ Hx]]; [rewrite Hd; by apply (pc_pend X h Hp)|by apply (pc_pend X h Hp)].
Qed.
End Insert.

(** The flag of a register whose clearing begins. *)
Lemma core_begin X h j m : p_core X h -> h !! j = Some m -> p_core ({[j]} ∪ X) (<[j := set_downstreamPending false m]> h).
Proof.
  intros Hp Hj. destruct (insert_marks X h j m (set_downstreamPending false m) Hj) as (M1 & M2 & M3); [done|exact (pc_nodup X h Hp j m Hj)|done|].
  split; [done|done|]. intros k x Hk.
  assert (marked_for (<[j := set_downstreamPending false m]> h) k <-> marked_for h k) as -> by (rewrite M3, (marked_split X h j m Hj Hp); done).
  destruct (lookup_cases h j _ k x Hk) as [[-> ->]|[Hne Hx]]; [simpl; set_solver|]. rewrite (pc_pend X h Hp k x Hx). set_solver.
Qed.

(** The mark of a register whose clearing has ended. *)
Lemma core_end X h i m m' u : p_core ({[u]} ∪ X) h -> u ∉ X -> h !! i = Some m -> ups h m ≡ₚ u :: ups h m' ->
  downstreamPending m' = downstreamPending m -> p_core X (<[i := m']> h).
Proof.
  intros Hp Hu Hi Hup Hd. pose proof (pc_nodup _ h Hp i m Hi) as Hnd. rewrite Hup in Hnd. apply NoDup_cons in Hnd as [Hnu Hnd].
  destruct (insert_marks ({[u]} ∪ X) h i m m' Hi) as (M1 & M2 & M3); [intros j; rewrite Hup; by right|done|exact Hp|].
  split; [done|done|]. intros j x Hj.
  assert (marked_for (<[i := m']> h) j <-> marked_for h j /\ j <> u) as ->.
  { rewrite M3, (marked_split ({[u]} ∪ X) h i m Hi Hp), Hup, elem_of_cons. split.
    - intros [Hj'|(k & y & Hne & Hy & Hj')]; [split; [auto|]; by intros ->|]. split; [eauto 10|]. intros ->.
      apply Hne. apply (pc_disj _ h Hp k i y m u); [done|done|done|]. rewrite Hup. by left.
    - intros [[[->|Hj']|Hj'] Hne]; [done|auto..]. }
  assert (downstreamPending x = true <-> marked_for h j /\ j ∉ {[u]} ∪ X) as ->.
  { destruct (lookup_cases h i m' j x Hj) as [[-> ->]|[_ Hx]]; [rewrite Hd|]; by apply (pc_pend _ h Hp). }
  set_solver.
Qed.

(** ** Clearing *)

Lemma tups_split h l k t : l !! k = Some t -> tups h l = tups h (take k l) ++ match up h t with Some u => [u] | None => [] end ++ tups h (drop (S k) l).
Proof.
  intros Ht. rewrite <- (take_drop_middle l k t Ht) at 1. unfold tups. rewrite omap_app. f_equal. simpl. by destruct (up h t).
Qed.
Lemma tups_clear h l k t : l !! k = Some t -> tups h (alter (set_mt_marked false) k l) = tups h (take k l) ++ tups h (drop (S k) l).
Proof.
  intros Ht. rewrite <- (take_drop_middle (alter _ k l) k (set_mt_marked false t)) by (by rewrite list_lookup_alter_eq, Ht).
  unfold tups. rewrite omap_app. simpl. by rewrite take_alter_ge, drop_alter_lt by lia.
Qed.

Definition shrinks (h h' : Heap) : Prop := forall i m', h' !! i = Some m' -> exists m, h !! i = Some m /\ forall j, j ∈ ups h' m' -> j ∈ ups h m.
Lemma shrinks_refl h : shrinks h h.
Proof. intros i m Hm. by exists m. Qed.
Lemma shrinks_trans h1 h2 h3 : shrinks h1 h2 -> shrinks h2 h3 -> shrinks h1 h3.
Proof. intros H1 H2 i m3 Hm3. destruct (H2 i m3 Hm3) as (m2 & Hm2 & Hu2). destruct (H1 i m2 Hm2) as (m1 & Hm1 & Hu1). exists m1. auto. Qed.
Lemma shrinks_insert h i m m' : h !! i = Some m -> (forall j, j ∈ ups h m' -> j ∈ ups h m) -> shrinks h (<[i := m']> h).
Proof.
  intros Hi Hu j x Hx. setoid_rewrite (ups_insert h i m m' Hi). destruct (lookup_cases h i m' j x Hx) as [[-> ->]|[_ Hx']]; eauto.
Qed.

(** Marks that refer to registers of [S] are in registers of [S], other than [i]. *)
Definition inward (S : gset nat) (i : option nat) (h : Heap) : Prop :=
  forall x k m, x ∈ S -> h !! k = Some m -> x ∈ ups h m -> k ∈ S /\ i <> Some k.
Lemma inward_shrinks S i h h' : inward S i h -> shrinks h h' -> inward S i h'.
Proof. intros Hi Hs x k m' Hx Hk Hu. destruct (Hs k m' Hk) as (m & Hm & Hsub). by apply (Hi x k m); auto. Qed.

(** What a nested call does. *)
Definition clears (n : nat) (clear : nat -> H unit) : Prop := forall h X S u,
  p_core X h -> sent_ok S h -> X ⊆ S -> u ∉ S -> marked_for h u -> inward S None h ->
  (forall k m, h !! k = Some m -> u ∈ ups h m -> k ∈ S) -> (npending h <= n)%nat ->
  exists h', clear u h = Ok (tt, h') /\ p_core ({[u]} ∪ X) h' /\ sent_ok S h' /\ same_shape h h' /\ (npending h' <= npending h)%nat
    /\ (forall k, k ∈ S -> h' !! k = h !! k) /\ shrinks h h'.

Section Loop.
Context (n : nat) (clear : nat -> H unit) (Hclear : clears n clear).
Context (X S : gset nat) (i : nat) (d : bool) (h0 : Heap) (m0 : MSHR).

Record loop_inv (k : nat) (h : Heap) : Prop := {
  li_core : p_core X h;
  li_sent : sent_ok S h;
  li_inward : inward S (Some i) h;
  li_bound : (npending h <= n)%nat;
  li_shape : same_shape h0 h;
  li_frame : forall j, j ∈ S -> j <> i -> h !! j = h0 !! j;
  li_shrinks : shrinks h0 h;
  li_reg : exists m, h !! i = Some m /\ downstreamPending m = downstreamPending m0 /\ the_list (negb d) m = the_list (negb d) m0
    /\ tups h (take k (tl_list (the_list d m))) = []
}.
Context (HX : X ⊆ S) (HiS : i ∈ S) (Hi0 : h0 !! i = Some m0).

Lemma cleared_lists k m : the_list (negb d) (cleared d k m) = the_list (negb d) m
  /\ tl_list (the_list d (cleared d k m)) = alter (set_mt_marked false) k (tl_list (the_list d m))
  /\ downstreamPending (cleared d k m) = downstreamPending m.
Proof. unfold cleared. by destruct d. Qed.
Lemma ups_lists h m : ups h m ≡ₚ tups h (tl_list (the_list d m)) ++ tups h (tl_list (the_list (negb d) m)).
Proof. unfold ups. destruct d; simpl; [by rewrite Permutation_app_comm|done]. Qed.
Lemma ups_cleared h k m t : tl_list (the_list d m) !! k = Some t ->
  ups h m ≡ₚ match up h t with Some u => [u] | None => [] end ++ ups h (cleared d k m).
Proof.
  intros Ht. destruct (cleared_lists k m) as (E1 & E2 & _). rewrite !ups_lists, E1, E2, (tups_split h _ k t Ht), (tups_clear h _ k t Ht).
  rewrite <- !app_assoc. rewrite Permutation_app_comm, <- !app_assoc. apply Permutation_app_head. rewrite (Permutation_app_comm (tups h (take k _))).
  by rewrite <- !app_assoc.
Qed.

(** Removing the mark of target [k], once the register it refers to is done. *)
Lemma unmark_step k h h1 m t : loop_inv k h -> h !! i = Some m -> tl_list (the_list d m) !! k = Some t ->
  h1 !! i = Some m -> p_core (match up h1 t with Some u => {[u]} ∪ X | None => X end) h1 -> (forall u, up h1 t = Some u -> u ∉ X) ->
  sent_ok S h1 -> same_shape h h1 -> (npending h1 <= npending h)%nat -> (forall j, j ∈ S -> h1 !! j = h !! j) -> shrinks h h1 ->
  loop_inv (Datatypes.S k) (<[i := cleared d k m]> h1).
Proof.
  intros [L1 L2 L3 L4 L5 L6 L7 (m1 & Hm1 & Lp & Lo & Lt)] Hm Ht Hm' Hp Hu Hs Hsh Hnp Hfr Hshr. assert (m1 = m) as -> by congruence.
  pose proof (ups_cleared h1 k m t Ht) as Hups. destruct (cleared_lists k m) as (E1 & E2 & E3).
  assert (shrinks h1 (<[i := cleared d k m]> h1)) as Hsi.
  { apply (shrinks_insert _ _ m _ Hm'). intros j Hj. rewrite Hups. apply elem_of_app. by right. }
  assert (shrinks h (<[i := cleared d k m]> h1)) as Hsi' by (by apply (shrinks_trans _ h1)).
  assert (same_dom h (<[i := cleared d k m]> h1)) as Hd by (apply (same_dom_trans _ h1); [by apply dom_shape|by apply (same_dom_insert _ _ m)]).
  split.
  - destruct (up h1 t) as [u|].
    + apply (core_end X h1 i m _ u); try done. by apply Hu.
    + by apply (core_same X h1 i m); [done|done|rewrite Hups|].
  - intros j x Hj Hx. assert (j <> i) as Hne by (intros ->; done). rewrite lookup_insert_ne in Hx by done.
    rewrite (tups_dom h1 _ _ (same_dom_insert h1 i m _ Hm')). by apply (Hs j).
  - by apply (inward_shrinks _ _ h).
  - pose proof (npending_insert h1 i m (cleared d k m) Hm') as Hx. rewrite E3 in Hx. lia.
  - apply (same_shape_trans _ h1); [by apply (same_shape_trans _ h)|apply (same_shape_insert _ _ m _ Hm'), cleared_shape].
  - intros j Hj Hne. rewrite lookup_insert_ne by done. rewrite Hfr by done. by apply L6.
  - by apply (shrinks_trans _ h).
  - exists (cleared d k m). rewrite lookup_insert_eq, E1, E2, E3. split; [done|]. split; [done|]. split; [done|].
    rewrite take_alter_lt by lia. rewrite (tups_dom h _ _ Hd). unfold tups in *. rewrite (take_S_r _ _ _ Ht).
    rewrite <- (Nat.add_0_r k) at 1. rewrite <- (length_take_le (tl_list (the_list d m)) k) at 1 by (apply lookup_lt_Some in Ht; lia).
    rewrite alter_app_r, omap_app, Lt. done.
Qed.

Lemma loop_step k h : loop_inv k h -> (k < length (tl_list (the_list d m0)))%nat ->
  exists h', clear_target clear i d k h = Ok (tt, h') /\ loop_inv (Datatypes.S k) h'.
Proof.
  intros Hl Hk. pose proof Hl as [L1 L2 L3 L4 L5 L6 L7 (m & Hm & Lp & Lo & Lt)].
  destruct (same_shape_lookup _ _ _ _ L5 Hi0) as (m1 & Hm1 & Hsm). assert (m1 = m) as -> by congruence.
  destruct (lookup_lt_is_Some_2 (tl_list (the_list d m)) k) as [t Ht]; [by rewrite (list_of_shape d _ _ Hsm)|].
  unfold clear_target. rewrite (bind_run _ _ h m h) by (unfold load; by rewrite Hm). rewrite Ht. unfold when_.
  destruct (mt_markedPending t) eqn:Hmk; swap 1 2.
  { exists h. split; [done|]. destruct Hl as [H1 H2 H3 H4 H5 H6 H7 _]. split; try done. exists m. split; [done|]. split; [done|]. split; [done|].
    unfold tups in *. rewrite (take_S_r _ _ _ Ht), omap_app, Lt. simpl. unfold up. by rewrite Hmk. }
  unfold findNextSenderState. rewrite bind_gets.
  assert (up h t = first_mshr h (p_senderState (mt_pkt t))) as Hup by (unfold up; by rewrite Hmk). rewrite <- Hup.
  assert (forall h1 h2, (match up h t with Some j => clear j | None => mret tt end : H unit) h = Ok (tt, h1) -> h1 !! i = Some m -> h2 = <[i := cleared d k m]> h1 ->
    (match up h t with Some j => clear j | None => mret tt end ;; m ← load i; let l := the_list d m in
      store i (set_the_list d (set_tl_list (alter (set_mt_marked false) k (tl_list l)) l) m)) h = Ok (tt, h2)) as Hrun.
  { intros h1 h2 E Hm2 ->. rewrite (bind_run _ _ _ _ _ E). by rewrite (bind_run _ _ h1 m h1) by (unfold load; by rewrite Hm2). }
  destruct (up h t) as [u|] eqn:Hu.
  - assert (u ∈ ups h m) as Hum by (rewrite (ups_cleared h k m t Ht), Hu; by left).
    assert (u ∉ S) as HuS by (intros HuS; by destruct (L3 u i m HuS Hm Hum)).
    destruct (Hclear h X S u) as (h1 & E & C1 & C2 & C3 & C4 & C5 & C6); try done.
    + by exists i, m.
    + intros x j y Hx Hy Hj. split; [by apply (L3 x j y)|done].
    + intros j y Hy Hj. assert (j = i) as -> by (by apply (pc_disj X h L1 j i y m u)). done.
    + assert (h1 !! i = Some m) as Hm2 by (by rewrite C5). eexists. split; [by apply (Hrun h1 _ E Hm2)|].
      pose proof (up_dom h h1 t (dom_shape _ _ C3)) as Hu1. rewrite Hu in Hu1.
      apply (unmark_step k h h1 m t Hl Hm Ht Hm2); rewrite ?Hu1; try done. intros ? [= <-]. set_solver.
  - eexists. split; [by apply (Hrun h _ eq_refl Hm)|]. apply (unmark_step k h h m t Hl Hm Ht Hm); rewrite ?Hu; try done. apply shrinks_refl.
Qed.

Lemma loop_run len k h : loop_inv k h -> (k + len <= length (tl_list (the_list d m0)))%nat ->
  exists h', forM_ (seq k len) (clear_target clear i d) h = Ok (tt, h') /\ loop_inv (k + len) h'.
Proof.
  revert k h. induction len as [|len IH]; intros k h Hl Hk; simpl; [exists h; by rewrite Nat.add_0_r|].
  destruct (loop_step k h Hl) as (h1 & E & Hl1); [lia|]. rewrite (bind_run _ _ _ _ _ E).
  destruct (IH (Datatypes.S k) h1 Hl1) as (h2 & E2 & Hl2); [lia|]. exists h2. split; [done|]. by replace (k + Datatypes.S len)%nat with (Datatypes.S k + len)%nat by lia.
Qed.
End Loop.

Lemma marked_register h u : marked_for h u -> is_Some (h !! u).
Proof.
  intros (k & m & _ & Hu). unfold ups in Hu. apply elem_of_app in Hu as [Hu|Hu]; apply list_elem_of_omap in Hu as (t & _ & Ht);
    unfold up in Ht; destruct (mt_markedPending t); try done; by apply first_mshr_some in Ht.
Qed.
Lemma clears_le n n' clear : clears n clear -> (n' <= n)%nat -> clears n' clear.
Proof. intros Hc Hn h X S u H1 H2 H3 H4 H5 H6 H7 H8. apply Hc; try done. lia. Qed.

(** The state in which the loop of a nested call begins. *)
Lemma loop_begin X S u h m : p_core X h -> sent_ok S h -> u ∉ S -> inward S None h -> (forall k x, h !! k = Some x -> u ∈ ups h x -> k ∈ S) ->
  h !! u = Some m -> let m1 := set_downstreamPending false m in let h1 := <[u := m1]> h in
  loop_inv (npending h1) ({[u]} ∪ X) ({[u]} ∪ S) u false h1 m1 0 h1.
Proof.
  intros Hp Hsent Hu Hin Hloc Hm m1 h1. assert (shrinks h h1) as Hsh1 by (by apply (shrinks_insert _ _ m)). split; try done.
  - by apply core_begin.
  - intros k x Hk Hx. unfold h1. rewrite (tups_dom h _ _ (same_dom_insert h u m m1 Hm)).
    destruct (lookup_cases h u m1 k x Hx) as [[-> _]|[_ Hx']]; [set_solver|]. apply (Hsent k); [set_solver|done].
  - intros x k y Hx Hk Hy. destruct (Hsh1 k y Hk) as (y0 & Hy0 & Hsub). specialize (Hsub x Hy). apply elem_of_union in Hx as [Hx|Hx].
    + apply elem_of_singleton in Hx as ->. pose proof (Hloc k y0 Hy0 Hsub). split; [set_solver|]. intros [= ->]. done.
    + destruct (Hin x k y0 Hx Hy0 Hsub) as [Hk' _]. split; [set_solver|]. intros [= ->]. done.
  - apply shrinks_refl.
  - exists m1. unfold h1. by rewrite lookup_insert_eq, take_0.
Qed.

(** The recursion: at most as many nested calls as there are pending registers. *)
Lemma clear_run fuel : clears fuel (clearDownstreamPending (S fuel)).
Proof.
  induction fuel as [|fuel IH]; intros h X S u Hp Hsent HX Hu Hmk Hin Hloc Hn; destruct (marked_register h u Hmk) as [m Hm];
    (assert (downstreamPending m = true) as Hpd by (apply (pc_pend X h Hp u m Hm); split; [done|set_solver])).
  { pose proof (npending_split h u m Hm) as Hx. rewrite Hpd in Hx. lia. }
  set (m1 := set_downstreamPending false m). set (h1 := <[u := m1]> h).
  pose proof (npending_insert h u m m1 Hm) as Hnp. rewrite Hpd in Hnp. simpl in Hnp. fold h1 in Hnp.
  assert (h1 !! u = Some m1) as Hm1 by apply lookup_insert_eq.
  destruct (loop_run (npending h1) (clearDownstreamPending (Datatypes.S fuel)) (clears_le fuel (npending h1) _ IH ltac:(lia)) ({[u]} ∪ X) ({[u]} ∪ S) u false h1 m1
    ltac:(set_solver) ltac:(set_solver) Hm1 (length (tl_list (m_targets m))) 0 h1) as (h2 & E & [L1 L2 L3 L4 L5 L6 L7 (m2 & Hm2 & Lp & Lo & Lt)]);
    [by apply loop_begin|done|].
  exists h2. split.
  { change (clearDownstreamPending (Datatypes.S (Datatypes.S fuel)) u) with (m ← load u; assert_ (downstreamPending m) "downstreamPending";;
      store u (set_downstreamPending false m);; clear_targets (clearDownstreamPending (Datatypes.S fuel)) u false (length (tl_list (m_targets m)))).
    rewrite (bind_run _ _ h m h) by (unfold load; by rewrite Hm). rewrite bind_assert by done. exact E. }
  split; [done|]. split; [|split; [|split; [|split]]].
  - intros k x Hk Hx Hsv Hpx. destruct (decide (k = u)) as [->|Hne]; [|apply (L2 k); [set_solver|done..]].
    assert (x = m2) as -> by congruence. simpl in Lt. rewrite take_ge in Lt; [done|].
    destruct (same_shape_lookup _ _ _ _ L5 Hm1) as (m3 & Hm3 & Hs3). assert (m3 = m2) as -> by congruence.
    pose proof (list_of_shape false _ _ Hs3) as Hlen. simpl in Hlen. lia.
  - apply (same_shape_trans _ h1); [by apply (same_shape_insert _ _ m)|done].
  - lia.
  - intros k Hk. assert (k <> u) as Hne by (intros ->; done). rewrite L6 by set_solver. unfold h1. by rewrite lookup_insert_ne.
  - apply (shrinks_trans _ h1); [by apply (shrinks_insert _ _ m)|done].
Qed.

(** ** The invariant and its preservation *)

(** A register without targets is free. *)
Definition idle (m : MSHR) : bool := tl_empty (m_targets m) && tl_empty (m_deferredTargets m).
(** [S]: registers in the middle of an operation. *)
Record p_inv (S : gset nat) (h : Heap) : Prop := {
  pi_core : p_core ∅ h;
  pi_sent : sent_ok S h;
  pi_idle : forall i m, h !! i = Some m -> idle m = true -> downstreamPending m = false
}.
Lemma p_inv_open S h : p_inv ∅ h -> p_inv S h.
Proof. intros [H1 H2 H3]. split; try done. intros i m _. apply H2. set_solver. Qed.
Lemma p_inv_close i h : p_inv {[i]} h -> (forall m, h !! i = Some m -> m_inService m = true -> downstreamPending m = false -> tups h (tl_list (m_targets m)) = []) ->
  p_inv ∅ h.
Proof.
  intros [H1 H2 H3] Hi. split; try done. intros j m _ Hj. destruct (decide (j = i)) as [->|Hne]; [by apply Hi|]. apply (H2 j); [set_solver|done].
Qed.

(** Clearing the marks of the first [n] targets of a list of a register that is not pending itself. *)
Lemma tl_clear_run h i m d n : p_core ∅ h -> sent_ok {[i]} h -> h !! i = Some m -> downstreamPending m = false -> (n <= length (tl_list (the_list d m)))%nat ->
  exists h' m', tl_clearDownstreamPending i d n h = Ok (tt, h') /\ p_core ∅ h' /\ sent_ok {[i]} h' /\ same_shape h h' /\ h' !! i = Some m'
    /\ downstreamPending m' = false /\ the_list (negb d) m' = the_list (negb d) m /\ tups h' (take n (tl_list (the_list d m'))) = []
    /\ (forall j x x', h !! j = Some x -> h' !! j = Some x' -> downstreamPending x' = true -> downstreamPending x = true).
Proof.
  intros Hp Hs Hm Hpd Hn.
  destruct (loop_run (npending h) (clearDownstreamPending (S (size h))) (clears_le (size h) _ _ (clear_run (size h)) (npending_size h)) ∅ {[i]} i d h m
    ltac:(set_solver) ltac:(set_solver) Hm n 0 h) as (h' & E & [L1 L2 L3 L4 L5 L6 L7 (m' & Hm' & Lp & Lo & Lt)]).
  - split; try done.
    + intros x k y Hx Hk Hy. apply elem_of_singleton in Hx as ->. exfalso. assert (downstreamPending m = true); [|congruence].
      apply (pc_pend ∅ h Hp i m Hm). split; [by exists k, y|set_solver].
    + apply shrinks_refl.
    + exists m. by rewrite take_0.
  - done.
  - exists h', m'. split; [exact E|]. split; [done|]. split; [done|]. split; [done|]. split; [done|]. split; [congruence|].
    split; [done|]. split; [done|]. intros j x x' Hx Hx' Hpx. apply (pc_pend ∅ h Hp j x Hx). split; [|set_solver].
    apply (pc_pend ∅ h' L1 j x' Hx') in Hpx as [(k & y & Hy & Hj) _]. destruct (L7 k y Hy) as (y0 & Hy0 & Hsub). exists k, y0. auto.
Qed.

(** ** Failures *)

(** The assertions about pending flags, and recursion without end. *)
Definition pend_err (e : err) : bool :=
  match e with
  | EAssert s => bool_decide (s ∈ ["downstreamPending"; "!mshr->downstreamPending"; "!downstreamPending"])
  | EFuel => true
  | _ => false
  end.
Definition other_err (e : err) : Prop := pend_err e = false.
Definition quiet {A} (r : res A) : Prop := match r with Ok _ => True | Err e => other_err e end.

Lemma quiet_bind {A B} (r : res A) (f : A -> res B) : quiet r -> (forall a, quiet (f a)) -> quiet (r ≫= f).
Proof. destruct r; simpl; auto. Qed.
Lemma quiet_assert b what : other_err (EAssert what) -> quiet (assert_r b what).
Proof. by destruct b. Qed.
Lemma quiet_panic b what : quiet (panic_r b what).
Proof. by destruct b. Qed.

Ltac quiet_auto :=
  repeat (cbv zeta; match goal with
  | |- quiet (mbind _ _) => apply quiet_bind; [|intros ?]
  | |- quiet (assert_r _ _) => apply quiet_assert; vm_compute; reflexivity
  | |- quiet (panic_r _ _) => apply quiet_panic
  | |- quiet (mret _) => exact I
  | |- quiet (Ok _) => exact I
  | |- quiet (Err _) => vm_compute; reflexivity
  | |- quiet (if ?b then _ else _) => destruct b
  | |- quiet (match ?b with _ => _ end) => destruct b
  | |- quiet (let '(_, _) := ?b in _) => destruct b
  end; try done).

Lemma quiet_needsWritable p : quiet (pkt_needsWritable p).
Proof. unfold pkt_needsWritable. quiet_auto. Qed.
Lemma quiet_getSize p : quiet (getSize p).
Proof. unfold getSize. quiet_auto. Qed.
Lemma quiet_isSecure p : quiet (isSecure p).
Proof. unfold isSecure. quiet_auto. Qed.
Lemma quiet_updateWriteFlags pkt l : quiet (updateWriteFlags pkt l).
Proof. unfold updateWriteFlags, getFlags, pkt_getOffset, getAddr, getSize, fill_bitmap. quiet_auto. Qed.
Lemma quiet_updateFlags pkt src aof l : quiet (updateFlags pkt src aof l).
Proof.
  unfold updateFlags. case_decide; [done|]. apply quiet_bind; [apply quiet_needsWritable|]. intros nw. cbv zeta. case_decide; [done|].
  apply quiet_updateWriteFlags.
Qed.
Lemma quiet_update_all ts l : quiet (update_all ts l).
Proof. revert l. induction ts as [|t ts IH]; intros l; simpl; [done|]. apply quiet_bind; [apply quiet_updateFlags|intros; apply IH]. Qed.
Lemma quiet_populate l : quiet (populateFlags l).
Proof. apply quiet_update_all. Qed.
Lemma quiet_allocate raw p : quiet (PacketData.allocate raw p).
Proof. unfold PacketData.allocate, getSize. quiet_auto. Qed.
Lemma quiet_replaceUpgrade raw p : quiet (replaceUpgrade raw p).
Proof.
  unfold replaceUpgrade. cbv zeta. destruct (hasData _ || _); [done|]. apply quiet_bind; [by apply quiet_assert|]. intros _.
  destruct (hasRespData _); [apply quiet_allocate|done].
Qed.
Lemma quiet_replaceUpgrades raw l : quiet (replaceUpgrades raw l).
Proof.
  unfold replaceUpgrades. destruct (negb _); [done|]. apply quiet_bind; [|done]. induction (tl_list l) as [|t ts IH]; simpl; [done|].
  apply quiet_bind; [apply quiet_replaceUpgrade|]. intros p. by apply quiet_bind.
Qed.
Lemma quiet_inService (b : bool) x : quiet (assert_r b "inService";; Ok (x : bool)).
Proof. quiet_auto. Qed.
Lemma quiet_must_defer pkt m : quiet (must_defer pkt m).
Proof. unfold must_defer, front_pkt, hasPostInvalidate, isPendingModified, hasPostDowngrade, pkt_needsWritable. quiet_auto. Qed.
Lemma quiet_front m : quiet (front_pkt m).
Proof. unfold front_pkt. quiet_auto. Qed.
Lemma quiet_match p q n : quiet (matchBlockAddr p q n).
Proof. unfold matchBlockAddr, matchBlockAddr_at, getBlockAddr, getAddr, isSecure. quiet_auto. Qed.
Lemma quiet_copy raw p : quiet (copy_Pkt raw p true true).
Proof. unfold copy_Pkt. cbv zeta. destruct (p_isSet STATIC_DATA p); [done|apply quiet_allocate]. Qed.
Lemma quiet_snoop_flags p : quiet (setCacheResponding p) /\ quiet (setResponderHadWritable p) /\ quiet (setSatisfied p).
Proof. unfold setCacheResponding, setResponderHadWritable, setSatisfied. repeat split; quiet_auto. Qed.
Lemma quiet_prefix pred l : (forall t, quiet (pred t)) -> quiet (prefix_where pred l).
Proof. intros Hp. induction l as [|t l IH]; simpl; [done|]. apply quiet_bind; [apply Hp|]. intros []; [|done]. by apply quiet_bind. Qed.
Lemma quiet_take_snoops l : quiet (take_snoops l).
Proof. induction l as [|t l IH]; simpl; [done|]. destruct (mt_source t); [| |done]; (apply quiet_bind; [done|]); by intros [? ?]. Qed.
Lemma quiet_promoteDeferred now m : quiet (promoteDeferredTargets now m).
Proof.
  unfold promoteDeferredTargets. destruct (_ && _); [done|]. cbv zeta. apply quiet_bind; [apply quiet_populate|]. intros d.
  apply quiet_bind; [apply quiet_populate|]. intros l. by destruct (tl_list l).
Qed.

(** A computation that may fail otherwise, and what holds of its result. *)
Lemma wp_lift_quiet {S A} (r : res A) (Q : A -> S -> Prop) s : quiet r -> (forall a, r = Ok a -> Q a s) -> wp other_err (lift r) Q s.
Proof. unfold wp, lift. destruct r; auto. Qed.
Lemma safe_ok {A} (r : res A) (P : A -> Prop) a : safe r P -> r = Ok a -> P a.
Proof. intros Hs ->. exact Hs. Qed.

(** ** Preservation *)

Lemma p_put S h i m m' : p_inv S h -> h !! i = Some m -> ups h m' ≡ₚ ups h m -> downstreamPending m' = downstreamPending m ->
  (i ∉ S -> m_inService m' = true -> downstreamPending m' = false -> tups h (tl_list (m_targets m')) = []) ->
  (idle m' = true -> downstreamPending m' = false) -> p_inv S (<[i := m']> h).
Proof.
  intros [H1 H2 H3] Hi Hu Hd Hs Hidle. split; [by apply (core_same ∅ h i m)|..].
  - intros j x Hj Hx. rewrite (tups_dom h _ _ (same_dom_insert h i m m' Hi)). destruct (lookup_cases h i m' j x Hx) as [[-> ->]|[_ Hx']]; [by apply Hs|by apply (H2 j)].
  - intros j x Hx. destruct (lookup_cases h i m' j x Hx) as [[-> ->]|[_ Hx']]; [done|by apply (H3 j)].
Qed.

Lemma core_add h i m m' u mu : p_core ∅ h -> h !! i = Some m -> h !! u = Some mu -> u <> i -> downstreamPending mu = false ->
  ups h m' ≡ₚ u :: ups h m -> downstreamPending m' = downstreamPending m -> p_core ∅ (<[i := m']> (<[u := set_downstreamPending true mu]> h)).
Proof.
  intros Hp Hi Hu Hne Hpd Hups Hd. set (mu' := set_downstreamPending true mu). set (h1 := <[u := mu']> h). set (h2 := <[i := m']> h1).
  assert (h1 !! i = Some m) as Hi1 by (unfold h1; by rewrite lookup_insert_ne).
  assert (forall x, ups h2 x = ups h x) as Hux by (intros x; unfold h2, h1; rewrite (ups_insert _ _ m) by done; by rewrite (ups_insert _ _ mu)).
  assert (~ marked_for h u) as Hnm by (intros Hmk; assert (downstreamPending mu = true) by (by apply (pc_pend ∅ h Hp u mu Hu); split; [|set_solver]); congruence).
  assert (forall k x, h2 !! k = Some x -> (k = i /\ x = m') \/ (k <> i /\ exists y, h !! k = Some y /\ ups h x = ups h y
    /\ (downstreamPending x = if decide (k = u) then true else downstreamPending y))) as Hcase.
  { intros k x Hk. destruct (lookup_cases h1 i m' k x Hk) as [?|[Hki Hx]]; [by left|right]. split; [done|].
    destruct (lookup_cases h u mu' k x Hx) as [[-> ->]|[Hku Hx']]; [exists mu|exists x]; (split; [done|]; split; [done|]); by case_decide. }
  assert (forall k x j, h2 !! k = Some x -> j ∈ ups h2 x -> (j = u /\ k = i) \/ (j <> u /\ exists y, h !! k = Some y /\ j ∈ ups h y)) as Hin.
  { intros k x j Hk. rewrite Hux. destruct (Hcase k x Hk) as [[-> ->]|(Hki & y & Hy & Hxy & _)].
    - rewrite Hups, elem_of_cons. intros [->|Hj]; [by left|right]. split; [|by eauto]. intros ->. apply Hnm. by exists i, m.
    - rewrite Hxy. intros Hj. right. split; [|by eauto]. intros ->. apply Hnm. by exists k, y. }
  split.
  - intros k x Hk. rewrite Hux. destruct (Hcase k x Hk) as [[-> ->]|(_ & y & Hy & -> & _)]; [|by apply (pc_nodup ∅ h Hp k)].
    rewrite Hups. constructor; [intros Hj; apply Hnm; by exists i, m|by apply (pc_nodup ∅ h Hp i)].
  - intros k k' x x' j Hk Hk' Hj Hj'. pose proof (Hin k x j Hk Hj) as Ha. pose proof (Hin k' x' j Hk' Hj') as Hb.
    destruct Ha as [[-> ->]|(Hju & y & Hy & Hyj)], Hb as [[? ->]|(? & y' & Hy' & Hyj')]; try done.
    by apply (pc_disj ∅ h Hp k k' y y' j).
  - intros j x Hj. assert (marked_for h2 j <-> j = u \/ marked_for h j) as ->.
    { split.
      - intros (k & y & Hk & Hjy). destruct (Hin k y j Hk Hjy) as [[-> _]|(_ & z & Hz & Hzj)]; [by left|right; by exists k, z].
      - intros [->|(k & y & Hk & Hjy)]; [exists i, m'; split; [apply lookup_insert_eq|rewrite Hux, Hups; by left]|].
        destruct (decide (k = i)) as [->|Hki].
        + exists i, m'. split; [apply lookup_insert_eq|]. rewrite Hux, Hups. right. congruence.
        + destruct (decide (k = u)) as [->|Hku].
          * exists u, mu'. unfold h2, h1. rewrite lookup_insert_ne by done. rewrite lookup_insert_eq. split; [done|]. fold h1 h2. rewrite Hux. assert (y = mu) as -> by congruence. done.
          * exists k, y. unfold h2, h1. rewrite !lookup_insert_ne by done. split; [done|]. fold h1 h2. by rewrite Hux. }
    destruct (Hcase j x Hj) as [[-> ->]|(Hji & y & Hy & _ & ->)].
    + rewrite Hd, (pc_pend ∅ h Hp i m Hi). naive_solver.
    + case_decide; [naive_solver set_solver|]. rewrite (pc_pend ∅ h Hp j y Hy). naive_solver.
Qed.

Lemma p_add S h i m m' u mu : p_inv S h -> h !! i = Some m -> h !! u = Some mu -> u <> i -> downstreamPending mu = false -> idle mu = false ->
  ups h m' ≡ₚ u :: ups h m -> downstreamPending m' = downstreamPending m ->
  (i ∉ S -> m_inService m' = true -> downstreamPending m' = false -> tups h (tl_list (m_targets m')) = []) -> idle m' = false ->
  p_inv S (<[i := m']> (<[u := set_downstreamPending true mu]> h)).
Proof.
  intros [H1 H2 H3] Hi Hu Hne Hpd Hid Hups Hd Hs Hidle. split; [by apply (core_add h i m m' u mu)|..].
  - intros j x Hj Hx. assert (forall l, tups (<[i := m']> (<[u := set_downstreamPending true mu]> h)) l = tups h l) as ->.
    { intros l. apply tups_dom. apply (same_dom_trans _ (<[u := set_downstreamPending true mu]> h)); [by apply (same_dom_insert _ _ mu)|].
      apply (same_dom_insert _ _ m). by rewrite lookup_insert_ne. }
    destruct (lookup_cases _ i m' j x Hx) as [[-> ->]|[_ Hx1]]; [by apply Hs|]. destruct (lookup_cases h u _ j x Hx1) as [[-> ->]|[_ Hx2]]; [done|by apply (H2 j)].
  - intros j x Hx. destruct (lookup_cases _ i m' j x Hx) as [[-> ->]|[_ Hx1]]; [congruence|].
    destruct (lookup_cases h u _ j x Hx1) as [[-> ->]|[_ Hx2]]; [|by apply (H3 j)].
    change (idle (set_downstreamPending true mu)) with (idle mu). congruence.
Qed.

Lemma shape_idle m m' : shape m' = shape m -> idle m' = idle m.
Proof. intros Hs. assert (forall x, idle (shape x) = idle x) as E by (intros x; unfold idle, shape, tl_shape, tl_empty; simpl; by destruct (tl_list (m_targets x)), (tl_list (m_deferredTargets x))). by rewrite <- (E m'), Hs, E. Qed.

Lemma tl_clear_p h i m d n : p_inv {[i]} h -> h !! i = Some m -> downstreamPending m = false -> (n <= length (tl_list (the_list d m)))%nat ->
  exists h' m', tl_clearDownstreamPending i d n h = Ok (tt, h') /\ p_inv {[i]} h' /\ same_shape h h' /\ h' !! i = Some m'
    /\ downstreamPending m' = false /\ the_list (negb d) m' = the_list (negb d) m /\ tups h' (take n (tl_list (the_list d m'))) = [].
Proof.
  intros [H1 H2 H3] Hi Hpd Hn. destruct (tl_clear_run h i m d n H1 H2 Hi Hpd Hn) as (h' & m' & E & C1 & C2 & C3 & C4 & C5 & C6 & C7 & C8).
  exists h', m'. split; [done|]. split; [|done]. split; [done|done|]. intros j x' Hx' Hid.
  destruct (same_shape_lookup h' h j x') as (x & Hx & Hsx); [intros k; symmetry; apply C3|done|].
  assert (downstreamPending x = false) by (apply (H3 j); [done|]; by rewrite (shape_idle x' x Hsx)).
  destruct (downstreamPending x') eqn:Ep; [|done]. pose proof (C8 j x x' Hx Hx' Ep). congruence.
Qed.
