(* ===== verification/PendingProtocol.v ===== *)
(** * Pending flags under the operations of the caches

    Every operation on a miss queue keeps the correspondence of marks and pending
    flags, for any number of caches whose registers share one store. *)

From S2P Require Import Prelude Hoare EventQ Drain Packet Request PacketData CacheQueue CacheQueueProps MSHR MSHRProps MSHRQueueProps MSHRPending.
From stdpp Require Import sets gmap.

(** ** Registers *)

Lemma loadp i (Q : MSHR -> Heap -> Prop) h m : h !! i = Some m -> Q m h -> wp other_err (load i) Q h.
Proof. unfold wp, load. by intros ->. Qed.
Ltac pstep :=
  lazymatch goal with
  | |- wp _ (mbind _ _) _ _ => apply wp_bind
  | |- wp _ (mret _) _ _ => apply wp_ret
  | |- wp _ (gets _) _ _ => apply wp_gets
  | |- wp _ (store _ _) _ _ => apply wp_modify
  | |- wp _ (findNextSenderState _) _ _ => unfold findNextSenderState; apply wp_gets
  | |- wp _ (load _) _ _ => eapply loadp; [eassumption|]
  | |- wp _ (assert_ _ _) _ _ => apply wp_assert; [try (vm_compute; reflexivity)|]
  | |- wp _ (panic_if _ _) _ _ => apply wp_panic_if; [try (vm_compute; reflexivity)|]
  end; cbv beta.

(** A packet for register [i]: the register it comes from waits for an answer and is not pending yet. *)
Definition from_waiting (h : Heap) (i : nat) (pkt : Pkt) : Prop := forall j, first_mshr h (p_senderState pkt) = Some j ->
  j <> i /\ exists mj, h !! j = Some mj /\ downstreamPending mj = false /\ idle mj = false.

Lemma tups_app h l1 l2 : tups h (l1 ++ l2) = tups h l1 ++ tups h l2.
Proof. apply omap_app. Qed.
Lemma ups_with h d l t m : keeps_targets (the_list d m) l ->
  ups h (with_target d l t m) ≡ₚ match up h t with Some u => [u] | None => [] end ++ ups h m.
Proof.
  intros (Hl & _). assert (tups h [t] = match up h t with Some u => [u] | None => [] end) as <- by (unfold tups; simpl; by destruct (up h t)).
  unfold ups, with_target. destruct d; simpl the_list in *; cbn [set_the_list m_targets m_deferredTargets set_m_targets set_m_deferredTargets tl_list set_tl_list];
    rewrite Hl, tups_app.
  - rewrite app_assoc. apply Permutation_app_comm.
  - by rewrite (Permutation_app_comm (tups h (tl_list (m_targets m)))), <- app_assoc.
Qed.
Lemma idle_with d l t m : idle (with_target d l t m) = false.
Proof. unfold idle, with_target, tl_empty. destruct d; simpl; destruct (tl_list l); simpl; by rewrite ?andb_false_r. Qed.

(** [tl_add]; the register may still be empty. *)
Lemma tl_add_p now i d pkt rt o src (mp aof : bool) S h m : p_inv S h -> h !! i = Some m ->
  (mp = true -> from_waiting h i pkt) -> (i ∉ S -> d = false -> mp = true -> m_inService m = true -> downstreamPending m = true) ->
  wp other_err (tl_add now i d pkt rt o src mp aof) (fun _ h' => p_inv S h' /\ same_dom h h' /\ exists m', h' !! i = Some m' /\ idle m' = false
    /\ downstreamPending m' = downstreamPending m) h.
Proof.
  intros Hp Hi Hf Hs. unfold tl_add. pstep. pstep. pstep. apply wp_lift_quiet; [apply quiet_updateFlags|]. intros l El.
  pose proof (safe_ok _ _ _ (updateFlags_safe _ _ _ _) El) as Hl. pstep. pstep. set (m1 := set_the_list d l m).
  assert (forall t, with_target d (the_list d m1) t m1 = with_target d l t m) as Hw by (intros t; unfold m1, with_target; by destruct d).
  assert (forall t, downstreamPending (with_target d l t m) = downstreamPending m /\ m_inService (with_target d l t m) = m_inService m) as Hwp by (intros t; unfold with_target; by destruct d).
  assert (forall t, up h t = None \/ (mp = true /\ mt_markedPending t = true) -> i ∉ S -> m_inService (with_target d l t m) = true ->
    downstreamPending (with_target d l t m) = false -> tups h (tl_list (m_targets (with_target d l t m))) = []) as Hsent.
  { intros t Ht. destruct (Hwp t) as [-> ->]. intros HiS Hsv Hpd. pose proof (pi_sent S h Hp i m HiS Hi Hsv Hpd) as Ho.
    unfold with_target. destruct d; simpl in *; [done|]. destruct Hl as (-> & _). rewrite tups_app, Ho. simpl.
    destruct Ht as [Ht|[Hmp Hmk]]; [unfold tups; simpl; by rewrite Ht|]. assert (downstreamPending m = true) by auto. congruence. }
  destruct (if mp then first_mshr h (p_senderState pkt) else None) as [j|] eqn:Hj.
  - destruct mp; [|done]. destruct (Hf eq_refl j Hj) as (Hne & mj & Hmj & Hpj & Hidj). pstep. pstep. pstep.
    rewrite (first_mshr_dom h) by (by apply (same_dom_insert h i m)). rewrite Hj. pstep. apply (loadp j _ _ mj); [by rewrite lookup_insert_ne|].
    pstep. rewrite Hpj. apply wp_ret. pstep. pstep. pstep. pstep. apply (loadp i _ _ m1); [by rewrite lookup_insert_ne, lookup_insert_eq|].
    pstep. set (t := mkMT (mkTarget now rt o pkt) src true aof). change (set_the_list d _ m1) with (with_target d (the_list d m1) t m1). rewrite Hw.
    rewrite (insert_insert_ne h j i) by done. rewrite insert_insert_eq.
    assert (up h t = Some j) as Hup by exact Hj.
    split; [|split; [apply (same_dom_trans _ (<[j := set_downstreamPending true mj]> h)); [by apply (same_dom_insert _ _ mj)|apply (same_dom_insert _ _ m); by rewrite lookup_insert_ne]|]].
    + apply (p_add S h i m _ j mj); try done; [by rewrite (ups_with h d l t m Hl), Hup|apply Hwp|apply Hsent; by right|apply idle_with].
    + eexists. split; [apply lookup_insert_eq|]. split; [apply idle_with|apply Hwp].
  - pstep. apply (wp_mono _ _ (fun mk h' => mk = false /\ h' = <[i := m1]> h)).
    { destruct mp; [|by pstep]. pstep. pstep. rewrite (first_mshr_dom h) by (by apply (same_dom_insert h i m)). rewrite Hj. by pstep. }
    intros mk h' [-> ->]. pstep. apply (loadp i _ _ m1); [apply lookup_insert_eq|]. pstep.
    set (t := mkMT (mkTarget now rt o pkt) src false aof). change (set_the_list d _ m1) with (with_target d (the_list d m1) t m1). rewrite Hw, insert_insert_eq.
    split; [|split; [by apply (same_dom_insert _ _ m)|eexists; split; [apply lookup_insert_eq|]; split; [apply idle_with|apply Hwp]]].
    apply (p_put S h i m); try done; [by rewrite (ups_with h d l t m Hl)|apply Hwp|apply Hsent; by left|by rewrite idle_with].
Qed.

Lemma from_waiting_put h i m m' pkt : h !! i = Some m -> from_waiting h i pkt -> from_waiting (<[i := m']> h) i pkt.
Proof.
  intros Hi Hf j. rewrite (first_mshr_dom h) by (by apply (same_dom_insert h i m)). intros Hj. destruct (Hf j Hj) as (Hne & mj & Hmj & Hx).
  split; [done|]. exists mj. by rewrite lookup_insert_ne.
Qed.
Lemma from_waiting_packet h i p p' : p_senderState p' = p_senderState p -> from_waiting h i p -> from_waiting h i p'.
Proof. unfold from_waiting. by intros ->. Qed.

Lemma m_allocate_p now i a n pkt w o aof h m : p_inv ∅ h -> h !! i = Some m -> idle m = true -> from_waiting h i pkt ->
  wp other_err (m_allocate now i a n pkt w o aof) (fun _ => p_inv ∅) h.
Proof.
  intros Hp Hi Hid Hf. unfold m_allocate. pstep. pstep. pstep. apply wp_lift_quiet; [apply quiet_isSecure|]. intros sec _. pstep. pstep.
  set (m1 := mkMSHR _ _ _ _ _ _ _ _ _ _ _ _ _ _ _). pstep.
  eapply wp_mono; [apply (tl_add_p _ _ _ _ _ _ _ _ _ ∅ _ m1)|].
  - apply (p_put ∅ h i m); try done. symmetry. by apply (pi_idle _ h Hp i).
  - apply lookup_insert_eq.
  - intros _. by apply (from_waiting_put h i m).
  - done.
  - cbv beta. intros _ h1 (Hp1 & _ & m2 & Hm2 & _). pstep. pstep. pstep. apply wp_lift_quiet; [apply quiet_front|]. intros p _.
    pstep. apply wp_lift_quiet; [apply quiet_match|]. intros b _. by pstep.
Qed.

Lemma allocateTarget_p raw now i pkt w o aof h m : p_inv ∅ h -> h !! i = Some m -> from_waiting h i pkt ->
  wp other_err (allocateTarget raw now i pkt w o aof) (fun _ => p_inv ∅) h.
Proof.
  intros Hp Hi Hf. unfold allocateTarget. pstep. pstep. intros _. pstep. pstep. pstep. apply wp_lift_quiet; [apply quiet_must_defer|].
  intros [] _.
  - pstep. apply (wp_mono _ _ (fun p h' => same_packet pkt p /\ h' = h)).
    + destruct (m_inService m); [|by pstep]. pstep. apply wp_lift_quiet; [apply quiet_inService|]. intros [] _; [|by pstep].
      apply wp_lift_quiet; [apply quiet_replaceUpgrade|]. intros p Ep. by pose proof (safe_ok _ _ _ (replaceUpgrade_safe raw pkt) Ep).
    + intros p h' [(_ & _ & Hss) ->]. eapply wp_mono; [apply (tl_add_p _ _ _ _ _ _ _ _ _ ∅ h m)|]; try done; [|by intros _ h' [? _]].
      intros _. by apply (from_waiting_packet h i pkt).
  - eapply wp_mono; [apply (tl_add_p _ _ _ _ _ _ _ _ _ ∅ h m)|]; try done; [|by intros _ h' [? _]].
    intros _ _ Hs Hv. by rewrite Hv in Hs.
Qed.

(** *** Snoops *)

Lemma tups_same h l l' : Forall2 same_target l l' -> tups h l' = tups h l.
Proof.
  induction 1 as [|t t' l l' (p & -> & _ & _ & Hp) _ IH]; [done|].
  assert (up h (set_mt_pkt p t) = up h t) as E by (unfold up, mt_pkt in *; simpl; by rewrite Hp).
  change (set_mt_pkt p t :: l') with ([set_mt_pkt p t] ++ l'). change (t :: l) with ([t] ++ l). rewrite !tups_app, IH. unfold tups. simpl. by rewrite E.
Qed.
Lemma tl_empty_same l l' : Forall2 same_target (tl_list l) (tl_list l') -> tl_empty l' = tl_empty l.
Proof. unfold tl_empty. by destruct 1. Qed.

(** Upgrades among the targets or the deferred targets are replaced. *)
Lemma replaced_p h i m l d : p_inv ∅ h -> h !! i = Some m -> Forall2 same_target (tl_list (m_targets m)) (tl_list l) ->
  Forall2 same_target (tl_list (m_deferredTargets m)) (tl_list d) -> p_inv ∅ (<[i := set_m_deferredTargets d (set_m_targets l m)]> h).
Proof.
  intros Hp Hi Hl Hd. apply (p_put ∅ h i m); try done.
  - unfold ups. simpl. by rewrite (tups_same h _ _ Hl), (tups_same h _ _ Hd).
  - intros _ Hs Hpd. simpl. rewrite (tups_same h _ _ Hl). apply (pi_sent _ h Hp i m); [set_solver|done..].
  - unfold idle. simpl. rewrite (tl_empty_same _ _ Hl), (tl_empty_same _ _ Hd). apply (pi_idle _ h Hp i m Hi).
Qed.

Lemma post_flag_p i h (b : bool) f (Q : unit -> Heap -> Prop) : (f = set_postInvalidate true \/ f = set_postDowngrade true) ->
  p_inv ∅ h -> is_Some (h !! i) -> (forall h', p_inv ∅ h' -> is_Some (h' !! i) -> Q tt h') -> wp other_err (if b then m ← load i; store i (f m) else mret tt) Q h.
Proof.
  intros Hf Hp [m Hm] HQ. destruct b; [|pstep; apply HQ; [done|by eexists]]. pstep. pstep. pstep. apply HQ; [|rewrite lookup_insert_eq; by eexists].
  assert (ups h (f m) = ups h m /\ m_targets (f m) = m_targets m /\ idle (f m) = idle m /\ downstreamPending (f m) = downstreamPending m /\ m_inService (f m) = m_inService m)
    as (E1 & E2 & E3 & E4 & E5) by (by destruct Hf as [-> | ->]).
  apply (p_put ∅ h i m); rewrite ?E1, ?E2, ?E3, ?E4, ?E5; try done.
  - intros _. apply (pi_sent _ h Hp i m); [set_solver|done].
  - by apply (pi_idle _ h Hp i m).
Qed.

Lemma copy_sender raw pkt p : copy_Pkt raw pkt true true = Ok p -> p_senderState p = p_senderState pkt.
Proof.
  unfold copy_Pkt. cbv zeta. destruct (p_isSet STATIC_DATA pkt); [by intros [= <-]|].
  intros E. by destruct (safe_ok _ _ _ (allocate_safe raw _) E) as (_ & _ & _ & ->).
Qed.
Lemma block_sender id r c n : p_senderState (new_Pkt_block id r c n) = [].
Proof. unfold new_Pkt_block. cbv zeta. by destruct (hasPaddr r). Qed.

Lemma snoop_reply_p raw now i pkt o (pm : bool) h m (Q : Pkt -> Heap -> Prop) : p_inv ∅ h -> h !! i = Some m ->
  (downstreamPending m = true -> from_waiting h i pkt) -> (forall p h', p_inv ∅ h' -> is_Some (h' !! i) -> Q p h') ->
  wp other_err (let will_respond := pm && needsResponse (p_cmd pkt) && negb (isClean (p_cmd pkt)) in
     cp_pkt ← (if will_respond then lift (copy_Pkt raw pkt true true)
               else mret (new_Pkt_block (p_id pkt) (copy_Request (p_req pkt)) (p_cmd pkt) (sgn 32 (m_blkSize m))));
     pkt ← (if will_respond then p ← lift (setCacheResponding pkt); lift (setResponderHadWritable p)
            else if pm && isClean (p_cmd pkt) then lift (setSatisfied pkt) else mret pkt);
     tl_add now i false cp_pkt now o FromSnoop (downstreamPending m && tl_needsWritable (m_targets m)) false;;
     nw ← lift (pkt_needsWritable pkt);
     (if nw || isInvalidate (p_cmd pkt) then m ← load i; store i (set_postInvalidate true m) else mret tt);;
     mret pkt) Q h.
Proof.
  intros Hp Hi Hf HQ. cbv zeta. set (wr := pm && _ && _). pstep.
  apply (wp_mono _ _ (fun cp h' => (downstreamPending m = true -> from_waiting h i cp) /\ h' = h)).
  { destruct wr; [apply wp_lift_quiet; [apply quiet_copy|]|pstep].
    - intros p Ep. split; [|done]. intros Hd. apply (from_waiting_packet h i pkt); [by apply (copy_sender raw)|auto].
    - split; [|done]. intros _ j. by rewrite block_sender. }
  intros cp h' [Hcp ->]. pstep. apply (wp_mono _ _ (fun p h' => h' = h)).
  { destruct wr; [|destruct (pm && _)].
    - pstep. apply wp_lift_quiet; [apply quiet_snoop_flags|]. intros p _. by apply wp_lift_quiet; [apply quiet_snoop_flags|].
    - by apply wp_lift_quiet; [apply quiet_snoop_flags|].
    - by pstep. }
  intros p h' ->. pstep. eapply wp_mono; [apply (tl_add_p _ _ _ _ _ _ _ _ _ ∅ h m); try done|].
  - intros [Hd _]%andb_true_iff. auto.
  - by intros _ _ [Hd _]%andb_true_iff.
  - cbv beta. intros _ h1 (Hp1 & _ & m1 & Hm1 & _). pstep. apply wp_lift_quiet; [apply quiet_needsWritable|]. intros nw _. pstep.
    apply (post_flag_p i h1 _ (set_postInvalidate true)); [by left|done|by eexists|]. intros h2 Hp2 Hm2. pstep. by apply HQ.
Qed.

Lemma snoop_after_p raw now i pkt o inv h m : p_inv ∅ h -> h !! i = Some m -> (downstreamPending m = true -> from_waiting h i pkt) ->
  wp other_err (snoop_after raw now i pkt o inv) (fun _ => p_inv ∅) h.
Proof.
  intros Hp Hi Hf. unfold snoop_after. pstep. pstep. pstep.
  apply (wp_mono _ _ (fun _ h' => p_inv ∅ h' /\ exists m', h' !! i = Some m' /\ (downstreamPending m' = true -> from_waiting h' i pkt))).
  { destruct inv; [|pstep; eauto]. pstep. apply wp_lift_quiet; [apply quiet_replaceUpgrades|]. intros l El. pstep.
    destruct (safe_ok _ _ _ (replaceUpgrades_safe raw _) El) as [Hl _]. split.
    - apply (p_put ∅ h i m); try done.
      + unfold ups. simpl. by rewrite (tups_same h _ _ Hl).
      + intros _. apply (pi_sent _ h Hp i m); [set_solver|done].
      + unfold idle. simpl. rewrite (tl_empty_same _ _ Hl). apply (pi_idle _ h Hp i m Hi).
    - eexists. split; [apply lookup_insert_eq|]. intros Hd. apply (from_waiting_put h i m); auto. }
  intros _ h1 (Hp1 & m1 & Hm1 & Hf1). pstep. pstep. pstep. apply wp_lift_quiet; [apply quiet_front|]. intros tp _. pstep.
  apply wp_lift_quiet; [apply quiet_inService|]. intros pi _. destruct (_ || _); [by pstep|]. pstep. apply wp_lift_quiet; [apply quiet_inService|].
  intros pm _. pstep. apply (wp_mono _ _ (fun _ h' => p_inv ∅ h' /\ is_Some (h' !! i))).
  - destruct (_ || _); [|pstep; split; [done|by eexists]]. by apply (snoop_reply_p raw now i pkt o _ h1 m1).
  - intros p h2 [Hp2 [m2 Hm2]]. pstep. apply wp_lift_quiet; [apply quiet_needsWritable|]. intros nw _. destruct (_ && _); [|by pstep].
    pstep. pstep. pstep. pstep. pstep. apply (p_put ∅ h2 i m2); try done.
    + intros _. apply (pi_sent _ h2 Hp2 i m2); [set_solver|done].
    + apply (pi_idle _ h2 Hp2 i m2 Hm2).
Qed.

Lemma handleSnoop_p raw now i pkt o h m : p_inv ∅ h -> h !! i = Some m -> (downstreamPending m = true -> from_waiting h i pkt) ->
  wp other_err (m_handleSnoop raw now i pkt o) (fun _ => p_inv ∅) h.
Proof.
  intros Hp Hi Hf. unfold m_handleSnoop. pstep. apply wp_lift_quiet; [apply quiet_needsWritable|]. intros nw _. pstep. pstep. intros _.
  pstep. pstep. destruct (_ || _); [|by apply (snoop_after_p raw now i pkt o _ h m)]. pstep. apply (wp_mono _ _ (fun _ => p_inv ∅)); [|by intros; pstep].
  destruct (nw || _); [|by pstep]. pstep. apply wp_lift_quiet; [apply quiet_replaceUpgrades|]. intros l El. pstep.
  apply wp_lift_quiet; [apply quiet_replaceUpgrades|]. intros d Ed. pstep.
  destruct (safe_ok _ _ _ (replaceUpgrades_safe raw _) El) as [Hl _]. destruct (safe_ok _ _ _ (replaceUpgrades_safe raw _) Ed) as [Hd _].
  by apply (replaced_p h i m).
Qed.

(** *** Sending *)

Lemma markInService_p i pm h m : p_inv ∅ h -> h !! i = Some m -> idle m = false ->
  wp other_err (m_markInService i pm) (fun _ => p_inv ∅) h.
Proof.
  intros Hp Hi Hid. unfold m_markInService. pstep. pstep. pstep. pstep. intros _. pstep. pstep. set (m1 := set_postInvalidate _ _).
  assert (p_inv {[i]} (<[i := m1]> h)) as Hp1.
  { apply (p_put {[i]} h i m); try done; [by apply p_inv_open|set_solver|]. change (idle m1) with (idle m). congruence. }
  assert (forall h' m', p_inv {[i]} h' -> h' !! i = Some m' -> (downstreamPending m' = false -> tups h' (tl_list (m_targets m')) = []) ->
    p_inv ∅ (<[i := set_wasWholeLineWrite (m_isWholeLineWrite m') m']> h')) as Hend.
  { intros h' m' Hp' Hm' Ht. apply (p_inv_close i).
    - apply (p_put {[i]} h' i m'); try done. apply (pi_idle _ h' Hp' i m' Hm').
    - rewrite lookup_insert_eq. intros ? [= <-] _ Hd. rewrite (tups_dom h' _ _ (same_dom_insert h' i m' _ Hm')). auto. }
  pstep. destruct (downstreamPending m1) eqn:Hd; simpl.
  - pstep. pstep. apply (loadp i _ _ m1); [apply lookup_insert_eq|]. pstep. apply Hend; [done|apply lookup_insert_eq|congruence].
  - destruct (tl_clear_p _ i m1 false (length (tl_list (m_targets m1))) Hp1 (lookup_insert_eq _ _ _) Hd ltac:(done))
      as (h2 & m2 & E & Hp2 & Hs & Hm2 & Hd2 & _ & Ht).
    apply (wp_run _ _ _ _ _ _ E). pstep. pstep. pstep. apply Hend; [done|done|]. intros _. rewrite take_ge in Ht; [done|].
    destruct (same_shape_lookup _ _ _ _ Hs (lookup_insert_eq h i m1)) as (m3 & Hm3 & Hs3). assert (m3 = m2) as -> by congruence.
    pose proof (list_of_shape false _ _ Hs3) as Hlen. simpl in *. lia.
Qed.

(** *** Responses *)

(** A register whose response has come: sent, not pending, so that none of its targets is marked. *)
Definition answered (i : nat) (h : Heap) : Prop :=
  p_inv ∅ h /\ exists m, h !! i = Some m /\ m_inService m = true /\ downstreamPending m = false.
Lemma answered_unmarked i h m : answered i h -> h !! i = Some m -> m_inService m = true /\ downstreamPending m = false /\ tups h (tl_list (m_targets m)) = [].
Proof.
  intros [Hp (m' & Hm' & Hs & Hd)] Hm. assert (m' = m) as -> by congruence. split; [done|]. split; [done|]. apply (pi_sent _ h Hp i m); [set_solver|done..].
Qed.
Lemma answered_put i h m m' : answered i h -> h !! i = Some m -> m_inService m' = true -> downstreamPending m' = false ->
  tups h (tl_list (m_targets m')) = [] -> tups h (tl_list (m_deferredTargets m')) = tups h (tl_list (m_deferredTargets m)) -> answered i (<[i := m']> h).
Proof.
  intros Ha Hi Hs Hd Ht Hdt. destruct (answered_unmarked i h m Ha Hi) as (Hs0 & Hd0 & Ht0). split; [|exists m'; by rewrite lookup_insert_eq].
  apply (p_put ∅ h i m); try done; [apply Ha| |congruence]. unfold ups. by rewrite Ht, Ht0, Hdt.
Qed.

Lemma prefix_le pred l n : prefix_where pred l = Ok n -> (n <= length l)%nat.
Proof.
  revert n. induction l as [|t l IH]; simpl; intros n; [intros [= <-]; lia|]. destruct (pred t) as [[]|]; simpl; [|intros [= <-]; lia|done].
  destruct (prefix_where pred l) as [k|]; simpl; [|done]. intros [= <-]. pose proof (IH k eq_refl). lia.
Qed.
Lemma splice_tups h n m : tups h (tl_list (m_targets (splice n m))) = tups h (tl_list (m_targets m)) ++ tups h (take n (tl_list (m_deferredTargets m)))
  /\ tups h (tl_list (m_deferredTargets (splice n m))) = tups h (drop n (tl_list (m_deferredTargets m))).
Proof. unfold splice. simpl. by rewrite tups_app. Qed.
Lemma populate_list l l' : populateFlags l = Ok l' -> tl_list l' = tl_list l.
Proof. intros E. by destruct (safe_ok _ _ _ (populateFlags_safe l) E) as [(? & _) _]. Qed.

Lemma promoteIf_p i pred h : answered i h -> (forall t, quiet (pred t)) -> wp other_err (promoteIf i pred) (fun _ => answered i) h.
Proof.
  intros Ha Hq. pose proof Ha as [Hp (m & Hm & Hs & Hd)]. unfold promoteIf. pstep. pstep. pstep. rewrite Hd. apply wp_ret. pstep.
  apply wp_lift_quiet; [by apply quiet_prefix|]. intros n Hn. apply prefix_le in Hn. pstep.
  destruct (tl_clear_p h i m true n (p_inv_open _ h Hp) Hm Hd Hn) as (h1 & m1 & E & Hp1 & Hs1 & Hm1 & Hd1 & Ho & Ht).
  apply (wp_run _ _ _ _ _ _ E). pstep. pstep. pstep. apply wp_lift_quiet; [apply quiet_populate|]. intros d Ed%populate_list. pstep.
  destruct (answered_unmarked i h m Ha Hm) as (_ & _ & Htm). simpl in Ho, Ht.
  assert (tups h1 (tl_list (m_targets m1)) = []) as Ht1 by (rewrite Ho, (tups_dom h h1); [done|by apply dom_shape]).
  assert (m_inService m1 = true) as Hs1'.
  { destruct (same_shape_lookup _ _ _ _ Hs1 Hm) as (m2 & Hm2 & Hs2). assert (m2 = m1) as -> by congruence. by destruct (shape_keys _ _ Hs2) as (_ & _ & _ & -> & _). }
  assert (answered i h1) as Ha1.
  { split; [|by exists m1]. apply (p_inv_close i); [done|]. intros ? Hx _ _. congruence. }
  apply (answered_put i h1 m1); try done.
  - destruct (splice_tups h1 n m1) as [E1 _]. change (m_targets (set_m_deferredTargets d (splice n m1))) with (m_targets (splice n m1)).
    by rewrite E1, Ht1, Ht.
  - simpl. rewrite Ed. destruct (splice_tups h1 n m1) as [_ ->]. rewrite <- (take_drop n (tl_list (m_deferredTargets m1))) at 2. by rewrite tups_app, Ht.
Qed.

Lemma promoteReadable_p i h : answered i h -> wp other_err (promoteReadable i) (fun _ => answered i) h.
Proof.
  intros Ha. pose proof Ha as [Hp (m & Hm & Hs & Hd)]. unfold promoteReadable. pstep. pstep. destruct (tl_empty _); [by pstep|]. pstep.
  apply wp_lift_quiet; [apply quiet_inService|]. intros [] _; [by pstep|]. apply promoteIf_p; [done|]. intros t. unfold from_cpu. quiet_auto.
  apply quiet_needsWritable.
Qed.
Lemma promoteWritable_p i h : answered i h -> wp other_err (promoteWritable i) (fun _ => answered i) h.
Proof.
  intros Ha. pose proof Ha as [Hp (m & Hm & Hs & Hd)]. unfold promoteWritable. pstep. pstep. destruct (negb _); [by pstep|]. pstep.
  apply wp_lift_quiet; [apply quiet_inService|]. intros inv _. pstep. apply (wp_mono _ _ (fun _ h' => h' = h)).
  { destruct inv; [by pstep|]. by apply wp_lift_quiet; [apply quiet_inService|]. }
  intros dg h' ->. destruct (_ || _); [by pstep|]. destruct (tl_list (m_deferredTargets m)) as [|t l]; [by apply wp_throw|].
  destruct (isCacheInvalidate _); [by pstep|]. pstep. pstep. intros _. pstep. pstep.
  destruct (answered_unmarked i h m Ha Hm) as (_ & _ & Ht). apply promoteIf_p; [by apply (answered_put i h m)|]. intros t'. unfold from_cpu. quiet_auto.
Qed.

Lemma take_snoops_tups h l r k : take_snoops l = Ok (r, k) -> tups h l = [] -> tups h k = [].
Proof.
  revert r k. induction l as [|t l IH]; simpl; intros r k; [by intros [= <- <-]|]. unfold tups in *. simpl.
  destruct (mt_source t); [| |done]; (destruct (take_snoops l) as [[r' k']|]; simpl; [|done]); intros [= <- <-]; destruct (up h t) eqn:Hu; try done; intros Hl.
  - simpl. rewrite Hu. by apply (IH r').
  - by apply (IH r').
Qed.
Lemma extract_p i junk pkt h : answered i h -> wp other_err (extractServiceableTargets i junk pkt) (fun _ => answered i) h.
Proof.
  intros Ha. pose proof Ha as [Hp (m & Hm & Hs & Hd)]. destruct (answered_unmarked i h m Ha Hm) as (_ & _ & Ht).
  unfold extractServiceableTargets. pstep. pstep. pstep. apply wp_lift_quiet.
  { case_decide; [|done]. destruct (tl_list (m_targets m)) as [|t l]; [done|]. apply quiet_bind; [by apply quiet_assert|]. intros _.
    apply quiet_bind; [apply quiet_take_snoops|]. intros [r k]. apply quiet_bind; [apply quiet_populate|]. done. }
  intros [l rest] El. pstep. apply wp_lift_quiet; [apply quiet_populate|]. intros rest' Er%populate_list. pstep. pstep. pstep.
  apply (answered_put i h m); try done. simpl. rewrite Er. revert El. case_decide; [|by intros [= <- <-]].
  destruct (tl_list (m_targets m)) as [|t ts]; [done|]. destruct (_ || _); [|done]. simpl. destruct (take_snoops ts) as [[r k]|] eqn:Ek; [|done]. simpl.
  destruct (populateFlags _); [|done]. simpl. intros [= <- <-]. simpl. apply (take_snoops_tups h ts r k Ek). unfold tups in *. simpl in Ht. by destruct (up h t).
Qed.

(** ** The queue *)

Lemma quiet_iterator {A} (o : option A) : quiet (iterator o).
Proof. by destruct o. Qed.
Ltac qpstep :=
  lazymatch goal with
  | |- wp _ (mbind _ _) _ _ => apply wp_bind
  | |- wp _ (mret _) _ _ => apply wp_ret
  | |- wp _ (gets _) _ _ => apply wp_gets
  | |- wp _ get _ _ => apply (wp_gets _ id)
  | |- wp _ (modify _) _ _ => apply wp_modify
  | |- wp _ (on_queue _) _ _ => apply wp_modify
  | |- wp _ (put_entry _ _) _ _ => apply wp_modify
  | |- wp _ (on_store _) _ _ => apply wp_on_store
  | |- wp _ (the_entry _) _ _ => eapply the_entry_wp; [eassumption|]
  | |- wp _ (lift (iterator _)) _ _ => apply wp_lift_quiet; [apply quiet_iterator|intros ? _]
  | |- wp _ (assert_ _ _) _ _ => apply wp_assert; [vm_compute; reflexivity|intros _]
  | |- wp _ (when_ _ _) _ _ => apply wp_when; intros _
  end; cbv beta.

(** Operations that only rearrange lists of the queue. *)
Definition store_is (h : Heap) {A} (_ : A) (s : QS MSHR) : Prop := q_store s = h.
Lemma addToReady_p i s : wp other_err (addToReadyList i) (store_is (q_store s)) s.
Proof.
  unfold addToReadyList. qpstep. qpstep. qpstep. apply wp_lift_quiet; [|intros l _; by qpstep]. unfold place_ready. quiet_auto.
Qed.
Lemma enlist_p i s : wp other_err (enlist i) (store_is (q_store s)) s.
Proof.
  unfold enlist. qpstep. qpstep. qpstep. eapply wp_mono; [apply addToReady_p|]. intros ? s1 Hs1. by qpstep.
Qed.
Lemma deallocate_p i s m : p_inv ∅ (q_store s) -> q_store s !! i = Some m -> downstreamPending m = false ->
  (m_inService m = true -> tups (q_store s) (tl_list (m_targets m)) = []) -> wp other_err (deallocate i) (fun _ s' => p_inv ∅ (q_store s')) s.
Proof.
  intros Hp Hi Hd Ht. unfold deallocate. do 11 qpstep. apply (the_entry_wp _ i _ _ m); [done|]. qpstep.
  apply (wp_mono _ _ (store_is (q_store s))); [destruct (qe_inService m); repeat qpstep; done|]. intros ? s1 Hs1. qpstep.
  apply wp_lift_quiet.
  { simpl. unfold m_deallocate. quiet_auto. }
  intros m' Em. assert (m' = set_m_inService false (set_m_targets (resetFlags (m_targets m)) m)) as ->.
  { simpl in Em. unfold m_deallocate in Em. destruct (tl_empty _); [|done]. simpl in Em. destruct (isReset _); [|done]. by injection Em. }
  qpstep. qpstep. rewrite Hs1. set (m' := set_m_inService _ _).
  assert (p_inv ∅ (<[i := m']> (q_store s))) as Hp' by (by apply (p_put ∅ _ i m)).
  unfold q_signalDrainDone. by repeat qpstep.
Qed.

Lemma promoteDeferred_ups now m b m' : promoteDeferredTargets now m = Ok (b, m') ->
  (forall h, ups h m' = ups h m) /\ downstreamPending m' = downstreamPending m /\ m_inService m' = m_inService m
  /\ (if b then idle m' = false else m' = m /\ idle m = true).
Proof.
  unfold promoteDeferredTargets. destruct (tl_empty (m_targets m) && tl_empty (m_deferredTargets m)) eqn:He; [by intros [= <- <-]|].
  set (m1 := match before_maintenance _ with O => _ | _ => _ end). intros E.
  assert (downstreamPending m1 = downstreamPending m /\ m_inService m1 = m_inService m /\ forall h, ups h m1 = ups h m) as (H1 & H2 & H3).
  { assert (forall n h, ups h (splice n m) = ups h m) as Hsp.
    { intros n h. unfold ups. destruct (splice_tups h n m) as [-> ->]. by rewrite <- app_assoc, <- tups_app, take_drop. }
    unfold m1. destruct (before_maintenance _); [destruct (tl_empty _)|]; done. }
  destruct (populateFlags (m_deferredTargets m1)) as [d|] eqn:Ed; [|done]. destruct (populateFlags (m_targets m1)) as [l|] eqn:El; [|done].
  apply populate_list in Ed, El. simpl in E. destruct (tl_list l) as [|t ts] eqn:Hl; [done|]. injection E as <- <-. simpl. split; [|split; [done|split; [done|]]].
  - intros h. rewrite <- H3. unfold ups. simpl. by rewrite Hl, Ed, El.
  - unfold idle, tl_empty. simpl. by rewrite Hl.
Qed.

(** Deferred targets move up. *)
Lemma promote_entry_p i s m (Q : bool -> QS MSHR -> Prop) : q_store s !! i = Some m ->
  (forall (b : bool) m', (forall h, ups h m' = ups h m) -> downstreamPending m' = downstreamPending m -> m_inService m' = m_inService m ->
     (if b then idle m' = false else m' = m /\ idle m = true) -> Q b (set_store (<[i := m']> (q_store s)) s)) ->
  wp other_err (now ← gets q_now; on_entry i (promoteDeferredTargets now)) Q s.
Proof.
  intros Hi HQ. qpstep. qpstep. unfold on_entry. qpstep. qpstep. qpstep. apply wp_lift_quiet; [apply quiet_promoteDeferred|].
  intros [b m'] (H1 & H2 & H3 & H4)%promoteDeferred_ups. qpstep. qpstep. qpstep. by apply HQ.
Qed.
Lemma wp_assoc {S A B C} E (m : M S A) (f : A -> M S B) (g : B -> M S C) Q s :
  wp E ((x ← m; f x) ≫= g) Q s -> wp E (x ← m; y ← f x; g y) Q s.
Proof. unfold wp, mbind, M_bind. by destruct (m s) as [[a s']|]. Qed.

Lemma markPending_p i s m : p_inv {[i]} (q_store s) -> q_store s !! i = Some m -> idle m = false ->
  wp other_err (markPending i) (fun _ s' => p_inv ∅ (q_store s')) s.
Proof.
  intros Hp Hi Hid. unfold markPending. qpstep. qpstep. do 6 qpstep. eapply wp_mono; [apply addToReady_p|]. intros ? s1 Hs1. unfold store_is in Hs1. rewrite Hs1.
  apply (p_inv_close i); simpl; [|rewrite lookup_insert_eq; by intros ? [= <-]].
  apply (p_put {[i]} _ i m); try done. change (idle (set_m_inService false m)) with (idle m). congruence.
Qed.

Lemma respond_p i junk pkt rd wr s : answered i (q_store s) -> wp other_err (mq_respond i junk pkt rd wr) (fun _ s' => p_inv ∅ (q_store s')) s.
Proof.
  intros Ha. unfold mq_respond. qpstep. apply wp_when_store. apply (wp_mono _ _ (fun _ => answered i)).
  { qpstep; [by apply promoteReadable_p|done]. }
  intros _ h1 Ha1. qpstep. apply wp_when_store. apply (wp_mono _ _ (fun _ => answered i)).
  { qpstep; [by apply promoteWritable_p|done]. }
  intros _ h2 Ha2. qpstep. qpstep. eapply wp_mono; [by apply extract_p|]. cbv beta. intros l h3 Ha3. simpl.
  pose proof Ha3 as [Hp3 (m & Hm & Hsv & Hd)]. destruct (answered_unmarked i h3 m Ha3 Hm) as (_ & _ & Ht). apply wp_assoc. qpstep.
  apply (promote_entry_p i _ m); [done|]. intros b m' Hu Hd' Hs' Hb. simpl. qpstep.
  apply (wp_mono _ _ (fun _ s' => p_inv ∅ (q_store s'))); [|intros _ s' Hs2; by qpstep]. destruct b.
  - apply (markPending_p i _ m'); simpl; [|apply lookup_insert_eq|done].
    apply (p_put {[i]} _ i m); try done; [by apply p_inv_open|by rewrite Hu|set_solver|congruence].
  - destruct Hb as [-> _]. rewrite insert_id by done. by apply (deallocate_p i _ m).
Qed.

Lemma ups_pop h t l m : tl_list (m_targets m) = t :: l -> up h t = None -> ups h (set_m_targets (set_tl_list l (m_targets m)) m) = ups h m.
Proof. intros El Hu. unfold ups. simpl. rewrite El. unfold tups at 3. simpl. by rewrite Hu. Qed.

Lemma force_p i s m t l : p_inv ∅ (q_store s) -> q_store s !! i = Some m -> m_inService m = false -> downstreamPending m = false ->
  tl_list (m_targets m) = t :: l -> up (q_store s) t = None -> wp other_err (forceDeallocateTarget i) (fun _ s' => p_inv ∅ (q_store s')) s.
Proof.
  intros Hp Hi Hsv Hd El Hu. unfold forceDeallocateTarget. do 7 qpstep. unfold on_entry at 1. do 3 qpstep. unfold m_popTarget. rewrite El.
  apply wp_lift_quiet; [done|]. intros [[] m1] [= <-]. set (m1 := set_m_targets _ m). do 4 qpstep.
  apply (the_entry_wp _ i _ _ m1); [apply lookup_insert_eq|]. qpstep. simpl.
  assert (p_inv ∅ (<[i := m1]> (q_store s))) as Hp1.
  { apply (p_put ∅ _ i m); try done; [unfold m1; by rewrite (ups_pop _ t l m El Hu)|]. change (m_inService m1) with (m_inService m). congruence. }
  apply (wp_mono _ _ (fun _ s' => p_inv ∅ (q_store s'))); [|intros _ s' Hs'; by repeat qpstep].
  destruct (m_hasTargets m1); [by qpstep|]. apply wp_assoc. qpstep. apply (promote_entry_p i _ m1); [apply lookup_insert_eq|].
  intros b m' Hu' Hd' Hs' Hb. simpl. destruct b.
  - qpstep. simpl. apply (p_put ∅ _ i m1); try done; [apply lookup_insert_eq|by rewrite Hu'|rewrite Hs'; change (m_inService m1) with (m_inService m); congruence|congruence].
  - destruct Hb as [-> _]. apply (deallocate_p i _ m1); simpl; rewrite ?insert_insert_eq; try done; [apply lookup_insert_eq|].
    change (m_inService m1) with (m_inService m). congruence.
Qed.

(** What the registers of other caches must be for an operation: a packet comes
    from a register that waits and is not pending yet; a response comes to a
    register that is not pending; a prefetch is dropped before it is sent. *)
Definition p_allowed (op : mq_op) (s : QS MSHR) : Prop :=
  let h := q_store s in
  match op with
  | QAllocate _ _ pkt _ _ _ => forall i, hd_error (freeList (q_queue s)) = Some i -> from_waiting h i pkt
  | QTarget _ i pkt _ _ _ => from_waiting h i pkt
  | QSnoop _ i pkt _ => forall m, h !! i = Some m -> downstreamPending m = true -> from_waiting h i pkt
  | QRespond i _ _ _ _ => forall m, h !! i = Some m -> downstreamPending m = false
  | QForce i => forall m, h !! i = Some m -> downstreamPending m = false /\ tups h (take 1 (tl_list (m_targets m))) = []
  | QSend _ _ | QFront _ | QDelay _ _ | QTime _ => True
  end.

Lemma mq_step_p op s : mq_inv s -> p_inv ∅ (q_store s) -> mq_allowed op s -> p_allowed op s ->
  wp other_err (mq_step op) (fun _ s' => p_inv ∅ (q_store s')) s.
Proof.
  intros Hs Hp Ha Hpa. pose proof (mi_queue s Hs) as Hq.
  assert (forall i, i ∈ readyList (q_queue s) -> exists m, q_store s !! i = Some m /\ m_inService m = false /\ tkeys m <> []) as Hready.
  { intros i (Hal & m0 & Hm0 & Hsv)%(qi_ready s Hq). destruct (mi_used s Hs i Hal) as (m & Hm & _ & Ht). assert (m0 = m) as -> by congruence. eauto. }
  assert (forall m, tkeys m <> [] -> idle m = false) as Hid by (intros m; unfold tkeys, idle, tl_empty; by destruct (tl_list (m_targets m))).
  destruct op as [a n pkt w o aof|raw i pkt w o aof|raw i pkt o|i pm|i junk pkt rd wr|i|i|i t|t]; simpl in Ha, Hpa |- *; qpstep.
  - unfold MSHRQueue_allocate. do 2 qpstep. destruct (freeList (q_queue _)) as [|i fl] eqn:Hf; [done|]. unfold id in Hf.
    destruct (mi_free s Hs i) as (m & Hm & Ht & Hd); [rewrite Hf; by left|]. do 8 qpstep. simpl.
    eapply wp_mono; [apply (m_allocate_p (q_now s) i a n pkt w o aof _ m Hp Hm)|].
    + unfold idle, tkeys, dkeys in *. by rewrite (proj2 (tl_empty_keys _) Ht), (proj2 (tl_empty_keys _) Hd).
    + by apply Hpa.
    + intros ? h1 Hp1. qpstep. eapply wp_mono; [apply enlist_p|]. intros ? s1 Hs1. unfold store_is in Hs1. do 2 qpstep. by rewrite Hs1.
  - destruct (mi_used s Hs i Ha) as (m & Hm & _). do 3 qpstep. eapply wp_mono; [by apply (allocateTarget_p raw _ i pkt w o aof _ m)|]. intros ? h' Hh'. by qpstep.
  - destruct (mi_used s Hs i Ha) as (m & Hm & _). do 3 qpstep. eapply wp_mono; [apply (handleSnoop_p raw _ i pkt o _ m Hp Hm (Hpa m Hm))|]. intros ? h' Hh'. by qpstep.
  - destruct (Hready i Ha) as (m & Hm & _ & Ht). unfold mq_markInService. do 2 qpstep. eapply wp_mono; [apply (markInService_p i pm _ m Hp Hm (Hid m Ht))|].
    intros ? h' Hh'. by repeat qpstep.
  - destruct Ha as [Ha Hr]. destruct (mi_used s Hs i Ha) as (m & Hm & _). eapply wp_mono; [apply respond_p|intros ? s' Hs'; by qpstep].
    split; [done|]. exists m. split; [done|]. split; [|auto]. destruct (m_inService m) eqn:E; [done|]. exfalso. apply Hr, (qi_ready s Hq). eauto.
  - destruct (Hready i Ha) as (m & Hm & Hsv & Ht). destruct (Hpa m Hm) as [Hd Hu]. destruct (tl_list (m_targets m)) as [|t l] eqn:El; [by unfold tkeys in Ht; rewrite El in Ht|].
    do 2 qpstep. eapply wp_mono; [apply (force_p i _ m t l); try done|intros ? s' Hs'; by qpstep]. unfold tups in Hu. simpl in Hu. by destruct (up (q_store s) t).
  - destruct (Hready i Ha) as (m & Hm & _). unfold moveToFront. by repeat qpstep.
  - destruct (Hready i Ha) as (m & Hm & Hsv & Ht). unfold mq_delay. do 5 qpstep. unfold m_delay. apply wp_lift_quiet; [quiet_auto|].
    intros m' Em. assert (m' = set_m_readyTime (u64 (q_now s + t)%Z) m) as -> by (unfold id in Em; destruct (m_readyTime m <=? q_now s)%Z; [by injection Em|done]).
    do 8 qpstep. apply (p_put ∅ _ i m); try done; [simpl; congruence|].
    change (idle (set_m_readyTime _ m)) with (idle m). by rewrite (Hid m Ht).
  - by repeat qpstep.
Qed.
