(* ===== verification/MissSystem.v ===== *)
(** * The miss queues of several caches

    The registers of all caches in one store, a miss queue per cache.  A step is an
    operation of one cache; a register of another cache is only reached through the
    sender state of a packet. *)

From S2P Require Import Prelude Hoare EventQ Drain Packet Request PacketData CacheQueue CacheQueueProps MSHR MSHRProps MSHRQueueProps MSHRPending PendingProtocol.
From stdpp Require Import sets gmap.

Record System := mkSystem { sys_now : Z; sys_regs : Heap; sys_queues : list Queue }.
Definition cache_view (sys : System) (q : Queue) : QS MSHR := mkQS (sys_now sys) (sys_regs sys) q.

Definition sys_step (c : nat) (op : mq_op) (sys : System) : res (list TKey * System) :=
  match sys_queues sys !! c with
  | None => Err (EUndefined "cache")
  | Some q =>
      '(served, s) ← mq_step op (cache_view sys q);
      mret (served, mkSystem (q_now s) (q_store s) (<[c := q_queue s]> (sys_queues sys)))
  end.
Definition sys_allowed (c : nat) (op : mq_op) (sys : System) : Prop :=
  exists q, sys_queues sys !! c = Some q /\ mq_allowed op (cache_view sys q) /\ p_allowed op (cache_view sys q).

(** Caches with [num_entries] and [reserve] registers each. *)
Fixpoint new_queues (base : nat) (sizes : list (Z * Z)) : list Queue :=
  match sizes with
  | [] => []
  | (n, r) :: l => new_Queue n r base :: new_queues (base + Z.to_nat (n + r)) l
  end.
Definition sys_init (junk : bool) (sizes : list (Z * Z)) : System :=
  let qs := new_queues 0 sizes in
  mkSystem 0 (list_to_map (map (fun i => (i, new_MSHR junk)) (concat (map q_entries qs)))) qs.

Inductive sys_reach (junk : bool) (sizes : list (Z * Z)) : System -> Prop :=
  | sys_reach_init : sys_reach junk sizes (sys_init junk sizes)
  | sys_reach_step sys c op served sys' : sys_reach junk sizes sys -> sys_allowed c op sys -> sys_step c op sys = Ok (served, sys') ->
      sys_reach junk sizes sys'.

(** The registers marks refer to, over all targets of all registers. *)
Definition marks (h : Heap) : list nat := map_to_list h ≫= (fun x => ups h x.2).

(** ** Entries of a queue *)

Definition keeps_entries {A} (m : MQ A) : Prop := forall s a s', m s = Ok (a, s') -> q_entries (q_queue s') = q_entries (q_queue s).
Lemma entries_bind {A B} (m : MQ A) (f : A -> MQ B) : keeps_entries m -> (forall a, keeps_entries (f a)) -> keeps_entries (m ≫= f).
Proof.
  intros Hm Hf s b s'. unfold mbind, M_bind. destruct (m s) as [[a s1]|] eqn:E; [|done]. intros E2. rewrite (Hf a s1 b s' E2). by apply (Hm s a).
Qed.
Lemma entries_ret {A} (a : A) : keeps_entries (mret a).
Proof. by intros s ? s' [= _ <-]. Qed.
Lemma entries_gets {A} (f : QS MSHR -> A) : keeps_entries (gets f).
Proof. by intros s ? s' [= _ <-]. Qed.
Lemma entries_lift {A} (r : res A) : keeps_entries (lift r).
Proof. intros s ? s'. unfold lift. destruct r; [|done]. by intros [= _ <-]. Qed.
Lemma entries_assert b what : keeps_entries (assert_ b what).
Proof. intros s ? s'. unfold assert_. destruct b; [by intros [= _ <-]|done]. Qed.
Lemma entries_throw {A} e : keeps_entries (throw e : MQ A).
Proof. done. Qed.
Lemma entries_store {A} (m : H A) : keeps_entries (on_store m).
Proof. intros s ? s'. unfold on_store. destruct (m (q_store s)) as [[b h]|]; [|done]. by intros [= _ <-]. Qed.
Lemma entries_entry i : keeps_entries (the_entry i).
Proof. intros s ? s'. unfold the_entry. destruct (q_store s !! i); [|done]. by intros [= _ <-]. Qed.
Lemma entries_put i (m : MSHR) : keeps_entries (put_entry i m).
Proof. by intros s ? s' [= _ <-]. Qed.
Lemma entries_queue f : (forall q, q_entries (f q) = q_entries q) -> keeps_entries (on_queue f).
Proof. intros Hf s ? s' [= _ <-]. apply Hf. Qed.
Lemma entries_when b (m : MQ unit) : keeps_entries m -> keeps_entries (when_ b m).
Proof. intros Hm. destruct b; [done|apply entries_ret]. Qed.

Create HintDb entries.
#[export] Hint Resolve entries_ret entries_gets entries_lift entries_assert entries_throw entries_store entries_entry entries_put : entries.
Ltac entries_auto :=
  repeat (lazymatch goal with
  | |- keeps_entries (mbind _ _) => apply entries_bind; [|intros ?]
  | |- keeps_entries (when_ _ _) => apply entries_when
  | |- keeps_entries get => apply (entries_gets id)
  | |- keeps_entries (on_queue _) => apply entries_queue; intros ?; try (case_decide; reflexivity); reflexivity
  | |- keeps_entries (if ?b then _ else _) => destruct b
  | |- keeps_entries (match ?b with _ => _ end) => destruct b
  | |- keeps_entries (let '(_, _) := ?b in _) => destruct b
  end); auto with entries.

Lemma mq_step_entries op : keeps_entries (mq_step op).
Proof.
  assert (forall i, keeps_entries (addToReadyList i)) as Hready by (intros i; unfold addToReadyList; entries_auto).
  assert (forall i, keeps_entries (deallocate i)) as Hde by (intros i; unfold deallocate, q_signalDrainDone; entries_auto).
  assert (forall i now, keeps_entries (on_entry i (promoteDeferredTargets now))) as Hpr by (intros i now; unfold on_entry; entries_auto).
  assert (forall i, keeps_entries (markPending i)) as Hmp by (intros i; unfold markPending; entries_auto).
  destruct op; simpl; unfold MSHRQueue_allocate, enlist, mq_markInService, mq_respond, forceDeallocateTarget, moveToFront, mq_delay, on_entry in *; entries_auto.
  intros s' ? s2 [= _ <-]. done.
Qed.

(** ** The invariant *)

Record sys_inv (sys : System) : Prop := {
  si_pending : p_inv ∅ (sys_regs sys);
  si_queues : forall c q, sys_queues sys !! c = Some q -> mq_inv (cache_view sys q);
  si_disjoint : forall c c' q q' i, sys_queues sys !! c = Some q -> sys_queues sys !! c' = Some q' -> i ∈ q_entries q -> i ∈ q_entries q' -> c = c'
}.

Lemma mq_inv_now t s : mq_inv s -> mq_inv (mkQS t (q_store s) (q_queue s)).
Proof. intros [[H1 H2 H3 H4 H5 H6 H7 H8] Hu Hf]. split; [by split|done..]. Qed.

(** Only pending flags and marks change in the registers of other caches. *)
Lemma step_other op s served s' j : mq_inv s -> mq_allowed op s -> mq_step op s = Ok (served, s') ->
  j ∉ q_entries (q_queue s) -> shape <$> q_store s !! j = shape <$> q_store s' !! j.
Proof.
  intros Hs Ha E Hj. pose proof (mi_queue s Hs) as Hq. destruct (wp_ok _ _ _ _ _ _ (mq_step_wp op s Hs Ha) E) as (i & acc & Hr & _ & _ & (_ & _ & Hf)).
  assert (forall k, k ∈ allocatedList (q_queue s) \/ k ∈ freeList (q_queue s) -> j <> k) as Hne by (intros k Hk ->; by apply Hj, (qi_member s k Hq)).
  assert (forall k, k ∈ readyList (q_queue s) -> j <> k) as Hner by (intros k (Hk & _)%(qi_ready s Hq); auto).
  destruct op; simpl in Hr, Ha; try subst; try (apply Hf; by auto).
  - apply Hf. destruct (freeList (q_queue s)) as [|k fl]; [done|]. injection Hr as ->. apply Hne. right. by left.
  - destruct Ha as [Ha _]. apply Hf. auto.
  - simpl in E. unfold mbind, M_bind, modify in E. by injection E as _ <-.
Qed.

Lemma sys_step_inv c op sys served sys' : sys_inv sys -> sys_allowed c op sys -> sys_step c op sys = Ok (served, sys') -> sys_inv sys'.
Proof.
  intros [Hp Hqs Hdj] (q & Hq & Ha & Hpa). unfold sys_step. rewrite Hq. pose proof (Hqs c q Hq) as Hs.
  destruct (mq_step op (cache_view sys q)) as [[sv s]|] eqn:E; [|done]. simpl. intros [= <- <-].
  destruct (wp_ok _ _ _ _ _ _ (mq_step_wp op _ Hs Ha) E) as (_ & _ & _ & _ & Hs' & _).
  pose proof (wp_ok _ _ _ _ _ _ (mq_step_p op _ Hs Hp Ha Hpa) E) as Hp'.
  pose proof (mq_step_entries op _ _ _ E) as He. simpl in He.
  assert (forall c1 q1, <[c := q_queue s]> (sys_queues sys) !! c1 = Some q1 ->
    (c1 = c /\ q1 = q_queue s) \/ (c1 <> c /\ sys_queues sys !! c1 = Some q1)) as Hcase.
  { intros c1 q1. destruct (decide (c1 = c)) as [->|Hne]; [|rewrite list_lookup_insert_ne by done; by right].
    rewrite list_lookup_insert_eq by (by apply lookup_lt_Some in Hq). intros [= <-]. by left. }
  assert (forall c1 q1, <[c := q_queue s]> (sys_queues sys) !! c1 = Some q1 -> exists q0, sys_queues sys !! c1 = Some q0 /\ q_entries q1 = q_entries q0) as Hold.
  { intros c1 q1 [[-> ->]|[_ Hq1]]%Hcase; eauto. }
  split; simpl.
  - done.
  - intros c1 q1 H1. destruct (Hcase c1 q1 H1) as [[-> ->]|[Hne Hq1]]; [by destruct s|].
    apply (mq_inv_now _ (set_store (q_store s) (cache_view sys q1))), mq_other; [by apply (Hqs c1)|]. intros i Hi.
    apply (step_other op (cache_view sys q) sv s i Hs Ha E). intros Hi'. apply Hne. by apply (Hdj c1 c q1 q i).
  - intros c1 c2 q1 q2 i H1 H2 Hi1 Hi2. destruct (Hold c1 q1 H1) as (q1' & Hq1 & E1). destruct (Hold c2 q2 H2) as (q2' & Hq2 & E2).
    rewrite E1 in Hi1. rewrite E2 in Hi2. by apply (Hdj c1 c2 q1' q2' i).
Qed.

Lemma new_queues_spec sizes base c q : new_queues base sizes !! c = Some q -> exists n r b, q = new_Queue n r b /\ (n, r) ∈ sizes /\ (base <= b)%nat.
Proof.
  revert base c. induction sizes as [|[n r] sizes IH]; intros base c; [done|]. destruct c as [|c]; simpl.
  - intros [= <-]. exists n, r, base. split; [done|]. split; [by left|lia].
  - intros H. destruct (IH _ _ H) as (n' & r' & b & -> & Hin & Hb). exists n', r', b. split; [done|]. split; [by right|lia].
Qed.
Lemma new_queues_disjoint sizes base c c' q q' i : new_queues base sizes !! c = Some q -> new_queues base sizes !! c' = Some q' ->
  i ∈ q_entries q -> i ∈ q_entries q' -> c = c'.
Proof.
  revert base c c'. induction sizes as [|[n r] sizes IH]; intros base c c'; [done|].
  assert (forall k x, new_queues (base + Z.to_nat (n + r)) sizes !! k = Some x -> i ∈ q_entries (new_Queue n r base) -> i ∈ q_entries x -> False) as Hsep.
  { intros k x Hk Hi Hx. destruct (new_queues_spec _ _ _ _ Hk) as (n' & r' & b & -> & _ & Hb). simpl in *.
    apply elem_of_seq in Hi. apply elem_of_seq in Hx. lia. }
  destruct c as [|c], c' as [|c']; simpl; intros H1 H2 Hi Hi'.
  - done.
  - injection H1 as <-. exfalso. by apply (Hsep c' q').
  - injection H2 as <-. exfalso. by apply (Hsep c q).
  - f_equal. by apply (IH (base + Z.to_nat (n + r))%nat).
Qed.

Lemma init_regs junk l i m : (list_to_map (map (fun j => (j, new_MSHR junk)) l) : Heap) !! i = Some m -> m = new_MSHR junk.
Proof.
  induction l as [|j l IH]; [done|]. simpl. destruct (decide (j = i)) as [->|Hne]; [rewrite lookup_insert_eq; by intros [= <-]|by rewrite lookup_insert_ne].
Qed.
Lemma sys_init_inv junk sizes : Forall (fun x => 0 <= x.1 + x.2)%Z sizes -> sys_inv (sys_init junk sizes).
Proof.
  intros Hsz. set (regs := sys_regs (sys_init junk sizes)).
  assert (forall i m, regs !! i = Some m -> m = new_MSHR junk) as Hnew by (intros i m; apply init_regs). split.
  - fold regs. split.
    + split.
      * intros i m ->%Hnew. constructor.
      * intros i i' m m' j ->%Hnew. by intros _ ?%not_elem_of_nil.
      * intros j m ->%Hnew. split; [done|]. intros [(i & m & ->%Hnew & Hj) _]. by apply not_elem_of_nil in Hj.
    + intros i m _ ->%Hnew. done.
    + intros i m ->%Hnew. done.
  - intros c q Hq. pose proof Hq as (n & r & b & -> & Hin & _)%new_queues_spec.
    rewrite Forall_forall in Hsz. specialize (Hsz _ Hin). simpl in Hsz.
    apply (mq_other (mq_init n r b junk)); [by apply mq_init_inv|]. intros i Hi. simpl in Hi |- *.
    rewrite mq_init_store by done. rewrite mq_init_store; [done|]. apply list_elem_of_In, in_concat.
    exists (q_entries (new_Queue n r b)). split; [|by apply list_elem_of_In]. apply in_map. by apply list_elem_of_In, list_elem_of_lookup_2 with c.
  - intros c c' q q' i. apply new_queues_disjoint.
Qed.

Lemma sys_reach_inv junk sizes sys : Forall (fun x => 0 <= x.1 + x.2)%Z sizes -> sys_reach junk sizes sys -> sys_inv sys.
Proof. intros Hsz. induction 1 as [|sys c op served sys' _ IH Ha E]; [by apply sys_init_inv|by apply (sys_step_inv c op sys served)]. Qed.

Lemma marks_elem h j : j ∈ marks h <-> marked_for h j.
Proof.
  unfold marks. rewrite list_elem_of_bind. split.
  - intros ([i m] & Hj & Hi). apply elem_of_map_to_list in Hi. by exists i, m.
  - intros (i & m & Hi & Hj). exists (i, m). split; [done|]. by apply elem_of_map_to_list.
Qed.
Lemma marks_nodup h : p_core ∅ h -> NoDup (marks h).
Proof.
  intros Hp. apply NoDup_bind.
  - intros [i m] [i' m'] j Hi%elem_of_map_to_list Hi'%elem_of_map_to_list Hj Hj'. assert (i = i') as <- by (by apply (pc_disj _ h Hp i i' m m' j)). congruence.
  - intros [i m] Hi%elem_of_map_to_list. by apply (pc_nodup _ h Hp i).
  - apply NoDup_map_to_list.
Qed.

(** ** The theorem *)

(** C27: Pending flags in a system of caches.  The targets marked as pending and the
    registers flagged [downstreamPending] correspond one to one, over all caches: a
    flag is set exactly if some target somewhere is marked for the register, and
    only one is.  A register that was sent and is not pending has no marked
    targets, so that those who wait for it are not pending because of it.  The
    assertion that a flag about to be cleared is set never fails, the recursion
    through the caches that clears flags ends, and the lists of the queues stay
    right.  What the caches around must do is assumed ([p_allowed]): a packet that
    becomes a target, or is snooped by a pending register, comes from another
    register that has targets and is not flagged; a response comes to a register
    that is not flagged; and a prefetch that is dropped is neither flagged nor
    marked.  The assertions [!mshr->downstreamPending] in [add] and
    [!downstreamPending] in [promoteIf] check these conditions, and nothing is
    claimed about them. *)
Theorem pending_flags_match_marks junk sizes sys : Forall (fun x => 0 <= x.1 + x.2)%Z sizes -> sys_reach junk sizes sys ->
  NoDup (marks (sys_regs sys))
  /\ (forall j m, sys_regs sys !! j = Some m -> downstreamPending m = true <-> j ∈ marks (sys_regs sys))
  /\ (forall j m, sys_regs sys !! j = Some m -> m_inService m = true -> downstreamPending m = false -> tups (sys_regs sys) (tl_list (m_targets m)) = [])
  /\ (forall c op e, sys_allowed c op sys -> sys_step c op sys = Err e ->
        e <> EAssert "downstreamPending" /\ structural e = false).
Proof.
  intros Hsz Hr. pose proof (sys_reach_inv junk sizes sys Hsz Hr) as [Hp Hqs _]. split; [apply marks_nodup, Hp|]. split; [|split].
  - intros j m Hj. rewrite marks_elem, (pc_pend _ _ (pi_core _ _ Hp) j m Hj). set_solver.
  - intros j m. apply (pi_sent _ _ Hp j). set_solver.
  - intros c op e (q & Hq & Ha & Hpa). unfold sys_step. rewrite Hq. pose proof (Hqs c q Hq) as Hs.
    destruct (mq_step op (cache_view sys q)) as [[sv s]|e'] eqn:E; [done|]. simpl. intros [= <-]. split.
    + pose proof (wp_err _ _ _ _ _ (mq_step_p op _ Hs Hp Ha Hpa) E) as He. by intros ->.
    + exact (wp_err _ _ _ _ _ (mq_step_wp op _ Hs Ha) E).
Qed.

(** *** Two caches *)

Definition from_waitingb (h : Heap) (i : nat) (pkt : Pkt) : bool :=
  match first_mshr h (p_senderState pkt) with
  | None => true
  | Some j => negb (Nat.eqb j i) && match h !! j with Some m => negb (downstreamPending m) && negb (idle m) | None => false end
  end.
Lemma from_waitingb_spec h i pkt : from_waitingb h i pkt = true -> from_waiting h i pkt.
Proof.
  unfold from_waitingb. intros Hb j Hj. rewrite Hj in Hb. apply andb_true_iff in Hb as [Hne%negb_true_iff%Nat.eqb_neq Hb]. split; [done|].
  destruct (h !! j) as [m|]; [|done]. exists m. apply andb_true_iff in Hb as [H1%negb_true_iff H2%negb_true_iff]. done.
Qed.

Definition sys_after (c : nat) (op : mq_op) (sys : System) : System := match sys_step c op sys with Ok (_, s) => s | Err _ => sys end.
Lemma sys_reach_after junk sizes c op sys : sys_reach junk sizes sys -> sys_allowed c op sys -> is_ok (sys_step c op sys) = true ->
  sys_reach junk sizes (sys_after c op sys).
Proof.
  intros Hr Ha Hs. unfold sys_after. destruct (sys_step c op sys) as [[x s]|] eqn:E; [|done]. by apply (sys_reach_step junk sizes sys c op x s).
Qed.

(** A read misses in the first cache, whose request misses in the second and waits there. *)
Definition demo_fwd : Pkt := set_p_senderState [0%nat] (demo_pkt 2 ReadSharedReq 0).
Definition demo_sys1 : System := sys_after 0 (QAllocate 128 64 (demo_pkt 1 ReadReq 0) 3 1 true) (sys_init true [(2, 0); (2, 0)]%Z).
Definition demo_sys2 : System := sys_after 1 (QAllocate 128 64 demo_fwd 4 1 true) demo_sys1.
Definition demo_sys3 : System := sys_after 0 (QSend 0 false) demo_sys2.
(** The second cache sends it on. *)
Definition demo_sys4 : System := sys_after 1 (QSend 2 false) demo_sys3.

Lemma demo_allowed c op sys q : sys_queues sys !! c = Some q -> bool_decide (mq_allowed op (cache_view sys q)) = true ->
  match op with QAllocate _ _ pkt _ _ _ => match freeList q with i :: _ => from_waitingb (sys_regs sys) i pkt | [] => true end | QSend _ _ => true | _ => false end = true ->
  sys_allowed c op sys.
Proof.
  intros Hq Ha Hf. exists q. split; [done|]. split; [by apply bool_decide_eq_true_1 in Ha|]. destruct op; try done. simpl in *.
  destruct (freeList q) as [|i fl]; [done|]. intros j [= <-]. by apply from_waitingb_spec.
Qed.
Lemma demo_sys_reach : sys_reach true [(2, 0); (2, 0)]%Z demo_sys3 /\ sys_reach true [(2, 0); (2, 0)]%Z demo_sys4.
Proof.
  assert (sys_reach true [(2, 0); (2, 0)]%Z demo_sys3) as H3.
  { apply sys_reach_after; [|eapply demo_allowed; [by vm_compute|by vm_compute|done]|by vm_compute].
    apply sys_reach_after; [|eapply demo_allowed; [by vm_compute|by vm_compute|by vm_compute]|by vm_compute].
    apply sys_reach_after; [constructor|eapply demo_allowed; [by vm_compute|by vm_compute|by vm_compute]|by vm_compute]. }
  split; [done|]. apply sys_reach_after; [done|eapply demo_allowed; [by vm_compute|by vm_compute|done]|by vm_compute].
Qed.

Lemma pending_flags_match_marks_witness :
  marks (sys_regs demo_sys3) = [0%nat] /\ (downstreamPending <$> sys_regs demo_sys3 !! 0%nat) = Some true
  /\ (forall c op e, sys_allowed c op demo_sys3 -> sys_step c op demo_sys3 = Err e ->
        e <> EAssert "downstreamPending" /\ structural e = false)
  /\ marks (sys_regs demo_sys4) = [] /\ (downstreamPending <$> sys_regs demo_sys4 !! 0%nat) = Some false.
Proof.
  split; [by vm_compute|]. split; [by vm_compute|]. split; [|split; [by vm_compute|by vm_compute]].
  assert (Forall (fun x => 0 <= x.1 + x.2)%Z [(2, 0); (2, 0)]%Z) as Hsz by (repeat constructor; done).
  destruct (pending_flags_match_marks true [(2, 0); (2, 0)]%Z demo_sys3 Hsz (proj1 demo_sys_reach)) as (_ & _ & _ & H). exact H.
Defined.
