(* ===== verification/BaseCache.v ===== *)
(** * The cache controller (mem/cache/base.hh, mem/cache/base.cc)

    [BaseCache] in atomic and functional mode, without prefetcher, compressor
    and write allocator (the source tests for their presence): accesses, fills,
    allocation, evictions, invalidations, write-backs, the temporary block, and
    the choice between the miss queue and the write buffer.  What a derived class
    overrides is an argument of the operations that call it.

    A block is in the tags or the temporary block; the data of the blocks of the
    tags is one array.  The memory side is a component of its own, seen through
    the class [MemorySide].  [now] is the current tick.  Random numbers, the
    contents of newly allocated memory and the identities of new packets come
    from a source of the environment. *)

From S2P Require Import Prelude EventQ Clocked Packet Request ByteSwap PacketData PacketQueue Indexing CacheBlk ReplPolicy Tags CacheQueue WriteQueue MSHR.

(** ** The memory side *)

(** What a cache asks of the component below: [recvAtomic] returns the latency
    and the packet, [recvFunctional] the packet. *)
Class MemorySide (B : Type) := {
  ms_recvAtomic : Z -> Pkt -> M B (Z * Pkt);
  ms_recvFunctional : Pkt -> M B Pkt
}.

(** ** State *)

Inductive Clusivity := mostly_incl | mostly_excl.
#[global] Instance Clusivity_eq_dec : EqDecision Clusivity.
Proof. solve_decision. Defined.

Inductive BlockedCause := Blocked_NoMSHRs | Blocked_NoWBBuffers | Blocked_NoTargets.
Definition cause_index (c : BlockedCause) : Z :=
  match c with Blocked_NoMSHRs => 0 | Blocked_NoWBBuffers => 1 | Blocked_NoTargets => 2 end.

(** Masters of the requests a cache makes itself. *)
Definition wbMasterId : Z := 0.
Definition funcMasterId : Z := 1.

(** The constant members; [cp_period] is what [clockPeriod()] answers. *)
Record CacheParams := mkCacheParams {
  cp_blkSize : Z;
  cp_lookupLatency : Z;
  cp_dataLatency : Z;
  cp_fillLatency : Z;
  cp_sequentialAccess : bool;
  cp_clusivity : Clusivity;
  cp_isReadOnly : bool;
  cp_writebackClean : bool;
  cp_maxMasters : Z;
  cp_period : Z;
  cp_bypassCaches : bool               (* what system->bypassCaches() answers *)
}.

(** Hits and misses are counted per command and master. *)
Record CacheStats := mkCacheStats {
  cs_hits : gmap (nat * Z) Z;
  cs_misses : gmap (nat * Z) Z;
  cs_replacements : Z;
  cs_writebacks : gmap Z Z;
  cs_unusedPrefetches : Z;
  cs_blocked_causes : gmap Z Z;
  cs_blocked_cycles : gmap Z Z
}.

(** The slave port: [sp_sendRetry] is the tick its retry event is scheduled at. *)
Record SlavePort := mkSlavePort { sp_blocked : bool; sp_mustSendRetry : bool; sp_sendRetry : option Z }.

(** The environment: random draws and the contents of allocated memory, by the
    number of draws made so far. *)
Record Env := mkEnv { env_random : nat -> Z; env_raw : nat -> list Z; env_count : nat }.

Record BaseCache (P D B : Type) := mkCache {
  bc_params : CacheParams;
  bc_tags : BaseSetAssoc P D;
  bc_dataBlks : list Z;
  bc_tempBlock : TempCacheBlk;
  bc_tempData : list Z;
  bc_tempBlockWriteback : option Pkt;
  bc_tempEvent : option Z;               (* writebackTempBlockAtomicEvent *)
  bc_mshrQueue : gmap nat MSHR * Queue;
  bc_writeBuffer : gmap nat WriteQueueEntry * Queue;
  bc_queued : list DeferredPacket * list DeferredPacket * list DeferredPacket;
                                         (* responses, requests, snoop responses held by the ports *)
  bc_blocked : Z;
  bc_blockedCycle : Z;
  bc_port : SlavePort;
  bc_missCount : Z;
  bc_exit : bool;                        (* exitSimLoop was called *)
  bc_clock : Clocked;
  bc_stats : CacheStats;
  bc_env : Env;
  bc_below : B
}.
Arguments mkCache {P D B}. Arguments bc_params {P D B}. Arguments bc_tags {P D B}.
Arguments bc_dataBlks {P D B}. Arguments bc_tempBlock {P D B}. Arguments bc_tempData {P D B}.
Arguments bc_tempBlockWriteback {P D B}. Arguments bc_tempEvent {P D B}. Arguments bc_mshrQueue {P D B}.
Arguments bc_writeBuffer {P D B}. Arguments bc_queued {P D B}. Arguments bc_blocked {P D B}.
Arguments bc_blockedCycle {P D B}. Arguments bc_port {P D B}. Arguments bc_missCount {P D B}.
Arguments bc_exit {P D B}. Arguments bc_clock {P D B}. Arguments bc_stats {P D B}.
Arguments bc_env {P D B}. Arguments bc_below {P D B}.

(** A [CacheBlk *] other than the null pointer. *)
Inductive blkptr := InTags (i : nat) | TempBlock.
#[global] Instance blkptr_eq_dec : EqDecision blkptr.
Proof. solve_decision. Defined.

Section BaseCache.
Context {P D B : Type} `{!IndexingPolicy P} `{!BaseReplacementPolicy D} `{!MemorySide B}.
Abbreviation C := (M (BaseCache P D B)).
Implicit Types x : BaseCache P D B.

(** *** Field updates *)
Definition set_bc_tags (v : BaseSetAssoc P D) x : BaseCache P D B :=
  mkCache (bc_params x) v (bc_dataBlks x) (bc_tempBlock x) (bc_tempData x) (bc_tempBlockWriteback x)
    (bc_tempEvent x) (bc_mshrQueue x) (bc_writeBuffer x) (bc_queued x) (bc_blocked x) (bc_blockedCycle x)
    (bc_port x) (bc_missCount x) (bc_exit x) (bc_clock x) (bc_stats x) (bc_env x) (bc_below x).
Definition set_bc_dataBlks (v : list Z) x : BaseCache P D B :=
  mkCache (bc_params x) (bc_tags x) v (bc_tempBlock x) (bc_tempData x) (bc_tempBlockWriteback x)
    (bc_tempEvent x) (bc_mshrQueue x) (bc_writeBuffer x) (bc_queued x) (bc_blocked x) (bc_blockedCycle x)
    (bc_port x) (bc_missCount x) (bc_exit x) (bc_clock x) (bc_stats x) (bc_env x) (bc_below x).
Definition set_bc_tempBlock (v : TempCacheBlk) x : BaseCache P D B :=
  mkCache (bc_params x) (bc_tags x) (bc_dataBlks x) v (bc_tempData x) (bc_tempBlockWriteback x)
    (bc_tempEvent x) (bc_mshrQueue x) (bc_writeBuffer x) (bc_queued x) (bc_blocked x) (bc_blockedCycle x)
    (bc_port x) (bc_missCount x) (bc_exit x) (bc_clock x) (bc_stats x) (bc_env x) (bc_below x).
Definition set_bc_tempData (v : list Z) x : BaseCache P D B :=
  mkCache (bc_params x) (bc_tags x) (bc_dataBlks x) (bc_tempBlock x) v (bc_tempBlockWriteback x)
    (bc_tempEvent x) (bc_mshrQueue x) (bc_writeBuffer x) (bc_queued x) (bc_blocked x) (bc_blockedCycle x)
    (bc_port x) (bc_missCount x) (bc_exit x) (bc_clock x) (bc_stats x) (bc_env x) (bc_below x).
Definition set_bc_tempBlockWriteback (v : option Pkt) x : BaseCache P D B :=
  mkCache (bc_params x) (bc_tags x) (bc_dataBlks x) (bc_tempBlock x) (bc_tempData x) v (bc_tempEvent x)
    (bc_mshrQueue x) (bc_writeBuffer x) (bc_queued x) (bc_blocked x) (bc_blockedCycle x) (bc_port x)
    (bc_missCount x) (bc_exit x) (bc_clock x) (bc_stats x) (bc_env x) (bc_below x).
Definition set_bc_tempEvent (v : option Z) x : BaseCache P D B :=
  mkCache (bc_params x) (bc_tags x) (bc_dataBlks x) (bc_tempBlock x) (bc_tempData x) (bc_tempBlockWriteback x)
    v (bc_mshrQueue x) (bc_writeBuffer x) (bc_queued x) (bc_blocked x) (bc_blockedCycle x) (bc_port x)
    (bc_missCount x) (bc_exit x) (bc_clock x) (bc_stats x) (bc_env x) (bc_below x).
Definition set_bc_mshrQueue (v : gmap nat MSHR * Queue) x : BaseCache P D B :=
  mkCache (bc_params x) (bc_tags x) (bc_dataBlks x) (bc_tempBlock x) (bc_tempData x) (bc_tempBlockWriteback x)
    (bc_tempEvent x) v (bc_writeBuffer x) (bc_queued x) (bc_blocked x) (bc_blockedCycle x) (bc_port x)
    (bc_missCount x) (bc_exit x) (bc_clock x) (bc_stats x) (bc_env x) (bc_below x).
Definition set_bc_writeBuffer (v : gmap nat WriteQueueEntry * Queue) x : BaseCache P D B :=
  mkCache (bc_params x) (bc_tags x) (bc_dataBlks x) (bc_tempBlock x) (bc_tempData x) (bc_tempBlockWriteback x)
    (bc_tempEvent x) (bc_mshrQueue x) v (bc_queued x) (bc_blocked x) (bc_blockedCycle x) (bc_port x)
    (bc_missCount x) (bc_exit x) (bc_clock x) (bc_stats x) (bc_env x) (bc_below x).
Definition set_bc_queued (v : list DeferredPacket * list DeferredPacket * list DeferredPacket) x : BaseCache P D B :=
  mkCache (bc_params x) (bc_tags x) (bc_dataBlks x) (bc_tempBlock x) (bc_tempData x) (bc_tempBlockWriteback x)
    (bc_tempEvent x) (bc_mshrQueue x) (bc_writeBuffer x) v (bc_blocked x) (bc_blockedCycle x) (bc_port x)
    (bc_missCount x) (bc_exit x) (bc_clock x) (bc_stats x) (bc_env x) (bc_below x).
Definition set_bc_blocked (v : Z) x : BaseCache P D B :=
  mkCache (bc_params x) (bc_tags x) (bc_dataBlks x) (bc_tempBlock x) (bc_tempData x) (bc_tempBlockWriteback x)
    (bc_tempEvent x) (bc_mshrQueue x) (bc_writeBuffer x) (bc_queued x) v (bc_blockedCycle x) (bc_port x)
    (bc_missCount x) (bc_exit x) (bc_clock x) (bc_stats x) (bc_env x) (bc_below x).
Definition set_bc_blockedCycle (v : Z) x : BaseCache P D B :=
  mkCache (bc_params x) (bc_tags x) (bc_dataBlks x) (bc_tempBlock x) (bc_tempData x) (bc_tempBlockWriteback x)
    (bc_tempEvent x) (bc_mshrQueue x) (bc_writeBuffer x) (bc_queued x) (bc_blocked x) v (bc_port x)
    (bc_missCount x) (bc_exit x) (bc_clock x) (bc_stats x) (bc_env x) (bc_below x).
Definition set_bc_port (v : SlavePort) x : BaseCache P D B :=
  mkCache (bc_params x) (bc_tags x) (bc_dataBlks x) (bc_tempBlock x) (bc_tempData x) (bc_tempBlockWriteback x)
    (bc_tempEvent x) (bc_mshrQueue x) (bc_writeBuffer x) (bc_queued x) (bc_blocked x) (bc_blockedCycle x) v
    (bc_missCount x) (bc_exit x) (bc_clock x) (bc_stats x) (bc_env x) (bc_below x).
Definition set_bc_missCount (v : Z) x : BaseCache P D B :=
  mkCache (bc_params x) (bc_tags x) (bc_dataBlks x) (bc_tempBlock x) (bc_tempData x) (bc_tempBlockWriteback x)
    (bc_tempEvent x) (bc_mshrQueue x) (bc_writeBuffer x) (bc_queued x) (bc_blocked x) (bc_blockedCycle x)
    (bc_port x) v (bc_exit x) (bc_clock x) (bc_stats x) (bc_env x) (bc_below x).
Definition set_bc_exit (v : bool) x : BaseCache P D B :=
  mkCache (bc_params x) (bc_tags x) (bc_dataBlks x) (bc_tempBlock x) (bc_tempData x) (bc_tempBlockWriteback x)
    (bc_tempEvent x) (bc_mshrQueue x) (bc_writeBuffer x) (bc_queued x) (bc_blocked x) (bc_blockedCycle x)
    (bc_port x) (bc_missCount x) v (bc_clock x) (bc_stats x) (bc_env x) (bc_below x).
Definition set_bc_clock (v : Clocked) x : BaseCache P D B :=
  mkCache (bc_params x) (bc_tags x) (bc_dataBlks x) (bc_tempBlock x) (bc_tempData x) (bc_tempBlockWriteback x)
    (bc_tempEvent x) (bc_mshrQueue x) (bc_writeBuffer x) (bc_queued x) (bc_blocked x) (bc_blockedCycle x)
    (bc_port x) (bc_missCount x) (bc_exit x) v (bc_stats x) (bc_env x) (bc_below x).
Definition set_bc_stats (v : CacheStats) x : BaseCache P D B :=
  mkCache (bc_params x) (bc_tags x) (bc_dataBlks x) (bc_tempBlock x) (bc_tempData x) (bc_tempBlockWriteback x)
    (bc_tempEvent x) (bc_mshrQueue x) (bc_writeBuffer x) (bc_queued x) (bc_blocked x) (bc_blockedCycle x)
    (bc_port x) (bc_missCount x) (bc_exit x) (bc_clock x) v (bc_env x) (bc_below x).
Definition set_bc_env (v : Env) x : BaseCache P D B :=
  mkCache (bc_params x) (bc_tags x) (bc_dataBlks x) (bc_tempBlock x) (bc_tempData x) (bc_tempBlockWriteback x)
    (bc_tempEvent x) (bc_mshrQueue x) (bc_writeBuffer x) (bc_queued x) (bc_blocked x) (bc_blockedCycle x)
    (bc_port x) (bc_missCount x) (bc_exit x) (bc_clock x) (bc_stats x) v (bc_below x).
Definition set_bc_below (v : B) x : BaseCache P D B :=
  mkCache (bc_params x) (bc_tags x) (bc_dataBlks x) (bc_tempBlock x) (bc_tempData x) (bc_tempBlockWriteback x)
    (bc_tempEvent x) (bc_mshrQueue x) (bc_writeBuffer x) (bc_queued x) (bc_blocked x) (bc_blockedCycle x)
    (bc_port x) (bc_missCount x) (bc_exit x) (bc_clock x) (bc_stats x) (bc_env x) v.

(** ** Parts of the state *)

Definition on_tags {R} (m : M (BaseSetAssoc P D) R) : C R := zoom bc_tags set_bc_tags m.
Definition on_below {R} (m : M B R) : C R := zoom bc_below set_bc_below m.
Definition on_mshrs {R} (now : Z) (m : M (QS MSHR) R) : C R :=
  zoom (fun x => mkQS now (bc_mshrQueue x).1 (bc_mshrQueue x).2)
       (fun s => set_bc_mshrQueue (q_store s, q_queue s)) m.
Definition on_writes {R} (now : Z) (m : M (QS WriteQueueEntry) R) : C R :=
  zoom (fun x => mkQS now (bc_writeBuffer x).1 (bc_writeBuffer x).2)
       (fun s => set_bc_writeBuffer (q_store s, q_queue s)) m.
Definition param {R} (f : CacheParams -> R) : C R := gets (fun x => f (bc_params x)).
Definition on_cstats (f : CacheStats -> CacheStats) : C unit := modify (fun x => set_bc_stats (f (bc_stats x)) x).

Definition next_env : C Env :=
  e ← gets bc_env;
  modify (set_bc_env (mkEnv (env_random e) (env_raw e) (S (env_count e))));;
  mret e.
Definition draw : C Z := e ← next_env; mret (env_random e (env_count e)).
Definition raw_memory : C (list Z) := e ← next_env; mret (env_raw e (env_count e)).
Definition new_id : C Z := e ← next_env; mret (Z.of_nat (env_count e)).

(** [clockEdge(cycles)] *)
Definition cache_clockEdge (now cycles : Z) : C Z :=
  p ← param cp_period;
  c ← gets bc_clock;
  let '(t, c') := clockEdge now p cycles c in
  modify (set_bc_clock c');; mret t.
Definition cache_curCycle (now : Z) : C Z :=
  p ← param cp_period;
  c ← gets bc_clock;
  let '(n, c') := curCycle now p c in
  modify (set_bc_clock c');; mret n.

(** *** Statistics *)

Definition bump_hits (k : nat * Z) (s : CacheStats) : CacheStats :=
  mkCacheStats (count_up 1 k (cs_hits s)) (cs_misses s) (cs_replacements s) (cs_writebacks s)
    (cs_unusedPrefetches s) (cs_blocked_causes s) (cs_blocked_cycles s).
Definition bump_misses (k : nat * Z) (s : CacheStats) : CacheStats :=
  mkCacheStats (cs_hits s) (count_up 1 k (cs_misses s)) (cs_replacements s) (cs_writebacks s)
    (cs_unusedPrefetches s) (cs_blocked_causes s) (cs_blocked_cycles s).
Definition bump_replacements (s : CacheStats) : CacheStats :=
  mkCacheStats (cs_hits s) (cs_misses s) (cs_replacements s + 1) (cs_writebacks s)
    (cs_unusedPrefetches s) (cs_blocked_causes s) (cs_blocked_cycles s).
Definition bump_writebacks (k : Z) (s : CacheStats) : CacheStats :=
  mkCacheStats (cs_hits s) (cs_misses s) (cs_replacements s) (count_up 1 k (cs_writebacks s))
    (cs_unusedPrefetches s) (cs_blocked_causes s) (cs_blocked_cycles s).
Definition bump_unusedPrefetches (s : CacheStats) : CacheStats :=
  mkCacheStats (cs_hits s) (cs_misses s) (cs_replacements s) (cs_writebacks s)
    (cs_unusedPrefetches s + 1) (cs_blocked_causes s) (cs_blocked_cycles s).
Definition bump_blocked (causes cycles : gmap Z Z -> gmap Z Z) (s : CacheStats) : CacheStats :=
  mkCacheStats (cs_hits s) (cs_misses s) (cs_replacements s) (cs_writebacks s)
    (cs_unusedPrefetches s) (causes (cs_blocked_causes s)) (cycles (cs_blocked_cycles s)).

(** A miss also counts the depth of the request; the packet is returned. *)
Definition incMissCount (pkt : Pkt) : C Pkt :=
  masters ← param cp_maxMasters;
  let id := rq_masterId (p_req pkt) in
  assert_ (id <? masters) "pkt->req->masterId() < system->maxMasters()";;
  on_cstats (bump_misses (toInt (p_cmd pkt), id));;
  n ← gets bc_missCount;
  when_ (negb (n =? 0))
    (modify (set_bc_missCount (n - 1));;
     when_ (n - 1 =? 0) (modify (set_bc_exit true)));;
  mret (set_p_req (incAccessDepth (p_req pkt)) pkt).
Definition incHitCount (pkt : Pkt) : C unit :=
  masters ← param cp_maxMasters;
  let id := rq_masterId (p_req pkt) in
  assert_ (id <? masters) "pkt->req->masterId() < system->maxMasters()";;
  on_cstats (bump_hits (toInt (p_cmd pkt), id)).

(** ** Blocking *)

Definition port_setBlocked : C unit :=
  p ← gets bc_port;
  assert_ (negb (sp_blocked p)) "!blocked";;
  modify (set_bc_port match sp_sendRetry p with
                      | Some _ => mkSlavePort true true None
                      | None => mkSlavePort true (sp_mustSendRetry p) None
                      end).
(** The retry event is scheduled for the next tick. *)
Definition port_clearBlocked (now : Z) : C unit :=
  p ← gets bc_port;
  assert_ (sp_blocked p) "blocked";;
  if sp_mustSendRetry p then
    match sp_sendRetry p with
    | Some _ => throw (EAssert "!event->scheduled()")
    | None => modify (set_bc_port (mkSlavePort false true (Some (u64 (now + 1)))))
    end
  else modify (set_bc_port (mkSlavePort false false (sp_sendRetry p))).

Definition isBlocked x : bool := negb (bc_blocked x =? 0).
Definition setBlocked (now : Z) (cause : BlockedCause) : C unit :=
  let flag := Z.shiftl 1 (cause_index cause) in
  b ← gets bc_blocked;
  when_ (b =? 0)
    (on_cstats (bump_blocked (count_up 1 (cause_index cause)) id);;
     n ← cache_curCycle now;
     modify (set_bc_blockedCycle n);;
     port_setBlocked);;
  modify (set_bc_blocked (Z.lor b flag)).
Definition clearBlocked (now : Z) (cause : BlockedCause) : C unit :=
  let flag := Z.shiftl 1 (cause_index cause) in
  b ← gets bc_blocked;
  modify (set_bc_blocked (Z.ldiff b flag));;
  when_ (Z.ldiff b flag =? 0)
    (n ← cache_curCycle now;
     start ← gets bc_blockedCycle;
     d ← lift (Cycles_sub n start);
     on_cstats (bump_blocked id (count_up d (cause_index cause)));;
     port_clearBlocked now).

(** [markInService] of a write buffer entry and of a miss register. *)
Definition markInService_write (now : Z) (i : nat) : C unit :=
  wasFull ← gets (fun x => isFull (bc_writeBuffer x).2);
  on_writes now (WriteQueue_markInService i);;
  full ← gets (fun x => isFull (bc_writeBuffer x).2);
  when_ (wasFull && negb full) (clearBlocked now Blocked_NoWBBuffers).
Definition markInService_mshr (now : Z) (i : nat) (pending_modified_resp : bool) : C unit :=
  wasFull ← gets (fun x => isFull (bc_mshrQueue x).2);
  on_mshrs now (mq_markInService i pending_modified_resp);;
  full ← gets (fun x => isFull (bc_mshrQueue x).2);
  when_ (wasFull && negb full) (clearBlocked now Blocked_NoMSHRs).

(** ** Choosing what to send *)

Inductive QueueChoice := SendMiss (i : nat) | SendWrite (i : nat).

(** A write is to be sent: an older miss for the same block goes first. *)
Definition choose_write (now : Z) (w : nat) : C QueueChoice :=
  e ← on_writes now (the_entry w);
  conflict ← on_mshrs now (findPending (fun a s => wq_matchBlockAddr a s e));
  match conflict with
  | Some c =>
      e' ← on_mshrs now (the_entry c);
      mret (if m_order e' <? wq_order e then SendMiss c else SendWrite w)
  | None => mret (SendWrite w)
  end.
(** A miss is to be sent: a write of the same block goes first. *)
Definition choose_miss (now : Z) (i : nat) : C QueueChoice :=
  e ← on_mshrs now (the_entry i);
  conflict ← on_writes now (findPending (fun a s => m_matchBlockAddr a s e));
  mret match conflict with Some c => SendWrite c | None => SendMiss i end.

(** Without a prefetcher, nothing is sent when neither queue has a ready entry. *)
Definition getNextQueueEntry (now : Z) : C (option QueueChoice) :=
  miss_mshr ← on_mshrs now (gets getNext);
  wq_entry ← on_writes now (gets getNext);
  full ← gets (fun x => isFull (bc_writeBuffer x).2);
  match wq_entry, full || bool_decide (miss_mshr = None) with
  | Some w, true => q ← choose_write now w; mret (Some q)
  | _, _ => match miss_mshr with Some i => q ← choose_miss now i; mret (Some q) | None => mret None end
  end.

Definition nextQueueReadyTime x : Z :=
  Z.min (nextReadyTime (mkQS 0 (bc_mshrQueue x).1 (bc_mshrQueue x).2))
        (nextReadyTime (mkQS 0 (bc_writeBuffer x).1 (bc_writeBuffer x).2)).

(** ** Blocks and their data *)

Definition the_block (r : blkptr) : C CacheBlk :=
  match r with
  | InTags i => on_tags (get_blk i)
  | TempBlock => gets (fun x => tmp_blk (bc_tempBlock x))
  end.
Definition put_block (r : blkptr) (b : CacheBlk) : C unit :=
  match r with
  | InTags i => on_tags (put_blk i b)
  | TempBlock => modify (fun x => set_bc_tempBlock (mkTemp b (tmp_addr (bc_tempBlock x))) x)
  end.
(** [blk->status |= bits] and [blk->status &= ~bits] *)
Definition set_bits (bits : Z) (r : blkptr) : C unit :=
  b ← the_block r; put_block r (set_status (Z.lor (status b) bits) b).
Definition clear_bits (bits : Z) (r : blkptr) : C unit :=
  b ← the_block r; put_block r (set_status (Z.ldiff (status b) bits) b).

(** [blk->data]: the array and the place in it. *)
Definition data_of (r : blkptr) : C (list Z * nat) :=
  match r with
  | InTags i =>
      b ← on_tags (get_blk i);
      l ← gets bc_dataBlks;
      match blk_data b with
      | Some d => mret (l, Z.to_nat d)
      | None => throw (EUndefined "null data pointer")
      end
  | TempBlock => l ← gets bc_tempData; mret (l, 0%nat)
  end.
Definition put_data (r : blkptr) (l : list Z) : C unit :=
  modify (match r with InTags _ => set_bc_dataBlks l | TempBlock => set_bc_tempData l end).
(** [pkt->writeDataToBlock(blk->data, blkSize)] and
    [pkt->setDataFromBlock(blk->data, blkSize)] *)
Definition write_to_block (pkt : Pkt) (r : blkptr) : C unit :=
  '(l, base) ← data_of r;
  n ← param cp_blkSize;
  off ← lift (pkt_getOffset n pkt);
  l' ← lift (writeData l (base + Z.to_nat off) pkt);
  put_data r l'.
Definition read_from_block (pkt : Pkt) (r : blkptr) : C Pkt :=
  '(l, base) ← data_of r;
  n ← param cp_blkSize;
  off ← lift (pkt_getOffset n pkt);
  lift (setData (drop (base + Z.to_nat off) l) pkt).

Definition cache_regenerateBlkAddr (r : blkptr) : C Z :=
  match r with
  | InTags i => t ← gets bc_tags; lift (regenerateBlkAddr i t)
  | TempBlock => gets (fun x => tmp_getAddr (bc_tempBlock x))
  end.

Definition invalidateBlock (r : blkptr) : C unit :=
  b ← the_block r;
  when_ (wasPrefetched b) (on_cstats bump_unusedPrefetches);;
  match r with
  | InTags i => on_tags (tags_invalidate i)
  | TempBlock => modify (fun x => set_bc_tempBlock (tmp_invalidate (bc_tempBlock x)) x)
  end.

(** [blk->setWhenReady(clockEdge(fillLatency) + pkt->headerDelay + extra)] *)
Definition mark_ready (now extra : Z) (pkt : Pkt) (r : blkptr) : C unit :=
  fill ← param cp_fillLatency;
  edge ← cache_clockEdge now fill;
  b ← the_block r;
  b' ← lift (setWhenReady (u64 (edge + p_headerDelay pkt + extra)) b);
  put_block r b'.

(** ** Satisfying a request *)

Definition cmpAndSwap (r : blkptr) (pkt : Pkt) : C Pkt :=
  assert_ (isRequest (p_cmd pkt)) "pkt->isRequest()";;
  n ← param cp_blkSize;
  off ← lift (pkt_getOffset n pkt);
  '(l, base) ← data_of r;
  let at_ := (base + Z.to_nat off)%nat in
  sz ← lift (getSize pkt);
  assert_ (sz <=? 8) "sizeof(uint64_t) >= pkt->getSize()";;
  overwrite_val ← lift (writeData (replicate 8 0) 0 pkt);
  pkt' ← lift (setData (drop at_ l) pkt);
  overwrite_mem ←
    (if isCondSwap (p_req pkt') then
       if (sz =? 8) || (sz =? 4) then
         x ← lift (getExtraData (p_req pkt'));
         let k := Z.to_nat sz in
         mret (bool_decide (le_bytes k x = take k (drop at_ l)))
       else throw (EPanic "Invalid size for conditional read/write")
     else mret true);
  when_ overwrite_mem
    (l' ← lift (memcpy l at_ overwrite_val 0 (Z.to_nat sz));
     put_data r l';;
     set_bits BlkDirty r);;
  mret pkt'.

(** The atomic operation of a swap request, on the bytes of the block. *)
Definition atomicOp_on_block (r : blkptr) (pkt : Pkt) : C Pkt :=
  t ← gets bc_tags;
  addr ← lift (getAddr pkt);
  '(l, base) ← data_of r;
  let at_ := (base + Z.to_nat (extractBlkOffset addr t))%nat in
  pkt' ← lift (setData (drop at_ l) pkt);
  op ← lift (getAtomicOpFunctor (p_req pkt));
  sz ← lift (getSize pkt);
  let k := Z.to_nat sz in
  l' ← lift (memcpy l at_ (op (take k (drop at_ l))) 0 k);
  put_data r l';;
  set_bits BlkDirty r;;
  mret pkt'.

(** [BaseCache::satisfyRequest] *)
Definition base_satisfyRequest (pkt : Pkt) (blk : option blkptr) : C Pkt :=
  let cmd := p_cmd pkt in
  assert_ (isRequest cmd) "pkt->isRequest()";;
  match blk with
  | None => throw (EAssert "blk && blk->isValid()")
  | Some r =>
      b ← the_block r;
      assert_ (blk_isValid b) "blk && blk->isValid()";;
      n ← param cp_blkSize;
      off ← lift (pkt_getOffset n pkt);
      sz ← lift (getSize pkt);
      assert_ (off + sz <=? n) "pkt->getOffset(blkSize) + pkt->getSize() <= blkSize";;
      if bool_decide (cmd = SwapReq) then
        if isAtomic (p_req pkt) then atomicOp_on_block r pkt else cmpAndSwap r pkt
      else if isWrite cmd then
        assert_ (isWritable b) "blk->isWritable()";;
        '(ok, pkt', b') ← lift (checkWrite pkt b);
        put_block r b';;
        when_ ok (write_to_block pkt' r);;
        set_bits BlkDirty r;;
        mret pkt'
      else if isRead cmd then
        when_ (isLLSC cmd) (b' ← lift (blk_trackLoadLocked pkt b); put_block r b');;
        assert_ (hasRespData pkt) "pkt->hasRespData()";;
        read_from_block pkt r
      else if isUpgrade cmd then
        assert_ (negb (hasSharers pkt)) "!pkt->hasSharers()";;
        if isDirty b then
          pkt' ← lift (setCacheResponding pkt); clear_bits BlkDirty r;; mret pkt'
        else mret pkt
      else if isClean cmd then clear_bits BlkDirty r;; mret pkt
      else
        assert_ (isInvalidate cmd) "pkt->isInvalidate()";;
        invalidateBlock r;;
        mret pkt
  end.

Definition maintainClusivity (from_cache : bool) (blk : option blkptr) : C unit :=
  match blk with
  | Some r =>
      b ← the_block r;
      c ← param cp_clusivity;
      when_ (from_cache && blk_isValid b && negb (isDirty b) && bool_decide (c = mostly_excl)) (invalidateBlock r)
  | None => mret tt
  end.

(** ** Latencies *)

Definition calculateTagOnlyLatency (p : CacheParams) (delay lookup_lat : Z) : Z :=
  Cycles_add (ticksToCycles delay (cp_period p)) lookup_lat.

Definition calculateAccessLatency (now : Z) (blk : option blkptr) (delay lookup_lat : Z) : C Z :=
  p ← param id;
  match blk with
  | Some r =>
      let lat :=
        if cp_sequentialAccess p
        then Cycles_add (Cycles_add (ticksToCycles delay (cp_period p)) lookup_lat) (cp_dataLatency p)
        else Cycles_add (ticksToCycles delay (cp_period p)) (Z.max lookup_lat (cp_dataLatency p)) in
      let tick := u64 (now + delay) in
      b ← the_block r;
      when_ready ← lift (getWhenReady b);
      let wait := ticksToCycles (u64 (when_ready - tick)) (cp_period p) in
      mret (if (tick <? when_ready) && (lat <? wait) then Cycles_add lat wait else lat)
  | None => mret (calculateTagOnlyLatency p delay lookup_lat)
  end.

(** ** Packets that carry a block down *)

(** The request of a write-back or write-clean, and the end both share: the
    block gives up its writable and dirty bits and the packet takes the data. *)
Definition block_request (now : Z) (r : blkptr) : C Request :=
  b ← the_block r;
  addr ← cache_regenerateBlkAddr r;
  n ← param cp_blkSize;
  let req := new_Request_phys now addr n 0 wbMasterId in
  req ← (if blk_isSecure b then lift (setFlags SECURE req) else mret req);
  mret (set_rq_taskId (task_id b) req).
Definition pass_on (pkt : Pkt) (r : blkptr) : C Pkt :=
  b ← the_block r;
  (if isWritable b then clear_bits BlkWritable r else mret tt);;
  let pkt := if isWritable b then pkt else setHasSharers pkt in
  clear_bits BlkDirty r;;
  raw ← raw_memory;
  pkt ← lift (allocate raw pkt);
  read_from_block pkt r.

Definition writebackBlk (now : Z) (r : blkptr) : C Pkt :=
  p ← param id;
  assert_ (negb (cp_isReadOnly p) || cp_writebackClean p) "Writeback from read-only cache";;
  b ← the_block r;
  assert_ (blk_isValid b && (isDirty b || cp_writebackClean p))
    "blk && blk->isValid() && (blk->isDirty() || writebackClean)";;
  on_cstats (bump_writebacks wbMasterId);;
  req ← block_request now r;
  id ← new_id;
  pass_on (new_Pkt id req (if isDirty b then WritebackDirty else WritebackClean)) r.

Definition writecleanBlk (now : Z) (r : blkptr) (dest id : Z) : C Pkt :=
  req ← block_request now r;
  n ← param cp_blkSize;
  let pkt := new_Pkt_block id req WriteClean n in
  pkt ← (if dest =? 0 then mret pkt
         else req' ← lift (setFlags dest req); lift (setWriteThrough (set_p_req req' pkt)));
  pass_on pkt r.

(** ** Operations that call what derived classes override *)

Section Virtual.
Variable evictBlock : Z -> blkptr -> C (option Pkt).
Variable satisfyRequest : Pkt -> option blkptr -> C Pkt.

(** [evictBlock(blk, writebacks)] *)
Definition evictBlock_to (now : Z) (r : blkptr) (writebacks : list Pkt) : C (list Pkt) :=
  o ← evictBlock now r;
  mret match o with Some pkt => writebacks ++ [pkt] | None => writebacks end.

(** The first loop of [handleEvictions]: [None] when a victim has an outstanding
    miss, otherwise whether a valid block is replaced. *)
Fixpoint check_victims (now : Z) (replacement : bool) (l : list nat) : C (option bool) :=
  match l with
  | [] => mret (Some replacement)
  | i :: l' =>
      b ← the_block (InTags i);
      if blk_isValid b then
        addr ← cache_regenerateBlkAddr (InTags i);
        o ← on_mshrs now (findMatch addr (blk_isSecure b) true);
        match o with
        | Some j =>
            mshr ← on_mshrs now (the_entry j);
            c ← (if negb (isWritable b) && m_needsWritable mshr then mret true else lift (isCleaning mshr));
            assert_ c "(!blk->isWritable() && mshr->needsWritable()) || mshr->isCleaning()";;
            mret None
        | None => check_victims now true l'
        end
      else check_victims now replacement l'
  end.
Fixpoint evict_valid (now : Z) (l : list nat) (writebacks : list Pkt) : C (list Pkt) :=
  match l with
  | [] => mret writebacks
  | i :: l' =>
      b ← the_block (InTags i);
      w ← (if blk_isValid b then evictBlock_to now (InTags i) writebacks else mret writebacks);
      evict_valid now l' w
  end.
Definition handleEvictions (now : Z) (evict_blks : list nat) (writebacks : list Pkt) : C (bool * list Pkt) :=
  o ← check_victims now false evict_blks;
  match o with
  | None => mret (false, writebacks)
  | Some true =>
      on_cstats bump_replacements;;
      w ← evict_valid now evict_blks writebacks;
      mret (true, w)
  | Some false => mret (true, writebacks)
  end.

Definition allocateBlock (now : Z) (pkt : Pkt) (writebacks : list Pkt) : C (option blkptr * list Pkt) :=
  addr ← lift (getAddr pkt);
  rnd ← draw;
  '(victim, evict_blks) ← on_tags (findVictim now rnd addr);
  '(ok, w) ← handleEvictions now evict_blks writebacks;
  if ok : bool then
    rnd' ← draw;
    on_tags (insertBlock now rnd' pkt victim);;
    mret (Some (InTags victim), w)
  else mret (None, w).

Definition handleFill (now : Z) (pkt : Pkt) (blk : option blkptr) (writebacks : list Pkt) (allocate : bool)
    : C (blkptr * list Pkt) :=
  assert_ (isResponse (p_cmd pkt)) "pkt->isResponse()";;
  addr ← lift (getAddr pkt);
  is_secure ← lift (isSecure pkt);
  n ← param cp_blkSize;
  blk_addr ← lift (getBlockAddr n pkt);
  assert_ (addr =? blk_addr) "addr == pkt->getBlockAddr(blkSize)";;
  o ← on_writes now (findMatch addr is_secure true);
  assert_ (bool_decide (o = None)) "!writeBuffer.findMatch(addr, is_secure)";;
  '(r, w) ←
    match blk with
    | Some r => mret (r, writebacks)
    | None =>
        assert_ (hasData (p_cmd pkt) || bool_decide (p_cmd pkt = InvalidateResp))
          "pkt->hasData() || pkt->cmd == MemCmd::InvalidateResp";;
        '(o, w) ← (if allocate then allocateBlock now pkt writebacks else mret (None, writebacks));
        match o with
        | Some r => mret (r, w)
        | None =>
            t ← gets bc_tempBlock;
            t' ← lift (tmp_insert addr is_secure t);
            modify (set_bc_tempBlock t');;
            mret (TempBlock, w)
        end
    end;
  b ← the_block r;
  assert_ (blk_isValid b) "blk->isValid()";;
  assert_ (Bool.eqb (blk_isSecure b) is_secure) "blk->isSecure() == is_secure";;
  a ← cache_regenerateBlkAddr r;
  assert_ (a =? addr) "regenerateBlkAddr(blk) == addr";;
  set_bits BlkReadable r;;
  (if bool_decide (p_cmd pkt = InvalidateResp) then assert_ (negb (hasSharers pkt)) "!pkt->hasSharers()"
   else mret tt);;
  ro ← param cp_isReadOnly;
  when_ (negb (hasSharers pkt))
    (set_bits BlkWritable r;;
     when_ (cacheResponding pkt)
       (set_bits BlkDirty r;;
        assert_ (negb ro) "Should never see dirty snoop response in read-only cache"));;
  when_ (isRead (p_cmd pkt))
    (assert_ (hasData (p_cmd pkt)) "pkt->hasData()";;
     sz ← lift (getSize pkt);
     assert_ (sz =? n) "pkt->getSize() == blkSize";;
     write_to_block pkt r);;
  mark_ready now (p_payloadDelay pkt) pkt r;;
  mret (r, w).

(** *** Access *)

(** An eviction from above meets a write-back of this cache in the write buffer.
    Returns whether the packet is done with. *)
Definition access_eviction (now : Z) (pkt : Pkt) : C bool :=
  addr ← lift (getAddr pkt);
  is_secure ← lift (isSecure pkt);
  o ← on_writes now (findMatch addr is_secure true);
  match o with
  | None => mret false
  | Some i =>
      e ← on_writes now (the_entry i);
      assert_ (wq_getNumTargets e =? 1) "wb_entry->getNumTargets() == 1";;
      t ← lift (wq_getTarget e);
      assert_ (isWriteback (p_cmd (tg_pkt t))) "wbPkt->isWriteback()";;
      if isCleanEviction pkt then
        on_writes now (put_entry i (set_wq_targets [set_tg_pkt (clearBlockCached (tg_pkt t)) t] e));;
        mret true
      else
        assert_ (bool_decide (p_cmd pkt = WritebackDirty)) "pkt->cmd == MemCmd::WritebackDirty";;
        markInService_write now i;;
        mret false
  end.

(** What an access returns: whether the request is satisfied, the packet, the
    block, the latency and the write-backs to send. *)
Record Access := mkAccess {
  ac_satisfied : bool; ac_pkt : Pkt; ac_blk : option blkptr; ac_lat : Z; ac_writebacks : list Pkt
}.

(** The block a write-back or write-clean goes into; [None]: give up. *)
Definition block_for (now : Z) (pkt : Pkt) (blk : option blkptr) (writebacks : list Pkt)
    : C (option blkptr * Pkt * list Pkt) :=
  match blk with
  | Some r => mret (Some r, pkt, writebacks)
  | None =>
      '(o, w) ← allocateBlock now pkt writebacks;
      match o with
      | None => pkt' ← incMissCount pkt; mret (None, pkt', w)
      | Some r => set_bits BlkReadable r;; mret (Some r, pkt, w)
      end
  end.

Definition access_writeback (now : Z) (pkt : Pkt) (blk : option blkptr) (lat tag_latency : Z) (writebacks : list Pkt)
    : C Access :=
  p ← param id;
  sz ← lift (getSize pkt);
  assert_ (cp_blkSize p =? sz) "blkSize == pkt->getSize()";;
  addr ← lift (getAddr pkt);
  is_secure ← lift (isSecure pkt);
  o ← (if bool_decide (p_cmd pkt = WritebackClean) then on_mshrs now (findMatch addr is_secure true) else mret None);
  match o with
  | Some _ => mret (mkAccess true pkt blk lat writebacks)
  | None =>
      '(o, pkt', w) ← block_for now pkt blk writebacks;
      match o with
      | None => mret (mkAccess false pkt' None lat w)
      | Some r =>
          when_ (bool_decide (p_cmd pkt = WritebackDirty)) (set_bits BlkDirty r);;
          when_ (negb (hasSharers pkt)) (set_bits BlkWritable r);;
          assert_ (negb (needsResponse (p_cmd pkt))) "!pkt->needsResponse()";;
          write_to_block pkt r;;
          incHitCount pkt;;
          mark_ready now (Z.max (cyclesToTicks (cp_period p) tag_latency) (p_payloadDelay pkt)) pkt r;;
          mret (mkAccess true pkt (Some r) lat w)
      end
  end.

Definition access_writeclean (now : Z) (pkt : Pkt) (blk : option blkptr) (lat tag_latency : Z) (writebacks : list Pkt)
    : C Access :=
  p ← param id;
  sz ← lift (getSize pkt);
  assert_ (cp_blkSize p =? sz) "blkSize == pkt->getSize()";;
  if bool_decide (blk = None) && writeThrough pkt then mret (mkAccess false pkt blk lat writebacks)
  else
    '(o, pkt', w) ← block_for now pkt blk writebacks;
    match o with
    | None => mret (mkAccess false pkt' None lat w)
    | Some r =>
        when_ (negb (writeThrough pkt)) (set_bits BlkDirty r);;
        assert_ (negb (needsResponse (p_cmd pkt))) "!pkt->needsResponse()";;
        write_to_block pkt r;;
        incHitCount pkt;;
        mark_ready now (Z.max (cyclesToTicks (cp_period p) tag_latency) (p_payloadDelay pkt)) pkt r;;
        mret (mkAccess (negb (writeThrough pkt)) pkt (Some r) lat w)
    end.

(** Reads, writes and the other requests that expect a response. *)
Definition access_ordinary (now : Z) (pkt : Pkt) (blk : option blkptr) (tag_latency : Z) (writebacks : list Pkt)
    : C Access :=
  p ← param id;
  needs ← lift (pkt_needsWritable pkt);
  hit ← match blk with
        | Some r => b ← the_block r; mret (if needs : bool then isWritable b else isReadable b)
        | None => mret false
        end;
  if hit : bool then
    incHitCount pkt;;
    lat ← (if isRead (p_cmd pkt) then calculateAccessLatency now blk (p_headerDelay pkt) tag_latency
           else mret (calculateTagOnlyLatency p (p_headerDelay pkt) tag_latency));
    pkt' ← satisfyRequest pkt blk;
    maintainClusivity (fromCache (p_cmd pkt')) blk;;
    mret (mkAccess true pkt' blk lat writebacks)
  else
    pkt' ← incMissCount pkt;
    lat ← calculateAccessLatency now blk (p_headerDelay pkt) tag_latency;
    if bool_decide (blk = None) && isLLSC (p_cmd pkt) && isWrite (p_cmd pkt)
    then mret (mkAccess true (set_p_req (setExtraData 0 (p_req pkt')) pkt') blk lat writebacks)
    else mret (mkAccess false pkt' blk lat writebacks).

(** [BaseCache::access] *)
Definition base_access (now : Z) (pkt : Pkt) (lat : Z) (writebacks : list Pkt) : C Access :=
  let cmd := p_cmd pkt in
  assert_ (isRequest cmd) "pkt->isRequest()";;
  p ← param id;
  assert_ (negb (cp_isReadOnly p && isWrite cmd)) "Should never see a write in a read-only cache";;
  addr ← lift (getAddr pkt);
  is_secure ← lift (isSecure pkt);
  '(o, tag_latency) ← on_tags (accessBlock now addr is_secure);
  let blk := InTags <$> o in
  let tag_only := calculateTagOnlyLatency p (p_headerDelay pkt) tag_latency in
  if isCacheMaintenance (p_req pkt) then mret (mkAccess false pkt blk tag_only writebacks)
  else
    done ← (if isEviction cmd then access_eviction now pkt else mret false);
    if done : bool then mret (mkAccess true pkt blk tag_only writebacks)
    else
      let lat := if isWrite cmd then tag_only else lat in
      if isWriteback cmd then access_writeback now pkt blk lat tag_latency writebacks
      else if bool_decide (cmd = CleanEvict)
      then mret (mkAccess (bool_decide (blk <> None)) pkt blk tag_only writebacks)
      else if bool_decide (cmd = WriteClean) then access_writeclean now pkt blk lat tag_latency writebacks
      else access_ordinary now pkt blk tag_latency writebacks.
End Virtual.

(** ** Atomic accesses *)

Section Atomic.
Variable evictBlock : Z -> blkptr -> C (option Pkt).
Variable access : Z -> Pkt -> Z -> list Pkt -> C Access.
Variable handleAtomicReqMiss : Z -> Pkt -> option blkptr -> list Pkt -> C (Z * Pkt * option blkptr * list Pkt).
Variable doWritebacksAtomic : Z -> list Pkt -> C unit.

Definition writebackTempBlockAtomic (now : Z) : C unit :=
  o ← gets bc_tempBlockWriteback;
  match o with
  | None => throw (EAssert "tempBlockWriteback != nullptr")
  | Some pkt => doWritebacksAtomic now [pkt];; modify (set_bc_tempBlockWriteback None)
  end.
(** The event fires. *)
Definition temp_event (now : Z) : C unit :=
  modify (set_bc_tempEvent None);; writebackTempBlockAtomic now.

(** The temporary block was used: it is written back after the call. *)
Definition release_temp (now : Z) : C unit :=
  o ← gets bc_tempBlockWriteback;
  match o with
  | Some _ => writebackTempBlockAtomic now
  | None =>
      e ← gets bc_tempEvent;
      assert_ (bool_decide (e = None)) "!event->scheduled()";;
      modify (set_bc_tempEvent (Some now))
  end;;
  w ← evictBlock now TempBlock;
  modify (set_bc_tempBlockWriteback w).

(** [BaseCache::recvAtomic] *)
Definition base_recvAtomic (now : Z) (pkt : Pkt) : C (Z * Pkt) :=
  p ← param id;
  a ← access now pkt (cp_lookupLatency p) [];
  '(pkt1, w) ←
    (if isClean (p_cmd (ac_pkt a)) then
       match ac_blk a with
       | Some r =>
           b ← the_block r;
           if isDirty b then
             wb_pkt ← writecleanBlk now r (getDest (p_req (ac_pkt a))) (p_id (ac_pkt a));
             pkt1 ← lift (setSatisfied (ac_pkt a));
             mret (pkt1, ac_writebacks a ++ [wb_pkt])
           else mret (ac_pkt a, ac_writebacks a)
       | None => mret (ac_pkt a, ac_writebacks a)
       end
     else mret (ac_pkt a, ac_writebacks a));
  doWritebacksAtomic now w;;
  '(lat, pkt2, blk, w2) ←
    (if ac_satisfied a then mret (ac_lat a, pkt1, ac_blk a, [])
     else '(l, pkt2, blk, w2) ← handleAtomicReqMiss now pkt1 (ac_blk a) [];
          mret (Cycles_add (ac_lat a) l, pkt2, blk, w2));
  doWritebacksAtomic now w2;;
  t ← gets (fun x => tmp_blk (bc_tempBlock x));
  when_ (bool_decide (blk = Some TempBlock) && blk_isValid t) (release_temp now);;
  pkt3 ← (if needsResponse (p_cmd pkt2) then lift (pkt_makeResponse pkt2) else mret pkt2);
  mret (u64 (lat * cp_period p), pkt3).
End Atomic.

(** ** Functional accesses *)

(** The packets a port holds. *)
Definition satisfy_queued (view : list DeferredPacket * list DeferredPacket * list DeferredPacket -> list DeferredPacket)
    (put : list DeferredPacket -> list DeferredPacket * list DeferredPacket * list DeferredPacket ->
           list DeferredPacket * list DeferredPacket * list DeferredPacket) (pkt : Pkt) : C (bool * Pkt) :=
  q ← gets bc_queued;
  '(found, pkt', l) ← lift (satisfy_in (view q) pkt);
  modify (set_bc_queued (put l q));;
  mret (found, pkt').
Definition cpuSidePort_satisfy : Pkt -> C (bool * Pkt) :=
  satisfy_queued (fun q => q.1.1) (fun l q => (l, q.1.2, q.2)).
Definition memSidePort_satisfy (pkt : Pkt) : C (bool * Pkt) :=
  '(found, pkt') ← satisfy_queued (fun q => q.1.2) (fun l q => (q.1.1, l, q.2)) pkt;
  if found : bool then mret (true, pkt')
  else satisfy_queued (fun q => q.2) (fun l q => (q.1.1, q.1.2, l)) pkt'.

(** The tries of [a || b || ...], each of which may change the packet. *)
Fixpoint first_of (l : list (Pkt -> C (bool * Pkt))) (pkt : Pkt) : C (bool * Pkt) :=
  match l with
  | [] => mret (false, pkt)
  | f :: l' =>
      '(found, pkt') ← f pkt;
      if found : bool then mret (true, pkt') else first_of l' pkt'
  end.

(** The data of the block at [blk_addr], if it is in the cache. *)
Definition satisfy_from_block (blk_addr : Z) (is_secure : bool) (blk : option blkptr) (pkt : Pkt) : C (bool * Pkt) :=
  match blk with
  | None => mret (false, pkt)
  | Some r =>
      b ← the_block r;
      if blk_isValid b then
        '(l, base) ← data_of r;
        n ← param cp_blkSize;
        '(found, pkt', d) ← lift (trySatisfyFunctional_at blk_addr is_secure n
                                    (Some (take (Z.to_nat n) (drop base l))) pkt);
        match d with
        | Some d => l' ← lift (memcpy l base d 0 (Z.to_nat n)); put_data r l'
        | None => mret tt
        end;;
        mret (found, pkt')
      else mret (false, pkt)
  end.

(** [above] forwards a functional snoop to the CPU side, if that side snoops. *)
Definition base_functionalAccess (now : Z) (above : option (Pkt -> C Pkt)) (pkt : Pkt) (from_cpu_side : bool) : C Pkt :=
  n ← param cp_blkSize;
  blk_addr ← lift (getBlockAddr n pkt);
  is_secure ← lift (isSecure pkt);
  addr ← lift (getAddr pkt);
  t ← gets bc_tags;
  o ← lift (findBlock addr is_secure t);
  let blk := InTags <$> o in
  mshr ← on_mshrs now (findMatch blk_addr is_secure true);
  '(have_data, pkt1) ← satisfy_from_block blk_addr is_secure blk pkt;
  have_dirty ←
    match blk with
    | Some r =>
        b ← the_block r;
        if negb have_data then mret false
        else if isDirty b then mret true
        else match mshr with
             | Some i =>
                 e ← on_mshrs now (the_entry i);
                 if m_inService e then lift (isPendingModified e) else mret false
             | None => mret false
             end
    | None => mret false
    end;
  '(done, pkt2) ←
    (if have_dirty : bool then mret (true, pkt1)
     else first_of [cpuSidePort_satisfy; (fun p => on_mshrs now (q_trySatisfyFunctional p));
                    (fun p => on_writes now (q_trySatisfyFunctional p)); memSidePort_satisfy] pkt1);
  if done : bool then lift (pkt_makeResponse pkt2)
  else if from_cpu_side then on_below (ms_recvFunctional pkt2)
  else match above with Some snoop => snoop pkt2 | None => mret pkt2 end.

(** ** Writing back and invalidating everything *)

Definition writebackVisitor (now : Z) (i : nat) : C unit :=
  b ← the_block (InTags i);
  when_ (isDirty b)
    (assert_ (blk_isValid b) "blk.isValid()";;
     addr ← cache_regenerateBlkAddr (InTags i);
     n ← param cp_blkSize;
     let req := set_rq_taskId (task_id b) (new_Request_phys now addr n 0 funcMasterId) in
     req ← (if blk_isSecure b then lift (setFlags SECURE req) else mret req);
     id ← new_id;
     '(l, base) ← data_of (InTags i);
     pkt ← lift (dataStatic (take (Z.to_nat n) (drop base l)) (new_Pkt id req WriteReq));
     on_below (ms_recvFunctional pkt);;
     clear_bits BlkDirty (InTags i)).
Definition invalidateVisitor (i : nat) : C unit :=
  b ← the_block (InTags i);
  when_ (blk_isValid b)
    (assert_ (negb (isDirty b)) "!blk.isDirty()";; invalidateBlock (InTags i)).

Definition forEachBlk (visitor : nat -> C unit) : C unit :=
  l ← gets (fun x => blks (bc_tags x)); forM_ (seq 0 (length l)) visitor.
Definition memWriteback (now : Z) : C unit := forEachBlk (writebackVisitor now).
Definition memInvalidate : C unit := forEachBlk invalidateVisitor.
Definition cache_isDirty x : bool := anyBlk isDirty (bc_tags x).

(** ** Construction *)

(** [mshrQueue] and [writeBuffer] hold their registers; [data] and [tempData] are
    the bytes the arrays of the tags and of the temporary block happen to have,
    [tempAddr] and [junk] what members without an initialiser happen to be. *)
Definition new_BaseCache (p : CacheParams) (mshrs write_buffers max_miss_count : Z) (junk : bool) (tempAddr : Z)
    (tags : BaseSetAssoc P D) (data tempData : list Z) (e : Env) (below : B) : res (BaseCache P D B) :=
  let misses := new_Queue mshrs 0 0 in
  let writes := new_Queue write_buffers mshrs 0 in
  match tagsInit tags with
  | Err e => Err e
  | Ok (_, t) =>
      Ok (mkCache p t data (mkTemp (set_blk_data (Some 0) new_CacheBlk) tempAddr) tempData None None
            (list_to_map (map (fun i => (i, new_MSHR junk)) (q_entries misses)), misses)
            (list_to_map (map (fun i => (i, new_WriteQueueEntry)) (q_entries writes)), writes)
            ([], [], []) 0 0 (mkSlavePort false false None) max_miss_count false new_Clocked
            (mkCacheStats ∅ ∅ 0 ∅ 0 ∅ ∅) e below)
  end.
End BaseCache.
