(* ===== verification/NoncoherentCache.v ===== *)
(** * The non-coherent cache (mem/cache/noncoherent_cache.{hh,cc})

    A cache below the point of coherency: everything it holds is writable and a
    miss always reads the block.  The overrides are put together with the
    operations of [BaseCache]; the result is itself a memory side, so that
    caches can be stacked. *)

From S2P Require Import Prelude EventQ Clocked Packet Request PacketData Indexing CacheBlk ReplPolicy Tags CacheQueue WriteQueue MSHR BaseCache.

Section NoncoherentCache.
Context {P D B : Type} `{!IndexingPolicy P} `{!BaseReplacementPolicy D} `{!MemorySide B}.
Abbreviation C := (M (BaseCache P D B)).

Definition satisfyRequest (pkt : Pkt) (blk : option blkptr) : C Pkt :=
  assert_ (isRead (p_cmd pkt) || isWrite (p_cmd pkt)) "pkt->isRead() || pkt->isWrite()";;
  base_satisfyRequest pkt blk.

Definition evictBlock (now : Z) (r : blkptr) : C (option Pkt) :=
  b ← the_block r;
  wc ← param cp_writebackClean;
  o ← (if isDirty b || wc then pkt ← writebackBlk now r; mret (Some pkt) else mret None);
  invalidateBlock r;;
  mret o.

Definition access (now : Z) (pkt : Pkt) (lat : Z) (writebacks : list Pkt) : C Access :=
  a ← base_access evictBlock satisfyRequest now pkt lat writebacks;
  when_ (isWriteback (p_cmd (ac_pkt a)) || bool_decide (p_cmd (ac_pkt a) = WriteClean))
    match ac_blk a with
    | None => throw (EAssert "blk && blk->isValid()")
    | Some r =>
        b ← the_block r;
        assert_ (blk_isValid b) "blk && blk->isValid()";;
        set_bits BlkWritable r
    end;;
  mret a.

Definition doWritebacksAtomic (now : Z) (writebacks : list Pkt) : C unit :=
  forM_ writebacks (fun wb_pkt => on_below (ms_recvAtomic now wb_pkt);; mret tt).

(** The new packet shares the request of [cpu_pkt]: what happens to the request
    below is seen above ([handleAtomicReqMiss]). *)
Definition createMissPacket (cpu_pkt : Pkt) (blk : option blkptr) : C Pkt :=
  assert_ (needsResponse (p_cmd cpu_pkt)) "cpu_pkt->needsResponse()";;
  match blk with
  | Some r => b ← the_block r; assert_ (negb (blk_isValid b)) "!blk || !blk->isValid()"
  | None => mret tt
  end;;
  n ← param cp_blkSize;
  let pkt := new_Pkt_block (p_id cpu_pkt) (p_req cpu_pkt) ReadReq n in
  a ← lift (getAddr pkt);
  ba ← lift (getBlockAddr n pkt);
  assert_ (a =? ba) "pkt->getAddr() == pkt->getBlockAddr(blkSize)";;
  raw ← raw_memory;
  lift (allocate raw pkt).

Definition allocOnFill (p : CacheParams) (cmd : Command) : bool :=
  bool_decide (cp_clusivity p = mostly_incl) || bool_decide (cmd = WriteLineReq) || bool_decide (cmd = ReadReq)
  || bool_decide (cmd = WriteReq) || isPrefetch cmd || isLLSC cmd.

Definition handleAtomicReqMiss (now : Z) (pkt : Pkt) (blk : option blkptr) (writebacks : list Pkt)
    : C (Z * Pkt * option blkptr * list Pkt) :=
  bus ← createMissPacket pkt blk;
  p ← param id;
  '(t, bus_pkt) ← on_below (ms_recvAtomic now bus);
  let latency := ticksToCycles t (cp_period p) in
  let pkt := set_p_req (p_req bus_pkt) pkt in
  assert_ (isResponse (p_cmd bus_pkt)) "bus_pkt->isResponse()";;
  assert_ (isRead (p_cmd bus_pkt)) "bus_pkt->isRead()";;
  assert_ (negb (bool_decide (p_cmd pkt = UpgradeResp))) "pkt->cmd != MemCmd::UpgradeResp";;
  assert_ (negb (isInvalidate (p_cmd bus_pkt))) "!bus_pkt->isInvalidate()";;
  assert_ (negb (hasSharers bus_pkt)) "!bus_pkt->hasSharers()";;
  '(blk', w) ←
    (if isError (p_cmd bus_pkt) then mret (blk, writebacks)
     else '(r, w) ← handleFill evictBlock now bus_pkt blk writebacks (allocOnFill p (p_cmd bus_pkt));
          mret (Some r, w));
  pkt1 ← satisfyRequest pkt blk';
  maintainClusivity true blk';;
  pkt2 ←
    (if negb (isWriteback (p_cmd pkt1)) && negb (bool_decide (p_cmd pkt1 = WriteClean)) then
       assert_ (needsResponse (p_cmd pkt1)) "pkt->needsResponse()";;
       pkt2 ← lift (pkt_makeResponse pkt1);
       if isError (p_cmd bus_pkt) then lift (copyError bus_pkt pkt2) else mret pkt2
     else mret pkt1);
  mret (latency, pkt2, blk', w).

Definition recvAtomic (now : Z) (pkt : Pkt) : C (Z * Pkt) :=
  panic_if (cacheResponding pkt) "Should not see packets where cache is responding";;
  panic_if (negb (isRead (p_cmd pkt) || isWrite (p_cmd pkt)))
    "Should only see read and writes at non-coherent cache";;
  base_recvAtomic evictBlock access handleAtomicReqMiss doWritebacksAtomic now pkt.

Definition functionalAccess (now : Z) (pkt : Pkt) (from_cpu_side : bool) : C Pkt :=
  panic_if (negb from_cpu_side) "Non-coherent cache received functional snoop request";;
  base_functionalAccess now None pkt from_cpu_side.

(** The event that writes the temporary block back. *)
Definition processTempWriteback (now : Z) : C unit := temp_event doWritebacksAtomic now.

(** [CpuSidePort::recvAtomic] and [CpuSidePort::recvFunctional] *)
Definition cpuSide_recvAtomic (now : Z) (pkt : Pkt) : C (Z * Pkt) :=
  bypass ← param cp_bypassCaches;
  if bypass : bool then on_below (ms_recvAtomic now pkt) else recvAtomic now pkt.
Definition cpuSide_recvFunctional (now : Z) (pkt : Pkt) : C Pkt :=
  bypass ← param cp_bypassCaches;
  if bypass : bool then on_below (ms_recvFunctional pkt) else functionalAccess now pkt true.

(** A cache is a memory side.  Functional accesses do not depend on the time. *)
#[export] Instance NoncoherentCache_side : MemorySide (BaseCache P D B) := {
  ms_recvAtomic := cpuSide_recvAtomic;
  ms_recvFunctional := cpuSide_recvFunctional 0
}.
End NoncoherentCache.
