(* ===== verification/FlatMemory.v ===== *)
(** * What a memory side promises: it behaves like an array of bytes

    The contents of a memory are a partial function from addresses to bytes.
    [LawfulMemory] states what a client of a memory side may rely on: a request
    that stays within a line and within the memory is carried out without a
    failure, a read returns the bytes of the contents, a write changes exactly
    the bytes it covers, and time may pass.  The simple memory keeps the promise;
    the non-coherent cache does so over any component that does. *)

From S2P Require Import Prelude IntMath EventQ Packet Request CacheBlk Indexing IndexingProps BaseCache PacketData PacketDataProps AddrRange PacketQueue AbstractMem AbstractMemProps SimpleMem.

(** The parts of a system agree on the size of a line, [2 ^ w_shift] bytes, and
    on the number of masters; the requests considered are all secure or all
    non-secure. *)
Record World := mkWorld { w_shift : Z; w_secure : bool; w_masters : Z }.
Definition w_line (w : World) : Z := 2 ^ w_shift w.

Definition Contents : Type := Z -> option Z.

(** ** Requests *)

Definition kind_read (c : Command) : bool := isRead c && isRequest c && negb (isWrite c) && negb (isLLSC c).
Definition kind_write (c : Command) : bool :=
  bool_decide (c = WriteReq) || bool_decide (c = WriteLineReq) || bool_decide (c = WritebackDirty)
  || bool_decide (c = WritebackClean).

Record request_ok (w : World) (f : Contents) (pkt : Pkt) : Prop := {
  ro_cmd : kind_read (p_cmd pkt) = true \/ kind_write (p_cmd pkt) = true /\ isInstFetch (p_req pkt) = false;
  ro_addr : p_isSet VALID_ADDR pkt = true;
  ro_size : p_isSet VALID_SIZE pkt = true;
  ro_flag : has_data_flag pkt = true;
  ro_data : exists bs, p_data pkt = Some bs /\ Z.of_nat (length bs) = p_size pkt;
  ro_pos : 0 < p_size pkt;
  ro_fits : block_of (w_shift w) (p_addr pkt + p_size pkt - 1) = block_of (w_shift w) (p_addr pkt);
  ro_there a : covers pkt a = true -> is_Some (f a);
  ro_here : cacheResponding pkt = false;
  ro_secure : p_isSecure pkt = w_secure w;
  ro_mask : isMaskedWrite pkt = true -> Z.of_nat (length (rq_byteEnable (p_req pkt))) = p_size pkt;
  ro_valid : p_bytesValid pkt = [] \/ Z.of_nat (length (p_bytesValid pkt)) = p_size pkt;
  (* the request the packet conveys *)
  ro_paddr : hasPaddr (p_req pkt) = true
             /\ block_of (w_shift w) (rq_paddr (p_req pkt)) = block_of (w_shift w) (p_addr pkt);
  ro_rsecure : rq_isSecure (p_req pkt) = w_secure w;
  ro_master : rq_masterId (p_req pkt) < w_masters w;
  ro_plain : isCacheMaintenance (p_req pkt) = false;
  ro_delay : 0 <= p_headerDelay pkt < 2 ^ 32 /\ 0 <= p_payloadDelay pkt < 2 ^ 32;
  (* a write-back is a whole line, and a clean one brings nothing new *)
  ro_whole : isWriteback (p_cmd pkt) = true -> p_size pkt = w_line w;
  ro_clean : p_cmd pkt = WritebackClean -> forall a, covers pkt a = true -> byte_at pkt a = f a
}.

(** The contents after a request. *)
Definition after (f : Contents) (pkt : Pkt) : Contents := fun a =>
  if isWrite (p_cmd pkt) && writes_at pkt a then byte_at pkt a else f a.

(** The packet that comes back: the response, the bytes, the delay of the data,
    and for the shared request at most the count of levels it has visited. *)
Definition reply (pkt p' : Pkt) : Prop :=
  exists bs d v pd, p' = set_p_payloadDelay pd
      (responded (set_p_bytesValid v (set_p_data (Some bs) (set_p_req (set_rq_depth d (p_req pkt)) pkt))))
    /\ length bs = Z.to_nat (p_size pkt) /\ 0 <= pd < 2 ^ 32.
Definition reads (f : Contents) (pkt p' : Pkt) : Prop :=
  kind_read (p_cmd pkt) = true -> forall a, covers pkt a = true -> byte_at p' a = f a.

(** Two contents with the same bytes. *)
#[export] Instance contents_equiv : Equiv Contents := fun f g => forall a, f a = g a.
#[export] Instance contents_equivalence : Equivalence (≡@{Contents}).
Proof.
  split.
  - by intros f a.
  - intros f g H a. by rewrite (H a).
  - intros f g h H1 H2 a. by rewrite (H1 a).
Qed.
#[export] Instance after_proper : Proper ((≡) ==> (=) ==> (≡@{Contents})) after.
Proof. intros f g Hfg p q -> a. unfold after. by rewrite Hfg. Qed.
#[export] Instance reads_proper : Proper ((≡@{Contents}) ==> (=) ==> (=) ==> iff) reads.
Proof.
  intros f g Hfg p q -> p' q' ->. unfold reads. split; intros H Hk a Ha; rewrite (H Hk a Ha); [|symmetry]; apply Hfg.
Qed.
#[export] Instance request_ok_proper w : Proper ((≡@{Contents}) ==> (=) ==> iff) (request_ok w).
Proof.
  assert (forall f g p, f ≡ g -> request_ok w f p -> request_ok w g p) as H.
  { intros f g p Hfg []. split; try done.
    - intros a Ha. rewrite <- (Hfg a). auto.
    - intros Hc a Ha. rewrite <- (Hfg a). auto. }
  intros f g Hfg p q ->. split; apply H; [done|]. by symmetry.
Qed.

(** ** The promise *)

Class LawfulMemory (B : Type) `{!MemorySide B} (w : World) := {
  lm_rep : Z -> B -> Contents -> Prop;
  lm_ext now b f g : lm_rep now b f -> f ≡ g -> lm_rep now b g;
  lm_time now now' b f : lm_rep now b f -> now <= now' < 2 ^ 62 -> lm_rep now' b f;
  lm_bounds now b f a : lm_rep now b f -> is_Some (f a) -> 0 <= a < 2 ^ 64;
  lm_lines now b f a a' : lm_rep now b f -> is_Some (f a) ->
    block_of (w_shift w) a' = block_of (w_shift w) a -> is_Some (f a');
  lm_atomic now b f pkt : lm_rep now b f -> request_ok w f pkt ->
    exists lat p' b', ms_recvAtomic now pkt b = Ok ((lat, p'), b')
      /\ lm_rep now b' (after f pkt) /\ reply pkt p' /\ reads f pkt p';
  lm_functional now b f pkt : lm_rep now b f -> request_ok w f pkt ->
    needsResponse (p_cmd pkt) = true -> isMaskedWrite pkt = false ->
    exists p' b', ms_recvFunctional pkt b = Ok (p', b')
      /\ lm_rep now b' (after f pkt) /\ reply pkt p' /\ reads f pkt p'
}.

(** ** Lines *)

Section Lines.
Context (s : Z) (Hs : 0 <= s).

Lemma block_of_spec a : block_of s a <= a < block_of s a + 2 ^ s.
Proof using Hs.
  unfold block_of. pose proof (Z.div_mod a (2 ^ s)). pose proof (Z.mod_pos_bound a (2 ^ s)). lia.
Qed.

Lemma block_of_unique a l : block_of s l = l -> l <= a < l + 2 ^ s -> block_of s a = l.
Proof using Hs.
  intros El Ha. pose proof (block_of_spec a). revert El H. unfold block_of. set (k := 2 ^ s). set (q := a / k).
  set (u := l / k). intros El H. assert (0 < k) by (subst k; lia). assert (u = q) by nia. nia.
Qed.

Lemma block_of_between lo hi a a' : block_of s lo = lo -> block_of s hi = hi -> block_of s a' = block_of s a ->
  lo <= a < hi -> lo <= a' < hi.
Proof using Hs.
  intros E1 E2 E Ha. pose proof (block_of_spec a) as H. pose proof (block_of_spec a') as H'. rewrite E in H'. revert E1 E2 H H'.
  unfold block_of. set (k := 2 ^ s). set (q := a / k). set (u := lo / k). set (v := hi / k). intros E1 E2 H H'.
  assert (0 < k) by (subst k; lia). assert (u <= q) by nia. assert (q < v) by nia. nia.
Qed.
End Lines.

(** ** Consequences of the shape of a request *)

Section Requests.
Context {w : World} {f : Contents} {pkt : Pkt} (Hpkt : request_ok w f pkt).

Lemma ro_range a : covers pkt a = true <-> p_addr pkt <= a < p_addr pkt + p_size pkt.
Proof using Type. unfold covers. rewrite andb_true_iff, Z.leb_le, Z.ltb_lt. done. Qed.

Lemma ro_first : is_Some (f (p_addr pkt)) /\ is_Some (f (p_addr pkt + p_size pkt - 1)).
Proof using Hpkt. pose proof (ro_pos _ _ _ Hpkt). split; apply (ro_there _ _ _ Hpkt), ro_range; lia. Qed.
End Requests.

Lemma kind_exclusive c : kind_read c = true -> kind_write c = false.
Proof. by destruct c. Qed.
Lemma kind_read_plain c : kind_read c = true ->
  plain_read c = true /\ isLLSC c = false /\ isWrite c = false /\ needsResponse c = true /\ isRequest c = true
  /\ isWriteback c = false /\ isEviction c = false.
Proof. by destruct c. Qed.
Lemma kind_write_cases c : kind_write c = true ->
  c = WriteReq \/ c = WriteLineReq \/ c = WritebackDirty \/ c = WritebackClean.
Proof. destruct c; try done; auto. Qed.
Lemma kind_write_plain c : kind_write c = true ->
  plain_write c = true /\ isLLSC c = false /\ isWrite c = true /\ isRead c = false /\ isRequest c = true
  /\ negb (isWriteback c) = needsResponse c.
Proof. by destruct c. Qed.
Lemma kind_read_unmasked p : kind_read (p_cmd p) = true -> isMaskedWrite p = false.
Proof. intros Hk. unfold isMaskedWrite. rewrite bool_decide_eq_false_2; [done|]. intros E. by rewrite E in Hk. Qed.

Lemma after_read f pkt : kind_read (p_cmd pkt) = true -> after f pkt ≡ f.
Proof. intros Hk a. unfold after. by destruct (kind_read_plain _ Hk) as (_ & _ & -> & _). Qed.

(** A clean write-back changes nothing. *)
Lemma after_clean w f pkt : request_ok w f pkt -> p_cmd pkt = WritebackClean -> after f pkt ≡ f.
Proof.
  intros Hr Hc a. unfold after, writes_at. destruct (covers pkt a) eqn:E; [|by rewrite andb_false_r].
  rewrite (ro_clean _ _ _ Hr Hc a E). by destruct (_ && _).
Qed.

(** A response is found where the request was. *)
Lemma byte_at_responded p a : byte_at (responded p) a = byte_at p a.
Proof. unfold responded. by destruct (needsResponse (p_cmd p)). Qed.

(** A packet that only changes its data is a reply. *)
Lemma delay_responded p : set_p_payloadDelay (p_payloadDelay p) (responded p) = responded p.
Proof. unfold responded. destruct (needsResponse (p_cmd p)); by destruct p. Qed.
Lemma reply_data w f pkt bs : request_ok w f pkt -> length bs = Z.to_nat (p_size pkt) ->
  reply pkt (responded (set_p_data (Some bs) pkt)).
Proof.
  intros Hr Hl. exists bs, (rq_depth (p_req pkt)), (p_bytesValid pkt), (p_payloadDelay pkt). split; [|split; [done|apply Hr]].
  rewrite <- (delay_responded (set_p_data _ _)). do 2 f_equal. by destruct pkt as [? ? ? []].
Qed.
Lemma reply_same w f pkt bs : request_ok w f pkt -> p_data pkt = Some bs -> Z.of_nat (length bs) = p_size pkt ->
  reply pkt (responded pkt).
Proof.
  intros Hr Hd Hl. assert (pkt = set_p_data (Some bs) pkt) as E by (rewrite <- Hd; by destruct pkt).
  rewrite E at 2. eapply reply_data; [exact Hr|]. lia.
Qed.

(** ** The simple memory keeps the promise *)

(** A memory with the random numbers it will draw. *)
Record SimpleMemPort := mkSMPort { smp_mem : SimpleMemory; smp_random : nat -> Z; smp_drawn : nat }.
#[export] Instance SimpleMemory_side : MemorySide SimpleMemPort := {
  ms_recvAtomic _ pkt := fun s =>
    match sm_recvAtomic pkt (smp_random s (smp_drawn s)) (smp_mem s) with
    | Ok (r, m) => Ok (r, mkSMPort m (smp_random s) (S (smp_drawn s)))
    | Err e => Err e
    end;
  ms_recvFunctional pkt := fun s =>
    match sm_recvFunctional pkt (smp_mem s) with
    | Ok (r, m) => Ok (r, mkSMPort m (smp_random s) (smp_drawn s))
    | Err e => Err e
    end
}.

Section SimpleMemory.
Context (w : World).

(** A memory of whole lines in which no response is waiting. *)
Record mem_rep (x : SimpleMemory) (f : Contents) : Prop := {
  mr_ok : mem_ok (sm_mem x);
  mr_shift : 0 <= w_shift w;
  mr_start : block_of (w_shift w) (ar_start (am_range (sm_mem x))) = ar_start (am_range (sm_mem x));
  mr_end : block_of (w_shift w) (ar_end (am_range (sm_mem x))) = ar_end (am_range (sm_mem x));
  mr_quiet : sm_queue x = [];
  mr_bytes : f ≡ mem_byte (sm_mem x)
}.

Lemma mem_byte_range x a : mem_ok x -> is_Some (mem_byte x a) <-> ar_start (am_range x) <= a < ar_end (am_range x).
Proof using Type.
  intros [_ Hr (mem & Hm & Hl) _]. unfold mem_byte. rewrite Hm. simpl.
  destruct (Z.leb_spec (ar_start (am_range x)) a), (Z.ltb_spec a (ar_end (am_range x))); simpl;
    split; intros Ha; try lia; try by destruct Ha.
  apply lookup_lt_is_Some_2. lia.
Qed.

Lemma request_access x f pkt : mem_rep x f -> request_ok w f pkt -> p_cmd pkt <> WritebackClean ->
  access_ok pkt (sm_mem x).
Proof using Type.
  intros Hm Hr Hc. destruct (ro_first Hr) as [H1 H2]. rewrite (mr_bytes _ _ Hm (p_addr pkt)) in H1.
  rewrite (mr_bytes _ _ Hm (_ - 1)) in H2. apply mem_byte_range in H1, H2; [|apply Hm|apply Hm].
  pose proof (ro_pos _ _ _ Hr). split; try apply Hr; try done.
  - lia.
  - destruct (ro_cmd _ _ _ Hr) as [Hk|[Hk Hf]].
    + left. by apply kind_read_plain.
    + right. split; [by apply kind_write_plain|done].
  - intros Hl. destruct (ro_cmd _ _ _ Hr) as [Hk|[Hk _]].
    + destruct (kind_read_plain _ Hk) as (_ & E & _). congruence.
    + destruct (kind_write_plain _ Hk) as (_ & E & _). congruence.
Qed.

Lemma mem_rep_set x f m f' : mem_rep x f -> mem_ok m -> am_range m = am_range (sm_mem x) -> f' ≡ mem_byte m ->
  mem_rep (set_sm_mem m x) f'.
Proof using Type. intros [H1 H2 H3 H4 H5 H6] Hm Er Ef. split; simpl; rewrite ?Er; done. Qed.

(** The bytes of a request that no store-conditional makes conditional. *)
Lemma mem_performs x f pkt : mem_rep x f -> request_ok w f pkt -> p_cmd pkt <> WritebackClean ->
  exists p m, perform pkt (toHostAddr (p_addr pkt) (sm_mem x)) (sm_mem x) = Ok (p, m)
    /\ mem_ok m /\ am_range m = am_range (sm_mem x) /\ mem_byte m ≡ after f pkt
    /\ (exists bs, p = set_p_data (Some bs) pkt /\ length bs = Z.to_nat (p_size pkt)) /\ reads f pkt p.
Proof using Type.
  intros Hm Hr Hc. pose proof (request_access x f pkt Hm Hr Hc) as Ha. pose proof (mr_ok _ _ Hm) as Hok.
  destruct (ro_data _ _ _ Hr) as (bs & Hb & Hbl).
  destruct (ro_cmd _ _ _ Hr) as [Hk|[Hk _]].
  - destruct (kind_read_plain _ Hk) as (Hpl & _).
    destruct (read_performs pkt (sm_mem x) Hok Ha Hpl) as (p & m & Hp & Hm' & Er & Hmb & Ed & Hby & _ & bs' & Hd & Hl).
    exists p, m. split; [done|]. split; [done|]. split; [done|]. split.
    { intros a. rewrite (after_read f pkt Hk a), Hmb. symmetry. apply (mr_bytes _ _ Hm). }
    split; [|intros _ a Ha'; rewrite (Hby a Ha'); symmetry; apply (mr_bytes _ _ Hm)].
    exists bs'. rewrite Hd in Ed. done.
  - destruct (kind_write_plain _ Hk) as (Hpl & Hll & Hw & _).
    destruct (write_performs pkt (sm_mem x) Hok Ha Hpl) as (m & Hp & Hm' & Er & Hmb & _).
    unfold granted in Hmb. unfold with_outcome in Hp. rewrite Hll in Hp, Hmb. simpl in Hmb.
    eexists _, m. split; [exact Hp|]. split; [done|]. split; [done|]. split.
    { intros a. rewrite Hmb. unfold after. rewrite Hw. simpl. destruct (writes_at pkt a); [done|].
      symmetry. apply (mr_bytes _ _ Hm). }
    split; [exists bs; split; [rewrite <- Hb; by destruct pkt|lia]|].
    intros Hkr. apply kind_exclusive in Hkr. congruence.
Qed.

Lemma mem_atomic x f pkt rnd : mem_rep x f -> request_ok w f pkt ->
  exists lat p' x', sm_recvAtomic pkt rnd x = Ok ((lat, p'), x')
    /\ mem_rep x' (after f pkt) /\ reply pkt p' /\ reads f pkt p'.
Proof using Type.
  intros Hm Hr. unfold sm_recvAtomic. rewrite bind_panic_if by apply (ro_here _ _ _ Hr).
  destruct (decide (p_cmd pkt = WritebackClean)) as [Hc|Hc].
  - destruct (ro_data _ _ _ Hr) as (bs & Hb & Hbl). erewrite bind_run; cycle 1.
    { unfold on_mem, mem_access. rewrite (ro_here _ _ _ Hr), Hc. cbn [bool_decide orb]. reflexivity. }
    rewrite bind_gets. eexists _, _, _. split; [reflexivity|]. split.
    { apply mem_rep_set with f; [done|apply Hm|done|]. rewrite (after_clean w f pkt Hr Hc). apply (mr_bytes _ _ Hm). }
    split; [|intros Hk; by rewrite Hc in Hk].
    assert (responded pkt = pkt) as E by (unfold responded; by rewrite Hc). rewrite <- E at 2. by eapply reply_same.
  - destruct (mem_performs x f pkt Hm Hr Hc) as (p & m & Hp & Hok & Er & Hf & (bs & Ep & Hl) & Hrd).
    erewrite bind_run; cycle 1.
    { unfold on_mem. erewrite mem_access_perform; [reflexivity|apply Hm|by apply (request_access x f)|exact Hp]. }
    rewrite bind_gets. eexists _, _, _. split; [reflexivity|]. split.
    { by apply mem_rep_set with f. }
    split; [rewrite Ep; by eapply reply_data|]. intros Hk a Ha. rewrite byte_at_responded. by apply Hrd.
Qed.

(** Functional accesses copy the same bytes. *)
Lemma load_data_run x f pkt : mem_rep x f -> request_ok w f pkt -> kind_read (p_cmd pkt) = true ->
  exists bs, load_data pkt (toHostAddr (p_addr pkt) (sm_mem x)) (sm_mem x) = Ok (set_p_data (Some bs) pkt, sm_mem x)
    /\ length bs = Z.to_nat (p_size pkt) /\ reads f pkt (set_p_data (Some bs) pkt).
Proof using Type.
  intros Hm Hr Hk. pose proof (mr_ok _ _ Hm) as [_ _ (mem & Hmem & Hlen) _].
  pose proof (request_access x f pkt Hm Hr) as Ha. specialize (Ha ltac:(intros E; by rewrite E in Hk)).
  destruct (ro_data _ _ _ Hr) as (bs & Hb & Hbl). destruct (ao_range _ _ Ha) as (H1 & H2 & H3).
  set (host := toHostAddr (p_addr pkt) (sm_mem x)).
  assert (host = Z.to_nat (p_addr pkt - ar_start (am_range (sm_mem x)))) as Hhost by done.
  eexists. split; [|split].
  - unfold load_data. rewrite bind_gets, Hmem. unfold lift.
    rewrite (setData_run pkt bs); [reflexivity|apply Ha|apply Ha|by apply kind_read_unmasked|done|done|].
    rewrite length_drop. lia.
  - rewrite length_take, length_drop. lia.
  - intros _ a Hca. rewrite (mr_bytes _ _ Hm a). pose proof (proj1 (ro_range a) Hca).
    rewrite (mem_byte_index (sm_mem x) mem) by (done || lia). unfold byte_at.
    change (covers (set_p_data _ pkt) a) with (covers pkt a). rewrite Hca. simpl.
    rewrite lookup_take_lt, lookup_drop by lia. f_equal. lia.
Qed.

Lemma store_data_run x f pkt : mem_rep x f -> request_ok w f pkt -> kind_write (p_cmd pkt) = true ->
  p_cmd pkt <> WritebackClean ->
  exists m, store_data pkt (toHostAddr (p_addr pkt) (sm_mem x)) (sm_mem x) = Ok (tt, m)
    /\ mem_ok m /\ am_range m = am_range (sm_mem x) /\ mem_byte m ≡ after f pkt.
Proof using Type.
  intros Hm Hr Hk Hc. pose proof (mr_ok _ _ Hm) as [Hpl Hrg (mem & Hmem & Hlen) Hlk].
  pose proof (request_access x f pkt Hm Hr Hc) as Ha.
  destruct (kind_write_plain _ Hk) as (_ & _ & Hw & _).
  destruct (ro_data _ _ _ Hr) as (bs & Hb & Hbl). destruct (ao_range _ _ Ha) as (H1 & H2 & H3).
  set (host := toHostAddr (p_addr pkt) (sm_mem x)).
  assert (host = Z.to_nat (p_addr pkt - ar_start (am_range (sm_mem x)))) as Hhost by done.
  destruct (writeData_run pkt bs mem host) as (mem' & Hwd & Hl' & Hmi); [apply Ha|apply Ha|done|done|apply Ha|lia|].
  eexists. split.
  { unfold store_data. rewrite bind_gets, Hmem. erewrite bind_run by (unfold lift; rewrite Hwd; reflexivity). reflexivity. }
  split; [split; simpl; eauto; exists mem'; split; [done|lia]|]. split; [done|].
  intros a. unfold after. rewrite Hw. simpl. rewrite (mr_bytes _ _ Hm a).
  destruct (Z.le_gt_cases (ar_start (am_range (sm_mem x))) a); cycle 1.
  { unfold mem_byte, writes_at, covers. simpl. rewrite (proj2 (Z.leb_gt _ _)) by lia.
    by rewrite (proj2 (Z.leb_gt (p_addr pkt) a)) by lia. }
  rewrite (mem_byte_index (sm_mem x) mem), (mem_byte_index _ mem') by (done || simpl; lia). simpl.
  rewrite Hmi. unfold writes_at, byte_at. rewrite Hb.
  destruct (covers pkt a) eqn:Hca; unfold covers in Hca; cycle 1.
  { by rewrite bool_decide_eq_false_2 by lia. }
  rewrite (bool_decide_eq_true_2 (host <= _ < _)%nat) by lia. simpl.
  by replace (Z.to_nat (a - ar_start (am_range (sm_mem x))) - host)%nat with (Z.to_nat (a - p_addr pkt)) by lia.
Qed.

Lemma mem_functional x f pkt : mem_rep x f -> request_ok w f pkt -> needsResponse (p_cmd pkt) = true ->
  exists p' x', sm_recvFunctional pkt x = Ok (p', x')
    /\ mem_rep x' (after f pkt) /\ reply pkt p' /\ reads f pkt p'.
Proof using Type.
  intros Hm Hr Hn. assert (p_cmd pkt <> WritebackClean) as Hc by (intros E; by rewrite E in Hn).
  pose proof (request_access x f pkt Hm Hr Hc) as Ha. destruct (ao_range _ _ Ha) as (H1 & H2 & H3).
  pose proof (mr_ok _ _ Hm) as [Hpl Hrg _ _].
  assert (exists p m, functionalAccess pkt (sm_mem x) = Ok (responded p, m) /\ mem_ok m
    /\ am_range m = am_range (sm_mem x) /\ mem_byte m ≡ after f pkt
    /\ (exists bs, p = set_p_data (Some bs) pkt /\ length bs = Z.to_nat (p_size pkt)) /\ reads f pkt p)
    as (p & m & Hrun & Hok & Er & Hf & (bs & Ep & Hl) & Hrd).
  { unfold functionalAccess. erewrite bind_run; cycle 1.
    { unfold lift, getAddrRange. rewrite getAddr_run, getSize_run by apply Ha. reflexivity. }
    rewrite bind_gets. erewrite bind_run; cycle 1.
    { unfold lift, isSubset, interleaved. rewrite Hpl. unfold RangeSize, AddrRange_simple. cbn. reflexivity. }
    rewrite bind_assert by (rewrite u64_small by lia; lia).
    erewrite bind_run by (unfold lift; rewrite getAddr_run by apply Ha; reflexivity). rewrite bind_gets.
    destruct (ro_cmd _ _ _ Hr) as [Hk|[Hk _]].
    - destruct (kind_read_plain _ Hk) as (Hpr & _). destruct (andb_prop _ _ Hpr) as [Hrd _]. rewrite Hrd.
      destruct (load_data_run x f pkt Hm Hr Hk) as (bs & Hld & Hl & Hrds). erewrite bind_run by exact Hld.
      exists (set_p_data (Some bs) pkt), (sm_mem x). split.
      { unfold lift. rewrite pkt_makeResponse_run by done. unfold responded. simpl. by rewrite Hn. }
      split; [apply Hm|]. split; [done|]. split; [|by eauto].
      rewrite (after_read f pkt Hk). symmetry. apply (mr_bytes _ _ Hm).
    - destruct (kind_write_plain _ Hk) as (_ & _ & Hw & Hrd & _). rewrite Hrd, Hw.
      destruct (store_data_run x f pkt Hm Hr Hk Hc) as (m & Hst & Hok & Er & Hf). erewrite bind_run by exact Hst.
      destruct (ro_data _ _ _ Hr) as (bs & Hb & Hbl). exists pkt, m. split.
      { unfold lift. rewrite pkt_makeResponse_run by done. unfold responded. by rewrite Hn. }
      split; [done|]. split; [done|]. split; [done|].
      split; [exists bs; split; [rewrite <- Hb; by destruct pkt|lia]|].
      intros Hkr. apply kind_exclusive in Hkr. congruence. }
  unfold sm_recvFunctional. erewrite bind_run by (unfold on_mem; rewrite Hrun; reflexivity).
  rewrite bind_gets. simpl. rewrite (mr_quiet _ _ Hm). simpl.
  eexists _, _. split; [reflexivity|]. split.
  { destruct (mem_rep_set x f m (after f pkt) Hm Hok Er) as [? ? ? ? ? ?]; [done|]. split; done. }
  split; [rewrite Ep; by eapply reply_data|]. intros Hk a Hca. rewrite byte_at_responded. by apply Hrd.
Qed.
End SimpleMemory.

#[export] Program Instance SimpleMemory_lawful (w : World) : LawfulMemory SimpleMemPort w := {
  lm_rep _ b f := mem_rep w (smp_mem b) f
}.
Next Obligation.
  intros w now b f g [H1 H2 H3 H4 H5 H6] Hfg. split; try done. by rewrite <- Hfg.
Qed.
Next Obligation. done. Qed.
Next Obligation.
  intros w now b f a Hm Ha. rewrite (mr_bytes _ _ _ Hm a) in Ha. apply mem_byte_range in Ha; [|apply Hm].
  pose proof (mo_range _ (mr_ok _ _ _ Hm)). lia.
Qed.
Next Obligation.
  intros w now b f a a' Hm Ha E. rewrite (mr_bytes _ _ _ Hm a) in Ha. rewrite (mr_bytes _ _ _ Hm a').
  rewrite mem_byte_range in Ha |- * by apply Hm. pose proof (mr_shift _ _ _ Hm).
  apply (block_of_between (w_shift w) ltac:(done) _ _ a); try done; apply Hm.
Qed.
Next Obligation.
  intros w now b f pkt Hm Hr. simpl.
  destruct (mem_atomic w (smp_mem b) f pkt (smp_random b (smp_drawn b)) Hm Hr) as (lat & p' & x' & -> & H).
  eexists _, _, _. split; [reflexivity|]. exact H.
Qed.
Next Obligation.
  intros w now b f pkt Hm Hr Hn _. simpl.
  destruct (mem_functional w (smp_mem b) f pkt Hm Hr Hn) as (p' & x' & -> & H).
  eexists _, _. split; [reflexivity|]. exact H.
Qed.
