(* ===== verification/CacheLines.v ===== *)
(** * A cache as a map from lines to bytes

    The abstract state of a cache is a finite map from line addresses to a dirty
    flag and the bytes of the line.  [cached now y x A] says that the cache [x]
    over the component [y] represents [A].  An operation works on one block,
    whose line is taken out of the map ([opened]) and put back at the end. *)

From S2P Require Import Prelude IntMath EventQ Hoare Clocked Packet Request PacketQueue CacheQueue WriteQueue MSHR CacheBlk ReplPolicy ReplPolicyProps Indexing IndexingProps Tags TagsProps BaseCache NoncoherentCache PacketData PacketDataProps AbstractMemProps FlatMemory.

Lemma total_zoom {S T R} (view : S -> T) put (m : M T R) (Q : R -> S -> Prop) s r t :
  m (view s) = Ok (r, t) -> Q r (put t s) -> total (zoom view put m) Q s.
Proof. unfold wp, zoom. by intros ->. Qed.

(** ** Status bits *)

Lemma land_two x j k : 0 <= j -> 0 <= k ->
  (Z.land x (Z.lor (2 ^ j) (2 ^ k)) =? Z.lor (2 ^ j) (2 ^ k)) = Z.testbit x j && Z.testbit x k.
Proof.
  intros Hj Hk. destruct (Z.eqb_spec (Z.land x (Z.lor (2 ^ j) (2 ^ k))) (Z.lor (2 ^ j) (2 ^ k))) as [E|E]; symmetry.
  - apply andb_true_iff. split.
    + assert (Z.testbit (Z.lor (2 ^ j) (2 ^ k)) j = true) as H by (by rewrite Z.lor_spec, Z.pow2_bits_true).
      rewrite <- E, Z.land_spec in H. by apply andb_true_iff in H as [H _].
    + assert (Z.testbit (Z.lor (2 ^ j) (2 ^ k)) k = true) as H
        by (by rewrite Z.lor_spec, (Z.pow2_bits_true k), orb_true_r).
      rewrite <- E, Z.land_spec in H. by apply andb_true_iff in H as [H _].
  - apply not_true_iff_false. intros [H1 H2]%andb_true_iff. apply E. apply Z.bits_inj'. intros i Hi.
    rewrite Z.land_spec, Z.lor_spec, !Z.pow2_bits_eqb by done.
    destruct (Z.eqb_spec j i) as [<-|]; [by rewrite H1|]. destruct (Z.eqb_spec k i) as [<-|]; [by rewrite H2|].
    by rewrite andb_false_r.
Qed.
Lemma valid_bit b : blk_isValid b = Z.testbit (status b) 0.
Proof. apply (land_bit (status b) 0). lia. Qed.
Lemma dirty_bit b : isDirty b = Z.testbit (status b) 3.
Proof. apply (land_bit (status b) 3). lia. Qed.
Lemma secure_bit b : blk_isSecure b = Z.testbit (status b) 6.
Proof. apply (land_bit (status b) 6). lia. Qed.
Lemma writable_bits b : isWritable b = Z.testbit (status b) 1 && Z.testbit (status b) 0.
Proof. apply (land_two (status b) 1 0); lia. Qed.
Lemma readable_bits b : isReadable b = Z.testbit (status b) 2 && Z.testbit (status b) 0.
Proof. apply (land_two (status b) 2 0); lia. Qed.

(** What the tags and the layout know a block by. *)
Definition ident (b : CacheBlk) : (Z * Z) * Z * bool * bool * Z * option Z * list Lock * Z :=
  (place b, blk_tag b, blk_isValid b, blk_isSecure b, srcMasterId b, blk_data b, lockList b, tickInserted b).

Definition keeps_ident (bits : Z) : Prop := Z.testbit bits 0 = false /\ Z.testbit bits 6 = false.
Lemma ident_set_bits bits b : keeps_ident bits -> ident (set_status (Z.lor (status b) bits) b) = ident b.
Proof.
  intros [H0 H6]. unfold ident. rewrite !valid_bit, !secure_bit. cbn [set_status status].
  rewrite !Z.lor_spec, H0, H6, !orb_false_r. done.
Qed.
Lemma ident_clear_bits bits b : keeps_ident bits -> ident (set_status (Z.ldiff (status b) bits) b) = ident b.
Proof.
  intros [H0 H6]. unfold ident. rewrite !valid_bit, !secure_bit. cbn [set_status status].
  rewrite !Z.ldiff_spec, H0, H6, !andb_true_r. done.
Qed.

(** ** The invariant *)

Section Lines.
Context {P D B : Type} `{!IndexingPolicy P} `{R : !BaseReplacementPolicy D} `{!MemorySide B}.
Context {wf : P -> Prop} `{!LawfulIndexing P wf} {ok : D -> Prop} `{!LawfulPolicy R ok}.
Context (w : World) (ip : P).
Implicit Types x : BaseCache P D B.
Implicit Types m : gmap (Z * bool) nat.
Implicit Types A : gmap Z (bool * list Z).
Abbreviation line := (w_line w).
Abbreviation sec := (w_secure w).
Abbreviation tinv := (tags_inv (wf := wf) (ok := ok)).

Record params_ok (p : CacheParams) : Prop := {
  pk_shift : 0 <= w_shift w < 31;
  pk_blkSize : cp_blkSize p = line;
  pk_incl : cp_clusivity p = mostly_incl;
  pk_rw : cp_isReadOnly p = false;
  pk_masters : cp_maxMasters p = w_masters w;
  pk_some : 1 < w_masters w;
  pk_period : 0 < cp_period p < 2 ^ 32;
  pk_fill : 0 <= cp_fillLatency p < 2 ^ 20;
  pk_caching : cp_bypassCaches p = false
}.

(** What holds of the cache whatever is going on with a block: the tags
    represent [m] and place blocks by the policy [ip], the data of block [i] is the [i]-th line of the array, nothing
    is outstanding, and the component below is [y]. *)
Record shape (now : Z) (y : B) x m : Prop := {
  sh_params : params_ok (bc_params x);
  sh_tags : tinv (bc_tags x) m;
  sh_policy : indexingPolicy (bc_tags x) = ip;
  sh_shift : setShift (ip_base ip) = w_shift w;
  sh_masters : maxMasters (bc_tags x) = w_masters w;
  sh_latency : 0 <= lookupLatency (bc_tags x) < 2 ^ 20;
  sh_secure l s i : m !! (l, s) = Some i -> s = sec;
  sh_len : length (bc_dataBlks x) = (length (blks (bc_tags x)) * Z.to_nat line)%nat;
  sh_blk i b : blks (bc_tags x) !! i = Some b ->
    blk_data b = Some (line * Z.of_nat i) /\ lockList b = [] /\ 0 <= tickInserted b <= now;
  sh_temp : status (tmp_blk (bc_tempBlock x)) = 0 /\ bc_tempBlockWriteback x = None;
  sh_mshrs : allocatedList (bc_mshrQueue x).2 = [];
  sh_writes : allocatedList (bc_writeBuffer x).2 = [];
  sh_queued : bc_queued x = ([], [], []);
  sh_clock : 0 <= ck_cycle (bc_clock x) <= ck_tick (bc_clock x) /\ ck_tick (bc_clock x) < now + cp_period (bc_params x);
  sh_now : 0 <= now < 2 ^ 62;
  sh_below : bc_below x = y
}.

Definition line_data x (i : nat) : list Z := take (Z.to_nat line) (drop (Z.to_nat line * i) (bc_dataBlks x)).

(** A block that can serve reads and writes. *)
Definition ready (b : CacheBlk) : Prop := isWritable b = true /\ isReadable b = true /\ whenReady b <> MaxTick.

(** The blocks of [m] are the lines of [A]. *)
Definition lines x m A : Prop := forall l,
  match A !! l with
  | Some (d, bs) => exists i b, m !! (l, sec) = Some i /\ blks (bc_tags x) !! i = Some b /\ ready b
                      /\ isDirty b = d /\ line_data x i = bs
  | None => m !! (l, sec) = None
  end.

Definition cached (now : Z) (y : B) x A : Prop := exists m, shape now y x m /\ lines x m A.

(** Line [l] is in block [v], which is being worked on; the others are [A]. *)
Record opened (now : Z) (y : B) x m (l : Z) (v : nat) A (b : CacheBlk) (bs : list Z) : Prop := {
  op_shape : shape now y x m;
  op_here : m !! (l, sec) = Some v;
  op_blk : blks (bc_tags x) !! v = Some b;
  op_data : line_data x v = bs;
  op_others : lines x (delete (l, sec) m) A
}.

(** Reading the current block. *)
Lemma op_holds now y x m l v A b bs : opened now y x m l v A b bs ->
  blk_isValid b = true /\ blk_isSecure b = sec /\ addr_ok l /\ block_of (w_shift w) l = l
  /\ regenerateBlkAddr v (bc_tags x) = Ok l.
Proof using Type*.
  intros [Hs Hm Hb _ _]. apply (ti_rep _ _ (sh_tags _ _ _ _ Hs)) in Hm as Hh.
  pose proof (holds_address (wf := wf) _ _ _ _ (ti_wf _ _ (sh_tags _ _ _ _ Hs)) Hh) as Ha.
  destruct Hh as (b' & Hb' & Hv & Hsec & Hok & Hbl & _). assert (b' = b) as -> by congruence.
  split_and!; try done; try lia. revert Hbl. unfold blk_addr. by rewrite (sh_policy _ _ _ _ Hs), (sh_shift _ _ _ _ Hs).
Qed.

Lemma line_pos : 0 <= w_shift w -> 0 < line.
Proof using Type. intros. unfold w_line. lia. Qed.

Lemma line_data_length now y x m i : shape now y x m -> is_Some (blks (bc_tags x) !! i) ->
  length (line_data x i) = Z.to_nat line.
Proof using Type*.
  intros Hs [b Hb]. pose proof (lookup_lt_Some _ _ _ Hb). unfold line_data. rewrite length_take, length_drop, (sh_len _ _ _ _ Hs).
  nia.
Qed.

(** ** Taking a line out and putting it back *)

Lemma delete_other m A x l v : m !! (l, sec) = Some v -> lines x m A ->
  lines x (delete (l, sec) m) (delete l A).
Proof using Type.
  intros Hm HA l'. specialize (HA l'). destruct (decide (l = l')) as [<-|Hne].
  - rewrite !lookup_delete_eq. done.
  - rewrite (lookup_delete_ne A) by done. destruct (A !! l') as [[d bs]|].
    + destruct HA as (i & b & Hi & H). exists i, b. rewrite lookup_delete_ne by congruence. done.
    + rewrite lookup_delete_ne by congruence. done.
Qed.

Lemma cached_open now y x A l d bs : cached now y x A -> A !! l = Some (d, bs) ->
  exists m v b, opened now y x m l v (delete l A) b bs /\ ready b /\ isDirty b = d.
Proof using Type.
  intros (m & Hs & HA) Hl. pose proof (HA l) as H. rewrite Hl in H. destruct H as (v & b & Hm & Hb & Hr & Hd & Hbs).
  exists m, v, b. split; [|done]. split; try done. by eapply delete_other.
Qed.

Lemma opened_lines now y x m l v A b bs : opened now y x m l v A b bs -> ready b ->
  lines x m (<[l := (isDirty b, bs)]> A).
Proof using Type.
  intros [Hs Hm Hb Hbs HA] Hr l'. specialize (HA l').
  destruct (decide (l = l')) as [<-|Hne].
  - rewrite lookup_insert_eq. by exists v, b.
  - rewrite lookup_insert_ne by done. destruct (A !! l') as [[d bs']|].
    + destruct HA as (i & b' & Hi & H). exists i, b'. by rewrite lookup_delete_ne in Hi by congruence.
    + by rewrite lookup_delete_ne in HA by congruence.
Qed.
Lemma opened_close now y x m l v A b bs : opened now y x m l v A b bs -> ready b ->
  cached now y x (<[l := (isDirty b, bs)]> A).
Proof using Type. intros Ho Hr. exists m. split; [apply (op_shape _ _ _ _ _ _ _ _ _ Ho)|by eapply opened_lines]. Qed.

(** Another line is in another block. *)
Lemma op_apart now y x m l v A b bs l' i : opened now y x m l v A b bs ->
  delete (l, sec) m !! (l', sec) = Some i -> i <> v.
Proof using Type*.
  intros [Hs Hm _ _ _] [Hne Hi]%lookup_delete_Some ->. pose proof (sh_tags _ _ _ _ Hs) as Ht.
  apply (ti_rep _ _ Ht) in Hm, Hi. destruct (holds_key (wf := wf) (ok := ok) _ m _ _ _ _ v Ht Hm Hi) as [-> _]. done.
Qed.

(** A change that leaves the other blocks and their data alone. *)
Lemma others_stay now y x m l v A b bs x' : opened now y x m l v A b bs ->
  (forall i, i <> v -> blks (bc_tags x') !! i = blks (bc_tags x) !! i) ->
  (forall i, i <> v -> is_Some (blks (bc_tags x) !! i) -> line_data x' i = line_data x i) ->
  lines x' (delete (l, sec) m) A.
Proof using Type*.
  intros Ho Hb Hd l'. pose proof (op_others _ _ _ _ _ _ _ _ _ Ho l') as H. destruct (A !! l') as [[d bs']|]; [|done].
  destruct H as (i & b' & Hi & Hb' & Hr & Hdi & Hbs). exists i, b'.
  pose proof (op_apart _ _ _ _ _ _ _ _ _ l' i Ho Hi). rewrite Hb, Hd by (done || by eexists). done.
Qed.

(** ** Working on the block *)

Section Opened.
Context (now : Z) (y : B) (m : gmap (Z * bool) nat) (l : Z) (v : nat) (A : gmap Z (bool * list Z)).
Abbreviation here := (fun x b bs => opened now y x m l v A b bs).

(** Replacing the block by one the tags cannot tell from it. *)
Lemma put_shape x b b' : shape now y x m -> blks (bc_tags x) !! v = Some b -> blk_isValid b = true ->
  ident b' = ident b -> shape now y (set_bc_tags (set_blks (<[v := b']> (blks (bc_tags x))) (bc_tags x)) x) m.
Proof using Type*.
  intros Hs Hb Hv [= E1 E2 E3 E4 E5 E6 E7 E8 E9]. pose proof (sh_tags _ _ _ _ Hs) as Ht.
  assert (place b' = place b) as Ep by (unfold place; congruence).
  assert (forall a s, holds (set_blks (<[v := b']> (blks (bc_tags x))) (bc_tags x)) a s v <-> holds (bc_tags x) a s v) as Hh.
  { intros a s. unfold holds, blk_addr. simpl. rewrite list_lookup_insert_eq by (by eapply lookup_lt_Some). rewrite Hb.
    split; intros (b0 & [= <-] & H); eexists; (split; [reflexivity|]);
      destruct H as (? & ? & ? & ? & ? & ?); split_and!; try congruence; try lia. }
  destruct Hs. split; simpl; try done.
  - eapply (inv_update (wf := wf) (ok := ok) (bc_tags x) m _ m v b b' Ht); simpl.
    + split; try done. apply (ti_ok _ _ Ht).
    + done.
    + intros a s. rewrite Hh. apply (ti_rep _ _ Ht).
    + intros _. destruct (ti_valid _ _ Ht v b Hb Hv) as [a Ha]. exists a. rewrite E5. by apply Hh.
    + rewrite E4, Hv. done.
    + apply (ti_inUse _ _ Ht).
    + intros k. assert (owned k b' <-> owned k b) as Ho by (unfold owned; by rewrite E4, E6).
      destruct (decide (owned k b)), (decide (owned k b')); try lia; tauto.
  - by rewrite length_insert.
  - intros i b0 [(<- & <- & _)|[_ H]]%list_lookup_insert_Some; [|eauto]. rewrite E7, E8, E9. eauto.
Qed.

Lemma op_put x b bs b' Q : here x b bs -> ident b' = ident b ->
  (forall x', here x' b' bs -> Q tt x') -> total (put_block (InTags v) b') Q x.
Proof using Type*.
  intros Ho Hid HQ. eapply total_zoom; [reflexivity|]. apply HQ. destruct (op_holds _ _ _ _ _ _ _ _ _ Ho) as (Hv & _).
  pose proof (put_shape x b b' (op_shape _ _ _ _ _ _ _ _ _ Ho) (op_blk _ _ _ _ _ _ _ _ _ Ho) Hv Hid) as Hs.
  split; [exact Hs|exact (op_here _ _ _ _ _ _ _ _ _ Ho)| |exact (op_data _ _ _ _ _ _ _ _ _ Ho)|].
  - simpl. apply list_lookup_insert_eq. eapply lookup_lt_Some. exact (op_blk _ _ _ _ _ _ _ _ _ Ho).
  - eapply (others_stay); [exact Ho| |done]. intros i Hi. simpl. by apply list_lookup_insert_ne.
Qed.

Lemma op_the x b bs Q : here x b bs -> Q b x -> total (the_block (InTags v)) Q x.
Proof using Type.
  intros Ho HQ. eapply total_zoom; [apply get_blk_run, (op_blk _ _ _ _ _ _ _ _ _ Ho)|]. by destruct x.
Qed.

Lemma op_set_bits x b bs bits Q : here x b bs -> keeps_ident bits ->
  (forall x', here x' (set_status (Z.lor (status b) bits) b) bs -> Q tt x') -> total (set_bits bits (InTags v)) Q x.
Proof using Type*.
  intros Ho Hk HQ. apply wp_bind, (op_the x b bs); [done|]. eapply op_put; [exact Ho|by apply ident_set_bits|exact HQ].
Qed.
Lemma op_clear_bits x b bs bits Q : here x b bs -> keeps_ident bits ->
  (forall x', here x' (set_status (Z.ldiff (status b) bits) b) bs -> Q tt x') -> total (clear_bits bits (InTags v)) Q x.
Proof using Type*.
  intros Ho Hk HQ. apply wp_bind, (op_the x b bs); [done|]. eapply op_put; [exact Ho|by apply ident_clear_bits|exact HQ].
Qed.

Lemma op_regenerate x b bs Q : here x b bs -> Q l x -> total (cache_regenerateBlkAddr (InTags v)) Q x.
Proof using Type*.
  intros Ho HQ. apply wp_bind, wp_gets. eapply total_lift; [|exact HQ]. by destruct (op_holds _ _ _ _ _ _ _ _ _ Ho) as (_ & _ & _ & _ & ?).
Qed.

Lemma op_data_of x b bs Q : here x b bs -> Q (bc_dataBlks x, Z.to_nat line * v)%nat x -> total (data_of (InTags v)) Q x.
Proof using Type.
  intros Ho HQ. apply wp_bind, (op_the x b bs); [done|]. apply wp_bind, wp_gets.
  destruct (sh_blk _ _ _ _ (op_shape _ _ _ _ _ _ _ _ _ Ho) v b (op_blk _ _ _ _ _ _ _ _ _ Ho)) as (-> & _).
  apply wp_ret. replace (Z.to_nat (line * Z.of_nat v)) with (Z.to_nat line * v)%nat; [done|].
  unfold w_line. nia.
Qed.

(** *** The parts of the state that no other part looks at *)

(** [x'] differs from [x] in statistics, counters, the clock and the environment. *)
Definition same_core (x x' : BaseCache P D B) : Prop :=
  bc_params x' = bc_params x /\ bc_tags x' = bc_tags x /\ bc_dataBlks x' = bc_dataBlks x
  /\ bc_tempBlock x' = bc_tempBlock x /\ bc_tempBlockWriteback x' = bc_tempBlockWriteback x
  /\ bc_mshrQueue x' = bc_mshrQueue x /\ bc_writeBuffer x' = bc_writeBuffer x /\ bc_queued x' = bc_queued x
  /\ bc_below x' = bc_below x
  /\ (bc_clock x' = bc_clock x
      \/ 0 <= ck_cycle (bc_clock x') <= ck_tick (bc_clock x') /\ ck_tick (bc_clock x') < now + cp_period (bc_params x)).
Lemma same_core_shape x x' m' : same_core x x' -> shape now y x m' -> shape now y x' m'.
Proof using Type.
  intros (E1 & E2 & E3 & E4 & E5 & E6 & E7 & E8 & E9 & E10) []. split; rewrite ?E1, ?E2, ?E3, ?E4, ?E5, ?E6, ?E7, ?E8, ?E9; try done.
  destruct E10 as [->|?]; done.
Qed.
Lemma same_core_lines x x' m' A' : same_core x x' -> lines x m' A' -> lines x' m' A'.
Proof using Type.
  intros (E1 & E2 & E3 & _) H l'. specialize (H l'). destruct (A' !! l') as [[d bs]|]; [|done].
  destruct H as (i & b & H). exists i, b. unfold line_data in *. by rewrite E2, E3.
Qed.
Lemma same_core_cached x x' A' : same_core x x' -> cached now y x A' -> cached now y x' A'.
Proof using Type.
  intros Hc (m' & Hs & HA). exists m'. split; [by eapply same_core_shape|by eapply same_core_lines].
Qed.
Lemma same_core_opened x x' b bs : same_core x x' -> here x b bs -> here x' b bs.
Proof using Type.
  intros Hc [Hs Hm Hb Hd HA]. split; try done.
  - by eapply same_core_shape.
  - by destruct Hc as (_ & -> & _).
  - unfold line_data in *. by destruct Hc as (_ & _ & -> & _).
  - by eapply same_core_lines.
Qed.
Lemma same_core_refl x : same_core x x.
Proof using Type. repeat split; auto. Qed.

Lemma core_trans x1 x2 x3 : same_core x1 x2 -> same_core x2 x3 -> same_core x1 x3.
Proof using Type.
  intros (E1 & E2 & E3 & E4 & E5 & E6 & E7 & E8 & E9 & E10) (F1 & F2 & F3 & F4 & F5 & F6 & F7 & F8 & F9 & F10).
  repeat split; try congruence. rewrite E1 in F10. destruct F10 as [->|?]; [done|by right].
Qed.

Lemma core_stats x f Q : (forall x', same_core x x' -> Q tt x') -> total (on_cstats f) Q x.
Proof using Type. intros HQ. apply wp_modify, HQ. repeat split; auto. Qed.
Lemma core_env x Q : (forall e x', same_core x x' -> Q e x') -> total next_env Q x.
Proof using Type.
  intros HQ. apply wp_bind, wp_gets, wp_bind, wp_modify, wp_ret, HQ. repeat split; auto.
Qed.
Lemma core_draw x Q : (forall r x', same_core x x' -> Q r x') -> total draw Q x.
Proof using Type. intros HQ. apply wp_bind, core_env. intros e x' Hc. by apply wp_ret, HQ. Qed.
Lemma core_raw x Q : (forall r x', same_core x x' -> Q r x') -> total raw_memory Q x.
Proof using Type. intros HQ. apply wp_bind, core_env. intros e x' Hc. by apply wp_ret, HQ. Qed.
Lemma core_id x Q : (forall r x', same_core x x' -> Q r x') -> total new_id Q x.
Proof using Type. intros HQ. apply wp_bind, core_env. intros e x' Hc. by apply wp_ret, HQ. Qed.

Lemma core_hit x pkt Q : cp_maxMasters (bc_params x) = w_masters w -> rq_masterId (p_req pkt) < w_masters w ->
  (forall x', same_core x x' -> Q tt x') -> total (incHitCount pkt) Q x.
Proof using Type.
  intros Em Hm HQ. apply wp_bind, wp_gets, wp_bind. apply total_assert; [rewrite Em; by apply Z.ltb_lt|]. by apply core_stats.
Qed.
Lemma core_miss x pkt Q : cp_maxMasters (bc_params x) = w_masters w -> rq_masterId (p_req pkt) < w_masters w ->
  (forall d x', same_core x x' -> Q (set_p_req (set_rq_depth d (p_req pkt)) pkt) x') -> total (incMissCount pkt) Q x.
Proof using Type.
  intros Em Hm HQ. apply wp_bind, wp_gets, wp_bind. apply total_assert; [rewrite Em; by apply Z.ltb_lt|].
  apply wp_bind, core_stats. intros x1 H1. apply wp_bind, wp_gets, wp_bind.
  apply wp_when; intros _.
  - apply wp_bind, wp_modify. apply wp_when; intros _; [apply wp_modify|]; apply wp_ret, HQ;
      (eapply core_trans; [exact H1|]; repeat split; auto).
  - by apply wp_ret, HQ.
Qed.

Lemma core_edge x m' cycles Q : shape now y x m' -> 0 <= cycles < 2 ^ 20 ->
  (forall t x', same_core x x' -> now <= t < 2 ^ 63 -> Q t x') -> total (cache_clockEdge now cycles) Q x.
Proof using Type.
  intros Hs Hcy HQ. destruct (sh_clock _ _ _ _ Hs) as [Hc1 Hc2]. destruct (pk_period _ (sh_params _ _ _ _ Hs)) as [Hp1 Hp2].
  pose proof (sh_now _ _ _ _ Hs) as Hn. set (p := cp_period (bc_params x)) in *.
  assert (clock_room now p (bc_clock x)) as Hroom by (split; lia).
  pose proof (update_spec now p (bc_clock x) Hroom) as (H1 & H2 & H3 & H4).
  apply wp_bind, wp_gets, wp_bind, wp_gets. unfold clockEdge. cbv zeta. fold p.
  set (c' := update now p (bc_clock x)) in *. apply wp_bind, wp_modify, wp_ret.
  assert (ck_tick c' < now + p) as Ht by (destruct H4 as [|Heq]; [done|rewrite Heq; lia]).
  assert (p * cycles < 2 ^ 52) by nia.
  rewrite (u64_small (p * cycles)) by nia. rewrite u64_small by nia.
  apply HQ; [|nia]. repeat split; try done. right. simpl. nia.
Qed.

Lemma op_ready x b bs extra pkt Q : here x b bs -> 0 <= p_headerDelay pkt < 2 ^ 32 -> 0 <= extra < 2 ^ 60 ->
  (forall x' t, here x' (set_whenReady t b) bs -> t <> MaxTick -> Q tt x') -> total (mark_ready now extra pkt (InTags v)) Q x.
Proof using Type*.
  intros Ho Hh He HQ. pose proof (op_shape _ _ _ _ _ _ _ _ _ Ho) as Hs. apply wp_bind, wp_gets, wp_bind.
  apply (core_edge x m); [done|apply (pk_fill _ (sh_params _ _ _ _ Hs))|]. intros t x1 Hc Ht.
  assert (here x1 b bs) as Ho1 by (by eapply same_core_opened). apply wp_bind, (op_the x1 b bs); [done|].
  destruct (sh_blk _ _ _ _ Hs v b (op_blk _ _ _ _ _ _ _ _ _ Ho)) as (_ & _ & Hti).
  apply wp_bind. eapply total_lift.
  { unfold setWhenReady. rewrite (proj2 (Z.leb_le _ _)); [reflexivity|]. rewrite u64_small by lia. lia. }
  rewrite u64_small by lia. eapply op_put; [exact Ho1|done|]. intros x2 Ho2. eapply HQ; [exact Ho2|]. unfold MaxTick. lia.
Qed.

(** *** The data of the block *)

(** A packet with its bytes, all in line [l]. *)
Record in_line (pkt : Pkt) : Prop := {
  il_addr : p_isSet VALID_ADDR pkt = true;
  il_size : p_isSet VALID_SIZE pkt = true;
  il_flag : has_data_flag pkt = true;
  il_data : exists ds, p_data pkt = Some ds /\ Z.of_nat (length ds) = p_size pkt;
  il_mask : isMaskedWrite pkt = true -> Z.of_nat (length (rq_byteEnable (p_req pkt))) = p_size pkt;
  il_at : l <= p_addr pkt /\ 0 < p_size pkt /\ p_addr pkt + p_size pkt <= l + line
}.

Lemma op_offset x b bs pkt : here x b bs -> in_line pkt ->
  pkt_getOffset (cp_blkSize (bc_params x)) pkt = Ok (p_addr pkt - l).
Proof using Type*.
  intros Ho Hp. pose proof (op_shape _ _ _ _ _ _ _ _ _ Ho) as Hs. pose proof (pk_shift _ (sh_params _ _ _ _ Hs)) as Hsh.
  destruct (op_holds _ _ _ _ _ _ _ _ _ Ho) as (_ & _ & Hl & Hbl & _).
  rewrite (pk_blkSize _ (sh_params _ _ _ _ Hs)). unfold pkt_getOffset.
  rewrite getAddr_run by apply Hp. cbn [mbind res_bind mret res_ret]. f_equal.
  pose proof (il_at _ Hp). unfold blk_mask, w_line, u32.
  rewrite wrap_small by (pose proof (Z.pow_le_mono_r 2 (w_shift w) 31); lia).
  replace (2 ^ w_shift w - 1) with (Z.ones (w_shift w)) by (rewrite Z.ones_equiv; lia). rewrite Z.land_ones by lia.
  pose proof (block_of_unique (w_shift w) ltac:(lia) (p_addr pkt) l Hbl) as E. unfold w_line in *.
  assert (block_of (w_shift w) (p_addr pkt) = l) as E' by (apply E; lia). unfold block_of in E'.
  pose proof (Z.div_mod (p_addr pkt) (2 ^ w_shift w)). lia.
Qed.

Lemma line_lookup x i k : (k < Z.to_nat line)%nat -> line_data x i !! k = bc_dataBlks x !! (Z.to_nat line * i + k)%nat.
Proof using Type. intros Hk. unfold line_data. by rewrite lookup_take_lt, lookup_drop. Qed.

Lemma op_set_data x b bs ds : here x b bs -> length ds = length (bc_dataBlks x) ->
  (forall j, ~ (Z.to_nat line * v <= j < Z.to_nat line * v + Z.to_nat line)%nat -> ds !! j = bc_dataBlks x !! j) ->
  here (set_bc_dataBlks ds x) b (take (Z.to_nat line) (drop (Z.to_nat line * v) ds)).
Proof using Type*.
  intros Ho Hlen Hsame. pose proof (op_shape _ _ _ _ _ _ _ _ _ Ho) as Hs. split; try by destruct Ho.
  - destruct Hs. split; try done. simpl. congruence.
  - eapply others_stay; [exact Ho|done|]. intros i Hne Hi. apply list_eq. intros k.
    destruct (decide (k < Z.to_nat line)%nat) as [Hk|Hk].
    + rewrite !line_lookup by done. simpl. apply Hsame. intros Hin. apply Hne. nia.
    + unfold line_data. rewrite !lookup_take_ge by lia. done.
Qed.

(** The line after the packet has been written to it. *)
Definition overwritten (pkt : Pkt) (bs bs' : list Z) : Prop :=
  length bs' = Z.to_nat line
  /\ forall k, 0 <= k < line ->
       bs' !! Z.to_nat k = if writes_at pkt (l + k) then byte_at pkt (l + k) else bs !! Z.to_nat k.

Lemma op_write x b bs pkt Q : here x b bs -> in_line pkt ->
  (forall x' bs', here x' b bs' -> overwritten pkt bs bs' -> Q tt x') -> total (write_to_block pkt (InTags v)) Q x.
Proof using Type*.
  intros Ho Hp HQ. pose proof (op_shape _ _ _ _ _ _ _ _ _ Ho) as Hs. destruct (il_data _ Hp) as (ds & Hd & Hdl).
  destruct (il_at _ Hp) as (Hl1 & Hl2 & Hl3). pose proof (lookup_lt_Some _ _ _ (op_blk _ _ _ _ _ _ _ _ _ Ho)) as Hv.
  pose proof (line_pos (proj1 (pk_shift _ (sh_params _ _ _ _ Hs)))) as Hpos.
  pose proof (sh_len _ _ _ _ Hs) as Hlen. set (n := Z.to_nat line) in *. set (off := Z.to_nat (p_addr pkt - l)).
  destruct (writeData_run pkt ds (bc_dataBlks x) (n * v + off)) as (ds' & Hw & Hl' & Hi); [apply Hp|apply Hp|done|done|apply Hp| |].
  { rewrite Hlen. unfold off, n. nia. }
  apply wp_bind, (op_data_of x b bs); [done|]. cbv beta iota.
  apply wp_bind, wp_gets, wp_bind. eapply total_lift; [exact (op_offset x b bs pkt Ho Hp)|]. apply wp_bind. eapply total_lift; [exact Hw|]. apply wp_modify.
  eapply HQ.
  - apply (op_set_data x b bs ds'); [done|done|]. intros j Hj. rewrite Hi, bool_decide_eq_false_2; [done|].
    fold n in Hj. unfold off, n in *. lia.
  - split; [rewrite length_take, length_drop, Hl', Hlen; fold n; nia|]. intros k Hk. fold n.
    rewrite lookup_take_lt, lookup_drop, Hi by (unfold n; lia).
    rewrite <- (op_data _ _ _ _ _ _ _ _ _ Ho), line_lookup by lia. fold n. unfold writes_at, byte_at. rewrite Hd.
    destruct (covers pkt (l + k)) eqn:Ec.
    + apply ro_range in Ec. rewrite bool_decide_eq_true_2 by (unfold off; lia). simpl.
      by replace (n * v + Z.to_nat k - (n * v + off))%nat with (Z.to_nat (l + k - p_addr pkt)) by (unfold off; lia).
    + rewrite bool_decide_eq_false_2; [done|]. intros Hin. apply not_true_iff_false in Ec. apply Ec, ro_range.
      unfold off in Hin. lia.
Qed.

Lemma op_read x b bs pkt Q : here x b bs -> in_line pkt -> isMaskedWrite pkt = false ->
  (forall ds, length ds = Z.to_nat (p_size pkt) ->
     (forall a, covers pkt a = true -> byte_at (set_p_data (Some ds) pkt) a = bs !! Z.to_nat (a - l)) ->
     Q (set_p_data (Some ds) pkt) x) -> total (read_from_block pkt (InTags v)) Q x.
Proof using Type*.
  intros Ho Hp Hm HQ. pose proof (op_shape _ _ _ _ _ _ _ _ _ Ho) as Hs. destruct (il_data _ Hp) as (ds & Hd & Hdl).
  destruct (il_at _ Hp) as (Hl1 & Hl2 & Hl3). pose proof (lookup_lt_Some _ _ _ (op_blk _ _ _ _ _ _ _ _ _ Ho)) as Hv.
  pose proof (line_pos (proj1 (pk_shift _ (sh_params _ _ _ _ Hs)))) as Hpos.
  pose proof (sh_len _ _ _ _ Hs) as Hlen. set (n := Z.to_nat line) in *. set (off := Z.to_nat (p_addr pkt - l)).
  apply wp_bind, (op_data_of x b bs); [done|]. cbv beta iota.
  apply wp_bind, wp_gets, wp_bind. eapply total_lift; [exact (op_offset x b bs pkt Ho Hp)|]. fold n off.
  assert (length ds <= length (drop (n * v + off) (bc_dataBlks x)))%nat as Hle
    by (rewrite length_drop, Hlen; unfold off, n; nia).
  eapply total_lift; [apply (setData_run pkt ds); [apply Hp|apply Hp|done|done|done|exact Hle]|].
  apply HQ; [rewrite length_take; lia|]. intros a Ha. pose proof (proj1 (ro_range a) Ha).
  unfold byte_at. change (covers (set_p_data _ pkt) a) with (covers pkt a). rewrite Ha. simpl.
  rewrite lookup_take_lt, lookup_drop by lia. rewrite <- (op_data _ _ _ _ _ _ _ _ _ Ho), line_lookup by lia. fold n.
  f_equal. unfold off. lia.
Qed.

(** *** Giving the block up *)

Lemma op_invalidate x b bs Q : here x b bs ->
  (forall x', shape now y x' (delete (l, sec) m) -> lines x' (delete (l, sec) m) A ->
     blks (bc_tags x') !! v = Some (blk_invalidate b) -> Q tt x') ->
  total (invalidateBlock (InTags v)) Q x.
Proof using Type*.
  intros Ho HQ. apply wp_bind, (op_the x b bs); [done|]. apply wp_bind.
  assert (forall x1, same_core x x1 -> total (on_tags (tags_invalidate v)) Q x1) as Hrest.
  { intros x1 Hc. assert (here x1 b bs) as Ho1 by (by eapply same_core_opened).
    pose proof (op_shape _ _ _ _ _ _ _ _ _ Ho1) as Hs. pose proof (sh_tags _ _ _ _ Hs) as Ht.
    destruct (invalidate_refines (wf := wf) (ok := ok) (bc_tags x1) m l sec v Ht (op_here _ _ _ _ _ _ _ _ _ Ho1))
      as (b' & t' & Hrun & Ht' & Hb' & Ei & Em & Eb & El).
    assert (b' = b) as -> by (pose proof (op_blk _ _ _ _ _ _ _ _ _ Ho1); congruence).
    eapply total_zoom; [exact Hrun|].
    apply HQ; [| |simpl; rewrite Eb; apply list_lookup_insert_eq; by eapply lookup_lt_Some].
    - destruct Hs. split; simpl; rewrite ?Ei, ?Em, ?El, ?Eb, ?length_insert; try done.
      + intros l' s i [_ Hi]%lookup_delete_Some. eauto.
      + intros i b0 [(<- & <- & _)|[_ H]]%list_lookup_insert_Some; [|eauto].
        destruct (sh_blk0 v b Hb') as (H1 & H2 & H3). done.
    - eapply others_stay; [exact Ho1| |done]. intros i Hi. simpl. rewrite Eb. by apply list_lookup_insert_ne. }
  apply wp_when; intros _; [apply core_stats; by apply Hrest|apply Hrest, same_core_refl].
Qed.
End Opened.
End Lines.

(** The same, by what is known of the state before. *)
Lemma opened_core {P D B : Type} `{!IndexingPolicy P} {wf : P -> Prop} `{!LawfulIndexing P wf} {ok : D -> Prop}
    {w ip now y m l v A b bs} {x x' : BaseCache P D B} :
  opened (wf := wf) (ok := ok) w ip now y x m l v A b bs -> same_core now x x' -> opened (wf := wf) (ok := ok) w ip now y x' m l v A b bs.
Proof. intros Ho Hc. by eapply same_core_opened. Qed.
Lemma cached_core {P D B : Type} `{!IndexingPolicy P} {wf : P -> Prop} `{!LawfulIndexing P wf} {ok : D -> Prop}
    {w ip now y A} {x x' : BaseCache P D B} :
  cached (wf := wf) (ok := ok) w ip now y x A -> same_core now x x' -> cached (wf := wf) (ok := ok) w ip now y x' A.
Proof. intros Ho Hc. by eapply same_core_cached. Qed.

#[global] Arguments pk_shift {w p}. #[global] Arguments pk_blkSize {w p}. #[global] Arguments pk_incl {w p}.
#[global] Arguments pk_rw {w p}. #[global] Arguments pk_masters {w p}. #[global] Arguments pk_some {w p}.
#[global] Arguments pk_period {w p}. #[global] Arguments pk_fill {w p}. #[global] Arguments pk_caching {w p}.
#[global] Arguments sh_params {P D B _ wf _ ok w ip now y x m}.
#[global] Arguments sh_tags {P D B _ wf _ ok w ip now y x m}.
#[global] Arguments sh_policy {P D B _ wf _ ok w ip now y x m}.
#[global] Arguments sh_shift {P D B _ wf _ ok w ip now y x m}.
#[global] Arguments sh_masters {P D B _ wf _ ok w ip now y x m}.
#[global] Arguments sh_latency {P D B _ wf _ ok w ip now y x m}.
#[global] Arguments sh_len {P D B _ wf _ ok w ip now y x m}.
#[global] Arguments sh_blk {P D B _ wf _ ok w ip now y x m}.
#[global] Arguments sh_temp {P D B _ wf _ ok w ip now y x m}.
#[global] Arguments sh_mshrs {P D B _ wf _ ok w ip now y x m}.
#[global] Arguments sh_writes {P D B _ wf _ ok w ip now y x m}.
#[global] Arguments sh_queued {P D B _ wf _ ok w ip now y x m}.
#[global] Arguments sh_clock {P D B _ wf _ ok w ip now y x m}.
#[global] Arguments sh_now {P D B _ wf _ ok w ip now y x m}.
#[global] Arguments sh_below {P D B _ wf _ ok w ip now y x m}.
#[global] Arguments op_shape {P D B _ wf _ ok w ip now y x m l v A b bs}.
#[global] Arguments op_here {P D B _ wf _ ok w ip now y x m l v A b bs}.
#[global] Arguments op_blk {P D B _ wf _ ok w ip now y x m l v A b bs}.
#[global] Arguments op_data {P D B _ wf _ ok w ip now y x m l v A b bs}.
#[global] Arguments op_others {P D B _ wf _ ok w ip now y x m l v A b bs}.
