(* ===== verification/CacheOps.v ===== *)
(** * What the operations of the cache do to its lines

    Evictions, allocations, fills and accesses of the non-coherent cache as
    operations on the map of lines: an eviction removes a line and yields the
    write-back that carries it, a fill adds a line, a write changes the bytes it
    covers.  None of them fails. *)

From S2P Require Import Prelude IntMath EventQ Hoare Clocked Packet Request PacketQueue CacheQueue WriteQueue MSHR CacheBlk ReplPolicy ReplPolicyProps Indexing IndexingProps Tags TagsProps BaseCache NoncoherentCache PacketData PacketDataProps AbstractMemProps FlatMemory CacheLines.

Section Ops.
Context {P D B : Type} `{!IndexingPolicy P} `{R : !BaseReplacementPolicy D} `{!MemorySide B}.
Context {wf : P -> Prop} `{!LawfulIndexing P wf} {ok : D -> Prop} `{!LawfulPolicy R ok}.
Context (w : World) (ip : P).
Implicit Types x : BaseCache P D B.
Implicit Types A : gmap Z (bool * list Z).
Abbreviation line := (w_line w).
Abbreviation sec := (w_secure w).
Abbreviation cached := (cached (wf := wf) (ok := ok) w ip).
Abbreviation opened := (opened (wf := wf) (ok := ok) w ip).

(** ** Write-backs *)

(** A packet that writes line [l] back: it is a proper request to any memory
    that has the line (and agrees with it, if the line is clean), and leaves the
    bytes [bs] there. *)
Definition wb_ok (l : Z) (d : bool) (bs : list Z) (pkt : Pkt) : Prop :=
  (forall f : Contents, (forall k, 0 <= k < line -> is_Some (f (l + k))) ->
     (d = false -> forall k, 0 <= k < line -> bs !! Z.to_nat k = f (l + k)) -> request_ok w f pkt)
  /\ (forall (f : Contents) a, after f pkt a = if decide (block_of (w_shift w) a = l) then bs !! Z.to_nat (a - l) else f a).

Definition wb_request (now l tid : Z) : Request :=
  let r := new_Request_phys now l line 0 wbMasterId in
  set_rq_taskId tid (if sec then set_rq_flags (fl_set (rq_flags r) SECURE) r else r).
Definition wb_packet (id now l tid : Z) (d : bool) (bs : list Z) : Pkt :=
  set_p_data (Some bs) (p_set DYNAMIC_DATA (new_Pkt id (wb_request now l tid) (if d then WritebackDirty else WritebackClean))).

Lemma wb_packet_fields id now l tid d bs : let pkt := wb_packet id now l tid d bs in
  p_addr pkt = l /\ p_size pkt = line /\ p_data pkt = Some bs /\ p_isSecure pkt = sec /\ rq_isSecure (p_req pkt) = sec
  /\ p_cmd pkt = (if d then WritebackDirty else WritebackClean).
Proof using Type.
  unfold wb_packet, wb_request. destruct sec, d; done.
Qed.

Lemma wb_packet_ok id now l tid d bs : 0 <= w_shift w < 31 -> 1 < w_masters w ->
  block_of (w_shift w) l = l -> length bs = Z.to_nat line -> wb_ok l d bs (wb_packet id now l tid d bs).
Proof using Type.
  intros Hsh Hms Hl Hbs. destruct (wb_packet_fields id now l tid d bs) as (Ea & Es & Ed & Esec & Ers & Ec).
  pose proof (line_pos w (proj1 Hsh)) as Hpos.
  set (pkt := wb_packet id now l tid d bs) in *.
  assert (isMaskedWrite pkt = false) as Hm by (unfold isMaskedWrite; rewrite Ec; by destruct d).
  assert (forall a, covers pkt a = true <-> block_of (w_shift w) a = l) as Hcov.
  { intros a. unfold covers. rewrite andb_true_iff, Z.leb_le, Z.ltb_lt, Ea, Es. split.
    - intros Hr. apply block_of_unique; [lia|done|]. unfold w_line in Hr. lia.
    - intros <-. pose proof (block_of_spec (w_shift w) ltac:(lia) a). unfold w_line. lia. }
  assert (forall a, covers pkt a = true -> byte_at pkt a = bs !! Z.to_nat (a - l)) as Hby.
  { intros a Hc. unfold byte_at. by rewrite Hc, Ed, Ea. }
  split.
  - intros f Hf Hcl. split; rewrite ?Ea, ?Es, ?Ec, ?Ers; try done.
    + right. unfold pkt, wb_packet, wb_request. split; [by destruct d|]. by destruct sec.
    + by unfold pkt, wb_packet, wb_request; destruct sec, d.
    + by unfold pkt, wb_packet, wb_request; destruct sec, d.
    + by unfold pkt, wb_packet, wb_request; destruct sec, d.
    + exists bs. split; [done|]. lia.
    + rewrite Hl. apply block_of_unique; [lia|done|]. unfold w_line. lia.
    + intros a Hc%Hcov. pose proof (block_of_spec (w_shift w) ltac:(lia) a) as H. rewrite Hc in H.
      replace a with (l + (a - l)) by lia. apply Hf. unfold w_line. lia.
    + by unfold pkt, wb_packet, wb_request; destruct sec, d.
    + by rewrite Hm.
    + unfold pkt, wb_packet, wb_request; destruct sec, d; by left.
    + unfold pkt, wb_packet, wb_request; destruct sec, d; by split.
    + unfold pkt, wb_packet, wb_request; destruct sec; simpl; unfold wbMasterId; lia.
    + by unfold pkt, wb_packet, wb_request; destruct sec.
    + unfold pkt, wb_packet, wb_request; destruct sec, d; simpl; lia.
    + intros E a Hc. destruct d; [done|]. rewrite (Hby a Hc). apply Hcov in Hc.
      pose proof (block_of_spec (w_shift w) ltac:(lia) a) as H. rewrite Hc in H.
      rewrite (Hcl eq_refl (a - l)) by (unfold w_line; lia). f_equal. lia.
  - intros f a. unfold after, writes_at. rewrite Ec, Hm.
    assert (isWrite (if d then WritebackDirty else WritebackClean) = true) as -> by (by destruct d). simpl. rewrite andb_true_r.
    destruct (covers pkt a) eqn:Hc.
    + rewrite (Hby a Hc), decide_True by (by apply Hcov). done.
    + rewrite decide_False; [done|]. intros E%Hcov. congruence.
Qed.

Lemma wb_unmasked id now l tid d bs : isMaskedWrite (wb_packet id now l tid d bs) = false.
Proof using Type. unfold isMaskedWrite. destruct (wb_packet_fields id now l tid d bs) as (_ & _ & _ & _ & _ & ->). by destruct d. Qed.
Lemma wb_in_line id now l tid d bs : 0 < line -> length bs = Z.to_nat line -> in_line w l (wb_packet id now l tid d bs).
Proof using Type.
  intros Hpos Hl. destruct (wb_packet_fields id now l tid d bs) as (Ea & Es & Ed & _). split; rewrite ?Ea, ?Es.
  - by unfold wb_packet, wb_request; destruct sec, d.
  - by unfold wb_packet, wb_request; destruct sec, d.
  - by unfold wb_packet, wb_request; destruct sec, d.
  - exists bs. split; [done|]. lia.
  - by rewrite wb_unmasked.
  - lia.
Qed.
Lemma wb_allocate id now l tid (d : bool) raw :
  allocate raw (new_Pkt id (wb_request now l tid) (if d then WritebackDirty else WritebackClean))
  = Ok (wb_packet id now l tid d (resize (Z.to_nat line) 0 raw)).
Proof using Type.
  set (p0 := new_Pkt _ _ _). unfold allocate. assert (hasData (p_cmd p0) = true) as ->
    by (unfold p0, wb_request; destruct sec, d; reflexivity).
  assert (has_data_flag p0 = false) as -> by (unfold p0, wb_request; destruct sec, d; reflexivity).
  rewrite getSize_run by (unfold p0, wb_request; destruct sec, d; reflexivity).
  assert (p_size p0 = line) as -> by (unfold p0, wb_request; destruct sec, d; reflexivity). reflexivity.
Qed.

(** ** Evictions *)

Lemma op_writeback now y m l v A x b bs Q : opened now y x m l v A b bs -> isWritable b = true ->
  isDirty b || cp_writebackClean (bc_params x) = true ->
  (forall x' b' pkt, opened now y x' m l v A b' bs -> place b' = place b -> wb_ok l (isDirty b) bs pkt -> Q pkt x') ->
  total (writebackBlk now (InTags v)) Q x.
Proof using Type*.
  intros Ho Hw Hd HQ. pose proof (op_shape Ho) as Hs. pose proof (sh_params Hs) as Hp.
  destruct (op_holds w ip _ _ _ _ _ _ _ _ _ Ho) as (Hv & Hsec & _ & Hl & _).
  pose proof (pk_shift Hp) as Hsh. pose proof (line_pos w (proj1 Hsh)) as Hpos.
  assert (length bs = Z.to_nat line) as Hlen.
  { rewrite <- (op_data Ho). eapply (line_data_length w ip); [exact Hs|]. rewrite (op_blk Ho). by eexists. }
  apply wp_bind, wp_gets, wp_bind. apply total_assert; [simpl; by rewrite (pk_rw Hp)|].
  apply wp_bind. eapply op_the; [exact Ho|]. apply wp_bind. apply total_assert; [by rewrite Hv|].
  apply wp_bind, (core_stats now). intros x1 H1. pose proof (opened_core Ho H1) as Ho1.
  apply wp_bind. apply wp_bind. eapply op_the; [exact Ho1|].
  apply wp_bind. eapply op_regenerate; [exact Ho1|]. apply wp_bind, wp_gets.
  rewrite (pk_blkSize (sh_params (op_shape Ho1))). rewrite Hsec. apply wp_bind.
  assert (forall Q' x0, Q' (let r := new_Request_phys now l line 0 wbMasterId in
      if sec then set_rq_flags (fl_set (rq_flags r) SECURE) r else r) x0 ->
    total (if sec then lift (setFlags SECURE (new_Request_phys now l line 0 wbMasterId))
           else mret (new_Request_phys now l line 0 wbMasterId)) Q' x0) as Hreq.
  { intros Q' x0 HQ'. destruct sec; [|by apply wp_ret]. eapply total_lift; [reflexivity|exact HQ']. }
  apply Hreq, wp_ret. fold (wb_request now l (task_id b)). apply wp_bind, (core_id now). intros id x2 H2.
  pose proof (opened_core Ho1 H2) as Ho2.
  apply wp_bind. eapply op_the; [exact Ho2|]. rewrite Hw. apply wp_bind. eapply op_clear_bits; [exact Ho2|done|].
  intros x3 Ho3. cbv zeta. apply wp_bind. eapply op_clear_bits; [exact Ho3|done|]. intros x4 Ho4.
  apply wp_bind, (core_raw now). intros raw x5 H5. pose proof (opened_core Ho4 H5) as Ho5.
  apply wp_bind. eapply total_lift; [apply wb_allocate|].
  eapply op_read; [exact Ho5|by apply wb_in_line; [|rewrite length_resize]|by apply wb_unmasked|]. intros ds Hds Hby.
  destruct (wb_packet_fields id now l (task_id b) (isDirty b) (resize (Z.to_nat line) 0 raw)) as (Ea & Es & _).
  rewrite Es in Hds. assert (ds = bs) as ->.
  { apply list_eq. intros k. destruct (decide (k < Z.to_nat line)%nat) as [Hk|Hk]; [|rewrite !lookup_ge_None_2 by lia; done].
    assert (covers (wb_packet id now l (task_id b) (isDirty b) (resize (Z.to_nat line) 0 raw)) (l + Z.of_nat k) = true) as Hc
      by (apply ro_range; rewrite Ea, Es; lia).
    pose proof (Hby _ Hc) as E. unfold byte_at in E. change (covers (set_p_data (Some ds) ?p)) with (covers p) in E. rewrite Hc in E.
    cbn [p_data set_p_data option_bind mbind] in E. change (p_addr (set_p_data (Some ds) ?p)) with (p_addr p) in E. rewrite Ea in E.
    replace (Z.to_nat (l + Z.of_nat k - l)) with k in E by lia. exact E. }
  eapply HQ; [exact Ho5|done|]. apply (wb_packet_ok id now l (task_id b)); [done|apply (pk_some Hp)|done|done].
Qed.

Lemma op_evict now y m l v A x b bs Q : opened now y x m l v A b bs -> isWritable b = true ->
  (forall x' b' o, cached now y x' A -> blks (bc_tags x') !! v = Some b' -> blk_isValid b' = false -> place b' = place b ->
     match o with Some pkt => wb_ok l (isDirty b) bs pkt | None => isDirty b = false end -> Q o x') ->
  total (evictBlock now (InTags v)) Q x.
Proof using Type*.
  intros Ho Hw HQ. apply wp_bind. eapply op_the; [exact Ho|]. apply wp_bind, wp_gets, wp_bind.
  destruct (isDirty b || cp_writebackClean (bc_params x)) eqn:Ed.
  - apply wp_bind. eapply op_writeback; [exact Ho|done|done|]. intros x1 b1 pkt Ho1 Hp1 Hwb. apply wp_ret, wp_bind.
    eapply op_invalidate; [exact Ho1|]. intros x2 Hs2 HA2 Hb. apply wp_ret. eapply HQ; [by eexists|done..].
  - apply orb_false_iff in Ed as [Ed _]. apply wp_ret, wp_bind. eapply op_invalidate; [exact Ho|].
    intros x2 Hs2 HA2 Hb. apply wp_ret. eapply HQ; [by eexists|done..].
Qed.

(** ** Allocation *)

(** What an allocation may do to the lines: nothing, or evict one. *)
Definition evicted A A' (wbs wbs' : list Pkt) : Prop :=
  (A' = A /\ wbs' = wbs)
  \/ exists lv d bsv, A !! lv = Some (d, bsv) /\ A' = delete lv A
       /\ ((d = false /\ wbs' = wbs) \/ exists pkt, wb_ok lv d bsv pkt /\ wbs' = wbs ++ [pkt]).

Lemma no_entry {E} `{!QueueEntry E} now store q a s b : allocatedList q = [] ->
  findMatch (E := E) a s b (mkQS now store q) = Ok (None, mkQS now store q).
Proof using Type. intros Hq. unfold findMatch. rewrite (bind_run get _ _ _ _ eq_refl). simpl. by rewrite Hq. Qed.
Lemma no_mshr now y x m a s b Q : shape (wf := wf) (ok := ok) w ip now y x m -> Q None x -> total (on_mshrs now (findMatch a s b)) Q x.
Proof using Type.
  intros Hs HQ. eapply total_zoom; [apply no_entry, (sh_mshrs Hs)|]. simpl. destruct x; simpl. by destruct bc_mshrQueue.
Qed.
Lemma no_write now y x m a s b Q : shape (wf := wf) (ok := ok) w ip now y x m -> Q None x -> total (on_writes now (findMatch a s b)) Q x.
Proof using Type.
  intros Hs HQ. eapply total_zoom; [apply no_entry, (sh_writes Hs)|]. simpl. destruct x; simpl. by destruct bc_writeBuffer.
Qed.

(** A valid block holds one of the lines. *)
Lemma valid_line now y x m A v b : shape (wf := wf) (ok := ok) w ip now y x m -> lines w x m A ->
  blks (bc_tags x) !! v = Some b -> blk_isValid b = true ->
  exists lv d bsv, A !! lv = Some (d, bsv) /\ opened now y x m lv v (delete lv A) b bsv /\ isWritable b = true /\ isDirty b = d.
Proof using Type*.
  intros Hs HA Hb Hv. pose proof (sh_tags Hs) as Ht. destruct (ti_valid _ _ Ht v b Hb Hv) as [lv Hh].
  apply (ti_rep _ _ Ht) in Hh as Hm. pose proof (sh_secure _ _ _ _ _ _ Hs _ _ _ Hm) as Esec. rewrite Esec in Hm.
  pose proof (HA lv) as Hl. destruct (A !! lv) as [[d bsv]|] eqn:El; [|congruence].
  destruct Hl as (i & b' & Hi & Hb' & (Hw & _) & Hd & Hbs). assert (i = v) as -> by congruence.
  assert (b' = b) as -> by congruence. exists lv, d, bsv. split; [done|]. split; [|done]. split; try done.
  by eapply (delete_other w).
Qed.

(** The block chosen as the victim is emptied. *)
Lemma op_handleEvictions now y x m A v b wbs Q : shape (wf := wf) (ok := ok) w ip now y x m -> lines w x m A ->
  blks (bc_tags x) !! v = Some b ->
  (forall x' A' b' wbs', cached now y x' A' -> evicted A A' wbs wbs' -> blks (bc_tags x') !! v = Some b' ->
     blk_isValid b' = false -> place b' = place b -> Q (true, wbs') x') ->
  total (handleEvictions evictBlock now [v] wbs) Q x.
Proof using Type*.
  intros Hs HA Hb HQ. apply wp_bind. cbn [check_victims]. apply wp_bind. eapply total_zoom; [by apply get_blk_run|].
  replace (set_bc_tags (bc_tags x) x) with x by (by destruct x). destruct (blk_isValid b) eqn:Hv.
  - destruct (valid_line now y x m A v b Hs HA Hb Hv) as (lv & d & bsv & Hl & Ho & Hw & Hd).
    apply wp_bind. eapply op_regenerate; [exact Ho|]. apply wp_bind. eapply no_mshr; [exact Hs|]. apply wp_ret.
    apply wp_bind, (core_stats now). intros x1 H1. pose proof (opened_core Ho H1) as Ho1.
    apply wp_bind. cbn [evict_valid]. apply wp_bind. eapply op_the; [exact Ho1|]. rewrite Hv. apply wp_bind, wp_bind.
    eapply op_evict; [exact Ho1|done|]. intros x2 b2 o Hc Hb2 Hv2 Hp2 Ho2. apply wp_ret, wp_ret, wp_ret.
    eapply HQ; [exact Hc| |exact Hb2|done|done]. right. exists lv, d, bsv. split; [done|]. split; [done|].
    rewrite Hd in Ho2. destruct o as [pkt|]; [right; by exists pkt|by left].
  - apply wp_ret, wp_ret. eapply HQ; [by exists m|by left|exact Hb|done|done].
Qed.

Lemma blk_insert_fresh now tag s master task b b' : blk_insert now tag s master task b = Ok b' ->
  blk_data b' = blk_data b /\ lockList b' = lockList b /\ tickInserted b' = now /\ isDirty b' = false.
Proof using Type.
  unfold blk_insert. destruct (Z.eqb_spec (status b) 0) as [E|]; [|done]. simpl. unfold setValid. rewrite E.
  by destruct s; intros [= <-].
Qed.

Lemma op_allocate now y x A l pkt a wbs Q : cached now y x A -> A !! l = None ->
  getAddr pkt = Ok a -> isSecure pkt = Ok sec -> 0 <= a < 2 ^ 64 -> block_of (w_shift w) a = l ->
  rq_masterId (p_req pkt) < w_masters w ->
  (forall x' m v A' b bs wbs', opened now y x' m l v A' b bs -> isDirty b = false -> evicted A A' wbs wbs' ->
     Q (Some (InTags v), wbs') x') ->
  total (allocateBlock evictBlock now pkt wbs) Q x.
Proof using Type*.
  intros Hc Hl Ea Es Ha Hal Hm HQ. apply wp_bind. eapply total_lift; [exact Ea|].
  apply wp_bind, (core_draw now). intros rnd x1 H1. destruct (cached_core Hc H1) as (m1 & Hs1 & HA1).
  destruct (victim_refines (wf := wf) (ok := ok) (bc_tags x1) m1 now rnd a (sh_tags Hs1) Ha)
    as (v & b & t & Hv & Ht & Ei & Eb & Em & Hb & Hp & El).
  apply wp_bind. eapply total_zoom; [exact Hv|]. cbv beta iota. set (x2 := set_bc_tags t x1).
  assert (shape (wf := wf) (ok := ok) w ip now y x2 m1) as Hs2.
  { destruct Hs1. split; simpl; rewrite ?Ei, ?Em, ?El, ?Eb; done. }
  assert (lines w x2 m1 A) as HA2.
  { intros l'. specialize (HA1 l'). destruct (A !! l') as [[d bs]|]; [|done]. by simpl; rewrite Eb. }
  apply wp_bind. eapply op_handleEvictions; [exact Hs2|exact HA2|by simpl; rewrite Eb|].
  intros x3 A' b3 wbs' Hc3 Hev Hb3 Hv3 Hp3. cbv beta iota. apply wp_bind, (core_draw now). intros rnd' x4 H4.
  destruct (cached_core Hc3 H4) as (m4 & Hs4 & HA4). assert (blks (bc_tags x4) !! v = Some b3) as Hb4.
  { destruct H4 as (_ & -> & _). done. }
  assert (A' !! l = None) as Hl'.
  { destruct Hev as [[-> _]|(lv & d & bsv & _ & -> & _)]; [done|]. by rewrite lookup_delete_None; right. }
  assert (blk_addr a (bc_tags x4) = l) as Ebl by (unfold blk_addr; by rewrite (sh_policy Hs4), (sh_shift Hs4)).
  pose proof (HA4 l) as Hml. rewrite Hl' in Hml.
  destruct (insert_refines (wf := wf) (ok := ok) (bc_tags x4) m4 now rnd' pkt v b3 a sec (sh_tags Hs4))
    as (t' & Hins & Ht' & Ei' & Em' & b' & Hbi & Eb' & El'); try done.
  { by rewrite (sh_masters Hs4). }
  { rewrite Hp3, (sh_policy Hs4), <- (sh_policy Hs1). done. }
  { by rewrite Ebl. }
  rewrite Ebl in Ht'. destruct (blk_insert_fresh _ _ _ _ _ _ _ Hbi) as (Ed & Elk & Eti & Edi).
  apply wp_bind. eapply total_zoom; [exact Hins|]. apply wp_ret.
  eapply (HQ _ (<[(l, sec) := v]> m4) v A' b'); [|done|exact Hev]. split.
  - destruct (sh_blk Hs4 v b3 Hb4) as (D1 & D2 & D3). pose proof (sh_now Hs4).
    pose proof (sh_secure _ _ _ _ _ _ Hs4) as Hsc. destruct Hs4. split; simpl; rewrite ?Ei', ?Em', ?El', ?Eb', ?length_insert; try done.
    + intros l' s i [[[= <- <-] _]|[_ Hi]]%lookup_insert_Some; [done|]. by eapply Hsc.
    + intros i b0 [(<- & <- & _)|[_ H']]%list_lookup_insert_Some; [|eauto]. rewrite Ed, Elk, Eti. split_and!; [done|done|lia|lia].
  - apply lookup_insert_eq.
  - simpl. rewrite Eb'. apply list_lookup_insert_eq. by eapply lookup_lt_Some.
  - reflexivity.
  - rewrite delete_insert_id by done. intros l'. specialize (HA4 l'). destruct (A' !! l') as [[d bs]|]; [|done].
    destruct HA4 as (i & b0 & Hi & Hb0 & H'). exists i, b0. split; [done|]. split; [|done]. simpl. rewrite Eb'.
    rewrite list_lookup_insert_ne; [done|]. intros <-. apply (ti_rep _ _ (sh_tags Hs4)) in Hi as (b1 & Hb1 & Hv1 & _). congruence.
Qed.

(** ** Fills *)

Lemma ldiff_line a : 0 <= w_shift w < 31 -> Z.ldiff a (line - 1) = block_of (w_shift w) a.
Proof using Type.
  intros Hs. unfold w_line. replace (2 ^ w_shift w - 1) with (Z.ones (w_shift w)) by (rewrite Z.ones_equiv; lia).
  apply Z.bits_inj'. intros i Hi. rewrite testbit_block_of, Z.ldiff_spec by lia.
  destruct (Z.leb_spec (w_shift w) i).
  - rewrite Z.ones_spec_high by lia. by rewrite andb_true_r.
  - rewrite Z.ones_spec_low by lia. by rewrite andb_false_r.
Qed.
Lemma line_mask : 0 <= w_shift w < 31 -> blk_mask line = line - 1.
Proof using Type.
  intros Hs. unfold blk_mask, u32. apply wrap_small. unfold w_line. pose proof (Z.pow_le_mono_r 2 (w_shift w) 31). lia.
Qed.
Lemma getBlockAddr_run pkt : 0 <= w_shift w < 31 -> p_isSet VALID_ADDR pkt = true ->
  getBlockAddr line pkt = Ok (block_of (w_shift w) (p_addr pkt)).
Proof using Type.
  intros Hs Ha. unfold getBlockAddr. rewrite getAddr_run by done. cbn [mbind res_bind mret res_ret].
  by rewrite line_mask, ldiff_line.
Qed.

(** The response to the read of line [l]. *)
Record fill_ok (l : Z) (pkt : Pkt) : Prop := {
  fo_cmd : p_cmd pkt = ReadResp;
  fo_flags : hasSharers pkt = false /\ cacheResponding pkt = false;
  fo_addr : p_addr pkt = l;
  fo_size : p_size pkt = line;
  fo_secure : p_isSecure pkt = sec;
  fo_in : in_line w l pkt;
  fo_master : rq_masterId (p_req pkt) < w_masters w;
  fo_delay : 0 <= p_headerDelay pkt < 2 ^ 32 /\ 0 <= p_payloadDelay pkt < 2 ^ 32
}.

(** The status bits a fill sets make a valid block ready. *)
Lemma filled_ready b t : blk_isValid b = true -> t <> MaxTick ->
  let b' := set_whenReady t (set_status (Z.lor (Z.lor (status b) BlkReadable) BlkWritable) b) in
  ready b' /\ isDirty b' = isDirty b.
Proof using Type.
  intros Hv Ht. simpl. unfold ready. rewrite writable_bits, readable_bits, !dirty_bit. rewrite valid_bit in Hv. cbn [status set_whenReady set_status].
  rewrite !Z.lor_spec, Hv. split; [|by rewrite !orb_false_r]. split_and!; [by rewrite orb_true_r|by rewrite orb_true_r|done].
Qed.

Lemma op_fill now y x A l pkt wbs Q : cached now y x A -> A !! l = None -> 0 <= l < 2 ^ 64 -> block_of (w_shift w) l = l ->
  fill_ok l pkt ->
  (forall x' m v A' b bs wbs', opened now y x' m l v A' b bs -> ready b -> isDirty b = false -> evicted A A' wbs wbs' ->
     length bs = Z.to_nat line -> (forall k, 0 <= k < line -> bs !! Z.to_nat k = byte_at pkt (l + k)) -> Q (InTags v, wbs') x') ->
  total (handleFill evictBlock now pkt None wbs true) Q x.
Proof using Type*.
  intros Hc Hl Hla Hbl Hf HQ. pose proof Hc as (m0 & Hs0 & _). pose proof (sh_params Hs0) as Hp. pose proof (pk_shift Hp) as Hsh.
  pose proof (fo_in _ _ Hf) as Hin. apply wp_bind. apply total_assert; [by rewrite (fo_cmd _ _ Hf)|].
  apply wp_bind. eapply total_lift; [apply getAddr_run, Hin|]. apply wp_bind. eapply total_lift; [apply isSecure_run, Hin|].
  apply wp_bind, wp_gets, wp_bind. rewrite (pk_blkSize Hp). eapply total_lift; [apply getBlockAddr_run; [done|apply Hin]|].
  rewrite (fo_addr _ _ Hf), Hbl. apply wp_bind. apply total_assert; [by apply Z.eqb_refl|].
  apply wp_bind. eapply no_write; [exact Hs0|]. apply wp_bind. apply total_assert; [done|].
  apply wp_bind. apply wp_bind. apply total_assert; [by rewrite (fo_cmd _ _ Hf)|]. apply wp_bind.
  eapply op_allocate; [exact Hc|exact Hl|apply getAddr_run, Hin|rewrite isSecure_run by apply Hin; by rewrite (fo_secure _ _ Hf)
    |by rewrite (fo_addr _ _ Hf)|by rewrite (fo_addr _ _ Hf)|apply Hf|].
  intros x1 m v A' b bs wbs' Ho Hd Hev. cbv beta iota. apply wp_ret. cbv beta iota.
  destruct (op_holds w ip _ _ _ _ _ _ _ _ _ Ho) as (Hv & Hsec & _).
  apply wp_bind. eapply op_the; [exact Ho|]. apply wp_bind. apply total_assert; [done|].
  apply wp_bind. apply total_assert; [by rewrite Hsec, (fo_secure _ _ Hf), eqb_reflx|].
  apply wp_bind. eapply op_regenerate; [exact Ho|]. apply wp_bind. apply total_assert; [by apply Z.eqb_refl|].
  apply wp_bind. eapply op_set_bits; [exact Ho|done|]. intros x2 Ho2. apply wp_bind.
  rewrite (fo_cmd _ _ Hf). apply wp_ret, wp_bind, wp_gets, wp_bind. destruct (fo_flags _ _ Hf) as [-> ->].
  cbn [negb when_]. apply wp_bind. eapply op_set_bits; [exact Ho2|done|]. intros x3 Ho3. apply wp_ret.
  apply wp_bind. cbn [when_]. apply wp_bind. apply total_assert; [done|]. apply wp_bind. eapply total_lift; [apply getSize_run, Hin|].
  apply wp_bind. apply total_assert; [rewrite (fo_size _ _ Hf); apply Z.eqb_refl|].
  eapply op_write; [exact Ho3|exact Hin|]. intros x4 bs' Ho4 [Hlen Hov]. apply wp_bind.
  eapply op_ready; [exact Ho4|apply Hf|destruct (fo_delay _ _ Hf); lia|]. intros x5 t Ho5 Ht. apply wp_ret.
  destruct (filled_ready b t Hv Ht) as [Hr Hd']. eapply HQ; [exact Ho5|exact Hr|exact (eq_trans Hd' Hd)|exact Hev|done|].
  intros k Hk. rewrite (Hov k Hk). unfold writes_at.
  assert (covers pkt (l + k) = true) as -> by (apply ro_range; rewrite (fo_addr _ _ Hf), (fo_size _ _ Hf); lia).
  unfold isMaskedWrite. by rewrite (fo_cmd _ _ Hf).
Qed.

(** ** Satisfying a request from a ready block *)

Lemma op_fits now y m l v A x b bs pkt : opened now y x m l v A b bs -> in_line w l pkt ->
  (p_addr pkt - l + p_size pkt <=? cp_blkSize (bc_params x)) = true.
Proof using Type.
  intros Ho Hin. rewrite (pk_blkSize (sh_params (op_shape Ho))). apply Z.leb_le. pose proof (il_at _ _ _ Hin). lia.
Qed.

Lemma op_satisfy_read now y m l v A x b bs pkt Q : opened now y x m l v A b bs ->
  kind_read (p_cmd pkt) = true -> in_line w l pkt ->
  (forall ds, length ds = Z.to_nat (p_size pkt) ->
     (forall a, covers pkt a = true -> byte_at (set_p_data (Some ds) pkt) a = bs !! Z.to_nat (a - l)) ->
     Q (set_p_data (Some ds) pkt) x) ->
  total (satisfyRequest pkt (Some (InTags v))) Q x.
Proof using Type*.
  intros Ho Hk Hin HQ. destruct (op_holds w ip _ _ _ _ _ _ _ _ _ Ho) as (Hv & _).
  destruct (kind_read_plain _ Hk) as (Hpl & Hll & Hw & _ & Hrq & _). destruct (andb_prop _ _ Hpl) as [Hrd _].
  apply wp_bind. apply total_assert; [by rewrite Hrd|]. unfold base_satisfyRequest. cbv zeta. apply wp_bind.
  apply total_assert; [done|]. apply wp_bind. eapply op_the; [exact Ho|]. apply wp_bind. apply total_assert; [done|].
  apply wp_bind, wp_gets, wp_bind. eapply total_lift; [eapply (op_offset w ip); [exact Ho|exact Hin]|].
  apply wp_bind. eapply total_lift; [apply getSize_run, Hin|]. apply wp_bind. apply total_assert; [by eapply op_fits|].
  rewrite bool_decide_eq_false_2 by (intros E; by rewrite E in Hk). rewrite Hw, Hrd, Hll. apply wp_bind. cbn [when_]. apply wp_ret.
  apply wp_bind. apply total_assert; [unfold hasRespData; clear -Hk; revert Hk; by destruct (p_cmd pkt)|].
  eapply op_read; [exact Ho|exact Hin|by apply kind_read_unmasked|exact HQ].
Qed.

Lemma dirtied_ready b : ready b -> let b' := set_status (Z.lor (status b) BlkDirty) b in ready b' /\ isDirty b' = true.
Proof using Type.
  unfold ready. intros (H1 & H2 & H3). simpl. rewrite writable_bits in H1 |- *. rewrite readable_bits in H2 |- *. rewrite dirty_bit.
  apply andb_true_iff in H1 as [H1 H0], H2 as [H2 _]. cbn [status set_status whenReady]. rewrite !Z.lor_spec, H0, H1, H2.
  split; [done|]. by rewrite orb_true_r.
Qed.

Lemma op_satisfy_write now y m l v A x b bs pkt Q : opened now y x m l v A b bs -> ready b ->
  kind_write (p_cmd pkt) = true -> in_line w l pkt ->
  (forall x' b' bs', opened now y x' m l v A b' bs' -> ready b' -> isDirty b' = true -> overwritten w l pkt bs bs' -> Q pkt x') ->
  total (satisfyRequest pkt (Some (InTags v))) Q x.
Proof using Type*.
  intros Ho Hr Hk Hin HQ. destruct (op_holds w ip _ _ _ _ _ _ _ _ _ Ho) as (Hv & _).
  destruct (kind_write_plain _ Hk) as (_ & Hll & Hw & Hrd & Hrq & _). destruct (sh_blk (op_shape Ho) v b (op_blk Ho)) as (_ & Hlk & _).
  apply wp_bind. apply total_assert; [by rewrite Hw, orb_true_r|]. unfold base_satisfyRequest. cbv zeta. apply wp_bind.
  apply total_assert; [done|]. apply wp_bind. eapply op_the; [exact Ho|]. apply wp_bind. apply total_assert; [done|].
  apply wp_bind, wp_gets, wp_bind. eapply total_lift; [eapply (op_offset w ip); [exact Ho|exact Hin]|].
  apply wp_bind. eapply total_lift; [apply getSize_run, Hin|]. apply wp_bind. apply total_assert; [by eapply op_fits|].
  rewrite bool_decide_eq_false_2 by (intros E; by rewrite E in Hk). rewrite Hw. apply wp_bind. apply total_assert; [apply Hr|].
  apply wp_bind. eapply total_lift.
  { unfold checkWrite. rewrite Hw, Hll, bool_decide_eq_true_2 by done. reflexivity. }
  cbv beta iota. apply wp_bind. eapply op_put; [exact Ho|done|]. intros x1 Ho1. apply wp_bind. cbn [when_].
  eapply op_write; [exact Ho1|exact Hin|]. intros x2 bs' Ho2 Hov. apply wp_bind. eapply op_set_bits; [exact Ho2|done|].
  intros x3 Ho3. apply wp_ret. destruct (dirtied_ready b Hr) as [Hr' Hd']. by eapply HQ.
Qed.

Lemma op_clusivity now y m l v A x b bs fc Q : opened now y x m l v A b bs -> Q tt x ->
  total (maintainClusivity fc (Some (InTags v))) Q x.
Proof using Type.
  intros Ho HQ. apply wp_bind. eapply op_the; [exact Ho|]. apply wp_bind, wp_gets.
  rewrite (pk_incl (sh_params (op_shape Ho))). by rewrite andb_false_r.
Qed.

(** ** Looking a line up *)

Lemma op_access now y x A a Q : cached now y x A -> 0 <= a < 2 ^ 64 ->
  (forall x' lat, 0 <= lat < 2 ^ 20 -> A !! block_of (w_shift w) a = None -> cached now y x' A -> Q (None, lat) x') ->
  (forall x' lat m v b bs d, 0 <= lat < 2 ^ 20 -> A !! block_of (w_shift w) a = Some (d, bs) ->
     opened now y x' m (block_of (w_shift w) a) v (delete (block_of (w_shift w) a) A) b bs -> ready b -> isDirty b = d ->
     Q (Some v, lat) x') ->
  total (on_tags (accessBlock now a sec)) Q x.
Proof using Type*.
  intros (m & Hs & HA) Ha HN HS. pose proof (sh_tags Hs) as Ht.
  destruct (access_refines (wf := wf) (ok := ok) (bc_tags x) m now a sec Ht Ha) as (t' & Hrun & Ht' & Ei & Em & El & Hf).
  assert (blk_addr a (bc_tags x) = block_of (w_shift w) a) as Ebl by (unfold blk_addr; by rewrite (sh_policy Hs), (sh_shift Hs)).
  rewrite Ebl in Hrun. set (l := block_of (w_shift w) a) in *. eapply total_zoom; [exact Hrun|]. set (x' := set_bc_tags t' x).
  assert (forall i b, blks (bc_tags x) !! i = Some b -> exists n, blks t' !! i = Some (set_refCount n b)) as Hfw.
  { intros i b Hb. destruct (Forall2_lookup_l _ _ _ _ _ Hf Hb) as (b' & Hb' & E). exists (refCount b'). by rewrite <- E. }
  assert (shape (wf := wf) (ok := ok) w ip now y x' m) as Hs'.
  { pose proof (sh_blk Hs) as Hblk. destruct Hs. split; simpl; rewrite ?Ei, ?Em, ?El; try done.
    - by rewrite <- (Forall2_length _ _ _ Hf).
    - intros i b' Hb'. destruct (Forall2_lookup_r _ _ _ _ _ Hf Hb') as (b & Hb & E). rewrite E. exact (Hblk i b Hb). }
  assert (lines w x' m A) as HA'.
  { intros l'. specialize (HA l'). destruct (A !! l') as [[d bs]|]; [|done]. destruct HA as (i & b & Hi & Hb & Hr & Hd & Hbs).
    destruct (Hfw i b Hb) as [n Hn]. exists i, (set_refCount n b). done. }
  pose proof (sh_latency Hs) as Hlat. pose proof (HA' l) as Hl. destruct (A !! l) as [[d bs]|] eqn:EA.
  - destruct Hl as (v' & b' & Hm & Hb & Hr' & Hd' & Hbs). rewrite Hm. eapply HS; [done|done| |exact Hr'|done].
    split; try done. by eapply (delete_other w).
  - rewrite Hl. eapply HN; [done|done|]. by exists m.
Qed.

(** ** Accesses *)

Lemma request_in_line f pkt : 0 <= w_shift w -> request_ok w f pkt -> in_line w (block_of (w_shift w) (p_addr pkt)) pkt.
Proof using Type.
  intros Hs Hr. split; try apply Hr. pose proof (ro_pos _ _ _ Hr). pose proof (block_of_spec (w_shift w) Hs (p_addr pkt)).
  pose proof (block_of_spec (w_shift w) Hs (p_addr pkt + p_size pkt - 1)) as H2. rewrite (ro_fits _ _ _ Hr) in H2. unfold w_line. lia.
Qed.

Lemma op_latency now y m l v A x b bs delay lat Q : opened now y x m l v A b bs -> ready b -> (forall n, Q n x) ->
  total (calculateAccessLatency now (Some (InTags v)) delay lat) Q x.
Proof using Type.
  intros Ho (_ & _ & Hr) HQ. apply wp_bind, wp_gets, wp_bind. eapply op_the; [exact Ho|]. apply wp_bind.
  eapply total_lift; [unfold getWhenReady; rewrite (proj2 (Z.eqb_neq _ _) Hr); reflexivity|]. apply wp_ret, HQ.
Qed.

Section Access.
Context (now : Z) (y : B) (f : Contents) (pkt : Pkt) (Hreq : request_ok w f pkt).
Context (Hat : 0 <= p_addr pkt < 2 ^ 64).
Abbreviation l := (block_of (w_shift w) (p_addr pkt)).

(** The common start of every access. *)
Lemma access_start x A lat wbs (Q : Access -> BaseCache P D B -> Prop) : cached now y x A ->
  (forall x' tl, 0 <= tl < 2 ^ 20 -> A !! l = None -> cached now y x' A ->
     total (if isWriteback (p_cmd pkt) then access_writeback evictBlock now pkt None
              (if isWrite (p_cmd pkt) then calculateTagOnlyLatency (bc_params x) (p_headerDelay pkt) tl else lat) tl wbs
            else access_ordinary satisfyRequest now pkt None tl wbs) Q x') ->
  (forall x' tl m v b bs d, 0 <= tl < 2 ^ 20 -> A !! l = Some (d, bs) ->
     opened now y x' m l v (delete l A) b bs -> ready b -> isDirty b = d ->
     total (if isWriteback (p_cmd pkt) then access_writeback evictBlock now pkt (Some (InTags v))
              (if isWrite (p_cmd pkt) then calculateTagOnlyLatency (bc_params x) (p_headerDelay pkt) tl else lat) tl wbs
            else access_ordinary satisfyRequest now pkt (Some (InTags v)) tl wbs) Q x') ->
  total (base_access evictBlock satisfyRequest now pkt lat wbs) Q x.
Proof using Type*.
  intros Hc HN HS. pose proof Hc as (m0 & Hs0 & _). pose proof (sh_params Hs0) as Hp.
  assert (isRequest (p_cmd pkt) = true /\ p_cmd pkt <> CleanEvict /\ p_cmd pkt <> WriteClean) as (Hrq & Hne1 & Hne2).
  { destruct (ro_cmd _ _ _ Hreq) as [Hk|[Hk _]].
    - destruct (kind_read_plain _ Hk) as (_ & _ & _ & _ & E & _). split; [done|]. split; intros E'; by rewrite E' in Hk.
    - destruct (kind_write_plain _ Hk) as (_ & _ & _ & _ & E & _). split; [done|]. split; intros E'; by rewrite E' in Hk. }
  apply wp_bind. apply total_assert; [done|]. apply wp_bind, wp_gets, wp_bind. apply total_assert; [simpl; by rewrite (pk_rw Hp)|].
  apply wp_bind. eapply total_lift; [apply getAddr_run, Hreq|]. apply wp_bind. eapply total_lift; [apply isSecure_run, Hreq|].
  rewrite (ro_secure _ _ _ Hreq). apply wp_bind.
  assert (forall x' o tl, (exists m', shape (wf := wf) (ok := ok) w ip now y x' m') ->
    total (if isWriteback (p_cmd pkt) then access_writeback evictBlock now pkt o
             (if isWrite (p_cmd pkt) then calculateTagOnlyLatency (bc_params x) (p_headerDelay pkt) tl else lat) tl wbs
           else access_ordinary satisfyRequest now pkt o tl wbs) Q x' ->
    total (done ← (if isEviction (p_cmd pkt) then access_eviction now pkt else mret false);
           if done : bool
           then mret (mkAccess true pkt o (calculateTagOnlyLatency (bc_params x) (p_headerDelay pkt) tl) wbs)
           else if isWriteback (p_cmd pkt) then access_writeback evictBlock now pkt o
                  (if isWrite (p_cmd pkt) then calculateTagOnlyLatency (bc_params x) (p_headerDelay pkt) tl else lat) tl wbs
           else if bool_decide (p_cmd pkt = CleanEvict)
           then mret (mkAccess (bool_decide (o <> None)) pkt o (calculateTagOnlyLatency (bc_params x) (p_headerDelay pkt) tl) wbs)
           else if bool_decide (p_cmd pkt = WriteClean)
           then access_writeclean evictBlock now pkt o
                  (if isWrite (p_cmd pkt) then calculateTagOnlyLatency (bc_params x) (p_headerDelay pkt) tl else lat) tl wbs
           else access_ordinary satisfyRequest now pkt o tl wbs) Q x') as Hrest.
  { intros x' o tl [m' Hs'] H. apply wp_bind.
    assert (forall Q' : bool -> BaseCache P D B -> Prop, Q' false x' ->
      total (if isEviction (p_cmd pkt) then access_eviction now pkt else mret false) Q' x') as He.
    { intros Q' HQ'. destruct (isEviction (p_cmd pkt)); [|by apply wp_ret]. apply wp_bind. eapply total_lift; [apply getAddr_run, Hreq|].
      apply wp_bind. eapply total_lift; [apply isSecure_run, Hreq|]. apply wp_bind. eapply no_write; [exact Hs'|]. by apply wp_ret. }
    apply He. rewrite !bool_decide_eq_false_2 by done. exact H. }
  eapply op_access; [exact Hc|done| |].
  - intros x' tl Htl Hl Hc'. cbv beta iota zeta. change (id (bc_params x)) with (bc_params x). rewrite (ro_plain _ _ _ Hreq).
    apply Hrest; [by destruct Hc' as (m' & ? & _); exists m'|]. by apply HN.
  - intros x' tl m v b bs d Htl Hl Ho Hr Hd. cbv beta iota zeta. change (id (bc_params x)) with (bc_params x). rewrite (ro_plain _ _ _ Hreq).
    apply Hrest; [exists m; apply (op_shape Ho)|]. by eapply HS.
Qed.

(** A request that expects a response, by what the cache holds. *)
Lemma ordinary_miss x A tl wbs Q : cached now y x A -> needsResponse (p_cmd pkt) = true ->
  (forall x' n dep, cached now y x' A -> Q (mkAccess false (set_p_req (set_rq_depth dep (p_req pkt)) pkt) None n wbs) x') ->
  total (access_ordinary satisfyRequest now pkt None tl wbs) Q x.
Proof using Type*.
  intros Hc Hn HQ. pose proof Hc as (m0 & Hs0 & _). apply wp_bind, wp_gets, wp_bind.
  eapply total_lift; [unfold pkt_needsWritable; assert (isRequest (p_cmd pkt) = true) as -> by (by destruct (p_cmd pkt)); reflexivity|].
  apply wp_bind, wp_ret. cbv beta iota. apply wp_bind, (core_miss w now); [apply (pk_masters (sh_params Hs0))|apply Hreq|].
  intros dep x1 H1. apply wp_bind, wp_bind, wp_gets, wp_ret.
  assert (isLLSC (p_cmd pkt) = false) as ->.
  { destruct (ro_cmd _ _ _ Hreq) as [Hk|[Hk _]]; [apply (kind_read_plain _ Hk)|apply (kind_write_plain _ Hk)]. }
  simpl. apply wp_ret, HQ. exact (cached_core Hc H1).
Qed.

Lemma ordinary_hit x m v A b bs tl wbs (Q : Access -> BaseCache P D B -> Prop) : opened now y x m l v A b bs -> ready b ->
  needsResponse (p_cmd pkt) = true ->
  (forall x' n ds, kind_read (p_cmd pkt) = true -> opened now y x' m l v A b bs -> length ds = Z.to_nat (p_size pkt) ->
     (forall a, covers pkt a = true -> byte_at (set_p_data (Some ds) pkt) a = bs !! Z.to_nat (a - l)) ->
     Q (mkAccess true (set_p_data (Some ds) pkt) (Some (InTags v)) n wbs) x') ->
  (forall x' n b' bs', kind_write (p_cmd pkt) = true -> opened now y x' m l v A b' bs' -> ready b' -> isDirty b' = true ->
     overwritten w l pkt bs bs' -> Q (mkAccess true pkt (Some (InTags v)) n wbs) x') ->
  total (access_ordinary satisfyRequest now pkt (Some (InTags v)) tl wbs) Q x.
Proof using Type*.
  intros Ho Hr Hn HR HW. pose proof (op_shape Ho) as Hs. pose proof (sh_params Hs) as Hp. apply wp_bind, wp_gets, wp_bind.
  assert (isRequest (p_cmd pkt) = true) as Hrq by (by destruct (p_cmd pkt)).
  eapply total_lift; [unfold pkt_needsWritable; rewrite Hrq; reflexivity|].
  apply wp_bind, wp_bind. eapply op_the; [exact Ho|]. apply wp_ret.
  assert ((if needsWritable (p_cmd pkt) then isWritable b else isReadable b) = true) as ->
    by (destruct Hr as (? & ? & _); by destruct (needsWritable (p_cmd pkt))).
  apply wp_bind, (core_hit w now); [apply (pk_masters Hp)|apply Hreq|]. intros x1 H1. pose proof (opened_core Ho H1) as Ho1.
  apply wp_bind. pose proof (request_in_line f pkt (proj1 (pk_shift Hp)) Hreq) as Hin.
  assert (forall Q' : Z -> BaseCache P D B -> Prop, (forall n, Q' n x1) ->
    total (if isRead (p_cmd pkt) then calculateAccessLatency now (Some (InTags v)) (p_headerDelay pkt) tl
           else mret (calculateTagOnlyLatency (id (bc_params x)) (p_headerDelay pkt) tl)) Q' x1) as Hlat.
  { intros Q' HQ'. destruct (isRead (p_cmd pkt)); [by eapply op_latency|by apply wp_ret]. }
  apply Hlat. intros n. apply wp_bind. destruct (ro_cmd _ _ _ Hreq) as [Hk|[Hk _]].
  - eapply op_satisfy_read; [exact Ho1|done|done|]. intros ds Hds Hby. apply wp_bind.
    eapply op_clusivity; [exact Ho1|]. apply wp_ret. by apply HR.
  - eapply op_satisfy_write; [exact Ho1|done|done|done|]. intros x2 b' bs' Ho2 Hr2 Hd2 Hov. apply wp_bind.
    eapply op_clusivity; [exact Ho2|]. apply wp_ret. by eapply HW.
Qed.

(** A write-back from above goes into the block of its line. *)
Definition brings_dirt : bool := bool_decide (p_cmd pkt = WritebackDirty).

Lemma readable_set bits b : isReadable b = true -> isReadable (set_status (Z.lor (status b) bits) b) = true.
Proof using Type.
  rewrite !readable_bits. cbn [set_status status]. rewrite !Z.lor_spec. intros [-> ->]%andb_true_iff. done.
Qed.
Lemma dirty_set bits b : Z.testbit bits 3 = false -> isDirty (set_status (Z.lor (status b) bits) b) = isDirty b.
Proof using Type. intros E. rewrite !dirty_bit. cbn [set_status status]. by rewrite Z.lor_spec, E, orb_false_r. Qed.

Lemma writeback_into per x m v A b bs n tl wbs (Q : Access -> BaseCache P D B -> Prop) : opened now y x m l v A b bs ->
  isReadable b = true -> isWriteback (p_cmd pkt) = true -> 0 <= tl < 2 ^ 20 -> 0 < per < 2 ^ 32 ->
  (forall x' b' bs', opened now y x' m l v A b' bs' -> isReadable b' = true -> whenReady b' <> MaxTick ->
     isDirty b' = isDirty b || brings_dirt -> overwritten w l pkt bs bs' ->
     Q (mkAccess true pkt (Some (InTags v)) n wbs) x') ->
  total (when_ (bool_decide (p_cmd pkt = WritebackDirty)) (set_bits BlkDirty (InTags v));;
         when_ (negb (hasSharers pkt)) (set_bits BlkWritable (InTags v));;
         assert_ (negb (needsResponse (p_cmd pkt))) "!pkt->needsResponse()";;
         write_to_block pkt (InTags v);;
         incHitCount pkt;;
         mark_ready now (Z.max (cyclesToTicks per tl) (p_payloadDelay pkt)) pkt (InTags v);;
         mret (mkAccess true pkt (Some (InTags v)) n wbs)) Q x.
Proof using Type*.
  intros Ho Hr Hwb Htl Hper HQ. pose proof (op_shape Ho) as Hs. pose proof (sh_params Hs) as Hp.
  pose proof (request_in_line f pkt (proj1 (pk_shift Hp)) Hreq) as Hin. pose proof (ro_delay _ _ _ Hreq) as [Hd1 Hd2].
  apply wp_bind.
  assert (forall Q' : unit -> BaseCache P D B -> Prop, (forall x' b', opened now y x' m l v A b' bs -> isReadable b' = true ->
    isDirty b' = isDirty b || brings_dirt -> Q' tt x') ->
    total (when_ (bool_decide (p_cmd pkt = WritebackDirty)) (set_bits BlkDirty (InTags v))) Q' x) as HD.
  { intros Q' HQ'. unfold brings_dirt in HQ'. destruct (bool_decide (p_cmd pkt = WritebackDirty)); cbn [when_].
    - eapply op_set_bits; [exact Ho|done|]. intros x1 Ho1. eapply HQ'; [exact Ho1|by apply readable_set|].
      rewrite dirty_bit. cbn [set_status status]. by rewrite Z.lor_spec, !orb_true_r.
    - apply wp_ret. eapply HQ'; [exact Ho|done|]. by rewrite orb_false_r. }
  apply HD. intros x1 b1 Ho1 Hr1 Hdi. apply wp_bind.
  assert (forall Q' : unit -> BaseCache P D B -> Prop, (forall x' b', opened now y x' m l v A b' bs -> isReadable b' = true ->
    isDirty b' = isDirty b1 -> Q' tt x') ->
    total (when_ (negb (hasSharers pkt)) (set_bits BlkWritable (InTags v))) Q' x1) as HW.
  { intros Q' HQ'. destruct (negb (hasSharers pkt)); cbn [when_].
    - eapply op_set_bits; [exact Ho1|done|]. intros x2 Ho2. eapply HQ'; [exact Ho2|by apply readable_set|by apply dirty_set].
    - apply wp_ret. by eapply HQ'. }
  apply HW. intros x2 b2 Ho2 Hr2 Hd2'. apply wp_bind. apply total_assert; [clear -Hwb; revert Hwb; by destruct (p_cmd pkt)|].
  apply wp_bind. eapply op_write; [exact Ho2|exact Hin|]. intros x3 bs' Ho3 Hov. apply wp_bind.
  apply (core_hit w now); [apply (pk_masters (sh_params (op_shape Ho3)))|apply Hreq|]. intros x4 H4. pose proof (opened_core Ho3 H4) as Ho4.
  apply wp_bind. eapply op_ready; [exact Ho4|done| |].
  { unfold cyclesToTicks. rewrite u64_small by nia. nia. }
  intros x5 t Ho5 Ht. apply wp_ret. eapply HQ; [exact Ho5|exact Hr2|exact Ht| |exact Hov]. exact (eq_trans Hd2' Hdi).
Qed.

Lemma writable_ready b : blk_isValid b = true -> isReadable b = true -> whenReady b <> MaxTick ->
  ready (set_status (Z.lor (status b) BlkWritable) b).
Proof using Type.
  intros Hv Hr Ht. split; [|split; [by apply readable_set|done]]. rewrite valid_bit in Hv. rewrite writable_bits. cbn [set_status status].
  by rewrite !Z.lor_spec, Hv, orb_true_r.
Qed.

(** The whole of [access_writeback], whether the line is there or not. *)
Lemma op_access_writeback x A o n tl (Q : Access -> BaseCache P D B -> Prop) : isWriteback (p_cmd pkt) = true -> 0 <= tl < 2 ^ 20 ->
  match o with
  | None => A !! l = None /\ cached now y x A
  | Some v => exists m b d bs, A !! l = Some (d, bs) /\ opened now y x m l v (delete l A) b bs /\ ready b /\ isDirty b = d
  end ->
  (forall x' m v A0 A' b d bs bs' wbs', opened now y x' m l v A0 b bs' -> isReadable b = true -> whenReady b <> MaxTick ->
     isDirty b = d || brings_dirt -> (forall e, <[l := e]> A0 = <[l := e]> A') ->
     (A !! l = Some (d, bs) /\ A' = A /\ wbs' = [] \/ A !! l = None /\ d = false /\ evicted A A' [] wbs') ->
     overwritten w l pkt bs bs' -> Q (mkAccess true pkt (Some (InTags v)) n wbs') x') ->
  total (access_writeback evictBlock now pkt (InTags <$> o) n tl []) Q x.
Proof using Type*.
  intros Hwb Htl Hx HQ.
  assert (exists m, shape (wf := wf) (ok := ok) w ip now y x m) as [m0 Hs0].
  { destruct o as [v|]; [destruct Hx as (m & b & d & bs & _ & Ho & _); exists m; apply (op_shape Ho)|].
    destruct Hx as (_ & m & Hs & _). by exists m. }
  pose proof (sh_params Hs0) as Hp. apply wp_bind, wp_gets, wp_bind. eapply total_lift; [apply getSize_run, Hreq|].
  apply wp_bind. cbn [id]. rewrite (pk_blkSize Hp). apply total_assert; [rewrite (ro_whole _ _ _ Hreq Hwb); apply Z.eqb_refl|].
  apply wp_bind. eapply total_lift; [apply getAddr_run, Hreq|]. apply wp_bind. eapply total_lift; [apply isSecure_run, Hreq|].
  apply wp_bind.
  assert (forall Q' : option nat -> BaseCache P D B -> Prop, Q' None x ->
    total (if bool_decide (p_cmd pkt = WritebackClean) then on_mshrs now (findMatch (p_addr pkt) (p_isSecure pkt) true)
           else mret None) Q' x) as Hno.
  { intros Q' HQ'. destruct (bool_decide (p_cmd pkt = WritebackClean)); [by eapply no_mshr|by apply wp_ret]. }
  apply Hno. apply wp_bind. destruct o as [v|]; cbn [fmap option_fmap option_map block_for].
  - destruct Hx as (m & b & d & bs & Hl & Ho & Hr & Hd). apply wp_ret. cbv beta iota.
    eapply writeback_into; [exact Ho|apply Hr|done|done|apply (pk_period Hp)|]. intros x1 b' bs' Ho1 Hr1 Ht Hd1 Hov.
    eapply (HQ _ _ _ _ A _ d bs); [exact Ho1|done|done|by rewrite <- Hd|apply insert_delete_eq|by left|done].
  - destruct Hx as [Hl Hc]. apply wp_bind.
    eapply op_allocate; [exact Hc|exact Hl|apply getAddr_run, Hreq| |done|done|apply Hreq|].
    { rewrite isSecure_run by apply Hreq. by rewrite (ro_secure _ _ _ Hreq). }
    intros x2 m v A' b bs wbs' Ho Hd Hev. cbv beta iota. apply wp_bind. eapply op_set_bits; [exact Ho|done|]. intros x3 Ho3.
    apply wp_ret. cbv beta iota. destruct (op_holds w ip _ _ _ _ _ _ _ _ _ Ho) as (Hv & _).
    eapply writeback_into; [exact Ho3| |done|done|apply (pk_period Hp)|].
    { rewrite valid_bit in Hv. rewrite readable_bits. cbn [set_status status]. by rewrite !Z.lor_spec, Hv, orb_true_r. }
    intros x4 b' bs' Ho4 Hr4 Ht Hd4 Hov. rewrite dirty_set, Hd in Hd4 by done.
    eapply (HQ _ _ _ _ A' _ false bs); [exact Ho4|done|done|done|done|by right|done].
Qed.

(** What an access leaves behind. *)
Lemma op_do_access x A lat (Q : Access -> BaseCache P D B -> Prop) : cached now y x A ->
  (forall x' v n ds d bs, kind_read (p_cmd pkt) = true -> A !! l = Some (d, bs) -> cached now y x' A ->
     length ds = Z.to_nat (p_size pkt) ->
     (forall a, covers pkt a = true -> byte_at (set_p_data (Some ds) pkt) a = bs !! Z.to_nat (a - l)) ->
     Q (mkAccess true (set_p_data (Some ds) pkt) (Some (InTags v)) n []) x') ->
  (forall x' v n d bs bs', kind_write (p_cmd pkt) = true -> A !! l = Some (d, bs) -> cached now y x' (<[l := (true, bs')]> A) ->
     overwritten w l pkt bs bs' -> Q (mkAccess true pkt (Some (InTags v)) n []) x') ->
  (forall x' n dep, needsResponse (p_cmd pkt) = true -> A !! l = None -> cached now y x' A ->
     Q (mkAccess false (set_p_req (set_rq_depth dep (p_req pkt)) pkt) None n []) x') ->
  (forall x' v n A' d bs bs' wbs', isWriteback (p_cmd pkt) = true -> cached now y x' (<[l := (d || brings_dirt, bs')]> A') ->
     (A !! l = Some (d, bs) /\ A' = A /\ wbs' = [] \/ A !! l = None /\ d = false /\ evicted A A' [] wbs') ->
     overwritten w l pkt bs bs' -> Q (mkAccess true pkt (Some (InTags v)) n wbs') x') ->
  total (access now pkt lat []) Q x.
Proof using Type*.
  intros Hc HRH HWH HM HWB. apply wp_bind.
  assert (isWriteback (p_cmd pkt) = negb (needsResponse (p_cmd pkt)) /\ p_cmd pkt <> WriteClean) as [Ewb Hne].
  { destruct (ro_cmd _ _ _ Hreq) as [Hk|[Hk _]].
    - destruct (kind_read_plain _ Hk) as (_ & _ & _ & -> & _ & -> & _). split; [done|]. intros E. by rewrite E in Hk.
    - destruct (kind_write_plain _ Hk) as (_ & _ & _ & _ & _ & <-). rewrite negb_involutive. split; [done|]. intros E. by rewrite E in Hk. }
  assert (forall x' a, isWriteback (p_cmd pkt) = false -> p_cmd (ac_pkt a) = p_cmd pkt -> Q a x' ->
    total (when_ (isWriteback (p_cmd (ac_pkt a)) || bool_decide (p_cmd (ac_pkt a) = WriteClean))
             match ac_blk a with
             | None => throw (EAssert "blk && blk->isValid()")
             | Some r => b ← the_block r; assert_ (blk_isValid b) "blk && blk->isValid()";; set_bits BlkWritable r
             end;; mret a) Q x') as Hrest.
  { intros x' a E1 E2 HQ. apply wp_bind. rewrite E2, E1, bool_decide_eq_false_2 by done. by apply wp_ret, wp_ret. }
  assert (forall x' m v A0 b bs n wbs, opened now y x' m l v A0 b bs -> isReadable b = true -> whenReady b <> MaxTick ->
    isWriteback (p_cmd pkt) = true ->
    (forall x2, cached now y x2 (<[l := (isDirty b, bs)]> A0) -> Q (mkAccess true pkt (Some (InTags v)) n wbs) x2) ->
    total (when_ (isWriteback (p_cmd pkt) || bool_decide (p_cmd pkt = WriteClean))
             (b ← the_block (InTags v); assert_ (blk_isValid b) "blk && blk->isValid()";; set_bits BlkWritable (InTags v));;
           mret (mkAccess true pkt (Some (InTags v)) n wbs)) Q x') as Hwbrest.
  { intros x' m v A0 b bs n wbs Ho Hr Ht E HQ. apply wp_bind. rewrite E. cbn [orb when_]. apply wp_bind.
    eapply op_the; [exact Ho|]. destruct (op_holds w ip _ _ _ _ _ _ _ _ _ Ho) as (Hv & _). apply wp_bind. apply total_assert; [done|].
    eapply op_set_bits; [exact Ho|done|]. intros x2 Ho2. apply wp_ret, HQ.
    pose proof (opened_close w ip _ _ _ _ _ _ _ _ _ Ho2 (writable_ready b Hv Hr Ht)) as Hcl. by rewrite dirty_set in Hcl. }
  eapply access_start; [exact Hc| |].
  - intros x1 tl Htl Hl Hc1. destruct (decide (isWriteback (p_cmd pkt) = true)) as [E|E%not_true_is_false]; rewrite E.
    + eapply (op_access_writeback x1 A None); [done|done|done|]. intros x2 m v A0 A' b d bs bs' wbs' Ho Hr Ht Hd EA Hcase Hov.
      eapply Hwbrest; [exact Ho|done|done|done|]. intros x3 Hc3. rewrite Hd, EA in Hc3. by eapply HWB.
    + rewrite E in Ewb. symmetry in Ewb. apply negb_false_iff in Ewb. eapply ordinary_miss; [exact Hc1|done|]. intros x2 n dep Hc2.
      apply Hrest; [done|done|]. by apply HM.
  - intros x1 tl m v b bs d Htl Hl Ho Hr Hd. destruct (decide (isWriteback (p_cmd pkt) = true)) as [E|E%not_true_is_false]; rewrite E.
    + eapply (op_access_writeback x1 A (Some v)); [done|done|by exists m, b, d, bs|].
      intros x2 m2 v2 A0 A' b2 d2 bs2 bs' wbs' Ho2 Hr2 Ht2 Hd2 EA Hcase Hov.
      eapply Hwbrest; [exact Ho2|done|done|done|]. intros x3 Hc3. rewrite Hd2, EA in Hc3. by eapply HWB.
    + rewrite E in Ewb. symmetry in Ewb. apply negb_false_iff in Ewb. eapply ordinary_hit; [exact Ho|exact Hr|done| |].
      * intros x2 n ds Hk Ho2 Hds Hby. apply Hrest; [done|done|]. eapply HRH; [done|exact Hl| |done|done].
        pose proof (opened_close w ip _ _ _ _ _ _ _ _ _ Ho2 Hr) as Hcl. by rewrite insert_delete_id in Hcl by (by rewrite Hl, Hd).
      * intros x2 n b' bs' Hk Ho2 Hr2 Hd2 Hov. apply Hrest; [done|done|]. eapply HWH; [done|exact Hl| |exact Hov].
        pose proof (opened_close w ip _ _ _ _ _ _ _ _ _ Ho2 Hr2) as Hcl. by rewrite Hd2, insert_delete_eq in Hcl.
Qed.
End Access.
End Ops.
