(* ===== verification/NoncoherentProps.v ===== *)
(** * A non-coherent cache over a memory is a memory

    Over any component that behaves like an array of bytes ([LawfulMemory]), the
    non-coherent cache behaves like the same array: every read, write and
    write-back is carried out without a failure, and a read returns the bytes
    last written, wherever they are.  The cache keeps the promise it relies on,
    so the statement holds for stacks of caches over a memory. *)

From S2P Require Import Prelude IntMath EventQ Hoare Clocked Packet Request PacketQueue CacheQueue WriteQueue MSHR CacheBlk ReplPolicy ReplPolicyProps Indexing IndexingProps Tags TagsProps BaseCache NoncoherentCache PacketData PacketDataProps AbstractMemProps FlatMemory CacheLines CacheOps.

(** ** Lines over contents *)

Section Contents.
Context (w : World) (Hshift : 0 <= w_shift w < 31).
Implicit Types A : gmap Z (bool * list Z).
Implicit Types f g : Contents.
Abbreviation line := (w_line w).
Abbreviation line_of := (block_of (w_shift w)).

(** What the cache shows: a line it holds hides the component below. *)
Definition merge A g : Contents := fun a =>
  match A !! line_of a with Some (_, bs) => bs !! Z.to_nat (a - line_of a) | None => g a end.

(** The lines are lines of the memory below, and clean ones agree with it. *)
Definition coherent A g : Prop := forall l d bs, A !! l = Some (d, bs) ->
  line_of l = l /\ length bs = Z.to_nat line /\ (forall k, 0 <= k < line -> is_Some (g (l + k)))
  /\ (d = false -> forall k, 0 <= k < line -> bs !! Z.to_nat k = g (l + k)).

Lemma in_line_of a l : line_of a = l -> l <= a < l + line.
Proof using Hshift. intros <-. apply block_of_spec. lia. Qed.
Lemma line_of_in l k : line_of l = l -> 0 <= k < line -> line_of (l + k) = l.
Proof using Hshift. intros El Hk. apply block_of_unique; [lia|done|]. unfold w_line in Hk. lia. Qed.

Lemma merge_ext A g g' : g ≡ g' -> merge A g ≡ merge A g'.
Proof using Type. intros E a. unfold merge. by destruct (A !! line_of a) as [[d bs]|]. Qed.
Lemma coherent_ext A g g' : g ≡ g' -> coherent A g -> coherent A g'.
Proof using Type.
  intros E HA l d bs Hl. destruct (HA l d bs Hl) as (H1 & H2 & H3 & H4). split_and!; try done.
  - intros k Hk. rewrite <- (E (l + k)). auto.
  - intros Hd k Hk. rewrite <- (E (l + k)). auto.
Qed.

Lemma merge_there A g a : coherent A g -> is_Some (merge A g a) <-> is_Some (g a).
Proof using Hshift.
  intros HA. unfold merge. destruct (A !! line_of a) as [[d bs]|] eqn:E; [|done].
  destruct (HA _ _ _ E) as (H1 & H2 & H3 & _). pose proof (in_line_of a _ eq_refl) as Hin. split; intros _.
  - replace a with (line_of a + (a - line_of a)) by lia. apply H3. lia.
  - apply lookup_lt_is_Some_2. lia.
Qed.

(** Adding or replacing a line. *)
Lemma merge_insert A g l d bs a : merge (<[l := (d, bs)]> A) g a
  = if decide (line_of a = l) then bs !! Z.to_nat (a - l) else merge A g a.
Proof using Type.
  unfold merge. destruct (decide (line_of a = l)) as [<-|Hne].
  - by rewrite lookup_insert_eq.
  - by rewrite lookup_insert_ne.
Qed.
Lemma coherent_insert A g l d bs : coherent A g -> line_of l = l -> length bs = Z.to_nat line ->
  (forall k, 0 <= k < line -> is_Some (g (l + k))) ->
  (d = false -> forall k, 0 <= k < line -> bs !! Z.to_nat k = g (l + k)) -> coherent (<[l := (d, bs)]> A) g.
Proof using Type.
  intros HA H1 H2 H3 H4 l' d' bs' [[<- [= <- <-]]|[_ Hl]]%lookup_insert_Some; [done|]. by apply HA.
Qed.

(** Giving a line up: its bytes are below, or travel there in the write-back. *)
Lemma evicted_contents A A' g wbs' : coherent A g -> evicted w A A' [] wbs' ->
  exists g', (wbs' = [] /\ g' = g \/ exists pkt, wbs' = [pkt] /\ request_ok w g pkt /\ g' = after g pkt)
    /\ coherent A' g' /\ merge A' g' ≡ merge A g
    /\ (forall a, A !! line_of a = None -> g' a = g a /\ A' !! line_of a = None).
Proof using Hshift.
  intros HA [[-> ->]|(lv & d & bs & Hl & -> & Hcase)].
  { exists g. split; [by left|]. split; [done|]. split; [done|]. by intros a Ha. }
  destruct (HA lv d bs Hl) as (H1 & H2 & H3 & H4).
  assert (forall a, line_of a <> lv -> merge (delete lv A) g a = merge A g a) as Hother.
  { intros a Ha. unfold merge. by rewrite lookup_delete_ne. }
  assert (coherent (delete lv A) g) as Hdel by (intros l' d' bs' [_ Hl']%lookup_delete_Some; by apply HA).
  assert (forall a, line_of a = lv -> merge A g a = bs !! Z.to_nat (a - lv) /\ merge (delete lv A) g a = g a) as Hhere.
  { intros a <-. unfold merge. by rewrite Hl, lookup_delete_eq. }
  destruct Hcase as [[-> ->]|(pkt & [Hr Haf] & ->)].
  - exists g. split; [by left|]. split; [done|]. split.
    + intros a. destruct (decide (line_of a = lv)) as [E|E]; [|by apply Hother].
      destruct (Hhere a E) as [-> ->]. pose proof (in_line_of a lv E). rewrite (H4 eq_refl) by lia. f_equal. lia.
    + intros a Ha. split; [done|]. by rewrite lookup_delete_None; right.
  - exists (after g pkt). split; [right; exists pkt; split; [done|]; split; [by apply Hr|done]|]. split.
    + intros l' d' bs' [Hne Hl']%lookup_delete_Some. destruct (HA l' d' bs' Hl') as (E1 & E2 & E3 & E4).
      assert (forall k, 0 <= k < line -> after g pkt (l' + k) = g (l' + k)) as Hsame.
      { intros k Hk. rewrite Haf, decide_False; [done|]. by rewrite (line_of_in l' k E1 Hk). }
      split_and!; try done; [intros k Hk; rewrite Hsame by done; auto|intros Hd k Hk; rewrite Hsame by done; auto].
    + split.
      * intros a. unfold merge at 1. destruct (decide (line_of a = lv)) as [E|E].
        -- rewrite E, lookup_delete_eq, Haf, decide_True by done. symmetry. by apply Hhere.
        -- rewrite lookup_delete_ne by done. unfold merge. destruct (A !! line_of a) as [[d' bs']|]; [done|].
           by rewrite Haf, decide_False.
      * intros a Ha. split; [|by rewrite lookup_delete_None; right]. rewrite Haf, decide_False; [done|]. intros E. congruence.
Qed.

(** Writing a packet to its line. *)
Lemma write_contents A g l d bs pkt : isWrite (p_cmd pkt) = true -> in_line w l pkt -> line_of l = l ->
  (forall k, 0 <= k < line -> bs !! Z.to_nat k = if writes_at pkt (l + k) then byte_at pkt (l + k) else merge A g (l + k)) ->
  merge (<[l := (d, bs)]> A) g ≡ after (merge A g) pkt.
Proof using Hshift.
  intros Hw Hin El Hbs a. rewrite merge_insert. unfold after. rewrite Hw. cbn [andb]. destruct (decide (line_of a = l)) as [E|E].
  - pose proof (in_line_of a l E). rewrite (Hbs (a - l)) by lia. by replace (l + (a - l)) with a by lia.
  - unfold writes_at. destruct (covers pkt a) eqn:Hc; [|done]. exfalso. apply E. apply ro_range in Hc. pose proof (il_at _ _ _ Hin).
    apply block_of_unique; [lia|done|]. unfold w_line in *. lia.
Qed.
End Contents.

(** ** Misses *)

Section Noncoherent.
Context {P D B : Type} `{!IndexingPolicy P} `{R : !BaseReplacementPolicy D} `{MS : !MemorySide B}.
Context {wf : P -> Prop} `{!LawfulIndexing P wf} {ok : D -> Prop} `{!LawfulPolicy R ok}.
Context (w : World) `{LM : !LawfulMemory B w}.
Implicit Types x : BaseCache P D B.
Implicit Types A : gmap Z (bool * list Z).
Implicit Types f g : Contents.
Abbreviation line := (w_line w).
Abbreviation line_of := (block_of (w_shift w)).
Abbreviation sec := (w_secure w).
Abbreviation cached := (cached (wf := wf) (ok := ok) w).
Abbreviation opened := (opened (wf := wf) (ok := ok) w).

(** The depth of the request does not matter to anyone. *)
Definition deeper (d : Z) (pkt : Pkt) : Pkt := set_p_req (set_rq_depth d (p_req pkt)) pkt.
Lemma request_deeper f pkt d : request_ok w f pkt -> request_ok w f (deeper d pkt).
Proof using Type. by intros []; split. Qed.

(** The packet of a miss. *)
Definition miss_packet (pkt : Pkt) (bs : list Z) : Pkt :=
  set_p_data (Some bs) (p_set DYNAMIC_DATA (new_Pkt_block (p_id pkt) (p_req pkt) ReadReq line)).

Lemma miss_fields f pkt bs : 0 <= w_shift w < 31 -> request_ok w f pkt ->
  let q := miss_packet pkt bs in
  p_addr q = line_of (p_addr pkt) /\ p_size q = line /\ p_data q = Some bs /\ p_isSecure q = sec /\ p_req q = p_req pkt
  /\ p_cmd q = ReadReq /\ p_flags q = Z.lor (Z.lor VALID_ADDR VALID_SIZE) DYNAMIC_DATA /\ p_bytesValid q = []
  /\ p_headerDelay q = 0 /\ p_payloadDelay q = 0.
Proof using Type.
  intros Hs Hr. unfold miss_packet, new_Pkt_block. destruct (ro_paddr _ _ _ Hr) as [-> Hp].
  rewrite (ldiff_line w _ Hs), Hp. rewrite (ro_rsecure _ _ _ Hr). done.
Qed.

Lemma miss_ok f g pkt bs : 0 <= w_shift w < 31 -> request_ok w f pkt -> length bs = Z.to_nat line ->
  (forall k, 0 <= k < line -> is_Some (g (line_of (p_addr pkt) + k))) -> request_ok w g (miss_packet pkt bs).
Proof using Type.
  intros Hs Hr Hl Hg. destruct (miss_fields f pkt bs Hs Hr) as (Ea & Es & Ed & Esec & Erq & Ec & Ef & Ev & Eh & Epl).
  pose proof (line_pos w (proj1 Hs)) as Hpos. set (q := miss_packet pkt bs) in *.
  assert (line_of (line_of (p_addr pkt)) = line_of (p_addr pkt)) as Hid by (apply block_of_idemp; lia).
  split; unfold p_isSet, has_data_flag, cacheResponding, p_isSet; rewrite ?Ea, ?Es, ?Ec, ?Ef, ?Erq, ?Ev, ?Eh, ?Epl; try done.
  - by left.
  - exists bs. split; [done|]. lia.
  - rewrite Hid. apply block_of_unique; [lia|done|]. unfold w_line. lia.
  - intros a Ha%ro_range. rewrite Ea, Es in Ha. replace a with (line_of (p_addr pkt) + (a - line_of (p_addr pkt))) by lia.
    apply Hg. lia.
  - unfold isMaskedWrite. by rewrite Ec.
  - by left.
  - split; [apply (ro_paddr _ _ _ Hr)|]. rewrite Hid. apply (ro_paddr _ _ _ Hr).
  - apply (ro_rsecure _ _ _ Hr).
  - apply (ro_master _ _ _ Hr).
  - apply (ro_plain _ _ _ Hr).
Qed.

(** The answer to it fills the line. *)
Lemma miss_reply f pkt bs p' : 0 <= w_shift w < 31 -> request_ok w f pkt -> reply (miss_packet pkt bs) p' ->
  fill_ok w (line_of (p_addr pkt)) p' /\ (exists d, p_req p' = set_rq_depth d (p_req pkt)).
Proof using Type.
  intros Hs Hr (ds & d & v & pd & -> & Hds & Hpd). destruct (miss_fields f pkt bs Hs Hr) as (Ea & Es & Ed & Esec & Erq & Ec & Ef & Ev & Eh & Epl).
  set (q := miss_packet pkt bs) in *. set (q1 := set_p_bytesValid v (set_p_data (Some ds) (set_p_req (set_rq_depth d (p_req q)) q))).
  assert (responded q1 = p_clear EXPRESS_SNOOP (set_p_cmd ReadResp q1)) as ->.
  { unfold responded. change (p_cmd q1) with (p_cmd q). by rewrite Ec. }
  assert (p_flags q1 = Z.lor (Z.lor VALID_ADDR VALID_SIZE) DYNAMIC_DATA) as Ef1 by exact Ef.
  assert (p_req q1 = set_rq_depth d (p_req pkt)) as Erq1 by (change (p_req q1) with (set_rq_depth d (p_req q)); by rewrite Erq).
  pose proof (line_pos w (proj1 Hs)) as Hpos. split; [|exists d; exact Erq1].
  split; unfold hasSharers, cacheResponding, p_isSet, p_clear; cbn [p_flags set_p_payloadDelay set_p_flags set_p_cmd p_cmd p_addr p_size p_isSecure p_req p_headerDelay p_payloadDelay];
    rewrite ?Ef1, ?Erq1; try done.
  - split; unfold has_data_flag, p_isSet; cbn [p_flags set_p_payloadDelay set_p_flags set_p_cmd p_cmd p_data]; rewrite ?Ef1; try done.
    + exists ds. split; [done|]. rewrite Hds, Es. transitivity (w_line w); [lia|]. symmetry. exact Es.
    + assert (line_of (p_addr pkt) <= p_addr q /\ 0 < p_size q /\ p_addr q + p_size q <= line_of (p_addr pkt) + line) as Hb by (rewrite Ea, Es; lia). exact Hb.
  - apply (ro_master _ _ _ Hr).
  - change (p_headerDelay q1) with (p_headerDelay q). rewrite Eh. lia.
Qed.

(** Talking to the component below. *)
Lemma cached_below ip now y y' x A : cached ip now y x A -> cached ip now y' (set_bc_below y' x) A.
Proof using Type. intros (m & [] & HA). exists m. split; [by split|]. exact HA. Qed.

Lemma below_atomic ip now y x A g pkt Q : cached ip now y x A -> lm_rep now y g -> request_ok w g pkt ->
  (forall x' y' lat p', cached ip now y' x' A -> lm_rep now y' (after g pkt) -> reply pkt p' -> reads g pkt p' -> Q (lat, p') x') ->
  total (on_below (ms_recvAtomic now pkt)) Q x.
Proof using Type.
  intros Hc Hg Hr HQ. destruct (lm_atomic now y g pkt Hg Hr) as (lat & p' & y' & Hrun & Hg' & Hrep & Hrd).
  assert (bc_below x = y) as E by (destruct Hc as (m & Hs & _); apply (sh_below Hs)).
  eapply total_zoom; [rewrite E; exact Hrun|]. eapply HQ; [by eapply cached_below|done|done|done].
Qed.

Lemma do_writebacks ip now y x A g wbs Q : cached ip now y x A -> lm_rep now y g ->
  (wbs = [] \/ exists pkt, wbs = [pkt] /\ request_ok w g pkt) ->
  (forall x' y', cached ip now y' x' A -> lm_rep now y' (match wbs with pkt :: _ => after g pkt | [] => g end) -> Q tt x') ->
  total (doWritebacksAtomic now wbs) Q x.
Proof using Type.
  intros Hc Hg [->|(pkt & -> & Hr)] HQ; cbn [doWritebacksAtomic forM_].
  - apply wp_ret. by eapply HQ.
  - apply wp_bind, wp_bind. eapply below_atomic; [exact Hc|exact Hg|exact Hr|]. intros x' y' lat p' Hc' Hg' _ _.
    apply wp_ret, wp_ret. by eapply HQ.
Qed.

(** A response needs no response. *)
Lemma responded_once p : needsResponse (p_cmd p) = true -> responded (responded p) = responded p.
Proof using Type.
  intros Hn. unfold responded at 1. assert (needsResponse (p_cmd (responded p)) = false) as ->; [|done].
  unfold responded. rewrite Hn. cbn. revert Hn. by destruct (p_cmd p).
Qed.

Lemma reply_deeper f pkt dep ds : request_ok w f pkt -> length ds = Z.to_nat (p_size pkt) ->
  reply pkt (responded (set_p_data (Some ds) (deeper dep pkt))).
Proof using Type.
  intros Hr Hl. exists ds, dep, (p_bytesValid pkt), (p_payloadDelay pkt). split; [|split; [done|apply Hr]].
  rewrite <- (delay_responded (set_p_data _ _)). by destruct pkt.
Qed.
Lemma deeper_data f pkt dep : request_ok w f pkt -> exists ds, deeper dep pkt = set_p_data (Some ds) (deeper dep pkt) /\ length ds = Z.to_nat (p_size pkt).
Proof using Type.
  intros Hreq. destruct (ro_data _ _ _ Hreq) as (ds & Hd & Hl). exists ds. split; [|lia]. rewrite <- Hd. by destruct pkt.
Qed.
Section Request.
Context (now : Z) (f : Contents) (pkt : Pkt) (Hreq : request_ok w f pkt) (Hat : 0 <= p_addr pkt < 2 ^ 64).
Abbreviation l := (line_of (p_addr pkt)).

(** What a miss leaves: the line has been filled and the request served. *)
Lemma do_miss ip y x A g (Q : Z * Pkt * option blkptr * list Pkt -> BaseCache P D B -> Prop) :
  cached ip now y x A -> lm_rep now y g -> A !! l = None -> needsResponse (p_cmd pkt) = true ->
  (forall k, 0 <= k < line -> is_Some (g (l + k))) ->
  (forall x' y' n v dep ds bs A' wbs', kind_read (p_cmd pkt) = true -> cached ip now y' x' (<[l := (false, bs)]> A') ->
     lm_rep now y' g -> evicted w A A' [] wbs' -> length bs = Z.to_nat line ->
     (forall k, 0 <= k < line -> bs !! Z.to_nat k = g (l + k)) -> length ds = Z.to_nat (p_size pkt) ->
     (forall a, covers pkt a = true -> byte_at (set_p_data (Some ds) pkt) a = g a) ->
     Q (n, responded (set_p_data (Some ds) (deeper dep pkt)), Some (InTags v), wbs') x') ->
  (forall x' y' n v dep bs' A' wbs', kind_write (p_cmd pkt) = true -> cached ip now y' x' (<[l := (true, bs')]> A') ->
     lm_rep now y' g -> evicted w A A' [] wbs' -> length bs' = Z.to_nat line ->
     (forall k, 0 <= k < line -> bs' !! Z.to_nat k = if writes_at pkt (l + k) then byte_at pkt (l + k) else g (l + k)) ->
     Q (n, responded (deeper dep pkt), Some (InTags v), wbs') x') ->
  total (handleAtomicReqMiss now pkt None []) Q x.
Proof using Type*.
  intros Hc Hg Hl Hn Hthere HR HW. pose proof Hc as (m0 & Hs0 & _). pose proof (sh_params Hs0) as Hp. pose proof (pk_shift Hp) as Hsh.
  assert (line_of l = l) as Hid by (apply block_of_idemp; lia). pose proof (line_pos w (proj1 Hsh)) as Hpos.
  apply wp_bind. apply wp_bind. apply total_assert; [done|]. apply wp_bind, wp_ret, wp_bind, wp_gets. cbv zeta.
  rewrite (pk_blkSize Hp). pose proof (miss_fields f pkt [] Hsh Hreq) as (Ea & Es & _ & _ & _ & _ & Ef & _).
  set (q0 := new_Pkt_block (p_id pkt) (p_req pkt) ReadReq line).
  assert (p_isSet VALID_ADDR q0 = true /\ p_isSet VALID_SIZE q0 = true /\ has_data_flag q0 = false /\ p_addr q0 = l /\ p_size q0 = line
    /\ p_cmd q0 = ReadReq) as (F1 & F2 & F3 & F4 & F5 & F6).
  { unfold q0, new_Pkt_block. destruct (ro_paddr _ _ _ Hreq) as [-> Hpa]. rewrite (ldiff_line w _ Hsh), Hpa. done. }
  apply wp_bind. eapply total_lift; [apply getAddr_run, F1|]. apply wp_bind.
  eapply total_lift; [by apply getBlockAddr_run|]. rewrite F4, Hid. apply wp_bind. apply total_assert; [by apply Z.eqb_refl|].
  apply wp_bind, (core_raw now). intros raw x1 H1. pose proof (cached_core Hc H1) as Hc1.
  eapply total_lift; [|].
  { assert (allocate raw q0 = Ok (miss_packet pkt (resize (Z.to_nat line) 0 raw))) as E; [|exact E].
    unfold allocate. rewrite F6. change (hasData ReadReq || hasRespData q0) with (hasRespData q0). unfold hasRespData. rewrite F6.
    change (hasData (responseCommand ReadReq)) with true. cbv iota. rewrite F3. rewrite getSize_run by done. rewrite F5. reflexivity. }
  apply wp_bind, wp_gets, wp_bind. change (id (bc_params x1)) with (bc_params x1).
  eapply below_atomic; [exact Hc1|exact Hg|by apply (miss_ok f); [| |rewrite length_resize|]|]. intros x2 y' lat bus Hc2 Hg2 Hrep Hrd.
  destruct (miss_fields f pkt (resize (Z.to_nat line) 0 raw) Hsh Hreq) as (Em1 & Em2 & _ & _ & _ & Em3 & _).
  assert (kind_read (p_cmd (miss_packet pkt (resize (Z.to_nat line) 0 raw))) = true) as Hkm by (by rewrite Em3).
  apply (lm_ext _ _ _ g) in Hg2; [|by apply after_read]. destruct (miss_reply f pkt _ bus Hsh Hreq Hrep) as [Hfill [dep Edep]].
  cbv beta iota zeta. rewrite Edep. fold (deeper dep pkt). pose proof (fo_cmd _ _ _ Hfill) as Ec.
  apply wp_bind. apply total_assert; [by rewrite Ec|]. apply wp_bind. apply total_assert; [by rewrite Ec|].
  apply wp_bind. apply total_assert; [apply negb_true_iff, bool_decide_eq_false_2; change (p_cmd (deeper dep pkt)) with (p_cmd pkt); intros E; by rewrite E in Hn|].
  apply wp_bind. apply total_assert; [by rewrite Ec|]. apply wp_bind. apply total_assert; [by rewrite (proj1 (fo_flags _ _ _ Hfill))|].
  apply wp_bind. rewrite Ec. change (isError ReadResp) with false. cbv iota. apply wp_bind.
  assert (allocOnFill (bc_params x1) ReadResp = true) as ->.
  { destruct Hc1 as (m1 & Hs1 & _). unfold allocOnFill. by rewrite (pk_incl (sh_params Hs1)). }
  eapply op_fill; [exact Hc2|exact Hl|apply (block_of_ok (w_shift w)); lia|done|exact Hfill|].
  intros x3 m v A' b bs wbs' Ho Hr Hd Hev Hbl Hby. cbv beta iota. apply wp_ret. cbv beta iota.
  assert (forall k, 0 <= k < line -> bs !! Z.to_nat k = g (l + k)) as Hbg.
  { intros k Hk. rewrite (Hby k Hk). apply (Hrd Hkm). apply ro_range. rewrite Em1, Em2. lia. }
  assert (request_ok w f (deeper dep pkt)) as Hreq' by (by apply request_deeper).
  pose proof (request_in_line w f _ (proj1 Hsh) Hreq') as Hin.
  assert (forall x4 p1 n, p_cmd p1 = p_cmd pkt -> Q (n, responded p1, Some (InTags v), wbs') x4 ->
    total (pkt2 ← (if negb (isWriteback (p_cmd p1)) && negb (bool_decide (p_cmd p1 = WriteClean)) then
             assert_ (needsResponse (p_cmd p1)) "pkt->needsResponse()";;
             pkt2 ← lift (pkt_makeResponse p1); mret pkt2
           else mret p1); mret (n, pkt2, Some (InTags v), wbs')) Q x4) as Hend.
  { intros x4 p1 n E HQ. rewrite E.
    assert (negb (isWriteback (p_cmd pkt)) && negb (bool_decide (p_cmd pkt = WriteClean)) = true) as ->
      by (clear -Hn; revert Hn; by destruct (p_cmd pkt)).
    apply wp_bind, wp_bind. apply total_assert; [done|]. apply wp_bind.
    eapply total_lift; [apply pkt_makeResponse_run; by rewrite E|]. apply wp_ret, wp_ret.
    unfold responded in HQ. rewrite E in HQ |- *. by rewrite Hn in HQ. }
  apply wp_bind. destruct (ro_cmd _ _ _ Hreq) as [Hk|[Hk _]].
  - eapply op_satisfy_read; [exact Ho|done|done|]. intros ds Hds Hbyd. apply wp_bind. eapply op_clusivity; [exact Ho|].
    apply Hend; [done|].
    pose proof (opened_close w ip _ _ _ _ _ _ _ _ _ Ho Hr) as Hcl. rewrite Hd in Hcl.
    eapply HR; [done|exact Hcl|done|done|done|done|done|]. intros a Ha.
    change (byte_at (set_p_data (Some ds) pkt) a) with (byte_at (set_p_data (Some ds) (deeper dep pkt)) a).
    rewrite (Hbyd a Ha). apply ro_range in Ha. pose proof (il_at _ _ _ Hin) as Hil.
    change (p_addr (deeper dep pkt)) with (p_addr pkt) in *. change (p_size (deeper dep pkt)) with (p_size pkt) in *.
    rewrite Hbg by lia. f_equal. lia.
  - eapply op_satisfy_write; [exact Ho|exact Hr|done|done|]. intros x4 b' bs' Ho4 Hr4 Hd4 [Hlen Hov]. apply wp_bind. eapply op_clusivity; [exact Ho4|].
    apply Hend; [done|].
    pose proof (opened_close w ip _ _ _ _ _ _ _ _ _ Ho4 Hr4) as Hcl. rewrite Hd4 in Hcl.
    eapply HW; [done|exact Hcl|done|done|done|]. intros k Hk'. rewrite <- (Hbg k Hk'). exact (Hov k Hk').
Qed.

(** The end of an atomic access, when the temporary block was not used. *)
Lemma finish ip y x A g w2 lat per p v (Q : Z * Pkt -> BaseCache P D B -> Prop) :
  cached ip now y x A -> lm_rep now y g -> (w2 = [] \/ exists q, w2 = [q] /\ request_ok w g q) ->
  (forall x' y' n, cached ip now y' x' A -> lm_rep now y' (match w2 with q :: _ => after g q | [] => g end) -> Q (n, responded p) x') ->
  total (doWritebacksAtomic now w2;;
         t ← gets (fun x => tmp_blk (bc_tempBlock x));
         when_ (bool_decide (Some (InTags v) = Some TempBlock) && blk_isValid t) (release_temp evictBlock doWritebacksAtomic now);;
         pkt3 ← (if needsResponse (p_cmd p) then lift (pkt_makeResponse p) else mret p);
         mret (u64 (lat * per), pkt3)) Q x.
Proof using Type.
  intros Hc Hg Hw HQ. apply wp_bind. eapply do_writebacks; [exact Hc|exact Hg|exact Hw|]. intros x' y' Hc' Hg'.
  apply wp_bind, wp_gets, wp_bind. cbn [bool_decide andb when_]. apply wp_ret, wp_bind. unfold responded in HQ.
  destruct (needsResponse (p_cmd p)) eqn:E.
  - eapply total_lift; [by apply pkt_makeResponse_run|]. apply wp_ret. by eapply HQ.
  - apply wp_ret, wp_ret. by eapply HQ.
Qed.

End Request.

Definition cache_rep (now : Z) x f : Prop :=
  exists ip A g, cached ip now (bc_below x) x A /\ lm_rep now (bc_below x) g /\ coherent w A g /\ f ≡ merge w A g.

Lemma rep_intro now y x ip A g f : cached ip now y x A -> lm_rep now y g -> coherent w A g -> f ≡ merge w A g -> cache_rep now x f.
Proof using Type.
  intros Hc Hg HA Hf. assert (bc_below x = y) as E by (destruct Hc as (m & Hs & _); apply (sh_below Hs)).
  exists ip, A, g. by rewrite E.
Qed.

Lemma rep_shift now x f : cache_rep now x f -> 0 <= w_shift w < 31.
Proof using Type. intros (ip & A & g & (m & Hs & _) & _). apply (pk_shift (sh_params Hs)). Qed.

(** The wb-list of an eviction, as [finish] wants it. *)
Lemma evicted_finish A A' g wbs : 0 <= w_shift w < 31 -> coherent w A g -> evicted w A A' [] wbs ->
  (wbs = [] \/ exists q, wbs = [q] /\ request_ok w g q)
  /\ let g' := match wbs with q :: _ => after g q | [] => g end in
     coherent w A' g' /\ merge w A' g' ≡ merge w A g
     /\ (forall a, A !! line_of a = None -> g' a = g a /\ A' !! line_of a = None).
Proof using Type.
  intros Hs HA Hev. destruct (evicted_contents w Hs A A' g wbs HA Hev) as (g' & Hcase & H).
  destruct Hcase as [[-> ->]|(q & -> & Hq & ->)]; (split; [eauto|done]).
Qed.

(** ** Atomic accesses *)

(** [recvAtomic] from the end of its call of [access]. *)
Definition serve (now : Z) (p : CacheParams) (a : Access) : M (BaseCache P D B) (Z * Pkt) :=
  '(pkt1, wbs) ←
    (if isClean (p_cmd (ac_pkt a)) then
       match ac_blk a with
       | Some r =>
           b ← the_block r;
           if isDirty b then
             wb_pkt ← writecleanBlk now r (getDest (p_req (ac_pkt a))) (p_id (ac_pkt a));
             pkt1 ← lift (setSatisfied (ac_pkt a));
             mret (pkt1, ac_writebacks a ++ [wb_pkt])
           else mret (ac_pkt a, ac_writebacks a)
       | None => mret (ac_pkt a, ac_writebacks a)
       end
     else mret (ac_pkt a, ac_writebacks a));
  doWritebacksAtomic now wbs;;
  '(lat, pkt2, blk, w2) ←
    (if ac_satisfied a then mret (ac_lat a, pkt1, ac_blk a, [])
     else '(l, pkt2, blk, w2) ← handleAtomicReqMiss now pkt1 (ac_blk a) [];
          mret (Cycles_add (ac_lat a) l, pkt2, blk, w2));
  doWritebacksAtomic now w2;;
  t ← gets (fun x => tmp_blk (bc_tempBlock x));
  when_ (bool_decide (blk = Some TempBlock) && blk_isValid t) (release_temp evictBlock doWritebacksAtomic now);;
  pkt3 ← (if needsResponse (p_cmd pkt2) then lift (pkt_makeResponse pkt2) else mret pkt2);
  mret (u64 (lat * cp_period p), pkt3).

Lemma recvAtomic_serve now pkt x Q : cp_bypassCaches (bc_params x) = false -> cacheResponding pkt = false ->
  isRead (p_cmd pkt) || isWrite (p_cmd pkt) = true ->
  total (access now pkt (cp_lookupLatency (bc_params x)) []) (fun a => total (serve now (bc_params x) a) Q) x ->
  total (cpuSide_recvAtomic now pkt) Q x.
Proof using Type.
  intros Hb Hr Hk H. apply wp_bind, wp_gets. rewrite Hb. apply wp_bind. apply total_panic_if; [done|].
  apply wp_bind. apply total_panic_if; [by rewrite Hk|]. apply wp_bind, wp_gets, wp_bind. exact H.
Qed.

Section Served.
Context (now : Z) (ip : P) (y : B) (A : gmap Z (bool * list Z)) (f g : Contents) (pkt : Pkt).
Context (Hsh : 0 <= w_shift w < 31) (Hg : lm_rep now y g) (HA : coherent w A g) (Hf : f ≡ merge w A g).
Context (Hreq : request_ok w f pkt).
Abbreviation l := (line_of (p_addr pkt)).

Lemma request_line : line_of l = l.
Proof using Hsh. apply block_of_idemp. lia. Qed.
Lemma request_there : is_Some (g (p_addr pkt)).
Proof using Hsh HA Hf Hreq. apply (merge_there w Hsh A g); [done|]. rewrite <- (Hf (p_addr pkt)). apply (ro_first Hreq). Qed.
Lemma line_there k : 0 <= k < line -> is_Some (g (l + k)).
Proof using Type*.
  intros Hk. eapply (lm_lines _ _ _ (p_addr pkt)); [exact Hg|apply request_there|].
  by rewrite (line_of_in w Hsh l k request_line Hk).
Qed.
Lemma request_bounds : 0 <= p_addr pkt < 2 ^ 64.
Proof using Type*. eapply lm_bounds; [exact Hg|apply request_there]. Qed.
Lemma merge_line A' g' k : 0 <= k < line ->
  merge w A' g' (l + k) = match A' !! l with Some (_, bs) => bs !! Z.to_nat k | None => g' (l + k) end.
Proof using Hsh.
  intros Hk. unfold merge. rewrite (line_of_in w Hsh l k request_line Hk). by replace (l + k - l) with k by lia.
Qed.
Lemma covered a : covers pkt a = true -> 0 <= a - l < line /\ a = l + (a - l).
Proof using Hsh Hreq.
  intros Ha%ro_range. pose proof (il_at _ _ _ (request_in_line w f pkt (proj1 Hsh) Hreq)). lia.
Qed.
Lemma not_clean : isClean (p_cmd pkt) = false.
Proof using Hreq. destruct (ro_cmd _ _ _ Hreq) as [Hk|[Hk _]]; clear -Hk; revert Hk; by destruct (p_cmd pkt). Qed.

(** A request that was served by the cache itself. *)
Lemma serve_hit x p A' g' prm v n wbs (Q : Z * Pkt -> BaseCache P D B -> Prop) : p_cmd p = p_cmd pkt -> cached ip now y x A' ->
  (wbs = [] \/ exists q, wbs = [q] /\ request_ok w g q) -> g' = match wbs with q :: _ => after g q | [] => g end ->
  (forall x' y' n, cached ip now y' x' A' -> lm_rep now y' g' -> Q (n, responded p) x') ->
  total (serve now prm (mkAccess true p (Some (InTags v)) n wbs)) Q x.
Proof using Hreq Hg.
  intros Ep Hc Hw -> HQ. apply wp_bind. cbn [ac_pkt ac_blk ac_satisfied ac_lat ac_writebacks]. rewrite Ep, not_clean.
  apply wp_ret. cbv beta iota. apply wp_bind. eapply do_writebacks; [exact Hc|exact Hg|exact Hw|]. intros x2 y2 Hc2 Hg2.
  apply wp_bind, wp_ret. cbv beta iota. eapply finish; [exact Hc2|exact Hg2|by left|]. intros x3 y3 n' Hc3 Hg3. by eapply HQ.
Qed.

(** The line of a write, once it is in the cache. *)
Lemma rep_write y' x' A' g' d bs' : cached ip now y' x' (<[l := (d, bs')]> A') -> lm_rep now y' g' -> coherent w A' g' ->
  f ≡ merge w A' g' -> (forall k, 0 <= k < line -> g' (l + k) = g (l + k)) -> isWrite (p_cmd pkt) = true -> length bs' = Z.to_nat line ->
  (forall k, 0 <= k < line -> bs' !! Z.to_nat k = if writes_at pkt (l + k) then byte_at pkt (l + k) else merge w A' g' (l + k)) ->
  (d = false -> forall k, 0 <= k < line -> bs' !! Z.to_nat k = g' (l + k)) ->
  cache_rep now x' (after f pkt).
Proof using Type*.
  intros Hc Hg' HA' Hf' Hsame Hw Hlen Hbs Hd. eapply rep_intro; [exact Hc|exact Hg'| |].
  - apply coherent_insert; [done|apply request_line|done| |done]. intros k Hk. rewrite Hsame by done. by apply line_there.
  - rewrite Hf'. symmetry. apply write_contents; [done|done|by apply (request_in_line w f); [lia|]|apply request_line|exact Hbs].
Qed.

(** What serving a request amounts to. *)
Definition served (r : Z * Pkt) x : Prop := cache_rep now x (after f pkt) /\ reply pkt r.2 /\ reads f pkt r.2.

Lemma served_write n x : kind_write (p_cmd pkt) = true -> cache_rep now x (after f pkt) -> served (n, responded pkt) x.
Proof using Hreq.
  intros Hk Hx. split; [done|]. destruct (ro_data _ _ _ Hreq) as (bs & Hd & Hl). split; [by eapply reply_same|].
  intros Hr. apply kind_exclusive in Hr. congruence.
Qed.

Lemma serve_read_hit x prm v n ds d bs : kind_read (p_cmd pkt) = true -> A !! l = Some (d, bs) -> cached ip now y x A ->
  length ds = Z.to_nat (p_size pkt) ->
  (forall a, covers pkt a = true -> byte_at (set_p_data (Some ds) pkt) a = bs !! Z.to_nat (a - l)) ->
  total (serve now prm (mkAccess true (set_p_data (Some ds) pkt) (Some (InTags v)) n [])) served x.
Proof using Type*.
  intros Hk Hl Hc Hds Hby. eapply serve_hit; [done|exact Hc|by left|done|]. intros x3 y3 n' Hc3 Hg3. split; [|split].
  - eapply rep_intro; [exact Hc3|exact Hg3|done|]. by rewrite (after_read f pkt Hk).
  - by eapply reply_data.
  - intros _ a Ha. simpl. rewrite byte_at_responded, (Hby a Ha), (Hf a). destruct (covered a Ha) as [Hin Ea].
    pose proof (merge_line A g (a - l) Hin) as E. rewrite Hl in E. by rewrite <- E, <- Ea.
Qed.

Lemma serve_write_hit x prm v n d bs bs' : kind_write (p_cmd pkt) = true -> A !! l = Some (d, bs) ->
  cached ip now y x (<[l := (true, bs')]> A) -> overwritten w l pkt bs bs' ->
  total (serve now prm (mkAccess true pkt (Some (InTags v)) n [])) served x.
Proof using Type*.
  intros Hk Hl Hc [Hlen Hov]. eapply serve_hit; [done|exact Hc|by left|done|]. intros x3 y3 n' Hc3 Hg3. apply served_write; [done|].
  eapply rep_write; [exact Hc3|exact Hg3|done|done|done|by apply (kind_write_plain _ Hk)|done| |done].
  intros k Hkk. rewrite (Hov k Hkk), (merge_line A g k Hkk), Hl. done.
Qed.

(** A write-back covers its line. *)
Lemma writeback_whole k : isWriteback (p_cmd pkt) = true -> 0 <= k < line ->
  kind_write (p_cmd pkt) = true /\ covers pkt (l + k) = true /\ writes_at pkt (l + k) = true
  /\ (brings_dirt pkt = false -> byte_at pkt (l + k) = f (l + k)).
Proof using Hsh Hreq.
  intros Hwb Hkk.
  assert (kind_write (p_cmd pkt) = true) as Hk.
  { destruct (ro_cmd _ _ _ Hreq) as [Hk|[Hk _]]; [|done]. destruct (kind_read_plain _ Hk) as (_ & _ & _ & _ & _ & E & _). congruence. }
  pose proof (il_at _ _ _ (request_in_line w f pkt (proj1 Hsh) Hreq)) as Hil. pose proof (ro_whole _ _ _ Hreq Hwb) as Hsz.
  assert (covers pkt (l + k) = true) as Hcv by (apply ro_range; lia).
  assert (isMaskedWrite pkt = false) as Hm.
  { unfold isMaskedWrite. rewrite bool_decide_eq_false_2; [done|]. intros E. by rewrite E in Hwb. }
  split; [done|]. split; [done|]. split; [unfold writes_at; by rewrite Hcv, Hm|]. intros Hb.
  apply (ro_clean _ _ _ Hreq); [|done]. clear -Hk Hwb Hb. unfold brings_dirt in Hb. revert Hk Hwb Hb. by destruct (p_cmd pkt).
Qed.

(** Making room for a line outside the cache changes neither it nor what is shown. *)
Lemma evicted_line A' wbs' : evicted w A A' [] wbs' -> A !! l = None ->
  (wbs' = [] \/ exists q, wbs' = [q] /\ request_ok w g q)
  /\ let g' := match wbs' with q :: _ => after g q | [] => g end in
     coherent w A' g' /\ f ≡ merge w A' g' /\ (forall k, 0 <= k < line -> g' (l + k) = g (l + k))
     /\ (forall k, 0 <= k < line -> merge w A' g' (l + k) = g' (l + k)).
Proof using Hsh HA Hf.
  intros Hev Hl. destruct (evicted_finish A A' g wbs' Hsh HA Hev) as (Hw & HA' & Hm' & Hout). split; [done|]. split; [done|].
  split; [by rewrite Hm'|]. pose proof (line_of_in w Hsh l) as Hlo.
  split; intros k Hkk; destruct (Hout (l + k)) as [E1 E2]; rewrite (Hlo k request_line Hkk) in *; try done.
  by rewrite merge_line, E2.
Qed.

Lemma serve_writeback x prm v n A' d bs bs' wbs' : isWriteback (p_cmd pkt) = true ->
  cached ip now y x (<[l := (d || brings_dirt pkt, bs')]> A') ->
  (A !! l = Some (d, bs) /\ A' = A /\ wbs' = [] \/ A !! l = None /\ d = false /\ evicted w A A' [] wbs') ->
  overwritten w l pkt bs bs' ->
  total (serve now prm (mkAccess true pkt (Some (InTags v)) n wbs')) served x.
Proof using Type*.
  intros Hwb Hc Hcase [Hlen Hov]. pose proof (line_pos w (proj1 Hsh)) as Hpos.
  destruct (writeback_whole 0 Hwb ltac:(lia)) as [Hk _].
  assert ((wbs' = [] \/ exists q, wbs' = [q] /\ request_ok w g q)
    /\ let g' := match wbs' with q :: _ => after g q | [] => g end in
       coherent w A' g' /\ f ≡ merge w A' g' /\ (forall k, 0 <= k < line -> g' (l + k) = g (l + k))
       /\ (d = false -> forall k, 0 <= k < line -> merge w A' g' (l + k) = g' (l + k))) as (Hw & HA' & Hf' & Hsame & Hcl).
  { destruct Hcase as [(Hl & -> & ->)|(Hl & -> & Hev)].
    - split; [by left|]. split; [done|]. split; [done|]. split; [done|]. intros -> k Hkk. rewrite (merge_line A g k Hkk), Hl.
      destruct (HA _ _ _ Hl) as (_ & _ & _ & Hcl). by apply Hcl.
    - destruct (evicted_line A' wbs' Hev Hl) as (Hw & HA' & Hf' & Hsame & Hcl). by split_and!. }
  eapply serve_hit; [done|exact Hc|exact Hw|reflexivity|]. intros x3 y3 n' Hc3 Hg3. apply served_write; [done|].
  eapply rep_write; [exact Hc3|exact Hg3|exact HA'|exact Hf'|exact Hsame|by apply (kind_write_plain _ Hk)|done| |];
    [intros k Hkk|intros [Hd Hb]%orb_false_iff k Hkk];
    destruct (writeback_whole k Hwb Hkk) as (_ & _ & Hwr & Hby); rewrite (Hov k Hkk), Hwr; [done|].
  rewrite (Hby Hb), (Hf' (l + k)). by apply Hcl.
Qed.

Lemma serve_miss x prm n dep : needsResponse (p_cmd pkt) = true -> A !! l = None -> cached ip now y x A ->
  total (serve now prm (mkAccess false (deeper dep pkt) None n [])) served x.
Proof using Type*.
  intros Hn Hl Hc. apply wp_bind. cbn [ac_pkt ac_blk ac_satisfied ac_lat ac_writebacks]. change (p_cmd (deeper dep pkt)) with (p_cmd pkt).
  rewrite not_clean. apply wp_ret. cbv beta iota. apply wp_bind. eapply do_writebacks; [exact Hc|exact Hg|by left|].
  intros x2 y2 Hc2 Hg2. apply wp_bind, wp_bind.
  eapply (do_miss now f (deeper dep pkt) (request_deeper f pkt dep Hreq) request_bounds); [exact Hc2|exact Hg2|exact Hl|exact Hn|exact line_there| |];
    change (p_cmd (deeper dep pkt)) with (p_cmd pkt); change (p_addr (deeper dep pkt)) with (p_addr pkt).
  - intros x3 y3 n3 v dep3 ds bs A' wbs' Hk Hc3 Hg3 Hev Hbl Hbs Hdl Hby. cbv beta iota. apply wp_ret. cbv beta iota.
    destruct (evicted_line A' wbs' Hev Hl) as (Hw & HA' & Hf' & Hsame & Hml).
    eapply finish; [exact Hc3|exact Hg3|exact Hw|]. intros x4 y4 n4 Hc4 Hg4.
    rewrite responded_once by exact Hn. split; [|split].
    + eapply rep_intro; [exact Hc4|exact Hg4| |].
      * apply coherent_insert; [done|apply request_line|done| |].
        -- intros k Hkk. rewrite Hsame by done. by apply line_there.
        -- intros _ k Hkk. by rewrite Hsame, Hbs.
      * rewrite (after_read f pkt Hk). intros a. rewrite merge_insert, (Hf' a). destruct (decide (line_of a = l)) as [E|]; [|done].
        pose proof (in_line_of w Hsh a l E). rewrite (Hbs (a - l)), <- Hsame, <- Hml by lia. f_equal. lia.
    + change (deeper dep3 (deeper dep pkt)) with (deeper dep3 pkt). by eapply reply_deeper.
    + intros _ a Ha. simpl. rewrite byte_at_responded.
      change (byte_at (set_p_data (Some ds) (deeper dep3 (deeper dep pkt))) a) with (byte_at (set_p_data (Some ds) (deeper dep pkt)) a).
      rewrite (Hby a Ha), (Hf a). destruct (covered a Ha) as [Hin Ea]. rewrite Ea, merge_line by done. by rewrite Hl.
  - intros x3 y3 n3 v dep3 bs' A' wbs' Hk Hc3 Hg3 Hev Hbl Hbs. cbv beta iota. apply wp_ret. cbv beta iota.
    destruct (evicted_line A' wbs' Hev Hl) as (Hw & HA' & Hf' & Hsame & Hml).
    eapply finish; [exact Hc3|exact Hg3|exact Hw|]. intros x4 y4 n4 Hc4 Hg4.
    rewrite responded_once by exact Hn. split; [|split].
    + eapply rep_write; [exact Hc4|exact Hg4|exact HA'|exact Hf'|exact Hsame|by apply (kind_write_plain _ Hk)|done| |done].
      intros k Hkk. rewrite (Hml k Hkk), (Hsame k Hkk). exact (Hbs k Hkk).
    + change (deeper dep3 (deeper dep pkt)) with (deeper dep3 pkt). destruct (deeper_data f pkt dep3 Hreq) as (ds & -> & Hds).
      by eapply reply_deeper.
    + intros Hr. apply kind_exclusive in Hr. congruence.
Qed.

Lemma serve_all x : cached ip now y x A -> total (cpuSide_recvAtomic now pkt) served x.
Proof using Type*.
  intros Hc. pose proof Hc as (m0 & Hs0 & _). pose proof (sh_params Hs0) as Hp.
  apply recvAtomic_serve; [apply (pk_caching Hp)|apply Hreq| |].
  { destruct (ro_cmd _ _ _ Hreq) as [Hk|[Hk _]].
    - destruct (kind_read_plain _ Hk) as (Hpl & _). by destruct (andb_prop _ _ Hpl) as [-> _].
    - destruct (kind_write_plain _ Hk) as (_ & _ & -> & _). by rewrite orb_true_r. }
  eapply (op_do_access w ip now y f pkt Hreq request_bounds); [exact Hc| | | |]; intros.
  - by eapply serve_read_hit.
  - by eapply serve_write_hit.
  - by apply serve_miss.
  - by eapply serve_writeback.
Qed.
End Served.

Lemma recvAtomic_total now x f pkt : cache_rep now x f -> request_ok w f pkt -> total (cpuSide_recvAtomic now pkt) (served now f pkt) x.
Proof using Type*.
  intros Hrep Hreq. pose proof (rep_shift _ _ _ Hrep) as Hsh. destruct Hrep as (ip & A & g & Hc & Hg & HA & Hf).
  by eapply serve_all.
Qed.
End Noncoherent.
