(* ===== verification/CacheMemory.v ===== *)
(** * The cache keeps the promise it relies on

    Functional accesses of the non-coherent cache, and with the atomic ones the
    instance of [LawfulMemory]: a cache over a lawful memory is a lawful memory,
    so that any stack of caches over a memory is one. *)

From S2P Require Import Prelude IntMath EventQ Hoare Clocked Packet Request PacketQueue CacheQueue WriteQueue MSHR CacheBlk ReplPolicy ReplPolicyProps Indexing IndexingProps Tags TagsProps BaseCache NoncoherentCache PacketData PacketDataProps AbstractMemProps FlatMemory CacheLines CacheOps NoncoherentProps.

(** ** Functional writes to a memory value *)

Lemma functional_write base size d p : pkt_ok p -> isRead (p_cmd p) = false -> isWrite (p_cmd p) = true -> 0 <= base ->
  0 < size < 2 ^ 31 -> base + size <= 2 ^ 64 -> Z.of_nat (length d) = size ->
  base <= p_addr p -> p_addr p + p_size p <= base + size ->
  exists d', trySatisfyFunctional_at base (p_isSecure p) size (Some d) p = Ok (false, p, Some d')
    /\ length d' = length d
    /\ forall k, 0 <= k < size -> d' !! Z.to_nat k = if covers p (base + k) then byte_at p (base + k) else d !! Z.to_nat k.
Proof.
  intros Hp Hr Hw Hb Hs Hbs Hd Hlo Hhi. destruct (po_range _ Hp) as (Ha & Hsz & Has).
  destruct (po_data _ Hp) as (bs & Hbs' & Hl). unfold trySatisfyFunctional_at.
  rewrite (getAddr_run p (po_addr _ Hp)), (getSize_run p (po_sz _ Hp)). cbn [mbind res_bind].
  rewrite !(u64_small (_ + _ - 1)) by lia. rewrite Bool.eqb_reflx, (proj2 (Z.ltb_ge (base + size - 1) _)), (proj2 (Z.ltb_ge _ base)) by lia.
  assert (isPrint (p_cmd p) = false) as -> by (clear -Hw; revert Hw; by destruct (p_cmd p)). rewrite Hr, Hw. cbn [negb orb].
  assert (getConstPtr p = Ok bs) as -> by (unfold getConstPtr, the_bytes; by rewrite (po_flag _ Hp), Hbs').
  rewrite (proj2 (Z.ltb_ge (p_addr p) base)) by lia. rewrite u64_small by lia.
  replace (Z.min (base + size - 1) (p_addr p + p_size p - 1) + 1 - Z.max base (p_addr p)) with (p_size p) by lia.
  set (vo := if base <? p_addr p then p_addr p - base else 0). assert (vo = p_addr p - base) as Hvo by (subst vo; destruct (Z.ltb_spec base (p_addr p)); lia).
  destruct (memcpy_ok d (Z.to_nat vo) bs (Z.to_nat 0) (Z.to_nat (p_size p))) as (d' & Hcp & Hl' & Hlk); [lia..|].
  cbn [mbind res_bind]. rewrite Hcp. exists d'. split; [done|]. split; [done|]. intros k Hk. rewrite Hlk. unfold byte_at.
  destruct (covers p (base + k)) eqn:Hc; unfold covers in Hc.
  - rewrite bool_decide_eq_true_2 by lia. rewrite Hbs'. simpl. f_equal. lia.
  - by rewrite bool_decide_eq_false_2 by lia.
Qed.

(** ** Functional accesses *)

Section Functional.
Context {P D B : Type} `{!IndexingPolicy P} `{R : !BaseReplacementPolicy D} `{MS : !MemorySide B}.
Context {wf : P -> Prop} `{!LawfulIndexing P wf} {ok : D -> Prop} `{!LawfulPolicy R ok}.
Context (w : World) `{LM : !LawfulMemory B w}.
Implicit Types x : BaseCache P D B.
Abbreviation line := (w_line w).
Abbreviation line_of := (block_of (w_shift w)).
Abbreviation sec := (w_secure w).
Abbreviation cached := (cached (wf := wf) (ok := ok) w).
Abbreviation opened := (opened (wf := wf) (ok := ok) w).

(** Nothing is waiting in the ports and the queues. *)
Lemma nothing_queued t ip now y x m pkt Q : shape (wf := wf) (ok := ok) w ip now y x m -> Q (false, pkt) x ->
  total (first_of [cpuSidePort_satisfy; (fun p => on_mshrs t (q_trySatisfyFunctional p));
                   (fun p => on_writes t (q_trySatisfyFunctional p)); memSidePort_satisfy] pkt) Q x.
Proof using Type.
  intros Hs HQ. pose proof (sh_mshrs Hs) as H1. pose proof (sh_writes Hs) as H2. pose proof (sh_queued Hs) as H3.
  unfold wp. cbn [first_of]. unfold cpuSidePort_satisfy, memSidePort_satisfy, satisfy_queued, on_mshrs, on_writes, zoom, q_trySatisfyFunctional.
  unfold mbind, M_bind, gets, lift, modify, mret, M_ret. destruct x. simpl in *. subst. simpl.
  destruct bc_mshrQueue as [st1 q1], bc_writeBuffer as [st2 q2]. simpl in *. rewrite H1. simpl. rewrite H2. simpl. exact HQ.
Qed.

Section Request.
Context (now : Z) (ip : P) (y : B) (A : gmap Z (bool * list Z)) (f g : Contents) (pkt : Pkt).
Context (Hsh : 0 <= w_shift w < 31) (Hg : lm_rep now y g) (HA : coherent w A g) (Hf : f ≡ merge w A g).
Context (Hreq : request_ok w f pkt) (Hresp : needsResponse (p_cmd pkt) = true) (Hmask : isMaskedWrite pkt = false).
Abbreviation l := (line_of (p_addr pkt)).

Lemma line_small : 0 < line < 2 ^ 31.
Proof using Hsh. unfold w_line. split; [lia|]. apply Z.pow_lt_mono_r; lia. Qed.
Lemma line_room : 0 <= l /\ l + line <= 2 ^ 64.
Proof using Type*.
  pose proof line_small. pose proof (line_there w now y A f g pkt Hsh Hg HA Hf Hreq) as Hth.
  pose proof (lm_bounds _ _ _ _ Hg (Hth 0 ltac:(lia))). pose proof (lm_bounds _ _ _ _ Hg (Hth (line - 1) ltac:(lia))). lia.
Qed.

Lemma request_pkt : pkt_ok pkt.
Proof using Type*.
  pose proof line_small. pose proof line_room. pose proof (il_at _ _ _ (request_in_line w f pkt (proj1 Hsh) Hreq)) as Hil.
  split; try apply Hreq; [lia|done].
Qed.

(** The packet that leaves the cache: the same request, with more bytes known. *)
Definition passed (p : Pkt) : Prop := same_frame pkt p /\ pkt_ok p.

Lemma passed_request p g' : passed p -> (forall a, is_Some (g' a) <-> is_Some (f a)) -> request_ok w g' p.
Proof using Hreq Hresp Hmask.
  intros [-> Hp] Hg'. destruct Hp as [H1 H2 H3 H4 H5 H6 H7]. destruct Hreq. split; try done.
  - intros a Ha. apply Hg'. by apply ro_there.
  - intros E. exfalso. change (p_cmd pkt = WritebackClean) in E. by rewrite E in Hresp.
Qed.
Lemma passed_reply p p' : passed p -> reply p p' -> reply pkt p'.
Proof using Type. intros [-> Hp] (bs & d & v & pd & -> & Hl & Hpd). by exists bs, d, v, pd. Qed.
Lemma passed_covers p a : passed p -> covers p a = covers pkt a.
Proof using Type. by intros [-> _]. Qed.
Lemma passed_self : passed pkt.
Proof using Type*. split; [by destruct pkt|apply request_pkt]. Qed.

(** Putting a whole line back. *)
Lemma store_line x m v A' b bs ds (Q : unit -> BaseCache P D B -> Prop) : opened ip now y x m l v A' b bs -> length ds = Z.to_nat line ->
  (forall x', opened ip now y x' m l v A' b ds -> Q tt x') ->
  total (l' ← lift (memcpy (bc_dataBlks x) (Z.to_nat line * v) ds 0 (Z.to_nat line)); put_data (InTags v) l') Q x.
Proof using Type*.
  intros Ho Hl HQ. pose proof (op_shape Ho) as Hs. pose proof (lookup_lt_Some _ _ _ (op_blk Ho)) as Hv. pose proof (sh_len Hs) as Hlen.
  destruct (memcpy_ok (bc_dataBlks x) (Z.to_nat line * v) ds 0 (Z.to_nat line)) as (r & Hr & Hrl & Hri); [nia|lia|].
  apply wp_bind. eapply total_lift; [exact Hr|]. apply wp_modify, HQ.
  replace ds with (take (Z.to_nat line) (drop (Z.to_nat line * v) r)).
  - eapply op_set_data; [exact Ho|done|]. intros j Hj. by rewrite Hri, bool_decide_eq_false_2.
  - apply list_eq. intros k. destruct (decide (k < Z.to_nat line)%nat) as [Hk|Hk].
    + rewrite lookup_take_lt, lookup_drop, Hri, bool_decide_eq_true_2 by lia. f_equal. lia.
    + rewrite lookup_take_ge, lookup_ge_None_2 by lia. done.
Qed.

(** The block of the line takes part in a functional access. *)
Lemma satisfy_read x m v b bs (Q : bool * Pkt -> BaseCache P D B -> Prop) : opened ip now y x m l v (delete l A) b bs ->
  kind_read (p_cmd pkt) = true ->
  (forall x' p, opened ip now y x' m l v (delete l A) b bs -> passed p ->
     (forall a, covers pkt a = true -> byte_at p a = bs !! Z.to_nat (a - l)) -> Q (true, p) x') ->
  total (satisfy_from_block l sec (Some (InTags v)) pkt) Q x.
Proof using Type*.
  intros Ho Hk HQ. pose proof (op_shape Ho) as Hs. destruct (op_holds w ip _ _ _ _ _ _ _ _ _ Ho) as (Hv & _).
  apply wp_bind. eapply op_the; [exact Ho|]. rewrite Hv. apply wp_bind. eapply op_data_of; [exact Ho|]. cbv beta iota.
  apply wp_bind, wp_gets. rewrite (pk_blkSize (sh_params Hs)). change (take _ (drop _ _)) with (line_data w x v). rewrite (op_data Ho).
  pose proof line_small as Hls. pose proof line_room as Hlr. pose proof (request_pkt) as Hpk.
  assert (length bs = Z.to_nat line) as Hlen.
  { rewrite <- (op_data Ho). eapply (line_data_length w ip); [exact Hs|]. rewrite (op_blk Ho). by eexists. }
  destruct (functional_read l sec line bs pkt) as (found & p & Hrun & Hp & Hfr & Hc & _ & Hnf); [done|by apply kind_read_plain in Hk as [[-> _]%andb_prop _]|lia..|].
  assert (forall a, covers pkt a = true -> supplies l sec line pkt a = true) as Hsup.
  { intros a Ha. destruct (covered w f pkt Hsh Hreq a Ha) as [Hin Ea]. unfold supplies. rewrite (ro_secure _ _ _ Hreq), Bool.eqb_reflx. simpl. lia. }
  assert (found = true) as ->.
  { destruct found; [done|]. exfalso. pose proof (ro_pos _ _ _ Hreq).
    destruct (Hnf eq_refl) as [(a & Ha & Hva)|Hno].
    - destruct (Hc a Ha) as [_ E]. rewrite (Hsup a Ha), orb_true_r in E. congruence.
    - assert (covers pkt (p_addr pkt) = true) as Ha by (apply ro_range; lia). pose proof (Hno _ Ha) as E. by rewrite Hsup in E. }
  apply wp_bind. eapply total_lift; [exact Hrun|]. cbv beta iota. apply wp_bind.
  eapply store_line; [exact Ho|done|]. intros x' Ho'. apply wp_ret. eapply HQ; [exact Ho'|by split|].
  intros a Ha. destruct (Hc a Ha) as [E _]. by rewrite (Hsup a Ha) in E.
Qed.

Lemma satisfy_write x m v b bs (Q : bool * Pkt -> BaseCache P D B -> Prop) : opened ip now y x m l v (delete l A) b bs ->
  kind_write (p_cmd pkt) = true ->
  (forall x' bs', opened ip now y x' m l v (delete l A) b bs' -> overwritten w l pkt bs bs' -> Q (false, pkt) x') ->
  total (satisfy_from_block l sec (Some (InTags v)) pkt) Q x.
Proof using Type*.
  intros Ho Hk HQ. pose proof (op_shape Ho) as Hs. destruct (op_holds w ip _ _ _ _ _ _ _ _ _ Ho) as (Hv & _).
  apply wp_bind. eapply op_the; [exact Ho|]. rewrite Hv. apply wp_bind. eapply op_data_of; [exact Ho|]. cbv beta iota.
  apply wp_bind, wp_gets. rewrite (pk_blkSize (sh_params Hs)). change (take _ (drop _ _)) with (line_data w x v). rewrite (op_data Ho).
  pose proof line_small as Hls. pose proof line_room as Hlr. destruct (kind_write_plain _ Hk) as (_ & _ & Hw & Hr & _).
  assert (length bs = Z.to_nat line) as Hlen.
  { rewrite <- (op_data Ho). eapply (line_data_length w ip); [exact Hs|]. rewrite (op_blk Ho). by eexists. }
  pose proof (il_at _ _ _ (request_in_line w f pkt (proj1 Hsh) Hreq)) as Hil.
  destruct (functional_write l line bs pkt request_pkt Hr Hw) as (bs' & Hrun & Hl' & Hby); [lia..|].
  rewrite (ro_secure _ _ _ Hreq) in Hrun. apply wp_bind. eapply total_lift; [exact Hrun|]. cbv beta iota. apply wp_bind.
  eapply store_line; [exact Ho|lia|]. intros x' Ho'. apply wp_ret. eapply HQ; [exact Ho'|]. split; [lia|].
  intros k Hkk. rewrite (Hby k Hkk). unfold writes_at. by rewrite Hmask, andb_true_r.
Qed.

(** *** Contents after a request that went on to the memory below *)

Lemma after_there h a : request_ok w h pkt -> is_Some (h a) -> is_Some (after h pkt a).
Proof using Type.
  intros Hr Ha. unfold after. destruct (isWrite _ && writes_at pkt a) eqn:E; [|done]. apply andb_true_iff in E as [_ E].
  unfold writes_at in E. apply andb_true_iff in E as [Hc _]. destruct (ro_data _ _ _ Hr) as (bs & Hd & Hl). unfold byte_at. rewrite Hc, Hd. simpl.
  apply ro_range in Hc. apply lookup_lt_is_Some_2. lia.
Qed.
Lemma after_elsewhere h a : line_of a <> l -> after h pkt a = h a.
Proof using Hsh Hreq.
  intros Hne. unfold after, writes_at. destruct (covers pkt a) eqn:Hc; [|by rewrite andb_false_r]. exfalso. apply Hne.
  destruct (covered w f pkt Hsh Hreq a Hc) as [Hin Ea]. rewrite Ea. apply line_of_in; [done|apply request_line; done|done].
Qed.

Lemma elsewhere_coherent : coherent w (delete l A) (after g pkt).
Proof using Type*.
  intros l' d bs [Hne Hl]%lookup_delete_Some. destruct (HA l' d bs Hl) as (H1 & H2 & H3 & H4).
  assert (forall k, 0 <= k < line -> after g pkt (l' + k) = g (l' + k)) as Hs.
  { intros k Hk. apply after_elsewhere. by rewrite (line_of_in w Hsh l' k H1 Hk). }
  split_and!; [done|done|intros k Hk; rewrite Hs by done; auto|intros Hd k Hk; rewrite Hs by done; auto].
Qed.

Lemma rep_absent y' x : A !! l = None -> cached ip now y' x A -> lm_rep now y' (after g pkt) -> cache_rep (wf := wf) (ok := ok) w now x (after f pkt).
Proof using Type*.
  intros Hl Hc Hg'. eapply rep_intro; [exact Hc|exact Hg'| |].
  - rewrite <- (delete_id A l Hl). apply elsewhere_coherent.
  - intros a. rewrite (after_proper _ _ Hf _ _ eq_refl a). destruct (decide (line_of a = l)) as [E|E].
    + unfold merge, after. by rewrite E, Hl.
    + rewrite after_elsewhere by done. unfold merge. destruct (A !! line_of a) as [[d bs]|]; [done|]. by rewrite after_elsewhere.
Qed.

Lemma rep_present y' x d bs bs' : A !! l = Some (d, bs) -> cached ip now y' x (<[l := (d, bs')]> A) -> lm_rep now y' (after g pkt) ->
  request_ok w g pkt -> length bs' = Z.to_nat line ->
  (forall k, 0 <= k < line -> bs' !! Z.to_nat k = if isWrite (p_cmd pkt) && writes_at pkt (l + k) then byte_at pkt (l + k) else bs !! Z.to_nat k) ->
  cache_rep (wf := wf) (ok := ok) w now x (after f pkt).
Proof using Type*.
  intros Hl Hc Hg' Hr Hlen Hbs. destruct (HA l d bs Hl) as (H1 & H2 & H3 & H4).
  eapply rep_intro; [exact Hc|exact Hg'| |].
  - rewrite <- insert_delete_eq. apply coherent_insert; [apply elsewhere_coherent|done|done|intros k Hk; apply after_there; auto|].
    intros Hd k Hk. rewrite (Hbs k Hk). unfold after. by rewrite <- (H4 Hd k Hk).
  - intros a. rewrite (after_proper _ _ Hf _ _ eq_refl a), merge_insert. destruct (decide (line_of a = l)) as [E|E].
    + pose proof (in_line_of w Hsh a l E) as Hin. rewrite (Hbs (a - l)) by lia. replace (l + (a - l)) with a by lia.
      unfold after, merge. by rewrite E, Hl.
    + rewrite after_elsewhere by done. unfold merge. destruct (A !! line_of a) as [[d' bs'']|]; [done|]. by rewrite after_elsewhere.
Qed.

(** *** The whole access *)
Definition answered (r : Pkt) x : Prop := cache_rep (wf := wf) (ok := ok) w now x (after f pkt) /\ reply pkt r /\ reads f pkt r.

(** The packet goes on to the memory below. *)
Lemma go_below x A1 p (Q : Pkt -> BaseCache P D B -> Prop) : cached ip now y x A1 -> passed p ->
  (forall x' y' r, cached ip now y' x' A1 -> lm_rep now y' (after g p) -> reply pkt r ->
     (kind_read (p_cmd pkt) = true -> forall a, covers pkt a = true -> byte_at r a = g a) -> Q r x') ->
  total (on_below (ms_recvFunctional p)) Q x.
Proof using Type*.
  intros Hc Hp HQ.
  assert (request_ok w g p) as Hr.
  { apply passed_request; [done|]. intros a. rewrite (Hf a). symmetry. by apply merge_there. }
  assert (p_cmd p = p_cmd pkt /\ isMaskedWrite p = false) as [Ec Em] by (destruct Hp as [-> H]; split; [done|exact (po_unmasked _ H)]).
  destruct (lm_functional now y g p Hg Hr) as (r & y' & Hrun & Hg' & Hrep & Hrd); [by rewrite Ec|done|].
  assert (bc_below x = y) as E by (destruct Hc as (m & Hs & _); apply (sh_below Hs)).
  eapply total_zoom; [rewrite E; exact Hrun|]. eapply HQ; [by eapply cached_below|done|by eapply passed_reply|].
  intros Hk a Ha. apply Hrd; [by rewrite Ec|]. by rewrite passed_covers.
Qed.

Lemma after_passed p h : passed p -> kind_read (p_cmd pkt) = true -> after h p ≡ after h pkt.
Proof using Type.
  intros [Hp _] Hk. assert (p_cmd p = p_cmd pkt) as E by (by rewrite Hp). rewrite (after_read h pkt Hk). apply after_read. by rewrite E.
Qed.

(** [functionalAccess] after the block has been looked at. *)
Lemma end_below t x m p (Q : Pkt -> BaseCache P D B -> Prop) :
  shape (wf := wf) (ok := ok) w ip now y x m ->
  total (on_below (ms_recvFunctional p)) Q x ->
  total ('(done, pkt2) ← first_of [cpuSidePort_satisfy; (fun p => on_mshrs t (q_trySatisfyFunctional p));
                    (fun p => on_writes t (q_trySatisfyFunctional p)); memSidePort_satisfy] p;
         if done : bool then lift (pkt_makeResponse pkt2) else on_below (ms_recvFunctional pkt2)) Q x.
Proof using Type. intros Hs H. apply wp_bind. eapply nothing_queued; [exact Hs|]. exact H. Qed.

Lemma no_mshr_at t x m a b (Q : option nat -> BaseCache P D B -> Prop) : shape (wf := wf) (ok := ok) w ip now y x m -> Q None x ->
  total (on_mshrs t (findMatch a b true)) Q x.
Proof using Type.
  intros Hs HQ. eapply total_zoom; [apply no_entry, (sh_mshrs Hs)|]. simpl. destruct x; simpl. by destruct bc_mshrQueue.
Qed.

(** [functionalAccess] when block [v] has the line and no miss is outstanding. *)
Definition found_line (t : Z) (v : nat) : M (BaseCache P D B) Pkt :=
  '(have_data, pkt1) ← satisfy_from_block l sec (Some (InTags v)) pkt;
  have_dirty ← (b ← the_block (InTags v); if negb have_data then mret false else if isDirty b then mret true else mret false);
  '(done, pkt2) ←
    (if have_dirty : bool then mret (true, pkt1)
     else first_of [cpuSidePort_satisfy; (fun p => on_mshrs t (q_trySatisfyFunctional p));
                    (fun p => on_writes t (q_trySatisfyFunctional p)); memSidePort_satisfy] pkt1);
  if done : bool then lift (pkt_makeResponse pkt2) else on_below (ms_recvFunctional pkt2).

Lemma functional_start t x (Q : Pkt -> BaseCache P D B -> Prop) : cached ip now y x A ->
  (A !! l = None -> total (on_below (ms_recvFunctional pkt)) Q x) ->
  (forall m v b d bs, A !! l = Some (d, bs) -> opened ip now y x m l v (delete l A) b bs -> ready b -> isDirty b = d ->
     total (found_line t v) Q x) ->
  total (cpuSide_recvFunctional t pkt) Q x.
Proof using Type*.
  intros Hc HN HS. pose proof Hc as (m0 & Hs0 & HA0). pose proof (sh_params Hs0) as Hp.
  apply wp_bind, wp_gets. rewrite (pk_caching Hp). apply wp_bind. apply total_panic_if; [done|].
  apply wp_bind, wp_gets. rewrite (pk_blkSize Hp). apply wp_bind. eapply total_lift; [apply getBlockAddr_run; [done|apply Hreq]|].
  apply wp_bind. eapply total_lift; [apply isSecure_run, Hreq|]. rewrite (ro_secure _ _ _ Hreq).
  apply wp_bind. eapply total_lift; [apply getAddr_run, Hreq|]. apply wp_bind, wp_gets. apply wp_bind.
  pose proof (request_bounds w now y A f g pkt Hsh Hg HA Hf Hreq) as Hat.
  assert (blk_addr (p_addr pkt) (bc_tags x) = l) as Ebl by (unfold blk_addr; by rewrite (sh_policy Hs0), (sh_shift Hs0)).
  eapply total_lift; [rewrite (findBlock_run _ m0 _ _ (sh_tags Hs0)), Ebl; [reflexivity|done]|].
  pose proof (HA0 l) as Hl. destruct (A !! l) as [[d bs]|] eqn:El.
  - destruct Hl as (v & b & Hm & Hb & Hr & Hd & Hbs). rewrite Hm. cbn [fmap option_fmap option_map].
    apply wp_bind. eapply no_mshr_at; [exact Hs0|]. eapply HS; [done| |exact Hr|exact Hd].
    split; try done. by eapply (delete_other w).
  - rewrite Hl. cbn [fmap option_fmap option_map]. apply wp_bind. eapply no_mshr_at; [exact Hs0|].
    apply wp_bind, wp_ret. cbv beta iota. apply wp_bind, wp_ret. cbv beta iota. eapply end_below; [exact Hs0|]. by apply HN.
Qed.

Lemma reply_passed p : passed p -> reply pkt (responded p).
Proof using Type*.
  intros [Hp Hok]. destruct (po_data _ Hok) as (bs & Hd & Hl). exists bs, (rq_depth (p_req pkt)), (p_bytesValid p), (p_payloadDelay pkt).
  assert (p_size p = p_size pkt) as Es by (by rewrite Hp). split; [|split; [lia|apply Hreq]].
  rewrite Hp, Hd, <- (delay_responded (set_p_bytesValid _ _)). do 2 f_equal. by destruct pkt as [? ? ? []].
Qed.

Lemma functional_hit_read t x m v b d bs : A !! l = Some (d, bs) -> opened ip now y x m l v (delete l A) b bs -> ready b -> isDirty b = d ->
  kind_read (p_cmd pkt) = true ->
  total (found_line t v) answered x.
Proof using Type*.
  intros Hl Ho Hr Hd Hk. apply wp_bind. eapply satisfy_read; [exact Ho|done|]. intros x1 p Ho1 Hpp Hby. cbv beta iota. apply wp_bind, wp_bind.
  eapply op_the; [exact Ho1|]. pose proof (opened_close w ip _ _ _ _ _ _ _ _ _ Ho1 Hr) as Hcl.
  rewrite Hd, insert_delete_id in Hcl by done. cbn [negb]. rewrite Hd.
  assert (forall a, covers pkt a = true -> f a = bs !! Z.to_nat (a - l)) as Hfa.
  { intros a Ha. rewrite (Hf a). destruct (covered w f pkt Hsh Hreq a Ha) as [Hin Ea]. rewrite Ea at 1. rewrite merge_line by done. by rewrite Hl. }
  assert (needsResponse (p_cmd p) = true) as Hnp by (destruct Hpp as [-> _]; exact Hresp).
  destruct d; apply wp_ret; cbv beta iota.
  - apply wp_bind, wp_ret. cbv beta iota. eapply total_lift; [by apply pkt_makeResponse_run|].
    pose proof (reply_passed p Hpp) as Hrep. unfold responded in Hrep. rewrite Hnp in Hrep.
    split; [|split; [exact Hrep|]].
    + eapply rep_intro; [exact Hcl|exact Hg|done|]. by rewrite (after_read f pkt Hk).
    + intros _ a Ha. rewrite (Hfa a Ha), <- (Hby a Ha). pose proof (byte_at_responded p a) as E. unfold responded in E. by rewrite Hnp in E.
  - eapply end_below; [exact (op_shape Ho1)|]. eapply go_below; [exact Hcl|done|]. intros x' y' r Hc' Hg' Hrep Hrd. split; [|split; [done|]].
    + eapply rep_intro; [exact Hc'| |exact HA|by rewrite (after_read f pkt Hk)].
      eapply lm_ext; [exact Hg'|]. rewrite (after_passed p g Hpp Hk). by apply after_read.
    + intros _ a Ha. rewrite (Hrd Hk a Ha), (Hfa a Ha). destruct (HA _ _ _ Hl) as (_ & _ & _ & Hcln).
      destruct (covered w f pkt Hsh Hreq a Ha) as [Hin Ea]. rewrite (Hcln eq_refl (a - l) Hin). by f_equal.
Qed.

Lemma functional_hit_write t x m v b d bs : A !! l = Some (d, bs) -> opened ip now y x m l v (delete l A) b bs -> ready b -> isDirty b = d ->
  kind_write (p_cmd pkt) = true ->
  total (found_line t v) answered x.
Proof using Type*.
  intros Hl Ho Hr Hd Hk. apply wp_bind. eapply satisfy_write; [exact Ho|done|]. intros x1 bs' Ho1 [Hlen Hov]. cbv beta iota.
  apply wp_bind, wp_bind. eapply op_the; [exact Ho1|]. cbn [negb]. apply wp_ret. cbv beta iota.
  pose proof (opened_close w ip _ _ _ _ _ _ _ _ _ Ho1 Hr) as Hcl. rewrite Hd, insert_delete_eq in Hcl.
  destruct (kind_write_plain _ Hk) as (_ & _ & Hw & _).
  eapply end_below; [exact (op_shape Ho1)|]. eapply go_below; [exact Hcl|apply passed_self|]. intros x' y' r Hc' Hg' Hrep _.
  split; [|split; [done|]].
  - eapply rep_present; [exact Hl|exact Hc'|exact Hg'| |done|].
    + apply passed_request; [apply passed_self|]. intros a. rewrite (Hf a). symmetry. by apply merge_there.
    + intros k Hkk. rewrite Hw. exact (Hov k Hkk).
  - intros Hkr. apply kind_exclusive in Hkr. congruence.
Qed.

Lemma functional_all t x : cached ip now y x A -> total (cpuSide_recvFunctional t pkt) answered x.
Proof using Type*.
  intros Hc. apply functional_start; [done| |].
  - intros Hl. eapply go_below; [exact Hc|apply passed_self|]. intros x' y' r Hc' Hg' Hrep Hrd. split; [by eapply rep_absent|].
    split; [done|]. intros Hk a Ha. rewrite (Hrd Hk a Ha), (Hf a). destruct (covered w f pkt Hsh Hreq a Ha) as [Hin Ea].
    rewrite Ea, merge_line by done. by rewrite Hl.
  - intros m v b d bs Hl Ho Hr Hd. destruct (ro_cmd _ _ _ Hreq) as [Hk|[Hk _]];
      [by eapply functional_hit_read|by eapply functional_hit_write].
Qed.
End Request.

(** ** Time *)

Lemma shape_later ip now now' y x m : shape (wf := wf) (ok := ok) w ip now y x m -> now <= now' < 2 ^ 62 ->
  shape (wf := wf) (ok := ok) w ip now' y x m.
Proof using Type.
  intros [] Hn. split; try done; try lia. intros i b Hb. destruct (sh_blk i b Hb) as (H1 & H2 & H3). split; [done|]. split; [done|]. lia.
Qed.
Lemma rep_later now now' x f : cache_rep (wf := wf) (ok := ok) w now x f -> now <= now' < 2 ^ 62 -> cache_rep (wf := wf) (ok := ok) w now' x f.
Proof using Type.
  intros (ip & A & g & (m & Hs & Hm) & Hg & HA & Hf) Hn. exists ip, A, g. split; [exists m; split; [by eapply shape_later|done]|].
  split; [by eapply lm_time|done].
Qed.

(** ** The promise *)

#[export] Program Instance NoncoherentCache_lawful : LawfulMemory (BaseCache P D B) w := {
  lm_rep := cache_rep (wf := wf) (ok := ok) w
}.
Next Obligation. intros now x f h (ip & A & g & Hc & Hg & HA & Hf) E. exists ip, A, g. by rewrite <- E. Qed.
Next Obligation. intros now now' x f Hx Hn. by eapply rep_later. Qed.
Next Obligation.
  intros now x f a Hx Ha. pose proof (rep_shift w _ _ _ Hx) as Hsh. destruct Hx as (ip & A & g & Hc & Hg & HA & Hf).
  eapply lm_bounds; [exact Hg|]. apply (merge_there w Hsh A g); [done|]. by rewrite <- (Hf a).
Qed.
Next Obligation.
  intros now x f a a' Hx Ha E. pose proof (rep_shift w _ _ _ Hx) as Hsh. destruct Hx as (ip & A & g & Hc & Hg & HA & Hf).
  rewrite (Hf a'). apply (merge_there w Hsh A g); [done|]. eapply lm_lines; [exact Hg| |exact E].
  apply (merge_there w Hsh A g); [done|]. by rewrite <- (Hf a).
Qed.
Next Obligation.
  intros now x f pkt Hx Hr. destruct (proj1 (total_run _ _ _) (recvAtomic_total w now x f pkt Hx Hr)) as ((lat & p') & x' & Hrun & H).
  by exists lat, p', x'.
Qed.
Next Obligation.
  intros now x f pkt Hx Hr Hn Hm. pose proof (rep_shift w _ _ _ Hx) as Hsh. destruct Hx as (ip & A & g & Hc & Hg & HA & Hf).
  destruct (proj1 (total_run _ _ _) (functional_all now ip _ A f g pkt Hsh Hg HA Hf Hr Hn Hm 0 x Hc)) as (p' & x' & Hrun & H).
  by exists p', x'.
Qed.

(** ** A new cache *)

(** What a configuration must be like: the size of the lines, the number of
    masters and the table of the tags agree. *)
Record config_ok (p : CacheParams) (p_size lat masters : Z) (ip : P) (data : list Z) : Prop := {
  cf_params : params_ok w p;
  cf_min : 2 <= w_shift w;
  cf_wf : wf ip;
  cf_shift : setShift (ip_base ip) = w_shift w;
  cf_masters : masters = w_masters w;
  cf_latency : 0 <= lat < 2 ^ 20;
  cf_size : 0 <= p_size / line < 2 ^ 32;
  cf_table : p_size / line = numSets (ip_base ip) * assoc (ip_base ip);
  cf_data : Z.of_nat (length data) = p_size / line * line
}.

Lemma new_tags p p_size p_assoc lat bound masters sq ip data d0 : config_ok p p_size lat masters ip data -> rp_instantiateEntry = Ok d0 ->
  exists t0 t, new_BaseSetAssoc p_size line p_assoc lat bound masters sq ip = Ok t0 /\ tagsInit t0 = Ok (tt, t)
    /\ tags_inv (wf := wf) (ok := ok) t ∅ /\ same_config t0 t /\ Z.of_nat (length (blks t)) = p_size / line
    /\ maxMasters t0 = masters /\ lookupLatency t0 = lat /\ setShift (ip_base (indexingPolicy t0)) = w_shift w
    /\ forall i b, blks t !! i = Some b -> blk_data b = Some (line * Z.of_nat i) /\ lockList b = [] /\ tickInserted b = 0.
Proof using Type*.
  intros Hc Hd. pose proof (pk_shift (cf_params _ _ _ _ _ _ Hc)) as Hsh. pose proof (cf_min _ _ _ _ _ _ Hc) as Hmin.
  assert (4 <= line < 2 ^ 31) as Hline.
  { unfold w_line. split; [|apply Z.pow_lt_mono_r; lia]. change 4 with (2 ^ 2). apply Z.pow_le_mono_r; lia. }
  assert (u32 line = line /\ u64 line = line) as [E32 E64] by (unfold u32, u64; rewrite !wrap_small by lia; done).
  assert (isPowerOf2 line = true) as Hpow by (apply isPowerOf2_spec; [lia|]; exists (w_shift w); split; [lia|done]).
  eexists. edestruct (tagsInit_run (wf := wf) (ok := ok)
    (mkTags line lat masters ip bound false (u32 (p_size / line)) (mkTagStats 0 0 0 0 ∅ ∅ ∅ 0 0) (u32 p_assoc)
       (replicate (Z.to_nat (p_size / line)) new_CacheBlk) sq ∅) d0 (Z.to_nat (p_size / line))) as (t & Hrun & Hi & Hcf & Hl & Hb);
    [apply Hc|done|done| | |done|done|].
  - cbn [numBlocks]. pose proof (cf_size _ _ _ _ _ _ Hc). unfold u32. rewrite wrap_small by lia. lia.
  - pose proof (cf_size _ _ _ _ _ _ Hc). rewrite Z2Nat.id by lia. apply Hc.
  - exists t. split.
    { unfold new_BaseSetAssoc. rewrite (proj2 (Z.eqb_neq line 0)) by lia. rewrite E32, E64, Hpow, (proj2 (Z.ltb_ge line 4)) by lia. reflexivity. }
    split; [exact Hrun|]. split; [exact Hi|]. split; [exact Hcf|]. pose proof (cf_size _ _ _ _ _ _ Hc).
    split; [rewrite Hl; lia|]. split; [done|]. split; [done|]. split; [apply Hc|]. exact Hb.
Qed.

(** It shows what is below it. *)
Lemma new_cache p p_size p_assoc lat bound masters sq ip data d0 mshrs wbufs misses junk ta temp e y :
  config_ok p p_size lat masters ip data -> rp_instantiateEntry = Ok d0 ->
  exists t0 x, new_BaseSetAssoc p_size line p_assoc lat bound masters sq ip = Ok t0
    /\ new_BaseCache p mshrs wbufs misses junk ta t0 data temp e y = Ok x
    /\ forall now f, 0 <= now < 2 ^ 62 -> lm_rep now y f -> lm_rep now x f.
Proof using Type*.
  intros Hc Hd. destruct (new_tags p p_size p_assoc lat bound masters sq ip data d0 Hc Hd) as (t0 & t & Hn & Hi & Ht & Hs & Hl & Em & El & Esh & Hb).
  exists t0. unfold new_BaseCache. rewrite Hi. eexists. split; [exact Hn|]. split; [reflexivity|]. intros now f Hnow Hf.
  destruct Hs as (S1 & _ & S3 & S4 & S5). pose proof (cf_params _ _ _ _ _ _ Hc) as Hp. pose proof (line_pos w (proj1 (pk_shift Hp))) as Hpos.
  pose proof (cf_size _ _ _ _ _ _ Hc). eapply (rep_intro w now y _ (indexingPolicy t) ∅ f); [exists ∅; split| |done|done].
  - split; cbn [bc_params bc_tags bc_dataBlks bc_tempBlock bc_tempBlockWriteback bc_mshrQueue bc_writeBuffer bc_queued bc_clock bc_below]; try done.
    + by rewrite S3.
    + by rewrite S1, Em, (cf_masters _ _ _ _ _ _ Hc).
    + rewrite S5, El. apply Hc.
    + pose proof (cf_data _ _ _ _ _ _ Hc). nia.
    + intros i b Hib. destruct (Hb i b Hib) as (-> & -> & ->). split; [done|]. split; [done|]. lia.
    + simpl. pose proof (pk_period Hp). lia.
  - intros l. by rewrite lookup_empty.
  - exact Hf.
Qed.
End Functional.
