(* ===== verification/CacheSystem.v ===== *)
(** * Runs of requests against a cache

    What a cache answers to a sequence of atomic and functional requests, compared
    with an array of bytes and with the component below; and what flushing
    does ([memWriteback] and [memInvalidate]). *)

From S2P Require Import Prelude IntMath EventQ Hoare Clocked Packet Request PacketQueue CacheQueue WriteQueue MSHR CacheBlk ReplPolicy ReplPolicyProps Indexing IndexingProps Tags TagsProps BaseCache NoncoherentCache PacketData PacketDataProps AbstractMemProps FlatMemory CacheLines CacheOps NoncoherentProps CacheMemory.

(** ** Runs *)

Inductive mem_op := OpAtomic (t : Z) (pkt : Pkt) | OpFunctional (pkt : Pkt).
Definition op_pkt (o : mem_op) : Pkt := match o with OpAtomic _ pkt | OpFunctional pkt => pkt end.

Section Runs.
Context {B : Type} `{MS : !MemorySide B} (w : World).
Implicit Types f : Contents.

Definition run_op (o : mem_op) : M B Pkt :=
  match o with
  | OpAtomic t pkt => '(_, r) ← ms_recvAtomic t pkt; mret r
  | OpFunctional pkt => ms_recvFunctional pkt
  end.
Fixpoint run_ops (os : list mem_op) : M B (list Pkt) :=
  match os with
  | [] => mret []
  | o :: os' => r ← run_op o; rs ← run_ops os'; mret (r :: rs)
  end.

(** Requests at times that do not decrease, each proper for the contents it
    finds; functional ones are reads and unmasked writes. *)
Inductive trace_ok : Z -> Contents -> list mem_op -> Prop :=
| tr_nil now f : trace_ok now f []
| tr_atomic now t f pkt os : now <= t < 2 ^ 62 -> request_ok w f pkt -> trace_ok t (after f pkt) os ->
    trace_ok now f (OpAtomic t pkt :: os)
| tr_functional now f pkt os : request_ok w f pkt -> needsResponse (p_cmd pkt) = true -> isMaskedWrite pkt = false ->
    trace_ok now (after f pkt) os -> trace_ok now f (OpFunctional pkt :: os).

(** The array of bytes: its contents after a run, and its answers. *)
Definition contents (f : Contents) (os : list mem_op) : Contents := fold_left (fun f o => after f (op_pkt o)) os f.
Fixpoint answers (f : Contents) (os : list mem_op) (rs : list Pkt) : Prop :=
  match os, rs with
  | [], [] => True
  | o :: os', r :: rs' => reply (op_pkt o) r /\ reads f (op_pkt o) r /\ answers (after f (op_pkt o)) os' rs'
  | _, _ => False
  end.

Context `{LM : !LawfulMemory B w}.

Lemma lawful_run os now b f : lm_rep now b f -> trace_ok now f os ->
  exists rs b' now', run_ops os b = Ok (rs, b') /\ answers f os rs /\ now <= now' /\ lm_rep now' b' (contents f os).
Proof using Type.
  intros Hb Ht. revert b Hb. induction Ht as [now f|now t f pkt os Ht Hr Htr IH|now f pkt os Hr Hn Hm Htr IH]; intros b Hb; simpl.
  - exists [], b, now. split; [done|]. split; [done|]. split; [lia|done].
  - destruct (lm_atomic t b f pkt) as (lat & p' & b1 & Hrun & Hb1 & Hrep & Hrd); [by eapply lm_time|done|].
    destruct (IH b1 Hb1) as (rs & b' & now' & Hrs & Ha & Hle & Hf). exists (p' :: rs), b', now'. split.
    { unfold mbind, M_bind, mret, M_ret in *. rewrite Hrun. simpl. by rewrite Hrs. }
    split; [done|]. split; [lia|done].
  - destruct (lm_functional now b f pkt Hb Hr Hn Hm) as (p' & b1 & Hrun & Hb1 & Hrep & Hrd).
    destruct (IH b1 Hb1) as (rs & b' & now' & Hrs & Ha & Hle & Hf). exists (p' :: rs), b', now'. split.
    { unfold mbind, M_bind, mret, M_ret in *. rewrite Hrun. simpl. by rewrite Hrs. }
    split; [done|]. split; [lia|done].
Qed.
End Runs.

(** Two lists of answers that cannot be told apart by looking at the commands
    and at the bytes read. *)
Definition same_answer (o : mem_op) (r r' : Pkt) : Prop :=
  p_cmd r = p_cmd r' /\ (kind_read (p_cmd (op_pkt o)) = true -> forall a, covers (op_pkt o) a = true -> byte_at r a = byte_at r' a).
Fixpoint same_answers (os : list mem_op) (rs rs' : list Pkt) : Prop :=
  match os, rs, rs' with
  | [], [], [] => True
  | o :: os, r :: rs, r' :: rs' => same_answer o r r' /\ same_answers os rs rs'
  | _, _, _ => False
  end.

Lemma reply_cmd pkt r : reply pkt r -> p_cmd r = if needsResponse (p_cmd pkt) then responseCommand (p_cmd pkt) else p_cmd pkt.
Proof. intros (bs & d & v & pd & -> & _). unfold responded. simpl. by destruct (needsResponse (p_cmd pkt)). Qed.

Lemma answers_same os f rs rs' : answers f os rs -> answers f os rs' -> same_answers os rs rs'.
Proof.
  revert f rs rs'. induction os as [|o os IH]; intros f [|r rs] [|r' rs']; simpl; try done.
  intros (H1 & H2 & H3) (H1' & H2' & H3'). split; [|by eapply IH]. split.
  - by rewrite (reply_cmd _ _ H1), (reply_cmd _ _ H1').
  - intros Hk a Ha. by rewrite (H2 Hk a Ha), (H2' Hk a Ha).
Qed.

(** ** A new cache over a memory *)

Section System.
Context {P D B : Type} `{!IndexingPolicy P} `{R : !BaseReplacementPolicy D} `{MS : !MemorySide B}.
Context {wf : P -> Prop} `{!LawfulIndexing P wf} {ok : D -> Prop} `{!LawfulPolicy R ok}.
Context (w : World) `{LM : !LawfulMemory B w}.
Implicit Types x : BaseCache P D B.

(** C9: a cache over an array of bytes is an array of bytes. The cache is a
    non-coherent one in atomic and functional mode, mostly inclusive, neither
    read-only nor bypassed, made by its constructor with a table of blocks of the
    shape its indexing policy asks for; below it is any memory side that behaves
    like the array [f]. The requests considered are plain reads (no load-linked),
    WriteReq, WriteLineReq and write-backs of whole lines (a clean one with the
    bytes of the array). Each lies within one line and within the array and carries
    data; all are secure or all are not; none is a maintenance request or a
    write-through; a functional one asks for a response and has no byte mask. Any
    sequence of such requests runs without failing an assertion, every read returns
    the bytes last written and every request gets its response, whatever the sizes
    and whichever lawful indexing and replacement policies are used, and whatever is evicted on the way.
    The bounds: lines of 4 to 2^30 bytes and fewer than 2^32 of them, latencies
    below 2^20 cycles, ticks that do not decrease and stay below 2^62; no packet is
    one that another cache has promised to answer. The state reached still
    represents the array, so the statement applies again to a cache on top of this
    one. (Two of the conditions are known to be needed: [excl_stale_read] and
    [masked_functional_write] show mostly exclusive caches and masked functional
    writes returning other bytes.) *)
Theorem cache_refines_memory p p_size p_assoc lat bound masters sq ip data d0 mshrs wbufs misses junk ta temp e y now f os :
  config_ok (wf := wf) w p p_size lat masters ip data -> rp_instantiateEntry (D := D) = Ok d0 ->
  0 <= now < 2 ^ 62 -> lm_rep now y f -> trace_ok w now f os ->
  exists t0 x rs x' now', new_BaseSetAssoc p_size (w_line w) p_assoc lat bound masters sq ip = Ok t0
    /\ new_BaseCache p mshrs wbufs misses junk ta t0 data temp e y = Ok x
    /\ run_ops os x = Ok (rs, x') /\ answers f os rs /\ lm_rep now' x' (contents f os).
Proof using Type*.
  intros Hc Hd Hn Hf Ht.
  destruct (new_cache w p p_size p_assoc lat bound masters sq ip data d0 mshrs wbufs misses junk ta temp e y Hc Hd) as (t0 & x & H1 & H2 & H3).
  destruct (lawful_run w os now x f (H3 now f Hn Hf) Ht) as (rs & x' & now' & H4 & H5 & _ & H6). by exists t0, x, rs, x', now'.
Qed.

(** C10: the cache cannot be noticed. Take a mostly inclusive, writable, not
    bypassed non-coherent cache made by its constructor over a memory side that
    behaves like an array of bytes, and a sequence of plain reads (no load-linked),
    WriteReq, WriteLineReq and whole-line write-backs (a clean one with the bytes of
    the array), each within one line and within the array and with data, all of the
    same secureness, without maintenance requests and write-throughs, functional
    ones asking for a response and without a byte mask. Run in atomic and functional
    mode against the new cache and against the memory below alone, the sequence
    succeeds both times and gets answers of the same commands with the same bytes.
    The bounds: lines of 4 to 2^30 bytes and fewer than 2^32 of them, latencies
    below 2^20 cycles, ticks that do not decrease and stay below 2^62; no packet is
    one that another cache has promised to answer. *)
Theorem cache_transparent p p_size p_assoc lat bound masters sq ip data d0 mshrs wbufs misses junk ta temp e y now f os t0 x :
  config_ok (wf := wf) w p p_size lat masters ip data -> rp_instantiateEntry (D := D) = Ok d0 ->
  0 <= now < 2 ^ 62 -> lm_rep now y f -> trace_ok w now f os ->
  new_BaseSetAssoc p_size (w_line w) p_assoc lat bound masters sq ip = Ok t0 ->
  new_BaseCache p mshrs wbufs misses junk ta t0 data temp e y = Ok x ->
  exists rs x' rs' y', run_ops os x = Ok (rs, x') /\ run_ops os y = Ok (rs', y') /\ same_answers os rs rs'.
Proof using Type*.
  intros Hc Hd Hn Hf Ht E1 E2.
  destruct (new_cache w p p_size p_assoc lat bound masters sq ip data d0 mshrs wbufs misses junk ta temp e y Hc Hd) as (t0' & x0 & H1 & H2 & H3).
  assert (t0' = t0) as -> by congruence. assert (x0 = x) as -> by congruence.
  destruct (lawful_run w os now x f (H3 now f Hn Hf) Ht) as (rs & x' & now' & H4 & H5 & _).
  destruct (lawful_run w os now y f Hf Ht) as (rs' & y' & now'' & H6 & H7 & _). exists rs, x', rs', y'.
  split; [done|]. split; [done|]. by eapply answers_same.
Qed.
End System.

(** ** Flushing *)

Section Flush.
Context {P D B : Type} `{!IndexingPolicy P} `{R : !BaseReplacementPolicy D} `{MS : !MemorySide B}.
Context {wf : P -> Prop} `{!LawfulIndexing P wf} {ok : D -> Prop} `{!LawfulPolicy R ok}.
Context (w : World) `{LM : !LawfulMemory B w}.
Implicit Types x : BaseCache P D B.
Implicit Types m : gmap (Z * bool) nat.
Implicit Types A : gmap Z (bool * list Z).
Implicit Types f g : Contents.
Abbreviation line := (w_line w).
Abbreviation line_of := (block_of (w_shift w)).
Abbreviation sec := (w_secure w).
Abbreviation shape := (shape (wf := wf) (ok := ok) w).
Abbreviation opened := (opened (wf := wf) (ok := ok) w).

(** ** The packet that writes a block *)

Definition flush_packet (id now l tid : Z) (bs : list Z) : Pkt :=
  let r := set_rq_taskId tid (new_Request_phys now l line 0 funcMasterId) in
  p_set STATIC_DATA (set_p_data (Some bs)
    (new_Pkt id (if sec then set_rq_flags (fl_set (rq_flags r) SECURE) r else r) WriteReq)).

Lemma flush_fields id now l tid bs : let p := flush_packet id now l tid bs in
  p_addr p = l /\ p_size p = line /\ p_data p = Some bs /\ p_isSecure p = sec /\ p_cmd p = WriteReq
  /\ rq_isSecure (p_req p) = sec /\ rq_masterId (p_req p) = funcMasterId /\ rq_paddr (p_req p) = l /\ isMaskedWrite p = false.
Proof using Type. unfold flush_packet. by destruct sec. Qed.

Lemma flush_static id now l tid bs : let r := set_rq_taskId tid (new_Request_phys now l line 0 funcMasterId) in
  dataStatic bs (new_Pkt id (if sec then set_rq_flags (fl_set (rq_flags r) SECURE) r else r) WriteReq) = Ok (flush_packet id now l tid bs).
Proof using Type.
  intros r. unfold flush_packet. cbv zeta. fold r. set (p := new_Pkt _ _ _). unfold dataStatic.
  assert (has_data_flag p = false) as -> by (unfold p, r; destruct sec; vm_compute; reflexivity). reflexivity.
Qed.

Lemma flush_ok g id now l tid bs : 0 <= w_shift w < 31 -> 1 < w_masters w -> line_of l = l -> length bs = Z.to_nat line ->
  (forall k, 0 <= k < line -> is_Some (g (l + k))) -> request_ok w g (flush_packet id now l tid bs).
Proof using Type.
  intros Hsh Hms Hl Hbs Hg. pose proof (line_pos w (proj1 Hsh)) as Hpos.
  destruct (flush_fields id now l tid bs) as (Ea & Es & Ed & Esec & Ec & Ers & Em & Epa & Emw).
  split; rewrite ?Ea, ?Es, ?Ec, ?Ers, ?Em, ?Epa; try done.
  - right. split; [done|]. unfold flush_packet. by destruct sec.
  - unfold flush_packet. by destruct sec.
  - unfold flush_packet. by destruct sec.
  - unfold flush_packet. by destruct sec.
  - exists bs. split; [done|]. lia.
  - rewrite Hl. apply block_of_unique; [lia|done|]. unfold w_line. lia.
  - intros a Ha%ro_range. rewrite Ea, Es in Ha. replace a with (l + (a - l)) by lia. apply Hg. lia.
  - unfold flush_packet. by destruct sec.
  - by rewrite Emw.
  - left. unfold flush_packet. by destruct sec.
  - split; [|done]. unfold flush_packet. by destruct sec.
  - unfold flush_packet. by destruct sec.
  - unfold flush_packet. destruct sec; simpl; lia.
Qed.

Lemma flush_after g id now l tid bs a : 0 <= w_shift w -> line_of l = l -> length bs = Z.to_nat line ->
  after g (flush_packet id now l tid bs) a = if decide (line_of a = l) then bs !! Z.to_nat (a - l) else g a.
Proof using Type.
  intros Hsh Hl Hbs. destruct (flush_fields id now l tid bs) as (Ea & Es & Ed & _ & Ec & _ & _ & _ & Emw).
  set (p := flush_packet id now l tid bs) in *. unfold after, writes_at, byte_at. rewrite Ec, Emw. simpl. rewrite andb_true_r.
  destruct (covers _ a) eqn:Hc.
  - apply ro_range in Hc. rewrite Ea, Es in Hc. rewrite decide_True; [exact (f_equal (fun z => bs !! Z.to_nat (a - z)) Ea)|].
    apply block_of_unique; [done|done|]. unfold w_line in Hc. lia.
  - rewrite decide_False; [done|]. intros E. apply not_true_iff_false in Hc. apply Hc, ro_range. rewrite Ea, Es.
    pose proof (block_of_spec (w_shift w) Hsh a) as H. rewrite E in H. unfold w_line. lia.
Qed.

(** ** Write-back of everything *)

(** The block tested is dirty exactly when it holds a dirty line. *)
Lemma block_line ip now y x m A i b : shape ip now y x m -> lines w x m A -> blks (bc_tags x) !! i = Some b ->
  (blk_isValid b = false /\ isDirty b = false /\ forall l, m !! (l, sec) <> Some i)
  \/ exists l bs, A !! l = Some (isDirty b, bs) /\ ready b /\ opened ip now y x m l i (delete l A) b bs.
Proof using Type*.
  intros Hs HA Hb. pose proof (sh_tags Hs) as Ht. destruct (blk_isValid b) eqn:Hv.
  - right. destruct (valid_line w ip now y x m A i b Hs HA Hb Hv) as (l & d & bs & Hl & Ho & _ & Hd). exists l, bs.
    split; [by rewrite Hd|]. split; [|exact Ho]. pose proof (HA l) as H. rewrite Hl in H.
    destruct H as (i' & b' & Hi' & Hb' & Hr & _). pose proof (op_here Ho) as Hi. assert (i' = i) as -> by congruence.
    assert (b' = b) as -> by congruence. exact Hr.
  - left. split; [done|]. pose proof (ti_clear _ _ Ht i b Hb Hv) as E. split; [unfold isDirty; by rewrite E|].
    intros l (b' & Hb' & Hv' & _)%(ti_rep _ _ Ht). congruence.
Qed.

Lemma opened_below ip now y y' x m l v A b bs : opened ip now y x m l v A b bs -> opened ip now y' (set_bc_below y' x) m l v A b bs.
Proof using Type. intros [[] ? ? ? ?]. by split; [split|..]. Qed.

(** What a run of [memWriteback] goes through: the lines still dirty are in the
    blocks from [k] on, and what is shown is [f]. *)
Definition flushing (ip : P) (now : Z) (m : gmap (Z * bool) nat) f (k : nat) x : Prop :=
  exists y A g, shape ip now y x m /\ lines w x m A /\ lm_rep now y g /\ coherent w A g /\ f ≡ merge w A g
    /\ forall l bs i, A !! l = Some (true, bs) -> m !! (l, sec) = Some i -> (k <= i)%nat.

Lemma clean_ready b : ready b -> ready (set_status (Z.ldiff (status b) BlkDirty) b).
Proof using Type.
  unfold ready. rewrite !writable_bits, !readable_bits. cbn [set_status status]. rewrite !Z.ldiff_spec.
  change (Z.testbit BlkDirty 1) with false. change (Z.testbit BlkDirty 0) with false. change (Z.testbit BlkDirty 2) with false.
  by rewrite !andb_true_r.
Qed.
Lemma clean_dirty b : isDirty (set_status (Z.ldiff (status b) BlkDirty) b) = false.
Proof using Type. rewrite dirty_bit. cbn [set_status status]. rewrite Z.ldiff_spec. apply andb_false_r. Qed.

(** The number of blocks never changes. *)
Lemma with_run {St T} (c : M St T) Q s : total c (fun a s' => c s = Ok (a, s') -> Q a s') s -> total c Q s.
Proof using Type. unfold wp. destruct (c s) as [[a s']|e]; auto. Qed.
Abbreviation nblks := (fun x => length (blks (bc_tags x))).
Lemma clear_bits_blocks bits v x x' : clear_bits bits (InTags v) x = Ok (tt, x') -> nblks x' = nblks x.
Proof using Type.
  unfold clear_bits, the_block, put_block, on_tags, zoom, get_blk, put_blk, mbind, M_bind, gets, modify. simpl.
  destruct (blks (bc_tags x) !! v); [|done]. simpl. intros [= <-]. simpl. apply length_insert.
Qed.

(** The body of [writebackVisitor] for a dirty block. *)
Lemma write_dirty ip now y x m l v A b bs g (Q : unit -> BaseCache P D B -> Prop) : opened ip now y x m l v A b bs -> lm_rep now y g ->
  (forall k, 0 <= k < line -> is_Some (g (l + k))) ->
  (forall x' y' id tid, opened ip now y' x' m l v A (set_status (Z.ldiff (status b) BlkDirty) b) bs ->
     lm_rep now y' (after g (flush_packet id now l tid bs)) -> nblks x' = nblks x -> Q tt x') ->
  total (assert_ (blk_isValid b) "blk.isValid()";;
     addr ← cache_regenerateBlkAddr (InTags v);
     n ← param cp_blkSize;
     let req := set_rq_taskId (task_id b) (new_Request_phys now addr n 0 funcMasterId) in
     req ← (if blk_isSecure b then lift (setFlags SECURE req) else mret req);
     id ← new_id;
     '(l, base) ← data_of (InTags v);
     pkt ← lift (dataStatic (take (Z.to_nat n) (drop base l)) (new_Pkt id req WriteReq));
     on_below (ms_recvFunctional pkt);;
     clear_bits BlkDirty (InTags v)) Q x.
Proof using Type*.
  intros Ho Hg Hth HQ. pose proof (op_shape Ho) as Hs. pose proof (sh_params Hs) as Hp. pose proof (pk_shift Hp) as Hsh.
  destruct (op_holds w ip _ _ _ _ _ _ _ _ _ Ho) as (Hv & Hsec & _ & Hl & _).
  assert (length bs = Z.to_nat line) as Hlen.
  { rewrite <- (op_data Ho). eapply (line_data_length w ip); [exact Hs|]. rewrite (op_blk Ho). by eexists. }
  apply wp_bind. apply total_assert; [done|]. apply wp_bind. eapply op_regenerate; [exact Ho|]. apply wp_bind, wp_gets.
  rewrite (pk_blkSize Hp), Hsec. cbv zeta. set (r := set_rq_taskId (task_id b) (new_Request_phys now l line 0 funcMasterId)).
  apply wp_bind.
  assert (forall Q' x0, Q' (if sec then set_rq_flags (fl_set (rq_flags r) SECURE) r else r) x0 ->
    total (if sec then lift (setFlags SECURE r) else mret r) Q' x0) as Hreq.
  { intros Q' x0 HQ'. destruct sec; [|by apply wp_ret]. eapply total_lift; [reflexivity|exact HQ']. }
  apply Hreq. apply wp_bind, (core_id now). intros id x1 H1. pose proof (opened_core Ho H1) as Ho1. apply wp_bind.
  eapply op_data_of; [exact Ho1|]. cbv beta iota. change (take _ (drop _ _)) with (line_data w x1 v). rewrite (op_data Ho1). apply wp_bind.
  eapply total_lift; [apply flush_static|].
  apply wp_bind. set (p := flush_packet id now l (task_id b) bs).
  assert (request_ok w g p) as Hr by (apply flush_ok; [done|apply (pk_some Hp)|done..]).
  destruct (flush_fields id now l (task_id b) bs) as (_ & _ & _ & _ & Ec & _ & _ & _ & Emw). fold p in Ec, Emw.
  assert (needsResponse (p_cmd p) = true) as Hn by (rewrite Ec; reflexivity).
  destruct (lm_functional now y g p Hg Hr Hn Emw) as (p' & y' & Hrun & Hg' & _).
  eapply total_zoom; [rewrite (sh_below (op_shape Ho1)); exact Hrun|]. apply with_run.
  eapply op_clear_bits; [eapply opened_below; exact Ho1|done|]. intros x2 Ho2 Hrun2.
  eapply HQ; [exact Ho2|exact Hg'|]. rewrite (clear_bits_blocks _ _ _ _ Hrun2). simpl. by destruct H1 as (_ & -> & _).
Qed.

(** Once its bytes are below, the line is clean and nothing has changed to the eye. *)
Lemma written_line A g l d bs id now tid : 0 <= w_shift w < 31 -> coherent w A g -> A !! l = Some (d, bs) ->
  let g' := after g (flush_packet id now l tid bs) in let A' := <[l := (false, bs)]> (delete l A) in
  coherent w A' g' /\ merge w A' g' ≡ merge w A g.
Proof using Type.
  intros Hsh HcA Hl. destruct (HcA l d bs Hl) as (L1 & L2 & L3 & L4). cbv zeta.
  assert (forall a, after g (flush_packet id now l tid bs) a = if decide (line_of a = l) then bs !! Z.to_nat (a - l) else g a) as Haf
    by (intros a; apply flush_after; [lia|done|done]).
  assert (forall k, 0 <= k < line -> after g (flush_packet id now l tid bs) (l + k) = bs !! Z.to_nat k) as Hhere.
  { intros k Hk. rewrite Haf, decide_True by (by apply line_of_in). f_equal. lia. }
  split.
  - apply coherent_insert; [|done|done| |].
    + intros l' d' bs' [Hne Hl']%lookup_delete_Some. destruct (HcA l' d' bs' Hl') as (E1 & E2 & E3 & E4).
      assert (forall k, 0 <= k < line -> after g (flush_packet id now l tid bs) (l' + k) = g (l' + k)) as Hs.
      { intros k Hk. rewrite Haf, decide_False; [done|]. rewrite (line_of_in w Hsh l' k E1 Hk). done. }
      split_and!; [done|done|intros k Hk; rewrite Hs by done; auto|intros Hd k Hk; rewrite Hs by done; auto].
    + intros k Hk. rewrite (Hhere k Hk). apply lookup_lt_is_Some_2. lia.
    + intros _ k Hk. by rewrite (Hhere k Hk).
  - intros a. rewrite merge_insert. unfold merge. destruct (decide (line_of a = l)) as [E|E].
    + by rewrite E, Hl.
    + rewrite lookup_delete_ne by done. destruct (A !! line_of a) as [[d' bs']|]; [done|]. by rewrite Haf, decide_False.
Qed.

Definition flush_lines (ip : P) (now : Z) m f (n k : nat) x : Prop := flushing ip now m f k x /\ nblks x = n.

Lemma visit_writeback ip now m f n k x : flush_lines ip now m f n k x -> (k < n)%nat ->
  total (writebackVisitor now k) (fun _ => flush_lines ip now m f n (S k)) x.
Proof using Type*.
  intros [(y & A & g & Hs & HA & Hg & HcA & Hf & Hd) Hlen] Hk. destruct (lookup_lt_is_Some_2 (blks (bc_tags x)) k ltac:(lia)) as [b Hb].
  pose proof (sh_params Hs) as Hp. pose proof (pk_shift Hp) as Hsh.
  assert (blk_isValid b && isDirty b = false -> flush_lines ip now m f n (S k) x) as Hskip.
  { intros E. split; [|done]. exists y, A, g. split_and!; try done. intros l bs i Hl Hi. pose proof (Hd l bs i Hl Hi) as Hle.
    destruct (decide (i = k)) as [->|]; [|lia]. exfalso. pose proof (HA l) as H. rewrite Hl in H. destruct H as (i' & b' & Hi' & Hb' & Hr & Hdb & _).
    assert (i' = k) as -> by congruence. assert (b' = b) as -> by congruence.
    apply (ti_rep _ _ (sh_tags Hs)) in Hi' as (b' & Hb'' & Hv & _). assert (b' = b) as -> by congruence. by rewrite Hv, Hdb in E. }
  apply wp_bind. eapply total_zoom; [by apply get_blk_run|]. replace (set_bc_tags (bc_tags x) x) with x by (by destruct x).
  destruct (block_line ip now y x m A k b Hs HA Hb) as [(Hv & Hdb & _)|(l & bs & Hl & Hr & Ho)].
  { rewrite Hdb. apply wp_ret, Hskip. by rewrite Hv. }
  destruct (op_holds w ip _ _ _ _ _ _ _ _ _ Ho) as (Hv & Hsec & _). destruct (isDirty b) eqn:Hdb; cbn [when_]; [|apply wp_ret, Hskip, andb_false_r].
  destruct (HcA l true bs Hl) as (L1 & L2 & L3 & L4). eapply write_dirty; [exact Ho|exact Hg|exact L3|].
  intros x' y' id tid Ho' Hg' En. split; [|congruence]. exists y', (<[l := (false, bs)]> (delete l A)), (after g (flush_packet id now l tid bs)).
  pose proof (opened_lines w ip _ _ _ _ _ _ _ _ _ Ho' (clean_ready b Hr)) as HA'. rewrite clean_dirty in HA'.
  split; [apply (op_shape Ho')|]. split; [exact HA'|]. split; [exact Hg'|].
  destruct (written_line A g l true bs id now tid Hsh HcA Hl) as [HcA' Hm']. split; [exact HcA'|]. split; [by rewrite Hm'|].
  intros l' bs' i [[_ [=]]|[Hne [_ Hl']%lookup_delete_Some]]%lookup_insert_Some Hi. pose proof (Hd l' bs' i Hl' Hi) as Hle.
  assert (i <> k); [|lia]. intros ->. eapply (op_apart w ip _ _ _ _ _ _ _ _ _ l' k Ho); [|done]. rewrite lookup_delete_ne by congruence. done.
Qed.

Lemma writeback_loop ip now m f n j k x : flush_lines ip now m f n k x -> (k + j = n)%nat ->
  total (forM_ (seq k j) (writebackVisitor now)) (fun _ => flush_lines ip now m f n n) x.
Proof using Type*.
  revert k x. induction j as [|j IH]; intros k x Hx Hn; simpl.
  - apply wp_ret. assert (k = n) as <- by lia. exact Hx.
  - apply wp_bind. eapply wp_mono; [apply (visit_writeback ip now m f n k x Hx); lia|]. intros [] x' Hx'. apply IH; [done|lia].
Qed.

Lemma not_dirty x : (forall i b, blks (bc_tags x) !! i = Some b -> isDirty b = false) -> cache_isDirty x = false.
Proof using Type.
  intros H. unfold cache_isDirty, anyBlk. apply not_true_iff_false. intros (b & Hb & Hd)%existsb_exists.
  apply list_elem_of_In, list_elem_of_lookup in Hb as [i Hi]. by rewrite (H i b Hi) in Hd.
Qed.

(** Nothing is dirty and the memory below has all the bytes. *)
Definition flushed (now : Z) f x : Prop := lm_rep now x f /\ lm_rep now (bc_below x) f /\ cache_isDirty x = false.

Lemma clean_merge A g : 0 <= w_shift w < 31 -> coherent w A g -> (forall l d bs, A !! l = Some (d, bs) -> d = false) -> merge w A g ≡ g.
Proof using Type.
  intros Hsh HA Hcl a. unfold merge. destruct (A !! line_of a) as [[d bs]|] eqn:E; [|done].
  destruct (HA _ _ _ E) as (_ & _ & _ & H). rewrite (H (Hcl _ _ _ E)); [f_equal; lia|]. pose proof (in_line_of w Hsh a _ eq_refl). lia.
Qed.

Lemma memWriteback_total now x f : cache_rep (wf := wf) (ok := ok) w now x f -> total (memWriteback now) (fun _ => flushed now f) x.
Proof using Type*.
  intros Hx. pose proof (rep_shift w _ _ _ Hx) as Hsh. destruct Hx as (ip & A & g & (m & Hs & HA) & Hg & HcA & Hf).
  apply wp_bind, wp_gets. eapply wp_mono; [apply (writeback_loop ip now m f (nblks x)); [|done]|].
  { split; [|done]. exists (bc_below x), A, g. split_and!; try done. intros l bs i _ _. lia. }
  intros [] x' [(y' & A' & g' & Hs' & HA' & Hg' & HcA' & Hf' & Hd) Hlen].
  assert (forall l d bs, A' !! l = Some (d, bs) -> d = false) as Hcl.
  { intros l [] bs Hl; [|done]. exfalso. pose proof (HA' l) as H. rewrite Hl in H. destruct H as (i & b & Hi & Hb & _).
    pose proof (Hd l bs i Hl Hi). apply lookup_lt_Some in Hb. lia. }
  split; [eapply rep_intro; [by exists m|exact Hg'|done|done]|]. rewrite (sh_below Hs'). split.
  - eapply lm_ext; [exact Hg'|]. rewrite Hf'. symmetry. by apply clean_merge.
  - apply not_dirty. intros i b Hb. destruct (block_line ip now y' x' m A' i b Hs' HA' Hb) as [(_ & H & _)|(l & bs & Hl & _)]; [done|by eapply Hcl].
Qed.

(** ** Invalidation of everything *)

Lemma invalidate_blocks v x x' : invalidateBlock (InTags v) x = Ok (tt, x') -> nblks x' = nblks x.
Proof using Type.
  unfold invalidateBlock, the_block, on_cstats, on_tags, zoom, get_blk, mbind, M_bind, gets, modify. simpl.
  destruct (blks (bc_tags x) !! v) as [b|] eqn:Hb; [|done]. simpl.
  assert (forall x1, bc_tags x1 = bc_tags x -> match tags_invalidate v (bc_tags x1) with Ok (r, t) => Ok (r, set_bc_tags t x1) | Err e => Err e end = Ok (tt, x') ->
    nblks x' = nblks x) as H.
  { intros x1 ->. unfold tags_invalidate, base_invalidate, on_replacement, on_stats, put_blk, get_blk, mbind, M_bind, gets, modify. simpl. rewrite Hb. simpl.
    destruct (blk_isValid b); [|done]. simpl. destruct (replacementData (bc_tags x) !! v); [|done]. simpl. intros [= <-]. simpl. apply length_insert. }
  destruct (wasPrefetched b); simpl; intros Hrun; [by apply (H (set_bc_stats (bump_unusedPrefetches (bc_stats x)) (set_bc_tags (bc_tags x) x)))|by apply (H (set_bc_tags (bc_tags x) x))].
Qed.

(** What a run of [memInvalidate] goes through: nothing is dirty, and blocks
    before [k] are invalid. *)
Definition emptying (ip : P) (now : Z) f (n k : nat) x : Prop :=
  nblks x = n /\ exists y m A, shape ip now y x m /\ lines w x m A /\ lm_rep now y f /\ coherent w A f
    /\ (forall l d bs, A !! l = Some (d, bs) -> d = false) /\ (forall l i, m !! (l, sec) = Some i -> (k <= i)%nat).

Lemma visit_invalidate ip now f n k x : emptying ip now f n k x -> (k < n)%nat ->
  total (invalidateVisitor k) (fun _ => emptying ip now f n (S k)) x.
Proof using Type*.
  intros (Hlen & y & m & A & Hs & HA & Hf & HcA & Hcl & Hk') Hk. destruct (lookup_lt_is_Some_2 (blks (bc_tags x)) k ltac:(lia)) as [b Hb].
  apply wp_bind. eapply total_zoom; [by apply get_blk_run|]. replace (set_bc_tags (bc_tags x) x) with x by (by destruct x).
  destruct (block_line ip now y x m A k b Hs HA Hb) as [(Hv & _ & Hno)|(l & bs & Hl & Hr & Ho)].
  { rewrite Hv. apply wp_ret. split; [done|]. exists y, m, A. split_and!; try done. intros l i Hi. pose proof (Hk' l i Hi).
    assert (i <> k); [|lia]. intros ->. by eapply Hno. }
  destruct (op_holds w ip _ _ _ _ _ _ _ _ _ Ho) as (Hv & _). rewrite Hv. cbn [when_]. apply wp_bind.
  apply total_assert; [by rewrite (Hcl _ _ _ Hl)|]. apply with_run. eapply op_invalidate; [exact Ho|]. intros x' Hs' HA' _ Hrun.
  split; [by rewrite (invalidate_blocks _ _ _ Hrun)|]. exists y, (delete (l, sec) m), (delete l A). split; [done|]. split; [done|]. split; [done|].
  split; [intros l' d bs' [_ Hl']%lookup_delete_Some; by apply HcA|]. split; [intros l' d bs' [_ Hl']%lookup_delete_Some; by eapply Hcl|].
  intros l' i Hi. pose proof (op_apart w ip _ _ _ _ _ _ _ _ _ l' i Ho Hi). apply lookup_delete_Some in Hi as [_ Hi]. pose proof (Hk' l' i Hi). lia.
Qed.

Lemma invalidate_loop ip now f n j k x : emptying ip now f n k x -> (k + j = n)%nat ->
  total (forM_ (seq k j) invalidateVisitor) (fun _ => emptying ip now f n n) x.
Proof using Type*.
  revert k x. induction j as [|j IH]; intros k x Hx Hn; simpl.
  - apply wp_ret. assert (k = n) as <- by lia. exact Hx.
  - apply wp_bind. eapply wp_mono; [apply (visit_invalidate ip now f n k x Hx); lia|]. intros [] x' Hx'. apply IH; [done|lia].
Qed.

(** No block is valid and the memory below has all the bytes. *)
Definition emptied (now : Z) f x : Prop := lm_rep now x f /\ lm_rep now (bc_below x) f /\ anyBlk blk_isValid (bc_tags x) = false.

Lemma memInvalidate_total now x f : flushed now f x -> total memInvalidate (fun _ => emptied now f) x.
Proof using Type*.
  intros (Hx & Hb & Hd). pose proof (rep_shift w _ _ _ Hx) as Hsh. destruct Hx as (ip & A & g & (m & Hs & HA) & Hg & HcA & Hf).
  assert (forall l d bs, A !! l = Some (d, bs) -> d = false) as Hcl.
  { intros l [] bs Hl; [|done]. exfalso. pose proof (HA l) as H. rewrite Hl in H. destruct H as (i & b & _ & Hib & _ & Hdb & _).
    unfold cache_isDirty, anyBlk in Hd. apply not_true_iff_false in Hd. apply Hd, existsb_exists. exists b. split; [|done].
    apply list_elem_of_In. by eapply list_elem_of_lookup_2. }
  assert (f ≡ g) as Hfg by (rewrite Hf; by apply clean_merge).
  apply wp_bind, wp_gets. eapply wp_mono; [apply (invalidate_loop ip now f (nblks x)); [|done]|].
  { split; [done|]. exists (bc_below x), m, A. split_and!; try done; [by eapply coherent_ext|]. intros; lia. }
  intros [] x' (Hlen & y' & m' & A' & Hs' & HA' & Hf' & HcA' & Hcl' & Hk). rewrite <- Hlen in Hk.
  split; [eapply rep_intro; [by exists m'|exact Hf'|done|symmetry; by apply clean_merge]|]. rewrite (sh_below Hs'). split; [done|].
  unfold anyBlk. apply not_true_iff_false. intros (b & Hin & Hv)%existsb_exists. apply list_elem_of_In, list_elem_of_lookup in Hin as [i Hi].
  destruct (block_line ip now y' x' m' A' i b Hs' HA' Hi) as [(E & _)|(l & bs & _ & _ & Ho)]; [congruence|].
  pose proof (Hk l i (op_here Ho)). apply lookup_lt_Some in Hi. lia.
Qed.

(** C11: flushing a cache.  In every state in which the cache shows the contents
    [f], [memWriteback] succeeds and leaves the memory below with exactly these
    contents and no block dirty; [memInvalidate] then succeeds and leaves the
    cache without a valid block, still showing [f]. *)
Theorem cache_flush now x f : lm_rep now x f ->
  exists x1 x2, memWriteback now x = Ok (tt, x1) /\ flushed now f x1 /\ memInvalidate x1 = Ok (tt, x2) /\ emptied now f x2.
Proof using Type*.
  intros Hx. destruct (proj1 (total_run _ _ _) (memWriteback_total now x f Hx)) as ([] & x1 & H1 & H2).
  destruct (proj1 (total_run _ _ _) (memInvalidate_total now x1 f H2)) as ([] & x2 & H3 & H4). by exists x1, x2.
Qed.
End Flush.
