(* ===== verification/CacheDemo.v ===== *)
(** * Two levels of cache over a memory

    A small system on which the theorems about caches are applied: a
    direct-mapped cache of two lines over a set-associative one over a simple
    memory of 4096 bytes, all with lines of 64 bytes.  Then what happens at the
    edges that the theorems exclude: error responses, dirty blocks that are
    invalidated, mostly exclusive caches, write-through packets and byte masks. *)

From S2P Require Import Prelude IntMath EventQ Hoare Clocked Packet Request PacketQueue CacheQueue WriteQueue MSHR CacheBlk ReplPolicy ReplPolicyProps Indexing IndexingProps Tags TagsProps BaseCache NoncoherentCache PacketData PacketDataProps AddrRange AbstractMem AbstractMemProps SimpleMem FlatMemory CacheLines CacheOps NoncoherentProps CacheMemory CacheSystem.

Definition demo_world : World := mkWorld 6 false 8.
Definition demo_memory : SimpleMemPort :=
  mkSMPort (new_SimpleMemory
              (setBackingStore (Some (replicate 4096 7)) (mkMem (mkAddrRange 0 4096 [] 0) None [] (mkMemStats ∅ ∅ ∅ ∅ ∅ ∅) [] false))
              30 0 (fun sz => sz) 0) (fun _ => 0) 0.
Definition demo_bytes : Contents := mem_byte (sm_mem (smp_mem demo_memory)).

Definition demo_params (c : Clusivity) : CacheParams := mkCacheParams 64 2 2 2 false c false false 8 500 false.
Definition demo_env : Env := mkEnv (fun _ => 0) (fun _ => []) 0.
Definition small_idx : BaseIndexingPolicy := mkIdx 1 2 6 1 (replicate 2 (replicate 1 None)) 7.
Lemma small_idx_new : new_BaseIndexingPolicy 128 64 1 = Ok small_idx.
Proof. by vm_compute. Qed.
Lemma small_idx_wf : set_wf small_idx.
Proof. split; [by apply (new_idx_wf 128 64 1 small_idx)|done]. Qed.

Lemma cache_params_ok : params_ok demo_world (demo_params mostly_incl).
Proof. by split. Qed.
Lemma demo_config_large : config_ok (wf := set_wf) demo_world (demo_params mostly_incl) 1024 2 8 demo_idx (replicate 1024 0).
Proof. split; [apply cache_params_ok|done|apply demo_idx_wf|done..]. Qed.
Lemma demo_config_small : config_ok (wf := set_wf) demo_world (demo_params mostly_incl) 128 2 8 small_idx (replicate 128 0).
Proof. split; [apply cache_params_ok|done|apply small_idx_wf|done..]. Qed.

Lemma demo_memory_rep now : lm_rep (w := demo_world) now demo_memory demo_bytes.
Proof.
  split; [|done..]. split; [done|simpl; lia| |split; constructor]. eexists. by split.
Qed.

(** ** Requests *)

Definition cache_req (c : Command) (a : Z) (bs : list Z) : Pkt :=
  set_p_data (Some bs) (p_set DYNAMIC_DATA (new_Pkt 0 (new_Request_phys 0 a (Z.of_nat (length bs)) 0 3) c)).
(** The addresses of a memory are all there. *)
Definition there (D : Z -> bool) (f : Contents) : Prop := forall a, D a = true -> is_Some (f a).
Definition demo_addrs (a : Z) : bool := (0 <=? a) && (a <? 4096).

(** Whether a request fits does not depend on the bytes in the memory. *)
Definition fits (D : Z -> bool) (c : Command) (a : Z) (bs : list Z) : bool :=
  (bool_decide (c = ReadReq) || bool_decide (c = WriteReq)) && (0 <=? a) && (0 <? Z.of_nat (length bs))
  && (block_of 6 (a + Z.of_nat (length bs) - 1) =? block_of 6 a) && forallb D (seqZ a (Z.of_nat (length bs))).
Lemma fits_ok D f c a bs : fits D c a bs = true -> there D f -> request_ok demo_world f (cache_req c a bs).
Proof.
  unfold fits. rewrite !andb_true_iff, orb_true_iff, !bool_decide_eq_true, forallb_forall. intros ((((Hc & Ha) & Hb) & Hl) & HD) Hf.
  assert (p_addr (cache_req c a bs) = a /\ p_size (cache_req c a bs) = Z.of_nat (length bs) /\ p_cmd (cache_req c a bs) = c) as (Ea & Es & Ec) by done.
  split; rewrite ?Ea, ?Es, ?Ec; try done; try (by destruct Hc as [-> | ->]).
  - destruct Hc as [-> | ->]; [by left|by right].
  - by exists bs.
  - lia.
  - by apply Z.eqb_eq.
  - intros a' Ha'%ro_range. rewrite Ea, Es in Ha'. apply Hf, HD, list_elem_of_In, elem_of_seqZ. lia.
  - by left.
Qed.
Lemma after_there_demo D f c a bs : there D f -> request_ok demo_world f (cache_req c a bs) -> there D (after f (cache_req c a bs)).
Proof. intros Hf Hr a' Ha'. by apply (after_there demo_world); [|apply Hf]. Qed.
Lemma demo_bytes_there : there demo_addrs demo_bytes.
Proof. intros a Ha%andb_true_iff. apply mem_byte_range; [apply (mr_ok _ _ _ (demo_memory_rep 0))|]. simpl. lia. Qed.

(** Two bytes are written; three further lines that share the two lines of the
    small cache push them out; then they are read back, both ways. *)
Definition demo_trace : list mem_op :=
  [OpAtomic 10 (cache_req WriteReq 0x40 [1; 2]); OpAtomic 20 (cache_req ReadReq 0x140 [0; 0; 0; 0]);
   OpAtomic 30 (cache_req WriteReq 0x241 [3]); OpAtomic 30 (cache_req ReadReq 0x40 [0; 0; 0; 0]);
   OpFunctional (cache_req ReadReq 0x240 [0; 0]); OpFunctional (cache_req WriteReq 0x41 [9]);
   OpAtomic 40 (cache_req ReadReq 0x40 [0; 0; 0])].

Lemma demo_atomic D now t f c a bs os : fits D c a bs = true -> now <= t < 2 ^ 62 -> there D f ->
  (forall f', there D f' -> trace_ok demo_world t f' os) -> trace_ok demo_world now f (OpAtomic t (cache_req c a bs) :: os).
Proof.
  intros Hc Ht Hf Hos. pose proof (fits_ok D f c a bs Hc Hf). apply tr_atomic; [done|done|]. by apply Hos, after_there_demo.
Qed.
Lemma demo_functional D now f c a bs os : fits D c a bs = true -> there D f ->
  (forall f', there D f' -> trace_ok demo_world now f' os) -> trace_ok demo_world now f (OpFunctional (cache_req c a bs) :: os).
Proof.
  intros Hc Hf Hos. pose proof (fits_ok D f c a bs Hc Hf) as Hr. assert (c = ReadReq \/ c = WriteReq) as Hcmd.
  { unfold fits in Hc. rewrite !andb_true_iff, orb_true_iff, !bool_decide_eq_true in Hc. tauto. }
  apply tr_functional; [done|by destruct Hcmd as [-> | ->]|by destruct Hcmd as [-> | ->]|]. by apply Hos, after_there_demo.
Qed.
(** Checks a trace operation by operation. *)
Ltac fit_trace D :=
  repeat first [ by intros; apply tr_nil
               | let f := fresh "f" in let Hf := fresh "Hf" in
                 intros f Hf; apply (demo_atomic D); [done|done|done|]; clear f Hf
               | let f := fresh "f" in let Hf := fresh "Hf" in
                 intros f Hf; apply (demo_functional D); [done|done|]; clear f Hf ].
Lemma demo_trace_ok : trace_ok demo_world 0 demo_bytes demo_trace.
Proof.
  assert (forall f, there demo_addrs f -> trace_ok demo_world 0 f demo_trace) as H; [|apply H, demo_bytes_there].
  fit_trace demo_addrs.
Qed.

(** ** The system *)

Abbreviation lru_cache := (BaseCache BaseIndexingPolicy LRU.LRUReplData).
Definition small_tags : BaseSetAssoc BaseIndexingPolicy LRU.LRUReplData :=
  mkTags 64 2 8 small_idx 2 false 2 (mkTagStats 0 0 0 0 ∅ ∅ ∅ 0 0) 1 (replicate 2 new_CacheBlk) false ∅.
Definition demo_l2 (c : Clusivity) : res (lru_cache SimpleMemPort) :=
  new_BaseCache (demo_params c) 4 8 0 false 0 demo_tags (replicate 1024 0) (replicate 64 0) demo_env demo_memory.
Definition demo_l1 (y : lru_cache SimpleMemPort) : res (lru_cache (lru_cache SimpleMemPort)) :=
  new_BaseCache (demo_params mostly_incl) 4 8 0 false 0 small_tags (replicate 128 0) (replicate 64 0) demo_env y.

Definition run_data {B : Type} `{!MemorySide B} (os : list mem_op) (b : B) : res (list (option (list Z))) :=
  match run_ops os b with Ok (rs, _) => Ok (map p_data rs) | Err e => Err e end.
Example demo_run : (l2 ← demo_l2 mostly_incl; l1 ← demo_l1 l2; run_data demo_trace l1)
  = Ok [Some [1; 2]; Some [7; 7; 7; 7]; Some [3]; Some [1; 2; 7; 7]; Some [7; 3]; Some [9]; Some [1; 9; 7]].
Proof. by vm_compute. Qed.

Lemma demo_l2_rep : exists l2, demo_l2 mostly_incl = Ok l2 /\ lm_rep (w := demo_world) 0 l2 demo_bytes.
Proof.
  destruct (new_cache (R := LRU_policy) demo_world (demo_params mostly_incl) 1024 2 2 8 8 false demo_idx (replicate 1024 0) (LRU.mkLRU 0)
              4 8 0 false 0 (replicate 64 0) demo_env demo_memory demo_config_large eq_refl) as (t0 & x & H1 & H2 & H3).
  assert (t0 = demo_tags) as -> by (vm_compute in H1; by injection H1).
  exists x. split; [exact H2|]. apply H3; [lia|apply demo_memory_rep].
Qed.

Lemma cache_refines_memory_witness : exists l2 (t0 : BaseSetAssoc BaseIndexingPolicy LRU.LRUReplData)
  (l1 x' : lru_cache (lru_cache SimpleMemPort)) rs now', demo_l2 mostly_incl = Ok l2
  /\ new_BaseSetAssoc 128 64 1 2 2 8 false small_idx = Ok t0
  /\ new_BaseCache (demo_params mostly_incl) 4 8 0 false 0 t0 (replicate 128 0) (replicate 64 0) demo_env l2 = Ok l1
  /\ run_ops demo_trace l1 = Ok (rs, x') /\ answers demo_bytes demo_trace rs
  /\ lm_rep (w := demo_world) now' x' (contents demo_bytes demo_trace).
Proof.
  destruct demo_l2_rep as (l2 & E2 & Hl2).
  destruct (cache_refines_memory (R := LRU_policy) demo_world (demo_params mostly_incl) 128 1 2 2 8 false small_idx (replicate 128 0) (LRU.mkLRU 0)
              4 8 0 false 0 (replicate 64 0) demo_env l2 0 demo_bytes demo_trace demo_config_small eq_refl
              ltac:(lia) Hl2 demo_trace_ok) as (t0 & l1 & rs & x' & now' & H1 & H2 & H3 & H4 & H5).
  exists l2, t0, l1, x', rs, now'. split; [exact E2|]. split; [exact H1|]. split; [exact H2|]. split; [exact H3|]. split; [exact H4|exact H5].
Defined.

Lemma cache_transparent_witness : exists l2 l1 rs x' rs' y', demo_l2 mostly_incl = Ok l2 /\ demo_l1 l2 = Ok l1
  /\ run_ops demo_trace l1 = Ok (rs, x') /\ run_ops demo_trace l2 = Ok (rs', y') /\ same_answers demo_trace rs rs'.
Proof.
  destruct demo_l2_rep as (l2 & E2 & Hl2).
  destruct (new_cache (R := LRU_policy) demo_world (demo_params mostly_incl) 128 1 2 2 8 false small_idx (replicate 128 0) (LRU.mkLRU 0)
              4 8 0 false 0 (replicate 64 0) demo_env l2 demo_config_small eq_refl) as (t0 & l1 & H1 & H2 & _).
  assert (t0 = small_tags) as -> by (vm_compute in H1; by injection H1).
  destruct (cache_transparent (R := LRU_policy) demo_world (demo_params mostly_incl) 128 1 2 2 8 false small_idx (replicate 128 0) (LRU.mkLRU 0)
              4 8 0 false 0 (replicate 64 0) demo_env l2 0 demo_bytes demo_trace small_tags l1 demo_config_small eq_refl
              ltac:(lia) Hl2 demo_trace_ok H1 H2) as (rs & x' & rs' & y' & H3 & H4 & H5).
  exists l2, l1, rs, x', rs', y'. split; [exact E2|]. split; [exact H2|]. split; [exact H3|]. split; [exact H4|exact H5].
Defined.

(** After the trace the lower cache has dirty blocks; flushing works. *)
Example demo_dirty : (l2 ← demo_l2 mostly_incl; l1 ← demo_l1 l2;
    match run_ops demo_trace l1 with Ok (_, x) => Ok (cache_isDirty x, cache_isDirty (bc_below x)) | Err e => Err e end) = Ok (false, true).
Proof. by vm_compute. Qed.

Lemma cache_flush_witness : exists l2 rs now (x x1 x2 : lru_cache SimpleMemPort), demo_l2 mostly_incl = Ok l2 /\ run_ops demo_trace l2 = Ok (rs, x)
  /\ memWriteback now x = Ok (tt, x1) /\ lm_rep (w := demo_world) now (bc_below x1) (contents demo_bytes demo_trace)
  /\ memInvalidate x1 = Ok (tt, x2) /\ anyBlk blk_isValid (bc_tags x2) = false.
Proof.
  destruct demo_l2_rep as (l2 & E2 & Hl2).
  destruct (lawful_run demo_world demo_trace 0 l2 demo_bytes Hl2 demo_trace_ok) as (rs & x & now & Hrun & _ & _ & Hx).
  destruct (cache_flush (R := LRU_policy) demo_world now x (contents demo_bytes demo_trace) Hx) as (x1 & x2 & H1 & (_ & H2 & _) & H3 & (_ & _ & H4)).
  exists l2, rs, now, x, x1, x2. split; [exact E2|]. split; [exact Hrun|]. split; [exact H1|]. split; [exact H2|]. split; [exact H3|exact H4].
Defined.

(** ** What lies outside the promise *)

(** A run that ends in a failed assertion. *)
Definition asserts {St T : Type} (m : M St T) (s : St) : Prop := exists what, m s = Err (EAssert what).

Section Edges.
Context {P D B : Type} `{!IndexingPolicy P} `{R : !BaseReplacementPolicy D} `{MS : !MemorySide B}.
Implicit Types x : BaseCache P D B.

Lemma satisfy_nothing pkt x : asserts (satisfyRequest pkt None) x.
Proof using Type.
  unfold asserts, satisfyRequest, base_satisfyRequest, mbind, M_bind, assert_.
  destruct (isRead (p_cmd pkt) || isWrite (p_cmd pkt)); [|by eexists]. destruct (isRequest (p_cmd pkt)); by eexists.
Qed.

(** C40: an error from below never reaches the requester.  Whatever the state and
    the request, when the memory side answers the packet of a miss with an error
    response, the cache fails an assertion instead of passing the error on: the
    code that copies the error is never reached. *)
Theorem miss_error_asserts now pkt wbs x bus x0 lat r y : createMissPacket pkt None x = Ok (bus, x0) ->
  ms_recvAtomic now bus (bc_below x0) = Ok ((lat, r), y) -> isError (p_cmd r) = true ->
  asserts (handleAtomicReqMiss now pkt None wbs) x.
Proof using Type.
  intros Hbus Hr He. unfold asserts, handleAtomicReqMiss. rewrite (bind_run _ _ _ _ _ Hbus). unfold param. rewrite bind_gets.
  erewrite bind_run by (unfold on_below, zoom; rewrite Hr; reflexivity). cbv beta iota zeta.
  set (x1 := set_bc_below y x0). set (p := set_p_req (p_req r) pkt).
  assert (forall (b : bool) what (m : M (BaseCache P D B) (Z * Pkt * option blkptr * list Pkt)),
    (exists w, m x1 = Err (EAssert w)) -> exists w, (assert_ b what;; m) x1 = Err (EAssert w)) as Hassert.
  { intros [] what m H; [exact H|by eexists]. }
  do 5 apply Hassert. rewrite He. erewrite bind_run by reflexivity. cbv beta iota.
  destruct (satisfy_nothing p x1) as [what E]. exists what. unfold mbind, M_bind. by rewrite E.
Qed.

(** [memInvalidate] does not drop dirty blocks: it fails an assertion. *)
Theorem invalidate_dirty_asserts i b x : blks (bc_tags x) !! i = Some b -> blk_isValid b = true -> isDirty b = true ->
  invalidateVisitor i x = Err (EAssert "!blk.isDirty()").
Proof using Type.
  intros Hb Hv Hd. unfold invalidateVisitor. erewrite bind_run; [|unfold the_block, on_tags, zoom; rewrite (get_blk_run _ _ _ Hb); reflexivity].
  cbv beta. rewrite Hv, Hd. reflexivity.
Qed.
End Edges.

(** ** A mostly exclusive cache *)

(** A write and a read of the same line in one tick.  The response of a miss is
    never a command for which a mostly exclusive cache allocates, so the write
    goes to the temporary block; its write-back waits for an event at the same
    tick, and the read that comes first gets the old bytes from the memory. *)
Example excl_stale_read :
  (x ← demo_l2 mostly_excl;
   run_data [OpAtomic 10 (cache_req WriteReq 0x40 [1; 2]); OpAtomic 10 (cache_req ReadReq 0x40 [0; 0])] x)
  = Ok [Some [1; 2]; Some [7; 7]].
Proof. by vm_compute. Qed.
Example excl_after_event :
  (x ← demo_l2 mostly_excl;
   match run_ops [OpAtomic 10 (cache_req WriteReq 0x40 [1; 2])] x with
   | Ok (_, x1) =>
       match processTempWriteback 10 x1 with
       | Ok (_, x2) => run_data [OpAtomic 10 (cache_req ReadReq 0x40 [0; 0])] x2
       | Err e => Err e
       end
   | Err e => Err e
   end) = Ok [Some [1; 2]].
Proof. by vm_compute. Qed.

(** ** A write-through packet that misses *)

Example write_through_asserts :
  (x ← demo_l2 mostly_incl;
   run_data [OpAtomic 10 (p_set WRITE_THROUGH (cache_req WriteClean 0x40 (replicate 64 1)))] x)
  = Err (EAssert "blk && blk->isValid()").
Proof. by vm_compute. Qed.

(** ** A masked functional write *)

Definition masked_write (a : Z) (bs : list Z) (mask : list bool) : Pkt :=
  let p := cache_req WriteReq a bs in set_p_req (set_rq_byteEnable mask (p_req p)) p.

(** The copy in the cache gets both bytes, the memory only the enabled one: the
    answer to a read depends on whether the line is cached. *)
Example masked_functional_write :
  (x ← demo_l2 mostly_incl;
   run_data [OpAtomic 10 (cache_req WriteReq 0x40 [1; 2]); OpFunctional (masked_write 0x40 [8; 9] [true; false]);
             OpAtomic 20 (cache_req ReadReq 0x40 [0; 0])] x) = Ok [Some [1; 2]; Some [8; 9]; Some [8; 9]]
  /\ (x ← demo_l2 mostly_incl;
   run_data [OpFunctional (masked_write 0x40 [8; 9] [true; false]); OpAtomic 20 (cache_req ReadReq 0x40 [0; 0])] x)
  = Ok [Some [8; 9]; Some [8; 7]].
Proof. split; by vm_compute. Qed.

(** ** A memory side that answers with an error *)

Inductive BadDevice := Bad.
#[local] Instance BadDevice_side : MemorySide BadDevice := {
  ms_recvAtomic _ pkt := r ← lift (pkt_makeResponse pkt); r ← lift (setBadAddress r); mret (0, r);
  ms_recvFunctional pkt := mret pkt
}.
Definition bad_cache : BaseCache BaseIndexingPolicy LRU.LRUReplData BadDevice :=
  match new_BaseCache (demo_params mostly_incl) 4 8 0 false 0 small_tags (replicate 128 0) (replicate 64 0) demo_env Bad with
  | Ok x => x
  | Err _ => mkCache (demo_params mostly_incl) small_tags [] (mkTemp new_CacheBlk 0) [] None None (∅, new_Queue 0 0 0) (∅, new_Queue 0 0 0)
               ([], [], []) 0 0 (mkSlavePort false false None) 0 false new_Clocked (mkCacheStats ∅ ∅ 0 ∅ 0 ∅ ∅) demo_env Bad
  end.
Lemma miss_error_asserts_witness : asserts (handleAtomicReqMiss 10 (cache_req ReadReq 0x40 [0; 0]) None []) bad_cache.
Proof.
  eapply miss_error_asserts; [vm_compute; reflexivity|vm_compute; reflexivity|vm_compute; reflexivity].
Defined.
