(* ===== verification/XBarSystem.v ===== *)
(** * A non-coherent crossbar over memories is a memory

    A crossbar seen from one of its slave ports, with the components behind its
    master ports.  If each of them is an array of bytes within the ranges it
    announced, the crossbar is the array of all of them, in atomic and functional
    mode: a request finds its way to the component that holds its bytes.  The end
    applies this to runs of requests, and puts a cache in front. *)

From S2P Require Import Prelude IntMath EventQ Hoare Packet Request PacketData PacketDataProps AddrRange AddrRangeMap AddrRangeMapProps PacketQueue AbstractMemProps XBarLayer XBar XBarProps Tags TagsProps BaseCache IndexingProps FlatMemory CacheLines AbstractMem SimpleMem ReplPolicy ReplPolicyProps Indexing NoncoherentCache NoncoherentProps CacheMemory CacheSystem CacheDemo.

(** ** The system *)

Record XSystem (B : Type) := mkXSystem { xs_bar : XBar; xs_mems : list B; xs_slave : nat }.
Arguments mkXSystem {B}. Arguments xs_bar {B}. Arguments xs_mems {B}. Arguments xs_slave {B}.

Section Side.
Context {B : Type} `{MS : !MemorySide B}.
Abbreviation S := (M (XSystem B)).

Definition set_bar (x : XBar) (s : XSystem B) : XSystem B := mkXSystem x (xs_mems s) (xs_slave s).
Definition set_mem (i : nat) (b : B) (s : XSystem B) : XSystem B := mkXSystem (xs_bar s) (<[i := b]> (xs_mems s)) (xs_slave s).
(** The call of the peer of master port [i]. *)
Definition at_port {R} (i : nat) (m : M B R) : S R := fun s =>
  match xs_mems s !! i with
  | Some b => match m b with Ok (r, b') => Ok (r, set_mem i b' s) | Err e => Err e end
  | None => Err (EUndefined "masterPorts")
  end.

(** The crossbar's own handlers, whose calls go to the component behind the port
    they name. *)
#[export] Instance XSystem_side : MemorySide (XSystem B) := {
  ms_recvAtomic now pkt :=
    s ← gets xs_slave; x_recvAtomic xs_bar set_bar (fun i p => at_port i (ms_recvAtomic now p)) pkt s;
  ms_recvFunctional pkt := x_recvFunctional xs_bar set_bar (fun i p => at_port i (ms_recvFunctional p)) pkt
}.
End Side.

(** ** Decoding the requests of a line *)

Section Decoding.
Context (w : World) (Hshift : 0 <= w_shift w < 31).
Abbreviation line_of := (block_of (w_shift w)).

(** Ranges without interleaving that start and end at the border of a line. *)
Definition plain_range (r : AddrRange) : Prop :=
  interleaved r = false /\ ar_match r = 0 /\ line_of (ar_start r) = ar_start r /\ line_of (ar_end r) = ar_end r.

(** A crossbar that has heard from its neighbours and has no response waiting. *)
Record bar_ok (own : nat -> list AddrRange) (x : XBar) : Prop := {
  bo_announced : announced (portMap (x_decoder x)) own;
  bo_all : gotAllAddrRanges (x_decoder x) = true;
  bo_plain i r : r ∈ own i -> plain_range r;
  bo_default : interleaved (defaultRange (x_decoder x)) = false;
  bo_quiet : Forall (fun q => transmitList q = []) (slavePorts x)
}.

Definition in_range (r : AddrRange) (a : Z) : Prop := ar_start r <= a < ar_end r.

Lemma plain_contains r a : plain_range r -> contains r a = true <-> in_range r a.
Proof using Type.
  intros (Hi & Hm & _). unfold contains, in_range. unfold interleaved in Hi. apply negb_false_iff, bool_decide_eq_true in Hi.
  rewrite Hi, Hm. simpl. rewrite andb_true_r. lia.
Qed.

Lemma own_range own x i r : bar_ok own x -> r ∈ own i -> 0 <= ar_start r < ar_end r /\ ar_end r < 2 ^ 64.
Proof using Type.
  intros Hx Hr. destruct (bo_announced _ _ Hx) as [Hwf Hown]. apply Hown in Hr as (n & Hn & <- & _).
  pose proof (mw_ranges _ _ Hwf) as H. rewrite Forall_forall in H. destruct (H n Hn) as [[_ He _] Hlt]. lia.
Qed.

(** The request of bytes in one line, the first of which is in a range of port [i]. *)
Lemma decode own x i r a n : bar_ok own x -> r ∈ own i -> in_range r a -> 0 < n -> line_of (a + n - 1) = line_of a ->
  exists m, findPort (RangeSize a n) x = Ok (i, refind m x) /\ bar_ok own (refind m x).
Proof using Hshift.
  intros Hx Hr Ha Hn Hl. destruct (own_range own x i r Hx Hr) as [Hr1 Hr2]. destruct (bo_plain _ _ Hx i r Hr) as (Hi & Hm & H1 & H2).
  assert (in_range r (a + n - 1)) as Hlast by (apply (block_of_between (w_shift w) ltac:(lia) (ar_start r) (ar_end r) a); done).
  unfold in_range in *. destruct (bo_announced _ _ Hx) as [Hwf Hown].
  destruct (findPort_run x own a n (bo_announced _ _ Hx) (bo_all _ _ Hx)) as (m & Hann & Htree & Hcase).
  { split; [lia|]. split; [lia|]. split; [lia|]. split; [|by rewrite (bo_default _ _ Hx)]. split.
    - intros nd Hnd. assert (n_range nd ∈ own (n_val nd)) as Ho by (apply Hown; by exists nd).
      destruct (bo_plain _ _ Hx _ _ Ho) as (-> & _). done.
    - intros nd Hnd _. right. assert (n_range nd ∈ own (n_val nd)) as Ho by (apply Hown; by exists nd).
      destruct (bo_plain _ _ Hx _ _ Ho) as (_ & -> & _). lia. }
  assert (XBarProps.covered a n r = true) as Hcov.
  { unfold XBarProps.covered, isSubset. change (interleaved (RangeSize a n)) with false. rewrite Hi.
    cbn [RangeSize AddrRange_simple ar_start ar_end]. rewrite u64_small by lia. lia. }
  exists m. split; [|by destruct Hx; split].
  destruct Hcase as [(id & s & Hs & Hcs & Hf)|[Hno _]]; [|by rewrite (Hno i r Hr) in Hcov].
  assert (id = i) as ->; [|exact Hf]. destruct (own_range own x id s Hx Hs) as [Hs1 Hs2]. pose proof (bo_plain _ _ Hx id s Hs) as Hps.
  eapply (announced_unique _ own id i s r a); [exact Hann|done|done| |by apply plain_contains; [apply (bo_plain _ _ Hx i)|]].
  apply plain_contains; [done|]. destruct Hps as (His & _). unfold XBarProps.covered, isSubset in Hcs. change (interleaved (RangeSize a n)) with false in Hcs.
  rewrite His in Hcs. cbn [RangeSize AddrRange_simple ar_start ar_end] in Hcs. rewrite u64_small in Hcs by lia. unfold in_range. lia.
Qed.
End Decoding.

(** ** Contents *)

Definition whole (fs : list Contents) : Contents := fun a =>
  foldr (fun f acc => match f a with Some v => Some v | None => acc end) None fs.

Lemma whole_owner fs i f a : fs !! i = Some f -> (forall j g, fs !! j = Some g -> j <> i -> g a = None) -> whole fs a = f a.
Proof.
  revert i. induction fs as [|g fs IH]; intros i Hi Hother; [done|]. cbn [whole foldr]. destruct i as [|i].
  - injection Hi as ->. fold (whole fs a). destruct (f a) eqn:E; [done|].
    assert (forall j h, fs !! j = Some h -> h a = None) as Hnone by (intros j h Hj; by apply (Hother (S j) h Hj)).
    clear -Hnone. induction fs as [|h fs IH]; [done|]. cbn [whole foldr]. rewrite (Hnone 0%nat h eq_refl). apply IH.
    intros j k Hj. by apply (Hnone (S j)).
  - rewrite (Hother 0%nat g eq_refl) by lia. apply (IH i); [done|]. intros j h Hj Hne. apply (Hother (S j)); [done|lia].
Qed.
Lemma whole_some fs a : is_Some (whole fs a) -> exists i f, fs !! i = Some f /\ is_Some (f a).
Proof.
  induction fs as [|g fs IH]; intros H; [by destruct H|]. cbn [whole foldr] in H. destruct (g a) eqn:E.
  - exists 0%nat, g. by rewrite E.
  - destruct (IH H) as (i & f & Hi & Hf). by exists (S i), f.
Qed.
Lemma whole_there fs i f a : fs !! i = Some f -> is_Some (f a) -> is_Some (whole fs a).
Proof.
  revert i. induction fs as [|g fs IH]; intros i Hi Ha; [done|]. cbn [whole foldr]. destruct (g a) eqn:E; [done|].
  destruct i as [|i]; [injection Hi as ->; by rewrite E in Ha; destruct Ha|]. by apply (IH i).
Qed.
Lemma whole_insert fs i f f' a : fs !! i = Some f -> f' a = f a -> whole (<[i := f']> fs) a = whole fs a.
Proof.
  unfold whole. revert i. induction fs as [|g fs IH]; intros i Hi Ha; [done|]. destruct i as [|i]; simpl.
  - injection Hi as ->. by rewrite Ha.
  - destruct (g a); [done|]. by apply IH.
Qed.

(** ** The promise *)

Section Lawful.
Context {B : Type} `{MS : !MemorySide B} (w : World) `{LM : !LawfulMemory B w}.
Implicit Types s : XSystem B.
Implicit Types f g : Contents.
Abbreviation line_of := (block_of (w_shift w)).

(** Each component is an array of bytes within the ranges of its port. *)
Record parts_ok (now : Z) (own : nat -> list AddrRange) (mems : list B) (fs : list Contents) : Prop := {
  pa_len : length fs = length mems;
  pa_rep i b g : mems !! i = Some b -> fs !! i = Some g -> lm_rep now b g;
  pa_own i g a : fs !! i = Some g -> is_Some (g a) -> exists r, r ∈ own i /\ in_range r a
}.
Definition xs_rep (now : Z) s f : Prop := exists own fs, 0 <= w_shift w < 31 /\ bar_ok w own (xs_bar s)
  /\ parts_ok now own (xs_mems s) fs /\ f ≡ whole fs.

(** Two components have no byte in common. *)
Lemma parts_apart now own x mems fs i j g h a : bar_ok w own x -> parts_ok now own mems fs ->
  fs !! i = Some g -> fs !! j = Some h -> is_Some (g a) -> is_Some (h a) -> i = j.
Proof using Type.
  intros Hx Hp Hi Hj Hg Hh. destruct (pa_own _ _ _ _ Hp i g a Hi Hg) as (r & Hr & Ha). destruct (pa_own _ _ _ _ Hp j h a Hj Hh) as (t & Ht & Ha').
  eapply (announced_unique _ own i j r t a); [apply (bo_announced _ _ _ Hx)|done|done| |];
    (apply (plain_contains w); [by eapply bo_plain|done]).
Qed.

Lemma part_lines now own mems fs i g a a' : parts_ok now own mems fs -> fs !! i = Some g -> is_Some (g a) -> line_of a' = line_of a -> is_Some (g a').
Proof using Type.
  intros Hp Hi Ha E. destruct (lookup_lt_is_Some_2 mems i) as [b Hb]; [rewrite <- (pa_len _ _ _ _ Hp); by eapply lookup_lt_Some|].
  eapply lm_lines; [by eapply pa_rep|exact Ha|exact E].
Qed.

Lemma at_port_ok {R} i (c : M B R) b r b' s (Q : R -> XSystem B -> Prop) : xs_mems s !! i = Some b -> c b = Ok (r, b') ->
  Q r (set_mem i b' s) -> total (at_port i c) Q s.
Proof using Type. intros Hb Hc HQ. unfold wp, at_port. by rewrite Hb, Hc. Qed.

Lemma total_at_bar {R} (c : M XBar R) (Q : R -> XSystem B -> Prop) s :
  total c (fun r x => Q r (set_bar x s)) (xs_bar s) -> total (at_bar xs_bar set_bar c) Q s.
Proof using Type. unfold wp, at_bar, zoom. by destruct (c (xs_bar s)) as [[r x]|]. Qed.

Section Request.
Context (now : Z) (s : XSystem B) (f : Contents) (own : nat -> list AddrRange) (fs : list Contents) (pkt : Pkt).
Context (Hsh : 0 <= w_shift w < 31) (Hbar : bar_ok w own (xs_bar s)) (Hparts : parts_ok now own (xs_mems s) fs) (Hf : f ≡ whole fs).
Context (Hreq : request_ok w f pkt).

(** The component that has the bytes of the request. *)
Lemma owner : exists i b g r, xs_mems s !! i = Some b /\ fs !! i = Some g /\ lm_rep now b g /\ r ∈ own i /\ in_range r (p_addr pkt)
  /\ (forall a, covers pkt a = true -> is_Some (g a) /\ f a = g a).
Proof using Type*.
  destruct (ro_first Hreq) as [Hfirst _]. rewrite (Hf (p_addr pkt)) in Hfirst. apply whole_some in Hfirst as (i & g & Hi & Hg).
  destruct (lookup_lt_is_Some_2 (xs_mems s) i) as [b Hb]; [rewrite <- (pa_len _ _ _ _ Hparts); by eapply lookup_lt_Some|].
  destruct (pa_own _ _ _ _ Hparts i g _ Hi Hg) as (r & Hr & Hin). exists i, b, g, r. split; [done|]. split; [done|].
  split; [by eapply pa_rep|]. split; [done|]. split; [done|]. intros a Ha%ro_range.
  assert (line_of a = line_of (p_addr pkt)) as El.
  { pose proof (ro_fits _ _ _ Hreq) as Hfit. pose proof (block_of_spec (w_shift w) ltac:(lia) (p_addr pkt)) as H1.
    pose proof (block_of_spec (w_shift w) ltac:(lia) (p_addr pkt + p_size pkt - 1)) as H2. rewrite Hfit in H2.
    apply block_of_unique; [lia|apply block_of_idemp; lia|lia]. }
  assert (is_Some (g a)) as Hga by (by eapply part_lines). split; [done|]. rewrite (Hf a). apply (whole_owner fs i g a Hi).
  intros j h Hj Hne. destruct (h a) eqn:E; [|done]. exfalso. apply Hne. symmetry. by eapply (parts_apart now own _ _ fs i j g h a).
Qed.

Lemma owner_request g : (forall a, covers pkt a = true -> is_Some (g a) /\ f a = g a) -> request_ok w g pkt.
Proof using Hreq.
  intros Hg. pose proof Hreq as []. split; try done.
  - intros a Ha. by apply Hg.
  - intros Hc a Ha. destruct (Hg a Ha) as [_ <-]. auto.
Qed.

(** What remains when the component has done its part. *)
Lemma parts_after i b' g : fs !! i = Some g -> (forall a, covers pkt a = true -> is_Some (g a) /\ f a = g a) -> lm_rep now b' (after g pkt) ->
  parts_ok now own (<[i := b']> (xs_mems s)) (<[i := after g pkt]> fs) /\ after f pkt ≡ whole (<[i := after g pkt]> fs).
Proof using Type*.
  intros Hi Hg Hb'. pose proof (owner_request g Hg) as Hr.
  assert (forall a, is_Some (after g pkt a) -> is_Some (g a)) as Hdom.
  { intros a. unfold after, writes_at. destruct (covers pkt a) eqn:Hc; [intros _; by apply Hg|by rewrite andb_false_r]. }
  split; [split|].
  - by rewrite !length_insert, (pa_len _ _ _ _ Hparts).
  - intros j b h [(<- & <- & _)|[Hne Hj]]%list_lookup_insert_Some [(E & <- & _)|[Hne' Hh]]%list_lookup_insert_Some; try done.
    by eapply pa_rep.
  - intros j h a Hj Ha. destruct (decide (i = j)) as [<-|Hne].
    + rewrite list_lookup_insert_eq in Hj by (by eapply lookup_lt_Some). simplify_eq. eapply pa_own; [exact Hparts|exact Hi|by apply Hdom].
    + rewrite list_lookup_insert_ne in Hj by done. by eapply pa_own.
  - intros a. destruct (covers pkt a) eqn:Hc.
    + destruct (Hg a Hc) as [Hga Hfa]. transitivity (after g pkt a); [unfold after; by rewrite Hfa|]. symmetry.
      apply (whole_owner _ i); [apply list_lookup_insert_eq; by eapply lookup_lt_Some|]. intros j h Hj Hne.
      rewrite list_lookup_insert_ne in Hj by done. destruct (h a) eqn:E; [|done]. exfalso. apply Hne. symmetry.
      eapply (parts_apart now own _ _ fs i j g h a); [exact Hbar|exact Hparts|done|done|done|by rewrite E].
    + assert (forall h, after h pkt a = h a) as Hsame by (intros h; unfold after, writes_at; by rewrite Hc, andb_false_r).
      rewrite Hsame, (whole_insert fs i g) by (done || apply Hsame). apply Hf.
Qed.

(** *** The crossbar *)

Lemma range_of : getAddrRange pkt = Ok (RangeSize (p_addr pkt) (p_size pkt)).
Proof using Hreq. unfold getAddrRange. rewrite getAddr_run, getSize_run by apply Hreq. done. Qed.

Lemma count_ok i j n c x (Q : unit -> XBar -> Prop) : bar_ok w own x -> (forall x', bar_ok w own x' -> Q tt x') -> total (count i j n c) Q x.
Proof using Type. intros [] HQ. apply wp_modify, HQ. by split. Qed.

Lemma reply_size p' : reply pkt p' -> p_isSet VALID_SIZE p' = true.
Proof using Hreq.
  intros (bs & d & v & pd & -> & _). pose proof (ro_size _ _ _ Hreq) as H. unfold p_isSet, fl_isSet, responded in *.
  cbn [p_flags set_p_payloadDelay]. destruct (needsResponse _); [|exact H]. cbn [p_clear set_p_flags p_flags set_p_cmd set_p_bytesValid set_p_data set_p_req].
  change VALID_SIZE with (2 ^ 9) in *. rewrite land_bit in H |- * by lia. unfold fl_clear. rewrite Z.ldiff_spec, H. done.
Qed.
Lemma reply_delay lat p' : reply pkt p' -> reply pkt (set_p_payloadDelay (u32 lat) p').
Proof using Type.
  intros (bs & d & v & pd & -> & Hl & _). exists bs, d, v, (u32 lat). split; [done|]. split; [done|]. unfold u32, wrap. apply Z.mod_pos_bound. lia.
Qed.

(** The handlers call the component [b] behind port [i], which holds the bytes;
    [b'] is what it becomes. *)
Lemma bar_atomic i r b b' slave send lat p' (Q : Z * Pkt -> XSystem B -> Prop) : xs_mems s !! i = Some b ->
  r ∈ own i -> in_range r (p_addr pkt) -> reply pkt p' -> send i pkt b = Ok ((lat, p'), b') ->
  (forall x', bar_ok w own x' -> Q (lat, set_p_payloadDelay (u32 lat) p') (set_bar x' (set_mem i b' s))) ->
  total (x_recvAtomic xs_bar set_bar (fun i p => at_port i (send i p)) pkt slave) Q s.
Proof using Hsh Hreq Hbar.
  intros Hb Hr Hin Hrep Hsend HQ.
  destruct (decode w Hsh own _ i r _ _ Hbar Hr Hin (ro_pos _ _ _ Hreq) (ro_fits _ _ _ Hreq)) as (m & Hp & Hx1).
  apply wp_bind. eapply (total_lift _ (if hasData (p_cmd pkt) then p_size pkt else 0)).
  { unfold data_size. rewrite getSize_run by apply Hreq. by destruct (hasData (p_cmd pkt)). }
  apply wp_bind. eapply total_lift; [apply range_of|]. apply wp_bind, total_at_bar. eapply wp_run; [exact Hp|].
  apply wp_bind, total_at_bar, count_ok; [done|]. intros x2 Hx2. apply wp_bind. eapply at_port_ok; [exact Hb|exact Hsend|].
  cbv beta iota. apply wp_bind. destruct (isResponse (p_cmd p')).
  - apply wp_bind. eapply (total_lift _ (if hasData (p_cmd p') then p_size p' else 0)).
    { unfold data_size. rewrite getSize_run by (by apply reply_size). by destruct (hasData (p_cmd p')). }
    apply total_at_bar, count_ok; [done|]. intros x3 Hx3. apply wp_ret. by apply HQ.
  - apply wp_ret, wp_ret. by apply HQ.
Qed.

Lemma ports_quiet qs x (Q : bool * Pkt -> XBar -> Prop) : bar_ok w own x -> Forall (fun i => (i < length (slavePorts x))%nat) qs ->
  (forall x', bar_ok w own x' -> Q (false, pkt) x') -> total (satisfied_by qs pkt) Q x.
Proof using Type.
  intros Hx Hqs HQ. revert x Hx Hqs. induction qs as [|q qs IH]; intros x Hx Hqs; cbn [satisfied_by].
  { apply wp_ret. by apply HQ. }
  apply Forall_cons in Hqs as [Hq Hqs]. destruct (lookup_lt_is_Some_2 (slavePorts x) q Hq) as [pq Hpq]. apply wp_bind.
  pose proof (bo_quiet _ _ _ Hx) as Hquiet. pose proof (proj1 (Forall_lookup _ _) Hquiet q pq Hpq) as E. simpl in E.
  eapply wp_run.
  { unfold on_slavePort, on_part. rewrite Hpq. unfold pq_trySatisfyFunctional. rewrite E. reflexivity. }
  cbv beta iota. apply IH.
  - destruct Hx. split; try done. simpl. by apply Forall_insert.
  - simpl. by rewrite length_insert.
Qed.

Lemma bar_functional i r b b' send p' (Q : Pkt -> XSystem B -> Prop) : xs_mems s !! i = Some b ->
  r ∈ own i -> in_range r (p_addr pkt) -> send i pkt b = Ok (p', b') ->
  (forall x', bar_ok w own x' -> Q p' (set_bar x' (set_mem i b' s))) ->
  total (x_recvFunctional xs_bar set_bar (fun i p => at_port i (send i p)) pkt) Q s.
Proof using Hsh Hreq Hbar.
  intros Hb Hr Hin Hsend HQ. apply wp_bind, total_at_bar, wp_gets, wp_bind, total_at_bar.
  apply ports_quiet; [exact Hbar|apply Forall_seq; simpl; intros; lia|]. intros x1 Hx1. cbv beta iota.
  destruct (decode w Hsh own x1 i r _ _ Hx1 Hr Hin (ro_pos _ _ _ Hreq) (ro_fits _ _ _ Hreq)) as (m & Hp & Hx2).
  apply wp_bind. eapply total_lift; [apply range_of|]. apply wp_bind, total_at_bar. eapply wp_run; [exact Hp|].
  eapply at_port_ok; [exact Hb|exact Hsend|]. by apply HQ.
Qed.
End Request.

Lemma xs_atomic now s f pkt : xs_rep now s f -> request_ok w f pkt ->
  total (ms_recvAtomic now pkt) (fun r s' => xs_rep now s' (after f pkt) /\ reply pkt r.2 /\ reads f pkt r.2) s.
Proof using Type*.
  intros (own & fs & Hsh & Hbar & Hparts & Hf) Hreq.
  destruct (owner now s f own fs pkt Hsh Hbar Hparts Hf Hreq) as (i & b & g & r & Hb & Hi & Hg & Hr & Hin & Hown).
  destruct (lm_atomic now b g pkt Hg (owner_request f pkt Hreq g Hown)) as (lat & p' & b' & Hrun & Hb' & Hrep & Hrd).
  destruct (parts_after now s f own fs pkt Hsh Hbar Hparts Hf Hreq i b' g Hi Hown Hb') as [Hparts' Hf'].
  apply wp_bind, wp_gets. eapply (bar_atomic s f own pkt Hsh Hbar Hreq i r b b' _ (fun _ => ms_recvAtomic now));
    [exact Hb|exact Hr|exact Hin|exact Hrep|exact Hrun|].
  intros x' Hx'. split; [by exists own, (<[i := after g pkt]> fs)|]. split; [by apply reply_delay|].
  intros Hk a Ha. destruct (Hown a Ha) as [_ ->]. by apply Hrd.
Qed.

Lemma xs_functional now s f pkt : xs_rep now s f -> request_ok w f pkt -> needsResponse (p_cmd pkt) = true -> isMaskedWrite pkt = false ->
  total (ms_recvFunctional pkt) (fun r s' => xs_rep now s' (after f pkt) /\ reply pkt r /\ reads f pkt r) s.
Proof using Type*.
  intros (own & fs & Hsh & Hbar & Hparts & Hf) Hreq Hn Hm.
  destruct (owner now s f own fs pkt Hsh Hbar Hparts Hf Hreq) as (i & b & g & r & Hb & Hi & Hg & Hr & Hin & Hown).
  destruct (lm_functional now b g pkt Hg (owner_request f pkt Hreq g Hown) Hn Hm) as (p' & b' & Hrun & Hb' & Hrep & Hrd).
  destruct (parts_after now s f own fs pkt Hsh Hbar Hparts Hf Hreq i b' g Hi Hown Hb') as [Hparts' Hf'].
  eapply (bar_functional s f own pkt Hsh Hbar Hreq i r b b' (fun _ => ms_recvFunctional)); [exact Hb|exact Hr|exact Hin|exact Hrun|].
  intros x' Hx'. split; [by exists own, (<[i := after g pkt]> fs)|]. split; [done|].
  intros Hk a Ha. destruct (Hown a Ha) as [_ ->]. by apply Hrd.
Qed.

#[export] Program Instance XSystem_lawful : LawfulMemory (XSystem B) w := { lm_rep := xs_rep }.
Next Obligation. intros now s f h (own & fs & H1 & H2 & H3 & H4) E. exists own, fs. by rewrite <- E. Qed.
Next Obligation.
  intros now now' s f (own & fs & H1 & H2 & [P1 P2 P3] & H4) Hn. exists own, fs. split; [done|]. split; [done|]. split; [|done].
  split; [done| |done]. intros i b g Hb Hg. eapply lm_time; [by eapply P2|done].
Qed.
Next Obligation.
  intros now s f a (own & fs & H1 & H2 & H3 & H4) Ha. rewrite (H4 a) in Ha. apply whole_some in Ha as (i & g & Hi & Hg).
  destruct (pa_own _ _ _ _ H3 i g a Hi Hg) as (r & Hr & Hin). pose proof (own_range w own _ i r H2 Hr). unfold in_range in Hin. lia.
Qed.
Next Obligation.
  intros now s f a a' (own & fs & H1 & H2 & H3 & H4) Ha E. rewrite (H4 a) in Ha. rewrite (H4 a'). apply whole_some in Ha as (i & g & Hi & Hg).
  eapply whole_there; [exact Hi|]. by eapply part_lines.
Qed.
Next Obligation.
  intros now s f pkt Hs Hr. destruct (proj1 (total_run _ _ _) (xs_atomic now s f pkt Hs Hr)) as ([lat p'] & s' & Hrun & H). by exists lat, p', s'.
Qed.
Next Obligation.
  intros now s f pkt Hs Hr Hn Hm. destruct (proj1 (total_run _ _ _) (xs_functional now s f pkt Hs Hr Hn Hm)) as (p' & s' & Hrun & H). by exists p', s'.
Qed.
End Lawful.

(** ** Runs *)

(** A crossbar that has been told the ranges of all its neighbours, in lines and
    without interleaving, and the components that announced them. *)
Record memory_map {B : Type} `{MS : !MemorySide B} (w : World) `{LM : !LawfulMemory B w} (now : Z) (own : nat -> list AddrRange)
    (x : XBar) (mems : list B) (fs : list Contents) : Prop := {
  mm_shift : 0 <= w_shift w < 31;
  mm_conf : xbar_conf x own;
  mm_all : gotAllAddrRanges (x_decoder x) = true;
  mm_plain i r : r ∈ own i -> plain_range w r;
  mm_default : interleaved (defaultRange (x_decoder x)) = false;
  mm_quiet : Forall (fun q => transmitList q = []) (slavePorts x);
  mm_parts : parts_ok w now own mems fs
}.

Section System.
Context {B : Type} `{MS : !MemorySide B} (w : World) `{LM : !LawfulMemory B w}.

Lemma map_rep now own x mems fs slave : memory_map w now own x mems fs -> lm_rep (w := w) now (mkXSystem x mems slave) (whole fs).
Proof using Type.
  intros [H1 H2 H3 H4 H5 H6 H7]. exists own, fs. split; [done|]. split; [|done]. split; try done. by apply xbar_conf_announced.
Qed.

(** C12: a crossbar is a memory. Behind the master ports of a crossbar that has
    heard from all its neighbours are components that are arrays of bytes within the
    ranges they announced; the ranges are not interleaved and consist of whole
    lines, and no response is queued in the crossbar. Any sequence of atomic and
    functional requests to a slave port (plain reads, WriteReq, WriteLineReq and
    whole-line write-backs, each within a line and within the memories, all of one
    secureness, functional ones unmasked) runs without a failure, and the answers
    and the final contents are those of one array with the bytes of all components:
    the port a handler forwards a request to is the one whose component holds its
    bytes. Ticks do not decrease and stay below 2^62, and no packet is one that a
    cache has promised to answer. *)
Theorem xbar_refines_memory now own x mems fs slave os : memory_map w now own x mems fs -> trace_ok w now (whole fs) os ->
  exists rs s' now', run_ops os (mkXSystem x mems slave) = Ok (rs, s') /\ answers (whole fs) os rs
    /\ lm_rep (w := w) now' s' (contents (whole fs) os).
Proof using Type.
  intros Hm Ht. destruct (lawful_run w os now _ _ (map_rep now own x mems fs slave Hm) Ht) as (rs & s' & now' & H1 & H2 & _ & H3).
  by exists rs, s', now'.
Qed.
End System.

(** ** Two memories behind a crossbar, and a cache in front *)

Definition high_memory : SimpleMemPort :=
  mkSMPort (new_SimpleMemory
              (setBackingStore (Some (replicate 4096 5)) (mkMem (mkAddrRange 8192 12288 [] 0) None [] (mkMemStats ∅ ∅ ∅ ∅ ∅ ∅) [] false))
              30 0 (fun sz => sz) 0) (fun _ => 0) 0.
Definition high_bytes : Contents := mem_byte (sm_mem (smp_mem high_memory)).
Lemma high_memory_rep now : lm_rep (w := demo_world) now high_memory high_bytes.
Proof. split; [|done..]. split; [done|simpl; lia| |split; constructor]. eexists. by split. Qed.

Definition two_memories : XSystem SimpleMemPort := mkXSystem (demo_xbar [0%nat; 1%nat; 2%nat]) [demo_memory; high_memory] 0.

Lemma pair_lookup {A} (x y z : A) i : [x; y] !! i = Some z -> (i = 0%nat /\ z = x) \/ (i = 1%nat /\ z = y).
Proof. destruct i as [|[|i]]; intros [=]; subst; auto. Qed.
Lemma demo_map : exists own, memory_map demo_world 0 own (xs_bar two_memories) (xs_mems two_memories) [demo_bytes; high_bytes].
Proof.
  destruct demo_xbar_conf as (own & Hx & Hown). exists own. split; [done|exact Hx|by vm_compute| |by vm_compute|by vm_compute; repeat constructor|].
  - intros i r. rewrite Hown. destruct i as [|[|i]]; [intros ->%list_elem_of_singleton; by vm_compute..|by intros ?%elem_of_nil].
  - split; [done| |].
    + intros i b g [[-> ->]|[-> ->]]%pair_lookup [[? ->]|[? ->]]%pair_lookup; try done; [apply demo_memory_rep|apply high_memory_rep].
    + intros i g a [[-> ->]|[-> ->]]%pair_lookup Ha; rewrite Hown; eexists; (split; [apply list_elem_of_singleton; reflexivity|]).
      * apply (mem_byte_range _ a (mr_ok _ _ _ (demo_memory_rep 0))) in Ha. exact Ha.
      * apply (mem_byte_range _ a (mr_ok _ _ _ (high_memory_rep 0))) in Ha. exact Ha.
Qed.

Definition both_addrs (a : Z) : bool := demo_addrs a || ((8192 <=? a) && (a <? 12288)).
Lemma both_there : there both_addrs (whole [demo_bytes; high_bytes]).
Proof.
  intros a [Ha|Ha]%orb_true_iff.
  - apply (whole_there _ 0 demo_bytes); [done|by apply demo_bytes_there].
  - apply (whole_there _ 1 high_bytes); [done|]. apply andb_true_iff in Ha. apply mem_byte_range; [apply (mr_ok _ _ _ (high_memory_rep 0))|]. simpl. lia.
Qed.

(** Writes to both memories and reads of them, in both ways. *)
Definition both_trace : list mem_op :=
  [OpAtomic 10 (cache_req WriteReq 0x40 [1; 2]); OpAtomic 20 (cache_req WriteReq 0x2041 [3]);
   OpAtomic 30 (cache_req ReadReq 0x40 [0; 0; 0]); OpFunctional (cache_req ReadReq 0x2040 [0; 0; 0]);
   OpFunctional (cache_req WriteReq 0x2042 [9]); OpAtomic 40 (cache_req ReadReq 0x2040 [0; 0; 0; 0])].
Lemma both_trace_ok : trace_ok demo_world 0 (whole [demo_bytes; high_bytes]) both_trace.
Proof.
  assert (forall f, there both_addrs f -> trace_ok demo_world 0 f both_trace) as H; [|apply H, both_there].
  fit_trace both_addrs.
Qed.

Lemma xbar_refines_memory_witness : exists rs s' now', run_ops both_trace two_memories = Ok (rs, s')
  /\ answers (whole [demo_bytes; high_bytes]) both_trace rs
  /\ lm_rep (w := demo_world) now' s' (contents (whole [demo_bytes; high_bytes]) both_trace).
Proof.
  destruct demo_map as (own & Hm).
  apply (xbar_refines_memory demo_world 0 own (xs_bar two_memories) (xs_mems two_memories) [demo_bytes; high_bytes] 0 both_trace Hm both_trace_ok).
Defined.

(** The answers, without a cache and with one in front of the crossbar. *)
Definition both_answers : list (option (list Z)) :=
  [Some [1; 2]; Some [3]; Some [1; 2; 7]; Some [5; 3; 5]; Some [9]; Some [5; 3; 9; 5]].
Example two_memories_run : run_data both_trace two_memories = Ok both_answers.
Proof. by vm_compute. Qed.
Example cache_over_xbar_run :
  (x ← new_BaseCache (demo_params mostly_incl) 4 8 0 false 0 small_tags (replicate 128 0) (replicate 64 0) demo_env two_memories;
   run_data both_trace (x : lru_cache (XSystem SimpleMemPort))) = Ok both_answers.
Proof. by vm_compute. Qed.
