(* ===== verification/FALRU.v ===== *)
(** * Fully associative tags (mem/cache/tags/fa_lru.{hh,cc})

    The blocks are on a doubly linked list from the most to the least recently
    used; a pointer to a block is its number ([None]: the null pointer).  A hash
    table finds the block of a tag.  [CacheTracking] follows a number of smaller
    caches at once: the i-th boundary is the last block on the list that the i-th
    cache would hold, and every block has a mask of the caches that would hold it.
    The warm-up bound and the number of masters are parameters, as for the
    set-associative tags; the registration of statistics is left out. *)

From S2P Require Import Prelude IntMath Bitfield EventQ Packet Request PacketData CacheBlk ReplPolicy Indexing Tags.

(** ** State *)

Record FALRUBlk := mkFBlk {
  fb_blk : CacheBlk;
  prev : option nat;
  next : option nat;
  inCachesMask : Z
}.
Definition new_FALRUBlk : FALRUBlk := mkFBlk new_CacheBlk None None 0.
Definition set_fb_blk (c : CacheBlk) (b : FALRUBlk) : FALRUBlk := mkFBlk c (prev b) (next b) (inCachesMask b).
Definition set_prev (p : option nat) (b : FALRUBlk) : FALRUBlk := mkFBlk (fb_blk b) p (next b) (inCachesMask b).
Definition set_next (p : option nat) (b : FALRUBlk) : FALRUBlk := mkFBlk (fb_blk b) (prev b) p (inCachesMask b).
Definition set_mask (m : Z) (b : FALRUBlk) : FALRUBlk := mkFBlk (fb_blk b) (prev b) (next b) m.

Record CacheTracking := mkTracking {
  ct_blkSize : Z;
  minTrackedSize : Z;
  numTrackedCaches : Z;
  inAllCachesMask : Z;
  boundaries : list (option nat);
  hits : list Z;
  misses : list Z;
  accesses : Z
}.
Definition set_boundaries (l : list (option nat)) (c : CacheTracking) : CacheTracking :=
  mkTracking (ct_blkSize c) (minTrackedSize c) (numTrackedCaches c) (inAllCachesMask c) l (hits c) (misses c) (accesses c).
Definition set_counts (h m : list Z) (a : Z) (c : CacheTracking) : CacheTracking :=
  mkTracking (ct_blkSize c) (minTrackedSize c) (numTrackedCaches c) (inAllCachesMask c) (boundaries c) h m a.

Record FALRU := mkFALRU {
  fa_blkSize : Z;
  fa_lookupLatency : Z;
  fa_maxMasters : Z;
  fa_warmupBound : Z;
  fa_warmedUp : bool;
  fa_numBlocks : Z;
  fa_stats : BaseTagStats;
  fa_blks : list FALRUBlk;
  fa_head : option nat;
  fa_tail : option nat;
  tagHash : gmap (Z * bool) nat;
  cacheTracking : CacheTracking
}.
Abbreviation FA := (M FALRU).
Implicit Types t : FALRU.

Definition set_fa_blks (l : list FALRUBlk) t : FALRU :=
  mkFALRU (fa_blkSize t) (fa_lookupLatency t) (fa_maxMasters t) (fa_warmupBound t) (fa_warmedUp t) (fa_numBlocks t)
    (fa_stats t) l (fa_head t) (fa_tail t) (tagHash t) (cacheTracking t).
Definition set_ends (h l : option nat) t : FALRU :=
  mkFALRU (fa_blkSize t) (fa_lookupLatency t) (fa_maxMasters t) (fa_warmupBound t) (fa_warmedUp t) (fa_numBlocks t)
    (fa_stats t) (fa_blks t) h l (tagHash t) (cacheTracking t).
Definition set_tagHash (h : gmap (Z * bool) nat) t : FALRU :=
  mkFALRU (fa_blkSize t) (fa_lookupLatency t) (fa_maxMasters t) (fa_warmupBound t) (fa_warmedUp t) (fa_numBlocks t)
    (fa_stats t) (fa_blks t) (fa_head t) (fa_tail t) h (cacheTracking t).
Definition set_tracking (c : CacheTracking) t : FALRU :=
  mkFALRU (fa_blkSize t) (fa_lookupLatency t) (fa_maxMasters t) (fa_warmupBound t) (fa_warmedUp t) (fa_numBlocks t)
    (fa_stats t) (fa_blks t) (fa_head t) (fa_tail t) (tagHash t) c.
Definition set_fa_stats (w : bool) (s : BaseTagStats) t : FALRU :=
  mkFALRU (fa_blkSize t) (fa_lookupLatency t) (fa_maxMasters t) (fa_warmupBound t) w (fa_numBlocks t)
    s (fa_blks t) (fa_head t) (fa_tail t) (tagHash t) (cacheTracking t).
Definition fa_on_stats (f : BaseTagStats -> BaseTagStats) : FA unit :=
  modify (fun t => set_fa_stats (fa_warmedUp t) (f (fa_stats t)) t).
Definition set_head (h : option nat) : FA unit := modify (fun t => set_ends h (fa_tail t) t).
Definition set_tail (l : option nat) : FA unit := modify (fun t => set_ends (fa_head t) l t).

(** ** Pointers *)

Definition deref (p : option nat) : FA FALRUBlk :=
  l ← gets fa_blks;
  match p with
  | None => throw (EUndefined "null block")
  | Some i => match l !! i with Some b => mret b | None => throw (EUndefined "blk") end
  end.
(** An assignment to a member of [*p]. *)
Definition assign (p : option nat) (f : FALRUBlk -> FALRUBlk) : FA unit :=
  b ← deref p;
  match p with Some i => modify (fun t => set_fa_blks (<[i := f b]> (fa_blks t)) t) | None => mret tt end.
(** [&(blks[i])]: a block or the end of the array. *)
Definition blk_ptr (i : Z) : FA (option nat) :=
  l ← gets fa_blks;
  if (0 <=? i) && (i <=? Z.of_nat (length l)) then mret (Some (Z.to_nat i)) else throw (EUndefined "blks").

(** [boundaries[i]] *)
Definition boundary (i : nat) : FA (option nat) :=
  c ← gets cacheTracking; match boundaries c !! i with Some p => mret p | None => throw (EUndefined "boundaries") end.
Definition set_boundary (i : nat) (p : option nat) : FA unit :=
  c ← gets cacheTracking;
  if (i <? length (boundaries c))%nat then modify (set_tracking (set_boundaries (<[i := p]> (boundaries c)) c))
  else throw (EUndefined "boundaries").

(** ** Construction *)

Definition new_CacheTracking (min_size max_size block_size : Z) : res CacheTracking :=
  n ← (if min_size <? max_size then a ← floorLog2 4 max_size; b ← floorLog2 4 min_size; Ok (a - b) else Ok 0);
  if 32 <? n then Err (EFatal "Not enough bits in type CachesMask type to keep track of caches")
  else Ok (mkTracking block_size min_size n (u32 (mask n)) (replicate (Z.to_nat n) None)
             (replicate (Z.to_nat n + 1) 0) (replicate (Z.to_nat n + 1) 0) 0).

Definition new_FALRU (p_size p_block_size p_tag_latency bound masters p_min_tracked_cache_size : Z) : res FALRU :=
  if p_block_size =? 0 then Err (EUndefined "division by zero")
  else
    let blkSize := u32 p_block_size in
    let size := u32 p_size in
    let numBlocks := u32 (p_size / u64 p_block_size) in
    c ← new_CacheTracking (u32 p_min_tracked_cache_size) size blkSize;
    if negb (isPowerOf2 blkSize) then Err (EFatal "cache block size (in bytes) must be a power of two")
    else if negb (isPowerOf2 size) then Err (EFatal "Cache Size must be power of 2 for now")
    else Ok (mkFALRU blkSize p_tag_latency masters bound false numBlocks (mkTagStats 0 0 0 0 ∅ ∅ ∅ 0 0)
               (replicate (Z.to_nat numBlocks) new_FALRUBlk) None None ∅ c).

(** The loop of [CacheTracking::init]; [fuel] bounds the blocks on the list. *)
Fixpoint init_walk (fuel : nat) (blk tail : option nat) (curr_size tracked_cache_size in_caches_mask : Z) (j : nat) : FA unit :=
  match blk with
  | None => mret tt
  | Some _ =>
      match fuel with
      | O => throw EFuel
      | S fuel =>
          assign blk (set_mask in_caches_mask);;
          c ← gets cacheTracking;
          let curr_size := u32 (curr_size + ct_blkSize c) in
          b ← deref blk;
          if (curr_size =? tracked_cache_size) && negb (bool_decide (blk = tail)) then
            set_boundary j blk;;
            init_walk fuel (next b) tail curr_size (u32 (Z.shiftl tracked_cache_size 1))
              (Z.ldiff in_caches_mask (Z.shiftl 1 (Z.of_nat j))) (S j)
          else init_walk fuel (next b) tail curr_size tracked_cache_size in_caches_mask j
      end
  end.
Definition tracking_init (head tail : option nat) : FA unit :=
  c ← gets cacheTracking;
  n ← gets (fun t => length (fa_blks t));
  init_walk n (if numTrackedCaches c =? 0 then None else head) tail 0 (minTrackedSize c) (inAllCachesMask c) 0.

Definition place_blk (i : nat) (p n : option nat) (blkSize : Z) : FA unit :=
  assign (Some i) (fun b => set_fb_blk (set_blk_data (Some (blkSize * Z.of_nat i)) (setPosition 0 (Z.of_nat i) (fb_blk b)))
                              (set_next n (set_prev p b))).
Definition fa_tagsInit : FA unit :=
  n ← gets fa_numBlocks;
  blkSize ← gets fa_blkSize;
  head ← blk_ptr 0; set_head head;;
  second ← blk_ptr 1; place_blk 0 None second blkSize;;
  forM_ (seq 1 (Z.to_nat n - 2)) (fun i => place_blk i (Some (i - 1)%nat) (Some (i + 1)%nat) blkSize);;
  tail ← blk_ptr (n - 1); set_tail tail;;
  before ← blk_ptr (n - 2); place_blk (Z.to_nat (n - 1)) before None blkSize;;
  tracking_init head tail.

(** ** The tracked caches *)

Definition moveBlockToHead (blk : option nat) : FA unit :=
  b ← deref blk;
  c ← gets cacheTracking;
  let update_caches_mask := Z.lxor (inAllCachesMask c) (inCachesMask b) in
  forM_ (seq 0 (Z.to_nat (numTrackedCaches c))) (fun i =>
    let current_cache_mask := Z.shiftl 1 (Z.of_nat i) in
    x ← boundary i;
    if negb (Z.land current_cache_mask update_caches_mask =? 0) then
      assign x (fun b => set_mask (Z.ldiff (inCachesMask b) current_cache_mask) b);;
      y ← deref x; set_boundary i (prev y)
    else if bool_decide (x = blk) then b ← deref blk; set_boundary i (prev b)
    else mret tt);;
  assign blk (set_mask (inAllCachesMask c)).

Definition moveBlockToTail (blk : option nat) : FA unit :=
  b ← deref blk;
  c ← gets cacheTracking;
  let update_caches_mask := inCachesMask b in
  forM_ (seq 0 (Z.to_nat (numTrackedCaches c))) (fun i =>
    let current_cache_mask := Z.shiftl 1 (Z.of_nat i) in
    when_ (negb (Z.land current_cache_mask update_caches_mask =? 0))
      (x ← boundary i; y ← deref x; set_boundary i (next y);;
       z ← boundary i;
       (if bool_decide (z = blk) then b ← deref blk; set_boundary i (next b) else mret tt);;
       z ← boundary i;
       assign z (fun b => set_mask (Z.lor (inCachesMask b) current_cache_mask) b)));;
  assign blk (set_mask 0).

(** The counters of the caches before the actual one, which is the last. *)
Definition recordAccess (blk : option nat) : FA unit :=
  c ← gets cacheTracking;
  let n := Z.to_nat (numTrackedCaches c) in
  found ← match blk with Some _ => b ← deref blk; mret (Some b) | None => mret None end;
  let hit (i : nat) := match found with
    | Some b => if (i <? n)%nat then negb (Z.land (Z.shiftl 1 (Z.of_nat i)) (inCachesMask b) =? 0) else blk_isValid (fb_blk b)
    | None => false end in
  modify (set_tracking (set_counts (imap (fun i x => if hit i then x + 1 else x) (hits c))
                                   (imap (fun i x => if hit i then x else x + 1) (misses c)) (accesses c + 1) c)).

(** [CacheTracking::check], compiled in with FALRU_DEBUG. *)
Fixpoint check_walk (fuel : nat) (blk tail : option nat) (curr_size tracked_cache_size in_caches_mask : Z) (j : nat) : FA unit :=
  match blk with
  | None => mret tt
  | Some _ =>
      match fuel with
      | O => throw EFuel
      | S fuel =>
          b ← deref blk;
          panic_if (negb (inCachesMask b =? in_caches_mask)) "Expected cache mask";;
          c ← gets cacheTracking;
          let curr_size := u32 (curr_size + ct_blkSize c) in
          if (curr_size =? tracked_cache_size) && negb (bool_decide (blk = tail)) then
            x ← boundary j;
            panic_if (negb (bool_decide (x = blk))) "Unexpected boundary";;
            check_walk fuel (next b) tail curr_size (u32 (Z.shiftl tracked_cache_size 1))
              (Z.ldiff in_caches_mask (Z.shiftl 1 (Z.of_nat j))) (S j)
          else check_walk fuel (next b) tail curr_size tracked_cache_size in_caches_mask j
      end
  end.
Definition tracking_check (head tail : option nat) : FA unit :=
  c ← gets cacheTracking;
  n ← gets (fun t => length (fa_blks t));
  check_walk n head tail 0 (minTrackedSize c) (inAllCachesMask c) 0.

(** ** The list *)

Definition moveToHead (blk : option nat) : FA unit :=
  head ← gets fa_head;
  when_ (negb (bool_decide (blk = head)))
    (moveBlockToHead blk;;
     tail ← gets fa_tail;
     b ← deref blk;
     (if bool_decide (blk = tail) then
        assert_ (bool_decide (next b = None)) "blk->next == nullptr";;
        set_tail (prev b);; assign (prev b) (set_next None)
      else assign (prev b) (set_next (next b));; assign (next b) (set_prev (prev b)));;
     assign blk (set_next head);;
     assign blk (set_prev None);;
     assign head (set_prev blk);;
     set_head blk).

Definition moveToTail (blk : option nat) : FA unit :=
  tail ← gets fa_tail;
  when_ (negb (bool_decide (blk = tail)))
    (moveBlockToTail blk;;
     head ← gets fa_head;
     b ← deref blk;
     (if bool_decide (blk = head) then
        assert_ (bool_decide (prev b = None)) "blk->prev == nullptr";;
        set_head (next b);; assign (next b) (set_prev None)
      else assign (prev b) (set_next (next b));; assign (next b) (set_prev (prev b)));;
     assign blk (set_prev tail);;
     assign blk (set_next None);;
     assign tail (set_next blk);;
     set_tail blk).

(** ** Operations *)

Definition fa_extractTag (addr : Z) t : Z := Z.land addr (not64 (u64 (fa_blkSize t - 1))).

Definition fa_findBlock (addr : Z) (is_secure : bool) t : res (option nat) :=
  let tag := fa_extractTag addr t in
  match tagHash t !! (tag, is_secure) with
  | None => Ok None
  | Some i =>
      match fa_blks t !! i with
      | None => Err (EUndefined "blk")
      | Some b =>
          if blk_isValid (fb_blk b) then
            assert_r (blk_tag (fb_blk b) =? tag) "blk->tag == tag";;
            assert_r (Bool.eqb (blk_isSecure (fb_blk b)) is_secure) "blk->isSecure() == is_secure";;
            Ok (Some i)
          else Ok (Some i)
      end
  end.

(** Returns the block, the mask of the caches that hold it and the latency. *)
Definition fa_accessBlock (addr : Z) (is_secure : bool) : FA (option nat * Z * Z) :=
  t ← get;
  blk ← lift (fa_findBlock addr is_secure t);
  mask ← match blk with
         | Some _ => b ← deref blk; if blk_isValid (fb_blk b) then moveToHead blk;; mret (inCachesMask b) else mret 0
         | None => mret 0
         end;
  recordAccess blk;;
  mret (blk, mask, fa_lookupLatency t).

Definition fa_findBlockBySetAndWay (set way : Z) : FA (option nat) :=
  assert_ (set =? 0) "set == 0";; blk_ptr way.

Definition fa_findVictim : FA (option nat * list (option nat)) := v ← gets fa_tail; mret (v, [v]).

(** [BaseTags::insertBlock] *)
Definition fa_base_insertBlock (now : Z) (pkt : Pkt) (blk : option nat) : FA unit :=
  b ← deref blk;
  assert_ (negb (blk_isValid (fb_blk b))) "!blk->isValid()";;
  t ← get;
  let master_id := rq_masterId (p_req pkt) in
  assert_ (master_id <? fa_maxMasters t) "master_id < system->maxMasters()";;
  fa_on_stats (bump_occupancy master_id 1);;
  addr ← lift (getAddr pkt);
  is_secure ← lift (isSecure pkt);
  c ← lift (blk_insert now (fa_extractTag addr t) is_secure master_id (rq_taskId (p_req pkt)) (fb_blk b));
  assign blk (set_fb_blk c);;
  when_ (negb (fa_warmedUp t) && (fa_warmupBound t <=? tagsInUse (fa_stats t)))
    (modify (fun t => set_fa_stats true (set_warmupCycle now (fa_stats t)) t));;
  fa_on_stats (bump_accesses 1 1).

Definition fa_insertBlock (now : Z) (pkt : Pkt) (blk : option nat) : FA unit :=
  b ← deref blk;
  assert_ (inCachesMask b =? 0) "falruBlk->inCachesMask == 0";;
  fa_base_insertBlock now pkt blk;;
  fa_on_stats (bump_inUse 1);;
  moveToHead blk;;
  b ← deref blk;
  match blk with
  | Some i => modify (fun t => set_tagHash (<[(blk_tag (fb_blk b), blk_isSecure (fb_blk b)) := i]> (tagHash t)) t)
  | None => mret tt
  end.

(** [BaseTags::invalidate] *)
Definition fa_base_invalidate (blk : option nat) : FA unit :=
  b ← deref blk;
  assert_ (blk_isValid (fb_blk b)) "blk->isValid()";;
  fa_on_stats (bump_occupancy (srcMasterId (fb_blk b)) (-1));;
  fa_on_stats (bump_refs (refCount (fb_blk b)));;
  assign blk (set_fb_blk (blk_invalidate (fb_blk b))).

Definition fa_invalidate (blk : option nat) : FA unit :=
  b ← deref blk;
  h ← gets tagHash;
  let k := (blk_tag (fb_blk b), blk_isSecure (fb_blk b)) in
  modify (set_tagHash (delete k h));;
  assert_ (bool_decide (is_Some (h !! k))) "num_erased == 1";;
  fa_base_invalidate blk;;
  fa_on_stats (bump_inUse (-1));;
  moveToTail blk.

Definition fa_regenerateBlkAddr (i : nat) t : res Z :=
  match fa_blks t !! i with Some b => Ok (blk_tag (fb_blk b)) | None => Err (EUndefined "blk") end.
Definition fa_anyBlk (visitor : CacheBlk -> bool) t : bool := existsb (fun b => visitor (fb_blk b)) (fa_blks t).

(** [printSize]: the number and the unit of a size in a label. *)
Definition SIZES : list string := ["B"; "kB"; "MB"; "GB"; "TB"; "ZB"]%string.
Fixpoint print_loop (rounds : nat) (size : Z) (div : nat) : Z * nat :=
  match rounds with
  | O => (size, div)
  | S rounds => if 1024 <=? size then print_loop rounds (Z.shiftr size 10) (S div) else (size, div)
  end.
Definition printSize (size : Z) : res (Z * string) :=
  let '(size, div) := print_loop (length SIZES) size 0 in
  match SIZES !! div with Some s => Ok (size, s) | None => Err (EUndefined "SIZES") end.
