(* ===== verification/FALRUList.v ===== *)
(** * The list of the fully associative tags and its tracked caches

    The links between the blocks are functions on block numbers; [ordered] says
    that they run along a list of all blocks.  The i-th tracked cache has [cap i]
    blocks, twice as many as the one before; it holds the first [cap i] blocks of
    the list.  [tracks] says that masks and boundaries agree with the list; the
    two moves of [CacheTracking] keep that when the list changes. *)

From stdpp Require Import functions.
From S2P Require Import Prelude IntMath Bitfield Hoare CacheBlk Tags FALRU.

(** ** Lists of distinct blocks *)

Definition before (l : list nat) (k : nat) : option nat := match k with O => None | S k => l !! k end.

Section Lists.
Implicit Types l : list nat.

Record ordered (n : nat) l (P X : nat -> option nat) (h e : option nat) : Prop := {
  o_perm : l ≡ₚ seq 0 n;
  o_prev k i : l !! k = Some i -> P i = before l k;
  o_next k i : l !! k = Some i -> X i = l !! S k;
  o_head : h = l !! 0%nat;
  o_tail : e = l !! (n - 1)%nat
}.

Lemma perm_nodup n l : l ≡ₚ seq 0 n -> NoDup l.
Proof. intros H. rewrite H. apply NoDup_seq. Qed.
Lemma perm_length n l : l ≡ₚ seq 0 n -> length l = n.
Proof. intros H. by rewrite H, length_seq. Qed.
Lemma perm_bound n l k i : l ≡ₚ seq 0 n -> l !! k = Some i -> (i < n)%nat.
Proof. intros H Hi%list_elem_of_lookup_2. rewrite H, elem_of_seq in Hi. lia. Qed.
Lemma perm_position n l i : l ≡ₚ seq 0 n -> (i < n)%nat -> exists k, l !! k = Some i.
Proof. intros H Hi. apply list_elem_of_lookup. rewrite H, elem_of_seq. lia. Qed.

(** The list after a move. *)
Definition to_front {A} (k : nat) (b : A) (l : list A) : list A := b :: delete k l.
Definition to_back (k b : nat) l : list nat := delete k l ++ [b].

Lemma to_front_perm n l k b : l ≡ₚ seq 0 n -> l !! k = Some b -> to_front k b l ≡ₚ seq 0 n.
Proof. intros H Hk. unfold to_front. by rewrite <- delete_Permutation. Qed.
Lemma to_back_perm n l k b : l ≡ₚ seq 0 n -> l !! k = Some b -> to_back k b l ≡ₚ seq 0 n.
Proof. intros H Hk. unfold to_back. rewrite <- Permutation_cons_append. by rewrite <- delete_Permutation. Qed.

(** Where the block at a position comes from. *)
Lemma front_lookup {A} (l : list A) k b j : to_front k b l !! j = (if decide (j = 0)%nat then Some b else if decide (j <= k)%nat then l !! (j - 1)%nat else l !! j).
Proof.
  unfold to_front. destruct j as [|j]; [done|]. simpl. rewrite list_lookup_delete. replace (j - 0)%nat with j by lia.
  repeat case_decide; (done || lia).
Qed.
Lemma back_lookup l k b j : (k < length l)%nat ->
  to_back k b l !! j = (if decide (j < k)%nat then l !! j else if decide (S j < length l)%nat then l !! S j else if decide (S j = length l) then Some b else None).
Proof.
  intros Hk. unfold to_back. assert (length (delete k l) = length l - 1)%nat as Hl.
  { rewrite length_delete; [lia|by apply lookup_lt_is_Some_2]. }
  destruct (decide (S j < length l)%nat).
  - rewrite lookup_app_l by lia. rewrite list_lookup_delete. repeat case_decide; (done || lia).
  - rewrite lookup_app_r, Hl by lia. rewrite decide_False by lia. case_decide.
    + by replace (j - (length l - 1))%nat with 0%nat by lia.
    + apply lookup_ge_None_2. simpl. lia.
Qed.

Lemma place_ne l j k i b : NoDup l -> l !! j = Some i -> l !! k = Some b -> j <> k -> i <> b.
Proof. intros Hn Hj Hk Hne ->. apply Hne. by eapply NoDup_lookup. Qed.

(** What [moveToHead] does to the links. *)
Lemma ordered_front n l P X h e k b h0 x : ordered n l P X h e -> l !! k = Some b -> (0 < k)%nat -> h = Some h0 -> P b = Some x ->
  ordered n (to_front k b l)
    (<[h0 := Some b]> (<[b := None]> (match X b with Some y => <[y := P b]> P | None => P end)))
    (<[b := h]> (<[x := X b]> X)) (Some b) (if decide (k = n - 1)%nat then P b else e).
Proof.
  intros [Hp HP HX -> ->] Hb Hk Hh0 Hx. pose proof (perm_nodup n l Hp) as Hnd. pose proof (perm_length n l Hp) as Hlen.
  assert (k < n)%nat as Hkn by (rewrite <- Hlen; by eapply lookup_lt_Some).
  assert (l !! (k - 1)%nat = Some x) as Hxk by (destruct k as [|k]; [lia|]; simpl; rewrite Nat.sub_0_r, <- Hx; symmetry; apply (HP (S k) b Hb)).
  pose proof (fun j i => place_ne l j k i b Hnd) as Nb. pose proof (fun j i => place_ne l j 0 i h0 Hnd) as Nh.
  pose proof (fun j i => place_ne l j (k - 1) i x Hnd) as Nx. split.
  - by apply to_front_perm.
  - intros j i Hj. rewrite front_lookup in Hj. destruct (decide (j = 0)%nat) as [->|Hj0].
    { injection Hj as <-. simpl. rewrite fn_lookup_insert_ne by (intros ->; by eapply Nh; [exact Hb|done|lia|]). by rewrite fn_lookup_insert. }
    destruct j as [|j]; [done|]. cbn [before]. rewrite front_lookup. case_decide as Hjk.
    + rewrite Nat.sub_succ, Nat.sub_0_r in Hj. destruct (decide (j = 0)%nat) as [->|Hj1].
      { assert (i = h0) as -> by congruence. by rewrite fn_lookup_insert. }
      rewrite decide_True by lia. rewrite fn_lookup_insert_ne by (intros E; by apply (Nh j i Hj Hh0)).
      rewrite fn_lookup_insert_ne by (intros E; apply (Nb j i Hj Hb); [lia|done]).
      assert (P i = l !! (j - 1)%nat) as HPi by (rewrite (HP j i Hj); destruct j; [lia|]; simpl; by rewrite Nat.sub_0_r).
      rewrite <- HPi. destruct (X b) as [y|] eqn:Ey; [|done]. apply fn_lookup_insert_ne. intros ->.
      rewrite (HX k b Hb) in Ey. by apply (place_ne l j (S k) i i Hnd Hj Ey); [lia|].
    + rewrite decide_False by lia. rewrite fn_lookup_insert_ne by (intros E; by apply (Nh (S j) i Hj Hh0)).
      rewrite fn_lookup_insert_ne by (intros E; apply (Nb (S j) i Hj Hb); [lia|done]).
      assert (X b = l !! S k) as Ey by (by apply HX). case_decide as Hjk'.
      * assert (j = k) as -> by lia. rewrite Ey, Hj, fn_lookup_insert. by rewrite Hx.
      * rewrite Ey. pose proof (HP (S j) i Hj) as HPi. simpl in HPi. rewrite <- HPi. destruct (l !! S k) as [y|] eqn:Ely; [|done].
        apply fn_lookup_insert_ne. intros ->. by apply (place_ne l (S j) (S k) i i Hnd Hj Ely); [lia|].
  - intros j i Hj. rewrite front_lookup in Hj. rewrite front_lookup. rewrite decide_False by lia. rewrite Nat.sub_succ, Nat.sub_0_r.
    destruct (decide (j = 0)%nat) as [->|Hj0].
    { injection Hj as <-. rewrite fn_lookup_insert, decide_True by lia. done. }
    case_decide as Hjk.
    + rewrite fn_lookup_insert_ne by (intros E; apply (Nb (j - 1)%nat i Hj Hb); [lia|done]). case_decide.
      * rewrite fn_lookup_insert_ne by (intros E; apply (Nx (j - 1)%nat i Hj Hxk); [lia|done]). rewrite (HX _ i Hj). f_equal. lia.
      * assert (j = k) as -> by lia. assert (i = x) as -> by congruence. rewrite fn_lookup_insert. by apply HX.
    + rewrite fn_lookup_insert_ne by (intros E; apply (Nb j i Hj Hb); [lia|done]). rewrite decide_False by lia.
      rewrite fn_lookup_insert_ne by (intros E; apply (Nx j i Hj Hxk); [lia|done]). by apply HX.
  - done.
  - rewrite front_lookup, (decide_False (P := (n - 1 = 0)%nat)) by lia. case_decide.
    + subst k. rewrite decide_True by lia. by rewrite Hx, Hxk.
    + by rewrite decide_False by lia.
Qed.

(** What [moveToTail] does to the links. *)
Lemma ordered_back n l P X h e k b e0 y : ordered n l P X h e -> l !! k = Some b -> (S k < n)%nat -> e = Some e0 -> X b = Some y ->
  ordered n (to_back k b l)
    (<[b := e]> (<[y := P b]> P))
    (<[e0 := Some b]> (<[b := None]> (match P b with Some x => <[x := X b]> X | None => X end)))
    (if decide (k = 0)%nat then X b else h) (Some b).
Proof.
  intros [Hp HP HX -> ->] Hb Hk He0 Hy. pose proof (perm_nodup n l Hp) as Hnd. pose proof (perm_length n l Hp) as Hlen.
  assert (l !! S k = Some y) as Hyk by (by rewrite <- (HX k b Hb)).
  pose proof (fun j i => place_ne l j k i b Hnd) as Nb. pose proof (fun j i => place_ne l j (n - 1) i e0 Hnd) as Ne.
  pose proof (fun j i => place_ne l j (S k) i y Hnd) as Ny. split.
  - by apply to_back_perm.
  - intros j i Hj. assert (before (to_back k b l) j = match j with O => None | S j => to_back k b l !! j end) as -> by done.
    rewrite back_lookup, Hlen in Hj by lia. destruct (decide (j < k)%nat).
    { rewrite fn_lookup_insert_ne by (intros E; apply (Nb j i Hj Hb); [lia|done]).
      rewrite fn_lookup_insert_ne by (intros E; apply (Ny j i Hj Hyk); [lia|done]). rewrite (HP j i Hj). destruct j; [done|].
      rewrite back_lookup, decide_True by lia. done. }
    destruct (decide (S j < n)%nat).
    + rewrite fn_lookup_insert_ne by (intros E; apply (Nb (S j) i Hj Hb); [lia|done]). destruct (decide (j = k)) as [->|].
      * assert (i = y) as -> by congruence. rewrite fn_lookup_insert, (HP k b Hb). destruct k as [|k]; [done|].
        rewrite back_lookup, decide_True by lia. done.
      * rewrite fn_lookup_insert_ne by (intros E; apply (Ny (S j) i Hj Hyk); [lia|done]). rewrite (HP _ i Hj). destruct j as [|j]; [lia|].
        rewrite back_lookup, decide_False, decide_True by lia. done.
    + destruct (decide (S j = n)); [|done]. injection Hj as <-. rewrite fn_lookup_insert. destruct j as [|j]; [lia|].
      rewrite back_lookup, decide_False, decide_True by lia. f_equal. lia.
  - intros j i Hj. rewrite back_lookup, Hlen in Hj |- * by lia. destruct (decide (j < k)%nat).
    { rewrite fn_lookup_insert_ne by (intros E; apply (Ne j i Hj He0); [lia|done]).
      rewrite fn_lookup_insert_ne by (intros E; apply (Nb j i Hj Hb); [lia|done]). rewrite (HP k b Hb). destruct k as [|k]; [lia|]. cbn [before].
      destruct (l !! k) as [x|] eqn:Hxk; [|by apply lookup_ge_None in Hxk; lia]. case_decide.
      - rewrite fn_lookup_insert_ne by (intros E; apply (place_ne l j k i x Hnd Hj Hxk); [lia|done]). by apply HX.
      - assert (j = k) as -> by lia. assert (i = x) as -> by congruence. rewrite fn_lookup_insert, Hy. rewrite decide_True by lia. done. }
    destruct (decide (S j < n)%nat).
    + rewrite (decide_False (P := (S j < k)%nat)) by lia. destruct (decide (S (S j) < n)%nat).
      * rewrite fn_lookup_insert_ne by (intros E; apply (Ne (S j) i Hj He0); [lia|done]).
        rewrite fn_lookup_insert_ne by (intros E; apply (Nb (S j) i Hj Hb); [lia|done]). rewrite <- (HX _ i Hj), (HP k b Hb).
        destruct k as [|k]; [done|]. cbn [before]. destruct (l !! k) as [x|] eqn:Hxk; [|done]. apply fn_lookup_insert_ne.
        intros E. apply (place_ne l (S j) k i x Hnd Hj Hxk); [lia|done].
      * rewrite decide_True by lia. assert (i = e0) as -> by (replace (n - 1)%nat with (S j) in He0 by lia; congruence). by rewrite fn_lookup_insert.
    + destruct (decide (S j = n)); [|done]. injection Hj as <-. rewrite fn_lookup_insert_ne by (intros ->; by apply (Nb _ b He0 Hb); [lia|]).
      rewrite fn_lookup_insert, !decide_False by lia. done.
  - rewrite back_lookup, Hlen by lia. case_decide.
    + subst k. rewrite decide_False, decide_True by lia. by rewrite Hyk.
    + by rewrite decide_True by lia.
  - rewrite back_lookup, Hlen by lia. rewrite !decide_False, decide_True by lia. done.
Qed.
End Lists.

(** ** Blocks as functions *)

Section Runs.
Context (t0 : FALRU) (n : nat).
Implicit Types (C : nat -> CacheBlk) (P X : nat -> option nat) (K : nat -> Z) (B : list (option nat)) (h e : option nat).

Definition blocks C P X K : list FALRUBlk := (fun i => mkFBlk (C i) (P i) (X i) (K i)) <$> seq 0 n.
Definition st C P X K B h e : FALRU :=
  mkFALRU (fa_blkSize t0) (fa_lookupLatency t0) (fa_maxMasters t0) (fa_warmupBound t0) (fa_warmedUp t0) (fa_numBlocks t0)
    (fa_stats t0) (blocks C P X K) h e (tagHash t0) (set_boundaries B (cacheTracking t0)).

Lemma blocks_length C P X K : length (blocks C P X K) = n.
Proof using Type. unfold blocks. by rewrite length_fmap, length_seq. Qed.
Lemma blocks_lookup C P X K i : (i < n)%nat -> blocks C P X K !! i = Some (mkFBlk (C i) (P i) (X i) (K i)).
Proof using Type. intros Hi. unfold blocks. by rewrite list_lookup_fmap, lookup_seq_lt. Qed.
Lemma blocks_insert C P X K i c p x k : (i < n)%nat ->
  <[i := mkFBlk c p x k]> (blocks C P X K) = blocks (<[i := c]> C) (<[i := p]> P) (<[i := x]> X) (<[i := k]> K).
Proof using Type.
  intros Hi. apply list_eq. intros j. destruct (decide (j < n)%nat) as [Hj|Hj].
  - rewrite (blocks_lookup _ _ _ _ j Hj). destruct (decide (i = j)) as [<-|Hne].
    + rewrite list_lookup_insert_eq by (by rewrite blocks_length). by rewrite !fn_lookup_insert.
    + rewrite list_lookup_insert_ne, blocks_lookup by done. by rewrite !fn_lookup_insert_ne.
  - rewrite !lookup_ge_None_2; [done|rewrite blocks_length; lia|rewrite length_insert, blocks_length; lia].
Qed.
(** Only the values below [n] matter. *)
Lemma blocks_ext C P X K C' P' X' K' : (forall i, (i < n)%nat -> C i = C' i /\ P i = P' i /\ X i = X' i /\ K i = K' i) ->
  blocks C P X K = blocks C' P' X' K'.
Proof using Type. intros H. apply list_fmap_ext. intros k i [-> Hk]%lookup_seq. by destruct (H (0 + k)%nat Hk) as (-> & -> & -> & ->). Qed.

Lemma deref_run C P X K B h e i : (i < n)%nat -> deref (Some i) (st C P X K B h e) = Ok (mkFBlk (C i) (P i) (X i) (K i), st C P X K B h e).
Proof using Type. intros Hi. unfold deref, gets, mbind, M_bind. cbn [fa_blks st]. by rewrite blocks_lookup. Qed.

Lemma assign_run C P X K B h e i f c p x k : (i < n)%nat -> f (mkFBlk (C i) (P i) (X i) (K i)) = mkFBlk c p x k ->
  assign (Some i) f (st C P X K B h e) = Ok (tt, st (<[i := c]> C) (<[i := p]> P) (<[i := x]> X) (<[i := k]> K) B h e).
Proof using Type.
  intros Hi Hf. unfold assign. unfold mbind at 1, M_bind at 1. rewrite deref_run, Hf by done.
  unfold modify, set_fa_blks. cbn [fa_blks st]. by rewrite blocks_insert.
Qed.
Lemma st_ext C P X K B h e C' P' X' K' : (forall i, (i < n)%nat -> C i = C' i /\ P i = P' i /\ X i = X' i /\ K i = K' i) ->
  st C P X K B h e = st C' P' X' K' B h e.
Proof using Type. intros H. unfold st. by rewrite (blocks_ext C P X K C' P' X' K'). Qed.

(** Assigning what is there changes nothing. *)
Lemma same_insert {A} (f g : nat -> A) i j : f i = g i -> <[j := f j]> f i = g i.
Proof using Type. intros E. destruct (decide (j = i)) as [->|]; [by rewrite fn_lookup_insert|by rewrite fn_lookup_insert_ne]. Qed.

Lemma assign_prev C P X K B h e i p : (i < n)%nat -> assign (Some i) (set_prev p) (st C P X K B h e) = Ok (tt, st C (<[i := p]> P) X K B h e).
Proof using Type.
  intros Hi. rewrite (assign_run C P X K B h e i _ (C i) p (X i) (K i)) by done. do 2 f_equal. apply st_ext. intros j Hj.
  by rewrite !same_insert with (f := C) (g := C), !same_insert with (f := X) (g := X), !same_insert with (f := K) (g := K).
Qed.
Lemma assign_next C P X K B h e i p : (i < n)%nat -> assign (Some i) (set_next p) (st C P X K B h e) = Ok (tt, st C P (<[i := p]> X) K B h e).
Proof using Type.
  intros Hi. rewrite (assign_run C P X K B h e i _ (C i) (P i) p (K i)) by done. do 2 f_equal. apply st_ext. intros j Hj.
  by rewrite !same_insert with (f := C) (g := C), !same_insert with (f := P) (g := P), !same_insert with (f := K) (g := K).
Qed.
Lemma assign_mask C P X K B h e i f k : (i < n)%nat -> f (mkFBlk (C i) (P i) (X i) (K i)) = mkFBlk (C i) (P i) (X i) k ->
  assign (Some i) f (st C P X K B h e) = Ok (tt, st C P X (<[i := k]> K) B h e).
Proof using Type.
  intros Hi Hf. rewrite (assign_run C P X K B h e i _ (C i) (P i) (X i) k) by done. do 2 f_equal. apply st_ext. intros j Hj.
  by rewrite !same_insert with (f := C) (g := C), !same_insert with (f := P) (g := P), !same_insert with (f := X) (g := X).
Qed.
Lemma assign_blk C P X K B h e i c : (i < n)%nat -> assign (Some i) (set_fb_blk c) (st C P X K B h e) = Ok (tt, st (<[i := c]> C) P X K B h e).
Proof using Type.
  intros Hi. rewrite (assign_run C P X K B h e i _ c (P i) (X i) (K i)) by done. do 2 f_equal. apply st_ext. intros j Hj.
  by rewrite !same_insert with (f := P) (g := P), !same_insert with (f := X) (g := X), !same_insert with (f := K) (g := K).
Qed.
Lemma boundary_run C P X K B h e i p : B !! i = Some p -> boundary i (st C P X K B h e) = Ok (p, st C P X K B h e).
Proof using Type. intros Hi. unfold boundary, gets, mbind, M_bind. cbn [cacheTracking st boundaries set_boundaries]. by rewrite Hi. Qed.
Lemma set_boundary_run C P X K B h e i p : (i < length B)%nat -> set_boundary i p (st C P X K B h e) = Ok (tt, st C P X K (<[i := p]> B) h e).
Proof using Type.
  intros Hi. unfold set_boundary, gets, mbind, M_bind. cbn [cacheTracking st boundaries set_boundaries].
  by rewrite (proj2 (Nat.ltb_lt _ _) Hi).
Qed.
End Runs.

(** * The tracked caches *)

(** ** Single bits *)

Lemma one_bit a m : negb (Z.land (Z.shiftl 1 (Z.of_nat a)) m =? 0) = Z.testbit m (Z.of_nat a).
Proof. rewrite Z.land_comm, Z.shiftl_1_l. apply land_bit. lia. Qed.
Lemma clear_bit m a y : Z.testbit (Z.ldiff m (Z.shiftl 1 (Z.of_nat a))) (Z.of_nat y) = Z.testbit m (Z.of_nat y) && negb (a =? y)%nat.
Proof.
  rewrite Z.ldiff_spec, Z.shiftl_1_l, Z.pow2_bits_eqb by lia. do 2 f_equal. destruct (Z.eqb_spec (Z.of_nat a) (Z.of_nat y)), (Nat.eqb_spec a y); (done || lia).
Qed.
Lemma add_bit m a y : Z.testbit (Z.lor m (Z.shiftl 1 (Z.of_nat a))) (Z.of_nat y) = Z.testbit m (Z.of_nat y) || (a =? y)%nat.
Proof.
  rewrite Z.lor_spec, Z.shiftl_1_l, Z.pow2_bits_eqb by lia. f_equal. destruct (Z.eqb_spec (Z.of_nat a) (Z.of_nat y)), (Nat.eqb_spec a y); (done || lia).
Qed.

Section Tracking.
Context (n T N0 : nat).
Definition cap (i : nat) : nat := (N0 * 2 ^ i)%nat.
Implicit Types l : list nat.
Implicit Types K : nat -> Z.
Implicit Types B : list (option nat).

(** The tracked caches have at least two blocks and fewer than there are. *)
Record sizes_ok : Prop := {
  sz_two : (2 <= N0)%nat;
  sz_less i : (i < T)%nat -> (cap i < n)%nat
}.
Lemma cap_two i : sizes_ok -> (2 <= cap i)%nat.
Proof using Type. intros [H _]. unfold cap. pose proof (Nat.pow_nonzero 2 i). nia. Qed.

Definition fits (k y : nat) : bool := (y <? T)%nat && (k <? cap y)%nat.

Record tracks l K B : Prop := {
  tr_mask k i y : l !! k = Some i -> Z.testbit (K i) (Z.of_nat y) = fits k y;
  tr_len : length B = T;
  tr_bound y : (y < T)%nat -> B !! y = Some (l !! (cap y - 1)%nat)
}.

(** *** Half-way through a move

    The first [a] caches have been brought up to date: they see the list [l']
    and the positions [pos]; the moved block is left out. *)
Record midway (a : nat) l l' (b : nat) (pos : nat -> nat) K B : Prop := {
  mw_mask j i y : l !! j = Some i -> i <> b ->
    Z.testbit (K i) (Z.of_nat y) = fits (if (y <? a)%nat then pos j else j) y;
  mw_len : length B = T;
  mw_bound y : (y < T)%nat -> B !! y = Some ((if (y <? a)%nat then l' else l) !! (cap y - 1)%nat)
}.

Lemma midway_start l l' b pos K B : tracks l K B -> midway 0 l l' b pos K B.
Proof using Type. intros [H1 H2 H3]. split; [intros j i y Hj _; by apply H1|done|done]. Qed.

Lemma midway_end l l' b pos K B m : midway T l l' b pos K B ->
  (forall k i, l' !! k = Some i -> i <> b -> exists j, l !! j = Some i /\ pos j = k) ->
  (forall k y, l' !! k = Some b -> Z.testbit m (Z.of_nat y) = fits k y) -> tracks l' (<[b := m]> K) B.
Proof using Type.
  intros [H1 H2 H3] Hpos Hm. split; [|done|].
  - intros k i y Hk. destruct (decide (b = i)) as [<-|Hne]; [rewrite fn_lookup_insert; by apply Hm|].
    rewrite fn_lookup_insert_ne by done. destruct (Hpos k i Hk ltac:(done)) as (j & Hj & <-). rewrite (H1 j i y) by done.
    unfold fits. by destruct (y <? T)%nat eqn:E.
  - intros y Hy. rewrite (H3 y Hy). by rewrite (proj2 (Nat.ltb_lt y T) Hy).
Qed.

(** One more cache: bit [a] of one block may change, and its boundary moves. *)
Lemma midway_next a l l' b pos K B K' p : (a < T)%nat -> midway a l l' b pos K B ->
  (forall i y, i <> b -> y <> a -> Z.testbit (K' i) (Z.of_nat y) = Z.testbit (K i) (Z.of_nat y)) ->
  (forall j i, l !! j = Some i -> i <> b -> Z.testbit (K i) (Z.of_nat a) = (j <? cap a)%nat -> Z.testbit (K' i) (Z.of_nat a) = (pos j <? cap a)%nat) ->
  l' !! (cap a - 1)%nat = p -> midway (S a) l l' b pos K' (<[a := p]> B).
Proof using Type.
  intros Ha [H1 H2 H3] Hsame Hbit Hp. split.
  - intros j i y Hj Hi. destruct (decide (y = a)) as [->|Hne].
    + rewrite (proj2 (Nat.ltb_lt a (S a))) by lia. unfold fits. rewrite (proj2 (Nat.ltb_lt a T)) by done. simpl. apply Hbit; [done|done|].
      rewrite (H1 j i a Hj Hi). rewrite Nat.ltb_irrefl. unfold fits. by rewrite (proj2 (Nat.ltb_lt a T)).
    + rewrite (Hsame i y Hi Hne), (H1 j i y Hj Hi). do 2 f_equal. destruct (Nat.ltb_spec y a), (Nat.ltb_spec y (S a)); (done || lia).
  - by rewrite length_insert.
  - intros y Hy. destruct (decide (y = a)) as [->|Hne].
    + rewrite list_lookup_insert_eq by lia. by rewrite (proj2 (Nat.ltb_lt a (S a))), Hp by lia.
    + rewrite list_lookup_insert_ne, (H3 y Hy) by done. do 2 f_equal. destruct (Nat.ltb_spec y a), (Nat.ltb_spec y (S a)); (done || lia).
Qed.
Lemma midway_keep a l l' b pos K B : (a < T)%nat -> midway a l l' b pos K B ->
  (forall j i, l !! j = Some i -> i <> b -> (pos j <? cap a) = (j <? cap a))%nat ->
  l' !! (cap a - 1)%nat = l !! (cap a - 1)%nat -> midway (S a) l l' b pos K B.
Proof using Type.
  intros Ha Hm Hpos Hl. rewrite <- (list_insert_id B a (l' !! (cap a - 1)%nat)).
  - apply (midway_next a l l' b pos K B K); [done|done|done| |done]. intros j i Hj Hi ->. symmetry. by eapply Hpos.
  - rewrite (mw_bound _ _ _ _ _ _ _ Hm a Ha), Nat.ltb_irrefl. by rewrite Hl.
Qed.

(** New positions. *)
Definition front_pos (k j : nat) : nat := if (j <? k)%nat then S j else j.
Definition back_pos (k j : nat) : nat := if (k <? j)%nat then (j - 1)%nat else j.
Lemma front_pos_spec l k b j i : NoDup l -> l !! k = Some b -> to_front k b l !! j = Some i -> i <> b ->
  exists j', l !! j' = Some i /\ front_pos k j' = j.
Proof using Type.
  intros Hn Hk Hj Hi. rewrite front_lookup in Hj. unfold front_pos. repeat case_decide; simplify_eq.
  - exists (j - 1)%nat. split; [done|]. rewrite (proj2 (Nat.ltb_lt _ _)) by lia. lia.
  - exists j. split; [done|]. by rewrite (proj2 (Nat.ltb_ge _ _)) by lia.
Qed.
Lemma back_pos_spec l k b j i : l !! k = Some b -> to_back k b l !! j = Some i -> i <> b ->
  exists j', l !! j' = Some i /\ back_pos k j' = j.
Proof using Type.
  intros Hk Hj Hi. rewrite back_lookup in Hj by (by eapply lookup_lt_Some). unfold back_pos. repeat case_decide; simplify_eq.
  - exists j. split; [done|]. by rewrite (proj2 (Nat.ltb_ge _ _)) by lia.
  - exists (S j). split; [done|]. rewrite (proj2 (Nat.ltb_lt _ _)) by lia. lia.
Qed.

(** ** The loops *)

Section Loops.
Context (t0 : FALRU) (C : nat -> CacheBlk) (P X : nat -> option nat) (h e : option nat) (l : list nat) (k b : nat).
Context (Hsz : sizes_ok) (Hord : ordered n l P X h e) (Hb : l !! k = Some b).
Abbreviation state K B := (st t0 n C P X K B h e).

Lemma block_at j : (j < n)%nat -> exists i, l !! j = Some i /\ (i < n)%nat.
Proof using Hord.
  intros Hj. destruct (lookup_lt_is_Some_2 l j) as [i Hi]; [rewrite (perm_length n l (o_perm _ _ _ _ _ _ Hord)); done|].
  exists i. split; [done|]. by eapply perm_bound; [apply Hord|].
Qed.
Abbreviation Hnd := (perm_nodup n l (o_perm _ _ _ _ _ _ Hord)).
Lemma k_bound : (k < n)%nat.
Proof using Hord Hb. rewrite <- (perm_length n l (o_perm _ _ _ _ _ _ Hord)). by eapply lookup_lt_Some. Qed.

Section Head.
Context (Hk : (0 < k)%nat).
Abbreviation l' := (to_front k b l).
Context (u : Z) (Hu : forall y, (y < T)%nat -> Z.testbit u (Z.of_nat y) = negb (k <? cap y)%nat).

Lemma head_step a K B : (a < T)%nat -> midway a l l' b (front_pos k) K B -> exists K' B',
  (let current_cache_mask := Z.shiftl 1 (Z.of_nat a) in
   x ← boundary a;
   if negb (Z.land current_cache_mask u =? 0) then
     assign x (fun b => set_mask (Z.ldiff (inCachesMask b) current_cache_mask) b);;
     y ← deref x; set_boundary a (prev y)
   else if bool_decide (x = Some b) then b ← deref (Some b); set_boundary a (prev b)
   else mret tt) (state K B) = Ok (tt, state K' B') /\ midway (S a) l l' b (front_pos k) K' B'.
Proof using Hsz Hord Hb Hk Hu.
  intros Ha Hm. pose proof (cap_two a Hsz) as H2. pose proof (sz_less Hsz a Ha) as Hlt. pose proof k_bound as Hkn.
  destruct (block_at (cap a - 1)%nat ltac:(lia)) as (x & Hx & Hxn).
  assert (B !! a = Some (Some x)) as HB by (rewrite (mw_bound _ _ _ _ _ _ _ Hm a Ha), Nat.ltb_irrefl; by rewrite Hx).
  assert (a < length B)%nat as HaB by (by rewrite (mw_len _ _ _ _ _ _ _ Hm)).
  assert (P x = before l (cap a - 1)%nat) as HPx by (by apply (o_prev _ _ _ _ _ _ Hord)).
  cbv zeta. unfold mbind at 1, M_bind at 1. rewrite (boundary_run _ _ _ _ _ _ _ _ _ _ (Some x) HB), one_bit, (Hu a Ha).
  destruct (Nat.ltb_spec k (cap a)) as [Hfit|Hfit]; cbn [negb]; cbv iota.
  - case_bool_decide as Ex.
    + injection Ex as ->. assert (cap a - 1 = k)%nat as Ek by (by eapply NoDup_lookup; [apply Hnd| |]). unfold mbind at 1, M_bind at 1.
      rewrite deref_run by done. cbn [prev]. rewrite set_boundary_run by done. exists K, (<[a := P b]> B). split; [done|].
      eapply midway_next; [done|exact Hm|done| |].
      * intros j i Hj Hi ->. unfold front_pos. destruct (Nat.ltb_spec j k), (Nat.ltb_spec j (cap a)); destruct (Nat.ltb_spec (S j) (cap a)); try done; lia.
      * rewrite HPx, Ek, front_lookup, decide_False, decide_True by lia. destruct k; [lia|]. simpl. by rewrite Nat.sub_0_r.
    + exists K, B. split; [done|]. assert (cap a - 1 <> k)%nat as Ek by (intros E; rewrite E in Hx; congruence). apply midway_keep; [done|done| |].
      * intros j i Hj Hi. unfold front_pos. destruct (Nat.ltb_spec j k); [|done]. destruct (Nat.ltb_spec j (cap a)); destruct (Nat.ltb_spec (S j) (cap a)); try done; lia.
      * by rewrite front_lookup, !decide_False by lia.
  - unfold mbind at 1, M_bind at 1. rewrite (assign_mask _ _ _ _ _ _ _ _ _ x _ (Z.ldiff (K x) (Z.shiftl 1 (Z.of_nat a)))) by done.
    unfold mbind at 1, M_bind at 1. rewrite deref_run by done. cbn [prev]. rewrite set_boundary_run by done.
    eexists _, (<[a := P x]> B). split; [done|]. eapply midway_next; [done|exact Hm| | |].
    + intros i y Hi Hy. destruct (decide (x = i)) as [<-|]; [|by rewrite fn_lookup_insert_ne].
      rewrite fn_lookup_insert, clear_bit. destruct (Nat.eqb_spec a y); [congruence|]. by rewrite andb_true_r.
    + intros j i Hj Hi Hbit. unfold front_pos. destruct (decide (x = i)) as [<-|Hne].
      * assert (j = cap a - 1)%nat as -> by (by eapply NoDup_lookup; [apply Hnd| |]).
        rewrite fn_lookup_insert, clear_bit, Nat.eqb_refl, andb_false_r. rewrite (proj2 (Nat.ltb_lt _ k)) by lia. symmetry. apply Nat.ltb_ge. lia.
      * rewrite fn_lookup_insert_ne, Hbit by done. assert (j <> cap a - 1)%nat by (intros ->; congruence).
        destruct (Nat.ltb_spec j k); [|done]. destruct (Nat.ltb_spec j (cap a)), (Nat.ltb_spec (S j) (cap a)); try done; lia.
    + rewrite HPx, front_lookup, decide_False, decide_True by lia. destruct (cap a - 1)%nat eqn:E; [lia|]. simpl. by rewrite Nat.sub_0_r.
Qed.

Lemma head_loop m a K B : (a + m = T)%nat -> midway a l l' b (front_pos k) K B -> exists K' B',
  forM_ (seq a m) (fun i =>
    let current_cache_mask := Z.shiftl 1 (Z.of_nat i) in
    x ← boundary i;
    if negb (Z.land current_cache_mask u =? 0) then
      assign x (fun b => set_mask (Z.ldiff (inCachesMask b) current_cache_mask) b);;
      y ← deref x; set_boundary i (prev y)
    else if bool_decide (x = Some b) then b ← deref (Some b); set_boundary i (prev b)
    else mret tt) (state K B) = Ok (tt, state K' B') /\ midway T l l' b (front_pos k) K' B'.
Proof using Hsz Hord Hb Hk Hu.
  revert a K B. induction m as [|m IH]; intros a K B Ha Hm.
  { replace a with T in Hm by lia. by exists K, B. }
  destruct (head_step a K B ltac:(lia) Hm) as (K1 & B1 & Hrun & Hm1). destruct (IH (S a) K1 B1 ltac:(lia) Hm1) as (K2 & B2 & Hrun2 & Hm2).
  exists K2, B2. split; [|done]. cbn [seq forM_]. unfold mbind at 1, M_bind at 1. cbv zeta in Hrun |- *. rewrite Hrun. exact Hrun2.
Qed.
End Head.

Section Tail.
Context (Hk : (S k < n)%nat).
Abbreviation l' := (to_back k b l).
Context (u : Z) (Hu : forall y, (y < T)%nat -> Z.testbit u (Z.of_nat y) = (k <? cap y)%nat).

Lemma tail_step a K B : (a < T)%nat -> midway a l l' b (back_pos k) K B -> exists K' B',
  (let current_cache_mask := Z.shiftl 1 (Z.of_nat a) in
   when_ (negb (Z.land current_cache_mask u =? 0))
     (x ← boundary a; y ← deref x; set_boundary a (next y);;
      z ← boundary a;
      (if bool_decide (z = Some b) then b ← deref (Some b); set_boundary a (next b) else mret tt);;
      z ← boundary a;
      assign z (fun b => set_mask (Z.lor (inCachesMask b) current_cache_mask) b))) (state K B)
  = Ok (tt, state K' B') /\ midway (S a) l l' b (back_pos k) K' B'.
Proof using Hsz Hord Hb Hk Hu.
  intros Ha Hm. pose proof (cap_two a Hsz) as H2. pose proof (sz_less Hsz a Ha) as Hlt.
  pose proof (perm_length n l (o_perm _ _ _ _ _ _ Hord)) as Hlen.
  destruct (block_at (cap a - 1)%nat ltac:(lia)) as (x & Hx & Hxn). destruct (block_at (cap a) ltac:(lia)) as (z & Hz & Hzn).
  assert (B !! a = Some (Some x)) as HB by (rewrite (mw_bound _ _ _ _ _ _ _ Hm a Ha), Nat.ltb_irrefl; by rewrite Hx).
  assert (a < length B)%nat as HaB by (by rewrite (mw_len _ _ _ _ _ _ _ Hm)).
  assert (X x = Some z) as HXx by (rewrite (o_next _ _ _ _ _ _ Hord _ _ Hx), <- Hz; f_equal; lia).
  cbv zeta. rewrite one_bit, (Hu a Ha). unfold when_. destruct (Nat.ltb_spec k (cap a)) as [Hfit|Hfit].
  - assert (z <> b) as Hzb by (intros ->; assert (cap a = k) by (by eapply NoDup_lookup; [apply Hnd| |]); lia).
    unfold mbind at 1, M_bind at 1. rewrite (boundary_run _ _ _ _ _ _ _ _ _ _ (Some x) HB). unfold mbind at 1, M_bind at 1.
    rewrite deref_run by done. cbn [next]. unfold mbind at 1, M_bind at 1. rewrite set_boundary_run, HXx by done.
    assert (<[a := Some z]> B !! a = Some (Some z)) as HB' by (by apply list_lookup_insert_eq).
    unfold mbind at 1, M_bind at 1. rewrite (boundary_run _ _ _ _ _ _ _ _ _ _ (Some z) HB'). unfold mbind at 1, M_bind at 1.
    rewrite bool_decide_eq_false_2 by congruence. unfold mret, M_ret. unfold mbind at 1, M_bind at 1.
    rewrite (boundary_run _ _ _ _ _ _ _ _ _ _ (Some z) HB').
    rewrite (assign_mask _ _ _ _ _ _ _ _ _ z _ (Z.lor (K z) (Z.shiftl 1 (Z.of_nat a)))) by done.
    eexists _, _. split; [done|]. eapply midway_next; [done|exact Hm| | |].
    + intros i y Hi Hy. destruct (decide (z = i)) as [<-|]; [|by rewrite fn_lookup_insert_ne].
      rewrite fn_lookup_insert, add_bit. destruct (Nat.eqb_spec a y); [congruence|]. by rewrite orb_false_r.
    + intros j i Hj Hi Hbit. unfold back_pos. destruct (decide (z = i)) as [<-|Hne].
      * assert (j = cap a)%nat as -> by (by eapply NoDup_lookup; [apply Hnd| |]).
        rewrite fn_lookup_insert, add_bit, Nat.eqb_refl, orb_true_r. rewrite (proj2 (Nat.ltb_lt k _)) by lia. symmetry. apply Nat.ltb_lt. lia.
      * rewrite fn_lookup_insert_ne, Hbit by done. assert (j <> cap a)%nat by (intros ->; congruence).
        destruct (Nat.ltb_spec k j); [|done]. destruct (Nat.ltb_spec j (cap a)), (Nat.ltb_spec (j - 1) (cap a)); try done; lia.
    + rewrite back_lookup, Hlen by lia. rewrite decide_False, decide_True by lia. rewrite <- Hz. f_equal. lia.
  - exists K, B. split; [done|]. apply midway_keep; [done|done| |].
    + intros j i Hj Hi. unfold back_pos. destruct (Nat.ltb_spec k j); [|done]. destruct (Nat.ltb_spec j (cap a)), (Nat.ltb_spec (j - 1) (cap a)); try done; lia.
    + by rewrite back_lookup, decide_True by lia.
Qed.

Lemma tail_loop m a K B : (a + m = T)%nat -> midway a l l' b (back_pos k) K B -> exists K' B',
  forM_ (seq a m) (fun i =>
    let current_cache_mask := Z.shiftl 1 (Z.of_nat i) in
    when_ (negb (Z.land current_cache_mask u =? 0))
      (x ← boundary i; y ← deref x; set_boundary i (next y);;
       z ← boundary i;
       (if bool_decide (z = Some b) then b ← deref (Some b); set_boundary i (next b) else mret tt);;
       z ← boundary i;
       assign z (fun b => set_mask (Z.lor (inCachesMask b) current_cache_mask) b))) (state K B)
  = Ok (tt, state K' B') /\ midway T l l' b (back_pos k) K' B'.
Proof using Hsz Hord Hb Hk Hu.
  revert a K B. induction m as [|m IH]; intros a K B Ha Hm.
  { replace a with T in Hm by lia. by exists K, B. }
  destruct (tail_step a K B ltac:(lia) Hm) as (K1 & B1 & Hrun & Hm1). destruct (IH (S a) K1 B1 ltac:(lia) Hm1) as (K2 & B2 & Hrun2 & Hm2).
  exists K2, B2. split; [|done]. cbn [seq forM_]. unfold mbind at 1, M_bind at 1. cbv zeta in Hrun |- *. rewrite Hrun. exact Hrun2.
Qed.
End Tail.

Context (HT : Z.to_nat (numTrackedCaches (cacheTracking t0)) = T).
Context (Hall : forall y : nat, Z.testbit (inAllCachesMask (cacheTracking t0)) (Z.of_nat y) = (y <? T)%nat).

Lemma moveBlockToHead_run K B : (0 < k)%nat -> tracks l K B -> exists K' B',
  moveBlockToHead (Some b) (state K B) = Ok (tt, state K' B') /\ tracks (to_front k b l) K' B'.
Proof using Hsz Hord Hb HT Hall.
  intros Hk Htr. pose proof (perm_bound n l k b (o_perm _ _ _ _ _ _ Hord) Hb) as Hbn.
  destruct (head_loop Hk (Z.lxor (inAllCachesMask (cacheTracking t0)) (K b))) with (m := T) (a := 0%nat) (K := K) (B := B)
    as (K' & B' & Hrun & Hm); [|done|by apply midway_start|].
  { intros y Hy. rewrite Z.lxor_spec, Hall, (tr_mask _ _ _ Htr k b y Hb). unfold fits. rewrite (proj2 (Nat.ltb_lt y T) Hy).
    by destruct (k <? cap y)%nat. }
  exists (<[b := inAllCachesMask (cacheTracking t0)]> K'), B'. split.
  - unfold moveBlockToHead. unfold mbind at 1, M_bind at 1. rewrite deref_run by done. unfold mbind at 1, M_bind at 1, gets.
    cbn [inCachesMask]. cbv zeta. cbn [cacheTracking st numTrackedCaches inAllCachesMask set_boundaries]. rewrite HT.
    unfold mbind at 1, M_bind at 1. cbv zeta in Hrun. rewrite Hrun. by rewrite (assign_mask _ _ _ _ _ _ _ _ _ b _ (inAllCachesMask (cacheTracking t0))).
  - eapply midway_end; [exact Hm| |].
    + intros j i Hj Hi. by eapply front_pos_spec; [apply Hnd| | |].
    + intros j y Hj. rewrite Hall. assert (j = 0%nat) as ->.
      { eapply NoDup_lookup; [eapply perm_nodup, (to_front_perm n l k b); [apply Hord|done]|exact Hj|done]. }
      unfold fits. pose proof (cap_two y Hsz). rewrite (proj2 (Nat.ltb_lt 0 (cap y))) by lia. by rewrite andb_true_r.
Qed.

Lemma moveBlockToTail_run K B : (S k < n)%nat -> tracks l K B -> exists K' B',
  moveBlockToTail (Some b) (state K B) = Ok (tt, state K' B') /\ tracks (to_back k b l) K' B'.
Proof using Hsz Hord Hb HT Hall.
  intros Hk Htr. pose proof (perm_bound n l k b (o_perm _ _ _ _ _ _ Hord) Hb) as Hbn.
  pose proof (perm_length n l (o_perm _ _ _ _ _ _ Hord)) as Hlen.
  destruct (tail_loop Hk (K b)) with (m := T) (a := 0%nat) (K := K) (B := B) as (K' & B' & Hrun & Hm); [|done|by apply midway_start|].
  { intros y Hy. rewrite (tr_mask _ _ _ Htr k b y Hb). unfold fits. by rewrite (proj2 (Nat.ltb_lt y T) Hy). }
  exists (<[b := 0]> K'), B'. split.
  - unfold moveBlockToTail. unfold mbind at 1, M_bind at 1. rewrite deref_run by done. unfold mbind at 1, M_bind at 1, gets.
    cbn [inCachesMask]. cbv zeta. cbn [cacheTracking st numTrackedCaches inAllCachesMask set_boundaries]. rewrite HT.
    unfold mbind at 1, M_bind at 1. cbv zeta in Hrun. rewrite Hrun. by rewrite (assign_mask _ _ _ _ _ _ _ _ _ b _ 0).
  - eapply midway_end; [exact Hm| |].
    + intros j i Hj Hi. by eapply back_pos_spec.
    + intros j y Hj. rewrite Z.bits_0. assert (j = n - 1)%nat as ->.
      { eapply NoDup_lookup; [eapply perm_nodup, (to_back_perm n l k b); [apply Hord|done]|exact Hj|].
        rewrite back_lookup, Hlen by lia. by rewrite !decide_False, decide_True by lia. }
      unfold fits. destruct (Nat.ltb_spec y T) as [Hy|]; [|done]. pose proof (sz_less Hsz y Hy). symmetry. apply Nat.ltb_ge. lia.
Qed.
End Loops.
End Tracking.
