(* ===== verification/FALRUProps.v ===== *)
(** * Correctness of the fully associative tags

    The tags represent a stack of keys (tag and security of a block) from the
    most to the least recently used one.  Lookups, insertions and invalidations
    run without a failure and do to the stack what an LRU cache does.  Then the
    set-up: [tagsInit] threads the blocks on the list and marks the boundaries of
    the tracked caches; [CacheTracking::check] walks the same way and compares.
    Both see the same sizes and masks, which [walk_at] describes. *)

From stdpp Require Import functions.
From S2P Require Import Prelude IntMath Bitfield Hoare EventQ Packet Request PacketData CacheBlk ReplPolicy Indexing Tags TagsProps FALRU FALRUList.

Section Moves.
Context (n T N0 : nat) (t0 : FALRU).
Context (Hsz : sizes_ok n T N0).
Context (HT : Z.to_nat (numTrackedCaches (cacheTracking t0)) = T).
Context (Hall : forall y : nat, Z.testbit (inAllCachesMask (cacheTracking t0)) (Z.of_nat y) = (y <? T)%nat).
Implicit Types (C : nat -> CacheBlk) (P X : nat -> option nat) (K : nat -> Z) (B : list (option nat)) (h e : option nat).

Lemma set_head_run C P X K B h e p : set_head p (st t0 n C P X K B h e) = Ok (tt, st t0 n C P X K B p e).
Proof using Type. done. Qed.
Lemma set_tail_run C P X K B h e p : set_tail p (st t0 n C P X K B h e) = Ok (tt, st t0 n C P X K B h p).
Proof using Type. done. Qed.

Lemma moveToHead_run C P X K B h e l k b : ordered n l P X h e -> tracks T N0 l K B -> l !! k = Some b -> exists P' X' K' B' h' e',
  moveToHead (Some b) (st t0 n C P X K B h e) = Ok (tt, st t0 n C P' X' K' B' h' e')
  /\ ordered n (to_front k b l) P' X' h' e' /\ tracks T N0 (to_front k b l) K' B'.
Proof using Hsz HT Hall.
  intros Hord Htr Hb. pose proof (o_perm _ _ _ _ _ _ Hord) as Hp. pose proof (perm_nodup n l Hp) as Hnd. pose proof (perm_length n l Hp) as Hlen.
  pose proof (perm_bound n l k b Hp Hb) as Hbn. assert (k < n)%nat as Hkn by (rewrite <- Hlen; by eapply lookup_lt_Some).
  unfold moveToHead. erewrite bind_run by reflexivity. cbn [fa_head st]. rewrite (o_head _ _ _ _ _ _ Hord). case_bool_decide as Eh; unfold when_; cbn [negb].
  { assert (k = 0%nat) as -> by (by eapply NoDup_lookup). exists P, X, K, B, h, e. rewrite <- (o_head _ _ _ _ _ _ Hord).
    assert (to_front 0 b l = l) as -> by (destruct l; [done|]; by injection Hb as ->). done. }
  assert (0 < k)%nat as Hk by (destruct k; [congruence|lia]).
  destruct (lookup_lt_is_Some_2 l 0%nat) as [h0 Hh0]; [lia|]. pose proof (perm_bound n l 0 h0 Hp Hh0) as Hhn.
  destruct (lookup_lt_is_Some_2 l (k - 1)%nat) as [x Hx]; [lia|]. pose proof (perm_bound n l _ x Hp Hx) as Hxn.
  assert (P b = Some x) as HPb by (rewrite (o_prev _ _ _ _ _ _ Hord k b Hb), <- Hx; destruct k; [lia|]; simpl; f_equal; lia).
  assert (X b = l !! S k) as HXb by (by apply Hord).
  destruct (moveBlockToHead_run n T N0 t0 C P X h e l k b Hsz Hord Hb HT Hall K B Hk Htr) as (K' & B' & Hrun & Htr').
  pose proof (ordered_front n l P X h e k b h0 x Hord Hb Hk ltac:(by rewrite (o_head _ _ _ _ _ _ Hord)) HPb) as Hord'.
  assert (h = Some h0) as -> by (by rewrite (o_head _ _ _ _ _ _ Hord)).
  assert (b <> x) as Hbx by (intros ->; assert (k = k - 1)%nat by (by eapply NoDup_lookup); lia).
  rewrite Hh0. erewrite bind_run by exact Hrun. erewrite bind_run by reflexivity. cbn [fa_tail st].
  erewrite bind_run by (by apply deref_run). cbn [prev next]. rewrite HPb, HXb in *. rewrite (o_tail _ _ _ _ _ _ Hord) in *.
  exists (<[h0 := Some b]> (<[b := None]> (match l !! S k with Some y => <[y := Some x]> P | None => P end))),
    (<[b := Some h0]> (<[x := l !! S k]> X)), K', B', (Some b), (if decide (k = n - 1)%nat then Some x else l !! (n - 1)%nat).
  split; [|done]. case_bool_decide as Ee.
  - assert (k = n - 1)%nat as -> by (by eapply NoDup_lookup). rewrite decide_True by done.
    assert (l !! S (n - 1) = None) as En by (apply lookup_ge_None; lia). rewrite En in *. rewrite bool_decide_eq_true_2 by done.
    erewrite bind_run; [|erewrite bind_run by reflexivity; erewrite bind_run by apply set_tail_run; by apply assign_next].
    erewrite bind_run by (by apply assign_next). erewrite bind_run by (by apply assign_prev). erewrite bind_run by (by apply assign_prev). done.
  - rewrite decide_False by (intros ->; congruence). destruct (lookup_lt_is_Some_2 l (S k)) as [y Hy].
    { assert (k <> n - 1)%nat by (intros ->; congruence). lia. }
    pose proof (perm_bound n l _ y Hp Hy) as Hyn. rewrite Hy in *.
    erewrite bind_run; [|erewrite bind_run by (by apply assign_next); by apply assign_prev].
    erewrite bind_run by (by apply assign_next). erewrite bind_run by (by apply assign_prev). erewrite bind_run by (by apply assign_prev). done.
Qed.

Lemma moveToTail_run C P X K B h e l k b : ordered n l P X h e -> tracks T N0 l K B -> l !! k = Some b -> exists P' X' K' B' h' e',
  moveToTail (Some b) (st t0 n C P X K B h e) = Ok (tt, st t0 n C P' X' K' B' h' e')
  /\ ordered n (to_back k b l) P' X' h' e' /\ tracks T N0 (to_back k b l) K' B'.
Proof using Hsz HT Hall.
  intros Hord Htr Hb. pose proof (o_perm _ _ _ _ _ _ Hord) as Hp. pose proof (perm_nodup n l Hp) as Hnd. pose proof (perm_length n l Hp) as Hlen.
  pose proof (perm_bound n l k b Hp Hb) as Hbn. assert (k < n)%nat as Hkn by (rewrite <- Hlen; by eapply lookup_lt_Some).
  unfold moveToTail. erewrite bind_run by reflexivity. cbn [fa_tail st]. rewrite (o_tail _ _ _ _ _ _ Hord). case_bool_decide as Ee; unfold when_; cbn [negb].
  { assert (k = n - 1)%nat as -> by (by eapply NoDup_lookup). exists P, X, K, B, h, e. rewrite <- (o_tail _ _ _ _ _ _ Hord).
    assert (to_back (n - 1) b l = l) as ->; [|done]. apply list_eq. intros j. rewrite back_lookup, Hlen by lia.
    repeat case_decide; [done|lia|by replace j with (n - 1)%nat by lia|symmetry; apply lookup_ge_None; lia]. }
  assert (S k < n)%nat as Hk by (assert (k <> n - 1)%nat by (intros ->; congruence); lia).
  destruct (lookup_lt_is_Some_2 l (n - 1)%nat) as [e0 He0]; [lia|]. pose proof (perm_bound n l _ e0 Hp He0) as Hen.
  destruct (lookup_lt_is_Some_2 l (S k)) as [y Hy]; [lia|]. pose proof (perm_bound n l _ y Hp Hy) as Hyn.
  assert (X b = Some y) as HXb by (by rewrite (o_next _ _ _ _ _ _ Hord k b Hb)).
  assert (P b = before l k) as HPb by (by apply Hord).
  destruct (moveBlockToTail_run n T N0 t0 C P X h e l k b Hsz Hord Hb HT Hall K B Hk Htr) as (K' & B' & Hrun & Htr').
  pose proof (ordered_back n l P X h e k b e0 y Hord Hb Hk ltac:(by rewrite (o_tail _ _ _ _ _ _ Hord)) HXb) as Hord'.
  assert (e = Some e0) as -> by (by rewrite (o_tail _ _ _ _ _ _ Hord)).
  rewrite He0. erewrite bind_run by exact Hrun. erewrite bind_run by reflexivity. cbn [fa_head st].
  erewrite bind_run by (by apply deref_run). cbn [prev next]. rewrite HPb, HXb in *. rewrite (o_head _ _ _ _ _ _ Hord) in *.
  exists (<[b := Some e0]> (<[y := before l k]> P)),
    (<[e0 := Some b]> (<[b := None]> (match before l k with Some x => <[x := Some y]> X | None => X end))),
    K', B', (if decide (k = 0)%nat then Some y else l !! 0%nat), (Some b).
  split; [|done]. case_bool_decide as Eh.
  - assert (k = 0%nat) as -> by (by eapply NoDup_lookup). rewrite decide_True by done. cbn [before] in *. rewrite bool_decide_eq_true_2 by done.
    erewrite bind_run; [|erewrite bind_run by reflexivity; erewrite bind_run by apply set_head_run; by apply assign_prev].
    erewrite bind_run by (by apply assign_prev). erewrite bind_run by (by apply assign_next). erewrite bind_run by (by apply assign_next). done.
  - rewrite decide_False by (intros ->; congruence). destruct k as [|k]; [congruence|]. cbn [before] in *.
    destruct (lookup_lt_is_Some_2 l k) as [x Hx]; [lia|]. pose proof (perm_bound n l _ x Hp Hx) as Hxn. rewrite Hx in *.
    erewrite bind_run; [|erewrite bind_run by (by apply assign_next); by apply assign_prev].
    erewrite bind_run by (by apply assign_prev). erewrite bind_run by (by apply assign_next). erewrite bind_run by (by apply assign_next). done.
Qed.
End Moves.

(** ** The stack of keys *)

Abbreviation Key := (Z * bool)%type.
Definition key_of (c : CacheBlk) : Key := (blk_tag c, blk_isSecure c).

(** The first blocks of the list are valid and hold the keys, the others are free. *)
Record holds_keys (n : nat) (l : list nat) (C : nat -> CacheBlk) (ks : list Key) (hash : gmap Key nat) (used : Z) : Prop := {
  hk_nodup : NoDup ks;
  hk_len : (length ks <= n)%nat;
  hk_valid k i q : l !! k = Some i -> ks !! k = Some q -> blk_isValid (C i) = true /\ key_of (C i) = q;
  hk_free k i : l !! k = Some i -> ks !! k = None -> status (C i) = 0;
  hk_hash q i : hash !! q = Some i <-> exists k, ks !! k = Some q /\ l !! k = Some i;
  hk_used : used = Z.of_nat (length ks)
}.

Lemma holds_front n l C ks hash used k b q : holds_keys n l C ks hash used -> l !! k = Some b -> ks !! k = Some q ->
  holds_keys n (to_front k b l) C (to_front k q ks) hash used.
Proof.
  intros [Hnd Hlen Hv Hf Hh Hu] Hb Hq.
  assert (length (to_front k q ks) = length ks) as El.
  { unfold to_front. simpl. rewrite length_delete by done. apply lookup_lt_Some in Hq. lia. }
  split; rewrite ?El; try done.
  - unfold to_front. by rewrite <- delete_Permutation.
  - intros j i q'. rewrite !front_lookup. repeat case_decide; [intros [= <-] [= <-]; by eapply Hv|exact (Hv _ _ _)..].
  - intros j i. rewrite !front_lookup. repeat case_decide; [done|exact (Hf _ _)..].
  - intros q' i. rewrite Hh. split.
    + intros (j & Hj & Hi). destruct (decide (j = k)) as [->|Hne].
      { exists 0%nat. rewrite !front_lookup. simpl. split; congruence. }
      exists (front_pos k j). rewrite !front_lookup. unfold front_pos. destruct (Nat.ltb_spec j k).
      * repeat (case_decide; try lia). by rewrite Nat.sub_succ, Nat.sub_0_r.
      * repeat (case_decide; try lia). done.
    + intros (j & Hj & Hi). rewrite front_lookup in Hj. rewrite front_lookup in Hi. repeat case_decide; [exists k; split; congruence|eauto..].
Qed.

Lemma holds_remove n l C ks hash used k b q c : length l = n -> NoDup l -> holds_keys n l C ks hash used -> l !! k = Some b -> ks !! k = Some q -> status c = 0 ->
  holds_keys n (to_back k b l) (<[b := c]> C) (delete k ks) (delete q hash) (used - 1).
Proof.
  intros Hl Hndl [Hnd Hlen Hv Hf Hh Hu] Hb Hq Hc. pose proof (lookup_lt_Some _ _ _ Hq) as Hk.
  assert (length (delete k ks) = length ks - 1)%nat as El by (rewrite length_delete by done; lia).
  assert (forall j i, l !! j = Some i -> j <> k -> b <> i) as Hne by (intros j i Hj Hjk ->; apply Hjk; by apply (NoDup_lookup l _ _ i)).
  split; rewrite ?El; try lia.
  - rewrite delete_Permutation in Hnd by done. by apply NoDup_cons in Hnd as [_ Hnd].
  - intros j i q'. rewrite back_lookup, list_lookup_delete, Hl by lia. repeat case_decide; intros Hi Hq'; simplify_eq.
    + rewrite fn_lookup_insert_ne by (eapply Hne; [done|lia]). by eapply Hv.
    + rewrite fn_lookup_insert_ne by (eapply Hne; [done|lia]). by eapply Hv.
    + apply lookup_lt_Some in Hq'. lia.
  - intros j i. rewrite back_lookup, list_lookup_delete, Hl by lia. repeat case_decide; intros Hi Hq'; simplify_eq.
    + apply lookup_ge_None in Hq'. lia.
    + rewrite fn_lookup_insert_ne by (eapply Hne; [done|lia]). by eapply Hf.
    + by rewrite fn_lookup_insert.
  - intros q' i. rewrite lookup_delete_Some, Hh. split.
    + intros (Hqq & j & Hj & Hi). assert (j <> k) as Hjk by (intros ->; congruence). exists (back_pos k j).
      rewrite back_lookup, list_lookup_delete, Hl by lia. unfold back_pos. pose proof (lookup_lt_Some _ _ _ Hj). destruct (Nat.ltb_spec k j).
      * rewrite !decide_False, decide_True by lia. replace (S (j - 1)) with j by lia. done.
      * rewrite !decide_True by lia. done.
    + intros (j & Hj & Hi). rewrite back_lookup, Hl in Hi by lia. rewrite list_lookup_delete in Hj.
      assert (exists j', j' <> k /\ ks !! j' = Some q' /\ l !! j' = Some i) as (j' & Hj' & Hq' & Hi').
      { pose proof (lookup_lt_Some _ _ _ Hj). repeat case_decide; simplify_eq; [exists j|exists (S j)|]; (split; [lia|done]) || lia. }
      split; [|eauto]. intros ->. apply Hj'. by eapply NoDup_lookup.
Qed.

Lemma holds_insert n l C ks hash used b c q : length l = n -> NoDup l -> holds_keys n l C ks hash used -> l !! (n - 1)%nat = Some b ->
  (length ks < n)%nat -> q ∉ ks -> blk_isValid c = true -> key_of c = q ->
  holds_keys n (to_front (n - 1) b l) (<[b := c]> C) (q :: ks) (<[q := b]> hash) (used + 1).
Proof.
  intros Hl Hndl [Hnd Hlen Hv Hf Hh Hu] Hb Hk Hq Hvc Hkc.
  assert (forall j i, l !! j = Some i -> j <> (n - 1)%nat -> b <> i) as Hne by (intros j i Hj Hjk ->; apply Hjk; by apply (NoDup_lookup l _ _ i)).
  split; simpl; try lia.
  - by apply NoDup_cons.
  - intros j i q'. rewrite front_lookup. destruct j as [|j]; simpl; [intros [= <-] [= <-]; by rewrite fn_lookup_insert|].
    intros Hi Hq'. pose proof (lookup_lt_Some _ _ _ Hq'). rewrite decide_True, Nat.sub_0_r in Hi by lia.
    rewrite fn_lookup_insert_ne by (eapply Hne; [done|lia]). by eapply Hv.
  - intros j i. rewrite front_lookup. destruct j as [|j]; [done|]. simpl. rewrite Nat.sub_0_r. intros Hi Hq'. case_decide.
    + rewrite fn_lookup_insert_ne by (eapply Hne; [done|lia]). by eapply Hf.
    + apply lookup_lt_Some in Hi. lia.
  - intros q' i. destruct (decide (q = q')) as [<-|Hqq].
    + rewrite lookup_insert_eq. split; [intros [= <-]; by exists 0%nat|]. intros (j & Hj & Hi). destruct j as [|j]; [by injection Hi as ->|].
      exfalso. apply Hq. by eapply list_elem_of_lookup_2.
    + rewrite lookup_insert_ne, Hh by done. split.
      * intros (j & Hj & Hi). exists (S j). split; [done|]. rewrite front_lookup. pose proof (lookup_lt_Some _ _ _ Hj).
        rewrite decide_False, decide_True by lia. by rewrite Nat.sub_succ, Nat.sub_0_r.
      * intros (j & Hj & Hi). destruct j as [|j]; [simpl in Hj; congruence|]. simpl in Hj. exists j. split; [done|].
        rewrite front_lookup in Hi. pose proof (lookup_lt_Some _ _ _ Hj). rewrite decide_False, decide_True in Hi by lia.
        by rewrite Nat.sub_succ, Nat.sub_0_r in Hi.
Qed.

(** ** Representation *)

Record fa_conf (n T N0 : nat) (t : FALRU) : Prop := {
  cf_sizes : sizes_ok n T N0;
  cf_pos : (0 < n)%nat;
  cf_T : Z.to_nat (numTrackedCaches (cacheTracking t)) = T;
  cf_all (y : nat) : Z.testbit (inAllCachesMask (cacheTracking t)) (Z.of_nat y) = (y <? T)%nat;
  cf_hits : length (hits (cacheTracking t)) = S T;
  cf_misses : length (misses (cacheTracking t)) = S T;
  cf_nonneg : 0 <= numTrackedCaches (cacheTracking t);
  cf_bytes : 0 < ct_blkSize (cacheTracking t);
  cf_min : minTrackedSize (cacheTracking t) = Z.of_nat N0 * ct_blkSize (cacheTracking t);
  cf_fit : Z.of_nat (n `max` N0) * ct_blkSize (cacheTracking t) < 2 ^ 32;
  cf_last : (n <= cap N0 T)%nat;
  cf_grow : (0 < T)%nat -> cap N0 T = n
}.

Record fa_shape (n T N0 : nat) (t : FALRU) (ks : list Key) (l : list nat) (C : nat -> CacheBlk) (P X : nat -> option nat) (K : nat -> Z)
    (B : list (option nat)) (h e : option nat) : Prop := {
  fs_st : t = st t n C P X K B h e;
  fs_conf : fa_conf n T N0 t;
  fs_order : ordered n l P X h e;
  fs_tracks : tracks T N0 l K B;
  fs_keys : holds_keys n l C ks (tagHash t) (tagsInUse (fa_stats t))
}.
(** The tags [t] represent the stack [ks]. *)
Definition fa_rep (n T N0 : nat) (t : FALRU) (ks : list Key) : Prop :=
  exists l C P X K B h e, fa_shape n T N0 t ks l C P X K B h e.

(** What never changes. *)
Definition same_fa (t t' : FALRU) : Prop :=
  fa_blkSize t' = fa_blkSize t /\ fa_maxMasters t' = fa_maxMasters t /\ fa_lookupLatency t' = fa_lookupLatency t.

Definition same_counts (t t' : FALRU) : Prop :=
  hits (cacheTracking t') = hits (cacheTracking t) /\ misses (cacheTracking t') = misses (cacheTracking t).

(** The counters of all caches go up, those of hits or those of misses. *)
Definition counted (hit : bool) (c : CacheTracking) : CacheTracking :=
  set_counts (if hit then Z.succ <$> hits c else hits c) (if hit then misses c else Z.succ <$> misses c) (accesses c + 1) c.

Lemma imap_const {A R} (f : nat -> A -> R) (g : A -> R) (l : list A) : (forall i x, l !! i = Some x -> f i x = g x) -> imap f l = g <$> l.
Proof. intros H. apply list_eq. intros i. rewrite list_lookup_imap, list_lookup_fmap. destruct (l !! i) eqn:E; simpl; [f_equal; by apply H|done]. Qed.

Section Ops.
Context (n T N0 : nat).
Implicit Types t : FALRU.
Implicit Types ks : list Key.
Implicit Types q : Key.

Lemma record_miss t : fa_conf n T N0 t -> recordAccess None t = Ok (tt, set_tracking (counted false (cacheTracking t)) t).
Proof using Type.
  intros Hc. unfold recordAccess. erewrite bind_run by reflexivity. erewrite bind_run by reflexivity. cbv zeta. unfold modify, counted. do 4 f_equal.
  - rewrite (imap_const _ id); [by rewrite list_fmap_id|done].
  - by apply imap_const.
Qed.
Lemma record_hit t0 C P X K B h e b : (b < n)%nat -> fa_conf n T N0 t0 -> blk_isValid (C b) = true ->
  (forall y, (y < T)%nat -> Z.testbit (K b) (Z.of_nat y) = true) ->
  recordAccess (Some b) (st t0 n C P X K B h e) = Ok (tt, set_tracking (counted true (set_boundaries B (cacheTracking t0))) (st t0 n C P X K B h e)).
Proof using Type.
  intros Hb Hc Hv HK. unfold recordAccess. erewrite bind_run by reflexivity. erewrite bind_run; [|erewrite bind_run by (by apply deref_run); reflexivity].
  cbv zeta. cbn [cacheTracking st numTrackedCaches set_boundaries]. rewrite (cf_T _ _ _ _ Hc).
  assert (forall i x, hits (cacheTracking t0) !! i = Some x \/ misses (cacheTracking t0) !! i = Some x ->
    (if (i <? T)%nat then negb (Z.land (Z.shiftl 1 (Z.of_nat i)) (K b) =? 0) else blk_isValid (C b)) = true) as Hhit.
  { intros i x _. destruct (Nat.ltb_spec i T); [|done]. rewrite one_bit. by apply HK. }
  unfold modify, counted. do 4 f_equal; cbn [hits misses set_boundaries].
  - apply imap_const. intros i x Hi. cbn [inCachesMask fb_blk]. by rewrite (Hhit i x) by auto.
  - rewrite (imap_const _ id); [by rewrite list_fmap_id|]. intros i x Hi. cbn [inCachesMask fb_blk]. by rewrite (Hhit i x) by auto.
Qed.

(** *** Lookup *)

Lemma in_prefix ks k q m : NoDup ks -> ks !! k = Some q -> q ∈ take m ks <-> (k < m)%nat.
Proof using Type.
  intros Hn Hk. rewrite list_elem_of_lookup. split.
  - intros (j & Hj). rewrite lookup_take_Some in Hj. destruct Hj as [Hj ?]. by replace k with j by (by eapply NoDup_lookup).
  - intros Hm. exists k. by rewrite lookup_take_lt.
Qed.

Definition lru_touch q ks : list Key := q :: filter (fun x => x <> q) ks.
Lemma delete_key ks k q : NoDup ks -> ks !! k = Some q -> delete k ks = filter (fun x => x <> q) ks.
Proof using Type.
  intros Hn Hk. assert (q ∉ delete k ks) as Hq by (rewrite delete_Permutation in Hn by done; by apply NoDup_cons in Hn as [? _]).
  pose proof (take_drop_middle ks k q Hk) as E. clear Hn.
  revert k Hk Hq E. induction ks as [|x ks IH]; intros k Hk Hq E; [done|]. destruct k as [|k].
  - injection Hk as ->. simpl in Hq |- *. rewrite filter_cons, decide_False by auto. symmetry. apply list_filter_all, Forall_forall. by intros y Hy ->.
  - simpl in Hq, Hk |- *. apply not_elem_of_cons in Hq as [Hx Hq]. rewrite filter_cons, decide_True by auto. f_equal. apply IH; [done|done|by apply take_drop_middle].
Qed.
Lemma to_front_key ks k q : NoDup ks -> ks !! k = Some q -> to_front k q ks = lru_touch q ks.
Proof using Type. intros Hn Hk. unfold to_front, lru_touch. by rewrite (delete_key ks k q). Qed.

Lemma hash_none l C ks hash used q : length l = n -> holds_keys n l C ks hash used -> hash !! q = None <-> q ∉ ks.
Proof using Type.
  intros Hl Hh. split.
  - intros Hq (k & Hk)%list_elem_of_lookup. destruct (lookup_lt_is_Some_2 l k) as [i Hi].
    { rewrite Hl. pose proof (hk_len _ _ _ _ _ _ Hh). apply lookup_lt_Some in Hk. lia. }
    assert (hash !! q = Some i) as E by (apply (hk_hash _ _ _ _ _ _ Hh); eauto). congruence.
  - intros Hq. destruct (hash !! q) as [i|] eqn:E; [|done]. apply (hk_hash _ _ _ _ _ _ Hh) in E as (k & Hk & _).
    exfalso. apply Hq. by eapply list_elem_of_lookup_2.
Qed.

Lemma find_run t ks l C P X K B h e a sec : fa_shape n T N0 t ks l C P X K B h e ->
  fa_findBlock a sec t = Ok (tagHash t !! (fa_extractTag a t, sec)).
Proof using Type.
  intros [Hst Hc Ho Ht Hk]. unfold fa_findBlock. destruct (tagHash t !! (fa_extractTag a t, sec)) as [i|] eqn:Ei; [|done].
  apply (hk_hash _ _ _ _ _ _ Hk) in Ei as (k & Hq & Hi). destruct (hk_valid _ _ _ _ _ _ Hk k i _ Hi Hq) as [Hv [= E1 E2]].
  assert (fa_blks t !! i = Some (mkFBlk (C i) (P i) (X i) (K i))) as ->.
  { rewrite Hst. apply blocks_lookup. by eapply perm_bound; [apply Ho|]. }
  cbn [fb_blk]. by rewrite Hv, E1, E2, Z.eqb_refl, Bool.eqb_reflx.
Qed.

Lemma deref_st t C P X K B h e i : t = st t n C P X K B h e -> (i < n)%nat -> deref (Some i) t = Ok (mkFBlk (C i) (P i) (X i) (K i), t).
Proof using Type. intros H Hi. pose proof (deref_run t n C P X K B h e i Hi) as E. by rewrite <- H in E. Qed.

Definition lru_access q ks : list Key := if decide (q ∈ ks) then lru_touch q ks else ks.

Lemma access_run t ks a sec : fa_rep n T N0 t ks -> let q := (fa_extractTag a t, sec) in exists blk mask t',
  fa_accessBlock a sec t = Ok ((blk, mask, fa_lookupLatency t), t') /\ same_fa t t' /\ fa_rep n T N0 t' (lru_access q ks)
  /\ (is_Some blk <-> q ∈ ks)
  /\ (forall y : nat, Z.testbit mask (Z.of_nat y) = (y <? T)%nat && bool_decide (q ∈ take (cap N0 y) ks))
  /\ hits (cacheTracking t') = hits (counted (bool_decide (q ∈ ks)) (cacheTracking t))
  /\ misses (cacheTracking t') = misses (counted (bool_decide (q ∈ ks)) (cacheTracking t)).
Proof using Type.
  intros (l & C & P & X & K & B & h & e & Hs) q. pose proof (find_run t ks l C P X K B h e a sec Hs) as Hfind. destruct Hs as [Hst Hc Ho Ht Hk].
  pose proof (o_perm _ _ _ _ _ _ Ho) as Hp. pose proof (perm_length n l Hp) as Hlen. unfold fa_accessBlock.
  erewrite bind_run by reflexivity. rewrite Hfind. erewrite (bind_run (lift (Ok _))) by reflexivity. fold q. unfold lru_access.
  destruct (tagHash t !! q) as [i|] eqn:Ei.
  - apply (hk_hash _ _ _ _ _ _ Hk) in Ei as (k & Hq & Hi). assert (q ∈ ks) as Hin by (by eapply list_elem_of_lookup_2).
    rewrite decide_True, !bool_decide_eq_true_2 by done. destruct (hk_valid _ _ _ _ _ _ Hk k i q Hi Hq) as [Hv _].
    pose proof (perm_bound n l k i Hp Hi) as Hin'.
    destruct (moveToHead_run n T N0 t (cf_sizes _ _ _ _ Hc) (cf_T _ _ _ _ Hc) (cf_all _ _ _ _ Hc) C P X K B h e l k i Ho Ht Hi)
      as (P' & X' & K' & B' & h' & e' & Hrun & Ho' & Ht').
    rewrite <- Hst in Hrun.
    erewrite bind_run; [|erewrite bind_run by (by eapply deref_st); cbn [fb_blk inCachesMask]; rewrite Hv; erewrite bind_run by exact Hrun; reflexivity].
    erewrite bind_run; [|apply (record_hit t C P' X' K' B' h' e' i Hin' Hc Hv); intros y Hy].
    2:{ rewrite (tr_mask _ _ _ _ _ Ht' 0 i y) by done. unfold fits. rewrite (proj2 (Nat.ltb_lt y T) Hy).
        pose proof (cap_two _ _ _ y (cf_sizes _ _ _ _ Hc)). apply Nat.ltb_lt. lia. }
    exists (Some i), (K i). eexists. split; [reflexivity|]. split; [done|]. split; [|split; [done|split; [|done]]].
    + exists (to_front k i l), C, P', X', K', B', h', e'. rewrite <- (to_front_key ks k q) by (done || apply Hk).
      split; [reflexivity| |done|done|by apply holds_front]. destruct Hc. split; try done; simpl; rewrite ?length_fmap; done.
    + intros y. rewrite (tr_mask _ _ _ _ _ Ht k i y Hi). unfold fits. f_equal.
      apply eq_true_iff_eq. rewrite Nat.ltb_lt, bool_decide_eq_true. symmetry. apply in_prefix; [apply Hk|done].
  - assert (q ∉ ks) as Hin by (by apply (hash_none l C ks _ _ q Hlen Hk)). rewrite decide_False, !bool_decide_eq_false_2 by done.
    erewrite bind_run by reflexivity. erewrite bind_run by (by apply record_miss).
    exists None, 0. eexists. split; [reflexivity|]. split; [done|]. split; [|split; [|split; [|done]]].
    + exists l, C, P, X, K, B, h, e. split; [|destruct Hc; split; try done; simpl; rewrite ?length_fmap; done|done|done|done].
      clear -Hst. destruct t as [? ? ? ? ? ? ? ? ? ? ? []]. unfold st in Hst. injection Hst as -> -> -> ->. reflexivity.
    + split; [by intros []|done].
    + intros y. rewrite Z.bits_0. rewrite bool_decide_eq_false_2; [by rewrite andb_false_r|]. intros (j & Hj & _)%elem_of_take.
      apply Hin. by eapply list_elem_of_lookup_2.
Qed.

(** *** Invalidation *)

Lemma conf_same t t' : cacheTracking t' = cacheTracking t -> fa_conf n T N0 t -> fa_conf n T N0 t'.
Proof using Type. intros E []. split; by rewrite ?E. Qed.
Lemma conf_st t C P X K B h e : fa_conf n T N0 t -> fa_conf n T N0 (st t n C P X K B h e).
Proof using Type. intros []. by split. Qed.

Lemma invalidate_start t C P X K B h e i : (i < n)%nat -> blk_isValid (C i) = true -> is_Some (tagHash t !! key_of (C i)) -> exists t1,
  fa_invalidate (Some i) (st t n C P X K B h e) = moveToTail (Some i) (st t1 n (<[i := blk_invalidate (C i)]> C) P X K B h e)
  /\ tagHash t1 = delete (key_of (C i)) (tagHash t) /\ tagsInUse (fa_stats t1) = tagsInUse (fa_stats t) - 1
  /\ same_fa t t1 /\ cacheTracking t1 = cacheTracking t.
Proof using Type.
  intros Hi Hv Hh. exists (set_tagHash (delete (key_of (C i)) (tagHash t)) (set_fa_stats (fa_warmedUp t)
    (bump_inUse (-1) (bump_refs (refCount (C i)) (bump_occupancy (srcMasterId (C i)) (-1) (fa_stats t)))) t)). split; [|done].
  unfold fa_invalidate. erewrite bind_run by (by apply deref_run). erewrite bind_run by reflexivity. cbv zeta. erewrite bind_run by reflexivity.
  cbn [fb_blk tagHash st]. fold (key_of (C i)). rewrite (bool_decide_eq_true_2 (is_Some _)) by done. erewrite bind_run by reflexivity.
  set (t1 := set_tagHash (delete (key_of (C i)) (tagHash t)) t). change (set_tagHash _ (st t n C P X K B h e)) with (st t1 n C P X K B h e).
  unfold fa_base_invalidate at 1. erewrite bind_run.
  2:{ erewrite bind_run by (by apply deref_run). cbn [fb_blk]. rewrite Hv. erewrite bind_run by reflexivity.
      erewrite bind_run by reflexivity. erewrite bind_run by reflexivity.
      set (t2 := set_fa_stats (fa_warmedUp t1) (bump_refs (refCount (C i)) (bump_occupancy (srcMasterId (C i)) (-1) (fa_stats t1))) t1).
      change (set_fa_stats _ _ _) with (st t2 n C P X K B h e). by apply assign_blk. }
  erewrite bind_run by reflexivity. reflexivity.
Qed.

Definition lru_invalidate q ks : list Key := filter (fun x => x <> q) ks.

Lemma invalidate_run t ks q i : fa_rep n T N0 t ks -> tagHash t !! q = Some i -> exists t',
  fa_invalidate (Some i) t = Ok (tt, t') /\ same_fa t t' /\ fa_rep n T N0 t' (lru_invalidate q ks) /\ fa_tail t' = Some i
  /\ same_counts t t'.
Proof using Type.
  intros (l & C & P & X & K & B & h & e & [Hst Hc Ho Ht Hk]) Hq. apply (hk_hash _ _ _ _ _ _ Hk) in Hq as (k & Hq & Hi).
  pose proof (o_perm _ _ _ _ _ _ Ho) as Hp. pose proof (perm_length n l Hp) as Hlen. pose proof (perm_bound n l k i Hp Hi) as Hin.
  destruct (hk_valid _ _ _ _ _ _ Hk k i q Hi Hq) as [Hv Hkey].
  destruct (invalidate_start t C P X K B h e i Hin Hv) as (t1 & Hrun & E1 & E2 & E3 & E4).
  { rewrite Hkey. exists i. apply (hk_hash _ _ _ _ _ _ Hk). eauto. }
  destruct (moveToTail_run n T N0 t1 (cf_sizes _ _ _ _ Hc) ltac:(by rewrite E4; apply Hc) ltac:(rewrite E4; apply Hc)
    (<[i := blk_invalidate (C i)]> C) P X K B h e l k i Ho Ht Hi) as (P' & X' & K' & B' & h' & e' & Hmove & Ho' & Ht').
  exists (st t1 n (<[i := blk_invalidate (C i)]> C) P' X' K' B' h' e'). rewrite <- Hst in Hrun. split; [by rewrite Hrun|]. split; [done|].
  split; [|split; [|split; simpl; by rewrite E4]; change (e' = Some i); rewrite (o_tail _ _ _ _ _ _ Ho'), back_lookup, Hlen by (by eapply lookup_lt_Some);
           pose proof (lookup_lt_Some _ _ _ Hi); repeat case_decide; done || lia].
  exists (to_back k i l), (<[i := blk_invalidate (C i)]> C), P', X', K', B', h', e'.
  split; [reflexivity|apply conf_st; by eapply conf_same|done|done|]. cbn [tagHash fa_stats st]. rewrite E1, E2, Hkey.
  unfold lru_invalidate. rewrite <- (delete_key ks k q) by (done || apply Hk). apply (holds_remove n l C ks); try done. by eapply perm_nodup.
Qed.

(** *** Insertion *)

Lemma insert_start t C P X K B h e b now pkt a sec : (b < n)%nat -> status (C b) = 0 -> K b = 0 ->
  getAddr pkt = Ok a -> isSecure pkt = Ok sec -> rq_masterId (p_req pkt) < fa_maxMasters t -> exists t1 c,
  fa_insertBlock now pkt (Some b) (st t n C P X K B h e)
    = (moveToHead (Some b);; x ← deref (Some b); modify (fun t => set_tagHash (<[key_of (fb_blk x) := b]> (tagHash t)) t))
        (st t1 n (<[b := c]> C) P X K B h e)
  /\ blk_isValid c = true /\ key_of c = (fa_extractTag a t, sec)
  /\ tagHash t1 = tagHash t /\ tagsInUse (fa_stats t1) = tagsInUse (fa_stats t) + 1 /\ same_fa t t1 /\ cacheTracking t1 = cacheTracking t.
Proof using Type.
  intros Hb Hs HK Ea Es Hm. assert (blk_isValid (C b) = false) as Hv by (unfold blk_isValid; by rewrite Hs).
  destruct (blk_insert_run now (fa_extractTag a t) sec (rq_masterId (p_req pkt)) (rq_taskId (p_req pkt)) (C b) Hs)
    as (c & Hc & Hvc & Hsc & Htc & _).
  set (warm := negb (fa_warmedUp t) && (fa_warmupBound t <=? tagsInUse (fa_stats t))).
  set (s1 := bump_occupancy (rq_masterId (p_req pkt)) 1 (fa_stats t)).
  set (s2 := bump_accesses 1 1 (if warm then set_warmupCycle now s1 else s1)).
  exists (set_fa_stats (if warm then true else fa_warmedUp t) (bump_inUse 1 s2) t), c.
  split; [|split; [done|]; split; [unfold key_of; congruence|]; split; [done|]; split; [|done]].
  2:{ simpl. unfold s2, s1. by destruct warm. }
  unfold fa_insertBlock. erewrite bind_run by (by apply deref_run). cbn [inCachesMask]. rewrite HK. erewrite bind_run by reflexivity.
  erewrite (bind_run (fa_base_insertBlock _ _ _)).
  2:{ unfold fa_base_insertBlock. erewrite bind_run by (by apply deref_run). cbn [fb_blk]. rewrite Hv. erewrite bind_run by reflexivity.
      erewrite bind_run by reflexivity. cbv zeta. cbn [fa_maxMasters st]. rewrite (proj2 (Z.ltb_lt _ _) Hm).
      erewrite bind_run by reflexivity. erewrite bind_run by reflexivity. rewrite Ea, Es. erewrite (bind_run (lift (Ok _))) by reflexivity.
      erewrite (bind_run (lift (Ok _))) by reflexivity. change (fa_extractTag a (st t n C P X K B h e)) with (fa_extractTag a t).
      rewrite Hc. erewrite (bind_run (lift (Ok _))) by reflexivity.
      change (set_fa_stats _ _ (st t n C P X K B h e)) with (st (set_fa_stats (fa_warmedUp t) s1 t) n C P X K B h e).
      erewrite bind_run by (by apply assign_blk). cbn [fa_warmedUp fa_warmupBound fa_stats st]. fold warm.
      erewrite (bind_run (when_ warm _)) with (a := tt)
        (s1 := st (set_fa_stats (if warm then true else fa_warmedUp t) (if warm then set_warmupCycle now s1 else s1) t) n (<[b := c]> C) P X K B h e)
        by (by destruct warm).
      reflexivity. }
  erewrite bind_run by reflexivity. reflexivity.
Qed.

Lemma tail_free t ks l C P X K B h e : fa_shape n T N0 t ks l C P X K B h e -> exists b, e = Some b /\ l !! (n - 1)%nat = Some b /\ (b < n)%nat /\ K b = 0.
Proof using Type.
  intros [Hst Hc Ho Ht Hk]. pose proof (o_perm _ _ _ _ _ _ Ho) as Hp. pose proof (cf_pos _ _ _ _ Hc).
  destruct (lookup_lt_is_Some_2 l (n - 1)%nat) as [b Hb]; [rewrite (perm_length n l Hp); lia|]. exists b.
  split; [by rewrite (o_tail _ _ _ _ _ _ Ho)|]. split; [done|]. split; [by eapply perm_bound|].
  apply Z.bits_inj'. intros y Hy. rewrite Z.bits_0, <- (Z2Nat.id y) by done. rewrite (tr_mask _ _ _ _ _ Ht _ b _ Hb). unfold fits.
  destruct (Nat.ltb_spec (Z.to_nat y) T) as [Hyt|]; [|done]. pose proof (sz_less _ _ _ (cf_sizes _ _ _ _ Hc) _ Hyt). apply Nat.ltb_ge. lia.
Qed.

Lemma insert_run t ks now pkt a sec : fa_rep n T N0 t ks -> (length ks < n)%nat -> getAddr pkt = Ok a -> isSecure pkt = Ok sec ->
  rq_masterId (p_req pkt) < fa_maxMasters t -> (fa_extractTag a t, sec) ∉ ks -> exists t',
  fa_insertBlock now pkt (fa_tail t) t = Ok (tt, t') /\ same_fa t t' /\ fa_rep n T N0 t' ((fa_extractTag a t, sec) :: ks)
  /\ same_counts t t'.
Proof using Type.
  intros (l & C & P & X & K & B & h & e & Hs) Hlt Ea Es Hm Hq. destruct (tail_free _ _ _ _ _ _ _ _ _ _ Hs) as (b & He & Hb & Hbn & HKb).
  destruct Hs as [Hst Hc Ho Ht Hk]. pose proof (o_perm _ _ _ _ _ _ Ho) as Hp. pose proof (perm_length n l Hp) as Hlen.
  assert (status (C b) = 0) as Hfree by (eapply (hk_free _ _ _ _ _ _ Hk); [exact Hb|apply lookup_ge_None; lia]).
  assert (fa_tail t = Some b) as -> by (rewrite Hst; done).
  destruct (insert_start t C P X K B h e b now pkt a sec Hbn Hfree HKb Ea Es Hm) as (t1 & c & Hrun & Hvc & Hkc & E1 & E2 & E3 & E4).
  destruct (moveToHead_run n T N0 t1 (cf_sizes _ _ _ _ Hc) ltac:(by rewrite E4; apply Hc) ltac:(rewrite E4; apply Hc)
    (<[b := c]> C) P X K B h e l _ b Ho Ht Hb) as (P' & X' & K' & B' & h' & e' & Hmove & Ho' & Ht').
  exists (st (set_tagHash (<[(fa_extractTag a t, sec) := b]> (tagHash t1)) t1) n (<[b := c]> C) P' X' K' B' h' e').
  rewrite <- Hst in Hrun. split; [|split; [done|split; [|split; simpl; by rewrite E4]]].
  - rewrite Hrun. erewrite bind_run by exact Hmove. erewrite bind_run by (by apply deref_run). cbn [fb_blk]. rewrite fn_lookup_insert, Hkc. reflexivity.
  - exists (to_front (n - 1) b l), (<[b := c]> C), P', X', K', B', h', e'.
    split; [reflexivity|apply conf_st; eapply conf_same; [|exact Hc]; done|done|done|]. cbn [tagHash fa_stats st set_tagHash]. rewrite E1, E2.
    apply holds_insert; try done. by eapply perm_nodup.
Qed.
End Ops.

(** ** Walks along the list: set-up and sanity check *)

Section Walk.
Context (n T N0 : nat) (bs : Z).
Context (Hsz : sizes_ok n T N0) (Hpos : (0 < n)%nat) (Hbs : 0 < bs) (Hfit : Z.of_nat (n `max` N0) * bs < 2 ^ 32).
Context (Hlast : (n <= cap N0 T)%nat) (Hgrow : (0 < T)%nat -> cap N0 T = n).
Abbreviation cap := (cap N0).

(** At position [k] the first [j] caches are full. *)
Record walk_at (k j : nat) (m : Z) : Prop := {
  wa_j : (j <= T)%nat;
  wa_next : (k < cap j)%nat;
  wa_full j' : j = S j' -> (cap j' <= k)%nat;
  wa_mask (y : nat) : Z.testbit m (Z.of_nat y) = (j <=? y)%nat && (y <? T)%nat
}.

Lemma cap_double j : cap (S j) = (2 * cap j)%nat.
Proof. unfold FALRUList.cap. rewrite Nat.pow_succ_r'. lia. Qed.
Lemma cap_mono i j : (i <= j)%nat -> (cap i <= cap j)%nat.
Proof. induction 1 as [|j _ IH]; [done|]. rewrite cap_double. lia. Qed.

Lemma walk_start m : (forall y : nat, Z.testbit m (Z.of_nat y) = (y <? T)%nat) -> walk_at 0 0 m.
Proof.
  intros Hm. split; [lia| |done|done]. pose proof (cap_two _ _ _ 0 Hsz). lia.
Qed.

(** The mask at a position is the one of the tracked caches that reach so far. *)
Lemma walk_fits k j m y : walk_at k j m -> Z.testbit m (Z.of_nat y) = fits T N0 k y.
Proof.
  intros [H1 H2 H3 H4]. rewrite H4. unfold fits. rewrite andb_comm. f_equal. destruct (Nat.leb_spec j y) as [Hj|Hj]; symmetry.
  - apply Nat.ltb_lt. pose proof (cap_mono j y Hj). lia.
  - apply Nat.ltb_ge. destruct j as [|j]; [lia|]. pose proof (H3 j eq_refl). pose proof (cap_mono y j ltac:(lia)). lia.
Qed.

(** The comparison of sizes in bytes is one of blocks; nothing wraps. *)
Lemma cap_small j : (j <= T)%nat -> Z.of_nat (cap j) * bs < 2 ^ 32.
Proof.
  intros Hj. destruct (decide (T = 0%nat)) as [ET|ET].
  - assert (j = 0%nat) as -> by lia. unfold FALRUList.cap. rewrite Nat.mul_1_r. nia.
  - pose proof (cap_mono j T Hj). pose proof (Hgrow ltac:(lia)). nia.
Qed.
Lemma walk_size k : (k < n)%nat -> u32 (Z.of_nat k * bs + bs) = Z.of_nat (S k) * bs.
Proof. intros Hk. unfold u32. rewrite wrap_small; [lia|]. nia. Qed.
Lemma walk_equal k j : (Z.of_nat (S k) * bs =? Z.of_nat (cap j) * bs) = (S k =? cap j)%nat.
Proof. destruct (Nat.eqb_spec (S k) (cap j)) as [<-|Hne]; [apply Z.eqb_refl|]. apply Z.eqb_neq. nia. Qed.
Lemma walk_shift j : (j < T)%nat -> u32 (Z.shiftl (Z.of_nat (cap j) * bs) 1) = Z.of_nat (cap (S j)) * bs.
Proof.
  intros Hj. pose proof (cap_small (S j) ltac:(lia)) as Hc. rewrite cap_double in Hc |- *. rewrite Z.shiftl_mul_pow2 by lia.
  unfold u32. rewrite wrap_small; lia.
Qed.

(** The next position. *)
Lemma walk_stay k j m : walk_at k j m -> (S k < n)%nat -> (S k =? cap j)%nat = false -> walk_at (S k) j m.
Proof. intros [H1 H2 H3 H4] Hk E. apply Nat.eqb_neq in E. split; [done|lia| |done]. intros j' ->. pose proof (H3 j' eq_refl). lia. Qed.
Lemma walk_boundary k j m : walk_at k j m -> (S k < n)%nat -> S k = cap j -> (j < T)%nat /\ walk_at (S k) (S j) (Z.ldiff m (Z.shiftl 1 (Z.of_nat j))).
Proof.
  intros [H1 H2 H3 H4] Hk E. assert (j < T)%nat as Hj.
  { destruct (decide (j = T)) as [->|]; [|lia]. lia. }
  split; [done|]. split; [lia|rewrite cap_double; pose proof (cap_two _ _ _ j Hsz); lia|intros j' [= <-]; lia|].
  intros y. rewrite clear_bit, H4. destruct (Nat.eqb_spec j y), (Nat.leb_spec j y), (Nat.leb_spec (S j) y); simpl; rewrite ?andb_true_r, ?andb_false_r; try done; lia.
Qed.
(** At the end all tracked caches are full. *)
Lemma walk_end k j m : walk_at k j m -> S k = n -> j = T.
Proof.
  intros [H1 H2 _ _] Hk. destruct (decide (j = T)) as [|Hne]; [done|]. pose proof (sz_less _ _ _ Hsz j ltac:(lia)). lia.
Qed.

(** ** The sanity check *)

Lemma check_walk_run t C P X K B h e l m k j mask : t = st t n C P X K B h e -> ct_blkSize (cacheTracking t) = bs ->
  ordered n l P X h e -> tracks T N0 l K B -> (k + m = n)%nat -> (0 < m)%nat -> walk_at k j mask ->
  check_walk m (l !! k) e (Z.of_nat k * bs) (Z.of_nat (cap j) * bs) mask j t = Ok (tt, t).
Proof.
  intros Hst Hb Ho Ht. pose proof (o_perm _ _ _ _ _ _ Ho) as Hp. pose proof (perm_length n l Hp) as Hlen.
  revert k j mask. induction m as [|m IH]; intros k j mask Hk Hm Hw; [lia|].
  destruct (lookup_lt_is_Some_2 l k) as [i Hi]; [lia|]. pose proof (perm_bound n l k i Hp Hi) as Hin. rewrite Hi. cbn [check_walk].
  erewrite bind_run by (by eapply deref_st). cbn [inCachesMask next].
  assert (K i = mask) as EK.
  { apply Z.bits_inj'. intros y Hy. rewrite <- (Z2Nat.id y) by done. rewrite (tr_mask _ _ _ _ _ Ht k i _ Hi). symmetry. by eapply walk_fits. }
  rewrite EK, Z.eqb_refl. erewrite bind_run by reflexivity. erewrite bind_run by reflexivity. cbv zeta. rewrite Hb, walk_size, walk_equal by lia.
  rewrite (o_next _ _ _ _ _ _ Ho k i Hi). rewrite (o_tail _ _ _ _ _ _ Ho). rewrite <- Hi.
  assert (bool_decide (l !! k = l !! (n - 1)%nat) = bool_decide (k = n - 1)%nat) as ->.
  { apply bool_decide_ext. split; [|by intros ->]. intros E. eapply NoDup_lookup; [by eapply perm_nodup|exact Hi|by rewrite <- E]. }
  rewrite <- (o_tail _ _ _ _ _ _ Ho). case_bool_decide as Ek.
  - rewrite andb_false_r. assert (m = 0%nat) as -> by lia. assert (l !! S k = None) as -> by (apply lookup_ge_None; lia). done.
  - rewrite andb_true_r. destruct (S k =? cap j)%nat eqn:Ecap.
    + apply Nat.eqb_eq in Ecap. destruct (walk_boundary k j mask Hw ltac:(lia) Ecap) as [Hj Hw'].
      pose proof (boundary_run t n C P X K B h e j _ (tr_bound _ _ _ _ _ Ht j Hj)) as Hbd. rewrite <- Hst in Hbd.
      replace (cap j - 1)%nat with k in Hbd by lia.
      erewrite bind_run by exact Hbd. rewrite (bool_decide_eq_true_2 (l !! k = l !! k)) by done.
      erewrite bind_run by reflexivity. rewrite walk_shift by done. apply IH; [lia|lia|done].
    + apply IH; [lia|lia|]. by apply walk_stay; [|lia|].
Qed.

(** ** The first marks *)

Lemma init_walk_run t C P X h e l m k j mask K B : ct_blkSize (cacheTracking t) = bs -> ordered n l P X h e ->
  (k + m = n)%nat -> (0 < m)%nat -> walk_at k j mask -> length B = T ->
  (forall p i y, (p < k)%nat -> l !! p = Some i -> Z.testbit (K i) (Z.of_nat y) = fits T N0 p y) ->
  (forall y, (y < j)%nat -> B !! y = Some (l !! (cap y - 1)%nat)) ->
  exists K' B', init_walk m (l !! k) e (Z.of_nat k * bs) (Z.of_nat (cap j) * bs) mask j (st t n C P X K B h e) = Ok (tt, st t n C P X K' B' h e)
    /\ tracks T N0 l K' B'.
Proof.
  intros Hb Ho. pose proof (o_perm _ _ _ _ _ _ Ho) as Hp. pose proof (perm_length n l Hp) as Hlen.
  revert k j mask K B. induction m as [|m IH]; intros k j mask K B Hk Hm Hw HlB HK HB; [lia|].
  destruct (lookup_lt_is_Some_2 l k) as [i Hi]; [lia|]. pose proof (perm_bound n l k i Hp Hi) as Hin. rewrite Hi. cbn [init_walk].
  erewrite bind_run by (by apply assign_mask with (k := mask)). erewrite bind_run by reflexivity. cbv zeta. cbn [cacheTracking st ct_blkSize set_boundaries].
  erewrite bind_run by (by apply deref_run). cbn [next]. rewrite Hb, walk_size, walk_equal by lia.
  rewrite (o_next _ _ _ _ _ _ Ho k i Hi).
  assert (bool_decide (Some i = e) = bool_decide (k = n - 1)%nat) as ->.
  { apply bool_decide_ext. rewrite (o_tail _ _ _ _ _ _ Ho). split; [|by intros <-].
    intros E. eapply NoDup_lookup; [by eapply perm_nodup|exact Hi|by rewrite <- E]. }
  assert (forall p i' y, (p < S k)%nat -> l !! p = Some i' -> Z.testbit (<[i := mask]> K i') (Z.of_nat y) = fits T N0 p y) as HK'.
  { intros p i' y Hpk Hi'. destruct (decide (p = k)) as [->|Hne].
    - assert (i' = i) as -> by congruence. rewrite fn_lookup_insert. by eapply walk_fits.
    - rewrite fn_lookup_insert_ne; [apply HK; [lia|done]|]. intros ->. apply Hne. by eapply NoDup_lookup; [eapply perm_nodup| |]. }
  case_bool_decide as Ek.
  - rewrite andb_false_r. assert (m = 0%nat) as -> by lia. assert (l !! S k = None) as -> by (apply lookup_ge_None; lia).
    exists (<[i := mask]> K), B. split; [done|]. pose proof (walk_end k j mask Hw ltac:(lia)) as EjT. split; [|done|by rewrite <- EjT].
    intros p i' y Hi'. apply HK'; [|done]. apply lookup_lt_Some in Hi'. lia.
  - rewrite andb_true_r. destruct (S k =? cap j)%nat eqn:Ecap.
    + apply Nat.eqb_eq in Ecap. destruct (walk_boundary k j mask Hw ltac:(lia) Ecap) as [Hj Hw'].
      erewrite bind_run by (apply set_boundary_run; lia). rewrite walk_shift by done. apply IH; [lia|lia|done|by rewrite length_insert|done|].
      intros y Hy. destruct (decide (y = j)) as [->|Hne].
      * rewrite list_lookup_insert_eq by lia. rewrite <- Ecap. replace (S k - 1)%nat with k by lia. by rewrite Hi.
      * rewrite list_lookup_insert_ne by done. apply HB. lia.
    + apply IH; [lia|lia|by apply walk_stay; [|lia|]|done|done|done].
Qed.
End Walk.

Section Init.
Context (n T N0 : nat).

(** The sanity check passes in every state the tags get into. *)
Lemma check_passes t ks : fa_rep n T N0 t ks -> tracking_check (fa_head t) (fa_tail t) t = Ok (tt, t).
Proof using Type.
  intros (l & C & P & X & K & B & h & e & [Hst Hc Ho Ht _]). unfold tracking_check. erewrite bind_run by reflexivity. erewrite bind_run by reflexivity.
  assert (fa_head t = l !! 0%nat) as -> by (rewrite Hst; exact (o_head _ _ _ _ _ _ Ho)). assert (fa_tail t = e) as -> by (by rewrite Hst).
  assert (length (fa_blks t) = n) as -> by (rewrite Hst; apply blocks_length). rewrite (cf_min _ _ _ _ Hc).
  pose proof (cf_pos _ _ _ _ Hc). assert (Z.of_nat N0 = Z.of_nat (cap N0 0)) as -> by (unfold cap; rewrite Nat.mul_1_r; done). change 0 with (Z.of_nat 0 * ct_blkSize (cacheTracking t)) at 1.
  apply (check_walk_run n T N0 _ (cf_sizes _ _ _ _ Hc) ltac:(apply Hc) ltac:(apply Hc) (cf_fit _ _ _ _ Hc) ltac:(apply Hc) ltac:(apply Hc)
    t C P X K B h e l n 0 0); try done; try lia.
  eapply walk_start; apply Hc.
Qed.

(** Links along the numbers, for the blocks below [a]; all blocks are free. *)
Record linked (a : nat) (C : nat -> CacheBlk) (P X : nat -> option nat) : Prop := {
  ln_prev j : (j < a)%nat -> P j = before (seq 0 n) j;
  ln_next j : (j < a)%nat -> X j = Some (S j);
  ln_free j : status (C j) = 0
}.

Lemma place_blk_run t C P X K B h e i p x bs : (i < n)%nat -> exists c, status c = status (C i) /\
  place_blk i p x bs (st t n C P X K B h e) = Ok (tt, st t n (<[i := c]> C) (<[i := p]> P) (<[i := x]> X) K B h e).
Proof using Type.
  intros Hi. eexists. split; [|unfold place_blk; erewrite assign_run; [|done|reflexivity]; do 2 f_equal; apply st_ext; intros j Hj].
  2:{ split; [reflexivity|]. split; [reflexivity|]. split; [reflexivity|]. by rewrite same_insert with (f := K) (g := K). }
  done.
Qed.

Lemma linked_step a C P X c : (S a < n)%nat -> linked a C P X -> status c = 0 ->
  linked (S a) (<[a := c]> C) (<[a := before (seq 0 n) a]> P) (<[a := Some (S a)]> X).
Proof using Type.
  intros Ha [H1 H2 H3] Hc. split.
  - intros j Hj. destruct (decide (a = j)) as [<-|]; [by rewrite fn_lookup_insert|]. rewrite fn_lookup_insert_ne by done. apply H1. lia.
  - intros j Hj. destruct (decide (a = j)) as [<-|]; [by rewrite fn_lookup_insert|]. rewrite fn_lookup_insert_ne by done. apply H2. lia.
  - intros j. destruct (decide (a = j)) as [<-|]; [by rewrite fn_lookup_insert|]. by rewrite fn_lookup_insert_ne.
Qed.

Lemma place_loop t K B h e bs m a C P X : (1 <= a)%nat -> (a + m < n)%nat -> linked a C P X -> exists C' P' X',
  forM_ (seq a m) (fun i => place_blk i (Some (i - 1)%nat) (Some (i + 1)%nat) bs) (st t n C P X K B h e) = Ok (tt, st t n C' P' X' K B h e)
  /\ linked (a + m) C' P' X'.
Proof using Type.
  revert a C P X. induction m as [|m IH]; intros a C P X Ha Hn Hl.
  { exists C, P, X. by rewrite Nat.add_0_r. }
  cbn [seq forM_]. destruct (place_blk_run t C P X K B h e a (Some (a - 1)%nat) (Some (a + 1)%nat) bs ltac:(lia)) as (c & Hc & Hrun).
  erewrite bind_run by exact Hrun. replace (a + S m)%nat with (S a + m)%nat by lia. apply IH; [lia|lia|]. replace (a + 1)%nat with (S a) by lia.
  assert (Some (a - 1)%nat = before (seq 0 n) a) as ->.
  { destruct a as [|a]; [lia|]. simpl. rewrite lookup_seq_lt by lia. f_equal. lia. }
  apply linked_step; [lia|done|]. rewrite Hc. apply Hl.
Qed.

Lemma linked_ordered C P X c : (2 <= n)%nat -> linked (n - 1) C P X -> status c = 0 ->
  ordered n (seq 0 n) (<[(n - 1)%nat := Some (n - 2)%nat]> P) (<[(n - 1)%nat := None]> X) (Some 0%nat) (Some (n - 1)%nat).
Proof using Type.
  intros Hn [H1 H2 _] Hc. split.
  - done.
  - intros k i [-> Hk]%lookup_seq. simpl. destruct (decide (n - 1 = k)%nat) as [<-|].
    + rewrite fn_lookup_insert. destruct (n - 1)%nat as [|m] eqn:E; [lia|]. simpl. rewrite lookup_seq_lt by lia. f_equal. lia.
    + rewrite fn_lookup_insert_ne by done. apply H1. lia.
  - intros k i [-> Hk]%lookup_seq. simpl. destruct (decide (n - 1 = k)%nat) as [<-|].
    + rewrite fn_lookup_insert. symmetry. apply lookup_seq_ge. lia.
    + rewrite fn_lookup_insert_ne, H2, lookup_seq_lt by lia. done.
  - by rewrite lookup_seq_lt by lia.
  - by rewrite lookup_seq_lt by lia.
Qed.

(** Tags as their constructor leaves them. *)
Record fa_new (t : FALRU) : Prop := {
  fn_conf : fa_conf n T N0 t;
  fn_two : (2 <= n)%nat;
  fn_num : fa_numBlocks t = Z.of_nat n;
  fn_blks : fa_blks t = replicate n new_FALRUBlk;
  fn_bounds : boundaries (cacheTracking t) = replicate T None;
  fn_hash : tagHash t = ∅;
  fn_used : tagsInUse (fa_stats t) = 0
}.

Lemma new_st t : fa_new t -> t = st t n (fun _ => new_CacheBlk) (fun _ => None) (fun _ => None) (fun _ => 0) (replicate T None) (fa_head t) (fa_tail t).
Proof using Type.
  intros H. assert (fa_blks t = blocks n (fun _ => new_CacheBlk) (fun _ => None) (fun _ => None) (fun _ => 0)) as Eb.
  { rewrite (fn_blks _ H). apply list_eq. intros i. destruct (decide (i < n)%nat) as [Hi|Hi].
    - by rewrite blocks_lookup, lookup_replicate_2 by done.
    - rewrite !lookup_ge_None_2; [done|rewrite blocks_length; lia|rewrite length_replicate; lia]. }
  pose proof (fn_bounds _ H) as EB. unfold st. rewrite <- Eb, <- EB. by destruct t as [? ? ? ? ? ? ? ? ? ? ? []].
Qed.

Lemma ptr_run t C P X K B h e i : 0 <= i <= Z.of_nat n -> blk_ptr i (st t n C P X K B h e) = Ok (Some (Z.to_nat i), st t n C P X K B h e).
Proof using Type.
  intros Hi. unfold blk_ptr. erewrite bind_run by reflexivity. cbn [fa_blks st]. rewrite blocks_length.
  by rewrite (proj2 (Z.leb_le 0 i)), (proj2 (Z.leb_le i (Z.of_nat n))) by lia.
Qed.

(** [fa_tagsInit] from the functions of a fresh state: the list and the marks. *)
Lemma tagsInit_links t B h e : fa_conf n T N0 t -> (2 <= n)%nat -> fa_numBlocks t = Z.of_nat n ->
  exists C P X, (forall j, status (C j) = 0) /\ ordered n (seq 0 n) P X (Some 0%nat) (Some (n - 1)%nat)
    /\ fa_tagsInit (st t n (fun _ => new_CacheBlk) (fun _ => None) (fun _ => None) (fun _ => 0) B h e)
       = tracking_init (Some 0%nat) (Some (n - 1)%nat) (st t n C P X (fun _ => 0) B (Some 0%nat) (Some (n - 1)%nat)).
Proof using Type.
  intros Hc Hn Hnum. set (K := fun _ : nat => 0).
  destruct (place_blk_run t (fun _ => new_CacheBlk) (fun _ => None) (fun _ => None) K B (Some 0%nat) e 0 None (Some 1%nat) (fa_blkSize t) ltac:(lia)) as (c0 & Hc0 & Hrun0).
  destruct (place_loop t K B (Some 0%nat) e (fa_blkSize t) (n - 2) 1 (<[0%nat := c0]> (fun _ => new_CacheBlk)) (<[0%nat := None]> (fun _ => None))
    (<[0%nat := Some 1%nat]> (fun _ => None))) as (C1 & P1 & X1 & Hrun1 & Hl1); [lia|lia| |].
  { apply (linked_step 0); [lia| |by rewrite Hc0]. split; [lia|lia|done]. }
  destruct (place_blk_run t C1 P1 X1 K B (Some 0%nat) (Some (n - 1)%nat) (n - 1) (Some (n - 2)%nat) None (fa_blkSize t) ltac:(lia)) as (c2 & Hc2 & Hrun2).
  replace (1 + (n - 2))%nat with (n - 1)%nat in Hl1 by lia. pose proof (ln_free _ _ _ _ Hl1) as Hfree.
  eexists _, _, _. split; [|split; [apply (linked_ordered C1 P1 X1 c2 Hn Hl1); by rewrite Hc2|]].
  2:{ unfold fa_tagsInit. erewrite bind_run by reflexivity. cbn [fa_numBlocks st]. rewrite Hnum. erewrite bind_run by reflexivity. cbn [fa_blkSize st].
      erewrite bind_run by (apply ptr_run; lia). erewrite bind_run by apply set_head_run. erewrite bind_run by (apply ptr_run; lia).
      erewrite bind_run by exact Hrun0. replace (Z.to_nat (Z.of_nat n) - 2)%nat with (n - 2)%nat by lia. erewrite bind_run by exact Hrun1.
      erewrite bind_run by (apply ptr_run; lia). erewrite bind_run by apply set_tail_run. erewrite bind_run by (apply ptr_run; lia).
      replace (Z.to_nat (Z.of_nat n - 1)) with (n - 1)%nat by lia. replace (Z.to_nat (Z.of_nat n - 2)) with (n - 2)%nat by lia.
      erewrite bind_run by exact Hrun2. reflexivity. }
  intros j. destruct (decide (n - 1 = j)%nat) as [<-|]; [by rewrite fn_lookup_insert, Hc2|by rewrite fn_lookup_insert_ne].
Qed.

Lemma fa_tagsInit_run t : fa_new t -> exists t', fa_tagsInit t = Ok (tt, t') /\ fa_rep n T N0 t' [] /\ same_fa t t' /\ same_counts t t'.
Proof using Type.
  intros Hnew. pose proof (new_st t Hnew) as Hst. pose proof (fn_conf _ Hnew) as Hc. pose proof (fn_two _ Hnew) as Hn.
  destruct (tagsInit_links t (replicate T None) (fa_head t) (fa_tail t) Hc Hn (fn_num _ Hnew)) as (C & P & X & Hfree & Ho & Hrun).
  rewrite <- Hst in Hrun.
  assert (exists K' B', tracking_init (Some 0%nat) (Some (n - 1)%nat) (st t n C P X (fun _ => 0) (replicate T None) (Some 0%nat) (Some (n - 1)%nat))
    = Ok (tt, st t n C P X K' B' (Some 0%nat) (Some (n - 1)%nat)) /\ tracks T N0 (seq 0 n) K' B') as (K' & B' & Hmarks & Ht).
  { unfold tracking_init. erewrite bind_run by reflexivity. erewrite bind_run by reflexivity. cbn [cacheTracking st fa_blks]. rewrite blocks_length.
    cbn [numTrackedCaches set_boundaries minTrackedSize inAllCachesMask]. pose proof (cf_T _ _ _ _ Hc) as HT. rewrite (cf_min _ _ _ _ Hc).
    pose proof (cf_nonneg _ _ _ _ Hc). destruct (Z.eqb_spec (numTrackedCaches (cacheTracking t)) 0) as [E0|E0].
    - exists (fun _ => 0), (replicate T None). split; [by destruct n|]. assert (T = 0%nat) as -> by lia. split; [|done|lia].
      intros k i y Hk. by rewrite Z.bits_0.
    - assert (Z.of_nat N0 = Z.of_nat (cap N0 0)) as -> by (unfold cap; rewrite Nat.mul_1_r; done).
      destruct (init_walk_run n T N0 (ct_blkSize (cacheTracking t)) (cf_sizes _ _ _ _ Hc) ltac:(apply Hc) ltac:(apply Hc) (cf_fit _ _ _ _ Hc) ltac:(apply Hc) ltac:(apply Hc)
        t C P X (Some 0%nat) (Some (n - 1)%nat) (seq 0 n) n 0 0 (inAllCachesMask (cacheTracking t)) (fun _ => 0) (replicate T None)) as (K' & B' & Hwalk & Htr);
        [done|exact Ho|lia|lia|eapply walk_start; apply Hc|apply length_replicate|lia|lia|].
      rewrite lookup_seq_lt in Hwalk by lia. by exists K', B'. }
  exists (st t n C P X K' B' (Some 0%nat) (Some (n - 1)%nat)). split; [by rewrite Hrun|]. split; [|done].
  exists (seq 0 n), C, P, X, K', B', (Some 0%nat), (Some (n - 1)%nat). split; [reflexivity|by apply conf_st|done|done|].
  cbn [tagHash fa_stats st]. rewrite (fn_hash _ Hnew), (fn_used _ Hnew). split; [by apply NoDup_nil|simpl; lia|done| | |done].
  - intros k i _ _. apply Hfree.
  - intros q i. split; [by rewrite lookup_empty|]. by intros (k & ? & _).
Qed.
End Init.

(** ** Construction *)

(** Power-of-two sizes; every tracked cache has at least two blocks. *)
Record size_params (sz blk min : Z) (n T N0 : nat) : Prop := {
  sp_blk : exists s, 0 <= s /\ blk = 2 ^ s;
  sp_size : sz = Z.of_nat n * blk;
  sp_min : min = Z.of_nat N0 * blk;
  sp_pow : exists i, (1 <= i)%nat /\ n = (2 ^ i)%nat;
  sp_two : exists i, (1 <= i)%nat /\ N0 = (2 ^ i)%nat;
  sp_small : sz < 2 ^ 32 /\ min < 2 ^ 32;
  sp_T : (T = 0%nat /\ (n <= N0)%nat) \/ ((0 < T)%nat /\ cap N0 T = n)
}.

Lemma pow_nat i : Z.of_nat (2 ^ i) = 2 ^ Z.of_nat i.
Proof. by rewrite Nat2Z.inj_pow. Qed.

Lemma new_tracking_run s i i0 n T N0 : 0 <= s -> n = (2 ^ i)%nat -> N0 = (2 ^ i0)%nat -> (1 <= i0)%nat ->
  Z.of_nat n * 2 ^ s < 2 ^ 32 -> Z.of_nat N0 * 2 ^ s < 2 ^ 32 -> (T = 0%nat /\ (n <= N0)%nat) \/ ((0 < T)%nat /\ cap N0 T = n) ->
  new_CacheTracking (Z.of_nat N0 * 2 ^ s) (Z.of_nat n * 2 ^ s) (2 ^ s)
  = Ok (mkTracking (2 ^ s) (Z.of_nat N0 * 2 ^ s) (Z.of_nat T) (u32 (mask (Z.of_nat T))) (replicate T None) (replicate (S T) 0) (replicate (S T) 0) 0)
  /\ (T < 32)%nat.
Proof.
  intros Hs En E0 Hi0 Hsm Hmm HT. rewrite En, E0, !pow_nat, <- !Z.pow_add_r in * by lia. unfold cap in HT. rewrite <- ?Nat.pow_add_r in HT.
  assert (Z.of_nat i + s < 32) as Hi32 by (by apply (Z.pow_lt_mono_r_iff 2); lia).
  assert ((Z.of_nat i0 + s <? Z.of_nat i + s) = (0 <? T)%nat /\ (T = i - i0)%nat) as [Hlt ET].
  { destruct HT as [[-> Hle]|[HT Hc]].
    - apply Nat.pow_le_mono_r_iff in Hle; [|lia]. split; [apply Z.ltb_ge|]; lia.
    - apply Nat.pow_inj_r in Hc; [|lia]. rewrite (proj2 (Nat.ltb_lt 0 T)) by lia. split; [apply Z.ltb_lt|]; lia. }
  split; [|lia]. unfold new_CacheTracking.
  assert ((2 ^ (Z.of_nat i0 + s) <? 2 ^ (Z.of_nat i + s)) = (Z.of_nat i0 + s <? Z.of_nat i + s)) as ->.
  { apply eq_true_iff_eq. rewrite !Z.ltb_lt. symmetry. apply Z.pow_lt_mono_r_iff; lia. }
  rewrite Hlt. assert (0 < 2 ^ (Z.of_nat i + s) /\ 0 < 2 ^ (Z.of_nat i0 + s)) as [Hp1 Hp2] by lia.
  assert ((if (0 <? T)%nat then a ← floorLog2 4 (2 ^ (Z.of_nat i + s)); b ← floorLog2 4 (2 ^ (Z.of_nat i0 + s)); Ok (a - b) else Ok 0) = Ok (Z.of_nat T)) as ->.
  { destruct (Nat.ltb_spec 0 T); [|f_equal; lia]. rewrite !floorLog2_run by (tauto || (change (8 * 4) with 32; lia)).
    cbn [mbind res_bind]. rewrite !Z.log2_pow2 by lia. f_equal. lia. }
  cbn [mbind res_bind]. rewrite (proj2 (Z.ltb_ge 32 (Z.of_nat T))) by lia. rewrite Nat2Z.id, Nat.add_1_r. done.
Qed.

Lemma new_run sz blk min n T N0 lat bound masters : size_params sz blk min n T N0 -> exists t,
  new_FALRU sz blk lat bound masters min = Ok t /\ fa_new n T N0 t /\ fa_blkSize t = blk /\ fa_maxMasters t = masters
  /\ hits (cacheTracking t) = replicate (S T) 0 /\ misses (cacheTracking t) = replicate (S T) 0.
Proof.
  intros [(s & Hs & ->) -> -> (i & Hi & En) (i0 & Hi0 & E0) [Hsm Hmm] HT].
  destruct (new_tracking_run s i i0 n T N0 Hs En E0 Hi0 Hsm Hmm HT) as [Htrack HT32].
  assert (0 < 2 ^ s) as Hb by lia. assert (2 <= n)%nat as Hn by (rewrite En; change 2%nat with (2 ^ 1)%nat at 1; apply Nat.pow_le_mono_r; lia).
  assert (2 <= N0)%nat as HN by (rewrite E0; change 2%nat with (2 ^ 1)%nat at 1; apply Nat.pow_le_mono_r; lia).
  assert (2 ^ s < 2 ^ 32) as Hb32 by nia. assert (forall x, 0 <= x < 2 ^ 32 -> u32 x = x) as Hu by (intros x Hx; by apply wrap_small).
  unfold new_FALRU. rewrite (proj2 (Z.eqb_neq (2 ^ s) 0)) by lia. rewrite (u64_small (2 ^ s)) by lia. rewrite Z.div_mul by lia.
  rewrite !Hu by nia. rewrite Htrack. cbn [mbind res_bind].
  assert (isPowerOf2 (2 ^ s) = true) as -> by (apply isPowerOf2_spec; [lia|by exists s]).
  assert (isPowerOf2 (Z.of_nat n * 2 ^ s) = true) as ->.
  { apply isPowerOf2_spec; [nia|]. exists (Z.of_nat i + s). split; [lia|]. by rewrite En, pow_nat, Z.pow_add_r by lia. }
  cbn [negb]. eexists. split; [reflexivity|]. split; [|done]. rewrite Nat2Z.id. split; try done. split; try done; simpl.
  - split; [done|]. intros j Hj. destruct HT as [[-> _]|[_ <-]]; [lia|]. unfold cap. pose proof (Nat.pow_lt_mono_r 2 j T). nia.
  - lia.
  - lia.
  - intros y. unfold u32. rewrite wrap_small; [rewrite mask_testbit by lia; destruct (Nat.ltb_spec y T); [apply Z.ltb_lt|apply Z.ltb_ge]; lia|].
    rewrite mask_ones, Z.ones_equiv by lia. pose proof (Z.pow_le_mono_r 2 (Z.of_nat T) 32). lia.
  - by rewrite length_replicate.
  - by rewrite length_replicate.
  - lia.
  - destruct (Nat.max_spec n N0) as [[_ ->]|[_ ->]]; done.
  - destruct HT as [[-> H]|[_ <-]]; [unfold cap; simpl; lia|done].
  - by destruct HT as [[-> _]|[_ <-]]; [lia|].
Qed.
