(* ===== verification/FALRUStack.v ===== *)
(** * The fully associative tags are LRU caches of all tracked sizes at once

    A run of references against the tags is compared with separate LRU caches,
    one of each tracked size: the mask that a lookup returns tells for every one
    of them whether it would have hit. *)

From stdpp Require Import functions.
From S2P Require Import Prelude IntMath Bitfield Hoare EventQ Packet Request PacketData CacheBlk ReplPolicy Indexing Tags TagsProps FALRU FALRUList FALRUProps.

(** ** References *)

(** The part of [BaseCache::allocateBlock] that involves the tags, for a block
    that is not there. *)
Definition fa_fill (now : Z) (pkt : Pkt) : FA unit :=
  '(victim, evict_blks) ← fa_findVictim;
  forM_ evict_blks (fun v => b ← deref v; when_ (blk_isValid (fb_blk b)) (fa_invalidate v));;
  fa_insertBlock now pkt victim.

(** A reference: whether it hit, and the mask of the caches that hold the block. *)
Definition fa_reference (now : Z) (pkt : Pkt) : FA (bool * Z) :=
  a ← lift (getAddr pkt);
  sec ← lift (isSecure pkt);
  '(blk, mask, _) ← fa_accessBlock a sec;
  match blk with
  | Some _ => mret (true, mask)
  | None => fa_fill now pkt;; mret (false, mask)
  end.
Fixpoint fa_references (rs : list (Z * Pkt)) : FA (list (bool * Z)) :=
  match rs with
  | [] => mret []
  | (now, pkt) :: rs => r ← fa_reference now pkt; rest ← fa_references rs; mret (r :: rest)
  end.

Definition ref_ok (masters : Z) (pkt : Pkt) (a : Z) (sec : bool) : Prop :=
  getAddr pkt = Ok a /\ isSecure pkt = Ok sec /\ rq_masterId (p_req pkt) < masters.

(** ** The reference definition: an LRU cache of [m] blocks *)

Definition lru_ref (m : nat) (q : Key) (c : list Key) : list Key := take m (lru_touch q c).
Fixpoint lru_hits (m : nat) (qs : list Key) (c : list Key) : list bool :=
  match qs with
  | [] => []
  | q :: qs => bool_decide (q ∈ c) :: lru_hits m qs (lru_ref m q c)
  end.

Lemma lru_touch_nodup q (c : list Key) : NoDup c -> NoDup (lru_touch q c).
Proof. intros Hc. apply NoDup_cons. split; [|by apply NoDup_filter]. intros [? _]%list_elem_of_filter. done. Qed.
Lemma filter_short (q : Key) (c : list Key) : NoDup c -> (length c <= S (length (filter (fun x => x <> q) c)))%nat.
Proof.
  induction 1 as [|x c Hx Hc IH]; [simpl; lia|]. rewrite filter_cons. destruct (decide (x <> q)) as [Hne|He]; [simpl; lia|].
  assert (x = q) as -> by (by destruct (decide (x = q))). rewrite list_filter_all; [done|]. apply Forall_forall. by intros y Hy ->.
Qed.

(** Smaller caches hold the top of the stack (the inclusion property of LRU). *)
Lemma lru_inclusion m n q (c : list Key) : NoDup c -> (0 < m <= n)%nat -> take m (lru_ref n q c) = lru_ref m q (take m c).
Proof.
  intros Hc Hm. unfold lru_ref. rewrite take_take, Nat.min_l by lia. unfold lru_touch. destruct m as [|m]; [lia|]. simpl. f_equal.
  rewrite <- (take_drop (S m) c) at 1. rewrite filter_app. destruct (decide (length c <= S m)%nat) as [Hl|Hl].
  - rewrite drop_ge by done. by rewrite filter_nil, app_nil_r.
  - apply take_app_le. pose proof (filter_short q (take (S m) c)) as H. rewrite length_take in H.
    apply Nat.lt_succ_r. eapply Nat.le_trans; [|apply H]; [lia|]. by eapply sublist_NoDup; [exact Hc|apply sublist_take].
Qed.

Section Runs.
Context (n T N0 : nat).
Implicit Types t : FALRU.
Implicit Types ks : list Key.

Lemma rep_nodup t ks : fa_rep n T N0 t ks -> NoDup ks /\ (length ks <= n)%nat.
Proof using Type. intros (l & C & P & X & K & B & h & e & [_ _ _ _ Hk]). split; apply Hk. Qed.
Lemma rep_sizes t ks : fa_rep n T N0 t ks -> sizes_ok n T N0 /\ (0 < n)%nat.
Proof using Type. intros (l & C & P & X & K & B & h & e & [_ Hc _ _ _]). split; apply Hc. Qed.

(** The block at the end of the list is the victim; if all blocks are in use it
    holds the oldest key. *)
Lemma victim_key t ks : fa_rep n T N0 t ks -> exists b x, fa_tail t = Some b /\ deref (Some b) t = Ok (x, t)
  /\ (blk_isValid (fb_blk x) = true -> exists q, ks !! (n - 1)%nat = Some q /\ tagHash t !! q = Some b)
  /\ (blk_isValid (fb_blk x) = false -> (length ks < n)%nat).
Proof using Type.
  intros (l & C & P & X & K & B & h & e & Hs). destruct (tail_free _ _ _ _ _ _ _ _ _ _ _ _ _ Hs) as (b & He & Hb & Hbn & _).
  destruct Hs as [Hst Hc Ho Ht Hk]. exists b, (mkFBlk (C b) (P b) (X b) (K b)). split; [by rewrite Hst|]. split; [by eapply deref_st|]. cbn [fb_blk].
  destruct (ks !! (n - 1)%nat) as [q|] eqn:Eq.
  - destruct (hk_valid _ _ _ _ _ _ Hk _ b q Hb Eq) as [-> _]. split; [|done]. intros _. exists q. split; [done|]. apply (hk_hash _ _ _ _ _ _ Hk). eauto.
  - pose proof (hk_free _ _ _ _ _ _ Hk _ b Hb Eq) as E. unfold blk_isValid. rewrite E. split; [done|]. intros _.
    apply lookup_ge_None in Eq. pose proof (cf_pos _ _ _ _ Hc). lia.
Qed.

Lemma fill_run t ks now pkt a sec : fa_rep n T N0 t ks -> ref_ok (fa_maxMasters t) pkt a sec -> (fa_extractTag a t, sec) ∉ ks -> exists t',
  fa_fill now pkt t = Ok (tt, t') /\ same_fa t t' /\ fa_rep n T N0 t' (take n ((fa_extractTag a t, sec) :: ks)) /\ same_counts t t'.
Proof using Type.
  intros Hr (Ea & Es & Hm) Hq. destruct (victim_key t ks Hr) as (b & x & Etail & Hx & Hvalid & Hfree).
  destruct (rep_nodup t ks Hr) as [Hnd Hlen]. pose proof (rep_sizes t ks Hr) as [_ Hpos].
  assert (exists t1 ks1, (y ← deref (Some b); when_ (blk_isValid (fb_blk y)) (fa_invalidate (Some b))) t = Ok (tt, t1) /\ same_fa t t1
    /\ fa_rep n T N0 t1 ks1 /\ fa_tail t1 = Some b /\ same_counts t t1 /\ (length ks1 < n)%nat /\ take n ((fa_extractTag a t, sec) :: ks) = (fa_extractTag a t, sec) :: ks1
    /\ (fa_extractTag a t, sec) ∉ ks1) as (t1 & ks1 & Hrun & Hs1 & Hr1 & Ht1 & Hc1 & Hl1 & Ek & Hq1).
  { rewrite (bind_run _ _ _ _ _ Hx). destruct (blk_isValid (fb_blk x)) eqn:Ev; unfold when_.
    - destruct (Hvalid eq_refl) as (q & Hlast & Hhash). destruct (invalidate_run n T N0 t ks q b Hr Hhash) as (t1 & H1 & H2 & H3 & H4 & H5).
      assert (lru_invalidate q ks = take (n - 1) ks) as Eks.
      { unfold lru_invalidate. rewrite <- (delete_key ks (n - 1) q) by done. rewrite delete_take_drop. rewrite drop_ge by lia. apply app_nil_r. }
      rewrite Eks in H3. exists t1, (take (n - 1) ks). do 5 (split; [done|]). split; [rewrite length_take; lia|].
      split; [destruct n; [lia|]; simpl; by rewrite Nat.sub_0_r|]. by intros (j & Hj & _)%elem_of_take; apply Hq; eapply list_elem_of_lookup_2.
    - exists t, ks. split; [done|]. split; [done|]. split; [done|]. split; [done|]. split; [done|]. pose proof (Hfree eq_refl). split; [done|].
      split; [|done]. apply take_ge. simpl. lia. }
  assert (fa_extractTag a t1 = fa_extractTag a t) as Etag by (unfold fa_extractTag; by rewrite (proj1 Hs1)).
  destruct (insert_run n T N0 t1 ks1 now pkt a sec Hr1 Hl1 Ea Es) as (t' & Hins & Hs' & Hr' & Hc'); [by rewrite (proj1 (proj2 Hs1))|by rewrite Etag|].
  exists t'. split; [|split; [|split; [by rewrite Ek, <- Etag|]]].
  - unfold fa_fill, fa_findVictim. erewrite bind_run; [|erewrite bind_run by reflexivity; reflexivity]. cbv beta iota. rewrite Etail. cbn [forM_].
    erewrite bind_run; [|erewrite bind_run by exact Hrun; reflexivity]. by rewrite <- Ht1.
  - destruct Hs1 as (? & ? & ?), Hs' as (? & ? & ?). by split_and!; etrans.
  - destruct Hc1, Hc'. split; by etrans.
Qed.

Lemma reference_run t ks now pkt a sec : fa_rep n T N0 t ks -> ref_ok (fa_maxMasters t) pkt a sec ->
  let q := (fa_extractTag a t, sec) in exists mask t', fa_reference now pkt t = Ok ((bool_decide (q ∈ ks), mask), t') /\ same_fa t t'
  /\ fa_rep n T N0 t' (lru_ref n q ks)
  /\ (forall y : nat, (y < T)%nat -> Z.testbit mask (Z.of_nat y) = bool_decide (q ∈ take (cap N0 y) ks))
  /\ hits (cacheTracking t') = hits (counted (bool_decide (q ∈ ks)) (cacheTracking t))
  /\ misses (cacheTracking t') = misses (counted (bool_decide (q ∈ ks)) (cacheTracking t)).
Proof using Type.
  intros Hr Hok q. pose proof Hok as (Ea & Es & Hm). unfold fa_reference. rewrite Ea, Es. erewrite (bind_run (lift (Ok a))) by reflexivity.
  erewrite (bind_run (lift (Ok sec))) by reflexivity.
  destruct (access_run n T N0 t ks a sec Hr) as (blk & mask & t1 & Hrun & Hs1 & Hr1 & Hblk & Hmask & Hh & Hms).
  rewrite (bind_run _ _ _ _ _ Hrun). cbv beta iota. fold q in Hr1, Hblk, Hmask, Hh, Hms. destruct (rep_nodup t ks Hr) as [Hnd Hlen].
  assert (forall y : nat, (y < T)%nat -> Z.testbit mask (Z.of_nat y) = bool_decide (q ∈ take (cap N0 y) ks)) as Hmask'.
  { intros y Hy. by rewrite Hmask, (proj2 (Nat.ltb_lt y T) Hy). }
  unfold lru_access in Hr1. destruct blk as [i|].
  - assert (q ∈ ks) as Hin by (by apply Hblk). rewrite decide_True in Hr1 by done. rewrite bool_decide_eq_true_2 in * by done.
    exists mask, t1. split; [done|]. split; [done|]. split; [|done]. unfold lru_ref. rewrite take_ge; [done|].
    by destruct (rep_nodup _ _ Hr1).
  - assert (q ∉ ks) as Hin by (intros H; by apply Hblk in H as []). rewrite decide_False in Hr1 by done. rewrite bool_decide_eq_false_2 in * by done.
    assert (fa_extractTag a t1 = fa_extractTag a t) as Etag by (unfold fa_extractTag; by rewrite (proj1 Hs1)).
    destruct (fill_run t1 ks now pkt a sec Hr1) as (t' & Hfill & Hs' & Hr' & Hh' & Hm'); [by rewrite <- (proj1 (proj2 Hs1)) in Hok|by rewrite Etag|].
    rewrite (bind_run _ _ _ _ _ Hfill). exists mask, t'. split; [done|]. split; [|split; [|split; [done|by rewrite Hh', Hm']]].
    + destruct Hs1 as (? & ? & ?), Hs' as (? & ? & ?). by split_and!; etrans.
    + rewrite Etag in Hr'. unfold lru_ref, lru_touch. rewrite list_filter_all; [done|]. apply Forall_forall. by intros y Hy ->.
Qed.

(** *** Runs *)

Definition key_at (blkSize : Z) (ad : Z * bool) : Key := (Z.land ad.1 (not64 (u64 (blkSize - 1))), ad.2).
Definition refs_ok (masters : Z) (rs : list (Z * Pkt)) (ads : list (Z * bool)) : Prop :=
  Forall2 (fun r ad => ref_ok masters r.2 ad.1 ad.2) rs ads.

Definition hit_count (bs : list bool) : Z := Z.of_nat (length (filter (fun b : bool => b = true) bs)).
Lemma hit_count_cons b bs : hit_count (b :: bs) = (if b then 1 else 0) + hit_count bs.
Proof using Type. unfold hit_count. rewrite filter_cons. destruct b; simpl; lia. Qed.

Lemma references_run rs ads t ks : fa_rep n T N0 t ks -> refs_ok (fa_maxMasters t) rs ads ->
  let qs := map (key_at (fa_blkSize t)) ads in exists outs t' ks', fa_references rs t = Ok (outs, t') /\ fa_rep n T N0 t' ks'
  /\ map fst outs = lru_hits n qs ks
  /\ (forall y, (y < T)%nat -> map (fun o => Z.testbit o.2 (Z.of_nat y)) outs = lru_hits (cap N0 y) qs (take (cap N0 y) ks))
  /\ hits (cacheTracking t') = (fun x => x + hit_count (lru_hits n qs ks)) <$> hits (cacheTracking t).
Proof using Type.
  intros Hr Hok. revert t ks Hr Hok. revert ads. induction rs as [|[now pkt] rs IH]; intros ads t ks Hr Hok; apply Forall2_cons_inv_l in Hok || apply Forall2_nil_inv_l in Hok.
  { subst ads. exists [], t, ks. split; [done|]. split; [done|]. split; [done|]. split; [done|]. rewrite <- (list_fmap_id (hits (cacheTracking t))) at 1. apply list_fmap_ext. intros ? x _. change (x = x + 0). lia. }
  destruct Hok as ([a sec] & ads' & H1 & Hok & ->). cbn [map].
  destruct (reference_run t ks now pkt a sec Hr H1) as (m & t1 & Hrun & Hs & Hr1 & Hm & Hh & _). destruct Hs as (Eb & Em & _).
  destruct (IH ads' t1 (lru_ref n (fa_extractTag a t, sec) ks) Hr1 ltac:(by rewrite Em)) as (outs & t' & ks' & Hrun' & Hr' & Hhit & Hmask & Hcnt).
  rewrite Eb in Hhit, Hmask, Hcnt. change (fa_extractTag a t, sec) with (key_at (fa_blkSize t) (a, sec)) in *.
  destruct (rep_nodup t ks Hr) as [Hnd _]. destruct (rep_sizes t ks Hr) as [Hsz _].
  eexists _, t', ks'. split; [|split; [exact Hr'|split; [|split]]].
  - cbn [fa_references]. erewrite bind_run by exact Hrun. erewrite bind_run by exact Hrun'. reflexivity.
  - cbn [map fst lru_hits]. by rewrite Hhit.
  - intros y Hy. cbn [map snd lru_hits]. rewrite (Hm y Hy), (Hmask y Hy). rewrite lru_inclusion; [done|done|].
    pose proof (cap_two _ _ _ y Hsz). pose proof (sz_less _ _ _ Hsz y Hy). lia.
  - rewrite Hcnt, Hh. cbn [lru_hits]. rewrite hit_count_cons. unfold counted. cbn [hits set_counts]. case_bool_decide.
    + rewrite <- list_fmap_compose. apply list_fmap_ext. intros ? x _. cbn. lia.
    + apply list_fmap_ext. intros ? x _. lia.
Qed.
End Runs.

(** C31: the fully associative tags are LRU caches of all the tracked sizes at
    once.  For power-of-two sizes, with at least two blocks in the smallest
    tracked cache, the tags can be built, and any sequence of references (a
    lookup, and on a miss the eviction of the victim and the insertion of the
    block) runs without a failure.  It hits exactly when an LRU cache of the full
    size does, and bit i of the mask a lookup returns says whether a separate LRU
    cache of the i-th tracked size, given the same references, would hit.  The
    sanity check of the source passes in the end. *)
Theorem falru_tracks_all_sizes sz blk min n T N0 lat bound masters rs ads : size_params sz blk min n T N0 -> refs_ok masters rs ads ->
  let qs := map (key_at blk) ads in exists t0 t1 outs t',
  new_FALRU sz blk lat bound masters min = Ok t0 /\ fa_tagsInit t0 = Ok (tt, t1) /\ fa_references rs t1 = Ok (outs, t')
  /\ map fst outs = lru_hits n qs []
  /\ (forall y, (y < T)%nat -> map (fun o => Z.testbit o.2 (Z.of_nat y)) outs = lru_hits (cap N0 y) qs [])
  /\ tracking_check (fa_head t') (fa_tail t') t' = Ok (tt, t').
Proof.
  intros Hp Hok qs. destruct (new_run sz blk min n T N0 lat bound masters Hp) as (t0 & Hnew & Hn & Eb & Em & _).
  destruct (fa_tagsInit_run n T N0 t0 Hn) as (t1 & Hinit & Hr & (Eb1 & Em1 & _) & _). rewrite Eb in Eb1. rewrite Em in Em1.
  destruct (references_run n T N0 rs ads t1 [] Hr ltac:(by rewrite Em1)) as (outs & t' & ks' & Hrun & Hr' & Hh & Hm & _). rewrite Eb1 in Hh, Hm.
  exists t0, t1, outs, t'. do 4 (split; [done|]). split; [|by eapply check_passes]. intros y Hy. rewrite (Hm y Hy). by rewrite take_nil.
Qed.

(** The counters do not tell the sizes apart: [recordAccess] runs after the block
    has been moved to the head, where all caches hold it, so every counter of
    hits is that of the actual cache. *)
Theorem falru_counts_largest sz blk min n T N0 lat bound masters rs ads : size_params sz blk min n T N0 -> refs_ok masters rs ads ->
  exists t0 t1 outs t', new_FALRU sz blk lat bound masters min = Ok t0 /\ fa_tagsInit t0 = Ok (tt, t1) /\ fa_references rs t1 = Ok (outs, t')
  /\ hits (cacheTracking t') = replicate (S T) (hit_count (lru_hits n (map (key_at blk) ads) [])).
Proof.
  intros Hp Hok. destruct (new_run sz blk min n T N0 lat bound masters Hp) as (t0 & Hnew & Hn & Eb & Em & Hz & _).
  destruct (fa_tagsInit_run n T N0 t0 Hn) as (t1 & Hinit & Hr & (Eb1 & Em1 & _) & (Hh1 & _)). rewrite Eb in Eb1. rewrite Em in Em1.
  destruct (references_run n T N0 rs ads t1 [] Hr ltac:(by rewrite Em1)) as (outs & t' & ks' & Hrun & _ & _ & _ & Hc). rewrite Eb1 in Hc.
  exists t0, t1, outs, t'. do 3 (split; [done|]). rewrite Hc, Hh1, Hz. by rewrite fmap_replicate.
Qed.

(** ** Eight blocks, and caches of two and four blocks tracked *)

Definition fa_trace : list Z := [0; 64; 128; 0; 192; 256; 100; 0].
Definition fa_refs : list (Z * Pkt) := map (fun a => (5, demo_pkt a)) fa_trace.
Lemma fa_refs_ok : refs_ok 8 fa_refs (map (fun a => (a, false)) fa_trace).
Proof. repeat (apply Forall2_cons; split; [by split_and!; vm_compute|]). by apply Forall2_nil. Qed.
Lemma fa_sizes : size_params 512 64 128 8 2 2.
Proof. split; [by exists 6|done|done|by exists 3%nat; split; [lia|]|by exists 1%nat; split; [lia|]|done|by right; split; [lia|]]. Qed.

Lemma falru_tracks_all_sizes_witness : exists t0 t1 outs t',
  new_FALRU 512 64 2 8 8 128 = Ok t0 /\ fa_tagsInit t0 = Ok (tt, t1) /\ fa_references fa_refs t1 = Ok (outs, t')
  /\ map fst outs = [false; false; false; true; false; false; true; true]
  /\ map (fun o => Z.testbit o.2 0) outs = [false; false; false; false; false; false; false; false]
  /\ map (fun o => Z.testbit o.2 1) outs = [false; false; false; true; false; false; false; true].
Proof.
  destruct (falru_tracks_all_sizes 512 64 128 8 2 2 2 8 8 fa_refs (map (fun a => (a, false)) fa_trace) fa_sizes fa_refs_ok)
    as (t0 & t1 & outs & t' & H1 & H2 & H3 & H4 & H5 & _).
  exists t0, t1, outs, t'. split; [exact H1|]. split; [exact H2|]. split; [exact H3|].
  split; [rewrite H4; by vm_compute|]. split; [exact (H5 0%nat ltac:(lia))|exact (H5 1%nat ltac:(lia))].
Defined.

(** All three counters say three hits; the smaller caches have none and two. *)
Example falru_counts_wrong : (t0 ← new_FALRU 512 64 2 8 8 128; match (fa_tagsInit;; fa_references fa_refs) t0 with
  | Ok (_, t) => Ok (hits (cacheTracking t)) | Err e => Err e end) = Ok [3; 3; 3].
Proof. by vm_compute. Qed.

(** A tracked cache of one block: its boundary runs off the list at the first
    insertion, and the second one follows it. *)
Example falru_one_block_crash : (t0 ← new_FALRU 256 64 2 4 8 64; match (fa_tagsInit;; fa_references (take 2 fa_refs)) t0 with
  | Ok (o, _) => Ok o | Err e => Err e end) = Err (EUndefined "null block").
Proof. by vm_compute. Qed.

(** A tracked size below the size of a block: the masks are never cleared, and
    the first insertion fails an assertion. *)
Example falru_small_tracked_asserts : (t0 ← new_FALRU 256 64 2 4 8 32; match (fa_tagsInit;; fa_references (take 1 fa_refs)) t0 with
  | Ok (o, _) => Ok o | Err e => Err e end) = Err (EAssert "falruBlk->inCachesMask == 0").
Proof. by vm_compute. Qed.

(** A cache of one block: [tagsInit] takes the address of a block before the array. *)
Example falru_single_block : (t0 ← new_FALRU 64 64 2 4 8 1024; exec fa_tagsInit t0) = Err (EUndefined "blks").
Proof. by vm_compute. Qed.

(** Labels: a size of 2^60 bytes is beyond the table of units. *)
Example printSize_beyond : printSize (2 ^ 60) = Err (EUndefined "SIZES") /\ printSize (2 ^ 50) = Ok (1, "ZB"%string).
Proof. by vm_compute. Qed.
